(* ===== verification/_CoqProject ===== *)
-Q . S2P
Prelude.v
Unicode.v
UnicodeSplit.v
GrammarUtf8.v
GrammarSyntax.v
GrammarParser.v
GrammarEngine.v
GrammarLeftRecursion.v
GrammarReject.v
Grammar.v
Batch.v
KvCache.v
KvSpec.v
KvUpdate.v
KvShift.v
Outputs.v
Inputs.v
Decode.v
DecodeSpec.v
DecodeExamples.v
State.v
StateBytes.v
StateRead.v
StateSpec.v
StateExamples.v
Vocab.v
Merge.v
Spm.v
Bpe.v
Trie.v
Wpm.v
Ugm.v
Tokenize.v
Partition.v
Detok.v
RoundTrip.v
RoundTripBpe.v
PreTypes.v
VocabLoad.v
VocabLoadSpec.v
HashSet.v
Alloc.v
Pad.v
AllocSpec.v
Tensor.v
Graph.v
GraphSpec.v
Buffers.v
Gallocr.v
GallocSpec.v
GallocSafety.v
GallocExec.v
GallocBuffers.v
GallocReserve.v
GallocInit.v
GallocCorrect.v
GraphAlloc.v
CtxAlloc.v
CtxAllocSpec.v
Gguf.v
GgufSpec.v
GgufRead.v
GgufMap.v
GgufEdit.v
GgufCorrect.v
