(* ===== verification/Prelude.v ===== *)
(** A verification of the inference engine of this repository: the C++ library
    llama.cpp under [src/llm/llama.cpp], which the restaurant assistant runs as its
    language model. The development covers the parts of the engine that are
    algorithms on discrete data: text and tokens, grammars, batches, the key/value
    cache, the control of a decoding, the saved state, the memory of the tensors, and
    the files of models.

    * How the parts interact

    A text is split into words ([src/unicode.cpp]), a vocabulary turns words into
    tokens and tokens into pieces of text ([src/llama-vocab.cpp]). Tokens with their
    positions and sequences form a batch, which is completed, sorted and cut into
    ubatches ([src/llama-batch.cpp]). For every ubatch the cache provides cells
    ([src/llama-kv-cache.cpp]), the inputs of the computation are filled in
    ([src/llama-context.cpp]), and [llama_decode_impl] of [src/llama.cpp] runs the
    loop and collects the rows of the outputs. A grammar ([src/llama-grammar.cpp])
    rejects candidates for the next token. The state of a context is written and
    read back by [src/llama-context.cpp].

    Below this lies the tensor library [ggml]. The weights and the cache are contexts of
    tensors that get memory for good ([ggml_backend_alloc_ctx_tensors_from_buft] of
    [ggml/src/ggml-alloc.c]). The computation of a ubatch is a graph: the results are
    expanded into it with their sources ([ggml_build_forward_expand] of
    [ggml/src/ggml.c]), a plan is made in which tensors reuse the memory of tensors that
    are no longer read ([ggml_gallocr_alloc_graph_impl]), buffers are reserved for the
    plan ([ggml/src/ggml-backend.cpp]), and the tensors get their addresses. A model comes
    from a GGUF file ([ggml/src/gguf.cpp]): pairs of keys and values, from which the
    vocabulary is loaded, and tensors at offsets of a data section.

    * Files

    - Prelude: fallible computations, loops with fuel, vectors indexed by C++
      integers, wrapped integers, byte strings, [std::sort] and [std::priority_queue]
      with their laws, and generic lemmas.
    - Unicode, UnicodeSplit ([src/unicode.cpp]): UTF-8, the byte-level alphabet, code
      point flags, the pre-tokeniser.
    - GrammarUtf8, GrammarSyntax, GrammarParser, GrammarEngine, GrammarLeftRecursion,
      GrammarReject, Grammar ([src/llama-grammar.cpp]): incremental decoding, the
      elements of a grammar and the language they stand for, the parser with the
      rewriting of repetitions, the pushdown stacks, the search for left recursion,
      the rejection of candidates, the grammar object.
    - Batch ([src/llama-batch.cpp]); KvCache, KvSpec, KvUpdate, KvShift
      ([src/llama-kv-cache.cpp], the update and defragmentation of [src/llama.cpp]);
      Outputs, Inputs ([src/llama-context.cpp]); Decode, DecodeSpec, DecodeExamples
      ([llama_decode_impl], [llama_encode_impl]).
    - State, StateBytes, StateRead, StateSpec, StateExamples (saving and restoring,
      [src/llama-context.cpp]).
    - Vocab, Merge, Spm, Bpe, Trie, Wpm, Ugm, Tokenize, Partition, Detok, RoundTrip,
      RoundTripBpe ([src/llama-vocab.cpp]); PreTypes, VocabLoad, VocabLoadSpec (the
      construction of a vocabulary from the metadata of a model file).
    - HashSet ([ggml/src/ggml-impl.h]), Tensor ([ggml/include/ggml.h], the sizes of
      [ggml.c]), Graph, GraphSpec ([ggml/src/ggml.c]), Buffers
      ([ggml/src/ggml-backend.cpp]); Alloc, AllocSpec (the allocator of offsets),
      Gallocr, GallocSpec, GallocSafety, GallocExec (the plan of a graph),
      GallocBuffers, GallocReserve, GallocInit, GallocCorrect (reserving and placing),
      CtxAlloc, CtxAllocSpec (contexts), all of [ggml/src/ggml-alloc.c]; Pad (the
      rounding of [GGML_PAD]); GraphAlloc (from the outputs of a computation to tensors
      with memory, the composition of the parts before).
    - Gguf (the context, the getters and setters, the reader and the writer of
      [ggml/src/gguf.cpp]), GgufSpec (what is written and that it is read), GgufRead (what
      the reader accepts), GgufMap, GgufEdit (the setters as updates of a map and a list),
      GgufCorrect (the theorems, an example, and files on which the reader fails).

    A file with the definitions of a component keeps the code's names; where the code
    has one long function, its loops are definitions of their own, in its order.

    * Conventions

    A C++ function that can fail is a function to [res]: [Ok], or [Err] with an
    exception ([Throw]), a failed [GGML_ASSERT] ([Abort]), undefined behaviour ([UB]:
    an access outside a vector, a signed overflow), or the end of the fuel ([Fuel]).
    [safe m P] says that [m] returns and [P] holds of the result; [may_throw m P]
    allows an exception. Integers are [Z]; unsigned ones wrap by [u32], [u64], signed
    ones fail by [s32] where the code can overflow. A [while] loop has fuel, chosen
    in the definition from the data, e.g. the length of the text or the number of
    cells plus one; every theorem that a function returns shows that it suffices.
    Objects that the code mutates are records passed along.

    * What the theorems show

    - Text: the UTF-8 round trip, the byte alphabet, the splitters partition the text
      and lose nothing whatever the regular expressions match.
    - Grammars: an accepted grammar text gives well-formed rules; the rules of a
      repetition generate the repetitions; accepting a character takes the derivative
      of the language of the stacks; the rejected candidates are exactly those that no
      stack can take; a token that is not masked can be accepted.
    - Batches and cache: every token of a batch is computed once and in order; the
      cells refine a map from slots to positions and sequences (KvSpec), all reachable
      caches are well formed; defragmentation moves rows with their cells; keys follow
      their positions; a token attends to exactly the history of its sequences.
    - Decoding: [llama_decode_impl] terminates, on success the batch is in the cache
      and the rows of the outputs are those of a computation of the whole batch.
    - State: what is saved is restored, for a whole state, a file and one sequence.
    - Vocabulary: the sessions of the five tokenisers against their references
      (greedy merges, longest matches, a tiling of the text), the partition by special
      tokens, exact measuring and the transparent cache of detokenising, and the two
      round trips from text to tokens and back; loading builds tables that are inverse
      to each other and special tokens that are in range.

    - Memory: a table of pointers holds what was put in; the live ranges of the offset
      allocator are disjoint and aligned, and it makes progress; building a graph returns
      with exactly the tensors that the result depends on, each after its sources; running
      a graph in the shared memory of its plan gives what a run with memory of its own for
      every tensor gives (GallocExec, from the planner without a table of GallocSpec and
      the invariant of GallocSafety); after a reservation the tensors of a graph are placed
      in live buffers as planned (GallocCorrect); a context is placed without overlap, or
      all its buffers are freed (CtxAllocSpec). GraphAlloc joins them: from tensors as the
      constructors make them to a computation in shared memory that agrees with separate
      memory.
    - GGUF files: what is written is read back, with every tensor's bytes at its offset;
      whatever the reader accepts is well formed; the setters update a finite map of pairs
      and a list of tensors and keep the context writable; what is set is got.

    The examples in DecodeExamples, StateExamples and GgufCorrect, and lemmas such as
    [failed_reserve_double_free] of GallocCorrect, show inputs on which the code departs
    from its comments or its purpose.

    * Parameters and what is not modelled

    Tables that a generator writes ([unicode-data.cpp]), [std::regex], [std::sort],
    [std::priority_queue], and what a backend computes enter as classes
    ([UnicodeData], [RegexEngine], [CppSort], [CppHeap], [CppHashOrder], [Backend]) with
    the laws the code relies on; each law has an instance. [BufferTypes] is what a
    backend answers about memory, with the law [SaneBackends] that it gives as much as
    was asked for, aligned; [Memory] tells which sizes a vector of the GGUF reader can have.
    A file is the list of its bytes. In the plan of a graph the counters of readers and views are
    unbounded, as they are below the size of the graph; plain [assert]s are absent, as in
    a release build; the depth of the visit of a graph is fuel, and the theorem bounds it.

    Not modelled are the kernels of the tensor library, its scheduler, gradients,
    constructors of operations, the memory of contexts and the callbacks of a backend for
    a placed tensor; the graphs of the model architectures, quantisation, the tensors
    that the loaders make in a context and the calls that open and close files, the samplers' arithmetic, chat templates, the command line, the
    server, vendored libraries, and the programs of the repository in other languages:
    they are arithmetic on floating point numbers, input and output, or code that is
    called through a parameter.
*)
From stdpp Require Export base tactics list numbers gmap sets strings sorting.
From Stdlib Require Export ZArith Lia.

Declare Scope llama_scope.
Delimit Scope llama_scope with llama.

(** * Fallible computations *)

(** The ways a C++ function of the program can fail to return normally:
    a C++ exception with its message, a [GGML_ASSERT]/[GGML_ABORT], undefined
    behaviour (a read or write outside a vector, a missing map key behind an
    unchecked access, a signed overflow), and exhaustion of the fuel that a
    loop without structural bound is given in the model. *)
Inductive fault : Type :=
| Throw (msg : string)
| Abort
| UB
| Fuel.

#[export] Instance fault_eq_dec : EqDecision fault.
Proof. solve_decision. Defined.

Inductive res (A : Type) : Type :=
| Ok (a : A)
| Err (e : fault).
Arguments Ok {A} a.
Arguments Err {A} e.

#[export] Instance res_ret : MRet res := fun A a => Ok a.
#[export] Instance res_bind : MBind res := fun A B f m =>
  match m with Ok a => f a | Err e => Err e end.
#[export] Instance res_fmap : FMap res := fun A B f m =>
  match m with Ok a => Ok (f a) | Err e => Err e end.

#[export] Instance res_eq_dec {A} `{EqDecision A} : EqDecision (res A).
Proof. solve_decision. Defined.

Definition throw {A} (msg : string) : res A := Err (Throw msg).

(** [GGML_ASSERT(b)] *)
Definition ggml_assert (b : bool) : res unit := if b then Ok tt else Err Abort.

(** An access whose C++ behaviour is undefined when the option is empty. *)
Definition or_ub {A} (o : option A) : res A :=
  match o with Some a => Ok a | None => Err UB end.

Section res_laws.
Context {A B C : Type}.
Implicit Types (m : res A) (f : A → res B) (g : B → res C).

Lemma res_bind_ret_l (a : A) f : (mret a ≫= f) = f a.
Proof. reflexivity. Qed.

Lemma res_bind_ret_r m : (m ≫= mret) = m.
Proof. by destruct m. Qed.

Lemma res_bind_assoc m f g : (m ≫= f) ≫= g = m ≫= (λ a, f a ≫= g).
Proof. by destruct m. Qed.

Lemma res_bind_ok m f b :
  m ≫= f = Ok b ↔ ∃ a, m = Ok a ∧ f a = Ok b.
Proof.
  destruct m as [a|e]; cbn; split.
  - intros H. by exists a.
  - intros (a' & [= ->] & H). done.
  - done.
  - by intros (? & ? & ?).
Qed.

Lemma res_bind_err m f e :
  m ≫= f = Err e ↔ m = Err e ∨ ∃ a, m = Ok a ∧ f a = Err e.
Proof.
  destruct m as [a|e']; cbn; split.
  - intros H. right. by exists a.
  - intros [[=]|(a' & [= ->] & H)]. done.
  - intros [= ->]. by left.
  - intros [[= ->]|(? & ? & ?)]; done.
Qed.
End res_laws.

Lemma or_ub_ok {A} (o : option A) a : or_ub o = Ok a ↔ o = Some a.
Proof. destruct o; cbn; naive_solver. Qed.

(** Outcome predicate: [m] either returns a value in [P] or fails in [E]. *)
Definition post {A} (m : res A) (P : A → Prop) (E : fault → Prop) : Prop :=
  match m with Ok a => P a | Err e => E e end.

(** No failure at all. *)
Abbreviation safe m P := (post m P (λ _, False)).

Section post_laws.
Context {A B : Type}.

Lemma post_mono (m : res A) (P Q : A → Prop) (E F : fault → Prop) :
  post m P E → (∀ a, P a → Q a) → (∀ e, E e → F e) → post m Q F.
Proof. destruct m; cbn; auto. Qed.

Lemma post_bind (m : res A) (f : A → res B) P Q E :
  post m P E → (∀ a, P a → post (f a) Q E) → post (m ≫= f) Q E.
Proof. destruct m; cbn; auto. Qed.

Lemma post_and (m : res A) P Q E : post m P E → post m Q E → post m (λ a, P a ∧ Q a) E.
Proof. destruct m; cbn; auto. Qed.

Lemma post_ok (m : res A) P E a : m = Ok a → post m P E → P a.
Proof. by intros ->. Qed.

Lemma safe_ok (m : res A) (P : A → Prop) : safe m P ↔ ∃ a, m = Ok a ∧ P a.
Proof. destruct m; cbn; naive_solver. Qed.

Lemma safe_ok_eq (m : res A) a : safe m (λ x, x = a) → m = Ok a.
Proof. destruct m; cbn; naive_solver. Qed.

Lemma safe_exists (m : res A) (P : A → Prop) : safe m P → ∃ a, m = Ok a.
Proof. destruct m; cbn; naive_solver. Qed.

#[export] Instance post_proper :
  Proper (eq ==> pointwise_relation A impl ==>
          pointwise_relation fault impl ==> impl) (@post A).
Proof.
  intros m ? <- P Q HPQ E F HEF Hm. eapply post_mono; [exact Hm|apply HPQ|apply HEF].
Qed.
End post_laws.

(** Fails, if at all, with an exception. *)
Abbreviation may_throw m P := (post m P (fun e => exists msg, e = Throw msg)).

Lemma may_throw_of_safe {A} (m : res A) (P Q : A -> Prop) :
  safe m P -> (forall a, P a -> Q a) -> may_throw m Q.
Proof. intros H HQ. eapply post_mono; [done|done|]. intros e []. Qed.

(** Splits the conjunctions a goal shows, without unfolding definitions. *)
Ltac splits := repeat match goal with |- _ /\ _ => split end.

(** Case analysis on a computation that returned. *)
Ltac inv_ok :=
  repeat match goal with
  | H : mret _ = Ok _ |- _ => injection H; clear H; intros; subst
  | H : Ok _ = Ok _ |- _ => injection H; clear H; intros; subst
  | H : Err _ = Ok _ |- _ => discriminate H
  | H : Ok _ = Err _ |- _ => discriminate H
  | H : throw _ = Ok _ |- _ => discriminate H
  | H : mbind _ _ = Ok _ |- _ =>
      apply res_bind_ok in H; destruct H as (? & ? & H); cbn beta in H
  | H : or_ub _ = Ok _ |- _ => apply or_ub_ok in H
  | H : ggml_assert ?b = Ok _ |- _ =>
      let E := fresh "Hassert" in
      destruct b eqn:E; [clear H|discriminate H]
  end.

(** * Machine integers *)

Open Scope Z_scope.

(** Conversion of a mathematical integer to an unsigned / two's complement
    integer of width [w], as the C++ implicit conversions do. *)
Definition wrap_u (w x : Z) : Z := x mod 2 ^ w.
Definition wrap_s (w x : Z) : Z := (x + 2 ^ (w - 1)) mod 2 ^ w - 2 ^ (w - 1).

Definition u8  (x : Z) : Z := wrap_u 8 x.
Definition u32 (x : Z) : Z := wrap_u 32 x.
Definition u64 (x : Z) : Z := wrap_u 64 x.
Definition i32 (x : Z) : Z := wrap_s 32 x.

Definition INT32_MAX : Z := 2147483647.
Definition INT32_MIN : Z := -2147483648.
Definition SIZE_MAX : Z := 18446744073709551615.

(** A signed 32-bit operation: overflow is undefined behaviour. *)
Definition s32 (x : Z) : res Z :=
  if (INT32_MIN <=? x) && (x <=? INT32_MAX) then Ok x else Err UB.

Lemma u8_range x : 0 <= u8 x < 256.
Proof. unfold u8, wrap_u. apply Z.mod_pos_bound. lia. Qed.

Lemma u32_range x : 0 <= u32 x < 4294967296.
Proof. unfold u32, wrap_u. apply Z.mod_pos_bound. lia. Qed.

Lemma u8_small x : 0 <= x < 256 -> u8 x = x.
Proof. intros. unfold u8, wrap_u. by apply Z.mod_small. Qed.

Lemma u32_small x : 0 <= x < 4294967296 -> u32 x = x.
Proof. intros. unfold u32, wrap_u. by apply Z.mod_small. Qed.

Lemma u64_range x : 0 <= u64 x <= SIZE_MAX.
Proof. unfold u64, wrap_u, SIZE_MAX. pose proof (Z.mod_pos_bound x (2 ^ 64) ltac:(lia)). lia. Qed.

Lemma u64_small x : 0 <= x <= SIZE_MAX -> u64 x = x.
Proof. unfold SIZE_MAX. intros. unfold u64, wrap_u. apply Z.mod_small. lia. Qed.

Lemma i32_small x : INT32_MIN <= x <= INT32_MAX -> i32 x = x.
Proof.
  unfold INT32_MIN, INT32_MAX. intros. unfold i32, wrap_s.
  change (2 ^ (32 - 1)) with 2147483648. change (2 ^ 32) with 4294967296.
  rewrite Z.mod_small; lia.
Qed.

Lemma s32_ok x : INT32_MIN <= x <= INT32_MAX -> s32 x = Ok x.
Proof.
  intros [H1 H2]. unfold s32. apply Z.leb_le in H1, H2. by rewrite H1, H2.
Qed.

(** * Vectors indexed by C++ integers *)

Definition zlen {A} (l : list A) : Z := Z.of_nat (length l).

(** [l[i]] as an option: [None] is an access outside the vector. *)
Definition zlookup {A} (l : list A) (i : Z) : option A :=
  if 0 <=? i then l !! Z.to_nat i else None.

(** [l[i]] with the undefined behaviour of [std::vector::operator[]]. *)
Definition vget {A} (l : list A) (i : Z) : res A := or_ub (zlookup l i).

(** [l[i] = x] *)
Definition vset {A} (l : list A) (i : Z) (x : A) : res (list A) :=
  if (0 <=? i) && (i <? zlen l) then Ok (<[Z.to_nat i := x]> l) else Err UB.

(** [l.resize(n, d)] *)
Definition vresize {A} (d : A) (n : nat) (l : list A) : list A :=
  take n l ++ replicate (n - length l) d.

Lemma zlookup_lt {A} (l : list A) i : 0 <= i < zlen l -> is_Some (zlookup l i).
Proof.
  unfold zlookup, zlen. intros [H1 H2].
  destruct (Z.leb_spec 0 i); [|lia]. apply lookup_lt_is_Some. lia.
Qed.

Lemma zlookup_Some_lt {A} (l : list A) i x :
  zlookup l i = Some x -> 0 <= i < zlen l.
Proof.
  unfold zlookup, zlen. destruct (Z.leb_spec 0 i); [|done].
  intros ?%lookup_lt_Some. lia.
Qed.

Lemma zlookup_nat {A} (l : list A) (i : nat) : zlookup l (Z.of_nat i) = l !! i.
Proof.
  unfold zlookup. destruct (Z.leb_spec 0 (Z.of_nat i)); [|lia].
  by rewrite Nat2Z.id.
Qed.

Lemma vget_ok {A} (l : list A) i x : vget l i = Ok x <-> zlookup l i = Some x.
Proof. apply or_ub_ok. Qed.

Lemma vget_Some {A} (l : list A) i x : zlookup l i = Some x -> vget l i = Ok x.
Proof. apply vget_ok. Qed.

Lemma vget_safe {A} (l : list A) i :
  0 <= i < zlen l -> safe (vget l i) (fun x => zlookup l i = Some x).
Proof. intros [x Hx]%zlookup_lt. unfold vget. by rewrite Hx. Qed.

Lemma vset_ok {A} (l l' : list A) i x :
  vset l i x = Ok l' <-> 0 <= i < zlen l /\ l' = <[Z.to_nat i := x]> l.
Proof.
  unfold vset. destruct (Z.leb_spec 0 i), (Z.ltb_spec i (zlen l)); cbn;
    split; intros; try discriminate; try (inv_ok; split; [lia|done]);
    naive_solver lia.
Qed.

Lemma vset_at {A} (l : list A) i x : 0 <= i < zlen l -> vset l i x = Ok (<[Z.to_nat i := x]> l).
Proof. intros Hi. by apply vset_ok. Qed.

Lemma zlen_insert {A} (l : list A) i x : zlen (<[i := x]> l) = zlen l.
Proof. unfold zlen. by rewrite length_insert. Qed.

Lemma zlen_nonneg {A} (l : list A) : 0 <= zlen l.
Proof. unfold zlen. lia. Qed.

Lemma zlen_app {A} (l k : list A) : zlen (l ++ k) = zlen l + zlen k.
Proof. unfold zlen. rewrite length_app. lia. Qed.

Lemma zlen_cons {A} (x : A) l : zlen (x :: l) = zlen l + 1.
Proof. unfold zlen. cbn. lia. Qed.

Lemma zlookup_replicate_lt {A} (x : A) n i : 0 <= i < Z.of_nat n -> zlookup (replicate n x) i = Some x.
Proof. intros Hi. unfold zlookup. destruct (Z.leb_spec 0 i); [|lia]. apply lookup_replicate_2. lia. Qed.

Lemma zlookup_fmap {A B} (f : A -> B) l i : zlookup (f <$> l) i = f <$> zlookup l i.
Proof. unfold zlookup. case_match; [|done]. apply list_lookup_fmap. Qed.

Lemma elem_of_zlookup {A} (x : A) l : x ∈ l <-> exists i, 0 <= i < zlen l /\ zlookup l i = Some x.
Proof.
  rewrite list_elem_of_lookup. split.
  - intros [i Hi]. exists (Z.of_nat i). rewrite zlookup_nat. split; [|done].
    apply lookup_lt_Some in Hi. unfold zlen. lia.
  - intros (i & Hi & E). exists (Z.to_nat i). unfold zlookup in E. by destruct (0 <=? i).
Qed.

Lemma zlookup_insert {A} (l : list A) i j x :
  0 <= i < zlen l -> 0 <= j ->
  zlookup (<[Z.to_nat i := x]> l) j = if decide (i = j) then Some x else zlookup l j.
Proof.
  intros Hi Hj. unfold zlookup, zlen in *. destruct (Z.leb_spec 0 j); [|lia]. case_decide as E.
  - subst. apply list_lookup_insert_eq. lia.
  - apply list_lookup_insert_ne. lia.
Qed.

Lemma zlookup_insert_eq {A} (l : list A) i x : 0 <= i < zlen l -> zlookup (<[Z.to_nat i := x]> l) i = Some x.
Proof. intros Hi. rewrite zlookup_insert by lia. by rewrite decide_True. Qed.

Lemma zlookup_insert_ne {A} (l : list A) i j x : 0 <= i -> i <> j -> zlookup (<[Z.to_nat i := x]> l) j = zlookup l j.
Proof.
  intros Hi Hne. unfold zlookup. destruct (Z.leb_spec 0 j); [|done]. apply list_lookup_insert_ne. lia.
Qed.

Lemma zlookup_app_l_Some {A} (l k : list A) i x : zlookup l i = Some x -> zlookup (l ++ k) i = Some x.
Proof.
  unfold zlookup. destruct (Z.leb_spec 0 i); [|done]. intros Hl. by apply lookup_app_l_Some.
Qed.

Lemma zlookup_app_len {A} (l : list A) x : zlookup (l ++ [x]) (zlen l) = Some x.
Proof. unfold zlen. rewrite zlookup_nat. rewrite lookup_app_r by lia. by rewrite Nat.sub_diag. Qed.

Lemma vget_nat {A} (l : list A) (i : nat) x : l !! i = Some x -> vget l (Z.of_nat i) = Ok x.
Proof. intros Hl. apply vget_Some. by rewrite zlookup_nat. Qed.

Lemma zlookup_ext {A} (l k : list A) :
  zlen l = zlen k -> (forall i, 0 <= i < zlen l -> zlookup l i = zlookup k i) -> l = k.
Proof.
  intros Hl H. apply list_eq. intros i. destruct (decide (i < length l)%nat) as [Hi|Hi].
  - rewrite <- !zlookup_nat. apply H. unfold zlen. lia.
  - unfold zlen in Hl. rewrite !lookup_ge_None_2 by lia. done.
Qed.

(** * Loops *)

Section loops.
Context {S : Type}.

(** [n] iterations of a loop body that is given the loop counter. *)
Fixpoint for_n (n : nat) (i : Z) (body : Z -> S -> res S) (s : S) : res S :=
  match n with
  | O => Ok s
  | Datatypes.S n => s' ← body i s; for_n n (i + 1) body s'
  end.

(** [for (i = lo; i < hi; ++i) body] *)
Definition for_z (lo hi : Z) (body : Z -> S -> res S) (s : S) : res S :=
  for_n (Z.to_nat (hi - lo)) lo body s.

(** The rule of the loop: an invariant indexed by the counter. *)
Lemma for_n_post n i body (I : Z -> S -> Prop) E s :
  I i s ->
  (forall j t, i <= j < i + Z.of_nat n -> I j t ->
     post (body j t) (I (j + 1)) E) ->
  post (for_n n i body s) (I (i + Z.of_nat n)) E.
Proof.
  revert i s. induction n as [|n IH]; intros i s Hi Hb; cbn [for_n].
  - cbn. by rewrite Z.add_0_r.
  - eapply post_bind; [apply Hb; [lia|done]|]. intros t Ht.
    replace (i + Z.of_nat (Datatypes.S n)) with (i + 1 + Z.of_nat n) by lia.
    apply IH; [done|]. intros j u Hj. apply Hb. lia.
Qed.

Lemma for_z_post lo hi body (I : Z -> S -> Prop) E s :
  lo <= hi -> I lo s ->
  (forall j t, lo <= j < hi -> I j t -> post (body j t) (I (j + 1)) E) ->
  post (for_z lo hi body s) (I hi) E.
Proof.
  intros Hle Hlo Hb. unfold for_z.
  replace hi with (lo + Z.of_nat (Z.to_nat (hi - lo))) at 2 by lia.
  apply for_n_post; [done|]. intros j t Hj. apply Hb. lia.
Qed.

Lemma for_z_empty lo hi body (s : S) : hi <= lo -> for_z lo hi body s = Ok s.
Proof.
  intros. unfold for_z. by replace (Z.to_nat (hi - lo)) with O by lia.
Qed.
End loops.

(** How an iteration of a [while] loop ends: another one follows, or the loop
    is left with a result. *)
Inductive step (S R : Type) : Type :=
| Next (s : S)
| Done (r : R).
Arguments Next {S R} s.
Arguments Done {S R} r.

Section while.
Context {S R : Type} (body : S -> res (step S R)).

(** A [while] loop with fuel. *)
Fixpoint while (fuel : nat) (s : S) : res R :=
  match fuel with
  | O => Err Fuel
  | Datatypes.S fuel =>
      r ← body s;
      match r with Next s' => while fuel s' | Done r => Ok r end
  end.

(** Total correctness of a loop: a measure that every further iteration
    decreases bounds the fuel. *)
Lemma while_post (I : S -> Prop) (m : S -> nat) (Q : R -> Prop) E fuel s :
  I s -> (m s < fuel)%nat ->
  (forall t, I t ->
     post (body t)
       (fun r => match r with
                 | Next t' => I t' /\ (m t' < m t)%nat
                 | Done r => Q r
                 end) E) ->
  post (while fuel s) Q E.
Proof.
  revert s. induction fuel as [|fuel IH]; intros s Hs Hm Hb; [lia|].
  cbn [while]. eapply post_bind; [by apply Hb|].
  intros [s'|r] Hr; [|done]. destruct Hr as [Hs' Hlt]. apply IH; auto. lia.
Qed.

(** More fuel does not change a result. *)
Lemma while_fuel_mono fuel fuel' s r :
  (fuel <= fuel')%nat -> while fuel s = Ok r -> while fuel' s = Ok r.
Proof.
  revert fuel' s. induction fuel as [|fuel IH]; intros fuel' s Hle H; [done|].
  destruct fuel' as [|fuel']; [lia|]. cbn [while] in *.
  apply res_bind_ok in H as (a & Ha & H). rewrite Ha. cbn.
  destruct a; [apply IH; [lia|done]|done].
Qed.
End while.

(** A body that returns more often gives a loop that returns more often. *)
Lemma while_mono {S R} (body body' : S -> res (step S R)) fuel s r :
  (forall s r, body s = Ok r -> body' s = Ok r) ->
  while body fuel s = Ok r -> while body' fuel s = Ok r.
Proof.
  intros Hb. revert s. induction fuel as [|fuel IH]; intros s H; [done|]. cbn [while] in *.
  apply res_bind_ok in H as (a & Ha & H). rewrite (Hb _ _ Ha). cbn.
  destruct a; [by apply IH|done].
Qed.

(** * Monadic list traversal *)

Section foldM.
Context {A S : Type} (f : S -> A -> res S).

(** [for (const auto & a : l) body]: a loop over a container. *)
Fixpoint foldM (s : S) (l : list A) : res S :=
  match l with
  | [] => Ok s
  | a :: l => s ← f s a; foldM s l
  end.

Lemma foldM_app s l k : foldM s (l ++ k) = (s ← foldM s l; foldM s k).
Proof. revert s. induction l as [|a l IH]; intros s; cbn; [done|]. destruct (f s a); cbn; auto. Qed.

Lemma foldM_ok_inv s a l r : foldM s (a :: l) = Ok r <-> exists t, f s a = Ok t /\ foldM t l = Ok r.
Proof. cbn. by rewrite res_bind_ok. Qed.

(** The rule of the loop: an invariant over the elements already visited. *)
Lemma foldM_post (I : list A -> S -> Prop) E l s :
  I [] s ->
  (forall seen a t, a ∈ l -> I seen t -> post (f t a) (I (seen ++ [a])) E) ->
  post (foldM s l) (I l) E.
Proof.
  intros H0 Hstep.
  assert (H : forall k d s, (forall a, a ∈ k -> a ∈ l) -> I d s -> post (foldM s k) (I (d ++ k)) E).
  { intros k. induction k as [|a k IH]; intros d t Hin Ht; cbn [foldM].
    - cbn. by rewrite app_nil_r.
    - eapply post_bind; [apply (Hstep d a t); [apply Hin; by left|done]|]. intros u Hu.
      replace (d ++ a :: k) with ((d ++ [a]) ++ k) by by rewrite <- app_assoc.
      apply IH; [|done]. intros b Hb. apply Hin. by right. }
  by apply (H l []).
Qed.
End foldM.

Lemma foldM_mono {A S} (f f' : S -> A -> res S) l s r :
  (forall s a r, a ∈ l -> f s a = Ok r -> f' s a = Ok r) ->
  foldM f s l = Ok r -> foldM f' s l = Ok r.
Proof.
  revert s. induction l as [|a l IH]; intros s Hf; [done|].
  rewrite !foldM_ok_inv. intros (t & Ht & H). exists t. split; [apply Hf; [by left|done]|].
  apply IH; [|done]. intros s' b r' Hb. apply Hf. by right.
Qed.

Section mapM.
Context {A B : Type} (f : A -> res B).

Lemma mapM_ok l k : mapM f l = Ok k <-> Forall2 (fun a b => f a = Ok b) l k.
Proof.
  split.
  - revert k. induction l as [|a l IH]; intros k H; cbn in H; inv_ok.
    + constructor.
    + constructor; [done|]. by apply IH.
  - induction 1 as [|a b l k Hab _ IH]; [done|]. cbn. rewrite Hab. cbn.
    by rewrite IH.
Qed.

Lemma mapM_err l e : mapM f l = Err e -> exists a, a ∈ l /\ f a = Err e.
Proof.
  induction l as [|a l IH]; cbn; [done|]. rewrite res_bind_err.
  intros [H|(b & _ & H)]; [exists a; split; [by left|done]|].
  apply res_bind_err in H as [H|(k & _ & H)]; [|done].
  destruct (IH H) as (a' & Ha & E). exists a'. split; [by right|done].
Qed.

Lemma mapM_safe l (P : A -> B -> Prop) :
  (forall a, a ∈ l -> safe (f a) (P a)) -> safe (mapM f l) (Forall2 P l).
Proof.
  induction l as [|a l IH]; intros H; cbn; [constructor|].
  eapply post_bind; [apply H; left|]. intros b Hb.
  eapply post_bind; [apply IH; intros; apply H; by right|].
  intros k Hk. by constructor.
Qed.
End mapM.

Lemma mapM_app {A B} (f : A -> res B) l k :
  mapM f (l ++ k) = (x ← mapM f l; y ← mapM f k; mret (x ++ y)).
Proof.
  induction l as [|a l IH]; cbn; [by destruct (mapM f k)|].
  destruct (f a); cbn; [|done]. rewrite IH.
  destruct (mapM f l); cbn; [|done]. by destruct (mapM f k).
Qed.

Lemma elem_of_concat {A} (x : A) (ls : list (list A)) :
  x ∈ concat ls <-> exists l, x ∈ l /\ l ∈ ls.
Proof.
  induction ls as [|l ls IH]; cbn; [set_solver|]. rewrite elem_of_app, IH.
  setoid_rewrite elem_of_cons. naive_solver.
Qed.

(** Choosing a witness for every element. *)
Lemma Forall_choose {A B} (R : A -> B -> Prop) l :
  Forall (fun b => exists a, R a b) l -> exists k, Forall2 R k l.
Proof.
  induction 1 as [|b l [a Ha] _ [k Hk]]; [by exists []|]. exists (a :: k). by constructor.
Qed.

(** * Sums *)

Definition zsum (l : list Z) : Z := foldr Z.add 0 l.

Lemma zsum_app l k : zsum (l ++ k) = zsum l + zsum k.
Proof. unfold zsum. induction l as [|x l IH]; cbn in *; lia. Qed.

Lemma zsum_cons x l : zsum (x :: l) = x + zsum l.
Proof. reflexivity. Qed.

Lemma zsum_nonneg l : Forall (Z.le 0) l -> 0 <= zsum l.
Proof. induction 1; cbn in *; unfold zsum in *; lia. Qed.

(** * Finite case analysis on small integers *)

Definition zseq (lo : Z) (n : nat) : list Z := (fun k => lo + Z.of_nat k) <$> seq 0 n.

Lemma elem_of_zseq lo n x : x ∈ zseq lo n <-> lo <= x < lo + Z.of_nat n.
Proof.
  unfold zseq. rewrite list_elem_of_fmap. split.
  - intros (k & -> & Hk%elem_of_seq). lia.
  - intros Hx. exists (Z.to_nat (x - lo)). rewrite elem_of_seq. lia.
Qed.

Lemma length_zseq lo n : length (zseq lo n) = n.
Proof. unfold zseq. by rewrite length_fmap, length_seq. Qed.

Lemma zlookup_zseq n i : 0 <= i < n -> zlookup (zseq 0 (Z.to_nat n)) i = Some i.
Proof.
  intros Hi. unfold zlookup, zseq. destruct (Z.leb_spec 0 i) as [_|]; [|lia].
  rewrite list_lookup_fmap, lookup_seq_lt by lia. cbn. f_equal. lia.
Qed.

Lemma zlen_zseq lo n : 0 <= n -> zlen (zseq lo (Z.to_nat n)) = n.
Proof. intros. unfold zlen. rewrite length_zseq. lia. Qed.

Lemma zseq_app lo m n : 0 <= m -> 0 <= n ->
  zseq lo (Z.to_nat (m + n)) = zseq lo (Z.to_nat m) ++ zseq (lo + m) (Z.to_nat n).
Proof.
  intros Hm Hn. unfold zseq. rewrite Z2Nat.inj_add, seq_app, fmap_app by done. f_equal.
  replace (0 + Z.to_nat m)%nat with (Z.to_nat m + 0)%nat by lia. rewrite <- fmap_add_seq, <- list_fmap_compose. apply list_fmap_ext. intros ? x _. cbn. lia.
Qed.

Lemma NoDup_zseq lo n : NoDup (zseq lo n).
Proof. unfold zseq. apply NoDup_fmap_2_strong; [|apply NoDup_seq]. intros x y _ _. lia. Qed.

Lemma zseq_S lo n : zseq lo (S n) = zseq lo n ++ [lo + Z.of_nat n].
Proof. unfold zseq. rewrite seq_S, fmap_app. done. Qed.

Lemma zseq_cons lo n : zseq lo (S n) = lo :: zseq (lo + 1) n.
Proof.
  unfold zseq. cbn [seq fmap list_fmap]. f_equal; [lia|]. rewrite <- fmap_S_seq, <- list_fmap_compose.
  apply list_fmap_ext. intros ? x _. cbn. lia.
Qed.

(** A boolean property checked on every integer of an interval holds there. *)
Lemma zseq_forallb (P : Z -> bool) lo n x :
  forallb P (zseq lo n) = true -> lo <= x < lo + Z.of_nat n -> P x = true.
Proof.
  rewrite forallb_forall. intros H Hx. apply H, list_elem_of_In.
  by apply elem_of_zseq.
Qed.

(** * Byte strings *)

(** A [std::string] is the list of its bytes, each in [[0, 256)]. *)
Abbreviation bytes := (list Z).

Definition byte_ok (b : Z) : Prop := 0 <= b < 256.

(** The bytes of a string literal. *)
Definition str (s : string) : bytes :=
  (fun c => Z.of_N (Ascii.N_of_ascii c)) <$> String.list_ascii_of_string s.

Lemma str_bytes s : Forall byte_ok (str s).
Proof.
  unfold str. apply Forall_fmap, Forall_true. intros c. unfold byte_ok. cbn.
  pose proof (Ascii.N_ascii_bounded c). lia.
Qed.

(** [s.substr(pos, len)] *)
Definition substr (pos len : nat) (s : bytes) : bytes := take len (drop pos s).

(** [prefix k s]: [k] is a prefix of [s]. *)
Fixpoint starts_with (k s : bytes) : bool :=
  match k, s with
  | [], _ => true
  | x :: k, y :: s => (x =? y) && starts_with k s
  | _ :: _, [] => false
  end.

(** [s.find(k)]: the first position where [k] occurs. *)
Fixpoint find_sub (k s : bytes) : option nat :=
  if starts_with k s then Some O
  else match s with
       | [] => None
       | _ :: s => Datatypes.S <$> find_sub k s
       end.

Lemma starts_with_spec k s : starts_with k s = true <-> exists t, s = k ++ t.
Proof.
  revert s. induction k as [|x k IH]; intros [|y s]; cbn.
  - split; [by exists []|done].
  - split; [by exists (y :: s)|done].
  - split; [done|by intros (? & ?)].
  - rewrite andb_true_iff, Z.eqb_eq, IH. split.
    + intros [-> (t & ->)]. by exists t.
    + intros (t & [= -> ->]). split; [done|by exists t].
Qed.

Lemma find_sub_Some k s n :
  find_sub k s = Some n -> exists t, s = take n s ++ k ++ t.
Proof.
  revert n. induction s as [|y s IH]; intros n; cbn [find_sub];
    destruct (starts_with _ _) eqn:Hs.
  1,3: intros [= <-]; by apply starts_with_spec in Hs.
  - done.
  - destruct (find_sub k s) as [m|] eqn:Hm; cbn; [|done]. intros [= <-].
    destruct (IH _ eq_refl) as (t & Ht). exists t. cbn. by f_equal.
Qed.

(** * Bit operations *)

Lemma land_ones_mod x n : 0 <= n -> Z.land x (Z.ones n) = x mod 2 ^ n.
Proof. intros. by apply Z.land_ones. Qed.

(** Joining a high part and a low part that do not overlap. *)
Lemma lor_shiftl_add a b n :
  0 <= n -> 0 <= b < 2 ^ n -> Z.lor (Z.shiftl a n) b = a * 2 ^ n + b.
Proof.
  intros Hn Hb.
  assert (Hz : Z.land (Z.shiftl a n) b = 0).
  { apply Z.bits_inj'. intros i Hi. rewrite Z.land_spec, Z.testbit_0_l.
    destruct (Z.ltb_spec i n) as [Hlt|Hge].
    - by rewrite Z.shiftl_spec_low.
    - rewrite <- (Z.mod_small b (2 ^ n)), Z.mod_pow2_bits_high by lia.
      apply andb_false_r. }
  rewrite <- Z.lxor_lor, <- Z.add_nocarry_lxor, Z.shiftl_mul_pow2 by done. done.
Qed.

(** * Binary search of the standard library *)

(** [std::partition_point], the loop of [std::lower_bound] and
    [std::upper_bound]: [first] advances over the elements that satisfy [p]. *)
Fixpoint partition_loop {A} (p : A -> bool) (l : list A) (fuel first len : nat) : nat :=
  match fuel with
  | O => first
  | S fuel =>
      if decide (len = O) then first
      else
        let half := Nat.div2 len in
        match l !! (first + half)%nat with
        | Some x =>
            if p x then partition_loop p l fuel (first + half + 1) (len - half - 1)
            else partition_loop p l fuel first half
        | None => first
        end
  end.

Definition partition_point {A} (p : A -> bool) (l : list A) : nat :=
  partition_loop p l (length l) 0 (length l).

(** [l] is partitioned at [k]: exactly the elements before [k] satisfy [p]. *)
Definition partitioned {A} (p : A -> bool) (l : list A) (k : nat) : Prop :=
  (k <= length l)%nat /\ forall i x, l !! i = Some x -> p x = true <-> (i < k)%nat.

Lemma partition_loop_spec {A} (p : A -> bool) l k fuel first len :
  partitioned p l k -> (len <= fuel)%nat -> (first <= k <= first + len)%nat ->
  (first + len <= length l)%nat -> partition_loop p l fuel first len = k.
Proof.
  intros [Hk Hp]. revert first len.
  induction fuel as [|fuel IH]; intros first len Hf Hr Hl; cbn [partition_loop]; [lia|].
  case_decide; [lia|].
  assert (Nat.div2 len < len)%nat as Hh by (apply Nat.lt_div2; lia).
  generalize dependent (Nat.div2 len). intros half Hh.
  destruct (l !! (first + half)%nat) as [x|] eqn:Hx.
  - specialize (Hp _ _ Hx). destruct (p x).
    + assert (first + half < k)%nat by by apply Hp. clear Hp. apply IH; lia.
    + assert (~ (first + half < k)%nat) by (intros Hc; by apply Hp in Hc).
      clear Hp. apply IH; lia.
  - apply lookup_ge_None in Hx. lia.
Qed.

Lemma partition_point_spec {A} (p : A -> bool) l k :
  partitioned p l k -> partition_point p l = k.
Proof. intros H. apply partition_loop_spec with (k := k); auto; destruct H; lia. Qed.

Lemma partitioned_exists {A} (p : A -> bool) l :
  (forall i j x y, (i <= j)%nat -> l !! i = Some x -> l !! j = Some y ->
     p y = true -> p x = true) ->
  exists k, partitioned p l k.
Proof.
  intros Hm. exists (length (filter (fun x => p x = true) l)).
  revert Hm. induction l as [|a l IH]; intros Hm.
  { split; [done|]. intros i x H. by rewrite lookup_nil in H. }
  destruct IH as [IHk IHp].
  { intros i j x y Hij Hx Hy. apply (Hm (S i) (S j)); [lia|done|done]. }
  rewrite filter_cons. case_decide as Ha; cbn [length].
  - split; [cbn in *; lia|]. intros [|i] x Hx; cbn in Hx; [naive_solver lia|].
    rewrite (IHp _ _ Hx). lia.
  - assert (Hall : forall i x, l !! i = Some x -> p x <> true).
    { intros i x Hx Hpx. apply Ha. by apply (Hm 0%nat (S i) a x); [lia|..]. }
    assert (filter (fun x => p x = true) l = []) as ->.
    { apply list_filter_nil_2 || idtac.
      apply elem_of_nil_inv. intros x [Hpx Hx]%list_elem_of_filter.
      apply list_elem_of_lookup in Hx as (i & Hx). by eapply Hall. }
    split; [cbn; lia|]. intros [|i] x Hx; cbn in *; [naive_solver lia|].
    split; [|lia]. intros Hpx. by eapply Hall in Hpx.
Qed.

(** Reading inside the middle part of a concatenation. *)
Lemma zlookup_mid {A} (pre u suf : list A) (k : nat) x :
  u !! k = Some x -> zlookup (pre ++ u ++ suf) (zlen pre + Z.of_nat k) = Some x.
Proof.
  intros Hk. unfold zlen. rewrite <- Nat2Z.inj_add, zlookup_nat.
  rewrite lookup_app_r by lia. rewrite Nat.add_comm, Nat.add_sub.
  by apply lookup_app_l_Some.
Qed.

Lemma zlookup_mid_0 {A} (pre suf : list A) x :
  zlookup (pre ++ x :: suf) (zlen pre) = Some x.
Proof. pose proof (zlookup_mid pre [x] suf 0 x eq_refl) as H. by rewrite Z.add_0_r in H. Qed.

(** [x] fits in [n] bits. *)
Definition in_bits (n x : Z) : Prop := 0 <= x < 2 ^ n.

Lemma in_bits_mod n x : 0 <= n -> x mod 2 ^ n = x -> in_bits n x.
Proof. intros Hn <-. apply Z.mod_pos_bound. lia. Qed.

Lemma in_bits_mono n m x : n <= m -> in_bits n x -> in_bits m x.
Proof.
  unfold in_bits. intros Hle Hx.
  pose proof (Z.pow_le_mono_r 2 n m ltac:(lia) Hle). lia.
Qed.

Lemma in_bits_lor n a b : 0 <= n -> in_bits n a -> in_bits n b -> in_bits n (Z.lor a b).
Proof.
  intros Hn Ha Hb. apply in_bits_mod; [done|].
  rewrite <- !Z.land_ones, Z.land_lor_distr_l, !Z.land_ones by done.
  unfold in_bits in *. by rewrite !Z.mod_small.
Qed.

Lemma in_bits_land n m k x : m = Z.ones k -> 0 <= k <= n -> in_bits n (Z.land x m).
Proof.
  intros -> Hk. apply (in_bits_mono k); [lia|].
  rewrite Z.land_ones by lia. apply Z.mod_pos_bound. lia.
Qed.

Lemma in_bits_shiftl n k x :
  0 <= k <= n -> in_bits (n - k) x -> in_bits n (Z.shiftl x k).
Proof.
  unfold in_bits. intros Hk Hx. rewrite Z.shiftl_mul_pow2 by lia.
  replace (2 ^ n) with (2 ^ (n - k) * 2 ^ k) by (rewrite <- Z.pow_add_r by lia; f_equal; lia).
  pose proof (Z.pow_pos_nonneg 2 k). nia.
Qed.

Create HintDb llama_bits discriminated.
#[export] Hint Resolve in_bits_lor in_bits_shiftl : llama_bits.
#[export] Hint Extern 1 (in_bits _ (Z.land _ 7)) => apply (in_bits_land _ _ 3 _ eq_refl) : llama_bits.
#[export] Hint Extern 1 (in_bits _ (Z.land _ 15)) => apply (in_bits_land _ _ 4 _ eq_refl) : llama_bits.
#[export] Hint Extern 1 (in_bits _ (Z.land _ 31)) => apply (in_bits_land _ _ 5 _ eq_refl) : llama_bits.
#[export] Hint Extern 1 (in_bits _ (Z.land _ 63)) => apply (in_bits_land _ _ 6 _ eq_refl) : llama_bits.
#[export] Hint Extern 2 (_ <= _) => lia : llama_bits.
#[export] Hint Extern 2 (_ <= _ <= _) => lia : llama_bits.

(** * Algorithms and containers of the standard library *)

(** The requirement of [std::sort] and [std::priority_queue] on the comparator: [Compare], a strict weak
    ordering of the elements it sorts. *)
Record strict_weak {A} (lt : A -> A -> bool) (l : list A) : Prop := {
  sw_asym : forall a b, a ∈ l -> b ∈ l -> lt a b = true -> lt b a = false;
  sw_neg_trans : forall a b c, a ∈ l -> b ∈ l -> c ∈ l ->
    lt a b = false -> lt b c = false -> lt a c = false
}.

(** [std::sort]: which of the sorted permutations it returns is left open. *)
Class CppSort : Type := std_sort : forall A, (A -> A -> bool) -> list A -> list A.
Arguments std_sort {_ A} lt l.

Class CppSortLaws `{CppSort} : Prop := {
  std_sort_perm : forall A (lt : A -> A -> bool) l, strict_weak lt l -> std_sort lt l ≡ₚ l;
  std_sort_sorted : forall A (lt : A -> A -> bool) l, strict_weak lt l ->
    StronglySorted (fun a b => lt b a = false) (std_sort lt l)
}.

(** [std::priority_queue] (and [llama_priority_queue::pop_move]): the container's
    elements as a list, whose order, like the choice between the elements that are
    not below another one, is left open. *)
Class CppHeap : Type := {
  heap_push : forall B : Type, (B -> B -> bool) -> B -> list B -> list B;
  heap_pop : forall B : Type, (B -> B -> bool) -> list B -> option (B * list B)
}.
Arguments heap_push {_ B} lt b q.
Arguments heap_pop {_ B} lt q.

Class CppHeapLaws `{CppHeap} : Prop := {
  heap_push_perm : forall B (lt : B -> B -> bool) b q,
    strict_weak lt (b :: q) -> heap_push lt b q ≡ₚ b :: q;
  heap_pop_nil : forall B (lt : B -> B -> bool), heap_pop lt [] = None;
  heap_pop_top : forall B (lt : B -> B -> bool) q, strict_weak lt q -> q <> [] ->
    exists b q', heap_pop lt q = Some (b, q') /\ q ≡ₚ b :: q' /\ forall c, c ∈ q -> lt b c = false
}.

(** ** A concrete sort *)

Section insertion_sort.
Context {A : Type} (lt : A -> A -> bool).

Fixpoint sorted_insert (x : A) (l : list A) : list A :=
  match l with
  | [] => [x]
  | y :: l' => if lt x y then x :: l else y :: sorted_insert x l'
  end.

Definition insertion_sort (l : list A) : list A := foldr sorted_insert [] l.

Lemma sorted_insert_perm x l : sorted_insert x l ≡ₚ x :: l.
Proof.
  induction l as [|y l IH]; cbn; [done|]. destruct (lt x y); [done|]. rewrite IH. by constructor.
Qed.

Lemma insertion_sort_perm l : insertion_sort l ≡ₚ l.
Proof. induction l as [|x l IH]; cbn; [done|]. by rewrite sorted_insert_perm, IH. Qed.

Lemma sorted_insert_sorted dom x l :
  strict_weak lt dom -> x ∈ dom -> (forall y, y ∈ l -> y ∈ dom) ->
  StronglySorted (fun a b => lt b a = false) l -> StronglySorted (fun a b => lt b a = false) (sorted_insert x l).
Proof.
  intros [Hasym Hneg] Hx Hl Hs. induction Hs as [|y l Hs IH Hy]; cbn; [repeat constructor|].
  rewrite Forall_forall in Hy. destruct (lt x y) eqn:E.
  - constructor; [constructor; [done|by rewrite Forall_forall]|].
    assert (Hyx : lt y x = false) by (apply Hasym; [done|apply Hl; by left|done]).
    constructor; [done|]. apply Forall_forall. intros z Hz.
    apply (Hneg z y x); [apply Hl; by right|apply Hl; by left|done|by apply Hy|done].
  - constructor; [apply IH; intros z Hz; apply Hl; by right|].
    apply Forall_forall. intros z. rewrite sorted_insert_perm, elem_of_cons. intros [->|Hz]; [done|by apply Hy].
Qed.

Lemma insertion_sort_sorted l :
  strict_weak lt l -> StronglySorted (fun a b => lt b a = false) (insertion_sort l).
Proof.
  intros Hsw. assert (H : forall k, (forall y, y ∈ k -> y ∈ l) ->
    StronglySorted (fun a b => lt b a = false) (insertion_sort k)).
  { induction k as [|x k IH]; intros Hk; cbn; [constructor|].
    apply (sorted_insert_sorted l); [done|apply Hk; by left| |].
    - intros y. rewrite insertion_sort_perm. intros Hy. apply Hk. by right.
    - apply IH. intros y Hy. apply Hk. by right. }
  by apply H.
Qed.
End insertion_sort.

Definition insertion_std_sort : CppSort := fun A lt l => insertion_sort lt l.

Lemma insertion_std_sort_laws : @CppSortLaws insertion_std_sort.
Proof.
  split; intros A lt l Hsw.
  - apply insertion_sort_perm.
  - by apply insertion_sort_sorted.
Qed.

(** ** A concrete heap *)

Section scan_heap.
Context {B : Type} (lt : B -> B -> bool).

Fixpoint scan_pop (q : list B) : option (B * list B) :=
  match q with
  | [] => None
  | x :: q =>
      match scan_pop q with
      | None => Some (x, [])
      | Some (y, q') => if lt x y then Some (y, x :: q') else Some (x, y :: q')
      end
  end.

Lemma strict_weak_incl l k : strict_weak lt l -> (forall x, x ∈ k -> x ∈ l) -> strict_weak lt k.
Proof. intros [H1 H2] Hk. split; eauto. Qed.

Lemma scan_pop_top q :
  strict_weak lt q -> q <> [] ->
  exists b q', scan_pop q = Some (b, q') /\ q ≡ₚ b :: q' /\ forall c, c ∈ q -> lt b c = false.
Proof.
  induction q as [|x q IH]; intros Hsw Hne; [done|]. cbn [scan_pop].
  assert (Hxx : lt x x = false).
  { destruct (lt x x) eqn:E; [|done]. rewrite (sw_asym _ _ Hsw x x) in E by (done || by left). done. }
  destruct (decide (q = [])) as [->|Hq].
  { exists x, []. split; [done|]. split; [done|]. intros c [->|Hc]%elem_of_cons; [done|]. by apply elem_of_nil in Hc. }
  destruct IH as (y & q' & -> & Hp & Hm); [|done|].
  { apply (strict_weak_incl (x :: q)); [done|]. intros z Hz. by right. }
  assert (Hy : y ∈ q) by (rewrite Hp; by left).
  destruct (lt x y) eqn:E.
  - exists y, (x :: q'). split; [done|]. split; [rewrite Hp; apply Permutation_swap|].
    intros c [->|Hc]%elem_of_cons; [|by apply Hm].
    apply (sw_asym _ _ Hsw x y); [by left|by right|done].
  - exists x, (y :: q'). split; [done|]. split; [by rewrite Hp|].
    intros c [->|Hc]%elem_of_cons; [done|].
    apply (sw_neg_trans _ _ Hsw x y c); [by left|by right|by right|done|by apply Hm].
Qed.
End scan_heap.

Definition scan_heap : CppHeap := {|
  heap_push := fun B lt b q => b :: q;
  heap_pop := fun B lt q => scan_pop lt q
|}.

Lemma scan_heap_laws : @CppHeapLaws scan_heap.
Proof. split; [done|done|]. intros B lt q. apply scan_pop_top. Qed.

(** * Numbers as bytes *)

(** The [n] low bytes of a number in two's complement, and back. *)
Fixpoint le_bytes (n : nat) (x : Z) : list Z :=
  match n with O => [] | S n => Z.land x 255 :: le_bytes n (Z.shiftr x 8) end.

Fixpoint le_value (l : list Z) : Z :=
  match l with [] => 0 | b :: l => b + 256 * le_value l end.

Lemma zlen_le_bytes n x : zlen (le_bytes n x) = Z.of_nat n.
Proof. revert x. induction n as [|n IH]; intros x; [done|]. cbn [le_bytes]. rewrite zlen_cons, IH. lia. Qed.

Lemma le_value_bytes n x : le_value (le_bytes n x) = x mod 256 ^ Z.of_nat n.
Proof.
  revert x. induction n as [|n IH]; intros x; [by rewrite Z.mod_1_r|]. cbn [le_bytes le_value]. rewrite IH.
  replace (Z.of_nat (S n)) with (Z.of_nat n + 1) by lia. rewrite Z.pow_add_r, Z.pow_1_r by lia.
  change 255 with (Z.ones 8). rewrite Z.land_ones, Z.shiftr_div_pow2 by lia. change (2 ^ 8) with 256.
  rewrite (Z.mul_comm (256 ^ _) 256), Z.rem_mul_r by (try apply Z.pow_pos_nonneg; lia). done.
Qed.

Lemma le_value_4 x : le_value (le_bytes 4 x) = u32 x.
Proof. rewrite le_value_bytes. done. Qed.

Lemma le_value_8 x : le_value (le_bytes 8 x) = wrap_u 64 x.
Proof. rewrite le_value_bytes. done. Qed.
