(* ===== verification/Unicode.v ===== *)
(** UTF-8 and the Unicode tables of [src/unicode.cpp]: decoding and encoding of
    code points, the byte-level alphabet of byte-pair encoding, code point
    flags, lower-casing and NFD normalisation.

    The generated tables of [unicode-data.cpp] enter as the class
    [UnicodeData]; everything that reads them is proved for all tables that
    satisfy the laws of [UnicodeDataLaws]. *)
From S2P Require Import Prelude.

(** * UTF-8 *)

(** The table of [unicode_len_utf8], indexed by the high nibble. *)
Definition len_utf8_lookup : list Z := [1; 1; 1; 1; 1; 1; 1; 1; 1; 1; 1; 1; 2; 2; 3; 4].

Definition unicode_len_utf8 (src : Z) : Z :=
  let highbits := Z.shiftr (u8 src) 4 in
  nth (Z.to_nat highbits) len_utf8_lookup 0.

(** [(b & 0xc0) == 0x80] *)
Definition is_continuation (b : Z) : bool := Z.land b 192 =? 128.

(** [offset + k < utf8.size()] and the byte there is a continuation byte. *)
Definition continuation_at (utf8 : bytes) (i : Z) : bool :=
  match zlookup utf8 i with Some b => is_continuation b | None => false end.

(** Reads one code point at [offset]; returns it with the next offset. *)
Definition unicode_cpt_from_utf8 (utf8 : bytes) (offset : Z) : res (Z * Z) :=
  b0 ← vget utf8 offset;
  if Z.land b0 128 =? 0 then Ok (b0, offset + 1)
  else if Z.land b0 64 =? 0 then throw "invalid character"
  else if Z.land b0 32 =? 0 then
    if negb (continuation_at utf8 (offset + 1)) then throw "invalid character"
    else
      b1 ← vget utf8 (offset + 1);
      Ok (Z.lor (Z.shiftl (Z.land b0 31) 6) (Z.land b1 63), offset + 2)
  else if Z.land b0 16 =? 0 then
    if negb (continuation_at utf8 (offset + 2)) ||
       negb (continuation_at utf8 (offset + 1)) then throw "invalid character"
    else
      b1 ← vget utf8 (offset + 1);
      b2 ← vget utf8 (offset + 2);
      Ok (Z.lor (Z.lor (Z.shiftl (Z.land b0 15) 12) (Z.shiftl (Z.land b1 63) 6))
                (Z.land b2 63), offset + 3)
  else if Z.land b0 8 =? 0 then
    if negb (continuation_at utf8 (offset + 3)) ||
       negb (continuation_at utf8 (offset + 1)) ||
       negb (continuation_at utf8 (offset + 2)) then throw "invalid character"
    else
      b1 ← vget utf8 (offset + 1);
      b2 ← vget utf8 (offset + 2);
      b3 ← vget utf8 (offset + 3);
      Ok (Z.lor (Z.lor (Z.lor (Z.shiftl (Z.land b0 7) 18)
                              (Z.shiftl (Z.land b1 63) 12))
                       (Z.shiftl (Z.land b2 63) 6))
                (Z.land b3 63), offset + 4)
  else throw "failed to convert utf8 to codepoint".

(** Encodes one code point; bytes are converted to [char] by [push_back]. *)
Definition unicode_cpt_to_utf8 (cpt : Z) : res bytes :=
  if cpt <=? 127 then Ok [u8 cpt]
  else if (128 <=? cpt) && (cpt <=? 2047) then
    Ok [u8 (Z.lor 192 (Z.land (Z.shiftr cpt 6) 31));
        u8 (Z.lor 128 (Z.land cpt 63))]
  else if (2048 <=? cpt) && (cpt <=? 65535) then
    Ok [u8 (Z.lor 224 (Z.land (Z.shiftr cpt 12) 15));
        u8 (Z.lor 128 (Z.land (Z.shiftr cpt 6) 63));
        u8 (Z.lor 128 (Z.land cpt 63))]
  else if (65536 <=? cpt) && (cpt <=? 1114111) then
    Ok [u8 (Z.lor 240 (Z.land (Z.shiftr cpt 18) 7));
        u8 (Z.lor 128 (Z.land (Z.shiftr cpt 12) 63));
        u8 (Z.lor 128 (Z.land (Z.shiftr cpt 6) 63));
        u8 (Z.lor 128 (Z.land cpt 63))]
  else throw "invalid codepoint".

Definition unicode_cpts_to_utf8 (cps : list Z) : res bytes :=
  bs ← mapM unicode_cpt_to_utf8 cps; mret (concat bs).

(** One iteration of the loop of [unicode_cpts_from_utf8]: an invalid sequence
    is replaced by U+FFFD and one byte is skipped. Only
    [std::invalid_argument], the exception of the decoder, is caught. *)
Definition cpts_from_utf8_step (utf8 : bytes) (st : Z * list Z) :
    res (step (Z * list Z) (list Z)) :=
  let '(offset, result) := st in
  if offset <? zlen utf8 then
    match unicode_cpt_from_utf8 utf8 offset with
    | Ok (c, offset') => Ok (Next (offset', result ++ [c]))
    | Err (Throw _) => Ok (Next (offset + 1, result ++ [65533]))
    | Err e => Err e
    end
  else Ok (Done result).

Definition unicode_cpts_from_utf8 (utf8 : bytes) : res (list Z) :=
  while (cpts_from_utf8_step utf8) (S (length utf8)) (0, []).

(** * The byte-level alphabet *)

(** [for (ch = lo; ch <= hi; ++ch) map[ch] = unicode_cpt_to_utf8(ch)] *)
Definition fill_identity (lo hi : Z) (m : gmap Z bytes) : res (gmap Z bytes) :=
  for_z lo (hi + 1) (fun ch m =>
    u ← unicode_cpt_to_utf8 ch; mret (<[u8 ch := u]> m)) m.

Definition unicode_byte_to_utf8_map : res (gmap Z bytes) :=
  m ← fill_identity 33 126 ∅;
  m ← fill_identity 161 172 m;
  m ← fill_identity 174 255 m;
  st ← for_z 0 256 (fun ch (st : gmap Z bytes * Z) =>
         let '(m, n) := st in
         match m !! ch with
         | Some _ => mret (m, n)
         | None =>
             u ← unicode_cpt_to_utf8 (256 + n);
             mret (<[u8 ch := u]> m, n + 1)
         end) (m, 0);
  mret (fst st).

(** [for (ch = lo; ch <= hi; ++ch) map[unicode_cpt_to_utf8(ch)] = ch] *)
Definition fill_inverse (lo hi : Z) (m : gmap bytes Z) : res (gmap bytes Z) :=
  for_z lo (hi + 1) (fun ch m =>
    u ← unicode_cpt_to_utf8 ch; mret (<[u := u8 ch]> m)) m.

Definition unicode_utf8_to_byte_map : res (gmap bytes Z) :=
  m ← fill_inverse 33 126 ∅;
  m ← fill_inverse 161 172 m;
  m ← fill_inverse 174 255 m;
  st ← for_z 0 256 (fun ch (st : gmap bytes Z * Z) =>
         let '(m, n) := st in
         c ← unicode_cpt_to_utf8 ch;
         match m !! c with
         | Some _ => mret (m, n)
         | None =>
             u ← unicode_cpt_to_utf8 (256 + n);
             mret (<[u := u8 ch]> m, n + 1)
         end) (m, 0);
  mret (fst st).

(** [map.at(key)] *)
Definition map_at {K V} `{Countable K} (m : gmap K V) (k : K) : res V :=
  match m !! k with Some v => Ok v | None => throw "out_of_range" end.

Definition unicode_byte_to_utf8 (byte : Z) : res bytes :=
  m ← unicode_byte_to_utf8_map; map_at m byte.

Definition unicode_utf8_to_byte (utf8 : bytes) : res Z :=
  m ← unicode_utf8_to_byte_map; map_at m utf8.

(** Re-encodes every word of a pre-tokenised text in the byte-level alphabet. *)
Definition unicode_byte_encoding_process (bpe_words : list bytes) : res (list bytes) :=
  mapM (fun word =>
    utf_word ← unicode_cpts_from_utf8 word;
    us ← mapM unicode_cpt_to_utf8 utf_word;
    let text_utf := concat us in
    encoded ← mapM unicode_byte_to_utf8 text_utf;
    mret (concat encoded)) bpe_words.

(** * Code point flags *)

Definition MAX_CODEPOINTS : Z := 1114112.

(** [unicode_cpt_flags] is a 16-bit word; the bit-fields are named from the
    lowest bit up. *)
Definition UNDEFINED   : Z := 1.
Definition NUMBER      : Z := 2.
Definition LETTER      : Z := 4.
Definition SEPARATOR   : Z := 8.
Definition ACCENT_MARK : Z := 16.
Definition PUNCTUATION : Z := 32.
Definition SYMBOL      : Z := 64.
Definition CONTROL     : Z := 128.
Definition MASK_CATEGORIES : Z := 255.

Definition is_number (f : Z) : bool := Z.testbit f 1.
Definition is_letter (f : Z) : bool := Z.testbit f 2.
Definition is_punctuation (f : Z) : bool := Z.testbit f 5.
Definition is_symbol (f : Z) : bool := Z.testbit f 6.
Definition is_control (f : Z) : bool := Z.testbit f 7.
Definition is_whitespace (f : Z) : bool := Z.testbit f 8.
Definition category_flag (f : Z) : Z := Z.land f MASK_CATEGORIES.

(** The generated tables of [unicode-data.cpp]. *)
Class UnicodeData : Type := {
  unicode_ranges_flags   : list (Z * Z);
  unicode_set_whitespace : list Z;
  unicode_map_lowercase  : list (Z * Z);
  unicode_map_uppercase  : list (Z * Z);
  unicode_ranges_nfd     : list (Z * Z * Z)
}.

Section tables.
Context `{UnicodeData}.

(** The vector [cpt_flags] while it is filled, as a function of the index. *)
Definition flags_array : Type := Z -> Z.

Definition set_flag (bit : Z) (arr : flags_array) (cpt : Z) : flags_array :=
  fun c => if c =? cpt then Z.lor (arr c) (Z.shiftl 1 bit) else arr c.

(** The loop over [[range_ini.first, range_end.first)] of two consecutive
    entries of [unicode_ranges_flags]. *)
Definition fill_range (arr : flags_array) (r : (Z * Z) * (Z * Z)) : flags_array :=
  let '(range_ini, range_end) := r in
  fun c => if (fst range_ini <=? c) && (c <? fst range_end) then snd range_ini else arr c.

Definition unicode_cpt_flags_array : flags_array :=
  let cpt_flags : flags_array := fun _ => UNDEFINED in
  let cpt_flags :=
    fold_left fill_range (zip unicode_ranges_flags (drop 1 unicode_ranges_flags)) cpt_flags in
  let cpt_flags := fold_left (set_flag 8) unicode_set_whitespace cpt_flags in
  let cpt_flags := fold_left (set_flag 9) (snd <$> unicode_map_lowercase) cpt_flags in
  let cpt_flags := fold_left (set_flag 10) (snd <$> unicode_map_uppercase) cpt_flags in
  fold_left (set_flag 11) (snd <$> unicode_ranges_nfd) cpt_flags.

Definition unicode_cpt_flags_from_cpt (cpt : Z) : Z :=
  if cpt <? MAX_CODEPOINTS then unicode_cpt_flags_array cpt else UNDEFINED.

Definition unicode_cpt_flags_from_utf8 (utf8 : bytes) : res Z :=
  match utf8 with
  | [] => Ok UNDEFINED
  | _ => r ← unicode_cpt_from_utf8 utf8 0; Ok (unicode_cpt_flags_from_cpt (fst r))
  end.

(** [std::lower_bound] in the sorted table, then a test for equality. *)
Definition unicode_tolower (cpt : Z) : Z :=
  match unicode_map_lowercase !! partition_point (fun p => fst p <? cpt) unicode_map_lowercase with
  | Some (k, v) => if k =? cpt then v else cpt
  | None => cpt
  end.

(** [*(std::upper_bound(...) - 1)]: undefined when no range starts at or below
    the code point. *)
Definition normalize_nfd_cpt (cpt : Z) : res Z :=
  let it := partition_point (fun r => negb (cpt <? fst (fst r))) unicode_ranges_nfd in
  r ← vget unicode_ranges_nfd (Z.of_nat it - 1);
  let '(first, last, nfd) := r in
  Ok (if (first <=? cpt) && (cpt <=? last) then nfd else cpt).

Definition unicode_cpts_normalize_nfd (cpts : list Z) : res (list Z) :=
  mapM normalize_nfd_cpt cpts.

End tables.

(** What the program relies on in the tables: sorted ranges that start at 0 and
    end at [MAX_CODEPOINTS], and sorted keys for the binary searches. *)
Class UnicodeDataLaws (D : UnicodeData) : Prop := {
  ranges_first : exists f rest, unicode_ranges_flags = (0, f) :: rest;
  ranges_last : fst <$> last unicode_ranges_flags = Some MAX_CODEPOINTS;
  ranges_sorted : StronglySorted (fun a b => fst a < fst b) unicode_ranges_flags;
  lowercase_sorted : StronglySorted (fun a b => fst a < fst b) unicode_map_lowercase;
  nfd_first : exists l n rest, unicode_ranges_nfd = (0, l, n) :: rest;
  nfd_sorted : StronglySorted (fun a b => fst (fst a) < fst (fst b)) unicode_ranges_nfd
}.

(** The ASCII rows of the generated tables, closed by an undefined range. *)
Definition ascii_data : UnicodeData := {|
  unicode_ranges_flags :=
    [(0, 128); (32, 8); (33, 32); (36, 64); (37, 32); (43, 64); (44, 32);
     (48, 2); (58, 32); (60, 64); (63, 32); (65, 4); (91, 32); (94, 64);
     (95, 32); (96, 64); (97, 4); (123, 32); (124, 64); (125, 32); (126, 64);
     (127, 128); (160, 1); (1114112, 0)];
  unicode_set_whitespace := [9; 10; 11; 12; 13; 32];
  unicode_map_lowercase := (fun c => (c, c + 32)) <$> zseq 65 26;
  unicode_map_uppercase := (fun c => (c + 32, c)) <$> zseq 65 26;
  unicode_ranges_nfd := [(0, 0, 0); (192, 197, 65); (199, 199, 67); (200, 203, 69)]
|}.

(** * Facts about the encoding *)

(** The tests and masks of the decoder on the encoded bytes, checked on every
    payload. [lead] is the constant of the lead byte, [keep] its payload mask. *)
Definition lead_facts (lead keep len : Z) (x : Z) : bool :=
  let b := lead + x in
  (u8 (Z.lor lead x) =? b) && (Z.land b keep =? x) && (unicode_len_utf8 b =? len) &&
  (b <? 256).

Ltac byte_facts f n x H :=
  pose proof (zseq_forallb f 0 n x ltac:(vm_compute; reflexivity) ltac:(lia)) as H;
  unfold lead_facts in H;
  rewrite ?andb_true_iff, ?negb_true_iff, ?Z.eqb_eq, ?Z.eqb_neq, ?Z.ltb_lt in H.

Lemma cont_byte x : 0 <= x < 64 ->
  u8 (Z.lor 128 x) = 128 + x /\ is_continuation (128 + x) = true /\
  Z.land (128 + x) 63 = x.
Proof.
  intros Hx.
  byte_facts (fun x => (u8 (Z.lor 128 x) =? 128 + x) && is_continuation (128 + x) &&
    (Z.land (128 + x) 63 =? x)) 64%nat x H.
  naive_solver.
Qed.

Lemma lead_byte_1 x : 0 <= x < 128 ->
  u8 x = x /\ (Z.land x 128 =? 0) = true /\ unicode_len_utf8 x = 1.
Proof.
  intros Hx.
  byte_facts (fun x => (u8 x =? x) && (Z.land x 128 =? 0) && (unicode_len_utf8 x =? 1))
    128%nat x H.
  split_and!; [naive_solver|apply Z.eqb_eq; naive_solver|naive_solver].
Qed.

Lemma lead_byte_2 x : 0 <= x < 32 ->
  lead_facts 192 31 2 x = true /\ (Z.land (192 + x) 128 =? 0) = false /\
  (Z.land (192 + x) 64 =? 0) = false /\ (Z.land (192 + x) 32 =? 0) = true.
Proof.
  intros Hx.
  pose proof (zseq_forallb (fun x => lead_facts 192 31 2 x &&
    negb (Z.land (192 + x) 128 =? 0) && negb (Z.land (192 + x) 64 =? 0) &&
    (Z.land (192 + x) 32 =? 0)) 0 32 x ltac:(vm_compute; reflexivity) ltac:(lia)) as H.
  rewrite !andb_true_iff, !negb_true_iff in H. naive_solver.
Qed.

Lemma lead_byte_3 x : 0 <= x < 16 ->
  lead_facts 224 15 3 x = true /\ (Z.land (224 + x) 128 =? 0) = false /\
  (Z.land (224 + x) 64 =? 0) = false /\ (Z.land (224 + x) 32 =? 0) = false /\
  (Z.land (224 + x) 16 =? 0) = true.
Proof.
  intros Hx.
  pose proof (zseq_forallb (fun x => lead_facts 224 15 3 x &&
    negb (Z.land (224 + x) 128 =? 0) && negb (Z.land (224 + x) 64 =? 0) &&
    negb (Z.land (224 + x) 32 =? 0) && (Z.land (224 + x) 16 =? 0)) 0 16 x
    ltac:(vm_compute; reflexivity) ltac:(lia)) as H.
  rewrite !andb_true_iff, !negb_true_iff in H. naive_solver.
Qed.

Lemma lead_byte_4 x : 0 <= x < 8 ->
  lead_facts 240 7 4 x = true /\ (Z.land (240 + x) 128 =? 0) = false /\
  (Z.land (240 + x) 64 =? 0) = false /\ (Z.land (240 + x) 32 =? 0) = false /\
  (Z.land (240 + x) 16 =? 0) = false /\ (Z.land (240 + x) 8 =? 0) = true.
Proof.
  intros Hx.
  pose proof (zseq_forallb (fun x => lead_facts 240 7 4 x &&
    negb (Z.land (240 + x) 128 =? 0) && negb (Z.land (240 + x) 64 =? 0) &&
    negb (Z.land (240 + x) 32 =? 0) && negb (Z.land (240 + x) 16 =? 0) &&
    (Z.land (240 + x) 8 =? 0)) 0 8 x
    ltac:(vm_compute; reflexivity) ltac:(lia)) as H.
  rewrite !andb_true_iff, !negb_true_iff in H. naive_solver.
Qed.

Lemma land_mask x n m : m = Z.ones n -> 0 <= n -> Z.land x m = x mod 2 ^ n.
Proof. intros ->. apply Z.land_ones. Qed.

(** The payload of a code point, most significant part first. *)
Lemma shiftr_land_small c k m n :
  m = Z.ones n -> 0 <= n -> 0 <= k -> Z.land (Z.shiftr c k) m = (c / 2 ^ k) mod 2 ^ n.
Proof. intros -> Hn Hk. rewrite Z.land_ones, Z.shiftr_div_pow2 by done. done. Qed.

(** The encoding of a code point in terms of its payload parts: the normal form
    in which the decoder's proof takes it. *)
Inductive utf8_form : Z -> bytes -> Prop :=
| utf8_form_1 a : 0 <= a < 128 -> utf8_form a [a]
| utf8_form_2 a b : 2 <= a < 32 -> 0 <= b < 64 ->
    utf8_form (a * 64 + b) [192 + a; 128 + b]
| utf8_form_3 a b c : 0 <= a < 16 -> 0 <= b < 64 -> 0 <= c < 64 -> 32 <= a * 64 + b ->
    utf8_form ((a * 64 + b) * 64 + c) [224 + a; 128 + b; 128 + c]
| utf8_form_4 a b c d : 0 <= a < 8 -> 0 <= b < 64 -> 0 <= c < 64 -> 0 <= d < 64 ->
    16 <= a * 64 + b -> ((a * 64 + b) * 64 + c) * 64 + d <= 1114111 ->
    utf8_form (((a * 64 + b) * 64 + c) * 64 + d) [240 + a; 128 + b; 128 + c; 128 + d].

Lemma lead_facts_elim lead keep len x :
  lead_facts lead keep len x = true ->
  u8 (Z.lor lead x) = lead + x /\ Z.land (lead + x) keep = x /\
  unicode_len_utf8 (lead + x) = len /\ lead + x < 256.
Proof.
  unfold lead_facts. rewrite !andb_true_iff, !Z.eqb_eq, Z.ltb_lt. naive_solver.
Qed.

Ltac payload := Z.div_mod_to_equations; lia.

Lemma unicode_cpt_to_utf8_form cpt :
  0 <= cpt <= 1114111 -> exists u, unicode_cpt_to_utf8 cpt = Ok u /\ utf8_form cpt u.
Proof.
  intros Hc. unfold unicode_cpt_to_utf8.
  rewrite !(shiftr_land_small _ _ 63 6), (shiftr_land_small _ _ 31 5),
    (shiftr_land_small _ _ 15 4), (shiftr_land_small _ _ 7 3) by (done || lia).
  rewrite (land_mask cpt 6 63) by (done || lia).
  change (2 ^ 6) with 64. change (2 ^ 12) with 4096. change (2 ^ 18) with 262144.
  change (2 ^ 5) with 32. change (2 ^ 4) with 16. change (2 ^ 3) with 8.
  pose proof (cont_byte (cpt mod 64) ltac:(payload)) as (C0 & _ & _).
  pose proof (cont_byte ((cpt / 64) mod 64) ltac:(payload)) as (C1 & _ & _).
  pose proof (cont_byte ((cpt / 4096) mod 64) ltac:(payload)) as (C2 & _ & _).
  rewrite C0, C1, C2.
  destruct (Z.leb_spec cpt 127) as [H1|H1].
  { eexists; split; [done|]. rewrite u8_small by lia. constructor. lia. }
  destruct (Z.leb_spec 128 cpt), (Z.leb_spec cpt 2047) as [H2|H2]; cbn [andb]; try lia.
  { destruct (lead_facts_elim _ _ _ _ (proj1 (lead_byte_2 ((cpt / 64) mod 32) ltac:(payload))))
      as (-> & _). eexists; split; [done|].
    replace cpt with (((cpt / 64) mod 32) * 64 + cpt mod 64) at 1 by payload.
    constructor; payload. }
  destruct (Z.leb_spec 2048 cpt), (Z.leb_spec cpt 65535) as [H3|H3]; cbn [andb]; try lia.
  { destruct (lead_facts_elim _ _ _ _ (proj1 (lead_byte_3 ((cpt / 4096) mod 16) ltac:(payload))))
      as (-> & _). eexists; split; [done|].
    replace cpt with ((((cpt / 4096) mod 16) * 64 + (cpt / 64) mod 64) * 64 + cpt mod 64)
      at 1 by payload.
    constructor; payload. }
  destruct (Z.leb_spec 65536 cpt), (Z.leb_spec cpt 1114111); cbn [andb]; try lia.
  destruct (lead_facts_elim _ _ _ _ (proj1 (lead_byte_4 ((cpt / 262144) mod 8) ltac:(payload))))
    as (-> & _). eexists; split; [done|].
  replace cpt with (((((cpt / 262144) mod 8) * 64 + (cpt / 4096) mod 64) * 64
    + (cpt / 64) mod 64) * 64 + cpt mod 64) at 1 by payload.
  constructor; payload.
Qed.

Lemma utf8_form_len cpt u : utf8_form cpt u -> 1 <= zlen u <= 4.
Proof. destruct 1; unfold zlen; cbn; lia. Qed.

Lemma utf8_form_bytes cpt u : utf8_form cpt u -> Forall byte_ok u.
Proof. unfold byte_ok. destruct 1; repeat constructor; lia. Qed.

Lemma utf8_form_range cpt u : utf8_form cpt u -> 0 <= cpt <= 1114111.
Proof. destruct 1; lia. Qed.

Lemma utf8_form_head_len cpt u b rest :
  utf8_form cpt u -> u = b :: rest -> unicode_len_utf8 b = zlen u.
Proof.
  destruct 1 as [a Ha|a b' Ha|a b' c Ha|a b' c d Ha]; intros [= <- <-].
  - by pose proof (lead_byte_1 a Ha) as (_ & _ & ->).
  - by destruct (lead_facts_elim _ _ _ _ (proj1 (lead_byte_2 a ltac:(lia)))) as (_&_&->&_).
  - by destruct (lead_facts_elim _ _ _ _ (proj1 (lead_byte_3 a ltac:(lia)))) as (_&_&->&_).
  - by destruct (lead_facts_elim _ _ _ _ (proj1 (lead_byte_4 a ltac:(lia)))) as (_&_&->&_).
Qed.

Lemma lor_payload a b : 0 <= b < 64 -> Z.lor (Z.shiftl a 6) b = a * 64 + b.
Proof. intros. by rewrite lor_shiftl_add. Qed.

Lemma shiftl_payload a b :
  0 <= b < 64 -> forall n k, 0 <= k -> n = 6 + k ->
  Z.lor (Z.shiftl a n) (Z.shiftl b k) = Z.shiftl (a * 64 + b) k.
Proof.
  intros Hb n k Hk ->. rewrite <- (Z.shiftl_shiftl a 6 k), <- Z.shiftl_lor by lia.
  by rewrite lor_payload.
Qed.

Ltac mid_lookups pre u suf :=
  let L0 := fresh "L0" in
  pose proof (zlookup_mid pre u suf 0 _ eq_refl) as L0; rewrite Z.add_0_r in L0;
  try (let L1 := fresh "L1" in pose proof (zlookup_mid pre u suf 1 _ eq_refl) as L1;
       change (Z.of_nat 1) with 1 in L1);
  try (let L2 := fresh "L2" in pose proof (zlookup_mid pre u suf 2 _ eq_refl) as L2;
       change (Z.of_nat 2) with 2 in L2);
  try (let L3 := fresh "L3" in pose proof (zlookup_mid pre u suf 3 _ eq_refl) as L3;
       change (Z.of_nat 3) with 3 in L3).

Lemma continuation_at_Some s i b :
  zlookup s i = Some b -> is_continuation b = true -> continuation_at s i = true.
Proof. unfold continuation_at. by intros ->. Qed.

Lemma unicode_cpt_from_utf8_form pre suf cpt u :
  utf8_form cpt u ->
  unicode_cpt_from_utf8 (pre ++ u ++ suf) (zlen pre) = Ok (cpt, zlen pre + zlen u).
Proof.
  unfold unicode_cpt_from_utf8.
  destruct 1 as [a Ha|a b Ha Hb|a b c Ha Hb Hc|a b c d Ha Hb Hc Hd].
  - mid_lookups pre [a] suf. rewrite (vget_Some _ _ _ L0). cbn.
    by destruct (lead_byte_1 a Ha) as (_ & -> & _).
  - mid_lookups pre [192 + a; 128 + b] suf. rewrite (vget_Some _ _ _ L0). cbn [mbind res_bind negb orb].
    destruct (lead_byte_2 a ltac:(lia)) as (F%lead_facts_elim & -> & -> & ->).
    destruct F as (_ & -> & _). pose proof (cont_byte b Hb) as (_ & Cb & Mb).
    rewrite (continuation_at_Some _ _ _ L1 Cb). cbn [mbind res_bind negb orb].
    rewrite (vget_Some _ _ _ L1). cbn [mbind res_bind negb orb]. by rewrite Mb, lor_payload.
  - mid_lookups pre [224 + a; 128 + b; 128 + c] suf.
    rewrite (vget_Some _ _ _ L0). cbn [mbind res_bind negb orb].
    destruct (lead_byte_3 a ltac:(lia)) as (F%lead_facts_elim & -> & -> & -> & ->).
    destruct F as (_ & -> & _). pose proof (cont_byte b Hb) as (_ & Cb & Mb).
    pose proof (cont_byte c Hc) as (_ & Cc & Mc).
    rewrite (continuation_at_Some _ _ _ L1 Cb), (continuation_at_Some _ _ _ L2 Cc). cbn [mbind res_bind negb orb].
    rewrite (vget_Some _ _ _ L1), (vget_Some _ _ _ L2). cbn [mbind res_bind negb orb].
    rewrite Mb, Mc. rewrite (shiftl_payload a b Hb 12 6), lor_payload by lia. done.
  - mid_lookups pre [240 + a; 128 + b; 128 + c; 128 + d] suf.
    rewrite (vget_Some _ _ _ L0). cbn [mbind res_bind negb orb].
    destruct (lead_byte_4 a ltac:(lia)) as (F%lead_facts_elim & -> & -> & -> & -> & ->).
    destruct F as (_ & -> & _). pose proof (cont_byte b Hb) as (_ & Cb & Mb).
    pose proof (cont_byte c Hc) as (_ & Cc & Mc). pose proof (cont_byte d Hd) as (_ & Cd & Md).
    rewrite (continuation_at_Some _ _ _ L1 Cb), (continuation_at_Some _ _ _ L2 Cc),
      (continuation_at_Some _ _ _ L3 Cd). cbn [mbind res_bind negb orb].
    rewrite (vget_Some _ _ _ L1), (vget_Some _ _ _ L2), (vget_Some _ _ _ L3). cbn [mbind res_bind negb orb].
    rewrite Mb, Mc, Md.
    rewrite (shiftl_payload a b Hb 18 12), (shiftl_payload (a * 64 + b) c Hc 12 6), lor_payload by lia.
    done.
Qed.

(** [s] is the UTF-8 encoding of the code points [cps]. *)
Definition utf8_text (cps : list Z) (s : bytes) : Prop :=
  exists us, Forall2 utf8_form cps us /\ s = concat us.

Lemma utf8_text_nil : utf8_text [] [].
Proof. by exists []. Qed.

Lemma utf8_text_cons c u cps s :
  utf8_form c u -> utf8_text cps s -> utf8_text (c :: cps) (u ++ s).
Proof. intros Hu (us & Hus & ->). exists (u :: us). by split; [constructor|]. Qed.

Lemma utf8_text_app cps1 cps2 s1 s2 :
  utf8_text cps1 s1 -> utf8_text cps2 s2 -> utf8_text (cps1 ++ cps2) (s1 ++ s2).
Proof.
  intros (us1 & H1 & ->) (us2 & H2 & ->). exists (us1 ++ us2).
  split; [by apply Forall2_app|by rewrite concat_app].
Qed.

Lemma utf8_text_bytes cps s : utf8_text cps s -> Forall byte_ok s.
Proof.
  intros (us & Hus & ->). induction Hus as [|c u cps us Hu _ IH]; cbn; [constructor|].
  apply Forall_app. split; [by eapply utf8_form_bytes|done].
Qed.

Lemma utf8_text_exists cps :
  Forall (fun c => 0 <= c <= 1114111) cps ->
  exists s, unicode_cpts_to_utf8 cps = Ok s /\ utf8_text cps s.
Proof.
  intros Hc.
  assert (exists us, mapM unicode_cpt_to_utf8 cps = Ok us /\ Forall2 utf8_form cps us)
    as (us & Hm & Hf).
  { induction Hc as [|c cps Hc _ (us & Hm & Hf)]; [by exists []|].
    destruct (unicode_cpt_to_utf8_form c Hc) as (u & Hu & Hfu).
    exists (u :: us). cbn. rewrite Hu. cbn. rewrite Hm. by split; [|constructor]. }
  exists (concat us). unfold unicode_cpts_to_utf8. rewrite Hm. split; [done|].
  by exists us.
Qed.

(** The encoder and the normal form agree. *)
Lemma unicode_cpt_to_utf8_complete cpt u :
  utf8_form cpt u -> unicode_cpt_to_utf8 cpt = Ok u.
Proof.
  intros Hf. destruct (unicode_cpt_to_utf8_form cpt (utf8_form_range _ _ Hf)) as (u' & Hu & Hf').
  rewrite Hu. f_equal.
  destruct Hf; inversion Hf'; subst; try lia; repeat f_equal; lia.
Qed.

Lemma mapM_to_utf8 cps us :
  Forall2 utf8_form cps us -> mapM unicode_cpt_to_utf8 cps = Ok us.
Proof.
  intros H. apply mapM_ok. eapply Forall2_impl; [done|].
  intros. by apply unicode_cpt_to_utf8_complete.
Qed.

Lemma cpts_from_utf8_step_form pre suf c u out :
  utf8_form c u ->
  cpts_from_utf8_step (pre ++ u ++ suf) (zlen pre, out) =
  Ok (Next (zlen pre + zlen u, out ++ [c])).
Proof.
  intros Hu. unfold cpts_from_utf8_step.
  rewrite (unicode_cpt_from_utf8_form pre suf c u Hu), !zlen_app.
  pose proof (utf8_form_len _ _ Hu). pose proof (zlen_nonneg suf).
  destruct (Z.ltb_spec (zlen pre) (zlen pre + (zlen u + zlen suf))); [done|lia].
Qed.

(** The decoding loop started in front of an encoded text. *)
Lemma cpts_from_utf8_loop cps us pre suf out fuel :
  Forall2 utf8_form cps us -> (length cps <= fuel)%nat ->
  while (cpts_from_utf8_step (pre ++ concat us ++ suf)) (fuel + 1) (zlen pre, out) =
  while (cpts_from_utf8_step (pre ++ concat us ++ suf)) (fuel - length cps + 1)
    (zlen pre + zlen (concat us), out ++ cps).
Proof.
  intros Hf. revert pre out fuel.
  induction Hf as [|c u cps us Hu Hf IH]; intros pre out fuel Hle; cbn [concat length] in *.
  - rewrite Nat.sub_0_r, app_nil_r, Z.add_0_r. done.
  - destruct fuel as [|fuel]; [lia|]. cbn [while Nat.add].
    replace (pre ++ (u ++ concat us) ++ suf) with (pre ++ u ++ (concat us ++ suf))
      by by rewrite !app_assoc.
    rewrite (cpts_from_utf8_step_form pre (concat us ++ suf) c u out Hu).
    cbn [mbind res_bind].
    rewrite <- (zlen_app pre u).
    replace (pre ++ u ++ concat us ++ suf) with ((pre ++ u) ++ concat us ++ suf)
      by by rewrite !app_assoc.
    rewrite IH by lia. cbn [Nat.sub]. rewrite !zlen_app. f_equal. f_equal; [lia|].
    by rewrite <- app_assoc.
Qed.

Lemma unicode_cpts_from_utf8_text cps s :
  utf8_text cps s -> unicode_cpts_from_utf8 s = Ok cps.
Proof.
  intros (us & Hf & ->).
  assert (Hl : (length cps <= length (concat us))%nat).
  { induction Hf as [|c u cps us Hu _ IH]; cbn; [lia|]. rewrite length_app.
    pose proof (utf8_form_len _ _ Hu). unfold zlen in *. lia. }
  unfold unicode_cpts_from_utf8.
  pose proof (cpts_from_utf8_loop cps us [] [] [] (length (concat us)) Hf Hl) as H.
  cbn [app] in H. rewrite app_nil_r, Nat.add_1_r in H. change (zlen []) with 0 in H.
  rewrite H. rewrite Nat.add_1_r. cbn [while]. unfold cpts_from_utf8_step.
  destruct (Z.ltb_spec (0 + zlen (concat us)) (zlen (concat us))); [lia|done].
Qed.

(** ** Totality of the decoder *)

Lemma vget_lt {A} (l : list A) i : 0 <= i < zlen l -> exists x, vget l i = Ok x.
Proof. intros [x Hx]%zlookup_lt. exists x. by apply vget_ok. Qed.

Lemma continuation_at_lt s i : continuation_at s i = true -> 0 <= i < zlen s.
Proof.
  unfold continuation_at. destruct (zlookup s i) eqn:E; [|done].
  intros _. by eapply zlookup_Some_lt.
Qed.

(** Decoding inside the string either reads a code point below [2 ^ 21] and
    stays inside the string, or throws [std::invalid_argument]. *)
Lemma unicode_cpt_from_utf8_post s off :
  Forall byte_ok s -> 0 <= off < zlen s ->
  post (unicode_cpt_from_utf8 s off)
    (fun r => 0 <= fst r < 2097152 /\ off < snd r <= zlen s)
    (fun e => exists m, e = Throw m).
Proof.
  intros Hs Hoff. unfold unicode_cpt_from_utf8.
  destruct (vget_lt s off Hoff) as [b0 Hb0]. rewrite Hb0. cbn [mbind res_bind].
  assert (Hb : 0 <= b0 < 256).
  { apply vget_ok in Hb0. unfold zlookup in Hb0. case_match; [|done].
    by eapply Forall_lookup_1 in Hs. }
  destruct (Z.land b0 128 =? 0); [cbn; lia|].
  destruct (Z.land b0 64 =? 0); [cbn; eauto|].
  assert (forall x, in_bits 21 x -> 0 <= x < 2097152) as W by done.
  repeat match goal with
  | |- context [if Z.land b0 ?k =? 0 then _ else _] => destruct (Z.land b0 k =? 0)
  | |- context [continuation_at s ?i] =>
      let C := fresh "C" in
      destruct (continuation_at s i) eqn:C; cbn [negb orb];
        [apply continuation_at_lt in C; let b := fresh "b" in
         destruct (vget_lt s i C) as [b ->]; cbn [mbind res_bind]|try (cbn; by eauto)]
  end; try (cbn; by eauto).
  all: cbn [post fst snd]; split; [apply W; auto 10 with llama_bits|lia].
Qed.

(** The decoding loop never faults: it returns within its fuel, at most one code
    point per byte. *)
Lemma unicode_cpts_from_utf8_post s :
  Forall byte_ok s ->
  safe (unicode_cpts_from_utf8 s)
    (fun cps => (length cps <= length s)%nat /\ Forall (fun c => 0 <= c < 2097152) cps).
Proof.
  intros Hs. unfold unicode_cpts_from_utf8.
  apply (while_post (cpts_from_utf8_step s)
    (fun st => 0 <= fst st <= zlen s /\ zlen (snd st) <= fst st /\
               Forall (fun c => 0 <= c < 2097152) (snd st))
    (fun st => Z.to_nat (zlen s - fst st))).
  - cbn. pose proof (zlen_nonneg s). unfold zlen in *. cbn. split_and!; [lia..|constructor].
  - cbn. unfold zlen. lia.
  - intros [off out] (Hoff & Hlen & Hout). cbn [fst snd] in *. unfold cpts_from_utf8_step.
    destruct (Z.ltb_spec off (zlen s)) as [Hlt|Hge].
    + pose proof (unicode_cpt_from_utf8_post s off Hs ltac:(lia)) as Hp.
      destruct (unicode_cpt_from_utf8 s off) as [[c off']|[m| | |]]; cbn in Hp;
        try (destruct Hp as [? [=]]); cbn [post fst snd]; rewrite ?zlen_app;
        change (zlen [_]) with 1; cbn [zlen length];
        (split; [split_and!; try lia; apply Forall_app; split; [done|constructor; [lia|done]]|lia]).
    + cbn. unfold zlen in *. split; [lia|done].
Qed.

(** ** Binary searches in the tables *)

Section table_lemmas.
Context `{D : UnicodeData} {L : UnicodeDataLaws D}.

Lemma sorted_lookup {A} (key : A -> Z) l i j x y :
  StronglySorted (fun a b => key a < key b) l ->
  (i < j)%nat -> l !! i = Some x -> l !! j = Some y -> key x < key y.
Proof.
  intros Hs. revert i j. induction Hs as [|a l Hs IH Ha]; intros i j Hij Hi Hj; [done|].
  destruct i as [|i], j as [|j]; cbn in *; try lia.
  - injection Hi as <-. by eapply Forall_lookup_1 in Ha.
  - eapply (IH i j); [lia|done|done].
Qed.

Lemma unicode_tolower_mapped k v :
  (k, v) ∈ unicode_map_lowercase -> unicode_tolower k = v.
Proof.
  intros (i & Hi)%list_elem_of_lookup. unfold unicode_tolower.
  rewrite (partition_point_spec _ _ i); [by rewrite Hi, Z.eqb_refl|].
  split; [apply lookup_lt_Some in Hi; lia|].
  intros j [k' v'] Hj. cbn. rewrite Z.ltb_lt. split.
  - intros Hlt. destruct (decide (j < i)%nat) as [|Hge]; [done|].
    destruct (decide (j = i)) as [->|]; [naive_solver lia|].
    pose proof (sorted_lookup fst _ i j _ _ lowercase_sorted ltac:(lia) Hi Hj). cbn in *. lia.
  - intros Hlt. by pose proof (sorted_lookup fst _ j i _ _ lowercase_sorted Hlt Hj Hi).
Qed.

Lemma unicode_tolower_unmapped c :
  (forall v, (c, v) ∉ unicode_map_lowercase) -> unicode_tolower c = c.
Proof.
  intros Hc. unfold unicode_tolower. case_match eqn:E; [|done].
  destruct p as [k v]. destruct (Z.eqb_spec k c) as [->|]; [|done].
  exfalso. apply (Hc v). apply list_elem_of_lookup. by eexists.
Qed.

(** The range that the search of [normalize_nfd_cpt] finds: the last one that
    starts at or below the code point. *)
Lemma normalize_nfd_found c :
  0 <= c -> exists i f l n,
    unicode_ranges_nfd !! i = Some (f, l, n) /\ f <= c /\
    (forall j f' l' n', unicode_ranges_nfd !! j = Some (f', l', n') -> f' <= c -> (j <= i)%nat) /\
    normalize_nfd_cpt c = Ok (if (f <=? c) && (c <=? l) then n else c).
Proof.
  intros Hc. destruct nfd_first as (l0 & n0 & rest & Hfst).
  destruct (partitioned_exists (fun r => negb (c <? fst (fst r))) unicode_ranges_nfd)
    as (k & Hk).
  { intros i j [[f l] n] [[f' l'] n'] Hij Hi Hj. cbn.
    rewrite !negb_true_iff, !Z.ltb_ge. intros Hle.
    destruct (decide (i = j)) as [->|]; [naive_solver lia|].
    pose proof (sorted_lookup (fun r => fst (fst r)) _ i j _ _ nfd_sorted ltac:(lia) Hi Hj).
    cbn in *. lia. }
  destruct Hk as [Hkl Hkp].
  assert (0 < k)%nat as Hk0.
  { apply (Hkp 0%nat (0, l0, n0)); [by rewrite Hfst|]. cbn. rewrite negb_true_iff, Z.ltb_ge. lia. }
  destruct (lookup_lt_is_Some_2 unicode_ranges_nfd (k - 1)) as [[[f l] n] Hi]; [lia|].
  exists (k - 1)%nat, f, l, n. split_and!; [done|..].
  - assert (negb (c <? f) = true) as Hf by (apply (Hkp _ _ Hi); lia).
    rewrite negb_true_iff, Z.ltb_ge in Hf. done.
  - intros j f' l' n' Hj Hle.
    assert (j < k)%nat; [|lia]. apply (Hkp _ _ Hj). cbn. rewrite negb_true_iff, Z.ltb_ge. done.
  - unfold normalize_nfd_cpt. rewrite (partition_point_spec _ _ k) by done.
    rewrite (vget_Some _ _ (f, l, n)); [done|].
    replace (Z.of_nat k - 1) with (Z.of_nat (k - 1)) by lia. by rewrite zlookup_nat.
Qed.

End table_lemmas.

(** ** The byte alphabet *)

(** The two maps, evaluated. *)
Definition byte_alphabet_ok (b : Z) : bool :=
  match unicode_byte_to_utf8 b with
  | Ok u =>
      match unicode_utf8_to_byte u, unicode_cpts_from_utf8 u with
      | Ok b', Ok [c] =>
          (b' =? b) && (0 <=? c) && (c <=? 1114111) &&
          bool_decide (unicode_cpt_to_utf8 c = Ok u)
      | _, _ => false
      end
  | Err _ => false
  end.

Lemma byte_alphabet_char b :
  byte_ok b -> exists u c, unicode_byte_to_utf8 b = Ok u /\ utf8_form c u /\
    unicode_utf8_to_byte u = Ok b.
Proof.
  unfold byte_ok. intros Hb.
  assert (H : byte_alphabet_ok b = true)
    by (apply (zseq_forallb _ 0 256); [vm_compute; reflexivity|lia]).
  unfold byte_alphabet_ok in H.
  destruct (unicode_byte_to_utf8 b) as [u|]; [|discriminate H].
  destruct (unicode_utf8_to_byte u) as [b'|] eqn:Hb'; [|discriminate H].
  destruct (unicode_cpts_from_utf8 u) as [[|c [|]]|]; try discriminate H.
  rewrite !andb_true_iff, Z.eqb_eq, !Z.leb_le, bool_decide_eq_true in H.
  destruct H as [[[-> H1] H2] H3]. exists u, c. split; [reflexivity|]. split; [|exact Hb'].
  destruct (unicode_cpt_to_utf8_form c ltac:(lia)) as (u' & Hu' & Hf).
  rewrite Hu' in H3. injection H3 as ->. exact Hf.
Qed.

(** Byte strings written in the byte-level alphabet: characters of the alphabet,
    one per byte. *)
Lemma byte_alphabet_text bs :
  Forall byte_ok bs -> exists us cps,
    mapM unicode_byte_to_utf8 bs = Ok us /\ Forall2 utf8_form cps us /\
    mapM unicode_utf8_to_byte us = Ok bs.
Proof.
  induction 1 as [|b bs Hb _ (us & cps & H1 & H2 & H3)].
  { exists [], []. split; [reflexivity|]. by split; [constructor|]. }
  destruct (byte_alphabet_char b Hb) as (u & c & Hu & Hf & Hi).
  exists (u :: us), (c :: cps). cbn [mapM]. rewrite Hu, Hi. cbn [mbind res_bind].
  rewrite H1, H3. cbn [mbind res_bind].
  split; [reflexivity|]. split; [by constructor|reflexivity].
Qed.

(** * Properties *)

(** The byte alphabet of byte-level BPE: every byte has a character in
    [unicode_byte_to_utf8], that character is one well-formed UTF-8 code point,
    [unicode_utf8_to_byte] maps it back to the byte, and two different bytes
    never share a character. *)
Theorem byte_alphabet_bijective (b b' : Z) :
  byte_ok b -> byte_ok b' ->
  exists u u' c, unicode_byte_to_utf8 b = Ok u /\ unicode_byte_to_utf8 b' = Ok u' /\
    unicode_cpts_from_utf8 u = Ok [c] /\ unicode_utf8_to_byte u = Ok b /\
    (u = u' -> b = b').
Proof.
  intros Hb Hb'.
  destruct (byte_alphabet_char b Hb) as (u & c & Hu & Hf & Hi).
  destruct (byte_alphabet_char b' Hb') as (u' & c' & Hu' & Hf' & Hi').
  exists u, u', c. split_and!; [exact Hu|exact Hu'| |exact Hi|].
  - rewrite <- (app_nil_r u). apply unicode_cpts_from_utf8_text.
    apply utf8_text_cons; [exact Hf|apply utf8_text_nil].
  - intros <-. congruence.
Qed.

Lemma byte_alphabet_bijective_witness :
  byte_ok 32 /\ byte_ok 10 /\
  exists u u' c, unicode_byte_to_utf8 32 = Ok u /\ unicode_byte_to_utf8 10 = Ok u' /\
    unicode_cpts_from_utf8 u = Ok [c] /\ unicode_utf8_to_byte u = Ok 32 /\
    (u = u' -> 32 = 10).
Proof.
  assert (H : byte_ok 32 /\ byte_ok 10) by (unfold byte_ok; lia).
  split; [exact (proj1 H)|]. split; [exact (proj2 H)|].
  apply (byte_alphabet_bijective 32 10); [exact (proj1 H)|exact (proj2 H)].
Defined.

(** UTF-8 round trip: every list of code points up to U+10FFFF is encoded
    without an exception, its encoding is made of bytes, decoding it gives the
    same code points back, and [unicode_len_utf8] of the first byte of each
    encoded character is that character's length. *)
Theorem utf8_roundtrip (cps : list Z) :
  Forall (fun c => 0 <= c <= 1114111) cps ->
  exists s us,
    unicode_cpts_to_utf8 cps = Ok s /\ unicode_cpts_from_utf8 s = Ok cps /\
    Forall byte_ok s /\ s = concat us /\
    Forall2 (fun c u => unicode_cpt_to_utf8 c = Ok u /\
                        (unicode_len_utf8 <$> head u) = Some (zlen u)) cps us.
Proof.
  intros Hc. destruct (utf8_text_exists cps Hc) as (s & Hs & us & Hf & ->).
  exists (concat us), us. split_and!; [done| | |done|].
  - apply unicode_cpts_from_utf8_text. by exists us.
  - apply (utf8_text_bytes cps). by exists us.
  - eapply Forall2_impl; [done|]. intros c u Hu.
    split; [by apply unicode_cpt_to_utf8_complete|].
    pose proof (utf8_form_len _ _ Hu). destruct u as [|b u]; [unfold zlen in *; cbn in *; lia|].
    cbn. f_equal. by eapply utf8_form_head_len.
Qed.

Lemma utf8_roundtrip_witness :
  Forall (fun c => 0 <= c <= 1114111) [65; 233; 9601; 128512] /\
  exists s us,
    unicode_cpts_to_utf8 [65; 233; 9601; 128512] = Ok s /\
    unicode_cpts_from_utf8 s = Ok [65; 233; 9601; 128512] /\
    Forall byte_ok s /\ s = concat us /\
    Forall2 (fun c u => unicode_cpt_to_utf8 c = Ok u /\
                        (unicode_len_utf8 <$> head u) = Some (zlen u))
      [65; 233; 9601; 128512] us.
Proof.
  assert (H : Forall (fun c => 0 <= c <= 1114111) [65; 233; 9601; 128512])
    by (repeat constructor; lia).
  split; [exact H|]. apply (utf8_roundtrip [65; 233; 9601; 128512]). exact H.
Defined.

(** The decoder of a whole string is total: on every byte string, valid UTF-8
    or not, it returns without an exception and within its loop bound, gives
    at most one code point per byte, and every code point is below [2^21]. *)
Theorem unicode_cpts_from_utf8_total (s : bytes) :
  Forall byte_ok s ->
  exists cps, unicode_cpts_from_utf8 s = Ok cps /\ (length cps <= length s)%nat /\
              Forall (fun c => 0 <= c < 2097152) cps.
Proof. intros Hs. by apply safe_ok, unicode_cpts_from_utf8_post. Qed.

Lemma unicode_cpts_from_utf8_total_witness :
  Forall byte_ok [255; 226; 150; 65] /\
  exists cps, unicode_cpts_from_utf8 [255; 226; 150; 65] = Ok cps /\
    (length cps <= length [255; 226; 150; 65])%nat /\
    Forall (fun c => 0 <= c < 2097152) cps.
Proof.
  assert (H : Forall byte_ok [255; 226; 150; 65]) by (unfold byte_ok; repeat constructor; lia).
  split; [exact H|]. apply (unicode_cpts_from_utf8_total [255; 226; 150; 65]). exact H.
Defined.

#[global] Opaque unicode_byte_to_utf8 unicode_utf8_to_byte.
