(* ===== verification/UnicodeSplit.v ===== *)
(** The pre-tokeniser of [src/unicode.cpp]: the hand-written GPT-2 and LLaMA-3
    splitters, the fallback on the standard regular expression engine, and
    [unicode_regex_split] which chooses between them and re-encodes the words
    in the byte-level alphabet. *)
From S2P Require Import Prelude Unicode.

Definition OUT_OF_RANGE : Z := 4294967295.

(** Characters the splitters compare with. *)
Definition CH_LF : Z := 10.
Definition CH_CR : Z := 13.
Definition CH_SPACE : Z := 32.
Definition CH_QUOTE : Z := 39.
Definition CH_d : Z := 100.
Definition CH_e : Z := 101.
Definition CH_l : Z := 108.
Definition CH_m : Z := 109.
Definition CH_r : Z := 114.
Definition CH_s : Z := 115.
Definition CH_t : Z := 116.
Definition CH_v : Z := 118.

Section splitters.
Context `{UnicodeData}.
Variable cpts : list Z.

(** State of the inner loop over one chunk: the position, the end of the last
  token and the lengths pushed so far. *)
Record split_state := SplitState {
sp_pos : Z;
sp_prev_end : Z;
sp_offsets : list Z
}.

Section chunk.
Variables offset_ini offset_end : Z.

Definition _get_cpt (pos : Z) : Z :=
  if (offset_ini <=? pos) && (pos <? offset_end) then default 0 (zlookup cpts pos)
  else OUT_OF_RANGE.

Definition _get_flags (pos : Z) : Z :=
  if (offset_ini <=? pos) && (pos <? offset_end)
  then unicode_cpt_flags_from_cpt (default 0 (zlookup cpts pos)) else 0.

(** Ends a token at [e]; returns its length. *)
Definition _add_token (e : Z) (st : split_state) : res (Z * split_state) :=
  ggml_assert ((sp_prev_end st <=? e) && (e <=? offset_end));;
  let len := e - sp_prev_end st in
  Ok (len, {| sp_pos := sp_pos st; sp_prev_end := e;
          sp_offsets := if 0 <? len then sp_offsets st ++ [len] else sp_offsets st |}).

(** Ends a token at [e] and continues there. *)
Definition finish (e : Z) (st : split_state) : res (step split_state split_state) :=
  r ← _add_token e st;
  Ok (Next {| sp_pos := e; sp_prev_end := sp_prev_end (snd r);
          sp_offsets := sp_offsets (snd r) |}).

(** [pos += _add_token(pos + k); continue;] *)
Definition finish_len (k : Z) (st : split_state) : res (step split_state split_state) :=
  r ← _add_token (sp_pos st + k) st;
  Ok (Next {| sp_pos := sp_pos st + fst r; sp_prev_end := sp_prev_end (snd r);
          sp_offsets := sp_offsets (snd r) |}).

(** [while (P(x)) x = get(++pos);] from [x] at [pos]: the final position. *)
Definition scan {A} (get : Z -> A) (P : A -> bool) (x : A) (pos : Z) : res Z :=
  while (fun st : A * Z =>
       let '(x, pos) := st in
       if P x then Ok (Next (get (pos + 1), pos + 1)) else Ok (Done pos))
    (S (length cpts)) (x, pos).

(** ['s|'t|'re|'ve|'m|'ll|'d] at [pos], after the mapping [lower] of the
letters: the length of the match. *)
Definition contraction (lower : Z -> Z) (pos : Z) : option Z :=
  if (_get_cpt pos =? CH_QUOTE) && (pos + 1 <? offset_end) then
let cpt_next := lower (_get_cpt (pos + 1)) in
if (cpt_next =? CH_s) || (cpt_next =? CH_t) || (cpt_next =? CH_m) || (cpt_next =? CH_d)
then Some 2
else if pos + 2 <? offset_end then
  let cpt_next_next := lower (_get_cpt (pos + 2)) in
  if ((cpt_next =? CH_r) && (cpt_next_next =? CH_e)) ||
     ((cpt_next =? CH_v) && (cpt_next_next =? CH_e)) ||
     ((cpt_next =? CH_l) && (cpt_next_next =? CH_l))
  then Some 3 else None
else None
  else None.

(** [!(is_whitespace | is_letter | is_number) && as_uint()] *)
Definition other_class (f f' : Z) : bool :=
  negb (is_whitespace f || is_letter f || is_number f) && negb (f' =? 0).

(** [\s+(?!\S)|\s+] and the default case, given the number of whitespace code
points at the position. *)
Definition whitespace_tail (num_whitespaces : Z) (st : split_state) :
res (step split_state split_state) :=
  let pos := sp_pos st in
  if (1 <? num_whitespaces) && negb (_get_cpt (pos + num_whitespaces) =? OUT_OF_RANGE)
  then finish (pos + num_whitespaces - 1) st
  else if 0 <? num_whitespaces then finish (pos + num_whitespaces) st
  else finish (pos + 1) st.

(** One iteration of the GPT-2 splitter. *)
Definition gpt2_step (st : split_state) : res (step split_state split_state) :=
  let pos := sp_pos st in
  if negb (pos <? offset_end) then Ok (Done st)
  else
let cpt := _get_cpt pos in
let flags := _get_flags pos in
match contraction id pos with
| Some k => finish_len k st
| None =>
    let sp := if cpt =? CH_SPACE then 1 else 0 in
    let flags2 := if cpt =? CH_SPACE then _get_flags (pos + 1) else flags in
    if is_letter flags2 then
      e ← scan _get_flags is_letter flags2 (pos + sp); finish e st
    else if is_number flags2 then
      e ← scan _get_flags is_number flags2 (pos + sp); finish e st
    else if other_class flags2 flags2 then
      e ← scan _get_flags (fun f => other_class f f) flags2 (pos + sp); finish e st
    else
      e ← scan _get_flags is_whitespace flags pos;
      whitespace_tail (e - pos) st
end.

(** [\p{N}{1,3}]: runs of digits cut every three. *)
Definition digits_step (s : Z * Z * split_state) :
res (step (Z * Z * split_state) (Z * split_state)) :=
  let '(pos, ini, st) := s in
  if is_number (_get_flags pos) then
let pos := pos + 1 in
if 3 <=? pos - ini then
  r ← _add_token pos st; Ok (Next (pos, pos, snd r))
else Ok (Next (pos, ini, st))
  else Ok (Done (pos, st)).

(** The whitespace loop of the LLaMA-3 splitter: the number of whitespace code
points and the end of the last line break among them, 0 without one. *)
Definition whitespace_step (pos : Z) (s : Z * Z) : res (step (Z * Z) (Z * Z)) :=
  let '(num_whitespaces, last_end_r_or_n) := s in
  if is_whitespace (_get_flags (pos + num_whitespaces)) then
let cpt2 := _get_cpt (pos + num_whitespaces) in
let last :=
  if (cpt2 =? CH_CR) || (cpt2 =? CH_LF) then pos + num_whitespaces + 1
  else last_end_r_or_n in
Ok (Next (num_whitespaces + 1, last))
  else Ok (Done (num_whitespaces, last_end_r_or_n)).

(** One iteration of the LLaMA-3 splitter. *)
Definition llama3_step (st : split_state) : res (step split_state split_state) :=
  let pos := sp_pos st in
  if negb (pos <? offset_end) then Ok (Done st)
  else
let cpt := _get_cpt pos in
let flags := _get_flags pos in
match contraction unicode_tolower pos with
| Some k => finish_len k st
| None =>
    if negb ((cpt =? CH_CR) || (cpt =? CH_LF) || is_number flags) &&
       (is_letter flags || is_letter (_get_flags (pos + 1))) then
      e ← scan _get_flags is_letter (_get_flags (pos + 1)) (pos + 1); finish e st
    else if is_number flags then
      r ← while digits_step (S (length cpts)) (pos, pos, st);
      finish (fst r) (snd r)
    else
      let sp := if cpt =? CH_SPACE then 1 else 0 in
      let flags2 := if cpt =? CH_SPACE then _get_flags (pos + 1) else flags in
      if other_class flags2 flags then
        e ← scan _get_flags (fun f => other_class f f) flags2 (pos + sp);
        e ← scan _get_cpt (fun c => (c =? CH_CR) || (c =? CH_LF)) (_get_cpt e) e;
        finish e st
      else
        r ← while (whitespace_step pos) (S (length cpts)) (0, 0);
        let '(num_whitespaces, last_end_r_or_n) := r in
        if 0 <? last_end_r_or_n then finish last_end_r_or_n st
        else whitespace_tail num_whitespaces st
end.

(** The loop over the positions of one chunk. *)
Definition split_chunk (body : split_state -> res (step split_state split_state))
(offsets : list Z) : res (list Z) :=
  st ← while body (S (length cpts))
     {| sp_pos := offset_ini; sp_prev_end := offset_ini; sp_offsets := offsets |};
  Ok (sp_offsets st).

End chunk.

(** The loop over the chunks of the previous split. *)
Fixpoint split_chunks (body : Z -> Z -> split_state -> res (step split_state split_state))
  (start : Z) (offsets : list Z) (bpe_offsets : list Z) : res (list Z) :=
match offsets with
| [] => Ok bpe_offsets
| offset :: offsets =>
    let offset_end := start + offset in
    ggml_assert (offset_end <=? zlen cpts);;
    bpe_offsets ← split_chunk start (body start offset_end) bpe_offsets;
    split_chunks body offset_end offsets bpe_offsets
end.

End splitters.

Definition unicode_regex_split_custom_gpt2 `{UnicodeData} (text : bytes) (offsets : list Z) :
    res (list Z) :=
  cpts ← unicode_cpts_from_utf8 text; split_chunks cpts (gpt2_step cpts) 0 offsets [].

Definition unicode_regex_split_custom_llama3 `{UnicodeData} (text : bytes) (offsets : list Z) :
    res (list Z) :=
  cpts ← unicode_cpts_from_utf8 text; split_chunks cpts (llama3_step cpts) 0 offsets [].

(** * The splitters partition every chunk *)

Section splitter_proofs.
Context `{D : UnicodeData}.
Variable cpts : list Z.

Section chunk_proofs.
Variables ini fin : Z.
Hypothesis Hini : 0 <= ini.
Hypothesis Hfin : ini <= fin <= zlen cpts.

Lemma get_flags_out p : fin <= p -> _get_flags cpts ini fin p = 0.
Proof. intros. unfold _get_flags. by destruct (Z.ltb_spec p fin); [lia|rewrite andb_false_r]. Qed.

Lemma get_cpt_out p : fin <= p -> _get_cpt cpts ini fin p = OUT_OF_RANGE.
Proof. intros. unfold _get_cpt. by destruct (Z.ltb_spec p fin); [lia|rewrite andb_false_r]. Qed.

(** A scan stops inside the chunk, and moves when its first test holds. *)
Lemma scan_post {A} (get : Z -> A) (P : A -> bool) pos :
  ini <= pos <= fin -> (forall p, fin <= p -> P (get p) = false) ->
  safe (scan cpts get P (get pos) pos)
    (fun p => pos <= p <= fin /\ (P (get pos) = true -> pos < p)).
Proof.
  intros Hpos Hout. unfold scan.
  apply (while_post _ (fun s => pos <= snd s <= fin /\ fst s = get (snd s))
    (fun s => Z.to_nat (fin - snd s))).
  - cbn. split; [lia|done].
  - cbn. unfold zlen in *. lia.
  - intros [x p] [Hp Hx]. cbn in Hp, Hx. subst x. destruct (P (get p)) eqn:HP; cbn.
    + assert (p < fin). { destruct (Z.ltb_spec p fin); [done|]. rewrite Hout in HP; [done|lia]. }
      split; [split; [lia|done]|lia].
    + split; [lia|]. intros HP'. destruct (Z.eq_dec p pos) as [->|]; [congruence|lia].
Qed.

(** The invariant of the position loop, with what has been pushed since the
    chunk was entered. *)
Definition split_inv (out : list Z) (st : split_state) : Prop :=
  sp_prev_end st = sp_pos st /\ ini <= sp_pos st <= fin /\
  exists new, sp_offsets st = out ++ new /\ zsum new = sp_pos st - ini /\ Forall (Z.lt 0) new.

(** An iteration that is not the last one keeps the invariant and advances. *)
Definition split_next (out : list Z) (st : split_state) (r : step split_state split_state) : Prop :=
  match r with
  | Next st' => split_inv out st' /\ sp_pos st < sp_pos st'
  | Done st' => split_inv out st' /\ sp_pos st' = fin
  end.

Lemma finish_at st0 st e out :
  sp_prev_end st0 = sp_pos st \/ sp_pos st <= sp_prev_end st0 ->
  ini <= sp_pos st -> sp_pos st < e -> sp_prev_end st0 <= e <= fin ->
  (exists new, sp_offsets st0 = out ++ new /\ zsum new = sp_prev_end st0 - ini /\ Forall (Z.lt 0) new) ->
  safe (finish fin e st0) (split_next out st).
Proof.
  intros _ Hi Hlt He (new & Hnew & Hsum & Hpos). unfold finish, _add_token.
  destruct (Z.leb_spec (sp_prev_end st0) e), (Z.leb_spec e fin); try lia. cbn.
  split; [|lia]. split_and!; cbn; [done|lia..|].
  destruct (Z.ltb_spec 0 (e - sp_prev_end st0)).
  - exists (new ++ [e - sp_prev_end st0]). rewrite app_assoc, <- Hnew, zsum_app, Hsum.
    split_and!; [done|cbn; lia|]. apply Forall_app. split; [done|by repeat constructor].
  - exists new. rewrite Hnew. split_and!; [done|lia|done].
Qed.

Lemma finish_post st e out :
  split_inv out st -> sp_pos st < e <= fin -> safe (finish fin e st) (split_next out st).
Proof.
  intros (Hp & Hr & Hnew) He. apply finish_at; [by left|lia..|]. by rewrite Hp.
Qed.

Lemma finish_len_post st k out :
  split_inv out st -> 0 < k -> sp_pos st + k <= fin ->
  safe (finish_len fin k st) (split_next out st).
Proof.
  intros Hinv Hk Hle. pose proof (finish_post st (sp_pos st + k) out Hinv ltac:(lia)) as H.
  unfold finish_len, finish in *. destruct (_add_token fin (sp_pos st + k) st) as [[n st']|] eqn:E;
    [|done]. cbn in *.
  assert (n = k) as ->; [|done]. unfold _add_token in E. destruct Hinv as (Hp & _).
  destruct (_ && _); [|discriminate E]. cbn in E. injection E as <- _. lia.
Qed.

Lemma whitespace_tail_post st n out :
  split_inv out st -> sp_pos st < fin -> 0 <= n <= fin - sp_pos st ->
  safe (whitespace_tail cpts ini fin n st) (split_next out st).
Proof.
  intros Hinv Hlt Hn. unfold whitespace_tail.
  destruct (Z.ltb_spec 1 n), (negb _); cbn [andb];
    try (destruct (Z.ltb_spec 0 n)); apply finish_post; auto; lia.
Qed.

Lemma contraction_bound lower pos k :
  contraction cpts ini fin lower pos = Some k -> 0 < k /\ pos + k <= fin.
Proof.
  unfold contraction. destruct (Z.ltb_spec (pos + 1) fin); [|by rewrite andb_false_r].
  destruct (_ =? _); cbn [andb]; [|done].
  destruct (_ || _ || _ || _); [intros [= <-]; lia|].
  destruct (Z.ltb_spec (pos + 2) fin); [|done].
  destruct (_ || _ || _); [intros [= <-]; lia|done].
Qed.

Lemma is_letter_0 : is_letter 0 = false. Proof. done. Qed.

Ltac out_of_chunk := intros ? ?; rewrite get_flags_out by done; done.

Lemma gpt2_step_post st out :
  split_inv out st -> safe (gpt2_step cpts ini fin st) (split_next out st).
Proof.
  intros Hinv. pose proof Hinv as (Hp & Hr & _). unfold gpt2_step.
  destruct (Z.ltb_spec (sp_pos st) fin) as [Hlt|Hge]; cbn [negb]; [|cbn; split; [done|lia]].
  destruct (contraction _ _ _ _ _) as [k|] eqn:Hk.
  { apply contraction_bound in Hk. apply finish_len_post; [done|lia..]. }
  set (sp := if _ =? CH_SPACE then 1 else 0).
  set (flags2 := if _ =? CH_SPACE then _ else _).
  assert (Hf : flags2 = _get_flags cpts ini fin (sp_pos st + sp)).
  { subst sp flags2. case_match; by rewrite ?Z.add_0_r. }
  assert (Hsp : 0 <= sp <= 1) by (subst sp; case_match; lia).
  clearbody flags2. subst flags2.
  destruct (is_letter _) eqn:H1; [|destruct (is_number _) eqn:H2; [|destruct (other_class _ _) eqn:H3]].
  all: cbn [negb]; eapply post_bind;
    [apply scan_post; [lia|out_of_chunk]|cbn beta; intros e [He Hmove]].
  1-3: apply finish_post; [done|]; specialize (Hmove ltac:(done)); lia.
  apply whitespace_tail_post; [done|lia..].
Qed.

Lemma digits_post st out :
  split_inv out st -> sp_pos st < fin ->
  is_number (_get_flags cpts ini fin (sp_pos st)) = true ->
  safe (while (digits_step cpts ini fin) (S (length cpts)) (sp_pos st, sp_pos st, st))
    (fun r => sp_pos st < fst r <= fin /\ sp_prev_end (snd r) <= fst r /\
   sp_pos st <= sp_prev_end (snd r) /\
   exists new, sp_offsets (snd r) = out ++ new /\ zsum new = sp_prev_end (snd r) - ini /\
               Forall (Z.lt 0) new).
Proof.
  intros Hinv Hlt Hnum. pose proof Hinv as (Hp & Hr & Hnew).
  apply (while_post _ (fun s => let '(pos, i, st') := s in
  sp_pos st <= pos <= fin /\ sp_prev_end st' <= pos /\ sp_pos st <= sp_prev_end st' /\
  exists new, sp_offsets st' = out ++ new /\ zsum new = sp_prev_end st' - ini /\
              Forall (Z.lt 0) new)
    (fun s => Z.to_nat (fin - fst (fst s)))).
  - rewrite Hp. split_and!; [lia..|done].
  - cbn. unfold zlen in *. lia.
  - intros [[pos i] st'] (H1 & H2 & H3 & new & H4 & H5 & H6). unfold digits_step.
    destruct (is_number (_get_flags cpts ini fin pos)) eqn:Hn.
    + assert (pos < fin).
  { destruct (Z.ltb_spec pos fin); [done|]. by rewrite get_flags_out in Hn. }
  destruct (Z.leb_spec 3 (pos + 1 - i)); cbn.
  * unfold _add_token.
    destruct (Z.leb_spec (sp_prev_end st') (pos + 1)), (Z.leb_spec (pos + 1) fin); try lia.
    cbn. split; [|lia]. split_and!; [lia..|].
    destruct (Z.ltb_spec 0 (pos + 1 - sp_prev_end st')); [|lia].
    exists (new ++ [pos + 1 - sp_prev_end st']). rewrite app_assoc, <- H4, zsum_app, H5.
    split_and!; [done|cbn; lia|]. apply Forall_app. split; [done|by repeat constructor].
  * split; [|lia]. split_and!; [lia..|]. by exists new.
    + cbn. destruct (Z.eq_dec pos (sp_pos st)) as [->|]; [congruence|].
  split_and!; [lia..|]. by exists new.
Qed.

Lemma whitespace_post pos :
  ini <= pos < fin ->
  safe (while (whitespace_step cpts ini fin pos) (S (length cpts)) (0, 0))
    (fun r => 0 <= fst r <= fin - pos /\ (0 < snd r -> pos < snd r <= fin)).
Proof.
  intros Hpos.
  apply (while_post _ (fun s => 0 <= fst s <= fin - pos /\ (0 < snd s -> pos < snd s <= fin))
    (fun s => Z.to_nat (fin - pos - fst s))).
  - cbn. lia.
  - cbn. unfold zlen in *. lia.
  - intros [n l] [Hn Hl]. cbn in Hn, Hl. unfold whitespace_step.
    destruct (is_whitespace _) eqn:Hw; cbn; [|done].
    assert (pos + n < fin).
    { destruct (Z.ltb_spec (pos + n) fin); [done|]. by rewrite get_flags_out in Hw. }
    split; [|lia]. split; [lia|]. case_match; lia.
Qed.

Lemma llama3_step_post st out :
  split_inv out st -> safe (llama3_step cpts ini fin st) (split_next out st).
Proof.
  intros Hinv. pose proof Hinv as (Hp & Hr & _). unfold llama3_step.
  destruct (Z.ltb_spec (sp_pos st) fin) as [Hlt|Hge]; cbn [negb]; [|cbn; split; [done|lia]].
  destruct (contraction _ _ _ _ _) as [k|] eqn:Hk.
  { apply contraction_bound in Hk. apply finish_len_post; [done|lia..]. }
  destruct (_ && _) eqn:H1.
  { eapply post_bind; [apply scan_post; [lia|out_of_chunk]|].
    cbn beta. intros e [He _]. apply finish_post; [done|lia]. }
  destruct (is_number _) eqn:H2.
  { eapply post_bind; [by apply (digits_post _ out)|]. cbn beta.
    intros [pos st'] (G1 & G2 & G3 & Hnew). cbn in *. apply finish_at; auto; lia. }
  set (sp := if _ =? CH_SPACE then 1 else 0).
  set (flags2 := if _ =? CH_SPACE then _ else _).
  assert (Hf : flags2 = _get_flags cpts ini fin (sp_pos st + sp)).
  { subst sp flags2. case_match; by rewrite ?Z.add_0_r. }
  assert (Hmv : other_class flags2 (_get_flags cpts ini fin (sp_pos st)) = true ->
    0 < sp \/ other_class (_get_flags cpts ini fin (sp_pos st + sp))
            (_get_flags cpts ini fin (sp_pos st + sp)) = true).
  { rewrite Hf. subst sp. case_match; [left; lia|right]. rewrite Z.add_0_r in *. done. }
  assert (Hsp : 0 <= sp <= 1) by (subst sp; case_match; lia).
  clearbody flags2. subst flags2.
  destruct (other_class _ _) eqn:H3.
  { eapply post_bind;
  [apply (scan_post _ (fun f => other_class f f)); [lia|out_of_chunk]|cbn beta; intros e [He Hmove]].
    eapply post_bind;
  [apply scan_post; [lia|by intros p Hge; rewrite get_cpt_out]|cbn beta; intros e' [He' _]].
    apply finish_post; [done|]. destruct (Hmv eq_refl) as [|Ho]; [lia|]. specialize (Hmove Ho). lia. }
  eapply post_bind; [apply whitespace_post; lia|]. intros [n l] [Hn Hl]. cbn in Hn, Hl.
  destruct (Z.ltb_spec 0 l); [apply finish_post; [done|lia]|].
  apply whitespace_tail_post; [done|lia..].
Qed.

Lemma split_chunk_post body out :
  (forall st, split_inv out st -> safe (body st) (split_next out st)) ->
  safe (split_chunk cpts ini body out)
    (fun r => exists new, r = out ++ new /\ zsum new = fin - ini /\ Forall (Z.lt 0) new).
Proof.
  intros Hbody. unfold split_chunk. eapply post_bind.
  - apply (while_post body (split_inv out) (fun st => Z.to_nat (fin - sp_pos st))
  (fun st => split_inv out st /\ sp_pos st = fin)).
    + split_and!; cbn; [done|lia..|]. exists []. rewrite app_nil_r. split_and!; [done|cbn; lia|done].
    + cbn. unfold zlen in *. lia.
    + intros st Hst. eapply post_mono; [by apply Hbody| |done].
  intros [st'|st'] Hn; [|done]. destruct Hn as [Hi Hlt]. split; [done|].
  destruct Hi as (_ & Hi & _). lia.
  - intros st [(_ & _ & new & H1 & H2 & H3) Hpos]. exists new. rewrite Hpos in H2. done.
Qed.

End chunk_proofs.

End splitter_proofs.

(** * The standard regular expression engine *)

(** [std::regex] and [std::wregex]: the successive matches of an expression in
    a character range as (position, length) pairs relative to the start of the
    range, and the conversion of the expression to a wide string. *)
Class RegexEngine : Type := {
  regex_matches : bytes -> bytes -> res (list (Z * Z));
  wregex_matches : list Z -> list Z -> res (list (Z * Z));
  wstring_from_utf8 : bytes -> res (list Z)
}.

(** The matches of an iterator follow one another inside the range. *)
Fixpoint matches_ok (from n : Z) (ms : list (Z * Z)) : Prop :=
  match ms with
  | [] => from <= n
  | (p, l) :: ms => from <= p /\ 0 <= l /\ matches_ok (p + l) n ms
  end.

Class RegexEngineLaws (R : RegexEngine) : Prop := {
  regex_matches_ok e t ms : regex_matches e t = Ok ms -> matches_ok 0 (zlen t) ms;
  wregex_matches_ok e t ms : wregex_matches e t = Ok ms -> matches_ok 0 (zlen t) ms;
  (** failures of the engine and of the conversion are C++ exceptions *)
  regex_matches_throw e t f : regex_matches e t = Err f -> exists m, f = Throw m;
  wregex_matches_throw e t f : wregex_matches e t = Err f -> exists m, f = Throw m;
  wstring_from_utf8_throw s f : wstring_from_utf8 s = Err f -> exists m, f = Throw m
}.

Section regex.
Context `{D : UnicodeData} `{R : RegexEngine}.

(** The loop over the matches in one chunk. *)
Fixpoint stl_chunk (offset start_idx : Z) (ms : list (Z * Z)) : list Z :=
  match ms with
  | [] => if start_idx <? offset then [offset - start_idx] else []
  | (p, l) :: ms =>
      (if start_idx <? p then [p - start_idx] else []) ++ l :: stl_chunk offset (p + l) ms
  end.

(** [unicode_regex_split_stl], for either character type. *)
Fixpoint unicode_regex_split_stl (engine : list Z -> list Z -> res (list (Z * Z)))
    (text regex_expr : list Z) (start : Z) (offsets : list Z) : res (list Z) :=
  match offsets with
  | [] => Ok []
  | offset :: offsets =>
      if start + offset <=? zlen text then
        ms ← engine regex_expr (substr (Z.to_nat start) (Z.to_nat offset) text);
        rest ← unicode_regex_split_stl engine text regex_expr (start + offset) offsets;
        Ok (stl_chunk offset 0 ms ++ rest)
      else Err UB
  end.

Definition regex_gpt2 : bytes :=
  str "'s|'t|'re|'ve|'m|'ll|'d| ?\p{L}+| ?\p{N}+| ?[^\s\p{L}\p{N}]+|\s+(?!\S)".
Definition regex_llama3 : bytes :=
  str "(?i:'s|'t|'re|'ve|'m|'ll|'d)|[^\r\n\p{L}\p{N}]?\p{L}+|\p{N}{1,3}| ?[^\s\p{L}\p{N}]+[\r\n]*|\s*[\r\n]+|\s+(?!\S)|\s+".
Definition regex_llama3_cased : bytes :=
  str "(?:'[sS]|'[tT]|'[rR][eE]|'[vV][eE]|'[mM]|'[lL][lL]|'[dD])|[^\r\n\p{L}\p{N}]?\p{L}+|\p{N}{1,3}| ?[^\s\p{L}\p{N}]+[\r\n]*|\s*[\r\n]+|\s+(?!\S)|\s+".

(** The hand-written splitter of an expression; empty when there is none. *)
Definition unicode_regex_split_custom (text regex_expr : bytes) (offsets : list Z) :
    res (list Z) :=
  if bool_decide (regex_expr = regex_gpt2) then unicode_regex_split_custom_gpt2 text offsets
  else if bool_decide (regex_expr = regex_llama3) || bool_decide (regex_expr = regex_llama3_cased)
  then unicode_regex_split_custom_llama3 text offsets
  else Ok [].

(** The unicode categories an expression can name, the byte that stands for
    each in the collapsed text, and the ASCII members of each. *)
Definition k_ucat_enum : list (bytes * Z) :=
  [(str "\p{N}", NUMBER); (str "\p{L}", LETTER); (str "\p{P}", PUNCTUATION);
   (str "\p{M}", ACCENT_MARK); (str "\p{S}", SYMBOL)].
Definition k_ucat_cpt : gmap Z Z :=
  list_to_map [(NUMBER, 209); (LETTER, 210); (PUNCTUATION, 211); (ACCENT_MARK, 212); (SYMBOL, 213)].
Definition k_ucat_map : gmap Z bytes :=
  list_to_map [(NUMBER, str "0-9"); (LETTER, str "A-Za-z");
   (PUNCTUATION, str "!-#%-*,-/:-;?-@\[-\]_\{\}"); (ACCENT_MARK, []); (SYMBOL, str "\$\+<->^`\|")].

Definition has_category (regex_expr : bytes) : bool :=
  existsb (fun u => bool_decide (is_Some (find_sub (fst u) regex_expr))) k_ucat_enum.

(** The byte that represents a code point in the collapsed text. *)
Definition collapse_cpt (c : Z) : Z :=
  if c <? 128 then c
  else
    let flags := unicode_cpt_flags_from_cpt c in
    if is_whitespace flags then 11
    else default 208 (k_ucat_cpt !! category_flag flags).

Definition find_category (pat : bytes) : option Z :=
  snd <$> find (fun u => bool_decide (fst u = pat)) k_ucat_enum.

(** The collapsed expression; [prev] is the preceding character and [inside]
    tells whether a bracket expression is open. *)
Fixpoint collapse_regex (prev : option Z) (inside : bool) (s : bytes) : res bytes :=
  match s with
  | [] => Ok []
  | c :: rest =>
      let plain (inside : bool) := t ← collapse_regex (Some c) inside rest; Ok (c :: t) in
      if (c =? 91) && negb (bool_decide (prev = Some 92)) then plain true
      else if inside && (c =? 93) && negb (bool_decide (prev = Some 92)) then plain false
      else
        match s with
        | c0 :: c1 :: c2 :: c3 :: c4 :: rest5 =>
            if (c0 =? 92) && (c1 =? 112) && (c2 =? 123) && (c4 =? 125) then
              match find_category [c0; c1; c2; c3; c4] with
              | Some cat =>
                  b ← map_at k_ucat_cpt cat;
                  m ← map_at k_ucat_map cat;
                  t ← collapse_regex (Some c4) inside rest5;
                  Ok ((if inside then [] else [91]) ++ b :: m ++ (if inside then [] else [93]) ++ t)
              | None => plain inside
              end
            else plain inside
        | _ => plain inside
        end
  end.

(** [catch (std::regex_error & e) { throw std::runtime_error(...); }] *)
Definition rethrow_regex {A} (m : res A) : res A :=
  match m with Err (Throw _) => throw "Failed to process regex" | _ => m end.

(** The general-purpose split by one expression. *)
Definition split_by_engine (cpts : list Z) (text_collapsed : bytes) (regex_expr : bytes)
    (bpe_offsets : list Z) : res (list Z) :=
  if has_category regex_expr then
    cpts_regex ← unicode_cpts_from_utf8 regex_expr;
    if existsb (fun c => 128 <=? c) cpts_regex then
      throw "Regex includes both unicode categories and non-ASCII characters - not supported"
    else
      regex_expr_collapsed ← collapse_regex None false regex_expr;
      rethrow_regex
        (unicode_regex_split_stl regex_matches text_collapsed regex_expr_collapsed 0 bpe_offsets)
  else
    wregex_expr ← wstring_from_utf8 regex_expr;
    let wtext :=
      (fun c => if (127 <? c) && is_whitespace (unicode_cpt_flags_from_cpt c) then 11 else c) <$> cpts in
    rethrow_regex (unicode_regex_split_stl wregex_matches wtext wregex_expr 0 bpe_offsets).

(** The loop over the expressions. *)
Fixpoint split_by_regexes (text : bytes) (cpts : list Z) (text_collapsed : bytes)
    (regex_exprs : list bytes) (bpe_offsets : list Z) : res (list Z) :=
  match regex_exprs with
  | [] => Ok bpe_offsets
  | regex_expr :: regex_exprs =>
      tmp ← unicode_regex_split_custom text regex_expr bpe_offsets;
      bpe_offsets ←
        (match tmp with
         | [] => split_by_engine cpts text_collapsed regex_expr bpe_offsets
         | _ => Ok tmp
         end);
      split_by_regexes text cpts text_collapsed regex_exprs bpe_offsets
  end.

(** The loop that cuts the text at the offsets. *)
Fixpoint cut_words (cpts : list Z) (start : Z) (bpe_offsets : list Z) : res (list bytes) :=
  match bpe_offsets with
  | [] => Ok []
  | offset :: bpe_offsets =>
      us ← mapM (fun i => c ← vget cpts i; unicode_cpt_to_utf8 c) (zseq start (Z.to_nat offset));
      rest ← cut_words cpts (start + offset) bpe_offsets;
      Ok (concat us :: rest)
  end.

Definition unicode_regex_split (text : bytes) (regex_exprs : list bytes) : res (list bytes) :=
  let need_collapse := existsb has_category regex_exprs in
  cpts ← unicode_cpts_from_utf8 text;
  let text_collapsed := if need_collapse then collapse_cpt <$> cpts else [] in
  bpe_offsets ← split_by_regexes text cpts text_collapsed regex_exprs [zlen cpts];
  bpe_words ← cut_words cpts 0 bpe_offsets;
  unicode_byte_encoding_process bpe_words.

End regex.

(** * Splitting loses nothing *)

(** [parts] cuts every chunk of [offsets] into non-negative pieces. *)
Definition cuts (offsets : list Z) (parts : list (list Z)) : Prop :=
  Forall2 (fun o p => zsum p = o /\ Forall (Z.le 0) p) offsets parts.

(** [new] refines the split [offsets]. *)
Definition split_refines (offsets new : list Z) : Prop :=
  exists parts, new = concat parts /\ cuts offsets parts.

Lemma split_refines_sum offsets new : split_refines offsets new -> zsum new = zsum offsets.
Proof.
  intros (parts & -> & Hc). induction Hc as [|o p os ps [<- _] _ IH]; cbn; [done|].
  rewrite zsum_app, IH. done.
Qed.

Lemma split_refines_nonneg offsets new : split_refines offsets new -> Forall (Z.le 0) new.
Proof.
  intros (parts & -> & Hc). induction Hc as [|o p os ps [_ H] _ IH]; cbn; [constructor|].
  by apply Forall_app.
Qed.

Section lossless.
Context `{D : UnicodeData} `{R : RegexEngine} {RL : RegexEngineLaws R}.

Lemma split_chunks_post cpts body start offsets out :
  (forall ini fin, 0 <= ini <= fin -> fin <= zlen cpts ->
     forall out st, split_inv ini fin out st -> safe (body ini fin st) (split_next ini fin out st)) ->
  0 <= start -> Forall (Z.le 0) offsets -> start + zsum offsets <= zlen cpts ->
  safe (split_chunks cpts body start offsets out)
    (fun r => exists parts, r = out ++ concat parts /\
       Forall2 (fun o p => zsum p = o /\ Forall (Z.lt 0) p) offsets parts).
Proof.
  intros Hbody. revert start out.
  induction offsets as [|o offsets IH]; intros start out Hs Hall Hsum; cbn [split_chunks].
  { exists []. by rewrite app_nil_r. }
  inversion_clear Hall as [|? ? Ho Hrest]. rewrite zsum_cons in Hsum.
  pose proof (zsum_nonneg _ Hrest).
  destruct (Z.leb_spec (start + o) (zlen cpts)); [|lia]. cbn [ggml_assert].
  eapply post_bind; [by instantiate (1 := fun _ => True)|]. intros [] _.
  eapply post_bind.
  { eapply (split_chunk_post cpts start (start + o)); [lia..|]. apply Hbody; lia. }
  cbn beta. intros r (new & -> & Hnew & Hpos).
  eapply post_mono; [apply IH; [lia|done|lia]| |done].
  intros r (parts & -> & Hparts). exists (new :: parts). cbn. rewrite app_assoc.
  split; [done|]. constructor; [split; [lia|done]|done].
Qed.

Lemma split_custom_refines cpts body offsets :
  (forall ini fin, 0 <= ini <= fin -> fin <= zlen cpts ->
     forall out st, split_inv ini fin out st -> safe (body ini fin st) (split_next ini fin out st)) ->
  Forall (Z.le 0) offsets -> zsum offsets <= zlen cpts ->
  safe (split_chunks cpts body 0 offsets []) (split_refines offsets).
Proof.
  intros Hbody Hall Hsum. eapply post_mono; [by apply split_chunks_post| |done].
  intros r (parts & -> & Hp). exists parts. split; [done|].
  eapply Forall2_impl; [done|]. intros o p [-> Hpos]. split; [done|].
  eapply Forall_impl; [done|]. lia.
Qed.

Lemma gpt2_refines cpts offsets :
  Forall (Z.le 0) offsets -> zsum offsets <= zlen cpts ->
  safe (split_chunks cpts (gpt2_step cpts) 0 offsets []) (split_refines offsets).
Proof.
  apply split_custom_refines. intros ini fin H1 H2 out st Hst. apply gpt2_step_post; [lia|lia|done].
Qed.

Lemma llama3_refines cpts offsets :
  Forall (Z.le 0) offsets -> zsum offsets <= zlen cpts ->
  safe (split_chunks cpts (llama3_step cpts) 0 offsets []) (split_refines offsets).
Proof.
  apply split_custom_refines. intros ini fin H1 H2 out st Hst. apply llama3_step_post; [lia|lia|done].
Qed.

Lemma unicode_regex_split_custom_refines text cpts e offsets :
  unicode_cpts_from_utf8 text = Ok cpts ->
  Forall (Z.le 0) offsets -> zsum offsets <= zlen cpts ->
  safe (unicode_regex_split_custom text e offsets)
    (fun r => r = [] \/ split_refines offsets r).
Proof.
  intros Hc Hall Hsum. unfold unicode_regex_split_custom,
    unicode_regex_split_custom_gpt2, unicode_regex_split_custom_llama3. rewrite Hc.
  cbn [mbind res_bind]. repeat case_match; [| |by left].
  - eapply post_mono; [by apply gpt2_refines|by right|done].
  - eapply post_mono; [by apply llama3_refines|by right|done].
Qed.

Lemma stl_chunk_cuts n from ms :
  0 <= from -> matches_ok from n ms ->
  zsum (stl_chunk n from ms) = n - from /\ Forall (Z.le 0) (stl_chunk n from ms).
Proof.
  revert from. induction ms as [|[p l] ms IH]; intros from Hf Hm; cbn in *.
  - destruct (Z.ltb_spec from n); cbn; split; try lia; repeat constructor; lia.
  - destruct Hm as (H1 & H2 & H3). destruct (IH (p + l) ltac:(lia) H3) as [IH1 IH2].
    rewrite zsum_app, zsum_cons, IH1. destruct (Z.ltb_spec from p); cbn; split; try lia.
    all: repeat constructor; (lia || done).
Qed.

Lemma unicode_regex_split_stl_refines engine text e start offsets :
  (forall t ms, engine e t = Ok ms -> matches_ok 0 (zlen t) ms) ->
  (forall t f, engine e t = Err f -> exists m, f = Throw m) ->
  0 <= start -> Forall (Z.le 0) offsets -> start + zsum offsets <= zlen text ->
  may_throw (unicode_regex_split_stl engine text e start offsets) (split_refines offsets).
Proof.
  intros Hok Herr. revert start.
  induction offsets as [|o offsets IH]; intros start Hs Hall Hsum; cbn.
  { exists []. split; [done|constructor]. }
  inversion_clear Hall as [|? ? Ho Hrest]. rewrite zsum_cons in Hsum.
  pose proof (zsum_nonneg _ Hrest).
  destruct (Z.leb_spec (start + o) (zlen text)); [|lia].
  set (t := substr _ _ _).
  assert (zlen t = o) as Hlen.
  { subst t. unfold substr, zlen in *. rewrite length_take, length_drop. lia. }
  destruct (engine e t) as [ms|f] eqn:E; cbn; [|by eapply Herr].
  apply Hok in E. rewrite Hlen in E.
  eapply post_bind; [apply IH; [lia|done|lia]|]. intros rest (parts & -> & Hp).
  destruct (stl_chunk_cuts o 0 ms ltac:(lia) E) as [C1 C2].
  exists (stl_chunk o 0 ms :: parts). split; [done|]. constructor; [split; [lia|done]|done].
Qed.

Lemma find_category_maps pat cat :
  find_category pat = Some cat -> is_Some (k_ucat_cpt !! cat) /\ is_Some (k_ucat_map !! cat).
Proof.
  unfold find_category. destruct (find _ _) as [[k c]|] eqn:F; [|done]. intros [= <-].
  apply find_some in F as [F _]. apply (in_map snd) in F. cbn [map snd k_ucat_enum] in F.
  repeat (destruct F as [<-|F]; [split; eexists; vm_compute; reflexivity|]). destruct F.
Qed.

Lemma collapse_regex_ok prev inside s : exists t, collapse_regex prev inside s = Ok t.
Proof.
  remember (length s) as n eqn:Hn. revert s prev inside Hn.
  induction n as [n IH] using lt_wf_ind; intros s prev inside Hn.
  destruct s as [|c rest]; [by exists []|].
  assert (Hplain : forall b, exists t,
    (t ← collapse_regex (Some c) b rest; Ok (c :: t)) = Ok t).
  { intros b. destruct (IH (length rest) ltac:(cbn in Hn; lia) rest (Some c) b eq_refl) as [t Ht].
    exists (c :: t). by rewrite Ht. }
  cbn [collapse_regex]. cbn zeta. repeat (case_match; try by apply Hplain).
  all: destruct (find_category_maps _ _ ltac:(eassumption)) as [[b Hb] [m Hm]].
  all: unfold map_at; rewrite Hb, Hm; cbn [mbind res_bind]; subst.
  all: match goal with |- context [collapse_regex (Some ?p) ?b ?r] =>
    destruct (IH (length r) ltac:(cbn; lia) r (Some p) b eq_refl) as [t ->] end.
  all: cbn; by eexists.
Qed.

Lemma split_by_engine_refines text cpts e offsets :
  Forall byte_ok e ->
  (has_category e = true -> text = collapse_cpt <$> cpts) ->
  Forall (Z.le 0) offsets -> zsum offsets <= zlen cpts ->
  may_throw (split_by_engine cpts text e offsets) (split_refines offsets).
Proof.
  intros He Ht Hall Hsum. unfold split_by_engine.
  assert (Hre : forall A (m : res A) P, may_throw m P -> may_throw (rethrow_regex m) P).
  { intros A [a|[]] P; cbn; eauto. }
  destruct (has_category e).
  - apply unicode_cpts_from_utf8_post in He. apply safe_ok in He as (ce & -> & _). cbn [mbind res_bind].
    destruct (existsb _ _); [cbn; eauto|].
    destruct (collapse_regex_ok None false e) as [t ->]. cbn [mbind res_bind].
    apply Hre, unicode_regex_split_stl_refines; [apply regex_matches_ok|apply regex_matches_throw|lia|done|].
    rewrite (Ht eq_refl). unfold zlen in *. rewrite length_fmap. lia.
  - destruct (wstring_from_utf8 e) as [w|f] eqn:W; cbn; [|by eapply wstring_from_utf8_throw].
    apply Hre, unicode_regex_split_stl_refines; [apply wregex_matches_ok|apply wregex_matches_throw|lia|done|].
    unfold zlen in *. rewrite length_fmap. lia.
Qed.

(** One pass over all expressions keeps the total length. *)
Lemma split_by_regexes_post text cpts coll es offsets :
  unicode_cpts_from_utf8 text = Ok cpts ->
  Forall (Forall byte_ok) es ->
  (existsb has_category es = true -> coll = collapse_cpt <$> cpts) ->
  Forall (Z.le 0) offsets -> zsum offsets = zlen cpts ->
  may_throw (split_by_regexes text cpts coll es offsets)
    (fun r => Forall (Z.le 0) r /\ zsum r = zlen cpts).
Proof.
  intros Hc Hes. revert offsets.
  induction Hes as [|e es He Hes IH]; intros offsets Hcoll Hall Hsum; cbn [split_by_regexes].
  { done. }
  cbn [existsb] in Hcoll.
  eapply post_bind with (P := fun r => r = [] \/ split_refines offsets r).
  { eapply may_throw_of_safe; [apply (unicode_regex_split_custom_refines text cpts); [done..|lia]|done]. }
  intros tmp Htmp. eapply post_bind with (P := split_refines offsets).
  { destruct tmp; [|by destruct Htmp].
    apply split_by_engine_refines; [done|intros H; apply Hcoll; by rewrite H|done|lia]. }
  intros new Hnew. apply IH.
  - intros H. apply Hcoll. rewrite H. apply orb_true_r.
  - by eapply split_refines_nonneg.
  - by rewrite (split_refines_sum _ _ Hnew).
Qed.

(** A word is written in the byte-level alphabet: [w] spells the bytes [bs]. *)
Definition spells (w bs : bytes) : Prop :=
  exists us, mapM unicode_byte_to_utf8 bs = Ok us /\ w = concat us.

Lemma cut_words_post cps us start k offsets :
  Forall2 utf8_form cps us -> start = Z.of_nat k -> Forall (Z.le 0) offsets ->
  start + zsum offsets = zlen cps ->
  safe (cut_words cps start offsets) (fun ws => concat ws = concat (drop k us) /\
    Forall (fun w => exists cs, utf8_text cs w) ws).
Proof.
  intros Hf. revert start k. induction offsets as [|o offsets IH]; intros start k -> Hall Hsum.
  { cbn in *. rewrite drop_ge; [done|]. apply Forall2_length in Hf. unfold zlen in *. lia. }
  inversion_clear Hall as [|? ? Ho Hrest]. rewrite zsum_cons in Hsum.
  pose proof (zsum_nonneg _ Hrest). cbn [cut_words].
  set (n := Z.to_nat o).
  assert (Hm : mapM (fun i => c ← vget cps i; unicode_cpt_to_utf8 c) (zseq (Z.of_nat k) n) =
    Ok (take n (drop k us))).
  { apply mapM_ok. unfold zseq. apply Forall2_fmap_l, Forall2_same_length_lookup_2.
    - rewrite length_seq, length_take, length_drop. apply Forall2_length in Hf. unfold zlen in *. lia.
    - intros i x u Hx Hu. apply lookup_seq in Hx as [-> Hx].
      rewrite lookup_take_lt in Hu by lia. rewrite lookup_drop in Hu.
      eapply Forall2_lookup_r in Hf as (c & Hc & Hcu); [|done].
      unfold compose. rewrite (vget_Some _ _ c); [cbn; by apply unicode_cpt_to_utf8_complete|].
      replace (Z.of_nat k + Z.of_nat (0 + i)) with (Z.of_nat (k + i)) by lia. by rewrite zlookup_nat. }
  rewrite Hm. cbn [mbind res_bind].
  eapply post_bind; [apply (IH _ (k + n)%nat); [lia|done|lia]|].
  intros ws [Hws Htxt]. cbn. split.
  - rewrite Hws, <- concat_app, <- drop_drop, take_drop. done.
  - constructor; [|done]. exists (take n (drop k cps)), (take n (drop k us)).
    split; [|done]. by apply Forall2_take, Forall2_drop.
Qed.

Lemma byte_encoding_post ws :
  Forall (fun w => exists cs, utf8_text cs w) ws ->
  safe (unicode_byte_encoding_process ws) (fun es => Forall2 spells es ws).
Proof.
  intros Hws. unfold unicode_byte_encoding_process.
  eapply post_mono; [apply (mapM_safe _ _ (fun w e => spells e w))| |done].
  - intros w Hw. rewrite Forall_forall in Hws. destruct (Hws w Hw) as (cs & Htxt).
    rewrite (unicode_cpts_from_utf8_text cs w Htxt). cbn [mbind res_bind].
    pose proof (utf8_text_bytes _ _ Htxt) as Hb. destruct Htxt as (us & Hf & ->).
    rewrite (mapM_to_utf8 cs us Hf). cbn [mbind res_bind].
    destruct (byte_alphabet_text _ Hb) as (vs & vcs & Hvs & _). rewrite Hvs. cbn [mbind res_bind].
    by exists vs.
  - intros es. apply Forall2_flip.
Qed.

End lossless.

(** A regular expression engine without matches, for closed instances. *)
Definition silent_engine : RegexEngine := {|
  regex_matches := fun _ _ => Ok [];
  wregex_matches := fun _ _ => Ok [];
  wstring_from_utf8 := fun s => Ok s
|}.

#[export] Instance silent_engine_laws : RegexEngineLaws silent_engine.
Proof. split; cbn; intros; inv_ok; cbn; (apply zlen_nonneg || discriminate). Qed.

(** The whole pre-tokenisation. *)
Lemma unicode_regex_split_spells `{D : UnicodeData} `{R : RegexEngine}
    {RL : RegexEngineLaws R} (cps : list Z) (text : bytes) (exprs : list bytes) :
  utf8_text cps text -> Forall (Forall byte_ok) exprs ->
  may_throw (unicode_regex_split text exprs)
    (fun words => exists parts, concat parts = text /\ Forall2 spells words parts).
Proof.
  intros Htxt Hes. unfold unicode_regex_split.
  pose proof (unicode_cpts_from_utf8_text _ _ Htxt) as Hc. rewrite Hc.
  destruct Htxt as (us & Hf & ->). cbn [mbind res_bind].
  eapply post_bind.
  { apply (split_by_regexes_post _ cps); [done|done| | |].
    - intros ->. done.
    - repeat constructor. apply zlen_nonneg.
    - cbn. lia. }
  cbn beta. intros offsets [Hpos Hsum].
  eapply may_throw_of_safe; [|intros a Ha; exact Ha].
  eapply post_bind; [apply (cut_words_post cps us 0 0 offsets); [done|done|done|lia]|].
  cbn beta. intros ws [Hws Htxt].
  eapply post_mono; [by apply byte_encoding_post| |done].
  intros es Hes'. by exists ws.
Qed.

(** * Properties *)

(** C9. Pre-tokenisation loses nothing: whatever expressions a vocabulary uses
    and whatever the regular expression engine matches, [unicode_regex_split] on
    a UTF-8 text either throws an exception or returns words that spell, in the
    byte-level alphabet and in order, consecutive parts of the text whose
    concatenation is the whole text; it never reads outside a vector and never
    fails an assertion. *)
Theorem unicode_regex_split_lossless `{D : UnicodeData} `{R : RegexEngine}
    {RL : RegexEngineLaws R} (cps : list Z) (text : bytes) (exprs : list bytes) :
  utf8_text cps text -> Forall (Forall byte_ok) exprs ->
  may_throw (unicode_regex_split text exprs)
    (fun words => exists parts, concat parts = text /\ Forall2 spells words parts).
Proof. apply unicode_regex_split_spells. Qed.

Lemma unicode_regex_split_lossless_witness :
  utf8_text [72; 105; 32; 233] (str "Hi " ++ [195; 169]) /\ Forall (Forall byte_ok) [regex_gpt2] /\
  may_throw (@unicode_regex_split ascii_data silent_engine (str "Hi " ++ [195; 169]) [regex_gpt2])
    (fun words => exists parts, concat parts = str "Hi " ++ [195; 169] /\ Forall2 spells words parts).
Proof.
  assert (H1 : utf8_text [72; 105; 32; 233] (str "Hi " ++ [195; 169])).
  { exists [[72]; [105]; [32]; [195; 169]]. split; [|reflexivity].
    repeat constructor; try lia. apply (utf8_form_2 3 41); lia. }
  assert (H2 : Forall (Forall byte_ok) [regex_gpt2]).
  { unfold byte_ok. repeat constructor; lia. }
  split; [exact H1|]. split; [exact H2|].
  apply (@unicode_regex_split_lossless ascii_data silent_engine silent_engine_laws
    [72; 105; 32; 233] (str "Hi " ++ [195; 169]) [regex_gpt2]); [exact H1|exact H2].
Defined.

(** The hand-written splitters for the GPT-2 and the LLaMA-3 expressions
    refine the split they are given: on every decodable text they terminate,
    stay inside the text, pass their assertion, and cut every chunk into
    positive pieces that sum to the chunk. *)
Theorem custom_splitters_partition `{D : UnicodeData} (text : bytes) (cpts offsets : list Z) :
  unicode_cpts_from_utf8 text = Ok cpts ->
  Forall (Z.le 0) offsets -> zsum offsets <= zlen cpts ->
  Forall (fun split => safe (split text offsets)
            (fun r => exists parts, r = concat parts /\
               Forall2 (fun o p => zsum p = o /\ Forall (Z.lt 0) p) offsets parts))
    [unicode_regex_split_custom_gpt2; unicode_regex_split_custom_llama3].
Proof.
  intros Hc Hall Hsum.
  unfold unicode_regex_split_custom_gpt2, unicode_regex_split_custom_llama3.
  repeat constructor; rewrite Hc; cbn [mbind res_bind].
  all: apply split_chunks_post; [|lia|done|lia].
  all: intros ini fin H1 H2 out st Hst; (apply gpt2_step_post || apply llama3_step_post); (lia || done).
Qed.

Lemma custom_splitters_partition_witness :
  unicode_cpts_from_utf8 (str "I'm 42 years") = Ok (str "I'm 42 years") /\
  Forall (Z.le 0) [4; 8] /\ zsum [4; 8] <= zlen (str "I'm 42 years") /\
  Forall (fun split => safe (split (str "I'm 42 years") [4; 8])
            (fun r => exists parts, r = concat parts /\
               Forall2 (fun o p => zsum p = o /\ Forall (Z.lt 0) p) [4; 8] parts))
    [@unicode_regex_split_custom_gpt2 ascii_data; @unicode_regex_split_custom_llama3 ascii_data].
Proof.
  assert (H1 : unicode_cpts_from_utf8 (str "I'm 42 years") = Ok (str "I'm 42 years"))
    by (vm_compute; reflexivity).
  assert (H2 : Forall (Z.le 0) [4; 8]) by (repeat constructor; lia).
  assert (H3 : zsum [4; 8] <= zlen (str "I'm 42 years")) by (vm_compute; discriminate).
  split; [exact H1|]. split; [exact H2|]. split; [exact H3|].
  apply (@custom_splitters_partition ascii_data (str "I'm 42 years") (str "I'm 42 years") [4; 8]);
    [exact H1|exact H2|exact H3].
Defined.

(** An out-of-range sequence leaks its exception: the decoder accepts the
    four bytes F4 90 80 80 as code point U+110000, so the splitter, which is
    meant to turn invalid input into U+FFFD, throws when it re-encodes it. *)
Theorem regex_split_leaks_invalid_codepoint `{D : UnicodeData} `{R : RegexEngine} :
  unicode_cpts_from_utf8 [244; 144; 128; 128] = Ok [1114112] /\
  unicode_regex_split [244; 144; 128; 128] [] = throw "invalid codepoint".
Proof. split; reflexivity. Qed.

Example gpt2_contraction :
  @unicode_regex_split_custom_gpt2 ascii_data (str "I'm 42 years") [12] = Ok [1; 2; 3; 6].
Proof. vm_compute. reflexivity. Qed.
