(* ===== verification/GrammarUtf8.v ===== *)
(** Incremental UTF-8 decoding of the grammar engine: the two [decode_utf8]
    functions of [src/llama-grammar.cpp] and the theorem that decoding a text
    piece by piece gives the code points of the whole text. *)
From S2P Require Import Prelude Unicode.

(** A C string is the list of its bytes before the terminating zero: reading
    at the end of the list gives 0. *)
Definition c_at (pos : bytes) (i : nat) : Z := default 0 (pos !! i).
Definition c_cur (pos : bytes) : Z := c_at pos 0.

Record llama_partial_utf8 : Type := mk_partial {
  value    : Z;
  n_remain : Z
}.

#[export] Instance llama_partial_utf8_eq_dec : EqDecision llama_partial_utf8.
Proof. solve_decision. Defined.

(** [{}]: the initial state *)
Definition partial_none : llama_partial_utf8 := mk_partial 0 0.

(** ** Decoding one code point of a grammar text *)

Definition decode_lookup : list Z := [1; 1; 1; 1; 1; 1; 1; 1; 1; 1; 1; 1; 2; 2; 3; 4].

(** [for ( ; pos < end && *pos; pos++)]; [n] is [end - pos]. *)
Fixpoint decode_char_loop (n : nat) (pos : bytes) (value : Z) : Z * bytes :=
  match n, pos with
  | S n, b :: rest =>
      if b =? 0 then (value, pos)
      else decode_char_loop n rest (u32 (u32 (Z.shiftl value 6) + Z.land b 63))
  | _, _ => (value, pos)
  end.

(** [decode_utf8] of a C string: the code point and the position after it. *)
Definition decode_utf8_char (src : bytes) : res (Z * bytes) :=
  let first_byte := c_cur src in
  let highbits := Z.shiftr first_byte 4 in
  len ← vget decode_lookup highbits;
  let mask := u8 (Z.shiftl 1 (8 - len) - 1) in
  let value := Z.land first_byte mask in
  Ok (decode_char_loop (Z.to_nat (len - 1)) (drop 1 src) value).

(** ** Decoding a piece that may start and end inside a code point *)

Definition decode_lookup_strict : list Z := [1; 1; 1; 1; 1; 1; 1; 1; 0; 0; 0; 0; 2; 2; 3; 4].

(** [while ( *pos != 0 && n_remain > 0)] of the continued sequence, which checks
    that every byte is a continuation byte; [None] is the early return. *)
Fixpoint continue_decode (pos : bytes) (value n_remain : Z) : option (bytes * Z * Z) :=
  match pos with
  | next_byte :: rest =>
      if (next_byte =? 0) || (n_remain <=? 0) then Some (pos, value, n_remain)
      else if negb (Z.shiftr next_byte 6 =? 2) then None
      else continue_decode rest (u32 (u32 (Z.shiftl value 6) + Z.land next_byte 63)) (n_remain - 1)
  | [] => Some ([], value, n_remain)
  end.

(** The inner loop of a fresh sequence, which does not check. *)
Fixpoint sequence_decode (pos : bytes) (value n_remain : Z) : bytes * Z * Z :=
  match pos with
  | next_byte :: rest =>
      if (next_byte =? 0) || (n_remain <=? 0) then (pos, value, n_remain)
      else sequence_decode rest (u32 (u32 (Z.shiftl value 6) + Z.land next_byte 63)) (n_remain - 1)
  | [] => ([], value, n_remain)
  end.

(** One iteration of the loop over fresh sequences. *)
Definition decode_step (st : bytes * list Z * Z * Z) :
    res (step (bytes * list Z * Z * Z) (list Z * llama_partial_utf8)) :=
  let '(pos, code_points, value, n_remain) := st in
  if c_cur pos =? 0 then Ok (Done (code_points ++ [0], mk_partial value n_remain))
  else
    let first_byte := c_cur pos in
    let highbits := Z.shiftr first_byte 4 in
    l ← vget decode_lookup_strict highbits;
    let n_remain := l - 1 in
    if n_remain <? 0 then Ok (Done ([0], mk_partial 0 n_remain))
    else
      let mask := u8 (Z.shiftl 1 (7 - n_remain) - 1) in
      let value := Z.land first_byte mask in
      let '(pos, value, n_remain) := sequence_decode (drop 1 pos) value n_remain in
      let code_points := if n_remain =? 0 then code_points ++ [value] else code_points in
      Ok (Next (pos, code_points, value, n_remain)).

(** [decode_utf8(const std::string &, llama_partial_utf8)]: the code points,
    closed by a 0, and the state of the sequence the piece ends in. *)
Definition decode_utf8 (src : bytes) (partial_start : llama_partial_utf8) :
    res (list Z * llama_partial_utf8) :=
  match continue_decode src (value partial_start) (n_remain partial_start) with
  | None => Ok ([0], mk_partial 0 (-1))
  | Some (pos, v, n) =>
      let code_points := if (0 <? n_remain partial_start) && (n =? 0) then [v] else [] in
      while decode_step (S (length src)) (pos, code_points, v, n)
  end.

(** * Correctness *)

Lemma sequence_decode_spec pos v n :
  let '(pos', v', n') := sequence_decode pos v n in
  (length pos' <= length pos)%nat /\ (0 <= n -> 0 <= n' <= n) /\
  (0 <= v < 4294967296 -> 0 <= v' < 4294967296) /\ (exists l, pos = l ++ pos').
Proof.
  revert v n. induction pos as [|b pos IH]; intros v n; cbn [sequence_decode].
  { split_and!; [done|lia|lia|by exists []]. }
  destruct ((b =? 0) || (n <=? 0)) eqn:Hc.
  { split_and!; [done|lia|lia|by exists []]. }
  specialize (IH (u32 (u32 (Z.shiftl v 6) + Z.land b 63)) (n - 1)).
  destruct (sequence_decode pos _ _) as [[pos' v'] n']. destruct IH as (H1 & H2 & H3 & l & ->).
  apply orb_false_iff in Hc as [_ Hn%Z.leb_gt].
  split_and!; [cbn in *; lia|lia| |by exists (b :: l)]. intros _. apply H3, u32_range.
Qed.

Lemma continue_decode_spec pos v n pos' v' n' :
  continue_decode pos v n = Some (pos', v', n') ->
  (length pos' <= length pos)%nat /\ (0 <= n -> 0 <= n' <= n) /\ (n < 0 -> n' = n) /\
  (exists l, pos = l ++ pos').
Proof.
  revert v n. induction pos as [|b pos IH]; intros v n; cbn [continue_decode].
  { intros [= <- <- <-]. split_and!; [done|lia|lia|by exists []]. }
  destruct ((b =? 0) || (n <=? 0)) eqn:Hc.
  { intros [= <- <- <-]. split_and!; [done|lia|lia|by exists []]. }
  destruct (negb _); [done|]. intros H. destruct (IH _ _ H) as (H1 & H2 & H3 & l & ->).
  apply orb_false_iff in Hc as [_ Hn%Z.leb_gt].
  split_and!; [cbn in *; lia|lia|lia|by exists (b :: l)].
Qed.

Lemma c_cur_cons b pos : c_cur (b :: pos) = b.
Proof. reflexivity. Qed.

Lemma c_cur_nonzero pos : (c_cur pos =? 0) = false -> exists b rest, pos = b :: rest /\ b <> 0.
Proof. destruct pos as [|b rest]; [done|]. rewrite c_cur_cons. intros ?%Z.eqb_neq. eauto. Qed.

(** The result of [decode_utf8] ends in 0 and reports between -1 and 3 bytes
    still to come. *)
Definition decoded_ok (r : list Z * llama_partial_utf8) : Prop :=
  (exists cs, fst r = cs ++ [0]) /\ -1 <= n_remain (snd r) <= 3.

Lemma decode_utf8_post src p :
  Forall byte_ok src -> -1 <= n_remain p <= 3 -> safe (decode_utf8 src p) decoded_ok.
Proof.
  intros Hs Hp. unfold decode_utf8.
  destruct (continue_decode _ _ _) as [[[pos v] n]|] eqn:Hc.
  2: { cbn. split; cbn; [by exists []|lia]. }
  apply continue_decode_spec in Hc as (Hlen & Hn & Hn' & l & ->).
  apply Forall_app in Hs as [_ Hs].
  apply (while_post _ (fun '(pos, _, _, n) => Forall byte_ok pos /\ -1 <= n <= 3)
           (fun '(pos, _, _, _) => length pos)); [split; [done|lia]|cbn; lia|].
  intros [[[pos1 cs] v1] n1] [Hb Hn1]. cbn [decode_step].
  destruct (c_cur pos1 =? 0) eqn:Hz.
  { cbn. split; cbn; [by exists cs|lia]. }
  apply c_cur_nonzero in Hz as (b & rest & -> & Hb0). rewrite c_cur_cons.
  inversion_clear Hb as [|? ? Hbb Hrest]. unfold byte_ok in Hbb.
  assert (0 <= Z.shiftr b 4 < zlen decode_lookup_strict) as Hi.
  { rewrite Z.shiftr_div_pow2 by lia. change (zlen decode_lookup_strict) with 16.
    split; [apply Z.div_pos; lia|apply Z.div_lt_upper_bound; lia]. }
  eapply post_bind; [apply (vget_safe _ _ Hi)|]. intros k Hk.
  assert (0 <= k <= 4) as Hk4.
  { unfold zlookup in Hk. case_match; [apply list_elem_of_lookup_2 in Hk|done].
    unfold decode_lookup_strict in Hk. set_unfold in Hk. lia. }
  cbn zeta. destruct (Z.ltb_spec (k - 1) 0) as [Hneg|Hpos].
  { cbn. split; cbn; [by exists []|lia]. }
  pose proof (sequence_decode_spec rest (Z.land b (u8 (Z.shiftl 1 (7 - (k - 1)) - 1))) (k - 1)) as Hd.
  change (drop 1 (b :: rest)) with rest.
  destruct (sequence_decode rest _ _) as [[pos' v'] n'].
  destruct Hd as (Hl' & Hn'' & _ & l' & ->).
  apply Forall_app in Hrest as [_ Hrest]. cbn. split; [split; [done|lia]|].
  cbn in *. lia.
Qed.

(** ** Piecewise decoding *)

(** The value after reading continuation bytes. *)
Definition accumulate (v : Z) (bs : bytes) : Z :=
  fold_left (fun v b => u32 (u32 (Z.shiftl v 6) + Z.land b 63)) bs v.

(** The value of the first bytes [p] of a sequence of [n] bytes. *)
Definition prefix_value (n : Z) (p : bytes) : Z :=
  match p with
  | [] => 0
  | b :: tl => accumulate (Z.land b (u8 (Z.shiftl 1 (7 - (n - 1)) - 1))) tl
  end.

Definition is_cont (b : Z) : Prop := b <> 0 /\ Z.shiftr b 6 = 2.

Lemma continue_decode_conts l pos v n :
  Forall is_cont l -> zlen l <= n -> (pos = [] \/ zlen l = n) ->
  continue_decode (l ++ pos) v n = Some (pos, accumulate v l, n - zlen l).
Proof.
  intros Hl. revert v n. induction Hl as [|b l [Hb0 Hb] _ IH]; intros v n Hn Hpos.
  - change (zlen []) with 0 in *. rewrite Z.sub_0_r. cbn [app accumulate fold_left].
    destruct pos as [|c pos]; [done|]. destruct Hpos as [|<-]; [done|].
    cbn [continue_decode]. rewrite orb_true_r. done.
  - rewrite zlen_cons in *. pose proof (zlen_nonneg l). cbn [app continue_decode].
    rewrite (proj2 (Z.eqb_neq b 0) Hb0), (proj2 (Z.leb_gt n 0)) by lia. cbn [orb].
    rewrite Hb. cbn [Z.eqb Pos.eqb negb]. rewrite IH by (lia || (destruct Hpos; [by left|right; lia])).
    replace (n - 1 - zlen l) with (n - (zlen l + 1)) by lia. done.
Qed.

Lemma sequence_decode_conts l pos v n :
  Forall is_cont l -> zlen l <= n -> (pos = [] \/ zlen l = n) ->
  sequence_decode (l ++ pos) v n = (pos, accumulate v l, n - zlen l).
Proof.
  intros Hl. revert v n. induction Hl as [|b l [Hb0 Hb] _ IH]; intros v n Hn Hpos.
  - change (zlen []) with 0 in *. rewrite Z.sub_0_r. cbn [app accumulate fold_left].
    destruct pos as [|c pos]; [done|]. destruct Hpos as [|<-]; [done|].
    cbn [sequence_decode]. rewrite orb_true_r. done.
  - rewrite zlen_cons in *. pose proof (zlen_nonneg l). cbn [app sequence_decode].
    rewrite (proj2 (Z.eqb_neq b 0) Hb0), (proj2 (Z.leb_gt n 0)) by lia. cbn [orb].
    rewrite IH by (lia || (destruct Hpos; [by left|right; lia])).
    replace (n - 1 - zlen l) with (n - (zlen l + 1)) by lia. done.
Qed.

Lemma decode_conts_end l v n :
  Forall is_cont l -> zlen l <= n ->
  continue_decode l v n = Some ([], accumulate v l, n - zlen l) /\
  sequence_decode l v n = ([], accumulate v l, n - zlen l).
Proof.
  intros Hl Hn. pose proof (continue_decode_conts l [] v n Hl Hn (or_introl eq_refl)) as H1.
  pose proof (sequence_decode_conts l [] v n Hl Hn (or_introl eq_refl)) as H2.
  by rewrite app_nil_r in H1, H2.
Qed.

Lemma cont_byte_land a : 0 <= a < 64 -> is_cont (128 + a) /\ Z.land (128 + a) 63 = a.
Proof.
  intros Ha. split; [split; [lia|]|].
  - rewrite Z.shiftr_div_pow2 by lia. change (2 ^ 6) with 64.
    symmetry. apply (Z.div_unique _ _ _ a); lia.
  - change 63 with (Z.ones 6). rewrite Z.land_ones by lia. change (2 ^ 6) with 64.
    symmetry. apply (Z.mod_unique _ _ 2); lia.
Qed.

Lemma accumulate_cont v a :
  0 <= v < 67108864 -> 0 <= a < 64 -> u32 (u32 (Z.shiftl v 6) + Z.land (128 + a) 63) = v * 64 + a.
Proof.
  intros Hv Ha. destruct (cont_byte_land a Ha) as [_ ->].
  rewrite Z.shiftl_mul_pow2 by lia. change (2 ^ 6) with 64.
  rewrite (u32_small (v * 64)) by lia. apply u32_small. lia.
Qed.

(** What the decoder reads off the first byte of a sequence. *)
Definition lead_read (b n v : Z) : bool :=
  bool_decide (vget decode_lookup_strict (Z.shiftr b 4) = Ok n) &&
  (Z.land b (u8 (Z.shiftl 1 (7 - (n - 1)) - 1)) =? v).

Lemma lead_read_elim b n v :
  lead_read b n v = true ->
  vget decode_lookup_strict (Z.shiftr b 4) = Ok n /\
  Z.land b (u8 (Z.shiftl 1 (7 - (n - 1)) - 1)) = v.
Proof. unfold lead_read. rewrite andb_true_iff, bool_decide_eq_true, Z.eqb_eq. done. Qed.

Lemma lead_read_range base lo k n :
  forallb (fun a => lead_read (base + a) n a) (zseq lo k) = true ->
  forall a, lo <= a < lo + Z.of_nat k ->
  vget decode_lookup_strict (Z.shiftr (base + a) 4) = Ok n /\
  Z.land (base + a) (u8 (Z.shiftl 1 (7 - (n - 1)) - 1)) = a.
Proof. intros H a Ha. apply lead_read_elim. exact (zseq_forallb _ _ _ _ H Ha). Qed.

(** Every encoded character is read back: the table gives its length, the
    bytes after the first are continuation bytes, and they accumulate to it. *)
Lemma utf8_form_read c u :
  utf8_form c u ->
  exists b tl, u = b :: tl /\ vget decode_lookup_strict (Z.shiftr b 4) = Ok (zlen u) /\
    Forall is_cont tl /\ prefix_value (zlen u) u = c /\ (c <> 0 -> b <> 0).
Proof.
  destruct 1 as [a Ha|a b Ha Hb|a b c Ha Hb Hc Hl|a b c d Ha Hb Hc Hd Hl Hm].
  - destruct (lead_read_range 0 0 128 1 eq_refl a ltac:(lia)) as [H1 H2].
    exists a, []. split_and!; [done|exact H1|constructor|exact H2|done].
  - destruct (lead_read_range 192 0 32 2 eq_refl a ltac:(lia)) as [H1 H2].
    exists (192 + a), [128 + b]. split_and!; [done|exact H1| | |lia].
    { repeat constructor; by apply cont_byte_land. }
    cbn [prefix_value accumulate fold_left]. change (zlen [_; _]) with 2. rewrite H2.
    by rewrite accumulate_cont by lia.
  - destruct (lead_read_range 224 0 16 3 eq_refl a ltac:(lia)) as [H1 H2].
    exists (224 + a), [128 + b; 128 + c]. split_and!; [done|exact H1| | |lia].
    { repeat constructor; by apply cont_byte_land. }
    cbn [prefix_value accumulate fold_left]. change (zlen [_; _; _]) with 3. rewrite H2.
    rewrite (accumulate_cont a b) by lia. by rewrite (accumulate_cont _ c) by lia.
  - destruct (lead_read_range 240 0 8 4 eq_refl a ltac:(lia)) as [H1 H2].
    exists (240 + a), [128 + b; 128 + c; 128 + d]. split_and!; [done|exact H1| | |lia].
    { repeat constructor; by apply cont_byte_land. }
    cbn [prefix_value accumulate fold_left]. change (zlen [_; _; _; _]) with 4. rewrite H2.
    rewrite (accumulate_cont a b) by lia. rewrite (accumulate_cont _ c) by lia.
    by rewrite (accumulate_cont _ d) by lia.
Qed.

(** The decoder is inside the character [c]: it has read [p] of its bytes and
    still expects [q]. *)
Definition inside (c : Z) (p q : bytes) (s : llama_partial_utf8) : Prop :=
  utf8_form c (p ++ q) /\ p <> [] /\ q <> [] /\
  value s = prefix_value (zlen (p ++ q)) p /\ n_remain s = zlen q.

(** In state [s], the bytes [r] still to come decode to [cs]. *)
Definition pending (s : llama_partial_utf8) (cs : list Z) (r : bytes) : Prop :=
  (n_remain s = 0 /\ utf8_text cs r) \/
  (exists c cs' p q r', cs = c :: cs' /\ r = q ++ r' /\ utf8_text cs' r' /\ inside c p q s).

Lemma prefix_value_app n p l :
  p <> [] -> prefix_value n (p ++ l) = accumulate (prefix_value n p) l.
Proof. destruct p as [|b tl]; [done|]. intros _. unfold accumulate. cbn. apply fold_left_app. Qed.

Lemma utf8_text_inv c cs s :
  utf8_text (c :: cs) s -> exists u r, utf8_form c u /\ utf8_text cs r /\ s = u ++ r.
Proof.
  intros (us & Hf & ->). inversion Hf as [|? u ? us' Hu Hr]; subst.
  exists u, (concat us'). split; [done|]. split; [by exists us'|done].
Qed.

Lemma inside_conts c p q s : inside c p q s -> Forall is_cont q.
Proof.
  intros (Hf & Hp & _). destruct (utf8_form_read _ _ Hf) as (b & tl & E & _ & Hc & _).
  destruct p as [|b' p]; [done|]. injection E as -> <-. by apply Forall_app in Hc as [_ Hc].
Qed.

Lemma decode_step_char b n pos cs v0 n0 :
  b <> 0 -> vget decode_lookup_strict (Z.shiftr b 4) = Ok n -> 1 <= n ->
  decode_step (b :: pos, cs, v0, n0) =
    let '(pos, v, n') := sequence_decode pos (prefix_value n [b]) (n - 1) in
    Ok (Next (pos, (if n' =? 0 then cs ++ [v] else cs), v, n')).
Proof.
  intros Hb Hn Hn1. cbn [decode_step]. rewrite c_cur_cons, (proj2 (Z.eqb_neq b 0) Hb), Hn.
  cbn [mbind res_bind]. cbn zeta. destruct (Z.ltb_spec (n - 1) 0); [lia|].
  change (drop 1 (b :: pos)) with pos. cbn [prefix_value accumulate fold_left]. done.
Qed.

(** The loop over fresh sequences. *)
Lemma decode_loop_fresh cs s r out v fuel :
  utf8_text cs (s ++ r) -> Forall (fun c => c <> 0) cs -> (length s < fuel)%nat ->
  exists cs1 cs2 s', while decode_step fuel (s, out, v, 0) = Ok (out ++ cs1 ++ [0], s') /\
    cs = cs1 ++ cs2 /\ pending s' cs2 r.
Proof.
  revert s out v fuel. induction cs as [|c cs IH]; intros s out v fuel Ht Hnz Hf;
    (destruct fuel as [|fuel]; [lia|]); destruct s as [|b s].
  1: { exists [], [], (mk_partial v 0). split_and!; [done|done|by left]. }
  2: { exists [], (c :: cs), (mk_partial v 0). split_and!; [done|done|by left]. }
  { destruct Ht as (us & Hus & E). inversion Hus; subst. discriminate E. }
  inversion_clear Hnz as [|? ? Hc0 Hnz'].
  apply utf8_text_inv in Ht as (u & r' & Hu & Ht & E).
  destruct (utf8_form_read _ _ Hu) as (b' & tl & -> & Hlk & Hconts & Hval & Hb0).
  injection E as <- E. specialize (Hb0 Hc0). cbn [length] in Hf.
  cbn [while]. rewrite (decode_step_char b _ s out v 0 Hb0 Hlk) by (rewrite zlen_cons; pose proof (zlen_nonneg tl); lia).
  rewrite zlen_cons, Z.add_simpl_r.
  apply app_eq_app in E as (l & [[-> ->]|[-> ->]]).
  - rewrite sequence_decode_conts by (done || lia || by right). rewrite Z.sub_diag.
    cbn [mbind res_bind Z.eqb].
    destruct (IH l (out ++ [accumulate (prefix_value (zlen tl + 1) [b]) tl])
      (accumulate (prefix_value (zlen tl + 1) [b]) tl) fuel Ht Hnz')
      as (cs1 & cs2 & s' & -> & -> & Hp).
    { rewrite length_app in Hf. lia. }
    exists (c :: cs1), cs2, s'. split_and!; [|done|done].
    rewrite zlen_cons in Hval. rewrite <- Hval. by rewrite <- app_assoc.
  - destruct l as [|d l].
    { rewrite !app_nil_r in *. rewrite (proj2 (decode_conts_end s _ _ Hconts (Z.le_refl _))).
      rewrite Z.sub_diag. cbn [mbind res_bind Z.eqb].
      destruct (IH [] (out ++ [accumulate (prefix_value (zlen s + 1) [b]) s])
        (accumulate (prefix_value (zlen s + 1) [b]) s) fuel Ht Hnz')
        as (cs1 & cs2 & s' & -> & -> & Hp); [cbn; lia|].
      exists (c :: cs1), cs2, s'. split_and!; [|done|done].
      rewrite zlen_cons in Hval. rewrite <- Hval. by rewrite <- app_assoc. }
    apply Forall_app in Hconts as [Hc1 Hc2].
    rewrite zlen_app, zlen_cons in *. pose proof (zlen_nonneg l).
    rewrite (proj2 (decode_conts_end s _ (zlen s + (zlen l + 1)) Hc1 ltac:(lia))).
    cbn [mbind res_bind]. destruct (Z.eqb_spec (zlen s + (zlen l + 1) - zlen s) 0); [lia|].
    destruct fuel as [|fuel]; [lia|]. cbn.
    eexists [], (c :: cs), _. split_and!; [reflexivity|done|]. right.
    exists c, cs, (b :: s), (d :: l), r'. split_and!; [done|done|done|].
    split_and!; [exact Hu|done|done| |cbn; rewrite zlen_cons; lia].
    cbn [value]. replace (zlen ((b :: s) ++ d :: l)) with (zlen s + (zlen l + 1) + 1) by
      (rewrite zlen_app, !zlen_cons; lia). done.
Qed.

(** One piece: the decoder returns the characters that the piece completes and
    is left pending on the rest. *)
Lemma decode_utf8_pending s cs piece r :
  pending s cs (piece ++ r) -> Forall (fun c => c <> 0) cs ->
  exists cs1 cs2 s', decode_utf8 piece s = Ok (cs1 ++ [0], s') /\ cs = cs1 ++ cs2 /\
    pending s' cs2 r.
Proof.
  intros [[Hn Ht]|(c & cs' & p & q & r' & -> & E & Ht & Hin)] Hnz; unfold decode_utf8.
  - rewrite Hn. replace (continue_decode piece (value s) 0) with (Some (piece, value s, 0)).
    2: { destruct piece as [|b l]; [done|]. cbn [continue_decode]. by rewrite orb_true_r. }
    cbn [Z.ltb Z.compare andb].
    destruct (decode_loop_fresh cs piece r [] (value s) (S (length piece)) Ht Hnz ltac:(lia))
      as (cs1 & cs2 & s' & H & ? & ?). by exists cs1, cs2, s'.
  - pose proof (inside_conts _ _ _ _ Hin) as Hconts.
    destruct Hin as (Hf & Hp & Hq & Hv & Hn). rewrite Hv, Hn.
    assert (0 < zlen q) as Hq0 by (destruct q; [done|rewrite zlen_cons; pose proof (zlen_nonneg q); lia]).
    assert (prefix_value (zlen (p ++ q)) (p ++ q) = c) as Hval.
    { by destruct (utf8_form_read _ _ Hf) as (? & ? & _ & _ & _ & ? & _). }
    inversion_clear Hnz as [|? ? Hc0 Hnz'].
    assert (Hdone : forall l, piece = q ++ l -> r' = l ++ r -> exists cs1 cs2 s',
      match continue_decode piece (prefix_value (zlen (p ++ q)) p) (zlen q) with
      | Some (pos, v, n) => while decode_step (S (length piece))
          (pos, (if (0 <? zlen q) && (n =? 0) then [v] else []), v, n)
      | None => Ok ([0], mk_partial 0 (-1))
      end = Ok (cs1 ++ [0], s') /\ c :: cs' = cs1 ++ cs2 /\ pending s' cs2 r).
    { intros l -> ->. rewrite continue_decode_conts by (done || lia || by right).
      rewrite Z.sub_diag, <- prefix_value_app, Hval by done.
      destruct (Z.ltb_spec 0 (zlen q)); [|lia]. cbn [andb Z.eqb].
      destruct (decode_loop_fresh cs' l r [c] c (S (length (q ++ l))) Ht Hnz')
        as (cs1 & cs2 & s' & H' & -> & Hp'); [rewrite length_app; lia|].
      exists (c :: cs1), cs2, s'. by split_and!. }
    symmetry in E. apply app_eq_app in E as (l & [[-> ->]|[-> ->]]).
    + destruct l as [|d l]; [apply (Hdone []); [by rewrite !app_nil_r|done]|].
      clear Hdone. apply Forall_app in Hconts as [Hc1 _].
      assert (zlen (piece ++ d :: l) = zlen piece + (zlen l + 1)) as Hz by
        (rewrite zlen_app, zlen_cons; done).
      pose proof (zlen_nonneg l).
      rewrite (proj1 (decode_conts_end piece _ (zlen (piece ++ d :: l)) Hc1 ltac:(lia))).
      destruct (Z.eqb_spec (zlen (piece ++ d :: l) - zlen piece) 0); [lia|]. rewrite andb_false_r.
      cbn [while]. cbn [decode_step]. change (c_cur [] =? 0) with true. cbn [mbind res_bind].
      eexists [], (c :: cs'), _. split_and!; [reflexivity|done|]. right.
      exists c, cs', (p ++ piece), (d :: l), r'. split_and!; [done|done|done|].
      split_and!; [by rewrite <- app_assoc|by destruct p|done| |cbn [n_remain]; rewrite Hz, zlen_cons; lia].
      cbn [value]. rewrite <- app_assoc, prefix_value_app by done. done.
    + by apply (Hdone l).
Qed.

(** The pieces of a text, decoded one after the other from the state the
    previous piece left, without the closing zeros. *)
Fixpoint decode_pieces (s : llama_partial_utf8) (pieces : list bytes) :
    res (list Z * llama_partial_utf8) :=
  match pieces with
  | [] => Ok ([], s)
  | piece :: pieces =>
      r ← decode_utf8 piece s;
      r' ← decode_pieces (snd r) pieces;
      Ok (removelast (fst r) ++ fst r', snd r')
  end.

Lemma decode_pieces_pending pieces s cs :
  pending s cs (concat pieces) -> Forall (fun c => c <> 0) cs ->
  exists s', decode_pieces s pieces = Ok (cs, s') /\ n_remain s' = 0.
Proof.
  revert s cs. induction pieces as [|piece pieces IH]; intros s cs Hp Hnz.
  - exists s. cbn in *. destruct Hp as [[Hn (us & Hus & E)]|(c & cs' & p & q & r' & _ & E & _ & (_ & _ & Hq & _))].
    + split; [|done]. destruct us as [|u us]; [by inversion Hus|].
      inversion Hus as [|c ? ? ? Hu]; subst. apply utf8_form_read in Hu as (? & ? & -> & _). done.
    + destruct q; done.
  - cbn [concat decode_pieces] in *.
    destruct (decode_utf8_pending _ _ _ _ Hp Hnz) as (cs1 & cs2 & s' & -> & -> & Hp').
    apply Forall_app in Hnz as [_ Hnz]. destruct (IH _ _ Hp' Hnz) as (s'' & E & Hn).
    cbn [mbind res_bind snd fst]. rewrite E. cbn. rewrite removelast_last. by exists s''.
Qed.

(** * Properties *)

(** C14. Tokens may cut characters anywhere: however a UTF-8 text without NUL is
    cut into pieces, decoding the pieces one after the other, each from the
    partial state the previous one left, gives exactly the code points of the
    text and ends on a character boundary. *)
Theorem decode_utf8_incremental (cs : list Z) (pieces : list bytes) :
  utf8_text cs (concat pieces) -> Forall (fun c => c <> 0) cs ->
  exists s, decode_pieces partial_none pieces = Ok (cs, s) /\ n_remain s = 0.
Proof. intros Ht Hnz. apply decode_pieces_pending; [by left|done]. Qed.

Lemma decode_utf8_incremental_witness :
  utf8_text [72; 233; 8364] (concat [[72; 195]; [169; 226]; [130]; [172]]) /\
  Forall (fun c => c <> 0) [72; 233; 8364] /\
  exists s, decode_pieces partial_none [[72; 195]; [169; 226]; [130]; [172]] = Ok ([72; 233; 8364], s) /\
    n_remain s = 0.
Proof.
  assert (H1 : utf8_text [72; 233; 8364] (concat [[72; 195]; [169; 226]; [130]; [172]])).
  { exists [[72]; [195; 169]; [226; 130; 172]]. split; [|reflexivity].
    repeat constructor; try lia.
    - apply (utf8_form_2 3 41); lia.
    - apply (utf8_form_3 2 2 44); lia. }
  assert (H2 : Forall (fun c => c <> 0) [72; 233; 8364]) by (repeat constructor; lia).
  split; [exact H1|]. split; [exact H2|].
  apply (decode_utf8_incremental [72; 233; 8364] [[72; 195]; [169; 226]; [130]; [172]]);
    [exact H1|exact H2].
Defined.
