(* ===== verification/GrammarSyntax.v ===== *)
(** Grammar elements of [src/llama-grammar.h] and the abstract syntax they
    encode: a rule is a list of alternatives, an alternative a list of items,
    and a grammar generates words of code points. *)
From S2P Require Import Prelude.

(** [enum llama_gretype] *)
Inductive llama_gretype : Type :=
| LLAMA_GRETYPE_END
| LLAMA_GRETYPE_ALT
| LLAMA_GRETYPE_RULE_REF
| LLAMA_GRETYPE_CHAR
| LLAMA_GRETYPE_CHAR_NOT
| LLAMA_GRETYPE_CHAR_RNG_UPPER
| LLAMA_GRETYPE_CHAR_ALT
| LLAMA_GRETYPE_CHAR_ANY.

#[export] Instance llama_gretype_eq_dec : EqDecision llama_gretype.
Proof. solve_decision. Defined.

(** [struct llama_grammar_element] *)
Record llama_grammar_element : Type := mk_elem {
  elem_type  : llama_gretype;
  elem_value : Z
}.

#[export] Instance llama_grammar_element_eq_dec : EqDecision llama_grammar_element.
Proof. solve_decision. Defined.

Abbreviation llama_grammar_rule := (list llama_grammar_element).
Abbreviation llama_grammar_rules := (list llama_grammar_rule).

Definition elem_end : llama_grammar_element := mk_elem LLAMA_GRETYPE_END 0.
Definition elem_alt : llama_grammar_element := mk_elem LLAMA_GRETYPE_ALT 0.

Definition is_end_type (t : llama_gretype) : bool :=
  match t with LLAMA_GRETYPE_END | LLAMA_GRETYPE_ALT => true | _ => false end.

(** * Abstract syntax *)

(** One entry of a character class: a code point or an inclusive range. *)
Definition char_range : Type := Z * option Z.

Inductive item : Type :=
| IRef (r : Z)
| IAny
| IClass (negated : bool) (first : char_range) (more : list char_range).

Definition flatten_range (t : llama_gretype) (x : char_range) : list llama_grammar_element :=
  mk_elem t (fst x) ::
  match snd x with Some hi => [mk_elem LLAMA_GRETYPE_CHAR_RNG_UPPER hi] | None => [] end.

Definition flatten_more (xs : list char_range) : list llama_grammar_element :=
  concat (flatten_range LLAMA_GRETYPE_CHAR_ALT <$> xs).

Definition class_type (negated : bool) : llama_gretype :=
  if negated then LLAMA_GRETYPE_CHAR_NOT else LLAMA_GRETYPE_CHAR.

Definition flatten_item (it : item) : list llama_grammar_element :=
  match it with
  | IRef r => [mk_elem LLAMA_GRETYPE_RULE_REF r]
  | IAny => [mk_elem LLAMA_GRETYPE_CHAR_ANY 0]
  | IClass neg x xs => flatten_range (class_type neg) x ++ flatten_more xs
  end.

Definition flatten_items (its : list item) : list llama_grammar_element :=
  concat (flatten_item <$> its).

(** The alternatives of a rule, separated by [ALT] and without the final [END]. *)
Fixpoint flatten_alts (alts : list (list item)) : list llama_grammar_element :=
  match alts with
  | [] => []
  | [its] => flatten_items its
  | its :: alts => flatten_items its ++ elem_alt :: flatten_alts alts
  end.

Definition flatten_rule (alts : list (list item)) : llama_grammar_rule :=
  flatten_alts alts ++ [elem_end].

(** A rule that encodes a non-empty list of alternatives. *)
Definition rule_wf (rule : llama_grammar_rule) : Prop :=
  exists alts, alts <> [] /\ rule = flatten_rule alts.

(** A grammar: the alternatives of each rule. *)
Abbreviation grammar := (list (list (list item))).

Definition encodes (G : grammar) (rules : llama_grammar_rules) : Prop :=
  Forall2 (fun alts rule => alts <> [] /\ rule = flatten_rule alts) G rules.

(** The rules an item refers to. *)
Definition item_refs (it : item) : list Z := match it with IRef r => [r] | _ => [] end.

(** All references stay inside the grammar. *)
Definition closed_items (n : Z) (its : list item) : Prop :=
  Forall (fun it => Forall (fun r => 0 <= r < n) (item_refs it)) its.

Definition closed_grammar (G : grammar) : Prop :=
  Forall (Forall (closed_items (zlen G))) G.

(** * Generated language *)

Definition in_range (c : Z) (x : char_range) : bool :=
  match snd x with
  | Some hi => (fst x <=? c) && (c <=? hi)
  | None => fst x =? c
  end.

(** The code points an item that is not a reference accepts. *)
Definition item_accepts (it : item) (c : Z) : bool :=
  match it with
  | IRef _ => false
  | IAny => true
  | IClass neg x xs => xorb neg (existsb (in_range c) (x :: xs))
  end.

Definition is_ref (it : item) : bool := match it with IRef _ => true | _ => false end.

(** [gen G its w]: the items generate the word [w]. *)
Inductive gen (G : grammar) : list item -> list Z -> Prop :=
| gen_nil : gen G [] []
| gen_char it its c w :
    is_ref it = false -> item_accepts it c = true -> gen G its w ->
    gen G (it :: its) (c :: w)
| gen_ref r alts alt its w :
    zlookup G r = Some alts -> alt ∈ alts -> gen G (alt ++ its) w ->
    gen G (IRef r :: its) w.

(** * Facts *)

Lemma flatten_alts_snoc alts its :
  alts <> [] -> flatten_alts (alts ++ [its]) = flatten_alts alts ++ elem_alt :: flatten_items its.
Proof.
  induction alts as [|a [|b alts] IH]; intros H; [done|done|].
  cbn [app flatten_alts] in *. rewrite IH by done. by rewrite <- app_assoc.
Qed.

Lemma flatten_alts_cons its alts :
  alts <> [] -> flatten_alts (its :: alts) = flatten_items its ++ elem_alt :: flatten_alts alts.
Proof. by destruct alts. Qed.

Lemma flatten_items_cons it its : flatten_items (it :: its) = flatten_item it ++ flatten_items its.
Proof. reflexivity. Qed.

Lemma flatten_items_app a b : flatten_items (a ++ b) = flatten_items a ++ flatten_items b.
Proof. unfold flatten_items. by rewrite fmap_app, concat_app. Qed.

Lemma flatten_item_head it : exists e tl, flatten_item it = e :: tl /\
  is_end_type (elem_type e) = false /\ elem_type e <> LLAMA_GRETYPE_CHAR_ALT /\
  elem_type e <> LLAMA_GRETYPE_CHAR_RNG_UPPER.
Proof. destruct it as [r| |[] [x []] xs]; cbn; eauto 10. Qed.

Lemma flatten_range_not_end t x :
  is_end_type t = false -> Forall (fun e => is_end_type (elem_type e) = false) (flatten_range t x).
Proof. destruct x as [x []]; repeat constructor; done. Qed.

Lemma flatten_items_not_end its :
  Forall (fun e => is_end_type (elem_type e) = false) (flatten_items its).
Proof.
  induction its as [|it its IH]; [constructor|]. rewrite flatten_items_cons.
  apply Forall_app. split; [|done]. destruct it as [r| |neg x xs]; cbn; [by repeat constructor..|].
  constructor; [by destruct neg|].
  apply Forall_app. split; [by destruct x as [? []]; repeat constructor|].
  unfold flatten_more. induction xs as [|y xs IHx]; cbn; [constructor|].
  constructor; [done|]. apply Forall_app. split; [|done]. by destruct y as [? []]; repeat constructor.
Qed.

(** Replacing a suffix of a word by one that is generated too. *)
Lemma gen_app_inv G a b w :
  gen G (a ++ b) w <-> exists u v, w = u ++ v /\ gen G a u /\ gen G b v.
Proof.
  split.
  - remember (a ++ b) as its eqn:E. intros H. revert a E.
    induction H as [|it its c w Hr Ha Hg IH|r alts alt its w Hl Hin Hg IH]; intros a E.
    + symmetry in E. apply app_nil in E as [-> ->]. exists [], []. split_and!; [done|constructor..].
    + destruct a as [|x a]; cbn in E; subst.
      * exists [], (c :: w). split_and!; [done|constructor|by constructor].
      * injection E as -> ->. destruct (IH a eq_refl) as (u & v & -> & Hu & Hv).
        exists (c :: u), v. split_and!; [done|by constructor|done].
    + destruct a as [|x a]; cbn in E; subst.
      * exists [], w. split_and!; [done|constructor|by econstructor].
      * injection E as <- ->. destruct (IH (alt ++ a)) as (u & v & -> & Hu & Hv).
        { by rewrite app_assoc. }
        exists u, v. split_and!; [done|by econstructor|done].
  - intros (u & v & -> & Hu & Hv). induction Hu as [|it its c w Hr Ha Hg IH|r alts alt its w Hl Hin Hg IH]; cbn.
    + done.
    + by constructor.
    + econstructor; [done|done|]. by rewrite app_assoc.
Qed.

Lemma gen_ref_inv G r its w :
  gen G (IRef r :: its) w ->
  exists alts alt, zlookup G r = Some alts /\ alt ∈ alts /\ gen G (alt ++ its) w.
Proof. inversion 1 as [|? ? ? ? Hr|? alts alt]; subst; [discriminate Hr|]. by exists alts, alt. Qed.

Lemma gen_char_inv G it its w :
  is_ref it = false -> gen G (it :: its) w ->
  exists c v, w = c :: v /\ item_accepts it c = true /\ gen G its v.
Proof.
  intros Hr. inversion 1 as [|? ? c v _ Hc Hg|]; subst; [by exists c, v|discriminate Hr].
Qed.

Lemma encodes_flatten G : Forall (fun alts => alts <> []) G -> encodes G (flatten_rule <$> G).
Proof. induction 1 as [|alts G Hne _ IH]; [constructor|]. by constructor. Qed.
