(* ===== verification/GrammarParser.v ===== *)
(** The grammar parser of [src/llama-grammar.cpp]: lexical helpers, the
    recursive descent over alternates and sequences, the rewriting of
    repetitions, and the validation of the parsed rules. *)
From stdpp Require Import pretty.
From S2P Require Import Prelude Unicode GrammarUtf8 GrammarSyntax.

(** * Lexical helpers *)

Definition is_digit_char (c : Z) : bool := (48 <=? c) && (c <=? 57).

Definition is_word_char (c : Z) : bool :=
  ((97 <=? c) && (c <=? 122)) || ((65 <=? c) && (c <=? 90)) || (c =? 45) || is_digit_char c.

(** The value of a hexadecimal digit. *)
Definition hex_digit (c : Z) : option Z :=
  if (97 <=? c) && (c <=? 102) then Some (c - 97 + 10)
  else if (65 <=? c) && (c <=? 70) then Some (c - 65 + 10)
  else if is_digit_char c then Some (c - 48)
  else None.

(** The loop of [parse_hex]; [size] is [end - pos]. *)
Fixpoint parse_hex_loop (size : nat) (pos : bytes) (value : Z) : nat * bytes * Z :=
  match size with
  | O => (O, pos, value)
  | S size' =>
      if c_cur pos =? 0 then (size, pos, value)
      else
        let value := u32 (Z.shiftl value 4) in
        match hex_digit (c_cur pos) with
        | Some d => parse_hex_loop size' (drop 1 pos) (u32 (value + d))
        | None => (size, pos, value)
        end
  end.

Definition parse_hex (src : bytes) (size : nat) : res (Z * bytes) :=
  match parse_hex_loop size src 0 with
  | (O, pos, value) => Ok (value, pos)
  | _ => throw "expecting hex chars"
  end.

(** [parse_space]: the two nested loops in one pass; [in_comment] holds inside
    the inner loop, which runs from a [#] to the end of the line. *)
Fixpoint parse_space_loop (newline_ok in_comment : bool) (src : bytes) : bytes :=
  match src with
  | [] => []
  | c :: rest =>
      if in_comment && negb ((c =? 0) || (c =? 13) || (c =? 10)) then
        parse_space_loop newline_ok true rest
      else if (c =? 32) || (c =? 9) then parse_space_loop newline_ok false rest
      else if c =? 35 then parse_space_loop newline_ok true rest
      else if newline_ok && ((c =? 13) || (c =? 10)) then parse_space_loop newline_ok false rest
      else src
  end.

Definition parse_space (src : bytes) (newline_ok : bool) : bytes :=
  parse_space_loop newline_ok false src.

(** [while (p( *pos )) pos++] *)
Fixpoint skip_while (p : Z -> bool) (src : bytes) : bytes :=
  match src with
  | c :: rest => if p c then skip_while p rest else src
  | [] => []
  end.

Definition parse_name (src : bytes) : res bytes :=
  let pos := skip_while is_word_char src in
  if (length pos =? length src)%nat then throw "expecting name" else Ok pos.

Definition parse_int (src : bytes) : res bytes :=
  let pos := skip_while is_digit_char src in
  if (length pos =? length src)%nat then throw "expecting integer" else Ok pos.

(** [std::string(src, end - src)] for a position [end] after [src] *)
Definition between (src fin : bytes) : bytes := take (length src - length fin) src.

(** [std::stoul] of a string of digits; 64-bit unsigned long. *)
Definition stoul (s : bytes) : res Z :=
  let v := fold_left (fun v c => v * 10 + (c - 48)) s 0 in
  if v <? 2 ^ 64 then Ok v else throw "stoul".

Definition parse_char (src : bytes) : res (Z * bytes) :=
  if c_cur src =? 92 then
    let c := c_at src 1 in
    if c =? 120 then parse_hex (drop 2 src) 2
    else if c =? 117 then parse_hex (drop 2 src) 4
    else if c =? 85 then parse_hex (drop 2 src) 8
    else if c =? 116 then Ok (9, drop 2 src)
    else if c =? 114 then Ok (13, drop 2 src)
    else if c =? 110 then Ok (10, drop 2 src)
    else if (c =? 92) || (c =? 34) || (c =? 91) || (c =? 93) then Ok (c, drop 2 src)
    else throw "unknown escape"
  else if negb (c_cur src =? 0) then decode_utf8_char src
  else throw "unexpected end of input".

(** * Parser state *)

(** [struct llama_grammar_parser]. Rule identifiers are counted without the
    32-bit wrap-around, which needs 2^32 symbols. *)
Record llama_grammar_parser : Type := mk_parser {
  symbol_ids : gmap bytes Z;
  rules      : llama_grammar_rules
}.

Definition parser_empty : llama_grammar_parser := mk_parser ∅ [].

(** [symbol_ids.emplace(name, next_id)] keeps an existing entry. *)
Definition get_symbol_id (st : llama_grammar_parser) (name : bytes) : Z * llama_grammar_parser :=
  let next_id := Z.of_nat (size (symbol_ids st)) in
  match symbol_ids st !! name with
  | Some id => (id, st)
  | None => (next_id, mk_parser (<[name := next_id]> (symbol_ids st)) (rules st))
  end.

(** [base_name + '_' + std::to_string(next_id)] *)
Definition generated_name (base_name : bytes) (next_id : Z) : bytes :=
  base_name ++ 95 :: str (pretty next_id).

Definition generate_symbol_id (st : llama_grammar_parser) (base_name : bytes) :
    Z * llama_grammar_parser :=
  let next_id := Z.of_nat (size (symbol_ids st)) in
  (next_id, mk_parser (<[generated_name base_name next_id := next_id]> (symbol_ids st)) (rules st)).

Definition add_rule (st : llama_grammar_parser) (rule_id : Z) (rule : llama_grammar_rule) :
    res llama_grammar_parser :=
  let rs := if zlen (rules st) <=? rule_id then vresize [] (Z.to_nat (rule_id + 1)) (rules st)
            else rules st in
  rs ← vset rs rule_id rule;
  Ok (mk_parser (symbol_ids st) rs).

(** * Repetitions *)

(** One iteration of the loop that adds the rules S'(1), S'(2), ...; the state is
    [rec_rule], [last_rec_rule_id] and the parser. *)
Definition repetition_step (rule_name : bytes) (prev_rule : llama_grammar_rule) (max_times : Z)
    (i : Z) (s : llama_grammar_rule * Z * llama_grammar_parser) :
    res (llama_grammar_rule * Z * llama_grammar_parser) :=
  let '(rec_rule, last_rec_rule_id, st) := s in
  let rec_rule := take (length prev_rule) rec_rule in
  let '(rec_rule_id, st) := generate_symbol_id st rule_name in
  let rec_rule :=
    if (0 <? i) || (max_times <? 0) then
      rec_rule ++ [mk_elem LLAMA_GRETYPE_RULE_REF
                     (if max_times <? 0 then rec_rule_id else last_rec_rule_id)]
    else rec_rule in
  let rec_rule := rec_rule ++ [elem_alt; elem_end] in
  st ← add_rule st rec_rule_id rec_rule;
  Ok (rec_rule, rec_rule_id, st).

Definition handle_repetitions (rule_name : bytes) (last_sym_start : nat)
    (rule : llama_grammar_rule) (st : llama_grammar_parser) (min_times max_times : Z) :
    res (llama_grammar_rule * llama_grammar_parser) :=
  if (last_sym_start =? length rule)%nat then
    throw "expecting preceding item to */+/?/{"
  else
    let prev_rule := drop last_sym_start rule in
    rule ← (if min_times =? 0 then Ok (take last_sym_start rule)
            else for_z 1 min_times (fun _ rule => Ok (rule ++ prev_rule)) rule);
    n_opt ← (if max_times <? 0 then Ok 1 else s32 (max_times - min_times));
    r ← for_z 0 n_opt (repetition_step rule_name prev_rule max_times) (prev_rule, 0, st);
    let '(_, last_rec_rule_id, st) := r in
    Ok ((if 0 <? n_opt then rule ++ [mk_elem LLAMA_GRETYPE_RULE_REF last_rec_rule_id] else rule), st).

(** * Sequences and alternates *)

(** The loop over the characters of a literal string. *)
Definition literal_step (s : bytes * llama_grammar_rule) :
    res (step (bytes * llama_grammar_rule) (bytes * llama_grammar_rule)) :=
  let '(pos, rule) := s in
  if c_cur pos =? 34 then Ok (Done (pos, rule))
  else if c_cur pos =? 0 then throw "unexpected end of input"
  else
    char_pair ← parse_char pos;
    Ok (Next (snd char_pair, rule ++ [mk_elem LLAMA_GRETYPE_CHAR (fst char_pair)])).

(** The loop over the entries of a bracket expression. *)
Definition class_step (start_type : llama_gretype) (last_sym_start : nat)
    (s : bytes * llama_grammar_rule) :
    res (step (bytes * llama_grammar_rule) (bytes * llama_grammar_rule)) :=
  let '(pos, rule) := s in
  if c_cur pos =? 93 then Ok (Done (pos, rule))
  else if c_cur pos =? 0 then throw "unexpected end of input"
  else
    char_pair ← parse_char pos;
    let pos := snd char_pair in
    let type := if (last_sym_start <? length rule)%nat then LLAMA_GRETYPE_CHAR_ALT else start_type in
    let rule := rule ++ [mk_elem type (fst char_pair)] in
    if (c_at pos 0 =? 45) && negb (c_at pos 1 =? 93) then
      if c_at pos 1 =? 0 then throw "unexpected end of input"
      else
        endchar_pair ← parse_char (drop 1 pos);
        Ok (Next (snd endchar_pair,
                  rule ++ [mk_elem LLAMA_GRETYPE_CHAR_RNG_UPPER (fst endchar_pair)]))
    else Ok (Next (pos, rule)).

(** The bounds [{m}], [{m,}] and [{m,n}] after the brace and its spaces: the two
    [int] bounds and the position after the closing brace. *)
Definition parse_bounds (pos : bytes) (is_nested : bool) : res (Z * Z * bytes) :=
  if negb (is_digit_char (c_cur pos)) then throw "expecting an int"
  else
    int_end ← parse_int pos;
    n ← stoul (between pos int_end);
    let min_times := i32 n in
    let pos := parse_space int_end is_nested in
    if c_cur pos =? 125 then
      Ok (min_times, min_times, parse_space (drop 1 pos) is_nested)
    else if c_cur pos =? 44 then
      let pos := parse_space (drop 1 pos) is_nested in
      r ← (if is_digit_char (c_cur pos) then
             int_end ← parse_int pos;
             n ← stoul (between pos int_end);
             Ok (i32 n, parse_space int_end is_nested)
           else Ok (-1, pos));
      let '(max_times, pos) := r in
      if negb (c_cur pos =? 125) then throw "expecting '}'"
      else Ok (min_times, max_times, parse_space (drop 1 pos) is_nested)
    else throw "expecting ','".

(** The variables of [parse_sequence]. *)
Record sequence_state : Type := mk_seq {
  seq_pos  : bytes;
  seq_last : nat;                     (* last_sym_start *)
  seq_rule : llama_grammar_rule;
  seq_st   : llama_grammar_parser
}.

Section sequence.
(** [parse_alternates], for the text between parentheses *)
Variable parse_alternates :
  llama_grammar_parser -> bytes -> bytes -> Z -> bool -> res (bytes * llama_grammar_parser).

(** One iteration of the loop of [parse_sequence]. *)
Definition sequence_step (rule_name : bytes) (is_nested : bool) (s : sequence_state) :
    res (step sequence_state sequence_state) :=
  let '(mk_seq pos last_sym_start rule st) := s in
  let repeat pos min_times max_times :=
    r ← handle_repetitions rule_name last_sym_start rule st min_times max_times;
    Ok (Next (mk_seq pos last_sym_start (fst r) (snd r))) in
  let c := c_cur pos in
  if c =? 0 then Ok (Done s)
  else if c =? 34 then
    r ← while literal_step (S (length pos)) (drop 1 pos, rule);
    let '(pos, rule') := r in
    Ok (Next (mk_seq (parse_space (drop 1 pos) is_nested) (length rule) rule' st))
  else if c =? 91 then
    let pos := drop 1 pos in
    let '(pos, start_type) :=
      if c_cur pos =? 94 then (drop 1 pos, LLAMA_GRETYPE_CHAR_NOT) else (pos, LLAMA_GRETYPE_CHAR) in
    r ← while (class_step start_type (length rule)) (S (length pos)) (pos, rule);
    let '(pos, rule') := r in
    Ok (Next (mk_seq (parse_space (drop 1 pos) is_nested) (length rule) rule' st))
  else if is_word_char c then
    name_end ← parse_name pos;
    let '(ref_rule_id, st) := get_symbol_id st (between pos name_end) in
    Ok (Next (mk_seq (parse_space name_end is_nested) (length rule)
                (rule ++ [mk_elem LLAMA_GRETYPE_RULE_REF ref_rule_id]) st))
  else if c =? 40 then
    let pos := parse_space (drop 1 pos) true in
    let '(sub_rule_id, st) := generate_symbol_id st rule_name in
    r ← parse_alternates st pos rule_name sub_rule_id true;
    let '(pos, st) := r in
    if negb (c_cur pos =? 41) then throw "expecting ')'"
    else
      Ok (Next (mk_seq (parse_space (drop 1 pos) is_nested) (length rule)
                  (rule ++ [mk_elem LLAMA_GRETYPE_RULE_REF sub_rule_id]) st))
  else if c =? 46 then
    Ok (Next (mk_seq (parse_space (drop 1 pos) is_nested) (length rule)
                (rule ++ [mk_elem LLAMA_GRETYPE_CHAR_ANY 0]) st))
  else if c =? 42 then repeat (parse_space (drop 1 pos) is_nested) 0 (-1)
  else if c =? 43 then repeat (parse_space (drop 1 pos) is_nested) 1 (-1)
  else if c =? 63 then repeat (parse_space (drop 1 pos) is_nested) 0 1
  else if c =? 123 then
    b ← parse_bounds (parse_space (drop 1 pos) is_nested) is_nested;
    let '(min_times, max_times, pos) := b in
    repeat pos min_times max_times
  else Ok (Done s).

(** [parse_sequence]: the position after it, the extended rule and the parser. *)
Definition parse_sequence (st : llama_grammar_parser) (src rule_name : bytes)
    (rule : llama_grammar_rule) (is_nested : bool) :
    res (bytes * llama_grammar_rule * llama_grammar_parser) :=
  s ← while (sequence_step rule_name is_nested) (S (length src)) (mk_seq src (length rule) rule st);
  Ok (seq_pos s, seq_rule s, seq_st s).

(** One iteration of the loop over the alternatives. *)
Definition alternates_step (rule_name : bytes) (is_nested : bool)
    (s : bytes * llama_grammar_rule * llama_grammar_parser) :
    res (step (bytes * llama_grammar_rule * llama_grammar_parser)
              (bytes * llama_grammar_rule * llama_grammar_parser)) :=
  let '(pos, rule, st) := s in
  if c_cur pos =? 124 then
    let rule := rule ++ [elem_alt] in
    let pos := parse_space (drop 1 pos) true in
    s ← parse_sequence st pos rule_name rule is_nested;
    Ok (Next s)
  else Ok (Done s).
End sequence.

(** [fuel] bounds the nesting of parentheses. *)
Fixpoint parse_alternates (fuel : nat) (st : llama_grammar_parser) (src rule_name : bytes)
    (rule_id : Z) (is_nested : bool) : res (bytes * llama_grammar_parser) :=
  match fuel with
  | O => Err Fuel
  | S fuel =>
      s ← parse_sequence (parse_alternates fuel) st src rule_name [] is_nested;
      s ← while (alternates_step (parse_alternates fuel) rule_name is_nested) (S (length src)) s;
      let '(pos, rule, st) := s in
      let rule := rule ++ [elem_end] in
      st ← add_rule st rule_id rule;
      Ok (pos, st)
  end.

(** * Rules *)

Definition parse_rule (st : llama_grammar_parser) (src : bytes) :
    res (bytes * llama_grammar_parser) :=
  name_end ← parse_name src;
  let pos := parse_space name_end false in
  let name := between src name_end in
  let '(rule_id, st) := get_symbol_id st name in
  if negb ((c_at pos 0 =? 58) && (c_at pos 1 =? 58) && (c_at pos 2 =? 61)) then
    throw "expecting ::="
  else
    let pos := parse_space (drop 3 pos) true in
    r ← parse_alternates (S (length pos)) st pos name rule_id false;
    let '(pos, st) := r in
    pos ← (if c_cur pos =? 13 then Ok (drop (if c_at pos 1 =? 10 then 2 else 1) pos)
           else if c_cur pos =? 10 then Ok (drop 1 pos)
           else if negb (c_cur pos =? 0) then throw "expecting newline or end"
           else Ok pos);
    Ok (parse_space pos true, st).

Definition rules_step (s : bytes * llama_grammar_parser) :
    res (step (bytes * llama_grammar_parser) llama_grammar_parser) :=
  let '(pos, st) := s in
  if c_cur pos =? 0 then Ok (Done st)
  else r ← parse_rule st pos; Ok (Next r).

(** An element passes unless it refers to a missing rule that has a name. *)
Definition validate_elem (st : llama_grammar_parser) (elem : llama_grammar_element) : bool :=
  match elem_type elem with
  | LLAMA_GRETYPE_RULE_REF =>
      let missing := match zlookup (rules st) (elem_value elem) with
                     | Some (_ :: _) => false | _ => true end in
      negb (missing && existsb (fun kv => snd kv =? elem_value elem) (map_to_list (symbol_ids st)))
  | _ => true
  end.

(** The validation loop over the rules. *)
Definition validate_rules (st : llama_grammar_parser) : res unit :=
  _ ← mapM (fun rule : llama_grammar_rule =>
         match rule with
         | [] => throw "Undefined rule"
         | _ => if forallb (validate_elem st) rule then Ok tt
                else throw "Undefined rule identifier"
         end) (rules st);
  Ok tt.

(** [parse], on a parser in its initial state: the flag it returns and the
    parser it leaves. *)
Definition parse (src : bytes) : res (bool * llama_grammar_parser) :=
  let pos := parse_space src true in
  match (st ← while rules_step (S (length pos)) (pos, parser_empty);
         _ ← validate_rules st; Ok st) with
  | Ok st => Ok (true, st)
  | Err (Throw _) => Ok (false, mk_parser ∅ [])
  | Err e => Err e
  end.


(** * Positions *)

(** [pos'] is at least [n] characters further than [pos]. *)
Definition adv (n : nat) (pos pos' : bytes) : Prop :=
  exists l, pos = l ++ pos' /\ (n <= length l)%nat.

Lemma adv_refl pos : adv 0 pos pos.
Proof. by exists []. Qed.

Lemma adv_cons c pos : adv 1 (c :: pos) pos.
Proof. by exists [c]. Qed.

Lemma adv_trans n m a b c : adv n a b -> adv m b c -> adv (n + m) a c.
Proof.
  intros (l & -> & Hl) (k & -> & Hk). exists (l ++ k). rewrite <- app_assoc, length_app.
  split; [done|lia].
Qed.

Lemma adv_weaken n m a b : adv n a b -> (m <= n)%nat -> adv m a b.
Proof. intros (l & -> & Hl) ?. exists l. split; [done|lia]. Qed.

Lemma adv_length n a b : adv n a b -> (length b + n <= length a)%nat.
Proof. intros (l & -> & Hl). rewrite length_app. lia. Qed.

Lemma adv_bytes n a b : adv n a b -> Forall byte_ok a -> Forall byte_ok b.
Proof. intros (l & -> & _) H. by apply Forall_app in H as [_ H]. Qed.

Lemma adv_drop n a : (n <= length a)%nat -> adv n a (drop n a).
Proof. intros H. exists (take n a). rewrite take_drop, length_take. split; [done|lia]. Qed.

Lemma adv_drop_0 n a : adv 0 a (drop n a).
Proof. exists (take n a). rewrite take_drop. split; [done|lia]. Qed.

(** A character other than the terminator can be skipped. *)
Lemma adv_cur a : c_cur a <> 0 -> adv 1 a (drop 1 a).
Proof. destruct a; [done|]. intros _. apply adv_cons. Qed.

Lemma adv_at a i : c_at a i <> 0 -> adv (S i) a (drop (S i) a).
Proof.
  intros H. apply adv_drop. destruct (decide (S i <= length a)%nat); [done|].
  exfalso. apply H. unfold c_at. by rewrite lookup_ge_None_2 by lia.
Qed.

Lemma parse_space_loop_adv nl b src : adv 0 src (parse_space_loop nl b src).
Proof.
  revert b. induction src as [|c rest IH]; intros b; cbn [parse_space_loop]; [apply adv_refl|].
  assert (forall b, adv 0 (c :: rest) (parse_space_loop nl b rest)) as Hnext.
  { intros b'. eapply adv_weaken; [eapply adv_trans; [apply adv_cons|apply IH]|lia]. }
  repeat case_match; auto using adv_refl.
Qed.

Lemma parse_space_adv n pos pos' nl : adv n pos pos' -> adv n pos (parse_space pos' nl).
Proof.
  intros H. eapply adv_weaken; [eapply adv_trans; [exact H|apply parse_space_loop_adv]|lia].
Qed.

Lemma skip_while_adv p src : adv 0 src (skip_while p src).
Proof.
  induction src as [|c rest IH]; cbn; [apply adv_refl|]. case_match; [|apply adv_refl].
  eapply adv_weaken; [eapply adv_trans; [apply adv_cons|apply IH]|lia].
Qed.

Lemma skip_while_nonempty p src :
  length (skip_while p src) <> length src -> adv 1 src (skip_while p src).
Proof.
  intros H. destruct (skip_while_adv p src) as (l & E & _). exists l. split; [done|].
  destruct l; [|cbn; lia]. cbn in E. congruence.
Qed.

Lemma parse_name_post src : may_throw (parse_name src) (adv 1 src).
Proof.
  unfold parse_name. destruct (Nat.eqb_spec (length (skip_while is_word_char src)) (length src)).
  - cbn. eauto.
  - by apply skip_while_nonempty.
Qed.

Lemma parse_int_post src : may_throw (parse_int src) (adv 1 src).
Proof.
  unfold parse_int. destruct (Nat.eqb_spec (length (skip_while is_digit_char src)) (length src)).
  - cbn. eauto.
  - by apply skip_while_nonempty.
Qed.

Lemma parse_hex_loop_adv n pos v : adv 0 pos (snd (fst (parse_hex_loop n pos v))).
Proof.
  revert pos v. induction n as [|n IH]; intros pos v; cbn [parse_hex_loop]; [apply adv_refl|].
  destruct (Z.eqb_spec (c_cur pos) 0); [apply adv_refl|]. cbn zeta.
  destruct (hex_digit _); [|apply adv_refl].
  eapply adv_weaken; [eapply adv_trans; [by apply adv_cur|apply IH]|lia].
Qed.

Lemma parse_hex_post src n : may_throw (parse_hex src n) (fun r => adv 0 src (snd r)).
Proof.
  unfold parse_hex. pose proof (parse_hex_loop_adv n src 0) as H.
  destruct (parse_hex_loop n src 0) as [[[|k] pos] v]; cbn in *; eauto.
Qed.

Lemma decode_char_loop_adv n pos v : adv 0 pos (snd (decode_char_loop n pos v)).
Proof.
  revert pos v. induction n as [|n IH]; intros pos v; [apply adv_refl|].
  destruct pos as [|b rest]; [apply adv_refl|]. cbn [decode_char_loop].
  case_match; [apply adv_refl|].
  eapply adv_weaken; [eapply adv_trans; [apply adv_cons|apply IH]|lia].
Qed.

Lemma decode_utf8_char_post src :
  Forall byte_ok src -> c_cur src <> 0 ->
  safe (decode_utf8_char src) (fun r => adv 1 src (snd r)).
Proof.
  intros Hs Hc. unfold decode_utf8_char. destruct src as [|b rest]; [done|].
  rewrite c_cur_cons in *. inversion_clear Hs as [|? ? Hb _]. unfold byte_ok in Hb.
  eapply post_bind; [apply vget_safe|].
  { rewrite Z.shiftr_div_pow2 by lia. change (zlen decode_lookup) with 16.
    split; [apply Z.div_pos; lia|apply Z.div_lt_upper_bound; lia]. }
  intros len _. cbn [drop].
  eapply adv_weaken; [eapply adv_trans; [apply adv_cons|apply decode_char_loop_adv]|lia].
Qed.

Lemma parse_char_post src :
  Forall byte_ok src -> may_throw (parse_char src) (fun r => adv 1 src (snd r)).
Proof.
  intros Hs. unfold parse_char. destruct (Z.eqb_spec (c_cur src) 92) as [E|E].
  - assert (Hhex : forall n, c_at src 1 <> 0 ->
      may_throw (parse_hex (drop 2 src) n) (fun r => adv 1 src (snd r))).
    { intros n H1. eapply post_mono; [apply parse_hex_post| |done]. intros r Hr. cbn beta in Hr.
      eapply adv_weaken; [eapply adv_trans; [by apply (adv_at src 1)|exact Hr]|lia]. }
    assert (Hesc : c_at src 1 <> 0 -> adv 1 src (drop 2 src)).
    { intros H1. eapply adv_weaken; [by apply (adv_at src 1)|lia]. }
    repeat match goal with |- context [c_at src 1 =? ?k] =>
      destruct (Z.eqb_spec (c_at src 1) k); [|cbn [orb]] end;
      try (apply Hhex; lia); try (apply Hesc; lia); cbn [orb]; try (apply Hesc; lia).
    cbn. eauto.
  - destruct (Z.eqb_spec (c_cur src) 0); cbn [negb]; [cbn; eauto|].
    eapply post_mono; [by apply decode_utf8_char_post|done|]. intros ? [].
Qed.

(** * Invariant of the parser *)

(** The rules that elements refer to. *)
Definition elem_refs (l : list llama_grammar_element) : list Z :=
  concat ((fun e => match elem_type e with
                    | LLAMA_GRETYPE_RULE_REF => [elem_value e] | _ => [] end) <$> l).

Lemma elem_refs_app l k : elem_refs (l ++ k) = elem_refs l ++ elem_refs k.
Proof. unfold elem_refs. by rewrite fmap_app, concat_app. Qed.

Lemma elem_refs_flatten_more xs : elem_refs (flatten_more xs) = [].
Proof.
  unfold flatten_more. induction xs as [|[x []] xs IH]; [done| |];
    rewrite fmap_cons; cbn [concat]; rewrite elem_refs_app, IH; done.
Qed.

Lemma elem_refs_items its : elem_refs (flatten_items its) = concat (item_refs <$> its).
Proof.
  induction its as [|it its IH]; [done|].
  rewrite flatten_items_cons, elem_refs_app, IH, fmap_cons. cbn [concat]. f_equal.
  destruct it as [r| |[] [x []] xs]; [done..| | | |];
    cbn [flatten_item]; rewrite elem_refs_app, elem_refs_flatten_more; done.
Qed.

(** A reference is accounted for: its rule exists, or is being parsed (below the
    bound [b]), or its name is in the table. *)
Definition known (st : llama_grammar_parser) (b r : Z) : Prop :=
  0 <= r /\ (r < zlen (rules st) \/ r < b \/ exists n, symbol_ids st !! n = Some r).

Definition ids_ok (st : llama_grammar_parser) : Prop :=
  forall n r, symbol_ids st !! n = Some r -> 0 <= r <= Z.of_nat (size (symbol_ids st)).

Definition rule_ok (st : llama_grammar_parser) (b : Z) (rule : llama_grammar_rule) : Prop :=
  rule = [] \/ (rule_wf rule /\ Forall (known st b) (elem_refs rule)).

Definition st_inv (st : llama_grammar_parser) (b : Z) : Prop :=
  ids_ok st /\ Forall (rule_ok st b) (rules st).

(** References stay accounted for. *)
Definition ext (b : Z) (st : llama_grammar_parser) (b' : Z) (st' : llama_grammar_parser) : Prop :=
  forall r, known st b r -> known st' b' r.

Lemma ext_refl b st : ext b st b st.
Proof. by intros r. Qed.

Lemma ext_trans b1 s1 b2 s2 b3 s3 : ext b1 s1 b2 s2 -> ext b2 s2 b3 s3 -> ext b1 s1 b3 s3.
Proof. intros H1 H2 r Hr. by apply H2, H1. Qed.

Lemma ext_bound b b' st : b <= b' -> ext b st b' st.
Proof. intros Hb r [H0 [H|[H|H]]]; split; auto. right. left. lia. Qed.

Lemma ext_refs b st b' st' l :
  ext b st b' st' -> Forall (known st b) l -> Forall (known st' b') l.
Proof. intros He H. eapply Forall_impl; [exact H|exact He]. Qed.

Lemma ext_rules b st b' st' l :
  ext b st b' st' -> Forall (rule_ok st b) l -> Forall (rule_ok st' b') l.
Proof.
  intros He H. eapply Forall_impl; [exact H|]. intros rule [->|[Hw Hr]]; [by left|right].
  split; [done|by eapply ext_refs].
Qed.

Lemma st_inv_ext b st b' st' :
  st_inv st b -> ext b st b' st' -> rules st' = rules st -> ids_ok st' -> st_inv st' b'.
Proof. intros [_ Hr] He Hrs Hi. split; [done|]. rewrite Hrs. by eapply ext_rules. Qed.

Lemma st_inv_bound b b' st : st_inv st b -> b <= b' -> st_inv st b'.
Proof.
  intros H Hb. eapply st_inv_ext; [exact H|by apply ext_bound|done|apply H].
Qed.

(** The two ways a parse can fail. *)
Definition parser_err (e : fault) : Prop := (exists msg, e = Throw msg) \/ e = UB.

Lemma parser_of_throw {A} (m : res A) (P Q : A -> Prop) :
  may_throw m P -> (forall a, P a -> Q a) -> post m Q parser_err.
Proof. intros H HQ. eapply post_mono; [exact H|exact HQ|]. intros e He. by left. Qed.

Lemma get_symbol_id_post st b name :
  st_inv st b ->
  let '(id, st') := get_symbol_id st name in
  st_inv st' b /\ ext b st b st' /\ known st' b id /\ symbol_ids st' !! name = Some id.
Proof.
  intros Hinv. pose proof Hinv as [Hids _]. unfold get_symbol_id.
  destruct (symbol_ids st !! name) as [id|] eqn:E.
  { splits; [done|apply ext_refl| |done]. split; [apply Hids in E; lia|right; right; eauto]. }
  set (n := Z.of_nat (size (symbol_ids st))).
  assert (He : ext b st b (mk_parser (<[name := n]> (symbol_ids st)) (rules st))).
  { intros r [H0 [H|[H|[k H]]]]; split; cbn; auto. right. right. exists k.
    rewrite lookup_insert_ne; [done|]. intros ->. congruence. }
  splits; [|done| |cbn; by rewrite lookup_insert_eq].
  - eapply st_inv_ext; [exact Hinv|exact He|done|]. intros k r. cbn.
    rewrite map_size_insert_None by done. rewrite lookup_insert_Some.
    intros [[_ <-]|[_ H]]; [subst n; lia|]. apply Hids in H. lia.
  - split; [subst n; lia|]. right. right. exists name. cbn. by rewrite lookup_insert_eq.
Qed.

Lemma generate_symbol_id_post st b name :
  st_inv st b ->
  let '(id, st') := generate_symbol_id st name in
  0 <= id /\ st_inv st' (b `max` (id + 1)) /\ ext b st (b `max` (id + 1)) st'.
Proof.
  intros Hinv. pose proof Hinv as [Hids _]. unfold generate_symbol_id.
  set (n := Z.of_nat (size (symbol_ids st))). set (k0 := generated_name name n).
  assert (He : ext b st (b `max` (n + 1)) (mk_parser (<[k0 := n]> (symbol_ids st)) (rules st))).
  { intros r [H0 [H|[H|[k H]]]]; split; cbn; auto.
    - right. left. lia.
    - destruct (decide (k = k0)) as [->|Hne].
      + apply Hids in H. right. left. subst n. lia.
      + right. right. exists k. by rewrite lookup_insert_ne by done. }
  splits; [subst n; lia| |done].
  eapply st_inv_ext; [exact Hinv|exact He|done|]. intros k r. cbn.
  rewrite lookup_insert_Some. rewrite map_size_insert.
  intros [[_ <-]|[_ H]]; [|apply Hids in H]; case_match; unfold id in *; subst n; lia.
Qed.

Lemma add_rule_post st b id rule :
  0 <= id -> st_inv st (b `max` (id + 1)) -> rule_wf rule ->
  Forall (known st (b `max` (id + 1))) (elem_refs rule) ->
  safe (add_rule st id rule) (fun st' =>
    st_inv st' b /\ ext (b `max` (id + 1)) st b st' /\ id < zlen (rules st') /\
    symbol_ids st' = symbol_ids st).
Proof.
  intros Hid Hinv Hwf Hrefs. unfold add_rule.
  set (rs := if zlen (rules st) <=? id then _ else _).
  assert (Hrs : zlen (rules st) <= zlen rs /\ id < zlen rs /\
    Forall (rule_ok st (b `max` (id + 1))) rs).
  { destruct Hinv as [_ Hr]. subst rs. destruct (Z.leb_spec (zlen (rules st)) id); [|by splits].
    unfold vresize, zlen in *. rewrite length_app, length_take, length_replicate.
    splits; [lia|lia|]. apply Forall_app. split; [by apply Forall_take|].
    apply Forall_replicate. by left. }
  destruct Hrs as (Hlen & Hlt & Hall).
  unfold vset. rewrite (proj2 (Z.leb_le 0 id) Hid), (proj2 (Z.ltb_lt _ _) Hlt). cbn.
  set (st' := mk_parser (symbol_ids st) (<[Z.to_nat id := rule]> rs)).
  assert (He : ext (b `max` (id + 1)) st b st').
  { intros r [H0 H]. split; [done|].
    assert (zlen (rules st') = zlen rs) as -> by apply zlen_insert.
    destruct H as [H|[H|H]]; [left; lia| |by auto].
    destruct (Z.lt_ge_cases r b); [by auto|left; lia]. }
  splits; [|done|by rewrite zlen_insert|done].
  split; [apply Hinv|]. cbn. apply Forall_insert; [by eapply ext_rules|].
  right. split; [done|by eapply ext_refs].
Qed.

(** * Repetitions *)

(** [rule] is [base] followed by whole items, and [last] is where a group of
    items at its end starts. *)
Definition shape (base rule : llama_grammar_rule) (last : nat) : Prop :=
  exists pre suf, rule = base ++ flatten_items (pre ++ suf) /\
                   last = length (base ++ flatten_items pre).

Lemma shape_app base rule last its :
  shape base rule last -> shape base (rule ++ flatten_items its) (length rule).
Proof.
  intros (pre & suf & -> & _). exists (pre ++ suf), its.
  rewrite (flatten_items_app (pre ++ suf)), app_assoc. done.
Qed.

(** The references of a rule under construction. *)
Definition refs_known (st : llama_grammar_parser) (b : Z) (rule : llama_grammar_rule) : Prop :=
  Forall (known st b) (elem_refs rule).

Lemma refs_known_app st b l k : refs_known st b (l ++ k) <-> refs_known st b l /\ refs_known st b k.
Proof. unfold refs_known. by rewrite elem_refs_app, Forall_app. Qed.

Lemma refs_known_items st b its :
  refs_known st b (flatten_items its) <-> Forall (fun it => Forall (known st b) (item_refs it)) its.
Proof. unfold refs_known. by rewrite elem_refs_items, Forall_concat, Forall_fmap. Qed.

Lemma rule_wf_optional its : rule_wf (flatten_items its ++ [elem_alt; elem_end]).
Proof.
  exists [its; []]. split; [done|]. unfold flatten_rule. cbn [flatten_alts].
  by rewrite <- app_assoc.
Qed.

Section repetitions.
Context (rule_name : bytes) (its : list item) (b : Z) (st0 : llama_grammar_parser).

Let prev_rule := flatten_items its.

(** The invariant of the loop that adds the optional rules. *)
Definition repetition_inv (i : Z) (s : llama_grammar_rule * Z * llama_grammar_parser) : Prop :=
  let '(rec_rule, last, st) := s in
  take (length prev_rule) rec_rule = prev_rule /\ st_inv st b /\ ext b st0 b st /\
  (0 < i -> known st b last).

Lemma repetition_step_post max_times i s :
  0 <= i -> refs_known st0 b prev_rule -> repetition_inv i s ->
  safe (repetition_step rule_name prev_rule max_times i s) (repetition_inv (i + 1)).
Proof.
  intros Hi Hrefs. destruct s as [[rec_rule last] st]. intros (Htake & Hinv & Hext & Hlast).
  unfold repetition_step.
  pose proof (generate_symbol_id_post st b rule_name Hinv) as Hgen.
  destruct (generate_symbol_id st rule_name) as [id st1]. destruct Hgen as (Hid & Hinv1 & Hext1).
  rewrite Htake. cbn zeta.
  set (ref := if (0 <? i) || (max_times <? 0) then
                [IRef (if max_times <? 0 then id else last)] else []).
  set (rr := if (0 <? i) || (max_times <? 0) then _ else _).
  assert (rr = flatten_items (its ++ ref)) as ->.
  { subst rr ref. rewrite flatten_items_app. destruct (_ || _); [done|]. by rewrite app_nil_r. }
  assert (Hknown : refs_known st1 (b `max` (id + 1)) (flatten_items (its ++ ref))).
  { rewrite flatten_items_app, refs_known_app. split.
    - eapply ext_refs; [|exact Hrefs]. by eapply ext_trans.
    - apply refs_known_items. subst ref.
      destruct (Z.ltb_spec 0 i), (Z.ltb_spec max_times 0); cbn [orb];
        [..|apply Forall_nil; exact I].
      all: rewrite Forall_singleton; cbn [item_refs]; rewrite Forall_singleton.
      all: first [ (split; [lia|right; left; lia]) | (apply Hext1, Hlast; lia) ]. }
  eapply post_bind; [apply (add_rule_post st1 b id); [done|done|apply rule_wf_optional|]|].
  { rewrite elem_refs_app. apply Forall_app. split; [exact Hknown|constructor]. }
  intros st2 (Hinv2 & Hext2 & Hlt & _). cbn. splits; [|done| |].
  - rewrite flatten_items_app, <- app_assoc. by apply take_app_length.
  - eapply ext_trans; [exact Hext|]. by eapply ext_trans.
  - intros _. split; [done|by left].
Qed.
End repetitions.

Lemma for_z_append base its last n :
  for_z 1 n (fun _ rule => Ok (rule ++ flatten_items its)) (base ++ flatten_items (last ++ its)) =
    Ok (base ++ flatten_items (last ++ its ++ concat (replicate (Z.to_nat (n - 1)) its))).
Proof.
  unfold for_z. generalize 1 at 2. generalize (Z.to_nat (n - 1)).
  intros k. generalize last. induction k as [|k IH]; intros pre i; cbn [for_n].
  - by rewrite app_nil_r.
  - cbn [mbind res_bind]. rewrite <- app_assoc, <- flatten_items_app.
    rewrite <- (app_assoc pre its its), (app_assoc pre its its).
    rewrite IH. cbn [replicate concat]. by rewrite <- !app_assoc.
Qed.

Lemma handle_repetitions_post rule_name base rule last st b min_times max_times :
  shape base rule last -> refs_known st b rule -> st_inv st b ->
  post (handle_repetitions rule_name last rule st min_times max_times)
    (fun r => shape base (fst r) last /\ refs_known (snd r) b (fst r) /\ st_inv (snd r) b /\ ext b st b (snd r)) parser_err.
Proof.
  intros (pre & its & -> & ->) Hrefs Hinv. unfold handle_repetitions.
  case_match; [left; eauto|].
  rewrite flatten_items_app, (app_assoc base).
  rewrite drop_app_length, take_app_length.
  pose proof Hrefs as Hr. rewrite flatten_items_app, app_assoc, !refs_known_app in Hr.
  destruct Hr as [[Hb0 Hpre] Hits].
  eapply post_bind with (P := fun rule' => exists k,
    rule' = base ++ flatten_items (pre ++ concat (replicate k its))).
  { destruct (min_times =? 0).
    - cbn. exists O. by rewrite app_nil_r.
    - rewrite <- app_assoc, <- flatten_items_app.
      rewrite (for_z_append base its pre min_times). cbn.
      by exists (S (Z.to_nat (min_times - 1))). }
  intros rule' (k & ->).
  eapply post_bind with (P := fun _ => True).
  { destruct (max_times <? 0); [done|]. unfold s32. case_match; [done|by right]. }
  intros n_opt _. cbn beta.
  eapply post_bind with (P := fun s => repetition_inv its b st (n_opt `max` 0) s).
  { destruct (Z.le_gt_cases 0 n_opt).
    - rewrite Z.max_l by done. eapply post_mono.
      + eapply for_z_post with (I := repetition_inv its b st) (E := fun _ => False); [done| |].
        * unfold repetition_inv; splits; [by apply firstn_all|done|apply ext_refl|lia].
        * intros j t Hj. apply repetition_step_post; [lia|done].
      + done.
      + intros ? [].
    - rewrite for_z_empty by lia. rewrite Z.max_r by lia. cbn [post].
      unfold repetition_inv; splits; [by apply firstn_all|done|apply ext_refl|lia]. }
  intros [[rr last] st'] (_ & Hinv' & Hext & Hlast). cbn.
  assert (Hk : refs_known st' b (base ++ flatten_items (pre ++ concat (replicate k its)))).
  { rewrite flatten_items_app, !refs_known_app.
    splits; [by eapply ext_refs|by eapply ext_refs|].
    apply refs_known_items, Forall_concat, Forall_replicate, refs_known_items.
    by eapply ext_refs. }
  destruct (Z.ltb_spec 0 n_opt).
  - splits; [|apply refs_known_app; split; [exact Hk|]|done|done].
    + exists pre, (concat (replicate k its) ++ [IRef last]).
      rewrite (app_assoc pre), (flatten_items_app (pre ++ _)), app_assoc. done.
    + apply Forall_singleton, Hlast. lia.
  - splits; [|exact Hk|done|done]. by eexists pre, _.
Qed.

(** * Sequences *)

Lemma while_class_post {S} (body : S -> res (step S S)) (pos : S -> bytes) (I : S -> Prop)
    (Q : S -> Prop) fuel s :
  I s -> (length (pos s) < fuel)%nat ->
  (forall t, I t -> Forall byte_ok (pos t) ->
     may_throw (body t) (fun r => match r with
       | Next t' => I t' /\ adv 1 (pos t) (pos t')
       | Done t' => Q t' /\ pos t' = pos t end)) ->
  Forall byte_ok (pos s) ->
  may_throw (while body fuel s) (fun r => Q r /\ adv 0 (pos s) (pos r)).
Proof.
  intros HI Hf Hb Hs.
  apply (while_post body (fun t => I t /\ adv 0 (pos s) (pos t)) (fun t => length (pos t)));
    [by split; [|apply adv_refl]|done|].
  intros t [Ht Ha]. eapply post_mono; [apply Hb; [done|by eapply adv_bytes]| |done].
  intros [t'|t'].
  - intros [HI' Ha']. splits; [done| |apply adv_length in Ha'; lia].
    eapply adv_weaken; [by eapply adv_trans|lia].
  - intros [HQ ->]. by split.
Qed.

(** The literal loop appends one character item per character. *)
Lemma literal_post pos rule fuel :
  Forall byte_ok pos -> (length pos < fuel)%nat ->
  may_throw (while literal_step fuel (pos, rule))
    (fun r => (c_cur (fst r) = 34 /\ exists its, snd r = rule ++ flatten_items its /\
       Forall (fun it => item_refs it = []) its) /\ adv 0 pos (fst r)).
Proof.
  intros Hs Hf.
  apply (while_class_post literal_step fst
    (fun t => exists its, snd t = rule ++ flatten_items its /\ Forall (fun it => item_refs it = []) its)
    _ fuel (pos, rule)); [by exists []; rewrite app_nil_r|done| |done].
  intros [p r] (its & Hr & Hits) Hp. cbn [fst snd] in *. cbn [literal_step].
  destruct (Z.eqb_spec (c_cur p) 34) as [E|E].
  { cbn. split; [split; [done|by exists its]|done]. }
  destruct (c_cur p =? 0); [cbn; eauto|].
  eapply post_bind; [by apply parse_char_post|]. intros [c p'] Ha. cbn. split; [|exact Ha].
  exists (its ++ [IClass false (c, None) []]). subst r.
  rewrite flatten_items_app, app_assoc. split; [done|]. apply Forall_app. split; [done|by constructor].
Qed.

(** What the bracket loop has added to [rule]: nothing, or one class. *)
Definition class_so_far (neg : bool) (rule rule' : llama_grammar_rule) : Prop :=
  rule' = rule \/ exists x xs, rule' = rule ++ flatten_item (IClass neg x xs).

Lemma class_add neg rule r c hi :
  class_so_far neg rule r ->
  class_so_far neg rule
    (r ++ flatten_range (if (length rule <? length r)%nat then LLAMA_GRETYPE_CHAR_ALT
                         else class_type neg) (c, hi)).
Proof.
  intros [->|(x & xs & ->)].
  - rewrite Nat.ltb_irrefl. right. exists (c, hi), []. cbn [flatten_item].
    unfold flatten_more. by rewrite app_nil_r.
  - destruct (Nat.ltb_spec (length rule) (length (rule ++ flatten_item (IClass neg x xs)))) as [_|H].
    2: { rewrite length_app in H. cbn in H. lia. }
    right. exists x, (xs ++ [(c, hi)]). cbn [flatten_item].
    unfold flatten_more. rewrite fmap_app, concat_app.
    replace (concat (flatten_range LLAMA_GRETYPE_CHAR_ALT <$> [(c, hi)]))
      with (flatten_range LLAMA_GRETYPE_CHAR_ALT (c, hi)) by (symmetry; apply app_nil_r).
    by rewrite <- !app_assoc.
Qed.

Lemma class_post neg pos rule fuel :
  Forall byte_ok pos -> (length pos < fuel)%nat ->
  may_throw (while (class_step (class_type neg) (length rule)) fuel (pos, rule))
    (fun r => (c_cur (fst r) = 93 /\ class_so_far neg rule (snd r)) /\ adv 0 pos (fst r)).
Proof.
  intros Hs Hf.
  apply (while_class_post (class_step (class_type neg) (length rule)) fst
    (fun t => class_so_far neg rule (snd t)) _ fuel (pos, rule)); [by left|done| |done].
  intros [p r] Hr Hp. cbn [fst snd] in *. cbn [class_step].
  destruct (Z.eqb_spec (c_cur p) 93) as [E|E]; [by cbn|].
  destruct (c_cur p =? 0); [cbn; eauto|].
  eapply post_bind; [by apply parse_char_post|]. intros [c p'] Ha. cbn [fst snd] in *. cbn zeta.
  destruct (Z.eqb_spec (c_at p' 0) 45) as [E45|]; cbn [andb].
  2: { cbn. split; [|done]. apply (class_add neg rule r c None Hr). }
  destruct (c_at p' 1 =? 93); cbn [negb].
  { cbn. split; [|done]. apply (class_add neg rule r c None Hr). }
  destruct (c_at p' 1 =? 0); [cbn; eauto|].
  assert (adv 1 p' (drop 1 p')) as Hd by (apply (adv_at p' 0); lia).
  eapply post_bind; [apply parse_char_post|].
  { eapply adv_bytes; [exact Hd|]. by eapply adv_bytes. }
  intros [d p2] Ha2. cbn [fst snd] in *. cbn. split.
  - rewrite <- app_assoc. apply (class_add neg rule r c (Some d) Hr).
  - eapply adv_weaken; [eapply adv_trans; [exact Ha|]; eapply adv_trans; [exact Hd|exact Ha2]|lia].
Qed.

Lemma class_items neg rule rule' :
  class_so_far neg rule rule' ->
  exists its, rule' = rule ++ flatten_items its /\ Forall (fun it => item_refs it = []) its.
Proof.
  intros [->|(x & xs & ->)].
  - exists []. by rewrite app_nil_r.
  - exists [IClass neg x xs]. split; [|by constructor].
    f_equal. symmetry. apply app_nil_r.
Qed.

Section sequence_proofs.
Context (PA : llama_grammar_parser -> bytes -> bytes -> Z -> bool ->
              res (bytes * llama_grammar_parser)) (bound : nat).

(** What the parser of a nested group guarantees for texts shorter than
    [bound]. *)
Definition alternates_spec : Prop :=
  forall st src name id nested b,
    (length src < bound)%nat -> Forall byte_ok src -> 0 <= id -> st_inv st (b `max` (id + 1)) ->
    post (PA st src name id nested)
      (fun r => adv 0 src (fst r) /\ st_inv (snd r) b /\
                ext (b `max` (id + 1)) st b (snd r) /\ id < zlen (rules (snd r))) parser_err.

Context (b : Z) (src : bytes) (base : llama_grammar_rule) (st0 : llama_grammar_parser).

(** The invariant of the loop of [parse_sequence]. *)
Definition sequence_inv (s : sequence_state) : Prop :=
  adv 0 src (seq_pos s) /\ shape base (seq_rule s) (seq_last s) /\
  refs_known (seq_st s) b (seq_rule s) /\ st_inv (seq_st s) b /\ ext b st0 b (seq_st s).

(** Appending items whose references are known. *)
Lemma sequence_inv_push pos' its s st' :
  sequence_inv s -> adv 1 (seq_pos s) pos' ->
  st_inv st' b -> ext b (seq_st s) b st' -> refs_known st' b (flatten_items its) ->
  sequence_inv (mk_seq pos' (length (seq_rule s)) (seq_rule s ++ flatten_items its) st') /\
  (length pos' < length (seq_pos s))%nat.
Proof.
  intros (Ha & Hsh & Hr & Hi & He) Hadv Hi' He' Hits. split.
  - unfold sequence_inv; cbn [seq_pos seq_rule seq_last seq_st]; splits.
    + eapply adv_weaken; [by eapply adv_trans|lia].
    + by eapply shape_app.
    + apply refs_known_app. split; [by eapply ext_refs|done].
    + done.
    + by eapply ext_trans.
  - apply adv_length in Hadv. lia.
Qed.

Lemma no_refs_known st its :
  Forall (fun it => item_refs it = []) its -> refs_known st b (flatten_items its).
Proof.
  intros H. apply refs_known_items. eapply Forall_impl; [exact H|]. by intros it ->.
Qed.

Lemma sequence_inv_repeat s pos' rule_name min_times max_times :
  sequence_inv s -> adv 1 (seq_pos s) pos' ->
  post (r ← handle_repetitions rule_name (seq_last s) (seq_rule s) (seq_st s) min_times max_times;
        Ok (@Next _ sequence_state (mk_seq pos' (seq_last s) (fst r) (snd r))))
    (fun r => match r with
       | Next t => sequence_inv t /\ (length (seq_pos t) < length (seq_pos s))%nat
       | Done t => sequence_inv t end) parser_err.
Proof.
  intros (Ha & Hsh & Hr & Hi & He) Hadv.
  eapply post_bind; [by eapply handle_repetitions_post|].
  intros [rule' st'] (Hsh' & Hr' & Hi' & He'). cbn [fst snd] in *. cbn. split.
  - unfold sequence_inv; cbn [seq_pos seq_rule seq_last seq_st]; splits; [|done|done|done|].
    + eapply adv_weaken; [by eapply adv_trans|lia].
    + by eapply ext_trans.
  - apply adv_length in Hadv. lia.
Qed.

Lemma parse_bounds_post pos nested :
  may_throw (parse_bounds pos nested) (fun r => adv 0 pos (snd r)).
Proof.
  unfold parse_bounds. case_match; [cbn; eauto|].
  eapply post_bind; [apply parse_int_post|]. intros int_end Hadv1.
  assert (Hst : forall x P, (forall n, P n) -> may_throw (stoul x) P).
  { intros x P HP. unfold stoul. case_match; cbn; eauto. }
  eapply post_bind; [by apply (Hst _ (fun _ => True))|]. intros n _. cbn zeta.
  assert (Hadv2 : adv 0 pos (parse_space int_end nested)).
  { apply parse_space_adv. eapply adv_weaken; [exact Hadv1|lia]. }
  revert Hadv2. generalize (parse_space int_end nested). intros p Hadv2.
  assert (Hnext : forall q, adv 0 pos q -> adv 0 pos (parse_space (drop 1 q) nested)).
  { intros q Hq. apply parse_space_adv. eapply adv_weaken; [eapply adv_trans; [exact Hq|apply adv_drop_0]|lia]. }
  case_match; [cbn; by apply Hnext|].
  case_match; [|cbn; eauto].
  eapply post_bind with (P := fun r => adv 0 pos (snd r)).
  - case_match; [|cbn; by apply Hnext].
    eapply post_bind; [apply parse_int_post|]. intros e2 Hadv3.
    eapply post_bind; [by apply (Hst _ (fun _ => True))|]. intros n2 _. cbn.
    apply parse_space_adv. eapply adv_weaken; [eapply adv_trans; [by apply Hnext|exact Hadv3]|lia].
  - intros [mx q] Hq. cbn [snd] in Hq. case_match; [cbn; eauto|]. cbn. by apply Hnext.
Qed.

(** The guarantee of one iteration. *)
Definition step_ok (s : sequence_state) (r : step sequence_state sequence_state) : Prop :=
  match r with
  | Next t => sequence_inv t /\ (length (seq_pos t) < length (seq_pos s))%nat
  | Done t => sequence_inv t
  end.

Lemma step_push pos' its s st' :
  sequence_inv s -> adv 1 (seq_pos s) pos' ->
  st_inv st' b -> ext b (seq_st s) b st' -> refs_known st' b (flatten_items its) ->
  step_ok s (Next (mk_seq pos' (length (seq_rule s)) (seq_rule s ++ flatten_items its) st')).
Proof. apply sequence_inv_push. Qed.

Lemma step_literal s nested :
  sequence_inv s -> Forall byte_ok (seq_pos s) -> c_cur (seq_pos s) <> 0 ->
  post (r ← while literal_step (S (length (seq_pos s))) (drop 1 (seq_pos s), seq_rule s);
        let '(pos, rule') := r in
        Ok (Next (mk_seq (parse_space (drop 1 pos) nested) (length (seq_rule s)) rule' (seq_st s))))
    (step_ok s) parser_err.
Proof.
  intros Hs Hb Hc. pose proof (adv_cur _ Hc) as Hd. pose proof Hs as (_ & _ & _ & Hi & _).
  eapply post_bind.
  { eapply parser_of_throw; [|intros r Hr; exact Hr].
    apply literal_post; [by eapply adv_bytes|]. apply adv_length in Hd. lia. }
  intros [p r'] [[E (its & Er & Hits)] Ha]. cbn [fst snd] in *. cbn [post]. subst r'.
  apply step_push; [done| |done|apply ext_refl|by apply no_refs_known].
  apply parse_space_adv. eapply adv_weaken; [eapply adv_trans; [exact Hd|eapply adv_trans; [exact Ha|apply adv_drop_0]]|lia].
Qed.

Lemma step_class s pos neg nested :
  sequence_inv s -> adv 1 (seq_pos s) pos -> Forall byte_ok (seq_pos s) ->
  post (r ← while (class_step (class_type neg) (length (seq_rule s))) (S (length pos)) (pos, seq_rule s);
        let '(pos, rule') := r in
        Ok (Next (mk_seq (parse_space (drop 1 pos) nested) (length (seq_rule s)) rule' (seq_st s))))
    (step_ok s) parser_err.
Proof.
  intros Hs Hd Hb. pose proof Hs as (_ & _ & _ & Hi & _).
  eapply post_bind.
  { eapply parser_of_throw; [|intros r Hr; exact Hr].
    apply class_post; [by eapply adv_bytes|lia]. }
  intros [p r'] [[E Hcls] Ha]. cbn [fst snd] in *. cbn [post].
  apply class_items in Hcls as (its & -> & Hits).
  apply step_push; [done| |done|apply ext_refl|by apply no_refs_known].
  apply parse_space_adv. eapply adv_weaken; [eapply adv_trans; [exact Hd|eapply adv_trans; [exact Ha|apply adv_drop_0]]|lia].
Qed.

Lemma step_name s nested :
  sequence_inv s ->
  post (name_end ← parse_name (seq_pos s);
        let '(ref_rule_id, st) := get_symbol_id (seq_st s) (between (seq_pos s) name_end) in
        Ok (Next (mk_seq (parse_space name_end nested) (length (seq_rule s))
                    (seq_rule s ++ [mk_elem LLAMA_GRETYPE_RULE_REF ref_rule_id]) st)))
    (step_ok s) parser_err.
Proof.
  intros Hs. pose proof Hs as (_ & _ & _ & Hi & _).
  eapply post_bind; [eapply parser_of_throw; [apply parse_name_post|intros r Hr; exact Hr]|].
  intros e He. cbn beta in He.
  pose proof (get_symbol_id_post _ b (between (seq_pos s) e) Hi) as Hg.
  destruct (get_symbol_id _ _) as [id st']. destruct Hg as (Hi' & Hext & Hk & _). cbn [post].
  apply (step_push _ [IRef id]); [done|by apply parse_space_adv|done|done|].
  by apply Forall_singleton.
Qed.

Lemma step_group s name nested :
  alternates_spec -> sequence_inv s -> c_cur (seq_pos s) <> 0 ->
  (length (seq_pos s) <= bound)%nat -> Forall byte_ok (seq_pos s) ->
  post (let pos := parse_space (drop 1 (seq_pos s)) true in
        let '(sub_rule_id, st) := generate_symbol_id (seq_st s) name in
        r ← PA st pos name sub_rule_id true;
        let '(pos, st) := r in
        if negb (c_cur pos =? 41) then throw "expecting ')'"
        else
          Ok (Next (mk_seq (parse_space (drop 1 pos) nested) (length (seq_rule s))
                      (seq_rule s ++ [mk_elem LLAMA_GRETYPE_RULE_REF sub_rule_id]) st)))
    (step_ok s) parser_err.
Proof.
  intros HPA Hs Hc Hlen Hb. pose proof Hs as (_ & _ & _ & Hi & _). cbn zeta.
  assert (Hd : adv 1 (seq_pos s) (parse_space (drop 1 (seq_pos s)) true))
    by (apply parse_space_adv, adv_cur, Hc).
  pose proof (generate_symbol_id_post _ b name Hi) as Hg.
  destruct (generate_symbol_id _ _) as [id st1]. destruct Hg as (Hid & Hi1 & He1).
  eapply post_bind.
  { apply HPA; [apply adv_length in Hd; lia|by eapply adv_bytes|done|exact Hi1]. }
  intros [p st2] (Ha & Hi2 & He2 & Hlt). cbn [fst snd] in *.
  case_match; [left; eauto|]. cbn [post].
  apply (step_push _ [IRef id]); [done| |done|by eapply ext_trans|].
  - apply parse_space_adv. eapply adv_weaken; [eapply adv_trans; [exact Hd|eapply adv_trans; [exact Ha|apply adv_drop_0]]|lia].
  - apply Forall_singleton. split; [done|by left].
Qed.

Lemma sequence_step_post s name nested :
  alternates_spec -> sequence_inv s -> (length src <= bound)%nat -> Forall byte_ok src ->
  post (sequence_step PA name nested s) (step_ok s) parser_err.
Proof.
  intros HPA Hs Hlen Hsrc. pose proof Hs as (Ha & _ & _ & Hi & _).
  assert (Hb : Forall byte_ok (seq_pos s)) by by eapply adv_bytes.
  assert (Hl : (length (seq_pos s) <= bound)%nat) by (apply adv_length in Ha; lia).
  unfold sequence_step. destruct s as [pos last rule st]. cbn [seq_pos] in *. cbn zeta.
  destruct (Z.eqb_spec (c_cur pos) 0) as [E0|E0]; [exact Hs|].
  assert (Hskip : adv 1 pos (parse_space (drop 1 pos) nested)) by (by apply parse_space_adv, adv_cur).
  case_match; [apply (step_literal (mk_seq pos last rule st)); [done|done|by apply E0]|].
  case_match.
  { destruct (c_cur (drop 1 pos) =? 94) eqn:E94.
    - apply (step_class (mk_seq pos last rule st) (drop 1 (drop 1 pos)) true); [done| |done].
      eapply adv_weaken; [eapply adv_trans; [by apply adv_cur|apply adv_drop_0]|lia].
    - apply (step_class (mk_seq pos last rule st) (drop 1 pos) false); [done|by apply adv_cur|done]. }
  case_match; [by apply (step_name (mk_seq pos last rule st))|].
  case_match; [by apply (step_group (mk_seq pos last rule st))|].
  case_match.
  { cbn [post]. apply (step_push _ [IAny] (mk_seq pos last rule st)); [done|done|done|apply ext_refl|].
    constructor. }
  case_match; [by apply (sequence_inv_repeat (mk_seq pos last rule st))|].
  case_match; [by apply (sequence_inv_repeat (mk_seq pos last rule st))|].
  case_match; [by apply (sequence_inv_repeat (mk_seq pos last rule st))|].
  case_match; [|exact Hs].
  eapply post_bind; [eapply parser_of_throw; [apply parse_bounds_post|intros r Hr; exact Hr]|].
  intros [[mn mx] p] Hp. cbn [snd] in Hp.
  apply (sequence_inv_repeat (mk_seq pos last rule st)); [done|].
  eapply adv_weaken; [eapply adv_trans; [exact Hskip|exact Hp]|lia].
Qed.
End sequence_proofs.

(** A parsed sequence: the rule is the given prefix and whole items. *)
Lemma parse_sequence_post PA bound st src name base nested b :
  alternates_spec PA bound -> (length src <= bound)%nat -> Forall byte_ok src ->
  st_inv st b -> refs_known st b base ->
  post (parse_sequence PA st src name base nested)
    (fun r => let '(pos, rule, st') := r in
       adv 0 src pos /\ (exists its, rule = base ++ flatten_items its) /\
       refs_known st' b rule /\ st_inv st' b /\ ext b st b st') parser_err.
Proof.
  intros HPA Hlen Hsrc Hinv Hrefs. unfold parse_sequence.
  eapply post_bind.
  { apply (while_post _ (sequence_inv b src base st) (fun s => length (seq_pos s))).
    - split; [apply adv_refl|]. splits; [|done|done|apply ext_refl].
      exists [], []. split; cbn; by rewrite app_nil_r.
    - cbn. lia.
    - intros t Ht. eapply sequence_step_post; done. }
  intros [pos last rule st'] (Ha & (pre & suf & -> & _) & Hr & Hi & He). cbn.
  splits; [done|by eexists|done|done|done].
Qed.

(** The rule built by the alternatives seen so far. *)
Definition alternates_inv (b : Z) (src : bytes) (st0 : llama_grammar_parser)
    (s : bytes * llama_grammar_rule * llama_grammar_parser) : Prop :=
  let '(pos, rule, st) := s in
  adv 0 src pos /\ (exists alts, alts <> [] /\ rule = flatten_alts alts) /\
  refs_known st b rule /\ st_inv st b /\ ext b st0 b st.

Lemma alternates_step_post PA bound name nested b src st0 s :
  alternates_spec PA bound -> (length src <= bound)%nat -> Forall byte_ok src ->
  alternates_inv b src st0 s ->
  post (alternates_step PA name nested s)
    (fun r => match r with
       | Next t => alternates_inv b src st0 t /\ (length (fst (fst t)) < length (fst (fst s)))%nat
       | Done t => alternates_inv b src st0 t end) parser_err.
Proof.
  intros HPA Hlen Hsrc. destruct s as [[pos rule] st]. intros Hs.
  pose proof Hs as (Ha & (alts & Hne & ->) & Hr & Hi & He). unfold alternates_step.
  destruct (Z.eqb_spec (c_cur pos) 124) as [E|E]; [|exact Hs].
  assert (Hd : adv 1 pos (parse_space (drop 1 pos) true)) by (apply parse_space_adv, adv_cur; lia).
  cbn zeta. eapply post_bind.
  { apply (parse_sequence_post PA bound _ _ _ _ _ b); [done| | |done|].
    - apply adv_length in Hd, Ha. lia.
    - eapply adv_bytes; [exact Hd|]. by eapply adv_bytes.
    - apply refs_known_app. split; [done|constructor]. }
  intros [[pos' rule'] st'] (Ha' & (its & ->) & Hr' & Hi' & He'). cbn. split.
  - splits; [|exists (alts ++ [its]); split|done|done|by eapply ext_trans].
    + eapply adv_weaken; [eapply adv_trans; [exact Ha|eapply adv_trans; [exact Hd|exact Ha']]|lia].
    + by destruct alts.
    + rewrite flatten_alts_snoc by done. by rewrite <- app_assoc.
  - apply adv_length in Hd, Ha'. lia.
Qed.

Lemma parse_alternates_spec fuel : alternates_spec (parse_alternates fuel) fuel.
Proof.
  induction fuel as [|fuel IH]; intros st src name id nested b Hlen Hsrc Hid Hinv; [lia|].
  cbn [parse_alternates]. set (b' := b `max` (id + 1)) in *.
  eapply post_bind.
  { apply (parse_sequence_post _ fuel _ _ _ _ _ b'); [exact IH|lia|done|done|constructor]. }
  intros [[pos rule] st1] (Ha & (its & ->) & Hr & Hi & He).
  eapply post_bind with (P := alternates_inv b' src st).
  { apply (while_post _ (alternates_inv b' src st) (fun s => length (fst (fst s)))).
    - unfold alternates_inv; splits; [done|by exists [its]|done|done|done].
    - cbn. apply adv_length in Ha. lia.
    - intros t Ht. apply (alternates_step_post _ fuel); [exact IH|lia|done|done]. }
  intros [[pos' rule'] st2] (Ha' & (alts & Hne & ->) & Hr' & Hi' & He').
  eapply post_bind.
  { eapply post_mono; [apply (add_rule_post st2 b id)|intros r H; exact H|intros ? []].
    - done.
    - exact Hi'.
    - by exists alts.
    - unfold refs_known in Hr'. rewrite elem_refs_app. apply Forall_app. split; [done|constructor]. }
  intros st3 (Hi3 & He3 & Hlt & _). cbn. splits; [done|done|by eapply ext_trans|done].
Qed.

(** * Whole grammars *)

Lemma parse_rule_post st src :
  Forall byte_ok src -> st_inv st 0 ->
  post (parse_rule st src) (fun r => adv 1 src (fst r) /\ st_inv (snd r) 0) parser_err.
Proof.
  intros Hsrc Hinv. unfold parse_rule.
  eapply post_bind; [eapply parser_of_throw; [apply parse_name_post|intros r Hr; exact Hr]|].
  intros e He. cbn beta in He. cbn zeta.
  pose proof (get_symbol_id_post st 0 (between src e) Hinv) as Hg.
  destruct (get_symbol_id _ _) as [id st1]. destruct Hg as (Hi1 & _ & [Hid _] & _).
  case_match; [left; eauto|].
  assert (Hp : adv 1 src (parse_space (drop 3 (parse_space e false)) true)).
  { apply parse_space_adv. eapply adv_weaken; [eapply adv_trans; [by apply parse_space_adv|apply adv_drop_0]|lia]. }
  revert Hp. generalize (parse_space (drop 3 (parse_space e false)) true). intros p Hp.
  eapply post_bind.
  { apply (parse_alternates_spec _ _ _ _ _ _ 0); [lia|by eapply adv_bytes|done|].
    eapply st_inv_bound; [exact Hi1|lia]. }
  intros [p' st2] (Ha & Hi2 & _ & _). cbn [fst snd] in *.
  assert (Hpp : adv 1 src p') by (eapply adv_weaken; [by eapply adv_trans|lia]).
  assert (Hdrop : forall n, adv 1 src (drop n p')).
  { intros n. eapply adv_weaken; [eapply adv_trans; [exact Hpp|apply adv_drop_0]|lia]. }
  eapply post_bind with (P := adv 1 src).
  { repeat case_match; cbn; auto. left. eauto. }
  intros q Hq. cbn. split; [by apply parse_space_adv|done].
Qed.

Lemma elem_of_elem_refs r l : r ∈ elem_refs l <-> mk_elem LLAMA_GRETYPE_RULE_REF r ∈ l.
Proof.
  induction l as [|e l IH]; [by set_solver|].
  change (e :: l) with ([e] ++ l). rewrite elem_refs_app, !elem_of_app, IH, list_elem_of_singleton.
  destruct e as [t v].
  assert (r ∈ elem_refs [mk_elem t v] <-> mk_elem LLAMA_GRETYPE_RULE_REF r = mk_elem t v) as ->; [|done].
  unfold elem_refs. rewrite fmap_cons. cbn.
  destruct t; cbn; set_solver.
Qed.

Lemma elem_refs_alts alts r :
  r ∈ elem_refs (flatten_alts alts) <-> exists its it, its ∈ alts /\ it ∈ its /\ r ∈ item_refs it.
Proof.
  assert (Hits : forall its, r ∈ elem_refs (flatten_items its) <-> exists it, it ∈ its /\ r ∈ item_refs it).
  { intros its. rewrite elem_refs_items, elem_of_concat. split.
    - intros (l & Hl & (it & -> & Hit)%list_elem_of_fmap). eauto.
    - intros (it & Hit & Hl). exists (item_refs it). split; [done|]. by apply list_elem_of_fmap_2. }
  induction alts as [|its [|a alts] IH].
  - cbn. set_solver.
  - cbn [flatten_alts]. rewrite Hits. split.
    + intros (it & Hit & Hl). exists its, it. split; [by left|done].
    + intros (its' & it & Hs & H). apply list_elem_of_singleton in Hs as ->. eauto.
  - rewrite flatten_alts_cons by done. rewrite elem_refs_app.
    change (elem_refs (elem_alt :: flatten_alts (a :: alts))) with (elem_refs (flatten_alts (a :: alts))).
    rewrite elem_of_app, Hits, IH. split.
    + intros [(it & Hit & Hl)|(its' & it & Hin & H)]; [exists its, it|exists its', it];
        (split; [by constructor|done]).
    + intros (its' & it & [->|Hin]%elem_of_cons & H); [left; eauto|right; eauto].
Qed.

(** What the validation of one element establishes. *)
Lemma validate_elem_in_range st b r :
  validate_elem st (mk_elem LLAMA_GRETYPE_RULE_REF r) = true -> known st b r -> b <= 0 ->
  0 <= r < zlen (rules st).
Proof.
  unfold validate_elem. cbn. intros Hv [H0 [H|[H|[n Hn]]]] Hb; [lia|lia|].
  split; [done|]. destruct (Z.lt_ge_cases r (zlen (rules st))); [done|]. exfalso.
  assert (zlookup (rules st) r = None) as E.
  { destruct (zlookup (rules st) r) eqn:E; [|done]. apply zlookup_Some_lt in E. lia. }
  rewrite E in Hv. apply negb_true_iff in Hv. cbn in Hv.
  rewrite <- not_true_iff_false in Hv. apply Hv, existsb_exists. exists (n, r). split.
  - by apply list_elem_of_In, elem_of_map_to_list.
  - cbn. apply Z.eqb_refl.
Qed.

Lemma validate_rules_post st :
  st_inv st 0 ->
  may_throw (validate_rules st) (fun _ =>
    exists G, encodes G (rules st) /\ closed_grammar G).
Proof.
  intros [_ Hr]. unfold validate_rules.
  set (f := fun rule : llama_grammar_rule => _).
  destruct (mapM f (rules st)) as [us|e] eqn:E; cbn.
  2: { apply mapM_err in E as (rule & _ & E). subst f. cbn beta in E.
       repeat case_match; inversion E; eauto. }
  apply mapM_ok in E.
  assert (Hne : Forall (fun rule => rule <> [] /\ forallb (validate_elem st) rule = true) (rules st)).
  { clear Hr. induction E as [|rule u l k Hf _ IH]; constructor; [|done]. subst f.
    destruct rule; [discriminate Hf|]. cbn beta iota in Hf.
    destruct (forallb _ _); [done|discriminate Hf]. }
  assert (Hwf : Forall (fun rule => exists alts, (alts <> [] /\ rule = flatten_rule alts) /\
      Forall (closed_items (zlen (rules st))) alts) (rules st)).
  { rewrite Forall_forall in Hr, Hne |- *. intros rule Hin.
    destruct (Hr _ Hin) as [->|[(alts & Hn & ->) Hk]], (Hne _ Hin) as [Hn' Hv]; [done|].
    exists alts. split; [done|]. apply Forall_forall. intros its Hits. apply Forall_forall.
    intros it Hit. apply Forall_forall. intros r Hrr.
    assert (r ∈ elem_refs (flatten_rule alts)) as Hrin.
    { unfold flatten_rule. rewrite elem_refs_app, elem_of_app. left. apply elem_refs_alts. eauto. }
    apply (validate_elem_in_range st 0); [|by eapply Forall_forall in Hk|done].
    rewrite forallb_forall in Hv. by apply Hv, list_elem_of_In, elem_of_elem_refs. }
  apply Forall_choose in Hwf as (G & HG). exists G. split.
  - eapply Forall2_impl; [exact HG|]. by intros ? ? [? _].
  - unfold closed_grammar. replace (zlen G) with (zlen (rules st))
      by (unfold zlen; by rewrite (Forall2_length _ _ _ HG)).
    revert HG. generalize (zlen (rules st)). intros n HG. clear -HG.
    induction HG as [|? ? ? ? [_ Hc] _ IH]; by constructor.
Qed.

(** * What a repetition means *)

(** Words made of at least [lo] and at most [hi] words of [P]; a negative [hi]
    is no upper bound. *)
Definition repeated (P : list Z -> Prop) (lo hi : Z) (w : list Z) : Prop :=
  exists ws, w = concat ws /\ Forall P ws /\ lo <= zlen ws /\ (hi < 0 \/ zlen ws <= hi).

(** No symbol has a name that [generate_symbol_id] is going to use. *)
Definition fresh_names (base_name : bytes) (st : llama_grammar_parser) : Prop :=
  forall k, Z.of_nat (size (symbol_ids st)) <= k ->
    symbol_ids st !! generated_name base_name k = None.

Lemma generated_name_inj base_name j k :
  generated_name base_name j = generated_name base_name k -> j = k.
Proof.
  unfold generated_name. intros H. apply app_inv_head in H. injection H as H.
  assert (Hstr : forall s t : string, str s = str t -> s = t).
  { intros s t E. rewrite <- (String.string_of_list_ascii_of_string s),
      <- (String.string_of_list_ascii_of_string t). f_equal. revert E. unfold str.
    generalize (String.list_ascii_of_string t). induction (String.list_ascii_of_string s) as [|a l IH];
      intros [|b k'] E; try discriminate E; [done|].
    injection E as Ea E. f_equal; [|by apply IH].
    rewrite <- (Ascii.ascii_N_embedding a), <- (Ascii.ascii_N_embedding b). f_equal. lia. }
  apply Hstr in H. by apply pretty_Z_inj in H.
Qed.

Lemma generate_fresh base_name st :
  fresh_names base_name st ->
  let '(id, st') := generate_symbol_id st base_name in
  id = Z.of_nat (size (symbol_ids st)) /\
  Z.of_nat (size (symbol_ids st')) = id + 1 /\ rules st' = rules st /\ fresh_names base_name st'.
Proof.
  intros Hf. unfold generate_symbol_id. set (n := Z.of_nat (size (symbol_ids st))).
  assert (Hsz : Z.of_nat (size (<[generated_name base_name n := n]> (symbol_ids st))) = n + 1).
  { rewrite map_size_insert_None by (apply Hf; lia). subst n. lia. }
  splits; [done|exact Hsz|done|]. intros k. cbn [symbol_ids]. rewrite Hsz. intros Hk.
  rewrite lookup_insert_ne; [apply Hf; lia|]. intros E%generated_name_inj. lia.
Qed.

Lemma add_rule_lookup st id rule st' :
  add_rule st id rule = Ok st' ->
  symbol_ids st' = symbol_ids st /\ zlookup (rules st') id = Some rule /\
  (forall r x, r <> id -> zlookup (rules st) r = Some x -> zlookup (rules st') r = Some x).
Proof.
  unfold add_rule. set (rs := if zlen (rules st) <=? id then _ else _).
  intros (rs' & [Hid ->]%vset_ok & H)%res_bind_ok. injection H as <-. splits; [done| |].
  - unfold zlookup. cbn [rules]. destruct (Z.leb_spec 0 id); [|lia].
    apply list_lookup_insert_eq. unfold zlen in Hid. lia.
  - intros r x Hr Hx. unfold zlookup in *. cbn [rules].
    destruct (Z.leb_spec 0 r); [|done]. rewrite list_lookup_insert_ne by lia.
    subst rs. destruct (Z.leb_spec (zlen (rules st)) id); [|done]. unfold vresize.
    pose proof (lookup_lt_Some _ _ _ Hx) as Hlt.
    rewrite lookup_app_l by (rewrite length_take; unfold zlen in *; lia).
    rewrite lookup_take_lt by (unfold zlen in *; lia). done.
Qed.

(** The alternatives of the [j]-th optional rule after [first]: the repeated
    items, followed by the previous optional rule, or nothing. *)
Definition optional_alts (its : list item) (first : Z) (recursive : bool) (r : Z) : list (list item) :=
  [its ++ (if recursive then [IRef r] else if first <? r then [IRef (r - 1)] else []); []].

Section repetition_language.
Context (rule_name : bytes) (its : list item) (st0 : llama_grammar_parser) (hi : Z).

Let first := Z.of_nat (size (symbol_ids st0)).
Let prev_rule := flatten_items its.

Definition optional_inv (i : Z) (s : llama_grammar_rule * Z * llama_grammar_parser) : Prop :=
  let '(rec_rule, last, st) := s in
  take (length prev_rule) rec_rule = prev_rule /\ fresh_names rule_name st /\
  Z.of_nat (size (symbol_ids st)) = first + i /\ (0 < i -> last = first + i - 1) /\
  (forall r, first <= r < first + i ->
     zlookup (rules st) r = Some (flatten_rule (optional_alts its first (hi <? 0) r))).

Lemma optional_step i s s' :
  0 <= i -> optional_inv i s ->
  repetition_step rule_name prev_rule hi i s = Ok s' -> optional_inv (i + 1) s'.
Proof.
  intros Hi. destruct s as [[rec_rule last] st]. intros (Htake & Hf & Hsz & Hlast & Hrules).
  unfold repetition_step. pose proof (generate_fresh rule_name st Hf) as Hg.
  destruct (generate_symbol_id st rule_name) as [id st1].
  destruct Hg as (Hid & Hsz1 & Hrs1 & Hf1). rewrite Htake. cbn zeta.
  intros (st2 & Hadd & H)%res_bind_ok. injection H as <-. match type of Hadd with add_rule _ _ ?x = _ => set (rr := x) in * end.
  assert (Err : rr = flatten_rule (optional_alts its first (hi <? 0) id)).
  { subst rr. unfold optional_alts, flatten_rule. cbn [flatten_alts]. rewrite flatten_items_app.
    assert (id = first + i) as -> by lia.
    destruct (Z.ltb_spec 0 i), (Z.ltb_spec hi 0), (Z.ltb_spec first (first + i));
      cbn [orb]; try lia; rewrite <- ?app_assoc; try done.
    - by rewrite Hlast. }
  apply add_rule_lookup in Hadd as (Hsy & Hnew & Hold).
  unfold optional_inv. splits.
  - rewrite Err. unfold flatten_rule, optional_alts. cbn [flatten_alts].
    rewrite flatten_items_app, <- !app_assoc. apply take_app_length.
  - intros k. rewrite Hsy. apply Hf1.
  - rewrite Hsy. lia.
  - lia.
  - intros r Hr. destruct (decide (r = id)) as [->|Hne]; [by rewrite Hnew, Err|].
    apply Hold; [done|]. rewrite Hrs1. apply Hrules. lia.
Qed.
End repetition_language.

Lemma elem_of_two {A} (x a b : A) : x ∈ [a; b] <-> x = a \/ x = b.
Proof. set_solver. Qed.

(** The unbounded rule generates any number of repetitions. *)
Lemma gen_star G its r :
  zlookup G r = Some [its ++ [IRef r]; []] ->
  forall w, gen G [IRef r] w <-> repeated (gen G its) 0 (-1) w.
Proof.
  intros HG w. split.
  - assert (Hgen : forall l v, gen G l v -> forall l', l = l' ++ [IRef r] ->
      exists u ws, v = u ++ concat ws /\ gen G l' u /\ Forall (gen G its) ws).
    { induction 1 as [|it l c v Hr Hc Hg IH|r' alts alt l v Hl Hin Hg IH]; intros l' E.
      - by destruct l'.
      - destruct l' as [|it' l']; injection E as -> ->; [discriminate Hr|].
        destruct (IH l' eq_refl) as (u & ws & -> & Hu & Hws).
        exists (c :: u), ws. splits; [done|by constructor|done].
      - destruct l' as [|it' l']; [injection E as -> ->|injection E as <- ->].
        + rewrite HG in Hl. injection Hl as <-. rewrite app_nil_r in *.
          apply elem_of_two in Hin as [->| ->].
          * destruct (IH its eq_refl) as (u & ws & -> & Hu & Hws).
            exists [], (u :: ws). splits; [done|constructor|by constructor].
          * inversion Hg. exists [], []. splits; [done|constructor|constructor].
        + destruct (IH (alt ++ l')) as (u & ws & -> & Hu & Hws); [by rewrite app_assoc|].
          exists u, ws. splits; [done|by econstructor|done]. }
    intros H. destruct (Hgen _ _ H [] eq_refl) as (u & ws & -> & Hu & Hws).
    inversion Hu; subst. exists ws. splits; [done|done|apply zlen_nonneg|left; lia].
  - intros (ws & -> & Hws & _). induction Hws as [|v ws Hv _ IH].
    + eapply gen_ref; [exact HG|by right; left|]. constructor.
    + eapply gen_ref; [exact HG|by left|]. rewrite app_nil_r. apply gen_app_inv. by exists v, (concat ws).
Qed.

(** The chain of optional rules generates up to its length. *)
Lemma gen_optional_chain G its first k :
  (forall r, first <= r <= first + Z.of_nat k -> zlookup G r = Some (optional_alts its first false r)) ->
  forall w, gen G [IRef (first + Z.of_nat k)] w <-> repeated (gen G its) 0 (Z.of_nat k + 1) w.
Proof.
  induction k as [|k IH]; intros HG w.
  - rewrite Z.add_0_r in *. specialize (HG first ltac:(lia)). unfold optional_alts in HG.
    rewrite Z.ltb_irrefl, app_nil_r in HG. split.
    + intros (alts & alt & Hl & Hin & Hg)%gen_ref_inv. rewrite HG in Hl. injection Hl as <-.
      rewrite app_nil_r in Hg. apply elem_of_two in Hin as [->| ->].
      * exists [w]. cbn. rewrite app_nil_r. splits; [done|by repeat constructor|done|by right].
      * inversion Hg. exists []. splits; [done|constructor|done|by right].
    + intros (ws & -> & Hws & _ & [H|H]); [lia|].
      destruct ws as [|v [|v2 ws]]; [| |rewrite !zlen_cons in H; pose proof (zlen_nonneg ws); lia].
      * eapply gen_ref; [exact HG|by right; left|]. constructor.
      * eapply gen_ref; [exact HG|by left|]. cbn. rewrite !app_nil_r. by inversion Hws.
  - assert (HGk : forall r, first <= r <= first + Z.of_nat k ->
      zlookup G r = Some (optional_alts its first false r)) by (intros; apply HG; lia).
    specialize (IH HGk). specialize (HG (first + Z.of_nat (S k)) ltac:(lia)).
    unfold optional_alts in HG. destruct (Z.ltb_spec first (first + Z.of_nat (S k))); [|lia].
    replace (first + Z.of_nat (S k) - 1) with (first + Z.of_nat k) in HG by lia. split.
    + intros (alts & alt & Hl & Hin & Hg)%gen_ref_inv. rewrite HG in Hl. injection Hl as <-.
      rewrite app_nil_r in Hg. apply elem_of_two in Hin as [->| ->].
      * apply gen_app_inv in Hg as (u & v & -> & Hu & (ws & -> & Hws & _ & [Hn|Hn])%IH); [lia|].
        exists (u :: ws). splits; [done|by constructor|apply zlen_nonneg|right; rewrite zlen_cons; lia].
      * inversion Hg. exists []. splits; [done|constructor|done|right; unfold zlen; cbn; lia].
    + intros (ws & -> & Hws & _ & [Hn|Hn]); [lia|]. destruct Hws as [|v ws Hv Hws].
      * eapply gen_ref; [exact HG|by right; left|]. constructor.
      * eapply gen_ref; [exact HG|by left|]. rewrite app_nil_r. apply gen_app_inv.
        exists v, (concat ws). splits; [done|done|]. apply IH. exists ws.
        rewrite zlen_cons in Hn. splits; [done|done|apply zlen_nonneg|right; lia].
Qed.

(** A fixed number of copies. *)
Lemma gen_replicate G its k w :
  gen G (concat (replicate k its)) w <->
  exists ws, w = concat ws /\ Forall (gen G its) ws /\ length ws = k.
Proof.
  revert w. induction k as [|k IH]; intros w; cbn.
  - split; [inversion 1; by exists []|]. intros (ws & -> & _ & Hn).
    destruct ws; [constructor|done].
  - rewrite gen_app_inv. split.
    + intros (u & v & -> & Hu & (ws & -> & Hws & <-)%IH). exists (u :: ws).
      splits; [done|by constructor|done].
    + intros (ws & -> & Hws & Hn). destruct Hws as [|v ws Hv Hws]; [done|].
      exists v, (concat ws). splits; [done|done|]. apply IH. exists ws. splits; [done|done|by injection Hn].
Qed.

(** A fixed part followed by an optional part. *)
Lemma gen_repeated_app G its tail k hi w :
  (forall v, gen G tail v <-> repeated (gen G its) 0 hi v) ->
  gen G (concat (replicate k its) ++ tail) w <->
  repeated (gen G its) (Z.of_nat k) (if hi <? 0 then -1 else Z.of_nat k + hi) w.
Proof.
  intros Ht. rewrite gen_app_inv. split.
  - intros (u & v & -> & (ws & -> & Hws & <-)%gen_replicate & (vs & -> & Hvs & _ & Hn)%Ht).
    exists (ws ++ vs). rewrite concat_app, zlen_app. unfold zlen in *.
    splits; [done|by apply Forall_app|lia|]. destruct (Z.ltb_spec hi 0); [by left|right; lia].
  - intros (ws & -> & Hws & Hlo & Hhi). exists (concat (take k ws)), (concat (drop k ws)).
    rewrite <- concat_app, take_drop. unfold zlen in *. splits; [done| |].
    + apply gen_replicate. exists (take k ws). splits; [done|by apply Forall_take|].
      rewrite length_take. lia.
    + apply Ht. exists (drop k ws). unfold zlen. rewrite length_drop.
      splits; [done|by apply Forall_drop|lia|]. destruct (Z.ltb_spec hi 0); [by left|right; lia].
Qed.

(** The loop that repeats the mandatory part. *)
Lemma for_z_copies base its lo :
  1 <= lo ->
  for_z 1 lo (fun _ rule => Ok (rule ++ flatten_items its)) (base ++ flatten_items its) =
    Ok (base ++ flatten_items (concat (replicate (Z.to_nat lo) its))).
Proof.
  intros Hlo. pose proof (for_z_append base its [] lo) as E. cbn [app] in E. rewrite E.
  by replace (Z.to_nat lo) with (S (Z.to_nat (lo - 1))) by lia.
Qed.

Lemma repeated_weaken P lo hi hi' w :
  repeated P lo hi w -> (hi' < 0 <-> hi < 0) -> (0 <= hi -> hi = hi') -> repeated P lo hi' w.
Proof.
  intros (ws & -> & Hws & Hlo & Hhi) H1 H2. exists ws. splits; [done|done|done|].
  destruct (Z.lt_ge_cases hi 0); [left; by apply H1|right; rewrite <- H2 by done; lia].
Qed.

Lemma gen_nothing G its v : gen G [] v <-> repeated (gen G its) 0 0 v.
Proof.
  split.
  - inversion 1. exists []. splits; [done|constructor|done|by right].
  - intros (ws & -> & _ & _ & [H|H]); [lia|]. destruct ws; [constructor|].
    rewrite zlen_cons in H. pose proof (zlen_nonneg ws). lia.
Qed.

(** The optional rules after the whole loop, and the reference to them. *)
Lemma optional_tail G its st0 hi n st last rec_rule base_name :
  0 <= n -> (hi < 0 -> n = 1) ->
  optional_inv base_name its st0 hi n (rec_rule, last, st) ->
  (forall r, Z.of_nat (size (symbol_ids st0)) <= r < Z.of_nat (size (symbol_ids st)) ->
     zlookup G r = Some (optional_alts its (Z.of_nat (size (symbol_ids st0))) (hi <? 0) r)) ->
  forall v, gen G (if 0 <? n then [IRef last] else []) v <->
            repeated (gen G its) 0 (if hi <? 0 then -1 else n) v.
Proof.
  intros Hn Hhi (_ & _ & Hsz & Hlast & _) HG v. rewrite Hsz in HG. clear Hsz.
  revert HG Hlast. generalize (Z.of_nat (size (symbol_ids st0))). intros first HG Hlast.
  destruct (Z.ltb_spec hi 0).
  - rewrite (Hhi ltac:(done)) in *. cbn [Z.ltb Z.compare].
    rewrite Hlast by lia. rewrite Z.add_simpl_r. apply gen_star. rewrite HG by lia; done.
  - destruct (Z.ltb_spec 0 n).
    + rewrite Hlast by done.
      replace (first + n - 1) with (first + Z.of_nat (Z.to_nat (n - 1))) by lia.
      rewrite (gen_optional_chain G its first) by (intros; apply HG; lia).
      by replace (Z.of_nat (Z.to_nat (n - 1)) + 1) with n by lia.
    + replace n with 0 by lia. apply gen_nothing.
Qed.

Lemma handle_repetitions_shape base_name pre its st lo hi rule' st' :
  its <> [] -> 0 <= lo -> (hi < 0 \/ lo <= hi) -> fresh_names base_name st ->
  handle_repetitions base_name (length pre) (pre ++ flatten_items its) st lo hi = Ok (rule', st') ->
  exists n last rec_rule, 0 <= n /\ n = (if hi <? 0 then 1 else hi - lo) /\
    rule' = pre ++ flatten_items (concat (replicate (Z.to_nat lo) its) ++
                                  if 0 <? n then [IRef last] else []) /\
    optional_inv base_name its st hi n (rec_rule, last, st').
Proof.
  intros Hne Hlo Hhi Hf. unfold handle_repetitions.
  destruct (Nat.eqb _ _); [done|]. rewrite drop_app_length, take_app_length.
  assert (Hmand : (if lo =? 0 then Ok pre
      else for_z 1 lo (fun _ rule => Ok (rule ++ flatten_items its)) (pre ++ flatten_items its)) =
      Ok (pre ++ flatten_items (concat (replicate (Z.to_nat lo) its)))).
  { destruct (Z.eqb_spec lo 0) as [->|]; [cbn; by rewrite app_nil_r|apply for_z_copies; lia]. }
  rewrite Hmand. cbn [mbind res_bind].
  intros (n & Hnopt & H)%res_bind_ok.
  assert (Hn : n = (if hi <? 0 then 1 else hi - lo)).
  { destruct (hi <? 0); [by injection Hnopt|]. unfold s32 in Hnopt. destruct (_ && _); [by injection Hnopt|discriminate Hnopt]. }
  assert (0 <= n) by (subst n; destruct (Z.ltb_spec hi 0); lia).
  apply res_bind_ok in H as ([[rr last] st2] & Hloop & H). injection H as <- <-.
  exists n, last, rr. splits; [done|done| |].
  - rewrite flatten_items_app, app_assoc. destruct (0 <? n); [done|]. symmetry. apply app_nil_r.
  - pose proof (for_z_post 0 n (repetition_step base_name (flatten_items its) hi)
      (optional_inv base_name its st hi) (fun _ => True) (flatten_items its, 0, st)) as Hp.
    rewrite Hloop in Hp. apply Hp; [done| |].
    + unfold optional_inv. splits; [by apply firstn_all|done|lia|lia|lia].
    + intros j t Hj Ht. destruct (repetition_step _ _ _ j t) eqn:E; [|done].
      cbn. eapply optional_step; [lia|exact Ht|exact E].
Qed.

(** A parsed grammar is well formed; the one fault is the overflow in the bounds
    of a repetition. *)
Lemma parse_post src :
  Forall byte_ok src ->
  post (parse src)
    (fun r => if fst r then exists G, encodes G (rules (snd r)) /\ closed_grammar G
              else rules (snd r) = [])
    (fun e => e = UB).
Proof.
  intros Hsrc. unfold parse. set (m := st ← _; _).
  assert (Hm : post m (fun st => exists G, encodes G (rules st) /\ closed_grammar G) parser_err).
  { subst m. eapply post_bind.
    - apply (while_post _ (fun s => Forall byte_ok (fst s) /\ st_inv (snd s) 0)
        (fun s => length (fst s)) (fun st => st_inv st 0)).
      + split; [by eapply adv_bytes; [apply parse_space_loop_adv|]|].
        split; [|constructor]. intros n r Hr. cbn in Hr. by rewrite lookup_empty in Hr.
      + cbn [fst]. lia.
      + intros [pos st] [Hb Hi]. cbn [rules_step fst snd] in *. case_match; [done|].
        eapply post_bind; [by apply parse_rule_post|]. intros [pos' st'] [Ha Hi'].
        cbn [fst snd] in *. cbn [post]. split; [split; [by eapply adv_bytes|done]|].
        apply adv_length in Ha. cbn [fst]. lia.
    - intros st Hi. eapply post_bind.
      + eapply parser_of_throw; [by apply validate_rules_post|]. intros u Hu. exact Hu.
      + intros u HG. exact HG. }
  destruct m as [st|e]; [exact Hm|]. destruct Hm as [[msg ->]| ->]; done.
Qed.

(** * Properties *)

(** C13. The rewriting of repetitions means repetition: when the suffix of a rule
    is a group of items and the generated names are new, [S{lo,hi}], [S*], [S+]
    and [S?] replace the group by items that, in every grammar with the rules
    that were added, generate exactly the words made of [lo] to [hi] words of
    the group. *)
Theorem handle_repetitions_language base_name pre its st lo hi rule' st' :
  its <> [] -> 0 <= lo -> (hi < 0 \/ lo <= hi) -> fresh_names base_name st ->
  handle_repetitions base_name (length pre) (pre ++ flatten_items its) st lo hi = Ok (rule', st') ->
  exists its' added,
    rule' = pre ++ flatten_items its' /\
    (forall r, Z.of_nat (size (symbol_ids st)) <= r < Z.of_nat (size (symbol_ids st')) ->
       zlookup (rules st') r = Some (flatten_rule (added r))) /\
    forall G, (forall r, Z.of_nat (size (symbol_ids st)) <= r < Z.of_nat (size (symbol_ids st')) ->
         zlookup G r = Some (added r)) ->
       forall w, gen G its' w <-> repeated (gen G its) lo hi w.
Proof.
  intros Hne Hlo Hhi Hf H.
  destruct (handle_repetitions_shape _ _ _ _ _ _ _ _ Hne Hlo Hhi Hf H)
    as (n & last & rr & Hn0 & Hn & -> & Hinv).
  exists (concat (replicate (Z.to_nat lo) its) ++ if 0 <? n then [IRef last] else []).
  exists (optional_alts its (Z.of_nat (size (symbol_ids st))) (hi <? 0)).
  splits; [done| |].
  - pose proof Hinv as (_ & _ & Hsz & _ & Hrules). intros r Hr. apply Hrules. lia.
  - intros G HG w. rewrite (gen_repeated_app G its _ _ (if hi <? 0 then -1 else n)).
    2: { apply (optional_tail G its st hi n st' last rr base_name Hn0); [|done|done].
         intros. by rewrite Hn, (proj2 (Z.ltb_lt hi 0)). }
    rewrite Z2Nat.id by done.
    destruct (Z.ltb_spec hi 0).
    + cbn [Z.ltb Z.compare]. split; intros Hr; (eapply repeated_weaken; [exact Hr|lia|lia]).
    + rewrite (proj2 (Z.ltb_ge n 0) Hn0), Hn. by replace (lo + (hi - lo)) with hi by lia.
Qed.

Lemma handle_repetitions_language_witness :
  let its := [IClass false (97, None) []] in
  let st := mk_parser {[ str "root" := 0 ]} [] in
  its <> [] /\ 0 <= 1 /\ (3 < 0 \/ 1 <= 3) /\ fresh_names (str "root") st /\
  exists rule' st',
    handle_repetitions (str "root") 0 ([] ++ flatten_items its) st 1 3 = Ok (rule', st') /\
    exists its' added,
      rule' = [] ++ flatten_items its' /\
      (forall r, Z.of_nat (size (symbol_ids st)) <= r < Z.of_nat (size (symbol_ids st')) ->
         zlookup (rules st') r = Some (flatten_rule (added r))) /\
      forall G, (forall r, Z.of_nat (size (symbol_ids st)) <= r < Z.of_nat (size (symbol_ids st')) ->
           zlookup G r = Some (added r)) ->
         forall w, gen G its' w <-> repeated (gen G its) 1 3 w.
Proof.
  cbv zeta.
  assert (Hf : fresh_names (str "root") (mk_parser {[ str "root" := 0 ]} [])).
  { intros k _. cbn [symbol_ids]. apply lookup_singleton_ne. intros E.
    apply (f_equal length) in E. unfold generated_name in E. rewrite length_app in E. cbn in E. lia. }
  split; [discriminate|]. split; [lia|]. split; [lia|]. split; [exact Hf|].
  destruct (handle_repetitions (str "root") 0 ([] ++ flatten_items [IClass false (97, None) []])
    (mk_parser {[ str "root" := 0 ]} []) 1 3) as [[rule' st']|e] eqn:E;
    [|vm_compute in E; discriminate E].
  exists rule', st'. split; [reflexivity|].
  apply (handle_repetitions_language (str "root") [] [IClass false (97, None) []]
    (mk_parser {[ str "root" := 0 ]} []) 1 3 rule' st'); [discriminate|lia|lia|exact Hf|exact E].
Defined.

(** C4. Parsing is total and its result is well formed: on every byte string
    [parse] terminates and never fails an assertion; a grammar it accepts
    consists of rules that encode alternatives of whole items, and every rule
    reference in it leads to an existing rule. The one failure that is not
    turned into a rejection is the signed overflow in the bounds of a
    repetition. *)
Theorem parse_well_formed (src : bytes) :
  Forall byte_ok src ->
  post (parse src)
    (fun r => if fst r then exists G, encodes G (rules (snd r)) /\ closed_grammar G
              else rules (snd r) = [])
    (fun e => e = UB).
Proof. apply parse_post. Qed.

Lemma parse_well_formed_witness :
  Forall byte_ok (str "root ::= [a-c]+ (x | .)") /\
  post (parse (str "root ::= [a-c]+ (x | .)"))
    (fun r => if fst r then exists G, encodes G (rules (snd r)) /\ closed_grammar G
              else rules (snd r) = [])
    (fun e => e = UB).
Proof.
  pose proof (str_bytes "root ::= [a-c]+ (x | .)") as H.
  split; [exact H|]. apply (parse_well_formed (str "root ::= [a-c]+ (x | .)")). exact H.
Defined.

(** The count of a repetition is truncated to 32 bits: [[a]{4294967295}] is
    accepted and means [[a]+]. *)
Theorem parse_repetition_count_wraps :
  exists st st',
    parse (str "root ::= [a]{4294967295}") = Ok (true, st) /\
    parse (str "root ::= [a]+") = Ok (true, st') /\ rules st = rules st'.
Proof.
  eexists _, _. split; [vm_compute; reflexivity|]. split; [vm_compute; reflexivity|].
  vm_compute; reflexivity.
Qed.
