(* ===== verification/GrammarEngine.v ===== *)
(** The grammar engine of [src/llama-grammar.cpp]: pushdown stacks, matching of
    characters, expansion of rule references, left recursion detection, and the
    rejection of candidate tokens. *)
From S2P Require Import Prelude GrammarUtf8 GrammarSyntax.

(** A [const llama_grammar_element *] into the rules: rule and element index. *)
Definition gpos : Type := Z * nat.

(** A [llama_grammar_stack], listed from its top ([back()]) down. *)
Abbreviation llama_grammar_stack := (list gpos).
Abbreviation llama_grammar_stacks := (list llama_grammar_stack).

(** [pos + n] *)
Definition pos_add (pos : gpos) (n : nat) : gpos := (fst pos, (snd pos + n)%nat).

(** [*pos] *)
Definition elem_at (rules : llama_grammar_rules) (pos : gpos) : res llama_grammar_element :=
  rule ← vget rules (fst pos); or_ub (rule !! snd pos).

(** A bound on the steps a pointer can take inside its rule. *)
Definition rule_fuel (rules : llama_grammar_rules) (pos : gpos) : nat :=
  match zlookup rules (fst pos) with Some rule => S (length rule) | None => 1 end.

Definition llama_grammar_is_end_of_sequence (rules : llama_grammar_rules) (pos : gpos) : res bool :=
  e ← elem_at rules pos; Ok (is_end_type (elem_type e)).

Definition is_positive_type (t : llama_gretype) : bool :=
  match t with LLAMA_GRETYPE_CHAR | LLAMA_GRETYPE_CHAR_ANY => true | _ => false end.

Definition type_eqb (t u : llama_gretype) : bool := bool_decide (t = u).

(** One iteration of the [do ... while] loop of [llama_grammar_match_char]. *)
Definition match_char_step (rules : llama_grammar_rules) (chr : Z) (s : gpos * bool) :
    res (step (gpos * bool) (gpos * bool)) :=
  let '(pos, found) := s in
  e ← elem_at rules pos;
  e1 ← elem_at rules (pos_add pos 1);
  let '(pos, found) :=
    if type_eqb (elem_type e1) LLAMA_GRETYPE_CHAR_RNG_UPPER then
      (pos_add pos 2, found || ((elem_value e <=? chr) && (chr <=? elem_value e1)))
    else if type_eqb (elem_type e) LLAMA_GRETYPE_CHAR_ANY then (pos_add pos 1, true)
    else (pos_add pos 1, found || (elem_value e =? chr)) in
  e' ← elem_at rules pos;
  Ok (if type_eqb (elem_type e') LLAMA_GRETYPE_CHAR_ALT then Next (pos, found) else Done (pos, found)).

Definition llama_grammar_match_char (rules : llama_grammar_rules) (pos : gpos) (chr : Z) :
    res (bool * gpos) :=
  e ← elem_at rules pos;
  let is_positive_char := is_positive_type (elem_type e) in
  ggml_assert (is_positive_char || type_eqb (elem_type e) LLAMA_GRETYPE_CHAR_NOT);;
  r ← while (match_char_step rules chr) (rule_fuel rules pos) (pos, false);
  let '(pos, found) := r in
  Ok (Bool.eqb found is_positive_char, pos).

(** One iteration of the loop of [llama_grammar_match_partial_char]; the loop
    is left early with the result of the function, or [None] at its end. *)
Definition match_partial_step (rules : llama_grammar_rules) (is_positive_char : bool)
    (low high : Z) (pos : gpos) : res (step gpos (option bool)) :=
  e ← elem_at rules pos;
  e1 ← elem_at rules (pos_add pos 1);
  let continue_at pos :=
    e' ← elem_at rules pos;
    Ok (if type_eqb (elem_type e') LLAMA_GRETYPE_CHAR_ALT then Next pos else Done None) in
  if type_eqb (elem_type e1) LLAMA_GRETYPE_CHAR_RNG_UPPER then
    if (elem_value e <=? high) && (low <=? elem_value e1) then Ok (Done (Some is_positive_char))
    else continue_at (pos_add pos 2)
  else if type_eqb (elem_type e) LLAMA_GRETYPE_CHAR_ANY then Ok (Done (Some true))
  else if (low <=? elem_value e) && (elem_value e <=? high) then Ok (Done (Some is_positive_char))
  else continue_at (pos_add pos 1).

(** The code points a partial sequence can complete to. *)
Definition partial_low (p : llama_partial_utf8) : Z :=
  let low := u32 (Z.shiftl (value p) (n_remain p * 6)) in
  if low =? 0 then
    if n_remain p =? 2 then Z.shiftl 1 11 else if n_remain p =? 3 then Z.shiftl 1 16 else low
  else low.

Definition partial_high (p : llama_partial_utf8) : Z :=
  Z.lor (u32 (Z.shiftl (value p) (n_remain p * 6))) (Z.shiftl 1 (n_remain p * 6) - 1).

Definition llama_grammar_match_partial_char (rules : llama_grammar_rules) (pos : gpos)
    (partial_utf8 : llama_partial_utf8) : res bool :=
  e ← elem_at rules pos;
  let is_positive_char := is_positive_type (elem_type e) in
  ggml_assert (is_positive_char || type_eqb (elem_type e) LLAMA_GRETYPE_CHAR_NOT);;
  if (n_remain partial_utf8 <? 0) || ((n_remain partial_utf8 =? 1) && (value partial_utf8 <? 2)) then
    Ok false
  else
    r ← while (match_partial_step rules is_positive_char (partial_low partial_utf8)
                 (partial_high partial_utf8)) (rule_fuel rules pos) pos;
    Ok (default (negb is_positive_char) r).

(** * Expansion of a stack *)

(** [if (std::find(...) == end) new_stacks.emplace_back(stack)] *)
Definition add_stack (stack : llama_grammar_stack) (new_stacks : llama_grammar_stacks) :
    llama_grammar_stacks :=
  if bool_decide (stack ∈ new_stacks) then new_stacks else new_stacks ++ [stack].

(** [if (!is_end_of_sequence(pos)) new_stack.push_back(pos)] *)
Definition push_unless_end (rules : llama_grammar_rules) (pos : gpos) (stack : llama_grammar_stack) :
    res llama_grammar_stack :=
  fin ← llama_grammar_is_end_of_sequence rules pos;
  Ok (if fin : bool then stack else pos :: stack).

(** [while (!is_end_of_sequence(pos)) pos++] *)
Definition scan_end (rules : llama_grammar_rules) (pos : gpos) : res gpos :=
  while (fun pos => fin ← llama_grammar_is_end_of_sequence rules pos;
                    Ok (if fin : bool then Done pos else Next (pos_add pos 1)))
    (rule_fuel rules pos) pos.

(** The loop over the alternates of a rule, from [pos]: [visit] is its body for
    one alternate. *)
Definition for_alternates {S} (rules : llama_grammar_rules) (visit : gpos -> S -> res S)
    (pos : gpos) (s : S) : res S :=
  while (fun '(subpos, s) =>
      s ← visit subpos s;
      fin ← scan_end rules subpos;
      e ← elem_at rules fin;
      Ok (if type_eqb (elem_type e) LLAMA_GRETYPE_ALT then Next (pos_add fin 1, s) else Done s))
    (rule_fuel rules pos) (pos, s).

(** [llama_grammar_advance_stack]; [fuel] bounds its recursion. *)
Fixpoint llama_grammar_advance_stack (fuel : nat) (rules : llama_grammar_rules)
    (stack : llama_grammar_stack) (new_stacks : llama_grammar_stacks) : res llama_grammar_stacks :=
  match fuel with
  | O => Err Fuel
  | S fuel =>
      match stack with
      | [] => Ok (add_stack stack new_stacks)
      | pos :: below =>
          e ← elem_at rules pos;
          match elem_type e with
          | LLAMA_GRETYPE_RULE_REF =>
              for_alternates rules (fun subpos new_stacks =>
                  new_stack ← push_unless_end rules (pos_add pos 1) below;
                  new_stack ← push_unless_end rules subpos new_stack;
                  llama_grammar_advance_stack fuel rules new_stack new_stacks)
                (elem_value e, O) new_stacks
          | LLAMA_GRETYPE_CHAR | LLAMA_GRETYPE_CHAR_NOT | LLAMA_GRETYPE_CHAR_ANY =>
              Ok (add_stack stack new_stacks)
          | _ => Err Abort
          end
      end
  end.

(** * Accepting a character *)

(** The body of the loop of [llama_grammar_accept] for one stack. *)
Definition accept_stack (fuel : nat) (rules : llama_grammar_rules) (chr : Z)
    (stacks_new : llama_grammar_stacks) (stack : llama_grammar_stack) : res llama_grammar_stacks :=
  match stack with
  | [] => Ok stacks_new
  | top :: below =>
      m ← llama_grammar_match_char rules top chr;
      if fst m : bool then
        new_stack ← push_unless_end rules (snd m) below;
        llama_grammar_advance_stack fuel rules new_stack stacks_new
      else Ok stacks_new
  end.

(** [llama_grammar_accept], on the stacks of the grammar *)
Definition llama_grammar_accept (fuel : nat) (rules : llama_grammar_rules)
    (stacks : llama_grammar_stacks) (chr : Z) : res llama_grammar_stacks :=
  foldM (accept_stack fuel rules chr) [] stacks.

(** * Rejecting candidates *)

(** [llama_grammar_candidate]: [code_points] is an array and an offset into it. *)
Record llama_grammar_candidate : Type := mk_cand {
  cand_index   : nat;
  cand_points  : list Z;
  cand_off     : nat;
  cand_partial : llama_partial_utf8
}.

Definition cand_cur (tok : llama_grammar_candidate) : res Z :=
  or_ub (cand_points tok !! cand_off tok).
Definition cand_next (tok : llama_grammar_candidate) : llama_grammar_candidate :=
  mk_cand (cand_index tok) (cand_points tok) (S (cand_off tok)) (cand_partial tok).
Definition cand_prev (tok : llama_grammar_candidate) : llama_grammar_candidate :=
  mk_cand (cand_index tok) (cand_points tok) (pred (cand_off tok)) (cand_partial tok).

(** The loop over the candidates for an empty stack. *)
Definition reject_at_end (rejects : list llama_grammar_candidate) (tok : llama_grammar_candidate) :
    res (list llama_grammar_candidate) :=
  c ← cand_cur tok;
  Ok (if negb (c =? 0) || negb (n_remain (cand_partial tok) =? 0) then rejects ++ [tok] else rejects).

(** The loop over the candidates for a stack with top [stack_pos]: the rejects
    and the candidates that go on to the next position. *)
Definition reject_at_top (rules : llama_grammar_rules) (stack_pos : gpos)
    (s : list llama_grammar_candidate * list llama_grammar_candidate) (tok : llama_grammar_candidate) :
    res (list llama_grammar_candidate * list llama_grammar_candidate) :=
  let '(rejects, next_candidates) := s in
  c ← cand_cur tok;
  if c =? 0 then
    if negb (n_remain (cand_partial tok) =? 0) then
      m ← llama_grammar_match_partial_char rules stack_pos (cand_partial tok);
      Ok (if m : bool then (rejects, next_candidates) else (rejects ++ [tok], next_candidates))
    else Ok (rejects, next_candidates)
  else
    m ← llama_grammar_match_char rules stack_pos c;
    Ok (if fst m : bool then (rejects, next_candidates ++ [cand_next tok])
        else (rejects ++ [tok], next_candidates)).

(** [llama_grammar_reject_candidates], given the function for one stack *)
Definition reject_candidates_with
    (for_stack : llama_grammar_stack -> list llama_grammar_candidate ->
                 res (list llama_grammar_candidate))
    (stacks : llama_grammar_stacks) (candidates : list llama_grammar_candidate) :
    res (list llama_grammar_candidate) :=
  match stacks with
  | [] => Err Abort
  | front :: stacks =>
      match candidates with
      | [] => Ok []
      | _ =>
          rejects ← for_stack front candidates;
          foldM (fun rejects stack => for_stack stack rejects) rejects stacks
      end
  end.

(** [llama_grammar_reject_candidates_for_stack]; [depth] bounds the length of
    the candidates, [fuel] the expansion of stacks. *)
Fixpoint llama_grammar_reject_candidates_for_stack (depth fuel : nat) (rules : llama_grammar_rules)
    (stack : llama_grammar_stack) (candidates : list llama_grammar_candidate) :
    res (list llama_grammar_candidate) :=
  match depth with
  | O => Err Fuel
  | S depth =>
      match stack with
      | [] => foldM reject_at_end [] candidates
      | stack_pos :: below =>
          r ← foldM (reject_at_top rules stack_pos) ([], []) candidates;
          let '(rejects, next_candidates) := r in
          m ← llama_grammar_match_char rules stack_pos 0;
          stack_after ← push_unless_end rules (snd m) below;
          next_stacks ← llama_grammar_advance_stack fuel rules stack_after [];
          next_rejects ← reject_candidates_with
                           (llama_grammar_reject_candidates_for_stack depth fuel rules)
                           next_stacks next_candidates;
          Ok (rejects ++ (cand_prev <$> next_rejects))
      end
  end.

Definition llama_grammar_reject_candidates (depth fuel : nat) (rules : llama_grammar_rules) :
    llama_grammar_stacks -> list llama_grammar_candidate -> res (list llama_grammar_candidate) :=
  reject_candidates_with (llama_grammar_reject_candidates_for_stack depth fuel rules).

(** * Left recursion *)

Record left_recursion_state : Type := mk_lr {
  rules_visited      : list bool;
  rules_in_progress  : list bool;
  rules_may_be_empty : list bool
}.

(** The first loop: an alternate without elements. *)
Fixpoint has_empty_alternate (at_rule_start : bool) (rule : llama_grammar_rule) : bool :=
  match rule with
  | [] => false
  | e :: rule =>
      if is_end_type (elem_type e) then
        if at_rule_start then true else has_empty_alternate true rule
      else has_empty_alternate false rule
  end.

Section detect.
(** the recursive call *)
Variable detect : Z -> left_recursion_state -> res (bool * left_recursion_state).

(** The second loop, over the elements of a rule from one of them on; the
    result is that of the early return, or [false] at the end of the loop. *)
Fixpoint detect_loop (rule : llama_grammar_rule) (recurse_into_nonterminal : bool)
    (s : left_recursion_state) : res (bool * left_recursion_state) :=
  match rule with
  | [] => Ok (false, s)
  | e :: rule =>
      if type_eqb (elem_type e) LLAMA_GRETYPE_RULE_REF && recurse_into_nonterminal then
        r ← detect (elem_value e) s;
        let '(found, s) := r in
        if found : bool then Ok (true, s)
        else
          may_be_empty ← vget (rules_may_be_empty s) (elem_value e);
          detect_loop rule may_be_empty s
      else if is_end_type (elem_type e) then detect_loop rule true s
      else detect_loop rule false s
  end.
End detect.

(** [llama_grammar_detect_left_recursion]; [fuel] bounds its recursion. *)
Fixpoint llama_grammar_detect_left_recursion (fuel : nat) (rules : llama_grammar_rules)
    (rule_index : Z) (s : left_recursion_state) : res (bool * left_recursion_state) :=
  match fuel with
  | O => Err Fuel
  | S fuel =>
      in_progress ← vget (rules_in_progress s) rule_index;
      if in_progress : bool then Ok (true, s)
      else
        ip ← vset (rules_in_progress s) rule_index true;
        rule ← vget rules rule_index;
        mbe ← (if has_empty_alternate true rule then vset (rules_may_be_empty s) rule_index true
               else Ok (rules_may_be_empty s));
        r ← detect_loop (llama_grammar_detect_left_recursion fuel rules) rule true
              (mk_lr (rules_visited s) ip mbe);
        let '(found, s) := r in
        if found : bool then Ok (true, s)
        else
          ip ← vset (rules_in_progress s) rule_index false;
          v ← vset (rules_visited s) rule_index true;
          Ok (false, mk_lr v ip (rules_may_be_empty s))
  end.

(** The loop of [llama_grammar_init_impl] over all rules: [true] when left
    recursion is detected. *)
Definition check_left_recursion (rules : llama_grammar_rules) : res bool :=
  let n_rules := length rules in
  let falses := replicate n_rules false in
  r ← foldM (fun (acc : bool * left_recursion_state) i =>
        let '(found, s) := acc in
        if found then Ok (true, s)
        else
          visited ← vget (rules_visited s) i;
          if visited : bool then Ok (false, s)
          else llama_grammar_detect_left_recursion (S n_rules) rules i s)
      (false, mk_lr falses falses falses) (zseq 0 n_rules);
  Ok (fst r).

(** The loop that builds the initial stacks. *)
Definition init_stacks (fuel : nat) (rules : llama_grammar_rules) (start_rule_index : Z) :
    res llama_grammar_stacks :=
  _ ← vget rules start_rule_index;
  for_alternates rules (fun pos stacks =>
      stack ← push_unless_end rules pos [];
      llama_grammar_advance_stack fuel rules stack stacks)
    (start_rule_index, O) [].

(** * Reading rules *)

(** The elements from [pos] to the end of its rule. *)
Definition view (rules : llama_grammar_rules) (pos : gpos) (l : list llama_grammar_element) : Prop :=
  exists rule, zlookup rules (fst pos) = Some rule /\ drop (snd pos) rule = l.

Lemma view_fun rules pos l l' : view rules pos l -> view rules pos l' -> l = l'.
Proof. intros (r & Hr & <-) (r' & Hr' & <-). congruence. Qed.

Lemma view_elem rules pos e l : view rules pos (e :: l) -> elem_at rules pos = Ok e.
Proof.
  intros (rule & Hr & Hd). unfold elem_at, vget. rewrite Hr.
  cbn [or_ub mbind res_bind].
  assert (drop (snd pos) rule !! 0%nat = Some e) as E by by rewrite Hd.
  rewrite lookup_drop, Nat.add_0_r in E. by rewrite E.
Qed.

Lemma view_add rules pos a l : view rules pos (a ++ l) -> view rules (pos_add pos (length a)) l.
Proof.
  intros (rule & Hr & Hd). exists rule. split; [done|]. cbn.
  by rewrite <- drop_drop, Hd, drop_app_length.
Qed.

Lemma view_next rules pos e l : view rules pos (e :: l) -> view rules (pos_add pos 1) l.
Proof. apply (view_add rules pos [e]). Qed.

Lemma view_at rules pos a e l :
  view rules pos (a ++ e :: l) -> elem_at rules (pos_add pos (length a)) = Ok e.
Proof. intros H. eapply view_elem. by apply view_add. Qed.

Lemma view_fuel rules pos l : view rules pos l -> (length l < rule_fuel rules pos)%nat.
Proof.
  intros (rule & Hr & <-). unfold rule_fuel. rewrite Hr, length_drop. lia.
Qed.

Lemma is_end_view rules pos e l :
  view rules pos (e :: l) -> llama_grammar_is_end_of_sequence rules pos = Ok (is_end_type (elem_type e)).
Proof. intros H. unfold llama_grammar_is_end_of_sequence. by rewrite (view_elem _ _ _ _ H). Qed.

(** The rest of the rule does not continue a character class. *)
Definition no_cont (l : list llama_grammar_element) : Prop :=
  match l with
  | [] => False
  | e :: _ => elem_type e <> LLAMA_GRETYPE_CHAR_ALT /\ elem_type e <> LLAMA_GRETYPE_CHAR_RNG_UPPER
  end.

Lemma end_no_cont e l : is_end_type (elem_type e) = true -> no_cont (e :: l).
Proof. destruct e as [[] ?]; done. Qed.

Lemma items_no_cont its e l :
  is_end_type (elem_type e) = true -> no_cont (flatten_items its ++ e :: l).
Proof.
  intros He. destruct its as [|it its]; [by apply end_no_cont|].
  rewrite flatten_items_cons. destruct (flatten_item_head it) as (e' & tl & -> & _ & H). exact H.
Qed.

(** [pos] is where the items [its] of an alternate start. *)
Definition at_items (rules : llama_grammar_rules) (pos : gpos) (its : list item) : Prop :=
  exists e l, view rules pos (flatten_items its ++ e :: l) /\ is_end_type (elem_type e) = true.

Lemma at_items_view rules pos it its :
  at_items rules pos (it :: its) ->
  exists l, view rules pos (flatten_item it ++ l) /\ no_cont l /\
    at_items rules (pos_add pos (length (flatten_item it))) its.
Proof.
  intros (e & l & Hv & He). rewrite flatten_items_cons, <- app_assoc in Hv.
  exists (flatten_items its ++ e :: l). splits; [done|by apply items_no_cont|].
  exists e, l. split; [by apply view_add|done].
Qed.

Lemma at_items_end rules pos :
  at_items rules pos [] -> llama_grammar_is_end_of_sequence rules pos = Ok true.
Proof. intros (e & l & Hv & He). cbn in Hv. rewrite (is_end_view _ _ _ _ Hv). by rewrite He. Qed.

Lemma at_items_not_end rules pos it its :
  at_items rules pos (it :: its) -> llama_grammar_is_end_of_sequence rules pos = Ok false.
Proof.
  intros (l & Hv & _)%at_items_view. destruct (flatten_item_head it) as (e & tl & E & He & _).
  rewrite E in Hv. rewrite (is_end_view _ _ _ _ Hv). by rewrite He.
Qed.

(** The encoding is injective. *)
Lemma flatten_range_inj t x y l l' :
  no_cont l -> no_cont l' -> flatten_range t x ++ l = flatten_range t y ++ l' -> x = y /\ l = l'.
Proof.
  destruct x as [x [hx|]], y as [y [hy|]]; cbn; intros Hl Hl' E;
    injection E; clear E; intros; subst; cbn in *; naive_solver.
Qed.

Definition not_rng (l : list llama_grammar_element) : Prop :=
  match l with [] => False | e :: _ => elem_type e <> LLAMA_GRETYPE_CHAR_RNG_UPPER end.

Lemma flatten_range_inj' t x y l l' :
  not_rng l -> not_rng l' -> flatten_range t x ++ l = flatten_range t y ++ l' -> x = y /\ l = l'.
Proof.
  destruct x as [x [hx|]], y as [y [hy|]]; cbn; intros Hl Hl' E;
    injection E; clear E; intros; subst; cbn in *; naive_solver.
Qed.

Lemma more_not_rng xs l : no_cont l -> not_rng (flatten_more xs ++ l).
Proof. destruct xs as [|x xs]; [|done]. destruct l; [done|]. by intros [_ H]. Qed.

Lemma flatten_more_cons x xs : flatten_more (x :: xs) = flatten_range LLAMA_GRETYPE_CHAR_ALT x ++ flatten_more xs.
Proof. reflexivity. Qed.

Lemma flatten_more_inj xs ys l l' :
  no_cont l -> no_cont l' -> flatten_more xs ++ l = flatten_more ys ++ l' -> xs = ys /\ l = l'.
Proof.
  intros Hl Hl'. revert ys. induction xs as [|x xs IH]; intros [|y ys] E.
  - done.
  - cbn in E. subst l. by destruct Hl.
  - cbn in E. subst l'. by destruct Hl'.
  - rewrite !flatten_more_cons, <- !app_assoc in E.
    apply flatten_range_inj' in E as [-> E]; [|by apply more_not_rng..].
    apply IH in E as [-> ->]. done.
Qed.

Lemma flatten_item_inj it it' l l' :
  no_cont l -> no_cont l' -> flatten_item it ++ l = flatten_item it' ++ l' -> it = it' /\ l = l'.
Proof.
  intros Hl Hl'. destruct it as [r| |n x xs], it' as [r'| |n' y ys]; cbn [flatten_item].
  all: intros E; try discriminate E; try (by injection E as -> ->); try (by injection E as ->).
  all: try (destruct n; discriminate E); try (destruct n'; discriminate E).
  rewrite <- !app_assoc in E. assert (n = n') as -> by (destruct n, n'; (done || discriminate E)).
  apply flatten_range_inj' in E as [-> E]; [|by apply more_not_rng..].
  apply flatten_more_inj in E as [-> ->]; done.
Qed.

Lemma flatten_items_inj its its' e e' l l' :
  is_end_type (elem_type e) = true -> is_end_type (elem_type e') = true ->
  flatten_items its ++ e :: l = flatten_items its' ++ e' :: l' -> its = its' /\ e :: l = e' :: l'.
Proof.
  intros He He'. revert its'. induction its as [|it its IH]; intros [|it' its'] E.
  - done.
  - exfalso. rewrite flatten_items_cons in E. destruct (flatten_item_head it') as (h & tl & Eh & Hh & _).
    rewrite Eh in E. injection E as -> _. congruence.
  - exfalso. rewrite flatten_items_cons in E. destruct (flatten_item_head it) as (h & tl & Eh & Hh & _).
    rewrite Eh in E. injection E as -> _. congruence.
  - rewrite !flatten_items_cons, <- !app_assoc in E.
    apply flatten_item_inj in E as [-> E]; [|by apply items_no_cont..].
    apply IH in E as [-> ->]. done.
Qed.

Lemma at_items_fun rules pos its its' : at_items rules pos its -> at_items rules pos its' -> its = its'.
Proof.
  intros (e & l & Hv & He) (e' & l' & Hv' & He').
  pose proof (view_fun _ _ _ _ Hv Hv') as E. by apply flatten_items_inj in E as [-> _].
Qed.

(** * Matching *)

Lemma elem_at_range rules pos t x l :
  view rules pos (flatten_range t x ++ l) -> not_rng l ->
  elem_at rules pos = Ok (mk_elem t (fst x)) /\
  exists e1, elem_at rules (pos_add pos 1) = Ok e1 /\
    match snd x with
    | Some hi => e1 = mk_elem LLAMA_GRETYPE_CHAR_RNG_UPPER hi
    | None => elem_type e1 <> LLAMA_GRETYPE_CHAR_RNG_UPPER
    end /\ view rules (pos_add pos (length (flatten_range t x))) l.
Proof.
  intros Hv Hl. pose proof (view_add _ _ _ _ Hv) as Ha. destruct x as [x [hi|]]; cbn in *.
  - split; [by eapply view_elem|]. eexists. split; [eapply view_elem; by eapply view_next|done].
  - split; [by eapply view_elem|]. destruct l as [|e l]; [done|].
    exists e. split; [eapply view_elem; by eapply view_next|done].
Qed.

(** Whether the loop goes on. *)
Lemma next_alt rules pos l :
  view rules pos l -> l <> [] ->
  exists e, elem_at rules pos = Ok e /\ hd_error l = Some e.
Proof. destruct l as [|e l]; [done|]. intros Hv _. exists e. split; [by eapply view_elem|done]. Qed.

Lemma match_char_step_range rules chr pos t x l found :
  view rules pos (flatten_range t x ++ l) -> not_rng l -> t <> LLAMA_GRETYPE_CHAR_ANY ->
  match_char_step rules chr (pos, found) =
    let pos' := pos_add pos (length (flatten_range t x)) in
    e' ← elem_at rules pos';
    Ok (if type_eqb (elem_type e') LLAMA_GRETYPE_CHAR_ALT
        then Next (pos', found || in_range chr x) else Done (pos', found || in_range chr x)).
Proof.
  intros Hv Hl Ht. destruct (elem_at_range _ _ _ _ _ Hv Hl) as (E & e1 & E1 & H1 & _).
  unfold match_char_step. rewrite E, E1. cbn [mbind res_bind].
  destruct x as [x [hi|]]; cbn [snd fst in_range] in *.
  - subst e1. cbn. done.
  - unfold type_eqb. cbn [elem_type]. rewrite (bool_decide_eq_false_2 _ H1), (bool_decide_eq_false_2 (t = _) Ht). done.
Qed.

Lemma match_class_loop rules chr pos t x xs l found fuel :
  view rules pos (flatten_range t x ++ flatten_more xs ++ l) -> no_cont l ->
  t <> LLAMA_GRETYPE_CHAR_ANY -> (length xs < fuel)%nat ->
  while (match_char_step rules chr) fuel (pos, found) =
    Ok (pos_add pos (length (flatten_range t x ++ flatten_more xs)),
        found || existsb (in_range chr) (x :: xs)).
Proof.
  intros Hv Hl. revert pos t x found fuel Hv.
  induction xs as [|y xs IH]; intros pos t x found fuel Hv Ht Hf; (destruct fuel as [|fuel]; [cbn in Hf; lia|]).
  - cbn [while]. rewrite (match_char_step_range _ _ _ _ _ _ _ Hv (more_not_rng [] _ Hl) Ht).
    apply view_add in Hv. destruct l as [|e l]; [done|]. cbn zeta.
    rewrite (view_elem _ _ _ _ Hv). cbn [mbind res_bind]. destruct Hl as [Hl _].
    unfold type_eqb. rewrite (bool_decide_eq_false_2 _ Hl).
    cbn [existsb]. rewrite orb_false_r. unfold flatten_more. cbn [fmap list_fmap concat].
    by rewrite app_nil_r.
  - cbn [while]. rewrite (match_char_step_range _ _ _ _ _ _ _ Hv (more_not_rng (y :: xs) _ Hl) Ht).
    apply view_add in Hv. rewrite flatten_more_cons, <- app_assoc in Hv. cbn zeta.
    assert (elem_at rules (pos_add pos (length (flatten_range t x))) =
            Ok (mk_elem LLAMA_GRETYPE_CHAR_ALT (fst y))) as ->
      by (eapply view_elem; exact Hv).
    cbn [mbind res_bind]. cbn [elem_type]. change (type_eqb LLAMA_GRETYPE_CHAR_ALT _) with true.
    cbn iota. rewrite (IH _ LLAMA_GRETYPE_CHAR_ALT y) by (done || (cbn in Hf; lia)).
    rewrite flatten_more_cons. cbn [existsb]. rewrite <- orb_assoc.
    f_equal. f_equal. unfold pos_add. cbn [fst snd]. rewrite !length_app. f_equal. lia.
Qed.

(** [llama_grammar_match_char] at an item that is not a reference. *)
Lemma match_char_item rules pos it l chr :
  is_ref it = false -> view rules pos (flatten_item it ++ l) -> no_cont l ->
  llama_grammar_match_char rules pos chr =
    Ok (item_accepts it chr, pos_add pos (length (flatten_item it))).
Proof.
  intros Hr Hv Hl. unfold llama_grammar_match_char. destruct it as [r| |neg x xs]; [done| |].
  - cbn [flatten_item app] in Hv. rewrite (view_elem _ _ _ _ Hv). cbn [mbind res_bind elem_type].
    cbn [is_positive_type orb ggml_assert mbind res_bind].
    pose proof (view_fuel _ _ _ Hv). destruct (rule_fuel rules pos) as [|fuel]; [lia|]. cbn [while].
    cbn [match_char_step]. rewrite (view_elem _ _ _ _ Hv). cbn [mbind res_bind].
    apply view_next in Hv. destruct l as [|e l]; [done|]. rewrite (view_elem _ _ _ _ Hv).
    cbn [mbind res_bind]. destruct Hl as [H1 H2].
    unfold type_eqb at 1. rewrite (bool_decide_eq_false_2 _ H2). cbn [elem_type].
    change (type_eqb LLAMA_GRETYPE_CHAR_ANY LLAMA_GRETYPE_CHAR_ANY) with true. cbn iota.
    rewrite (view_elem _ _ _ _ Hv). cbn [mbind res_bind].
    unfold type_eqb. rewrite (bool_decide_eq_false_2 _ H1). done.
  - cbn [flatten_item] in *. rewrite <- app_assoc in Hv.
    assert (elem_at rules pos = Ok (mk_elem (class_type neg) (fst x))) as ->
      by (eapply view_elem; exact Hv).
    cbn [mbind res_bind elem_type].
    rewrite (match_class_loop _ _ _ _ _ _ _ _ _ Hv Hl).
    + destruct neg; cbn [class_type is_positive_type orb ggml_assert mbind res_bind];
        cbn [item_accepts]; destruct (existsb _ _); done.
    + by destruct neg.
    + apply view_fuel in Hv. rewrite !length_app in Hv. cbn in Hv.
      assert (length xs <= length (flatten_more xs))%nat; [|lia].
      clear. induction xs as [|y xs IH]; [done|]. rewrite flatten_more_cons, length_app. cbn. lia.
Qed.

(** * Walking over a rule *)

Lemma scan_end_view rules pos a e l :
  view rules pos (a ++ e :: l) -> Forall (fun x => is_end_type (elem_type x) = false) a ->
  is_end_type (elem_type e) = true ->
  scan_end rules pos = Ok (pos_add pos (length a)).
Proof.
  intros Hv Ha He. unfold scan_end.
  pose proof (view_fuel _ _ _ Hv) as Hf. rewrite length_app in Hf. cbn [length] in Hf.
  generalize dependent (rule_fuel rules pos). intros fuel. revert pos Hv fuel.
  induction Ha as [|x a Hx _ IH]; intros pos Hv fuel Hf; (destruct fuel as [|fuel]; [cbn in Hf; lia|]);
    cbn [while].
  - rewrite (is_end_view _ _ _ _ Hv), He. cbn. unfold pos_add. destruct pos. cbn. by rewrite Nat.add_0_r.
  - rewrite (is_end_view _ _ _ _ Hv), Hx. cbn [mbind res_bind].
    rewrite IH; [|by eapply view_next|cbn in Hf; lia].
    unfold pos_add. cbn. do 2 f_equal. lia.
Qed.

Lemma flatten_rule_cons its alts :
  exists e l, flatten_rule (its :: alts) = flatten_items its ++ e :: l /\
    is_end_type (elem_type e) = true /\
    (alts = [] -> elem_type e = LLAMA_GRETYPE_END) /\
    (alts <> [] -> elem_type e = LLAMA_GRETYPE_ALT /\ l = flatten_rule alts).
Proof.
  unfold flatten_rule. destruct alts as [|b alts].
  - exists elem_end, []. by splits.
  - rewrite flatten_alts_cons by done. rewrite <- app_assoc.
    exists elem_alt, (flatten_alts (b :: alts) ++ [elem_end]). by splits.
Qed.

Lemma length_flatten_rule alts : (length alts <= length (flatten_rule alts))%nat.
Proof.
  induction alts as [|its alts IH]; [cbn; lia|].
  destruct (flatten_rule_cons its alts) as (e & l & -> & _ & _ & Hne).
  rewrite length_app. cbn [length]. destruct alts as [|b alts]; [cbn; lia|].
  destruct (Hne ltac:(done)) as [_ ->]. lia.
Qed.

(** The loop over alternates visits every alternate once, in order. *)
Lemma for_alternates_post {S} rules (visit : gpos -> S -> res S) r alts s
    (I : list (list item) -> S -> Prop) E :
  zlookup rules r = Some (flatten_rule alts) -> alts <> [] ->
  I [] s ->
  (forall pos seen alt t, at_items rules pos alt -> alt ∈ alts -> I seen t ->
     post (visit pos t) (I (seen ++ [alt])) E) ->
  post (for_alternates rules visit (r, O) s) (I alts) E.
Proof.
  intros Hr Hne H0 Hvisit. unfold for_alternates.
  set (body := fun '(subpos, s) => _).
  assert (Hbody : forall p t, body (p, t) =
    (s ← visit p t; fin ← scan_end rules p; e ← elem_at rules fin;
     Ok (if type_eqb (elem_type e) LLAMA_GRETYPE_ALT then Next (pos_add fin 1, s) else Done s)))
    by reflexivity.
  clearbody body.
  assert (H : forall todo seen pos t fuel, view rules pos (flatten_rule todo) -> todo <> [] ->
    (length todo <= fuel)%nat -> alts = seen ++ todo -> I seen t ->
    post (while body fuel (pos, t)) (I alts) E).
  { induction todo as [|alt todo IH]; intros seen pos t fuel Hv Hne' Hf -> Ht; [done|].
    destruct fuel as [|fuel]; [cbn in Hf; lia|]. cbn [while]. rewrite Hbody.
    destruct (flatten_rule_cons alt todo) as (e & l & Efl & He & Hend & Halt).
    rewrite Efl in Hv.
    assert (Hat : at_items rules pos alt) by by exists e, l.
    rewrite (scan_end_view _ _ _ _ _ Hv (flatten_items_not_end alt) He).
    pose proof (Hvisit pos seen alt t Hat ltac:(set_solver) Ht) as Hpost.
    destruct (visit pos t) as [t'|err]; [|exact Hpost]. cbn [mbind res_bind post] in *.
    rewrite (view_at _ _ _ _ _ Hv). cbn [mbind res_bind].
    destruct todo as [|b todo].
    - rewrite (Hend eq_refl). exact Hpost.
    - destruct (Halt ltac:(done)) as [Het ->]. rewrite Het.
      apply (IH (seen ++ [alt])); [|done|cbn in *; lia|by rewrite <- app_assoc|done].
      eapply view_next. by eapply view_add. }
  apply (H alts []); [|done| |done|done].
  - exists (flatten_rule alts). by split.
  - unfold rule_fuel. cbn [fst]. rewrite Hr. pose proof (length_flatten_rule alts). lia.
Qed.

(** * Stacks and the words they accept *)

(** The items a stack still has to match, from its top down. *)
Definition stack_items (rules : llama_grammar_rules) (stack : llama_grammar_stack) (its : list item) : Prop :=
  exists iss, Forall2 (fun pos is_ => at_items rules pos is_ /\ is_ <> []) stack iss /\ its = concat iss.

Lemma stack_items_nil rules : stack_items rules [] [].
Proof. by exists []. Qed.

Lemma stack_items_cons rules pos stack is_ its :
  at_items rules pos is_ -> is_ <> [] -> stack_items rules stack its ->
  stack_items rules (pos :: stack) (is_ ++ its).
Proof. intros Hp Hn (iss & H & ->). exists (is_ :: iss). by split; [constructor|]. Qed.

Lemma stack_items_inv rules pos stack its :
  stack_items rules (pos :: stack) its ->
  exists it is_ its', at_items rules pos (it :: is_) /\ stack_items rules stack its' /\
    its = it :: is_ ++ its'.
Proof.
  intros (iss & H & ->). inversion H as [|? i ? iss' [Hp Hn] Hs]; subst.
  destruct i as [|it is_]; [done|]. exists it, is_, (concat iss'). splits; [done|by exists iss'|done].
Qed.

Lemma stack_items_fun rules stack its its' :
  stack_items rules stack its -> stack_items rules stack its' -> its = its'.
Proof.
  revert its its'. induction stack as [|pos stack IH]; intros its its' H H'.
  - destruct H as (iss & H & ->), H' as (iss' & H' & ->). inversion H; by inversion H'.
  - apply stack_items_inv in H as (it & is_ & r & Hp & Hr & ->).
    apply stack_items_inv in H' as (it' & is_' & r' & Hp' & Hr' & ->).
    pose proof (at_items_fun _ _ _ _ Hp Hp') as [= -> ->]. by rewrite (IH _ _ Hr Hr').
Qed.

Lemma push_unless_end_items rules pos is_ stack its :
  at_items rules pos is_ -> stack_items rules stack its ->
  exists stack', push_unless_end rules pos stack = Ok stack' /\ stack_items rules stack' (is_ ++ its).
Proof.
  intros Hp Hs. unfold push_unless_end. destruct is_ as [|it is_].
  - rewrite (at_items_end _ _ Hp). by exists stack.
  - rewrite (at_items_not_end _ _ _ _ Hp). exists (pos :: stack). split; [done|].
    by apply stack_items_cons.
Qed.

(** ** More fuel gives the same result *)

Lemma for_alternates_mono {S} rules (visit visit' : gpos -> S -> res S) pos s r :
  (forall p s r, visit p s = Ok r -> visit' p s = Ok r) ->
  for_alternates rules visit pos s = Ok r -> for_alternates rules visit' pos s = Ok r.
Proof.
  intros Hv. apply while_mono. intros [p t] r'. rewrite !res_bind_ok.
  intros (a & Ha & H). exists a. split; [by apply Hv|done].
Qed.

Lemma advance_stack_mono fuel fuel' rules stack olds news :
  (fuel <= fuel')%nat -> llama_grammar_advance_stack fuel rules stack olds = Ok news ->
  llama_grammar_advance_stack fuel' rules stack olds = Ok news.
Proof.
  revert fuel' stack olds news. induction fuel as [|fuel IH]; intros fuel' stack olds news Hf H; [done|].
  destruct fuel' as [|fuel']; [lia|]. cbn [llama_grammar_advance_stack] in *.
  destruct stack as [|pos below]; [done|].
  apply res_bind_ok in H as (e & He & H). rewrite He. cbn [mbind res_bind].
  destruct (elem_type e); try done. revert H. apply for_alternates_mono.
  intros p s r. rewrite !res_bind_ok. intros (s1 & H1 & H). exists s1. split; [done|].
  revert H. rewrite !res_bind_ok. intros (s2 & H2 & H). exists s2. split; [done|].
  apply IH; [lia|done].
Qed.

Lemma accept_mono fuel fuel' rules stacks chr news :
  (fuel <= fuel')%nat -> llama_grammar_accept fuel rules stacks chr = Ok news ->
  llama_grammar_accept fuel' rules stacks chr = Ok news.
Proof.
  intros Hf. apply foldM_mono. intros s stack r _. unfold accept_stack.
  destruct stack as [|top below]; [done|]. rewrite !res_bind_ok.
  intros (m & Hm & H). exists m. split; [done|]. destruct (fst m); [|done].
  revert H. rewrite !res_bind_ok. intros (s' & Hs' & H). exists s'. split; [done|].
  by eapply advance_stack_mono.
Qed.

Section engine.
Context (G : grammar) (rules : llama_grammar_rules).
Context (Henc : encodes G rules) (Hclosed : closed_grammar G).

(** What a stack, and a set of stacks, can do in a semantics [sem] of items:
    with [gen G], the words they accept. *)
Definition stack_sem {X} (sem : list item -> X -> Prop) (stack : llama_grammar_stack) (x : X) : Prop :=
  exists its, stack_items rules stack its /\ sem its x.

Definition stacks_sem {X} (sem : list item -> X -> Prop) (stacks : llama_grammar_stacks) (x : X) : Prop :=
  exists stack, stack ∈ stacks /\ stack_sem sem stack x.

(** A semantics in which a reference stands for its alternates. *)
Definition ref_sem {X} (sem : list item -> X -> Prop) : Prop :=
  forall r alts tail x, zlookup G r = Some alts ->
    sem (IRef r :: tail) x <-> exists alt, alt ∈ alts /\ sem (alt ++ tail) x.

Lemma gen_ref_sem : ref_sem (gen G).
Proof.
  intros r alts tail w HG. split.
  - intros (alts' & alt & HG' & Hin & Hg)%gen_ref_inv. rewrite HG in HG'. injection HG' as <-.
    by exists alt.
  - intros (alt & Hin & Hg). by econstructor.
Qed.

(** A stack inside the grammar. *)
Definition valid_stack (stack : llama_grammar_stack) : Prop :=
  exists its, stack_items rules stack its /\ closed_items (zlen G) its.

(** A stack that is empty or positioned at a character element. *)
Definition terminal_stack (stack : llama_grammar_stack) : Prop :=
  stack = [] \/ exists pos below it is_, stack = pos :: below /\ at_items rules pos (it :: is_) /\
                  is_ref it = false.

Definition good_stacks (stacks : llama_grammar_stacks) : Prop :=
  Forall (fun s => valid_stack s /\ terminal_stack s) stacks /\ NoDup stacks.

Lemma stack_sem_items {X} (sem : list item -> X -> Prop) stack its x :
  stack_items rules stack its -> stack_sem sem stack x <-> sem its x.
Proof.
  intros Hs. split; [|by exists its]. intros (its' & Hs' & Hg).
  by rewrite (stack_items_fun _ _ _ _ Hs Hs').
Qed.

Lemma rule_of_ref r :
  0 <= r < zlen G -> exists alts, zlookup G r = Some alts /\ alts <> [] /\
    zlookup rules r = Some (flatten_rule alts) /\ Forall (closed_items (zlen G)) alts.
Proof.
  intros Hr. destruct (zlookup_lt G r Hr) as [alts Ha]. exists alts.
  unfold zlookup in *. destruct (Z.leb_spec 0 r); [|done].
  unfold encodes in Henc. destruct (Forall2_lookup_l _ _ _ _ _ Henc Ha) as (rule & Hrule & Hne & ->).
  splits; [done|done|done|]. unfold closed_grammar in Hclosed. by eapply Forall_lookup in Hclosed.
Qed.

Lemma closed_items_app a b :
  closed_items (zlen G) (a ++ b) <-> closed_items (zlen G) a /\ closed_items (zlen G) b.
Proof. apply Forall_app. Qed.

Lemma add_stack_good stack stacks :
  good_stacks stacks -> valid_stack stack -> terminal_stack stack ->
  good_stacks (add_stack stack stacks).
Proof.
  intros [Hf Hn] Hv Ht. unfold add_stack. case_bool_decide as Hin; [done|]. split.
  - apply Forall_app. split; [done|by apply Forall_singleton].
  - apply NoDup_app. splits; [done|set_solver|apply NoDup_singleton].
Qed.

Lemma add_stack_sem {X} (sem : list item -> X -> Prop) stack stacks x :
  stacks_sem sem (add_stack stack stacks) x <-> stacks_sem sem stacks x \/ stack_sem sem stack x.
Proof.
  unfold add_stack, stacks_sem. case_bool_decide as Hin; [naive_solver|].
  setoid_rewrite elem_of_app. setoid_rewrite list_elem_of_singleton. naive_solver.
Qed.

Lemma add_stack_in stack stacks s : s ∈ stacks -> s ∈ add_stack stack stacks.
Proof. unfold add_stack. case_bool_decide; set_solver. Qed.

Lemma add_stack_nonempty stack stacks : add_stack stack stacks <> [].
Proof.
  unfold add_stack. case_bool_decide as H; [by destruct stacks; [apply not_elem_of_nil in H|]|].
  by destruct stacks.
Qed.

(** What expanding a stack does to the collected stacks: [added] is what the
    stack contributes. *)
Definition advanced {X} (sem : list item -> X -> Prop) (added : X -> Prop)
    (olds news : llama_grammar_stacks) : Prop :=
  good_stacks news /\ (forall s, s ∈ olds -> s ∈ news) /\
  (forall x, stacks_sem sem news x <-> stacks_sem sem olds x \/ added x).

Lemma advance_add {X} (sem : list item -> X -> Prop) stack olds :
  good_stacks olds -> valid_stack stack -> terminal_stack stack ->
  advanced sem (stack_sem sem stack) olds (add_stack stack olds) /\ add_stack stack olds <> [].
Proof.
  intros. split; [|apply add_stack_nonempty]. split; [by apply add_stack_good|].
  split; [intros s; apply add_stack_in|]. intros w. apply add_stack_sem.
Qed.

Lemma advance_stack_post {X} (sem : list item -> X -> Prop) fuel stack olds :
  ref_sem sem -> valid_stack stack -> good_stacks olds ->
  post (llama_grammar_advance_stack fuel rules stack olds)
    (fun news => advanced sem (stack_sem sem stack) olds news /\ news <> []) (eq Fuel).
Proof.
  intros Hsem. revert stack olds. induction fuel as [|fuel IH]; intros stack olds Hv Hgood; [done|].
  pose proof Hv as (its & Hs & Hc). destruct stack as [|pos below].
  { apply advance_add; [done|done|by left]. }
  apply stack_items_inv in Hs as (it & is_ & rest & Hp & Hb & ->).
  destruct (at_items_view _ _ _ _ Hp) as (l & Hview & Hl & Hafter).
  destruct (is_ref it) eqn:Hr.
  2: { assert (Ht : terminal_stack (pos :: below)) by (right; eauto 10).
       destruct (advance_add sem (pos :: below) olds Hgood Hv Ht) as [HA HB].
       destruct it as [r| |neg x xs]; [done| |]; cbn [flatten_item app] in Hview;
         cbn [llama_grammar_advance_stack].
       - rewrite (view_elem _ _ _ _ Hview). by split.
       - assert (elem_at rules pos = Ok (mk_elem (class_type neg) (fst x))) as ->
           by (eapply view_elem; exact Hview).
         by destruct neg. }
  destruct it as [r| |]; [|done..]. cbn [flatten_item app length] in *.
  cbn [llama_grammar_advance_stack]. rewrite (view_elem _ _ _ _ Hview). cbn [mbind res_bind elem_type elem_value].
  inversion_clear Hc as [|? ? Hcr Hcrest]. cbn [item_refs] in Hcr. rewrite Forall_singleton in Hcr.
  destruct (rule_of_ref r Hcr) as (alts & HGr & Hne & Hrr & Hca).
  set (tail := is_ ++ rest) in *.
  eapply post_mono.
  - eapply (for_alternates_post rules _ r alts olds (fun seen news =>
      advanced sem (fun w => exists alt, alt ∈ seen /\ sem (alt ++ tail) w) olds news /\
      (seen <> [] -> news <> []))); [done|done| |].
    + split; [|done]. split; [done|]. split; [done|]. intros w. split; [by left|].
      intros [H|(alt & Hin & _)]; [done|]. by apply not_elem_of_nil in Hin.
    + intros subpos seen alt t Hat Hin ((Hgt & Hsub & Hlang) & _).
      destruct (push_unless_end_items _ _ _ _ _ Hafter Hb) as (s1 & E1 & Hs1).
      destruct (push_unless_end_items _ _ _ _ _ Hat Hs1) as (s2 & E2 & Hs2).
      rewrite E1. cbn [mbind res_bind]. rewrite E2. cbn [mbind res_bind].
      eapply post_mono; [apply IH| |].
      * exists (alt ++ tail). split; [done|]. apply closed_items_app. split; [|done].
        by eapply Forall_forall in Hca.
      * done.
      * intros news ((Hgn & Hsub' & Hlang') & Hnn). split; [|done]. split; [done|]. split; [auto|].
        intros w. rewrite Hlang', Hlang, (stack_sem_items sem _ _ _ Hs2).
        setoid_rewrite elem_of_app. setoid_rewrite list_elem_of_singleton. naive_solver.
      * done.
  - intros news ((Hgn & Hsub & Hlang) & Hnn). split; [|by apply Hnn].
    split; [done|]. split; [done|]. intros w. rewrite Hlang.
    rewrite (stack_sem_items sem _ (IRef r :: tail)).
    2: { apply (stack_items_cons rules pos below (IRef r :: is_) rest); [done|done|done]. }
    by rewrite (Hsem r alts tail w HGr).
  - done.
Qed.

(** ** Accepting a character *)

(** A stack positioned at a character element reads one code point. *)
Lemma match_top pos below it is_ rest chr :
  at_items rules pos (it :: is_) -> is_ref it = false -> stack_items rules below rest ->
  exists after, llama_grammar_match_char rules pos chr = Ok (item_accepts it chr, after) /\
    exists stack', push_unless_end rules after below = Ok stack' /\
      stack_items rules stack' (is_ ++ rest).
Proof.
  intros Hp Hr Hb. destruct (at_items_view _ _ _ _ Hp) as (l & Hview & Hl & Hafter).
  eexists. split; [by eapply match_char_item|]. by apply push_unless_end_items.
Qed.

(** What follows after reading [chr] at a character element. *)
Definition after_char {X} (sem : list item -> X -> Prop) (chr : Z) (its : list item) (x : X) : Prop :=
  match its with
  | it :: rest => is_ref it = false /\ item_accepts it chr = true /\ sem rest x
  | [] => False
  end.

Lemma accept_stack_post {X} (sem : list item -> X -> Prop) fuel chr olds stack :
  ref_sem sem -> valid_stack stack -> terminal_stack stack -> good_stacks olds ->
  post (accept_stack fuel rules chr olds stack)
    (fun news => advanced sem (fun x => stack_sem (after_char sem chr) stack x) olds news) (eq Fuel).
Proof.
  intros Hsem (its & Hs & Hc) Ht Hgood. destruct Ht as [->|(pos & below & it & is_ & -> & Hp & Hr)].
  { cbn. split; [done|]. split; [done|]. intros w. split; [by left|]. intros [H|H]; [done|].
    by apply (stack_sem_items _ [] _ _ (stack_items_nil _)) in H. }
  apply stack_items_inv in Hs as (it' & is_' & rest & Hp' & Hb & ->).
  pose proof (at_items_fun _ _ _ _ Hp Hp') as [= <- <-].
  destruct (match_top _ _ _ _ _ chr Hp Hr Hb) as (after & Hm & stack' & Hpush & Hs').
  assert (Hlang : forall x, stack_sem (after_char sem chr) (pos :: below) x <->
    item_accepts it chr = true /\ sem (is_ ++ rest) x).
  { intros w. rewrite (stack_sem_items _ _ (it :: is_ ++ rest)); [cbn; naive_solver|].
    by apply (stack_items_cons rules pos below (it :: is_) rest). }
  cbn [accept_stack]. rewrite Hm. cbn [mbind res_bind fst snd].
  destruct (item_accepts it chr) eqn:Hacc.
  - rewrite Hpush. cbn [mbind res_bind]. eapply post_mono.
    + apply (advance_stack_post sem); [done| |done]. exists (is_ ++ rest). split; [done|].
      by inversion_clear Hc.
    + intros news ((Hg & Hsub & Hl) & _). split; [done|]. split; [done|].
      intros w. rewrite Hl, Hlang, (stack_sem_items sem _ _ _ Hs'). naive_solver.
    + done.
  - cbn. split; [done|]. split; [done|]. intros w. rewrite Hlang. naive_solver.
Qed.

Lemma accept_post {X} (sem : list item -> X -> Prop) fuel stacks chr :
  ref_sem sem -> good_stacks stacks ->
  post (llama_grammar_accept fuel rules stacks chr)
    (fun news => good_stacks news /\
       forall x, stacks_sem sem news x <-> stacks_sem (after_char sem chr) stacks x)
    (eq Fuel).
Proof.
  intros Hsem [Hf Hn]. unfold llama_grammar_accept. eapply post_mono.
  - eapply (foldM_post _ (fun seen news => good_stacks news /\
      forall x, stacks_sem sem news x <-> stacks_sem (after_char sem chr) seen x)).
    + split; [split; [constructor|constructor]|].
      intros w. unfold stacks_sem. set_solver.
    + intros seen stack t Hin [Hg Hl].
      rewrite Forall_forall in Hf. destruct (Hf _ Hin) as [Hv Ht].
      eapply post_mono; [by apply (accept_stack_post sem)| |done].
      intros news (Hg' & _ & Hl'). split; [done|]. intros w. rewrite Hl', Hl.
      unfold stacks_sem. setoid_rewrite elem_of_app. setoid_rewrite list_elem_of_singleton.
      naive_solver.
  - done.
  - done.
Qed.

(** On the stacks of the engine, which are empty or at a character element,
    reading a character is the derivative of the language. *)
Lemma after_char_gen stacks chr w :
  good_stacks stacks ->
  stacks_sem (after_char (gen G) chr) stacks w <-> stacks_sem (gen G) stacks (chr :: w).
Proof.
  intros [Hf _]. unfold stacks_sem. rewrite Forall_forall in Hf.
  assert (H : forall stack, stack ∈ stacks ->
    stack_sem (after_char (gen G) chr) stack w <-> stack_sem (gen G) stack (chr :: w)).
  { intros stack Hin. destruct (Hf _ Hin) as [(its & Hs & _) Ht].
    rewrite !(stack_sem_items _ _ _ _ Hs). destruct Ht as [->|(pos & below & it & is_ & -> & Hp & Hr)].
    - rewrite (stack_items_fun _ _ _ _ Hs (stack_items_nil rules)). cbn.
      split; [done|]. by inversion 1.
    - apply stack_items_inv in Hs as (it' & is_' & rest & Hp' & _ & ->).
      pose proof (at_items_fun _ _ _ _ Hp Hp') as [= <- <-]. cbn. split.
      + intros (_ & Hacc & Hg). by constructor.
      + intros (c & v & [= <- <-] & Hacc & Hg)%gen_char_inv; done. }
  split; intros (stack & Hin & Hw); exists stack; (split; [done|by apply H]).
Qed.

(** ** Initial stacks *)

Lemma init_stacks_post fuel start :
  0 <= start < zlen G ->
  post (init_stacks fuel rules start)
    (fun stacks => good_stacks stacks /\ stacks <> [] /\
                   forall w, stacks_sem (gen G) stacks w <-> gen G [IRef start] w) (eq Fuel).
Proof.
  intros Hstart. destruct (rule_of_ref start Hstart) as (alts & HGs & Hne & Hrs & Hca).
  unfold init_stacks. unfold vget at 1. rewrite Hrs. cbn [or_ub mbind res_bind].
  eapply post_mono.
  - eapply (for_alternates_post rules _ start alts [] (fun seen news =>
      advanced (gen G) (fun w => exists alt, alt ∈ seen /\ gen G alt w) [] news /\
      (seen <> [] -> news <> []))); [done|done| |].
    + split; [|done]. split; [split; constructor|]. split; [done|]. intros w. set_solver.
    + intros pos seen alt t Hat Hin ((Hgt & Hsub & Hlang) & _).
      destruct (push_unless_end_items _ _ _ _ _ Hat (stack_items_nil rules)) as (s & E & Hs).
      rewrite E. cbn [mbind res_bind]. rewrite app_nil_r in Hs.
      eapply post_mono; [apply (advance_stack_post (gen G)); [apply gen_ref_sem| |done]| |done].
      * exists alt. split; [done|]. by eapply Forall_forall in Hca.
      * intros news ((Hgn & Hsub' & Hlang') & Hnn). split; [|done]. split; [done|]. split; [auto|].
        intros w. rewrite Hlang', Hlang, (stack_sem_items (gen G) _ _ _ Hs).
        setoid_rewrite elem_of_app. setoid_rewrite list_elem_of_singleton. naive_solver.
  - intros news ((Hgn & _ & Hlang) & Hnn). split; [done|]. split; [by apply Hnn|].
    intros w. rewrite Hlang. split.
    + intros [H|(alt & Hin & Hg)]; [unfold stacks_sem in H; set_solver|].
      econstructor; [done|done|]. by rewrite app_nil_r.
    + intros (alts' & alt & Ha & Hin & Hg)%gen_ref_inv. rewrite HGs in Ha. injection Ha as <-.
      rewrite app_nil_r in Hg. right. by exists alt.
  - done.
Qed.

(** ** Termination of the expansion *)

(** [r'] can be the leftmost symbol of a derivation from [r]. *)
Definition left_edge (r' r : Z) : Prop :=
  exists alts alt pre suf, zlookup G r = Some alts /\ alt ∈ alts /\
    alt = pre ++ IRef r' :: suf /\ gen G pre [].

(** Enough fuel exists for every stack with the items [its]. *)
Definition terminates (its : list item) : Prop :=
  exists F, forall fuel stack olds, (F <= fuel)%nat -> stack_items rules stack its ->
    closed_items (zlen G) its -> good_stacks olds ->
    exists news, llama_grammar_advance_stack fuel rules stack olds = Ok news.

(** At an empty stack or a character element one step is enough. *)
Lemma terminates_terminal its :
  match its with [] => True | it :: _ => is_ref it = false end -> terminates its.
Proof.
  intros Hits. exists 1%nat. intros [|fuel] stack olds Hf Hs _ _; [lia|]. clear Hf.
  destruct stack as [|pos below]; [by eexists|].
  apply stack_items_inv in Hs as (it & is_ & rest & Hp & _ & ->).
  destruct (at_items_view _ _ _ _ Hp) as (l & Hview & _ & _). cbn [llama_grammar_advance_stack].
  destruct it as [r| |neg x xs]; [done| |]; cbn [flatten_item app] in Hview.
  - rewrite (view_elem _ _ _ _ Hview). by eexists.
  - assert (elem_at rules pos = Ok (mk_elem (class_type neg) (fst x))) as ->
      by (eapply view_elem; exact Hview).
    destruct neg; by eexists.
Qed.

Lemma terminates_all (alts : list (list item)) tail :
  (forall alt, alt ∈ alts -> terminates (alt ++ tail)) ->
  exists F, forall alt fuel stack olds, alt ∈ alts -> (F <= fuel)%nat ->
    stack_items rules stack (alt ++ tail) -> closed_items (zlen G) (alt ++ tail) -> good_stacks olds ->
    exists news, llama_grammar_advance_stack fuel rules stack olds = Ok news.
Proof.
  induction alts as [|a alts IH]; intros H; [exists O; set_solver|].
  destruct (H a ltac:(by left)) as [F1 H1]. destruct IH as [F2 H2].
  { intros alt Hin. apply H. by right. }
  exists (F1 `max` F2)%nat. intros alt fuel stack olds Hin Hf.
  apply elem_of_cons in Hin as [->|Hin]; [apply H1; lia|apply (H2 alt); [done|lia]].
Qed.

(** One expansion of a reference, given the alternates. *)
Lemma terminates_ref r tail alts :
  zlookup G r = Some alts -> (forall alt, alt ∈ alts -> terminates (alt ++ tail)) ->
  terminates (IRef r :: tail).
Proof.
  intros HGr Halts. destruct (terminates_all alts tail Halts) as [F HF].
  exists (S F). intros [|fuel] stack olds Hf Hs Hc Hgood; [lia|].
  destruct stack as [|pos below]; [destruct Hs as (iss & H & E); inversion H; subst; done|].
  apply stack_items_inv in Hs as (it & is_ & rest & Hp & Hb & E). injection E as <- ->.
  destruct (at_items_view _ _ _ _ Hp) as (l & Hview & _ & Hafter).
  cbn [flatten_item app length] in *. cbn [llama_grammar_advance_stack].
  rewrite (view_elem _ _ _ _ Hview). cbn [mbind res_bind elem_type elem_value].
  inversion_clear Hc as [|? ? Hcr Hct]. cbn [item_refs] in Hcr. rewrite Forall_singleton in Hcr.
  destruct (rule_of_ref r Hcr) as (alts' & HGr' & Hne & Hrr & Hca).
  rewrite HGr in HGr'. injection HGr' as <-.
  apply (safe_exists _ good_stacks). eapply post_mono.
  - eapply (for_alternates_post rules _ r alts olds (fun _ news => good_stacks news)
      (fun _ => False)); [done|done|done|].
    intros subpos seen alt t Hat Hin Hgt.
    destruct (push_unless_end_items _ _ _ _ _ Hafter Hb) as (s1 & E1 & Hs1).
    destruct (push_unless_end_items _ _ _ _ _ Hat Hs1) as (s2 & E2 & Hs2).
    rewrite E1. cbn [mbind res_bind]. rewrite E2. cbn [mbind res_bind].
    assert (Hc2 : closed_items (zlen G) (alt ++ is_ ++ rest)).
    { apply closed_items_app. split; [by eapply Forall_forall in Hca|done]. }
    destruct (HF alt fuel s2 t Hin ltac:(lia) Hs2 Hc2 Hgt) as [news Hnews].
    pose proof (advance_stack_post (gen G) fuel s2 t gen_ref_sem ltac:(by eexists) Hgt) as Hpost.
    rewrite Hnews in *. by destruct Hpost as [[Hg _] _].
  - done.
  - done.
Qed.

(** Without (nullable) left recursion, every reference terminates when what
    follows does. *)
Lemma terminates_acc r tail :
  Acc left_edge r -> 0 <= r < zlen G -> (gen G [IRef r] [] -> terminates tail) ->
  terminates (IRef r :: tail).
Proof.
  intros Hacc. revert tail. induction Hacc as [r _ IH]. intros tail Hr Htail.
  destruct (rule_of_ref r Hr) as (alts & HGr & _ & _ & Hca).
  apply (terminates_ref r tail alts HGr). intros alt Hin.
  assert (Hsuf : forall suf pre, alt = pre ++ suf -> gen G pre [] -> terminates (suf ++ tail)).
  { induction suf as [|it suf IHs]; intros pre -> Hpre.
    - apply Htail. econstructor; [done|done|]. rewrite !app_nil_r in *. done.
    - destruct (is_ref it) eqn:Hit; [|by apply terminates_terminal].
      destruct it as [r'| |]; [|done..]. cbn [app]. apply IH.
      + by exists alts, (pre ++ IRef r' :: suf), pre, suf.
      + eapply Forall_forall in Hca; [|exact Hin]. apply Forall_app in Hca as [_ Hca].
        inversion_clear Hca as [|? ? Hx _]. cbn in Hx. by rewrite Forall_singleton in Hx.
      + intros Hnull. apply (IHs (pre ++ [IRef r'])); [by rewrite <- app_assoc|].
        apply gen_app_inv. by exists [], []. }
  apply (Hsuf alt []); [done|constructor].
Qed.

Lemma terminates_items its :
  (forall r, 0 <= r < zlen G -> Acc left_edge r) -> closed_items (zlen G) its -> terminates its.
Proof.
  intros Hacc. induction its as [|it its IH]; intros Hc; [by apply terminates_terminal|].
  inversion_clear Hc as [|? ? Hx Hc']. specialize (IH Hc').
  destruct (is_ref it) eqn:Hit; [|by apply terminates_terminal].
  destruct it as [r| |]; [|done..]. cbn in Hx. rewrite Forall_singleton in Hx.
  apply terminates_acc; auto.
Qed.

(** Enough fuel for one stack, and for accepting one character. *)
Context (Hacc : forall r, 0 <= r < zlen G -> Acc left_edge r).

Lemma advance_stack_terminates stack olds :
  valid_stack stack -> good_stacks olds ->
  exists F news, forall fuel, (F <= fuel)%nat ->
    llama_grammar_advance_stack fuel rules stack olds = Ok news.
Proof.
  intros (its & Hs & Hc) Hg. destruct (terminates_items its Hacc Hc) as [F HF].
  destruct (HF F stack olds (Nat.le_refl _) Hs Hc Hg) as [news Hn].
  exists F, news. intros fuel Hf. by eapply advance_stack_mono.
Qed.

Lemma accept_terminates stacks chr :
  good_stacks stacks ->
  exists F news, forall fuel, (F <= fuel)%nat -> llama_grammar_accept fuel rules stacks chr = Ok news.
Proof.
  intros [Hf Hn]. unfold llama_grammar_accept.
  assert (H : forall olds, good_stacks olds -> exists F news, forall fuel, (F <= fuel)%nat ->
    foldM (accept_stack fuel rules chr) olds stacks = Ok news).
  { clear Hn. induction Hf as [|stack stacks [Hv Ht] _ IH]; intros olds Hg; [by exists O, olds|].
    assert (H1 : exists F news, forall fuel, (F <= fuel)%nat ->
      accept_stack fuel rules chr olds stack = Ok news).
    { destruct Hv as (its & Hs & Hc).
      destruct Ht as [->|(pos & below & it & is_ & -> & Hp & Hr)]; [by exists O, olds|].
      apply stack_items_inv in Hs as (it' & is_' & rest & Hp' & Hb & ->).
      pose proof (at_items_fun _ _ _ _ Hp Hp') as [= <- <-].
      destruct (match_top _ _ _ _ _ chr Hp Hr Hb) as (after & Hm & stack' & Hpush & Hs').
      cbn [accept_stack]. rewrite Hm. cbn [mbind res_bind fst snd].
      destruct (item_accepts it chr); [|by exists O, olds].
      rewrite Hpush. cbn [mbind res_bind]. apply advance_stack_terminates; [|done].
      exists (is_ ++ rest). split; [done|]. by inversion_clear Hc. }
    destruct H1 as (F1 & news & H1).
    pose proof (accept_stack_post (gen G) F1 chr olds stack gen_ref_sem Hv Ht Hg) as Hpost.
    rewrite (H1 F1 (Nat.le_refl _)) in Hpost. destruct Hpost as [Hgn _].
    destruct (IH news Hgn) as (F2 & out & H2). exists (F1 `max` F2)%nat, out. intros fuel Hfuel.
    apply foldM_ok_inv. exists news. split; [apply H1; lia|apply H2; lia]. }
  apply H. split; constructor.
Qed.
End engine.
