(* ===== verification/GrammarLeftRecursion.v ===== *)
(** Left recursion detection of the grammar engine: the search of
    [llama_grammar_detect_left_recursion] always ends, and when it finds nothing
    the expansion of stacks terminates, provided that every nullable rule has an
    empty alternate. *)
From S2P Require Import Prelude GrammarUtf8 GrammarSyntax GrammarEngine.

(** The number of [true] entries. *)
Fixpoint count_true (l : list bool) : nat :=
  match l with
  | [] => O
  | b :: l => ((if b then 1 else 0) + count_true l)%nat
  end.

Lemma count_true_le l : (count_true l <= length l)%nat.
Proof. induction l as [|[] l IH]; cbn; lia. Qed.

Lemma count_true_insert l i : l !! i = Some false -> count_true (<[i := true]> l) = S (count_true l).
Proof.
  revert i. induction l as [|b l IH]; intros [|i] H; [done..| |].
  - injection H as ->. done.
  - change (<[S i := true]> (b :: l)) with (b :: <[i := true]> l). cbn [count_true].
    rewrite (IH i H). lia.
Qed.

(** The first loop of the detection looks for an empty alternate. *)
Lemma has_empty_items b its e l :
  is_end_type (elem_type e) = true ->
  has_empty_alternate b (flatten_items its ++ e :: l) =
    match its with
    | [] => if b then true else has_empty_alternate true l
    | _ => has_empty_alternate true l
    end.
Proof.
  intros He.
  assert (H : forall a c, Forall (fun x => is_end_type (elem_type x) = false) a ->
    has_empty_alternate c (a ++ e :: l) =
      if c && match a with [] => true | _ => false end then true else has_empty_alternate true l).
  { induction a as [|x a IH]; intros c Ha; cbn.
    - rewrite He. by destruct c.
    - inversion_clear Ha as [|? ? Hx Ha']. rewrite Hx, IH by done. by rewrite andb_false_r. }
  rewrite H by apply flatten_items_not_end.
  destruct its as [|it its]; [by destruct b|].
  rewrite flatten_items_cons. destruct (flatten_item_head it) as (h & tl & -> & _).
  cbn. by rewrite andb_false_r.
Qed.

Definition is_empty_alt (alt : list item) : bool := match alt with [] => true | _ => false end.

Lemma has_empty_rule alts :
  alts <> [] -> has_empty_alternate true (flatten_rule alts) = existsb is_empty_alt alts.
Proof.
  induction alts as [|its alts IH]; intros Hne; [done|].
  destruct (flatten_rule_cons its alts) as (e & l & E & He & Hend & Halt).
  rewrite E, has_empty_items by done. destruct alts as [|b alts].
  - unfold flatten_rule in E. cbn [flatten_alts] in E.
    apply (flatten_items_inj its its elem_end e [] l) in E as [_ [= <- <-]]; [|done..].
    destruct its; done.
  - destruct (Halt ltac:(done)) as [_ ->]. cbn [existsb]. rewrite IH by done. by destruct its.
Qed.

Section detection.
Context (G : grammar) (rules : llama_grammar_rules).
Context (Henc : encodes G rules) (Hclosed : closed_grammar G).

(** [r] has an empty alternate: what [rules_may_be_empty] records. *)
Definition directly_empty (r : Z) : bool :=
  match zlookup G r with Some alts => existsb is_empty_alt alts | None => false end.

(** The references the second loop follows in an alternate. *)
Fixpoint left_refs (its : list item) : list Z :=
  match its with
  | IRef r :: its => r :: if directly_empty r then left_refs its else []
  | _ => []
  end.

Definition direct_edge (r' r : Z) : Prop :=
  exists alts alt, zlookup G r = Some alts /\ alt ∈ alts /\ r' ∈ left_refs alt.

Lemma zlen_G : zlen G = zlen rules.
Proof. unfold zlen. by rewrite (Forall2_length _ _ _ Henc). Qed.

Definition visited_in (s : left_recursion_state) (r : Z) : Prop :=
  zlookup (rules_visited s) r = Some true.

(** The invariant of the search. *)
Definition search_inv (s : left_recursion_state) : Prop :=
  length (rules_visited s) = length rules /\ length (rules_in_progress s) = length rules /\
  length (rules_may_be_empty s) = length rules /\
  (forall r, zlookup (rules_may_be_empty s) r = Some true -> directly_empty r = true) /\
  (forall r, visited_in s r -> Acc direct_edge r /\
     zlookup (rules_may_be_empty s) r = Some (directly_empty r)).

Definition keeps_visited (s s' : left_recursion_state) : Prop :=
  forall r, (visited_in s r -> visited_in s' r) /\
            (zlookup (rules_may_be_empty s) r = Some true ->
             zlookup (rules_may_be_empty s') r = Some true).

Lemma keeps_refl s : keeps_visited s s.
Proof. by intros r. Qed.

Lemma keeps_trans a b c : keeps_visited a b -> keeps_visited b c -> keeps_visited a c.
Proof. intros H1 H2 r. destruct (H1 r), (H2 r). auto. Qed.

(** What one call of the search returns. *)
Definition search_result (r : Z) (s : left_recursion_state) (res : bool * left_recursion_state) : Prop :=
  search_inv (snd res) /\ keeps_visited s (snd res) /\
  (fst res = false -> rules_in_progress (snd res) = rules_in_progress s /\ visited_in (snd res) r).

Section loop.
Context (detect : Z -> left_recursion_state -> res (bool * left_recursion_state)) (ip : list bool).
Context (Hdetect : forall r s, search_inv s -> 0 <= r < zlen G -> rules_in_progress s = ip ->
  safe (detect r s) (search_result r s)).

Lemma detect_loop_chars a k flag s :
  a <> [] -> Forall (fun e => is_end_type (elem_type e) = false /\
                              elem_type e <> LLAMA_GRETYPE_RULE_REF) a ->
  detect_loop detect (a ++ k) flag s = detect_loop detect k false s.
Proof.
  intros Hne Ha. revert flag. induction Ha as [|e a [He Hr] Ha IH]; intros flag; [done|].
  cbn [app detect_loop]. unfold type_eqb. rewrite (bool_decide_eq_false_2 _ Hr), He. cbn [andb].
  destruct a as [|x a]; [done|]. by apply IH.
Qed.

Lemma chars_no_ref it :
  is_ref it = false ->
  flatten_item it <> [] /\ Forall (fun e => is_end_type (elem_type e) = false /\
                              elem_type e <> LLAMA_GRETYPE_RULE_REF) (flatten_item it).
Proof.
  intros Hr. destruct it as [r| |neg x xs]; [done|by split; repeat constructor|]. split; [done|].
  assert (Hrng : forall t y, is_end_type t = false -> t <> LLAMA_GRETYPE_RULE_REF ->
    Forall (fun e => is_end_type (elem_type e) = false /\ elem_type e <> LLAMA_GRETYPE_RULE_REF)
      (flatten_range t y)).
  { intros t [y [h|]] H1 H2; repeat constructor; done. }
  cbn [flatten_item]. apply Forall_app. split; [by apply Hrng; destruct neg|].
  clear Hr. induction xs as [|y xs IH]; [constructor|]. rewrite flatten_more_cons. apply Forall_app.
  split; [by apply Hrng|done].
Qed.

Lemma detect_loop_items its k flag s (Q : bool * left_recursion_state -> Prop) :
  closed_items (zlen G) its -> search_inv s -> rules_in_progress s = ip ->
  (forall s', search_inv s' -> keeps_visited s s' -> Q (true, s')) ->
  (forall s' flag', search_inv s' -> rules_in_progress s' = ip -> keeps_visited s s' ->
     (flag = true -> Forall (visited_in s') (left_refs its)) ->
     safe (detect_loop detect k flag' s') Q) ->
  safe (detect_loop detect (flatten_items its ++ k) flag s) Q.
Proof.
  revert flag s. induction its as [|it its IH]; intros flag s Hc Hs Hip Hfound Hnext.
  { apply Hnext; [done|done|apply keeps_refl|constructor]. }
  inversion_clear Hc as [|? ? Hcr Hc']. rewrite flatten_items_cons, <- app_assoc.
  destruct (is_ref it) eqn:Hr.
  2: { destruct (chars_no_ref it Hr) as [Hne Hch]. rewrite detect_loop_chars by done.
       apply IH; [done..|]. intros s' flag' H1 H2 H3 _. apply Hnext; [done..|].
       intros _. destruct it; [done|constructor..]. }
  destruct it as [r| |]; [|done..]. cbn in Hcr. rewrite Forall_singleton in Hcr.
  cbn [flatten_item app detect_loop elem_type elem_value].
  change (type_eqb LLAMA_GRETYPE_RULE_REF LLAMA_GRETYPE_RULE_REF) with true. cbn [andb is_end_type].
  destruct flag.
  2: { apply IH; [done..|]. intros s' flag' H1 H2 H3 _. by apply Hnext. }
  eapply post_bind; [by apply Hdetect|]. intros [found s1] (Hs1 & Hk1 & Hf1). cbn [fst snd] in *.
  destruct found; [by apply Hfound|]. destruct (Hf1 eq_refl) as [Hip1 Hv1].
  destruct Hs1 as (L1 & L2 & L3 & Hm & Hvis). destruct (Hvis r Hv1) as [_ Hmr].
  rewrite (vget_Some _ _ _ Hmr). cbn [mbind res_bind].
  apply IH; [done|by splits|by rewrite Hip1| |].
  - intros s' Hs' Hk'. apply Hfound; [done|]. by eapply keeps_trans.
  - intros s' flag' H1 H2 H3 H4. apply Hnext; [done|done|by eapply keeps_trans|].
    intros _. constructor; [by apply H3|]. destruct (directly_empty r); [auto|constructor].
Qed.

Lemma detect_loop_rule alts s :
  Forall (closed_items (zlen G)) alts -> alts <> [] -> search_inv s -> rules_in_progress s = ip ->
  safe (detect_loop detect (flatten_rule alts) true s) (fun res =>
    search_inv (snd res) /\ keeps_visited s (snd res) /\
    (fst res = false -> rules_in_progress (snd res) = ip /\
       forall alt, alt ∈ alts -> Forall (visited_in (snd res)) (left_refs alt))).
Proof.
  revert s. induction alts as [|its alts IH]; intros s Hc Hne Hs Hip; [done|].
  inversion_clear Hc as [|? ? Hci Hc'].
  destruct (flatten_rule_cons its alts) as (e & l & E & He & Hend & Halt). rewrite E.
  apply detect_loop_items; [done|done|done|by splits|].
  intros s' flag' Hs' Hip' Hk' Hv. cbn [detect_loop].
  assert (Hnr : type_eqb (elem_type e) LLAMA_GRETYPE_RULE_REF = false) by by destruct e as [[] ?].
  rewrite Hnr, He. cbn [andb].
  destruct alts as [|b alts].
  - assert (l = []) as ->.
    { unfold flatten_rule in E. cbn [flatten_alts] in E.
      apply (flatten_items_inj its its elem_end e [] l) in E as [_ [= <- <-]]; done. }
    cbn. splits; [done|done|]. intros _. split; [done|].
    intros alt Ha. apply list_elem_of_singleton in Ha as ->. by apply Hv.
  - destruct (Halt ltac:(done)) as [_ ->].
    eapply post_mono; [by apply IH| |done].
    intros [b' s2] (H1 & H2 & H3). cbn [fst snd] in *. splits; [done|by eapply keeps_trans|].
    intros Hb. destruct (H3 Hb) as [H4 H5]. split; [done|].
    intros alt Ha. apply elem_of_cons in Ha as [->|Ha]; [|by apply H5].
    eapply Forall_impl; [by apply Hv|]. intros r Hr. by apply H2.
Qed.
End loop.

Lemma zlookup_insert_same {A} (l : list A) i x :
  0 <= i < zlen l -> zlookup (<[Z.to_nat i := x]> l) i = Some x.
Proof.
  intros Hi. unfold zlookup. destruct (Z.leb_spec 0 i); [|lia].
  apply list_lookup_insert_eq. unfold zlen in Hi. lia.
Qed.

Lemma zlookup_insert_other {A} (l : list A) i j x :
  0 <= i -> i <> j -> zlookup (<[Z.to_nat i := x]> l) j = zlookup l j.
Proof.
  intros Hi Hj. unfold zlookup. destruct (Z.leb_spec 0 j); [|done].
  apply list_lookup_insert_ne. lia.
Qed.

Lemma vset_in {A} (l : list A) i x : 0 <= i < zlen l -> vset l i x = Ok (<[Z.to_nat i := x]> l).
Proof. intros Hi. by apply vset_ok. Qed.

Lemma may_be_empty_update s r alts :
  search_inv s -> 0 <= r < zlen G -> zlookup G r = Some alts -> alts <> [] ->
  exists m, (if has_empty_alternate true (flatten_rule alts)
             then vset (rules_may_be_empty s) r true else Ok (rules_may_be_empty s)) = Ok m /\
    length m = length rules /\
    (forall i, zlookup m i = Some true -> directly_empty i = true) /\
    zlookup m r = Some (directly_empty r) /\
    (forall i b, i <> r -> zlookup (rules_may_be_empty s) i = Some b -> zlookup m i = Some b).
Proof.
  intros (_ & _ & L3 & Hm & _) Hr HGr Hne.
  assert (Hd : directly_empty r = existsb is_empty_alt alts) by by unfold directly_empty; rewrite HGr.
  rewrite has_empty_rule, <- Hd by done.
  assert (Hrl : 0 <= r < zlen (rules_may_be_empty s)).
  { rewrite zlen_G in Hr. unfold zlen in *. rewrite L3. lia. }
  destruct (directly_empty r) eqn:E.
  - rewrite vset_in by done. eexists. split; [done|]. splits.
    + by rewrite length_insert.
    + intros i Hi. destruct (decide (r = i)) as [<-|Hn]; [done|].
      rewrite zlookup_insert_other in Hi by (done || lia). auto.
    + by rewrite zlookup_insert_same.
    + intros i b Hi Hb. by rewrite zlookup_insert_other by (done || lia).
  - eexists. split; [done|]. splits; [done|done| |done].
    destruct (zlookup_lt _ _ Hrl) as [b Hb]. destruct b; [|done]. apply Hm in Hb. congruence.
Qed.

Lemma detect_post fuel r s :
  search_inv s -> 0 <= r < zlen G -> (length rules < fuel + count_true (rules_in_progress s))%nat ->
  safe (llama_grammar_detect_left_recursion fuel rules r s) (search_result r s).
Proof.
  revert r s. induction fuel as [|fuel IH]; intros r s Hs Hr Hf.
  { destruct Hs as (_ & L2 & _). pose proof (count_true_le (rules_in_progress s)). lia. }
  pose proof Hs as (L1 & L2 & L3 & Hm & Hvis). pose proof Hr as Hr'. rewrite zlen_G in Hr'.
  cbn [llama_grammar_detect_left_recursion].
  assert (Hrip : 0 <= r < zlen (rules_in_progress s)) by (unfold zlen in *; rewrite L2; lia).
  destruct (zlookup_lt _ _ Hrip) as [b Hb]. rewrite (vget_Some _ _ _ Hb). cbn [mbind res_bind].
  destruct b; [cbn; unfold search_result; splits; [done|apply keeps_refl|done]|].
  rewrite (vset_in _ _ true Hrip). cbn [mbind res_bind].
  destruct (rule_of_ref G rules Henc Hclosed r Hr) as (alts & HGr & Hne & Hrr & Hca).
  rewrite (vget_Some _ _ _ Hrr). cbn [mbind res_bind].
  destruct (may_be_empty_update s r alts Hs Hr HGr Hne) as (m & -> & Lm & Hm1 & Hm2 & Hm3).
  cbn [mbind res_bind].
  set (ip := <[Z.to_nat r := true]> (rules_in_progress s)).
  set (s1 := mk_lr (rules_visited s) ip m).
  assert (Hs1 : search_inv s1).
  { unfold search_inv, s1. cbn. splits; [done|subst ip; by rewrite length_insert|done|done|].
    intros i Hi. destruct (Hvis i Hi) as [Hacc Hmi]. split; [done|].
    destruct (decide (i = r)) as [->|Hn]; [done|by apply Hm3]. }
  assert (Hcnt : count_true ip = S (count_true (rules_in_progress s))).
  { apply count_true_insert. unfold zlookup in Hb. by destruct (0 <=? r). }
  assert (Hk1 : keeps_visited s s1).
  { intros i. split; [done|]. cbn. intros Hi. destruct (decide (i = r)) as [->|Hn]; [|by apply Hm3].
    rewrite Hm2. f_equal. by apply Hm. }
  eapply post_bind.
  { apply (detect_loop_rule (llama_grammar_detect_left_recursion fuel rules) ip); [|done..].
    intros r' s' Hs' Hr'' Hip. apply IH; [done|done|]. rewrite Hip, Hcnt. lia. }
  intros [found s2] (Hs2 & Hk2 & Hf2). cbn [fst snd] in *.
  destruct found.
  { cbn. unfold search_result. splits; [done| |done]. eapply keeps_trans; [|exact Hk2]. exact Hk1. }
  destruct (Hf2 eq_refl) as [Hip2 Hrefs].
  pose proof Hs2 as (M1 & M2 & M3 & Hmm & Hvis2).
  assert (Hrip2 : 0 <= r < zlen (rules_in_progress s2)) by (rewrite Hip2; subst ip; by rewrite zlen_insert).
  rewrite (vset_in _ _ false Hrip2). cbn [mbind res_bind].
  assert (Hrv : 0 <= r < zlen (rules_visited s2)) by (unfold zlen in *; rewrite M1; lia).
  rewrite (vset_in _ _ true Hrv). cbn [mbind res_bind post].
  assert (Hvr : forall i, zlookup (<[Z.to_nat r := true]> (rules_visited s2)) i = Some true <->
    i = r \/ visited_in s2 i).
  { intros i. destruct (decide (i = r)) as [->|Hn].
    - rewrite zlookup_insert_same by done. naive_solver.
    - rewrite zlookup_insert_other by lia. unfold visited_in. naive_solver. }
  unfold search_result. splits; cbn [fst snd].
  - unfold search_inv. cbn. rewrite !length_insert. splits; [done|done|done|done|].
    intros i Hi. unfold visited_in in Hi. cbn in Hi. apply Hvr in Hi as [->|Hi]; [|by apply Hvis2].
    split.
    + constructor. intros r' (alts' & alt & HG' & Hin & Hl). rewrite HGr in HG'. injection HG' as <-.
      specialize (Hrefs alt Hin). rewrite Forall_forall in Hrefs. by apply Hvis2, Hrefs.
    + destruct (directly_empty r) eqn:E; [by apply Hk2|].
      destruct (zlookup_lt (rules_may_be_empty s2) r) as [b' Hb']; [unfold zlen in *; rewrite M3; lia|].
      destruct b'; [|done]. apply Hmm in Hb'. congruence.
  - intros i. split.
    + intros Hi. apply Hvr. right. by apply Hk2.
    + intros Hi. by apply Hk2, Hk1.
  - intros _. split; [|by apply Hvr; left]. cbn. rewrite Hip2. subst ip.
    rewrite list_insert_insert_eq. apply list_insert_id. unfold zlookup in Hb. by destruct (0 <=? r).
Qed.

(** The loop over all rules. *)
Lemma count_false n : count_true (replicate n false) = O.
Proof. by induction n. Qed.

Lemma zlookup_replicate {A} n (x y : A) i : zlookup (replicate n x) i = Some y -> y = x.
Proof. unfold zlookup. destruct (0 <=? i); [|done]. by intros [-> _]%lookup_replicate. Qed.

Lemma check_left_recursion_post :
  safe (check_left_recursion rules)
    (fun found => found = false -> forall r, 0 <= r < zlen G -> Acc direct_edge r).
Proof.
  unfold check_left_recursion. set (n := length rules).
  eapply post_bind.
  - eapply (foldM_post _ (fun seen acc => (fst acc = false ->
      search_inv (snd acc) /\ count_true (rules_in_progress (snd acc)) = O /\
      Forall (visited_in (snd acc)) seen)) (fun _ => False)).
    + intros _. cbn. splits; [|apply count_false|constructor].
      unfold search_inv. cbn. rewrite !length_replicate. splits; [done|done|done| |].
      * intros r Hr. by apply zlookup_replicate in Hr.
      * intros r Hr. unfold visited_in in Hr. cbn in Hr. by apply zlookup_replicate in Hr.
    + intros seen i [found s] Hi Hinv. apply elem_of_zseq in Hi. cbn [fst snd] in *.
      destruct found; [done|]. destruct (Hinv eq_refl) as (Hs & Hc & Hv). clear Hinv.
      assert (HiG : 0 <= i < zlen G) by (rewrite zlen_G; unfold zlen; lia).
      pose proof Hs as (L1 & _ & _ & _ & _).
      assert (Hiv : 0 <= i < zlen (rules_visited s)) by (unfold zlen; rewrite L1; lia).
      destruct (zlookup_lt _ _ Hiv) as [v Hvi]. rewrite (vget_Some _ _ _ Hvi). cbn [mbind res_bind].
      destruct v.
      * cbn. intros _. splits; [done|done|]. apply Forall_app. split; [done|by apply Forall_singleton].
      * eapply post_mono; [apply detect_post; [done|done|lia]| |done].
        intros [found s'] (H1 & H2 & H3). cbn [fst snd] in *. intros Hf. destruct (H3 Hf) as [Hip Hvis].
        splits; [done|by rewrite Hip|]. apply Forall_app. split; [|by apply Forall_singleton].
        eapply Forall_impl; [exact Hv|]. intros r Hr. by apply H2.
  - intros [found s] Hinv. cbn [fst snd post] in *. intros Hf r Hr.
    destruct (Hinv Hf) as ((_ & _ & _ & _ & Hvis) & _ & Hv).
    apply Hvis. rewrite Forall_forall in Hv. apply Hv, elem_of_zseq.
    rewrite zlen_G in Hr. unfold zlen in Hr. subst n. lia.
Qed.

(** Every nullable rule has an empty alternate. *)
Definition nullable_directly : Prop :=
  forall r, gen G [IRef r] [] -> directly_empty r = true.

(** Then the references the search follows are all the possible leftmost ones. *)
Lemma left_edge_direct r' r : nullable_directly -> left_edge G r' r -> direct_edge r' r.
Proof.
  intros Hn (alts & alt & pre & suf & HG & Hin & -> & Hpre).
  exists alts, (pre ++ IRef r' :: suf). splits; [done|done|]. clear Hin.
  induction pre as [|it pre IH]; [by left|].
  change (it :: pre) with ([it] ++ pre) in Hpre. apply gen_app_inv in Hpre as (u & v & E & Hu & Hv).
  symmetry in E. apply app_nil in E as [-> ->].
  destruct (is_ref it) eqn:Hr.
  - destruct it as [r0| |]; [|done..]. cbn [app left_refs]. rewrite (Hn r0 Hu). right. by apply IH.
  - apply gen_char_inv in Hu as (c & w & E & _); [done|done].
Qed.

Lemma acc_left_edge r : nullable_directly -> Acc direct_edge r -> Acc (left_edge G) r.
Proof.
  intros Hn. induction 1 as [r _ IH]. constructor. intros r' Hr'. by apply IH, left_edge_direct.
Qed.
End detection.

(** * Properties *)

(** C12. Left recursion detection: on every well-formed grammar the search
    terminates without reading outside a vector; when it finds nothing, and every
    rule that can generate the empty word has an empty alternate, the expansion
    of every stack of the grammar terminates. *)
Theorem left_recursion_check_correct (G : grammar) (rules : llama_grammar_rules) :
  encodes G rules -> closed_grammar G ->
  (exists found, check_left_recursion rules = Ok found) /\
  (check_left_recursion rules = Ok false -> nullable_directly G ->
   forall stack, valid_stack G rules stack ->
   exists F, forall fuel olds, (F <= fuel)%nat -> good_stacks G rules olds ->
   exists news, llama_grammar_advance_stack fuel rules stack olds = Ok news).
Proof.
  intros Henc Hclosed. pose proof (check_left_recursion_post G rules Henc Hclosed) as H.
  split; [by eapply safe_exists|]. intros Hfalse Hn stack (its & Hs & Hc).
  rewrite Hfalse in H. cbn in H. specialize (H eq_refl).
  destruct (terminates_items G rules Henc Hclosed its) as [F HF]; [|done|].
  - intros r Hr. apply acc_left_edge; [done|by apply H].
  - exists F. intros fuel olds Hf Hg. by apply (HF fuel stack olds).
Qed.

(** [root ::= "a" root | b "c"], [b ::= | "x"] *)
Definition small_grammar : grammar :=
  [[[IClass false (97, None) []; IRef 0]; [IRef 1; IClass false (99, None) []]];
   [[]; [IClass false (120, None) []]]].

Lemma small_grammar_ok :
  encodes small_grammar (flatten_rule <$> small_grammar) /\ closed_grammar small_grammar.
Proof.
  split.
  - apply encodes_flatten. by repeat constructor.
  - unfold closed_grammar, closed_items, small_grammar, zlen. cbn. repeat constructor; lia.
Qed.

Lemma small_grammar_nullable : nullable_directly small_grammar.
Proof.
  assert (H : forall its w, gen small_grammar its w -> w = [] ->
    Forall (fun it => it = IRef 1) its).
  { induction 1 as [|it its c w _ _ _ _|r alts alt its w Hl Hin _ IH]; intros E; [constructor|done|].
    specialize (IH E). apply Forall_app in IH as [Ha Hr]. constructor; [|done].
    unfold zlookup in Hl. destruct (Z.leb_spec 0 r); [|done].
    destruct (Z.to_nat r) as [|[|k]] eqn:Er; cbn in Hl; [| |done]; injection Hl as <-.
    - exfalso. rewrite !elem_of_cons in Hin. destruct Hin as [->|[->|H0]].
      + by apply Forall_cons in Ha as [Ha _].
      + by apply Forall_cons in Ha as [_ [Ha _]%Forall_cons].
      + by apply not_elem_of_nil in H0.
    - f_equal. lia. }
  intros r Hg. specialize (H _ _ Hg eq_refl). rewrite Forall_singleton in H. injection H as ->. reflexivity.
Qed.

Lemma left_recursion_check_correct_witness :
  encodes small_grammar (flatten_rule <$> small_grammar) /\ closed_grammar small_grammar /\
  check_left_recursion (flatten_rule <$> small_grammar) = Ok false /\
  nullable_directly small_grammar /\
  valid_stack small_grammar (flatten_rule <$> small_grammar) [(0, 0%nat)] /\
  exists F, forall fuel olds, (F <= fuel)%nat ->
    good_stacks small_grammar (flatten_rule <$> small_grammar) olds ->
    exists news, llama_grammar_advance_stack fuel (flatten_rule <$> small_grammar) [(0, 0%nat)] olds = Ok news.
Proof.
  assert (Hv : valid_stack small_grammar (flatten_rule <$> small_grammar) [(0, 0%nat)]).
  { exists [IClass false (97, None) []; IRef 0]. split.
    - exists [[IClass false (97, None) []; IRef 0]]. split; [|done].
      constructor; [|constructor]. split; [|done].
      exists elem_alt, [mk_elem LLAMA_GRETYPE_RULE_REF 1; mk_elem LLAMA_GRETYPE_CHAR 99; elem_end].
      split; [|done]. eexists. by split.
    - unfold closed_items, zlen. cbn. repeat constructor; lia. }
  assert (Hchk : check_left_recursion (flatten_rule <$> small_grammar) = Ok false) by (vm_compute; reflexivity).
  destruct small_grammar_ok as [H1 H2].
  split; [exact H1|]. split; [exact H2|]. split; [exact Hchk|]. split; [exact small_grammar_nullable|].
  split; [exact Hv|].
  apply (left_recursion_check_correct small_grammar (flatten_rule <$> small_grammar) H1 H2);
    [exact Hchk|exact small_grammar_nullable|exact Hv].
Defined.

(** [root ::= b root "a" | "c"], [b ::= c], [c ::= | "x"]: [b] is nullable, but
    only through [c]. *)
Definition hidden_left_recursion : llama_grammar_rules :=
  flatten_rule <$>
    [[[IRef 1; IRef 0; IClass false (97, None) []]; [IClass false (99, None) []]];
     [[IRef 2]]; [[]; [IClass false (120, None) []]]].

(** The expansion of a reference fails when that of its first alternate does. *)
Lemma advance_ref_fails fuel rules pos below olds r s1 s2 e :
  elem_at rules pos = Ok (mk_elem LLAMA_GRETYPE_RULE_REF r) ->
  push_unless_end rules (pos_add pos 1) below = Ok s1 ->
  push_unless_end rules (r, O) s1 = Ok s2 -> rule_fuel rules (r, O) <> O ->
  llama_grammar_advance_stack fuel rules s2 olds = Err e ->
  llama_grammar_advance_stack (S fuel) rules (pos :: below) olds = Err e.
Proof.
  intros He H1 H2 Hf H. cbn [llama_grammar_advance_stack]. rewrite He.
  cbn [mbind res_bind elem_type elem_value]. unfold for_alternates.
  destruct (rule_fuel rules (r, 0%nat)); [done|]. cbn [while].
  rewrite H1. cbn [mbind res_bind]. rewrite H2. cbn [mbind res_bind]. by rewrite H.
Qed.

Lemma hidden_left_recursion_loops fuel below olds :
  llama_grammar_advance_stack fuel hidden_left_recursion ((0, 0%nat) :: below) olds = Err Fuel.
Proof.
  revert below. induction fuel as [fuel IH] using lt_wf_ind. intros below.
  destruct fuel as [|fuel]; [reflexivity|].
  eapply (advance_ref_fails _ _ _ _ _ 1); [reflexivity|reflexivity|reflexivity|done|].
  destruct fuel as [|fuel]; [reflexivity|].
  eapply (advance_ref_fails _ _ _ _ _ 2); [reflexivity|reflexivity|reflexivity|done|].
  destruct fuel as [|fuel]; [reflexivity|].
  eapply (advance_ref_fails _ _ _ _ _ 0); [reflexivity|reflexivity|reflexivity|done|].
  apply IH. lia.
Qed.

(** Hidden left recursion is missed: for
    [root ::= b root [a] | [c]], [b ::= c], [c ::= | [x]], where [b] is nullable
    only through [c], the detection finds nothing although [root] is left
    recursive, and the construction of the initial stacks never returns. *)
Theorem hidden_left_recursion_undetected (fuel : nat) :
  check_left_recursion hidden_left_recursion = Ok false /\
  init_stacks fuel hidden_left_recursion 0 = Err Fuel.
Proof.
  split; [vm_compute; reflexivity|]. unfold init_stacks.
  change (vget hidden_left_recursion 0) with (Ok (default [] (hidden_left_recursion !! 0%nat))).
  cbn [mbind res_bind]. unfold for_alternates.
  change (rule_fuel hidden_left_recursion (0, 0%nat)) with 7%nat. cbn [while].
  change (push_unless_end hidden_left_recursion (0, 0%nat) []) with (Ok [(0, 0%nat)] : res llama_grammar_stack).
  cbn [mbind res_bind]. by rewrite hidden_left_recursion_loops.
Qed.
