(* ===== verification/GrammarReject.v ===== *)
(** Candidate rejection in the grammar engine: [llama_grammar_match_partial_char]
    on ranges, and the theorem that [llama_grammar_reject_candidates] rejects
    exactly the candidates whose code points and trailing partial sequence no
    stack can take. *)
From S2P Require Import Prelude GrammarUtf8 GrammarSyntax GrammarEngine.

(** * Partial sequences *)

(** Whether an entry of a class meets the range [[low, high]]. *)
Definition overlaps (low high : Z) (x : char_range) : bool :=
  match snd x with
  | Some hi => (fst x <=? high) && (low <=? hi)
  | None => (low <=? fst x) && (fst x <=? high)
  end.

(** The result of [llama_grammar_match_partial_char] at an item. *)
Definition item_accepts_partial (it : item) (p : llama_partial_utf8) : bool :=
  if (n_remain p <? 0) || ((n_remain p =? 1) && (value p <? 2)) then false
  else match it with
       | IRef _ => false
       | IAny => true
       | IClass neg x xs => xorb neg (existsb (overlaps (partial_low p) (partial_high p)) (x :: xs))
       end.

Lemma match_partial_step_range rules pos_ low high pos t x l :
  view rules pos (flatten_range t x ++ l) -> not_rng l -> t <> LLAMA_GRETYPE_CHAR_ANY ->
  match_partial_step rules pos_ low high pos =
    if overlaps low high x then Ok (Done (Some pos_))
    else let pos' := pos_add pos (length (flatten_range t x)) in
         e' ← elem_at rules pos';
         Ok (if type_eqb (elem_type e') LLAMA_GRETYPE_CHAR_ALT then Next pos' else Done None).
Proof.
  intros Hv Hl Ht. destruct (elem_at_range _ _ _ _ _ Hv Hl) as (E & e1 & E1 & H1 & _).
  unfold match_partial_step. rewrite E, E1. cbn [mbind res_bind].
  destruct x as [x [hi|]]; cbn [snd fst overlaps] in *.
  - subst e1. cbn [elem_type elem_value].
    change (type_eqb LLAMA_GRETYPE_CHAR_RNG_UPPER LLAMA_GRETYPE_CHAR_RNG_UPPER) with true. unfold overlaps. cbn [snd fst]. by destruct (_ && _).
  - unfold type_eqb. cbn [elem_type elem_value].
    rewrite (bool_decide_eq_false_2 _ H1), (bool_decide_eq_false_2 (t = _) Ht).
    unfold overlaps. cbn [snd fst]. destruct (_ && _); [done|].
    change (length (flatten_range t (x, None))) with 1%nat. by rewrite E1.
Qed.

Lemma match_partial_class_loop rules pos_ low high pos t x xs l fuel :
  view rules pos (flatten_range t x ++ flatten_more xs ++ l) -> no_cont l ->
  t <> LLAMA_GRETYPE_CHAR_ANY -> (length xs < fuel)%nat ->
  while (match_partial_step rules pos_ low high) fuel pos =
    Ok (if existsb (overlaps low high) (x :: xs) then Some pos_ else None).
Proof.
  intros Hv Hl. revert pos t x fuel Hv.
  induction xs as [|y xs IH]; intros pos t x fuel Hv Ht Hf; (destruct fuel as [|fuel]; [cbn in Hf; lia|]);
    cbn [while existsb].
  - rewrite (match_partial_step_range _ _ _ _ _ _ _ _ Hv (more_not_rng [] _ Hl) Ht).
    destruct (overlaps low high x); [done|]. cbn zeta.
    apply view_add in Hv. destruct l as [|e l]; [done|].
    rewrite (view_elem _ _ _ _ Hv). cbn [mbind res_bind]. destruct Hl as [Hl _].
    unfold type_eqb. by rewrite (bool_decide_eq_false_2 _ Hl).
  - rewrite (match_partial_step_range _ _ _ _ _ _ _ _ Hv (more_not_rng (y :: xs) _ Hl) Ht).
    destruct (overlaps low high x); [done|]. cbn zeta.
    apply view_add in Hv. rewrite flatten_more_cons, <- app_assoc in Hv.
    assert (elem_at rules (pos_add pos (length (flatten_range t x))) =
            Ok (mk_elem LLAMA_GRETYPE_CHAR_ALT (fst y))) as ->
      by (eapply view_elem; exact Hv).
    cbn [mbind res_bind elem_type]. change (type_eqb LLAMA_GRETYPE_CHAR_ALT _) with true.
    cbn iota. rewrite (IH _ LLAMA_GRETYPE_CHAR_ALT y) by (done || (cbn in Hf; lia)). done.
Qed.

Lemma match_partial_item rules pos it l p :
  is_ref it = false -> view rules pos (flatten_item it ++ l) -> no_cont l ->
  llama_grammar_match_partial_char rules pos p = Ok (item_accepts_partial it p).
Proof.
  intros Hr Hv Hl. unfold llama_grammar_match_partial_char, item_accepts_partial.
  destruct it as [r| |neg x xs]; [done| |].
  - cbn [flatten_item app] in Hv. rewrite (view_elem _ _ _ _ Hv). cbn [mbind res_bind elem_type].
    cbn [is_positive_type orb ggml_assert mbind res_bind].
    destruct (_ || _); [done|]. pose proof (view_fuel _ _ _ Hv).
    destruct (rule_fuel rules pos) as [|fuel]; [lia|]. cbn [while].
    unfold match_partial_step. rewrite (view_elem _ _ _ _ Hv). cbn [mbind res_bind].
    apply view_next in Hv. destruct l as [|e l]; [done|]. rewrite (view_elem _ _ _ _ Hv).
    cbn [mbind res_bind elem_type]. destruct Hl as [H1 H2]. unfold type_eqb.
    rewrite (bool_decide_eq_false_2 _ H2). done.
  - cbn [flatten_item] in *. rewrite <- app_assoc in Hv.
    assert (elem_at rules pos = Ok (mk_elem (class_type neg) (fst x))) as ->
      by (eapply view_elem; exact Hv).
    cbn [mbind res_bind elem_type].
    assert (is_positive_type (class_type neg) || type_eqb (class_type neg) LLAMA_GRETYPE_CHAR_NOT = true)
      as -> by by destruct neg.
    cbn [ggml_assert mbind res_bind]. destruct (_ || _); [done|].
    rewrite (match_partial_class_loop _ _ _ _ _ _ _ _ _ _ Hv Hl).
    + cbn. destruct neg, (overlaps _ _ x || existsb _ xs); done.
    + by destruct neg.
    + apply view_fuel in Hv. rewrite !length_app in Hv. cbn in Hv.
      assert (length xs <= length (flatten_more xs))%nat; [|lia].
      clear. induction xs as [|y xs IH]; [done|]. rewrite flatten_more_cons, length_app. cbn. lia.
Qed.

(** * Viable candidates *)

(** The code points and the trailing partial sequence of a candidate can be
    taken by the items. *)
Inductive viable (G : grammar) (p : llama_partial_utf8) : list item -> list Z -> Prop :=
| viable_done : n_remain p = 0 -> viable G p [] []
| viable_partial it its :
    is_ref it = false -> n_remain p = 0 \/ item_accepts_partial it p = true ->
    viable G p (it :: its) []
| viable_char it its c cs :
    is_ref it = false -> item_accepts it c = true -> viable G p its cs ->
    viable G p (it :: its) (c :: cs)
| viable_ref r alts alt its cs :
    zlookup G r = Some alts -> alt ∈ alts -> viable G p (alt ++ its) cs ->
    viable G p (IRef r :: its) cs.

Lemma viable_ref_sem G p : ref_sem G (viable G p).
Proof.
  intros r alts tail cs HG. split.
  - inversion 1 as [|? ? Hr|? ? ? ? Hr|? alts' alt ? ? HG' Hin Hv]; subst; try discriminate Hr.
    rewrite HG in HG'. injection HG' as <-. by exists alt.
  - intros (alt & Hin & Hv). by econstructor.
Qed.

(** The code points a candidate has still to match. *)
Definition cand_reads (tok : llama_grammar_candidate) (cs : list Z) : Prop :=
  drop (cand_off tok) (cand_points tok) = cs ++ [0] /\ Forall (fun c => c <> 0) cs.

Lemma cand_cur_nil tok : cand_reads tok [] -> cand_cur tok = Ok 0.
Proof.
  intros [H _]. unfold cand_cur. rewrite <- (Nat.add_0_r (cand_off tok)), <- lookup_drop, H. done.
Qed.

Lemma cand_cur_cons tok c cs :
  cand_reads tok (c :: cs) -> cand_cur tok = Ok c /\ c <> 0 /\ cand_reads (cand_next tok) cs.
Proof.
  intros [H Hnz]. inversion_clear Hnz as [|? ? Hc Hcs]. splits; [|done|].
  - unfold cand_cur. rewrite <- (Nat.add_0_r (cand_off tok)), <- lookup_drop, H. done.
  - split; [|done]. cbn [cand_next cand_off cand_points].
    rewrite <- Nat.add_1_r, <- drop_drop, H. done.
Qed.

Lemma cand_prev_next tok : cand_prev (cand_next tok) = tok.
Proof. by destruct tok. Qed.

Section reject.
Context (G : grammar) (rules : llama_grammar_rules).
Context (Henc : encodes G rules) (Hclosed : closed_grammar G).

(** Some stack can take the candidate. *)
Definition stack_takes (stack : llama_grammar_stack) (tok : llama_grammar_candidate) : Prop :=
  exists cs, cand_reads tok cs /\ stack_sem rules (viable G (cand_partial tok)) stack cs.

Definition stacks_take (stacks : llama_grammar_stacks) (tok : llama_grammar_candidate) : Prop :=
  exists stack, stack ∈ stacks /\ stack_takes stack tok.

Definition cands_ok (cands : list llama_grammar_candidate) : Prop :=
  Forall (fun tok => exists cs, cand_reads tok cs) cands.

(** The rejects are exactly the candidates that are not taken. *)
Definition rejects_ok (takes : llama_grammar_candidate -> Prop)
    (cands rejects : list llama_grammar_candidate) : Prop :=
  forall tok, tok ∈ rejects <-> tok ∈ cands /\ ~ takes tok.

Lemma cand_reads_fun tok cs cs' : cand_reads tok cs -> cand_reads tok cs' -> cs = cs'.
Proof. intros [H _] [H' _]. rewrite H in H'. by apply app_inj_tail in H' as [-> _]. Qed.

Lemma stack_takes_reads stack tok cs :
  cand_reads tok cs -> stack_takes stack tok <-> stack_sem rules (viable G (cand_partial tok)) stack cs.
Proof.
  intros Hr. split; [|by exists cs]. intros (cs' & Hr' & H). by rewrite (cand_reads_fun _ _ _ Hr Hr').
Qed.

Lemma cands_ok_subset cands rejects takes : cands_ok cands -> rejects_ok takes cands rejects -> cands_ok rejects.
Proof.
  unfold cands_ok. rewrite !Forall_forall. intros H Hr tok Hin. apply H. by apply Hr in Hin as [? _].
Qed.

(** An empty stack takes only a candidate that has nothing left. *)
Lemma reject_at_end_post cands :
  cands_ok cands ->
  safe (foldM reject_at_end [] cands) (rejects_ok (stack_takes []) cands).
Proof.
  intros Hok. unfold cands_ok in Hok. rewrite Forall_forall in Hok.
  apply (foldM_post _ (fun seen rejects => rejects_ok (stack_takes []) seen rejects)).
  - intros tok. set_solver.
  - intros seen tok rejects Hin Hr. destruct (Hok _ Hin) as [cs Hcs]. unfold reject_at_end.
    assert (Hv : stack_takes [] tok <-> cs = [] /\ n_remain (cand_partial tok) = 0).
    { rewrite (stack_takes_reads _ _ _ Hcs), (stack_sem_items _ _ _ _ _ (stack_items_nil rules)).
      split; [by inversion 1|]. intros [-> H]. by constructor. }
    assert (Hdec : exists c, cand_cur tok = Ok c /\ (c = 0 <-> cs = [])).
    { destruct cs as [|c cs]; [by exists 0; split; [apply cand_cur_nil|]|].
      destruct (cand_cur_cons _ _ _ Hcs) as (E & Hc & _). by exists c. }
    destruct Hdec as (c & -> & Hc). cbn [mbind res_bind post].
    destruct (Z.eqb_spec c 0), (Z.eqb_spec (n_remain (cand_partial tok)) 0); cbn [negb orb];
      intros t; rewrite ?elem_of_app, ?list_elem_of_singleton, (Hr t); naive_solver.
Qed.

(** What the loop for a stack at the item [it] does with a candidate. *)
Definition cand_char (tok : llama_grammar_candidate) : Z :=
  match cand_cur tok with Ok c => c | Err _ => 0 end.

Definition rejected_at (it : item) (tok : llama_grammar_candidate) : bool :=
  if cand_char tok =? 0 then
    negb (n_remain (cand_partial tok) =? 0) && negb (item_accepts_partial it (cand_partial tok))
  else negb (item_accepts it (cand_char tok)).

Definition goes_on (it : item) (tok : llama_grammar_candidate) : bool :=
  negb (cand_char tok =? 0) && item_accepts it (cand_char tok).

Lemma cand_cur_char tok cs : cand_reads tok cs -> cand_cur tok = Ok (cand_char tok).
Proof.
  intros Hcs. unfold cand_char. destruct cs as [|c cs].
  - by rewrite (cand_cur_nil _ Hcs).
  - destruct (cand_cur_cons _ _ _ Hcs) as (E & _). by rewrite E.
Qed.

Lemma filter_snoc {A} (P : A -> bool) l x :
  filter (fun a => P a = true) (l ++ [x]) = filter (fun a => P a = true) l ++ (if P x then [x] else []).
Proof. rewrite filter_app. f_equal. rewrite filter_cons, filter_nil. by destruct (P x). Qed.

(** The loop for a stack at a character element. *)
Lemma reject_at_top_post cands pos it l :
  cands_ok cands -> is_ref it = false -> view rules pos (flatten_item it ++ l) -> no_cont l ->
  foldM (reject_at_top rules pos) ([], []) cands =
    Ok (filter (fun tok => rejected_at it tok = true) cands,
        cand_next <$> filter (fun tok => goes_on it tok = true) cands).
Proof.
  intros Hok Hr Hv Hl. unfold cands_ok in Hok. rewrite Forall_forall in Hok.
  apply safe_ok_eq.
  apply (foldM_post _ (fun seen r => r = (filter (fun tok => rejected_at it tok = true) seen,
        cand_next <$> filter (fun tok => goes_on it tok = true) seen))); [done|].
  intros seen tok r Hin ->. destruct (Hok _ Hin) as [cs Hcs].
  rewrite !filter_snoc, fmap_app. unfold reject_at_top.
  rewrite (cand_cur_char _ _ Hcs). cbn [mbind res_bind]. 
  assert (rejected_at it tok = if cand_char tok =? 0 then
    negb (n_remain (cand_partial tok) =? 0) && negb (item_accepts_partial it (cand_partial tok))
    else negb (item_accepts it (cand_char tok))) as -> by reflexivity.
  assert (goes_on it tok = negb (cand_char tok =? 0) && item_accepts it (cand_char tok)) as ->
    by reflexivity.
  destruct (cand_char tok =? 0); cbn [negb andb].
  - destruct (n_remain (cand_partial tok) =? 0); cbn [negb andb]; [cbn; by rewrite !app_nil_r|].
    rewrite (match_partial_item _ _ _ _ _ Hr Hv Hl). cbn [mbind res_bind post].
    destruct (item_accepts_partial it (cand_partial tok)); cbn; by rewrite ?app_nil_r.
  - rewrite (match_char_item _ _ _ _ _ Hr Hv Hl). cbn [mbind res_bind post fst].
    destruct (item_accepts it (cand_char tok)); cbn; by rewrite ?app_nil_r.
Qed.

(** A stack at a character element takes a candidate that is not rejected at
    once when the rest takes what goes on. *)
Lemma stack_takes_top it its stack stack' tok cs :
  cand_reads tok cs -> is_ref it = false ->
  stack_items rules stack (it :: its) -> stack_items rules stack' its ->
  stack_takes stack tok <->
    rejected_at it tok = false /\ (goes_on it tok = true -> stack_takes stack' (cand_next tok)).
Proof.
  intros Hcs Hr Hs Hs'. rewrite (stack_takes_reads _ _ _ Hcs), (stack_sem_items _ _ _ _ _ Hs).
  unfold rejected_at, goes_on, cand_char. destruct cs as [|c cs].
  - rewrite (cand_cur_nil _ Hcs). cbn [Z.eqb negb andb].
    rewrite andb_false_iff, !negb_false_iff, Z.eqb_eq. split.
    + inversion 1; subst; [by split|discriminate Hr].
    + intros [H _]. by apply viable_partial.
  - destruct (cand_cur_cons _ _ _ Hcs) as (E & Hc & Hcs'). rewrite E.
    rewrite (proj2 (Z.eqb_neq c 0) Hc). cbn [negb andb]. rewrite negb_false_iff.
    rewrite (stack_takes_reads _ _ _ Hcs'), (stack_sem_items _ _ _ _ _ Hs'). cbn [cand_next cand_partial].
    split.
    + inversion 1; subst; [by split|discriminate Hr].
    + intros [Ha H]. by apply viable_char; [..|apply H].
Qed.

Lemma reject_with_post for_stack stacks cands E :
  stacks <> [] -> cands_ok cands ->
  (forall stack cs, stack ∈ stacks -> cands_ok cs ->
     post (for_stack stack cs) (rejects_ok (stack_takes stack) cs) E) ->
  post (reject_candidates_with for_stack stacks cands) (rejects_ok (stacks_take stacks) cands) E.
Proof.
  intros Hne Hok Hfs. unfold reject_candidates_with. destruct stacks as [|front stacks]; [done|].
  assert (Hnone : cands = [] -> rejects_ok (stacks_take (front :: stacks)) cands []).
  { intros ->. intros tok. set_solver. }
  destruct cands as [|cand cands]; [by apply Hnone|]. clear Hnone.
  eapply post_bind; [apply Hfs; [by left|done]|]. intros rejects Hrej.
  eapply post_mono.
  - eapply (foldM_post _ (fun seen rs => rejects_ok (stacks_take (front :: seen)) (cand :: cands) rs)).
    + intros tok. rewrite (Hrej tok). unfold stacks_take. setoid_rewrite list_elem_of_singleton. naive_solver.
    + intros seen stack rs Hin Hrs. eapply post_mono.
      * apply Hfs; [by right|]. by eapply cands_ok_subset.
      * intros rs' Hrs' tok. rewrite (Hrs' tok), (Hrs tok). unfold stacks_take.
        assert ((exists s, s ∈ front :: seen ++ [stack] /\ stack_takes s tok) <->
                (exists s, s ∈ front :: seen /\ stack_takes s tok) \/ stack_takes stack tok) as ->.
        { split.
          - intros (s & Hs & Ht). change (front :: seen ++ [stack]) with ((front :: seen) ++ [stack]) in Hs.
            rewrite elem_of_app, list_elem_of_singleton in Hs. destruct Hs as [Hs| ->]; [left; by exists s|by right].
          - intros [(s & Hs & Ht)|Ht]; [exists s|exists stack]; (split; [|done]);
              change (front :: seen ++ [stack]) with ((front :: seen) ++ [stack]);
              rewrite elem_of_app, list_elem_of_singleton; auto. }
        tauto.
      * intros e He. exact He.
  - intros rs Hrs. exact Hrs.
  - done.
Qed.

(** Expansion does not change which candidates are taken. *)
Lemma advance_takes fuel stack news tok :
  valid_stack G rules stack ->
  llama_grammar_advance_stack fuel rules stack [] = Ok news ->
  stacks_take news tok <-> stack_takes stack tok.
Proof.
  intros Hv E. assert (Hg : good_stacks G rules []) by by split; constructor.
  pose proof (advance_stack_post G rules Henc Hclosed (viable G (cand_partial tok)) fuel stack []
    (viable_ref_sem _ _) Hv Hg) as Hpost.
  rewrite E in Hpost. destruct Hpost as [(_ & _ & Hsem) _].
  unfold stacks_take, stack_takes. split.
  - intros (s & Hin & cs & Hcs & Ht). exists cs. split; [done|].
    assert (Hs : stacks_sem rules (viable G (cand_partial tok)) news cs) by by exists s.
    apply Hsem in Hs as [(s0 & Hs0 & _)|Hs]; [by apply not_elem_of_nil in Hs0|done].
  - intros (cs & Hcs & Ht). destruct (proj2 (Hsem cs) (or_intror Ht)) as (s & Hin & Hs).
    exists s. split; [done|]. by exists cs.
Qed.

Lemma reject_for_stack_post depth fuel stack cands :
  valid_stack G rules stack -> terminal_stack rules stack -> cands_ok cands ->
  post (llama_grammar_reject_candidates_for_stack depth fuel rules stack cands)
    (rejects_ok (stack_takes stack) cands) (eq Fuel).
Proof.
  revert stack cands. induction depth as [|depth IH]; intros stack cands Hv Ht Hok; [done|].
  cbn [llama_grammar_reject_candidates_for_stack]. destruct Hv as (its & Hs & Hc).
  destruct Ht as [->|(pos & below & it & is_ & -> & Hp & Hr)].
  { eapply post_mono; [by apply reject_at_end_post|done|intros ? []]. }
  apply stack_items_inv in Hs as (it' & is_' & rest & Hp' & Hb & ->).
  pose proof (at_items_fun _ _ _ _ Hp Hp') as [= <- <-].
  destruct (at_items_view _ _ _ _ Hp) as (l & Hview & Hl & _).
  rewrite (reject_at_top_post cands pos it l Hok Hr Hview Hl). cbn [mbind res_bind].
  destruct (match_top _ _ _ _ _ _ 0 Hp Hr Hb) as (after & Hm & stack' & Hpush & Hs').
  rewrite Hm. cbn [mbind res_bind snd]. rewrite Hpush. cbn [mbind res_bind].
  assert (Hv' : valid_stack G rules stack').
  { exists (is_ ++ rest). split; [done|]. by inversion_clear Hc. }
  assert (Hg : good_stacks G rules []) by by split; constructor.
  pose proof (advance_stack_post G rules Henc Hclosed (gen G) fuel stack' [] (gen_ref_sem G) Hv' Hg) as Hadv.
  destruct (llama_grammar_advance_stack fuel rules stack' []) as [nexts|e] eqn:Eadv; [|exact Hadv].
  destruct Hadv as [([Hgn _] & _ & _) Hnn]. cbn [mbind res_bind].
  rewrite Forall_forall in Hgn. unfold cands_ok in Hok. rewrite Forall_forall in Hok.
  set (nextc := cand_next <$> _).
  eapply post_bind.
  { apply reject_with_post; [done| |].
    - unfold cands_ok. apply Forall_forall. intros t Hin. subst nextc.
      apply list_elem_of_fmap in Hin as (t0 & -> & [Hgo Hin]%list_elem_of_filter).
      destruct (Hok _ Hin) as [[|c cs] Hcs].
      + unfold goes_on, cand_char in Hgo. by rewrite (cand_cur_nil _ Hcs) in Hgo.
      + exists cs. by apply (cand_cur_cons _ c).
    - intros s cs Hin Hcs. destruct (Hgn _ Hin) as [Hvs Hts]. by apply IH. }
  intros next_rejects Hnr. cbn [post]. intros tok.
  rewrite elem_of_app, list_elem_of_filter, list_elem_of_fmap.
  assert (Hnext : (exists y, tok = cand_prev y /\ y ∈ next_rejects) <->
    tok ∈ cands /\ goes_on it tok = true /\ ~ stack_takes stack' (cand_next tok)).
  { split.
    - intros (y & -> & [Hin Hnt]%Hnr). subst nextc.
      apply list_elem_of_fmap in Hin as (t0 & -> & [Hgo Hin]%list_elem_of_filter).
      rewrite cand_prev_next. splits; [done|done|]. by rewrite <- (advance_takes _ _ _ _ Hv' Eadv).
    - intros (Hin & Hgo & Hnt). exists (cand_next tok). rewrite cand_prev_next. split; [done|].
      apply Hnr. split; [|by rewrite (advance_takes _ _ _ _ Hv' Eadv)].
      subst nextc. apply list_elem_of_fmap_2, list_elem_of_filter. done. }
  rewrite Hnext. split.
  - intros [[Hrj Hin]|(Hin & Hgo & Hnt)]; (split; [done|]); destruct (Hok _ Hin) as [cs Hcs];
      rewrite (stack_takes_top it (is_ ++ rest) _ stack' tok cs Hcs Hr) by
        (done || by apply (stack_items_cons rules pos below (it :: is_) rest)).
    + intros [H _]. congruence.
    + intros [_ H]. auto.
  - intros [Hin Hnt]. destruct (Hok _ Hin) as [cs Hcs].
    rewrite (stack_takes_top it (is_ ++ rest) _ stack' tok cs Hcs Hr) in Hnt by
      (done || by apply (stack_items_cons rules pos below (it :: is_) rest)).
    destruct (rejected_at it tok) eqn:Erj; [by left|right]. splits; [done| |].
    + destruct (goes_on it tok) eqn:Ego; [done|]. exfalso. by apply Hnt.
    + intros Ht. by apply Hnt.
Qed.
End reject.

(** * Properties *)

(** The code points [c] that complete a partial sequence of [n] missing bytes. *)
Lemma partial_bounds p :
  0 <= n_remain p <= 3 -> 0 <= value p < 2 ^ (21 - 6 * n_remain p) ->
  partial_high p = value p * 2 ^ (6 * n_remain p) + 2 ^ (6 * n_remain p) - 1 /\
  (value p <> 0 -> partial_low p = value p * 2 ^ (6 * n_remain p)).
Proof.
  destruct p as [v n]. cbn [value n_remain]. intros Hn Hv.
  set (k := 6 * n) in *. replace (n * 6) with k by lia.
  assert (Hk : 0 < 2 ^ k) by (apply Z.pow_pos_nonneg; lia).
  assert (Hpk : 2 ^ (21 - k) * 2 ^ k = 2 ^ 21) by (rewrite <- Z.pow_add_r by lia; f_equal; lia).
  assert (Hbound : 0 <= v * 2 ^ k < 4294967296) by (change (2 ^ 21) with 2097152 in Hpk; nia).
  assert (Hlow : u32 (Z.shiftl v k) = v * 2 ^ k).
  { rewrite Z.shiftl_mul_pow2 by lia. by apply u32_small. }
  unfold partial_high, partial_low. cbn [value n_remain]. replace (n * 6) with k by lia. rewrite Hlow.
  assert (H1 : Z.shiftl 1 k = 2 ^ k) by (rewrite Z.shiftl_mul_pow2 by lia; lia). rewrite H1. split.
  - rewrite <- Z.shiftl_mul_pow2 by lia. rewrite lor_shiftl_add by lia.
    rewrite Z.shiftl_mul_pow2 by lia. lia.
  - intros Hnz. destruct (Z.eqb_spec (v * 2 ^ k) 0); [nia|done].
Qed.

(** An ordered entry of a class meets a range when they share a code point. *)
Lemma overlaps_spec low high x :
  low <= high -> (forall hi, snd x = Some hi -> fst x <= hi) ->
  overlaps low high x = true <-> exists c, low <= c <= high /\ in_range c x = true.
Proof.
  intros Hlh Hx. unfold overlaps, in_range. destruct x as [lo [hi|]]; cbn [fst snd] in *.
  - specialize (Hx hi eq_refl). rewrite andb_true_iff, !Z.leb_le. split.
    + intros [H1 H2]. exists (lo `max` low). rewrite andb_true_iff, !Z.leb_le. lia.
    + intros (c & Hc & H). rewrite andb_true_iff, !Z.leb_le in H. lia.
  - rewrite andb_true_iff, !Z.leb_le. split.
    + intros H. exists lo. rewrite Z.eqb_eq. lia.
    + intros (c & Hc & H). rewrite Z.eqb_eq in H. lia.
Qed.

(** Partial sequences at a positive class: when a piece ends inside a UTF-8
    sequence whose first bytes have the value [value p], [n_remain p] bytes being
    missing, [llama_grammar_match_partial_char] at a class of ordered ranges
    answers whether some code point with those leading bits is in the class. *)
Theorem match_partial_char_correct (rules : llama_grammar_rules) (pos : gpos)
    (x : char_range) (xs : list char_range) (l : list llama_grammar_element) (p : llama_partial_utf8) :
  view rules pos (flatten_item (IClass false x xs) ++ l) -> no_cont l ->
  Forall (fun y => forall hi, snd y = Some hi -> fst y <= hi) (x :: xs) ->
  0 <= n_remain p <= 3 -> 0 < value p < 2 ^ (21 - 6 * n_remain p) ->
  (n_remain p = 1 -> 2 <= value p) ->
  exists b, llama_grammar_match_partial_char rules pos p = Ok b /\
    (b = true <-> exists c, value p * 2 ^ (6 * n_remain p) <= c < (value p + 1) * 2 ^ (6 * n_remain p) /\
                            item_accepts (IClass false x xs) c = true).
Proof.
  intros Hv Hl Hord Hn Hval H2. exists (item_accepts_partial (IClass false x xs) p).
  split; [by apply (match_partial_item _ _ _ l)|].
  destruct (partial_bounds p Hn ltac:(lia)) as [Hhigh Hlow]. specialize (Hlow ltac:(lia)).
  assert (Hk : 0 < 2 ^ (6 * n_remain p)) by (apply Z.pow_pos_nonneg; lia).
  unfold item_accepts_partial.
  destruct (Z.ltb_spec (n_remain p) 0); [lia|]. cbn [orb].
  destruct ((n_remain p =? 1) && (value p <? 2)) eqn:E1.
  { apply andb_true_iff in E1 as [E1%Z.eqb_eq E2%Z.ltb_lt]. lia. }
  cbn [item_accepts]. rewrite !xorb_false_l, existsb_exists. rewrite Hhigh, Hlow.
  setoid_rewrite existsb_exists. rewrite Forall_forall in Hord. split.
  - intros (y & Hy & Ho). apply overlaps_spec in Ho as (c & Hc & Hin); [|nia|].
    + exists c. split; [nia|]. by exists y.
    + apply Hord. by apply list_elem_of_In.
  - intros (c & Hc & y & Hy & Hin). exists y. split; [done|]. apply overlaps_spec; [nia| |].
    + apply Hord. by apply list_elem_of_In.
    + exists c. split; [nia|done].
Qed.

(** The rule [root ::= [a-z\u00C0-\u00FF]] *)
Definition latin_rules : llama_grammar_rules :=
  [flatten_rule [[IClass false (97, Some 122) [(192, Some 255)]]]].

Lemma match_partial_char_correct_witness :
  view latin_rules (0, 0%nat) (flatten_item (IClass false (97, Some 122) [(192, Some 255)]) ++ [elem_end]) /\
  no_cont [elem_end] /\
  Forall (fun y : char_range => forall hi, snd y = Some hi -> fst y <= hi) [(97, Some 122); (192, Some 255)] /\
  0 <= n_remain (mk_partial 3 1) <= 3 /\
  0 < value (mk_partial 3 1) < 2 ^ (21 - 6 * n_remain (mk_partial 3 1)) /\
  (n_remain (mk_partial 3 1) = 1 -> 2 <= value (mk_partial 3 1)) /\
  exists b, llama_grammar_match_partial_char latin_rules (0, 0%nat) (mk_partial 3 1) = Ok b /\
    (b = true <-> exists c, value (mk_partial 3 1) * 2 ^ (6 * n_remain (mk_partial 3 1)) <= c <
                            (value (mk_partial 3 1) + 1) * 2 ^ (6 * n_remain (mk_partial 3 1)) /\
                            item_accepts (IClass false (97, Some 122) [(192, Some 255)]) c = true).
Proof.
  assert (H1 : view latin_rules (0, 0%nat)
    (flatten_item (IClass false (97, Some 122) [(192, Some 255)]) ++ [elem_end])) by (eexists; split; reflexivity).
  assert (H2 : no_cont [elem_end]) by (split; discriminate).
  assert (H3 : Forall (fun y : char_range => forall hi, snd y = Some hi -> fst y <= hi)
    [(97, Some 122); (192, Some 255)]).
  { constructor; [intros hi [= <-]; cbn; lia|]. constructor; [intros hi [= <-]; cbn; lia|constructor]. }
  assert (H4 : 0 <= n_remain (mk_partial 3 1) <= 3) by (cbn; lia).
  assert (H5 : 0 < value (mk_partial 3 1) < 2 ^ (21 - 6 * n_remain (mk_partial 3 1))) by (cbn; lia).
  assert (H6 : n_remain (mk_partial 3 1) = 1 -> 2 <= value (mk_partial 3 1)) by (cbn; lia).
  split; [exact H1|]. split; [exact H2|]. split; [exact H3|]. split; [exact H4|]. split; [exact H5|].
  split; [exact H6|].
  apply (match_partial_char_correct latin_rules (0, 0%nat) (97, Some 122) [(192, Some 255)] [elem_end]
    (mk_partial 3 1)); [exact H1|exact H2|exact H3|exact H4|exact H5|exact H6].
Defined.

(** Partial sequences at an inverse class are refused too often: in
    [root ::= [^\u00E9]], after the byte C3 the sequence can still become
    U+00E0, which the class accepts, but the partial sequence is refused because
    it could also become U+00E9. *)
Theorem match_partial_char_inverse_too_strict :
  let rules := [flatten_rule [[IClass true (233, None) []]]] in
  llama_grammar_match_partial_char rules (0, 0%nat) (mk_partial 3 1) = Ok false /\
  decode_utf8 [195; 160] partial_none = Ok ([224; 0], mk_partial 224 0) /\
  llama_grammar_match_char rules (0, 0%nat) 224 = Ok (true, (0, 1%nat)).
Proof. cbv zeta. split; [|split]; vm_compute; reflexivity. Qed.
