(* ===== verification/Grammar.v ===== *)
(** The grammar object of [src/llama-grammar.cpp]: construction from a grammar
    text, accepting strings and tokens, and masking the candidates of the
    sampler. *)
From S2P Require Import Prelude Unicode GrammarUtf8 GrammarSyntax GrammarParser GrammarEngine.
From S2P Require Import GrammarLeftRecursion GrammarReject.

(** What the engine uses of [llama_vocab]. *)
Class GrammarVocab : Type := {
  token_to_piece : Z -> bytes;
  is_eog : Z -> bool
}.

(** [struct llama_grammar] *)
Record llama_grammar : Type := mk_grammar {
  g_rules            : llama_grammar_rules;
  g_stacks           : llama_grammar_stacks;
  g_partial          : llama_partial_utf8;
  g_lazy             : bool;
  g_awaiting_trigger : bool;
  g_trigger_buffer   : bytes;
  g_trigger_tokens   : list Z;
  g_trigger_words    : list bytes
}.

Definition with_stacks (g : llama_grammar) (stacks : llama_grammar_stacks)
    (p : llama_partial_utf8) : llama_grammar :=
  mk_grammar (g_rules g) stacks p (g_lazy g) (g_awaiting_trigger g) (g_trigger_buffer g)
    (g_trigger_tokens g) (g_trigger_words g).

Definition with_trigger (g : llama_grammar) (awaiting : bool) (buffer : bytes) : llama_grammar :=
  mk_grammar (g_rules g) (g_stacks g) (g_partial g) (g_lazy g) awaiting buffer
    (g_trigger_tokens g) (g_trigger_words g).

(** * Construction *)

(** The loop that copies a rule up to its [END]. *)
Fixpoint copy_rule (rule : llama_grammar_rule) : res llama_grammar_rule :=
  match rule with
  | [] => Err UB
  | e :: rule =>
      if type_eqb (elem_type e) LLAMA_GRETYPE_END then Ok [elem_end]
      else rest ← copy_rule rule; Ok (e :: rest)
  end.

(** The part the two [llama_grammar_init_impl] share; [None] is [nullptr]. *)
Definition init_from_rules (fuel : nat) (rules : llama_grammar_rules) (start_rule_index : Z)
    (lazy : bool) (trigger_words : list bytes) (trigger_tokens : list Z) : res (option llama_grammar) :=
  vec_rules ← mapM copy_rule rules;
  left_recursive ← check_left_recursion vec_rules;
  if left_recursive : bool then Ok None
  else
    stacks ← init_stacks fuel vec_rules start_rule_index;
    Ok (Some (mk_grammar vec_rules stacks partial_none lazy lazy [] trigger_tokens trigger_words)).

(** [llama_grammar_init_impl] from rules *)
Definition llama_grammar_init_rules (fuel : nat) (rules : llama_grammar_rules)
    (start_rule_index : Z) : res (option llama_grammar) :=
  init_from_rules fuel rules start_rule_index false [] [].

(** [llama_grammar_init_impl] from a text *)
Definition llama_grammar_init_text (fuel : nat) (grammar_str grammar_root : bytes) (lazy : bool)
    (trigger_words : list bytes) (trigger_tokens : list Z) : res (option llama_grammar) :=
  r ← parse grammar_str;
  let '(ok, parser) := r in
  if negb ok then Ok None
  else if bool_decide (rules parser = []) then Ok None
  else if bool_decide (symbol_ids parser !! str "root" = None) then Ok None
  else
    start_rule_index ← map_at (symbol_ids parser) grammar_root;
    init_from_rules fuel (rules parser) start_rule_index lazy trigger_words trigger_tokens.

(** * Accepting *)

(** The loop of [llama_grammar_accept_str] over the code points. *)
Definition accept_all (fuel : nat) (rules : llama_grammar_rules) (stacks : llama_grammar_stacks)
    (code_points : list Z) : res llama_grammar_stacks :=
  foldM (llama_grammar_accept fuel rules) stacks code_points.

Definition llama_grammar_accept_str (fuel : nat) (g : llama_grammar) (piece : bytes) :
    res llama_grammar :=
  decoded ← decode_utf8 piece (g_partial g);
  let code_points := fst decoded in
  stacks ← accept_all fuel (g_rules g) (g_stacks g) (removelast code_points);
  if bool_decide (stacks = []) then
    throw "Unexpected empty grammar stack after accepting piece"
  else Ok (with_stacks g stacks (snd decoded)).

Section vocab.
Context `{V : GrammarVocab}.

(** The first trigger word that occurs in the buffer, with its position. *)
Fixpoint find_trigger (words : list bytes) (buffer : bytes) : option nat :=
  match words with
  | [] => None
  | word :: words =>
      match find_sub word buffer with
      | Some pos => Some pos
      | None => find_trigger words buffer
      end
  end.

Definition has_empty_stack (stacks : llama_grammar_stacks) : bool :=
  existsb (fun stack : llama_grammar_stack => match stack with [] => true | _ => false end) stacks.

Definition llama_grammar_accept_impl (fuel : nat) (g : llama_grammar) (token : Z) : res llama_grammar :=
  let piece := token_to_piece token in
  if g_awaiting_trigger g then
    if bool_decide (token ∈ g_trigger_tokens g) then
      llama_grammar_accept_str fuel (with_trigger g false []) piece
    else
      let buffer := g_trigger_buffer g ++ piece in
      match find_trigger (g_trigger_words g) buffer with
      | Some pos =>
          let constrained_str := drop pos buffer in
          llama_grammar_accept_str fuel (with_trigger g false []) constrained_str
      | None => Ok (with_trigger g true buffer)
      end
  else if is_eog token then
    if has_empty_stack (g_stacks g) then Ok g else Err Abort
  else llama_grammar_accept_str fuel g piece.

(** * Masking *)

Context {L : Type} (neg_infinity : L).

(** [llama_token_data]: the fields the grammar reads or writes *)
Record llama_token_data : Type := mk_token_data {
  td_id    : Z;
  td_logit : L
}.

Definition mask (d : llama_token_data) : llama_token_data := mk_token_data (td_id d) neg_infinity.

(** The loop over the tokens: masked data so far, candidates for the grammar. *)
Fixpoint collect_candidates (g : llama_grammar) (allow_eog : bool) (i : nat)
    (data : list llama_token_data) : res (list llama_token_data * list llama_grammar_candidate) :=
  match data with
  | [] => Ok ([], [])
  | d :: data =>
      let id := td_id d in
      let piece := token_to_piece id in
      rest ← collect_candidates g allow_eog (S i) data;
      let '(data, cands) := rest in
      if is_eog id then Ok ((if allow_eog then d else mask d) :: data, cands)
      else if bool_decide (piece = []) || (c_cur piece =? 0) then Ok (mask d :: data, cands)
      else
        decoded ← decode_utf8 piece (g_partial g);
        Ok (d :: data, mk_cand i (fst decoded) 0 (snd decoded) :: cands)
  end.

(** Enough nesting for the longest candidate. *)
Definition candidates_depth (cands : list llama_grammar_candidate) : nat :=
  S (foldr (fun c n => length (cand_points c) `max` n)%nat O cands).

Definition apply_reject (data : list llama_token_data) (reject : llama_grammar_candidate) :
    list llama_token_data :=
  alter mask (cand_index reject) data.

Definition llama_grammar_apply_impl (fuel : nat) (g : llama_grammar) (data : list llama_token_data) :
    res (list llama_token_data) :=
  if g_awaiting_trigger g then Ok data
  else
    r ← collect_candidates g (has_empty_stack (g_stacks g)) 0 data;
    let '(data, candidates_grammar) := r in
    rejects ← llama_grammar_reject_candidates (candidates_depth candidates_grammar) fuel
                (g_rules g) (g_stacks g) candidates_grammar;
    Ok (fold_left apply_reject rejects data).
End vocab.

(** Accepting several pieces in a row. *)
Definition accept_pieces (fuel : nat) (g : llama_grammar) (pieces : list bytes) : res llama_grammar :=
  foldM (llama_grammar_accept_str fuel) g pieces.

(** * Accepting a word *)

Section grammar.
Context (G : grammar) (rules : llama_grammar_rules).
Context (Henc : encodes G rules) (Hclosed : closed_grammar G).

Lemma accept_all_post fuel stacks cs :
  good_stacks G rules stacks ->
  post (accept_all fuel rules stacks cs)
    (fun news => good_stacks G rules news /\
       forall w, stacks_sem rules (gen G) news w <-> stacks_sem rules (gen G) stacks (cs ++ w)) (eq Fuel).
Proof.
  unfold accept_all. revert stacks. induction cs as [|c cs IH]; intros stacks Hg; cbn [foldM].
  { split; [done|]. by intros w. }
  eapply post_bind; [apply (accept_post G rules Henc Hclosed (gen G)); [apply gen_ref_sem|done]|].
  intros news [Hgn Hsem]. eapply post_mono; [by apply IH| |done].
  intros out [Hgo Hout]. split; [done|]. intros w. rewrite Hout, Hsem.
  by apply after_char_gen.
Qed.

(** A stack that is empty is there when the empty word is accepted. *)
Lemma has_empty_stack_gen stacks :
  good_stacks G rules stacks -> has_empty_stack stacks = true <-> stacks_sem rules (gen G) stacks [].
Proof.
  intros [Hf _]. rewrite Forall_forall in Hf. unfold has_empty_stack. rewrite existsb_exists.
  split.
  - intros ([|? ?] & Hin & H); [|done]. exists []. split; [by apply list_elem_of_In|].
    exists []. split; [apply stack_items_nil|constructor].
  - intros (stack & Hin & its & Hs & Hg). exists stack. split; [by apply list_elem_of_In|].
    destruct (Hf _ Hin) as [_ [->|(pos & below & it & is_ & -> & Hp & Hr)]]; [done|]. exfalso.
    apply stack_items_inv in Hs as (it' & is_' & rest & Hp' & _ & ->).
    pose proof (at_items_fun _ _ _ _ Hp Hp') as [= <- <-].
    apply gen_char_inv in Hg as (c & v & E & _); done.
Qed.

(** The derivative for viable candidates. *)
Lemma after_char_viable p stacks chr cs :
  good_stacks G rules stacks ->
  stacks_sem rules (after_char (viable G p) chr) stacks cs <->
  stacks_sem rules (viable G p) stacks (chr :: cs).
Proof.
  intros [Hf _]. rewrite Forall_forall in Hf.
  assert (H : forall stack, stack ∈ stacks ->
    stack_sem rules (after_char (viable G p) chr) stack cs <->
    stack_sem rules (viable G p) stack (chr :: cs)).
  { intros stack Hin. destruct (Hf _ Hin) as [(its & Hs & _) Ht].
    rewrite !(stack_sem_items _ _ _ _ _ Hs). destruct Ht as [->|(pos & below & it & is_ & -> & Hp & Hr)].
    - rewrite (stack_items_fun _ _ _ _ Hs (stack_items_nil rules)). cbn. split; [done|]. by inversion 1.
    - apply stack_items_inv in Hs as (it' & is_' & rest & Hp' & _ & ->).
      pose proof (at_items_fun _ _ _ _ Hp Hp') as [= <- <-]. cbn. split.
      + intros (_ & Hacc & Hg). by apply viable_char.
      + inversion 1; subst; [done|discriminate Hr]. }
  split; intros (stack & Hin & Hw); exists stack; (split; [done|by apply H]).
Qed.

Lemma viable_end stacks p :
  good_stacks G rules stacks -> stacks <> [] -> n_remain p = 0 ->
  stacks_sem rules (viable G p) stacks [].
Proof.
  intros [Hf _] Hne Hp. destruct stacks as [|stack stacks]; [done|].
  inversion_clear Hf as [|? ? [(its & Hs & _) Ht] _]. exists stack. split; [by left|].
  exists its. split; [done|]. destruct Ht as [->|(pos & below & it & is_ & -> & Hpos & Hr)].
  - rewrite (stack_items_fun _ _ _ _ Hs (stack_items_nil rules)). by constructor.
  - apply stack_items_inv in Hs as (it' & is_' & rest & Hp' & _ & ->).
    pose proof (at_items_fun _ _ _ _ Hpos Hp') as [= <- <-]. by apply viable_partial; [|left].
Qed.

(** Running the engine over the code points of a candidate. *)
Lemma accept_all_viable fuel stacks p cs :
  good_stacks G rules stacks ->
  post (accept_all fuel rules stacks cs)
    (fun news => (stacks_sem rules (viable G p) stacks cs -> news <> []) /\
       (n_remain p = 0 -> news <> [] -> stacks_sem rules (viable G p) stacks cs)) (eq Fuel).
Proof.
  unfold accept_all. revert stacks. induction cs as [|c cs IH]; intros stacks Hg; cbn [foldM].
  { split.
    - intros (s & Hin & _) ->. by apply not_elem_of_nil in Hin.
    - intros Hp Hne. by apply viable_end. }
  eapply post_bind; [apply (accept_post G rules Henc Hclosed (viable G p)); [apply viable_ref_sem|done]|].
  intros news [Hgn Hsem]. eapply post_mono; [by apply IH| |done].
  intros out [H1 H2]. split.
  - intros Hv. apply H1, Hsem. by apply after_char_viable.
  - intros Hp Hne. apply after_char_viable; [done|]. by apply Hsem, H2.
Qed.
End grammar.

(** * Construction *)

Lemma copy_rule_flatten alts : copy_rule (flatten_rule alts) = Ok (flatten_rule alts).
Proof.
  assert (Happ : forall l, Forall (fun e => elem_type e <> LLAMA_GRETYPE_END) l ->
    copy_rule (l ++ [elem_end]) = Ok (l ++ [elem_end])).
  { induction 1 as [|e l He _ IH]; [done|]. cbn [copy_rule app]. unfold type_eqb.
    rewrite (bool_decide_eq_false_2 _ He), IH. done. }
  apply Happ. induction alts as [|its [|a alts] IH]; [constructor| |].
  all: assert (Hits : Forall (fun e => elem_type e <> LLAMA_GRETYPE_END) (flatten_items its)) by
    (eapply Forall_impl; [apply flatten_items_not_end|]; intros [[] ?]; done).
  - exact Hits.
  - rewrite flatten_alts_cons by done. apply Forall_app. split; [exact Hits|]. by constructor.
Qed.

Lemma copy_rules G rules : encodes G rules -> mapM copy_rule rules = Ok rules.
Proof.
  intros H. apply mapM_ok. induction H as [|alts rule G rules [_ ->] _ IH]; constructor; [|done].
  apply copy_rule_flatten.
Qed.

(** The grammar that a successful construction returns. *)
Lemma init_from_rules_some fuel G rules start lazy words tokens g :
  encodes G rules -> closed_grammar G ->
  init_from_rules fuel rules start lazy words tokens = Ok (Some g) ->
  g_rules g = rules /\ g_partial g = partial_none /\ good_stacks G rules (g_stacks g) /\
  g_stacks g <> [] /\ 0 <= start < zlen G /\
  (forall w, stacks_sem rules (gen G) (g_stacks g) w <-> gen G [IRef start] w).
Proof.
  intros Henc Hclosed. unfold init_from_rules. rewrite (copy_rules G) by done.
  cbn [mbind res_bind]. intros (b & _ & H)%res_bind_ok. destruct b; [done|].
  apply res_bind_ok in H as (stacks & Hst & H). injection H as <-.
  assert (Hrange : 0 <= start < zlen G).
  { unfold init_stacks in Hst. apply res_bind_ok in Hst as (r & Hr & _).
    apply vget_ok, zlookup_Some_lt in Hr. unfold zlen in *. by rewrite (Forall2_length _ _ _ Henc). }
  pose proof (init_stacks_post G rules Henc Hclosed fuel start Hrange) as Hpost.
  rewrite Hst in Hpost. destruct Hpost as (Hg & Hne & Hlang). splits; (done || lia).
Qed.

Lemma init_text_some fuel src root lazy words tokens g :
  Forall byte_ok src ->
  llama_grammar_init_text fuel src root lazy words tokens = Ok (Some g) ->
  exists G st start, parse src = Ok (true, st) /\ symbol_ids st !! root = Some start /\
    encodes G (rules st) /\ closed_grammar G /\
    g_rules g = rules st /\ g_partial g = partial_none /\ good_stacks G (rules st) (g_stacks g) /\
    (forall w, stacks_sem (rules st) (gen G) (g_stacks g) w <-> gen G [IRef start] w).
Proof.
  intros Hsrc. unfold llama_grammar_init_text. intros ([ok st] & Hp & H)%res_bind_ok.
  pose proof (parse_post src Hsrc) as Hwf. rewrite Hp in Hwf. cbn [post fst snd] in Hwf.
  destruct ok; [|done]. cbn [negb] in H. destruct Hwf as (G & Henc & Hclosed).
  case_bool_decide as Hrs; [done|]. case_bool_decide as Hroot; [done|].
  apply res_bind_ok in H as (start & Hs & H).
  unfold map_at in Hs. destruct (symbol_ids st !! root) as [id|] eqn:Eid; [|done]. injection Hs as ->.
  destruct (init_from_rules_some _ G _ _ _ _ _ _ Henc Hclosed H) as (I1 & I2 & I3 & _ & _ & I4).
  exists G, st, start. by splits.
Qed.

(** * Accepting pieces of a text *)

Lemma accept_str_decoded fuel g piece cs p :
  decode_utf8 piece (g_partial g) = Ok (cs ++ [0], p) ->
  llama_grammar_accept_str fuel g piece =
    (stacks ← accept_all fuel (g_rules g) (g_stacks g) cs;
     if bool_decide (stacks = []) then throw "Unexpected empty grammar stack after accepting piece"
     else Ok (with_stacks g stacks p)).
Proof.
  intros H. unfold llama_grammar_accept_str. rewrite H. cbn [mbind res_bind fst snd].
  by rewrite removelast_last.
Qed.

(** The stacks after the code points [seen] of a text in the language of the
    root. *)
Definition after_prefix (G : grammar) (rules : llama_grammar_rules) (start : Z) (seen : list Z)
    (stacks : llama_grammar_stacks) : Prop :=
  good_stacks G rules stacks /\
  (forall w, stacks_sem rules (gen G) stacks w <-> gen G [IRef start] (seen ++ w)).

Lemma accept_pieces_post fuel G start g pieces seen cs :
  encodes G (g_rules g) -> closed_grammar G ->
  after_prefix G (g_rules g) start seen (g_stacks g) ->
  pending (g_partial g) cs (concat pieces) -> Forall (fun c => c <> 0) cs ->
  post (accept_pieces fuel g pieces)
    (fun g' => after_prefix G (g_rules g) start (seen ++ cs) (g_stacks g') /\ g_rules g' = g_rules g)
    (fun e => e = Fuel \/ (exists msg, e = Throw msg) /\
                          forall w, ~ gen G [IRef start] (seen ++ cs ++ w)).
Proof.
  unfold accept_pieces. revert g seen cs. induction pieces as [|piece pieces IH];
    intros g seen cs Henc Hclosed [Hg Hlang] Hpend Hnz; cbn [foldM].
  { assert (cs = []) as ->.
    { apply (decode_pieces_pending [] _ _ Hpend) in Hnz as (s & E & _). by injection E as <-. }
    cbn. split; [|done]. split; [done|]. intros w. by rewrite app_nil_r. }
  cbn [concat] in Hpend.
  destruct (decode_utf8_pending _ _ _ _ Hpend Hnz) as (cs1 & cs2 & s' & Hdec & -> & Hpend').
  apply Forall_app in Hnz as [Hnz1 Hnz2].
  rewrite (accept_str_decoded _ _ _ _ _ Hdec).
  pose proof (accept_all_post G (g_rules g) Henc Hclosed fuel (g_stacks g) cs1 Hg) as Hacc.
  destruct (accept_all fuel (g_rules g) (g_stacks g) cs1) as [stacks|e]; cbn [mbind res_bind post] in *.
  2: { by left. }
  destruct Hacc as [Hgs Hl]. case_bool_decide as Hempty.
  - cbn. right. split; [by eexists|]. intros w Hw. rewrite <- app_assoc in Hw.
    apply Hlang, Hl in Hw as (s & Hin & _). subst. by apply not_elem_of_nil in Hin.
  - cbn [mbind res_bind]. eapply post_mono.
    + apply (IH (with_stacks g stacks s') (seen ++ cs1) cs2); [done|done| |done|done].
      split; [done|]. intros w. cbn [with_stacks g_stacks g_rules]. rewrite Hl, Hlang, app_assoc. done.
    + intros g' [H1 H2]. cbn [with_stacks g_rules] in *. split; [|done].
      destruct H1 as [H1 H3]. split; [done|]. intros w. rewrite H3, <- !app_assoc. done.
    + intros e [->|[He Hw]]; [by left|right]. split; [done|]. intros w. specialize (Hw w).
      by rewrite <- !app_assoc in Hw |- *.
Qed.

(** * Masking *)

Section mask.
Context `{V : GrammarVocab} {L : Type} (neg_infinity : L).

(** The candidate of the token at index [k]: it is not an end-of-generation
    token and its piece is not empty. *)
Definition candidate_of (g : llama_grammar) (k : nat) (d : llama_token_data (L := L))
    (tok : llama_grammar_candidate) : Prop :=
  is_eog (td_id d) = false /\ token_to_piece (td_id d) <> [] /\
  c_cur (token_to_piece (td_id d)) <> 0 /\
  exists decoded, decode_utf8 (token_to_piece (td_id d)) (g_partial g) = Ok decoded /\
    tok = mk_cand k (fst decoded) 0 (snd decoded).

Lemma collect_candidates_spec g allow i data data' cands :
  collect_candidates neg_infinity g allow i data = Ok (data', cands) ->
  length data' = length data /\
  (forall tok, tok ∈ cands <-> exists j d, data !! j = Some d /\ candidate_of g (i + j) d tok) /\
  (forall j d tok, data !! j = Some d -> candidate_of g (i + j) d tok -> data' !! j = Some d).
Proof.
  revert i data' cands. induction data as [|d data IH]; intros i data' cands H.
  { injection H as <- <-. splits; [done| |done]. intros tok. split; [set_solver|].
    by intros (j & d & Hj & _). }
  cbn [collect_candidates] in H. apply res_bind_ok in H as ([rest cs] & Hrest & H).
  destruct (IH _ _ _ Hrest) as (Hlen & Hin & Hdata).
  assert (Hshift : forall tok, tok ∈ cs <->
    exists j d0, (d :: data) !! S j = Some d0 /\ candidate_of g (i + S j) d0 tok).
  { intros tok. rewrite Hin. by setoid_rewrite Nat.add_succ_r. }
  assert (Hd' : forall x j d0 tok, (d :: data) !! S j = Some d0 -> candidate_of g (i + S j) d0 tok ->
    (x :: rest) !! S j = Some d0).
  { intros x j d0 tok Hj Hc. cbn in *. apply (Hdata j d0 tok); [done|]. by rewrite Nat.add_succ_r in Hc. }
  assert (Hno : (forall tok, ~ candidate_of g (i + 0) d tok) -> forall x,
    length (x :: rest) = length (d :: data) /\
    (forall tok, tok ∈ cs <-> exists j d0, (d :: data) !! j = Some d0 /\ candidate_of g (i + j) d0 tok) /\
    (forall j d0 tok, (d :: data) !! j = Some d0 -> candidate_of g (i + j) d0 tok ->
       (x :: rest) !! j = Some d0)).
  { intros Hn x. splits; [cbn; by rewrite Hlen| |].
    - intros tok. rewrite Hshift. split; [intros (j & d0 & Hj & Hc); by exists (S j), d0|].
      intros ([|j] & d0 & Hj & Hc); [|by exists j, d0]. injection Hj as <-. by apply Hn in Hc.
    - intros [|j] d0 tok Hj Hc; [injection Hj as <-; by apply Hn in Hc|by eapply Hd']. }
  destruct (is_eog (td_id d)) eqn:Heog.
  { injection H as <- <-. apply Hno. intros tok (E & _). congruence. }
  case_bool_decide as Hnil; cbn [orb] in H.
  { injection H as <- <-. apply Hno. by intros tok (_ & E & _). }
  destruct (Z.eqb_spec (c_cur (token_to_piece (td_id d))) 0) as [Hz|Hz].
  { injection H as <- <-. apply Hno. by intros tok (_ & _ & E & _). }
  apply res_bind_ok in H as (decoded & Hdec & H). injection H as <- <-.
  splits; [cbn; by rewrite Hlen| |].
  - intros tok. rewrite elem_of_cons, Hshift. split.
    + intros [->|(j & d0 & Hj & Hc)]; [|by exists (S j), d0]. exists O, d. split; [done|].
      rewrite Nat.add_0_r. unfold candidate_of. splits; [done..|by exists decoded].
    + intros ([|j] & d0 & Hj & Hc); [|right; by exists j, d0]. left. injection Hj as <-.
      destruct Hc as (_ & _ & _ & dec' & E & ->). rewrite Hdec in E. injection E as <-.
      by rewrite Nat.add_0_r.
  - intros [|j] d0 tok Hj Hc; [done|by eapply Hd'].
Qed.

Lemma candidate_of_index g k d tok : candidate_of g k d tok -> cand_index tok = k.
Proof. by intros (_ & _ & _ & dec & _ & ->). Qed.

Lemma candidate_of_fun g k d tok tok' : candidate_of g k d tok -> candidate_of g k d tok' -> tok = tok'.
Proof.
  intros (_ & _ & _ & dec & E & ->) (_ & _ & _ & dec' & E' & ->). rewrite E in E'. by injection E' as <-.
Qed.

(** The loop that masks the rejects. *)
Lemma apply_rejects rejects (data : list (llama_token_data (L := L))) i d :
  data !! i = Some d ->
  fold_left (apply_reject neg_infinity) rejects data !! i =
    Some (if existsb (fun r => (cand_index r =? i)%nat) rejects then mask neg_infinity d else d).
Proof.
  revert data d. induction rejects as [|r rejects IH]; intros data d Hd; [done|]. cbn [fold_left existsb].
  unfold apply_reject at 2. destruct (Nat.eqb_spec (cand_index r) i) as [<-|Hne]; cbn [orb].
  - rewrite (IH _ (mask neg_infinity d)) by (by rewrite list_lookup_alter_eq, Hd).
    by destruct (existsb _ _).
  - apply IH. by rewrite list_lookup_alter_ne.
Qed.
End mask.

(** * Properties *)

(** C10. Accepting a character is the derivative of the language: on the stacks of
    a well-formed grammar, [llama_grammar_accept] fails only by running out of
    fuel, keeps the stacks valid, distinct and at character elements, and the new
    stacks accept a word exactly when the old ones accept it after the
    character. *)
Theorem accept_is_derivative (G : grammar) (rules : llama_grammar_rules) (fuel : nat)
    (stacks : llama_grammar_stacks) (chr : Z) :
  encodes G rules -> closed_grammar G -> good_stacks G rules stacks ->
  post (llama_grammar_accept fuel rules stacks chr)
    (fun news => good_stacks G rules news /\
       forall w, stacks_sem rules (gen G) news w <-> stacks_sem rules (gen G) stacks (chr :: w))
    (eq Fuel).
Proof.
  intros Henc Hclosed Hg.
  eapply post_mono; [apply (accept_post G rules Henc Hclosed (gen G)); [apply gen_ref_sem|done]| |done].
  intros news [Hgn Hsem]. split; [done|]. intros w. rewrite Hsem. by apply after_char_gen.
Qed.

Lemma accept_is_derivative_witness :
  encodes small_grammar (flatten_rule <$> small_grammar) /\ closed_grammar small_grammar /\
  good_stacks small_grammar (flatten_rule <$> small_grammar) [[(0, 0%nat)]] /\
  post (llama_grammar_accept 10 (flatten_rule <$> small_grammar) [[(0, 0%nat)]] 97)
    (fun news => good_stacks small_grammar (flatten_rule <$> small_grammar) news /\
       forall w, stacks_sem (flatten_rule <$> small_grammar) (gen small_grammar) news w <->
                 stacks_sem (flatten_rule <$> small_grammar) (gen small_grammar) [[(0, 0%nat)]] (97 :: w))
    (eq Fuel).
Proof.
  assert (Hat : at_items (flatten_rule <$> small_grammar) (0, 0%nat) [IClass false (97, None) []; IRef 0]).
  { exists elem_alt, [mk_elem LLAMA_GRETYPE_RULE_REF 1; mk_elem LLAMA_GRETYPE_CHAR 99; elem_end].
    split; [|done]. eexists. by split. }
  assert (Hg : good_stacks small_grammar (flatten_rule <$> small_grammar) [[(0, 0%nat)]]).
  { split; [|apply NoDup_singleton]. apply Forall_singleton. split.
    - exists [IClass false (97, None) []; IRef 0]. split.
      + exists [[IClass false (97, None) []; IRef 0]]. split; [|done]. by repeat constructor.
      + unfold closed_items, zlen. cbn. repeat constructor; lia.
    - right. by exists (0, 0%nat), [], (IClass false (97, None) []), [IRef 0]. }
  destruct small_grammar_ok as [H1 H2].
  split; [exact H1|]. split; [exact H2|]. split; [exact Hg|].
  apply (accept_is_derivative small_grammar (flatten_rule <$> small_grammar) 10 [[(0, 0%nat)]] 97);
    [exact H1|exact H2|exact Hg].
Defined.

(** C2. The engine recognises the language of the grammar text: when a grammar
    text is accepted, and a UTF-8 text without NUL is fed to it in pieces cut
    anywhere, then either the engine ends with an empty stack exactly when the
    text is in the language of the root symbol, and its stacks accept exactly the
    words that complete the text; or it throws, and no word of the language starts
    with the text; or it has run out of fuel. *)
Theorem grammar_text_recognized (fuel fuel' : nat) (src root : bytes) (g : llama_grammar)
    (lazy : bool) (words : list bytes) (tokens : list Z) (cs : list Z) (pieces : list bytes) :
  Forall byte_ok src ->
  llama_grammar_init_text fuel src root lazy words tokens = Ok (Some g) ->
  utf8_text cs (concat pieces) -> Forall (fun c => c <> 0) cs ->
  exists G st start, parse src = Ok (true, st) /\ symbol_ids st !! root = Some start /\
    encodes G (rules st) /\
    post (accept_pieces fuel' g pieces)
      (fun g' => (has_empty_stack (g_stacks g') = true <-> gen G [IRef start] cs) /\
         forall w, stacks_sem (rules st) (gen G) (g_stacks g') w <-> gen G [IRef start] (cs ++ w))
      (fun e => e = Fuel \/ (exists msg, e = Throw msg) /\ forall w, ~ gen G [IRef start] (cs ++ w)).
Proof.
  intros Hsrc Hinit Htext Hnz.
  destruct (init_text_some _ _ _ _ _ _ _ Hsrc Hinit)
    as (G & st & start & Hp & Hs & Henc & Hclosed & Hr & Hpart & Hg & Hlang).
  exists G, st, start. split; [done|]. split; [done|]. split; [done|].
  rewrite <- Hr in *. eapply post_mono.
  - apply (accept_pieces_post fuel' G start g pieces [] cs); [done|done|by split| |done].
    rewrite Hpart. by left.
  - intros g' [[Hg' Hl] _]. cbn [app] in Hl. split; [|exact Hl].
    rewrite (has_empty_stack_gen G (g_rules g)), Hl, app_nil_r by done. done.
  - done.
Qed.

Lemma grammar_text_recognized_witness :
  let src := str "root ::= [a-c]+ [x]?" in
  let pieces := [str "ab"; str "x"] in
  Forall byte_ok src /\ utf8_text (str "abx") (concat pieces) /\
  Forall (fun c => c <> 0) (str "abx") /\
  exists g, llama_grammar_init_text 20 src (str "root") false [] [] = Ok (Some g) /\
  exists G st start, parse src = Ok (true, st) /\ symbol_ids st !! str "root" = Some start /\
    encodes G (rules st) /\
    post (accept_pieces 20 g pieces)
      (fun g' => (has_empty_stack (g_stacks g') = true <-> gen G [IRef start] (str "abx")) /\
         forall w, stacks_sem (rules st) (gen G) (g_stacks g') w <-> gen G [IRef start] (str "abx" ++ w))
      (fun e => e = Fuel \/ (exists msg, e = Throw msg) /\ forall w, ~ gen G [IRef start] (str "abx" ++ w)).
Proof.
  cbv zeta.
  assert (Ht : utf8_text (str "abx") (concat [str "ab"; str "x"])).
  { exists [[97]; [98]; [120]]. split; [|reflexivity]. repeat constructor; vm_compute; congruence. }
  assert (Hnz : Forall (fun c => c <> 0) (str "abx")) by (repeat constructor; vm_compute; congruence).
  split; [apply str_bytes|]. split; [exact Ht|]. split; [exact Hnz|].
  destruct (llama_grammar_init_text 20 (str "root ::= [a-c]+ [x]?") (str "root") false [] [])
    as [[g|]|e] eqn:E; [|vm_compute in E; discriminate E|vm_compute in E; discriminate E].
  exists g. split; [reflexivity|].
  apply (grammar_text_recognized 20 20 (str "root ::= [a-c]+ [x]?") (str "root") g false [] []
    (str "abx") [str "ab"; str "x"]); [apply str_bytes|exact E|exact Ht|exact Hnz].
Defined.

(** C11. Rejection is exact: on the stacks of a well-formed grammar,
    [llama_grammar_reject_candidates] returns, unless it runs out of fuel, exactly
    those candidates whose code points and trailing partial sequence no stack can
    take. *)
Theorem reject_candidates_exact (G : grammar) (rules : llama_grammar_rules) (depth fuel : nat)
    (stacks : llama_grammar_stacks) (cands : list llama_grammar_candidate) :
  encodes G rules -> closed_grammar G -> good_stacks G rules stacks -> stacks <> [] ->
  cands_ok cands ->
  post (llama_grammar_reject_candidates depth fuel rules stacks cands)
    (fun rejects => forall tok, tok ∈ rejects <-> tok ∈ cands /\ ~ stacks_take G rules stacks tok)
    (eq Fuel).
Proof.
  intros Henc Hclosed [Hf _] Hne Hok. rewrite Forall_forall in Hf.
  apply (reject_with_post G rules Henc Hclosed); [done|done|]. intros stack cs Hin Hcs. destruct (Hf _ Hin) as [Hv Ht].
  by apply reject_for_stack_post.
Qed.

Lemma reject_candidates_exact_witness :
  let cands := [mk_cand 0 [97; 97; 0] 0 partial_none; mk_cand 1 [98; 0] 0 partial_none] in
  encodes small_grammar (flatten_rule <$> small_grammar) /\ closed_grammar small_grammar /\
  good_stacks small_grammar (flatten_rule <$> small_grammar) [[(0, 0%nat)]] /\
  [[(0, 0%nat)]] <> [] /\ cands_ok cands /\
  post (llama_grammar_reject_candidates 4 10 (flatten_rule <$> small_grammar) [[(0, 0%nat)]] cands)
    (fun rejects => forall tok, tok ∈ rejects <-> tok ∈ cands /\
       ~ stacks_take small_grammar (flatten_rule <$> small_grammar) [[(0, 0%nat)]] tok)
    (eq Fuel).
Proof.
  cbv zeta.
  assert (Hat : at_items (flatten_rule <$> small_grammar) (0, 0%nat) [IClass false (97, None) []; IRef 0]).
  { exists elem_alt, [mk_elem LLAMA_GRETYPE_RULE_REF 1; mk_elem LLAMA_GRETYPE_CHAR 99; elem_end].
    split; [|done]. eexists. by split. }
  assert (Hg : good_stacks small_grammar (flatten_rule <$> small_grammar) [[(0, 0%nat)]]).
  { split; [|apply NoDup_singleton]. apply Forall_singleton. split.
    - exists [IClass false (97, None) []; IRef 0]. split.
      + exists [[IClass false (97, None) []; IRef 0]]. split; [|done]. by repeat constructor.
      + unfold closed_items, zlen. cbn. repeat constructor; lia.
    - right. by exists (0, 0%nat), [], (IClass false (97, None) []), [IRef 0]. }
  assert (Hc : cands_ok [mk_cand 0 [97; 97; 0] 0 partial_none; mk_cand 1 [98; 0] 0 partial_none]).
  { constructor; [exists [97; 97]|constructor; [exists [98]|constructor]];
      (split; [reflexivity|repeat constructor; congruence]). }
  destruct small_grammar_ok as [H1 H2].
  split; [exact H1|]. split; [exact H2|]. split; [exact Hg|]. split; [discriminate|]. split; [exact Hc|].
  apply (reject_candidates_exact small_grammar (flatten_rule <$> small_grammar) 4 10 [[(0, 0%nat)]]);
    [exact H1|exact H2|exact Hg|discriminate|exact Hc].
Defined.

(** The reject of a token. *)
Lemma candidate_rejected `{V : GrammarVocab} {L : Type} g (data : list (llama_token_data (L := L))) cands rejects k tok
    (d : llama_token_data (L := L)) (takes : llama_grammar_candidate -> Prop) :
  (forall tok, tok ∈ cands <-> exists j d, data !! j = Some d /\ candidate_of g (0 + j) d tok) ->
  rejects_ok takes cands rejects -> data !! k = Some d -> candidate_of g k d tok ->
  existsb (fun r => (cand_index r =? k)%nat) rejects = true <-> ~ takes tok.
Proof.
  intros Hcands Hrej Hd Hc. rewrite existsb_exists. split.
  - intros (r & Hr & Hk%Nat.eqb_eq). apply list_elem_of_In, Hrej in Hr as [Hin Hnt].
    apply Hcands in Hin as (j & d' & Hd' & Hc'). cbn in Hc'.
    pose proof (candidate_of_index _ _ _ _ Hc') as Hj. assert (j = k) as -> by congruence.
    rewrite Hd in Hd'. injection Hd' as <-. by rewrite (candidate_of_fun _ _ _ _ _ Hc Hc').
  - intros Hnt. exists tok. split.
    + apply list_elem_of_In, Hrej. split; [|done]. apply Hcands. by exists k, d.
    + by apply Nat.eqb_eq, (candidate_of_index g k d).
Qed.

(** The pieces of the tokens decode to code points other than 0. *)
Definition pieces_ok `{V : GrammarVocab} {L : Type} (g : llama_grammar)
    (data : list (llama_token_data (L := L))) : Prop :=
  forall d decoded, d ∈ data -> decode_utf8 (token_to_piece (td_id d)) (g_partial g) = Ok decoded ->
    exists cs, fst decoded = cs ++ [0] /\ Forall (fun c => c <> 0) cs.


(** A vocabulary of three tokens: [a], [b] and the end of generation. *)
Definition toy_vocab : GrammarVocab := {|
  token_to_piece := fun id => if id =? 0 then [97] else if id =? 1 then [98] else [];
  is_eog := fun id => id =? 2
|}.

Definition toy_data : list (llama_token_data (L := Z)) :=
  [mk_token_data 0 5; mk_token_data 1 6; mk_token_data 2 7].

Definition toy_grammar : llama_grammar :=
  mk_grammar (flatten_rule <$> small_grammar) [[(0, 0%nat)]] partial_none false false [] [] [].

Lemma toy_grammar_good : good_stacks small_grammar (g_rules toy_grammar) (g_stacks toy_grammar).
Proof.
  assert (Hat : at_items (g_rules toy_grammar) (0, 0%nat) [IClass false (97, None) []; IRef 0]).
  { exists elem_alt, [mk_elem LLAMA_GRETYPE_RULE_REF 1; mk_elem LLAMA_GRETYPE_CHAR 99; elem_end].
    split; [|done]. eexists. by split. }
  split; [|apply NoDup_singleton]. apply Forall_singleton. split.
  - exists [IClass false (97, None) []; IRef 0]. split.
    + exists [[IClass false (97, None) []; IRef 0]]. split; [|done]. by repeat constructor.
    + unfold closed_items, zlen. cbn. repeat constructor; lia.
  - right. by exists (0, 0%nat), [], (IClass false (97, None) []), [IRef 0].
Qed.

Lemma toy_pieces : @pieces_ok toy_vocab Z toy_grammar toy_data.
Proof.
  intros d dec Hin Hdec. unfold toy_data in Hin. rewrite !elem_of_cons in Hin.
  destruct Hin as [->|[->|[->|H]]]; [| | |by apply not_elem_of_nil in H];
    vm_compute in Hdec; injection Hdec as <-; [exists [97]|exists [98]|exists []];
    (split; [reflexivity|repeat constructor; congruence]).
Qed.


(** A root that is only referred to breaks the construction: in
    [x ::= root], [x ::= [a]] the redefinition of [x] drops the only reference to
    [root], so the text passes the validation with a [root] symbol that has no
    rule, and [llama_grammar_init_impl] reads outside the vector of rules. *)
Theorem init_reads_undefined_root (fuel : nat) :
  llama_grammar_init_text fuel (str "x ::= root" ++ [10] ++ str "x ::= [a]") (str "root") false [] [] = Err UB.
Proof.
  unfold llama_grammar_init_text.
  destruct (parse _) as [[ok st]|e] eqn:E; [|vm_compute in E; discriminate E].
  vm_compute in E. injection E as <- <-. vm_compute. reflexivity.
Qed.
