(* ===== verification/Batch.v ===== *)
(** Batches of tokens: [src/llama-batch.h] and [src/llama-batch.cpp]. The
    batch of a caller is completed by [llama_batch_allocr], sorted into
    sequences by [llama_sbatch::from_batch] and handed out piece by piece as
    ubatches by [split_simple], [split_equal] and [split_seq].

    A C++ array is the list of its elements and a null pointer is [None]; a
    row of embeddings is the list of the bit patterns of its floats, so that
    [n_embd] disappears from the index arithmetic. *)
From S2P Require Import Prelude.

(** * Data *)

(** [struct llama_batch] *)
Record llama_batch : Type := mk_batch {
  b_n_tokens : Z;
  b_token    : option (list Z);
  b_embd     : option (list (list Z));
  b_pos      : option (list Z);
  b_n_seq_id : option (list Z);
  b_seq_id   : option (list (list Z));
  b_logits   : option (list Z)
}.

(** [struct llama_ubatch] *)
Record llama_ubatch : Type := mk_ubatch {
  ub_equal_seqs   : bool;
  ub_n_tokens     : Z;
  ub_n_seq_tokens : Z;
  ub_n_seqs       : Z;
  ub_token        : option (list Z);
  ub_embd         : option (list (list Z));
  ub_pos          : list Z;
  ub_n_seq_id     : list Z;
  ub_seq_id       : list (list Z);
  ub_output       : list Z
}.

(** [struct llama_sbatch_seq] *)
Record llama_sbatch_seq : Type := mk_seq {
  sq_n_seq_id : Z;
  sq_seq_id   : option (list Z);
  sq_offset   : Z;
  sq_length   : Z
}.

(** [struct llama_sbatch]. The vectors [ubatch_token] ... [ubatch_output] are
    only ever filled from the front, by the one ubatch that is being built: the
    model keeps their common size, [sb_capacity], here and their written part
    in the ubatch. *)
Record llama_sbatch : Type := mk_sbatch {
  sb_n_tokens   : Z;
  sb_logits_all : bool;
  sb_ids        : list Z;
  sb_out_ids    : list Z;
  sb_seq        : list llama_sbatch_seq;
  sb_batch      : option llama_batch;
  sb_capacity   : Z
}.

Definition sbatch_empty : llama_sbatch := mk_sbatch 0 false [] [] [] None 0.

Definition with_seq (sb : llama_sbatch) (seq : list llama_sbatch_seq) : llama_sbatch :=
  mk_sbatch (sb_n_tokens sb) (sb_logits_all sb) (sb_ids sb) (sb_out_ids sb) seq
    (sb_batch sb) (sb_capacity sb).

(** * Ubatches *)

(** The loop that drops finished sequences from the end of [seq]. *)
Fixpoint pop_finished (rev_seq : list llama_sbatch_seq) : list llama_sbatch_seq :=
  match rev_seq with
  | s :: rest => if sq_length s =? 0 then pop_finished rest else rev_seq
  | [] => []
  end.

(** [llama_sbatch::reserve_ubatch] *)
Definition reserve_ubatch (sb : llama_sbatch) (n_ubatch : Z) (has_embd : bool)
    : llama_sbatch * llama_ubatch :=
  (mk_sbatch (sb_n_tokens sb) (sb_logits_all sb) (sb_ids sb) (sb_out_ids sb)
     (rev (pop_finished (rev (sb_seq sb)))) (sb_batch sb) n_ubatch,
   mk_ubatch true 0 0 0
     (if has_embd then None else Some []) (if has_embd then Some [] else None) [] [] [] []).

(** [buf[idx] = x] in a ubatch buffer. The buffers are written in order; a
    write that leaves a gap or is beyond the capacity is an error of the model
    (the capacity is the size of the C++ vector). *)
Definition put {A} (cap idx : Z) (x : A) (buf : list A) : res (list A) :=
  if (idx =? zlen buf) && (idx <? cap) then Ok (buf ++ [x]) else Err UB.

(** [for (i = 0; i < length; ++i) buf[start + i] = src[ids[offset + i]]] *)
Definition gather {A} (cap start : Z) (ids : list Z) (offset length : Z)
    (src : list A) (buf : list A) : res (list A) :=
  for_z 0 length (fun i buf =>
    id ← vget ids (offset + i);
    x ← vget src id;
    put cap (start + i) x buf) buf.

(** The [token] and [embd] blocks of [add_seq_to_ubatch]. *)
Definition add_rows {A} (equal_seqs : bool) (cap start : Z) (ids : list Z) (offset length : Z)
    (src buf : option (list A)) : res (option (list A)) :=
  match src with
  | Some src =>
      if equal_seqs then
        match buf with
        | Some buf => Some <$> gather cap start ids offset length src buf
        | None => Err UB
        end
      else Ok (Some (drop (Z.to_nat offset) src))
  | None => Ok None
  end.

(** The output block of [add_seq_to_ubatch]: the flags of the new tokens and
    the batch indices that are pushed to [out_ids]. *)
Definition add_outputs (sb : llama_sbatch) (batch : llama_batch) (ub : llama_ubatch)
    (offset length : Z) : res (list Z * list Z) :=
  let ids := sb_ids sb in
  let cap := sb_capacity sb in
  let start := ub_n_tokens ub in
  if sb_logits_all sb then
    for_z 0 length (fun i '(output, out_ids) =>
      output ← put cap (start + i) 1 output;
      id ← vget ids (offset + i);
      Ok (output, out_ids ++ [id])) (ub_output ub, sb_out_ids sb)
  else
    match b_logits batch with
    | Some logits =>
        if ub_equal_seqs ub then
          for_z 0 length (fun i '(output, out_ids) =>
            id ← vget ids (offset + i);
            is_output ← vget logits id;
            output ← put cap (start + i) is_output output;
            Ok (output, if is_output =? 0 then out_ids else out_ids ++ [id]))
            (ub_output ub, sb_out_ids sb)
        else
          let output := drop (Z.to_nat offset) logits in
          out_ids ← for_z 0 length (fun i out_ids =>
            is_output ← vget output i;
            Ok (if is_output =? 0 then out_ids else out_ids ++ [offset + i])) (sb_out_ids sb);
          Ok (output, out_ids)
    | None =>
        for_z 0 length (fun i '(output, out_ids) =>
          id ← vget ids (offset + i);
          let is_last := id =? zlen ids - 1 in
          output ← put cap (start + i) (if is_last then 1 else 0) output;
          Ok (output, if is_last then out_ids ++ [id] else out_ids))
          (ub_output ub, sb_out_ids sb)
    end.

(** [llama_sbatch::add_seq_to_ubatch]; the sequence is [seq[k]], which the
    function updates in place. *)
Definition add_seq_to_ubatch (sb : llama_sbatch) (ub : llama_ubatch) (k : nat) (length : Z)
    : res (llama_sbatch * llama_ubatch) :=
  match sb_batch sb with
  | None => Err Abort
  | Some batch =>
  s ← or_ub (sb_seq sb !! k);
  ggml_assert (length <=? sq_length s);;
  ggml_assert ((sq_n_seq_id s =? 0) || (ub_n_seqs ub =? 0)
               || (length =? ub_n_tokens ub `div` ub_n_seqs ub));;
  ggml_assert (Bool.eqb (negb (sq_n_seq_id s =? 0)) (ub_equal_seqs ub));;
  let ids := sb_ids sb in
  let cap := sb_capacity sb in
  let equal_seqs := ub_equal_seqs ub in
  let offset := sq_offset s in
  token ← add_rows equal_seqs cap (ub_n_tokens ub) ids offset length (b_token batch) (ub_token ub);
  embd ← add_rows equal_seqs cap (ub_n_tokens ub) ids offset length (b_embd batch) (ub_embd ub);
  batch_pos ← or_ub (b_pos batch);
  pos ← (if equal_seqs
         then gather cap (ub_n_tokens ub) ids offset length batch_pos (ub_pos ub)
         else Ok (drop (Z.to_nat offset) batch_pos));
  n_seq_id ← (if equal_seqs then put cap (ub_n_seqs ub) (sq_n_seq_id s) (ub_n_seq_id ub)
              else match b_n_seq_id batch with
                   | Some n_seq_id => Ok (drop (Z.to_nat offset) n_seq_id)
                   | None => for_z 0 length (fun i => put cap (ub_n_seqs ub + i) 1) (ub_n_seq_id ub)
                   end);
  seq_id ← (if equal_seqs
            then match sq_seq_id s with
                 | Some seq_ids => put cap (ub_n_seqs ub) seq_ids (ub_seq_id ub)
                 | None => Ok (ub_seq_id ub)
                 end
            else match b_seq_id batch with
                 | Some seq_id => Ok (drop (Z.to_nat offset) seq_id)
                 | None => Ok (ub_seq_id ub)
                 end);
  outputs ← add_outputs sb batch ub offset length;
  let n_seq_tokens := if (ub_n_tokens ub =? 0) && (ub_n_seqs ub =? 0)
                      then (if equal_seqs then length else 1) else ub_n_seq_tokens ub in
  let n_tokens := u32 (ub_n_tokens ub + length) in
  let n_seqs := u32 (ub_n_seqs ub + (if equal_seqs then 1 else length)) in
  ggml_assert (n_tokens =? u32 (n_seq_tokens * n_seqs));;
  Ok (mk_sbatch (sb_n_tokens sb - length) (sb_logits_all sb) ids outputs.2
        (<[k := mk_seq (sq_n_seq_id s) (sq_seq_id s) (offset + length) (sq_length s - length)]> (sb_seq sb))
        (sb_batch sb) cap,
      mk_ubatch equal_seqs n_tokens n_seq_tokens n_seqs token embd pos n_seq_id seq_id outputs.1)
  end.

(** [n_ubatch = n_tokens < n_ubatch ? n_tokens : n_ubatch], and the
    reservation that every split begins with. *)
Definition split_begin (sb : llama_sbatch) (n_ubatch : Z) : res (Z * (llama_sbatch * llama_ubatch)) :=
  let n_ubatch := Z.min (sb_n_tokens sb) n_ubatch in
  batch ← or_ub (sb_batch sb);
  Ok (n_ubatch, reserve_ubatch sb n_ubatch (bool_decide (is_Some (b_embd batch)))).

Definition ub_simple (ub : llama_ubatch) : llama_ubatch :=
  mk_ubatch false (ub_n_tokens ub) (ub_n_seq_tokens ub) (ub_n_seqs ub) (ub_token ub) (ub_embd ub)
    (ub_pos ub) (ub_n_seq_id ub) (ub_seq_id ub) (ub_output ub).

(** [llama_sbatch::split_simple] *)
Definition split_simple (sb : llama_sbatch) (n_ubatch : Z) : res (llama_sbatch * llama_ubatch) :=
  r ← split_begin sb n_ubatch;
  let '(n_ubatch, (sb, ub)) := r : Z * (llama_sbatch * llama_ubatch) in
  let ub := ub_simple ub in
  match sb_seq sb with
  | [] => Ok (sb, ub)
  | s :: rest =>
      let length := Z.min (sq_length s) n_ubatch in
      ggml_assert (match rest with [] => sq_n_seq_id s =? 0 | _ => false end);;
      add_seq_to_ubatch sb ub 0 length
  end.

(** The loop of [split_equal], from sequence [k - 1] down to the first. *)
Fixpoint split_equal_loop (k : nat) (n_ubatch length n_tokens_in_ubatch : Z)
    (sb : llama_sbatch) (ub : llama_ubatch) : res (llama_sbatch * llama_ubatch) :=
  match k with
  | O => Ok (sb, ub)
  | S k =>
      s ← or_ub (sb_seq sb !! k);
      ggml_assert (0 <? sq_length s);;
      let length := if length =? 0 then Z.min (sq_length s) n_ubatch else length in
      r ← add_seq_to_ubatch sb ub k length;
      let n_tokens_in_ubatch := n_tokens_in_ubatch + length in
      if 1 <? sq_n_seq_id s then Ok r
      else if n_ubatch <? length + n_tokens_in_ubatch then Ok r
      else split_equal_loop k n_ubatch length n_tokens_in_ubatch r.1 r.2
  end.

(** [llama_sbatch::split_equal] *)
Definition split_equal (sb : llama_sbatch) (n_ubatch : Z) : res (llama_sbatch * llama_ubatch) :=
  r ← split_begin sb n_ubatch;
  let '(n_ubatch, (sb, ub)) := r : Z * (llama_sbatch * llama_ubatch) in
  match sb_seq sb with
  | [] => Ok (sb, ub)
  | s :: _ =>
      ggml_assert (0 <? sq_n_seq_id s);;
      split_equal_loop (length (sb_seq sb)) n_ubatch 0 0 sb ub
  end.

(** [llama_sbatch::split_seq] *)
Definition split_seq (sb : llama_sbatch) (n_ubatch : Z) : res (llama_sbatch * llama_ubatch) :=
  r ← split_begin sb n_ubatch;
  let '(n_ubatch, (sb, ub)) := r : Z * (llama_sbatch * llama_ubatch) in
  match last (sb_seq sb) with
  | None => Ok (sb, ub)
  | Some s =>
      let length := Z.min (sq_length s) n_ubatch in
      ggml_assert (0 <? sq_n_seq_id s);;
      add_seq_to_ubatch sb ub (pred (Datatypes.length (sb_seq sb))) length
  end.

(** * Sequences of a batch *)

(** The loop over the sequence ids of two tokens: the order of the first
    difference, if there is one. *)
Fixpoint seq_ids_lt (n : nat) (a b : list Z) : option bool :=
  match n, a, b with
  | S n, x :: a, y :: b => if x =? y then seq_ids_lt n a b else Some (x <? y)
  | _, _, _ => None
  end.

(** The comparator of [ids]. *)
Definition token_lt (batch : llama_batch) (a b : Z) : bool :=
  let n_seq i := match b_n_seq_id batch with Some l => default 0 (zlookup l i) | None => 1 end in
  if n_seq a =? n_seq b then
    match (match b_seq_id batch with
           | Some l => seq_ids_lt (Z.to_nat (n_seq a)) (default [] (zlookup l a)) (default [] (zlookup l b))
           | None => None
           end) with
    | Some r => r
    | None => match b_pos batch with
              | Some pos => default 0 (zlookup pos a) <? default 0 (zlookup pos b)
              | None => a <? b
              end
    end
  else n_seq b <? n_seq a.

(** The comparator of [seq]. *)
Definition seq_lt (a b : llama_sbatch_seq) : bool :=
  if sq_n_seq_id a =? sq_n_seq_id b then sq_length b <? sq_length a
  else sq_n_seq_id a <? sq_n_seq_id b.

(** The loop [for (j = 0; same && j < n_seqs; ++j)]. *)
Fixpoint same_seq_ids (n : nat) (a b : list Z) : bool :=
  match n, a, b with
  | S n, x :: a, y :: b => (x =? y) && same_seq_ids n a b
  | _, _, _ => true
  end.

Definition extend_last (s : llama_sbatch_seq) : llama_sbatch_seq :=
  mk_seq (sq_n_seq_id s) (sq_seq_id s) (sq_offset s) (sq_length s + 1).

(** One iteration of the loop that groups the sorted tokens. [have_last] says
    whether [last_seq] points to the last element of [seq]. *)
Definition group_step (batch : llama_batch) (ids : list Z) (i : Z)
    (st : list llama_sbatch_seq * bool) : res (list llama_sbatch_seq * bool) :=
  let '(seq, have_last) := st in
  bi ← vget ids i;
  n_seq_id ← or_ub (b_n_seq_id batch);
  n_seqs ← vget n_seq_id bi;
  seq_id ← or_ub (b_seq_id batch);
  seq_ids ← vget seq_id bi;
  let same := match last seq with
              | Some s => have_last && (n_seqs =? sq_n_seq_id s)
                          && same_seq_ids (Z.to_nat n_seqs) seq_ids (default [] (sq_seq_id s))
              | None => false
              end in
  if same then Ok (alter extend_last (pred (length seq)) seq, true)
  else Ok (seq ++ [mk_seq n_seqs (Some seq_ids) i 1], true).

(** [llama_sbatch::from_batch]. In the simple case [seq] is resized to one
    element; otherwise the new sequences are pushed to what [seq] holds. *)
Definition from_batch `{CppSort} (sb : llama_sbatch) (batch : llama_batch)
    (simple_split logits_all : bool) : res llama_sbatch :=
  ggml_assert (0 <=? b_n_tokens batch);;
  let n_tokens := b_n_tokens batch in
  let ids := zseq 0 (Z.to_nat n_tokens) in
  if simple_split then
    Ok (mk_sbatch n_tokens logits_all ids [] [mk_seq 0 None 0 n_tokens] (Some batch) (sb_capacity sb))
  else
    let ids := std_sort (token_lt batch) ids in
    r ← for_z 0 n_tokens (group_step batch ids) (sb_seq sb, false);
    Ok (mk_sbatch n_tokens logits_all ids [] (std_sort seq_lt r.1) (Some batch) (sb_capacity sb)).

(** * Completion of a caller's batch *)

Definition or_default {A} (o : option A) (d : A) : option A :=
  match o with Some a => Some a | None => Some d end.

(** [llama_batch_allocr]: positions counted from [p0], the sequence 0 and the
    last token as the only output, where the caller leaves the choice open. *)
Definition llama_batch_allocr (b : llama_batch) (p0 : Z) : res llama_batch :=
  ggml_assert (0 <? b_n_tokens b);;
  let n := Z.to_nat (b_n_tokens b) in
  pos ← (match b_pos b with
         | Some pos => Ok pos
         | None => mapM (fun i => s32 (i + p0)) (zseq 0 n)
         end);
  Ok (mk_batch (b_n_tokens b) (b_token b) (b_embd b)
        (Some pos)
        (or_default (b_n_seq_id b) (replicate n 1))
        (or_default (b_seq_id b) (replicate n [0]))
        (or_default (b_logits b) (<[pred n := 1]> (replicate n 0)))).

(** [llama_batch_get_one] *)
Definition llama_batch_get_one (tokens : list Z) (n_tokens : Z) : llama_batch :=
  mk_batch n_tokens (Some tokens) None None None None None.

(** * Specification *)

(** What a batch or a ubatch says of one token. *)
Record token_row : Type := mk_row {
  row_token  : option Z;
  row_embd   : option (list Z);
  row_pos    : Z;
  row_seqs   : list Z;
  row_output : bool
}.

(** A column that may be absent. *)
Definition column {A} (src : option (list A)) (i : Z) : option (option A) :=
  match src with Some src => Some <$> zlookup src i | None => Some None end.

Definition seqs_at (n_seq_id : list Z) (seq_id : list (list Z)) (s : Z) : option (list Z) :=
  n ← zlookup n_seq_id s; l ← zlookup seq_id s; Some (take (Z.to_nat n) l).

(** Token [t] of a ubatch; it belongs to the sequence [t / n_seq_tokens]. *)
Definition ubatch_row (ub : llama_ubatch) (t : Z) : option token_row :=
  token ← column (ub_token ub) t;
  embd ← column (ub_embd ub) t;
  pos ← zlookup (ub_pos ub) t;
  seqs ← seqs_at (ub_n_seq_id ub) (ub_seq_id ub) (t `div` ub_n_seq_tokens ub);
  output ← zlookup (ub_output ub) t;
  Some (mk_row token embd pos seqs (negb (output =? 0))).

(** Is token [id] of the batch an output? *)
Definition is_output (b : llama_batch) (logits_all : bool) (id : Z) : bool :=
  logits_all ||
  match b_logits b with
  | Some logits => negb (default 0 (zlookup logits id) =? 0)
  | None => id =? b_n_tokens b - 1
  end.

Definition token_key (b : llama_batch) (id : Z) : list Z :=
  match b_n_seq_id b, b_seq_id b with
  | Some n_seq_id, Some seq_id => default [] (seqs_at n_seq_id seq_id id)
  | _, _ => []
  end.

Definition batch_row (b : llama_batch) (logits_all : bool) (id : Z) : option token_row :=
  token ← column (b_token b) id;
  embd ← column (b_embd b) id;
  pos ← b_pos b;
  pos ← zlookup pos id;
  Some (mk_row token embd pos (token_key b id) (is_output b logits_all id)).

(** A completed batch with arrays of [n_tokens] elements. *)
Record batch_ok (b : llama_batch) : Prop := {
  bo_size   : 0 <= b_n_tokens b <= INT32_MAX;
  bo_token  : forall l, b_token b = Some l -> zlen l = b_n_tokens b;
  bo_embd   : forall l, b_embd b = Some l -> zlen l = b_n_tokens b /\ b_token b = None;
  bo_pos    : exists l, b_pos b = Some l /\ zlen l = b_n_tokens b;
  bo_seqs   : exists n_seq_id seq_id, b_n_seq_id b = Some n_seq_id /\ b_seq_id b = Some seq_id /\
                zlen n_seq_id = b_n_tokens b /\
                Forall2 (fun n l => 0 < n <= zlen l) n_seq_id seq_id;
  bo_logits : forall l, b_logits b = Some l -> zlen l = b_n_tokens b
}.

(** [l] and [k] hold the same tokens, and the tokens of every sequence (more
    exactly, of every set of sequences) are in the same order in both. *)
Definition rearranged (b : llama_batch) (l k : list Z) : Prop :=
  forall key, filter (fun id => token_key b id = key) l = filter (fun id => token_key b id = key) k.

#[export] Instance rearranged_equivalence b : Equivalence (rearranged b).
Proof.
  split; unfold rearranged.
  - intros l key. reflexivity.
  - intros l k H key. by rewrite H.
  - intros l k m H1 H2 key. by rewrite H1, H2.
Qed.

#[export] Instance rearranged_app b :
  Proper (rearranged b ==> rearranged b ==> rearranged b) (@app Z).
Proof. intros l l' Hl k k' Hk key. rewrite !filter_app. by rewrite Hl, Hk. Qed.

Lemma filter_key_nil b key l :
  Forall (fun id => token_key b id <> key) l -> filter (fun id => token_key b id = key) l = [].
Proof.
  induction 1 as [|x l Hx _ IH]; [done|]. rewrite filter_cons. by case_decide.
Qed.

(** Tokens of different sequences commute. *)
Lemma rearranged_comm b key l k :
  Forall (fun id => token_key b id = key) l ->
  Forall (fun id => token_key b id <> key) k ->
  rearranged b (k ++ l) (l ++ k).
Proof.
  intros Hl Hk key'. rewrite !filter_app. destruct (decide (key' = key)) as [->|Hne].
  - rewrite (filter_key_nil _ _ k) by done. by rewrite app_nil_r.
  - rewrite (filter_key_nil _ _ l); [by rewrite app_nil_r|].
    eapply Forall_impl; [exact Hl|]. intros id ->. done.
Qed.

Lemma filter_split_perm {A} (P : A -> Prop) `{forall x, Decision (P x)} (l : list A) :
  filter P l ++ filter (fun x => ~ P x) l ≡ₚ l.
Proof.
  induction l as [|x l IH]; [done|]. rewrite !filter_cons.
  destruct (decide (P x)); destruct (decide (~ P x)); try tauto; cbn.
  - by rewrite IH.
  - by rewrite <- Permutation_middle, IH.
Qed.

Lemma filter_key_other b key key' (l : list Z) :
  key' <> key ->
  filter (fun id => token_key b id = key') (filter (fun id => token_key b id <> key) l) =
  filter (fun id => token_key b id = key') l.
Proof.
  intros Hne. induction l as [|x l IH]; [done|]. rewrite !filter_cons.
  destruct (decide (token_key b x = key)) as [E|E]; destruct (decide (token_key b x = key')) as [E'|E'];
    repeat (rewrite filter_cons || case_decide); try congruence.
Qed.

Lemma rearranged_perm b l k : rearranged b l k -> l ≡ₚ k.
Proof.
  remember (length l) as n eqn:Hn. revert l k Hn.
  induction n as [n IH] using lt_wf_ind. intros l k -> H. destruct l as [|x l].
  - destruct k as [|y k]; [done|]. specialize (H (token_key b y)).
    rewrite filter_cons_True in H by done. by rewrite filter_nil in H.
  - set (key := token_key b x).
    rewrite <- (filter_split_perm (fun id => token_key b id = key) (x :: l)).
    rewrite <- (filter_split_perm (fun id => token_key b id = key) k).
    rewrite (H key). apply Permutation_app_head.
    apply (IH (length (filter (fun id => token_key b id <> key) (x :: l)))); [|done|].
    + rewrite filter_cons_False by (unfold key; tauto). cbn.
      pose proof (length_filter (fun id => token_key b id <> key) l). lia.
    + intros key'. destruct (decide (key' = key)) as [->|Hne].
      * rewrite !filter_key_nil; [done|..]; apply Forall_forall; intros y [Hy _]%list_elem_of_filter; done.
      * rewrite !filter_key_other by done. apply H.
Qed.

(** * Invariants *)

Definition slice (ids : list Z) (offset length : Z) : list Z :=
  take (Z.to_nat length) (drop (Z.to_nat offset) ids).

Definition seq_slice (sb : llama_sbatch) (s : llama_sbatch_seq) : list Z :=
  slice (sb_ids sb) (sq_offset s) (sq_length s).

(** The tokens that no ubatch has taken yet. *)
Definition pending (sb : llama_sbatch) : list Z := concat (seq_slice sb <$> sb_seq sb).

Definition seq_key (s : llama_sbatch_seq) : list Z :=
  take (Z.to_nat (sq_n_seq_id s)) (default [] (sq_seq_id s)).

(** A range of [ids] with the tokens of one set of sequences. *)
Record seq_ok (b : llama_batch) (sb : llama_sbatch) (s : llama_sbatch_seq) : Prop := {
  so_n_seq_id : 0 < sq_n_seq_id s;
  so_seq_id   : exists l, sq_seq_id s = Some l /\ sq_n_seq_id s <= zlen l;
  so_offset   : 0 <= sq_offset s;
  so_length   : 0 <= sq_length s;
  so_end      : sq_offset s + sq_length s <= zlen (sb_ids sb);
  so_key      : Forall (fun id => token_key b id = seq_key s) (seq_slice sb s)
}.

(** The state of [llama_sbatch] between two ubatches of [split_equal] and
    [split_seq]. *)
Record sb_inv (b : llama_batch) (sb : llama_sbatch) : Prop := {
  si_batch : sb_batch sb = Some b;
  si_ids   : Forall (fun id => 0 <= id < b_n_tokens b) (sb_ids sb);
  si_size  : zlen (sb_ids sb) = b_n_tokens b;
  si_seqs  : Forall (seq_ok b sb) (sb_seq sb);
  si_keys  : NoDup (seq_key <$> sb_seq sb);
  si_count : sb_n_tokens sb = zsum (sq_length <$> sb_seq sb);
  si_small : sb_n_tokens sb <= b_n_tokens b
}.

Definition selected {A} (src : list A) (p : list Z) (xs : list A) : Prop :=
  Forall2 (fun id x => zlookup src id = Some x) p xs.

Definition column_inv {A} (src buf : option (list A)) (p : list Z) : Prop :=
  match src with
  | Some src => exists xs, buf = Some xs /\ selected src p xs
  | None => p <> [] -> buf = None
  end.

(** The ubatch being built holds the tokens [p], in sequences of [len]. *)
Record ub_inv (b : llama_batch) (logits_all : bool) (len : Z) (ub : llama_ubatch) (p : list Z) : Prop := {
  ui_equal  : ub_equal_seqs ub = true;
  ui_count  : ub_n_tokens ub = zlen p;
  ui_len    : 0 < ub_n_seqs ub -> ub_n_seq_tokens ub = len;
  ui_rect   : ub_n_tokens ub = len * ub_n_seqs ub;
  ui_token  : column_inv (b_token b) (ub_token ub) p;
  ui_embd   : column_inv (b_embd b) (ub_embd ub) p;
  ui_pos    : forall pos, b_pos b = Some pos -> selected pos p (ub_pos ub);
  ui_output : Forall2 (fun id x => is_output b logits_all id = negb (x =? 0)) p (ub_output ub);
  ui_seqs   : zlen (ub_n_seq_id ub) = ub_n_seqs ub /\ zlen (ub_seq_id ub) = ub_n_seqs ub;
  ui_keys   : forall t id, zlookup p t = Some id ->
                seqs_at (ub_n_seq_id ub) (ub_seq_id ub) (t `div` len) = Some (token_key b id)
}.

(** * Filling a ubatch *)

Lemma zlen_slice ids off len :
  0 <= off -> 0 <= len -> off + len <= zlen ids -> zlen (slice ids off len) = len.
Proof. unfold zlen, slice. intros. rewrite length_take, length_drop. lia. Qed.

Lemma slice_lookup ids off len i id :
  0 <= off -> 0 <= i < len -> zlookup ids (off + i) = Some id ->
  slice ids off len !! Z.to_nat i = Some id.
Proof.
  unfold slice, zlookup. intros Hoff Hi. destruct (Z.leb_spec 0 (off + i)) as [_|]; [|lia].
  intros H. rewrite lookup_take_lt by lia. rewrite lookup_drop. rewrite <- H. f_equal. lia.
Qed.

(** The rule of the loops over a slice of [ids]. *)
Lemma slice_loop_post {S} ids off len (body : Z -> S -> res S) (I : list Z -> S -> Prop) E s :
  0 <= off -> 0 <= len -> off + len <= zlen ids -> I [] s ->
  (forall seen id st, zlookup ids (off + zlen seen) = Some id -> id ∈ slice ids off len ->
     zlen seen < len -> I seen st -> post (body (zlen seen) st) (I (seen ++ [id])) E) ->
  post (for_z 0 len body s) (I (slice ids off len)) E.
Proof.
  intros Hoff Hlen Hend H0 Hb.
  replace (slice ids off len) with (take (Z.to_nat len) (slice ids off len)).
  2:{ unfold slice. rewrite take_take. f_equal. lia. }
  apply (for_z_post 0 len body (fun i st => I (take (Z.to_nat i) (slice ids off len)) st)); [lia|done|].
  intros i st Hi HI. pose proof (zlen_slice ids off len Hoff Hlen Hend) as Hs.
  destruct (zlookup_lt ids (off + i)) as [id Hid]; [lia|].
  pose proof (slice_lookup ids off len i id Hoff Hi Hid) as Hl.
  set (seen := take (Z.to_nat i) (slice ids off len)) in *.
  assert (zlen seen = i) as Hz by (unfold seen, zlen in *; rewrite length_take; lia).
  replace (take (Z.to_nat (i + 1)) (slice ids off len)) with (seen ++ [id]).
  2:{ replace (Z.to_nat (i + 1)) with (Datatypes.S (Z.to_nat i)) by lia. symmetry. by apply take_S_r. }
  rewrite <- Hz. apply Hb; [by rewrite Hz| |lia|done]. by eapply list_elem_of_lookup_2.
Qed.

Lemma put_ok {A} cap idx (x : A) buf : idx = zlen buf -> idx < cap -> put cap idx x buf = Ok (buf ++ [x]).
Proof.
  intros -> H. unfold put. rewrite Z.eqb_refl. by destruct (Z.ltb_spec (zlen buf) cap) as [_|]; [|lia].
Qed.

Lemma selected_app {A} (src : list A) p q xs ys :
  selected src p xs -> selected src q ys -> selected src (p ++ q) (xs ++ ys).
Proof. apply Forall2_app. Qed.

Lemma selected_len {A} (src : list A) p xs : selected src p xs -> zlen xs = zlen p.
Proof. intros H%Forall2_length. unfold zlen. lia. Qed.

Lemma gather_spec {A} cap start ids off len (src buf : list A) p :
  0 <= off -> 0 <= len -> off + len <= zlen ids -> start + len <= cap ->
  Forall (fun id => 0 <= id < zlen src) (slice ids off len) ->
  start = zlen p -> selected src p buf ->
  safe (gather cap start ids off len src buf) (selected src (p ++ slice ids off len)).
Proof.
  intros Hoff Hlen Hend Hcap Hids -> Hp. unfold gather.
  apply (slice_loop_post ids off len _ (fun seen xs => selected src (p ++ seen) xs)); auto.
  { by rewrite app_nil_r. }
  intros seen id xs Hid Hin Hlt Hxs. rewrite (vget_Some _ _ _ Hid). cbn [mbind res_bind].
  rewrite Forall_forall in Hids. destruct (zlookup_lt src id (Hids _ Hin)) as [x Hx].
  rewrite (vget_Some _ _ _ Hx). cbn [mbind res_bind].
  rewrite put_ok; [|rewrite (selected_len _ _ _ Hxs), zlen_app; lia|lia].
  rewrite app_assoc. apply selected_app; [done|]. by repeat constructor.
Qed.

Lemma add_rows_spec {A} cap start ids off len (src buf : option (list A)) p :
  0 <= off -> 0 < len -> off + len <= zlen ids -> start + len <= cap ->
  (forall l, src = Some l -> Forall (fun id => 0 <= id < zlen l) (slice ids off len)) ->
  start = zlen p -> column_inv src buf p ->
  safe (add_rows true cap start ids off len src buf)
    (fun buf' => column_inv src buf' (p ++ slice ids off len)).
Proof.
  intros Hoff Hlen Hend Hcap Hids Hst Hc. unfold add_rows, column_inv in *.
  destruct src as [src|]; [|done]. destruct Hc as (xs & -> & Hxs).
  unfold fmap. pose proof (gather_spec cap start ids off len src xs p Hoff ltac:(lia) Hend Hcap
    (Hids _ eq_refl) Hst Hxs) as G.
  destruct (gather _ _ _ _ _ _ _) as [ys|]; cbn in *; [by exists ys|done].
Qed.

Lemma add_outputs_spec b sb ub off len p :
  batch_ok b -> zlen (sb_ids sb) = b_n_tokens b ->
  0 <= off -> 0 <= len -> off + len <= zlen (sb_ids sb) -> ub_n_tokens ub + len <= sb_capacity sb ->
  Forall (fun id => 0 <= id < b_n_tokens b) (slice (sb_ids sb) off len) ->
  ub_equal_seqs ub = true \/ sb_logits_all sb = true \/ b_logits b = None -> ub_n_tokens ub = zlen p ->
  Forall2 (fun id x => is_output b (sb_logits_all sb) id = negb (x =? 0)) p (ub_output ub) ->
  safe (add_outputs sb b ub off len) (fun r =>
    Forall2 (fun id x => is_output b (sb_logits_all sb) id = negb (x =? 0))
      (p ++ slice (sb_ids sb) off len) r.1 /\
    r.2 = sb_out_ids sb ++ filter (fun id => is_output b (sb_logits_all sb) id = true) (slice (sb_ids sb) off len)).
Proof.
  intros Hb Hn Hoff Hlen Hend Hcap Hids Heq Hcnt Hout.
  set (isout := is_output b (sb_logits_all sb)) in *.
  set (I := fun seen (r : list Z * list Z) =>
    Forall2 (fun id x => isout id = negb (x =? 0)) (p ++ seen) r.1 /\
    r.2 = sb_out_ids sb ++ filter (fun id => isout id = true) seen).
  assert (H0 : I [] (ub_output ub, sb_out_ids sb)) by (unfold I; cbn; by rewrite !app_nil_r).
  assert (Hput : forall seen (r : list Z * list Z) x, I seen r -> zlen seen < len ->
            put (sb_capacity sb) (ub_n_tokens ub + zlen seen) x r.1 = Ok (r.1 ++ [x])).
  { intros seen r x [H _] Hlt. apply put_ok; [|lia]. apply Forall2_length in H.
    rewrite length_app in H. unfold zlen in *. lia. }
  assert (Hpush : forall seen id (r : list Z * list Z) x, I seen r -> isout id = negb (x =? 0) ->
            I (seen ++ [id]) (r.1 ++ [x], if isout id then r.2 ++ [id] else r.2)).
  { intros seen id r x [H1 H2] Hx. split; cbn.
    - rewrite app_assoc. apply Forall2_app; [done|]. by repeat constructor.
    - rewrite filter_app, H2, filter_cons, filter_nil.
      destruct (isout id); case_decide; try done; by rewrite ?app_nil_r, <- ?app_assoc. }
  unfold add_outputs. unfold isout, is_output in *.
  destruct (sb_logits_all sb); cbn [orb] in *; [|destruct (b_logits b) as [logits|] eqn:Hl].
  - apply (slice_loop_post (sb_ids sb) off len _ I); auto.
    intros seen id [o oi] Hid Hin Hlt HI. pose proof (Hput _ _ 1 HI Hlt) as Gp; cbn [fst] in Gp; rewrite Gp; clear Gp. cbn [mbind res_bind fst snd].
    rewrite (vget_Some _ _ _ Hid). by apply (Hpush _ _ _ 1 HI).
  - destruct Heq as [->|[|]]; [|done..]. apply (slice_loop_post (sb_ids sb) off len _ I); auto.
    intros seen id [o oi] Hid Hin Hlt HI. rewrite (vget_Some _ _ _ Hid). cbn [mbind res_bind].
    rewrite Forall_forall in Hids.
    destruct (zlookup_lt logits id) as [x Hx]; [rewrite (bo_logits _ Hb _ Hl); by apply Hids|].
    rewrite (vget_Some _ _ _ Hx). cbn [mbind res_bind].
    pose proof (Hput _ _ x HI Hlt) as Gp; cbn [fst] in Gp; rewrite Gp; clear Gp. cbn [mbind res_bind post fst].
    pose proof (Hpush _ id _ x HI) as G. cbn beta in G. rewrite Hx in G. cbn [default] in G.
    specialize (G eq_refl). cbn in *. by destruct (x =? 0).
  - apply (slice_loop_post (sb_ids sb) off len _ I); auto.
    intros seen id [o oi] Hid Hin Hlt HI. rewrite (vget_Some _ _ _ Hid). cbn [mbind res_bind].
    pose proof (Hput _ _ (if id =? zlen (sb_ids sb) - 1 then 1 else 0) HI Hlt) as Gp; cbn [fst] in Gp; rewrite Gp; clear Gp.
    cbn [mbind res_bind post fst]. rewrite Hn.
    pose proof (Hpush _ id _ (if id =? b_n_tokens b - 1 then 1 else 0) HI) as G. cbn beta in G.
    destruct (id =? b_n_tokens b - 1); by apply G.
Qed.

Definition advance (len : Z) (s : llama_sbatch_seq) : llama_sbatch_seq :=
  mk_seq (sq_n_seq_id s) (sq_seq_id s) (sq_offset s + len) (sq_length s - len).

(** The tokens [p] moved from [sb] to a ubatch and left [sb']. *)
Record took (b : llama_batch) (sb sb' : llama_sbatch) (p : list Z) : Prop := {
  tk_ids     : sb_ids sb' = sb_ids sb;
  tk_logits  : sb_logits_all sb' = sb_logits_all sb;
  tk_pending : rearranged b (pending sb) (p ++ pending sb');
  tk_count   : sb_n_tokens sb' = sb_n_tokens sb - zlen p;
  tk_out_ids : sb_out_ids sb' = sb_out_ids sb ++
                 filter (fun id => is_output b (sb_logits_all sb) id = true) p
}.

Lemma took_trans b sb1 sb2 sb3 p q : took b sb1 sb2 p -> took b sb2 sb3 q -> took b sb1 sb3 (p ++ q).
Proof.
  intros [I1 L1 P1 C1 O1] [I2 L2 P2 C2 O2]. split; try congruence.
  - rewrite P1, P2. by rewrite app_assoc.
  - rewrite zlen_app. lia.
  - rewrite O2, O1, L1, filter_app. by rewrite app_assoc.
Qed.

Lemma slice_split ids off len n :
  0 <= off -> 0 <= n <= len ->
  slice ids off len = slice ids off n ++ slice ids (off + n) (len - n).
Proof.
  intros Hoff Hn. unfold slice. replace (Z.to_nat len) with (Z.to_nat n + Z.to_nat (len - n))%nat by lia.
  rewrite <- take_take_drop, drop_drop. do 2 f_equal. f_equal. lia.
Qed.

Lemma slice_incl ids off len : forall id, id ∈ slice ids off len -> id ∈ ids.
Proof.
  intros id H. unfold slice in H. by eapply elem_of_subseteq_drop, elem_of_subseteq_take || 
  (apply elem_of_take in H as (i & H & _); rewrite lookup_drop in H; by eapply list_elem_of_lookup_2).
Qed.

Lemma seqs_at_app ns ls n l s :
  zlen ns = s -> zlen ls = s -> seqs_at (ns ++ [n]) (ls ++ [l]) s = Some (take (Z.to_nat n) l).
Proof.
  intros H1 H2. unfold seqs_at.
  pose proof (zlookup_mid_0 ns [] n) as E1. pose proof (zlookup_mid_0 ls [] l) as E2.
  rewrite H1 in E1. rewrite H2 in E2. by rewrite E1, E2.
Qed.

Lemma zlookup_app_Some {A} (l k : list A) i x : zlookup l i = Some x -> zlookup (l ++ k) i = Some x.
Proof. unfold zlookup. destruct (0 <=? i); [|done]. apply lookup_app_l_Some. Qed.

Lemma seqs_at_mono ns ls n l s v :
  seqs_at ns ls s = Some v -> seqs_at (ns ++ n) (ls ++ l) s = Some v.
Proof.
  unfold seqs_at. destruct (zlookup ns s) as [x|] eqn:E1; cbn; [|done].
  destruct (zlookup ls s) as [y|] eqn:E2; cbn; [|done].
  by rewrite (zlookup_app_Some _ _ _ _ E1), (zlookup_app_Some _ _ _ _ E2).
Qed.

(** The sequence ids of a ubatch after one more sequence of [len] tokens. *)
Lemma keys_extend b ns ls n l len p c :
  0 < len -> zlen c = len -> zlen p = len * zlen ns -> zlen ls = zlen ns ->
  (forall t id, zlookup p t = Some id -> seqs_at ns ls (t `div` len) = Some (token_key b id)) ->
  Forall (fun id => token_key b id = take (Z.to_nat n) l) c ->
  forall t id, zlookup (p ++ c) t = Some id ->
    seqs_at (ns ++ [n]) (ls ++ [l]) (t `div` len) = Some (token_key b id).
Proof.
  intros Hlen Hc Hp Hls Hold Hnew t id Ht.
  destruct (decide (t < zlen p)) as [Hlt|Hge].
  - apply seqs_at_mono, Hold. unfold zlookup, zlen in *. destruct (Z.leb_spec 0 t); [|done].
    rewrite lookup_app_l in Ht by lia. done.
  - pose proof (zlookup_Some_lt _ _ _ Ht) as Hr. rewrite zlen_app in Hr.
    replace (t `div` len) with (zlen ns).
    2:{ apply (Z.div_unique t len (zlen ns) (t - zlen p)); lia. }
    rewrite seqs_at_app by done. f_equal. symmetry.
    rewrite Forall_forall in Hnew. apply Hnew.
    unfold zlookup, zlen in *. destruct (Z.leb_spec 0 t); [|done].
    rewrite lookup_app_r in Ht by lia. by eapply list_elem_of_lookup_2.
Qed.

Lemma seq_ok_advance b sb sb' s len :
  sb_ids sb' = sb_ids sb -> 0 <= len <= sq_length s -> seq_ok b sb s -> seq_ok b sb' (advance len s).
Proof.
  intros Hids Hlen [so_n so_s so_o so_l so_e so_key0]. split; cbn; rewrite ?Hids; try lia; try done.
  unfold seq_slice in *. rewrite Hids. cbn.
  rewrite (slice_split _ _ _ len) in so_key0 by lia.
  by apply Forall_app in so_key0 as [_ ?].
Qed.

Lemma seq_ok_ids b sb sb' s : sb_ids sb' = sb_ids sb -> seq_ok b sb s -> seq_ok b sb' s.
Proof. intros Hids []. split; rewrite ?Hids; try done. unfold seq_slice in *. by rewrite Hids. Qed.

Lemma pending_split b sb k s len :
  sb_inv b sb -> sb_seq sb !! k = Some s -> 0 <= len <= sq_length s ->
  rearranged b (pending sb)
    (slice (sb_ids sb) (sq_offset s) len ++
     concat (seq_slice sb <$> <[k := advance len s]> (sb_seq sb))).
Proof.
  intros Hinv Hk Hlen. unfold pending.
  pose proof (take_drop_middle _ _ _ Hk) as Hmid.
  pose proof (lookup_lt_Some _ _ _ Hk) as Hlt.
  rewrite insert_take_drop by done. rewrite <- Hmid at 1.
  set (A := take k (sb_seq sb)) in *. set (B := drop (S k) (sb_seq sb)) in *.
  rewrite !fmap_app, !concat_app, !fmap_cons. cbn [concat].
  pose proof (si_seqs _ _ Hinv) as Hs. rewrite Forall_forall in Hs.
  pose proof (Hs _ (list_elem_of_lookup_2 _ _ _ Hk)) as Hok.
  assert (seq_slice sb s = slice (sb_ids sb) (sq_offset s) len ++ seq_slice sb (advance len s)) as ->.
  { unfold seq_slice. cbn. apply slice_split; [apply Hok|done]. }
  set (c := slice _ _ len). set (r := seq_slice _ (advance _ _)).
  set (a := concat (seq_slice sb <$> A)). set (d := concat _).
  rewrite !app_assoc. apply rearranged_app; [|reflexivity].
  apply rearranged_app; [|reflexivity].
  apply (rearranged_comm b (seq_key s)).
  - pose proof (so_key _ _ _ Hok) as Hkey. unfold seq_slice in Hkey.
    rewrite (slice_split _ _ _ len) in Hkey by (apply Hok || lia). by apply Forall_app in Hkey as [? _].
  - apply Forall_forall. intros id (l & Hid & (s' & -> & Hs')%list_elem_of_fmap)%elem_of_concat.
    assert (Hin : s' ∈ sb_seq sb) by (rewrite <- Hmid; apply elem_of_app; by left).
    pose proof (so_key _ _ _ (Hs _ Hin)) as Hkey. rewrite Forall_forall in Hkey. rewrite (Hkey _ Hid).
    pose proof (si_keys _ _ Hinv) as Hnd. rewrite <- Hmid, fmap_app, fmap_cons in Hnd.
    apply NoDup_app in Hnd as (_ & Hnd & _). intros E.
    apply (Hnd (seq_key s')); [apply list_elem_of_fmap; by exists s'|]. rewrite E. by left.
Qed.

Lemma zsum_advance k s len seq :
  seq !! k = Some s ->
  zsum (sq_length <$> <[k := advance len s]> seq) = zsum (sq_length <$> seq) - len.
Proof.
  intros Hk. rewrite insert_take_drop by by eapply lookup_lt_Some.
  rewrite <- (take_drop_middle _ _ _ Hk) at 3.
  rewrite !fmap_app, !fmap_cons, !zsum_app, !zsum_cons. cbn. lia.
Qed.

Lemma sb_inv_advance b sb k s len sb' :
  sb_inv b sb -> sb_seq sb !! k = Some s -> 0 <= len <= sq_length s ->
  sb_batch sb' = sb_batch sb -> sb_ids sb' = sb_ids sb ->
  sb_n_tokens sb' = sb_n_tokens sb - len -> sb_seq sb' = <[k := advance len s]> (sb_seq sb) ->
  sb_inv b sb'.
Proof.
  intros Hinv Hk Hlen Hb Hids Hn Hseq.
  pose proof (si_seqs _ _ Hinv) as Hs.
  split; rewrite ?Hb, ?Hids, ?Hn, ?Hseq; try apply Hinv.
  - apply Forall_insert.
    + eapply Forall_impl; [exact Hs|]. intros x. by apply seq_ok_ids.
    + apply (seq_ok_advance _ sb); [done|done|]. rewrite Forall_forall in Hs.
      apply Hs. by eapply list_elem_of_lookup_2.
  - rewrite list_fmap_insert, list_insert_id; [apply Hinv|].
    rewrite list_lookup_fmap, Hk. done.
  - rewrite (zsum_advance _ _ _ _ Hk), (si_count _ _ Hinv). done.
  - pose proof (si_small _ _ Hinv). lia.
Qed.

(** [add_seq_to_ubatch] on a sequence that is long enough. *)
Lemma add_seq_spec b sb ub k s len p :
  batch_ok b -> sb_inv b sb -> ub_inv b (sb_logits_all sb) len ub p ->
  sb_seq sb !! k = Some s -> 0 < len <= sq_length s ->
  zlen p + len <= sb_capacity sb -> sb_capacity sb <= b_n_tokens b ->
  let c := slice (sb_ids sb) (sq_offset s) len in
  safe (add_seq_to_ubatch sb ub k len) (fun r =>
    sb_inv b r.1 /\ took b sb r.1 c /\ sb_seq r.1 = <[k := advance len s]> (sb_seq sb) /\
    sb_capacity r.1 = sb_capacity sb /\
    ub_inv b (sb_logits_all sb) len r.2 (p ++ c) /\ zlen c = len).
Proof.
  intros Hb Hinv Hub Hk Hlen Hcap Hcap' c.
  pose proof (si_seqs _ _ Hinv) as Hs. rewrite Forall_forall in Hs.
  pose proof (Hs _ (list_elem_of_lookup_2 _ _ _ Hk)) as Hok. clear Hs.
  pose proof (so_offset _ _ _ Hok) as Hoff. pose proof (so_end _ _ _ Hok) as Hend.
  pose proof (so_n_seq_id _ _ _ Hok) as Hns. destruct (so_seq_id _ _ _ Hok) as (l & Hl & _).
  pose proof (zlen_nonneg p) as Hp0. pose proof (bo_size _ Hb) as Hsize. unfold INT32_MAX in Hsize.
  assert (Hc : zlen c = len) by (apply zlen_slice; lia).
  assert (Hin : Forall (fun id => 0 <= id < b_n_tokens b) c).
  { eapply Forall_forall. intros id Hid%slice_incl. pose proof (si_ids _ _ Hinv) as Hi.
    rewrite Forall_forall in Hi. by apply Hi. }
  destruct Hub as [Heq Hcnt Hul Hrect Htok Hemb Hpos Hout [Hz1 Hz2] Hkeys].
  assert (Hseqs : 0 <= ub_n_seqs ub <= zlen p) by nia.
  unfold add_seq_to_ubatch. rewrite (si_batch _ _ Hinv), Hk. cbn [or_ub mbind res_bind].
  destruct (Z.leb_spec len (sq_length s)) as [_|]; [|lia]. cbn [ggml_assert mbind res_bind].
  assert (((sq_n_seq_id s =? 0) || (ub_n_seqs ub =? 0) ||
    (len =? ub_n_tokens ub `div` ub_n_seqs ub)) = true) as ->.
  { destruct (Z.eqb_spec (ub_n_seqs ub) 0) as [|Hne]; [by rewrite orb_true_r|].
    rewrite Hrect, Z.div_mul, Z.eqb_refl by done. by rewrite !orb_true_r. }
  cbn [ggml_assert mbind res_bind]. rewrite Heq.
  destruct (Z.eqb_spec (sq_n_seq_id s) 0) as [|_]; [lia|]. cbn [negb Bool.eqb ggml_assert mbind res_bind].
  eapply post_bind.
  { apply (add_rows_spec _ _ _ _ _ _ _ p); try done; try lia.
    intros tl Htl. rewrite (bo_token _ Hb _ Htl). done. }
  intros token Htoken. eapply post_bind.
  { apply (add_rows_spec _ _ _ _ _ _ _ p); try done; try lia.
    intros tl Htl. rewrite (proj1 (bo_embd _ Hb _ Htl)). done. }
  intros embd Hembd. destruct (bo_pos _ Hb) as (bpos & Hbpos & Hbposl). rewrite Hbpos.
  cbn [or_ub mbind res_bind]. eapply post_bind.
  { apply (gather_spec _ _ _ _ _ _ _ p); try done; try lia; [by rewrite Hbposl|by apply Hpos]. }
  intros pos Hposn. rewrite put_ok by lia. cbn [mbind res_bind]. rewrite Hl, put_ok by lia.
  cbn [mbind res_bind]. eapply post_bind.
  { apply (add_outputs_spec b sb ub _ _ p); try done; try lia; [apply Hinv|by left]. }
  intros [output out_ids] [Hout' Hoi]. cbn [fst snd] in *.
  set (nst := if (ub_n_tokens ub =? 0) && (ub_n_seqs ub =? 0) then len else ub_n_seq_tokens ub).
  assert (Hnst : nst = len).
  { unfold nst. destruct (Z.eqb_spec (ub_n_tokens ub) 0), (Z.eqb_spec (ub_n_seqs ub) 0); cbn; try done;
      apply Hul; lia. }
  rewrite Hnst. rewrite !u32_small by nia.
  replace (len * (ub_n_seqs ub + 1)) with (ub_n_tokens ub + len) by lia.
  rewrite Z.eqb_refl. cbn [ggml_assert mbind res_bind post fst snd].
  rewrite <- (si_batch _ _ Hinv), <- Hl. fold (advance len s).
  assert (Hinv' : sb_inv b (mk_sbatch (sb_n_tokens sb - len) (sb_logits_all sb) (sb_ids sb) out_ids
    (<[k:=advance len s]> (sb_seq sb)) (sb_batch sb) (sb_capacity sb)))
    by (eapply sb_inv_advance; eauto; lia).
  split; [exact Hinv'|]. splits; try done.
  - split; cbn; try done; try lia.
    apply (pending_split b sb k s len Hinv Hk). lia.
  - split; cbn; try done; try lia.
    + rewrite zlen_app. lia.
    + intros pos' E. rewrite Hbpos in E. injection E as <-. done.
    + split; rewrite zlen_app; unfold zlen in *; cbn [length]; lia.
    + apply (keys_extend b); try lia; try done.
      pose proof (so_key _ _ _ Hok) as Hkey. unfold seq_slice, seq_key in Hkey. rewrite Hl in Hkey.
      rewrite (slice_split _ _ _ len) in Hkey by lia. by apply Forall_app in Hkey as [? _].
Qed.

(** * Splitting into sequences *)

(** A ubatch that holds exactly the tokens [p] of the batch. *)
Record ubatch_of (b : llama_batch) (logits_all : bool) (ub : llama_ubatch) (p : list Z) : Prop := {
  uo_count : ub_n_tokens ub = zlen p;
  uo_rect  : ub_n_tokens ub = ub_n_seq_tokens ub * ub_n_seqs ub;
  uo_rows  : forall t id, zlookup p t = Some id ->
               is_Some (ubatch_row ub t) /\ ubatch_row ub t = batch_row b logits_all id
}.

Lemma selected_lookup {A} (src : list A) p xs t id :
  selected src p xs -> zlookup p t = Some id ->
  exists x, zlookup src id = Some x /\ zlookup xs t = Some x.
Proof.
  unfold zlookup. destruct (0 <=? t); [|done]. intros H Hp.
  destruct (Forall2_lookup_l _ _ _ _ _ H Hp) as (x & Hx & Hs). by exists x.
Qed.

Lemma column_lookup {A} (src buf : option (list A)) p t id :
  column_inv src buf p -> zlookup p t = Some id -> exists x, column src id = Some x /\ column buf t = Some x.
Proof.
  unfold column_inv, column. intros Hc Hp. destruct src as [src|].
  - destruct Hc as (xs & -> & Hs). destruct (selected_lookup _ _ _ _ _ Hs Hp) as (x & H1 & H2).
    rewrite H1, H2. by exists (Some x).
  - rewrite Hc; [by exists None|]. intros ->. unfold zlookup in Hp. by destruct (0 <=? t).
Qed.

Lemma ub_inv_ubatch_of b la len ub p :
  batch_ok b -> ub_inv b la len ub p -> p <> [] -> ubatch_of b la ub p.
Proof.
  intros Hb [_ ui_count0 ui_len0 ui_rect0 ui_token0 ui_embd0 ui_pos0 ui_output0 ui_seqs0 ui_keys0] Hne.
  assert (0 < zlen p) as Hpos by (destruct p; [done|rewrite zlen_cons; pose proof (zlen_nonneg p); lia]).
  assert (ub_n_seq_tokens ub = len) as Hlen.
  { apply ui_len0. destruct ui_seqs0. pose proof (zlen_nonneg (ub_n_seq_id ub)).
    destruct (Z.eq_dec (ub_n_seqs ub) 0); [nia|lia]. }
  split; [done|by rewrite Hlen|]. intros t id Ht.
  destruct (column_lookup _ _ _ _ _ ui_token0 Ht) as (tok & T1 & T2).
  destruct (column_lookup _ _ _ _ _ ui_embd0 Ht) as (emb & E1 & E2).
  destruct (bo_pos _ Hb) as (pos & Hbp & _).
  destruct (selected_lookup _ _ _ _ _ (ui_pos0 _ Hbp) Ht) as (ps & P1 & P2).
  pose proof (ui_keys0 _ _ Ht) as K. rewrite <- Hlen in K.
  assert (exists x, zlookup (ub_output ub) t = Some x /\ is_output b la id = negb (x =? 0)) as (x & O1 & O2).
  { unfold zlookup in *. destruct (0 <=? t); [|done].
    destruct (Forall2_lookup_l _ _ _ _ _ ui_output0 Ht) as (x & Hx & Hs). by exists x. }
  unfold ubatch_row, batch_row. rewrite T1, T2, E1, E2, Hbp. cbn [mbind option_bind].
  rewrite P1, P2. cbn [mbind option_bind]. rewrite K, O1. cbn [mbind option_bind]. by rewrite O2.
Qed.

(** The order that [from_batch] establishes and the splits keep: sorted for
    [seq_lt], and the finished sequences at the end. *)
Definition seq_before (a b : llama_sbatch_seq) : Prop :=
  seq_lt b a = false /\ (sq_length a = 0 -> sq_length b = 0).

Lemma seq_before_iff a b :
  seq_lt b a = false <-> sq_n_seq_id a < sq_n_seq_id b \/
    sq_n_seq_id a = sq_n_seq_id b /\ sq_length b <= sq_length a.
Proof.
  unfold seq_lt. destruct (Z.eqb_spec (sq_n_seq_id b) (sq_n_seq_id a)); rewrite Z.ltb_ge; lia.
Qed.

Lemma seq_before_advance A C len :
  0 < len -> StronglySorted seq_before (A ++ C) ->
  Forall (fun s => 0 < sq_length s) (A ++ C) -> Forall (fun s => len <= sq_length s) C ->
  (exists n, Forall (fun s => sq_n_seq_id s = n) C) ->
  StronglySorted seq_before (A ++ (advance len <$> C)).
Proof.
  intros Hlen Hss Hpos HC [n Hn]. apply Forall_app in Hpos as [HA _].
  apply StronglySorted_app in Hss as (Hcross & HsA & HsC).
  apply StronglySorted_app. splits; [|done|].
  - intros a c Ha (c' & -> & Hc)%list_elem_of_fmap. destruct (Hcross _ _ Ha Hc) as [H1 _].
    rewrite Forall_forall in HA, HC. specialize (HA _ Ha). specialize (HC _ Hc).
    unfold seq_before. rewrite seq_before_iff in *. cbn. split; lia.
  - clear Hcross HA HsA. revert HC Hn. induction HsC as [|c C HsC IH Hc]; [constructor|].
    intros HC Hn. apply Forall_cons in HC as [Hc1 HC], Hn as [Hn1 Hn]. cbn. constructor; [by apply IH|].
    apply Forall_fmap. rewrite !Forall_forall in *. intros d Hd. specialize (Hc _ Hd).
    specialize (HC _ Hd). specialize (Hn _ Hd). destruct Hc as [H1 _].
    unfold seq_before. cbn. rewrite seq_before_iff in *. cbn. split; lia.
Qed.

(** [reserve_ubatch] pops the finished sequences. *)
Lemma pop_finished_spec rs :
  exists zs, rs = zs ++ pop_finished rs /\ Forall (fun s => sq_length s = 0) zs /\
    forall s rest, pop_finished rs = s :: rest -> sq_length s <> 0.
Proof.
  induction rs as [|s rs (zs & E & Hz & Hh)]; cbn [pop_finished].
  - exists []. splits; [done|constructor|done].
  - destruct (Z.eqb_spec (sq_length s) 0) as [H|H].
    + exists (s :: zs). splits; [by cbn; f_equal|by constructor|done].
    + exists []. splits; [done|constructor|]. by intros ? ? [= <- <-].
Qed.

Lemma reserve_spec b sb sb' seq' :
  sb_inv b sb -> StronglySorted seq_before (sb_seq sb) -> 0 < sb_n_tokens sb ->
  seq' = rev (pop_finished (rev (sb_seq sb))) ->
  sb_batch sb' = sb_batch sb -> sb_ids sb' = sb_ids sb -> sb_n_tokens sb' = sb_n_tokens sb ->
  sb_seq sb' = seq' ->
  sb_inv b sb' /\ StronglySorted seq_before seq' /\ Forall (fun s => 0 < sq_length s) seq' /\
  seq' <> [] /\ pending sb' = pending sb.
Proof.
  intros Hinv Hss Hn Hseq' Hb Hids Hn' Hs'.
  destruct (pop_finished_spec (rev (sb_seq sb))) as (zs & E & Hz & Hh).
  assert (Hsplit : sb_seq sb = seq' ++ rev zs).
  { rewrite <- (rev_involutive (sb_seq sb)), E, rev_app_distr. by rewrite Hseq'. }
  assert (Hz' : Forall (fun s => sq_length s = 0) (rev zs)) by by apply Forall_rev.
  pose proof (si_seqs _ _ Hinv) as Hok. pose proof (si_keys _ _ Hinv) as Hnd.
  pose proof (si_count _ _ Hinv) as Hc. rewrite Hsplit in Hok, Hnd, Hc, Hss.
  rewrite fmap_app in Hnd. rewrite fmap_app, zsum_app in Hc.
  assert (Hzs : zsum (sq_length <$> rev zs) = 0).
  { clear -Hz'. induction Hz' as [|s l Hs _ IH]; [done|]. rewrite fmap_cons, zsum_cons. lia. }
  assert (Hpz : concat (seq_slice sb <$> rev zs) = []).
  { clear -Hz'. induction Hz' as [|s l Hs _ IH]; [done|]. rewrite fmap_cons. cbn [concat].
    rewrite IH. unfold seq_slice, slice. by rewrite Hs. }
  apply Forall_app in Hok as [Hok _]. apply NoDup_app in Hnd as (Hnd & _ & _).
  splits.
  - split; rewrite ?Hb, ?Hids, ?Hn', ?Hs'; try apply Hinv; [|done|lia].
    eapply Forall_impl; [exact Hok|]. intros s. by apply seq_ok_ids.
  - by eapply StronglySorted_app_1_l.
  - apply Forall_forall. intros s Hin. rewrite Forall_forall in Hok.
    pose proof (so_length _ _ _ (Hok _ Hin)) as Hge.
    destruct (Z.eq_dec (sq_length s) 0) as [H0|]; [|lia]. exfalso.
    destruct (pop_finished (rev (sb_seq sb))) as [|t rest] eqn:Ep; [subst seq'; cbn in Hin; set_solver|].
    apply (Hh t rest eq_refl). cbn in Hseq'. rewrite Hseq' in Hin, Hss.
    apply elem_of_app in Hin as [Hin| ->%list_elem_of_singleton]; [|done].
    apply StronglySorted_app_1_l in Hss.
    destruct (StronglySorted_app_1_elem_of _ _ _ s t Hss Hin) as [_ Hft]; [by left|by apply Hft].
  - intros ->. cbn in Hc. unfold zsum in *. cbn in Hc. lia.
  - unfold pending. rewrite Hs', Hsplit, fmap_app, concat_app, Hpz, app_nil_r.
    f_equal. apply list_fmap_ext. intros ? s _. unfold seq_slice. by rewrite Hids.
Qed.

Lemma took_nil b sb sb' :
  sb_ids sb' = sb_ids sb -> sb_logits_all sb' = sb_logits_all sb -> pending sb' = pending sb ->
  sb_n_tokens sb' = sb_n_tokens sb -> sb_out_ids sb' = sb_out_ids sb -> took b sb sb' [].
Proof.
  intros H1 H2 H3 H4 H5. split; [done|done|cbn; by rewrite H3| |].
  - rewrite H4. unfold zlen. cbn. lia.
  - by rewrite H5, filter_nil, app_nil_r.
Qed.

(** What every split of sequences starts from. *)
Record split_start (b : llama_batch) (sb : llama_sbatch) (n_ubatch : Z)
    (sb' : llama_sbatch) (ub : llama_ubatch) : Prop := {
  ss_inv      : sb_inv b sb';
  ss_took     : took b sb sb' [];
  ss_ub       : forall len, ub_inv b (sb_logits_all sb') len ub [];
  ss_capacity : sb_capacity sb' = n_ubatch;
  ss_sorted   : StronglySorted seq_before (sb_seq sb');
  ss_nonempty : Forall (fun s => 0 < sq_length s) (sb_seq sb');
  ss_seq      : sb_seq sb' <> []
}.

Lemma split_begin_spec b sb n_ubatch :
  batch_ok b -> sb_inv b sb -> StronglySorted seq_before (sb_seq sb) ->
  0 < sb_n_tokens sb -> 0 < n_ubatch ->
  exists sb' ub, split_begin sb n_ubatch = Ok (Z.min (sb_n_tokens sb) n_ubatch, (sb', ub)) /\
    split_start b sb (Z.min (sb_n_tokens sb) n_ubatch) sb' ub.
Proof.
  intros Hb Hinv Hss Hn Hu. unfold split_begin, reserve_ubatch.
  rewrite (si_batch _ _ Hinv). cbn [or_ub mbind res_bind]. do 2 eexists. split; [reflexivity|].
  set (sb' := mk_sbatch _ _ _ _ _ _ _).
  destruct (reserve_spec b sb sb' _ Hinv Hss Hn eq_refl) as (H1 & H2 & H3 & H4 & H5); try done.
  { cbn. by rewrite (si_batch _ _ Hinv). }
  split; try done.
  - apply took_nil; cbn; [done|done|rewrite <- H5; reflexivity|done|done].
  - intros len. split; cbn; try done; try lia.
    + unfold column_inv. destruct (b_token b) eqn:Et; [|done].
      destruct (b_embd b) eqn:Ee; cbn; [|exists []; split; [done|constructor]].
      destruct (bo_embd _ Hb _ Ee). congruence.
    + unfold column_inv. destruct (b_embd b); [|done]. exists []. split; [done|constructor].
    + intros. constructor.
    + intros t id. unfold zlookup. by destruct (0 <=? t).
Qed.

(** The result of a successful split. *)
Definition split_ok (b : llama_batch) (sb : llama_sbatch) (n_ubatch : Z)
    (inv : llama_sbatch -> Prop) (r : llama_sbatch * llama_ubatch) : Prop :=
  exists p, inv r.1 /\ took b sb r.1 p /\ 0 < zlen p <= n_ubatch /\
    ubatch_of b (sb_logits_all sb) r.2 p.

Definition ordered_inv (b : llama_batch) (sb : llama_sbatch) : Prop :=
  sb_inv b sb /\ StronglySorted seq_before (sb_seq sb).

(** The loop of [split_equal] once the length of the sequences is chosen. *)
Lemma split_equal_rest b len n_ubatch A : forall B sb ub p,
  batch_ok b -> sb_inv b sb -> ub_inv b (sb_logits_all sb) len ub p -> 0 < len ->
  sb_seq sb = A ++ B -> Forall (fun s => sq_n_seq_id s = 1 /\ len <= sq_length s) A ->
  zlen p + len <= n_ubatch -> sb_capacity sb = n_ubatch -> n_ubatch <= b_n_tokens b ->
  safe (split_equal_loop (length A) n_ubatch len (zlen p) sb ub) (fun r =>
    exists A1 A2 q, A = A1 ++ A2 /\ sb_seq r.1 = A1 ++ (advance len <$> A2) ++ B /\
      sb_inv b r.1 /\ took b sb r.1 q /\ ub_inv b (sb_logits_all sb) len r.2 (p ++ q) /\
      zlen (p ++ q) <= n_ubatch).
Proof.
  induction A as [|s A IH] using rev_ind; intros B sb ub p Hb Hinv Hub Hlen Hseq HA Hfit Hcap Hn.
  - cbn. exists [], [], []. rewrite !app_nil_r. splits; try done; [|lia].
    by apply took_nil.
  - apply Forall_app in HA as [HA [[Hs1 Hs2] _]%Forall_cons].
    rewrite length_app, Nat.add_comm. cbn [Nat.add length split_equal_loop].
    assert (Hk : sb_seq sb !! length A = Some s).
    { rewrite Hseq, <- app_assoc. by apply list_lookup_middle. }
    rewrite Hk. cbn [or_ub mbind res_bind].
    destruct (Z.ltb_spec 0 (sq_length s)) as [_|]; [|lia]. cbn [ggml_assert mbind res_bind].
    destruct (Z.eqb_spec len 0) as [|_]; [lia|].
    pose proof (add_seq_spec b sb ub (length A) s len p Hb Hinv Hub Hk ltac:(lia) ltac:(lia) ltac:(lia)) as Hadd.
    cbv zeta in Hadd. set (c := slice _ _ _) in *.
    eapply post_bind; [exact Hadd|]. clear Hadd.
    intros [sb1 ub1] (Hinv1 & Htk & Hseq1 & Hcap1 & Hub1 & Hc). cbn [fst snd] in *.
    assert (Hseq1' : sb_seq sb1 = A ++ advance len s :: B).
    { rewrite Hseq1, Hseq, <- app_assoc. cbn. by rewrite list_insert_middle || 
      (rewrite insert_app_r_alt by lia; rewrite Nat.sub_diag; done). }
    destruct (Z.ltb_spec 1 (sq_n_seq_id s)) as [|_]; [lia|].
    destruct (Z.ltb_spec n_ubatch (len + (zlen p + len))) as [Hstop|Hgo].
    + exists A, [s], c. splits; try done.
      rewrite zlen_app. lia.
    + replace (zlen p + len) with (zlen (p ++ c)) by (rewrite zlen_app; lia).
      eapply post_mono; [apply (IH (advance len s :: B) sb1 ub1 (p ++ c)); try done| |done].
      * by rewrite (tk_logits _ _ _ _ Htk).
      * rewrite zlen_app. lia.
      * lia.
      * intros r (A1 & A2 & q & -> & Hr & Hinvr & Htkr & Hubr & Hle).
        exists A1, (A2 ++ [s]), (c ++ q). splits; try done.
        -- by rewrite <- app_assoc.
        -- rewrite Hr, fmap_app, <- app_assoc. done.
        -- by eapply took_trans.
        -- rewrite (tk_logits _ _ _ _ Htk) in Hubr. by rewrite app_assoc.
        -- by rewrite app_assoc.
Qed.

Lemma took_prepend b sb1 sb2 sb3 p : took b sb1 sb2 [] -> took b sb2 sb3 p -> took b sb1 sb3 p.
Proof. intros H1 H2. exact (took_trans _ _ _ _ [] p H1 H2). Qed.

(** The first step of [split_equal] and the only one of [split_seq]: the last
    sequence gives as many tokens as fit. *)
Lemma split_last_spec b sb0 n_ubatch sb ub A s :
  batch_ok b -> split_start b sb0 n_ubatch sb ub -> sb_seq sb = A ++ [s] ->
  n_ubatch <= b_n_tokens b -> 0 < n_ubatch ->
  let len := Z.min (sq_length s) n_ubatch in
  safe (add_seq_to_ubatch sb ub (length A) len) (fun r => exists c,
    sb_inv b r.1 /\ took b sb0 r.1 c /\ sb_seq r.1 = A ++ [advance len s] /\
    sb_capacity r.1 = n_ubatch /\ ub_inv b (sb_logits_all sb0) len r.2 c /\ zlen c = len /\
    StronglySorted seq_before (sb_seq r.1)).
Proof.
  intros Hb Hst Hseq Hn Hpos len. pose proof Hst as [Hinv Htk Hub Hcap Hss Hne _].
  pose proof (tk_logits _ _ _ _ Htk) as Hla.
  assert (Hs : 0 < sq_length s).
  { rewrite Hseq in Hne. apply Forall_app in Hne as [_ Hne]. by apply Forall_cons in Hne as [? _]. }
  assert (Hk : sb_seq sb !! length A = Some s) by (rewrite Hseq; by apply list_lookup_middle).
  assert (Hlen : 0 < len <= sq_length s) by (unfold len; lia).
  assert (Hcap0 : zlen ([] : list Z) + len <= sb_capacity sb) by (rewrite Hcap; unfold zlen, len; cbn; lia).
  pose proof (add_seq_spec b sb ub (length A) s len [] Hb Hinv (Hub len) Hk Hlen Hcap0 ltac:(lia)) as Hadd.
  cbv zeta in Hadd. eapply post_mono; [exact Hadd| |done].
  intros [sb1 ub1] (H1 & H2 & H3 & H4 & H5 & H6). cbn [fst snd app] in *. eexists.
  assert (Hseq1 : sb_seq sb1 = A ++ [advance len s]).
  { rewrite H3, Hseq. apply list_insert_middle || by rewrite insert_app_r_alt, Nat.sub_diag by lia. }
  splits; [done|by eapply took_prepend|done|congruence|by rewrite <- Hla|done|].
  rewrite Hseq1. rewrite Hseq in Hss, Hne. apply (seq_before_advance A [s] len); try done; try lia.
  - constructor; [lia|constructor].
  - eexists. by repeat constructor.
Qed.

Lemma split_equal_spec b sb n_ubatch :
  batch_ok b -> ordered_inv b sb -> 0 < sb_n_tokens sb -> 0 < n_ubatch ->
  safe (split_equal sb n_ubatch) (split_ok b sb n_ubatch (ordered_inv b)).
Proof.
  intros Hb [Hinv Hss] Hn Hu. unfold split_equal.
  destruct (split_begin_spec b sb n_ubatch Hb Hinv Hss Hn Hu) as (sb1 & ub1 & -> & Hst).
  cbn [mbind res_bind]. set (n := Z.min (sb_n_tokens sb) n_ubatch) in *.
  pose proof (si_small _ _ Hinv) as Hsmall.
  assert (Hn0 : 0 < n <= b_n_tokens b) by lia.
  pose proof (si_seqs _ _ (ss_inv _ _ _ _ _ Hst)) as Hok.
  destruct (sb_seq sb1) as [|s0 seq0] eqn:Hs1; [by destruct (ss_seq _ _ _ _ _ Hst)|].
  pose proof (Forall_inv Hok) as Hok0. pose proof (so_n_seq_id _ _ _ Hok0) as Hpos0.
  destruct (Z.ltb_spec 0 (sq_n_seq_id s0)) as [_|]; [|lia]. cbn [ggml_assert mbind res_bind].
  rewrite <- Hs1 in *. assert (exists A s, sb_seq sb1 = A ++ [s]) as (A & s & Hseq).
  { destruct (exists_last (l := sb_seq sb1)) as (A & s & E); [by rewrite Hs1|]. by exists A, s. }
  clear Hs1 Hok0 Hpos0 s0 seq0.
  pose proof (split_last_spec b sb n sb1 ub1 A s Hb Hst Hseq ltac:(lia) ltac:(lia)) as Hlast.
  cbv zeta in Hlast. rewrite Hseq, length_app. cbn [length]. rewrite Nat.add_comm.
  cbn [Nat.add split_equal_loop]. rewrite Hseq, list_lookup_middle by done. cbn [or_ub mbind res_bind].
  pose proof (ss_nonempty _ _ _ _ _ Hst) as Hne. pose proof (ss_sorted _ _ _ _ _ Hst) as Hsort.
  rewrite Hseq in Hne, Hsort, Hok. apply Forall_app in Hne as [HneA [Hs _]%Forall_cons].
  apply Forall_app in Hok as [HokA _].
  destruct (Z.ltb_spec 0 (sq_length s)) as [_|]; [|lia]. cbn [ggml_assert mbind res_bind].
  rewrite Z.eqb_refl. set (len := Z.min (sq_length s) n) in *.
  assert (0 < len) as Hlen by lia.
  eapply post_bind; [exact Hlast|]. clear Hlast.
  intros [sb2 ub2] (c & Hinv2 & Htk2 & Hseq2 & Hcap2 & Hub2 & Hc & Hsort2). cbn [fst snd] in *.
  assert (Hfin : split_ok b sb n_ubatch (ordered_inv b) (sb2, ub2)).
  { exists c. cbn. splits; [split; [done|done]|done|lia|lia|].
    eapply ub_inv_ubatch_of; [done|done|]. intros ->. unfold zlen in Hc. cbn in Hc. lia. }
  destruct (Z.ltb_spec 1 (sq_n_seq_id s)) as [|H1]; [done|].
  destruct (Z.ltb_spec n (len + (0 + len))) as [|Hgo]; [done|]. clear Hfin.
  assert (HA : Forall (fun s => sq_n_seq_id s = 1 /\ len <= sq_length s) A).
  { rewrite !Forall_forall in *. intros a Ha. specialize (HokA _ Ha). specialize (HneA _ Ha).
    pose proof (so_n_seq_id _ _ _ HokA).
    destruct (StronglySorted_app_1_elem_of _ _ _ a s Hsort Ha ltac:(by left)) as [Hb1 _].
    apply seq_before_iff in Hb1. unfold len. lia. }
  replace (0 + len) with (zlen c) by lia.
  pose proof (split_equal_rest b len n A [advance len s] sb2 ub2 c Hb Hinv2) as Hrest.
  rewrite (tk_logits _ _ _ _ Htk2) in Hrest.
  specialize (Hrest Hub2 Hlen Hseq2 HA ltac:(lia) Hcap2 ltac:(lia)).
  eapply post_mono; [exact Hrest| |done].
  intros r (A1 & A2 & q & -> & Hr & Hinvr & Htkr & Hubr & Hle).
  exists (c ++ q). splits.
  - split; [done|]. rewrite Hr.
    apply Forall_app in HA as [_ HA2].
    replace ((advance len <$> A2) ++ [advance len s]) with (advance len <$> A2 ++ [s]) by by rewrite fmap_app.
    apply seq_before_advance; [done|by rewrite app_assoc| | |].
    + rewrite app_assoc. apply Forall_app. split; [done|by repeat constructor].
    + apply Forall_app. split; [|repeat constructor; lia]. eapply Forall_impl; [exact HA2|]. by intros ? [].
    + exists 1. apply Forall_app. split; [eapply Forall_impl; [exact HA2|]; by intros ? []|].
      constructor; [|constructor].
      pose proof (si_seqs _ _ (ss_inv _ _ _ _ _ Hst)) as Hf. rewrite Hseq in Hf.
      apply Forall_app in Hf as [_ [Hf _]%Forall_cons]. pose proof (so_n_seq_id _ _ _ Hf). lia.
  - by eapply took_trans.
  - rewrite zlen_app. pose proof (zlen_nonneg q). lia.
  - lia.
  - eapply ub_inv_ubatch_of; [done|exact Hubr|]. intros [-> _]%app_nil. unfold zlen in Hc. cbn in Hc. lia.
Qed.

Lemma split_seq_spec b sb n_ubatch :
  batch_ok b -> ordered_inv b sb -> 0 < sb_n_tokens sb -> 0 < n_ubatch ->
  safe (split_seq sb n_ubatch) (split_ok b sb n_ubatch (ordered_inv b)).
Proof.
  intros Hb [Hinv Hss] Hn Hu. unfold split_seq.
  destruct (split_begin_spec b sb n_ubatch Hb Hinv Hss Hn Hu) as (sb1 & ub1 & -> & Hst).
  cbn [mbind res_bind]. set (n := Z.min (sb_n_tokens sb) n_ubatch) in *.
  pose proof (si_small _ _ Hinv) as Hsmall.
  pose proof (si_seqs _ _ (ss_inv _ _ _ _ _ Hst)) as Hok.
  assert (exists A s, sb_seq sb1 = A ++ [s]) as (A & s & Hseq).
  { destruct (exists_last (ss_seq _ _ _ _ _ Hst)) as (A & s & E). by exists A, s. }
  pose proof (split_last_spec b sb n sb1 ub1 A s Hb Hst Hseq ltac:(lia) ltac:(lia)) as Hlast.
  cbv zeta in Hlast. rewrite Hseq, last_snoc, length_app. cbn [length]. rewrite Nat.add_comm. cbn [Nat.add pred].
  rewrite Hseq in Hok. apply Forall_app in Hok as [_ [Hok _]%Forall_cons].
  pose proof (so_n_seq_id _ _ _ Hok).
  pose proof (ss_nonempty _ _ _ _ _ Hst) as Hne. rewrite Hseq in Hne.
  apply Forall_app in Hne as [_ [Hne _]%Forall_cons].
  destruct (Z.ltb_spec 0 (sq_n_seq_id s)) as [_|]; [|lia]. cbn [ggml_assert mbind res_bind].
  eapply post_mono; [exact Hlast| |done].
  intros [sb2 ub2] (c & Hinv2 & Htk2 & Hseq2 & Hcap2 & Hub2 & Hc & Hsort2). cbn [fst snd] in *.
  exists c. splits; [split; [done|done]|done|lia|lia|].
  eapply ub_inv_ubatch_of; [done|done|]. intros ->. unfold zlen in Hc. cbn in Hc. lia.
Qed.

(** * The simple split *)

(** The state between two ubatches of [split_simple]: one range of the batch
    in its own order. *)
Record simple_inv (b : llama_batch) (sb : llama_sbatch) : Prop := {
  mi_batch : sb_batch sb = Some b;
  mi_ids   : sb_ids sb = zseq 0 (Z.to_nat (b_n_tokens b));
  mi_seq   : sb_seq sb = [mk_seq 0 None (b_n_tokens b - sb_n_tokens sb) (sb_n_tokens sb)];
  mi_count : 0 <= sb_n_tokens sb <= b_n_tokens b
}.

Lemma slice_zseq_lookup n off len t id :
  0 <= off -> 0 <= len -> off + len <= n ->
  zlookup (slice (zseq 0 (Z.to_nat n)) off len) t = Some id -> id = off + t /\ 0 <= t < len.
Proof.
  intros Hoff Hlen Hend Ht. pose proof (zlookup_Some_lt _ _ _ Ht) as Hr.
  assert (zlen (zseq 0 (Z.to_nat n)) = n) as Hz by (unfold zlen; rewrite length_zseq; lia).
  rewrite zlen_slice in Hr by lia.
  pose proof (slice_lookup (zseq 0 (Z.to_nat n)) off len t (off + t) Hoff Hr) as Hs.
  rewrite zlookup_zseq in Hs by lia. specialize (Hs eq_refl).
  unfold zlookup in Ht. destruct (0 <=? t); [|done]. rewrite Hs in Ht. injection Ht as <-. lia.
Qed.

Lemma zlookup_drop {A} (l : list A) off t : 0 <= off -> 0 <= t -> zlookup (drop (Z.to_nat off) l) t = zlookup l (off + t).
Proof.
  intros Hoff Ht. unfold zlookup. destruct (Z.leb_spec 0 t) as [_|]; [|lia].
  destruct (Z.leb_spec 0 (off + t)) as [_|]; [|lia]. rewrite lookup_drop. f_equal. lia.
Qed.

(** The outputs of a simple split, whose flags may be a view of the batch. *)
Lemma add_outputs_simple b sb ub off len :
  batch_ok b -> sb_ids sb = zseq 0 (Z.to_nat (b_n_tokens b)) ->
  0 <= off -> 0 < len -> off + len <= b_n_tokens b -> len <= sb_capacity sb ->
  ub_equal_seqs ub = false -> ub_n_tokens ub = 0 -> ub_output ub = [] ->
  let c := slice (sb_ids sb) off len in
  safe (add_outputs sb b ub off len) (fun r =>
    (forall t id, zlookup c t = Some id -> exists x, zlookup r.1 t = Some x /\
       is_output b (sb_logits_all sb) id = negb (x =? 0)) /\
    r.2 = sb_out_ids sb ++ filter (fun id => is_output b (sb_logits_all sb) id = true) c).
Proof.
  intros Hb Hids Hoff Hlen Hend Hcap Heq Hcnt Hout c.
  assert (Hz : zlen (sb_ids sb) = b_n_tokens b).
  { rewrite Hids. unfold zlen. rewrite length_zseq. pose proof (bo_size _ Hb). lia. }
  destruct (decide (sb_logits_all sb = true \/ b_logits b = None)) as [Hd|Hd].
  - eapply post_mono; [apply (add_outputs_spec b sb ub off len []); try done; try lia| |done].
    + apply Forall_forall. intros id Hid%slice_incl. rewrite Hids in Hid.
      apply elem_of_zseq in Hid. pose proof (bo_size _ Hb). lia.
    + tauto.
    + rewrite Hout. constructor.
    + intros r [H1 H2]. split; [|done]. intros t id Ht. unfold zlookup in *.
      destruct (0 <=? t); [|done]. destruct (Forall2_lookup_l _ _ _ _ _ H1 Ht) as (x & Hx & Hs). by exists x.
  - unfold add_outputs. destruct (sb_logits_all sb) eqn:Ela; [tauto|].
    destruct (b_logits b) as [logits|] eqn:El; [|tauto]. rewrite Heq. clear Hd.
    assert (Hin : forall id, 0 <= id < b_n_tokens b -> exists x, zlookup logits id = Some x /\
              is_output b false id = negb (x =? 0)).
    { intros id Hid. destruct (zlookup_lt logits id) as [x Hx]; [by rewrite (bo_logits _ Hb _ El)|].
      exists x. unfold is_output. rewrite El, Hx. done. }
    eapply post_bind with (P := fun oi => oi = sb_out_ids sb ++ filter (fun id => is_output b false id = true) c).
    + unfold c. apply (slice_loop_post (sb_ids sb) off len _
        (fun seen oi => oi = sb_out_ids sb ++ filter (fun id => is_output b false id = true) seen)); try lia.
      { by rewrite filter_nil, app_nil_r. }
      intros seen id oi Hid _ Hlt ->. pose proof (zlen_nonneg seen).
      rewrite Hids, zlookup_zseq in Hid by lia. injection Hid as <-.
      destruct (Hin (off + zlen seen) ltac:(lia)) as (x & Hx & Hf).
      rewrite (vget_Some _ _ x); [|by rewrite zlookup_drop by lia]. cbn [mbind res_bind post].
      rewrite filter_app, filter_cons, filter_nil, Hf. destruct (x =? 0); case_decide; try done.
      * by rewrite app_nil_r.
      * by rewrite app_assoc.
    + intros oi ->. cbn. split; [|done]. intros t id Ht. unfold c in Ht. rewrite Hids in Ht.
      apply slice_zseq_lookup in Ht as [-> Ht]; try lia.
      destruct (Hin (off + t) ltac:(lia)) as (x & Hx & Hf). exists x. split; [|done].
      by rewrite zlookup_drop by lia.
Qed.

(** Reading row [t] of a view of the batch. *)
Lemma view_row b la ub off c :
  batch_ok b -> 0 <= off -> ub_n_seq_tokens ub = 1 ->
  ub_token ub = drop (Z.to_nat off) <$> b_token b -> ub_embd ub = drop (Z.to_nat off) <$> b_embd b ->
  Some (ub_pos ub) = drop (Z.to_nat off) <$> b_pos b ->
  Some (ub_n_seq_id ub) = drop (Z.to_nat off) <$> b_n_seq_id b ->
  Some (ub_seq_id ub) = drop (Z.to_nat off) <$> b_seq_id b ->
  (forall t id, zlookup c t = Some id -> exists x, zlookup (ub_output ub) t = Some x /\
     is_output b la id = negb (x =? 0)) ->
  (forall t id, zlookup c t = Some id -> id = off + t /\ 0 <= t /\ id < b_n_tokens b) ->
  forall t id, zlookup c t = Some id ->
    is_Some (ubatch_row ub t) /\ ubatch_row ub t = batch_row b la id.
Proof.
  intros Hb Hoff H1 Htok Hemb Hpos Hns Hsi Hout Hc t id Ht.
  destruct (Hout _ _ Ht) as (x & Hx & Hf). destruct (Hc _ _ Ht) as (-> & Ht0 & Hlt). clear Hout Hc.
  destruct (bo_pos _ Hb) as (pos & Hbp & Hpl). destruct (bo_seqs _ Hb) as (ns & si & Hbn & Hbs & Hnl & Hsl).
  rewrite Hbp in Hpos. rewrite Hbn in Hns. rewrite Hbs in Hsi. cbn in Hpos, Hns, Hsi.
  injection Hpos as Hpos. injection Hns as Hns. injection Hsi as Hsi.
  assert (Hcol : forall A (l : option (list A)) , (forall k, l = Some k -> zlen k = b_n_tokens b) ->
    exists v, column (drop (Z.to_nat off) <$> l) t = Some v /\ column l (off + t) = Some v).
  { intros A [l|] Hl; cbn; [|by exists None]. destruct (zlookup_lt l (off + t)) as [y Hy]; [rewrite (Hl _ eq_refl); lia|].
    rewrite zlookup_drop, Hy by lia. by exists (Some y). }
  destruct (Hcol _ (b_token b) (bo_token _ Hb)) as (tok & T1 & T2).
  destruct (Hcol _ (b_embd b) (fun k E => proj1 (bo_embd _ Hb k E))) as (emb & E1 & E2).
  destruct (zlookup_lt pos (off + t)) as [y Hy]; [lia|].
  destruct (zlookup_lt ns (off + t)) as [n Hn]; [lia|].
  pose proof (Forall2_length _ _ _ Hsl) as Hlen2.
  destruct (zlookup_lt si (off + t)) as [l Hl]; [unfold zlen in *; lia|].
  unfold ubatch_row, batch_row, token_key. rewrite H1, Z.div_1_r, Htok, Hemb, T1, T2, E1, E2, Hbp, Hbn, Hbs.
  unfold seqs_at. cbn [mbind option_bind].
  rewrite Hpos, Hns, Hsi, !zlookup_drop by lia. rewrite Hy, Hn, Hl, Hx. cbn [mbind option_bind]. rewrite Hf.
  split; [by eexists|done].
Qed.

Lemma slice_zseq_cat n off len :
  0 <= off -> 0 <= len -> off + len <= n ->
  slice (zseq 0 (Z.to_nat n)) off (n - off) =
  slice (zseq 0 (Z.to_nat n)) off len ++ slice (zseq 0 (Z.to_nat n)) (off + len) (n - off - len).
Proof. intros. apply slice_split; lia. Qed.

(** [split_simple] takes the next tokens in the order of the batch. *)
Lemma split_simple_spec b sb n_ubatch :
  batch_ok b -> simple_inv b sb -> 0 < sb_n_tokens sb -> 0 < n_ubatch ->
  safe (split_simple sb n_ubatch) (fun r => exists p,
    simple_inv b r.1 /\ took b sb r.1 p /\ 0 < zlen p <= n_ubatch /\
    ubatch_of b (sb_logits_all sb) r.2 p /\ pending sb = p ++ pending r.1 /\
    ub_n_seq_tokens r.2 = 1 /\ Forall2 (fun n l => 0 < n <= zlen l) (ub_n_seq_id r.2) (ub_seq_id r.2)).
Proof.
  intros Hb [Hba Hids Hseq Hcnt] Hn Hu. pose proof (bo_size _ Hb) as Hsize. unfold INT32_MAX in Hsize.
  unfold split_simple, split_begin, reserve_ubatch. rewrite Hba. cbn [or_ub mbind res_bind].
  set (n := Z.min (sb_n_tokens sb) n_ubatch).
  cbn [sb_seq]. rewrite Hseq. cbn [rev app pop_finished sq_length].
  destruct (Z.eqb_spec (sb_n_tokens sb) 0) as [|_]; [lia|]. cbn [rev app sq_n_seq_id].
  rewrite Z.eqb_refl. cbn [ggml_assert mbind res_bind].
  set (off := b_n_tokens b - sb_n_tokens sb).
  unfold add_seq_to_ubatch. cbn [sb_batch sb_seq or_ub mbind res_bind lookup list_lookup].
  cbn [sq_length sq_n_seq_id sq_offset sb_ids sb_capacity ub_simple ub_equal_seqs ub_n_tokens ub_n_seqs
       ub_token ub_embd ub_pos ub_n_seq_id ub_seq_id ub_output].
  assert (Z.min (sb_n_tokens sb) n = n) as -> by lia.
  destruct (Z.leb_spec n (sb_n_tokens sb)) as [_|]; [|lia]. change (0 =? 0) with true.
  cbn [ggml_assert mbind res_bind orb negb Bool.eqb andb].
  assert (Hrows : forall A (src buf : option (list A)),
    add_rows false n 0 (sb_ids sb) off n src buf = Ok (drop (Z.to_nat off) <$> src)) by (by intros A [src|]).
  rewrite !Hrows. cbn [mbind res_bind].
  destruct (bo_pos _ Hb) as (pos & Hbp & _). destruct (bo_seqs _ Hb) as (ns & si & Hbn & Hbs & _).
  rewrite Hbp, Hbn, Hbs. cbn [or_ub mbind res_bind].
  match goal with |- context [add_outputs ?sb1 b ?ub1 off n] => set (sb' := sb1); set (ub' := ub1) end.
  pose proof (add_outputs_simple b sb' ub' off n Hb Hids ltac:(lia) ltac:(lia) ltac:(lia) ltac:(done) eq_refl eq_refl eq_refl) as Ho.
  cbv zeta in Ho. cbn [sb' sb_ids sb_logits_all sb_out_ids] in Ho. set (c := slice _ _ _) in *.
  eapply post_bind; [exact Ho|]. clear Ho. intros [output out_ids] [Ho Hoi]. cbn [fst snd] in *.
  rewrite !u32_small by lia. replace (1 * (0 + n)) with (0 + n) by lia. rewrite Z.eqb_refl.
  cbn [ggml_assert mbind res_bind post fst snd].
  assert (Hzc : zlen c = n).
  { apply zlen_slice; try lia. rewrite Hids. unfold zlen. rewrite length_zseq. lia. }
  assert (Hpend : pending sb = c ++ slice (sb_ids sb) (off + n) (sb_n_tokens sb - n)).
  { unfold pending. rewrite Hseq. cbn [fmap list_fmap concat]. rewrite app_nil_r. unfold seq_slice.
    cbn [sq_offset sq_length]. apply slice_split; lia. }
  exists c. splits.
  - split; cbn; try done; try lia. f_equal. f_equal; lia.
  - split; cbn; try done; try lia.
    rewrite Hpend. unfold pending, seq_slice. cbn. by rewrite app_nil_r.
  - lia.
  - lia.
  - split; cbn; [lia|lia|]. apply (view_row b _ _ off c); try done; try lia.
    + by rewrite Hbp.
    + by rewrite Hbn.
    + by rewrite Hbs.
    + intros t id Ht. unfold c in Ht. rewrite Hids in Ht. apply slice_zseq_lookup in Ht as [-> Ht]; lia.
  - rewrite Hpend. unfold pending, seq_slice. cbn. by rewrite app_nil_r.
  - done.
  - destruct (bo_seqs _ Hb) as (ns' & si' & E1 & E2 & _ & Hf). rewrite Hbn in E1. rewrite Hbs in E2.
    injection E1 as <-. injection E2 as <-. cbn. by apply Forall2_drop.
Qed.

(** * Grouping the tokens into sequences *)

(** The order of the sequence sets: more sequences first, then
    lexicographic. *)
Definition key_lt (a b : list Z) : bool :=
  if zlen a =? zlen b then default false (seq_ids_lt (length a) a b) else zlen b <? zlen a.

Lemma seq_ids_lt_none n a b :
  seq_ids_lt n a b = None -> (n <= length a)%nat -> (n <= length b)%nat -> take n a = take n b.
Proof.
  revert a b. induction n as [|n IH]; intros [|x a] [|y b] H Ha Hb; cbn in *; try done; try lia.
  destruct (Z.eqb_spec x y) as [->|]; [|done]. f_equal. apply IH; [done|lia|lia].
Qed.

Lemma seq_ids_lt_take n a b : seq_ids_lt n a b = seq_ids_lt n (take n a) (take n b).
Proof.
  revert a b. induction n as [|n IH]; intros [|x a] [|y b]; cbn; try done.
  destruct (x =? y); [apply IH|done].
Qed.

Lemma seq_ids_lt_refl n a : seq_ids_lt n a a = None.
Proof. revert a. induction n as [|n IH]; intros [|x a]; cbn; try done. by rewrite Z.eqb_refl. Qed.

Lemma seq_ids_lt_sym n a b : seq_ids_lt n b a = negb <$> seq_ids_lt n a b.
Proof.
  revert a b. induction n as [|n IH]; intros [|x a] [|y b]; cbn; try done.
  rewrite (Z.eqb_sym y x). destruct (Z.eqb_spec x y); [apply IH|]. cbn. f_equal.
  destruct (Z.ltb_spec x y), (Z.ltb_spec y x); lia || done.
Qed.

Lemma seq_ids_lt_trans n a b c :
  length b = n ->
  seq_ids_lt n a b = Some true -> seq_ids_lt n b c = Some true -> seq_ids_lt n a c = Some true.
Proof.
  revert a b c. induction n as [|n IH]; intros [|x a] [|y b] [|z c] Hl; cbn in *; try done.
  destruct (Z.eqb_spec x y), (Z.eqb_spec y z), (Z.eqb_spec x z); intros H1 H2; try congruence.
  - apply (IH a b c); [lia|done|done].
  - injection H1 as H1%Z.ltb_lt. injection H2 as H2%Z.ltb_lt. lia.
  - injection H1 as H1%Z.ltb_lt. injection H2 as H2%Z.ltb_lt. f_equal. apply Z.ltb_lt. lia.
Qed.

Lemma key_lt_irrefl a : key_lt a a = false.
Proof. unfold key_lt. by rewrite Z.eqb_refl, seq_ids_lt_refl. Qed.

Lemma key_lt_asym a b : key_lt a b = true -> key_lt b a = false.
Proof.
  unfold key_lt. rewrite (Z.eqb_sym (zlen b)). destruct (Z.eqb_spec (zlen a) (zlen b)) as [E|].
  - assert (length b = length a) as -> by (unfold zlen in E; lia).
    rewrite (seq_ids_lt_sym _ a b). by destruct (seq_ids_lt _ a b) as [[]|].
  - rewrite Z.ltb_lt, Z.ltb_ge. lia.
Qed.

Lemma key_lt_total a b : key_lt a b = false -> key_lt b a = false -> a = b.
Proof.
  unfold key_lt. rewrite (Z.eqb_sym (zlen b)). destruct (Z.eqb_spec (zlen a) (zlen b)) as [E|].
  - assert (length b = length a) as Hl by (unfold zlen in E; lia). rewrite Hl, (seq_ids_lt_sym _ a b).
    destruct (seq_ids_lt _ a b) as [[]|] eqn:Es; cbn; try done. intros _ _.
    apply seq_ids_lt_none in Es; [|lia..]. by rewrite firstn_all, <- Hl, firstn_all in Es.
  - rewrite !Z.ltb_ge. lia.
Qed.

Lemma key_lt_trans a b c : key_lt a b = true -> key_lt b c = true -> key_lt a c = true.
Proof.
  unfold key_lt. destruct (Z.eqb_spec (zlen a) (zlen b)) as [E1|]; destruct (Z.eqb_spec (zlen b) (zlen c)) as [E2|].
  - destruct (Z.eqb_spec (zlen a) (zlen c)); [|lia].
    assert (length b = length a) as Hl by (unfold zlen in E1; lia). rewrite Hl.
    destruct (seq_ids_lt _ a b) as [[]|] eqn:S1; cbn; try done.
    destruct (seq_ids_lt _ b c) as [[]|] eqn:S2; cbn; try done.
    by rewrite (seq_ids_lt_trans _ _ _ _ Hl S1 S2).
  - destruct (Z.eqb_spec (zlen a) (zlen c)); [lia|]. rewrite !Z.ltb_lt. lia.
  - destruct (Z.eqb_spec (zlen a) (zlen c)); [lia|]. rewrite !Z.ltb_lt. lia.
  - rewrite !Z.ltb_lt. destruct (Z.eqb_spec (zlen a) (zlen c)); [lia|]. rewrite Z.ltb_lt. lia.
Qed.

Section grouping.
Context (b : llama_batch) (Hb : batch_ok b).

Definition token_pos (id : Z) : Z :=
  match b_pos b with Some pos => default 0 (zlookup pos id) | None => 0 end.

(** The arrays of the batch at a valid index. *)
Lemma batch_seqs_at id :
  0 <= id < b_n_tokens b -> exists n l ns si, b_n_seq_id b = Some ns /\ b_seq_id b = Some si /\
    zlookup ns id = Some n /\ zlookup si id = Some l /\ 0 < n <= zlen l /\
    token_key b id = take (Z.to_nat n) l /\ zlen (token_key b id) = n.
Proof.
  intros Hid. destruct (bo_seqs _ Hb) as (ns & si & Hns & Hsi & Hl & Hf).
  destruct (zlookup_lt ns id) as [n Hn]; [lia|].
  assert (exists l, zlookup si id = Some l /\ 0 < n <= zlen l) as (l & Hl' & Hr).
  { unfold zlookup in *. destruct (0 <=? id); [|done].
    destruct (Forall2_lookup_l _ _ _ _ _ Hf Hn) as (l & ? & ?). by exists l. }
  exists n, l, ns, si.
  assert (token_key b id = take (Z.to_nat n) l) as Hk.
  { unfold token_key, seqs_at. rewrite Hns, Hsi, Hn, Hl'. done. }
  splits; try done; [lia..|]. rewrite Hk. unfold zlen in *. rewrite length_take. lia.
Qed.

(** The comparator of the tokens: by sequence set, then by position. *)
Lemma token_lt_key i j :
  0 <= i < b_n_tokens b -> 0 <= j < b_n_tokens b ->
  token_lt b i j = if decide (token_key b i = token_key b j) then token_pos i <? token_pos j
                   else key_lt (token_key b i) (token_key b j).
Proof.
  intros Hi Hj.
  destruct (batch_seqs_at i Hi) as (n & l & ns & si & Hns & Hsi & Hn & Hl & Hr & Hk & Hz).
  destruct (batch_seqs_at j Hj) as (n' & l' & ns' & si' & Hns' & Hsi' & Hn' & Hl' & Hr' & Hk' & Hz').
  rewrite Hns in Hns'. injection Hns' as <-. rewrite Hsi in Hsi'. injection Hsi' as <-.
  destruct (bo_pos _ Hb) as (pos & Hpos & _).
  unfold token_lt, token_pos, key_lt. rewrite Hz, Hz'. rewrite Hns, Hsi, Hpos, Hn, Hn', Hl, Hl'.
  unfold default, id.
  destruct (Z.eqb_spec n n') as [<-|Hne].
  - unfold zlen in *. rewrite seq_ids_lt_take, <- Hk, <- Hk'. replace (length (token_key b i)) with (Z.to_nat n) by lia.
    case_decide as E.
    + by rewrite E, seq_ids_lt_refl.
    + destruct (seq_ids_lt _ _ _) eqn:Es; [done|]. exfalso. apply E.
      apply seq_ids_lt_none in Es; [|lia..]. rewrite !take_ge in Es by lia. done.
  - case_decide as E; [|done]. exfalso. apply Hne. rewrite <- Hz, <- Hz'. by rewrite E.
Qed.

Lemma token_lt_strict_weak ids : Forall (fun id => 0 <= id < b_n_tokens b) ids -> strict_weak (token_lt b) ids.
Proof.
  rewrite Forall_forall. intros Hids. split.
  - intros i j Hi%Hids Hj%Hids. rewrite !token_lt_key by done.
    destruct (decide (token_key b i = token_key b j)); destruct (decide (token_key b j = token_key b i)); try congruence.
    + rewrite Z.ltb_lt, Z.ltb_ge. lia.
    + apply key_lt_asym.
  - intros i j k Hi%Hids Hj%Hids Hk%Hids. rewrite !token_lt_key by done.
    destruct (decide (token_key b i = token_key b j)) as [E1|E1];
      destruct (decide (token_key b j = token_key b k)) as [E2|E2];
      destruct (decide (token_key b i = token_key b k)) as [E3|E3]; try congruence.
    + rewrite !Z.ltb_ge. lia.
    + intros H1 H2. exfalso. rewrite <- E3 in H2. apply E1. by apply key_lt_total.
    + intros H1 H2. destruct (key_lt (token_key b i) (token_key b k)) eqn:E; [|done]. exfalso.
      destruct (key_lt (token_key b k) (token_key b j)) eqn:E'.
      * pose proof (key_lt_trans _ _ _ E E'). congruence.
      * apply E2. by apply key_lt_total.
Qed.
End grouping.

Lemma seq_lt_strict_weak l : strict_weak seq_lt l.
Proof.
  split.
  - intros s t _ _. unfold seq_lt. rewrite (Z.eqb_sym (sq_n_seq_id t)).
    destruct (_ =? _); rewrite Z.ltb_lt, Z.ltb_ge; lia.
  - intros s t u _ _ _. rewrite !seq_before_iff. lia.
Qed.

Lemma same_seq_ids_spec n a b :
  (n <= length a)%nat -> (n <= length b)%nat -> same_seq_ids n a b = true <-> take n a = take n b.
Proof.
  revert a b. induction n as [|n IH]; intros [|x a] [|y b] Ha Hb; cbn in *; try lia; [done..|].
  rewrite andb_true_iff, Z.eqb_eq, IH by lia. split; [by intros [-> ->]|by intros [= -> ->]].
Qed.

(** What the loop that groups the sorted tokens has built after [i] tokens. *)
Record grouped (b : llama_batch) (sb : llama_sbatch) (i : Z) (seq : list llama_sbatch_seq) : Prop := {
  gr_ok    : Forall (seq_ok b sb) seq;
  gr_len   : Forall (fun s => 0 < sq_length s) seq;
  gr_keys  : StronglySorted (fun k l => key_lt k l = true) (seq_key <$> seq);
  gr_ids   : concat (seq_slice sb <$> seq) = take (Z.to_nat i) (sb_ids sb);
  gr_count : zsum (sq_length <$> seq) = i;
  gr_last  : forall A s, seq = A ++ [s] -> sq_offset s + sq_length s = i /\
               forall id, zlookup (sb_ids sb) (i - 1) = Some id -> token_key b id = seq_key s
}.

Lemma slice_extend ids off len id :
  0 <= off -> 0 <= len -> zlookup ids (off + len) = Some id ->
  slice ids off (len + 1) = slice ids off len ++ [id].
Proof.
  intros Hoff Hlen Hid. unfold slice. replace (Z.to_nat (len + 1)) with (S (Z.to_nat len)) by lia.
  apply take_S_r. rewrite lookup_drop. unfold zlookup in Hid. destruct (0 <=? off + len); [|done].
  rewrite <- Hid. f_equal. lia.
Qed.

Lemma take_extend (ids : list Z) i id :
  0 <= i -> zlookup ids i = Some id -> take (Z.to_nat (i + 1)) ids = take (Z.to_nat i) ids ++ [id].
Proof.
  intros Hi Hid. replace (Z.to_nat (i + 1)) with (S (Z.to_nat i)) by lia. apply take_S_r.
  unfold zlookup in Hid. by destruct (0 <=? i).
Qed.

(** The token belongs to the last sequence. *)
Lemma grouped_extend b sb i A s id :
  grouped b sb i (A ++ [s]) -> 0 <= i -> zlookup (sb_ids sb) i = Some id ->
  token_key b id = seq_key s -> grouped b sb (i + 1) (A ++ [extend_last s]).
Proof.
  intros [Hok Hlen Hkeys Hids Hcnt Hlast] Hi Hid Hkey.
  destruct (Hlast A s eq_refl) as [Hend _].
  apply Forall_app in Hok as [HokA [Hoks _]%Forall_cons], Hlen as [HlenA [Hlens _]%Forall_cons].
  pose proof (zlookup_Some_lt _ _ _ Hid) as Hr. pose proof (so_offset _ _ _ Hoks) as Hoff.
  assert (Hsl : seq_slice sb (extend_last s) = seq_slice sb s ++ [id]).
  { unfold seq_slice. cbn. apply slice_extend; [lia|lia|by rewrite Hend]. }
  split.
  - apply Forall_app. split; [done|]. constructor; [|constructor].
    destruct Hoks as [? ? ? ? ? Hk]. split; cbn; try lia; try done.
    rewrite Hsl. apply Forall_app. split; [done|]. by constructor.
  - apply Forall_app. split; [done|]. constructor; [cbn; lia|constructor].
  - rewrite fmap_app in *. exact Hkeys.
  - rewrite fmap_app, concat_app in *. cbn [fmap list_fmap concat] in *. rewrite app_nil_r in *.
    rewrite Hsl, app_assoc, Hids. symmetry. by apply take_extend.
  - rewrite fmap_app, zsum_app in *. cbn in *. lia.
  - intros A' s' E. apply app_inj_tail in E as [<- <-]. cbn. split; [lia|].
    intros id'. replace (i + 1 - 1) with i by lia. rewrite Hid. intros [= <-]. done.
Qed.

(** The token starts a new sequence. *)
Lemma grouped_new b sb i seq id n l :
  grouped b sb i seq -> 0 <= i -> zlookup (sb_ids sb) i = Some id ->
  0 < n <= zlen l -> token_key b id = take (Z.to_nat n) l ->
  (forall A s, seq = A ++ [s] -> key_lt (seq_key s) (token_key b id) = true) ->
  grouped b sb (i + 1) (seq ++ [mk_seq n (Some l) i 1]).
Proof.
  intros [Hok Hlen Hkeys Hids Hcnt Hlast] Hi Hid Hn Hkey Hlt.
  pose proof (zlookup_Some_lt _ _ _ Hid) as Hr.
  assert (Hsl : seq_slice sb (mk_seq n (Some l) i 1) = [id]).
  { unfold seq_slice. cbn [sq_offset sq_length]. replace 1 with (0 + 1) by lia.
    rewrite (slice_extend _ _ 0 id); [done|lia..|by rewrite Z.add_0_r]. }
  split.
  - apply Forall_app. split; [done|]. constructor; [|constructor].
    split; cbn; try lia; [exists l; split; [done|lia]|]. rewrite Hsl. by repeat constructor.
  - apply Forall_app. split; [done|]. constructor; [cbn; lia|constructor].
  - rewrite fmap_app. apply StronglySorted_app_2; [|done|repeat constructor].
    intros k k' (s & -> & Hs)%list_elem_of_fmap ->%list_elem_of_singleton.
    change (key_lt (seq_key s) (take (Z.to_nat n) l) = true). rewrite <- Hkey.
    destruct (exists_last (l := seq)) as (A & t & E); [by intros ->; inversion Hs|].
    pose proof (Hlt _ _ E) as Ht. rewrite E in Hs, Hkeys. apply elem_of_app in Hs as [Hs| ->%list_elem_of_singleton]; [|done].
    rewrite fmap_app in Hkeys. apply (key_lt_trans _ (seq_key t)); [|done].
    apply (StronglySorted_app_1_elem_of _ _ _ (seq_key s) (seq_key t) Hkeys); [apply list_elem_of_fmap; by exists s|by left].
  - rewrite fmap_app, concat_app, Hids. cbn [fmap list_fmap concat]. rewrite Hsl. symmetry. by apply take_extend.
  - rewrite fmap_app, zsum_app, Hcnt. cbn. lia.
  - intros A' s' E. apply app_inj_tail in E as [<- <-]. cbn. split; [lia|].
    intros id'. replace (i + 1 - 1) with i by lia. rewrite Hid. intros [= <-]. done.
Qed.

Lemma StronglySorted_adjacent {A} (R : A -> A -> Prop) (l : list A) i x y :
  StronglySorted R l -> 0 < i -> zlookup l (i - 1) = Some x -> zlookup l i = Some y -> R x y.
Proof.
  intros Hs Hi Hx Hy. unfold zlookup in *. destruct (Z.leb_spec 0 (i - 1)); [|done]. destruct (0 <=? i); [|done].
  rewrite <- (take_drop_middle _ _ _ Hy) in Hs.
  apply (StronglySorted_app_1_elem_of _ _ _ x y Hs); [|by left].
  eapply list_elem_of_lookup_2. rewrite lookup_take_lt; [exact Hx|lia].
Qed.

(** One iteration of the grouping loop. *)
Lemma group_step_spec b sb i seq have_last :
  batch_ok b -> Forall (fun id => 0 <= id < b_n_tokens b) (sb_ids sb) ->
  StronglySorted (fun x y => token_lt b y x = false) (sb_ids sb) ->
  0 <= i < zlen (sb_ids sb) -> grouped b sb i seq -> (0 < i -> have_last = true) ->
  safe (group_step b (sb_ids sb) i (seq, have_last)) (fun r => grouped b sb (i + 1) r.1 /\ r.2 = true).
Proof.
  intros Hb Hids Hsort Hi Hg Hlast. unfold group_step.
  destruct (zlookup_lt _ _ Hi) as [id Hid]. rewrite (vget_Some _ _ _ Hid). cbn [mbind res_bind].
  assert (Hin : forall j x, zlookup (sb_ids sb) j = Some x -> 0 <= x < b_n_tokens b).
  { intros j x Hx. unfold zlookup in Hx. destruct (0 <=? j); [|done]. rewrite Forall_forall in Hids.
    by apply Hids, (list_elem_of_lookup_2 _ _ _ Hx). }
  destruct (batch_seqs_at b Hb id (Hin _ _ Hid)) as (n & l & ns & si & Hns & Hsi & Hn & Hl & Hr & Hk & Hz).
  rewrite Hns. cbn [or_ub mbind res_bind]. rewrite (vget_Some _ _ _ Hn). cbn [mbind res_bind].
  rewrite Hsi. cbn [or_ub mbind res_bind]. rewrite (vget_Some _ _ _ Hl). cbn [mbind res_bind].
  destruct (decide (seq = [])) as [->|Hne].
  { cbn [last post fst snd]. split; [|done]. apply (grouped_new b sb i [] id n l); try done; [lia..|].
    by intros [|] ? ?. }
  destruct (exists_last Hne) as (A & s & ->). rewrite last_snoc.
  assert (Hpos : 0 < i).
  { rewrite <- (gr_count _ _ _ _ Hg), fmap_app, zsum_app. pose proof (gr_len _ _ _ _ Hg) as Hle.
    apply Forall_app in Hle as [HA [Hs _]%Forall_cons]. cbn.
    assert (0 <= zsum (sq_length <$> A)); [|lia]. apply zsum_nonneg, Forall_fmap.
    eapply Forall_impl; [exact HA|]. cbn. lia. }
  rewrite (Hlast Hpos). cbn [andb].
  pose proof (gr_ok _ _ _ _ Hg) as Hok. apply Forall_app in Hok as [_ [Hoks _]%Forall_cons].
  destruct (zlookup_lt (sb_ids sb) (i - 1)) as [id' Hid']; [lia|].
  destruct (gr_last _ _ _ _ Hg A s eq_refl) as [Hend Hkey]. specialize (Hkey _ Hid').
  pose proof (zlookup_Some_lt _ _ _ Hid').
  assert (Hsk : seq_key s = token_key b id') by done.
  destruct (batch_seqs_at b Hb id' (Hin _ _ Hid')) as (n' & l' & _ & _ & _ & _ & _ & _ & Hr' & Hk' & Hz').
  destruct (so_seq_id _ _ _ Hoks) as (sl & Hsl & Hsll). pose proof (so_n_seq_id _ _ _ Hoks).
  assert (Hsame : (n =? sq_n_seq_id s) && same_seq_ids (Z.to_nat n) l (default [] (sq_seq_id s)) = true <->
                  token_key b id = seq_key s).
  { unfold seq_key. rewrite Hsl, Hk. cbn [default from_option Datatypes.id].
    rewrite andb_true_iff, Z.eqb_eq. unfold zlen in *. split.
    - intros [-> Hs%same_seq_ids_spec]; done || lia.
    - intros E. assert (n = sq_n_seq_id s) as En.
      { apply (f_equal length) in E. rewrite !length_take in E. lia. }
      split; [done|]. rewrite <- En in E. apply same_seq_ids_spec; done || lia. }
  destruct (_ && _) eqn:Es.
  - pose proof (proj1 Hsame eq_refl) as Hke. cbn [post fst snd]. split; [|done].
    rewrite length_app. cbn [length]. rewrite Nat.add_comm. cbn [Nat.add pred].
    rewrite alter_app_r_alt by lia. rewrite Nat.sub_diag. cbn. apply (grouped_extend _ _ _ _ _ id); try done. lia.
  - cbn [post fst snd]. split; [|done]. apply (grouped_new b sb i _ id n l); try done; [lia..|].
    intros A' s' [<- <-]%app_inj_tail. rewrite Hsk.
    pose proof (StronglySorted_adjacent _ _ i id' id Hsort Hpos Hid' Hid) as Hlt. cbn beta in Hlt.
    rewrite (token_lt_key b Hb) in Hlt by eauto.
    assert (token_key b id <> token_key b id') as Hd by (rewrite <- Hsk; intros E; apply Hsame in E; done).
    case_decide; [done|]. destruct (key_lt (token_key b id') (token_key b id)) eqn:E'; [done|].
    exfalso. apply Hd. by apply key_lt_total.
Qed.

(** The order of the sequences does not matter for the order of the tokens
    within each of them. *)
Lemma rearranged_seqs b sb l k :
  l ≡ₚ k -> NoDup (seq_key <$> l) -> Forall (seq_ok b sb) l ->
  rearranged b (concat (seq_slice sb <$> l)) (concat (seq_slice sb <$> k)).
Proof.
  induction 1 as [|s l k _ IH|s t l|l k m H1 IH1 H2 IH2]; intros Hnd Hok.
  - reflexivity.
  - cbn in *. apply NoDup_cons in Hnd as [_ Hnd]. apply Forall_cons in Hok as [_ Hok].
    apply rearranged_app; [reflexivity|by apply IH].
  - cbn in *. apply NoDup_cons in Hnd as [Hni _].
    apply Forall_cons in Hok as [Hs [Ht _]%Forall_cons]. rewrite !app_assoc.
    apply rearranged_app; [|reflexivity]. apply (rearranged_comm b (seq_key s)); [apply Ht|].
    eapply Forall_impl; [apply Hs|]. intros id ->. intros E. apply Hni. rewrite E. by left.
  - transitivity (concat (seq_slice sb <$> k)); [by apply IH1|]. apply IH2.
    + by rewrite <- H1.
    + by rewrite <- H1.
Qed.

Section from_batch.
Context `{CppSortLaws}.

Lemma from_batch_ordered b sb logits_all :
  batch_ok b -> sb_seq sb = [] ->
  safe (from_batch sb b false logits_all) (fun r =>
    ordered_inv b r /\ sb_logits_all r = logits_all /\ sb_out_ids r = [] /\ sb_n_tokens r = b_n_tokens b /\
    rearranged b (sb_ids r) (pending r) /\ sb_ids r ≡ₚ zseq 0 (Z.to_nat (b_n_tokens b)) /\
    StronglySorted (fun x y => token_lt b y x = false) (sb_ids r)).
Proof.
  intros Hb Hseq. pose proof (bo_size _ Hb) as Hsize. unfold from_batch.
  destruct (Z.leb_spec 0 (b_n_tokens b)) as [_|]; [|lia]. cbn [ggml_assert mbind res_bind].
  set (n := b_n_tokens b) in *. set (ids0 := zseq 0 (Z.to_nat n)).
  assert (Hin0 : Forall (fun id => 0 <= id < n) ids0).
  { apply Forall_forall. intros id Hid%elem_of_zseq. lia. }
  pose proof (token_lt_strict_weak b Hb ids0 Hin0) as Hsw.
  pose proof (std_sort_perm _ _ _ Hsw) as Hperm. pose proof (std_sort_sorted _ _ _ Hsw) as Hsorted.
  set (ids := std_sort (token_lt b) ids0) in *.
  assert (Hin : Forall (fun id => 0 <= id < n) ids) by (rewrite Hperm; exact Hin0).
  assert (Hz : zlen ids = n).
  { unfold zlen. rewrite Hperm. unfold ids0. rewrite length_zseq. lia. }
  set (sb1 := mk_sbatch n logits_all ids [] [] (Some b) (sb_capacity sb)).
  eapply post_bind with (P := fun r => grouped b sb1 n r.1).
  { apply (post_mono _ (fun st => grouped b sb1 n st.1 /\ (0 < n -> st.2 = true)) _ (fun _ => False));
      [|by intros st [? _]|done].
    apply (for_z_post 0 n (group_step b ids)
      (fun i st => grouped b sb1 i st.1 /\ (0 < i -> st.2 = true))); [lia| |].
    - rewrite Hseq. split; [|done]. split; cbn; try by constructor.
      by intros [|] ? ?.
    - intros i [seq hl] Hi [Hg Hl]. cbn [fst snd] in *.
      eapply post_mono; [apply (group_step_spec b sb1); try done; change (0 <= i < zlen ids); lia| |done].
      by intros r [? ->]. }
  intros [seq hl] [Hok Hlen Hkeys Hids Hcnt _]. cbn [fst snd post] in *.
  pose proof (std_sort_perm _ _ _ (seq_lt_strict_weak seq)) as Hsp.
  pose proof (std_sort_sorted _ _ _ (seq_lt_strict_weak seq)) as Hss.
  set (seq' := std_sort seq_lt seq) in *.
  assert (Hnd : NoDup (seq_key <$> seq)).
  { clear -Hkeys. induction Hkeys as [|k l Hs IH Hf]; constructor; [|done].
    intros Hin. rewrite Forall_forall in Hf. specialize (Hf _ Hin). by rewrite key_lt_irrefl in Hf. }
  set (r := mk_sbatch n logits_all ids [] seq' (Some b) (sb_capacity sb)).
  assert (Hokr : Forall (seq_ok b r) seq).
  { eapply Forall_impl; [exact Hok|]. intros s. by apply seq_ok_ids. }
  splits; try done.
  - split.
    + split; cbn; try done; [by rewrite Hsp|by rewrite Hsp|].
      rewrite <- Hcnt. clear -Hsp. induction Hsp; cbn in *; unfold zsum in *; cbn in *; lia.
    + cbn. assert (Hlen' : Forall (fun s => 0 < sq_length s) seq') by (rewrite Hsp; exact Hlen).
      clear -Hss Hlen'. induction Hss as [|s l Hs IH Hf]; constructor.
      * apply IH. by apply Forall_cons in Hlen' as [_ ?].
      * apply Forall_cons in Hlen' as [Hls _]. eapply Forall_impl; [exact Hf|].
        intros t Ht. split; [done|lia].
  - assert (Hidsr : sb_ids r = concat (seq_slice r <$> seq)).
    { transitivity (take (Z.to_nat n) ids); [symmetry; apply take_ge; change (length ids <= Z.to_nat n)%nat; unfold zlen in Hz; lia|].
      exact (eq_sym Hids). }
    rewrite Hidsr. unfold pending. cbn [sb_seq r]. by apply rearranged_seqs.
Qed.

Lemma from_batch_simple b sb logits_all :
  batch_ok b ->
  safe (from_batch sb b true logits_all) (fun r =>
    simple_inv b r /\ sb_logits_all r = logits_all /\ sb_out_ids r = [] /\ sb_n_tokens r = b_n_tokens b /\
    pending r = zseq 0 (Z.to_nat (b_n_tokens b))).
Proof.
  intros Hb. pose proof (bo_size _ Hb) as Hsize. unfold from_batch.
  destruct (Z.leb_spec 0 (b_n_tokens b)) as [_|]; [|lia]. cbn [ggml_assert mbind res_bind post].
  splits; try done.
  - split; cbn; try done; [|lia]. do 2 f_equal. lia.
  - unfold pending, seq_slice, slice. cbn. rewrite app_nil_r. apply take_ge. rewrite length_zseq. lia.
Qed.
End from_batch.

(** * Processing a whole batch *)

(** How [llama_prepare_ubatch] takes ubatches: [split_simple] for attention
    caches, [split_equal] for recurrent ones and [split_seq] for recurrent ones
    with pooled embeddings. *)
Inductive split_mode : Type := SplitSimple | SplitEqual | SplitSeq.

#[export] Instance split_mode_eq_dec : EqDecision split_mode.
Proof. solve_decision. Defined.

Definition split_by (m : split_mode) (sb : llama_sbatch) (n_ubatch : Z) : res (llama_sbatch * llama_ubatch) :=
  match m with
  | SplitSimple => split_simple sb n_ubatch
  | SplitEqual => split_equal sb n_ubatch
  | SplitSeq => split_seq sb n_ubatch
  end.

(** The loop [while (sbatch.n_tokens > 0)] of the decoder, as far as the batch
    is concerned: the ubatches in the order they are computed. *)
Definition split_all (m : split_mode) (n_ubatch : Z) : nat -> llama_sbatch * list llama_ubatch ->
    res (llama_sbatch * list llama_ubatch) :=
  while (fun '(sb, ubs) =>
    if 0 <? sb_n_tokens sb then
      r ← split_by m sb n_ubatch; Ok (Next (r.1, ubs ++ [r.2]))
    else Ok (Done (sb, ubs))).

Definition process_batch `{CppSort} (m : split_mode) (n_ubatch : Z) (fuel : nat) (logits_all : bool)
    (sb : llama_sbatch) (b : llama_batch) : res (llama_sbatch * list llama_ubatch) :=
  sb ← from_batch sb b (bool_decide (m = SplitSimple)) logits_all;
  split_all m n_ubatch fuel (sb, []).

Definition mode_inv (m : split_mode) (b : llama_batch) (sb : llama_sbatch) : Prop :=
  match m with SplitSimple => simple_inv b sb | _ => ordered_inv b sb end.

Lemma mode_inv_empty m b sb : mode_inv m b sb -> sb_n_tokens sb <= 0 -> pending sb = [].
Proof.
  intros Hm Hn. assert (Hall : forall seq, Forall (fun s => 0 <= sq_length s) seq ->
    zsum (sq_length <$> seq) <= 0 -> concat (seq_slice sb <$> seq) = []).
  { induction 1 as [|s l Hs Hl IH]; [done|]. cbn. intros Hz.
    assert (0 <= zsum (sq_length <$> l)) by by apply zsum_nonneg, Forall_fmap.
    unfold zsum in *. rewrite IH by lia. unfold seq_slice, slice.
    replace (sq_length s) with 0 by lia. done. }
  apply Hall; destruct m; cbn in Hm.
  1: rewrite (mi_seq _ _ Hm); repeat constructor; cbn; destruct Hm; lia.
  3: rewrite (mi_seq _ _ Hm); cbn; lia.
  all: destruct Hm as [Hm _]; rewrite <- ?(si_count _ _ Hm); try lia.
  all: eapply Forall_impl; [apply (si_seqs _ _ Hm)|]; intros s []; done.
Qed.

(** Every split takes at least one token and keeps the invariant. *)
Lemma split_by_spec m b sb n_ubatch :
  batch_ok b -> mode_inv m b sb -> 0 < sb_n_tokens sb -> 0 < n_ubatch ->
  safe (split_by m sb n_ubatch) (fun r => exists p, mode_inv m b r.1 /\ took b sb r.1 p /\
    0 < zlen p <= n_ubatch /\ ubatch_of b (sb_logits_all sb) r.2 p /\
    (m = SplitSimple -> pending sb = p ++ pending r.1)).
Proof.
  intros Hb Hm Hn Hu. destruct m; cbn [split_by mode_inv] in *.
  - eapply post_mono; [by apply split_simple_spec| |done]. intros r (p & ? & ? & ? & ? & ? & _). by exists p.
  - eapply post_mono; [by apply split_equal_spec| |done]. intros r (p & ? & ? & ? & ?). by exists p.
  - eapply post_mono; [by apply split_seq_spec| |done]. intros r (p & ? & ? & ? & ?). by exists p.
Qed.

(** The ubatches [ubs] hold the tokens [ps], each at most [n_ubatch]. *)
Definition ubatches_of (b : llama_batch) (logits_all : bool) (n_ubatch : Z)
    (ubs : list llama_ubatch) (ps : list (list Z)) : Prop :=
  Forall2 (fun ub p => 0 < zlen p <= n_ubatch /\ ubatch_of b logits_all ub p) ubs ps.

Lemma split_all_spec m b n_ubatch fuel sb :
  batch_ok b -> mode_inv m b sb -> 0 < n_ubatch -> (Z.to_nat (sb_n_tokens sb) < fuel)%nat ->
  safe (split_all m n_ubatch fuel (sb, [])) (fun r => exists ps,
    took b sb r.1 (concat ps) /\ pending r.1 = [] /\ ubatches_of b (sb_logits_all sb) n_ubatch r.2 ps /\
    (m = SplitSimple -> pending sb = concat ps)).
Proof.
  intros Hb Hm Hu Hf. unfold split_all.
  apply (while_post _ (fun st => exists ps, mode_inv m b st.1 /\ took b sb st.1 (concat ps) /\
      ubatches_of b (sb_logits_all sb) n_ubatch st.2 ps /\
      (m = SplitSimple -> pending sb = concat ps ++ pending st.1))
    (fun st => Z.to_nat (sb_n_tokens st.1))).
  - exists []. cbn. splits; [done|by apply took_nil|constructor|done].
  - cbn. lia.
  - intros [sb1 ubs] (ps & Hm1 & Htk & Hubs & Hsimple). cbn [fst snd] in *.
    destruct (Z.ltb_spec 0 (sb_n_tokens sb1)) as [Hn|Hn]; cbn [post].
    + eapply post_bind; [by apply split_by_spec|]. intros r (p & Hm2 & Htk2 & Hp & Hub & Hs2). cbn [post fst snd].
      split; [|rewrite (tk_count _ _ _ _ Htk2); lia].
      exists (ps ++ [p]). rewrite concat_app. cbn [concat]. rewrite app_nil_r. splits; [done| | |].
      * by eapply took_trans.
      * rewrite (tk_logits _ _ _ _ Htk) in Hub. apply Forall2_app; [done|]. constructor; [done|constructor].
      * intros E. rewrite Hsimple, (Hs2 E), app_assoc by done. done.
    + exists ps. pose proof (mode_inv_empty _ _ _ Hm1 Hn) as He. splits; try done.
      intros E. rewrite Hsimple, He, app_nil_r by done. done.
Qed.

Lemma StronglySorted_filter {A} (R : A -> A -> Prop) (P : A -> Prop) `{forall x, Decision (P x)} l :
  StronglySorted R l -> StronglySorted R (filter P l).
Proof.
  induction 1 as [|x l Hl IH Hx]; [constructor|]. rewrite filter_cons. case_decide; [|done].
  constructor; [done|]. apply Forall_forall. intros y [_ Hy]%list_elem_of_filter.
  rewrite Forall_forall in Hx. by apply Hx.
Qed.

Section process.
Context `{CppSortLaws}.

End process.

(** * A concrete batch *)

(** Six tokens: three of sequence 0, a shared prompt of 0 and 1, two of 1. *)
Definition demo_batch : llama_batch :=
  mk_batch 6 (Some [10; 11; 12; 13; 14; 15]) None (Some [1; 2; 3; 0; 1; 2])
    (Some [1; 1; 1; 2; 1; 1]) (Some [[0]; [0]; [0]; [0; 1]; [1]; [1]]) (Some [0; 0; 1; 0; 0; 1]).

Lemma demo_batch_ok : batch_ok demo_batch.
Proof.
  split; cbn.
  - unfold INT32_MAX. lia.
  - by intros l [= <-].
  - done.
  - eexists. done.
  - do 2 eexists. splits; [done|done|done|]. repeat constructor; done.
  - by intros l [= <-].
Qed.

(** The shared prompt first, then equal shares of both sequences, then the
    rest of the longer one. *)
Example demo_split_equal :
  (r ← @process_batch insertion_std_sort SplitEqual 4 7 false sbatch_empty demo_batch;
   Ok (map (fun ub => (ub_n_seqs ub, ub_n_seq_tokens ub, ub_token ub)) r.2, sb_out_ids r.1)) =
  Ok ([(1, 1, Some [13]); (2, 2, Some [14; 15; 10; 11]); (1, 1, Some [12])], [5; 2]).
Proof. vm_compute. reflexivity. Qed.


(** * Left-over sequences *)

Definition stale_first : llama_batch := 
  mk_batch 3 (Some [10; 11; 12]) None (Some [0; 1; 2]) (Some [1; 1; 1]) (Some [[0]; [0]; [0]]) (Some [0; 0; 1]).
Definition stale_second : llama_batch :=
  mk_batch 5 (Some [20; 21; 22; 23; 24]) None (Some [0; 1; 2; 3; 4]) (Some [1; 1; 1; 1; 1])
    (Some [[1]; [1]; [1]; [1]; [1]]) (Some [0; 0; 0; 0; 1]).

(** The tokens and the sequence ids of a ubatch. *)
Definition ub_shape (ub : llama_ubatch) : option (list Z) * list (list Z) := (ub_token ub, ub_seq_id ub).

(** [from_batch] does not clear [seq] unless the split is simple: when a
    batch was abandoned before its first ubatch was taken (as the decoder does
    when no cache slot is found), its sequences are still there for the next
    batch. Here three tokens of sequence 1 are then computed as tokens of
    sequence 0, two tokens are computed twice and three never for their own
    sequence. *)
Theorem from_batch_keeps_stale_sequences :
  (stale ← @from_batch insertion_std_sort sbatch_empty stale_first false false;
   r ← @process_batch insertion_std_sort SplitEqual 8 9 false stale stale_second;
   Ok (map ub_shape r.2)) =
    Ok [(Some [20; 21; 22], [[0]]); (Some [20; 21], [[1]])].
Proof. vm_compute. reflexivity. Qed.
