(* ===== verification/KvCache.v ===== *)
(** The key/value cache: the cells of [src/llama-kv-cache.cpp] and
    [src/llama-kv-cache.h], for attention models (one cell per token) and for
    recurrent models (one cell per sequence). The tensors are not modelled;
    [size], which the code sets together with [cells.resize(size)] and never
    changes, is the length of the vector of cells. *)
From S2P Require Import Prelude Batch.

(** * Data *)

(** [struct llama_kv_cell] *)
Record kv_cell : Type := mk_cell {
  c_pos    : Z;
  c_delta  : Z;
  c_src    : Z;
  c_tail   : Z;
  c_seq_id : gset Z
}.

#[export] Instance kv_cell_eq_dec : EqDecision kv_cell.
Proof. solve_decision. Defined.

Definition cell_init : kv_cell := mk_cell (-1) 0 (-1) (-1) ∅.
Definition has_seq_id (c : kv_cell) (id : Z) : bool := bool_decide (id ∈ c_seq_id c).
Definition is_empty (c : kv_cell) : bool := bool_decide (c_seq_id c = ∅).

Definition set_pos (p : Z) (c : kv_cell) : kv_cell := mk_cell p (c_delta c) (c_src c) (c_tail c) (c_seq_id c).
Definition set_delta (d : Z) (c : kv_cell) : kv_cell := mk_cell (c_pos c) d (c_src c) (c_tail c) (c_seq_id c).
Definition set_src (s : Z) (c : kv_cell) : kv_cell := mk_cell (c_pos c) (c_delta c) s (c_tail c) (c_seq_id c).
Definition set_tail (t : Z) (c : kv_cell) : kv_cell := mk_cell (c_pos c) (c_delta c) (c_src c) t (c_seq_id c).
Definition set_seqs (S : gset Z) (c : kv_cell) : kv_cell := mk_cell (c_pos c) (c_delta c) (c_src c) (c_tail c) S.

(** [struct llama_kv_cache], without the tensors *)
Record kv_cache : Type := mk_cache {
  kv_has_shift : bool;
  kv_do_defrag : bool;
  kv_recurrent : bool;
  kv_can_shift : bool;
  kv_head      : Z;
  kv_used      : Z;
  kv_n         : Z;
  kv_cells     : list kv_cell
}.

Definition kv_size (c : kv_cache) : Z := zlen (kv_cells c).

Definition with_cells (c : kv_cache) (head used : Z) (cells : list kv_cell) : kv_cache :=
  mk_cache (kv_has_shift c) (kv_do_defrag c) (kv_recurrent c) (kv_can_shift c) head used (kv_n c) cells.
Definition with_shift (c : kv_cache) (b : bool) : kv_cache :=
  mk_cache b (kv_do_defrag c) (kv_recurrent c) (kv_can_shift c) (kv_head c) (kv_used c) (kv_n c) (kv_cells c).
Definition with_defrag (c : kv_cache) (b : bool) : kv_cache :=
  mk_cache (kv_has_shift c) b (kv_recurrent c) (kv_can_shift c) (kv_head c) (kv_used c) (kv_n c) (kv_cells c).
Definition with_n (c : kv_cache) (n : Z) : kv_cache :=
  mk_cache (kv_has_shift c) (kv_do_defrag c) (kv_recurrent c) (kv_can_shift c) (kv_head c) (kv_used c) n (kv_cells c).

(** [struct llama_kv_cache_slot_info] *)
Record slot_info : Type := mk_slot {
  slot_first  : Z;
  slot_second : Z;
  slot_found  : bool
}.

Definition slot_failed : slot_info := mk_slot 0 0 false.

(** * Construction *)

(** [llama_kv_cache_get_padding] *)
Definition llama_kv_cache_get_padding (flash_attn : bool) : Z := if flash_attn then 256 else 32.

(** [llama_kv_cache_init], the part that sets up the cells. *)
Definition llama_kv_cache_init (recurrent deepseek2 : bool) (kv_size : Z) : kv_cache :=
  mk_cache false false recurrent (negb recurrent && negb deepseek2) 0 0 0
    (replicate (Z.to_nat kv_size) cell_init).

(** * Loops over the cells *)

Section each_cell.
Context {A : Type} (f : Z -> kv_cell -> A -> res (kv_cell * A)).

(** [for (i = 0; i < size; ++i)], where an iteration touches [cells[i]] only. *)
Fixpoint each_cell (i : Z) (cells : list kv_cell) (a : A) : res (list kv_cell * A) :=
  match cells with
  | [] => Ok ([], a)
  | c :: cells =>
      r ← f i c a;
      rest ← each_cell (i + 1) cells r.2;
      Ok (r.1 :: rest.1, rest.2)
  end.
End each_cell.

(** [if (new_head == size) new_head = i] *)
Definition first_freed (size new_head i : Z) : Z := if new_head =? size then i else new_head.

(** [if (new_head != size && new_head < head) head = new_head] *)
Definition lower_head (size new_head head : Z) : Z :=
  if negb (new_head =? size) && (new_head <? head) then new_head else head.

(** [if (p0 < 0) p0 = 0; if (p1 < 0) p1 = max] *)
Definition range_lo (p0 : Z) : Z := if p0 <? 0 then 0 else p0.
Definition range_hi (p1 : Z) : Z := if p1 <? 0 then INT32_MAX else p1.

Definition in_pos_range (p0 p1 : Z) (c : kv_cell) : bool := (p0 <=? c_pos c) && (c_pos c <? p1).

(** Access to [cells[i]] at a computed index. *)
Definition upd_cell (cells : list kv_cell) (i : Z) (f : kv_cell -> kv_cell) : res (list kv_cell) :=
  c ← vget cells i; vset cells i (f c).

(** * Sequence operations *)

(** [llama_kv_cache_clear] *)
Definition llama_kv_cache_clear (cache : kv_cache) : kv_cache :=
  with_cells cache 0 0
    ((fun c => mk_cell (-1) (c_delta c) (-1) (-1) ∅) <$> kv_cells cache).

(** The loop of [llama_kv_cache_seq_rm]; the state is [used] and [new_head]. *)
Definition seq_rm_cell (size seq_id p0 p1 : Z) (i : Z) (c : kv_cell) (a : Z * Z) : res (kv_cell * (Z * Z)) :=
  let '(used, new_head) := a in
  if in_pos_range p0 p1 c then
    if negb (seq_id <? 0) && negb (has_seq_id c seq_id) then Ok (c, a)
    else
      let c := if seq_id <? 0 then set_seqs ∅ c else set_seqs (c_seq_id c ∖ {[seq_id]}) c in
      if is_empty c then
        let used := if 0 <=? c_pos c then u32 (used - 1) else used in
        Ok (set_src (-1) (set_pos (-1) c), (used, first_freed size new_head i))
      else Ok (c, a)
  else Ok (c, a).

(** The checks of [llama_kv_cache_seq_rm] on a recurrent cache: the flag the
    function goes on with, and the cells with the invalidated tail. *)
Definition seq_rm_recurrent (cells : list kv_cell) (seq_id p0 p1 : Z) : res (bool * list kv_cell) :=
  if zlen cells <=? seq_id then Ok (false, cells)
  else if 0 <=? seq_id then
    meta ← vget cells seq_id;
    let tail_id := c_tail meta in
    if 0 <=? tail_id then
      cell ← vget cells tail_id;
      if ((0 <? p0) && (p0 <=? c_pos cell)) || ((0 <? p1) && (p1 <=? c_pos cell)) then Ok (false, cells)
      else if in_pos_range p0 p1 cell then
        cells ← upd_cell cells seq_id (set_tail (-1)); Ok (true, cells)
      else Ok (true, cells)
    else Ok (true, cells)
  else Ok (negb (negb (p0 =? p1) && (negb (p0 =? 0) || negb (p1 =? INT32_MAX))), cells).

(** [llama_kv_cache_seq_rm] *)
Definition llama_kv_cache_seq_rm (cache : kv_cache) (seq_id p0 p1 : Z) : res (bool * kv_cache) :=
  let p0 := range_lo p0 in
  let p1 := range_hi p1 in
  r ← (if kv_recurrent cache then seq_rm_recurrent (kv_cells cache) seq_id p0 p1
       else Ok (true, kv_cells cache));
  let '(go, cells) := r : bool * list kv_cell in
  if go then
    r ← each_cell (seq_rm_cell (kv_size cache) seq_id p0 p1) 0 cells (kv_used cache, kv_size cache);
    let '(cells, (used, new_head)) := r : list kv_cell * (Z * Z) in
    Ok (true, with_cells cache (lower_head (kv_size cache) new_head (kv_head cache)) used cells)
  else Ok (false, cache).

(** [llama_kv_cache_seq_cp] *)
Definition llama_kv_cache_seq_cp (cache : kv_cache) (seq_id_src seq_id_dst p0 p1 : Z) : res kv_cache :=
  let p0 := range_lo p0 in
  let p1 := range_hi p1 in
  let size := kv_size cache in
  if kv_recurrent cache then
    if (u32 seq_id_dst <? size) && (u32 seq_id_src <? size) then
      dst ← vget (kv_cells cache) seq_id_dst;
      r ← (if 0 <=? c_tail dst then
             cells ← upd_cell (kv_cells cache) (c_tail dst) (fun c => set_seqs (c_seq_id c ∖ {[seq_id_dst]}) c);
             cells ← upd_cell cells seq_id_dst (set_tail (-1));
             cell_dst ← vget cells (c_tail dst);
             if is_empty cell_dst then
               cells ← upd_cell cells (c_tail dst) (fun c => set_src (-1) (set_delta (-1) (set_pos (-1) c)));
               Ok (cells, u32 (kv_used cache - 1))
             else Ok (cells, kv_used cache)
           else Ok (kv_cells cache, kv_used cache));
      let '(cells, used) := r : list kv_cell * Z in
      src ← vget cells seq_id_src;
      cells ← (if 0 <=? c_tail src then
                 cells ← upd_cell cells (c_tail src) (fun c => set_seqs (c_seq_id c ∪ {[seq_id_dst]}) c);
                 upd_cell cells seq_id_dst (set_tail (c_tail src))
               else Ok cells);
      Ok (with_cells cache (kv_head cache) used cells)
    else Ok cache
  else
    Ok (with_cells cache 0 (kv_used cache)
          ((fun c => if has_seq_id c seq_id_src && in_pos_range p0 p1 c
                     then set_seqs (c_seq_id c ∪ {[seq_id_dst]}) c else c) <$> kv_cells cache)).

(** The loop of [llama_kv_cache_seq_keep]. *)
Definition seq_keep_cell (recurrent : bool) (size seq_id : Z) (i : Z) (c : kv_cell) (a : Z * Z)
    : res (kv_cell * (Z * Z)) :=
  let '(used, new_head) := a in
  let c := if recurrent && negb (i =? seq_id) then set_tail (-1) c else c in
  if has_seq_id c seq_id then Ok (set_seqs {[seq_id]} c, a)
  else
    let used := if 0 <=? c_pos c then u32 (used - 1) else used in
    Ok (set_seqs ∅ (set_src (-1) (set_pos (-1) c)), (used, first_freed size new_head i)).

(** [llama_kv_cache_seq_keep] *)
Definition llama_kv_cache_seq_keep (cache : kv_cache) (seq_id : Z) : res kv_cache :=
  let size := kv_size cache in
  r ← each_cell (seq_keep_cell (kv_recurrent cache) size seq_id) 0 (kv_cells cache) (kv_used cache, size);
  let '(cells, (used, new_head)) := r : list kv_cell * (Z * Z) in
  Ok (with_cells cache (lower_head size new_head (kv_head cache)) used cells).

(** The position of a recurrent sequence changed by [seq_add] or [seq_div]. *)
Definition change_tail_pos (cache : kv_cache) (seq_id p0 p1 : Z) (f : Z -> res Z) : res kv_cache :=
  if (0 <=? seq_id) && (seq_id <? kv_size cache) then
    meta ← vget (kv_cells cache) seq_id;
    if 0 <=? c_tail meta then
      cell ← vget (kv_cells cache) (c_tail meta);
      if has_seq_id cell seq_id && in_pos_range p0 p1 cell then
        p ← f (c_pos cell);
        cells ← vset (kv_cells cache) (c_tail meta) (set_pos p cell);
        Ok (with_cells cache (kv_head cache) (kv_used cache) cells)
      else Ok cache
    else Ok cache
  else Ok cache.

(** The loop of [llama_kv_cache_seq_add]; the state is [has_shift], [used] and
    [new_head]. *)
Definition seq_add_cell (size seq_id p0 p1 delta : Z) (i : Z) (c : kv_cell) (a : bool * Z * Z)
    : res (kv_cell * (bool * Z * Z)) :=
  let '(has_shift, used, new_head) := a in
  if has_seq_id c seq_id && in_pos_range p0 p1 c then
    p ← s32 (c_pos c + delta);
    d ← s32 (c_delta c + delta);
    let c := set_delta d (set_pos p c) in
    if c_pos c <? 0 then
      let used := if is_empty c then used else u32 (used - 1) in
      Ok (set_seqs ∅ (set_pos (-1) c), (true, used, first_freed size new_head i))
    else Ok (c, (true, used, new_head))
  else Ok (c, a).

(** [llama_kv_cache_seq_add] *)
Definition llama_kv_cache_seq_add (cache : kv_cache) (seq_id p0 p1 delta : Z) : res kv_cache :=
  let p0 := range_lo p0 in
  let p1 := range_hi p1 in
  let size := kv_size cache in
  if p0 =? p1 then Ok cache
  else if kv_recurrent cache then change_tail_pos cache seq_id p0 p1 (fun p => s32 (p + delta))
  else
    r ← each_cell (seq_add_cell size seq_id p0 p1 delta) 0 (kv_cells cache)
          (kv_has_shift cache, kv_used cache, size);
    let '(cells, (has_shift, used, new_head)) := r : list kv_cell * (bool * Z * Z) in
    Ok (with_shift (with_cells cache (if negb (new_head =? size) then new_head else 0) used cells) has_shift).

(** Division of [int]s: undefined for a zero divisor. *)
Definition int_div (a d : Z) : res Z := if d =? 0 then Err UB else s32 (Z.quot a d).

Definition seq_div_cell (seq_id p0 p1 d : Z) (i : Z) (c : kv_cell) (has_shift : bool) : res (kv_cell * bool) :=
  if has_seq_id c seq_id && in_pos_range p0 p1 c then
    p ← int_div (c_pos c) d;
    dl ← s32 (c_delta c + (p - c_pos c));
    Ok (set_delta dl (set_pos p c), true)
  else Ok (c, has_shift).

(** [llama_kv_cache_seq_div] *)
Definition llama_kv_cache_seq_div (cache : kv_cache) (seq_id p0 p1 d : Z) : res kv_cache :=
  let p0 := range_lo p0 in
  let p1 := range_hi p1 in
  if p0 =? p1 then Ok cache
  else if kv_recurrent cache then change_tail_pos cache seq_id p0 p1 (fun p => int_div p d)
  else
    r ← each_cell (seq_div_cell seq_id p0 p1 d) 0 (kv_cells cache) (kv_has_shift cache);
    Ok (with_shift (with_cells cache (kv_head cache) (kv_used cache) r.1) r.2).

(** * Queries *)

(** [llama_kv_cache_seq_pos_max] *)
Definition llama_kv_cache_seq_pos_max (cache : kv_cache) (seq_id : Z) : Z :=
  foldl (fun result c => if has_seq_id c seq_id then Z.max result (c_pos c) else result) 0 (kv_cells cache).

(** [llama_kv_cache::max_pos] *)
Definition max_pos (cache : kv_cache) : Z :=
  foldl (fun m c => Z.max m (c_pos c)) (-1) (kv_cells cache).

(** [llama_kv_cache_cell_max]: the loop from the last cell down. *)
Fixpoint cell_max_loop (rev_cells : list kv_cell) : Z :=
  match rev_cells with
  | [] => 0
  | c :: rest => if (0 <=? c_pos c) && negb (is_empty c) then zlen rev_cells else cell_max_loop rest
  end.

Definition llama_kv_cache_cell_max (cache : kv_cache) : Z := cell_max_loop (rev (kv_cells cache)).

(** [llama_kv_cache_defrag] *)
Definition llama_kv_cache_defrag (cache : kv_cache) : kv_cache :=
  if kv_recurrent cache then cache else with_defrag cache true.

(** [llama_get_kv_cache_token_count] *)
Definition llama_get_kv_cache_token_count (cache : kv_cache) : Z :=
  foldl (fun n c => n + Z.of_nat (size (c_seq_id c))) 0 (kv_cells cache).

(** [llama_get_kv_cache_used_cells] *)
Definition llama_get_kv_cache_used_cells (cache : kv_cache) : Z := kv_used cache.

(** [llama_kv_cache_can_shift] *)
Definition llama_kv_cache_can_shift (cache : kv_cache) : bool := kv_can_shift cache.

(** * Finding a slot in an attention cache *)

(** The scan of [n] cells from [head]: the index, counted from [head], of the
    first cell that is in use. *)
Fixpoint first_used (n : nat) (i : Z) (cells : list kv_cell) (head : Z) : res (option Z) :=
  match n with
  | O => Ok None
  | S n =>
      c ← vget cells (head + i);
      if 0 <=? c_pos c then Ok (Some i) else first_used n (i + 1) cells head
  end.

(** One iteration of the search; the state is [head] and [n_tested], the result
    the final [head] and whether a slot was found there. *)
Definition search_step (cells : list kv_cell) (n_tokens : Z) (st : Z * Z) : res (step (Z * Z) (Z * bool)) :=
  let '(head, n_tested) := st in
  let size := zlen cells in
  if size <? u32 (head + n_tokens) then Ok (Next (0, u32 (n_tested + (size - head))))
  else
    used ← first_used (Z.to_nat n_tokens) 0 cells head;
    match used with
    | None => Ok (Done (head, true))
    | Some i =>
        let head := u32 (head + (i + 1)) in
        let n_tested := u32 (n_tested + (i + 1)) in
        if size <=? n_tested then Ok (Done (head, false)) else Ok (Next (head, n_tested))
    end.

(** Every scan that fails tests at least one more cell, and a search from the
    start of the cache is followed by a scan. *)
Definition search_fuel (cells : list kv_cell) : nat := 2 * length cells + 3.

(** The cells of a slot at [head]: one token per cell. *)
Definition fill_slot (cells : list kv_cell) (head : Z) (ub : llama_ubatch) : res (list kv_cell) :=
  for_z 0 (ub_n_seqs ub) (fun s cells =>
    for_z 0 (ub_n_seq_tokens ub) (fun i cells =>
      let k := s * ub_n_seq_tokens ub + i in
      p ← vget (ub_pos ub) k;
      cells ← upd_cell cells (head + k) (set_pos p);
      n_seq_id ← vget (ub_n_seq_id ub) s;
      for_z 0 n_seq_id (fun j cells =>
        ids ← vget (ub_seq_id ub) s;
        id ← vget ids j;
        upd_cell cells (head + k) (fun c => set_seqs (c_seq_id c ∪ {[id]}) c)) cells) cells) cells.

(** [llama_kv_cache_find_slot] on an attention cache *)
Definition find_slot_attention (cache : kv_cache) (ub : llama_ubatch) : res (slot_info * kv_cache) :=
  let n_tokens := ub_n_tokens ub in
  if kv_size cache <? n_tokens then Ok (slot_failed, cache)
  else
    r ← while (search_step (kv_cells cache) n_tokens) (search_fuel (kv_cells cache)) (kv_head cache, 0);
    let '(head, found) := r : Z * bool in
    if found then
      cells ← fill_slot (kv_cells cache) head ub;
      Ok (mk_slot head (head + n_tokens) true,
          with_cells cache head (u32 (kv_used cache + n_tokens)) cells)
    else Ok (slot_failed, with_cells cache head (kv_used cache) (kv_cells cache)).

(** * Finding a slot in a recurrent cache *)

(** The check of the sequence ids of one row of the ubatch, from the [j]-th on:
    [false] is the early return for a sequence id that does not fit. *)
Fixpoint check_seq_ids (cells : list kv_cell) (used j : Z) (seq_ids : list Z) : res (bool * (list kv_cell * Z)) :=
  match seq_ids with
  | [] => Ok (true, (cells, used))
  | seq_id :: rest =>
      if (seq_id <? 0) || (zlen cells <=? seq_id) then Ok (false, (cells, used))
      else
        r ← (if 0 <? j then
               seq ← vget cells seq_id;
               if 0 <=? c_tail seq then
                 cells ← upd_cell cells (c_tail seq) (fun c => set_seqs (c_seq_id c ∖ {[seq_id]}) c);
                 cells ← upd_cell cells seq_id (set_tail (-1));
                 cell ← vget cells (c_tail seq);
                 if is_empty cell then
                   cells ← upd_cell cells (c_tail seq) (fun c => set_src (-1) (set_pos (-1) c));
                   Ok (cells, u32 (used - 1))
                 else Ok (cells, used)
               else Ok (cells, used)
             else Ok (cells, used));
        check_seq_ids r.1 r.2 (j + 1) rest
  end.

(** The sequence ids of row [s]. *)
Definition row_seq_ids (ub : llama_ubatch) (s : Z) : res (list Z) :=
  n ← vget (ub_n_seq_id ub) s;
  ids ← vget (ub_seq_id ub) s;
  if n <=? zlen ids then Ok (take (Z.to_nat n) ids) else Err UB.

Fixpoint check_rows (n : nat) (s : Z) (ub : llama_ubatch) (cells : list kv_cell) (used : Z)
    : res (bool * (list kv_cell * Z)) :=
  match n with
  | O => Ok (true, (cells, used))
  | S n =>
      ids ← row_seq_ids ub s;
      r ← check_seq_ids cells used 0 ids;
      if r.1 : bool then check_rows n (s + 1) ub r.2.1 r.2.2 else Ok r
  end.

(** The loop that looks for an empty cell, [n] steps at most. *)
Fixpoint next_empty (n : nat) (cells : list kv_cell) (i : Z) : res Z :=
  match n with
  | O => Ok i
  | S n =>
      let i := if zlen cells <=? i then i - zlen cells else i in
      c ← vget cells i;
      if is_empty c then Ok i else next_empty n cells (i + 1)
  end.

(** [ubatch.seq_id[s][0]] *)
Definition first_seq_id (ub : llama_ubatch) (s : Z) : res Z :=
  ids ← vget (ub_seq_id ub) s; vget ids 0.

(** The state of the loop that gives every sequence a cell. *)
Record usable_state : Type := mk_usable {
  us_cells : list kv_cell;
  us_next  : Z;
  us_min   : Z;
  us_max   : Z
}.

(** One iteration of "find usable cell range". *)
Definition usable_step (ub : llama_ubatch) (s : Z) (st : usable_state) : res usable_state :=
  let cells := us_cells st in
  seq_id ← first_seq_id ub s;
  seq_meta ← vget cells seq_id;
  has_cell ← (if 0 <=? c_tail seq_meta then
                cell ← vget cells (c_tail seq_meta);
                ggml_assert (has_seq_id cell seq_id);;
                Ok (Z.of_nat (size (c_seq_id cell)) =? 1)
              else Ok false);
  r ← (if has_cell : bool then Ok (cells, us_next st)
       else
         empty_cell ← vget cells (us_next st);
         ggml_assert (is_empty empty_cell);;
         cells ← (if 0 <=? c_tail seq_meta then
                    orig_cell ← vget cells (c_tail seq_meta);
                    cells ← upd_cell cells (us_next st)
                              (fun c => set_src (c_src orig_cell) (set_pos (c_pos orig_cell) c));
                    cells ← upd_cell cells (c_tail seq_meta) (fun c => set_seqs (c_seq_id c ∖ {[seq_id]}) c);
                    upd_cell cells (us_next st) (fun c => set_seqs (c_seq_id c ∪ {[seq_id]}) c)
                  else Ok cells);
         cells ← upd_cell cells seq_id (set_tail (us_next st));
         next ← (if s + 1 <? ub_n_seqs ub then next_empty (length cells) cells (us_next st + 1)
                 else Ok (us_next st));
         Ok (cells, next));
  let '(cells, next) := r : list kv_cell * Z in
  seq_meta ← vget cells seq_id;
  let tail := c_tail seq_meta in
  Ok (mk_usable cells next (Z.min (us_min st) tail) (Z.max (us_max st) tail)).

(** [for (seq_id : cells[i].seq_id) cells[seq_id].tail = i] *)
Definition redirect_tails (i : Z) (cells : list kv_cell) : res (list kv_cell) :=
  c ← vget cells i;
  foldM (fun cells seq_id => upd_cell cells seq_id (set_tail i)) cells (elements (c_seq_id c)).

(** One iteration of "gather and re-order". *)
Definition gather_step (ub : llama_ubatch) (min : Z) (s : Z) (cells : list kv_cell) : res (list kv_cell) :=
  let dst_id := s + min in
  seq_id ← first_seq_id ub s;
  meta ← vget cells seq_id;
  let src_id := c_tail meta in
  if dst_id =? src_id then Ok cells
  else
    dst_cell ← vget cells dst_id;
    src_cell ← vget cells src_id;
    let give c := fun d => set_seqs (c_seq_id c) (set_src (c_src c) (set_pos (c_pos c) d)) in
    cells ← upd_cell cells dst_id (give src_cell);
    cells ← upd_cell cells src_id (give dst_cell);
    cells ← redirect_tails src_id cells;
    redirect_tails dst_id cells.

(** One iteration of "update the pos of the used seqs". *)
Definition update_step (ub : llama_ubatch) (min : Z) (s : Z) (cells : list kv_cell) : res (list kv_cell) :=
  last_pos ← vget (ub_pos ub) (ub_n_seq_tokens ub * s + ub_n_seq_tokens ub - 1);
  let cell_id := s + min in
  cells ← upd_cell cells cell_id (fun c => set_seqs ∅ (set_pos last_pos c));
  ids ← row_seq_ids ub s;
  foldM (fun cells seq_id =>
    cells ← upd_cell cells cell_id (fun c => set_seqs (c_seq_id c ∪ {[seq_id]}) c);
    upd_cell cells seq_id (set_tail cell_id)) cells ids.

Definition count_used (cells : list kv_cell) : Z :=
  zlen (filter (fun c => c_seq_id c <> ∅) cells).

(** [llama_kv_cache_find_slot] on a recurrent cache *)
Definition find_slot_recurrent (cache : kv_cache) (ub : llama_ubatch) : res (slot_info * kv_cache) :=
  ggml_assert (ub_equal_seqs ub);;
  let size := kv_size cache in
  let n_seqs := ub_n_seqs ub in
  r ← check_rows (Z.to_nat n_seqs) 0 ub (kv_cells cache) (kv_used cache);
  let '(fits, (cells, used)) := r : bool * (list kv_cell * Z) in
  if negb fits then Ok (slot_failed, with_cells cache (kv_head cache) used cells)
  else
    next ← next_empty (length cells) cells (kv_head cache);
    st ← for_z 0 n_seqs (usable_step ub) (mk_usable cells next (size - 1) 0);
    let min := us_min st in
    cells ← for_z 0 n_seqs (gather_step ub min) (us_cells st);
    cells ← for_z 0 n_seqs (update_step ub min) cells;
    let n := us_max st - min + 1 in
    Ok (mk_slot 0 0 (n_seqs <=? u32 n), with_n (with_cells cache min (count_used cells) cells) (u32 n)).

(** [llama_kv_cache_find_slot] *)
Definition llama_kv_cache_find_slot (cache : kv_cache) (ub : llama_ubatch) : res (slot_info * kv_cache) :=
  if kv_recurrent cache then find_slot_recurrent cache ub else find_slot_attention cache ub.

(** * The head *)

(** The moves of the head in llama_prepare_ubatch and llama_decode_impl: the
    search starts over when there are enough unused cells before the head, and
    the head passes the tokens that were computed. *)
Definition rewind_head (n_tokens : Z) (cache : kv_cache) : kv_cache :=
  if u32 (kv_used cache + 2 * n_tokens) <? kv_head cache
  then with_cells cache 0 (kv_used cache) (kv_cells cache) else cache.

Definition advance_head (n_tokens : Z) (cache : kv_cache) : kv_cache :=
  let head := u32 (kv_head cache + n_tokens) in
  with_cells cache (if kv_size cache <=? head then 0 else head) (kv_used cache) (kv_cells cache).

(** * Restoring *)

(** [struct llama_kv_slot_restorer] *)
Record slot_restorer : Type := mk_restorer {
  old_head        : Z;
  old_n           : Z;
  slot_boundaries : list (Z * Z);
  do_restore      : bool
}.

Definition restorer_init (cache : kv_cache) : slot_restorer := mk_restorer (kv_head cache) (kv_n cache) [] false.

Definition restorer_save (r : slot_restorer) (slot : slot_info) : slot_restorer :=
  if slot_found slot then
    mk_restorer (old_head r) (old_n r)
      (if negb (slot_first slot =? slot_second slot)
       then slot_boundaries r ++ [(slot_first slot, slot_second slot)] else slot_boundaries r) true
  else r.

Definition restorer_restore (r : slot_restorer) (cache : kv_cache) : res kv_cache :=
  if do_restore r then
    let cache := with_n (with_cells cache (old_head r) (kv_used cache) (kv_cells cache)) (old_n r) in
    if kv_recurrent cache then x ← llama_kv_cache_seq_rm cache (-1) (-1) (-1); Ok x.2
    else foldM (fun cache slot => x ← llama_kv_cache_seq_rm cache (-1) (fst slot) (snd slot); Ok x.2)
           cache (slot_boundaries r)
  else Ok cache.

(** * Views *)

(** [struct llama_kv_cache_view]; the two arrays are [None] before the first
    update. *)
Record kv_cache_view : Type := mk_view {
  v_n_cells            : Z;
  v_n_seq_max          : Z;
  v_token_count        : Z;
  v_used_cells         : Z;
  v_max_contiguous     : Z;
  v_max_contiguous_idx : Z;
  v_cells              : option (list Z);
  v_cells_sequences    : option (list (list Z))
}.

Definition llama_kv_cache_view_init (cache : kv_cache) (n_seq_max : Z) : kv_cache_view :=
  mk_view 0 n_seq_max 0 (llama_get_kv_cache_used_cells cache) 0 (-1) None None.

(** The counters of the loop of [llama_kv_cache_view_update]. *)
Record view_state : Type := mk_vstate {
  vs_used_cells      : Z;
  vs_token_count     : Z;
  vs_curr_contig_idx : Z;
  vs_max_contig      : Z;
  vs_max_contig_idx  : Z
}.

(** The sequence ids of a cell, cut or padded with -1 to [n_seq_max]. *)
Definition view_seqs (n_seq_max : Z) (S : gset Z) : list Z :=
  let ids := take (Z.to_nat n_seq_max) (merge_sort Z.le (elements S)) in
  ids ++ replicate (Z.to_nat n_seq_max - length ids) (-1).

(** One iteration: the counters, the view's position and its sequence ids. *)
Definition view_step (n_seq_max i : Z) (c : kv_cell) (st : view_state) : res (view_state * (Z * list Z)) :=
  let curr_size := Z.of_nat (size (c_seq_id c)) in
  p ← s32 (c_pos c + c_delta c);
  let '(mk_vstate used_cells token_count curr_contig_idx max_contig max_contig_idx) := st in
  let '(curr_contig_idx', (max_contig', max_contig_idx')) :=
    if 0 <? curr_size then
      (-1, if (0 <=? curr_contig_idx) && (max_contig <? i - curr_contig_idx)
           then (i - curr_contig_idx, curr_contig_idx) else (max_contig, max_contig_idx))
    else (if curr_contig_idx <? 0 then i else curr_contig_idx, (max_contig, max_contig_idx)) in
  Ok (mk_vstate (if (0 <? curr_size) && (0 <? n_seq_max) then used_cells + 1 else used_cells)
        (token_count + curr_size) curr_contig_idx' max_contig' max_contig_idx',
      (p, view_seqs n_seq_max (c_seq_id c))).

Fixpoint view_loop (n_seq_max i : Z) (cells : list kv_cell) (st : view_state)
    : res (view_state * (list Z * list (list Z))) :=
  match cells with
  | [] => Ok (st, ([], []))
  | c :: cells =>
      r ← view_step n_seq_max i c st;
      rest ← view_loop n_seq_max (i + 1) cells r.1;
      Ok (rest.1, (r.2.1 :: rest.2.1, r.2.2 :: rest.2.2))
  end.

(** [llama_kv_cache_view_update]; the part of the arrays beyond [size] keeps its
    contents. *)
Definition llama_kv_cache_view_update (view : kv_cache_view) (cache : kv_cache) : res kv_cache_view :=
  let size := kv_size cache in
  let n_cells := if (u32 (v_n_cells view) <? size) || bool_decide (v_cells view = None)
                 then i32 size else v_n_cells view in
  r ← view_loop (v_n_seq_max view) 0 (kv_cells cache) (mk_vstate 0 0 (-1) 0 (-1));
  let '(st, (poss, seqs)) := r : view_state * (list Z * list (list Z)) in
  let '(max_contig, max_contig_idx) :=
    if (0 <=? vs_curr_contig_idx st) && (vs_max_contig st <? size - vs_curr_contig_idx st)
    then (size - vs_curr_contig_idx st, vs_curr_contig_idx st)
    else (vs_max_contig st, vs_max_contig_idx st) in
  let keep {A} (old : option (list A)) (new : list A) : option (list A) :=
    Some (new ++ drop (length new) (default [] old)) in
  Ok (mk_view n_cells (v_n_seq_max view) (vs_token_count st) (vs_used_cells st) max_contig max_contig_idx
        (keep (v_cells view) poss) (keep (v_cells_sequences view) seqs)).

(** * The abstract cache *)

(** What a cell of an attention cache stands for: nothing, or a position with
    the sequences that own it. *)
Abbreviation slot := (option (Z * gset Z)).

Definition cell_slot (c : kv_cell) : slot := if is_empty c then None else Some (c_pos c, c_seq_id c).
Definition slots (cache : kv_cache) : list slot := cell_slot <$> kv_cells cache.

(** A position without owner is free. *)
Definition owned (p : Z) (T : gset Z) : slot := if decide (T = ∅) then None else Some (p, T).

Definition in_range_pos (p0 p1 p : Z) : bool := (range_lo p0 <=? p) && (p <? range_hi p1).

Definition spec_rm (seq_id p0 p1 : Z) (s : slot) : slot :=
  match s with
  | Some (p, T) =>
      if in_range_pos p0 p1 p then (if seq_id <? 0 then None else owned p (T ∖ {[seq_id]})) else s
  | None => None
  end.

Definition spec_cp (src dst p0 p1 : Z) (s : slot) : slot :=
  match s with
  | Some (p, T) => if bool_decide (src ∈ T) && in_range_pos p0 p1 p then Some (p, T ∪ {[dst]}) else s
  | None => None
  end.

Definition spec_keep (seq_id : Z) (s : slot) : slot :=
  match s with
  | Some (p, T) => if bool_decide (seq_id ∈ T) then Some (p, {[seq_id]}) else None
  | None => None
  end.

(** A position that becomes negative is dropped. *)
Definition spec_add (seq_id p0 p1 delta : Z) (s : slot) : slot :=
  match s with
  | Some (p, T) =>
      if bool_decide (seq_id ∈ T) && in_range_pos p0 p1 p
      then (if p + delta <? 0 then None else Some (p + delta, T)) else s
  | None => None
  end.

Definition spec_div (seq_id p0 p1 d : Z) (s : slot) : slot :=
  match s with
  | Some (p, T) => if bool_decide (seq_id ∈ T) && in_range_pos p0 p1 p then Some (p / d, T) else s
  | None => None
  end.

(** The window of [n] free slots at [h]. *)
Definition free_window (l : list slot) (h n : Z) : Prop :=
  0 <= h /\ h + n <= zlen l /\ forall i, h <= i < h + n -> zlookup l i = Some None.

(** The slot of token [k] of a ubatch. *)
Definition token_slot (ub : llama_ubatch) (k : Z) : slot :=
  p ← zlookup (ub_pos ub) k;
  ids ← seqs_at (ub_n_seq_id ub) (ub_seq_id ub) (k `div` ub_n_seq_tokens ub);
  Some (p, list_to_set ids).

(** The tokens of the ubatch stored at [h]. *)
Definition stored (ub : llama_ubatch) (h : Z) (l k : list slot) : Prop :=
  zlen k = zlen l /\
  forall i, 0 <= i < zlen l ->
    zlookup k i = if bool_decide (h <= i < h + ub_n_tokens ub) then Some (token_slot ub (i - h)) else zlookup l i.

(** A cell is free, or has a position and an owner. *)
Definition cell_ok (c : kv_cell) : Prop :=
  (c_pos c = -1 /\ c_seq_id c = ∅) \/ (0 <= c_pos c <= INT32_MAX /\ c_seq_id c <> ∅).

(** A bound on the size that keeps the 32-bit counters of the search exact; such
    a cache would have more than [2^30] cells. *)
Definition KV_SIZE_MAX : Z := 1073741824.

(** The state of an attention cache. *)
Record kv_wf (cache : kv_cache) : Prop := {
  kw_attention : kv_recurrent cache = false;
  kw_cells     : Forall cell_ok (kv_cells cache);
  kw_used      : kv_used cache = count_used (kv_cells cache);
  kw_head      : 0 <= kv_head cache <= kv_size cache;
  kw_size      : kv_size cache <= KV_SIZE_MAX
}.

Record ub_valid (ub : llama_ubatch) : Prop := {
  uv_rect  : ub_n_tokens ub = ub_n_seq_tokens ub * ub_n_seqs ub;
  uv_sign  : 0 <= ub_n_seq_tokens ub /\ 0 <= ub_n_seqs ub;
  uv_small : ub_n_tokens ub <= INT32_MAX;
  uv_pos   : forall t, 0 <= t < ub_n_tokens ub ->
               exists p, zlookup (ub_pos ub) t = Some p /\ 0 <= p <= INT32_MAX;
  uv_seqs  : forall s, 0 <= s < ub_n_seqs ub ->
               exists n l, zlookup (ub_n_seq_id ub) s = Some n /\ zlookup (ub_seq_id ub) s = Some l /\
                 0 < n <= zlen l
}.

(** * Counting *)

Lemma count_used_nil : count_used [] = 0.
Proof. reflexivity. Qed.

Lemma count_used_cons c cells :
  count_used (c :: cells) = (if is_empty c then 0 else 1) + count_used cells.
Proof.
  unfold count_used, is_empty. rewrite filter_cons. case_decide; case_bool_decide; try done.
  rewrite zlen_cons. lia.
Qed.

Lemma count_used_app l k : count_used (l ++ k) = count_used l + count_used k.
Proof. unfold count_used. by rewrite filter_app, zlen_app. Qed.

Lemma count_used_range cells : 0 <= count_used cells <= zlen cells.
Proof.
  induction cells as [|c cells IH]; [done|]. rewrite count_used_cons, zlen_cons. case_match; lia.
Qed.

Lemma is_empty_true c : is_empty c = true <-> c_seq_id c = ∅.
Proof. unfold is_empty. by rewrite bool_decide_eq_true. Qed.

Lemma is_empty_false c : is_empty c = false <-> c_seq_id c <> ∅.
Proof. unfold is_empty. by rewrite bool_decide_eq_false. Qed.

(** A cell that is in use is one with a position. *)
Lemma cell_ok_pos c : cell_ok c -> (0 <=? c_pos c) = negb (is_empty c).
Proof.
  intros [[H1 H2]|[H1 H2]].
  - rewrite H1. symmetry. apply negb_false_iff. by apply is_empty_true.
  - destruct (Z.leb_spec 0 (c_pos c)); [|lia]. symmetry. apply negb_true_iff. by apply is_empty_false.
Qed.

Lemma cell_slot_None c : cell_ok c -> cell_slot c = None <-> c_pos c < 0.
Proof.
  unfold cell_slot. intros Hc. pose proof (cell_ok_pos c Hc) as H.
  destruct (is_empty c); destruct (Z.leb_spec 0 (c_pos c)); cbn in H; try done; split; (done || lia).
Qed.

Section each_cell_rule.
Context {A : Type} (f : Z -> kv_cell -> A -> res (kv_cell * A)).

(** The rule of the loop over the cells: the invariant relates the cells
    visited, their new contents and the accumulator. *)
Lemma each_cell_post cells a (I : list kv_cell -> list kv_cell -> A -> Prop) E :
  I [] [] a ->
  (forall old c rest new b, cells = old ++ c :: rest -> I old new b ->
     post (f (zlen old) c b) (fun r => I (old ++ [c]) (new ++ [r.1]) r.2) E) ->
  post (each_cell f 0 cells a) (fun r => I cells r.1 r.2) E.
Proof.
  intros H0 Hstep.
  assert (H : forall k old new b, cells = old ++ k -> I old new b ->
    post (each_cell f (zlen old) k b) (fun r => I cells (new ++ r.1) r.2) E).
  { induction k as [|c k IH]; intros old new b Hc HI; cbn [each_cell].
    - cbn. rewrite app_nil_r in *. by subst.
    - eapply post_bind; [by apply (Hstep old c k new b)|]. intros r Hr.
      specialize (IH (old ++ [c]) (new ++ [r.1]) r.2). rewrite zlen_app in IH.
      replace (zlen [c]) with 1 in IH by reflexivity.
      eapply post_bind; [apply IH; [by rewrite <- app_assoc|done]|].
      intros r' Hr'. cbn beta in Hr'. cbn. by rewrite <- app_assoc in Hr'. }
  apply (H cells [] [] a); done.
Qed.
End each_cell_rule.

(** What the loops that free cells maintain: every cell is well formed and
    stands for its specified slot, [used] is the number of cells in use if the
    rest is unchanged, and [new_head] is a visited cell or [size]. *)
Record cells_inv (spec : slot -> slot) (cells old new : list kv_cell) (used new_head : Z) : Prop := {
  ci_ok    : Forall cell_ok new;
  ci_slots : cell_slot <$> new = spec <$> (cell_slot <$> old);
  ci_used  : used = count_used cells - count_used old + count_used new;
  ci_head  : new_head = zlen cells \/ 0 <= new_head < zlen old
}.

Lemma cells_inv_nil spec cells : cells_inv spec cells [] [] (count_used cells) (zlen cells).
Proof. split; [constructor|done|rewrite count_used_nil; lia|by left]. Qed.

(** A cell that stays in use, or stays free. *)
Lemma cells_inv_keep spec cells old new used nh c c' :
  cells_inv spec cells old new used nh -> cell_ok c' -> is_empty c' = is_empty c ->
  cell_slot c' = spec (cell_slot c) ->
  cells_inv spec cells (old ++ [c]) (new ++ [c']) used nh.
Proof.
  intros [H1 H2 H3 H4] Hok He Hs. split.
  - apply Forall_app. split; [done|]. by apply Forall_singleton.
  - rewrite !fmap_app, H2. cbn. by rewrite Hs.
  - rewrite !count_used_app, !count_used_cons, !count_used_nil, He. lia.
  - rewrite zlen_app. replace (zlen [c]) with 1 by reflexivity. lia.
Qed.

(** A cell that is freed. *)
Lemma cells_inv_free spec cells old rest new used nh c c' :
  cells = old ++ c :: rest -> zlen cells <= KV_SIZE_MAX ->
  cells_inv spec cells old new used nh -> cell_ok c -> cell_ok c' -> is_empty c' = true ->
  spec (cell_slot c) = None ->
  cells_inv spec cells (old ++ [c]) (new ++ [c'])
    (if 0 <=? c_pos c then u32 (used - 1) else used) (first_freed (zlen cells) nh (zlen old)).
Proof.
  intros Hcells Hsz [H1 H2 H3 H4] Hok Hok' He Hs. rewrite (cell_ok_pos c Hok). split.
  - apply Forall_app. split; [done|]. by apply Forall_singleton.
  - rewrite !fmap_app, H2. cbn. rewrite Hs. unfold cell_slot. by rewrite He.
  - rewrite !count_used_app, !count_used_cons, !count_used_nil, He.
    pose proof (count_used_range new). pose proof (count_used_range rest). pose proof (count_used_range cells).
    assert (Hcnt : count_used cells = count_used old + ((if is_empty c then 0 else 1) + count_used rest)).
    { rewrite Hcells. by rewrite count_used_app, count_used_cons. }
    assert (Hl : zlen cells = zlen old + (zlen rest + 1)) by (rewrite Hcells; by rewrite zlen_app, zlen_cons).
    assert (Hn : zlen new = zlen old).
    { unfold zlen. f_equal. apply (f_equal length) in H2. by rewrite !length_fmap in H2. }
    unfold KV_SIZE_MAX in Hsz. pose proof (count_used_range old).
    destruct (is_empty c); cbn [negb]; [lia|]. rewrite u32_small by lia. lia.
  - rewrite zlen_app. replace (zlen [c]) with 1 by reflexivity. unfold first_freed.
    pose proof (zlen_nonneg old). destruct (Z.eqb_spec nh (zlen cells)); lia.
Qed.

(** * The sequence operations *)

Lemma lower_head_range size nh head :
  0 <= head <= size -> nh = size \/ 0 <= nh < size -> 0 <= lower_head size nh head <= size.
Proof.
  unfold lower_head. intros Hh Hn. destruct (Z.eqb_spec nh size), (Z.ltb_spec nh head); cbn; lia.
Qed.

(** The result of a loop that keeps [cells_inv]. *)
Lemma cells_inv_done spec cache cache' cells used nh :
  kv_wf cache -> cells_inv spec (kv_cells cache) (kv_cells cache) cells used nh ->
  kv_cells cache' = cells -> kv_used cache' = used -> kv_recurrent cache' = false ->
  0 <= kv_head cache' <= kv_size cache ->
  kv_wf cache' /\ slots cache' = spec <$> slots cache.
Proof.
  intros Hwf [H1 H2 H3 H4] Hc Hu Hr Hh.
  assert (Hl : zlen cells = kv_size cache).
  { unfold kv_size, zlen. f_equal. apply (f_equal length) in H2. by rewrite !length_fmap in H2. }
  split.
  - split; unfold kv_size in *; rewrite ?Hc, ?Hu, ?Hl; [done|done|lia|lia|apply (kw_size _ Hwf)].
  - unfold slots. by rewrite Hc, H2.
Qed.

Lemma cell_ok_slot c : cell_ok c ->
  (cell_slot c = None /\ c_pos c = -1 /\ c_seq_id c = ∅ /\ is_empty c = true) \/
  (cell_slot c = Some (c_pos c, c_seq_id c) /\ 0 <= c_pos c <= INT32_MAX /\ c_seq_id c <> ∅ /\ is_empty c = false).
Proof.
  unfold cell_slot. intros [[H1 H2]|[H1 H2]]; [left|right].
  - pose proof (proj2 (is_empty_true c) H2) as E. by rewrite E.
  - pose proof (proj2 (is_empty_false c) H2) as E. by rewrite E.
Qed.

Lemma range_lo_nonneg p : 0 <= range_lo p.
Proof. unfold range_lo. destruct (Z.ltb_spec p 0); lia. Qed.

Lemma clear_spec cache :
  kv_wf cache -> kv_wf (llama_kv_cache_clear cache) /\
  slots (llama_kv_cache_clear cache) = (fun _ => None) <$> slots cache.
Proof.
  intros [H1 H2 H3 H4 H5]. unfold llama_kv_cache_clear, slots, kv_size in *. cbn. split.
  - split; unfold kv_size; cbn; try done.
    + apply Forall_fmap, Forall_true. intros c. by left.
    + clear. induction (kv_cells cache) as [|c l IH]; [done|]. cbn [fmap list_fmap]. rewrite count_used_cons, <- IH. done.
    + split; [lia|]. apply zlen_nonneg.
    + unfold zlen in *. by rewrite length_fmap.
  - rewrite <- !list_fmap_compose. apply list_fmap_ext. intros ? c _. done.
Qed.

Lemma seq_rm_spec cache seq_id p0 p1 :
  kv_wf cache ->
  safe (llama_kv_cache_seq_rm cache seq_id p0 p1) (fun r =>
    r.1 = true /\ kv_wf r.2 /\ slots r.2 = spec_rm seq_id p0 p1 <$> slots cache).
Proof.
  intros Hwf. pose proof Hwf as [Hrec Hcells Hused Hhead Hsize]. unfold llama_kv_cache_seq_rm. rewrite Hrec.
  cbn [mbind res_bind]. rewrite Hused.
  eapply post_bind; [apply (each_cell_post _ (kv_cells cache) _
    (fun old new a => cells_inv (spec_rm seq_id p0 p1) (kv_cells cache) old new a.1 a.2))|].
  - apply cells_inv_nil.
  - intros old c rest new [used nh] Hc Hinv. cbn [fst snd] in *.
    assert (Hok : cell_ok c).
    { rewrite Hc in Hcells. apply Forall_app in Hcells as [_ Hcells]. by apply Forall_cons in Hcells as [? _]. }
    unfold seq_rm_cell; cbv zeta.
    assert (Hrng : in_pos_range (range_lo p0) (range_hi p1) c = in_range_pos p0 p1 (c_pos c)) by done.
    rewrite Hrng. destruct (cell_ok_slot c Hok) as [(Hs & Hp & He & Hem)|(Hs & Hp & He & Hem)].
    + assert (in_range_pos p0 p1 (c_pos c) = false) as ->.
      { unfold in_range_pos. pose proof (range_lo_nonneg p0). destruct (Z.leb_spec (range_lo p0) (c_pos c)); [lia|done]. }
      cbn [post fst snd]. apply cells_inv_keep; [done|done|done|by rewrite Hs].
    + destruct (in_range_pos p0 p1 (c_pos c)) eqn:Er.
      2:{ cbn [post fst snd]. apply cells_inv_keep; try done. rewrite Hs. cbn. by rewrite Er. }
      destruct (Z.ltb_spec seq_id 0) as [Hneg|Hneg]; cbn [negb andb].
      * match goal with |- context [is_empty ?x] => rewrite (proj2 (is_empty_true x) eq_refl) end. cbn [post fst snd set_seqs c_pos].
        apply (cells_inv_free _ _ _ rest); try done; try (by apply is_empty_true); try by left.
        rewrite Hs. cbn. rewrite Er. destruct (Z.ltb_spec seq_id 0); [done|lia].
      * assert (Hsp : spec_rm seq_id p0 p1 (cell_slot c) = owned (c_pos c) (c_seq_id c ∖ {[seq_id]})).
        { rewrite Hs. cbn. rewrite Er. destruct (Z.ltb_spec seq_id 0); [lia|done]. }
        unfold has_seq_id. case_bool_decide as Hin; cbn [negb].
        -- destruct (is_empty (set_seqs (c_seq_id c ∖ {[seq_id]}) c)) eqn:Ee; cbn [post fst snd set_seqs c_pos].
           ++ apply is_empty_true in Ee. cbn in Ee.
              apply (cells_inv_free _ _ _ rest); try done; try (by apply is_empty_true); try by left.
              rewrite Hsp. unfold owned. by rewrite decide_True.
           ++ pose proof (proj1 (is_empty_false _) Ee) as Ee'. cbn in Ee'.
              apply cells_inv_keep; [done|by right|by rewrite Ee|].
              rewrite Hsp. unfold owned. rewrite decide_False by done. unfold cell_slot. by rewrite Ee.
        -- cbn [post fst snd]. apply cells_inv_keep; try done. rewrite Hsp.
           replace (c_seq_id c ∖ {[seq_id]}) with (c_seq_id c) by set_solver.
           unfold owned. rewrite decide_False by done. done.
  - intros [cells [used nh]] Hinv. cbn [fst snd post] in *. split; [done|].
    apply (cells_inv_done _ cache _ cells used nh); try done.
    apply lower_head_range; [done|]. apply (ci_head _ _ _ _ _ _ Hinv).
Qed.

Lemma seq_keep_spec cache seq_id :
  kv_wf cache ->
  safe (llama_kv_cache_seq_keep cache seq_id) (fun r =>
    kv_wf r /\ slots r = spec_keep seq_id <$> slots cache).
Proof.
  intros Hwf. pose proof Hwf as [Hrec Hcells Hused Hhead Hsize]. unfold llama_kv_cache_seq_keep. rewrite Hrec, Hused.
  eapply post_bind; [apply (each_cell_post _ (kv_cells cache) _
    (fun old new a => cells_inv (spec_keep seq_id) (kv_cells cache) old new a.1 a.2))|].
  - apply cells_inv_nil.
  - intros old c rest new [used nh] Hc Hinv. cbn [fst snd] in *.
    assert (Hok : cell_ok c).
    { rewrite Hc in Hcells. apply Forall_app in Hcells as [_ Hcells]. by apply Forall_cons in Hcells as [? _]. }
    unfold seq_keep_cell; cbv zeta; cbn [andb]. unfold has_seq_id.
    assert (Hsp : spec_keep seq_id (cell_slot c) =
      if bool_decide (seq_id ∈ c_seq_id c) then Some (c_pos c, {[seq_id]}) else None).
    { destruct (cell_ok_slot c Hok) as [(-> & _ & -> & _)|(-> & _ & _ & _)]; cbn; [|done].
      by rewrite bool_decide_eq_false_2 by set_solver. }
    case_bool_decide as Hin; cbn [post fst snd].
    + assert (Hne : c_seq_id c <> ∅) by set_solver.
      assert (Hne' : is_empty (set_seqs {[seq_id]} c) = false) by (apply is_empty_false; cbn; set_solver).
      apply cells_inv_keep; [done| | |].
      * right. cbn. split; [|set_solver]. destruct Hok as [[? ?]|[? ?]]; [done|done].
      * rewrite Hne'. symmetry. by apply is_empty_false.
      * rewrite Hsp. unfold cell_slot. by rewrite Hne'.
    + apply (cells_inv_free _ _ _ rest); try done; try (by apply is_empty_true); try by left.
  - intros [cells [used nh]] Hinv. cbn [fst snd post] in *.
    apply (cells_inv_done _ cache _ cells used nh); try done.
    apply lower_head_range; [done|]. apply (ci_head _ _ _ _ _ _ Hinv).
Qed.

Lemma seq_cp_spec cache src dst p0 p1 :
  kv_wf cache ->
  safe (llama_kv_cache_seq_cp cache src dst p0 p1) (fun r =>
    kv_wf r /\ slots r = spec_cp src dst p0 p1 <$> slots cache).
Proof.
  intros [Hrec Hcells Hused Hhead Hsize]. unfold llama_kv_cache_seq_cp. rewrite Hrec. cbn [post].
  set (f := fun c : kv_cell => _).
  assert (Hf : forall c, cell_ok c -> cell_ok (f c) /\ is_empty (f c) = is_empty c /\
            cell_slot (f c) = spec_cp src dst p0 p1 (cell_slot c)).
  { intros c Hok. unfold f, has_seq_id. destruct (cell_ok_slot c Hok) as [(Hs & Hp & He & Hem)|(Hs & Hp & He & Hem)].
    - rewrite (bool_decide_eq_false_2 (src ∈ c_seq_id c)) by (rewrite He; set_solver). cbn [andb]. by rewrite Hs.
    - rewrite Hs. cbn [spec_cp]. unfold in_range_pos.
      destruct (bool_decide (src ∈ c_seq_id c) && in_pos_range (range_lo p0) (range_hi p1) c) eqn:E;
        unfold in_pos_range in E; rewrite E; [|done].
      assert (Hne : is_empty (set_seqs (c_seq_id c ∪ {[dst]}) c) = false) by (apply is_empty_false; cbn; set_solver).
      splits; [right; cbn; split; [done|set_solver]|by rewrite Hne|]. unfold cell_slot. by rewrite Hne. }
  split.
  - split; unfold kv_size in *; cbn; try done.
    + apply Forall_fmap. eapply Forall_impl; [exact Hcells|]. intros c Hc. by apply Hf.
    + rewrite Hused. clear Hsize Hhead Hused. induction Hcells as [|c l Hc Hl IH]; [done|].
      cbn [fmap list_fmap]. rewrite !count_used_cons, <- IH. destruct (Hf c Hc) as (_ & -> & _). done.
    + split; [lia|]. apply zlen_nonneg.
    + unfold zlen in *. by rewrite length_fmap.
  - unfold slots. cbn. rewrite <- !list_fmap_compose. apply list_fmap_ext.
    intros i c Hi. cbn. apply Hf. rewrite Forall_forall in Hcells. by eapply Hcells, list_elem_of_lookup_2.
Qed.

(** Signed overflow of a position. *)
Lemma s32_range x : post (s32 x) (fun p => p = x /\ INT32_MIN <= x <= INT32_MAX) (eq UB).
Proof.
  unfold s32. destruct (Z.leb_spec INT32_MIN x), (Z.leb_spec x INT32_MAX); cbn; done || lia.
Qed.

Lemma seq_add_spec cache seq_id p0 p1 delta :
  kv_wf cache ->
  post (llama_kv_cache_seq_add cache seq_id p0 p1 delta)
    (fun r => kv_wf r /\ slots r = (if range_lo p0 =? range_hi p1 then id else fmap (spec_add seq_id p0 p1 delta)) (slots cache))
    (eq UB).
Proof.
  intros Hwf. pose proof Hwf as [Hrec Hcells Hused Hhead Hsize]. unfold llama_kv_cache_seq_add. rewrite Hrec.
  destruct (range_lo p0 =? range_hi p1); [done|]. rewrite Hused.
  eapply post_bind; [apply (each_cell_post _ (kv_cells cache) _
    (fun old new a => cells_inv (spec_add seq_id p0 p1 delta) (kv_cells cache) old new a.1.2 a.2))|].
  - apply cells_inv_nil.
  - intros old c rest new [[hs used] nh] Hc Hinv. cbn [fst snd] in *.
    assert (Hok : cell_ok c).
    { rewrite Hc in Hcells. apply Forall_app in Hcells as [_ Hcells]. by apply Forall_cons in Hcells as [? _]. }
    unfold seq_add_cell, has_seq_id; cbv zeta.
    destruct (cell_ok_slot c Hok) as [(Hs & Hp & He & Hem)|(Hs & Hp & He & Hem)].
    + rewrite (bool_decide_eq_false_2 (seq_id ∈ c_seq_id c)) by (rewrite He; set_solver). cbn [andb post fst snd].
      apply cells_inv_keep; [done|done|done|by rewrite Hs].
    + assert (Hsp : spec_add seq_id p0 p1 delta (cell_slot c) =
        if bool_decide (seq_id ∈ c_seq_id c) && in_pos_range (range_lo p0) (range_hi p1) c
        then (if c_pos c + delta <? 0 then None else Some (c_pos c + delta, c_seq_id c)) else cell_slot c).
      { rewrite Hs. done. }
      destruct (_ && _).
      2:{ cbn [post fst snd]. by apply cells_inv_keep. }
      eapply post_bind; [apply s32_range|]. intros p [-> Hpr].
      eapply post_bind; [apply s32_range|]. intros d [-> Hdr]. cbn [set_delta set_pos c_pos].
      destruct (Z.ltb_spec (c_pos c + delta) 0) as [Hn|Hn]; cbn [post fst snd].
      * match goal with |- context [is_empty ?x] => rewrite (proj2 (is_empty_false x) He) end.
        pose proof (cells_inv_free (spec_add seq_id p0 p1 delta) (kv_cells cache) old rest new used nh c
          (mk_cell (-1) (c_delta c + delta) (c_src c) (c_tail c) ∅) Hc Hsize Hinv Hok) as G.
        rewrite (cell_ok_pos c Hok), Hem in G. cbn [negb] in G.
        apply G; [by left|by apply is_empty_true|by rewrite Hsp].
      * unfold INT32_MAX in *. apply cells_inv_keep; [done|right; cbn; split; [unfold INT32_MAX; lia|done]| |].
        -- rewrite Hem. by apply is_empty_false.
        -- rewrite Hsp. unfold cell_slot.
           match goal with |- context [is_empty ?x] => rewrite (proj2 (is_empty_false x) He) end. done.
  - intros [cells [[hs used] nh]] Hinv. cbn [fst snd post] in *.
    pose proof (ci_head _ _ _ _ _ _ Hinv) as Hnh. pose proof (zlen_nonneg (kv_cells cache)).
    apply (cells_inv_done _ cache _ cells used nh); try done. cbn. unfold kv_size in *.
    destruct (Z.eqb_spec nh (zlen (kv_cells cache))); cbn; lia.
Qed.

Lemma seq_div_spec cache seq_id p0 p1 d :
  kv_wf cache -> 0 < d ->
  post (llama_kv_cache_seq_div cache seq_id p0 p1 d)
    (fun r => kv_wf r /\ slots r = (if range_lo p0 =? range_hi p1 then id else fmap (spec_div seq_id p0 p1 d)) (slots cache))
    (eq UB).
Proof.
  intros Hwf Hd. pose proof Hwf as [Hrec Hcells Hused Hhead Hsize]. unfold llama_kv_cache_seq_div. rewrite Hrec.
  destruct (range_lo p0 =? range_hi p1); [done|].
  eapply post_bind; [apply (each_cell_post _ (kv_cells cache) _
    (fun old new a => cells_inv (spec_div seq_id p0 p1 d) (kv_cells cache) old new (kv_used cache) (kv_size cache)))|].
  - rewrite Hused. apply cells_inv_nil.
  - intros old c rest new hs Hc Hinv.
    assert (Hok : cell_ok c).
    { rewrite Hc in Hcells. apply Forall_app in Hcells as [_ Hcells]. by apply Forall_cons in Hcells as [? _]. }
    unfold seq_div_cell, has_seq_id.
    destruct (cell_ok_slot c Hok) as [(Hs & Hp & He & Hem)|(Hs & Hp & He & Hem)].
    + rewrite (bool_decide_eq_false_2 (seq_id ∈ c_seq_id c)) by (rewrite He; set_solver). cbn [andb post fst snd].
      apply cells_inv_keep; [done|done|done|by rewrite Hs].
    + assert (Hsp : spec_div seq_id p0 p1 d (cell_slot c) =
        if bool_decide (seq_id ∈ c_seq_id c) && in_pos_range (range_lo p0) (range_hi p1) c
        then Some (c_pos c / d, c_seq_id c) else cell_slot c) by (rewrite Hs; done).
      destruct (_ && _).
      2:{ cbn [post fst snd]. by apply cells_inv_keep. }
      unfold int_div. destruct (Z.eqb_spec d 0); [lia|]. rewrite Z.quot_div_nonneg by lia.
      eapply post_bind; [apply s32_range|]. intros p [-> _].
      eapply post_bind; [apply s32_range|]. intros dl [-> _]. cbn [post fst snd].
      assert (0 <= c_pos c / d <= INT32_MAX).
      { split; [apply Z.div_pos; lia|]. transitivity (c_pos c); [apply Z.div_le_upper_bound; nia|lia]. }
      apply cells_inv_keep; [done|by right| |].
      * rewrite Hem. by apply is_empty_false.
      * rewrite Hsp. unfold cell_slot.
        match goal with |- context [is_empty ?x] => rewrite (proj2 (is_empty_false x) He) end. done.
  - intros [cells hs] Hinv. cbn [fst snd post] in *.
    apply (cells_inv_done _ cache _ cells (kv_used cache) (kv_size cache)); done.
Qed.

(** * Finding a slot *)

(** The scan stops at the first cell in use. *)
Lemma first_used_spec cells head n i :
  0 <= head -> 0 <= i -> head + i + Z.of_nat n <= zlen cells ->
  safe (first_used n i cells head) (fun r =>
    match r with
    | None => forall j, i <= j < i + Z.of_nat n -> exists c, zlookup cells (head + j) = Some c /\ c_pos c < 0
    | Some k => i <= k < i + Z.of_nat n /\ exists c, zlookup cells (head + k) = Some c /\ 0 <= c_pos c
    end).
Proof.
  revert i. induction n as [|n IH]; intros i Hh Hi Hle; cbn [first_used].
  - cbn. intros j Hj. lia.
  - destruct (zlookup_lt cells (head + i)) as [c Hc]; [lia|]. rewrite (vget_Some _ _ _ Hc). cbn [mbind res_bind].
    destruct (Z.leb_spec 0 (c_pos c)) as [Hp|Hp].
    + cbn. split; [lia|]. by exists c.
    + eapply post_mono; [apply (IH (i + 1)); lia| |done]. intros [k|].
      * intros [Hk Hc']. split; [lia|done].
      * intros Hall j Hj. destruct (decide (j = i)) as [->|]; [by exists c|]. apply Hall. lia.
Qed.

Section search.
Context (cells : list kv_cell) (n : Z).
Context (Hok : Forall cell_ok cells) (Hn : 0 <= n <= zlen cells) (Hsize : zlen cells <= KV_SIZE_MAX).

#[local] Abbreviation l := (cell_slot <$> cells).

(** No window starts in [[a, b)]. *)
Definition no_window (a b : Z) : Prop := forall h, a <= h < b -> ~ free_window l h n.

Lemma slot_of_cell i c : zlookup cells i = Some c -> zlookup l i = Some (cell_slot c) /\ cell_ok c.
Proof using Hok.
  unfold zlookup. destruct (0 <=? i); [|done]. intros H. rewrite list_lookup_fmap, H. split; [done|].
  rewrite Forall_forall in Hok. by eapply Hok, list_elem_of_lookup_2.
Qed.

Lemma used_blocks head i c :
  0 <= i < n -> zlookup cells (head + i) = Some c -> 0 <= c_pos c -> no_window head (head + (i + 1)).
Proof using Hok.
  intros Hi Hc Hp h Hh (_ & _ & Hw). destruct (slot_of_cell _ _ Hc) as [Hs Hcok].
  rewrite Hw in Hs by lia. injection Hs as Hs. symmetry in Hs. apply cell_slot_None in Hs; [lia|done].
Qed.

(** Where the search that began at [h0] stands: on its way to the end, on its
    second way from the start, or past the point where nothing can be found. *)
Definition search_inv (h0 : Z) (st : Z * Z) : Prop :=
  let '(head, n_tested) := st in
  0 <= head <= zlen cells /\ 0 <= n_tested <= 2 * zlen cells /\
  ((h0 <= head /\ n_tested = head - h0 /\ no_window h0 head) \/
   (n_tested = zlen cells - h0 + head /\ no_window h0 (zlen cells + 1) /\ no_window 0 head) \/
   (head = 0 /\ zlen cells <= n_tested /\ no_window 0 (zlen cells + 1))).

Definition search_measure (st : Z * Z) : nat :=
  (2 * Z.to_nat (zlen cells - snd st) + (if (zlen cells <? fst st + n)%Z then 1 else 0))%nat.

Lemma no_window_end head b : zlen cells < head + n -> no_window head b.
Proof. intros Hlt h Hh (_ & Hle & _). unfold zlen in *. rewrite length_fmap in Hle. lia. Qed.

Lemma no_window_join a b c : no_window a b -> no_window b c -> no_window a c.
Proof. intros H1 H2 h Hh. destruct (Z.lt_ge_cases h b); [apply H1; lia|apply H2; lia]. Qed.

Lemma search_spec h0 :
  0 <= h0 <= zlen cells ->
  safe (while (search_step cells n) (search_fuel cells) (h0, 0)) (fun r =>
    0 <= r.1 <= zlen cells /\
    if r.2 : bool then free_window l r.1 n else forall h, ~ free_window l h n).
Proof using Hok Hn Hsize.
  intros Hh0. unfold KV_SIZE_MAX in Hsize.
  apply (while_post (search_step cells n) (search_inv h0) search_measure).
  - split; [lia|]. split; [lia|]. left. split; [lia|]. split; [lia|]. intros h Hh. lia.
  - unfold search_measure, search_fuel. cbn [fst snd]. unfold zlen in *. case_match; lia.
  - intros [head nt] (Hhead & Hnt & Hinv). unfold search_step. rewrite (u32_small (head + n)) by lia.
    destruct (Z.ltb_spec (zlen cells) (head + n)) as [Hw|Hw].
    + cbn [post]. rewrite u32_small by (unfold zlen in *; lia).
      pose proof (no_window_end head (zlen cells + 1) Hw) as He.
      assert (Hm : (search_measure (0%Z, (nt + (zlen cells - head))%Z) < search_measure (head, nt))%nat).
      { unfold search_measure. cbn [fst snd]. destruct (Z.ltb_spec (zlen cells) (head + n)); [|lia].
        destruct (Z.ltb_spec (zlen cells) (0 + n)); lia. }
      split; [|done]. destruct Hinv as [(H1 & H2 & H3)|[(H1 & H2 & H3)|(H1 & _)]]; [| |lia].
      * split; [lia|]. split; [lia|]. right. left. split; [lia|].
        split; [by apply (no_window_join _ head)|]. intros h Hh. lia.
      * destruct (Z.lt_ge_cases head h0) as [Hlt|Hge].
        -- split; [lia|]. split; [lia|]. right. right. split; [done|]. split; [lia|].
           by apply (no_window_join _ head).
        -- split; [lia|]. split; [lia|]. right. right. split; [done|]. split; [lia|].
           by apply (no_window_join _ head).
    + pose proof (first_used_spec cells head (Z.to_nat n) 0 ltac:(lia) ltac:(lia) ltac:(lia)) as Hf.
      eapply post_bind; [exact Hf|]. clear Hf. intros [i|] Hi; cbn [post].
      * destruct Hi as [Hi (c & Hc & Hp)]. pose proof (used_blocks head i c ltac:(lia) Hc Hp) as Hb.
        pose proof (zlookup_Some_lt _ _ _ Hc).
        rewrite (u32_small (head + (i + 1))) by lia. rewrite (u32_small (nt + (i + 1))) by lia.
        destruct (Z.leb_spec (zlen cells) (nt + (i + 1))) as [Hstop|Hgo]; cbn [post fst snd].
        -- split; [lia|]. intros h Hfw. pose proof Hfw as (Hh1 & Hh2 & _).
           assert (h <= zlen cells) by (unfold zlen in *; rewrite length_fmap in Hh2; lia).
           destruct Hinv as [(H1 & H2 & H3)|[(H1 & H2 & H3)|(_ & _ & H3)]].
           ++ revert Hfw. assert (h0 = 0) as -> by lia.
              apply (no_window_join 0 head (zlen cells + 1)); [done| |lia].
              apply (no_window_join head (head + (i + 1))); [done|]. intros h' Hh' (_ & Hle & _). 
              unfold zlen in *. rewrite length_fmap in Hle. lia.
           ++ destruct (Z.lt_ge_cases h h0) as [Hlt|Hge]; [|by apply (H2 h); [lia|]].
              revert Hfw. apply (no_window_join 0 head (head + (i + 1))); [done|done|lia].
           ++ by apply (H3 h); [lia|].
        -- split.
           ++ split; [lia|]. split; [lia|]. destruct Hinv as [(H1 & H2 & H3)|[(H1 & H2 & H3)|(H1 & H2 & _)]]; [| |lia].
              ** left. split; [lia|]. split; [lia|]. by apply (no_window_join _ head).
              ** right. left. split; [lia|]. split; [done|]. by apply (no_window_join _ head).
           ++ unfold search_measure. cbn [fst snd]. repeat case_match; lia.
      * cbn [fst snd]. split; [lia|]. split; [lia|]. split; [unfold zlen in *; rewrite length_fmap; lia|].
        intros j Hj. destruct (Hi (j - head)) as (c & Hc & Hp); [lia|].
        replace (head + (j - head)) with j in Hc by lia. destruct (slot_of_cell _ _ Hc) as [-> Hcok].
        f_equal. by apply cell_slot_None.
Qed.
End search.

(** ** Filling the slot *)

(** The ids of the sequence that token [k] belongs to. *)
Definition token_ids (ub : llama_ubatch) (k : Z) : gset Z :=
  list_to_set (default [] (seqs_at (ub_n_seq_id ub) (ub_seq_id ub) (k `div` ub_n_seq_tokens ub))).

Definition token_pos_of (ub : llama_ubatch) (k : Z) : Z := default 0 (zlookup (ub_pos ub) k).

Definition fill_cell (ub : llama_ubatch) (k : Z) (c : kv_cell) : kv_cell :=
  set_seqs (c_seq_id c ∪ token_ids ub k) (set_pos (token_pos_of ub k) c).

(** The cells when the first [k] tokens have been stored at [head]. *)
Definition filled (ub : llama_ubatch) (head k : Z) (cells cells' : list kv_cell) : Prop :=
  zlen cells' = zlen cells /\
  forall i c, zlookup cells i = Some c ->
    zlookup cells' i = Some (if bool_decide (head <= i < head + k) then fill_cell ub (i - head) c else c).

Lemma upd_cell_ok cells i c f :
  zlookup cells i = Some c ->
  upd_cell cells i f = Ok (<[Z.to_nat i := f c]> cells).
Proof.
  intros H. unfold upd_cell. rewrite (vget_Some _ _ _ H). cbn [mbind res_bind].
  apply vset_ok. split; [by eapply zlookup_Some_lt|done].
Qed.

(** The loop over the sequence ids of a token. *)
Lemma insert_ids_spec ids n cells i c :
  0 <= n <= zlen ids -> zlookup cells i = Some c ->
  safe (for_z 0 n (fun j cells => id ← vget ids j;
          upd_cell cells i (fun c => set_seqs (c_seq_id c ∪ {[id]}) c)) cells)
    (fun cells' => cells' = <[Z.to_nat i := set_seqs (c_seq_id c ∪ list_to_set (take (Z.to_nat n) ids)) c]> cells).
Proof.
  intros Hn Hc. pose proof (zlookup_Some_lt _ _ _ Hc) as Hi.
  apply (for_z_post 0 n _ (fun j cells' =>
    cells' = <[Z.to_nat i := set_seqs (c_seq_id c ∪ list_to_set (take (Z.to_nat j) ids)) c]> cells)); [lia| |].
  - assert (set_seqs (c_seq_id c ∪ list_to_set (take (Z.to_nat 0) ids)) c = c) as ->.
    { change (list_to_set (take (Z.to_nat 0) ids)) with (∅ : gset Z).
      replace (c_seq_id c ∪ ∅) with (c_seq_id c) by set_solver. by destruct c. }
    symmetry. apply list_insert_id. unfold zlookup in Hc. by destruct (0 <=? i).
  - intros j cells' Hj ->. destruct (zlookup_lt ids j) as [id Hid]; [lia|].
    rewrite (vget_Some _ _ _ Hid). cbn [mbind res_bind].
    rewrite (upd_cell_ok _ i (set_seqs (c_seq_id c ∪ list_to_set (take (Z.to_nat j) ids)) c)).
    2:{ rewrite zlookup_insert by lia. by rewrite decide_True. }
    cbn [post]. rewrite list_insert_insert_eq. f_equal. cbn.
    replace (Z.to_nat (j + 1)) with (S (Z.to_nat j)) by lia.
    assert (ids !! Z.to_nat j = Some id) as Hl by (unfold zlookup in Hid; by destruct (0 <=? j)).
    rewrite (take_S_r _ _ _ Hl), list_to_set_app_L. cbn. unfold set_seqs. cbn. f_equal. set_solver.
Qed.

Lemma fill_slot_spec cells head ub :
  ub_valid ub -> 0 <= head -> head + ub_n_tokens ub <= zlen cells ->
  safe (fill_slot cells head ub) (filled ub head (ub_n_tokens ub) cells).
Proof.
  intros [Hrect [Hs1 Hs2] Hsmall Hpos Hseqs] Hh Hend. unfold fill_slot.
  assert (H0 : filled ub head 0 cells cells).
  { split; [done|]. intros i c Hc. rewrite bool_decide_eq_false_2 by lia. done. }
  rewrite Hrect in *. replace (ub_n_seq_tokens ub * ub_n_seqs ub) with (ub_n_seqs ub * ub_n_seq_tokens ub) by lia.
  apply (for_z_post 0 (ub_n_seqs ub) _ (fun s => filled ub head (s * ub_n_seq_tokens ub) cells)); [lia|done|].
  intros s cells1 Hs HF1. replace ((s + 1) * ub_n_seq_tokens ub) with (s * ub_n_seq_tokens ub + ub_n_seq_tokens ub) by lia.
  apply (for_z_post 0 (ub_n_seq_tokens ub) _ (fun i => filled ub head (s * ub_n_seq_tokens ub + i) cells));
    [lia|by rewrite Z.add_0_r|].
  intros i cells2 Hi [HL HF]. set (k := s * ub_n_seq_tokens ub + i).
  assert (Hk : 0 <= k < ub_n_seq_tokens ub * ub_n_seqs ub) by (unfold k; nia).
  destruct (Hpos k Hk) as (p & Hp & _). rewrite (vget_Some _ _ _ Hp). cbn [mbind res_bind].
  destruct (zlookup_lt cells (head + k)) as [c Hc]; [lia|].
  pose proof (HF _ _ Hc) as Hc2. rewrite bool_decide_eq_false_2 in Hc2 by (unfold k; lia).
  rewrite (upd_cell_ok _ _ _ _ Hc2). cbn [mbind res_bind].
  destruct (Hseqs s Hs) as (n & ids & Hn & Hids & Hr). rewrite (vget_Some _ _ _ Hn). cbn [mbind res_bind].
  rewrite (vget_Some _ _ _ Hids). cbn [mbind res_bind].
  pose proof (zlookup_Some_lt _ _ _ Hc2) as Hlt.
  eapply post_mono; [apply (insert_ids_spec ids n _ (head + k) (set_pos p c)); [lia|]| |done].
  { rewrite zlookup_insert by lia. by rewrite decide_True. }
  intros cells3 ->. rewrite list_insert_insert_eq.
  assert (Hfc : set_seqs (c_seq_id (set_pos p c) ∪ list_to_set (take (Z.to_nat n) ids)) (set_pos p c) = fill_cell ub k c).
  { unfold fill_cell, token_ids, token_pos_of. rewrite Hp.
    replace (k `div` ub_n_seq_tokens ub) with s by (unfold k; apply (Z.div_unique _ _ _ i); lia).
    unfold seqs_at. rewrite Hn. cbn [mbind option_bind]. rewrite Hids. done. }
  rewrite Hfc. split; [by rewrite zlen_insert|].
  intros j cj Hj. pose proof (zlookup_Some_lt _ _ _ Hj) as Hjr.
  rewrite zlookup_insert by lia. case_decide as E.
  - subst j. rewrite Hc in Hj. injection Hj as <-.
    rewrite bool_decide_eq_true_2 by (unfold k; lia). replace (head + k - head) with k by lia. done.
  - rewrite (HF _ _ Hj). f_equal. destruct (decide (head <= j < head + k)) as [Hd|Hd].
    + rewrite !bool_decide_eq_true_2 by (unfold k in *; lia). done.
    + rewrite !bool_decide_eq_false_2 by (unfold k in *; lia). done.
Qed.

(** ** The slot *)

Lemma token_slot_cell ub k c :
  ub_valid ub -> 0 <= k < ub_n_tokens ub -> c_seq_id c = ∅ ->
  cell_ok (fill_cell ub k c) /\ cell_slot (fill_cell ub k c) = token_slot ub k /\ is_empty (fill_cell ub k c) = false.
Proof.
  intros [Hrect [Hs1 Hs2] Hsmall Hpos Hseqs] Hk Hc.
  destruct (Hpos k Hk) as (p & Hp & Hpr).
  assert (0 < ub_n_seq_tokens ub) by nia.
  assert (Hdiv : 0 <= k `div` ub_n_seq_tokens ub < ub_n_seqs ub).
  { split; [apply Z.div_pos; lia|]. apply Z.div_lt_upper_bound; nia. }
  destruct (Hseqs _ Hdiv) as (n & ids & Hn & Hids & Hr).
  assert (Hsq : seqs_at (ub_n_seq_id ub) (ub_seq_id ub) (k `div` ub_n_seq_tokens ub) = Some (take (Z.to_nat n) ids)).
  { unfold seqs_at. rewrite Hn. cbn [mbind option_bind]. by rewrite Hids. }
  assert (Hset : c_seq_id c ∪ token_ids ub k = list_to_set (take (Z.to_nat n) ids)).
  { unfold token_ids. rewrite Hsq, Hc. cbn. set_solver. }
  assert (Hne : (list_to_set (take (Z.to_nat n) ids) : gset Z) <> ∅).
  { destruct ids as [|x ids]; [unfold zlen in Hr; cbn in Hr; lia|].
    replace (Z.to_nat n) with (S (pred (Z.to_nat n))) by lia. cbn. set_solver. }
  unfold fill_cell. rewrite Hset. unfold token_pos_of. rewrite Hp.
  cbn [default].
  assert (He : is_empty (set_seqs (list_to_set (take (Z.to_nat n) ids)) (set_pos p c)) = false) by by apply is_empty_false.
  splits; [by right| |done]. unfold cell_slot, token_slot.
  match goal with |- context [is_empty ?x] => rewrite (proj2 (is_empty_false x) Hne) end.
  rewrite Hp. cbn [mbind option_bind]. rewrite Hsq. done.
Qed.

(** The number of cells in use grows by the number of tokens. *)
Lemma count_filled ub head cells cells' :
  ub_valid ub -> 0 <= head -> Forall cell_ok cells -> filled ub head (ub_n_tokens ub) cells cells' ->
  free_window (cell_slot <$> cells) head (ub_n_tokens ub) ->
  count_used cells' = count_used cells + ub_n_tokens ub.
Proof.
  intros Hub Hh Hok [HL HF] (_ & Hend & Hfree).
  assert (Hn : 0 <= ub_n_tokens ub) by (destruct Hub as [-> [? ?] _ _ _]; nia).
  unfold zlen in Hend. rewrite length_fmap in Hend. fold (zlen cells) in Hend.
  set (n := Z.to_nat (ub_n_tokens ub)). set (h := Z.to_nat head).
  assert (Hsplit : forall l : list kv_cell, l = take h l ++ take n (drop h l) ++ drop n (drop h l)).
  { intros l. by rewrite !take_drop. }
  assert (Hget : forall i c, cells !! i = Some c -> cells' !! i =
    Some (if bool_decide (head <= Z.of_nat i < head + ub_n_tokens ub) then fill_cell ub (Z.of_nat i - head) c else c)).
  { intros i c Hc. specialize (HF (Z.of_nat i) c). rewrite !zlookup_nat in HF. by apply HF. }
  assert (Hlen : length cells' = length cells) by (unfold zlen in HL; lia).
  assert (H1 : take h cells' = take h cells).
  { apply list_eq. intros i. destruct (decide (i < h)%nat); [|by rewrite !lookup_take_ge by lia].
    rewrite !lookup_take_lt by done. destruct (cells !! i) as [c|] eqn:Ec.
    - rewrite (Hget _ _ Ec), bool_decide_eq_false_2; [done|]. unfold h in *. lia.
    - apply lookup_ge_None in Ec. apply lookup_ge_None. lia. }
  assert (H3 : drop n (drop h cells') = drop n (drop h cells)).
  { apply list_eq. intros i. rewrite !lookup_drop. destruct (cells !! (h + (n + i))%nat) as [c|] eqn:Ec.
    - rewrite (Hget _ _ Ec), bool_decide_eq_false_2; [done|]. unfold h, n in *. lia.
    - apply lookup_ge_None in Ec. apply lookup_ge_None. lia. }
  rewrite (Hsplit cells'), (Hsplit cells), !count_used_app, H1, H3.
  assert (H2 : forall (l : list kv_cell) b, Forall (fun c => is_empty c = b) l ->
    count_used l = if b then 0 else zlen l).
  { intros l b Hf. induction Hf as [|c l Hc Hl IH]; [by destruct b|]. rewrite count_used_cons, Hc, IH, zlen_cons.
    destruct b; lia. }
  assert (Hw : forall i c, take n (drop h cells) !! i = Some c -> cells !! (h + i)%nat = Some c /\ (i < n)%nat).
  { intros i c Hc. apply lookup_take_Some in Hc as [Hc Hi]. by rewrite lookup_drop in Hc. }
  rewrite (H2 (take n (drop h cells)) true), (H2 (take n (drop h cells')) false).
  - unfold zlen in *. rewrite length_take, length_drop. unfold n, h. lia.
  - apply Forall_lookup. intros i c Hc. apply lookup_take_Some in Hc as [Hc Hi]. rewrite lookup_drop in Hc.
    destruct (lookup_lt_is_Some_2 cells (h + i)) as [c0 Hc0]; [unfold zlen, n, h in *; lia|].
    rewrite (Hget _ _ Hc0), bool_decide_eq_true_2 in Hc by (unfold h, n in *; lia). injection Hc as <-.
    assert (Hf := Hfree (Z.of_nat (h + i)) ltac:(unfold h, n in *; lia)).
    rewrite zlookup_nat, list_lookup_fmap, Hc0 in Hf. injection Hf as Hf.
    rewrite Forall_forall in Hok. pose proof (Hok _ (list_elem_of_lookup_2 _ _ _ Hc0)) as Hcok.
    apply (token_slot_cell ub); [done|unfold h, n in *; lia|].
    destruct (cell_ok_slot c0 Hcok) as [(_ & _ & ? & _)|(E & _)]; [done|congruence].
  - apply Forall_lookup. intros i c Hc. apply Hw in Hc as [Hc Hi].
    assert (Hf := Hfree (Z.of_nat (h + i)) ltac:(unfold h, n in *; lia)).
    rewrite zlookup_nat, list_lookup_fmap, Hc in Hf. injection Hf as Hf.
    unfold cell_slot in Hf. by destruct (is_empty c).
Qed.

Lemma find_slot_attention_spec cache ub :
  kv_wf cache -> ub_valid ub ->
  safe (find_slot_attention cache ub) (fun r =>
    kv_wf r.2 /\ kv_size r.2 = kv_size cache /\
    if slot_found r.1
    then r.1 = mk_slot (kv_head r.2) (kv_head r.2 + ub_n_tokens ub) true /\
         free_window (slots cache) (kv_head r.2) (ub_n_tokens ub) /\
         stored ub (kv_head r.2) (slots cache) (slots r.2)
    else slots r.2 = slots cache /\ forall h, ~ free_window (slots cache) h (ub_n_tokens ub)).
Proof.
  intros [Hrec Hcells Hused Hhead Hsize] Hub. unfold find_slot_attention.
  assert (Hn : 0 <= ub_n_tokens ub) by (destruct Hub as [-> [? ?] _ _ _]; nia).
  destruct (Z.ltb_spec (kv_size cache) (ub_n_tokens ub)) as [Hbig|Hfit].
  { cbn [post fst snd slot_failed slot_found]. splits; try done.
    intros h (H1 & H2 & _). unfold slots, kv_size, zlen in *. rewrite length_fmap in H2. lia. }
  eapply post_bind; [apply (search_spec (kv_cells cache) (ub_n_tokens ub)); done|].
  intros [head found] [Hh Hf]. cbn [fst snd] in *. destruct found.
  - pose proof Hf as (Hw1 & Hw2 & Hw3).
    assert (Hend : head + ub_n_tokens ub <= zlen (kv_cells cache)).
    { unfold zlen in *. by rewrite length_fmap in Hw2. }
    eapply post_bind; [by apply fill_slot_spec|]. intros cells HF. cbn [post fst snd with_cells kv_cells kv_head slot_found].
    pose proof (count_filled ub head _ _ Hub ltac:(lia) Hcells HF Hf) as Hcnt.
    destruct HF as [HL HF].
    assert (Hcell : forall i c, zlookup (kv_cells cache) i = Some c -> head <= i < head + ub_n_tokens ub ->
      cell_ok (fill_cell ub (i - head) c) /\ cell_slot (fill_cell ub (i - head) c) = token_slot ub (i - head)).
    { intros i c Hc Hi. pose proof (Hw3 i Hi) as Hs. unfold zlookup in Hs, Hc. destruct (0 <=? i); [|done].
      rewrite list_lookup_fmap, Hc in Hs. injection Hs as Hs.
      rewrite Forall_forall in Hcells. pose proof (Hcells _ (list_elem_of_lookup_2 _ _ _ Hc)) as Hcok.
      destruct (token_slot_cell ub (i - head) c Hub ltac:(lia)) as (A1 & A2 & A3); [|done].
      destruct (cell_ok_slot c Hcok) as [(_ & _ & ? & _)|(E & _)]; [done|congruence]. }
    splits.
    + split; unfold kv_size in *; cbn; rewrite ?HL; try done.
      * apply Forall_lookup. intros i c' Hc'.
        destruct (lookup_lt_is_Some_2 (kv_cells cache) i) as [c Hc].
        { apply lookup_lt_Some in Hc'. unfold zlen in HL. lia. }
        specialize (HF (Z.of_nat i) c). rewrite !zlookup_nat in HF. specialize (HF Hc). rewrite Hc' in HF.
        injection HF as ->. case_bool_decide as Hd; [apply (Hcell (Z.of_nat i)); [by rewrite zlookup_nat|done]|].
        rewrite Forall_forall in Hcells. by eapply Hcells, list_elem_of_lookup_2.
      * rewrite Hcnt, Hused. unfold KV_SIZE_MAX in *. pose proof (count_used_range cells). rewrite u32_small; lia.
    + unfold kv_size. cbn. done.
    + done.
    + done.
    + split; [unfold slots, zlen in *; rewrite !length_fmap; cbn; lia|].
      intros i Hi. assert (Hi' : 0 <= i < zlen (kv_cells cache)).
      { unfold slots, zlen in *. by rewrite length_fmap in Hi. }
      destruct (zlookup_lt _ _ Hi') as [c Hc]. pose proof (HF _ _ Hc) as Hc'.
      unfold slots. cbn [kv_cells]. unfold zlookup in Hc, Hc' |- *. destruct (Z.leb_spec 0 i); [|lia].
      rewrite !list_lookup_fmap, Hc. cbn. rewrite Hc'. cbn. case_bool_decide as Hd; [|done].
      f_equal. apply Hcell; [|done]. unfold zlookup. by destruct (Z.leb_spec 0 i); [|lia].
  - cbn [post fst snd slot_found slot_failed]. splits; [|done|done|done].
    by split.
Qed.
