(* ===== verification/KvSpec.v ===== *)
(** What the key/value cache of an attention model promises: every operation
    keeps the cache well formed and acts on the slots as its specification says
    (a refinement), so that all reachable caches are well formed; what the
    operations do to the sequences; and what a view of the cache reports. *)
From S2P Require Import Prelude Batch KvCache.

(** * The operations of a cache *)

Inductive kv_op : Type :=
| op_clear
| op_seq_rm (seq_id p0 p1 : Z)
| op_seq_cp (src dst p0 p1 : Z)
| op_seq_keep (seq_id : Z)
| op_seq_add (seq_id p0 p1 delta : Z)
| op_seq_div (seq_id p0 p1 d : Z)
| op_defrag
| op_rewind (n_tokens : Z)
| op_find_slot (ub : llama_ubatch)
| op_advance (n_tokens : Z).

(** The result says whether the operation succeeded. *)
Definition kv_exec (op : kv_op) (cache : kv_cache) : res (bool * kv_cache) :=
  match op with
  | op_clear => Ok (true, llama_kv_cache_clear cache)
  | op_seq_rm seq_id p0 p1 => llama_kv_cache_seq_rm cache seq_id p0 p1
  | op_seq_cp src dst p0 p1 => c ← llama_kv_cache_seq_cp cache src dst p0 p1; Ok (true, c)
  | op_seq_keep seq_id => c ← llama_kv_cache_seq_keep cache seq_id; Ok (true, c)
  | op_seq_add seq_id p0 p1 delta => c ← llama_kv_cache_seq_add cache seq_id p0 p1 delta; Ok (true, c)
  | op_seq_div seq_id p0 p1 d => c ← llama_kv_cache_seq_div cache seq_id p0 p1 d; Ok (true, c)
  | op_defrag => Ok (true, llama_kv_cache_defrag cache)
  | op_rewind n => Ok (true, rewind_head n cache)
  | op_find_slot ub => r ← llama_kv_cache_find_slot cache ub; Ok (slot_found r.1, r.2)
  | op_advance n => Ok (true, advance_head n cache)
  end.

Definition op_valid (op : kv_op) : Prop :=
  match op with
  | op_seq_div _ _ _ d => 0 < d
  | op_find_slot ub => ub_valid ub
  | _ => True
  end.

(** Only shifting positions can overflow. *)
Definition op_shifts (op : kv_op) : Prop :=
  match op with
  | op_seq_add _ _ _ _ | op_seq_div _ _ _ _ => True
  | _ => False
  end.

(** The specification of the operations on the slots. Storing a ubatch takes any
    window of free slots, and is refused only when there is none. *)
Inductive kv_spec : kv_op -> list slot -> bool -> list slot -> Prop :=
| spec_clear l : kv_spec op_clear l true ((fun _ => None) <$> l)
| spec_seq_rm seq_id p0 p1 l :
    kv_spec (op_seq_rm seq_id p0 p1) l true (spec_rm seq_id p0 p1 <$> l)
| spec_seq_cp src dst p0 p1 l :
    kv_spec (op_seq_cp src dst p0 p1) l true (spec_cp src dst p0 p1 <$> l)
| spec_seq_keep seq_id l : kv_spec (op_seq_keep seq_id) l true (spec_keep seq_id <$> l)
| spec_seq_add seq_id p0 p1 delta l :
    kv_spec (op_seq_add seq_id p0 p1 delta) l true
      ((if range_lo p0 =? range_hi p1 then id else fmap (spec_add seq_id p0 p1 delta)) l)
| spec_seq_div seq_id p0 p1 d l :
    kv_spec (op_seq_div seq_id p0 p1 d) l true
      ((if range_lo p0 =? range_hi p1 then id else fmap (spec_div seq_id p0 p1 d)) l)
| spec_defrag l : kv_spec op_defrag l true l
| spec_rewind n l : kv_spec (op_rewind n) l true l
| spec_store ub l k h :
    free_window l h (ub_n_tokens ub) -> stored ub h l k -> kv_spec (op_find_slot ub) l true k
| spec_refuse ub l :
    (forall h, ~ free_window l h (ub_n_tokens ub)) -> kv_spec (op_find_slot ub) l false l
| spec_advance n l : kv_spec (op_advance n) l true l.

(** The caches a program reaches from a fresh one. *)
Definition kv_steps (c c' : kv_cache) : Prop :=
  exists op b, op_valid op /\ kv_exec op c = Ok (b, c').

Definition kv_reachable (deepseek2 : bool) (size : Z) : kv_cache -> Prop :=
  rtc kv_steps (llama_kv_cache_init false deepseek2 size).

(** Sequence [t] has a token at position [p]. *)
Definition holds (l : list slot) (t p : Z) : Prop := exists T, Some (p, T) ∈ l /\ t ∈ T.

(** * Refinement *)

Lemma move_head_wf cache h :
  kv_wf cache -> 0 <= h <= kv_size cache ->
  kv_wf (with_cells cache h (kv_used cache) (kv_cells cache)).
Proof. by intros [H1 H2 H3 H4 H5] Hh. Qed.

Lemma rewind_head_wf n cache : kv_wf cache -> kv_wf (rewind_head n cache).
Proof.
  intros Hwf. unfold rewind_head. case_match; [|done].
  apply move_head_wf; [done|]. unfold kv_size. split; [done|]. apply zlen_nonneg.
Qed.

Lemma advance_head_wf n cache : kv_wf cache -> kv_wf (advance_head n cache).
Proof.
  intros Hwf. unfold advance_head. apply move_head_wf; [done|].
  pose proof (u32_range (kv_head cache + n)). pose proof (zlen_nonneg (kv_cells cache)).
  unfold kv_size. destruct (Z.leb_spec (zlen (kv_cells cache)) (u32 (kv_head cache + n))); lia.
Qed.

Lemma init_wf deepseek2 size :
  size <= KV_SIZE_MAX -> kv_wf (llama_kv_cache_init false deepseek2 size).
Proof.
  intros Hsize. split; unfold kv_size, zlen, KV_SIZE_MAX in *; cbn; rewrite ?length_replicate; try lia.
  - by apply Forall_replicate; left.
  - induction (Z.to_nat size) as [|n IH]; [done|]. cbn [replicate]. by rewrite count_used_cons, <- IH.
Qed.

(** The size of the cache is the number of its slots. *)
Lemma kv_spec_size op l b k : kv_spec op l b k -> zlen k = zlen l.
Proof.
  unfold zlen. destruct 1 as [| | | |? ? ? ? l|? ? ? ? l| | |ub l k h _ [Hs _]| |]; rewrite ?length_fmap; try done.
  - case_match; cbn; rewrite ?length_fmap; done.
  - case_match; cbn; rewrite ?length_fmap; done.
Qed.

Lemma kv_refines_size op cache :
  kv_wf cache -> op_valid op ->
  post (kv_exec op cache)
    (fun r => kv_wf r.2 /\ kv_spec op (slots cache) r.1 (slots r.2) /\ kv_size r.2 = kv_size cache)
    (fun e => e = UB /\ op_shifts op).
Proof.
  intros Hwf Hop. cut (post (kv_exec op cache) (fun r => kv_wf r.2 /\ kv_spec op (slots cache) r.1 (slots r.2))
    (fun e => e = UB /\ op_shifts op)).
  { intros H. eapply post_mono; [exact H| |done]. intros [b c] [H1 H2]. splits; [done|done|].
    apply kv_spec_size in H2. unfold slots, zlen in H2. rewrite !length_fmap in H2. done. }
  destruct op as [|s p0 p1|s d p0 p1|s|s p0 p1 delta|s p0 p1 d| |n|ub|n]; cbn [kv_exec op_valid op_shifts] in *.
  - destruct (clear_spec cache Hwf) as [H1 H2]. cbn [post fst snd]. rewrite H2. split; [done|constructor].
  - eapply post_mono; [by apply seq_rm_spec| |done]. intros [b c] (H1 & H2 & H3). cbn in *. subst. rewrite H3.
    split; [done|constructor].
  - eapply post_bind; [eapply post_mono; [by apply seq_cp_spec|intros ? H; exact H|done]|].
    intros c [H1 H2]. cbn [post fst snd]. rewrite H2. split; [done|constructor].
  - eapply post_bind; [eapply post_mono; [by apply seq_keep_spec|intros ? H; exact H|done]|].
    intros c [H1 H2]. cbn [post fst snd]. rewrite H2. split; [done|constructor].
  - eapply post_bind; [eapply post_mono; [by apply seq_add_spec|intros ? H; exact H|by intros ? <-]|].
    intros c [H1 H2]. cbn [post fst snd]. rewrite H2. split; [done|constructor].
  - eapply post_bind; [eapply post_mono; [by apply seq_div_spec|intros ? H; exact H|by intros ? <-]|].
    intros c [H1 H2]. cbn [post fst snd]. rewrite H2. split; [done|constructor].
  - unfold llama_kv_cache_defrag. case_match; cbn [post fst snd]; (split; [by destruct Hwf|constructor]).
  - cbn [post fst snd]. split; [by apply rewind_head_wf|].
    replace (slots (rewind_head n cache)) with (slots cache); [constructor|]. unfold rewind_head. by case_match.
  - unfold llama_kv_cache_find_slot. rewrite (kw_attention _ Hwf).
    eapply post_bind; [eapply post_mono; [by apply (find_slot_attention_spec cache ub)|intros ? H; exact H|done]|].
    intros [r c] (H1 & _ & H2). cbn [post fst snd] in *. split; [done|]. destruct (slot_found r).
    + destruct H2 as (_ & Hw & Hs). by eapply spec_store.
    + destruct H2 as [-> Hn]. by constructor.
  - cbn [post fst snd]. split; [by apply advance_head_wf|constructor].
Qed.

(** C15. The operations of an attention cache refine their specifications: on a
    well-formed cache each returns a well-formed cache whose slots and success
    flag are what the specification allows, for every ubatch [find_slot]
    terminates and fails only if no window of free cells exists, and the only
    failure is the signed overflow of a position when positions are shifted. *)
Theorem kv_refines op cache :
  kv_wf cache -> op_valid op ->
  post (kv_exec op cache)
    (fun r => kv_wf r.2 /\ kv_spec op (slots cache) r.1 (slots r.2))
    (fun e => e = UB /\ op_shifts op).
Proof.
  intros Hwf Hop. eapply post_mono; [by apply kv_refines_size| |done]. by intros r (H1 & H2 & _).
Qed.

(** C17. Whatever operations a program performs on a fresh attention cache, in
    whatever order: every cell is free or has a position and an owner, [used]
    counts the cells in use, [head] stays in bounds, the size does not change,
    and no further operation can fail an assertion or leave the vector of
    cells. *)
Theorem kv_reachable_wf deepseek2 size cache op :
  kv_reachable deepseek2 size cache -> 0 <= size <= KV_SIZE_MAX -> op_valid op ->
  kv_wf cache /\ kv_size cache = size /\
  post (kv_exec op cache) (fun r => kv_size r.2 = size) (fun e => e = UB /\ op_shifts op).
Proof.
  intros Hr Hsize Hop.
  assert (Hinv : kv_wf cache /\ kv_size cache = size).
  { revert cache Hr. apply (rtc_ind_r (fun c => kv_wf c /\ kv_size c = size)).
    - split; [apply init_wf; lia|]. unfold kv_size, zlen. cbn. rewrite length_replicate. lia.
    - intros c2 c3 _ (op' & b & Hop' & E) [Hwf Hs].
      pose proof (post_ok _ _ _ _ E (kv_refines_size op' c2 Hwf Hop')) as (H1 & _ & H2). cbn in *. split; [done|lia]. }
  destruct Hinv as [Hwf Hs]. splits; [done|done|].
  eapply post_mono; [by apply (kv_refines_size op cache)|intros [b c] (_ & _ & H); cbn in *; lia|done].
Qed.

(** * Sequences *)

Lemma holds_fmap (f : slot -> slot) (l : list slot) t p :
  holds (f <$> l) t p <-> exists s T, s ∈ l /\ f s = Some (p, T) /\ t ∈ T.
Proof.
  unfold holds. split.
  - intros (T & H & Ht). apply list_elem_of_fmap in H as (s & E & Hs). eauto.
  - intros (s & T & Hs & Hf & Ht). exists T. split; [|done]. apply list_elem_of_fmap. eauto.
Qed.

Lemma owned_Some p T q U : owned p T = Some (q, U) <-> q = p /\ U = T /\ T <> ∅.
Proof. unfold owned. case_decide; naive_solver. Qed.

Lemma holds_rm s p0 p1 l t p :
  holds (spec_rm s p0 p1 <$> l) t p <->
  holds l t p /\ ~ (in_range_pos p0 p1 p = true /\ (s < 0 \/ t = s)).
Proof.
  rewrite holds_fmap. split.
  - intros ([[q U]|] & T & Hs & Hf & Ht); cbn in Hf; [|done].
    destruct (in_range_pos p0 p1 q) eqn:Er.
    + destruct (Z.ltb_spec s 0); [done|]. apply owned_Some in Hf as (-> & -> & _).
      split; [exists U; set_solver|]. set_solver by lia.
    + injection Hf as -> ->. split; [by exists T|]. rewrite Er. by intros [? _].
  - intros [(T & Hs & Ht) Hn]. destruct (in_range_pos p0 p1 p) eqn:Er.
    + assert (~ s < 0 /\ t <> s) as [Hs0 Hts] by tauto.
      exists (Some (p, T)), (T ∖ {[s]}). cbn. rewrite Er. destruct (Z.ltb_spec s 0); [lia|].
      splits; [done|apply owned_Some; set_solver|set_solver].
    + exists (Some (p, T)), T. cbn. by rewrite Er.
Qed.

Lemma holds_cp src dst p0 p1 l t p :
  holds (spec_cp src dst p0 p1 <$> l) t p <->
  holds l t p \/ (t = dst /\ holds l src p /\ in_range_pos p0 p1 p = true).
Proof.
  rewrite holds_fmap. split.
  - intros ([[q U]|] & T & Hs & Hf & Ht); cbn in Hf; [|done].
    destruct (bool_decide_reflect (src ∈ U)); cbn [andb] in Hf.
    2:{ injection Hf as -> ->. left. by exists T. }
    destruct (in_range_pos p0 p1 q) eqn:Er; injection Hf as <- <-; [|left; by exists U].
    apply elem_of_union in Ht as [Ht|Ht]; [left; by exists U|]. apply elem_of_singleton in Ht. right.
    splits; [done|by exists U|done].
  - intros [(T & Hs & Ht)|(-> & (T & Hs & Ht) & Er)].
    + exists (Some (p, T)). cbn. case_match; [exists (T ∪ {[dst]}); set_solver|by exists T].
    + exists (Some (p, T)), (T ∪ {[dst]}). cbn. rewrite Er, bool_decide_eq_true_2 by done. set_solver.
Qed.

Lemma holds_keep s l t p : holds (spec_keep s <$> l) t p <-> t = s /\ holds l t p.
Proof.
  rewrite holds_fmap. split.
  - intros ([[q U]|] & T & Hs & Hf & Ht); cbn in Hf; [|done].
    case_bool_decide; [|done]. injection Hf as <- <-. apply elem_of_singleton in Ht as ->.
    split; [done|]. by exists U.
  - intros (-> & T & Hs & Ht). exists (Some (p, T)), {[s]}. cbn. rewrite bool_decide_eq_true_2 by done. set_solver.
Qed.

(** The sequence [s] shares no cell with another one. *)
Definition unshared (l : list slot) (s : Z) : Prop := forall p T, Some (p, T) ∈ l -> s ∈ T -> T = {[s]}.

Lemma holds_add s p0 p1 delta l t p :
  unshared l s ->
  holds (spec_add s p0 p1 delta <$> l) t p <->
  (holds l t p /\ ~ (t = s /\ in_range_pos p0 p1 p = true)) \/
  (t = s /\ 0 <= p /\ holds l s (p - delta) /\ in_range_pos p0 p1 (p - delta) = true).
Proof.
  intros Hun. rewrite holds_fmap. split.
  - intros ([[q U]|] & T & Hs & Hf & Ht); cbn in Hf; [|done].
    destruct (bool_decide_reflect (s ∈ U)) as [Hin|Hin]; cbn [andb] in Hf.
    2:{ injection Hf as -> ->. left. split; [by exists T|]. by intros [-> _]. }
    pose proof (Hun _ _ Hs Hin) as ->. destruct (in_range_pos p0 p1 q) eqn:Er.
    + destruct (Z.ltb_spec (q + delta) 0); [done|]. injection Hf as <- <-. apply elem_of_singleton in Ht as ->.
      right. splits; [done|lia| |]; replace (q + delta - delta) with q by lia; [by exists {[s]}|done].
    + injection Hf as <- <-. left. split; [by exists {[s]}|]. rewrite Er. by intros [_ ?].
  - intros [[(T & Hs & Ht) Hn]|(-> & Hp & (T & Hs & Ht) & Er)].
    + exists (Some (p, T)), T. cbn. splits; [done| |done].
      destruct (bool_decide_reflect (s ∈ T)) as [Hin|Hin]; [|done]. cbn.
      destruct (in_range_pos p0 p1 p) eqn:Er; [|done]. exfalso. apply Hn. split; [|done].
      pose proof (Hun _ _ Hs Hin) as ->. by apply elem_of_singleton in Ht.
    + exists (Some (p - delta, T)), T. cbn. rewrite Er, bool_decide_eq_true_2 by done. cbn.
      destruct (Z.ltb_spec (p - delta + delta) 0); [lia|]. splits; [done| |done]. do 2 f_equal. lia.
Qed.

Lemma empty_range_add s p0 p1 delta (l : list slot) :
  range_lo p0 = range_hi p1 -> spec_add s p0 p1 delta <$> l = l.
Proof.
  intros E. rewrite <- (list_fmap_id l) at 2. apply list_fmap_ext. intros i [[p T]|] _; [|done]. cbn.
  replace (in_range_pos p0 p1 p) with false; [by rewrite andb_false_r|]. unfold in_range_pos. rewrite E. lia.
Qed.

(** The sequences of token [k] of a ubatch, and its position. *)
Definition token_in (ub : llama_ubatch) (k t p : Z) : Prop :=
  exists T, token_slot ub k = Some (p, T) /\ t ∈ T.

Lemma holds_store ub h l k t p :
  free_window l h (ub_n_tokens ub) -> stored ub h l k ->
  holds k t p <-> holds l t p \/ exists i, 0 <= i < ub_n_tokens ub /\ token_in ub i t p.
Proof.
  intros (Hh & Hend & Hfree) [HL Hst]. unfold holds, token_in. split.
  - intros (T & HT & Ht). apply elem_of_zlookup in HT as (i & Hi & E). rewrite HL in Hi.
    rewrite Hst in E by lia. case_bool_decide as Hd.
    + injection E as E. right. exists (i - h). split; [lia|]. by exists T.
    + left. exists T. split; [|done]. apply elem_of_zlookup. eauto.
  - intros [(T & HT & Ht)|(i & Hi & T & HT & Ht)]; exists T; (split; [|done]).
    + apply elem_of_zlookup in HT as (i & Hi & E). apply elem_of_zlookup. exists i.
      rewrite HL, Hst by lia. split; [done|]. case_bool_decide as Hd; [|done].
      rewrite (Hfree i Hd) in E. done.
    + apply elem_of_zlookup. exists (h + i). rewrite HL, Hst by lia. split; [lia|].
      rewrite bool_decide_eq_true_2 by lia. replace (h + i - h) with i by lia. by rewrite HT.
Qed.

(** [llama_kv_cache_seq_pos_max] *)
Lemma seq_pos_max_spec cells s r0 :
  let r := foldl (fun r c => if has_seq_id c s then Z.max r (c_pos c) else r) r0 cells in
  r0 <= r /\ (r = r0 \/ exists c, c ∈ cells /\ s ∈ c_seq_id c /\ c_pos c = r) /\
  forall c, c ∈ cells -> s ∈ c_seq_id c -> c_pos c <= r.
Proof.
  revert r0. induction cells as [|c cells IH]; intros r0 r; subst r; cbn [foldl].
  - splits; [lia|by left|]. intros c H. by apply not_elem_of_nil in H.
  - destruct (IH (if has_seq_id c s then Z.max r0 (c_pos c) else r0)) as (H1 & H2 & H3).
    set (r := foldl _ _ _) in *. unfold has_seq_id in *.
    assert (Hr0 : r0 <= r) by (case_bool_decide; lia). splits; [done| |].
    + destruct H2 as [->|(c' & Hc' & Hs & Hp)]; [|right; exists c'; by rewrite elem_of_cons; auto].
      case_bool_decide as Hs; [|by left]. destruct (Z.max_spec r0 (c_pos c)) as [[_ ->]|[_ ->]]; [|by left].
      right. exists c. rewrite elem_of_cons. auto.
    + intros c' Hc' Hs. apply elem_of_cons in Hc' as [->|Hc']; [|by apply H3].
      rewrite bool_decide_eq_true_2 in H1 by done. lia.
Qed.

Lemma elem_of_slots cache p T :
  kv_wf cache -> Some (p, T) ∈ slots cache <-> T <> ∅ /\ exists c, c ∈ kv_cells cache /\ c_pos c = p /\ c_seq_id c = T.
Proof.
  intros Hwf. unfold slots. rewrite list_elem_of_fmap. split.
  - intros (c & E & Hc). pose proof (proj1 (Forall_forall _ _) (kw_cells _ Hwf) c Hc) as Hok.
    destruct (cell_ok_slot c Hok) as [(Es & _)|(Es & _ & Hne & _)]; rewrite Es in E; [done|].
    injection E as -> ->. split; [done|]. by exists c.
  - intros (Hne & c & Hc & <- & <-). exists c. split; [|done].
    pose proof (proj1 (Forall_forall _ _) (kw_cells _ Hwf) c Hc) as Hok.
    by destruct (cell_ok_slot c Hok) as [(_ & _ & E & _)|(-> & _)].
Qed.

Lemma holds_cells cache s p :
  kv_wf cache -> holds (slots cache) s p <-> exists c, c ∈ kv_cells cache /\ s ∈ c_seq_id c /\ c_pos c = p.
Proof.
  intros Hwf. unfold holds. split.
  - intros (T & HT & Hs). apply (elem_of_slots cache p T Hwf) in HT as (_ & c & Hc & <- & <-). eauto.
  - intros (c & Hc & Hs & <-). exists (c_seq_id c). split; [|done]. apply (elem_of_slots _ _ _ Hwf).
    split; [set_solver|eauto].
Qed.

(** C16. What the operations do to the sequences of the cache: removing takes the
    positions of the range from the sequence (from all sequences for a negative
    id), copying gives them to the other sequence as well, keeping drops the
    other sequences, shifting moves the positions of a sequence that shares no
    cell and drops those that become negative, storing a ubatch adds its
    tokens, and [seq_pos_max] is the greatest position of a sequence, 0 for one
    without tokens. *)
Theorem kv_sequences cache s d p0 p1 delta ub :
  kv_wf cache -> ub_valid ub ->
  safe (llama_kv_cache_seq_rm cache s p0 p1) (fun r => forall t p, holds (slots r.2) t p <->
    holds (slots cache) t p /\ ~ (in_range_pos p0 p1 p = true /\ (s < 0 \/ t = s))) /\
  safe (llama_kv_cache_seq_cp cache s d p0 p1) (fun r => forall t p, holds (slots r) t p <->
    holds (slots cache) t p \/ (t = d /\ holds (slots cache) s p /\ in_range_pos p0 p1 p = true)) /\
  safe (llama_kv_cache_seq_keep cache s) (fun r => forall t p, holds (slots r) t p <->
    t = s /\ holds (slots cache) t p) /\
  (unshared (slots cache) s ->
   post (llama_kv_cache_seq_add cache s p0 p1 delta) (fun r => forall t p, holds (slots r) t p <->
     (holds (slots cache) t p /\ ~ (t = s /\ in_range_pos p0 p1 p = true)) \/
     (t = s /\ 0 <= p /\ holds (slots cache) s (p - delta) /\ in_range_pos p0 p1 (p - delta) = true)) (eq UB)) /\
  safe (llama_kv_cache_find_slot cache ub) (fun r => slot_found r.1 = true -> forall t p, holds (slots r.2) t p <->
    holds (slots cache) t p \/ exists k, 0 <= k < ub_n_tokens ub /\ token_in ub k t p) /\
  (let m := llama_kv_cache_seq_pos_max cache s in
   (m = 0 \/ holds (slots cache) s m) /\ forall p, holds (slots cache) s p -> p <= m).
Proof.
  intros Hwf Hub. splits.
  - eapply post_mono; [by apply seq_rm_spec| |done]. intros r (_ & _ & ->) t p. apply holds_rm.
  - eapply post_mono; [by apply seq_cp_spec| |done]. intros r (_ & ->) t p. apply holds_cp.
  - eapply post_mono; [by apply seq_keep_spec| |done]. intros r (_ & ->) t p. apply holds_keep.
  - intros Hun. eapply post_mono; [by apply seq_add_spec| |done]. intros r (_ & ->) t p.
    rewrite <- holds_add by done. destruct (Z.eqb_spec (range_lo p0) (range_hi p1)) as [E|]; [|done].
    by rewrite empty_range_add.
  - unfold llama_kv_cache_find_slot. rewrite (kw_attention _ Hwf).
    eapply post_mono; [by apply find_slot_attention_spec| |done]. intros r (_ & _ & H) Hf t p. rewrite Hf in H.
    destruct H as (_ & Hw & Hst). by apply (holds_store ub (kv_head r.2)).
  - destruct (seq_pos_max_spec (kv_cells cache) s 0) as (H1 & H2 & H3). fold (llama_kv_cache_seq_pos_max cache s) in *.
    cbv zeta. split.
    + destruct H2 as [H2|H2]; [by left|right]. by apply holds_cells.
    + intros p Hp. apply holds_cells in Hp as (c & Hc & Hs & <-); [|done]. by apply H3.
Qed.

(** * Views *)

(** The runs of free slots among the first [i] slots, and what the loop of the
    view knows of them. *)
Definition free_run (l : list slot) (a b : Z) : Prop := forall j, a <= j < b -> zlookup l j = Some None.

Record view_inv (l : list slot) (used tokens i : Z) (st : view_state) : Prop := {
  vi_used    : vs_used_cells st = used;
  vi_tokens  : vs_token_count st = tokens;
  vi_current : vs_curr_contig_idx st < 0 \/
               (0 <= vs_curr_contig_idx st <= i /\ free_run l (vs_curr_contig_idx st) i);
  vi_max     : 0 <= vs_max_contig st /\
               (0 < vs_max_contig st -> free_window l (vs_max_contig_idx st) (vs_max_contig st));
  vi_runs    : forall a b, 0 <= a <= b -> b <= i -> free_run l a b ->
               b - a <= vs_max_contig st \/ 0 <= vs_curr_contig_idx st <= a;
  vi_last    : forall a, 0 <= a < i -> free_run l a i -> 0 <= vs_curr_contig_idx st <= a
}.

Definition token_total (cells : list kv_cell) : Z := zsum ((fun c => Z.of_nat (size (c_seq_id c))) <$> cells).

Lemma size_empty_cell c : is_empty c = negb (0 <? Z.of_nat (size (c_seq_id c))).
Proof.
  destruct (is_empty c) eqn:E.
  - apply is_empty_true in E. by rewrite E.
  - apply is_empty_false in E. assert (size (c_seq_id c) <> 0%nat) by by (intros Hs; apply E, leibniz_equiv; by apply size_empty_inv).
    destruct (Z.ltb_spec 0 (Z.of_nat (size (c_seq_id c)))); [done|lia].
Qed.

Lemma view_step_spec l n_seq_max used tokens i c st :
  0 < n_seq_max -> 0 <= i < zlen l -> zlookup l i = Some (cell_slot c) -> view_inv l used tokens i st ->
  post (view_step n_seq_max i c st) (fun r =>
    view_inv l (used + (if is_empty c then 0 else 1)) (tokens + Z.of_nat (size (c_seq_id c))) (i + 1) r.1) (eq UB).
Proof.
  intros Hn Hi Hc Hinv. pose proof Hinv as [Hu Ht Hcur Hmax Hruns Hlast]. unfold view_step. cbv zeta.
  eapply post_bind; [apply s32_range|]. intros p _.
  destruct st as [u t cur mc mi]. cbn [vs_used_cells vs_token_count vs_curr_contig_idx vs_max_contig vs_max_contig_idx] in *.
  rewrite (size_empty_cell c) in *. unfold cell_slot in Hc. rewrite (size_empty_cell c) in Hc.
  destruct (0 <? Z.of_nat (size (c_seq_id c))) eqn:Es; cbn [negb andb] in *.
  - (* a used cell ends the run *)
    destruct (Z.ltb_spec 0 n_seq_max) as [_|]; [|lia].
    assert (Hend : forall a b, 0 <= a <= b -> b <= i + 1 -> free_run l a b -> b <= i \/ b - a <= 0).
    { intros a b Hab Hb Hf. destruct (decide (b = i + 1 /\ a < b)) as [[-> ?]|]; [|lia].
      exfalso. specialize (Hf i ltac:(lia)). rewrite Hc in Hf. done. }
    destruct ((0 <=? cur) && (mc <? i - cur)) eqn:Eb; cbn [post fst]; split;
      cbn [vs_used_cells vs_token_count vs_curr_contig_idx vs_max_contig vs_max_contig_idx]; try lia.
    + split; [lia|]. intros _. destruct Hcur as [?|[? Hf]]; [lia|]. split; [lia|]. split; [lia|].
      intros j Hj. apply Hf. lia.
    + intros a b Hab Hb Hf. destruct (Hend a b Hab Hb Hf) as [Hb'|]; [|lia].
      destruct (Hruns a b Hab Hb' Hf); lia.
    + intros a Ha Hf. destruct (Hend a (i + 1) ltac:(lia) ltac:(lia) Hf); lia.
    + exact Hmax.
    + intros a b Hab Hb Hf. destruct (Hend a b Hab Hb Hf) as [Hb'|]; [|lia].
      destruct (Hruns a b Hab Hb' Hf); lia.
    + intros a Ha Hf. destruct (Hend a (i + 1) ltac:(lia) ltac:(lia) Hf); lia.
  - (* a free cell continues it *)
    assert (Hnew : forall a, 0 <= a < i + 1 -> free_run l a (i + 1) -> 0 <= (if cur <? 0 then i else cur) <= a).
    { intros a Ha Hf. destruct (decide (a = i)) as [->|].
      - destruct (Z.ltb_spec cur 0); [lia|]. destruct Hcur; lia.
      - pose proof (Hlast a ltac:(lia)) as H. destruct H; [intros j Hj; apply Hf; lia|].
        destruct (Z.ltb_spec cur 0); lia. }
    cbn [post fst]. split; cbn [vs_used_cells vs_token_count vs_curr_contig_idx vs_max_contig vs_max_contig_idx].
    + lia.
    + lia.
    + right. destruct (Z.ltb_spec cur 0) as [Hneg|Hge].
      * split; [lia|]. intros j Hj. assert (j = i) as -> by lia. by rewrite Hc.
      * destruct Hcur as [?|[? Hf]]; [lia|]. split; [lia|]. intros j Hj.
        destruct (decide (j = i)) as [->|]; [by rewrite Hc|]. apply Hf. lia.
    + exact Hmax.
    + intros a b Hab Hb Hf. destruct (Z.le_gt_cases b i) as [Hb'|Hb'].
      * destruct (Hruns a b Hab Hb' Hf) as [|Hc']; [by left|right]. destruct (Z.ltb_spec cur 0); lia.
      * assert (b = i + 1) as -> by lia.
        destruct (decide (a = i + 1)) as [->|Hne]; [left; lia|]. right.
        apply Hnew; [lia|done].
    + intros a Ha Hf. by apply Hnew.
Qed.

Lemma view_loop_spec l n_seq_max cells : forall i used tokens st,
  0 < n_seq_max -> 0 <= i -> i + zlen cells = zlen l ->
  (forall k c, cells !! k = Some c -> zlookup l (i + Z.of_nat k) = Some (cell_slot c)) ->
  view_inv l used tokens i st ->
  post (view_loop n_seq_max i cells st) (fun r =>
    view_inv l (used + count_used cells) (tokens + token_total cells) (zlen l) r.1) (eq UB).
Proof.
  induction cells as [|c cells IH]; intros i used tokens st Hn Hi Hlen Hc Hinv; cbn [view_loop].
  - cbn [post fst]. unfold zlen in Hlen. cbn in Hlen. replace (zlen l) with i by (unfold zlen; lia).
    rewrite count_used_nil. unfold token_total. cbn. by rewrite !Z.add_0_r.
  - rewrite zlen_cons in Hlen. pose proof (zlen_nonneg cells).
    eapply post_bind; [apply (view_step_spec l n_seq_max used tokens i c st); [done|lia| |done]|].
    { specialize (Hc 0%nat c eq_refl). by rewrite Z.add_0_r in Hc. }
    intros [st' x] Hinv'. cbn [fst] in *.
    eapply post_bind; [apply (IH (i + 1) (used + (if is_empty c then 0 else 1)) (tokens + Z.of_nat (size (c_seq_id c))) st' Hn ltac:(lia) ltac:(lia)); [|exact Hinv']|].
    { intros k c' Hk. replace (i + 1 + Z.of_nat k) with (i + Z.of_nat (S k)) by lia. by apply Hc. }
    intros r Hr. cbn [post fst]. rewrite count_used_cons. unfold token_total in *. cbn [fmap list_fmap]. rewrite zsum_cons.
    by rewrite !Z.add_assoc.
Qed.

Lemma token_count_total cells n :
  foldl (fun n c => n + Z.of_nat (size (c_seq_id c))) n cells = n + token_total cells.
Proof.
  revert n. unfold token_total. induction cells as [|c cells IH]; intros n; cbn [foldl fmap list_fmap]; [cbn; lia|].
  rewrite IH, zsum_cons. lia.
Qed.

(** A view of a well-formed cache reports the cells in use, the tokens, and
    the longest run of free cells with its place; so a ubatch can be stored
    exactly when it has at most [max_contiguous] tokens. *)
Theorem view_reports view cache :
  kv_wf cache -> 0 < v_n_seq_max view ->
  post (llama_kv_cache_view_update view cache) (fun v =>
    v_used_cells v = kv_used cache /\
    v_token_count v = llama_get_kv_cache_token_count cache /\
    (0 < v_max_contiguous v -> free_window (slots cache) (v_max_contiguous_idx v) (v_max_contiguous v)) /\
    (forall h n, 0 <= n -> free_window (slots cache) h n -> n <= v_max_contiguous v) /\
    forall ub, ub_valid ub -> safe (llama_kv_cache_find_slot cache ub) (fun r =>
      slot_found r.1 = (ub_n_tokens ub <=? v_max_contiguous v))) (eq UB).
Proof.
  intros Hwf Hn. unfold llama_kv_cache_view_update. cbv zeta.
  set (l := slots cache). assert (Hzl : zlen l = kv_size cache).
  { unfold l, slots, kv_size, zlen. by rewrite length_fmap. }
  eapply post_bind.
  { apply (view_loop_spec l (v_n_seq_max view) (kv_cells cache) 0 0 0); [done|done|by rewrite Hzl| |].
    - intros k c Hk. rewrite Z.add_0_l, zlookup_nat. unfold l, slots. by rewrite list_lookup_fmap, Hk.
    - split; cbn; [done|done|by left|split; [done|lia]|intros a b ? ? _; lia|intros a ?; lia]. }
  intros [st [poss seqs]] [Hu Ht Hcur Hmax Hruns Hlast]. cbn [fst] in *. rewrite Hzl in *.
  pose proof (kw_used _ Hwf) as Hused.
  set (p := if _ && _ then _ else _). destruct p as [mc mi] eqn:Ep. subst p. cbn [post].
  assert (Hbest : 0 <= mc /\ (0 < mc -> free_window l mi mc) /\ forall h n, 0 <= n -> free_window l h n -> n <= mc).
  { destruct Hmax as [Hm Hw]. destruct ((0 <=? vs_curr_contig_idx st) && (vs_max_contig st <? kv_size cache - vs_curr_contig_idx st)) eqn:E;
      injection Ep as <- <-; splits; try done; try lia.
    - intros _. destruct Hcur as [?|[? Hf]]; [lia|]. split; [lia|]. split; [lia|]. intros j Hj. apply Hf. lia.
    - intros h n Hn0 (H1 & H2 & H3). rewrite Hzl in H2. destruct (Hruns h (h + n)); [lia|lia|done|lia|lia].
    - intros h n Hn0 (H1 & H2 & H3). rewrite Hzl in H2. destruct (Hruns h (h + n)); [lia|lia|done|lia|lia]. }
  destruct Hbest as (Hmc & Hwin & Hlong).
  cbn [v_used_cells v_token_count v_max_contiguous v_max_contiguous_idx].
  splits; [lia| |done|done|].
  - unfold llama_get_kv_cache_token_count. rewrite token_count_total. lia.
  - intros ub Hub. unfold llama_kv_cache_find_slot. rewrite (kw_attention _ Hwf).
    eapply post_mono; [by apply (find_slot_attention_spec cache ub)| |done]. intros r (_ & _ & H).
    assert (Hn0 : 0 <= ub_n_tokens ub) by (destruct Hub as [-> [? ?] _ _ _]; nia).
    destruct (slot_found r.1); destruct (Z.leb_spec (ub_n_tokens ub) mc) as [Hle|Hgt]; try done; exfalso.
    + destruct H as (_ & Hf & _). pose proof (Hlong _ _ Hn0 Hf). lia.
    + destruct H as [_ H]. destruct (decide (mc = 0)) as [->|].
      * apply (H 0). assert (ub_n_tokens ub = 0) as -> by lia. split; [done|]. fold l. rewrite Hzl. unfold kv_size.
        split; [apply zlen_nonneg|]. intros i Hi. lia.
      * destruct (Hwin ltac:(lia)) as (H1 & H2 & H3). apply (H mi). split; [done|]. split; [fold l; lia|].
        intros i Hi. apply H3. lia.
Qed.

(** * Examples *)

(** One token per row, all of sequence [s], at the given positions. *)
Definition demo_ub (s : Z) (pos : list Z) : llama_ubatch :=
  mk_ubatch false (zlen pos) 1 (zlen pos) (Some pos) None pos
    (replicate (length pos) 1) (replicate (length pos) [s]) [].

Lemma demo_ub_valid s pos :
  zlen pos <= INT32_MAX -> Forall (fun p => 0 <= p <= INT32_MAX) pos -> ub_valid (demo_ub s pos).
Proof.
  intros Hlen Hpos. pose proof (zlen_nonneg pos). split; cbn; [lia|lia|done| |].
  - intros t Ht. destruct (zlookup_lt pos t Ht) as [p Hp]. exists p. split; [done|].
    rewrite Forall_forall in Hpos. apply Hpos. apply elem_of_zlookup. eauto.
  - intros i Hi. unfold zlen in *. exists 1, [s]. rewrite !zlookup_replicate_lt by lia. done.
Qed.

(** Four tokens of sequence 0 in the first cells of a cache of eight. *)
Definition demo_cache : kv_cache :=
  mk_cache false false false true 4 4 0
    (((fun p => mk_cell p 0 (-1) (-1) {[0]}) <$> [2; 3; 4; 5]) ++ replicate 4 cell_init).

Lemma demo_cache_wf : kv_wf demo_cache.
Proof.
  split; [done| |vm_compute; reflexivity|vm_compute; by split|vm_compute; done].
  cbn. repeat (apply Forall_cons; split; [unfold cell_ok, INT32_MAX; cbn; first [left; done|right; split; [lia|set_solver]]|]).
  constructor.
Qed.

Lemma demo_cache_reached : kv_reachable false 8 demo_cache.
Proof.
  unfold kv_reachable. eapply rtc_l; [|eapply rtc_l; [|apply rtc_refl]].
  - exists (op_find_slot (demo_ub 0 [2; 3; 4; 5])), true. split.
    + apply demo_ub_valid; [done|]. repeat constructor; unfold INT32_MAX; lia.
    + vm_compute. reflexivity.
  - exists (op_advance 4), true. split; [done|]. vm_compute. reflexivity.
Qed.

Lemma kv_refines_witness :
  post (kv_exec (op_find_slot (demo_ub 1 [0; 1])) demo_cache)
    (fun r => kv_wf r.2 /\ kv_spec (op_find_slot (demo_ub 1 [0; 1])) (slots demo_cache) r.1 (slots r.2))
    (fun e => e = UB /\ op_shifts (op_find_slot (demo_ub 1 [0; 1]))).
Proof.
  apply kv_refines; [exact demo_cache_wf|].
  apply demo_ub_valid; [done|]. repeat constructor; unfold INT32_MAX; lia.
Defined.

Lemma kv_reachable_wf_witness :
  kv_wf demo_cache /\ kv_size demo_cache = 8 /\
  post (kv_exec (op_seq_add 0 (-1) (-1) (-3)) demo_cache) (fun r => kv_size r.2 = 8)
    (fun e => e = UB /\ op_shifts (op_seq_add 0 (-1) (-1) (-3))).
Proof.
  apply (kv_reachable_wf false 8 demo_cache (op_seq_add 0 (-1) (-1) (-3)));
    [exact demo_cache_reached|unfold KV_SIZE_MAX; lia|exact I].
Defined.

(** Storing two tokens of sequence 1: it holds position 1 afterwards. *)
Lemma kv_sequences_witness :
  safe (llama_kv_cache_find_slot demo_cache (demo_ub 1 [0; 1])) (fun r =>
    slot_found r.1 = true -> holds (slots r.2) 1 1) /\
  llama_kv_cache_seq_pos_max demo_cache 0 = 5.
Proof.
  assert (Hub : ub_valid (demo_ub 1 [0; 1])).
  { apply demo_ub_valid; [done|]. repeat constructor; unfold INT32_MAX; lia. }
  destruct (kv_sequences demo_cache 0 1 0 2 3 (demo_ub 1 [0; 1]) demo_cache_wf Hub) as (_ & _ & _ & _ & H & _).
  split; [|vm_compute; reflexivity].
  eapply post_mono; [exact H| |intros e []]. intros r Hr Hf. apply Hr; [exact Hf|]. right.
  exists 1. split; [by vm_compute|]. exists {[1]}. split; [vm_compute; reflexivity|set_solver].
Defined.

Lemma view_reports_witness :
  post (llama_kv_cache_view_update (llama_kv_cache_view_init demo_cache 2) demo_cache) (fun v =>
    v_used_cells v = 4 /\
    safe (llama_kv_cache_find_slot demo_cache (demo_ub 1 [0; 1; 2])) (fun r =>
      slot_found r.1 = (3 <=? v_max_contiguous v))) (eq UB).
Proof.
  eapply post_mono; [apply (view_reports (llama_kv_cache_view_init demo_cache 2) demo_cache); [exact demo_cache_wf|reflexivity]| |auto].
  intros v (H1 & _ & _ & _ & H2). split; [rewrite H1; reflexivity|].
  apply (H2 (demo_ub 1 [0; 1; 2])). apply demo_ub_valid; [done|]. repeat constructor; unfold INT32_MAX; lia.
Defined.

(** * Restoring after a failed computation *)

(** The restorer undoes [find_slot] by removing positions, but what it has
    kept are indices of cells: sequence 0 holds the positions 2 to 5 in the
    cells 0 to 3, two tokens of sequence 1 go to the cells 4 and 5, and restoring
    removes the positions 4 and 5 of sequence 0 and keeps those of sequence 1. *)
Theorem restore_removes_other_tokens :
  (r ← llama_kv_cache_find_slot demo_cache (demo_ub 1 [0; 1]);
   c ← restorer_restore (restorer_save (restorer_init demo_cache) r.1) r.2;
   Ok (slots demo_cache, slots c)) =
  Ok ([Some (2, {[0]}); Some (3, {[0]}); Some (4, {[0]}); Some (5, {[0]}); None; None; None; None],
      [Some (2, {[0]}); Some (3, {[0]}); None; None; Some (0, {[1]}); Some (1, {[1]}); None; None]).
Proof. vm_compute. reflexivity. Qed.

(** A recurrent cache of four cells that holds a state of sequence 0. *)
Definition recurrent_ub (p : Z) : llama_ubatch :=
  mk_ubatch true 1 1 1 (Some [p]) None [p] [1] [[0]] [].

(** Removing all sequences of a recurrent cache, as the restorer does when a
    computation fails, leaves the tails of the sequences pointing to cells that
    no longer hold them: the next [find_slot] for such a sequence fails an
    assertion and aborts the process. *)
Theorem recurrent_restore_then_abort :
  (r ← llama_kv_cache_find_slot (llama_kv_cache_init true false 4) (recurrent_ub 0);
   c ← restorer_restore (restorer_save (restorer_init (llama_kv_cache_init true false 4)) r.1) r.2;
   llama_kv_cache_find_slot c (recurrent_ub 0)) = Err Abort /\
  (r ← llama_kv_cache_find_slot (llama_kv_cache_init true false 4) (recurrent_ub 0); 
   x ← llama_kv_cache_seq_rm r.2 0 (-1) (-1);
   s ← llama_kv_cache_find_slot x.2 (recurrent_ub 0);
   Ok (slot_found s.1)) = Ok true.
Proof. split; vm_compute; reflexivity. Qed.
