(* ===== verification/KvUpdate.v ===== *)
(** Updating the key/value cache before a computation ([llama_kv_cache_update_impl]
    and [llama_kv_cache_defrag_impl] of [src/llama.cpp]): the pending shifts of
    the positions are applied to the keys, and the cells that are in use are
    moved towards the beginning. Next to the cells the model keeps the rows of
    the tensors: the data of cell [i] in all layers is the element [i] of a list
    over an arbitrary type, and the graphs that the code builds act on it. *)
From S2P Require Import Prelude Batch KvCache KvSpec.

(** * Defragmentation *)

(** [llama_model::max_nodes] *)
Definition max_nodes (n_tensors : Z) : Z := Z.max 8192 (wrap_u 64 (n_tensors * 5)).

(** The number of moves that fit into a graph. *)
Definition max_moves (n_tensors n_layer : Z) : res Z :=
  if u32 (6 * n_layer) =? 0 then Err UB
  else Ok (u32 (wrap_u 64 (max_nodes n_tensors - u32 (2 * n_layer)) / u32 (6 * n_layer))).

(** What the loops change: the cells, [ids], the head and the count of moves. *)
Record defrag_state : Type := mk_defrag {
  df_cells : list kv_cell;
  df_ids   : list Z;
  df_head  : Z;
  df_moves : Z
}.

Definition df_set_id (i t : Z) (st : defrag_state) : res defrag_state :=
  ids ← vset (df_ids st) i t;
  Ok (mk_defrag (df_cells st) ids (df_head st) (df_moves st)).

(** The size of the hole: the loop over the at most [k] cells from [i] on. *)
Fixpoint hole_size (cells : list kv_cell) (i : Z) (k : nat) (nh : Z) : res Z :=
  match k with
  | O => Ok nh
  | S k =>
      c ← vget cells i;
      if is_empty c then hole_size cells (i + 1) k (nh + 1) else Ok nh
  end.

(** [cell1.is_empty() || ids[i] != n_kv] *)
Definition not_movable (n_kv : Z) (cells : list kv_cell) (ids : list Z) (i : Z) : res bool :=
  c ← vget cells i;
  if is_empty c then Ok true else id ← vget ids i; Ok (negb (id =? n_kv)).

(** From [i1] down, [k] cells above the hole: where the [nh]-th cell that can be
    moved is, and how many there are. *)
Fixpoint find_source (n_kv nh : Z) (cells : list kv_cell) (ids : list Z) (i1 : Z) (k : nat) (nf : Z) : res (Z * Z) :=
  match k with
  | O => Ok (i1, nf)
  | S k =>
      b ← not_movable n_kv cells ids i1;
      if b : bool then find_source n_kv nh cells ids (i1 - 1) k nf
      else if nf + 1 =? nh then Ok (i1, nf + 1)
      else find_source n_kv nh cells ids (i1 - 1) k (nf + 1)
  end.

(** The cell [i1] goes to [t]. *)
Definition move_cell (n_used i1 t : Z) (cont : bool) (st : defrag_state) : res defrag_state :=
  ids ← vset (df_ids st) i1 t;
  c ← vget (df_cells st) i1;
  cells ← vset (df_cells st) t c;
  cells ← vset cells i1 cell_init;
  Ok (mk_defrag cells ids n_used (if cont then df_moves st else df_moves st + 1)).

(** From [i1] up, [k] cells: the cells that can be moved fill the hole at [i0].
    The result says whether the graph has no room for another move. *)
Fixpoint fill_hole (n_kv n_used max_moves nh i0 i1 : Z) (k : nat) (cont : bool) (nf : Z) (st : defrag_state)
    : res (bool * defrag_state) :=
  match k with
  | O => Ok (false, st)
  | S k =>
      b ← not_movable n_kv (df_cells st) (df_ids st) i1;
      if b : bool then
        if df_moves st =? max_moves then Ok (true, st)
        else fill_hole n_kv n_used max_moves nh i0 (i1 + 1) k false nf st
      else
        st ← move_cell n_used i1 (i0 + nf) cont st;
        if nf + 1 =? nh then Ok (false, st)
        else fill_hole n_kv n_used max_moves nh i0 (i1 + 1) k true (nf + 1) st
  end.

(** One iteration over [i0]. *)
Definition defrag_step (n_kv n_used max_moves : Z) (s : Z * defrag_state) : res (step (Z * defrag_state) defrag_state) :=
  let '(i0, st) := s in
  if negb (i0 <? n_used) then Ok (Done st)
  else
    cell0 ← vget (df_cells st) i0;
    if negb (is_empty cell0) then st ← df_set_id i0 i0 st; Ok (Next (i0 + 1, st))
    else
      nh ← hole_size (df_cells st) (i0 + 1) (Z.to_nat (n_used - (i0 + 1))) 1;
      let last := u32 (n_kv - 1) in
      r ← find_source n_kv nh (df_cells st) (df_ids st) last (Z.to_nat (last - i0)) 0;
      _ ← ggml_assert (r.2 =? nh);
      r ← fill_hole n_kv n_used max_moves nh i0 r.1 (Z.to_nat (n_kv - r.1)) false 0 st;
      if r.1 || (df_moves r.2 =? max_moves) then Ok (Done r.2)
      else Ok (Next (i0 + nh, r.2)).

(** [llama_kv_cache_defrag_impl]: the cache, and [ids] if anything has moved. *)
Definition llama_kv_cache_defrag_impl (max_moves : Z) (cache : kv_cache) : res (kv_cache * option (list Z)) :=
  let n_kv := llama_kv_cache_cell_max cache in
  let n_used := kv_used cache in
  st ← while (defrag_step n_kv n_used max_moves) (S (Z.to_nat n_used))
         (0, mk_defrag (kv_cells cache) (replicate (Z.to_nat n_kv) n_kv) (kv_head cache) 0);
  Ok (with_cells cache (df_head st) (kv_used cache) (df_cells st),
      if df_moves st =? 0 then None else Some (df_ids st)).

(** The number of consecutive [ids] that continue a run: [ids[i + nm] == id + nm]. *)
Fixpoint run_length (id : Z) (ids : list Z) : nat :=
  match ids with
  | x :: ids => if x =? id then S (run_length (id + 1) ids) else O
  | [] => O
  end.

(** [build_defrag]: the copies (source, destination, number of rows) from [i] on,
    with fuel for the cells that are left. *)
Fixpoint copies_from (ids : list Z) (i : Z) (fuel : nat) : list (Z * Z * Z) :=
  match fuel with
  | O => []
  | S fuel =>
      match zlookup ids i with
      | None => []
      | Some id =>
          if (i =? id) || (id =? zlen ids) then copies_from ids (i + 1) fuel
          else
            let nm := 1 + Z.of_nat (run_length (id + 1) (drop (Z.to_nat (i + 1)) ids)) in
            (i, id, nm) :: copies_from ids (i + nm) fuel
      end
  end.

Definition build_defrag (ids : list Z) : list (Z * Z * Z) := copies_from ids 0 (length ids).

Section rows.
Context {A : Type}.

(** The copy of [nm] rows from [i] to [id]; the rows do not overlap. *)
Definition copy_rows (rows : list A) (m : Z * Z * Z) : list A :=
  let '(i, id, nm) := m in
  take (Z.to_nat id) rows ++ take (Z.to_nat nm) (drop (Z.to_nat i) rows) ++ drop (Z.to_nat (id + nm)) rows.

Definition run_defrag (ids : list Z) (rows : list A) : list A := foldl copy_rows rows (build_defrag ids).
End rows.

(** * The loops of the defragmentation *)

(** The number of cells in use from [i] on. *)
Definition used_from (cells : list kv_cell) (i : Z) : Z := count_used (drop (Z.to_nat i) cells).

Definition in_use (c : kv_cell) : Z := if is_empty c then 0 else 1.

Lemma used_from_step cells i c :
  zlookup cells i = Some c -> used_from cells i = in_use c + used_from cells (i + 1).
Proof.
  intros Hc. pose proof (zlookup_Some_lt _ _ _ Hc) as Hi. unfold used_from.
  unfold zlookup in Hc. destruct (Z.leb_spec 0 i); [|done].
  rewrite (drop_S _ _ _ Hc). replace (Z.to_nat (i + 1)) with (S (Z.to_nat i)) by lia.
  by rewrite count_used_cons.
Qed.

Lemma used_from_nonneg cells i : 0 <= used_from cells i.
Proof. apply count_used_range. Qed.

Lemma used_from_0 cells : used_from cells 0 = count_used cells.
Proof. done. Qed.

Lemma used_from_ge cells i : zlen cells <= i -> used_from cells i = 0.
Proof. intros Hi. unfold used_from, zlen in *. by rewrite drop_ge by lia. Qed.

(** A write below [i] is not seen from [i] on. *)
Lemma used_from_insert cells j c i : 0 <= j < i -> used_from (<[Z.to_nat j := c]> cells) i = used_from cells i.
Proof. intros Hj. unfold used_from. by rewrite drop_insert_lt by lia. Qed.

Lemma used_from_range cells i j :
  0 <= i <= j -> j <= zlen cells -> used_from cells j <= used_from cells i <= used_from cells j + (j - i).
Proof.
  intros [Hi Hij] Hj. remember (Z.to_nat (j - i)) as k eqn:Hk. revert i Hi Hij Hk. induction k as [|k IH]; intros i Hi Hij Hk.
  - assert (i = j) as -> by lia. lia.
  - destruct (zlookup_lt cells i) as [c Hc]; [lia|]. rewrite (used_from_step _ _ _ Hc).
    pose proof (IH (i + 1) ltac:(lia) ltac:(lia) ltac:(lia)). unfold in_use. case_match; lia.
Qed.

(** All cells below [i] are in use when their number is maximal. *)
Lemma used_prefix cells i :
  0 <= i <= zlen cells -> (forall j c, 0 <= j < i -> zlookup cells j = Some c -> is_empty c = false) ->
  used_from cells 0 = i + used_from cells i.
Proof.
  intros Hi Hall. remember (Z.to_nat i) as k eqn:Hk. revert i Hi Hall Hk. induction k as [|k IH]; intros i Hi Hall Hk.
  - assert (i = 0) as -> by lia. lia.
  - destruct (zlookup_lt cells (i - 1)) as [c Hc]; [lia|].
    rewrite (IH (i - 1)); [|lia|intros j c' Hj; apply Hall; lia|lia].
    rewrite (used_from_step _ _ _ Hc). unfold in_use. rewrite (Hall (i - 1) c ltac:(lia) Hc).
    replace (i - 1 + 1) with i by lia. lia.
Qed.

(** Free cells do not count. *)
Lemma used_from_free cells i j :
  0 <= i <= j -> (forall k, i <= k < j -> exists c, zlookup cells k = Some c /\ is_empty c = true) ->
  used_from cells i = used_from cells j.
Proof.
  intros [Hi Hij] Hall. remember (Z.to_nat (j - i)) as n eqn:Hn. revert i Hi Hij Hall Hn.
  induction n as [|n IH]; intros i Hi Hij Hall Hn; [by assert (i = j) as -> by lia|].
  destruct (Hall i ltac:(lia)) as (c & Hc & He). rewrite (used_from_step _ _ _ Hc). unfold in_use. rewrite He.
  rewrite <- (IH (i + 1)); [lia|lia|lia|intros k Hk; apply Hall; lia|lia].
Qed.

Lemma hole_size_spec cells : forall k i nh n_used,
  0 <= i -> Z.of_nat k = n_used - i -> n_used <= zlen cells ->
  safe (hole_size cells i k nh) (fun n =>
    nh <= n <= nh + (n_used - i) /\
    forall j, i <= j < i + (n - nh) -> exists c, zlookup cells j = Some c /\ is_empty c = true).
Proof.
  induction k as [|k IH]; intros i nh n_used Hi Hk Hn; cbn [hole_size].
  - cbn [post]. split; [lia|]. intros j Hj. lia.
  - destruct (zlookup_lt cells i) as [c Hc]; [lia|]. rewrite (vget_Some _ _ _ Hc). cbn [mbind res_bind].
    destruct (is_empty c) eqn:Ec; cbn [post].
    + eapply post_mono; [apply (IH (i + 1) (nh + 1) n_used); lia| |done]. cbn beta. intros n [Hr Hall].
      split; [lia|]. intros j Hj. destruct (decide (j = i)) as [->|]; [eauto|]. apply Hall. lia.
    + split; [lia|]. intros j Hj. lia.
Qed.

Lemma count_insert cells n c c' :
  cells !! n = Some c -> count_used (<[n := c']> cells) + in_use c = count_used cells + in_use c'.
Proof.
  revert n. induction cells as [|x cells IH]; intros [|n] H; try done; cbn in H.
  - injection H as ->. change (<[0%nat := c']> (c :: cells)) with (c' :: cells). rewrite !count_used_cons. unfold in_use. lia.
  - change (<[S n := c']> (x :: cells)) with (x :: <[n := c']> cells). rewrite !count_used_cons. specialize (IH n H). lia.
Qed.

(** Moving a cell keeps the number of cells in use. *)
Lemma used_move cells i j c e :
  i <> j -> zlookup cells i = Some c -> zlookup cells j = Some e ->
  is_empty c = false -> is_empty e = true ->
  used_from (<[Z.to_nat i := cell_init]> (<[Z.to_nat j := c]> cells)) 0 = used_from cells 0.
Proof.
  intros Hij Hc He Ec Ee. rewrite !used_from_0.
  pose proof (zlookup_Some_lt _ _ _ Hc). pose proof (zlookup_Some_lt _ _ _ He).
  assert (Hc' : cells !! Z.to_nat i = Some c) by (unfold zlookup in Hc; by destruct (0 <=? i)).
  assert (He' : cells !! Z.to_nat j = Some e) by (unfold zlookup in He; by destruct (0 <=? j)).
  pose proof (count_insert cells (Z.to_nat j) e c He') as H1.
  pose proof (count_insert (<[Z.to_nat j := c]> cells) (Z.to_nat i) c cell_init) as H2.
  rewrite list_lookup_insert_ne in H2 by lia. specialize (H2 Hc').
  unfold in_use in H1, H2. rewrite Ec, Ee in H1. rewrite Ec in H2. change (is_empty cell_init) with true in H2.
  cbv iota in H1, H2. lia.
Qed.

Section defrag.
Context (c0 : list kv_cell) (n_kv n_used : Z) (max_moves h0 : Z).
Context (Hkv : 0 <= n_used <= n_kv) (Hsize : n_kv <= zlen c0) (Hmax : zlen c0 <= KV_SIZE_MAX).
Context (Hused : used_from c0 0 = n_used) (Hend : used_from c0 n_kv = 0).

(** The cell [j] has been moved to [t]. *)
Definition moved (ids : list Z) (j t : Z) : Prop := zlookup ids j = Some t /\ t <> j /\ t <> n_kv.

(** The state when the cells below [i0] have been dealt with. *)
Record defrag_inv (i0 : Z) (st : defrag_state) : Prop := {
  di_cells : zlen (df_cells st) = zlen c0;
  di_ids   : zlen (df_ids st) = n_kv;
  di_i0    : 0 <= i0 <= n_used;
  di_moved : forall j t, moved (df_ids st) j t ->
    0 <= t < i0 /\ n_used <= j < n_kv /\
    exists c e, zlookup c0 j = Some c /\ is_empty c = false /\ zlookup (df_cells st) t = Some c /\
      zlookup (df_cells st) j = Some cell_init /\ zlookup c0 t = Some e /\ is_empty e = true;
  di_inj   : forall j k t, moved (df_ids st) j t -> moved (df_ids st) k t -> j = k;
  di_rest  : forall i, 0 <= i -> (forall t, ~ moved (df_ids st) i t) -> (forall j, ~ moved (df_ids st) j i) ->
    zlookup (df_cells st) i = zlookup c0 i;
  di_low   : forall i c, 0 <= i < i0 -> zlookup (df_cells st) i = Some c -> is_empty c = false;
  di_high  : forall i t, i0 <= i -> zlookup (df_ids st) i = Some t -> t = n_kv \/ moved (df_ids st) i t;
  di_count : used_from (df_cells st) 0 = n_used;
  di_end   : used_from (df_cells st) n_kv = 0;
  di_head  : df_head st = h0 \/ df_head st = n_used;
  di_none  : df_moves st = 0 -> (forall j t, ~ moved (df_ids st) j t) /\ df_head st = h0;
  di_moves : 0 <= df_moves st <= i0
}.

Lemma defrag_inv_init :
  defrag_inv 0 (mk_defrag c0 (replicate (Z.to_nat n_kv) n_kv) h0 0).
Proof using Hkv Hsize Hused Hend.
  assert (Hm : forall j t, ~ moved (replicate (Z.to_nat n_kv) n_kv) j t).
  { intros j t (H & _ & Ht). unfold zlookup in H. destruct (0 <=? j); [|done].
    apply lookup_replicate in H as [-> _]. done. }
  split; cbn [df_cells df_ids df_head df_moves]; try done; try lia.
  - unfold zlen. rewrite length_replicate. lia.
  - intros j t H. by apply Hm in H.
  - intros j k t H. by apply Hm in H.
  - intros i t Hi H. left. unfold zlookup in H. destruct (0 <=? i); [|done]. by apply lookup_replicate in H as [-> _].
Qed.

(** A cell above [i0] that is in use has not been moved. *)
Lemma not_movable_spec i0 st i :
  defrag_inv i0 st -> i0 <= i < n_kv ->
  exists c, zlookup (df_cells st) i = Some c /\ not_movable n_kv (df_cells st) (df_ids st) i = Ok (is_empty c) /\
    (is_empty c = false -> zlookup (df_ids st) i = Some n_kv).
Proof using Hsize.
  intros Hinv Hi. pose proof (di_i0 _ _ Hinv).
  destruct (zlookup_lt (df_cells st) i) as [c Hc]; [rewrite (di_cells _ _ Hinv); lia|].
  exists c. split; [done|]. unfold not_movable. rewrite (vget_Some _ _ _ Hc). cbn [mbind res_bind].
  destruct (is_empty c) eqn:Ec; [done|].
  destruct (zlookup_lt (df_ids st) i) as [t Ht]; [rewrite (di_ids _ _ Hinv); lia|].
  destruct (di_high _ _ Hinv i t ltac:(lia) Ht) as [->|Hm].
  - rewrite (vget_Some _ _ _ Ht). cbn [mbind res_bind]. rewrite Z.eqb_refl. done.
  - destruct (di_moved _ _ Hinv i t Hm) as (_ & _ & c' & e & _ & _ & _ & Hi' & _). rewrite Hc in Hi'.
    injection Hi' as ->. done.
Qed.

Lemma find_source_spec i0 st nh : forall k i1 nf,
  defrag_inv i0 st -> Z.of_nat k = i1 - i0 -> i1 < n_kv -> 0 <= nf < nh ->
  used_from (df_cells st) (i1 + 1) = nf -> nh <= used_from (df_cells st) (i0 + 1) ->
  safe (find_source n_kv nh (df_cells st) (df_ids st) i1 k nf) (fun r =>
    r.2 = nh /\ i0 < r.1 < n_kv /\ used_from (df_cells st) r.1 = nh /\
    exists c, zlookup (df_cells st) r.1 = Some c /\ is_empty c = false).
Proof using Hsize.
  induction k as [|k IH]; intros i1 nf Hinv Hk Hi1 Hnf Hcnt Htot; cbn [find_source].
  - exfalso. replace (i1 + 1) with (i0 + 1) in Hcnt by lia. lia.
  - destruct (not_movable_spec i0 st i1 Hinv) as (c & Hc & Hb & _); [lia|]. rewrite Hb. cbn [mbind res_bind].
    pose proof (used_from_step _ _ _ Hc) as Hs. unfold in_use in Hs.
    destruct (is_empty c) eqn:Ec; cbn [mbind res_bind].
    + apply IH; [done|lia|lia|lia| |done]. replace (i1 - 1 + 1) with i1 by lia. lia.
    + destruct (Z.eqb_spec (nf + 1) nh) as [He|He]; cbn [post fst snd]; [splits; [lia..|eauto]|].
      apply IH; [done|lia|lia|lia| |done]. replace (i1 - 1 + 1) with i1 by lia. lia.
Qed.

(** Moving one cell. *)
Lemma move_cell_spec i0 st i1 c cont :
  defrag_inv i0 st -> i0 < n_used -> n_used <= i1 < n_kv ->
  zlookup (df_cells st) i1 = Some c -> is_empty c = false ->
  (exists e, zlookup (df_cells st) i0 = Some e /\ is_empty e = true) -> zlookup (df_ids st) i0 = Some n_kv ->
  (cont = true -> 0 < df_moves st) ->
  safe (move_cell n_used i1 i0 cont st) (fun st' =>
    defrag_inv (i0 + 1) st' /\ 0 < df_moves st' /\
    df_moves st <= df_moves st' <= df_moves st + (if cont then 0 else 1) /\
    used_from (df_cells st') (i1 + 1) = used_from (df_cells st) (i1 + 1) /\
    (forall j, i0 < j < n_used -> zlookup (df_cells st') j = zlookup (df_cells st) j) /\
    (forall j, j <> i1 -> zlookup (df_ids st') j = zlookup (df_ids st) j)).
Proof using Hsize Hkv.
  intros Hinv Hi0 Hi1 Hc Hce (e & He & Hee) Hid Hcont.
  pose proof (di_i0 _ _ Hinv) as Hr. pose proof (di_cells _ _ Hinv) as Hlc. pose proof (di_ids _ _ Hinv) as Hli.
  destruct (not_movable_spec i0 st i1 Hinv) as (c' & Hc' & _ & Hfree); [lia|]. rewrite Hc in Hc'. injection Hc' as <-.
  specialize (Hfree Hce). unfold move_cell.
  rewrite vset_at by lia. cbn [mbind res_bind]. rewrite (vget_Some _ _ _ Hc). cbn [mbind res_bind].
  rewrite vset_at by lia. cbn [mbind res_bind]. rewrite vset_at by (rewrite zlen_insert; lia). cbn [mbind res_bind post].
  set (ids' := <[Z.to_nat i1 := i0]> (df_ids st)).
  set (cells' := <[Z.to_nat i1 := cell_init]> (<[Z.to_nat i0 := c]> (df_cells st))).
  assert (Hids : forall j, 0 <= j -> zlookup ids' j = if decide (i1 = j) then Some i0 else zlookup (df_ids st) j).
  { intros j Hj. apply zlookup_insert; [lia|done]. }
  assert (Hneg : forall {X} (l : list X) j, j < 0 -> zlookup l j = None).
  { intros X l j Hj. unfold zlookup. by destruct (Z.leb_spec 0 j); [lia|]. }
  assert (Hcells : forall j, 0 <= j -> zlookup cells' j =
            if decide (i1 = j) then Some cell_init else if decide (i0 = j) then Some c else zlookup (df_cells st) j).
  { intros j Hj. unfold cells'. rewrite zlookup_insert by (rewrite ?zlen_insert; lia).
    case_decide; [done|]. apply zlookup_insert; lia. }
  assert (Hmv : forall j t, moved ids' j t <-> (j = i1 /\ t = i0) \/ (j <> i1 /\ moved (df_ids st) j t)).
  { intros j t. unfold moved. destruct (Z.lt_ge_cases j 0) as [Hj|Hj].
    { rewrite !Hneg by done. split; [by intros [? _]|]. intros [[-> _]|(_ & ? & _)]; [lia|done]. }
    rewrite Hids by lia. case_decide as Ed; [subst j|].
    - split; [intros ([= <-] & _); by left|]. intros [[_ ->]|[? _]]; [|done]. split; [done|]. lia.
    - split; [intros ?; right; split; [done|done]|]. intros [[-> _]|[_ ?]]; done. }
  assert (Hnot : forall t, ~ moved (df_ids st) i1 t).
  { intros t (H & _ & Hn). rewrite Hfree in H. injection H as <-. done. }
  assert (Hold : zlookup c0 i0 = Some e).
  { rewrite <- He. symmetry. apply (di_rest _ _ Hinv); [lia| |].
    - intros t H. apply (di_moved _ _ Hinv) in H. lia.
    - intros j H. apply (di_moved _ _ Hinv) in H. lia. }
  assert (Hsrc : zlookup c0 i1 = Some c).
  { rewrite <- Hc. symmetry. apply (di_rest _ _ Hinv); [lia|done|].
    intros j H. apply (di_moved _ _ Hinv) in H. lia. }
  splits; cbn [df_cells df_ids df_head df_moves]; fold ids'; fold cells'.
  - split; cbn [df_cells df_ids df_head df_moves].
    + unfold cells'. by rewrite !zlen_insert.
    + unfold ids'. by rewrite zlen_insert.
    + lia.
    + intros j t H. apply Hmv in H as [[-> ->]|[Hj H]].
      * split; [lia|]. split; [lia|]. exists c, e. rewrite !Hcells by lia. rewrite decide_False, decide_True by lia.
        rewrite decide_True by done. done.
      * destruct (di_moved _ _ Hinv j t H) as (H1 & H2 & cj & ej & G1 & G2 & G3 & G4 & G5 & G6).
        split; [lia|]. split; [lia|]. exists cj, ej. rewrite !Hcells by lia. rewrite decide_False, decide_False by lia.
        rewrite decide_False, decide_False by lia. done.
    + intros j k t H1 H2. apply Hmv in H1 as [[-> Ht1]|[? H1]], H2 as [[-> Ht2]|[? H2]]; [done| | |].
      * subst t. apply (di_moved _ _ Hinv) in H2. lia.
      * subst t. apply (di_moved _ _ Hinv) in H1. lia.
      * by apply (di_inj _ _ Hinv _ _ t).
    + intros i Hi H1 H2. rewrite Hcells by done. case_decide as E1.
      { subst i. exfalso. apply (H1 i0). apply Hmv. by left. }
      case_decide as E2.
      { subst i. exfalso. apply (H2 i1). apply Hmv. by left. }
      apply (di_rest _ _ Hinv); [done| |].
      * intros t H. apply (H1 t), Hmv. by right.
      * intros j H. destruct (decide (j = i1)) as [->|]; [by apply Hnot in H|]. apply (H2 j), Hmv. by right.
    + intros i ci Hi. rewrite Hcells by lia. rewrite decide_False by lia. case_decide as E.
      * by intros [= <-].
      * intros Hci. apply (di_low _ _ Hinv i); [lia|done].
    + intros i t Hi Ht. rewrite Hids in Ht by lia. case_decide as E.
      * injection Ht as <-. right. apply Hmv. by left.
      * destruct (di_high _ _ Hinv i t ltac:(lia) Ht) as [?|H]; [by left|right]. apply Hmv. by right.
    + rewrite <- (di_count _ _ Hinv). unfold cells'. apply (used_move _ _ _ _ e); lia || done.
    + rewrite <- (di_end _ _ Hinv). unfold cells'. by rewrite !used_from_insert by lia.
    + by right.
    + destruct cont; [specialize (Hcont eq_refl)|]; pose proof (di_moves _ _ Hinv); lia.
    + pose proof (di_moves _ _ Hinv). destruct cont; lia.
  - pose proof (di_moves _ _ Hinv). destruct cont; [by apply Hcont|lia].
  - destruct cont; lia.
  - destruct cont; lia.
  - unfold cells'. by rewrite !used_from_insert by lia.
  - intros j Hj. rewrite Hcells by lia. rewrite decide_False, decide_False by lia. done.
  - intros j Hj. destruct (Z.lt_ge_cases j 0); [by rewrite !Hneg|]. rewrite Hids by lia. by rewrite decide_False by lia.
Qed.

Lemma fill_hole_spec i0 nh : forall k i1 nf cont st,
  defrag_inv (i0 + nf) st -> 0 <= nf < nh -> i0 + nh <= n_used -> n_used <= i1 -> Z.of_nat k = n_kv - i1 ->
  used_from (df_cells st) i1 = nh - nf ->
  (forall j, i0 + nf <= j < i0 + nh -> exists e, zlookup (df_cells st) j = Some e /\ is_empty e = true) ->
  (cont = true -> 0 < df_moves st) ->
  (0 < max_moves -> df_moves st <= max_moves /\ (cont = false -> df_moves st < max_moves)) ->
  safe (fill_hole n_kv n_used max_moves nh i0 i1 k cont nf st) (fun r =>
    (0 < max_moves -> df_moves r.2 <= max_moves) /\
    if r.1 : bool then df_moves r.2 = max_moves /\ exists i, defrag_inv i r.2 else defrag_inv (i0 + nh) r.2).
Proof using Hkv Hsize Hend.
  induction k as [|k IH]; intros i1 nf cont st Hinv Hnf Hhole Hi1 Hk Hcnt Hfree Hcont Hmoves; cbn [fill_hole].
  { exfalso. assert (i1 = n_kv) as -> by lia. rewrite (di_end _ _ Hinv) in Hcnt. lia. }
  destruct (not_movable_spec (i0 + nf) st i1 Hinv) as (c & Hc & Hb & _); [lia|]. rewrite Hb. cbn [mbind res_bind].
  pose proof (used_from_step _ _ _ Hc) as Hs. unfold in_use in Hs.
  destruct (is_empty c) eqn:Ec.
  - destruct (Z.eqb_spec (df_moves st) max_moves) as [He|He].
    + cbn [post fst snd]. split; [lia|]. split; [done|]. by exists (i0 + nf).
    + apply IH; try done; lia.
  - assert (Hid : zlookup (df_ids st) (i0 + nf) = Some n_kv).
    { pose proof (di_i0 _ _ Hinv). destruct (zlookup_lt (df_ids st) (i0 + nf)) as [t Ht]; [rewrite (di_ids _ _ Hinv); lia|].
      destruct (di_high _ _ Hinv (i0 + nf) t ltac:(lia) Ht) as [->|Hm]; [done|]. apply (di_moved _ _ Hinv) in Hm. lia. }
    eapply post_bind.
    { apply (move_cell_spec (i0 + nf) st i1 c cont); [done|lia|lia|done|done| |done|done]. apply Hfree. lia. }
    intros st' (Hinv' & Hpos & Hstep & Hcnt' & Hcells' & Hids'). 
    replace (i0 + nf + 1) with (i0 + (nf + 1)) in Hinv' by lia.
    assert (Hm' : 0 < max_moves -> df_moves st' <= max_moves).
    { intros Hm. specialize (Hmoves Hm). destruct cont; lia. }
    destruct (Z.eqb_spec (nf + 1) nh) as [He|He].
    + cbn [post fst snd]. split; [done|]. by rewrite He in Hinv'.
    + apply IH; [done|lia|lia|lia|lia|lia| |done|].
      * intros j Hj. rewrite Hcells' by lia. apply Hfree. lia.
      * intros Hm. split; [by apply Hm'|done].
Qed.

Lemma defrag_loop_spec :
  safe (while (defrag_step n_kv n_used max_moves) (S (Z.to_nat n_used))
          (0, mk_defrag c0 (replicate (Z.to_nat n_kv) n_kv) h0 0)) (fun st =>
    (0 < max_moves -> df_moves st <= max_moves) /\
    exists i0, defrag_inv i0 st /\ (i0 = n_used \/ df_moves st = max_moves)).
Proof using Hkv Hsize Hmax Hused Hend.
  apply (while_post (defrag_step n_kv n_used max_moves)
    (fun s => defrag_inv s.1 s.2 /\ (0 < max_moves -> df_moves s.2 < max_moves)) (fun s => Z.to_nat (n_used - s.1))).
  - cbn [fst snd df_moves]. split; [apply defrag_inv_init|lia].
  - cbn [fst]. lia.
  - intros [i0 st] [Hinv Hmoves]. cbn [fst snd] in *. pose proof (di_i0 _ _ Hinv) as Hi0.
    pose proof (di_cells _ _ Hinv) as Hlc. pose proof (di_ids _ _ Hinv) as Hli. unfold defrag_step.
    destruct (Z.ltb_spec i0 n_used) as [Hlt|Hge]; cbn [negb].
    2:{ cbn [post]. split; [intros Hm; specialize (Hmoves Hm); lia|]. exists i0. split; [done|left; lia]. }
    destruct (zlookup_lt (df_cells st) i0) as [c Hc]; [lia|]. rewrite (vget_Some _ _ _ Hc). cbn [mbind res_bind].
    destruct (is_empty c) eqn:Ec; cbn [negb].
    + eapply post_bind; [apply (hole_size_spec _ _ _ _ n_used); lia|]. intros nh [Hnh Hhole].
      assert (Hhole' : forall j, i0 <= j < i0 + nh -> exists e, zlookup (df_cells st) j = Some e /\ is_empty e = true).
      { intros j Hj. destruct (decide (j = i0)) as [->|]; [eauto|]. apply Hhole. lia. }
      unfold KV_SIZE_MAX in *. rewrite u32_small by lia. cbv zeta.
      assert (Htot : used_from (df_cells st) i0 = n_used - i0).
      { pose proof (used_prefix (df_cells st) i0 ltac:(lia) (di_low _ _ Hinv)) as Hp. rewrite (di_count _ _ Hinv) in Hp. lia. }
      pose proof (used_from_step _ _ _ Hc) as Hs. unfold in_use in Hs. rewrite Ec in Hs.
      eapply post_bind; [apply (find_source_spec i0); [done|lia|lia|lia| |lia]|].
      { replace (n_kv - 1 + 1) with n_kv by lia. apply (di_end _ _ Hinv). }
      intros [i1 nf] (-> & Hi1 & Hcnt & c1 & Hc1 & Hc1e). cbn [fst snd] in *.
      rewrite Z.eqb_refl. cbn [ggml_assert mbind res_bind].
      assert (Hge : n_used <= i1).
      { destruct (Z.le_gt_cases n_used i1); [done|exfalso].
        destruct (Z.lt_ge_cases i1 (i0 + nh)) as [Hin|Hout].
        - destruct (Hhole' i1 ltac:(lia)) as (e & He & Hee). rewrite Hc1 in He. injection He as ->. congruence.
        - pose proof (used_from_free (df_cells st) i0 (i0 + nh) ltac:(lia) Hhole').
          pose proof (used_from_range (df_cells st) (i0 + nh) i1 ltac:(lia) ltac:(lia)). lia. }
      eapply post_bind.
      { apply (fill_hole_spec i0 nh); [by rewrite Z.add_0_r|lia|lia|done|lia|lia| |done|].
        - intros j Hj. apply Hhole'. lia.
        - intros Hm. specialize (Hmoves Hm). lia. }
      intros [stop st'] [Hm' Hr]. cbn [fst snd] in *. destruct stop; cbn [orb].
      * cbn [post]. split; [done|]. destruct Hr as (He & i & Hinv'). exists i. split; [done|by right].
      * destruct (Z.eqb_spec (df_moves st') max_moves) as [He|He]; cbn [post fst snd].
        -- split; [done|]. exists (i0 + nh). split; [done|by right].
        -- split; [split; [done|intros Hm; specialize (Hm' Hm); lia]|]. lia.
    + unfold df_set_id. rewrite vset_at by lia. cbn [mbind res_bind post fst snd].
      split; [|lia]. split; [|done].
      assert (Hids : forall j, 0 <= j -> zlookup (<[Z.to_nat i0 := i0]> (df_ids st)) j =
                if decide (i0 = j) then Some i0 else zlookup (df_ids st) j).
      { intros j Hj. apply zlookup_insert; lia. }
      assert (Hnot : forall t, ~ moved (df_ids st) i0 t).
      { intros t H. apply (di_moved _ _ Hinv) in H. lia. }
      assert (Hmv : forall j t, moved (<[Z.to_nat i0 := i0]> (df_ids st)) j t <-> moved (df_ids st) j t).
      { intros j t. unfold moved. destruct (Z.lt_ge_cases j 0) as [Hj|Hj].
        - unfold zlookup. destruct (Z.leb_spec 0 j); [lia|done].
        - rewrite Hids by done. case_decide as E; [subst j|done]. split; [|intros H; by apply Hnot in H].
          intros ([= <-] & ? & _). done. }
      destruct Hinv as [H1 H2 H3 H4 H5 H6 H7 H8 H9 H10 H11 H12 H13].
      split; cbn [df_cells df_ids df_head df_moves]; try done.
      * by rewrite zlen_insert.
      * lia.
      * intros j t H. apply Hmv in H. destruct (H4 j t H) as (G1 & G2 & G3). split; [lia|]. by split.
      * intros j k t G1 G2. apply Hmv in G1, G2. by apply (H5 j k t).
      * intros i Hi G1 G2. apply H6; [done|intros t H; by apply (G1 t), Hmv|intros j H; by apply (G2 j), Hmv].
      * intros i ci Hi Hci. destruct (decide (i = i0)) as [->|]; [|by apply (H7 i); [lia|]].
        rewrite Hc in Hci. by injection Hci as <-.
      * intros i t Hi Ht. rewrite Hids in Ht by lia. rewrite decide_False in Ht by lia.
        destruct (H8 i t ltac:(lia) Ht) as [?|?]; [by left|right]. by apply Hmv.
      * intros Hz. destruct (H12 Hz) as [G1 G2]. split; [|done]. intros j t H. apply (G1 j t). by apply Hmv.
      * lia.
Qed.
End defrag.

(** * The copies of the rows *)

Section copies.
Context {A : Type} (rows : list A) (ids : list Z) (n_used : Z).
Context (Hrows : zlen ids <= zlen rows) (Hused : 0 <= n_used).
Context (Hmoved : forall j t, moved (zlen ids) ids j t -> 0 <= t < n_used /\ n_used <= j < zlen ids).
Context (Hinj : forall j k t, moved (zlen ids) ids j t -> moved (zlen ids) ids k t -> j = k).

Lemma copy_rows_lookup (l : list A) i id nm x :
  0 <= i -> 0 <= id -> 0 <= nm -> i + nm <= zlen l -> id + nm <= zlen l -> 0 <= x ->
  zlookup (copy_rows l (i, id, nm)) x = if decide (id <= x < id + nm) then zlookup l (i + (x - id)) else zlookup l x.
Proof.
  intros Hi Hid Hnm H1 H2 Hx. unfold copy_rows, zlookup, zlen in *.
  destruct (Z.leb_spec 0 x); [|lia]. destruct (Z.lt_ge_cases x id).
  { rewrite decide_False by lia. rewrite lookup_app_l by (rewrite length_take; lia). by rewrite lookup_take_lt by lia. }
  rewrite lookup_app_r by (rewrite length_take; lia). rewrite length_take. replace (Z.to_nat id `min` length l)%nat with (Z.to_nat id) by lia.
  case_decide as E.
  - rewrite lookup_app_l by (rewrite length_take, length_drop; lia). rewrite lookup_take_lt by lia. rewrite lookup_drop.
    destruct (Z.leb_spec 0 (i + (x - id))); [|lia]. f_equal. lia.
  - rewrite lookup_app_r by (rewrite length_take, length_drop; lia). rewrite length_take, length_drop, lookup_drop.
    f_equal. lia.
Qed.

Lemma copy_rows_len (l : list A) i id nm :
  0 <= i -> 0 <= id -> 0 <= nm -> i + nm <= zlen l -> id + nm <= zlen l -> zlen (copy_rows l (i, id, nm)) = zlen l.
Proof.
  intros. unfold copy_rows, zlen in *. rewrite !length_app, !length_take, !length_drop. lia.
Qed.

Lemma run_length_spec l : forall id k, (k < run_length id l)%nat -> l !! k = Some (id + Z.of_nat k).
Proof.
  induction l as [|x l IH]; intros id k Hk; cbn in Hk; [lia|].
  destruct (Z.eqb_spec x id) as [->|]; [|lia]. destruct k as [|k]; cbn; [f_equal; lia|].
  rewrite (IH (id + 1)) by lia. f_equal. lia.
Qed.

(** The rows when the moves of the cells below [i] have been done. *)
Definition copied (i : Z) (l : list A) : Prop :=
  zlen l = zlen rows /\
  forall x, 0 <= x ->
    (forall j, j < i -> moved (zlen ids) ids j x -> zlookup l x = zlookup rows j) /\
    ((forall j, j < i -> ~ moved (zlen ids) ids j x) -> zlookup l x = zlookup rows x).

(** A run of ids is a run of moves. *)
Lemma run_moved i id (k : nat) :
  moved (zlen ids) ids i id -> (k < 1 + run_length (id + 1) (drop (Z.to_nat (i + 1)) ids))%nat ->
  moved (zlen ids) ids (i + Z.of_nat k) (id + Z.of_nat k).
Proof using Hmoved.
  intros Hm Hk. induction k as [|k IH]; [by rewrite !Z.add_0_r|].
  specialize (IH ltac:(lia)). pose proof (Hmoved _ _ IH) as [H1 H2]. pose proof (Hmoved _ _ Hm) as [H3 H4].
  pose proof (run_length_spec (drop (Z.to_nat (i + 1)) ids) (id + 1) k ltac:(lia)) as Hr. rewrite lookup_drop in Hr.
  destruct Hm as (Hi & Hne & _). split; [|lia].
  unfold zlookup. destruct (Z.leb_spec 0 (i + Z.of_nat (S k))); [|lia].
  replace (Z.to_nat (i + Z.of_nat (S k))) with (Z.to_nat (i + 1) + k)%nat by lia. rewrite Hr. f_equal. lia.
Qed.

Lemma copied_skip i l : (forall t, ~ moved (zlen ids) ids i t) -> copied i l -> copied (i + 1) l.
Proof.
  intros Hnot [Hl Hc]. split; [done|]. intros x Hx. destruct (Hc x Hx) as [H1 H2]. split.
  - intros j Hj Hm. destruct (decide (j = i)) as [->|]; [by apply Hnot in Hm|]. by apply H1; [lia|].
  - intros Hn. apply H2. intros j Hj. apply Hn. lia.
Qed.

Lemma copied_batch i id nm l :
  moved (zlen ids) ids i id -> nm = 1 + Z.of_nat (run_length (id + 1) (drop (Z.to_nat (i + 1)) ids)) ->
  copied i l -> i + nm <= zlen ids /\ copied (i + nm) (copy_rows l (i, id, nm)).
Proof using Hmoved Hinj Hrows Hused.
  intros Hm Hnm [Hl Hc].
  assert (Hrun : forall k, 0 <= k < nm -> moved (zlen ids) ids (i + k) (id + k)).
  { intros k Hk. replace k with (Z.of_nat (Z.to_nat k)) by lia. apply run_moved; [done|lia]. }
  pose proof (Hmoved _ _ Hm) as [M1 M2].
  pose proof (Hmoved _ _ (Hrun (nm - 1) ltac:(lia))) as [M3 M4].
  split; [lia|]. split; [by rewrite copy_rows_len by lia|].
  intros x Hx. rewrite copy_rows_lookup by lia. destruct (Hc x Hx) as [H1 H2]. case_decide as E.
  - pose proof (Hrun (x - id) ltac:(lia)) as Hmx. replace (id + (x - id)) with x in Hmx by lia.
    pose proof (Hmoved _ _ Hmx) as [M5 M6].
    assert (Hsrc : zlookup l (i + (x - id)) = zlookup rows (i + (x - id))).
    { apply (Hc (i + (x - id)) ltac:(lia)). intros j Hj Hm'. apply Hmoved in Hm'. lia. }
    split.
    + intros j Hj Hm'. by rewrite (Hinj _ _ _ Hm' Hmx).
    + intros Hn. exfalso. apply (Hn (i + (x - id))); [lia|done].
  - assert (Hno : forall j, i <= j < i + nm -> ~ moved (zlen ids) ids j x).
    { intros j Hj Hm'. pose proof (Hrun (j - i) ltac:(lia)) as Hm2. replace (i + (j - i)) with j in Hm2 by lia.
      destruct Hm' as [G1 _], Hm2 as [G2 _]. rewrite G1 in G2. injection G2 as ->. lia. }
    split.
    + intros j Hj Hm'. apply H1; [|done]. destruct (Z.lt_ge_cases j i); [done|]. exfalso. by apply (Hno j); [lia|].
    + intros Hn. apply H2. intros j Hj. apply Hn. lia.
Qed.

Lemma copies_spec fuel : forall i l,
  0 <= i <= zlen ids -> (Z.to_nat (zlen ids - i) <= fuel)%nat -> copied i l ->
  copied (zlen ids) (foldl copy_rows l (copies_from ids i fuel)).
Proof using Hmoved Hinj Hrows Hused.
  induction fuel as [|fuel IH]; intros i l Hi Hf Hc; cbn [copies_from].
  - assert (i = zlen ids) as -> by lia. done.
  - destruct (decide (i = zlen ids)) as [->|Hne].
    { destruct (zlookup ids (zlen ids)) as [t|] eqn:E; [apply zlookup_Some_lt in E; lia|done]. }
    destruct (zlookup_lt ids i) as [id Hid]; [lia|]. rewrite Hid.
    destruct ((i =? id) || (id =? zlen ids)) eqn:Eb.
    + apply IH; [lia|lia|]. apply copied_skip; [|done]. intros t (H & H1 & H2). rewrite Hid in H. injection H as <-. lia.
    + assert (Hm : moved (zlen ids) ids i id) by (split; [done|lia]).
      destruct (copied_batch i id _ l Hm eq_refl Hc) as [Hle Hc']. cbn [foldl]. apply IH; [lia|lia|done].
Qed.

Lemma run_defrag_spec : copied (zlen ids) (run_defrag ids rows).
Proof using Hmoved Hinj Hrows Hused.
  unfold run_defrag, build_defrag. apply copies_spec; [pose proof (zlen_nonneg ids); lia|unfold zlen; lia|].
  split; [done|]. intros x Hx. split; [|done]. intros j Hj Hm. apply Hmoved in Hm. lia.
Qed.
End copies.

(** * The data follows the cells *)

(** Lists in which an injection relates the elements that satisfy [P]. *)
Section filter_index.
Context {X : Type} (P : X -> Prop) {dec_P : forall x, Decision (P x)}.

Definition indices (l : list X) : list nat :=
  filter (fun i => from_option (fun x => bool_decide (P x)) false (l !! i) = true) (seq 0 (length l)).

Lemma filter_indices l : filter P l = omap (l !!.) (indices l).
Proof.
  unfold indices. induction l as [|x l IH] using rev_ind; [done|].
  rewrite filter_app, length_app, Nat.add_1_r, seq_S, Nat.add_0_l, filter_app, omap_app, IH. f_equal.
  - assert (Hlt : forall ks, Forall (fun i => (i < length l)%nat) ks ->
      omap (l !!.) (filter (fun i => from_option (fun x => bool_decide (P x)) false (l !! i) = true) ks) =
      omap ((l ++ [x]) !!.) (filter (fun i => from_option (fun x => bool_decide (P x)) false ((l ++ [x]) !! i) = true) ks)).
    { induction 1 as [|k ks Hk Hks IHk]; [done|]. rewrite !filter_cons, (lookup_app_l l [x] k) by done.
      case_decide; [|done]. cbn. rewrite (lookup_app_l l [x] k) by done. by rewrite IHk. }
    apply Hlt. apply Forall_forall. intros k Hk. apply elem_of_seq in Hk. lia.
  - assert (Hx : (l ++ [x]) !! length l = Some x) by by rewrite lookup_app_r, Nat.sub_diag.
    rewrite !filter_cons, !filter_nil. rewrite Hx. cbn. destruct (decide (P x)) as [Hp|Hp].
    + rewrite decide_True by by rewrite bool_decide_eq_true. cbn. by rewrite Hx.
    + rewrite decide_False by by rewrite bool_decide_eq_true. done.
Qed.

Lemma elem_of_indices l i : i ∈ indices l <-> exists x, l !! i = Some x /\ P x.
Proof.
  unfold indices. rewrite list_elem_of_filter, elem_of_seq. split.
  - intros [Hb _]. destruct (l !! i) as [x|]; [|done]. cbn in Hb. exists x. split; [done|]. by apply bool_decide_eq_true in Hb.
  - intros (x & Hx & Hp). split; [rewrite Hx; by apply bool_decide_eq_true|]. apply lookup_lt_Some in Hx. lia.
Qed.

Lemma filter_perm (l k : list X) (d : nat -> nat) :
  (forall i x, l !! i = Some x -> P x -> k !! d i = Some x) ->
  (forall i j x y, l !! i = Some x -> P x -> l !! j = Some y -> P y -> d i = d j -> i = j) ->
  (forall i x, k !! i = Some x -> P x -> exists j y, d j = i /\ l !! j = Some y /\ P y) ->
  filter P k ≡ₚ filter P l.
Proof.
  intros Hd Hinj Hsurj. rewrite !filter_indices.
  assert (Hperm : indices k ≡ₚ d <$> indices l).
  { apply NoDup_Permutation.
    - apply NoDup_filter, NoDup_seq.
    - apply NoDup_fmap_2_strong; [|apply NoDup_filter, NoDup_seq]. intros i j Hi Hj.
      apply elem_of_indices in Hi as (x & Hx & Px), Hj as (y & Hy & Py). by apply (Hinj i j x y).
    - intros i. rewrite elem_of_indices, list_elem_of_fmap. split.
      + intros (x & Hx & Px). destruct (Hsurj i x Hx Px) as (j & y & <- & Hy & Py). exists j. split; [done|].
        apply elem_of_indices. eauto.
      + intros (j & -> & Hj). apply elem_of_indices in Hj as (y & Hy & Py). exists y. split; [by apply Hd|done]. }
  rewrite Hperm. assert (Hks : forall ks : list nat, (forall i, i ∈ ks -> i ∈ indices l) -> omap (k !!.) (d <$> ks) = omap (l !!.) ks).
  { induction ks as [|i ks IH]; intros Hin; [done|]. cbn.
    destruct (proj1 (elem_of_indices l i) (Hin i ltac:(left))) as (x & Hx & Px).
    rewrite (Hd i x Hx Px), Hx. f_equal. apply IH. intros j Hj. apply Hin. by right. }
  by rewrite Hks.
Qed.
End filter_index.

(** The cells in use with their rows. *)
Definition occupied {A} (cells : list kv_cell) (rows : list A) : list (kv_cell * A) :=
  filter (fun p => is_empty p.1 = false) (zip cells rows).

Definition moved_rows {A} (ids : option (list Z)) (rows : list A) : list A :=
  match ids with Some ids => run_defrag ids rows | None => rows end.

Section moved.
Context {A : Type} (c0 : list kv_cell) (rows rows' : list A) (n_kv n_used h0 i0 : Z) (st : defrag_state).
Context (Hinv : defrag_inv c0 n_kv n_used h0 i0 st) (Hlen : zlen rows = zlen c0) (Hkv : 0 <= n_used <= n_kv).
Context (Hcopied : copied rows (df_ids st) (zlen (df_ids st)) rows').

(** Where the cell [i] is after the moves. *)
Definition new_place (i : nat) : nat :=
  match df_ids st !! i with
  | Some t => if decide (t = Z.of_nat i \/ t = n_kv) then i else Z.to_nat t
  | None => i
  end.

Lemma new_place_cases i :
  (new_place i = i /\ forall t, ~ moved n_kv (df_ids st) (Z.of_nat i) t) \/
  (exists t, moved n_kv (df_ids st) (Z.of_nat i) t /\ new_place i = Z.to_nat t).
Proof.
  unfold new_place, moved. rewrite zlookup_nat. destruct (df_ids st !! i) as [t|]; [|by left; split; [|intros t [? _]]].
  case_decide as E; [left|right].
  - split; [done|]. intros t' ([= <-] & ? & ?). tauto.
  - exists t. split; [|done]. split; [done|]. tauto.
Qed.

Lemma moved_cases i : (exists t, moved n_kv (df_ids st) i t) \/ (forall t, ~ moved n_kv (df_ids st) i t).
Proof.
  unfold moved. destruct (zlookup (df_ids st) i) as [t|]; [|by right; intros t [? _]].
  destruct (decide (t <> i /\ t <> n_kv)) as [H|H]; [left; by exists t|right]. by intros t' ([= <-] & ?).
Qed.

(** A place in use after the moves. *)
Lemma place_cases j :
  (exists i, moved n_kv (df_ids st) i j) \/ (forall i, ~ moved n_kv (df_ids st) i j).
Proof.
  destruct (decide (Exists (fun i => zlookup (df_ids st) i = Some j /\ j <> i /\ j <> n_kv) (zseq 0 (length (df_ids st))))) as [H|H].
  - left. apply Exists_exists in H as (i & _ & H). by exists i.
  - right. intros i Hm. apply H. apply Exists_exists. exists i. split; [|done]. destruct Hm as [Hi _].
    apply zlookup_Some_lt in Hi. apply elem_of_zseq. unfold zlen in Hi. lia.
Qed.

Lemma rows_stay i :
  0 <= i -> (forall j, ~ moved n_kv (df_ids st) j i) -> zlookup rows' i = zlookup rows i.
Proof.
  intros Hi Hn. apply (proj2 Hcopied i Hi). intros j _. rewrite (di_ids _ _ _ _ _ _ Hinv). apply Hn.
Qed.

Lemma rows_move j t : moved n_kv (df_ids st) j t -> zlookup rows' t = zlookup rows j.
Proof.
  intros Hm. pose proof (di_moved _ _ _ _ _ _ Hinv j t Hm) as (Ht & Hj & _).
  apply (proj2 Hcopied t); [lia|rewrite (di_ids _ _ _ _ _ _ Hinv); lia|by rewrite (di_ids _ _ _ _ _ _ Hinv)].
Qed.

Lemma occupied_moved : occupied (df_cells st) rows' ≡ₚ occupied c0 rows.
Proof.
  pose proof (di_moved _ _ _ _ _ _ Hinv) as Hm. pose proof (di_rest _ _ _ _ _ _ Hinv) as Hrest.
  assert (Hz : forall (cells : list kv_cell) (r : list A) i x, zip cells r !! i = Some x <->
            zlookup cells (Z.of_nat i) = Some x.1 /\ zlookup r (Z.of_nat i) = Some x.2).
  { intros cells r i [c a]. rewrite !zlookup_nat, lookup_zip_with. cbn.
    destruct (cells !! i); [|naive_solver]. cbn. destruct (r !! i); naive_solver. }
  apply (filter_perm _ _ _ new_place).
  - intros i [c a] Hx Hc. apply Hz in Hx as [Hx1 Hx2]. cbn in *. apply Hz. cbn.
    destruct (new_place_cases i) as [[-> Hn]|(t & Ht & ->)].
    + assert (Hn' : forall j, ~ moved n_kv (df_ids st) j (Z.of_nat i)).
      { intros j Hj. destruct (Hm _ _ Hj) as (_ & _ & ? & e & _ & _ & _ & _ & He & Hee). rewrite Hx1 in He.
        injection He as ->. congruence. }
      rewrite Hrest, rows_stay by (done || lia). done.
    + pose proof (Hm _ _ Ht) as (H1 & _ & c' & _ & H2 & _ & H3 & _). rewrite Z2Nat.id by lia.
      rewrite (rows_move _ _ Ht), H3. rewrite Hx1 in H2. by injection H2 as ->.
  - intros i j [c a] [c' a'] Hx Hc Hy Hc' E. apply Hz in Hx as [Hx1 _]. apply Hz in Hy as [Hy1 _]. cbn in *.
    destruct (new_place_cases i) as [[E1 Hn]|(t & Ht & E1)], (new_place_cases j) as [[E2 Hn']|(u & Hu & E2)];
      rewrite E1, E2 in E; try done.
    + destruct (Hm _ _ Hu) as (G1 & _ & ? & e & _ & _ & _ & _ & He & Hee). replace u with (Z.of_nat i) in He by lia.
      rewrite Hx1 in He. injection He as ->. congruence.
    + destruct (Hm _ _ Ht) as (G1 & _ & ? & e & _ & _ & _ & _ & He & Hee). replace t with (Z.of_nat j) in He by lia.
      rewrite Hy1 in He. injection He as ->. congruence.
    + pose proof (Hm _ _ Ht). pose proof (Hm _ _ Hu). assert (t = u) as -> by lia.
      pose proof (di_inj _ _ _ _ _ _ Hinv _ _ _ Ht Hu). lia.
  - intros i [c a] Hx Hc. apply Hz in Hx as [Hx1 Hx2]. cbn in *.
    destruct (place_cases (Z.of_nat i)) as [(j & Hj)|Hn].
    + destruct (Hm _ _ Hj) as (G1 & G2 & c' & _ & H2 & H3 & _). destruct (zlookup_lt rows j) as [b Hb].
      { apply zlookup_Some_lt in H2. lia. }
      exists (Z.to_nat j), (c', b). split; [|split; [|done]].
      * destruct (new_place_cases (Z.to_nat j)) as [[_ Hn]|(t & Ht & ->)].
        -- exfalso. apply (Hn (Z.of_nat i)). by rewrite Z2Nat.id by lia.
        -- rewrite Z2Nat.id in Ht by lia. destruct Ht as [Ht _], Hj as [Hj _]. rewrite Ht in Hj. injection Hj as ->. lia.
      * apply Hz. by rewrite Z2Nat.id by lia.
    + exists i, (c, a). destruct (new_place_cases i) as [[-> Hn']|(t & Ht & _)].
      * splits; [done| |done]. apply Hz. cbn. rewrite <- Hrest, <- rows_stay by (done || lia). done.
      * exfalso. destruct (Hm _ _ Ht) as (_ & _ & ? & ? & _ & _ & _ & H4 & _). rewrite Hx1 in H4. by injection H4 as ->.
Qed.
End moved.

Lemma defrag_cells_ok (P : kv_cell -> Prop) c0 n_kv n_used h0 i0 st :
  P cell_init -> 0 <= n_used <= n_kv -> defrag_inv c0 n_kv n_used h0 i0 st -> Forall P c0 -> Forall P (df_cells st).
Proof.
  intros Hinit Hkv Hinv Hok. rewrite Forall_forall in *. intros c Hc. apply elem_of_zlookup in Hc as (i & Hi & Hc).
  destruct (moved_cases n_kv st i) as [(t & Hm)|Hn].
  - destruct (di_moved _ _ _ _ _ _ Hinv i t Hm) as (_ & _ & c1 & e & _ & _ & _ & H4 & _). rewrite Hc in H4.
    by injection H4 as ->.
  - destruct (place_cases n_kv st i) as [(j & Hj)|Hn'].
    + destruct (di_moved _ _ _ _ _ _ Hinv j i Hj) as (_ & _ & c1 & e & H1 & _ & H3 & _). rewrite Hc in H3.
      injection H3 as ->. apply Hok, elem_of_zlookup. exists j. split; [by apply zlookup_Some_lt in H1|done].
    + rewrite (di_rest _ _ _ _ _ _ Hinv i ltac:(lia)) in Hc; [|done|done].
      apply Hok, elem_of_zlookup. exists i. split; [by apply zlookup_Some_lt in Hc|done].
Qed.

(** * The update *)

Lemma cell_max_loop_spec r : 0 <= cell_max_loop r <= zlen r /\
  Forall (fun c => (0 <=? c_pos c) && negb (is_empty c) = false) (take (length r - Z.to_nat (cell_max_loop r)) r).
Proof.
  induction r as [|c r [IH1 IH2]]; cbn [cell_max_loop]; [by split|]. rewrite zlen_cons.
  destruct ((0 <=? c_pos c) && negb (is_empty c)) eqn:E.
  - pose proof (zlen_nonneg r). split; [lia|].
    replace (length (c :: r) - Z.to_nat (zlen r + 1))%nat with 0%nat by (cbn; unfold zlen; lia). constructor.
  - split; [lia|]. cbn [length]. unfold zlen in IH1.
    replace (S (length r) - Z.to_nat (cell_max_loop r))%nat with (S (length r - Z.to_nat (cell_max_loop r))) by lia.
    by constructor.
Qed.

(** [llama_kv_cache_cell_max]: no cell is in use beyond it. *)
Lemma cell_max_spec cache :
  kv_wf cache -> 0 <= llama_kv_cache_cell_max cache <= kv_size cache /\
  used_from (kv_cells cache) (llama_kv_cache_cell_max cache) = 0.
Proof.
  intros Hwf. unfold llama_kv_cache_cell_max, kv_size.
  destruct (cell_max_loop_spec (rev (kv_cells cache))) as [H1 H2]. set (m := cell_max_loop _) in *.
  assert (Hl : zlen (rev (kv_cells cache)) = zlen (kv_cells cache)) by (unfold zlen; by rewrite length_rev).
  rewrite Hl in H1. split; [done|].
  rewrite (used_from_free _ m (zlen (kv_cells cache))); [by apply used_from_ge|lia|].
  intros k Hk. destruct (zlookup_lt (kv_cells cache) k) as [c Hc]; [lia|]. exists c. split; [done|].
  assert (Hok : cell_ok c).
  { pose proof (kw_cells _ Hwf) as Hf. rewrite Forall_forall in Hf. apply Hf, elem_of_zlookup. exists k. split; [lia|done]. }
  pose proof (cell_ok_pos c Hok) as Hp.
  assert (Hin : c ∈ take (length (rev (kv_cells cache)) - Z.to_nat m) (rev (kv_cells cache))).
  { apply list_elem_of_lookup. exists (length (kv_cells cache) - S (Z.to_nat k))%nat. unfold zlen in *.
    rewrite lookup_take_lt by (rewrite length_rev in *; lia). rewrite (rev_alt (kv_cells cache)). change (rev_append (kv_cells cache) []) with (reverse (kv_cells cache)).
    rewrite reverse_lookup by lia.
    replace (length (kv_cells cache) - S (length (kv_cells cache) - S (Z.to_nat k)))%nat with (Z.to_nat k) by lia.
    unfold zlookup in Hc. by destruct (0 <=? k). }
  rewrite Forall_forall in H2. specialize (H2 c Hin). rewrite Hp in H2. by destruct (is_empty c).
Qed.

Lemma defrag_rows_spec {A} (rows : list A) max_moves cache :
  kv_wf cache -> zlen rows = kv_size cache ->
  safe (llama_kv_cache_defrag_impl max_moves cache) (fun r =>
    kv_wf r.1 /\ kv_size r.1 = kv_size cache /\
    zlen (moved_rows r.2 rows) = zlen rows /\
    occupied (kv_cells r.1) (moved_rows r.2 rows) ≡ₚ occupied (kv_cells cache) rows /\
    kv_has_shift r.1 = kv_has_shift cache /\
    (Forall (fun c => c_delta c = 0) (kv_cells cache) -> Forall (fun c => c_delta c = 0) (kv_cells r.1)) /\
    (kv_used cache < max_moves -> forall i, kv_used cache <= i -> i < kv_size cache ->
       zlookup (slots r.1) i = Some None)).
Proof.
  intros Hwf Hlen. pose proof (cell_max_spec cache Hwf) as [Hkv Hend]. unfold kv_size in *.
  pose proof (kw_used _ Hwf) as Hused. rewrite <- used_from_0 in Hused.
  pose proof (used_from_range (kv_cells cache) 0 (llama_kv_cache_cell_max cache) ltac:(lia) ltac:(lia)) as Hcount.
  unfold llama_kv_cache_defrag_impl. eapply post_bind.
  { apply (defrag_loop_spec (kv_cells cache) (llama_kv_cache_cell_max cache) (kv_used cache) max_moves (kv_head cache));
      [lia|lia|apply (kw_size _ Hwf)|done|done]. }
  intros st (_ & i0 & Hinv & Hdone). cbn [post fst snd].
  set (n_kv := llama_kv_cache_cell_max cache) in *.
  assert (Hmv : forall j t, moved (zlen (df_ids st)) (df_ids st) j t -> 0 <= t < kv_used cache /\ kv_used cache <= j < zlen (df_ids st)).
  { intros j t Hm. rewrite (di_ids _ _ _ _ _ _ Hinv) in *. pose proof (di_i0 _ _ _ _ _ _ Hinv).
    destruct (di_moved _ _ _ _ _ _ Hinv j t Hm) as (H1 & H2 & _). lia. }
  assert (Hcopy : copied rows (df_ids st) (zlen (df_ids st)) (run_defrag (df_ids st) rows)).
  { apply (run_defrag_spec rows (df_ids st) (kv_used cache)); [rewrite (di_ids _ _ _ _ _ _ Hinv); lia|lia|done|].
    rewrite (di_ids _ _ _ _ _ _ Hinv). apply (di_inj _ _ _ _ _ _ Hinv). }
  assert (Hrows : copied rows (df_ids st) (zlen (df_ids st)) (moved_rows (if df_moves st =? 0 then None else Some (df_ids st)) rows)).
  { destruct (Z.eqb_spec (df_moves st) 0) as [Hz|]; [|done]. cbn [moved_rows]. split; [done|]. intros x Hx. split; [|done].
    intros j _ Hm. rewrite (di_ids _ _ _ _ _ _ Hinv) in Hm. by apply (proj1 (di_none _ _ _ _ _ _ Hinv Hz)) in Hm. }
  pose proof (di_cells _ _ _ _ _ _ Hinv) as Hsz.
  splits.
  - split; unfold kv_size; cbn; [apply (kw_attention _ Hwf)| | | |rewrite Hsz; apply (kw_size _ Hwf)].
    + apply (defrag_cells_ok cell_ok (kv_cells cache) n_kv (kv_used cache) (kv_head cache) i0); [by left|lia|done|apply (kw_cells _ Hwf)].
    + rewrite <- used_from_0, (di_count _ _ _ _ _ _ Hinv). done.
    + rewrite Hsz. pose proof (kw_head _ Hwf). unfold kv_size in *. destruct (di_head _ _ _ _ _ _ Hinv) as [->| ->]; lia.
  - cbn. done.
  - apply Hrows.
  - cbn [kv_cells with_cells]. apply (occupied_moved (kv_cells cache) rows _ n_kv (kv_used cache) (kv_head cache) i0); [done|lia|lia|done].
  - done.
  - intros Hd. cbn [kv_cells with_cells].
    apply (defrag_cells_ok _ (kv_cells cache) n_kv (kv_used cache) (kv_head cache) i0); [done|lia|done|done].
  - intros Hm i Hi1 Hi2. destruct Hdone as [->|Hd]; [|pose proof (di_moves _ _ _ _ _ _ Hinv); pose proof (di_i0 _ _ _ _ _ _ Hinv); lia].
    assert (Hfree : used_from (df_cells st) (kv_used cache) = 0).
    { pose proof (used_prefix (df_cells st) (kv_used cache) ltac:(lia) (di_low _ _ _ _ _ _ Hinv)) as Hp.
      rewrite (di_count _ _ _ _ _ _ Hinv) in Hp. lia. }
    unfold slots. rewrite zlookup_fmap. cbn [kv_cells with_cells].
    destruct (zlookup_lt (df_cells st) i) as [c Hc]; [lia|]. rewrite Hc. cbn. unfold cell_slot.
    destruct (is_empty c) eqn:Ec; [done|exfalso].
    pose proof (used_from_step _ _ _ Hc) as Hs. unfold in_use in Hs. rewrite Ec in Hs.
    pose proof (used_from_nonneg (df_cells st) (i + 1)).
    pose proof (used_from_range (df_cells st) (kv_used cache) i ltac:(lia) ltac:(lia)). lia.
Qed.

(** C18. Defragmentation moves the cells and their rows together: whatever the
    limit on the number of moves, the loops terminate without failing the
    assertion or leaving the vectors, every cell in use keeps its contents and
    its row of the tensors although the copies run on the one tensor, the cache
    stays well formed, and with room for enough moves the cells in use end up
    in front of the free ones. *)
Theorem defrag_moves_rows {A} (rows : list A) max_moves cache :
  kv_wf cache -> zlen rows = kv_size cache ->
  safe (llama_kv_cache_defrag_impl max_moves cache) (fun r =>
    kv_wf r.1 /\ kv_size r.1 = kv_size cache /\
    zlen (moved_rows r.2 rows) = zlen rows /\
    occupied (kv_cells r.1) (moved_rows r.2 rows) ≡ₚ occupied (kv_cells cache) rows /\
    (kv_used cache < max_moves -> forall i, kv_used cache <= i -> i < kv_size cache ->
       zlookup (slots r.1) i = Some None)).
Proof.
  intros Hwf Hlen. eapply post_mono; [by apply (defrag_rows_spec rows)| |done].
  intros r (H1 & H2 & H3 & H4 & _ & _ & H5). by splits.
Qed.
