(* ===== verification/KvShift.v ===== *)
(** Shifting positions: [seq_add] and [seq_div] change the positions of cells
    whose keys have been computed for the old ones; the difference is kept in the
    cells until [llama_kv_cache_update_impl] of [src/llama.cpp] rotates the keys.
    The keys and the rotation are parameters: the key of a token at a position,
    and the function that moves a key by a distance. *)
From S2P Require Import Prelude Batch KvCache KvSpec KvUpdate.

Section update.
Context {A : Type}.
(** The rotation of a row by a distance, which [build_k_shift] applies to every
    cell with the distances that [llama_set_k_shift] copies from [delta]. *)
Context (shift_row : Z -> A -> A).

Definition llama_set_k_shift (cache : kv_cache) : list Z := c_delta <$> kv_cells cache.

Definition k_shift (cache : kv_cache) (rows : list A) : list A :=
  zip_with shift_row (llama_set_k_shift cache) rows.

(** [llama_kv_cache_update_impl] up to the reservation of the worst-case graph;
    the flag says whether one is reserved. [rope] is false for the models
    without rotary embedding ([LLAMA_ROPE_TYPE_NONE]). *)
Definition llama_kv_cache_update_impl (rope : bool) (max_moves : Z) (cache : kv_cache) (rows : list A)
    : res (kv_cache * list A * bool) :=
  r ← (if kv_has_shift cache then
         _ ← (if llama_kv_cache_can_shift cache then Ok tt else Err Abort);
         Ok (with_shift (with_cells cache (kv_head cache) (kv_used cache) (set_delta 0 <$> kv_cells cache)) false,
             if rope then k_shift cache rows else rows, rope)
       else Ok (cache, rows, false));
  let '(cache, rows, need_reserve) := r : kv_cache * list A * bool in
  if kv_do_defrag cache then
    r ← llama_kv_cache_defrag_impl max_moves cache;
    Ok (with_defrag r.1 false, moved_rows r.2 rows, true)
  else Ok (cache, rows, need_reserve).
End update.

(** * The positions of the keys *)

(** The position that the key of a cell has been computed for. *)
Definition key_pos (c : kv_cell) : Z := c_pos c - c_delta c.

(** A difference is pending only while [has_shift] is set. *)
Definition shifts_known (cache : kv_cache) : Prop :=
  kv_has_shift cache = false -> Forall (fun c => c_delta c = 0) (kv_cells cache).

Section keys.
Context {A K : Type} (shift_row : Z -> A -> A) (row_at : Z -> K -> A).

(** The row of every cell in use is its key at [key_pos]. *)
Record aligned (cache : kv_cache) (rows : list A) (keys : list K) : Prop := {
  al_rows  : zlen rows = kv_size cache;
  al_keys  : zlen keys = kv_size cache;
  al_shift : shifts_known cache;
  al_cells : forall c a k, (c, (a, k)) ∈ occupied (kv_cells cache) (zip rows keys) -> a = row_at (key_pos c) k
}.

End keys.

(** What an operation does to a cell: the key of a cell that stays in use
    remains at its position, and a difference is recorded with the flag. *)
Definition cell_follows (shift : bool) (c c' : kv_cell) : Prop :=
  (is_empty c' = false -> is_empty c = false /\ key_pos c' = key_pos c) /\
  (c_delta c' = c_delta c \/ shift = true).

Definition cells_follow (cache cache' : kv_cache) : Prop :=
  (kv_has_shift cache = true -> kv_has_shift cache' = true) /\
  Forall2 (cell_follows (kv_has_shift cache')) (kv_cells cache) (kv_cells cache').

Lemma cell_follows_refl b c : cell_follows b c c.
Proof. split; [done|by left]. Qed.

Lemma cell_follows_free b c c' : is_empty c' = true -> c_delta c' = c_delta c -> cell_follows b c c'.
Proof. intros He Hd. split; [by rewrite He|by left]. Qed.

Lemma cells_follow_refl b l : Forall2 (cell_follows b) l l.
Proof. induction l; constructor; [apply cell_follows_refl|done]. Qed.

(** A loop over the cells whose state tells the flag. *)
Lemma each_cell_follow {B} (f : Z -> kv_cell -> B -> res (kv_cell * B)) (flag : B -> bool) cells a E :
  (forall i c b, c ∈ cells -> post (f i c b) (fun r =>
     (flag b = true -> flag r.2 = true) /\ cell_follows (flag r.2) c r.1) E) ->
  post (each_cell f 0 cells a) (fun r =>
    (flag a = true -> flag r.2 = true) /\ Forall2 (cell_follows (flag r.2)) cells r.1) E.
Proof.
  intros Hf. apply (each_cell_post f cells a (fun old new b =>
    (flag a = true -> flag b = true) /\ Forall2 (cell_follows (flag b)) old new)); [by split|].
  intros old c rest new b Hc [H1 H2].
  eapply post_mono; [apply (Hf (zlen old) c b); rewrite Hc; set_solver| |done].
  intros [c' b'] [H3 H4]. cbn [fst snd] in *. split; [by auto|]. apply Forall2_app; [|by constructor].
  eapply Forall2_impl; [exact H2|]. intros x y [Hx [Hy|Hy]]; (split; [done|]); [by left|right; auto].
Qed.

Lemma seq_rm_follows cache s p0 p1 :
  kv_wf cache -> safe (llama_kv_cache_seq_rm cache s p0 p1) (fun r => cells_follow cache r.2).
Proof.
  intros Hwf. unfold llama_kv_cache_seq_rm. rewrite (kw_attention _ Hwf). cbn [mbind res_bind].
  eapply post_bind; [apply (each_cell_follow _ (fun _ => kv_has_shift cache))|].
  - intros i c [used nh] _. unfold seq_rm_cell. destruct (in_pos_range _ _ _); [|cbn; split; [done|apply cell_follows_refl]].
    destruct (_ && _); [cbn; split; [done|apply cell_follows_refl]|]. cbv zeta.
    match goal with |- context [is_empty ?x] => destruct (is_empty x) eqn:E end; cbn [post fst snd]; (split; [done|]).
    + apply cell_follows_free; [by destruct (s <? 0)|by destruct (s <? 0)].
    + destruct (s <? 0); [by apply is_empty_false in E|]. apply is_empty_false in E. cbn in E.
      split; [|by left]. intros _. split; [|done]. apply is_empty_false. set_solver.
  - intros [cells [used nh]] [_ H]. cbn in *. by split.
Qed.

Lemma seq_keep_follows cache s :
  kv_wf cache -> safe (llama_kv_cache_seq_keep cache s) (cells_follow cache).
Proof.
  intros Hwf. unfold llama_kv_cache_seq_keep. rewrite (kw_attention _ Hwf).
  eapply post_bind; [apply (each_cell_follow _ (fun _ => kv_has_shift cache))|].
  - intros i c [used nh] _. unfold seq_keep_cell. cbn [andb]. cbv zeta. unfold has_seq_id.
    case_bool_decide as Hs; cbn [post fst snd]; (split; [done|]).
    + split; [|by left]. intros _. split; [|done]. apply is_empty_false. set_solver.
    + by apply cell_follows_free.
  - intros [cells [used nh]] [_ H]. cbn in *. by split.
Qed.

Lemma seq_cp_follows cache s d p0 p1 :
  kv_wf cache -> safe (llama_kv_cache_seq_cp cache s d p0 p1) (cells_follow cache).
Proof.
  intros Hwf. unfold llama_kv_cache_seq_cp. rewrite (kw_attention _ Hwf). cbn [post]. split; [done|].
  cbn [kv_cells with_cells kv_has_shift]. apply Forall2_fmap_r, Forall_Forall2_diag, Forall_forall. intros c Hc. unfold has_seq_id, compose.
  case_bool_decide as Hs; cbn [andb]; [|apply cell_follows_refl].
  destruct (in_pos_range _ _ _); [|apply cell_follows_refl].
  split; [|by left]. intros _. split; [|done]. apply is_empty_false. set_solver.
Qed.

Lemma seq_add_follows cache s p0 p1 delta :
  kv_wf cache -> post (llama_kv_cache_seq_add cache s p0 p1 delta) (cells_follow cache) (eq UB).
Proof.
  intros Hwf. unfold llama_kv_cache_seq_add. rewrite (kw_attention _ Hwf).
  destruct (range_lo p0 =? range_hi p1); [split; [done|apply cells_follow_refl]|].
  eapply post_bind; [apply (each_cell_follow _ (fun a => a.1.1))|].
  - intros i c [[hs used] nh] _. unfold seq_add_cell.
    destruct (has_seq_id c s && _) eqn:E; [|cbn; split; [done|apply cell_follows_refl]].
    eapply post_bind; [apply s32_range|]. intros p [-> _].
    eapply post_bind; [apply s32_range|]. intros dl [-> _]. cbv zeta. cbn [set_delta set_pos c_pos].
    destruct (_ <? 0); cbn [post fst snd]; (split; [done|]); (split; [|by right]).
    + done.
    + intros He. split; [done|]. unfold key_pos. cbn. lia.
  - intros [cells [[hs used] nh]] H. exact H.
Qed.

Lemma seq_div_follows cache s p0 p1 d :
  kv_wf cache -> 0 < d -> post (llama_kv_cache_seq_div cache s p0 p1 d) (cells_follow cache) (eq UB).
Proof.
  intros Hwf Hd. unfold llama_kv_cache_seq_div. rewrite (kw_attention _ Hwf).
  destruct (range_lo p0 =? range_hi p1); [split; [done|apply cells_follow_refl]|].
  eapply post_bind; [apply (each_cell_follow _ id)|].
  - intros i c hs _. unfold seq_div_cell.
    destruct (has_seq_id c s && _) eqn:E; [|cbn; split; [done|apply cell_follows_refl]].
    unfold int_div. destruct (Z.eqb_spec d 0); [lia|].
    eapply post_bind; [apply s32_range|]. intros p [-> _].
    eapply post_bind; [apply s32_range|]. intros dl [-> _]. cbn. split; [done|]. split; [|by right].
    intros He. split; [done|]. unfold key_pos. cbn. lia.
  - intros [cells hs] H. exact H.
Qed.

(** The operations but for storing a ubatch. *)
Definition stores (op : kv_op) : bool := match op with op_find_slot _ => true | _ => false end.

Lemma op_follows op cache :
  kv_wf cache -> op_valid op -> stores op = false ->
  post (kv_exec op cache) (fun r => cells_follow cache r.2) (fun e => e = UB /\ op_shifts op).
Proof.
  intros Hwf Hop Hst. destruct op; cbn [kv_exec op_valid stores op_shifts] in *; try done.
  - cbn. split; [done|]. apply Forall2_fmap_r, Forall_Forall2_diag, Forall_forall. intros c _. by apply cell_follows_free.
  - eapply post_mono; [by apply seq_rm_follows|done|done].
  - eapply post_bind; [eapply post_mono; [by apply seq_cp_follows|intros ? H; exact H|done]|done].
  - eapply post_bind; [eapply post_mono; [by apply seq_keep_follows|intros ? H; exact H|done]|done].
  - eapply post_bind; [eapply post_mono; [by apply seq_add_follows|intros ? H; exact H|by intros ? <-]|done].
  - eapply post_bind; [eapply post_mono; [by apply seq_div_follows|intros ? H; exact H|by intros ? <-]|done].
  - unfold llama_kv_cache_defrag. case_match; cbn; split; try done; apply cells_follow_refl.
  - unfold rewind_head. case_match; cbn; split; try done; apply cells_follow_refl.
  - cbn. split; [done|]. apply cells_follow_refl.
Qed.

(** * The rows stay aligned *)

Lemma elem_of_occupied {A} cells (rows : list A) c a :
  (c, a) ∈ occupied cells rows <->
  is_empty c = false /\ exists i, cells !! i = Some c /\ rows !! i = Some a.
Proof.
  unfold occupied. rewrite list_elem_of_filter, list_elem_of_lookup. cbn. split.
  - intros [He (i & Hi)]. split; [done|]. exists i. rewrite lookup_zip_with in Hi.
    destruct (cells !! i); [|done]. cbn in Hi. destruct (rows !! i); [|done]. cbn in Hi. by injection Hi as -> ->.
  - intros [He (i & Hc & Ha)]. split; [done|]. exists i. by rewrite lookup_zip_with, Hc, Ha.
Qed.

Lemma elem_of_occupied_zip {A K} cells (rows : list A) (keys : list K) c a k :
  (c, (a, k)) ∈ occupied cells (zip rows keys) <->
  is_empty c = false /\ exists i, cells !! i = Some c /\ rows !! i = Some a /\ keys !! i = Some k.
Proof.
  rewrite elem_of_occupied. split; intros [He (i & Hc & H)]; (split; [done|]); exists i; (split; [done|]).
  - rewrite lookup_zip_with in H. destruct (rows !! i); [|done]. cbn in H. destruct (keys !! i); [|done].
    cbn in H. by injection H as -> ->.
  - destruct H as [H1 H2]. by rewrite lookup_zip_with, H1, H2.
Qed.

Lemma occupied_set_delta {X} cells (l : list X) :
  occupied (set_delta 0 <$> cells) l = (fun p => (set_delta 0 p.1, p.2)) <$> occupied cells l.
Proof.
  unfold occupied. revert l. induction cells as [|c cells IH]; intros [|x l]; try done.
  cbn [zip_with fmap list_fmap]. rewrite !filter_cons. cbn [fst].
  change (is_empty (set_delta 0 c)) with (is_empty c).
  destruct (decide (is_empty c = false)); [cbn [fmap list_fmap]; f_equal|]; apply IH.
Qed.

(** Cells without pending difference. *)
Lemma occupied_no_delta {X} cells (l : list X) :
  Forall (fun c => c_delta c = 0) cells ->
  occupied cells l = (fun p => (set_delta 0 p.1, p.2)) <$> occupied cells l.
Proof.
  intros Hd. rewrite <- occupied_set_delta. f_equal. induction Hd as [|c cells Hc Hd IH]; [done|].
  cbn [fmap list_fmap]. f_equal; [|done]. destruct c. cbn in *. by subst.
Qed.

Section follow.
Context {A K : Type} (shift_row : Z -> A -> A) (row_at : Z -> K -> A).

Lemma aligned_follow cache cache' rows keys :
  cells_follow cache cache' -> aligned row_at cache rows keys -> aligned row_at cache' rows keys.
Proof.
  intros [Hs Hc] [H1 H2 H3 H4]. assert (Hlen : kv_size cache' = kv_size cache).
  { unfold kv_size, zlen. f_equal. symmetry. by eapply Forall2_length. }
  split; [congruence|congruence| |].
  - intros Hf. rewrite Hf in *. assert (Hf0 : kv_has_shift cache = false) by by (destruct (kv_has_shift cache); [specialize (Hs eq_refl)|]; done).
    specialize (H3 Hf0). rewrite Forall_lookup in *. intros i c' Hi.
    destruct (Forall2_lookup_r _ _ _ _ _ Hc Hi) as (c & Hci & [_ [Hd|]]); [|done]. rewrite Hd. by apply (H3 i).
  - intros c' a k Hin. apply elem_of_occupied_zip in Hin as (He & i & Hi & Ha & Hk).
    destruct (Forall2_lookup_r _ _ _ _ _ Hc Hi) as (c & Hci & [Hf _]). destruct (Hf He) as [He' ->].
    apply H4, elem_of_occupied_zip. split; [done|]. by exists i.
Qed.

(** Copies do not look at the rows. *)
Lemma copy_rows_fmap {X Y} (f : X -> Y) l m : copy_rows (f <$> l) m = f <$> copy_rows l m.
Proof. destruct m as [[i id] nm]. unfold copy_rows. by rewrite !fmap_app, !fmap_take, !fmap_drop. Qed.

Lemma moved_rows_fmap {X Y} (f : X -> Y) ids l : moved_rows ids (f <$> l) = f <$> moved_rows ids l.
Proof.
  destruct ids as [ids|]; [|done]. cbn. unfold run_defrag. revert l. induction (build_defrag ids) as [|m ms IH]; intros l; [done|].
  cbn [foldl]. by rewrite copy_rows_fmap, IH.
Qed.

Lemma moved_rows_zip {X Y} ids (l : list X) (k : list Y) :
  length l = length k ->
  exists l' k', moved_rows ids l = l' /\ moved_rows ids k = k' /\ moved_rows ids (zip l k) = zip l' k' /\ length l' = length k'.
Proof.
  intros Hlen. exists (moved_rows ids l), (moved_rows ids k). splits; [done|done| |].
  - rewrite <- (zip_fst_snd (moved_rows ids (zip l k))). rewrite <- !moved_rows_fmap.
    by rewrite fst_zip, snd_zip by lia.
  - rewrite <- (fst_zip l k) at 1 by lia. rewrite <- (snd_zip l k) at 2 by lia.
    by rewrite !moved_rows_fmap, !length_fmap.
Qed.

Lemma occupied_snd {X Y} cells (l : list X) (k : list Y) :
  length l = length k ->
  occupied cells k = (fun p => (p.1, p.2.2)) <$> occupied cells (zip l k).
Proof.
  unfold occupied. revert l k. induction cells as [|c cells IH]; intros [|x l] [|y k] Hlen; try done.
  cbn [zip_with]. rewrite !filter_cons. cbn [fst]. injection Hlen as Hlen.
  destruct (decide (is_empty c = false)); cbn [fmap list_fmap]; by rewrite <- (IH l k).
Qed.

(** The update with the law of the rotation. *)
Lemma update_aligned rope max_moves cache rows keys :
  (if rope : bool then forall p d k, shift_row d (row_at p k) = row_at (p + d) k
   else forall p q k, row_at p k = row_at q k) ->
  kv_wf cache -> aligned row_at cache rows keys -> (kv_has_shift cache = true -> kv_can_shift cache = true) ->
  safe (llama_kv_cache_update_impl shift_row rope max_moves cache rows) (fun r =>
    kv_wf r.1.1 /\ kv_has_shift r.1.1 = false /\ kv_do_defrag r.1.1 = false /\ kv_size r.1.1 = kv_size cache /\
    exists keys', aligned row_at r.1.1 r.1.2 keys' /\
      occupied (kv_cells r.1.1) keys' ≡ₚ (fun p => (set_delta 0 p.1, p.2)) <$> occupied (kv_cells cache) keys).
Proof.
  intros Hrope Hwf Hal Hcan. unfold llama_kv_cache_update_impl.
  eapply (post_bind _ _ (fun r => kv_wf r.1.1 /\ kv_has_shift r.1.1 = false /\ kv_size r.1.1 = kv_size cache /\
    aligned row_at r.1.1 r.1.2 keys /\
    occupied (kv_cells r.1.1) keys = (fun p => (set_delta 0 p.1, p.2)) <$> occupied (kv_cells cache) keys)).
  - destruct Hal as [H1 H2 H3 H4]. destruct (kv_has_shift cache) eqn:Es.
    + unfold llama_kv_cache_can_shift. rewrite (Hcan eq_refl). cbn [mbind res_bind post fst snd].
      splits; [|done|unfold kv_size, zlen; cbn; by rewrite length_fmap| |apply occupied_set_delta].
      * destruct Hwf as [W1 W2 W3 W4 W5]. split; unfold kv_size in *; cbn; try done.
        -- apply Forall_fmap. eapply Forall_impl; [exact W2|]. done.
        -- rewrite W3. clear. induction (kv_cells cache) as [|c l IH]; [done|].
           cbn [fmap list_fmap]. rewrite !count_used_cons, <- IH. done.
        -- unfold zlen in *. rewrite length_fmap. done.
        -- unfold zlen in *. rewrite length_fmap. done.
      * assert (Hsz : kv_size (with_shift (with_cells cache (kv_head cache) (kv_used cache) (set_delta 0 <$> kv_cells cache)) false) = kv_size cache).
        { unfold kv_size, zlen. cbn. by rewrite length_fmap. }
        split; rewrite ?Hsz; [|done| |].
        -- destruct rope; [|done]. unfold k_shift, llama_set_k_shift, kv_size, zlen in *.
           rewrite length_zip_with, length_fmap. lia.
        -- intros _. cbn. apply Forall_fmap, Forall_true. done.
        -- intros c a k Hin. apply elem_of_occupied_zip in Hin as (He & i & Hi & Ha & Hk). cbn in Hi.
           rewrite list_lookup_fmap in Hi. destruct (kv_cells cache !! i) as [c0|] eqn:Ec; [|done]. injection Hi as <-.
           change (is_empty (set_delta 0 c0)) with (is_empty c0) in He. unfold key_pos. cbn. rewrite Z.sub_0_r.
           destruct rope.
           ++ unfold k_shift, llama_set_k_shift in Ha. rewrite lookup_zip_with, list_lookup_fmap, Ec in Ha. cbn in Ha.
              destruct (rows !! i) as [a0|] eqn:Ea; [|done]. injection Ha as <-.
              rewrite (H4 c0 a0 k) by (apply elem_of_occupied_zip; split; [done|by exists i]).
              rewrite Hrope. f_equal. unfold key_pos. lia.
           ++ rewrite (Hrope _ (key_pos c0)). apply H4, elem_of_occupied_zip. split; [done|]. by exists i.
    + cbn [post fst snd]. splits; [done|done|done|by split|]. by apply occupied_no_delta, H3.
  - intros [[cache1 rows1] need] (Hwf1 & Hs1 & Hsz1 & [H1 H2 H3 H4] & Hocc). cbn [fst snd] in *.
    destruct (kv_do_defrag cache1) eqn:Ed.
    2:{ cbn [post fst snd]. splits; [done..|]. exists keys. split; [by split|by rewrite Hocc]. }
    assert (Hlen : length rows1 = length keys) by (unfold zlen in *; lia).
    assert (Hz : zlen (zip rows1 keys) = kv_size cache1) by (unfold zlen in *; rewrite length_zip_with; lia).
    eapply post_bind; [apply (defrag_rows_spec (zip rows1 keys) max_moves cache1 Hwf1 Hz)|].
    intros [cache2 ids] (Hwf2 & Hsz2 & Hlen2 & Hperm & Hflags & Hdel). cbn [post fst snd] in *.
    destruct (moved_rows_zip ids rows1 keys Hlen) as (rows2 & keys2 & Hr & Hk & Hzip & Hlen3). rewrite Hzip in *.
    rewrite Hr. splits; [by destruct Hwf2|cbn; congruence|done|rewrite <- Hsz1; exact Hsz2|]. exists keys2.
    assert (Hl2 : zlen rows2 = kv_size cache1 /\ zlen keys2 = kv_size cache1).
    { unfold zlen in *. rewrite length_zip_with in Hlen2. lia. }
    split.
    + split; [unfold kv_size in *; cbn; lia|unfold kv_size in *; cbn; lia| |].
      * intros _. cbn. apply Hdel. by apply H3.
      * intros c a k Hin. cbn in Hin. rewrite Hperm in Hin. by apply H4.
    + cbn [kv_cells with_defrag]. rewrite (occupied_snd _ rows2 keys2 Hlen3), Hperm.
      rewrite <- (occupied_snd _ rows1 keys Hlen). by rewrite Hocc.
Qed.
End follow.

Lemma find_slot_cells cache ub :
  kv_wf cache -> ub_valid ub ->
  safe (llama_kv_cache_find_slot cache ub) (fun r =>
    kv_has_shift r.2 = kv_has_shift cache /\
    (slot_found r.1 = true -> 0 <= kv_head r.2 /\
       filled ub (kv_head r.2) (ub_n_tokens ub) (kv_cells cache) (kv_cells r.2))).
Proof.
  intros Hwf Hub. unfold llama_kv_cache_find_slot. rewrite (kw_attention _ Hwf). unfold find_slot_attention.
  assert (Hn : 0 <= ub_n_tokens ub) by (destruct Hub as [-> [? ?] _ _ _]; nia).
  destruct (Z.ltb_spec (kv_size cache) (ub_n_tokens ub)) as [Hbig|Hfit]; [by cbn|].
  eapply post_bind; [apply (search_spec (kv_cells cache) (ub_n_tokens ub)); [apply (kw_cells _ Hwf)|done|apply (kw_size _ Hwf)|apply (kw_head _ Hwf)]|].
  intros [head found] [Hh Hf]. cbn [fst snd] in *. destruct found; [|by cbn].
  destruct Hf as (Hw1 & Hw2 & _).
  eapply post_bind; [apply fill_slot_spec; [done|lia|unfold zlen in *; by rewrite length_fmap in Hw2]|].
  intros cells HF. cbn. done.
Qed.

(** What the computation of a ubatch stores at [head]: a key for every token, at
    its position. *)
Record computed {A K} (row_at : Z -> K -> A) (ub : llama_ubatch) (head : Z)
    (rows rows' : list A) (keys keys' : list K) : Prop := {
  cp_rows  : zlen rows' = zlen rows;
  cp_keys  : zlen keys' = zlen keys;
  cp_other : forall i, ~ (head <= i < head + ub_n_tokens ub) ->
               zlookup rows' i = zlookup rows i /\ zlookup keys' i = zlookup keys i;
  cp_new   : forall t, 0 <= t < ub_n_tokens ub ->
               zlookup rows' (head + t) = row_at (token_pos_of ub t) <$> zlookup keys' (head + t)
}.

Lemma store_aligned {A K} (row_at : Z -> K -> A) cache cache' ub rows rows' keys keys' :
  aligned row_at cache rows keys -> kv_has_shift cache = false -> kv_has_shift cache' = false ->
  filled ub (kv_head cache') (ub_n_tokens ub) (kv_cells cache) (kv_cells cache') ->
  computed row_at ub (kv_head cache') rows rows' keys keys' ->
  aligned row_at cache' rows' keys'.
Proof.
  intros [H1 H2 H3 H4] Hs Hs' [HL HF] [C1 C2 C3 C4]. specialize (H3 Hs). rewrite Forall_lookup in H3.
  assert (Hget : forall i c', kv_cells cache' !! i = Some c' -> exists c, kv_cells cache !! i = Some c /\ c_delta c = 0 /\
    c' = if bool_decide (kv_head cache' <= Z.of_nat i < kv_head cache' + ub_n_tokens ub)
         then fill_cell ub (Z.of_nat i - kv_head cache') c else c).
  { intros i c' Hi. destruct (lookup_lt_is_Some_2 (kv_cells cache) i) as [c Hc].
    { apply lookup_lt_Some in Hi. unfold zlen in HL. lia. }
    exists c. split; [done|]. split; [by apply (H3 i)|]. specialize (HF (Z.of_nat i) c). rewrite !zlookup_nat in HF.
    specialize (HF Hc). rewrite Hi in HF. by injection HF. }
  unfold kv_size in *. split; [unfold kv_size; lia|unfold kv_size; lia| |].
  - intros _. apply Forall_lookup. intros i c' Hi. destruct (Hget i c' Hi) as (c & _ & Hd & ->). by case_bool_decide.
  - intros c' a k Hin. apply elem_of_occupied_zip in Hin as (He & i & Hi & Ha & Hk).
    destruct (Hget i c' Hi) as (c & Hc & Hd & ->). case_bool_decide as Hw.
    + pose proof (C4 (Z.of_nat i - kv_head cache') ltac:(lia)) as Hnew.
      replace (kv_head cache' + (Z.of_nat i - kv_head cache')) with (Z.of_nat i) in Hnew by lia.
      rewrite !zlookup_nat, Ha, Hk in Hnew. injection Hnew as ->. f_equal. unfold key_pos. cbn. lia.
    + destruct (C3 (Z.of_nat i) Hw) as [E1 E2]. rewrite !zlookup_nat, Ha in E1. rewrite !zlookup_nat, Hk in E2.
      apply H4, elem_of_occupied_zip. split; [done|]. by exists i.
Qed.

(** C19. The keys follow the positions: the row of every cell in use is its key
    at the recorded position, up to a difference that is recorded in the cell
    and applied by the next update; no operation on the sequences breaks this,
    the update removes all differences and keeps which key belongs to which
    cell even when it defragments, and storing a ubatch, which happens after an
    update, adds its keys at their positions. *)
Theorem keys_follow_positions {A K} (shift_row : Z -> A -> A) (row_at : Z -> K -> A) (rope : bool) max_moves cache rows keys :
  (if rope then forall p d k, shift_row d (row_at p k) = row_at (p + d) k
   else forall p q k, row_at p k = row_at q k) ->
  kv_wf cache -> aligned row_at cache rows keys ->
  (forall op, op_valid op -> stores op = false ->
     post (kv_exec op cache) (fun r => aligned row_at r.2 rows keys) (fun e => e = UB /\ op_shifts op)) /\
  ((kv_has_shift cache = true -> kv_can_shift cache = true) ->
   safe (llama_kv_cache_update_impl shift_row rope max_moves cache rows) (fun r =>
     kv_wf r.1.1 /\ kv_has_shift r.1.1 = false /\
     exists keys', aligned row_at r.1.1 r.1.2 keys' /\
       occupied (kv_cells r.1.1) keys' ≡ₚ (fun p => (set_delta 0 p.1, p.2)) <$> occupied (kv_cells cache) keys)) /\
  (forall ub, ub_valid ub -> kv_has_shift cache = false ->
   safe (llama_kv_cache_find_slot cache ub) (fun r => slot_found r.1 = true ->
     forall rows' keys', computed row_at ub (kv_head r.2) rows rows' keys keys' -> aligned row_at r.2 rows' keys')).
Proof.
  intros Hrope Hwf Hal. splits.
  - intros op Hop Hst. eapply post_mono; [by apply (op_follows op cache)| |done].
    intros r Hf. cbn beta in Hf. apply (aligned_follow row_at cache); done.
  - intros Hcan. eapply post_mono; [by apply (update_aligned shift_row row_at rope max_moves cache rows keys)| |done].
    intros r (H1 & H2 & _ & _ & H3). by splits.
  - intros ub Hub Hs. eapply post_mono; [by apply (find_slot_cells cache ub)| |done].
    intros r [Hs' Hf] Hfound rows' keys' Hc. destruct (Hf Hfound) as [_ HF].
    eapply (store_aligned row_at cache); [done|done|congruence|done|done].
Qed.

(** A cache whose keys are numbers, rotated by adding the position. *)
Lemma demo_aligned :
  aligned (fun p k : Z => p + k) demo_cache [102; 103; 104; 105; 0; 0; 0; 0] [100; 100; 100; 100; 0; 0; 0; 0].
Proof.
  split; [done|done| |].
  - intros _. repeat (apply Forall_cons; split; [done|]). constructor.
  - intros c a k Hin. apply elem_of_occupied_zip in Hin as (He & i & Hc & Ha & Hk).
    do 8 (destruct i as [|i]; [cbn in Hc, Ha, Hk; injection Hc as <-; injection Ha as <-; injection Hk as <-; first [done | by vm_compute in He]|]).
    done.
Qed.

Lemma keys_follow_positions_witness :
  post (kv_exec (op_seq_add 0 3 (-1) 4) demo_cache)
    (fun r => aligned (fun p k : Z => p + k) r.2 [102; 103; 104; 105; 0; 0; 0; 0] [100; 100; 100; 100; 0; 0; 0; 0])
    (fun e => e = UB /\ True).
Proof.
  apply (keys_follow_positions Z.add (fun p k => p + k) true 10 demo_cache
           [102; 103; 104; 105; 0; 0; 0; 0] [100; 100; 100; 100; 0; 0; 0; 0]);
    [intros p d k; lia|exact demo_cache_wf|exact demo_aligned|exact I|reflexivity].
Defined.

Lemma defrag_moves_rows_witness :
  safe (llama_kv_cache_defrag_impl 40 demo_cache) (fun r =>
    occupied (kv_cells r.1) (moved_rows r.2 [1; 2; 3; 4; 5; 6; 7; 8]) ≡ₚ
    occupied (kv_cells demo_cache) [1; 2; 3; 4; 5; 6; 7; 8]).
Proof.
  eapply post_mono; [apply (defrag_moves_rows [1; 2; 3; 4; 5; 6; 7; 8] 40 demo_cache); [exact demo_cache_wf|reflexivity]| |intros e []].
  intros r (_ & _ & _ & H & _). exact H.
Defined.

(** A shift of the last two tokens, and what the update makes of it. *)
Example demo_shift :
  (r ← llama_kv_cache_seq_add demo_cache 0 4 (-1) 10;
   x ← llama_kv_cache_update_impl Z.add true 10 r [102; 103; 104; 105; 0; 0; 0; 0];
   Ok (c_pos <$> kv_cells r, c_delta <$> kv_cells r, x.1.2)) =
  Ok ([2; 3; 14; 15; -1; -1; -1; -1], [0; 0; 10; 10; 0; 0; 0; 0], [102; 103; 114; 115; 0; 0; 0; 0]).
Proof. vm_compute. reflexivity. Qed.

(** A view adds the pending difference to a position that already contains
    it: after moving the positions 4 and 5 by 10 it reports 24 and 25. *)
Theorem view_counts_shift_twice :
  (c ← llama_kv_cache_seq_add demo_cache 0 4 (-1) 10;
   v ← llama_kv_cache_view_update (llama_kv_cache_view_init c 1) c;
   Ok (c_pos <$> kv_cells c, v_cells v)) =
  Ok ([2; 3; 14; 15; -1; -1; -1; -1], Some [2; 3; 24; 25; -1; -1; -1; -1]).
Proof. vm_compute. reflexivity. Qed.
