(* ===== verification/Outputs.v ===== *)
(** The output buffers of a context ([src/llama-context.cpp]): reserving them,
    putting the rows into the order of the batch, and the accessors. A float is
    an element of an arbitrary type, and the buffers are lists of floats, as
    in the code: row [j] of the logits starts at [j * n_vocab]. *)
From S2P Require Import Prelude.

(** The members of [llama_context] that describe the output; [o_buf] is the size
    in bytes of the allocated buffer. *)
Record outputs (F : Type) : Type := mk_outputs {
  o_ids         : list Z;
  o_n_outputs   : Z;
  o_output_size : Z;
  o_logits_size : Z;
  o_embd_size   : Z;
  o_logits      : option (list F);
  o_embd        : option (list F);
  o_buf         : option Z
}.
Arguments mk_outputs {F}.
Arguments o_ids {F}.
Arguments o_n_outputs {F}.
Arguments o_output_size {F}.
Arguments o_logits_size {F}.
Arguments o_embd_size {F}.
Arguments o_logits {F}.
Arguments o_embd {F}.
Arguments o_buf {F}.

(** What the functions read of the model and of the context parameters. *)
Record output_params : Type := mk_oparams {
  op_n_vocab    : Z;
  op_n_embd     : Z;
  op_n_batch    : Z;
  op_n_seq_max  : Z;
  op_embeddings : bool;
  op_no_pooling : bool
}.

Definition size_t (x : Z) : Z := wrap_u 64 x.

Section outputs.
Context {F : Type} (p : output_params).
Implicit Types (o : outputs F) (l : list F).

(** ** Reserving *)

(** [llama_output_reserve]. [alloc] is the allocation of a host buffer: the size
    of the buffer for a requested size, or nothing when it fails; [zero] is
    what [ggml_backend_buffer_clear] writes. *)
Definition llama_output_reserve (alloc : Z -> option Z) (zero : F) o (n_outputs : Z) : outputs F * Z :=
  let n_outputs_max := Z.max n_outputs (op_n_seq_max p) in
  let has_logits := negb (op_embeddings p) in
  let has_embd := op_embeddings p && op_no_pooling p in
  let logits_size := if has_logits then size_t (op_n_vocab p * n_outputs_max) else 0 in
  let embd_size := if has_embd then size_t (op_n_embd p * n_outputs_max) else 0 in
  let ids := match o_ids o with [] => replicate (Z.to_nat (op_n_batch p)) 0 | ids => ids end in
  let prev_size := default 0 (o_buf o) in
  let new_size := size_t (size_t (logits_size + embd_size) * 4) in
  let grow := bool_decide (o_buf o = None) || (prev_size <? new_size) in
  let o := if grow && bool_decide (is_Some (o_buf o))
           then mk_outputs ids (o_n_outputs o) (o_output_size o) (o_logits_size o) (o_embd_size o) None None None
           else mk_outputs ids (o_n_outputs o) (o_output_size o) (o_logits_size o) (o_embd_size o)
                  (o_logits o) (o_embd o) (o_buf o) in
  let buf := if grow then alloc new_size else o_buf o in
  match buf with
  | None => (o, 0)
  | Some _ =>
      (mk_outputs (replicate (length (o_ids o)) (-1)) 0 n_outputs_max logits_size embd_size
         (if has_logits then Some (replicate (Z.to_nat logits_size) zero) else None)
         (if has_embd then Some (replicate (Z.to_nat embd_size) zero) else None) buf,
       n_outputs_max)
  end.

(** ** Reordering *)

(** [std::swap(l[i], l[j])] *)
Definition swap_at {A} (l : list A) (i j : Z) : res (list A) :=
  x ← vget l i; y ← vget l j; l ← vset l i y; vset l j x.

(** The offset of row [j]: an [int32_t] times a [uint32_t]. *)
Definition row_offset (j n : Z) : Z := u32 (j * n).

(** [for (k = 0; k < n; k++) swap(l[i*n + k], l[j*n + k])] *)
Definition swap_rows (n : Z) (l : list F) (i j : Z) : res (list F) :=
  for_z 0 n (fun k l => swap_at l (u32 (row_offset i n + k)) (u32 (row_offset j n + k))) l.

(** The index of the least element from [i] on. *)
Definition min_index (out_ids : list Z) (n_outputs i : Z) : res Z :=
  for_z (i + 1) n_outputs (fun j j_min =>
    a ← vget out_ids j; b ← vget out_ids j_min; Ok (if a <? b then j else j_min)) i.

(** Rows of an array that is there when its size is not 0. *)
Definition swap_rows_if (size n : Z) (buf : option (list F)) (i j : Z) : res (option (list F)) :=
  if 0 <? size then l ← or_ub buf; l ← swap_rows n l i j; Ok (Some l) else Ok buf.

(** One iteration of the selection sort. *)
Definition reorder_step o (i : Z) (s : list Z * (option (list F) * option (list F)))
    : res (list Z * (option (list F) * option (list F))) :=
  let '(out_ids, (logits, embd)) := s in
  j_min ← min_index out_ids (o_n_outputs o) i;
  if j_min =? i then Ok s
  else
    out_ids ← swap_at out_ids i j_min;
    logits ← swap_rows_if (o_logits_size o) (op_n_vocab p) logits i j_min;
    embd ← swap_rows_if (o_embd_size o) (op_n_embd p) embd i j_min;
    Ok (out_ids, (logits, embd)).

(** [for (i = 0; i < n_outputs; ++i) output_ids[out_ids[i]] = i] *)
Definition map_outputs (out_ids : list Z) (n_outputs : Z) (ids : list Z) : res (list Z) :=
  for_z 0 n_outputs (fun i ids => id ← vget out_ids i; vset ids id i) ids.

(** [llama_output_reorder], on the [out_ids] of the batch and the outputs. *)
Definition llama_output_reorder (out_ids : list Z) o : res (list Z * outputs F) :=
  match out_ids with
  | [] => Ok ([], o)
  | _ =>
      ggml_assert (o_n_outputs o =? zlen out_ids);;
      s ← for_z 0 (o_n_outputs o - 1) (reorder_step o) (out_ids, (o_logits o, o_embd o));
      let '(out_ids, (logits, embd)) := s : list Z * (option (list F) * option (list F)) in
      ids ← map_outputs out_ids (o_n_outputs o) (replicate (length (o_ids o)) (-1));
      Ok ([], mk_outputs ids (o_n_outputs o) (o_output_size o) (o_logits_size o) (o_embd_size o) logits embd (o_buf o))
  end.

(** ** Accessors *)

(** The index of the row for [i] that [llama_get_logits_ith] and
    [llama_get_embeddings_ith] compute, as an exception or a number. *)
Definition output_index {A} (buf : option A) o (i : Z) : res Z :=
  match buf with
  | None => throw "no output"
  | Some _ =>
      j ← (if i <? 0 then
             let j := o_n_outputs o + i in
             if j <? 0 then throw "negative index out of range" else Ok j
           else if zlen (o_ids o) <=? i then throw "out of range"
           else vget (o_ids o) i);
      if j <? 0 then throw "batch.logits[i] != true"
      else if o_n_outputs o <=? j then throw "corrupt output buffer"
      else Ok j
  end.

(** The functions catch the exceptions and return a null pointer (unless they
    are compiled without NDEBUG); the pointer is an offset into the buffer. *)
Definition caught (r : res Z) : option Z := match r with Ok x => Some x | Err _ => None end.

Definition llama_get_logits_ith o (i : Z) : option Z :=
  caught (j ← output_index (o_logits o) o i; Ok (row_offset j (op_n_vocab p))).

Definition llama_get_embeddings_ith o (i : Z) : option Z :=
  caught (j ← output_index (o_embd o) o i; Ok (row_offset j (op_n_embd p))).

(** [llama_get_logits] and [llama_get_embeddings] reorder first. *)
Definition llama_get_logits (out_ids : list Z) o : res (list Z * outputs F * option (list F)) :=
  r ← llama_output_reorder out_ids o; Ok (r, o_logits r.2).

Definition llama_get_embeddings (out_ids : list Z) o : res (list Z * outputs F * option (list F)) :=
  r ← llama_output_reorder out_ids o; Ok (r, o_embd r.2).

(** [llama_get_embeddings_seq] *)
Definition llama_get_embeddings_seq (embd_seq : gmap Z (list F)) (seq_id : Z) : option (list F) :=
  embd_seq !! seq_id.
End outputs.

(** * Swapping rows *)

(** The index at which [x] is found after exchanging [i] and [j]. *)
Definition swapped (i j x : Z) : Z := if x =? i then j else if x =? j then i else x.

Lemma swapped_range i j x n : 0 <= i < n -> 0 <= j < n -> 0 <= x < n -> 0 <= swapped i j x < n.
Proof. unfold swapped. intros. repeat case_match; lia. Qed.

Lemma swapped_invol i j x : swapped i j (swapped i j x) = x.
Proof. unfold swapped. repeat (case_match; try lia). Qed.

Lemma swap_at_spec {A} (l : list A) i j :
  0 <= i < zlen l -> 0 <= j < zlen l ->
  safe (swap_at l i j) (fun l' => zlen l' = zlen l /\
    forall x, 0 <= x < zlen l -> zlookup l' x = zlookup l (swapped i j x)).
Proof.
  intros Hi Hj. unfold swap_at. destruct (zlookup_lt l i Hi) as [a Ha], (zlookup_lt l j Hj) as [b Hb].
  rewrite (vget_Some _ _ _ Ha), (vget_Some _ _ _ Hb). cbn [mbind res_bind].
  rewrite vset_at by done. cbn [mbind res_bind]. rewrite vset_at by by rewrite zlen_insert.
  cbn [post]. rewrite !zlen_insert. split; [done|]. intros x Hx.
  rewrite zlookup_insert by (rewrite ?zlen_insert; lia). unfold swapped. case_decide as E1.
  - subst x. destruct (Z.eqb_spec j i) as [->|]; [|by rewrite Z.eqb_refl].
    rewrite Ha in Hb. by rewrite Ha.
  - rewrite zlookup_insert by lia. case_decide as E2.
    + subst x. by rewrite Z.eqb_refl.
    + destruct (Z.eqb_spec x i); [lia|]. destruct (Z.eqb_spec x j); [lia|done].
Qed.

(** [j_min] is the index of a least element from [i] on. *)
Lemma min_index_spec out_ids n i :
  0 <= i < n -> n = zlen out_ids ->
  safe (min_index out_ids n i) (fun m => i <= m < n /\
    forall a b j, zlookup out_ids m = Some a -> i <= j < n -> zlookup out_ids j = Some b -> a <= b).
Proof.
  intros Hi Hn. unfold min_index.
  apply (for_z_post (i + 1) n _ (fun k m => i <= m < k /\
    forall a b j, zlookup out_ids m = Some a -> i <= j < k -> zlookup out_ids j = Some b -> a <= b)); [lia| |].
  - split; [lia|]. intros a b j Ha Hj Hb. assert (j = i) as -> by lia. rewrite Ha in Hb. by injection Hb as ->.
  - intros k m Hk [Hm Hmin]. destruct (zlookup_lt out_ids k) as [x Hx]; [lia|].
    destruct (zlookup_lt out_ids m) as [y Hy]; [lia|].
    rewrite (vget_Some _ _ _ Hx), (vget_Some _ _ _ Hy). cbn [mbind res_bind post].
    destruct (Z.ltb_spec x y) as [Hlt|Hge]; (split; [lia|]); intros a b j Ha Hj Hb.
    + rewrite Hx in Ha. injection Ha as <-. destruct (decide (j = k)) as [->|].
      * rewrite Hx in Hb. injection Hb as <-. lia.
      * pose proof (Hmin y b j Hy ltac:(lia) Hb). lia.
    + rewrite Hy in Ha. injection Ha as <-. destruct (decide (j = k)) as [->|].
      * rewrite Hx in Hb. injection Hb as <-. lia.
      * by apply (Hmin y b j Hy ltac:(lia)).
Qed.

Section reorder.
Context {F : Type}.
Implicit Types (l : list F).

(** Row [j] of a buffer with rows of [n] floats. *)
Definition row (n : Z) l (j : Z) : list F := take (Z.to_nat n) (drop (Z.to_nat (j * n)) l).

Lemma row_ext n l k i j :
  0 <= n -> 0 <= i -> 0 <= j ->
  (forall x, 0 <= x < n -> zlookup l (i * n + x) = zlookup k (j * n + x)) -> row n l i = row n k j.
Proof.
  intros Hn Hi Hj H. unfold row. apply list_eq. intros y. destruct (decide (y < Z.to_nat n)%nat) as [Hy|Hy].
  - rewrite !lookup_take_lt, !lookup_drop by done. specialize (H (Z.of_nat y) ltac:(lia)). unfold zlookup in H.
    destruct (Z.leb_spec 0 (i * n + Z.of_nat y)); [|nia]. destruct (Z.leb_spec 0 (j * n + Z.of_nat y)); [|nia].
    replace (Z.to_nat (i * n) + y)%nat with (Z.to_nat (i * n + Z.of_nat y)) by nia.
    by replace (Z.to_nat (j * n) + y)%nat with (Z.to_nat (j * n + Z.of_nat y)) by nia.
  - by rewrite !lookup_take_ge by lia.
Qed.

(** The floats of the rows [i] and [j] exchanged up to column [k]. *)
Definition swapped_until (n i j k x : Z) : Z :=
  if (i * n <=? x) && (x <? i * n + k) then x + (j - i) * n
  else if (j * n <=? x) && (x <? j * n + k) then x + (i - j) * n else x.

Lemma swapped_until_row n i j r x :
  0 <= x < n -> i <> j -> swapped_until n i j n (r * n + x) = swapped i j r * n + x.
Proof.
  intros Hx Hij. assert (Hd : i * n + n <= j * n \/ j * n + n <= i * n) by nia.
  assert (Hri : r <> i -> r * n + n <= i * n \/ i * n + n <= r * n) by nia.
  assert (Hrj : r <> j -> r * n + n <= j * n \/ j * n + n <= r * n) by nia.
  unfold swapped_until, swapped. destruct (Z.eqb_spec r i) as [->|Hi].
  - assert ((i * n <=? i * n + x) && (i * n + x <? i * n + n) = true) as -> by lia. lia.
  - specialize (Hri Hi). assert ((i * n <=? r * n + x) && (r * n + x <? i * n + n) = false) as -> by lia.
    destruct (Z.eqb_spec r j) as [->|Hj].
    + assert ((j * n <=? j * n + x) && (j * n + x <? j * n + n) = true) as -> by lia. lia.
    + specialize (Hrj Hj). assert ((j * n <=? r * n + x) && (r * n + x <? j * n + n) = false) as -> by lia. done.
Qed.

Lemma swap_rows_spec n l m i j :
  0 <= n -> 0 <= i < m -> 0 <= j < m -> i <> j -> m * n <= zlen l -> m * n < 4294967296 ->
  safe (swap_rows n l i j) (fun l' => zlen l' = zlen l /\
    forall r, 0 <= r < m -> row n l' r = row n l (swapped i j r)).
Proof.
  intros Hn Hi Hj Hij Hl Hm.
  assert (Hd : i * n + n <= j * n \/ j * n + n <= i * n) by nia.
  assert (Hend : i * n + n <= m * n /\ j * n + n <= m * n) by nia.
  assert (Hnn : 0 <= i * n /\ 0 <= j * n) by nia.
  eapply (post_mono _ (fun l' => zlen l' = zlen l /\ forall x, 0 <= x < zlen l -> zlookup l' x = zlookup l (swapped_until n i j n x)) _ (fun _ => False)); [| |done].
  - unfold swap_rows.
    apply (for_z_post 0 n _ (fun k l' => zlen l' = zlen l /\ forall x, 0 <= x < zlen l -> zlookup l' x = zlookup l (swapped_until n i j k x))); [done| |].
    + split; [done|]. intros x Hx. f_equal. unfold swapped_until. repeat (case_match; try lia).
    + intros k l' Hk [Hlen Hall]. unfold row_offset. rewrite !(u32_small (_ * n)) by lia. rewrite !u32_small by lia.
      eapply post_mono; [apply (swap_at_spec l' (i * n + k) (j * n + k)); lia| |done].
      intros l2 [Hlen2 H2]. split; [lia|]. intros x Hx. rewrite H2 by lia.
      assert (Hs : 0 <= swapped (i * n + k) (j * n + k) x < zlen l) by (apply swapped_range; lia).
      rewrite Hall by lia. f_equal. clear - Hd Hk Hnn Hij. unfold swapped_until, swapped.
      repeat case_match; lia.
  - intros l' [Hlen Hall]. split; [done|]. intros r Hr. pose proof (swapped_range i j r m Hi Hj Hr) as Hs.
    apply row_ext; [done|lia|lia|]. intros x Hx.
    assert (Hrn : 0 <= r * n + x < m * n) by nia. rewrite Hall by lia. by rewrite swapped_until_row.
Qed.

(** ** The selection sort *)

(** A buffer of at least [m] rows, where there is one. *)
Definition buf_ok (size n m : Z) (buf : option (list F)) : Prop :=
  0 < size -> exists l, buf = Some l /\ m * n <= zlen l.

Definition buf_row (size n : Z) (buf : option (list F)) (j : Z) : option (list F) :=
  if 0 <? size then (fun l => row n l j) <$> buf else None.

Lemma swap_rows_if_spec size n m buf i j :
  0 <= n -> 0 <= i < m -> 0 <= j < m -> i <> j -> m * n < 4294967296 -> buf_ok size n m buf ->
  safe (swap_rows_if size n buf i j) (fun buf' => buf_ok size n m buf' /\ (size <= 0 -> buf' = buf) /\
    forall r, 0 <= r < m -> buf_row size n buf' r = buf_row size n buf (swapped i j r)).
Proof.
  intros Hn Hi Hj Hij Hm Hok. unfold swap_rows_if, buf_row. destruct (Z.ltb_spec 0 size) as [Hs|Hs].
  - destruct (Hok Hs) as (l & -> & Hl). cbn [or_ub mbind res_bind].
    eapply post_bind; [by apply (swap_rows_spec n l m i j)|]. intros l' [Hlen Hr]. cbn [post].
    splits; [|lia|].
    + intros _. exists l'. split; [done|lia].
    + intros r Hrr. cbn. by rewrite Hr.
  - cbn [post]. by splits.
Qed.
End reorder.

Section reordered.
Context {F : Type} (p : output_params) (o : outputs F).

(** An output, the row of its logits and the row of its embedding. *)
Definition entry (s : list Z * (option (list F) * option (list F))) (j : Z) : option Z * (option (list F) * option (list F)) :=
  (zlookup s.1 j, (buf_row (o_logits_size o) (op_n_vocab p) s.2.1 j, buf_row (o_embd_size o) (op_n_embd p) s.2.2 j)).

Definition table s := entry s <$> zseq 0 (Z.to_nat (o_n_outputs o)).

(** The sizes fit into the buffers and the offsets into 32 bits. *)
Record rows_fit (m : Z) : Prop := {
  rf_vocab  : 0 <= op_n_vocab p /\ m * op_n_vocab p < 4294967296;
  rf_embd   : 0 <= op_n_embd p /\ m * op_n_embd p < 4294967296
}.

Record sort_inv s0 (i : Z) (s : list Z * (option (list F) * option (list F))) : Prop := {
  so_len    : zlen s.1 = o_n_outputs o;
  so_logits : buf_ok (o_logits_size o) (op_n_vocab p) (o_n_outputs o) s.2.1;
  so_embd   : buf_ok (o_embd_size o) (op_n_embd p) (o_n_outputs o) s.2.2;
  so_table  : table s ≡ₚ table s0;
  so_sorted : forall a b x y, 0 <= a < i -> a < b -> zlookup s.1 a = Some x -> zlookup s.1 b = Some y -> x <= y
}.

Lemma swapped_zseq i j n :
  0 <= i < Z.of_nat n -> 0 <= j < Z.of_nat n -> swapped i j <$> zseq 0 n ≡ₚ zseq 0 n.
Proof.
  intros Hi Hj. apply NoDup_Permutation.
  - apply NoDup_fmap_2_strong; [|apply NoDup_fmap_2, NoDup_seq; intros ??; lia].
    intros x y _ _ E. by rewrite <- (swapped_invol i j x), E, swapped_invol.
  - apply NoDup_fmap_2; [intros ??; lia|apply NoDup_seq].
  - intros x. rewrite list_elem_of_fmap, elem_of_zseq. split.
    + intros (y & -> & Hy). apply elem_of_zseq in Hy. apply (swapped_range i j y (Z.of_nat n)); lia.
    + intros Hx. exists (swapped i j x). rewrite swapped_invol, elem_of_zseq. split; [done|].
      apply (swapped_range i j x (Z.of_nat n)); lia.
Qed.

(** The ids can be read off the table. *)
Lemma table_ids s : zlen s.1 = o_n_outputs o -> (fun e => default 0 e.1) <$> table s = s.1.
Proof.
  intros Hs. unfold table. rewrite <- list_fmap_compose. apply list_eq. intros k.
  unfold zseq. rewrite !list_lookup_fmap. unfold zlen in Hs. destruct (decide (k < length s.1)%nat) as [Hk|Hk].
  - rewrite lookup_seq_lt by lia. cbn [fmap option_fmap option_map entry fst snd compose]. unfold entry. cbn [fst].
    rewrite Z.add_0_l, zlookup_nat, Nat.add_0_l. destruct (lookup_lt_is_Some_2 s.1 k Hk) as [x Hx]. by rewrite Hx.
  - rewrite lookup_seq_ge by lia. cbn. by rewrite (lookup_ge_None_2 s.1 k) by lia.
Qed.

Lemma zlookup_nodup {A} (l : list A) i j x : NoDup l -> zlookup l i = Some x -> zlookup l j = Some x -> i = j.
Proof.
  unfold zlookup. intros Hnd Hi Hj. destruct (Z.leb_spec 0 i), (Z.leb_spec 0 j); try done.
  pose proof (NoDup_lookup _ _ _ _ Hnd Hi Hj). lia.
Qed.

Lemma reorder_step_spec s0 i s :
  rows_fit (o_n_outputs o) -> 0 <= i < o_n_outputs o - 1 -> sort_inv s0 i s ->
  safe (reorder_step p o i s) (sort_inv s0 (i + 1)).
Proof.
  intros [[Hv Hv'] [He He']] Hi [H1 H2 H3 H4 H5]. destruct s as [out [lg em]]. unfold reorder_step. cbn [fst snd] in *.
  eapply post_bind; [apply (min_index_spec out (o_n_outputs o) i); lia|]. intros jm [Hjm Hmin]. cbn beta in *.
  destruct (Z.eqb_spec jm i) as [->|Hne].
  - cbn [post]. split; cbn [fst snd]; try done. intros a b x y Ha Hab Hx Hy.
    destruct (decide (a = i)) as [->|]; [|apply (H5 a b); [lia|done|done|done]].
    apply (Hmin x y b Hx); [|done]. pose proof (zlookup_Some_lt _ _ _ Hy). lia.
  - eapply post_bind; [apply (swap_at_spec out i jm); lia|]. intros out' [Hlen Hout].
    eapply post_bind; [apply (swap_rows_if_spec _ _ (o_n_outputs o) lg i jm); lia || done|]. intros lg' (L1 & _ & L2).
    eapply post_bind; [apply (swap_rows_if_spec _ _ (o_n_outputs o) em i jm); lia || done|]. intros em' (E1 & _ & E2).
    cbn [post]. split; cbn [fst snd]; [lia|done|done| |].
    + rewrite <- H4. unfold table. rewrite <- (swapped_zseq i jm (Z.to_nat (o_n_outputs o))) at 2 by lia.
      rewrite <- list_fmap_compose. apply reflexive_eq, list_fmap_ext. intros k x Hx.
      apply list_elem_of_lookup_2, elem_of_zseq in Hx. unfold entry, compose. cbn [fst snd].
      rewrite Hout, L2, E2 by lia. done.
    + intros a b x y Ha Hab Hx Hy. pose proof (zlookup_Some_lt _ _ _ Hy) as Hb.
      rewrite Hout in Hx, Hy by lia. unfold swapped in Hx, Hy.
      destruct (decide (a = i)) as [->|].
      * rewrite Z.eqb_refl in Hx. destruct (Z.eqb_spec b i); [lia|]. destruct (Z.eqb_spec b jm).
        -- apply (Hmin x y i Hx); [lia|done].
        -- apply (Hmin x y b Hx); [lia|done].
      * destruct (Z.eqb_spec a i); [lia|]. destruct (Z.eqb_spec a jm); [lia|].
        destruct (Z.eqb_spec b i); [|destruct (Z.eqb_spec b jm)].
        -- apply (H5 a jm); [lia|lia|done|done].
        -- apply (H5 a i); [lia|lia|done|done].
        -- apply (H5 a b); [lia|lia|done|done].
Qed.

Lemma map_outputs_spec out_ids ids n :
  n = zlen out_ids -> NoDup out_ids -> Forall (fun id => 0 <= id < zlen ids) out_ids ->
  safe (map_outputs out_ids n ids) (fun ids' => zlen ids' = zlen ids /\
    (forall i id, zlookup out_ids i = Some id -> zlookup ids' id = Some i) /\
    (forall id, id ∉ out_ids -> zlookup ids' id = zlookup ids id)).
Proof.
  intros Hn Hnd Hr. unfold map_outputs. rewrite Forall_forall in Hr.
  assert (Hget : forall i id, zlookup out_ids i = Some id -> 0 <= id < zlen ids).
  { intros i id H. apply Hr, elem_of_zlookup. exists i. split; [by apply zlookup_Some_lt in H|done]. }
  eapply (post_mono _ (fun ids' => zlen ids' = zlen ids /\
    (forall i id, i < n -> zlookup out_ids i = Some id -> zlookup ids' id = Some i) /\
    (forall id, (forall i, i < n -> zlookup out_ids i <> Some id) -> zlookup ids' id = zlookup ids id)) _ (fun _ => False)); [| |done].
  - apply (for_z_post 0 n _ (fun k ids' => zlen ids' = zlen ids /\
      (forall i id, i < k -> zlookup out_ids i = Some id -> zlookup ids' id = Some i) /\
      (forall id, (forall i, i < k -> zlookup out_ids i <> Some id) -> zlookup ids' id = zlookup ids id)));
      [pose proof (zlen_nonneg out_ids); lia| |].
    + splits; [done| |done]. intros i id Hi H. apply zlookup_Some_lt in H. lia.
    + intros k ids' Hk (H1 & H2 & H3). destruct (zlookup_lt out_ids k) as [id Hid]; [lia|].
      rewrite (vget_Some _ _ _ Hid). cbn [mbind res_bind]. pose proof (Hget _ _ Hid).
      rewrite vset_at by lia. cbn [post].
      splits; [by rewrite zlen_insert| |].
      * intros i id' Hi Hid'. pose proof (Hget _ _ Hid'). rewrite zlookup_insert by lia. case_decide as E.
        -- subst id'. f_equal. by apply (zlookup_nodup out_ids k i id).
        -- apply H2; [|done]. destruct (decide (i = k)) as [->|]; [|lia]. rewrite Hid in Hid'. by injection Hid'.
      * intros id' Hn'. destruct (Z.lt_ge_cases id' 0) as [Hneg|Hpos].
        { unfold zlookup. by destruct (Z.leb_spec 0 id'); [lia|]. }
        rewrite zlookup_insert by lia. case_decide as E.
        -- subst id'. exfalso. by apply (Hn' k); [lia|].
        -- apply H3. intros i Hi. apply Hn'. lia.
  - intros ids' (H1 & H2 & H3). splits; [done| |].
    + intros i id Hi. apply H2; [|done]. apply zlookup_Some_lt in Hi. lia.
    + intros id Hid. apply H3. intros i _ Hi. apply Hid, elem_of_zlookup. exists i.
      split; [by apply zlookup_Some_lt in Hi|done].
Qed.

(** The outputs that a decoded batch leaves: [output_ids] maps the ids of the
    batch to their rows. *)
Record outputs_ok (out_ids : list Z) : Prop := {
  ok_count  : o_n_outputs o = zlen out_ids;
  ok_nodup  : NoDup out_ids;
  ok_range  : Forall (fun id => 0 <= id < zlen (o_ids o)) out_ids;
  ok_logits : buf_ok (o_logits_size o) (op_n_vocab p) (o_n_outputs o) (o_logits o);
  ok_embd   : buf_ok (o_embd_size o) (op_n_embd p) (o_n_outputs o) (o_embd o);
  ok_fit    : rows_fit (o_n_outputs o)
}.

(** C21. Reordering puts the rows into the order of the batch: afterwards every
    output [id] has a row again and all other ids have none, the rows of the
    outputs increase with their ids, and the row of an output holds the logits
    and the embedding that its old row held. *)
Theorem reorder_sorts_rows out_ids :
  outputs_ok out_ids -> out_ids <> [] ->
  safe (llama_output_reorder p out_ids o) (fun r =>
    r.1 = [] /\ zlen (o_ids r.2) = zlen (o_ids o) /\ o_n_outputs r.2 = o_n_outputs o /\
    (forall id, id ∉ out_ids -> 0 <= id < zlen (o_ids o) -> zlookup (o_ids r.2) id = Some (-1)) /\
    (forall i id, zlookup out_ids i = Some id -> exists j, 0 <= j < o_n_outputs o /\ zlookup (o_ids r.2) id = Some j /\
       buf_row (o_logits_size o) (op_n_vocab p) (o_logits r.2) j = buf_row (o_logits_size o) (op_n_vocab p) (o_logits o) i /\
       buf_row (o_embd_size o) (op_n_embd p) (o_embd r.2) j = buf_row (o_embd_size o) (op_n_embd p) (o_embd o) i) /\
    (forall a b i j, a ∈ out_ids -> b ∈ out_ids -> zlookup (o_ids r.2) a = Some i -> zlookup (o_ids r.2) b = Some j ->
       a < b -> i < j)).
Proof.
  intros [K1 K2 K3 K4 K5 K6] Hne. unfold llama_output_reorder. destruct out_ids as [|id0 out0]; [done|].
  set (out_ids := id0 :: out0) in *. rewrite K1, Z.eqb_refl. cbn [ggml_assert mbind res_bind]. rewrite <- K1.
  assert (Hpos : 0 < o_n_outputs o) by (rewrite K1; unfold out_ids; rewrite zlen_cons; pose proof (zlen_nonneg out0); lia).
  eapply post_bind.
  { apply (for_z_post 0 (o_n_outputs o - 1) _ (sort_inv (out_ids, (o_logits o, o_embd o)))); [lia| |].
    - split; cbn [fst snd]; try done. intros a b x y Ha. lia.
    - intros j s Hj Hs. by apply reorder_step_spec. }
  intros [out' [lg em]] [H1 H2 H3 H4 H5]. cbn [fst snd] in *.
  assert (Hperm : out' ≡ₚ out_ids).
  { pose proof (table_ids (out', (lg, em)) H1) as T1. pose proof (table_ids (out_ids, (o_logits o, o_embd o)) (eq_sym K1)) as T2.
    cbn [fst] in T1, T2. rewrite <- T1, <- T2. by rewrite H4. }
  assert (Hnd : NoDup out') by by rewrite Hperm.
  assert (Hrows : forall i j id, zlookup out' j = Some id -> zlookup out_ids i = Some id ->
    buf_row (o_logits_size o) (op_n_vocab p) lg j = buf_row (o_logits_size o) (op_n_vocab p) (o_logits o) i /\
    buf_row (o_embd_size o) (op_n_embd p) em j = buf_row (o_embd_size o) (op_n_embd p) (o_embd o) i).
  { intros i j id Hj Hi. assert (Hin : entry (out', (lg, em)) j ∈ table (out_ids, (o_logits o, o_embd o))).
    { rewrite <- H4. apply list_elem_of_fmap. exists j. split; [done|]. apply elem_of_zseq. apply zlookup_Some_lt in Hj. lia. }
    apply list_elem_of_fmap in Hin as (i' & E & Hi'). apply elem_of_zseq in Hi'. unfold entry in E. cbn [fst snd] in E.
    injection E as E1 E2 E3. rewrite Hj in E1. assert (i' = i) as -> by (apply (zlookup_nodup out_ids _ _ id); done). by rewrite E2, E3. }
  eapply post_bind.
  { apply (map_outputs_spec out' (replicate (length (o_ids o)) (-1)) (o_n_outputs o)); [lia|done|].
    rewrite Hperm. eapply Forall_impl; [exact K3|]. intros id Hid. unfold zlen in *. by rewrite length_replicate. }
  intros ids (M1 & M2 & M3). cbn [post fst snd o_ids o_n_outputs o_logits o_embd o_logits_size o_embd_size].
  assert (Hplace : forall id, id ∈ out_ids -> exists j, 0 <= j < o_n_outputs o /\ zlookup out' j = Some id /\ zlookup ids id = Some j).
  { intros id Hid. rewrite <- Hperm in Hid. apply elem_of_zlookup in Hid as (j & Hj & Ej). exists j. split; [lia|]. split; [done|by apply M2]. }
  splits; [done| |done| | |].
  - rewrite M1. unfold zlen. by rewrite length_replicate.
  - intros id Hid Hr. rewrite M3 by by rewrite Hperm. by apply zlookup_replicate_lt.
  - intros i id Hi. destruct (Hplace id) as (j & Hj & Ej & Ei); [apply elem_of_zlookup; exists i; split; [by apply zlookup_Some_lt in Hi|done]|].
    exists j. split; [done|]. split; [done|]. by apply (Hrows i j id).
  - intros a b i j Ha Hb Hi Hj Hab. destruct (Hplace a Ha) as (i' & Ri & Oi & Ei). destruct (Hplace b Hb) as (j' & Rj & Oj & Ej).
    rewrite Ei in Hi. injection Hi as <-. rewrite Ej in Hj. injection Hj as <-.
    destruct (Z.lt_trichotomy i' j') as [?|[->|Hlt]]; [done| |].
    + rewrite Oi in Oj. injection Oj as ->. lia.
    + pose proof (H5 j' i' b a ltac:(lia) Hlt Oj Oi). lia.
Qed.
End reordered.

(** Three outputs computed in the order 4, 1, 2 with rows of two floats. *)
Definition demo_outputs : outputs Z :=
  mk_outputs [-1; 1; 2; -1; 0] 3 3 6 0 (Some [40; 41; 10; 11; 20; 21]) None (Some 24).

Definition demo_oparams : output_params := mk_oparams 2 0 5 1 false false.

Example demo_reorder :
  (r ← llama_output_reorder demo_oparams [4; 1; 2] demo_outputs; Ok (o_ids r.2, o_logits r.2)) =
  Ok ([-1; 0; 1; -1; 2], Some [10; 11; 20; 21; 40; 41]).
Proof. vm_compute. reflexivity. Qed.

Lemma reorder_sorts_rows_witness :
  safe (llama_output_reorder demo_oparams [4; 1; 2] demo_outputs) (fun r =>
    exists j, 0 <= j < 3 /\ zlookup (o_ids r.2) 4 = Some j /\
      buf_row 6 2 (o_logits r.2) j = Some [40; 41]).
Proof.
  eapply post_mono; [apply (reorder_sorts_rows demo_oparams demo_outputs [4; 1; 2])| |intros e []].
  - split; cbn; [reflexivity| | | | |].
    + repeat (apply NoDup_cons; split; [set_solver|]). apply NoDup_nil_2.
    + repeat (apply Forall_cons; split; [unfold zlen; cbn; lia|]). constructor.
    + intros _. eexists. split; [reflexivity|vm_compute; discriminate].
    + intros H. discriminate H.
    + split; cbn; lia.
  - discriminate.
  - intros r (_ & _ & _ & _ & H & _). destruct (H 0 4 eq_refl) as (j & H1 & H2 & H3 & _).
    exists j. split; [exact H1|]. split; [exact H2|exact H3].
Defined.
