(* ===== verification/Inputs.v ===== *)
(** The inputs of a computation ([llama_set_inputs] of [src/llama-context.cpp]):
    which tokens are outputs, which cells of the cache a token attends to, the
    rows of the pooled embeddings and the sources of the recurrent states. A
    tensor is the list of its elements. *)
From S2P Require Import Prelude Batch KvCache KvSpec KvUpdate.

(** An entry of a mask: minus infinity, or a bias that is the float of an
    integer. *)
Inductive mask_value : Type := NegInf | Bias (b : Z).

#[export] Instance mask_value_eq_dec : EqDecision mask_value.
Proof. solve_decision. Defined.

(** What the function reads of the model and of the context parameters. *)
Record input_params : Type := mk_iparams {
  ip_causal_model : bool;
  ip_causal_attn  : bool;
  ip_use_alibi    : bool;
  ip_n_swa        : Z
}.

Definition GGML_KQ_MASK_PAD : Z := 64.

(** [GGML_PAD(x, n)], for a power of two [n]. *)
Definition GGML_PAD (x n : Z) : Z := Z.land (x + n - 1) (Z.lnot (n - 1)).

(** Writing to a tensor that may be absent. *)
Definition set_in {A} (data : option (list A)) (i : Z) (x : A) : res (option (list A)) :=
  match data with
  | Some data => data ← vset data i x; Ok (Some data)
  | None => Ok None
  end.

(** * Outputs of the graph *)

(** The tokens whose rows the graph keeps ([inp_out_ids], a tensor of
    [n_outputs] elements). *)
Definition set_out_ids (n_outputs : Z) (output : option (list Z)) (n_tokens : Z) (data : list Z) : res (list Z) :=
  if n_outputs =? n_tokens then for_z 0 n_tokens (fun i data => vset data i i) data
  else
    match output with
    | Some output =>
        r ← for_z 0 n_tokens (fun i '(data, n) =>
              o ← vget output i;
              if o =? 0 then Ok (data, n) else data ← vset data n i; Ok (data, n + 1)) (data, 0);
        ggml_assert (n_outputs =? r.2);;
        Ok r.1
    | None =>
        if n_outputs =? 1 then vset data 0 (n_tokens - 1)
        else ggml_assert (n_outputs =? 0);; Ok data
    end.

(** * Attention masks *)

Section mask.
Context (p : input_params) (cells : list kv_cell) (n_kv : Z) (ub : llama_ubatch).

(** The entry for a token of sequence [seq_id] at [pos] and a cell. *)
Definition kq_value (c : kv_cell) (seq_id pos : Z) : res mask_value :=
  if negb (has_seq_id c seq_id) || (pos <? c_pos c) then Ok NegInf
  else if ip_use_alibi p then d ← s32 (c_pos c - pos); d ← s32 (Z.abs d); Ok (Bias (- d))
  else Ok (Bias 0).

(** The entry of the mask with a sliding window. *)
Definition swa_value (c : kv_cell) (pos : Z) (f : mask_value) : res mask_value :=
  d ← s32 (pos - c_pos c); Ok (if i32 (ip_n_swa p) <=? d then NegInf else f).

Abbreviation masks := (option (list mask_value) * option (list mask_value))%type.

Definition causal_entry (s seq_id j pos i : Z) (m : masks) : res masks :=
  c ← vget cells i;
  f ← kq_value c seq_id pos;
  let k := s * (n_kv * ub_n_seq_tokens ub) + j * n_kv + i in
  data ← set_in m.1 k f;
  data_swa ← (match m.2 with
              | Some _ => f ← swa_value c pos f; set_in m.2 k f
              | None => Ok None
              end);
  Ok (data, data_swa).

(** [for (i = n_tokens; i < GGML_PAD(...); ++i) for (j = 0; j < n_kv; ++j)] *)
Definition pad_mask (data : option (list mask_value)) : res (option (list mask_value)) :=
  match data with
  | Some _ =>
      for_z (ub_n_tokens ub) (GGML_PAD (ub_n_tokens ub) GGML_KQ_MASK_PAD) (fun i =>
        for_z 0 n_kv (fun j data => set_in data (i * n_kv + j) NegInf)) data
  | None => Ok None
  end.

(** The causal mask and the one with a sliding window. *)
Definition causal_mask (m : masks) : res masks :=
  m ← for_z 0 (ub_n_seqs ub) (fun s m =>
        seq_ids ← vget (ub_seq_id ub) s;
        seq_id ← vget seq_ids 0;
        for_z 0 (ub_n_seq_tokens ub) (fun j m =>
          pos ← vget (ub_pos ub) (s * ub_n_seq_tokens ub + j);
          for_z 0 n_kv (causal_entry s seq_id j pos) m) m) m;
  data ← pad_mask m.1;
  data_swa ← pad_mask m.2;
  Ok (data, data_swa).

(** Does a token of sequence [seq_id] see a token with these sequences? The loop
    over the sequences of the other token. *)
Fixpoint same_sequence (n : nat) (ids : list Z) (seq_id : Z) : bool :=
  match n, ids with
  | S n, id :: ids => (id =? seq_id) || same_sequence n ids seq_id
  | _, _ => false
  end.

Definition full_entry (seq_id tj ti : Z) (n_seq_id : Z) (ids : list Z) : res mask_value :=
  if same_sequence (Z.to_nat n_seq_id) ids seq_id then
    if ip_use_alibi p then
      a ← vget (ub_pos ub) ti; b ← vget (ub_pos ub) tj;
      d ← s32 (a - b); d ← s32 (Z.abs d); Ok (Bias (- d))
    else Ok (Bias 0)
  else Ok NegInf.

(** The mask of an encoder or of a model without causal attention: a token sees
    the tokens of the ubatch that have its first sequence. *)
Definition full_mask (n_stride : Z) (data : list mask_value) : res (list mask_value) :=
  for_z 0 (ub_n_seqs ub) (fun s1 data =>
    seq_ids ← vget (ub_seq_id ub) s1;
    seq_id ← vget seq_ids 0;
    for_z 0 (ub_n_seq_tokens ub) (fun j data =>
      let tj := s1 * ub_n_seq_tokens ub + j in
      data ← for_z 0 (ub_n_seqs ub) (fun s0 data =>
        n_seq_id ← vget (ub_n_seq_id ub) s0;
        ids ← vget (ub_seq_id ub) s0;
        for_z 0 (ub_n_seq_tokens ub) (fun i data =>
          let ti := s0 * ub_n_seq_tokens ub + i in
          f ← full_entry seq_id tj ti n_seq_id ids;
          vset data (tj * n_stride + ti) f) data) data;
      for_z (ub_n_tokens ub) n_stride (fun i data => vset data (tj * n_stride + i) NegInf) data) data) data.

(** The two cases of [llama_set_inputs]; the mask without causal attention is
    [inp_KQ_mask]. *)
Definition set_mask (is_encoding : bool) (m : masks) : res masks :=
  if bool_decide (m = (None, None)) then Ok m
  else if ip_causal_attn p && negb is_encoding then causal_mask m
  else
    data ← or_ub m.1;
    data ← full_mask (if ip_causal_model p && negb is_encoding then n_kv else ub_n_tokens ub) data;
    Ok (Some data, m.2).

(** The mask for the attention to the output of the encoder: which sequences
    every encoded token belongs to is kept from [llama_encode]. *)
Definition cross_mask (seq_ids_enc : list (gset Z)) (n_output_enc : Z) (data : list mask_value) : res (list mask_value) :=
  let n_tokens := ub_n_tokens ub in
  ggml_assert (negb (ub_equal_seqs ub));;
  data ← for_z 0 n_tokens (fun j data =>
    n_seq_id ← vget (ub_n_seq_id ub) j;
    ids ← vget (ub_seq_id ub) j;
    for_z 0 n_output_enc (fun i data =>
      enc ← vget seq_ids_enc i;
      let seen := existsb (fun id => bool_decide (id ∈ enc)) (take (Z.to_nat n_seq_id) ids) in
      vset data (j * n_output_enc + i) (if seen then Bias 0 else NegInf)) data) data;
  for_z n_tokens (GGML_PAD n_tokens GGML_KQ_MASK_PAD) (fun i =>
    for_z 0 n_output_enc (fun j data => vset data (i * n_output_enc + j) NegInf)) data.
End mask.

(** * Pooling *)

Section pooling.
Context (ub : llama_ubatch).

(** The loops over the tokens of the ubatch: the row, the first sequence, which
    must be below [n_tokens], and the position. *)
Definition each_token {S} (f : Z -> Z -> Z -> S -> res S) (s : S) : res S :=
  for_z 0 (ub_n_seqs ub) (fun q s =>
    seq_ids ← vget (ub_seq_id ub) q;
    seq_id ← vget seq_ids 0;
    ggml_assert (seq_id <? ub_n_tokens ub);;
    for_z 0 (ub_n_seq_tokens ub) (fun i s =>
      pos ← vget (ub_pos ub) (q * ub_n_seq_tokens ub + i);
      f (q * ub_n_seq_tokens ub + i) seq_id pos s) s) s.

(** LLAMA_POOLING_TYPE_MEAN: the number of tokens of every sequence, of which
    the code takes the inverse, and where the weights go. *)
Definition pool_mean : res (list Z * list (Z * Z)) :=
  sum ← for_z 0 (ub_n_seqs ub) (fun s sum =>
          seq_ids ← vget (ub_seq_id ub) s;
          seq_id ← vget seq_ids 0;
          ggml_assert (seq_id <? ub_n_tokens ub);;
          x ← vget sum seq_id;
          vset sum seq_id (x + ub_n_seq_tokens ub)) (replicate (Z.to_nat (ub_n_tokens ub)) 0);
  cells ← for_z 0 (ub_n_seqs ub) (fun s cells =>
            seq_ids ← vget (ub_seq_id ub) s;
            seq_id ← vget seq_ids 0;
            Ok (cells ++ ((fun i => (seq_id, s * ub_n_seq_tokens ub + i)) <$> zseq 0 (Z.to_nat (ub_n_seq_tokens ub))))) [];
  Ok (sum, cells).

(** LLAMA_POOLING_TYPE_CLS and LLAMA_POOLING_TYPE_RANK: the row of position 0. *)
Definition pool_cls : res (list Z) :=
  each_token (fun r seq_id pos data => if pos =? 0 then vset data seq_id r else Ok data)
    (replicate (Z.to_nat (ub_n_tokens ub)) 0).

(** LLAMA_POOLING_TYPE_LAST: the row of the greatest position, the later one of
    equal positions. The state is [last_pos] and [last_row]. *)
Definition last_step (r seq_id pos : Z) (s : list Z * list Z) : res (list Z * list Z) :=
  q ← vget s.1 seq_id;
  if q <=? pos then
    last_pos ← vset s.1 seq_id pos;
    last_row ← vset s.2 seq_id r;
    Ok (last_pos, last_row)
  else Ok s.

Definition pool_last : res (list Z) :=
  let none := replicate (Z.to_nat (ub_n_tokens ub)) (-1) in
  r ← each_token last_step (none, none);
  Ok (map (fun row => if 0 <=? row then row else 0) r.2).
End pooling.

(** * Recurrent states *)

(** [inp_s_mask]: 0 for the states to be cleared; a cell is cleared once. *)
Definition set_s_mask (cache : kv_cache) : res (list bool * kv_cache) :=
  r ← for_z 0 (kv_n cache) (fun i '(data, cells) =>
        let cell_id := u32 (i + kv_head cache) in
        c ← vget cells cell_id;
        cells ← (if c_src c <? 0 then vset cells cell_id (set_src (i32 cell_id) c) else Ok cells);
        Ok (data ++ [0 <=? c_src c], cells)) ([], kv_cells cache);
  Ok (r.1, with_cells cache (kv_head cache) (kv_used cache) r.2).

(** [inp_s_copy]: where the state of every cell comes from; a copy happens once. *)
Definition set_s_copy (cache : kv_cache) : res (list Z * kv_cache) :=
  r ← for_z 0 (kv_n cache) (fun i '(data, cells) =>
        let cell_id := u32 (i + kv_head cache) in
        c ← vget cells cell_id;
        let src := if (c_src c <? 0) || (kv_size cache <=? u32 (c_src c)) then i32 cell_id else c_src c in
        cells ← vset cells cell_id (set_src (i32 cell_id) c);
        Ok (data ++ [src], cells)) ([], kv_cells cache);
  Ok (r.1, with_cells cache (kv_head cache) (kv_used cache) r.2).

(** [llama_set_s_copy] *)
Definition llama_set_s_copy (cache : kv_cache) : list Z := c_src <$> kv_cells cache.

(** * All inputs *)

Inductive pooling_type : Type := PoolUnspecified | PoolNone | PoolMean | PoolCls | PoolLast | PoolRank.

#[export] Instance pooling_type_eq_dec : EqDecision pooling_type.
Proof. solve_decision. Defined.

(** The input tensors that a graph has, apart from the tokens, embeddings and
    positions, which are copied from the ubatch as they are, and from the
    buckets of relative positions. *)
Record graph_inputs : Type := mk_inputs {
  in_out_ids    : option (list Z);
  in_masks      : option (list mask_value) * option (list mask_value);
  in_mean       : option (list Z * list (Z * Z));
  in_cls        : option (list Z);
  in_s_mask     : option (list bool);
  in_s_copy     : option (list Z);
  in_mask_cross : option (list mask_value)
}.

(** Filling a tensor when the graph has it, and one that it must have. *)
Definition if_tensor {A} (t : option A) (f : A -> res A) : res (option A) :=
  match t with Some a => a ← f a; Ok (Some a) | None => Ok None end.

Definition assert_tensor {A} (t : option A) (f : res A) : res (option A) :=
  match t with Some _ => a ← f; Ok (Some a) | None => Err Abort end.

(** [llama_set_inputs]: the pooling, the sequences of the encoded tokens and the
    size of their embeddings are those of the context. *)
Definition llama_set_inputs (p : input_params) (embeddings : bool) (pooling : pooling_type) (is_encoding : bool)
    (seq_ids_enc : list (gset Z)) (embd_enc_size n_embd n_outputs : Z) (cache : kv_cache) (ub : llama_ubatch)
    (t : graph_inputs) : res (graph_inputs * kv_cache) :=
  out_ids ← (if ip_causal_model p || bool_decide (pooling = PoolNone)
             then if_tensor (in_out_ids t) (set_out_ids n_outputs (Some (ub_output ub)) (ub_n_tokens ub))
             else Ok (in_out_ids t));
  ggml_assert (ip_causal_model p || negb (ip_causal_attn p));;
  m ← set_mask p (kv_cells cache) (kv_n cache) ub is_encoding (in_masks t);
  mean ← (if embeddings && bool_decide (pooling = PoolMean)
          then assert_tensor (in_mean t) (pool_mean ub) else Ok (in_mean t));
  cls ← (if embeddings && bool_decide (pooling = PoolCls \/ pooling = PoolRank)
         then assert_tensor (in_cls t) (pool_cls ub)
         else if embeddings && bool_decide (pooling = PoolLast)
         then assert_tensor (in_cls t) (pool_last ub) else Ok (in_cls t));
  r ← (if kv_recurrent cache then
         r ← (match in_s_mask t with
              | Some _ => r ← set_s_mask cache; Ok (Some r.1, r.2)
              | None => Ok (None, cache)
              end);
         q ← (match in_s_copy t with
              | Some _ => q ← set_s_copy r.2; Ok (Some q.1, q.2)
              | None => Ok (None, r.2)
              end);
         Ok (r.1, q.1, q.2)
       else Ok (in_s_mask t, in_s_copy t, cache));
  cross ← (if is_encoding then Ok (in_mask_cross t)
           else if_tensor (in_mask_cross t) (fun d =>
                  n_output_enc ← (if n_embd =? 0 then Err UB else Ok (embd_enc_size / n_embd));
                  cross_mask ub seq_ids_enc n_output_enc d));
  Ok (mk_inputs out_ids m mean cls r.1.1 r.1.2 cross, r.2).

(** * Filling a tensor *)

Lemma GGML_PAD_64 x : 0 <= x -> x <= GGML_PAD x 64 < x + 64 /\ GGML_PAD x 64 mod 64 = 0.
Proof.
  intros Hx. unfold GGML_PAD. change (64 - 1) with (Z.ones 6).
  replace (Z.land (x + 64 - 1) (Z.lnot (Z.ones 6))) with (Z.ldiff (x + 64 - 1) (Z.ones 6)) by apply Z.ldiff_land.
  rewrite Z.ldiff_ones_r by lia. rewrite Z.shiftr_div_pow2, Z.shiftl_mul_pow2 by lia. change (2 ^ 6) with 64.
  pose proof (Z.div_mod (x + 64 - 1) 64 ltac:(lia)). pose proof (Z.mod_pos_bound (x + 64 - 1) 64 ltac:(lia)).
  split; [lia|]. apply Z_mod_mult.
Qed.

Section fill.
Context {A : Type}.

(** The first [k] elements are what [V] says. *)
Definition prefix_is (size : Z) (V : Z -> A) (k : Z) (data : option (list A)) : Prop :=
  match data with
  | Some data => zlen data = size /\ forall x, 0 <= x < k -> zlookup data x = Some (V x)
  | None => True
  end.

Lemma set_in_spec size V k data :
  0 <= k < size -> prefix_is size V k data ->
  safe (set_in data k (V k)) (fun data' => prefix_is size V (k + 1) data' /\ (is_Some data' <-> is_Some data)).
Proof.
  intros Hk. unfold set_in. destruct data as [data|]; [|done]. cbn [prefix_is]. intros [Hl Hp].
  rewrite vset_at by lia. cbn [mbind res_bind post prefix_is]. rewrite zlen_insert. split; [|done].
  split; [done|]. intros x Hx. rewrite zlookup_insert by lia. case_decide as E; [by rewrite E|]. apply Hp. lia.
Qed.

Lemma prefix_is_ext size V W k data :
  (forall x, 0 <= x < k -> V x = W x) -> prefix_is size V k data -> prefix_is size W k data.
Proof.
  intros H. destruct data as [data|]; [|done]. intros [H1 H2]. split; [done|]. intros x Hx. rewrite <- H by done. by apply H2.
Qed.
End fill.

Lemma first_seq_lookup ub s :
  ub_valid ub -> 0 <= s < ub_n_seqs ub ->
  exists ids id, zlookup (ub_seq_id ub) s = Some ids /\ zlookup ids 0 = Some id.
Proof.
  intros Hub Hs. destruct (uv_seqs _ Hub s Hs) as (n & ids & _ & Hids & Hn). exists ids.
  destruct (zlookup_lt ids 0) as [id Hid]; [lia|]. by exists id.
Qed.

(** The first sequence of token [t]. *)
Definition first_seq (ub : llama_ubatch) (t : Z) : Z :=
  default (-1) (ids ← zlookup (ub_seq_id ub) (t `div` ub_n_seq_tokens ub); zlookup ids 0).

Section mask_spec.
Context (p : input_params).

(** The entry for a token of sequence [seq_id] at [pos] and a cell. *)
Definition mask_entry (c : kv_cell) (seq_id pos : Z) : mask_value :=
  if has_seq_id c seq_id && (c_pos c <=? pos)
  then Bias (if ip_use_alibi p then - (pos - c_pos c) else 0) else NegInf.

Definition swa_entry (c : kv_cell) (seq_id pos : Z) : mask_value :=
  if i32 (ip_n_swa p) <=? pos - c_pos c then NegInf else mask_entry c seq_id pos.

Lemma kq_value_spec c seq_id pos :
  cell_ok c -> 0 <= pos < INT32_MAX -> kq_value p c seq_id pos = Ok (mask_entry c seq_id pos).
Proof.
  intros Hc Hp. unfold kq_value, mask_entry. destruct (has_seq_id c seq_id) eqn:Es; cbn [negb orb andb]; [|done].
  destruct (Z.ltb_spec pos (c_pos c)), (Z.leb_spec (c_pos c) pos); try lia; [done|].
  assert (0 <= c_pos c).
  { destruct Hc as [[_ He]|[? _]]; [|lia]. unfold has_seq_id in Es. apply bool_decide_eq_true in Es. set_solver. }
  destruct (ip_use_alibi p); [|done]. unfold INT32_MAX in Hp. rewrite s32_ok by (unfold INT32_MIN, INT32_MAX; lia).
  cbn [mbind res_bind]. rewrite s32_ok by (unfold INT32_MIN, INT32_MAX; lia). cbn [mbind res_bind]. do 2 f_equal. lia.
Qed.

Lemma swa_value_spec c seq_id pos :
  cell_ok c -> 0 <= pos < INT32_MAX -> swa_value p c pos (mask_entry c seq_id pos) = Ok (swa_entry c seq_id pos).
Proof.
  intros Hc Hp. unfold swa_value, swa_entry. unfold INT32_MAX in Hp.
  rewrite s32_ok; [done|]. unfold INT32_MIN, INT32_MAX. destruct Hc as [[Hc _]|[Hc _]]; unfold INT32_MAX in Hc; lia.
Qed.

Lemma elem_index n_kv t i : 0 <= i < n_kv -> (t * n_kv + i) `div` n_kv = t /\ (t * n_kv + i) mod n_kv = i.
Proof.
  intros Hi. rewrite (Z.add_comm (t * n_kv)). split.
  - rewrite Z.div_add by lia. rewrite Z.div_small by lia. lia.
  - rewrite Z.mod_add by lia. by apply Z.mod_small.
Qed.

Context (cells : list kv_cell) (n_kv : Z) (ub : llama_ubatch).
Context (Hcells : Forall cell_ok cells) (Hub : ub_valid ub) (Hkv : 0 < n_kv <= zlen cells).
Context (Hpos : forall t, 0 <= t < ub_n_tokens ub -> token_pos_of ub t < INT32_MAX).

Definition cell_at (i : Z) : kv_cell := default cell_init (zlookup cells i).

(** The elements of the masks, in the order in which they are written. *)
Definition mask_elem (entry : kv_cell -> Z -> Z -> mask_value) (x : Z) : mask_value :=
  let t := x `div` n_kv in
  if t <? ub_n_tokens ub then entry (cell_at (x mod n_kv)) (first_seq ub t) (token_pos_of ub t) else NegInf.

Definition masks_until (k : Z) (m : option (list mask_value) * option (list mask_value)) : Prop :=
  prefix_is (n_kv * GGML_PAD (ub_n_tokens ub) 64) (mask_elem mask_entry) k m.1 /\
  prefix_is (n_kv * GGML_PAD (ub_n_tokens ub) 64) (mask_elem swa_entry) k m.2.

Lemma causal_entry_spec s j i seq_id pos m :
  let t := s * ub_n_seq_tokens ub + j in
  0 <= s < ub_n_seqs ub -> 0 <= j < ub_n_seq_tokens ub -> 0 <= i < n_kv ->
  seq_id = first_seq ub t -> pos = token_pos_of ub t -> 0 <= pos ->
  masks_until (t * n_kv + i) m ->
  safe (causal_entry p cells n_kv ub s seq_id j pos i m) (fun m' => masks_until (t * n_kv + (i + 1)) m' /\
    (is_Some m'.1 <-> is_Some m.1) /\ (is_Some m'.2 <-> is_Some m.2)).
Proof using Hcells Hub Hkv Hpos.
  intros t Hs Hj Hi -> -> Hp0 [H1 H2]. unfold causal_entry.
  assert (Ht : 0 <= t < ub_n_tokens ub).
  { rewrite (uv_rect _ Hub). unfold t. nia. }
  pose proof (Hpos t Ht) as Hp1. pose proof (GGML_PAD_64 (ub_n_tokens ub) ltac:(lia)) as [Hpad _].
  destruct (zlookup_lt cells i) as [c Hc]; [lia|]. rewrite (vget_Some _ _ _ Hc). cbn [mbind res_bind].
  assert (Hcok : cell_ok c).
  { rewrite Forall_forall in Hcells. apply Hcells, elem_of_zlookup. exists i. split; [lia|done]. }
  rewrite kq_value_spec by (done || lia). cbn [mbind res_bind].
  replace (s * (n_kv * ub_n_seq_tokens ub) + j * n_kv + i) with (t * n_kv + i) by (unfold t; lia).
  destruct (elem_index n_kv t i Hi) as [E1 E2].
  assert (Hk : 0 <= t * n_kv + i < n_kv * GGML_PAD (ub_n_tokens ub) 64) by nia.
  assert (Hv : forall e, mask_elem e (t * n_kv + i) = e c (first_seq ub t) (token_pos_of ub t)).
  { intros e. unfold mask_elem. rewrite E1, E2. destruct (Z.ltb_spec t (ub_n_tokens ub)); [|lia].
    unfold cell_at. by rewrite Hc. }
  rewrite <- (Hv mask_entry).
  eapply post_bind; [by apply (set_in_spec _ (mask_elem mask_entry) _ m.1 Hk)|]. intros d1 [D1 D1'].
  rewrite Z.add_assoc. destruct (m.2) as [d2|] eqn:Em.
  - rewrite (Hv mask_entry), swa_value_spec by (done || lia). cbn [mbind res_bind]. rewrite <- (Hv swa_entry).
    eapply post_bind; [by apply (set_in_spec _ (mask_elem swa_entry) _ (Some d2) Hk)|]. intros d3 [D3 D3'].
    cbn [post fst snd]. split; [by split|done].
  - cbn [mbind res_bind post fst snd]. split; [by split|done].
Qed.

Lemma causal_loop_spec m :
  masks_until 0 m ->
  safe (for_z 0 (ub_n_seqs ub) (fun s m =>
        seq_ids ← vget (ub_seq_id ub) s;
        seq_id ← vget seq_ids 0;
        for_z 0 (ub_n_seq_tokens ub) (fun j m =>
          pos ← vget (ub_pos ub) (s * ub_n_seq_tokens ub + j);
          for_z 0 n_kv (causal_entry p cells n_kv ub s seq_id j pos) m) m) m)
    (fun m' => masks_until (ub_n_tokens ub * n_kv) m' /\ (is_Some m'.1 <-> is_Some m.1) /\ (is_Some m'.2 <-> is_Some m.2)).
Proof using Hcells Hub Hkv Hpos.
  intros Hm. pose proof (uv_sign _ Hub) as [Hsign1 Hsign2].
  set (I k (m' : option (list mask_value) * option (list mask_value)) :=
    masks_until k m' /\ (is_Some m'.1 <-> is_Some m.1) /\ (is_Some m'.2 <-> is_Some m.2)).
  rewrite (uv_rect _ Hub). replace (ub_n_seq_tokens ub * ub_n_seqs ub * n_kv) with (ub_n_seqs ub * ub_n_seq_tokens ub * n_kv) by lia.
  apply (for_z_post 0 (ub_n_seqs ub) _ (fun s => I (s * ub_n_seq_tokens ub * n_kv))); [done|by split|].
  intros s m1 Hs H1. destruct (first_seq_lookup ub s Hub Hs) as (ids & id & Hids & Hid).
  rewrite (vget_Some _ _ _ Hids). cbn [mbind res_bind]. rewrite (vget_Some _ _ _ Hid). cbn [mbind res_bind].
  replace ((s + 1) * ub_n_seq_tokens ub * n_kv) with ((s * ub_n_seq_tokens ub + ub_n_seq_tokens ub) * n_kv) by lia.
  apply (for_z_post 0 (ub_n_seq_tokens ub) _ (fun j => I ((s * ub_n_seq_tokens ub + j) * n_kv))); [done|by rewrite Z.add_0_r|].
  intros j m2 Hj H2. set (t := s * ub_n_seq_tokens ub + j) in *.
  assert (Ht : 0 <= t < ub_n_tokens ub) by (rewrite (uv_rect _ Hub); unfold t; nia).
  destruct (uv_pos _ Hub t Ht) as (pos & Hp & Hpr). rewrite (vget_Some _ _ _ Hp). cbn [mbind res_bind].
  replace ((s * ub_n_seq_tokens ub + (j + 1)) * n_kv) with (t * n_kv + n_kv) by (unfold t; lia).
  apply (for_z_post 0 n_kv _ (fun i => I (t * n_kv + i))); [lia|by rewrite Z.add_0_r|].
  intros i m3 Hi (H3 & H3' & H3''). eapply post_mono; [apply (causal_entry_spec s j i id pos m3); try done| |done].
  - unfold first_seq. fold t. replace (t `div` ub_n_seq_tokens ub) with s; [rewrite Hids; cbn [mbind option_bind]; by rewrite Hid|].
    unfold t. apply (Z.div_unique _ _ _ j); lia.
  - unfold token_pos_of. fold t. by rewrite Hp.
  - lia.
  - intros m4 (G1 & G2 & G3). split; [done|]. by rewrite G2, G3.
Qed.

Lemma pad_mask_spec entry data :
  prefix_is (n_kv * GGML_PAD (ub_n_tokens ub) 64) (mask_elem entry) (ub_n_tokens ub * n_kv) data ->
  safe (pad_mask n_kv ub data) (fun data' =>
    prefix_is (n_kv * GGML_PAD (ub_n_tokens ub) 64) (mask_elem entry) (n_kv * GGML_PAD (ub_n_tokens ub) 64) data' /\
    (is_Some data' <-> is_Some data)).
Proof using Hub Hkv.
  intros Hd. destruct data as [data|]; [|done]. unfold pad_mask, GGML_KQ_MASK_PAD.
  pose proof (uv_sign _ Hub) as [Hsign1 Hsign2]. assert (Hn : 0 <= ub_n_tokens ub) by (rewrite (uv_rect _ Hub); nia).
  pose proof (GGML_PAD_64 _ Hn) as [Hpad _]. set (N := GGML_PAD (ub_n_tokens ub) 64) in *.
  set (I k data' := prefix_is (n_kv * N) (mask_elem entry) k data' /\ (is_Some data' <-> is_Some (Some data))).
  eapply (post_mono _ (I (N * n_kv)) _ (fun _ => False)); [| |done].
  2:{ intros d [D1 D2]. rewrite (Z.mul_comm N n_kv) in D1. by split. }
  apply (for_z_post (ub_n_tokens ub) N _ (fun i => I (i * n_kv))); [lia|by split|].
  intros i d1 Hi H1. replace ((i + 1) * n_kv) with (i * n_kv + n_kv) by lia.
  apply (for_z_post 0 n_kv _ (fun j => I (i * n_kv + j))); [lia|by rewrite Z.add_0_r|].
  intros j d2 Hj [H2 H2']. rewrite Z.add_assoc.
  destruct (elem_index n_kv i j Hj) as [E1 E2].
  assert (Hv : mask_elem entry (i * n_kv + j) = NegInf).
  { unfold mask_elem. rewrite E1. by destruct (Z.ltb_spec i (ub_n_tokens ub)); [lia|]. }
  rewrite <- Hv. eapply post_mono; [apply (set_in_spec (n_kv * N) (mask_elem entry)); [nia|exact H2]| |done].
  intros d3 [G1 G2]. split; [done|]. by rewrite G2.
Qed.

Lemma causal_mask_spec m :
  (forall d, m.1 = Some d -> zlen d = n_kv * GGML_PAD (ub_n_tokens ub) 64) ->
  (forall d, m.2 = Some d -> zlen d = n_kv * GGML_PAD (ub_n_tokens ub) 64) ->
  safe (causal_mask p cells n_kv ub m) (fun m' =>
    masks_until (n_kv * GGML_PAD (ub_n_tokens ub) 64) m' /\ (is_Some m'.1 <-> is_Some m.1) /\ (is_Some m'.2 <-> is_Some m.2)).
Proof using Hcells Hub Hkv Hpos.
  intros H1 H2. unfold causal_mask. eapply post_bind.
  { apply causal_loop_spec. split; [destruct m.1|destruct m.2]; cbn; try done; (split; [auto|intros; lia]). }
  intros m1 ([A1 A2] & A3 & A4).
  eapply post_bind; [by apply (pad_mask_spec mask_entry)|]. intros d1 [B1 B2].
  eapply post_bind; [by apply (pad_mask_spec swa_entry)|]. intros d2 [C1 C2]. cbn [post fst snd].
  split; [by split|]. by rewrite B2, C2.
Qed.
End mask_spec.

(** ** What a token attends to *)

(** Token [t] sees cell [i] of the [n_kv] cells. *)
Definition sees (data : list mask_value) (n_kv t i : Z) : Prop :=
  0 <= i < n_kv /\ exists b, zlookup data (t * n_kv + i) = Some (Bias b).

(** A cell that holds the sequence [seq] at a position [q] not beyond [pos]. *)
Definition in_history (cache : kv_cache) (seq pos q i : Z) : Prop :=
  exists T, zlookup (slots cache) i = Some (Some (q, T)) /\ seq ∈ T /\ q <= pos.

Lemma mask_entry_history p cache seq pos i :
  kv_wf cache -> 0 <= i < kv_size cache ->
  (exists b, mask_entry p (cell_at (kv_cells cache) i) seq pos = Bias b) <-> exists q, in_history cache seq pos q i.
Proof.
  intros Hwf Hi. unfold kv_size in Hi. destruct (zlookup_lt _ _ Hi) as [c Hc].
  assert (Hok : cell_ok c).
  { pose proof (kw_cells _ Hwf) as H. rewrite Forall_forall in H. apply H, elem_of_zlookup. exists i. done. }
  assert (Hs : zlookup (slots cache) i = Some (cell_slot c)) by (unfold slots; by rewrite zlookup_fmap, Hc).
  unfold cell_at, in_history. rewrite Hc, Hs. cbn [default from_option id]. unfold mask_entry, has_seq_id. split.
  - intros [b Hb]. case_bool_decide; cbn [andb] in Hb; [|done].
    destruct (c_pos c <=? pos) eqn:Ep; [|done]. apply Z.leb_le in Ep.
    destruct (cell_ok_slot c Hok) as [(_ & _ & He & _)|(-> & _)]; [set_solver|]. by exists (c_pos c), (c_seq_id c).
  - intros (q & T & E & Hin & Hq). destruct (cell_ok_slot c Hok) as [(Es & _)|(Es & _)]; rewrite Es in E; [done|].
    injection E as <- <-. rewrite bool_decide_eq_true_2 by done. cbn [andb]. destruct (Z.leb_spec (c_pos c) pos); [|lia].
    by eexists.
Qed.

Lemma swa_entry_bias p c seq pos :
  (exists b, swa_entry p c seq pos = Bias b) <->
  (exists b, mask_entry p c seq pos = Bias b) /\ pos - c_pos c < i32 (ip_n_swa p).
Proof.
  unfold swa_entry. destruct (Z.leb_spec (i32 (ip_n_swa p)) (pos - c_pos c)); split.
  - by intros [b Hb].
  - intros [_ ?]. lia.
  - intros Hb. split; [done|lia].
  - by intros [Hb _].
Qed.

Lemma mask_elem_at cells n_kv ub entry t i :
  0 <= i < n_kv ->
  mask_elem cells n_kv ub entry (t * n_kv + i) =
  if t <? ub_n_tokens ub then entry (cell_at cells i) (first_seq ub t) (token_pos_of ub t) else NegInf.
Proof. intros Hi. unfold mask_elem. by destruct (elem_index n_kv t i Hi) as [-> ->]. Qed.

(** No cell in use lies beyond [llama_kv_cache_cell_max]. *)
Lemma history_below cache seq pos q i :
  kv_wf cache -> 0 <= i < kv_size cache -> in_history cache seq pos q i -> i < llama_kv_cache_cell_max cache.
Proof.
  intros Hwf Hi (T & Hs & _). unfold kv_size in *. pose proof (cell_max_spec cache Hwf) as [Hm Hfree]. unfold kv_size in *.
  destruct (Z.lt_ge_cases i (llama_kv_cache_cell_max cache)); [done|exfalso].
  unfold slots in Hs. rewrite zlookup_fmap in Hs. destruct (zlookup (kv_cells cache) i) as [c|] eqn:Hc; [|done].
  cbn in Hs. injection Hs as Hs. pose proof (used_from_range (kv_cells cache) (llama_kv_cache_cell_max cache) i ltac:(lia) ltac:(lia)).
  pose proof (used_from_step _ _ _ Hc) as Hstep. pose proof (used_from_nonneg (kv_cells cache) (i + 1)).
  unfold in_use in Hstep. unfold cell_slot in Hs. destruct (is_empty c); [done|lia].
Qed.

Lemma history_pos cache seq pos q i : in_history cache seq pos q i -> q = c_pos (cell_at (kv_cells cache) i).
Proof.
  intros (T & Hs & _). unfold slots in Hs. rewrite zlookup_fmap in Hs. unfold cell_at.
  destruct (zlookup (kv_cells cache) i) as [c|]; [|done]. cbn in *. injection Hs as Hs. unfold cell_slot in Hs.
  destruct (is_empty c); [done|]. by injection Hs.
Qed.

Lemma swa_entry_history p cache seq pos i :
  kv_wf cache -> 0 <= i < kv_size cache ->
  (exists b, swa_entry p (cell_at (kv_cells cache) i) seq pos = Bias b) <->
  exists q, in_history cache seq pos q i /\ pos - q < i32 (ip_n_swa p).
Proof.
  intros Hwf Hi. rewrite swa_entry_bias, (mask_entry_history p cache seq pos i Hwf Hi). split.
  - intros [[q Hq] Hw]. exists q. by rewrite (history_pos _ _ _ _ _ Hq) at 2.
  - intros (q & Hq & Hw). rewrite (history_pos _ _ _ _ _ Hq) in Hw. split; [by exists q|done].
Qed.

(** A filled mask shows what its entries show. *)
Lemma sees_entry cells n_kv ub entry size d t i :
  prefix_is size (mask_elem cells n_kv ub entry) size (Some d) ->
  0 <= t -> 0 <= i < n_kv -> t * n_kv + i < size ->
  sees d n_kv t i <->
  t < ub_n_tokens ub /\ exists b, entry (cell_at cells i) (first_seq ub t) (token_pos_of ub t) = Bias b.
Proof.
  intros [_ Hv] Ht Hi Hk. unfold sees. rewrite Hv by nia. rewrite mask_elem_at by done.
  destruct (Z.ltb_spec t (ub_n_tokens ub)); [|naive_solver lia].
  split; [intros [_ [b Hb]]; split; [done|exists b; by injection Hb]|intros [_ [b Hb]]; split; [done|exists b; by rewrite Hb]].
Qed.

(** The first mask, and the one with a sliding window, show what they should. *)
Definition shows_history (p : input_params) (cache : kv_cache) (ub : llama_ubatch) (swa : bool) (d : list mask_value) : Prop :=
  (forall t i, 0 <= t < ub_n_tokens ub -> 0 <= i < kv_size cache ->
     sees d (kv_n cache) t i <-> exists q, in_history cache (first_seq ub t) (token_pos_of ub t) q i /\
       (swa = true -> token_pos_of ub t - q < i32 (ip_n_swa p))) /\
  (forall t i, ub_n_tokens ub <= t < GGML_PAD (ub_n_tokens ub) GGML_KQ_MASK_PAD -> ~ sees d (kv_n cache) t i).

Lemma prefix_shows p cache ub (swa : bool) d :
  kv_wf cache -> ub_valid ub -> llama_kv_cache_cell_max cache <= kv_n cache <= kv_size cache -> 0 < kv_n cache ->
  prefix_is (kv_n cache * GGML_PAD (ub_n_tokens ub) 64)
    (mask_elem (kv_cells cache) (kv_n cache) ub (if swa then swa_entry p else mask_entry p))
    (kv_n cache * GGML_PAD (ub_n_tokens ub) 64) (Some d) ->
  shows_history p cache ub swa d.
Proof.
  intros Hwf Hub Hn Hn0 Hd.
  assert (Hns : 0 <= ub_n_tokens ub) by (rewrite (uv_rect _ Hub); pose proof (uv_sign _ Hub); nia).
  pose proof (GGML_PAD_64 _ Hns) as [Hpad _]. unfold shows_history, GGML_KQ_MASK_PAD.
  assert (Hk : forall t i, 0 <= t < GGML_PAD (ub_n_tokens ub) 64 -> 0 <= i < kv_n cache ->
    t * kv_n cache + i < kv_n cache * GGML_PAD (ub_n_tokens ub) 64) by (intros; nia).
  split.
  - intros t i Ht Hi. unfold kv_size in *.
    destruct (Z.lt_ge_cases i (kv_n cache)) as [Hin|Hout].
    + rewrite (sees_entry _ _ _ _ _ _ t i Hd) by (try apply Hk; lia).
      destruct swa.
      * pose proof (swa_entry_history p cache (first_seq ub t) (token_pos_of ub t) i Hwf Hi) as Hw. rewrite Hw.
        split; [intros (_ & q & Hq & Hs); by exists q|intros (q & Hq & Hs); split; [lia|exists q; split; [done|by apply Hs]]].
      * pose proof (mask_entry_history p cache (first_seq ub t) (token_pos_of ub t) i Hwf Hi) as Hw. rewrite Hw.
        split; [intros (_ & q & Hq); by exists q|intros (q & Hq & _); split; [lia|by exists q]].
    + split; [intros [? _]; lia|]. intros (q & Hq & _). apply history_below in Hq; [lia|done|done].
  - intros t i Ht Hs. pose proof Hs as [Hi _].
    apply (sees_entry _ _ _ _ _ _ t i Hd) in Hs as [? _]; [lia|lia|done|by apply Hk; [lia|]].
Qed.

Lemma set_mask_shows p cache ub m :
  kv_wf cache -> ub_valid ub -> ip_causal_attn p = true ->
  (forall t, 0 <= t < ub_n_tokens ub -> token_pos_of ub t < INT32_MAX) ->
  llama_kv_cache_cell_max cache <= kv_n cache <= kv_size cache -> 0 < kv_n cache ->
  (forall d, m.1 = Some d -> zlen d = kv_n cache * GGML_PAD (ub_n_tokens ub) GGML_KQ_MASK_PAD) ->
  (forall d, m.2 = Some d -> zlen d = kv_n cache * GGML_PAD (ub_n_tokens ub) GGML_KQ_MASK_PAD) ->
  safe (set_mask p (kv_cells cache) (kv_n cache) ub false m) (fun m' =>
    (is_Some m'.1 <-> is_Some m.1) /\ (is_Some m'.2 <-> is_Some m.2) /\
    (forall d, m'.1 = Some d -> shows_history p cache ub false d) /\
    (forall d, m'.2 = Some d -> shows_history p cache ub true d)).
Proof.
  intros Hwf Hub Hattn Hpos Hn Hn0 H1 H2. unfold set_mask. case_bool_decide as Hm; [by subst m|]. rewrite Hattn. cbn [andb negb].
  assert (Hk : 0 < kv_n cache <= zlen (kv_cells cache)) by (unfold kv_size in Hn; lia).
  eapply post_mono; [apply (causal_mask_spec p (kv_cells cache) (kv_n cache) ub (kw_cells _ Hwf) Hub Hk Hpos m);
    [exact H1|exact H2]| |done].
  intros m' ([A1 A2] & A3 & A4). splits; [done..| |]; intros d Hd.
  - apply prefix_shows; [done..|]. by rewrite Hd in A1.
  - apply prefix_shows; [done..|]. by rewrite Hd in A2.
Qed.

(** C20. Causal attention: on a well-formed cache whose first [n] cells contain
    all cells in use, the masks are filled completely and without overflow; a
    token of a ubatch sees exactly the cells that hold its (first) sequence at
    a position not after its own, none of them lying beyond the first [n]; with
    a sliding window only those within the window; and the padding sees
    nothing. *)
Theorem attention_sees_history p cache ub data data_swa :
  kv_wf cache -> ub_valid ub -> ip_causal_attn p = true ->
  (forall t, 0 <= t < ub_n_tokens ub -> token_pos_of ub t < INT32_MAX) ->
  llama_kv_cache_cell_max cache <= kv_n cache <= kv_size cache -> 0 < kv_n cache ->
  zlen data = kv_n cache * GGML_PAD (ub_n_tokens ub) GGML_KQ_MASK_PAD ->
  zlen data_swa = kv_n cache * GGML_PAD (ub_n_tokens ub) GGML_KQ_MASK_PAD ->
  safe (set_mask p (kv_cells cache) (kv_n cache) ub false (Some data, Some data_swa)) (fun m =>
    exists d dw, m = (Some d, Some dw) /\
    (forall t i, 0 <= t < ub_n_tokens ub -> 0 <= i < kv_size cache ->
       (sees d (kv_n cache) t i <-> exists q, in_history cache (first_seq ub t) (token_pos_of ub t) q i) /\
       (sees dw (kv_n cache) t i <-> exists q, in_history cache (first_seq ub t) (token_pos_of ub t) q i /\
                                      token_pos_of ub t - q < i32 (ip_n_swa p))) /\
    (forall t i, ub_n_tokens ub <= t < GGML_PAD (ub_n_tokens ub) GGML_KQ_MASK_PAD ->
       ~ sees d (kv_n cache) t i /\ ~ sees dw (kv_n cache) t i)).
Proof.
  intros Hwf Hub Hattn Hpos Hn Hn0 H1 H2.
  eapply post_mono; [apply (set_mask_shows p cache ub (Some data, Some data_swa)); try done; by intros d [= <-]| |done].
  intros [[d|] [dw|]] ([_ A3] & [_ A4] & S1 & S2); cbn [fst snd] in *;
    try (by destruct (A3 (ex_intro _ _ eq_refl))); try (by destruct (A4 (ex_intro _ _ eq_refl))).
  exists d, dw. split; [done|]. destruct (S1 d eq_refl) as [B1 B2], (S2 dw eq_refl) as [C1 C2].
  split; [|intros t i Ht; by split; [apply B2|apply C2]]. intros t i Ht Hi. rewrite (B1 t i Ht Hi), (C1 t i Ht Hi).
  split; (split; intros (q & Hq); exists q; naive_solver).
Qed.

(** Two tokens of sequence 1 after they have been stored in a cache with four
    tokens of sequence 0. *)
Definition masked_cache : kv_cache :=
  with_n (mk_cache false false false true 4 6 0
    (((fun p => mk_cell p 0 (-1) (-1) {[0]}) <$> [2; 3; 4; 5]) ++
     ((fun p => mk_cell p 0 (-1) (-1) {[1]}) <$> [0; 1]) ++ replicate 2 cell_init)) 7.

Lemma masked_cache_wf : kv_wf masked_cache.
Proof.
  split; [done| |vm_compute; reflexivity|vm_compute; by split|vm_compute; done].
  cbn. repeat (apply Forall_cons; split; [unfold cell_ok, INT32_MAX; cbn; first [left; done|right; split; [lia|set_solver]]|]).
  constructor.
Qed.

Lemma attention_sees_history_witness :
  safe (set_mask (mk_iparams true true false 1) (kv_cells masked_cache) (kv_n masked_cache) (demo_ub 1 [0; 1]) false
          (Some (replicate 448 NegInf), Some (replicate 448 NegInf))) (fun m =>
    exists d dw, m = (Some d, Some dw) /\
      sees d 7 1 4 /\ ~ sees d 7 1 0 /\ sees dw 7 1 5 /\ ~ sees dw 7 1 4).
Proof.
  eapply post_mono; [apply (attention_sees_history (mk_iparams true true false 1) masked_cache (demo_ub 1 [0; 1])
    (replicate 448 NegInf) (replicate 448 NegInf))| |intros e []].
  - exact masked_cache_wf.
  - apply demo_ub_valid; [done|]. repeat constructor; unfold INT32_MAX; lia.
  - reflexivity.
  - intros t Ht. change (ub_n_tokens (demo_ub 1 [0; 1])) with 2 in Ht. unfold INT32_MAX.
    assert (t = 0 \/ t = 1) as [->| ->] by lia; vm_compute; reflexivity.
  - vm_compute. by split.
  - reflexivity.
  - vm_compute. reflexivity.
  - vm_compute. reflexivity.
  - intros m (d & dw & -> & H & _). exists d, dw.
    change (ub_n_tokens (demo_ub 1 [0; 1])) with 2 in H. change (kv_size masked_cache) with 8 in H.
    change (kv_n masked_cache) with 7 in H.
    splits; [reflexivity|..].
    + apply (H 1 4); [lia|lia|]. exists 0, {[1]}. splits; [reflexivity|set_solver|vm_compute; discriminate].
    + intros Hs. apply (H 1 0) in Hs as (q & T & E & Hin & _); [|lia|lia].
      vm_compute in E. injection E as <- <-. vm_compute in Hin. discriminate Hin.
    + apply (H 1 5); [lia|lia|]. exists 1. split; [exists {[1]}; splits; [reflexivity|set_solver|vm_compute; discriminate]|vm_compute; reflexivity].
    + intros Hs. apply (H 1 4) in Hs as (q & (T & E & _ & _) & Hw); [|lia|lia].
      vm_compute in E. injection E as <- _. vm_compute in Hw. discriminate Hw.
Defined.

(** * The outputs of the graph *)

(** The tokens that are outputs. *)
Definition output_rows (output : list Z) (n : Z) : list Z :=
  filter (fun t => default 0 (zlookup output t) <> 0) (zseq 0 (Z.to_nat n)).

Lemma output_rows_step output i o :
  0 <= i -> zlookup output i = Some o ->
  output_rows output (i + 1) = output_rows output i ++ (if o =? 0 then [] else [i]).
Proof.
  intros Hi Ho. unfold output_rows. replace (Z.to_nat (i + 1)) with (S (Z.to_nat i)) by lia.
  rewrite zseq_S, filter_app. f_equal. rewrite Z.add_0_l, Z2Nat.id by lia.
  rewrite filter_cons, filter_nil, Ho. cbn. destruct (Z.eqb_spec o 0); case_decide; try done; lia.
Qed.

Lemma filter_all {A} (P : A -> Prop) `{forall x, Decision (P x)} (l : list A) :
  length (filter P l) = length l -> filter P l = l.
Proof.
  induction l as [|x l IH]; [done|]. rewrite filter_cons. pose proof (length_filter P l) as Hle.
  case_decide; cbn; intros Hl; [f_equal; apply IH; lia|lia].
Qed.

Lemma output_rows_len output i n : i <= n -> zlen (output_rows output i) <= zlen (output_rows output n).
Proof.
  intros Hi. unfold output_rows. replace (Z.to_nat n) with (Z.to_nat i + (Z.to_nat n - Z.to_nat i))%nat by lia.
  unfold zseq. rewrite seq_app, fmap_app, filter_app, zlen_app.
  match goal with |- context [_ + zlen ?l] => pose proof (zlen_nonneg l) end. lia.
Qed.

Lemma set_out_ids_spec output n data :
  0 <= n <= zlen output -> zlen data = zlen (output_rows output n) ->
  safe (set_out_ids (zlen (output_rows output n)) (Some output) n data) (fun d => d = output_rows output n).
Proof.
  intros Hn Hd. unfold set_out_ids. destruct (Z.eqb_spec (zlen (output_rows output n)) n) as [He|Hne].
  - assert (Hall : output_rows output n = zseq 0 (Z.to_nat n)).
    { unfold output_rows in *. apply filter_all. rewrite length_zseq. unfold zlen in He. lia. }
    eapply (post_mono _ (fun d => zlen d = n /\ forall x, 0 <= x < n -> zlookup d x = Some x) _ (fun _ => False)); [| |done].
    + apply (for_z_post 0 n _ (fun k d => zlen d = n /\ forall x, 0 <= x < k -> zlookup d x = Some x)); [lia|split; [lia|intros; lia]|].
      intros k d Hk [H1 H2]. rewrite vset_at by lia. cbn [post]. rewrite zlen_insert. split; [done|].
      intros x Hx. rewrite zlookup_insert by lia. case_decide; [by subst|]. apply H2. lia.
    + intros d [H1 H2]. rewrite Hall. apply zlookup_ext; [unfold zlen in *; rewrite length_zseq; lia|].
      intros x Hx. rewrite H2 by lia. unfold zlookup. destruct (Z.leb_spec 0 x); [|lia]. unfold zseq.
      rewrite list_lookup_fmap, lookup_seq_lt by lia. cbn. f_equal. lia.
  - eapply post_bind with (P := fun r => r.2 = zlen (output_rows output n) /\ zlen r.1 = zlen (output_rows output n) /\
        take (Z.to_nat r.2) r.1 = output_rows output n).
    + apply (for_z_post 0 n _ (fun k r => r.2 = zlen (output_rows output k) /\ zlen r.1 = zlen (output_rows output n) /\
        take (Z.to_nat r.2) r.1 = output_rows output k)); [lia|by cbn|].
      intros k [d m] Hk (H1 & H2 & H3). cbn [fst snd] in *.
      destruct (zlookup_lt output k) as [o Hok]; [lia|]. rewrite (vget_Some _ _ _ Hok). cbn [mbind res_bind].
      pose proof (output_rows_step output k o ltac:(lia) Hok) as Hs. rewrite Hs.
      destruct (o =? 0); cbn [post fst snd]; [by rewrite app_nil_r|].
      pose proof (output_rows_len output (k + 1) n ltac:(lia)) as Hle. rewrite Hs, zlen_app in Hle. change (zlen [k]) with 1 in Hle.
      pose proof (zlen_nonneg (output_rows output k)).
      rewrite vset_at by lia. cbn [mbind res_bind post fst snd]. rewrite zlen_insert, zlen_app. change (zlen [k]) with 1.
      splits; [lia|done|]. replace (Z.to_nat (m + 1)) with (S (Z.to_nat m)) by lia.
      rewrite (take_S_r _ _ k) by (apply list_lookup_insert_eq; unfold zlen in *; lia).
      rewrite take_insert_ge by lia. by rewrite H3.
    + intros [d m] (H1 & H2 & H3). cbn [fst snd] in *. rewrite H1, Z.eqb_refl. cbn. subst m.
      rewrite <- H3. symmetry. apply take_ge. unfold zlen in H2 |- *. lia.
Qed.

(** * Pooling *)

Section pooling_spec.
Context (ub : llama_ubatch) (Hub : ub_valid ub).
Context (Hseq : forall t, 0 <= t < ub_n_tokens ub -> 0 <= first_seq ub t < ub_n_tokens ub).

Lemma first_seq_row s j ids id :
  0 <= j < ub_n_seq_tokens ub -> zlookup (ub_seq_id ub) s = Some ids -> zlookup ids 0 = Some id ->
  first_seq ub (s * ub_n_seq_tokens ub + j) = id.
Proof using.
  intros Hj Hids Hid. unfold first_seq.
  replace ((s * ub_n_seq_tokens ub + j) `div` ub_n_seq_tokens ub) with s by (apply (Z.div_unique _ _ _ j); lia).
  rewrite Hids. cbn [mbind option_bind]. by rewrite Hid.
Qed.

(** The rule of the loops over the tokens. *)
Lemma each_token_post {S} (f : Z -> Z -> Z -> S -> res S) (I : Z -> S -> Prop) E s :
  0 < ub_n_seq_tokens ub -> I 0 s ->
  (forall t s, 0 <= t < ub_n_tokens ub -> I t s -> post (f t (first_seq ub t) (token_pos_of ub t) s) (I (t + 1)) E) ->
  post (each_token ub f s) (I (ub_n_tokens ub)) E.
Proof using Hub Hseq.
  intros Hpos H0 Hf. pose proof (uv_sign _ Hub) as [Hs1 Hs2]. unfold each_token.
  replace (I (ub_n_tokens ub)) with (I (ub_n_seqs ub * ub_n_seq_tokens ub)) by (f_equal; rewrite (uv_rect _ Hub); lia).
  apply (for_z_post 0 (ub_n_seqs ub) _ (fun q => I (q * ub_n_seq_tokens ub))); [done|done|].
  intros q s1 Hq H1. destruct (first_seq_lookup ub q Hub Hq) as (ids & id & Hids & Hid).
  rewrite (vget_Some _ _ _ Hids). cbn [mbind res_bind]. rewrite (vget_Some _ _ _ Hid). cbn [mbind res_bind].
  assert (Hrow : forall j, 0 <= j < ub_n_seq_tokens ub -> 0 <= q * ub_n_seq_tokens ub + j < ub_n_tokens ub /\
            first_seq ub (q * ub_n_seq_tokens ub + j) = id).
  { intros j Hj. split; [rewrite (uv_rect _ Hub); nia|]. by apply (first_seq_row q j ids id). }
  destruct (Hrow 0 ltac:(lia)) as [Hr0 Hid0]. pose proof (Hseq _ Hr0) as Hlt. rewrite Hid0 in Hlt.
  destruct (Z.ltb_spec id (ub_n_tokens ub)); [|lia]. cbn [ggml_assert mbind res_bind].
  replace ((q + 1) * ub_n_seq_tokens ub) with (q * ub_n_seq_tokens ub + ub_n_seq_tokens ub) by lia.
  apply (for_z_post 0 (ub_n_seq_tokens ub) _ (fun j => I (q * ub_n_seq_tokens ub + j))); [lia|by rewrite Z.add_0_r|].
  intros j s2 Hj H2. destruct (Hrow j Hj) as [Hr Hidj]. destruct (uv_pos _ Hub _ Hr) as (pos & Hp & _).
  rewrite (vget_Some _ _ _ Hp). cbn [mbind res_bind]. rewrite Z.add_assoc.
  pose proof (Hf _ s2 Hr H2) as G. rewrite Hidj in G. unfold token_pos_of in G. by rewrite Hp in G.
Qed.

Lemma pos_nonneg t : 0 <= t < ub_n_tokens ub -> 0 <= token_pos_of ub t.
Proof using Hub.
  intros Ht. destruct (uv_pos _ Hub t Ht) as (p & Hp & Hr). unfold token_pos_of. rewrite Hp. cbn. lia.
Qed.

(** [last_row] and [last_pos] after the first [t] tokens. *)
Record last_inv (t : Z) (s : list Z * list Z) : Prop := {
  la_pos  : zlen s.1 = ub_n_tokens ub;
  la_row  : zlen s.2 = ub_n_tokens ub;
  la_some : forall u, 0 <= u < t -> exists r, zlookup s.2 (first_seq ub u) = Some r /\ 0 <= r < t /\
    first_seq ub r = first_seq ub u /\ zlookup s.1 (first_seq ub u) = Some (token_pos_of ub r) /\
    token_pos_of ub u <= token_pos_of ub r;
  la_none : forall q, 0 <= q < ub_n_tokens ub -> (forall u, 0 <= u < t -> first_seq ub u <> q) ->
    zlookup s.1 q = Some (-1) /\ zlookup s.2 q = Some (-1)
}.

Lemma last_step_spec t s :
  0 <= t < ub_n_tokens ub -> last_inv t s ->
  safe (last_step t (first_seq ub t) (token_pos_of ub t) s) (last_inv (t + 1)).
Proof using Hub Hseq.
  intros Ht [H1 H2 H3 H4]. destruct s as [lp lr]. cbn [fst snd] in *. unfold last_step. cbn [fst snd].
  pose proof (Hseq t Ht) as Hq. pose proof (pos_nonneg t Ht) as Hpt.
  destruct (zlookup_lt lp (first_seq ub t)) as [q Hqv]; [lia|]. rewrite (vget_Some _ _ _ Hqv). cbn [mbind res_bind].
  destruct (Z.leb_spec q (token_pos_of ub t)) as [Hle|Hgt].
  - rewrite !vset_at by lia. cbn [mbind res_bind post]. split; cbn [fst snd]; rewrite ?zlen_insert; try done.
    + intros u Hu. pose proof (Hseq u ltac:(lia)) as Hqu. rewrite !zlookup_insert by lia.
      destruct (decide (first_seq ub t = first_seq ub u)) as [E|E].
      * exists t. splits; [done|lia|lia|done|done|]. destruct (decide (u = t)) as [->|]; [lia|].
        destruct (H3 u ltac:(lia)) as (r & _ & _ & _ & R4 & R5). rewrite <- E, Hqv in R4. injection R4 as ->. lia.
      * assert (u <> t) by congruence. destruct (H3 u ltac:(lia)) as (r & R1 & R2 & R3 & R4 & R5).
        exists r. splits; try done; lia.
    + intros q' Hq' Hn. assert (first_seq ub t <> q') by (apply Hn; lia).
      rewrite !zlookup_insert by lia. rewrite !decide_False by done. apply H4; [done|]. intros u Hu. apply Hn. lia.
  - cbn [post]. split; cbn [fst snd]; try done.
    + intros u Hu. destruct (decide (u = t)) as [->|].
      * destruct (decide (Exists (fun u => first_seq ub u = first_seq ub t) (zseq 0 (Z.to_nat t)))) as [He|He].
        -- apply Exists_exists in He as (u & Hin & E). apply elem_of_zseq in Hin.
           destruct (H3 u ltac:(lia)) as (r & R1 & R2 & R3 & R4 & R5). rewrite E in R1, R3, R4. rewrite Hqv in R4. injection R4 as ->.
           exists r. splits; try done; lia.
        -- destruct (H4 _ Hq) as [E _]; [|rewrite Hqv in E; injection E as ->; lia].
           intros u Hu' E. apply He, Exists_exists. exists u. split; [apply elem_of_zseq; lia|done].
      * destruct (H3 u ltac:(lia)) as (r & R1 & R2 & R3 & R4 & R5). exists r. splits; try done; lia.
    + intros q' Hq' Hn. apply H4; [done|]. intros u Hu. apply Hn. lia.
Qed.

Definition cls_inv (t : Z) (data : list Z) : Prop :=
  zlen data = ub_n_tokens ub /\
  forall u, 0 <= u < t -> token_pos_of ub u = 0 -> exists r, zlookup data (first_seq ub u) = Some r /\ 0 <= r < t /\
    first_seq ub r = first_seq ub u /\ token_pos_of ub r = 0.

Lemma cls_step_spec t data :
  0 <= t < ub_n_tokens ub -> cls_inv t data ->
  safe (if token_pos_of ub t =? 0 then vset data (first_seq ub t) t else Ok data) (cls_inv (t + 1)).
Proof using Hub Hseq.
  intros Ht [H1 H2]. pose proof (Hseq t Ht) as Hq. destruct (Z.eqb_spec (token_pos_of ub t) 0) as [Hz|Hz].
  - rewrite vset_at by lia. cbn [post]. split; [by rewrite zlen_insert|]. intros u Hu Hu0.
    pose proof (Hseq u ltac:(lia)). rewrite zlookup_insert by lia. case_decide as E.
    + exists t. splits; [done|lia|lia|done|done].
    + destruct (H2 u) as (r & R1 & R2 & R3 & R4); [destruct (decide (u = t)) as [->|]; [done|lia]|done|].
      exists r. splits; try done; lia.
  - cbn [post]. split; [done|]. intros u Hu Hu0. destruct (H2 u) as (r & R1 & R2 & R3 & R4);
      [destruct (decide (u = t)) as [->|]; [done|lia]|done|]. exists r. splits; try done; lia.
Qed.
End pooling_spec.

(** Pooling selects a row of the right sequence: for a ubatch whose sequence
    ids are below the number of its tokens the loops do not fail; for every
    token of the ubatch, the entry of its sequence is, with
    LLAMA_POOLING_TYPE_LAST, a row of that sequence with a position that is at
    least the token's, and with CLS and RANK, if the token has position 0, a
    row of that sequence with position 0. *)
Theorem pooling_selects_rows ub :
  ub_valid ub -> 0 < ub_n_seq_tokens ub ->
  (forall t, 0 <= t < ub_n_tokens ub -> 0 <= first_seq ub t < ub_n_tokens ub) ->
  safe (pool_last ub) (fun data => forall t, 0 <= t < ub_n_tokens ub ->
    exists r, zlookup data (first_seq ub t) = Some r /\ 0 <= r < ub_n_tokens ub /\
      first_seq ub r = first_seq ub t /\ token_pos_of ub t <= token_pos_of ub r) /\
  safe (pool_cls ub) (fun data => forall t, 0 <= t < ub_n_tokens ub -> token_pos_of ub t = 0 ->
    exists r, zlookup data (first_seq ub t) = Some r /\ 0 <= r < ub_n_tokens ub /\
      first_seq ub r = first_seq ub t /\ token_pos_of ub r = 0).
Proof.
  intros Hub Hpos Hseq. assert (Hn : 0 <= ub_n_tokens ub) by (rewrite (uv_rect _ Hub); pose proof (uv_sign _ Hub); nia).
  assert (Hrep : forall x : Z, zlen (replicate (Z.to_nat (ub_n_tokens ub)) x) = ub_n_tokens ub).
  { intros x. unfold zlen. rewrite length_replicate. lia. }
  split.
  - unfold pool_last. cbv zeta. eapply post_bind; [apply (each_token_post ub Hub Hseq last_step (last_inv ub)); [done| |]|].
    + split; cbn [fst snd]; [done|done|intros; lia|]. intros q Hq _. by rewrite !zlookup_replicate_lt by lia.
    + intros t s Ht Hs. by apply last_step_spec.
    + intros s [H1 H2 H3 H4]. cbn [post]. intros t Ht. destruct (H3 t Ht) as (r & R1 & R2 & R3 & _ & R5).
      exists r. splits; try done; try lia. change (@map) with (@list_fmap). rewrite zlookup_fmap, R1. cbn.
      destruct (Z.leb_spec 0 r); [done|lia].
  - unfold pool_cls. apply (post_mono _ (cls_inv ub (ub_n_tokens ub)) _ (fun _ => False)); [apply (each_token_post ub Hub Hseq _ (cls_inv ub)); [done| |]| |done].
    + split; [done|]. intros; lia.
    + intros t s Ht Hs. by apply cls_step_spec.
    + intros data [_ H]. exact H.
Qed.

Lemma pooling_selects_rows_witness :
  safe (pool_last (demo_ub 1 [4; 7; 5])) (fun data => exists r, zlookup data 1 = Some r /\
    token_pos_of (demo_ub 1 [4; 7; 5]) 1 <= token_pos_of (demo_ub 1 [4; 7; 5]) r).
Proof.
  destruct (pooling_selects_rows (demo_ub 1 [4; 7; 5])) as [H _].
  - apply demo_ub_valid; [done|]. repeat constructor; unfold INT32_MAX; lia.
  - reflexivity.
  - intros t Ht. change (ub_n_tokens (demo_ub 1 [4; 7; 5])) with 3 in *.
    assert (t = 0 \/ t = 1 \/ t = 2) as [->|[->| ->]] by lia; vm_compute; split; (discriminate || reflexivity).
  - eapply post_mono; [exact H| |intros e []]. intros data Hd. destruct (Hd 1) as (r & R1 & _ & _ & R2); [split; [discriminate|reflexivity]|].
    exists r. split; [exact R1|exact R2].
Defined.
