(* ===== verification/Decode.v ===== *)
(** Decoding and encoding a batch ([src/llama.cpp]): the batch is completed and
    split, every ubatch gets a slot of the cache and is computed, and the rows of
    the outputs are collected. The graph and its computation, the allocator of
    the output buffer and the comparison of floats are operations of the class
    [Backend]. *)
From S2P Require Import Prelude Batch KvCache KvSpec KvUpdate KvShift Outputs Inputs.

(** * The backend *)

(** [enum ggml_status] *)
Inductive ggml_status : Type := STATUS_ALLOC_FAILED | STATUS_FAILED | STATUS_SUCCESS | STATUS_ABORTED.

(** What a computation leaves: the rows of the cache and the two tensors of the
    output. *)
Record graph_result (A F : Type) : Type := mk_gresult {
  gr_status : ggml_status;
  gr_rows   : list A;
  gr_logits : list F;
  gr_embd   : list F
}.
Arguments mk_gresult {A F}.
Arguments gr_status {A F}.
Arguments gr_rows {A F}.
Arguments gr_logits {A F}.
Arguments gr_embd {A F}.

(** [A] is a row of the key and value tensors, [F] a float. [graph_tensors] says
    which inputs the graph for a number of outputs has; [over_threshold] is the
    comparison of the fragmentation [1 - x / n] with the threshold. *)
Class Backend (A F : Type) : Type := {
  shift_row       : Z -> A -> A;
  graph_tensors   : kv_cache -> llama_ubatch -> Z -> graph_inputs;
  graph_compute   : kv_cache -> llama_ubatch -> graph_inputs -> list A -> graph_result A F;
  encoder_tensors : llama_ubatch -> graph_inputs;
  encoder_compute : llama_ubatch -> graph_inputs -> ggml_status * list F;
  alloc_output    : Z -> option Z;
  zero            : F;
  over_threshold  : Z -> Z -> bool
}.

(** * The context *)

(** What the functions read of the model and of the context parameters. *)
Record context_params : Type := mk_cparams {
  cp_n_vocab      : Z;
  cp_n_embd       : Z;
  cp_n_batch      : Z;
  cp_n_ubatch     : Z;
  cp_n_seq_max    : Z;
  cp_n_threads    : Z;
  cp_n_threads_batch : Z;
  cp_embeddings   : bool;
  cp_pooling      : pooling_type;
  cp_logits_all   : bool;
  cp_causal_model : bool;
  cp_causal_attn  : bool;
  cp_use_alibi    : bool;
  cp_n_swa        : Z;
  cp_flash_attn   : bool;
  cp_rope         : bool;
  cp_max_moves    : Z;
  cp_defrag       : bool;
  cp_has_decoder  : bool
}.

Definition in_params (p : context_params) : input_params :=
  mk_iparams (cp_causal_model p) (cp_causal_attn p) (cp_use_alibi p) (cp_n_swa p).

Definition out_params (p : context_params) : output_params :=
  mk_oparams (cp_n_vocab p) (cp_n_embd p) (cp_n_batch p) (cp_n_seq_max p) (cp_embeddings p)
    (bool_decide (cp_pooling p = PoolNone)).

(** Pooled embeddings ignore [batch.logits]. *)
Definition embd_pooled (p : context_params) : bool := cp_embeddings p && bool_decide (cp_pooling p <> PoolNone).

(** The members of [llama_context] that decoding changes. *)
Record llama_context (A F : Type) : Type := mk_ctx {
  cx_kv          : kv_cache;
  cx_rows        : list A;
  cx_sbatch      : llama_sbatch;
  cx_out         : outputs F;
  cx_embd_seq    : gmap Z (list F);
  cx_queued      : Z;
  cx_encoding    : bool;
  cx_embd_enc    : list F;
  cx_seq_ids_enc : list (gset Z)
}.
Arguments mk_ctx {A F}.
Arguments cx_kv {A F}.
Arguments cx_rows {A F}.
Arguments cx_sbatch {A F}.
Arguments cx_out {A F}.
Arguments cx_embd_seq {A F}.
Arguments cx_queued {A F}.
Arguments cx_encoding {A F}.
Arguments cx_embd_enc {A F}.
Arguments cx_seq_ids_enc {A F}.

Section context.
Context {A F : Type}.
Implicit Types (cx : llama_context A F) (o : outputs F).

Definition set_cache (kv : kv_cache) (rows : list A) cx : llama_context A F :=
  mk_ctx kv rows (cx_sbatch cx) (cx_out cx) (cx_embd_seq cx) (cx_queued cx) (cx_encoding cx) (cx_embd_enc cx) (cx_seq_ids_enc cx).
Definition set_sbatch (sb : llama_sbatch) cx : llama_context A F :=
  mk_ctx (cx_kv cx) (cx_rows cx) sb (cx_out cx) (cx_embd_seq cx) (cx_queued cx) (cx_encoding cx) (cx_embd_enc cx) (cx_seq_ids_enc cx).
Definition set_out o cx : llama_context A F :=
  mk_ctx (cx_kv cx) (cx_rows cx) (cx_sbatch cx) o (cx_embd_seq cx) (cx_queued cx) (cx_encoding cx) (cx_embd_enc cx) (cx_seq_ids_enc cx).
Definition set_embd_seq (m : gmap Z (list F)) cx : llama_context A F :=
  mk_ctx (cx_kv cx) (cx_rows cx) (cx_sbatch cx) (cx_out cx) m (cx_queued cx) (cx_encoding cx) (cx_embd_enc cx) (cx_seq_ids_enc cx).
Definition set_encoding (b : bool) cx : llama_context A F :=
  mk_ctx (cx_kv cx) (cx_rows cx) (cx_sbatch cx) (cx_out cx) (cx_embd_seq cx) (cx_queued cx) b (cx_embd_enc cx) (cx_seq_ids_enc cx).
Definition set_encoded (embd : list F) (ids : list (gset Z)) cx : llama_context A F :=
  mk_ctx (cx_kv cx) (cx_rows cx) (cx_sbatch cx) (cx_out cx) (cx_embd_seq cx) (cx_queued cx) (cx_encoding cx) embd ids.

(** [n_queued_tokens += n] *)
Definition queue_tokens (n : Z) cx : llama_context A F :=
  mk_ctx (cx_kv cx) (cx_rows cx) (cx_sbatch cx) (cx_out cx) (cx_embd_seq cx) (i32 (cx_queued cx + n))
    (cx_encoding cx) (cx_embd_enc cx) (cx_seq_ids_enc cx).

Definition with_outputs (n : Z) o : outputs F :=
  mk_outputs (o_ids o) n (o_output_size o) (o_logits_size o) (o_embd_size o) (o_logits o) (o_embd o) (o_buf o).
Definition with_ids (ids : list Z) o : outputs F :=
  mk_outputs ids (o_n_outputs o) (o_output_size o) (o_logits_size o) (o_embd_size o) (o_logits o) (o_embd o) (o_buf o).
Definition with_logits (l : list F) o : outputs F :=
  mk_outputs (o_ids o) (o_n_outputs o) (o_output_size o) (o_logits_size o) (o_embd_size o) (Some l) (o_embd o) (o_buf o).
Definition with_embd (l : list F) o : outputs F :=
  mk_outputs (o_ids o) (o_n_outputs o) (o_output_size o) (o_logits_size o) (o_embd_size o) (o_logits o) (Some l) (o_buf o).
End context.

(** * Preparing the batch *)

(** The loop that rejects tokens outside the vocabulary. *)
Fixpoint valid_tokens (n_vocab : Z) (n : nat) (i : Z) (token : list Z) : res bool :=
  match n with
  | O => Ok true
  | S n =>
      t ← vget token i;
      if (t <? 0) || (n_vocab <=? t) then Ok false else valid_tokens n_vocab n (i + 1) token
  end.

(** How many of the first [n] flags are set. *)
Definition count_flags (flags : list Z) (n : Z) : res Z :=
  for_z 0 n (fun i k => o ← vget flags i; Ok (if o =? 0 then k else u32 (k + 1))) 0.

Definition clear_out_ids (sb : llama_sbatch) : llama_sbatch :=
  mk_sbatch (sb_n_tokens sb) (sb_logits_all sb) (sb_ids sb) [] (sb_seq sb) (sb_batch sb) (sb_capacity sb).

Section decode.
Context {A F : Type} `{Backend A F} `{CppSort} (p : context_params).
Implicit Types (cx : llama_context A F) (b : llama_batch) (g : graph_result A F).

(** [llama_prepare_sbatch]: the code it returns, the number of outputs and the
    context. *)
Definition llama_prepare_sbatch b cx : res (Z * Z * llama_context A F) :=
  ggml_assert (Bool.eqb (bool_decide (is_Some (b_token b))) (bool_decide (b_embd b = None)));;
  let n := b_n_tokens b in
  valid ← (match b_token b with Some token => valid_tokens (cp_n_vocab p) (Z.to_nat n) 0 token | None => Ok true end);
  if negb valid then Ok (-1, 0, cx)
  else
    ggml_assert (n <=? cp_n_batch p);;
    ggml_assert (cp_causal_attn p || (n <=? cp_n_ubatch p));;
    let cx := set_embd_seq ∅ (queue_tokens n cx) in
    n_outputs ← (match b_logits b, embd_pooled p with
                 | Some logits, false => count_flags logits n
                 | _, _ => Ok (if cp_logits_all p || embd_pooled p then n else 1)
                 end);
    sb ← from_batch (cx_sbatch cx) b (negb (kv_recurrent (cx_kv cx))) (n_outputs =? n);
    let '(o, reserved) := llama_output_reserve (out_params p) alloc_output zero (cx_out cx) n_outputs in
    let cx := set_out o (set_sbatch sb cx) in
    Ok (if reserved <? n_outputs then -2 else 0, n_outputs, cx).

(** ** Preparing a ubatch *)

Definition split_mode_of cx : split_mode :=
  if kv_recurrent (cx_kv cx) then (if embd_pooled p then SplitSeq else SplitEqual) else SplitSimple.

(** How many cells the attention looks at. *)
Definition attention_size (cache : kv_cache) : Z :=
  let pad := llama_kv_cache_get_padding (cp_flash_attn p) in
  Z.min (kv_size cache) (Z.max pad (u32 (GGML_PAD (llama_kv_cache_cell_max cache) pad))).

(** [llama_prepare_ubatch] *)
Definition llama_prepare_ubatch (n_outputs n_tokens_all : Z) (restorer : slot_restorer) cx
    : res (Z * (slot_restorer * (llama_ubatch * llama_context A F))) :=
  ggml_assert (0 <? sb_n_tokens (cx_sbatch cx));;
  r ← split_by (split_mode_of cx) (cx_sbatch cx) (cp_n_ubatch p);
  let '(sb, ub) := r : llama_sbatch * llama_ubatch in
  n_outputs_new ← (if n_outputs =? n_tokens_all then Ok (ub_n_tokens ub) else count_flags (ub_output ub) (ub_n_tokens ub));
  let cx := set_sbatch sb (set_out (with_outputs n_outputs_new (cx_out cx)) cx) in
  if negb (cp_causal_model p) then Ok (0, (restorer, (ub, cx)))
  else
    u ← llama_kv_cache_update_impl shift_row (cp_rope p) (cp_max_moves p) (cx_kv cx) (cx_rows cx);
    let '(cache, rows, _) := u : kv_cache * list A * bool in
    s ← llama_kv_cache_find_slot (rewind_head (ub_n_tokens ub) cache) ub;
    let '(slot, cache) := s : slot_info * kv_cache in
    if negb (slot_found slot) then Ok (1, (restorer, (ub, set_cache cache rows cx)))
    else
      let cache := if kv_recurrent cache then cache else with_n cache (attention_size cache) in
      Ok (0, (restorer_save restorer slot, (ub, set_cache cache rows cx))).

(** * Collecting the outputs *)

(** [ggml_backend_tensor_get_async]: [n] elements of a tensor, from the
    element [off]. *)
Definition tensor_get (t : list F) (off n : Z) : res (list F) :=
  ggml_assert ((0 <=? off) && (off + n <=? zlen t));;
  Ok (take (Z.to_nat n) (drop (Z.to_nat off) t)).

(** Writing elements to a buffer. *)
Definition write_at (l : list F) (off : Z) (x : list F) : res (list F) :=
  if (0 <=? off) && (off + zlen x <=? zlen l)
  then Ok (take (Z.to_nat off) l ++ x ++ drop (Z.to_nat (off + zlen x)) l) else Err UB.

(** [n_new] rows of [n] elements, behind the rows of the [prev] outputs. *)
Definition extract_rows (size n prev n_new n_outputs : Z) (t l : list F) : res (list F) :=
  ggml_assert (u32 (prev + n_new) <=? n_outputs);;
  ggml_assert (u32 (prev + n_new) * n <=? size);;
  x ← tensor_get t 0 (n_new * n);
  write_at l (prev * n) x.

(** The embeddings of the sequences of a ubatch, [n] elements each. *)
Definition extract_seqs (ub : llama_ubatch) (n : Z) (t : list F) (m : gmap Z (list F)) : res (gmap Z (list F)) :=
  for_z 0 (ub_n_seqs ub) (fun s m =>
    seq_ids ← vget (ub_seq_id ub) s;
    seq_id ← vget seq_ids 0;
    match m !! seq_id with
    | Some _ => Ok m
    | None => x ← tensor_get t (n * seq_id) n; Ok (<[seq_id := x]> m)
    end) m.

(** The outputs of a computed ubatch. *)
Definition extract (n_outputs prev : Z) (ub : llama_ubatch) g cx : res (llama_context A F) :=
  let o := cx_out cx in
  let n_new := o_n_outputs o in
  if n_new =? 0 then Ok cx
  else if negb (cp_embeddings p) then
    match o_logits o with
    | Some l =>
        l ← extract_rows (o_logits_size o) (cp_n_vocab p) prev n_new n_outputs (gr_logits g) l;
        Ok (set_out (with_logits l o) cx)
    | None => Err Abort
    end
  else
    match cp_pooling p with
    | PoolNone =>
        match o_embd o with
        | Some l =>
            l ← extract_rows (o_embd_size o) (cp_n_embd p) prev n_new n_outputs (gr_embd g) l;
            Ok (set_out (with_embd l o) cx)
        | None => Err Abort
        end
    | PoolMean | PoolCls | PoolLast =>
        m ← extract_seqs ub (cp_n_embd p) (gr_embd g) (cx_embd_seq cx); Ok (set_embd_seq m cx)
    | PoolRank => m ← extract_seqs ub 1 (gr_embd g) (cx_embd_seq cx); Ok (set_embd_seq m cx)
    | PoolUnspecified => Err Abort
    end.

(** The output mappings: which row belongs to which token, and whether the rows
    are in the order of the batch. *)
Definition map_output_ids (out_ids : list Z) (n_outputs : Z) (ids : list Z) : res (list Z * bool) :=
  ggml_assert (zlen out_ids =? n_outputs);;
  for_z 0 n_outputs (fun i '(ids, sorted) =>
    id ← vget out_ids i;
    ids ← vset ids id (i32 i);
    Ok (ids, sorted && (id =? i))) (ids, true).

(** The request for a defragmentation. *)
Definition request_defrag (cache : kv_cache) : kv_cache :=
  if cp_causal_attn p && cp_defrag p && (2048 <=? kv_n cache)
     && over_threshold (u32 (kv_used cache + llama_kv_cache_get_padding (cp_flash_attn p))) (kv_n cache)
  then llama_kv_cache_defrag cache else cache.

(** * Decoding *)

Definition status_code (s : ggml_status) : Z :=
  match s with STATUS_ABORTED => 2 | STATUS_ALLOC_FAILED => -2 | _ => -3 end.

(** One iteration of the loop over the ubatches: the state is the restorer, the
    number of outputs before the ubatch and the context, the result the code
    that is returned, 0 when all tokens are computed. *)
Definition decode_ubatch b (n_outputs : Z) (s : slot_restorer * (Z * llama_context A F))
    : res (step (slot_restorer * (Z * llama_context A F)) (Z * llama_context A F)) :=
  let '(restorer, (prev, cx)) := s in
  if negb (0 <? sb_n_tokens (cx_sbatch cx)) then Ok (Done (0, cx))
  else
    r ← llama_prepare_ubatch n_outputs (b_n_tokens b) restorer cx;
    let '(ret, (restorer, (ub, cx))) := r : Z * (slot_restorer * (llama_ubatch * llama_context A F)) in
    if negb (ret =? 0) then Ok (Done (ret, cx))
    else
      ggml_assert (0 <? (if ub_n_tokens ub =? 1 then cp_n_threads p else cp_n_threads_batch p));;
      let n_new := o_n_outputs (cx_out cx) in
      r ← llama_set_inputs (in_params p) (cp_embeddings p) (cp_pooling p) (cx_encoding cx) (cx_seq_ids_enc cx)
            (zlen (cx_embd_enc cx)) (cp_n_embd p) n_new (cx_kv cx) ub (graph_tensors (cx_kv cx) ub n_new);
      let '(inputs, cache) := r : graph_inputs * kv_cache in
      let g := graph_compute cache ub inputs (cx_rows cx) in
      let cx := set_cache cache (gr_rows g) cx in
      match gr_status g with
      | STATUS_SUCCESS =>
          cx ← extract n_outputs prev ub g (set_cache (advance_head (ub_n_tokens ub) cache) (gr_rows g) cx);
          Ok (Next (restorer, (u32 (prev + n_new), cx)))
      | status =>
          cache ← restorer_restore restorer cache;
          Ok (Done (status_code status, set_cache cache (gr_rows g) cx))
      end.

(** After the loop. *)
Definition decode_finish (n_outputs : Z) cx : res (llama_context A F) :=
  r ← map_output_ids (sb_out_ids (cx_sbatch cx)) n_outputs (o_ids (cx_out cx));
  let '(ids, sorted) := r : list Z * bool in
  let sb := if sorted then clear_out_ids (cx_sbatch cx) else cx_sbatch cx in
  let cx := set_out (with_outputs (i32 n_outputs) (with_ids ids (cx_out cx))) (set_sbatch sb cx) in
  Ok (set_cache (request_defrag (cx_kv cx)) (cx_rows cx) cx).

(** The position of the first token of a batch without positions. *)
Definition next_pos b (cache : kv_cache) : res Z :=
  match b_pos b with Some _ => Ok (-1) | None => s32 (max_pos cache + 1) end.

(** [llama_decode_impl] *)
Definition llama_decode_impl (fuel : nat) (inp_batch : llama_batch) cx : res (Z * llama_context A F) :=
  let cx := set_encoding false cx in
  if b_n_tokens inp_batch =? 0 then Ok (-1, cx)
  else
    p0 ← next_pos inp_batch (cx_kv cx);
    b ← llama_batch_allocr inp_batch p0;
    let restorer := restorer_init (cx_kv cx) in
    r ← llama_prepare_sbatch b cx;
    let '(ret, n_outputs, cx) := r : Z * Z * llama_context A F in
    if negb (ret =? 0) then Ok (ret, cx)
    else
      r ← while (decode_ubatch b n_outputs) fuel (restorer, (0, cx));
      let '(ret, cx) := r : Z * llama_context A F in
      if negb (ret =? 0) then Ok (ret, cx)
      else cx ← decode_finish n_outputs cx; Ok (0, cx).

(** * Encoding *)

(** The sequences of the encoded tokens: the vector is resized and the sets are
    inserted into. *)
Definition remember_sequences (ub : llama_ubatch) (n : Z) (enc : list (gset Z)) : res (list (gset Z)) :=
  for_z 0 n (fun i enc =>
    n_seq_id ← vget (ub_n_seq_id ub) i;
    for_z 0 n_seq_id (fun s enc =>
      ids ← vget (ub_seq_id ub) i;
      id ← vget ids s;
      S ← vget enc i;
      vset enc i (S ∪ {[id]})) enc) (vresize ∅ (Z.to_nat n) enc).

(** [llama_encode_impl] after the computation. *)
Definition extract_encoded (n : Z) (ub : llama_ubatch) (t : list F) cx : res (llama_context A F) :=
  if cp_has_decoder p then
    embd ← tensor_get t 0 (n * cp_n_embd p);
    ggml_assert (negb (ub_equal_seqs ub));;
    enc ← remember_sequences ub n (cx_seq_ids_enc cx);
    Ok (set_encoded embd enc cx)
  else if negb (cp_embeddings p) then Ok cx
  else
    let o := cx_out cx in
    match o_embd o with
    | None => Err Abort
    | Some l =>
        match cp_pooling p with
        | PoolNone =>
            ggml_assert (n * cp_n_embd p <=? o_embd_size o);;
            x ← tensor_get t 0 (n * cp_n_embd p);
            l ← write_at l 0 x;
            Ok (set_out (with_embd l o) cx)
        | PoolMean | PoolCls | PoolLast =>
            ggml_assert (negb (ub_equal_seqs ub));;
            m ← for_z 0 n (fun i m =>
                  seq_ids ← vget (ub_seq_id ub) i;
                  seq_id ← vget seq_ids 0;
                  match m !! seq_id with
                  | Some _ => Ok m
                  | None => x ← tensor_get t (cp_n_embd p * seq_id) (cp_n_embd p); Ok (<[seq_id := x]> m)
                  end) ∅;
            Ok (set_embd_seq m cx)
        | PoolRank | PoolUnspecified => Err Abort
        end
    end.

(** [llama_encode_impl] *)
Definition llama_encode_impl (inp_batch : llama_batch) cx : res (Z * llama_context A F) :=
  let cx := set_encoding true cx in
  if b_n_tokens inp_batch =? 0 then Ok (-1, cx)
  else
    p0 ← next_pos inp_batch (cx_kv cx);
    b ← llama_batch_allocr inp_batch p0;
    let n := b_n_tokens b in
    ggml_assert (Bool.eqb (bool_decide (is_Some (b_token b))) (bool_decide (b_embd b = None)));;
    valid ← (match b_token b with Some token => valid_tokens (cp_n_vocab p) (Z.to_nat n) 0 token | None => Ok true end);
    if negb valid then Ok (-1, cx)
    else
      ggml_assert (n <=? cp_n_ubatch p);;
      let cx := queue_tokens n cx in
      sb ← from_batch (cx_sbatch cx) b true true;
      r ← split_simple sb n;
      let '(sb, ub) := r : llama_sbatch * llama_ubatch in
      let '(o, reserved) := llama_output_reserve (out_params p) alloc_output zero (cx_out cx) n in
      let cx := set_out o (set_sbatch sb cx) in
      if reserved <? n then Ok (-2, cx)
      else
        ids ← for_z 0 n (fun i ids => vset ids i i) (o_ids o);
        let cx := set_out (with_outputs n (with_ids ids o)) cx in
        ggml_assert (0 <? (if n =? 1 then cp_n_threads p else cp_n_threads_batch p));;
          r ← llama_set_inputs (in_params p) (cp_embeddings p) (cp_pooling p) true (cx_seq_ids_enc cx)
              (zlen (cx_embd_enc cx)) (cp_n_embd p) n (cx_kv cx) ub (encoder_tensors ub);
        let '(inputs, cache) := r : graph_inputs * kv_cache in
        let cx := set_cache cache (cx_rows cx) cx in
        let g := encoder_compute ub inputs in
        match g.1 with
        | STATUS_SUCCESS => cx ← extract_encoded n ub g.2 cx; Ok (0, cx)
        | status => Ok (status_code status, cx)
        end.
End decode.
