(* ===== verification/DecodeSpec.v ===== *)
(** The correctness of decoding, for decoder-only models that compute logits:
    the cache while a batch is decoded, the rows of the outputs, and the theorem
    on [llama_decode_impl]. The laws of the backend are the class
    [BackendLaws]. *)
From S2P Require Import Prelude Batch KvCache KvSpec KvUpdate KvShift Outputs Inputs Decode.

(** * The cache during decoding *)

Lemma holds_in_use cache s q :
  kv_wf cache -> holds (slots cache) s q <->
  exists c i, kv_cells cache !! i = Some c /\ is_empty c = false /\ s ∈ c_seq_id c /\ c_pos c = q.
Proof.
  intros Hwf. rewrite holds_cells by done. split.
  - intros (c & Hc & Hs & Hq). apply list_elem_of_lookup in Hc as [i Hi]. exists c, i. splits; [done| |done..].
    apply is_empty_false. set_solver.
  - intros (c & i & Hi & _ & Hs & Hq). exists c. splits; [by apply list_elem_of_lookup; exists i|done..].
Qed.

Section kept.
Context {A K : Type} (row_at : Z -> K -> A).

Lemma aligned_ext cache cache' rows keys :
  kv_cells cache' = kv_cells cache -> kv_has_shift cache' = kv_has_shift cache ->
  aligned row_at cache rows keys -> aligned row_at cache' rows keys.
Proof.
  intros Hc Hs [H1 H2 H3 H4]. split; unfold kv_size, shifts_known in *; rewrite ?Hc, ?Hs; done.
Qed.

(** The update moves tokens to other cells but keeps them. *)
Lemma update_holds cache cache' rows rows' keys keys' s q :
  kv_wf cache -> kv_wf cache' -> aligned row_at cache rows keys -> aligned row_at cache' rows' keys' ->
  occupied (kv_cells cache') keys' ≡ₚ (fun p => (set_delta 0 p.1, p.2)) <$> occupied (kv_cells cache) keys ->
  holds (slots cache') s q <-> holds (slots cache) s q.
Proof.
  intros Hwf Hwf' Ha Ha' Hp. rewrite !holds_in_use by done. split.
  - intros (c & i & Hi & He & Hs & Hq).
    destruct (lookup_lt_is_Some_2 keys' i) as [k Hk].
    { apply lookup_lt_Some in Hi. pose proof (al_keys _ _ _ _ Ha'). unfold kv_size, zlen in *. lia. }
    assert (Hin : (c, k) ∈ occupied (kv_cells cache') keys') by (apply elem_of_occupied; split; [done|by exists i]).
    rewrite Hp in Hin. apply list_elem_of_fmap in Hin as ([c0 k0] & E & Hin). cbn in E. injection E as -> ->.
    apply elem_of_occupied in Hin as (He0 & j & Hj & _). by exists c0, j.
  - intros (c & i & Hi & He & Hs & Hq).
    destruct (lookup_lt_is_Some_2 keys i) as [k Hk].
    { apply lookup_lt_Some in Hi. pose proof (al_keys _ _ _ _ Ha). unfold kv_size, zlen in *. lia. }
    assert (Hin : (set_delta 0 c, k) ∈ occupied (kv_cells cache') keys').
    { rewrite Hp. apply list_elem_of_fmap. exists (c, k). split; [done|]. apply elem_of_occupied. split; [done|by exists i]. }
    apply elem_of_occupied in Hin as (He0 & j & Hj & _). by exists (set_delta 0 c), j.
Qed.
End kept.

Lemma wf_ext cache cache' :
  kv_wf cache -> kv_recurrent cache' = kv_recurrent cache -> kv_cells cache' = kv_cells cache ->
  kv_used cache' = kv_used cache -> 0 <= kv_head cache' <= kv_size cache -> kv_wf cache'.
Proof. intros [H1 H2 H3 H4 H5] Er Ec Eu Eh. split; unfold kv_size in *; rewrite ?Er, ?Ec, ?Eu; done. Qed.

Lemma with_n_wf cache n : kv_wf cache -> kv_wf (with_n cache n).
Proof. intros Hwf. by apply (wf_ext cache); [..|apply (kw_head _ Hwf)]. Qed.

Lemma with_defrag_wf cache b : kv_wf cache -> kv_wf (with_defrag cache b).
Proof. intros Hwf. by apply (wf_ext cache); [..|apply (kw_head _ Hwf)]. Qed.

Lemma restorer_restore_safe r cache :
  kv_wf cache -> 0 <= old_head r <= kv_size cache ->
  safe (restorer_restore r cache) (fun c => kv_wf c /\ kv_size c = kv_size cache).
Proof.
  intros Hwf Hh. unfold restorer_restore. destruct (do_restore r); [|by cbn].
  set (c1 := with_n _ _). assert (Hwf1 : kv_wf c1 /\ kv_size c1 = kv_size cache) by (split; [by apply (wf_ext cache)|done]).
  change (kv_recurrent c1) with (kv_recurrent cache). rewrite (kw_attention _ Hwf). clearbody c1. revert c1 Hwf1.
  induction (slot_boundaries r) as [|[x y] l IH]; intros c1 [Hwf1 Hs1]; [by cbn|]. cbn [foldM fst snd].
  eapply post_bind with (P := fun c => kv_wf c /\ kv_size c = kv_size cache); [|by apply IH].
  eapply post_bind; [by apply seq_rm_spec|]. intros [b c] (_ & H1 & H2). cbn in *. split; [done|].
  rewrite <- Hs1. unfold kv_size, zlen. f_equal. apply (f_equal length) in H2. unfold slots in H2. by rewrite !length_fmap in H2.
Qed.

Lemma GGML_PAD_pow2 x k : 0 <= k -> x <= GGML_PAD x (2 ^ k) < x + 2 ^ k.
Proof.
  intros Hk. unfold GGML_PAD. assert (0 < 2 ^ k) by by apply Z.pow_pos_nonneg.
  replace (2 ^ k - 1) with (Z.ones k) by (rewrite Z.ones_equiv; lia).
  replace (Z.land (x + 2 ^ k - 1) (Z.lnot (Z.ones k))) with (Z.ldiff (x + 2 ^ k - 1) (Z.ones k)) by apply Z.ldiff_land.
  rewrite Z.ldiff_ones_r, Z.shiftr_div_pow2, Z.shiftl_mul_pow2 by lia.
  pose proof (Z.div_mod (x + 2 ^ k - 1) (2 ^ k) ltac:(lia)). pose proof (Z.mod_pos_bound (x + 2 ^ k - 1) (2 ^ k) ltac:(lia)). lia.
Qed.

(** The attention looks at all cells in use. *)
Lemma attention_size_spec p cache :
  kv_wf cache -> 0 < kv_size cache ->
  llama_kv_cache_cell_max cache <= attention_size p cache <= kv_size cache /\ 0 < attention_size p cache.
Proof.
  intros Hwf Hpos. unfold attention_size. pose proof (cell_max_spec cache Hwf) as [Hm _].
  pose proof (kw_size _ Hwf). unfold KV_SIZE_MAX in *.
  assert (Hp : exists k, 0 <= k <= 8 /\ llama_kv_cache_get_padding (cp_flash_attn p) = 2 ^ k).
  { unfold llama_kv_cache_get_padding. destruct (cp_flash_attn p); [exists 8|exists 5]; done. }
  destruct Hp as (k & Hk & Hpad). rewrite Hpad. pose proof (GGML_PAD_pow2 (llama_kv_cache_cell_max cache) k ltac:(lia)).
  assert (2 ^ k <= 2 ^ 8) by (apply Z.pow_le_mono_r; lia). change (2 ^ 8) with 256 in *.
  assert (0 < 2 ^ k) by (apply Z.pow_pos_nonneg; lia). rewrite u32_small by lia. lia.
Qed.

(** ** Taking a slot *)

Section slot.
Context {A K F : Type} `{Backend A F} (p : context_params) (row_at : Z -> K -> A).
Context (Hshift : if cp_rope p then forall q d k, shift_row d (row_at q k) = row_at (q + d) k
                  else forall q r k, row_at q k = row_at r k).

(** The state of the cache between two ubatches. *)
Record cache_ok (size : Z) (cache : kv_cache) (rows : list A) : Prop := {
  co_wf    : kv_wf cache;
  co_size  : kv_size cache = size;
  co_shift : kv_has_shift cache = true -> kv_can_shift cache = true;
  co_keys  : exists keys, aligned row_at cache rows keys
}.

(** A slot was taken for the ubatch [ub]. *)
Record slot_taken (size : Z) (cache cache' : kv_cache) (rows' : list A) (ub : llama_ubatch) : Prop := {
  sk_wf     : kv_wf cache';
  sk_size   : kv_size cache' = size;
  sk_shift  : kv_has_shift cache' = false;
  sk_holds  : forall s q, holds (slots cache') s q <->
                holds (slots cache) s q \/ exists i, 0 <= i < ub_n_tokens ub /\ token_in ub i s q;
  sk_n      : llama_kv_cache_cell_max cache' <= kv_n cache' <= kv_size cache' /\ 0 < kv_n cache';
  sk_keys   : exists keys, zlen rows' = zlen keys /\
                forall rows2 keys2, computed row_at ub (kv_head cache') rows' rows2 keys keys2 ->
                  aligned row_at cache' rows2 keys2
}.

Lemma update_keeps size cache rows :
  cache_ok size cache rows ->
  safe (llama_kv_cache_update_impl shift_row (cp_rope p) (cp_max_moves p) cache rows) (fun r =>
    cache_ok size r.1.1 r.1.2 /\ kv_has_shift r.1.1 = false /\
    forall s q, holds (slots r.1.1) s q <-> holds (slots cache) s q).
Proof using Hshift.
  intros [Hwf Hsize Hcan (keys & Hal)].
  eapply post_mono; [apply (update_aligned shift_row row_at (cp_rope p) (cp_max_moves p) cache rows keys); done| |done].
  intros [[c1 rows1] need] (Hwf1 & Hs1 & Hd1 & Hsz1 & keys1 & Hal1 & Hocc). cbn [fst snd] in *.
  splits; [split; [done|congruence|congruence|by exists keys1]|done|].
  intros s q. by apply (update_holds row_at cache c1 rows rows1 keys keys1).
Qed.

Lemma find_slot_takes size cache rows ub :
  0 < size -> cache_ok size cache rows -> kv_has_shift cache = false -> ub_valid ub ->
  safe (llama_kv_cache_find_slot (rewind_head (ub_n_tokens ub) cache) ub) (fun r =>
    kv_wf r.2 /\ kv_size r.2 = size /\
    if slot_found r.1 then slot_taken size cache (with_n r.2 (attention_size p r.2)) rows ub
    else forall h, ~ free_window (slots r.2) h (ub_n_tokens ub)).
Proof.
  intros Hpos [Hwf Hsize Hcan (keys & Hal)] Hs Hub. set (c1 := rewind_head (ub_n_tokens ub) cache).
  assert (Hc1 : kv_cells c1 = kv_cells cache /\ kv_has_shift c1 = kv_has_shift cache) by (unfold c1, rewind_head; destruct (_ <? _); by split).
  destruct Hc1 as [Hcells Hs1].
  assert (Hwf1 : kv_wf c1) by by apply rewind_head_wf.
  assert (Hsl : slots c1 = slots cache) by (unfold slots; by rewrite Hcells).
  pose proof (aligned_ext row_at cache c1 rows keys Hcells Hs1 Hal) as Hal1.
  pose proof (find_slot_cells c1 ub Hwf1 Hub) as HA. pose proof (find_slot_attention_spec c1 ub Hwf1 Hub) as HB.
  unfold llama_kv_cache_find_slot in *. rewrite (kw_attention _ Hwf1) in *.
  eapply post_mono; [apply (post_and _ _ _ _ HA HB)| |done].
  intros [slot c2] ([Hs2 HF] & Hwf2 & Hsz2 & Hr). cbn [fst snd] in *.
  assert (Hsz : kv_size c2 = size) by (rewrite Hsz2, <- Hsize; unfold kv_size; by rewrite Hcells).
  splits; [done|done|]. destruct (slot_found slot).
  - destruct Hr as (_ & Hw & Hst). destruct (HF eq_refl) as [Hh0 HF0]. split.
    + by apply with_n_wf.
    + exact Hsz.
    + cbn. congruence.
    + intros s q. change (slots (with_n c2 (attention_size p c2))) with (slots c2). rewrite <- Hsl.
      apply (holds_store ub (kv_head c2)); done.
    + change (llama_kv_cache_cell_max (with_n c2 (attention_size p c2))) with (llama_kv_cache_cell_max c2).
      change (kv_size (with_n c2 (attention_size p c2))) with (kv_size c2).
      cbn [kv_n with_n]. apply attention_size_spec; [done|lia].
    + exists keys. split; [by rewrite (al_rows _ _ _ _ Hal), (al_keys _ _ _ _ Hal)|].
      intros rows2 keys2 Hcp. cbn in Hcp. apply (aligned_ext row_at c2); [done..|].
      eapply (store_aligned row_at c1 c2); [done|congruence|congruence|done|done].
  - by destruct Hr as [-> Hr].
Qed.
End slot.

(** * Outputs during decoding *)

Lemma valid_tokens_spec n_vocab n : forall i token,
  0 <= i -> i + Z.of_nat n <= zlen token ->
  safe (valid_tokens n_vocab n i token) (fun r => r = false -> exists j t, zlookup token j = Some t /\ (t < 0 \/ n_vocab <= t)).
Proof.
  induction n as [|n IH]; intros i token Hi Hl; [by cbn|]. cbn [valid_tokens].
  destruct (zlookup_lt token i) as [t Ht]; [lia|]. rewrite (vget_Some _ _ _ Ht). cbn [mbind res_bind].
  destruct (Z.ltb_spec t 0), (Z.leb_spec n_vocab t); cbn [orb post]; try (by exists i, t; auto).
  apply IH; lia.
Qed.

Lemma output_rows_range flags n : 0 <= n -> 0 <= zlen (output_rows flags n) <= n.
Proof.
  intros Hn. split; [apply zlen_nonneg|]. unfold output_rows, zlen.
  pose proof (length_filter (fun t => default 0 (zlookup flags t) <> 0) (zseq 0 (Z.to_nat n))) as H.
  rewrite length_zseq in H. lia.
Qed.

Lemma count_flags_spec flags n :
  0 <= n <= zlen flags -> n <= INT32_MAX -> count_flags flags n = Ok (zlen (output_rows flags n)).
Proof.
  intros Hn Hmax. apply safe_ok_eq. unfold count_flags, INT32_MAX in *.
  apply (for_z_post 0 n _ (fun k c => c = zlen (output_rows flags k))); [lia|done|].
  intros k c Hk ->. destruct (zlookup_lt flags k) as [o Ho]; [lia|]. rewrite (vget_Some _ _ _ Ho). cbn [mbind res_bind].
  rewrite (output_rows_step flags k o) by (lia || done). rewrite zlen_app. pose proof (output_rows_range flags k ltac:(lia)).
  destruct (o =? 0); cbn [post]; [change (zlen []) with 0; lia|]. change (zlen [k]) with 1. rewrite u32_small; lia.
Qed.

(** The outputs of a batch, in its order. *)
Definition batch_outputs (b : llama_batch) (la : bool) (n : Z) : list Z :=
  filter (fun id => is_output b la id = true) (zseq 0 (Z.to_nat n)).

Lemma batch_outputs_all b n : batch_outputs b true n = zseq 0 (Z.to_nat n).
Proof. unfold batch_outputs. induction (zseq 0 _) as [|x l IH]; [done|]. rewrite filter_cons. case_decide; [by f_equal|done]. Qed.

(** The number of outputs as [llama_prepare_sbatch] counts it agrees with the
    outputs that the split will collect. *)
Lemma batch_outputs_len b logits :
  b_logits b = Some logits ->
  let n := b_n_tokens b in
  let k := zlen (output_rows logits n) in
  0 <= n -> zlen (batch_outputs b (k =? n) n) = k.
Proof.
  intros Hl n k Hn. destruct (Z.eqb_spec k n) as [E|E].
  - rewrite batch_outputs_all, zlen_zseq; lia.
  - unfold k, output_rows, batch_outputs, zlen. f_equal. f_equal. apply list_filter_iff. intros id.
    unfold is_output. rewrite Hl. cbn [orb]. destruct (Z.eqb_spec (default 0 (zlookup logits id)) 0); cbn; (split; [done|lia]) || split; try done; lia.
Qed.

Section rows_out.
Context {F : Type}.
Implicit Types (l t x : list F).

Lemma zlookup_write l off x i :
  0 <= off -> off + zlen x <= zlen l -> 0 <= i ->
  zlookup (take (Z.to_nat off) l ++ x ++ drop (Z.to_nat (off + zlen x)) l) i =
  if (off <=? i) && (i <? off + zlen x) then zlookup x (i - off) else zlookup l i.
Proof.
  intros Hoff Hl Hi. unfold zlookup, zlen in *. destruct (Z.leb_spec 0 i); [|lia].
  destruct (Z.leb_spec off i); cbn [andb].
  - rewrite lookup_app_r by (rewrite length_take; lia). rewrite length_take_le by lia.
    destruct (Z.ltb_spec i (off + Z.of_nat (length x))); cbn [andb].
    + destruct (Z.leb_spec 0 (i - off)); [|lia]. rewrite lookup_app_l by lia. f_equal. lia.
    + rewrite lookup_app_r by lia. rewrite lookup_drop. f_equal. lia.
  - rewrite lookup_app_l by (rewrite length_take; lia). by rewrite lookup_take_lt by lia.
Qed.

Lemma extract_rows_spec size n prev n_new n_outputs t l :
  0 <= n -> 0 <= prev -> 0 <= n_new -> prev + n_new <= n_outputs -> n_outputs < 4294967296 ->
  n_outputs * n <= size -> size = zlen l -> n_new * n = zlen t ->
  safe (extract_rows size n prev n_new n_outputs t l) (fun l' => zlen l' = zlen l /\
    (forall j, 0 <= j < prev -> row n l' j = row n l j) /\
    (forall j, 0 <= j < n_new -> row n l' (prev + j) = row n t j)).
Proof.
  intros Hn Hp Hnew Hle Hmax Hsz Hl Ht. unfold extract_rows. rewrite u32_small by lia.
  destruct (Z.leb_spec (prev + n_new) n_outputs); [|lia]. cbn [ggml_assert mbind res_bind].
  destruct (Z.leb_spec ((prev + n_new) * n) size); [|nia]. cbn [ggml_assert mbind res_bind].
  unfold tensor_get. destruct (Z.leb_spec 0 0); [|lia]. destruct (Z.leb_spec (0 + n_new * n) (zlen t)); [|lia].
  cbn [andb ggml_assert mbind res_bind]. change (drop (Z.to_nat 0) t) with t.
  assert (take (Z.to_nat (n_new * n)) t = t) as -> by (apply take_ge; unfold zlen in Ht; lia).
  unfold write_at. destruct (Z.leb_spec 0 (prev * n)); [|nia]. destruct (Z.leb_spec (prev * n + zlen t) (zlen l)); [|nia].
  cbn [andb post]. splits.
  - rewrite !zlen_app. unfold zlen in *. rewrite length_take, length_drop. nia.
  - intros j Hj. apply row_ext; [lia..|]. intros y Hy. rewrite zlookup_write by nia.
    destruct (Z.leb_spec (prev * n) (j * n + y)); [nia|done].
  - intros j Hj. apply row_ext; [lia..|]. intros y Hy. rewrite zlookup_write by nia.
    destruct (Z.leb_spec (prev * n) ((prev + j) * n + y)); [|nia].
    destruct (Z.ltb_spec ((prev + j) * n + y) (prev * n + zlen t)); [|nia]. cbn [andb]. f_equal. lia.
Qed.
End rows_out.

(** The mapping of the outputs to their rows. *)
Lemma map_output_ids_spec out_ids n ids :
  zlen out_ids = n -> n <= INT32_MAX -> NoDup out_ids -> Forall (fun id => 0 <= id < zlen ids) out_ids ->
  safe (map_output_ids out_ids n ids) (fun r => zlen r.1 = zlen ids /\
    (forall i id, zlookup out_ids i = Some id -> zlookup r.1 id = Some i) /\
    (forall id, id ∉ out_ids -> zlookup r.1 id = zlookup ids id)).
Proof.
  intros Hn Hmax Hnd Hr. unfold map_output_ids. rewrite Hn, Z.eqb_refl. cbn [ggml_assert mbind res_bind].
  pose proof (zlen_nonneg out_ids).
  eapply (post_mono _ (fun r => zlen r.1 = zlen ids /\
    (forall i id, i < n -> zlookup out_ids i = Some id -> zlookup r.1 id = Some i) /\
    (forall id, id ∉ out_ids -> zlookup r.1 id = zlookup ids id)) _ (fun _ => False)); [| |done].
  2:{ intros r (H1 & H2 & H3). splits; [done| |done]. intros i id Hi. apply H2; [apply zlookup_Some_lt in Hi; lia|done]. }
  apply (for_z_post 0 n _ (fun k r => zlen r.1 = zlen ids /\
    (forall i id, i < k -> zlookup out_ids i = Some id -> zlookup r.1 id = Some i) /\
    (forall id, id ∉ out_ids -> zlookup r.1 id = zlookup ids id))); [lia| |].
  - splits; [done| |done]. intros i id Hi E. apply zlookup_Some_lt in E. lia.
  - intros k [r sorted] Hk (H1 & H2 & H3). cbn [fst snd] in *.
    destruct (zlookup_lt out_ids k) as [id Hid]; [lia|]. rewrite (vget_Some _ _ _ Hid). cbn [mbind res_bind].
    assert (Hin : id ∈ out_ids) by (apply elem_of_zlookup; exists k; split; [lia|done]).
    rewrite Forall_forall in Hr. pose proof (Hr _ Hin). rewrite vset_at by lia. cbn [mbind res_bind post fst snd].
    rewrite i32_small by (unfold INT32_MIN, INT32_MAX in *; lia).
    splits; [by rewrite zlen_insert| |].
    + intros i id' Hi E. rewrite zlookup_insert by (try (apply Hr, elem_of_zlookup; exists i; split; [by eapply zlookup_Some_lt|done]); lia).
      case_decide as Ed.
      * subst id'. f_equal. unfold zlookup in Hid, E. destruct (0 <=? k); [|done]. destruct (Z.leb_spec 0 i); [|done].
        pose proof (NoDup_lookup _ _ _ _ Hnd Hid E). lia.
      * apply H2; [|done]. destruct (decide (i = k)) as [->|]; [congruence|lia].
    + intros id' Hn'. destruct (Z.lt_ge_cases id' 0) as [Hneg|Hpos].
      * unfold zlookup. destruct (Z.leb_spec 0 id'); [lia|done].
      * rewrite zlookup_insert by lia. rewrite decide_False by (intros ->; done). by apply H3.
Qed.

(** * The tokens of a ubatch *)

Section simple_ubatch.
Context (b : llama_batch) (la : bool) (ub : llama_ubatch) (k n : Z).

(** [ub] holds the [n] tokens from [k] on, one sequence set for each. *)
Record simple_ub : Prop := {
  su_count : ub_n_tokens ub = n;
  su_one   : ub_n_seq_tokens ub = 1;
  su_seqs  : Forall2 (fun n l => 0 < n <= zlen l) (ub_n_seq_id ub) (ub_seq_id ub);
  su_rows  : forall t, 0 <= t < n -> is_Some (ubatch_row ub t) /\ ubatch_row ub t = batch_row b la (k + t);
  su_rect  : ub_n_seqs ub = n
}.

Context (Hb : batch_ok b) (Hk : 0 <= k) (Hn : 0 <= n) (Hend : k + n <= b_n_tokens b) (Hub : simple_ub).
Context (Hpos : forall id, 0 <= id < b_n_tokens b -> 0 <= token_pos b id < INT32_MAX).

(** What the row of a token gives. *)
Lemma su_row t :
  0 <= t < n ->
  zlookup (ub_pos ub) t = Some (token_pos b (k + t)) /\
  seqs_at (ub_n_seq_id ub) (ub_seq_id ub) t = Some (token_key b (k + t)) /\
  exists o, zlookup (ub_output ub) t = Some o /\ is_output b la (k + t) = negb (o =? 0).
Proof using Hub.
  intros Ht. destruct (su_rows Hub t Ht) as [[r Hr] He]. rewrite Hr in He. symmetry in He.
  unfold ubatch_row in Hr. rewrite (su_one Hub), Z.div_1_r in Hr. unfold batch_row in He.
  destruct (column (ub_token ub) t); [|done]. destruct (column (ub_embd ub) t); [|done].
  destruct (zlookup (ub_pos ub) t) as [q|]; [|done].
  cbn [mbind option_bind] in Hr. destruct (seqs_at _ _ t) as [ids|]; [|done].
  cbn [mbind option_bind] in Hr. destruct (zlookup (ub_output ub) t) as [x|] eqn:Ex; [|done].
  cbn [mbind option_bind] in Hr. injection Hr as <-.
  destruct (column (b_token b) (k + t)); [|done]. destruct (column (b_embd b) (k + t)); [|done].
  destruct (b_pos b) as [pos|] eqn:Ep; [|done]. cbn [mbind option_bind] in He.
  destruct (zlookup pos (k + t)) as [q'|] eqn:Eq; [|done]. cbn [mbind option_bind] in He. injection He as _ _ -> <- Ho.
  unfold token_pos. rewrite Ep. cbn. rewrite Eq. splits; [done|done|]. by exists x.
Qed.

Lemma su_valid : ub_valid ub.
Proof using Hb Hk Hn Hend Hub Hpos.
  pose proof (bo_size _ Hb). split.
  - rewrite (su_count Hub), (su_one Hub), (su_rect Hub). lia.
  - rewrite (su_one Hub), (su_rect Hub). lia.
  - rewrite (su_count Hub). lia.
  - rewrite (su_count Hub). intros t Ht. destruct (su_row t Ht) as (Hp & _). eexists. split; [exact Hp|].
    pose proof (Hpos (k + t) ltac:(lia)). lia.
  - rewrite (su_rect Hub). intros t Ht. destruct (su_row t Ht) as (_ & Hs & _). unfold seqs_at in Hs.
    destruct (zlookup (ub_n_seq_id ub) t) as [c|] eqn:Ec; [|done]. cbn [mbind option_bind] in Hs.
    destruct (zlookup (ub_seq_id ub) t) as [l|] eqn:El; [|done]. exists c, l. splits; [done|done| |];
      pose proof (su_seqs Hub) as HF; unfold zlookup in Ec, El; destruct (0 <=? t); try done;
      destruct (Forall2_lookup_lr _ _ _ _ _ _ HF Ec El); lia.
Qed.

Lemma su_pos t : 0 <= t < n -> token_pos_of ub t = token_pos b (k + t).
Proof using Hub. intros Ht. destruct (su_row t Ht) as (Hp & _). unfold token_pos_of. by rewrite Hp. Qed.

Lemma su_first t : 0 <= t < n -> head (token_key b (k + t)) = Some (first_seq ub t).
Proof using Hub.
  intros Ht. destruct (su_row t Ht) as (_ & Hs & _). unfold seqs_at in Hs. unfold first_seq. rewrite (su_one Hub), Z.div_1_r.
  destruct (zlookup (ub_n_seq_id ub) t) as [c|] eqn:Ec; [|done]. cbn [mbind option_bind] in Hs.
  destruct (zlookup (ub_seq_id ub) t) as [l|] eqn:El; [|done]. injection Hs as <-. cbn [mbind option_bind].
  pose proof (su_seqs Hub) as HF. unfold zlookup in Ec, El. destruct (0 <=? t); [|done].
  pose proof (Forall2_lookup_lr _ _ _ _ _ _ HF Ec El) as Hc. cbn in Hc. destruct l as [|x l]; [unfold zlen in Hc; cbn in Hc; lia|].
  destruct (Z.to_nat c) eqn:E; [lia|]. done.
Qed.

Lemma su_token_in t s q : 0 <= t < n -> token_in ub t s q <-> s ∈ token_key b (k + t) /\ q = token_pos b (k + t).
Proof using Hub.
  intros Ht. destruct (su_row t Ht) as (Hp & Hs & _). unfold token_in, token_slot. rewrite Hp, (su_one Hub), Z.div_1_r, Hs.
  cbn [mbind option_bind]. split.
  - intros (T & E & Hin). injection E as <- <-. by rewrite elem_of_list_to_set in Hin.
  - intros [Hin ->]. eexists. split; [done|]. by rewrite elem_of_list_to_set.
Qed.

(** The rows of the outputs are those of the tokens that are outputs. *)
Lemma su_output_rows_gen (j : nat) :
  Z.of_nat j <= n ->
  filter (fun id => is_output b la id = true) (zseq k j) = (fun t => k + t) <$> output_rows (ub_output ub) (Z.of_nat j).
Proof using Hub.
  induction j as [|j IH]; intros Hj; [done|].
  destruct (su_row (Z.of_nat j) ltac:(lia)) as (_ & _ & o & Ho & Hout).
  replace (Z.of_nat (S j)) with (Z.of_nat j + 1) by lia.
  rewrite (output_rows_step (ub_output ub) (Z.of_nat j) o ltac:(lia) Ho), fmap_app.
  rewrite zseq_S, filter_app, IH by lia. f_equal. rewrite filter_cons, filter_nil, Hout.
  destruct (o =? 0); cbn; case_decide; done.
Qed.

Lemma su_output_rows :
  filter (fun id => is_output b la id = true) (zseq k (Z.to_nat n)) = (fun t => k + t) <$> output_rows (ub_output ub) n.
Proof using Hn Hend Hub. rewrite su_output_rows_gen by lia. by rewrite Z2Nat.id. Qed.

Lemma su_outputs_len : n <= zlen (ub_output ub).
Proof using Hn Hend Hub.
  destruct (decide (n = 0)) as [->|]; [apply zlen_nonneg|]. destruct (su_row (n - 1) ltac:(lia)) as (_ & _ & o & Ho & _).
  apply zlookup_Some_lt in Ho. lia.
Qed.

(** The number of outputs of the ubatch as [llama_prepare_ubatch] counts it. *)
Lemma su_count_outputs :
  (if la then Ok n else count_flags (ub_output ub) n) = Ok (zlen (output_rows (ub_output ub) n)).
Proof using Hb Hk Hn Hend Hub.
  pose proof (bo_size _ Hb). destruct la eqn:E.
  - do 2 f_equal. pose proof su_output_rows as Hr. rewrite E in Hr.
    assert (Hall : filter (fun id => is_output b true id = true) (zseq k (Z.to_nat n)) = zseq k (Z.to_nat n)).
    { clear. induction (zseq k _) as [|x l IH]; [done|]. rewrite filter_cons. case_decide; [by f_equal|done]. }
    rewrite Hall in Hr. apply (f_equal zlen) in Hr. rewrite zlen_zseq in Hr by done. unfold zlen in *. by rewrite length_fmap in Hr.
  - apply count_flags_spec; [pose proof su_outputs_len; lia|lia].
Qed.
End simple_ubatch.

(** ** The inputs of the graph *)

(** What the graph of a decoder-only model has as inputs. *)
Record decoder_tensors (cache : kv_cache) (ub : llama_ubatch) (n_outputs : Z) (t : graph_inputs) : Prop := {
  dt_out_ids : exists d, in_out_ids t = Some d /\ zlen d = n_outputs;
  dt_mask    : exists d, (in_masks t).1 = Some d /\ zlen d = kv_n cache * GGML_PAD (ub_n_tokens ub) GGML_KQ_MASK_PAD;
  dt_swa     : forall d, (in_masks t).2 = Some d -> zlen d = kv_n cache * GGML_PAD (ub_n_tokens ub) GGML_KQ_MASK_PAD;
  dt_cross   : in_mask_cross t = None
}.

(** The inputs of a computation for the tokens of [ub]. *)
Record inputs_ok (p : context_params) (cache : kv_cache) (ub : llama_ubatch) (t : graph_inputs) : Prop := {
  ik_out_ids : in_out_ids t = Some (output_rows (ub_output ub) (ub_n_tokens ub));
  ik_mask    : exists d, (in_masks t).1 = Some d /\ shows_history (in_params p) cache ub false d;
  ik_swa     : forall d, (in_masks t).2 = Some d -> shows_history (in_params p) cache ub true d
}.

Lemma set_inputs_spec p enc size n_embd cache ub t :
  cp_causal_model p = true -> cp_causal_attn p = true -> cp_embeddings p = false ->
  kv_wf cache -> ub_valid ub -> (forall t, 0 <= t < ub_n_tokens ub -> token_pos_of ub t < INT32_MAX) ->
  llama_kv_cache_cell_max cache <= kv_n cache <= kv_size cache -> 0 < kv_n cache -> ub_n_tokens ub <= zlen (ub_output ub) ->
  let n_outputs := zlen (output_rows (ub_output ub) (ub_n_tokens ub)) in
  decoder_tensors cache ub n_outputs t ->
  safe (llama_set_inputs (in_params p) (cp_embeddings p) (cp_pooling p) false enc size n_embd n_outputs cache ub t)
    (fun r => r.2 = cache /\ inputs_ok p cache ub r.1).
Proof.
  intros Hm Ha He Hwf Hub Hpos Hn Hn0 Hout n_outputs [(d & Hd & Hdl) (m & Hmk & Hml) Hsl Hc].
  unfold llama_set_inputs. cbn [ip_causal_model ip_causal_attn in_params]. rewrite Hm, Ha, He, Hd, Hc, (kw_attention _ Hwf).
  cbn [orb negb andb if_tensor ggml_assert mbind res_bind].
  assert (Hnn : 0 <= ub_n_tokens ub) by (rewrite (uv_rect _ Hub); pose proof (uv_sign _ Hub); nia).
  eapply post_bind with (P := fun o => o = Some (output_rows (ub_output ub) (ub_n_tokens ub))).
  { eapply post_bind; [apply (set_out_ids_spec (ub_output ub) (ub_n_tokens ub) d); [lia|exact Hdl]|]. by intros d' ->. }
  intros o ->.
  eapply post_bind; [apply (set_mask_shows (in_params p) cache ub (in_masks t)); try done|].
  { intros d' E. rewrite Hmk in E. injection E as <-. done. }
  intros m' (S1 & S2 & S3 & S4). cbn [mbind res_bind post fst snd]. split; [done|]. split; cbn; [done| |done].
  rewrite Hmk in S1. destruct (proj2 S1 (ex_intro _ m eq_refl)) as [d' Hd']. exists d'. split; [done|]. by apply S3.
Qed.

(** * Correctness of decoding *)

(** A row behind those of the earlier outputs belongs to a token of the ubatch. *)
Lemma appended_row (ids rows : list Z) d i id :
  zlookup (ids ++ ((fun t => d + t) <$> rows)) i = Some id ->
  (0 <= i < zlen ids /\ zlookup ids i = Some id) \/
  exists t, 0 <= i - zlen ids < zlen rows /\ zlookup rows (i - zlen ids) = Some t /\ id = d + t.
Proof.
  intros Hi. pose proof (zlookup_Some_lt _ _ _ Hi) as Hr. rewrite zlen_app in Hr. unfold zlen in Hr at 2. rewrite length_fmap in Hr.
  unfold zlookup in Hi. destruct (Z.leb_spec 0 i); [|done]. destruct (Z.lt_ge_cases i (zlen ids)) as [Hlt|Hge].
  - left. split; [lia|]. rewrite lookup_app_l in Hi by (unfold zlen in Hlt; lia). unfold zlookup. by destruct (Z.leb_spec 0 i); [|lia].
  - right. rewrite lookup_app_r in Hi by (unfold zlen in Hge; lia). rewrite list_lookup_fmap in Hi.
    destruct (rows !! (Z.to_nat i - length ids)%nat) as [t|] eqn:Et; [|done]. injection Hi as <-. exists t.
    splits; [unfold zlen in *; lia|unfold zlen in *; lia| |done]. unfold zlookup. destruct (Z.leb_spec 0 (i - zlen ids)); [|lia].
    rewrite <- Et. f_equal. unfold zlen. lia.
Qed.

(** What decoding relies on: rotating a key gives the key at the new position
    (without rotary embedding a key does not depend on its position), the graph
    is that of a decoder, a computation gives a row of logits for every output,
    and it stores a key at its position for every token of the ubatch. *)
Class BackendLaws {A F K : Type} `{Backend A F} (p : context_params) (row_at : Z -> K -> A) : Prop := {
  bl_shift   : if cp_rope p then forall q d k, shift_row d (row_at q k) = row_at (q + d) k
               else forall q r k, row_at q k = row_at r k;
  bl_tensors : forall cache ub n, 0 < kv_n cache -> 0 <= n -> 0 <= ub_n_tokens ub ->
                 decoder_tensors cache ub n (graph_tensors cache ub n);
  bl_logits  : forall cache ub t rows d, gr_status (graph_compute cache ub t rows) = STATUS_SUCCESS ->
                 in_out_ids t = Some d -> zlen (gr_logits (graph_compute cache ub t rows)) = zlen d * cp_n_vocab p;
  bl_rows    : forall cache ub t rows keys, gr_status (graph_compute cache ub t rows) = STATUS_SUCCESS ->
                 zlen rows = zlen keys ->
                 exists keys', computed row_at ub (kv_head cache) rows (gr_rows (graph_compute cache ub t rows)) keys keys'
}.

Section correct.
Context {A F K : Type} `{Backend A F} `{CppSort} (p : context_params) (row_at : Z -> K -> A).
Context {laws : BackendLaws p row_at}.
Context (Hmodel : cp_causal_model p = true) (Hattn : cp_causal_attn p = true) (Hemb : cp_embeddings p = false).
Context (Hthreads : 0 < cp_n_threads p /\ 0 < cp_n_threads_batch p) (Hubatch : 0 < cp_n_ubatch p) (Hvocab : 0 <= cp_n_vocab p).
Context (b : llama_batch) (Hb : batch_ok b) (Hn : 0 < b_n_tokens b).
Context (Hpos : forall id, 0 <= id < b_n_tokens b -> 0 <= token_pos b id < INT32_MAX).
Implicit Types (cx : llama_context A F).

(** ** One computation *)

(** The cache when the first [k] tokens of the batch have been added to those
    of [cache0]. *)
Definition history (cache0 cache : kv_cache) (k : Z) : Prop :=
  forall s q, holds (slots cache) s q <->
    holds (slots cache0) s q \/ exists id, 0 <= id < k /\ s ∈ token_key b id /\ q = token_pos b id.

(** The computation of a ubatch, whose first token is [cm_first]. *)
Record computation : Type := mk_comp {
  cm_cache  : kv_cache;
  cm_ub     : llama_ubatch;
  cm_inputs : graph_inputs;
  cm_rows   : list A;
  cm_first  : Z
}.

Definition cm_result (c : computation) : graph_result A F :=
  graph_compute (cm_cache c) (cm_ub c) (cm_inputs c) (cm_rows c).

Record computation_ok (cache0 : kv_cache) (la : bool) (c : computation) : Prop := {
  cm_success : gr_status (cm_result c) = STATUS_SUCCESS;
  cm_wf      : kv_wf (cm_cache c);
  cm_range   : 0 <= cm_first c /\ cm_first c + ub_n_tokens (cm_ub c) <= b_n_tokens b;
  cm_tokens  : simple_ub b la (cm_ub c) (cm_first c) (ub_n_tokens (cm_ub c));
  cm_history : history cache0 (cm_cache c) (cm_first c + ub_n_tokens (cm_ub c));
  cm_input   : inputs_ok p (cm_cache c) (cm_ub c) (cm_inputs c);
  cm_keys    : exists keys, aligned row_at (cm_cache c) (gr_rows (cm_result c)) keys
}.

(** The logits [r] are the row that a computation gave for the token [id]. *)
Definition evaluated (cache0 : kv_cache) (la : bool) (id : Z) (r : list F) : Prop :=
  exists c t i, computation_ok cache0 la c /\ 0 <= t < ub_n_tokens (cm_ub c) /\ id = cm_first c + t /\
    zlookup (output_rows (ub_output (cm_ub c)) (ub_n_tokens (cm_ub c))) i = Some t /\
    r = row (cp_n_vocab p) (gr_logits (cm_result c)) i.

(** ** Preparing a ubatch *)

Context (cache0 : kv_cache) (size n_out : Z) (la : bool) (Hsize : 0 < size).
Context (Hla : la = (n_out =? b_n_tokens b)) (Hout : n_out = zlen (batch_outputs b la (b_n_tokens b))).
Context (Hfit : n_out * cp_n_vocab p < 4294967296).

(** How many tokens are computed. *)
Definition done_tokens cx : Z := b_n_tokens b - sb_n_tokens (cx_sbatch cx).

Record outputs_inv cx : Prop := {
  oi_size : zlen (o_ids (cx_out cx)) = cp_n_batch p;
  oi_rows : 0 < n_out -> o_ids (cx_out cx) = replicate (Z.to_nat (cp_n_batch p)) (-1) /\
    exists l, o_logits (cx_out cx) = Some l /\ zlen l = o_logits_size (cx_out cx) /\
      n_out * cp_n_vocab p <= o_logits_size (cx_out cx) /\
      forall i id, zlookup (sb_out_ids (cx_sbatch cx)) i = Some id -> evaluated cache0 la id (row (cp_n_vocab p) l i)
}.

Record sbatch_inv (sb : llama_sbatch) : Prop := {
  bi_simple : simple_inv b sb;
  bi_all    : sb_logits_all sb = la;
  bi_out    : sb_out_ids sb = batch_outputs b la (b_n_tokens b - sb_n_tokens sb)
}.

Record loop_inv (restorer : slot_restorer) (prev : Z) cx : Prop := {
  li_sbatch  : sbatch_inv (cx_sbatch cx);
  li_cache   : cache_ok row_at size (cx_kv cx) (cx_rows cx);
  li_history : history cache0 (cx_kv cx) (done_tokens cx);
  li_prev    : prev = zlen (sb_out_ids (cx_sbatch cx));
  li_outputs : outputs_inv cx;
  li_decode  : cx_encoding cx = false;
  li_restore : 0 <= old_head restorer <= size
}.

Record prepared (restorer : slot_restorer) cx cx' (ub : llama_ubatch) : Prop := {
  pr_len     : 0 < ub_n_tokens ub <= sb_n_tokens (cx_sbatch cx);
  pr_tokens  : simple_ub b la ub (done_tokens cx) (ub_n_tokens ub);
  pr_sbatch  : sbatch_inv (cx_sbatch cx');
  pr_left    : sb_n_tokens (cx_sbatch cx') = sb_n_tokens (cx_sbatch cx) - ub_n_tokens ub;
  pr_slot    : slot_taken row_at size (cx_kv cx) (cx_kv cx') (cx_rows cx') ub;
  pr_out     : cx_out cx' = with_outputs (zlen (output_rows (ub_output ub) (ub_n_tokens ub))) (cx_out cx);
  pr_decode  : cx_encoding cx' = cx_encoding cx;
  pr_restore : 0 <= old_head restorer <= size
}.

Lemma simple_pending sb :
  simple_inv b sb -> pending sb = zseq (b_n_tokens b - sb_n_tokens sb) (Z.to_nat (sb_n_tokens sb)).
Proof using Hb.
  intros [_ Hi Hs Hc]. unfold pending. rewrite Hs. cbn [fmap list_fmap concat]. rewrite app_nil_r.
  unfold seq_slice. cbn [sq_offset sq_length]. unfold slice. rewrite Hi.
  replace (b_n_tokens b) with (b_n_tokens b - sb_n_tokens sb + sb_n_tokens sb) at 2 by lia.
  rewrite zseq_app by lia. rewrite drop_app_length' by (rewrite length_zseq; lia).
  rewrite take_ge by (rewrite length_zseq; lia). done.
Qed.

(** The simple split takes the next tokens of the batch. *)
Lemma split_takes sb :
  sbatch_inv sb -> 0 < sb_n_tokens sb ->
  safe (split_simple sb (cp_n_ubatch p)) (fun r =>
    0 < ub_n_tokens r.2 <= sb_n_tokens sb /\ ub_n_tokens r.2 <= cp_n_ubatch p /\
    sb_n_tokens r.1 = sb_n_tokens sb - ub_n_tokens r.2 /\ sbatch_inv r.1 /\
    simple_ub b la r.2 (b_n_tokens b - sb_n_tokens sb) (ub_n_tokens r.2)).
Proof using Hb Hubatch.
  intros [Hs Ha Ho] Hpos'. eapply post_mono; [by apply (split_simple_spec b)| |done].
  intros [sb' ub] (q & Hs' & Htk & Hq & Hub & Hpend & H1 & Hseqs). cbn [fst snd] in *.
  pose proof (mi_count _ _ Hs') as Hc'. pose proof (mi_count _ _ Hs) as Hc.
  pose proof (tk_count _ _ _ _ Htk) as Hleft. pose proof (uo_count _ _ _ _ Hub) as Hcnt.
  assert (Eq : q = zseq (b_n_tokens b - sb_n_tokens sb) (Z.to_nat (zlen q))).
  { rewrite !simple_pending in Hpend by done.
    replace (sb_n_tokens sb) with (zlen q + sb_n_tokens sb') in Hpend at 2 by lia.
    rewrite zseq_app in Hpend by lia. apply app_inj_1 in Hpend as [E _]; [by rewrite E|].
    rewrite length_zseq. unfold zlen. lia. }
  splits; [lia|lia|lia|lia| |].
  - split; [done|by rewrite (tk_logits _ _ _ _ Htk)|].
    rewrite (tk_out_ids _ _ _ _ Htk), Ho, Ha, Hleft. unfold batch_outputs.
    replace (b_n_tokens b - (sb_n_tokens sb - zlen q)) with (b_n_tokens b - sb_n_tokens sb + zlen q) by lia.
    rewrite zseq_app by lia. rewrite filter_app, Z.add_0_l, <- Eq. done.
  - split; [done|done|done| |].
    + intros t Ht. rewrite Ha in Hub. apply (uo_rows _ _ _ _ Hub). rewrite Eq. unfold zlookup, zseq.
      destruct (Z.leb_spec 0 t); [|lia]. rewrite list_lookup_fmap, lookup_seq_lt by lia. cbn. f_equal. lia.
    + pose proof (uo_rect _ _ _ _ Hub). nia.
Qed.

Lemma history_ext c1 c2 k : (forall s q, holds (slots c2) s q <-> holds (slots c1) s q) ->
  history cache0 c1 k -> history cache0 c2 k.
Proof using. intros E Hh s q. by rewrite E. Qed.

Lemma prepare_ubatch_spec restorer prev cx :
  loop_inv restorer prev cx -> 0 < sb_n_tokens (cx_sbatch cx) ->
  safe (llama_prepare_ubatch p n_out (b_n_tokens b) restorer cx) (fun r =>
    let '(ret, (restorer', (ub, cx'))) := r in
    kv_wf (cx_kv cx') /\ kv_size (cx_kv cx') = size /\
    if ret =? 0 then prepared restorer' cx cx' ub
    else ret = 1 /\ 0 < ub_n_tokens ub <= cp_n_ubatch p /\ forall h, ~ free_window (slots (cx_kv cx')) h (ub_n_tokens ub)).
Proof using laws Hb Hubatch Hpos Hla Hmodel Hsize.
  intros [Hsb Hc Hh Hp Ho Hdec Hr] Hleft. unfold llama_prepare_ubatch.
  destruct (Z.ltb_spec 0 (sb_n_tokens (cx_sbatch cx))); [|lia]. cbn [ggml_assert mbind res_bind].
  unfold split_mode_of. rewrite (kw_attention _ (co_wf _ _ _ _ Hc)). cbn [split_by].
  eapply post_bind; [by apply split_takes|]. intros [sb' ub] (Hu1 & Hu2 & Hl & Hsb' & Hsu). cbn [fst snd] in *.
  pose proof (mi_count _ _ (bi_simple _ Hsb)) as Hcnt. fold (done_tokens cx) in Hsu.
  assert (Hcount : (if n_out =? b_n_tokens b then Ok (ub_n_tokens ub) else count_flags (ub_output ub) (ub_n_tokens ub)) =
            Ok (zlen (output_rows (ub_output ub) (ub_n_tokens ub)))).
  { rewrite <- Hla. apply (su_count_outputs b la ub (done_tokens cx)); unfold done_tokens; try lia; done. }
  rewrite Hcount. cbn [mbind res_bind]. clear Hcount. rewrite Hmodel. cbn [negb].
  assert (Hval : ub_valid ub) by (apply (su_valid b la ub (done_tokens cx) (ub_n_tokens ub)); unfold done_tokens; try lia; done).
  eapply post_bind; [apply (update_keeps p row_at bl_shift size (cx_kv cx) (cx_rows cx) Hc)|].
  intros [[c1 rows1] need] (Hc1 & Hs1 & Hh1). cbn [fst snd] in *.
  eapply post_bind; [apply (find_slot_takes p row_at size c1 rows1 ub); done|].
  intros [slot c2] (Hwf2 & Hsz2 & Hfound). cbn [fst snd] in *.
  destruct (slot_found slot) eqn:Ef; cbn [negb].
  - rewrite (kw_attention _ Hwf2). cbn [post set_cache cx_kv Z.eqb]. splits; [by apply with_n_wf|done|].
    destruct Hfound as [K1 K2 K3 K4 K5 K6]. split; try done; cbn.
    + split; try done. intros s q. by rewrite K4, Hh1.
    + unfold restorer_save. by rewrite Ef.
  - cbn [post set_cache cx_kv Z.eqb]. splits; [done|done|done|lia|done|done].
Qed.

(** ** One iteration *)

Definition failed (ret : Z) cx : Prop :=
  kv_wf (cx_kv cx) /\ kv_size (cx_kv cx) = size /\
  (ret = 2 \/ ret = -2 \/ ret = -3 \/
   ret = 1 /\ exists n, 0 < n <= cp_n_ubatch p /\ forall h, ~ free_window (slots (cx_kv cx)) h n).

Lemma n_out_le : n_out <= b_n_tokens b.
Proof using Hout Hn.
  rewrite Hout. unfold batch_outputs, zlen.
  pose proof (length_filter (fun id => is_output b la id = true) (zseq 0 (Z.to_nat (b_n_tokens b)))) as Hf.
  rewrite length_zseq in Hf. lia.
Qed.

(** The outputs of a ubatch follow those of the ubatches before it. *)
Lemma prepared_out_ids restorer prev cx restorer' cx' ub :
  loop_inv restorer prev cx -> prepared restorer' cx cx' ub ->
  sb_out_ids (cx_sbatch cx') =
    sb_out_ids (cx_sbatch cx) ++ ((fun t => done_tokens cx + t) <$> output_rows (ub_output ub) (ub_n_tokens ub)) /\
  zlen (sb_out_ids (cx_sbatch cx')) = prev + zlen (output_rows (ub_output ub) (ub_n_tokens ub)) /\
  prev + zlen (output_rows (ub_output ub) (ub_n_tokens ub)) <= n_out.
Proof using Hb Hout.
  intros [Hsb _ _ Hp _ _ _] [Hlen Htok Hsb' Hleft _ _ _ _].
  pose proof (mi_count _ _ (bi_simple _ Hsb)) as Hcnt. pose proof (mi_count _ _ (bi_simple _ Hsb')) as Hcnt'.
  set (rows := output_rows (ub_output ub) (ub_n_tokens ub)) in *.
  assert (Hids : sb_out_ids (cx_sbatch cx') = sb_out_ids (cx_sbatch cx) ++ ((fun t => done_tokens cx + t) <$> rows)).
  { rewrite (bi_out _ Hsb'), (bi_out _ Hsb), Hleft. unfold batch_outputs.
    replace (b_n_tokens b - (sb_n_tokens (cx_sbatch cx) - ub_n_tokens ub)) with (done_tokens cx + ub_n_tokens ub) by (unfold done_tokens; lia).
    fold (done_tokens cx). rewrite zseq_app by (unfold done_tokens; lia). rewrite filter_app, Z.add_0_l. f_equal.
    apply (su_output_rows b la ub (done_tokens cx) (ub_n_tokens ub)); unfold done_tokens in *; try lia; done. }
  assert (Hsum : zlen (sb_out_ids (cx_sbatch cx')) = prev + zlen rows).
  { rewrite Hids, zlen_app, Hp. unfold zlen at 2. by rewrite length_fmap. }
  splits; [done|done|]. rewrite <- Hsum, (bi_out _ Hsb'), Hout. unfold batch_outputs.
  replace (b_n_tokens b) with (b_n_tokens b - sb_n_tokens (cx_sbatch cx') + sb_n_tokens (cx_sbatch cx')) at 2 by lia.
  rewrite zseq_app by lia. rewrite filter_app, zlen_app.
  match goal with |- context [_ + zlen ?l] => pose proof (zlen_nonneg l) end. lia.
Qed.

(** The tokens of a ubatch join those of the ubatches before it. *)
Lemma prepared_history restorer prev cx restorer' cx' ub :
  loop_inv restorer prev cx -> prepared restorer' cx cx' ub ->
  history cache0 (cx_kv cx') (done_tokens cx + ub_n_tokens ub).
Proof using.
  intros [Hsb _ Hh _ _ _ _] [Hlen Htok _ _ Hslot _ _ _].
  pose proof (mi_count _ _ (bi_simple _ Hsb)) as Hcnt.
  intros s q. rewrite (sk_holds _ _ _ _ _ _ Hslot), (Hh s q). split.
  - intros [[Hl|(id & Hid & E)]|(i & Hi & Hti)]; [by left|right; exists id; split; [lia|done]|].
    apply (su_token_in b la ub (done_tokens cx) (ub_n_tokens ub)) in Hti; [|done|done]. right. exists (done_tokens cx + i).
    split; [unfold done_tokens; lia|done].
  - intros [Hl|(id & Hid & E)]; [by left; left|]. destruct (Z.lt_ge_cases id (done_tokens cx)) as [Hlt|Hge].
    + left. right. exists id. split; [lia|done].
    + right. exists (id - done_tokens cx). split; [lia|]. apply (su_token_in b la ub (done_tokens cx) (ub_n_tokens ub)); [done|lia|].
      by replace (done_tokens cx + (id - done_tokens cx)) with id by lia.
Qed.

(** The rows that a computation adds to the outputs. *)
Lemma extract_spec restorer prev cx cx' restorer' ub inputs cache :
  loop_inv restorer prev cx -> prepared restorer' cx cx' ub ->
  let c := mk_comp (cx_kv cx') ub inputs (cx_rows cx') (done_tokens cx) in
  computation_ok cache0 la c ->
  safe (extract p n_out prev ub (cm_result c) (set_cache cache (gr_rows (cm_result c)) cx')) (fun cx2 =>
    cx_kv cx2 = cache /\ cx_rows cx2 = gr_rows (cm_result c) /\ cx_sbatch cx2 = cx_sbatch cx' /\ cx_encoding cx2 = cx_encoding cx' /\
    outputs_inv cx2).
Proof using laws Hb Hn Hvocab Hemb Hla Hout Hfit.
  intros Hinv Hpr c Hc. destruct (prepared_out_ids _ _ _ _ _ _ Hinv Hpr) as (Hids & _ & Hle). pose proof n_out_le as Hmax.
  destruct Hinv as [_ _ _ Hp [Ho1 Ho2] _ _], Hpr as [_ _ _ _ _ Hpo _ _].
  unfold extract. rewrite Hemb. cbn [negb]. pose proof (bo_size _ Hb) as Hbs. unfold INT32_MAX in Hbs.
  set (rows := output_rows (ub_output ub) (ub_n_tokens ub)) in *.
  pose proof (zlen_nonneg rows) as Hr0. pose proof (zlen_nonneg (sb_out_ids (cx_sbatch cx))) as Hp0.
  change (cx_out (set_cache cache (gr_rows (cm_result c)) cx')) with (cx_out cx'). rewrite Hpo. cbn [o_n_outputs with_outputs].
  destruct (Z.eqb_spec (zlen rows) 0) as [E0|E0].
  - cbn [post]. splits; try done. split; cbn; rewrite Hpo; cbn; [done|]. intros Hpos'. destruct (Ho2 Hpos') as (I1 & l & I2 & I3 & I4 & I5).
    split; [done|]. exists l. splits; try done. intros i id. rewrite Hids.
    destruct rows; [|unfold zlen in E0; cbn in E0; lia]. cbn. rewrite app_nil_r. apply I5.
  - destruct (Ho2 ltac:(lia)) as (I1 & l & I2 & I3 & I4 & I5). cbn [o_logits with_outputs]. rewrite I2. cbn [o_logits_size with_outputs].
    pose proof (cm_success _ _ _ Hc) as Hsucc. pose proof (ik_out_ids _ _ _ _ (cm_input _ _ _ Hc)) as Hoi. cbn in Hoi. fold rows in Hoi.
    pose proof (bl_logits (cx_kv cx') ub inputs (cx_rows cx') _ Hsucc Hoi) as Hlg. fold (cm_result c) in Hlg.
    eapply post_bind; [apply (extract_rows_spec (o_logits_size (cx_out cx)) (cp_n_vocab p) prev (zlen rows) n_out (gr_logits (cm_result c)) l); try lia|].
    + exact (eq_sym Hlg).
    + intros l' (L1 & L2 & L3). cbn [post]. splits; try done. split; cbn; [done|]. intros _. split; [done|].
      exists l'. splits; [done|lia|done|]. intros i id Hi. rewrite Hids in Hi.
      destruct (appended_row _ _ _ _ _ Hi) as [[Hlt Hold]|(t & Hr & Et & ->)]; [rewrite L2 by lia; by apply I5|].
      assert (Htr : 0 <= t < ub_n_tokens ub).
      { assert (Hin : t ∈ rows) by (apply elem_of_zlookup; by exists (i - zlen (sb_out_ids (cx_sbatch cx)))).
        unfold rows, output_rows in Hin. apply list_elem_of_filter in Hin as [_ Hin]. apply elem_of_zseq in Hin. lia. }
      exists c, t, (i - prev). change (cm_ub c) with ub. change (cm_first c) with (done_tokens cx). fold rows.
      splits; try done; try lia; [by rewrite Hp|]. replace i with (prev + (i - prev)) at 1 by lia. apply L3. lia.
Qed.

(** The state for the next ubatch. *)
Lemma next_loop_inv restorer prev cx restorer' cx' ub inputs cx2 :
  loop_inv restorer prev cx -> prepared restorer' cx cx' ub ->
  let c := mk_comp (cx_kv cx') ub inputs (cx_rows cx') (done_tokens cx) in
  computation_ok cache0 la c ->
  cx_kv cx2 = advance_head (ub_n_tokens ub) (cx_kv cx') -> cx_rows cx2 = gr_rows (cm_result c) ->
  cx_sbatch cx2 = cx_sbatch cx' -> cx_encoding cx2 = cx_encoding cx' -> outputs_inv cx2 ->
  loop_inv restorer' (u32 (prev + zlen (output_rows (ub_output ub) (ub_n_tokens ub)))) cx2.
Proof using Hb Hn Hout.
  intros Hinv Hpr c Hc E1 E2 E3 E4 Ho2. destruct (prepared_out_ids _ _ _ _ _ _ Hinv Hpr) as (_ & Hsum & Hle).
  pose proof (prepared_history _ _ _ _ _ _ Hinv Hpr) as Hhist. pose proof n_out_le as Hmax.
  destruct Hpr as [Hlen Htok Hsb' Hleft [K1 K2 K3 _ _ _] _ Hdec Hres], Hinv as [_ _ _ Hp _ Hd _].
  assert (Hdone : done_tokens cx2 = done_tokens cx + ub_n_tokens ub) by (unfold done_tokens; rewrite E3; lia).
  split.
  - by rewrite E3.
  - rewrite E1, E2. destruct (cm_keys _ _ _ Hc) as [keys2 Hal]. split.
    + by apply advance_head_wf.
    + done.
    + cbn. by rewrite K3.
    + exists keys2. by apply (aligned_ext row_at (cx_kv cx')).
  - rewrite E1, Hdone. by apply (history_ext (cx_kv cx')).
  - rewrite E3, Hsum. pose proof (zlen_nonneg (output_rows (ub_output ub) (ub_n_tokens ub))).
    pose proof (zlen_nonneg (sb_out_ids (cx_sbatch cx))). pose proof (bo_size _ Hb). unfold INT32_MAX in *. rewrite u32_small; lia.
  - done.
  - by rewrite E4, Hdec.
  - exact Hres.
Qed.

Lemma decode_ubatch_spec restorer prev cx :
  loop_inv restorer prev cx ->
  safe (decode_ubatch p b n_out (restorer, (prev, cx))) (fun r =>
    match r with
    | Next (restorer', (prev', cx')) => loop_inv restorer' prev' cx' /\
        (Z.to_nat (sb_n_tokens (cx_sbatch cx')) < Z.to_nat (sb_n_tokens (cx_sbatch cx)))%nat
    | Done (ret, cx') => (ret = 0 /\ loop_inv restorer prev cx' /\ done_tokens cx' = b_n_tokens b) \/ failed ret cx'
    end).
Proof using laws Hb Hn Hubatch Hvocab Hemb Hpos Hla Hout Hfit Hmodel Hattn Hthreads Hsize.
  intros Hinv. pose proof Hinv as [Hsb Hc Hh Hp Ho Hdec Hr]. unfold decode_ubatch.
  pose proof (mi_count _ _ (bi_simple _ Hsb)) as Hcnt.
  destruct (Z.ltb_spec 0 (sb_n_tokens (cx_sbatch cx))) as [Hleft|Hleft]; cbn [negb].
  2:{ cbn [post]. left. splits; [done|done|unfold done_tokens; lia]. }
  eapply post_bind; [by apply (prepare_ubatch_spec restorer prev cx)|].
  intros [ret [restorer' [ub cx']]] (Hwf' & Hsz' & Hpr). destruct (Z.eqb_spec ret 0) as [->|Hret]; cbn [negb].
  2:{ cbn [post]. right. destruct Hpr as (-> & Hu & Hw). unfold failed. splits; [done|done|]. do 3 right. split; [done|]. by exists (ub_n_tokens ub). }
  pose proof Hpr as [Hlen Htok Hsb' Hl' Hslot Hpo Hdec' Hres]. pose proof Hslot as [K1 K2 K3 K4 K5 (keys & K6 & K7)].
  destruct (Z.ltb_spec 0 (if ub_n_tokens ub =? 1 then cp_n_threads p else cp_n_threads_batch p)); [|case_match; lia].
  cbn [ggml_assert mbind res_bind]. rewrite Hpo. cbn [o_n_outputs with_outputs].
  pose proof (mi_count _ _ (bi_simple _ Hsb')) as Hcnt'.
  assert (Hval : ub_valid ub) by (apply (su_valid b la ub (done_tokens cx) (ub_n_tokens ub)); unfold done_tokens; try lia; done).
  rewrite Hdec', Hdec.
  eapply post_bind; [apply (set_inputs_spec p); try done|].
  { intros t Ht. rewrite (su_pos b la ub (done_tokens cx) (ub_n_tokens ub)) by done.
    apply Hpos. unfold done_tokens. lia. }
  { lia. }
  { lia. }
  { apply (su_outputs_len b la ub (done_tokens cx)); unfold done_tokens; try lia; done. }
  { apply bl_tensors; [lia|apply zlen_nonneg|lia]. }
  intros [inputs cache] [Ecache Hin]. cbn [fst snd] in Ecache, Hin. subst cache.
  set (c := mk_comp (cx_kv cx') ub inputs (cx_rows cx') (done_tokens cx)).
  change (graph_compute (cx_kv cx') ub inputs (cx_rows cx')) with (cm_result c).
  destruct (gr_status (cm_result c)) eqn:Es.
  1,2,4: eapply post_bind; [apply (restorer_restore_safe restorer' (cx_kv cx')); [done|rewrite Hsz'; exact Hres]|];
    intros c3 [Hw3 Hs3]; cbn [post status_code]; right; unfold failed; splits; [done|cbn; congruence|tauto].
  destruct (bl_rows (cx_kv cx') ub inputs (cx_rows cx') keys Es K6) as (keys2 & Hcp).
  assert (Hal : aligned row_at (cx_kv cx') (gr_rows (cm_result c)) keys2) by (apply K7; exact Hcp).
  pose proof (prepared_history _ _ _ _ _ _ Hinv Hpr) as Hhist.
  assert (Hok : computation_ok cache0 la c).
  { split; cbn; try done; [unfold done_tokens; lia|by exists keys2]. }
  eapply post_bind; [apply (extract_spec restorer prev cx cx' restorer' ub inputs _ Hinv Hpr Hok)|].
  intros cx2 (E1 & E2 & E3 & E4 & Ho2). cbn [post].
  split; [|rewrite E3; lia]. by apply (next_loop_inv restorer prev cx restorer' cx' ub inputs).
Qed.
End correct.

(** ** Before and after the loop *)

Lemma size_t_small x : 0 <= x < 18446744073709551616 -> size_t x = x.
Proof. intros Hx. unfold size_t, wrap_u. by apply Z.mod_small. Qed.

Section reserve.
Context {A F : Type} `{Backend A F} (p : context_params).
Context (Hemb : cp_embeddings p = false) (Hvocab : 0 <= cp_n_vocab p) (Hbatch : 0 < cp_n_batch p).
Context (Hfit : cp_n_vocab p * Z.max (cp_n_batch p) (cp_n_seq_max p) < 4294967296).

Lemma output_reserve_spec (o : outputs F) n :
  o_ids o = [] \/ zlen (o_ids o) = cp_n_batch p -> 0 <= n <= cp_n_batch p ->
  let r := llama_output_reserve (out_params p) alloc_output zero o n in
  zlen (o_ids r.1) = cp_n_batch p /\
  (n <= r.2 -> 0 < n -> o_ids r.1 = replicate (Z.to_nat (cp_n_batch p)) (-1) /\
     exists l, o_logits r.1 = Some l /\ zlen l = o_logits_size r.1 /\ n * cp_n_vocab p <= o_logits_size r.1).
Proof using Hemb Hvocab Hbatch Hfit.
  intros Hids Hn. unfold llama_output_reserve, out_params. cbn [op_embeddings op_n_vocab op_n_embd op_n_batch op_n_seq_max op_no_pooling].
  rewrite Hemb. cbn [negb andb]. set (m := Z.max n (cp_n_seq_max p)).
  assert (Hm : 0 <= cp_n_vocab p * m < 4294967296 /\ n * cp_n_vocab p <= cp_n_vocab p * m) by (unfold m; nia).
  rewrite (size_t_small (cp_n_vocab p * m)) by lia.
  set (ids := match o_ids o with [] => _ | _ => _ end).
  assert (Hl : length ids = Z.to_nat (cp_n_batch p)).
  { unfold ids. destruct (o_ids o) eqn:E; [by rewrite length_replicate|]. destruct Hids as [|Hids]; [done|]. unfold zlen in Hids. lia. }
  assert (Hz : zlen ids = cp_n_batch p) by (unfold zlen; lia).
  set (grow := bool_decide (o_buf o = None) || _).
  destruct (grow && _); cbn [o_ids o_n_outputs o_output_size o_logits_size o_embd_size o_logits o_embd o_buf];
    (destruct (if grow then _ else _); cbn [fst snd o_ids o_logits o_logits_size]; [|split; [done|intros; lia]]);
    (split; [unfold zlen; rewrite length_replicate; lia|]); intros _ _; (split; [by rewrite Hl|]);
    (eexists; splits; [done| |lia]); unfold zlen; rewrite length_replicate; lia.
Qed.
End reserve.

Lemma allocr_some inp p0 b :
  llama_batch_allocr inp p0 = Ok b ->
  0 < b_n_tokens b /\ b_n_tokens b = b_n_tokens inp /\ exists l, b_logits b = Some l.
Proof.
  unfold llama_batch_allocr. destruct (Z.ltb_spec 0 (b_n_tokens inp)); [|done]. cbn [ggml_assert mbind res_bind].
  intros (pos & _ & E)%res_bind_ok. injection E as <-. cbn. splits; [done|done|]. destruct (b_logits inp); by eexists.
Qed.

(** Whether all tokens are outputs makes no difference. *)
Lemma is_output_all b logits id :
  b_logits b = Some logits -> 0 <= id < b_n_tokens b ->
  is_output b (zlen (output_rows logits (b_n_tokens b)) =? b_n_tokens b) id = is_output b false id.
Proof.
  intros Hl Hid. destruct (Z.eqb_spec (zlen (output_rows logits (b_n_tokens b))) (b_n_tokens b)) as [E|]; [|done].
  unfold is_output. rewrite Hl. cbn [orb].
  assert (Hall : output_rows logits (b_n_tokens b) = zseq 0 (Z.to_nat (b_n_tokens b))).
  { unfold output_rows in *. apply filter_all. rewrite length_zseq. unfold zlen in E. lia. }
  assert (Hin : id ∈ output_rows logits (b_n_tokens b)) by (rewrite Hall; apply elem_of_zseq; lia).
  unfold output_rows in Hin. apply list_elem_of_filter in Hin as [Hne _]. by destruct (Z.eqb_spec (default 0 (zlookup logits id)) 0).
Qed.

(** ** The whole function *)

Section theorem.
Context {A F K : Type} `{Backend A F} `{CppSort} (p : context_params) (row_at : Z -> K -> A).
Context {laws : BackendLaws p row_at}.
Implicit Types (cx : llama_context A F).

(** The parameters of a decoder-only model that computes logits. The last
    condition keeps the offsets into the logits, which the accessors compute with
    32 bits, exact. *)
Record decoder_params : Prop := {
  dp_model   : cp_causal_model p = true;
  dp_attn    : cp_causal_attn p = true;
  dp_logits  : cp_embeddings p = false;
  dp_threads : 0 < cp_n_threads p /\ 0 < cp_n_threads_batch p;
  dp_ubatch  : 0 < cp_n_ubatch p;
  dp_vocab   : 0 <= cp_n_vocab p;
  dp_fit     : cp_n_vocab p * Z.max (cp_n_batch p) (cp_n_seq_max p) < 4294967296
}.

(** A context between two calls. *)
Record ready (size : Z) cx : Prop := {
  rd_cache : cache_ok row_at size (cx_kv cx) (cx_rows cx);
  rd_ids   : o_ids (cx_out cx) = [] \/ zlen (o_ids (cx_out cx)) = cp_n_batch p
}.

(** A batch of tokens or of embeddings, with positions below [INT32_MAX]. *)
Record decodable (b : llama_batch) : Prop := {
  db_ok    : batch_ok b;
  db_input : b_token b <> None \/ b_embd b <> None;
  db_small : b_n_tokens b <= cp_n_batch p;
  db_pos   : forall id, 0 <= id < b_n_tokens b -> 0 <= token_pos b id < INT32_MAX
}.

(** What a successful call leaves: the tokens are in the cache, and the logits of
    the outputs, and of no other token, can be read. *)
Record decoded (b : llama_batch) (size : Z) cx cx' : Prop := {
  dd_ready   : ready size cx';
  dd_history : history b (cx_kv cx) (cx_kv cx') (b_n_tokens b);
  dd_logits  : forall id, 0 <= id < cp_n_batch p ->
    if (id <? b_n_tokens b) && is_output b false id then
      exists la j l, llama_get_logits_ith (out_params p) (cx_out cx') id = Some (j * cp_n_vocab p) /\
        o_logits (cx_out cx') = Some l /\ evaluated p row_at b (cx_kv cx) la id (row (cp_n_vocab p) l j)
    else llama_get_logits_ith (out_params p) (cx_out cx') id = None
}.

Context (Hp : decoder_params) (b : llama_batch) (Hb : decodable b) (Hn : 0 < b_n_tokens b).
Context (logits : list Z) (Hlogits : b_logits b = Some logits) (size : Z) (Hsize : 0 < size).

Definition n_out : Z := zlen (output_rows logits (b_n_tokens b)).
Definition la : bool := n_out =? b_n_tokens b.

Lemma n_out_range : 0 <= n_out <= b_n_tokens b.
Proof using Hn. apply output_rows_range. lia. Qed.

Lemma prepare_sbatch_spec cx :
  ready size cx -> cx_encoding cx = false ->
  safe (llama_prepare_sbatch p b cx) (fun r =>
    let '(ret, n, cx') := r in
    cx_kv cx' = cx_kv cx /\
    if ret =? 0 then n = n_out /\ loop_inv p row_at b (cx_kv cx) size n_out la (restorer_init (cx_kv cx)) 0 cx'
    else ret = -2 \/ ret = -1 /\ exists token i t, b_token b = Some token /\ zlookup token i = Some t /\
                              (t < 0 \/ cp_n_vocab p <= t)).
Proof using Hp Hb Hn Hlogits laws.
  intros [Hc Hids] Henc. destruct Hp as [P1 P2 P3 P4 P5 P6 P7]. destruct Hb as [B1 B2 B3 B4].
  pose proof (bo_size _ B1) as Hbs. pose proof n_out_range as Hr. unfold llama_prepare_sbatch.
  assert (Hx : Bool.eqb (bool_decide (is_Some (b_token b))) (bool_decide (b_embd b = None)) = true).
  { pose proof (bo_embd _ B1) as He. destruct (b_token b), (b_embd b) as [e|]; try done.
    - by destruct (He e eq_refl).
    - by destruct B2. }
  rewrite Hx. cbn [ggml_assert mbind res_bind].
  eapply post_bind with (P := fun r => r = false -> exists token i t, b_token b = Some token /\ zlookup token i = Some t /\
                              (t < 0 \/ cp_n_vocab p <= t)).
  { destruct (b_token b) as [token|] eqn:Et; [|by cbn].
    eapply post_mono; [apply (valid_tokens_spec (cp_n_vocab p) (Z.to_nat (b_n_tokens b)) 0 token); [lia|rewrite (bo_token _ B1 _ Et); lia]| |done].
    intros r Hr' E. destruct (Hr' E) as (j & t & H1 & H2). by exists token, j, t. }
  intros [|] Hval; cbn [negb]. 2:{ cbn [post Z.eqb]. split; [done|]. right. split; [done|]. by apply Hval. }
  destruct (Z.leb_spec (b_n_tokens b) (cp_n_batch p)); [|lia]. rewrite P2. cbn [orb ggml_assert mbind res_bind].
  unfold embd_pooled. rewrite P3. cbn [andb]. rewrite Hlogits.
  rewrite (count_flags_spec logits (b_n_tokens b)) by (rewrite ?(bo_logits _ B1 _ Hlogits); lia). cbn [mbind res_bind].
  fold n_out. cbn [cx_kv cx_sbatch cx_out set_embd_seq queue_tokens]. rewrite (kw_attention _ (co_wf _ _ _ _ Hc)). cbn [negb].
  fold la. eapply post_bind; [by apply (from_batch_simple b (cx_sbatch cx) la)|].
  intros sb (Hsb & Hsa & Hso & Hsn & _).
  pose proof (output_reserve_spec p P3 P6 ltac:(lia) P7 (cx_out cx) n_out Hids ltac:(lia)) as Hres. cbv zeta in Hres.
  destruct (llama_output_reserve _ _ _ _ _) as [o reserved]. cbn [fst snd] in Hres. destruct Hres as [R1 R2].
  cbn [post set_out set_sbatch cx_kv]. split; [done|]. destruct (Z.ltb_spec reserved n_out) as [Hlt|Hge]; cbn [Z.eqb]; [by left|].
  split; [done|]. split; cbn; try done.
  - split; [done|done|]. rewrite Hso, Hsn. replace (b_n_tokens b - b_n_tokens b) with 0 by lia. done.
  - intros s q. unfold done_tokens. cbn. rewrite Hsn. split; [by left|]. intros [?|(id & ? & _)]; [done|lia].
  - by rewrite Hso.
  - split; cbn; [done|]. intros Hpos. destruct (R2 Hge Hpos) as (I1 & l & I2 & I3 & I4). split; [done|]. exists l. splits; try done.
    rewrite Hso. intros i id E. apply zlookup_Some_lt in E. unfold zlen in E. cbn in E. lia.
  - rewrite <- (co_size _ _ _ _ Hc). apply (kw_head _ (co_wf _ _ _ _ Hc)).
Qed.

Lemma batch_outputs_range id : id ∈ batch_outputs b la (b_n_tokens b) <-> 0 <= id < b_n_tokens b /\ is_output b false id = true.
Proof using Hlogits Hn.
  unfold batch_outputs. rewrite list_elem_of_filter, elem_of_zseq. rewrite Z2Nat.id by lia. rewrite Z.add_0_l. split.
  - intros [E Hid]. split; [done|]. unfold la, n_out in E. by rewrite (is_output_all b logits id) in E.
  - intros [Hid E]. split; [|done]. unfold la, n_out. by rewrite (is_output_all b logits id).
Qed.

Lemma decode_finish_spec restorer prev cx cx' :
  loop_inv p row_at b (cx_kv cx) size n_out la restorer prev cx' -> done_tokens b cx' = b_n_tokens b ->
  safe (decode_finish p n_out cx') (fun cx2 => kv_wf (cx_kv cx2) /\ kv_size (cx_kv cx2) = size /\ decoded b size cx cx2).
Proof using Hp Hb Hn Hlogits.
  intros [Hsb Hc Hh _ [Ho1 Ho2] _ _] Hd. unfold decode_finish. pose proof (bo_size _ (db_ok _ Hb)) as Hbs. pose proof n_out_range as Hr.
  pose proof (bi_out _ _ _ Hsb) as Hoi. fold (done_tokens b cx') in Hoi. rewrite Hd in Hoi.
  assert (Hlen : zlen (batch_outputs b la (b_n_tokens b)) = n_out) by (apply (batch_outputs_len b logits); [done|lia]).
  assert (Hnd : NoDup (batch_outputs b la (b_n_tokens b))) by (apply NoDup_filter, NoDup_zseq).
  eapply post_bind; [apply map_output_ids_spec; rewrite ?Hoi; [done|lia|done|]|].
  { apply Forall_forall. intros id Hid. apply batch_outputs_range in Hid as [Hid _]. rewrite Ho1. pose proof (db_small _ Hb). lia. }
  intros [ids sorted] (M1 & M2 & M3). cbn [fst snd] in *. rewrite Hoi in M2, M3. cbn [post].
  assert (Hwf2 : kv_wf (request_defrag p (cx_kv cx')) /\ kv_size (request_defrag p (cx_kv cx')) = size /\
    cache_ok row_at size (request_defrag p (cx_kv cx')) (cx_rows cx') /\ slots (request_defrag p (cx_kv cx')) = slots (cx_kv cx')).
  { destruct Hc as [W1 W2 W3 (keys & W4)]. unfold request_defrag, llama_kv_cache_defrag.
    rewrite (kw_attention _ W1). case_match; [|splits; [done|done|split; [done|done|done|by exists keys]|done]].
    splits; [by apply with_defrag_wf|done| |done]. split; [by apply with_defrag_wf|done|done|].
    exists keys. by apply (aligned_ext row_at (cx_kv cx')). }
  destruct Hwf2 as (W1 & W2 & W3 & W4). cbn. splits; [done|done|].
  assert (Hn32 : i32 n_out = n_out) by (apply i32_small; unfold INT32_MIN, INT32_MAX in *; lia).
  split; cbn [cx_kv cx_out set_cache set_out o_logits with_outputs with_ids].
  - split; cbn; [done|]. right. lia.
  - rewrite Hd in Hh. apply (history_ext b (cx_kv cx) (cx_kv cx')); [|done]. intros s q. by rewrite W4.
  - intros id Hid. rewrite Hn32. unfold llama_get_logits_ith, output_index. cbn [o_logits o_ids o_n_outputs with_outputs with_ids].
    destruct (zlookup_lt ids id) as [j Hj]; [lia|].
    assert (Hcase : (id <? b_n_tokens b) && is_output b false id = bool_decide (id ∈ batch_outputs b la (b_n_tokens b))).
    { case_bool_decide as Hin; rewrite batch_outputs_range in Hin.
      - destruct Hin as [Hr' ->]. destruct (Z.ltb_spec id (b_n_tokens b)); [done|lia].
      - destruct (Z.ltb_spec id (b_n_tokens b)); [|done]. cbn. destruct (is_output b false id) eqn:Ef; [|done]. exfalso. apply Hin. split; [lia|done]. }
    rewrite Hcase. case_bool_decide as Hin.
    + apply elem_of_zlookup in Hin as (i & Hi & Ei). pose proof (M2 _ _ Ei) as E. rewrite Hj in E. injection E as ->.
      rewrite Hlen in Hi. destruct (Ho2 ltac:(lia)) as (_ & l & L1 & L2 & L3 & L4). rewrite L1.
      destruct (Z.ltb_spec id 0); [lia|]. destruct (Z.leb_spec (zlen ids) id); [lia|].
      rewrite (vget_Some _ _ _ Hj). cbn [mbind res_bind]. destruct (Z.ltb_spec i 0); [lia|]. destruct (Z.leb_spec n_out i); [lia|].
      cbn [mbind res_bind caught]. unfold row_offset, out_params. cbn [op_n_vocab].
      pose proof (dp_vocab Hp). pose proof (dp_fit Hp). pose proof (db_small _ Hb).
      rewrite u32_small by nia. exists la, i, l. splits; [done|done|]. apply L4. by rewrite Hoi.
    + destruct (o_logits (cx_out cx')); [|done]. destruct (Z.ltb_spec id 0); [lia|]. destruct (Z.leb_spec (zlen ids) id); [done|].
      rewrite (vget_Some _ _ _ Hj). cbn [mbind res_bind]. destruct (Z.ltb_spec j 0); [done|]. destruct (Z.leb_spec n_out j); [done|].
      exfalso. destruct (Ho2 ltac:(lia)) as (L1 & _). rewrite M3 in Hj by done. rewrite L1, zlookup_replicate_lt in Hj by lia. injection Hj as <-. lia.
Qed.
End theorem.

Section property.
Context {A F K : Type} `{Backend A F} `{CppSort} (p : context_params) (row_at : Z -> K -> A).
Context {laws : BackendLaws p row_at}.

(** C1. Decoding: for a decoder-only model that computes logits, a batch that
    fits the context and a well-formed attention cache, [llama_decode_impl]
    ends, fails no assertion and accesses nothing out of bounds. When it returns
    0, all tokens of the batch are in the cache next to those that were there
    before, the keys of all cells are at the recorded positions, and for exactly
    the outputs of the batch the accessor gives a row of logits; that row was
    computed for this very token, by a computation whose cache held the earlier
    tokens and whose mask showed every token of the ubatch precisely the cells
    of its sequence that are not after it. Otherwise it returns -1 for a token
    outside the vocabulary, 1 when a ubatch finds no window of free cells, and
    2, -2 or -3 when the computation or an allocation fails. *)
Theorem decode_correct fuel inp p0 b cx size :
  decoder_params p -> ready p row_at size cx -> 0 < size ->
  next_pos inp (cx_kv cx) = Ok p0 -> llama_batch_allocr inp p0 = Ok b -> decodable p b ->
  b_n_tokens b < Z.of_nat fuel ->
  safe (llama_decode_impl p fuel inp cx) (fun r =>
    kv_wf (cx_kv r.2) /\ kv_size (cx_kv r.2) = size /\
    (r.1 = 0 -> decoded p row_at b size cx r.2) /\
    (r.1 <> 0 -> r.1 = 2 \/ r.1 = -2 \/ r.1 = -3 \/
       (r.1 = 1 /\ exists n, 0 < n <= cp_n_ubatch p /\ forall h, ~ free_window (slots (cx_kv r.2)) h n) \/
       (r.1 = -1 /\ exists token i t, b_token b = Some token /\ zlookup token i = Some t /\ (t < 0 \/ cp_n_vocab p <= t)))).
Proof using laws.
  intros Hp Hrd Hsize Hp0 Hal Hb Hfuel. destruct (allocr_some _ _ _ Hal) as (Hn & Hninp & logits & Hlogits).
  pose proof Hp as [P1 P2 P3 P4 P5 P6 P7]. pose proof (db_small _ _ Hb) as Hsm.
  pose proof (n_out_range b Hn logits) as Hr. pose proof (rd_cache _ _ _ _ Hrd) as Hc.
  unfold llama_decode_impl. rewrite <- Hninp. destruct (Z.eqb_spec (b_n_tokens b) 0); [lia|].
  change (cx_kv (set_encoding false cx)) with (cx_kv cx). rewrite Hp0. cbn [mbind res_bind]. rewrite Hal. cbn [mbind res_bind].
  eapply post_bind; [apply (prepare_sbatch_spec p row_at Hp b Hb Hn logits Hlogits size (set_encoding false cx)); [by destruct Hrd|done]|].
  intros [[ret k] cx1] [Ekv Hret]. change (cx_kv (set_encoding false cx)) with (cx_kv cx) in *.
  destruct (Z.eqb_spec ret 0) as [->|Hne]; cbn [negb].
  2:{ cbn [post fst snd]. rewrite Ekv. splits; [apply Hc|apply Hc|done|]. intros _. destruct Hret as [->|[-> Hex]]; tauto. }
  destruct Hret as [-> Hinv].
  assert (Hlen : n_out b logits = zlen (batch_outputs b (la b logits) (b_n_tokens b))).
  { symmetry. apply (batch_outputs_len b logits); [done|lia]. }
  eapply post_bind with (P := fun r => (r.1 = 0 /\ exists rs prev, loop_inv p row_at b (cx_kv cx) size (n_out b logits) (la b logits) rs prev r.2 /\
      done_tokens b r.2 = b_n_tokens b) \/ r.1 <> 0 /\ failed p size r.1 r.2).
  - apply (while_post _ (fun s => loop_inv p row_at b (cx_kv cx) size (n_out b logits) (la b logits) s.1 s.2.1 s.2.2)
      (fun s => Z.to_nat (sb_n_tokens (cx_sbatch s.2.2)))); [done| |].
    + cbn. pose proof (mi_count _ _ (bi_simple _ _ _ (li_sbatch _ _ _ _ _ _ _ _ _ _ Hinv))). lia.
    + intros [rs [prev cx2]] Hi. cbn [fst snd] in *.
      eapply post_mono; [apply (decode_ubatch_spec p row_at P1 P2 P3 P4 P5 P6 b (db_ok _ _ Hb) Hn (db_pos _ _ Hb) (cx_kv cx) size
        (n_out b logits) (la b logits) Hsize eq_refl Hlen ltac:(nia) rs prev cx2 Hi)| |done].
      intros [[rs' [prev' cx3]]|[ret cx3]]; cbn; [done|]. intros [(-> & Hl & Hd)|Hf]; [left; split; [done|by exists rs, prev]|].
      right. split; [|done]. destruct Hf as (_ & _ & [->|[->|[->|[-> _]]]]); done.
  - intros [ret cx2] Hcase. cbn [fst snd] in Hcase. destruct Hcase as [(-> & rs & prev & Hl & Hd)|[Hne Hf]].
    + cbn [Z.eqb negb]. eapply post_bind; [by apply (decode_finish_spec p row_at Hp b Hb Hn logits Hlogits size rs prev cx cx2)|].
      intros cx3 (D1 & D2 & D3). cbn [post fst snd]. by splits.
    + destruct (Z.eqb_spec ret 0); [done|]. cbn [negb post fst snd]. destruct Hf as (F1 & F2 & F3). splits; [done|done|done|].
      intros _. destruct F3 as [?|[?|[?|?]]]; tauto.
Qed.
End property.
