(* ===== verification/DecodeExamples.v ===== *)
(** A backend that computes with numbers, an instance of the laws of
    [DecodeSpec]; it witnesses the theorem on decoding and shows two behaviours
    of the code that differ from its comments or its purpose. *)
From S2P Require Import Prelude Batch KvCache KvSpec KvUpdate KvShift Outputs Inputs Decode DecodeSpec.

(** * A backend with numbers *)

(** The key of a token is 100, rotated by adding its position; the logits of a
    token are the token itself and the number of cells it sees. *)
Definition demo_token (ub : llama_ubatch) (t : Z) : Z := default 0 (l ← ub_token ub; zlookup l t).

Definition demo_visible (cache : kv_cache) (inputs : graph_inputs) (t : Z) : Z :=
  match (in_masks inputs).1 with
  | Some d => zlen (filter (fun v => v <> NegInf) (take (Z.to_nat (kv_n cache)) (drop (Z.to_nat (t * kv_n cache)) d)))
  | None => 0
  end.

(** Storing [f] of a token at its cell. *)
Definition demo_store (cache : kv_cache) (ub : llama_ubatch) (f : Z -> Z) (l : list Z) : list Z :=
  imap (fun i x => let t := Z.of_nat i - kv_head cache in if (0 <=? t) && (t <? ub_n_tokens ub) then f t else x) l.

Definition demo_logits (cache : kv_cache) (ub : llama_ubatch) (inputs : graph_inputs) : list Z :=
  concat ((fun t => [demo_token ub t; demo_visible cache inputs t]) <$> default [] (in_out_ids inputs)).

#[export] Instance demo_backend : Backend Z Z := {|
  shift_row d k := k + d;
  graph_tensors cache ub n := mk_inputs (Some (replicate (Z.to_nat n) 0))
    (Some (replicate (Z.to_nat (kv_n cache * GGML_PAD (ub_n_tokens ub) GGML_KQ_MASK_PAD)) NegInf), None)
    None None None None None;
  graph_compute cache ub inputs rows :=
    mk_gresult STATUS_SUCCESS (demo_store cache ub (fun t => token_pos_of ub t + 100) rows) (demo_logits cache ub inputs) [];
  encoder_tensors ub := mk_inputs (Some (replicate (Z.to_nat (ub_n_tokens ub)) 0))
    (Some (replicate (Z.to_nat (ub_n_tokens ub * ub_n_tokens ub)) NegInf), None) None None None None None;
  encoder_compute ub inputs := (STATUS_SUCCESS, replicate (Z.to_nat (ub_n_tokens ub)) 0);
  alloc_output n := Some n;
  zero := 0;
  over_threshold x n := false
|}.

Definition demo_params : context_params :=
  mk_cparams 2 1 8 2 1 1 1 false PoolNone false true true false 0 false true 4 true false.

Lemma demo_store_lookup cache ub f l i :
  0 <= i -> zlookup (demo_store cache ub f l) i =
  if (kv_head cache <=? i) && (i <? kv_head cache + ub_n_tokens ub) then (fun _ => f (i - kv_head cache)) <$> zlookup l i
  else zlookup l i.
Proof.
  intros Hi. unfold zlookup, demo_store. destruct (Z.leb_spec 0 i); [|lia]. rewrite list_lookup_imap, Z2Nat.id by lia.
  destruct (l !! Z.to_nat i); cbn; [|by case_match].
  replace (0 <=? i - kv_head cache) with (kv_head cache <=? i) by lia.
  replace (i - kv_head cache <? ub_n_tokens ub) with (i <? kv_head cache + ub_n_tokens ub) by lia. by case_match.
Qed.

Lemma demo_laws : BackendLaws demo_params (fun q k : Z => k + q).
Proof.
  split.
  - cbn. intros. lia.
  - intros cache ub n Hkv Hn Hu. pose proof (GGML_PAD_64 _ Hu) as [Hpad _]. split; cbn.
    + eexists. split; [done|]. unfold zlen. rewrite length_replicate. lia.
    + eexists. split; [done|]. unfold zlen, GGML_KQ_MASK_PAD. rewrite length_replicate. apply Z2Nat.id. nia.
    + done.
    + done.
  - intros cache ub t rows d _ Hd. cbn. unfold demo_logits. rewrite Hd. cbn. clear Hd.
    induction d as [|x d IH]; [done|]. cbn [fmap list_fmap concat]. rewrite zlen_app, IH, !zlen_cons.
    change (zlen []) with 0. lia.
  - intros cache ub t rows keys _ Hl. cbn [graph_compute demo_backend gr_rows].
    exists (demo_store cache ub (fun _ => 100) keys).
    assert (Hlen : forall f (l : list Z), zlen (demo_store cache ub f l) = zlen l).
    { intros f l. unfold zlen, demo_store. by rewrite length_imap. }
    split; [apply Hlen|apply Hlen| |].
    + intros i Hi. destruct (Z.lt_ge_cases i 0) as [Hneg|Hpos].
      { unfold zlookup. destruct (Z.leb_spec 0 i); [lia|done]. }
      rewrite !demo_store_lookup by done.
      destruct (Z.leb_spec (kv_head cache) i), (Z.ltb_spec i (kv_head cache + ub_n_tokens ub)); cbn [andb]; try done; lia.
    + intros i Hi. destruct (Z.lt_ge_cases (kv_head cache + i) 0) as [Hneg|Hpos].
      { unfold zlookup. destruct (Z.leb_spec 0 (kv_head cache + i)); [lia|done]. }
      rewrite !demo_store_lookup by done.
      destruct (Z.leb_spec (kv_head cache) (kv_head cache + i)); [|lia].
      destruct (Z.ltb_spec (kv_head cache + i) (kv_head cache + ub_n_tokens ub)); [|lia]. cbn [andb].
      replace (kv_head cache + i - kv_head cache) with i by lia.
      destruct (zlookup rows (kv_head cache + i)) as [x|] eqn:Ex; [apply zlookup_Some_lt in Ex|];
        destruct (zlookup keys (kv_head cache + i)) as [y|] eqn:Ey; try (apply zlookup_Some_lt in Ey); cbn.
      * f_equal. lia.
      * destruct (zlookup_lt keys (kv_head cache + i)) as [z Hz]; [lia|congruence].
      * destruct (zlookup_lt rows (kv_head cache + i)) as [z Hz]; [lia|congruence].
      * done.
Qed.

Definition empty_outputs : outputs Z := mk_outputs [] 0 0 0 0 None None None.

(** A context whose cache has [n] free cells. *)
Definition fresh_ctx (n : nat) : llama_context Z Z :=
  mk_ctx (llama_kv_cache_init false false (Z.of_nat n)) (replicate n 0) sbatch_empty empty_outputs ∅ 0 false [] [].

Definition demo_std_sort : CppSort := insertion_std_sort.

(** Tokens of sequence 0, of which the last is an output. *)
Definition tokens_batch (tokens : list Z) : llama_batch := llama_batch_get_one tokens (zlen tokens).

Abbreviation decode_demo cells tokens :=
  (@llama_decode_impl Z Z demo_backend demo_std_sort demo_params 10 (tokens_batch tokens) (fresh_ctx cells)).

Lemma demo_decoder : decoder_params demo_params.
Proof. split; cbn; done || lia. Qed.

Lemma fresh_ready n : Z.of_nat n <= KV_SIZE_MAX -> ready demo_params (fun q k : Z => k + q) (Z.of_nat n) (fresh_ctx n).
Proof.
  intros Hn. split; cbn; [|by left].
  assert (Hl : zlen (replicate n cell_init) = Z.of_nat n) by (unfold zlen; by rewrite length_replicate).
  assert (Hcells : kv_cells (llama_kv_cache_init false false (Z.of_nat n)) = replicate n cell_init) by (cbn; by rewrite Nat2Z.id).
  split.
  - by apply init_wf.
  - unfold kv_size. by rewrite Hcells.
  - done.
  - exists (replicate n 0). split; unfold kv_size; rewrite ?Hcells, ?Hl; try (unfold zlen; by rewrite length_replicate).
    + intros _. rewrite Hcells. apply Forall_replicate. done.
    + intros c a k Hin. apply elem_of_occupied_zip in Hin as (He & i & Hi & _). apply lookup_replicate in Hi as [-> _]. done.
Qed.

(** Three tokens are decoded in ubatches of two. *)
Lemma decode_correct_witness :
  exists cx, decode_demo 8 [1; 0; 1] = Ok (0, cx) /\
    decoded demo_params (fun q k : Z => k + q)
      (mk_batch 3 (Some [1; 0; 1]) None (Some [0; 1; 2]) (Some [1; 1; 1]) (Some [[0]; [0]; [0]]) (Some [0; 0; 1])) 8 (fresh_ctx 8) cx.
Proof.
  set (b := mk_batch 3 _ _ _ _ _ _).
  pose proof (@decode_correct Z Z Z demo_backend demo_std_sort demo_params (fun q k : Z => k + q) demo_laws 10
    (tokens_batch [1; 0; 1]) 0 b (fresh_ctx 8) 8) as Hpost.
  assert (Hcode : match decode_demo 8 [1; 0; 1] with Ok (ret, _) => ret = 0 | Err _ => False end) by (vm_compute; reflexivity).
  destruct (llama_decode_impl _ _ _ _) as [[ret cx]|e]; [|destruct Hcode].
  subst ret. exists cx. split; [reflexivity|].
  apply Hpost.
  - exact demo_decoder.
  - apply (fresh_ready 8). unfold KV_SIZE_MAX. lia.
  - reflexivity.
  - vm_compute. reflexivity.
  - vm_compute. reflexivity.
  - split.
    + split; cbn.
      * unfold INT32_MAX. lia.
      * intros l E. injection E as <-. reflexivity.
      * discriminate.
      * eexists. split; [reflexivity|reflexivity].
      * eexists _, _. splits; [reflexivity|reflexivity|reflexivity|].
        repeat (apply Forall2_cons; split; [vm_compute; by split|]). apply Forall2_nil. done.
      * intros l E. injection E as <-. reflexivity.
    + left. discriminate.
    + vm_compute. discriminate.
    + cbn [b_n_tokens b]. intros id Hid. assert (id = 0 \/ id = 1 \/ id = 2) as [->|[->| ->]] by lia; vm_compute; by split.
  - reflexivity.
  - reflexivity.
Defined.

(** * Behaviour the theorem does not promise *)

(** A batch that does not fit leaves its first tokens behind: when the second
    ubatch finds no slot, [llama_decode_impl] returns 1 and the tokens of the
    ubatches before it stay in a cache that was empty; the function's comment
    says that the cache is returned to its original state. *)
Theorem decode_full_leaves_tokens :
  match decode_demo 4 [1; 0; 1; 0; 1] with
  | Ok (ret, cx) => ret = 1 /\ slots (cx_kv (fresh_ctx 4)) = replicate 4 None /\
                    (fmap fst) <$> slots (cx_kv cx) = Some <$> [0; 1; 2; 3]
  | Err _ => False
  end.
Proof. vm_compute. split; [|split]; reflexivity. Qed.

(** Two tokens of the sequences [s] and [t]. *)
Definition pair_batch (s t : Z) : llama_batch :=
  mk_batch 2 (Some [1; 1]) None (Some [0; 0]) (Some [1; 1]) (Some [[s]; [t]]) None.

Definition encoder_params : context_params :=
  mk_cparams 2 1 8 2 1 1 1 false PoolNone false true true false 0 false true 4 true true.

Definition encode_demo (b : llama_batch) (cx : llama_context Z Z) : res (Z * llama_context Z Z) :=
  @llama_encode_impl Z Z demo_backend demo_std_sort encoder_params b cx.

(** Encoding forgets no sequence: [llama_encode_impl] adds the sequences of
    the tokens to the sets of the batch encoded before. After encoding tokens of
    the sequences 0 and 1 and then of 1 and 0, both encoded tokens belong to both
    sequences, so that a token of sequence 0 attends to the encoded token of
    sequence 1. *)
Theorem encode_keeps_stale_sequences :
  match r ← encode_demo (pair_batch 0 1) (fresh_ctx 4); encode_demo (pair_batch 1 0) r.2 with
  | Ok (ret, cx) => ret = 0 /\ cx_seq_ids_enc cx = [{[0; 1]}; {[0; 1]}] /\
      ub_seq_id (demo_ub 0 [5]) = [[0]] /\
      (d ← cross_mask (demo_ub 0 [5]) (cx_seq_ids_enc cx) 2 (replicate 128 NegInf); Ok (take 2 d)) = Ok [Bias 0; Bias 0]
  | Err _ => False
  end.
Proof. vm_compute. splits; reflexivity. Qed.
