(* ===== verification/State.v ===== *)
(** Saving and restoring the state of a context ([src/llama-context.cpp]): the
    serialisation of the outputs and of the key/value cache, of all sequences or
    of one, to a buffer or a file. A float is its 32-bit pattern, memory is
    little-endian, a file is the list of its bytes. *)
From S2P Require Import Prelude Batch KvCache KvSpec KvUpdate Outputs.

(** * Data *)

(** A tensor of the cache: its type and its bytes. *)
Record tensor : Type := mk_tensor { t_type : Z; t_data : list Z }.

(** What the functions read of the model and of the context parameters;
    [sp_n_embd_k il] is [n_embd_k_gqa(il) + n_embd_k_s()], likewise for the values,
    [sp_row_size] is [ggml_row_size] and [sp_type_size] [ggml_type_size]. *)
Record state_params : Type := mk_sparams {
  sp_arch      : list Z;
  sp_n_layer   : Z;
  sp_n_embd_k  : Z -> Z;
  sp_n_embd_v  : Z -> Z;
  sp_row_size  : Z -> Z -> Z;
  sp_type_size : Z -> Z;
  sp_out       : output_params
}.

(** The members of the context that are saved, restored or used on the way. *)
Record state_ctx : Type := mk_sctx {
  st_cache   : kv_cache;
  st_k       : list tensor;
  st_v       : list tensor;
  st_v_trans : bool;
  st_sbatch  : llama_sbatch;
  st_out     : outputs Z
}.

Definition set_kv (cache : kv_cache) (cx : state_ctx) : state_ctx :=
  mk_sctx cache (st_k cx) (st_v cx) (st_v_trans cx) (st_sbatch cx) (st_out cx).
Definition set_tensors (k v : list tensor) (cx : state_ctx) : state_ctx :=
  mk_sctx (st_cache cx) k v (st_v_trans cx) (st_sbatch cx) (st_out cx).
Definition set_sb (sb : llama_sbatch) (cx : state_ctx) : state_ctx :=
  mk_sctx (st_cache cx) (st_k cx) (st_v cx) (st_v_trans cx) sb (st_out cx).
Definition set_outputs (o : outputs Z) (cx : state_ctx) : state_ctx :=
  mk_sctx (st_cache cx) (st_k cx) (st_v cx) (st_v_trans cx) (st_sbatch cx) o.

(** [ggml_backend_tensor_get] and [ggml_backend_tensor_set] *)
Definition tensor_bytes (t : tensor) (offset size : Z) : res (list Z) :=
  ggml_assert ((0 <=? offset) && (offset + size <=? zlen (t_data t)));;
  Ok (take (Z.to_nat size) (drop (Z.to_nat offset) (t_data t))).

Definition tensor_store (t : tensor) (offset : Z) (bytes : list Z) : res tensor :=
  ggml_assert ((0 <=? offset) && (offset + zlen bytes <=? zlen (t_data t)));;
  Ok (mk_tensor (t_type t) (take (Z.to_nat offset) (t_data t) ++ bytes ++ drop (Z.to_nat (offset + zlen bytes)) (t_data t))).

(** [llama_kv_cache_clear] with the buffers of the tensors, which are cleared. *)
Definition clear_tensor (t : tensor) : tensor := mk_tensor (t_type t) (replicate (length (t_data t)) 0).

Definition clear_kv (cx : state_ctx) : state_ctx :=
  set_kv (llama_kv_cache_clear (st_cache cx)) (set_tensors (clear_tensor <$> st_k cx) (clear_tensor <$> st_v cx) cx).

(** * Writing *)

(** The calls of [write] and of [write_tensor_data]; [Stop] is where the code
    that makes the calls fails. *)
Inductive chunk : Type :=
| Raw (bytes : list Z)
| FromTensor (t : tensor) (offset size : Z)
| Stop (e : fault).

Definition chunk_size (c : chunk) : Z :=
  match c with Raw bytes => zlen bytes | FromTensor _ _ size => size | Stop _ => 0 end.

Definition chunk_bytes (c : chunk) : res (list Z) :=
  match c with Raw bytes => Ok bytes | FromTensor t offset size => tensor_bytes t offset size | Stop e => Err e end.

Definition calls (r : res (list chunk)) : list chunk := match r with Ok l => l | Err e => [Stop e] end.

(** [size_written], also the result of [llama_data_write_dummy] *)
Fixpoint size_written (l : list chunk) : res Z :=
  match l with
  | [] => Ok 0
  | Stop e :: _ => Err e
  | c :: l => n ← size_written l; Ok (chunk_size c + n)
  end.

(** [llama_data_write_buffer] for a buffer of [room] bytes and, without a limit,
    [llama_data_write_file]: the bytes written and how it ended. *)
Fixpoint write_to (room : option Z) (l : list chunk) : list Z * res unit :=
  match l with
  | [] => ([], Ok tt)
  | c :: l =>
      if match room with Some size => size <? chunk_size c | None => false end
      then ([], throw "unexpectedly reached end of buffer")
      else
        match chunk_bytes c with
        | Err e => ([], Err e)
        | Ok bytes =>
            let r := write_to ((fun size => size - chunk_size c) <$> room) l in
            (bytes ++ r.1, r.2)
        end
  end.

Section writing.
Context (p : state_params).

Definition write_u32 (x : Z) : chunk := Raw (le_bytes 4 x).
Definition write_u64 (x : Z) : chunk := Raw (le_bytes 8 x).

Definition write_string (str : list Z) : list chunk := [write_u32 (zlen str); Raw str].

Definition write_model_info : list chunk := write_string (sp_arch p).

(** The positions in the batch by row; [output_pos] is a vector of zeros first. *)
Definition output_positions (n_batch n_outputs : Z) (ids : list Z) : res (list Z) :=
  for_z 0 n_batch (fun i output_pos =>
    pos ← vget ids i;
    if 0 <=? pos then ggml_assert (pos <? n_outputs);; vset output_pos pos i
    else Ok output_pos) (replicate (Z.to_nat n_outputs) 0).

(** [write_output_ids], which puts the outputs in order first. *)
Definition write_output_ids (cx : state_ctx) : res (list chunk * state_ctx) :=
  r ← llama_output_reorder (sp_out p) (sb_out_ids (st_sbatch cx)) (st_out cx);
  let '(out_ids, o) := r : list Z * outputs Z in
  let sb := st_sbatch cx in
  let cx := set_outputs o (set_sb (mk_sbatch (sb_n_tokens sb) (sb_logits_all sb) (sb_ids sb) out_ids (sb_seq sb)
              (sb_batch sb) (sb_capacity sb)) cx) in
  let n_outputs := u32 (o_n_outputs o) in
  ggml_assert (n_outputs <=? o_output_size o);;
  output_pos ← output_positions (op_n_batch (sp_out p)) n_outputs (o_ids o);
  Ok (write_u32 n_outputs :: (if n_outputs =? 0 then [] else [Raw (concat (le_bytes 4 <$> output_pos))]), cx).

(** [write_logits] and [write_embeddings]: [n] floats a row. *)
Definition write_floats (size n n_outputs : Z) (buf : option (list Z)) : res (list chunk) :=
  let size := Z.min size (wrap_u 64 (wrap_u 64 n_outputs * n)) in
  if size =? 0 then Ok [write_u64 size]
  else
    l ← or_ub buf;
    if size <=? zlen l then Ok [write_u64 size; Raw (concat (le_bytes 4 <$> take (Z.to_nat size) l))] else Err UB.

Definition write_logits (o : outputs Z) : res (list chunk) :=
  write_floats (o_logits_size o) (op_n_vocab (sp_out p)) (o_n_outputs o) (o_logits o).

Definition write_embeddings (o : outputs Z) : res (list chunk) :=
  write_floats (o_embd_size o) (op_n_embd (sp_out p)) (o_n_outputs o) (o_embd o).

(** Is the cell saved? *)
Definition cell_selected (seq_id : Z) (c : kv_cell) : bool :=
  ((seq_id =? -1) && negb (is_empty c)) || has_seq_id c seq_id.

(** The loop over the cells that finds the ranges; [begin] is the size of the
    cache outside a range. *)
Fixpoint cell_ranges (size seq_id i : Z) (cells : list kv_cell) (begin : Z) : list (Z * Z) :=
  match cells with
  | [] => if begin =? size then [] else [(begin, size)]
  | c :: cells =>
      if cell_selected seq_id c then cell_ranges size seq_id (i + 1) cells (if begin =? size then i else begin)
      else if begin =? size then cell_ranges size seq_id (i + 1) cells begin
      else (begin, i) :: cell_ranges size seq_id (i + 1) cells size
  end.

(** One cell: a sequence is saved without its id. *)
Definition write_cell (seq_id : Z) (c : kv_cell) : list chunk :=
  let n_seq_id := if seq_id =? -1 then Z.of_nat (size (c_seq_id c)) else 0 in
  write_u32 (c_pos c) :: write_u32 n_seq_id ::
  (if n_seq_id =? 0 then [] else write_u32 <$> merge_sort Z.le (elements (c_seq_id c))).

Definition write_kv_cache_meta (cells : list kv_cell) (ranges : list (Z * Z)) (seq_id : Z) : res (list chunk) :=
  foldM (fun acc '(a, b) =>
    for_z a b (fun i acc => c ← vget cells i; Ok (acc ++ write_cell seq_id c)) acc) [] ranges.

(** The rows of a tensor, one for a cell. *)
Definition write_rows (t : tensor) (size_row : Z) (ranges : list (Z * Z)) : list chunk :=
  (fun '(a, b) => FromTensor t (a * size_row) ((b - a) * size_row)) <$> ranges.

(** A layer of the keys, or of the values when they are not transposed. *)
Definition write_layer (n_embd : Z -> Z) (tensors : list tensor) (ranges : list (Z * Z)) (il : Z) : res (list chunk) :=
  t ← vget tensors il;
  let size_row := sp_row_size p (t_type t) (n_embd il) in
  Ok (write_u32 (t_type t) :: write_u64 size_row :: write_rows t size_row ranges).

(** The offset of an element of the transposed values; all operands have 32
    bits. *)
Definition v_offset (first j kv_size size_el : Z) : Z := u32 (u32 (first + j * kv_size) * size_el).

Definition write_layer_trans (kv_size : Z) (tensors : list tensor) (ranges : list (Z * Z)) (il : Z) : res (list chunk) :=
  t ← vget tensors il;
  let size_el := u32 (sp_type_size p (t_type t)) in
  let n := sp_n_embd_v p il in
  Ok (write_u32 (t_type t) :: write_u32 size_el :: write_u32 n ::
      concat ((fun j => (fun '(a, b) => FromTensor t (v_offset a j kv_size size_el) ((b - a) * size_el)) <$> ranges)
                <$> zseq 0 (Z.to_nat n))).

Definition each_layer (f : Z -> res (list chunk)) : res (list chunk) :=
  for_z 0 (sp_n_layer p) (fun il acc => l ← f il; Ok (acc ++ l)) [].

Definition write_kv_cache_data (cx : state_ctx) (ranges : list (Z * Z)) : res (list chunk) :=
  k ← each_layer (write_layer (sp_n_embd_k p) (st_k cx) ranges);
  v ← (if st_v_trans cx then each_layer (write_layer_trans (kv_size (st_cache cx)) (st_v cx) ranges)
       else each_layer (write_layer (sp_n_embd_v p) (st_v cx) ranges));
  Ok (write_u32 (if st_v_trans cx then 1 else 0) :: write_u32 (sp_n_layer p) :: k ++ v).

(** [write_kv_cache] *)
Definition write_kv_cache (cx : state_ctx) (seq_id : Z) : list chunk :=
  let cells := kv_cells (st_cache cx) in
  let ranges := cell_ranges (kv_size (st_cache cx)) seq_id 0 cells (kv_size (st_cache cx)) in
  let count := zlen (filter (fun c => cell_selected seq_id c = true) cells) in
  if negb (count =? zsum ((fun r => r.2 - r.1) <$> ranges)) then [Stop Abort]
  else
    write_u32 count :: calls (write_kv_cache_meta cells ranges seq_id) ++ calls (write_kv_cache_data cx ranges).

(** [llama_state_get_data_internal]; the context keeps its outputs in order. *)
Definition state_chunks (cx : state_ctx) : list chunk * state_ctx :=
  match write_output_ids cx with
  | Err e => (write_model_info ++ [Stop e], cx)
  | Ok (ids, cx) =>
      (write_model_info ++ ids ++ calls (write_logits (st_out cx)) ++ calls (write_embeddings (st_out cx))
         ++ write_kv_cache cx (-1), cx)
  end.
End writing.

(** An exception is caught: the functions return 0, or [false]. *)
Definition on_throw {A} (a : A) (r : res A) : res A := match r with Err (Throw _) => Ok a | r => r end.

(** The context after writing: nothing has changed when not even the model
    information could be written. *)
Definition ctx_after (p : state_params) (cx : state_ctx) (room : option Z) : state_ctx :=
  match (write_to room (write_model_info p)).2 with Ok _ => (state_chunks p cx).2 | Err _ => cx end.

(** [llama_state_get_size] *)
Definition llama_state_get_size (p : state_params) (cx : state_ctx) : state_ctx * res Z :=
  let r := state_chunks p cx in (r.2, on_throw 0 (size_written r.1)).

(** [llama_state_get_data]: the context, the bytes in the buffer and the result. *)
Definition llama_state_get_data (p : state_params) (cx : state_ctx) (size : Z) : state_ctx * list Z * res Z :=
  let l := (state_chunks p cx).1 in
  let r := write_to (Some size) l in
  (ctx_after p cx (Some size), r.1, on_throw 0 (_ ← r.2; size_written l)).

(** [llama_state_seq_get_size], [llama_state_seq_get_data] *)
Definition llama_state_seq_get_size (p : state_params) (cx : state_ctx) (seq_id : Z) : res Z :=
  size_written (write_kv_cache p cx seq_id).

Definition llama_state_seq_get_data (p : state_params) (cx : state_ctx) (size seq_id : Z) : list Z * res Z :=
  let l := write_kv_cache p cx seq_id in
  let r := write_to (Some size) l in
  (r.1, on_throw 0 (_ ← r.2; size_written l)).


(** * Reading *)

(** Reading changes the context also when it fails: the state is the bytes that
    are left, the number of bytes read and the context. *)
Record reader : Type := mk_reader { rd_left : list Z; rd_size : Z; rd_ctx : state_ctx }.

Definition reads (A : Type) : Type := reader -> reader * res A.

#[export] Instance reads_ret : MRet reads := fun A a s => (s, Ok a).
#[export] Instance reads_bind : MBind reads := fun A B f m s =>
  match m s with (s, Ok a) => f a s | (s, Err e) => (s, Err e) end.

(** Lifting a computation on the context, one that does not change it, a read
    and a write of the context. *)
Definition lift {A} (f : state_ctx -> res (A * state_ctx)) : reads A := fun s =>
  match f (rd_ctx s) with
  | Ok (a, cx) => (mk_reader (rd_left s) (rd_size s) cx, Ok a)
  | Err e => (s, Err e)
  end.
Definition lift_res {A} (m : res A) : reads A := fun s => (s, m).
Definition get_ctx : reads state_ctx := fun s => (s, Ok (rd_ctx s)).
Definition put_ctx (cx : state_ctx) : reads unit := fun s => (mk_reader (rd_left s) (rd_size s) cx, Ok tt).

(** [llama_data_read_buffer::read], and [llama_data_read_file::read] up to the
    message. *)
Definition read (size : Z) : reads (list Z) := fun s =>
  if zlen (rd_left s) <? size then (s, throw "unexpectedly reached end of buffer")
  else (mk_reader (drop (Z.to_nat size) (rd_left s)) (rd_size s + size) (rd_ctx s), Ok (take (Z.to_nat size) (rd_left s))).

Definition read_u32 : reads Z := l ← read 4; mret (le_value l).
Definition read_i32 : reads Z := l ← read 4; mret (i32 (le_value l)).
Definition read_u64 : reads Z := l ← read 8; mret (le_value l).

(** A loop [for (i = lo; i < hi; ++i)]; it ends early with [false]. *)
Fixpoint for_ok (n : nat) (i : Z) (body : Z -> reads bool) : reads bool :=
  match n with
  | O => mret true
  | S n => ok ← body i; if ok : bool then for_ok n (i + 1) body else mret false
  end.

Definition for_true (lo hi : Z) (body : Z -> reads bool) : reads bool := for_ok (Z.to_nat (hi - lo)) lo body.

Section reading.
Context (p : state_params) (alloc : Z -> option Z).

Definition read_string : reads (list Z) := n ← read_u32; read n.

Definition read_model_info : reads unit :=
  str ← read_string;
  if bool_decide (str = sp_arch p) then mret tt else lift_res (throw "wrong model arch").

(** [n] numbers of four bytes. *)
Fixpoint words (n : nat) (l : list Z) : list Z :=
  match n with O => [] | S n => le_value (take 4 l) :: words n (drop 4 l) end.

Definition with_ids_outputs (ids : list Z) (n : Z) (o : outputs Z) : outputs Z :=
  mk_outputs ids n (o_output_size o) (o_logits_size o) (o_embd_size o) (o_logits o) (o_embd o) (o_buf o).

(** The loop that sets the output ids. *)
Fixpoint restore_ids (n_batch i : Z) (output_pos ids : list Z) : list Z * res unit :=
  match output_pos with
  | [] => (ids, Ok tt)
  | id :: output_pos =>
      if n_batch <=? u32 id then (ids, throw "invalid output id")
      else
        match vset ids id i with
        | Ok ids => restore_ids n_batch (i + 1) output_pos ids
        | Err e => (ids, Err e)
        end
  end.

(** [read_output_ids] *)
Definition read_output_ids : reads unit :=
  n_outputs ← read_u32;
  reserved ← lift (fun cx =>
    let r := llama_output_reserve (sp_out p) alloc 0 (st_out cx) n_outputs in Ok (r.2, set_outputs r.1 cx));
  if reserved <? n_outputs then lift_res (throw "could not reserve outputs")
  else if n_outputs =? 0 then mret tt
  else
    l ← read (n_outputs * 4);
    let output_pos := i32 <$> words (Z.to_nat n_outputs) l in
    cx ← get_ctx;
    let r := restore_ids (op_n_batch (sp_out p)) 0 output_pos (o_ids (st_out cx)) in
    _ ← put_ctx (set_outputs (with_ids_outputs r.1 (o_n_outputs (st_out cx)) (st_out cx)) cx);
    _ ← lift_res r.2;
    cx ← get_ctx;
    put_ctx (set_outputs (with_ids_outputs (o_ids (st_out cx)) (i32 n_outputs) (st_out cx)) cx).

(** Writing the floats to the front of a buffer. *)
Definition front_floats (buf : option (list Z)) (x : list Z) : res (list Z) :=
  l ← or_ub buf; if zlen x <=? zlen l then Ok (x ++ drop (length x) l) else Err UB.

Definition set_logits (l : option (list Z)) (o : outputs Z) : outputs Z :=
  mk_outputs (o_ids o) (o_n_outputs o) (o_output_size o) (o_logits_size o) (o_embd_size o) l (o_embd o) (o_buf o).
Definition set_embd (l : option (list Z)) (o : outputs Z) : outputs Z :=
  mk_outputs (o_ids o) (o_n_outputs o) (o_output_size o) (o_logits_size o) (o_embd_size o) (o_logits o) l (o_buf o).

(** What [read_logits] and [read_embeddings] share. *)
Definition read_floats (size_of : outputs Z -> Z) (buf : outputs Z -> option (list Z))
    (set : option (list Z) -> outputs Z -> outputs Z) (message : string) : reads unit :=
  n ← read_u64;
  cx ← get_ctx;
  if size_of (st_out cx) <? n then lift_res (throw message)
  else if n =? 0 then mret tt
  else
    l ← read (n * 4);
    x ← lift_res (front_floats (buf (st_out cx)) (words (Z.to_nat n) l));
    put_ctx (set_outputs (set (Some x) (st_out cx)) cx).

Definition read_logits : reads unit := read_floats o_logits_size o_logits set_logits "logits buffer too small".
Definition read_embeddings : reads unit := read_floats o_embd_size o_embd set_embd "embeddings buffer too small".

(** ** Cells *)

(** Changing a cell of the cache. *)
Definition set_cell (i : Z) (f : kv_cell -> kv_cell) : reads unit :=
  lift (fun cx =>
    let cache := st_cache cx in
    cells ← upd_cell (kv_cells cache) i f;
    Ok (tt, set_kv (with_cells cache (kv_head cache) (kv_used cache) cells) cx)).

(** The positions of the cells of one sequence; [None] when a cell has ids. *)
Fixpoint read_positions (n : nat) : reads (option (list Z)) :=
  match n with
  | O => mret (Some [])
  | S n =>
      pos ← read_i32;
      n_seq_id ← read_u32;
      if negb (n_seq_id =? 0) then mret None
      else
        l ← read_positions n;
        mret (match l with Some l => Some (pos :: l) | None => None end)
  end.

(** The branch of [read_kv_cache_meta] for one sequence: the cells are put into
    one free window. *)
Definition read_meta_seq (cell_count dest_seq_id : Z) : reads bool :=
  _ ← lift (fun cx => r ← llama_kv_cache_seq_rm (st_cache cx) dest_seq_id (-1) (-1); Ok (tt, set_kv r.2 cx));
  cap ← lift (fun cx => let r := reserve_ubatch (st_sbatch cx) cell_count false in Ok (sb_capacity r.1, set_sb r.1 cx));
  pos ← read_positions (Z.to_nat cell_count);
  match pos with
  | None => mret false
  | Some pos =>
      n_seq_id ← lift_res (put cap 0 1 []);
      seq_id ← lift_res (put cap 0 [dest_seq_id] []);
      let ub := mk_ubatch true cell_count cell_count 1 (Some []) None pos n_seq_id seq_id [] in
      found ← lift (fun cx => r ← llama_kv_cache_find_slot (st_cache cx) ub; Ok (slot_found r.1, set_kv r.2 cx));
      if negb found then mret false
      else
        cx ← get_ctx;
        let cache := st_cache cx in
        let last := u32 (kv_head cache + cell_count - 1) in
        _ ← lift_res (ggml_assert (u32 (kv_head cache + cell_count) <=? kv_size cache));
        first ← lift_res (vget (kv_cells cache) (kv_head cache));
        pos_first ← lift_res (vget pos 0);
        _ ← lift_res (ggml_assert (c_pos first =? pos_first));
        last ← lift_res (vget (kv_cells cache) last);
        pos_last ← lift_res (vget pos (u32 (cell_count - 1)));
        _ ← lift_res (ggml_assert (c_pos last =? pos_last));
        _ ← lift_res (ggml_assert (has_seq_id first dest_seq_id));
        _ ← lift_res (ggml_assert (has_seq_id last dest_seq_id));
        mret true
  end.

(** One sequence id of cell [i]. *)
Definition read_cell_id (i : Z) : reads bool :=
  seq_id ← read_i32;
  cx ← get_ctx;
  if (seq_id <? 0) || (kv_size (st_cache cx) <=? u32 seq_id) then mret false
  else
    _ ← set_cell i (fun c => set_seqs (c_seq_id c ∪ {[seq_id]}) c);
    if kv_recurrent (st_cache cx) then
      cx ← get_ctx;
      c ← lift_res (vget (kv_cells (st_cache cx)) seq_id);
      if negb (c_tail c =? -1) then mret false
      else _ ← set_cell seq_id (set_tail i); mret true
    else mret true.

(** The branch for the whole cache. *)
Definition read_meta_all (cell_count : Z) : reads bool :=
  cx ← get_ctx;
  if kv_size (st_cache cx) <? cell_count then mret false
  else
    _ ← put_ctx (clear_kv cx);
    ok ← for_true 0 cell_count (fun i =>
      pos ← read_i32;
      n_seq_id ← read_u32;
      _ ← set_cell i (set_pos pos);
      for_true 0 n_seq_id (fun _ => read_cell_id i));
    if ok : bool then
      cx ← get_ctx;
      _ ← put_ctx (set_kv (with_cells (st_cache cx) 0 cell_count (kv_cells (st_cache cx))) cx);
      mret true
    else mret false.

(** [read_kv_cache_meta] *)
Definition read_kv_cache_meta (cell_count dest_seq_id : Z) : reads bool :=
  ok ← (if negb (dest_seq_id =? -1) then read_meta_seq cell_count dest_seq_id else read_meta_all cell_count);
  if negb ok then mret false
  else
    cx ← get_ctx;
    if kv_recurrent (st_cache cx) then
      for_true 0 cell_count (fun i =>
        cx ← get_ctx;
        let cell_id := u32 (kv_head (st_cache cx) + i) in
        _ ← set_cell cell_id (set_src (i32 cell_id)); mret true)
    else mret true.

(** ** Tensors *)

(** Storing the bytes of the cells in a tensor of the keys or the values. *)
Definition store (keys : bool) (il offset : Z) (bytes : list Z) : reads unit :=
  lift (fun cx =>
    t ← vget (if keys then st_k cx else st_v cx) il;
    t ← tensor_store t offset bytes;
    l ← vset (if keys then st_k cx else st_v cx) il t;
    Ok (tt, if keys then set_tensors l (st_v cx) cx else set_tensors (st_k cx) l cx)).

(** A layer of the keys, or of the values when they are not transposed. *)
Definition read_layer (keys : bool) (n_embd : Z -> Z) (cell_count il : Z) : reads bool :=
  cx ← get_ctx;
  type ← read_i32;
  t ← lift_res (vget (if keys then st_k cx else st_v cx) il);
  if negb (t_type t =? type) then mret false
  else
    size_row_ref ← read_u64;
    let size_row := sp_row_size p (t_type t) (n_embd il) in
    if negb (size_row =? size_row_ref) then mret false
    else if cell_count =? 0 then mret true
    else
      l ← read (cell_count * size_row);
      _ ← store keys il (kv_head (st_cache cx) * size_row) l;
      mret true.

Definition read_layer_trans (cell_count il : Z) : reads bool :=
  cx ← get_ctx;
  type ← read_i32;
  t ← lift_res (vget (st_v cx) il);
  if negb (t_type t =? type) then mret false
  else
    size_el_ref ← read_u32;
    let size_el := sp_type_size p (t_type t) in
    if negb (size_el =? size_el_ref) then mret false
    else
      n_ref ← read_u32;
      let n := sp_n_embd_v p il in
      if negb (n =? n_ref) then mret false
      else if cell_count =? 0 then mret true
      else
        for_true 0 n (fun j =>
          l ← read (cell_count * size_el);
          _ ← store false il (u32 (kv_head (st_cache cx) + j * kv_size (st_cache cx)) * size_el) l;
          mret true).

(** [read_kv_cache_data] *)
Definition read_kv_cache_data (cell_count : Z) : reads bool :=
  v_trans ← read_u32;
  n_layer ← read_u32;
  cx ← get_ctx;
  if negb (n_layer =? sp_n_layer p) then mret false
  else if kv_size (st_cache cx) <? cell_count then mret false
  else if negb (Bool.eqb (st_v_trans cx) (negb (v_trans =? 0))) then mret false
  else
    ok ← for_true 0 n_layer (read_layer true (sp_n_embd_k p) cell_count);
    if negb ok then mret false
    else if st_v_trans cx then for_true 0 n_layer (read_layer_trans cell_count)
    else for_true 0 n_layer (read_layer false (sp_n_embd_v p) cell_count).

(** [read_kv_cache] *)
Definition read_kv_cache (seq_id : Z) : reads unit :=
  cell_count ← read_u32;
  ok ← read_kv_cache_meta cell_count seq_id;
  ok ← (if ok : bool then read_kv_cache_data cell_count else mret false);
  if ok : bool then mret tt
  else
    _ ← (if seq_id =? -1 then (cx ← get_ctx; put_ctx (clear_kv cx))
         else lift (fun cx => r ← llama_kv_cache_seq_rm (st_cache cx) seq_id (-1) (-1); Ok (tt, set_kv r.2 cx)));
    lift_res (throw "failed to restore kv cache").

(** [llama_state_set_data_internal] and [llama_state_seq_set_data_internal] *)
Definition state_set_data_internal : reads Z := fun s =>
  match (_ ← read_model_info; _ ← read_output_ids; _ ← read_logits; _ ← read_embeddings; read_kv_cache (-1)) s with
  | (s, Ok _) => (s, Ok (rd_size s))
  | (s, Err e) => (s, Err e)
  end.

Definition state_seq_set_data_internal (dest_seq_id : Z) : reads Z := fun s =>
  match read_kv_cache dest_seq_id s with
  | (s, Ok _) => (s, Ok (rd_size s))
  | (s, Err e) => (s, Err e)
  end.
End reading.

(** [llama_state_set_data] and [llama_state_seq_set_data]: the context and the
    number of bytes read, 0 after an exception. *)
Definition llama_state_set_data (p : state_params) (alloc : Z -> option Z) (src : list Z) (cx : state_ctx) : state_ctx * res Z :=
  let r := state_set_data_internal p alloc (mk_reader src 0 cx) in (rd_ctx r.1, on_throw 0 r.2).

Definition llama_state_seq_set_data (p : state_params) (src : list Z) (dest_seq_id : Z) (cx : state_ctx) : state_ctx * res Z :=
  let r := state_seq_set_data_internal p dest_seq_id (mk_reader src 0 cx) in (rd_ctx r.1, on_throw 0 r.2).

(** * Session files *)

(** [LLAMA_SESSION_MAGIC], [LLAMA_SESSION_VERSION], [LLAMA_STATE_SEQ_MAGIC] and
    [LLAMA_STATE_SEQ_VERSION] *)
Definition SESSION_MAGIC : Z := 0x6767736e.
Definition SESSION_VERSION : Z := 9.
Definition SEQ_MAGIC : Z := 0x67677371.
Definition SEQ_VERSION : Z := 2.

(** The part of a file before the state: the prompt. *)
Definition file_header (magic version : Z) (tokens : list Z) : list chunk :=
  [write_u32 magic; write_u32 version; write_u32 (zlen tokens); Raw (concat (le_bytes 4 <$> tokens))].

(** [llama_state_save_file]: the context, the contents of the file and the
    result. The operating system writes what it is given. *)
Definition llama_state_save_file (p : state_params) (cx : state_ctx) (tokens : list Z) : state_ctx * list Z * res bool :=
  let r := write_to None (file_header SESSION_MAGIC SESSION_VERSION tokens ++ (state_chunks p cx).1) in
  ((state_chunks p cx).2, r.1, on_throw false (_ ← r.2; Ok true)).

(** [llama_state_seq_save_file]; the assertion compares the position in the file
    with what was written. *)
Definition llama_state_seq_save_file (p : state_params) (cx : state_ctx) (seq_id : Z) (tokens : list Z) : list Z * res Z :=
  let l := write_kv_cache p cx seq_id in
  let r := write_to None (file_header SEQ_MAGIC SEQ_VERSION tokens ++ l) in
  (r.1, on_throw 0 (_ ← r.2;
    n ← size_written l;
    ggml_assert (zlen r.1 =? 4 * 3 + 4 * zlen tokens + n);;
    Ok (zlen r.1))).

(** The header of a file: the tokens, or nothing when it is not accepted. *)
Definition read_header (magic version capacity : Z) : reads (option (list Z)) :=
  m ← read_u32;
  v ← read_u32;
  if negb (m =? magic) || negb (v =? version) then mret None
  else
    n ← read_u32;
    if capacity <? n then mret None
    else
      l ← read (4 * n);
      mret (Some (i32 <$> words (Z.to_nat n) l)).

(** [llama_state_load_file]: the context, the tokens stored through [tokens_out]
    and [n_token_count_out], and the result. *)
Definition llama_state_load_file (p : state_params) (alloc : Z -> option Z) (file : list Z) (capacity : Z) (cx : state_ctx)
    : state_ctx * option (list Z) * res bool :=
  match read_header SESSION_MAGIC SESSION_VERSION capacity (mk_reader file 0 cx) with
  | (_, Err e) => (cx, None, on_throw false (Err e))
  | (_, Ok None) => (cx, None, Ok false)
  | (s, Ok (Some tokens)) =>
      let r := state_set_data_internal p alloc (mk_reader (rd_left s) 0 cx) in
      (rd_ctx r.1, Some tokens, on_throw false (n_read ← r.2; Ok (n_read =? zlen (rd_left s))))
  end.

(** [llama_state_seq_load_file] *)
Definition llama_state_seq_load_file (p : state_params) (file : list Z) (dest_seq_id capacity : Z) (cx : state_ctx)
    : state_ctx * option (list Z) * res Z :=
  match read_header SEQ_MAGIC SEQ_VERSION capacity (mk_reader file 0 cx) with
  | (_, Err e) => (cx, None, on_throw 0 (Err e))
  | (_, Ok None) => (cx, None, Ok 0)
  | (s, Ok (Some tokens)) =>
      let r := state_seq_set_data_internal p dest_seq_id (mk_reader (rd_left s) 0 cx) in
      let tell := zlen file - zlen (rd_left r.1) in
      (rd_ctx r.1, Some tokens, on_throw 0 (nread ← r.2;
        if nread =? 0 then Ok 0
        else
          ggml_assert (nread <=? zlen (rd_left s));;
          ggml_assert (nread + 4 * 3 + 4 * zlen tokens =? tell);;
          Ok tell))
  end.
