(* ===== verification/StateBytes.v ===== *)
(** The bytes of a saved state: writing as a list of bytes, reading as the
    consumption of a list of bytes, the ranges of cells, and the bytes that
    [write_kv_cache] of State.v produces for the selected cells. *)
From S2P Require Import Prelude Batch KvCache KvSpec KvUpdate Outputs State.

(** * Bytes *)

Lemma i32_u32 x : i32 (u32 x) = i32 x.
Proof.
  unfold i32, u32, wrap_s, wrap_u. change (2 ^ (32 - 1)) with 2147483648. change (2 ^ 32) with 4294967296.
  rewrite Zplus_mod_idemp_l. done.
Qed.

Lemma words_bytes xs : words (length xs) (concat (le_bytes 4 <$> xs)) = u32 <$> xs.
Proof.
  induction xs as [|x xs IH]; [done|]. cbn [length words fmap list_fmap concat].
  pose proof (zlen_le_bytes 4 x) as Hl. unfold zlen in Hl.
  rewrite take_app_length' by lia. rewrite drop_app_length' by lia. by rewrite le_value_4, IH.
Qed.

Lemma zlen_words_bytes xs : zlen (concat (le_bytes 4 <$> xs)) = zlen xs * 4.
Proof. induction xs as [|x xs IH]; [done|]. cbn [fmap list_fmap concat]. rewrite zlen_app, IH, zlen_le_bytes, zlen_cons. lia. Qed.

(** * Writers *)

(** The calls write the bytes. *)
Inductive writes : list chunk -> list Z -> Prop :=
| writes_nil : writes [] []
| writes_cons c l x y : chunk_bytes c = Ok x -> zlen x = chunk_size c -> writes l y -> writes (c :: l) (x ++ y).

Lemma writes_app l k x y : writes l x -> writes k y -> writes (l ++ k) (x ++ y).
Proof.
  intros Hl Hk. induction Hl as [|c l x1 x2 Hc Hs _ IH]; [done|].
  rewrite <- app_assoc. cbn [app]. by constructor.
Qed.

Lemma writes_raw x l y : writes l y -> writes (Raw x :: l) (x ++ y).
Proof. by constructor. Qed.

Lemma writes_last x : writes [Raw x] x.
Proof. pose proof (writes_raw x [] [] writes_nil) as H. by rewrite app_nil_r in H. Qed.

Lemma writes_raws (xs : list (list Z)) : writes (Raw <$> xs) (concat xs).
Proof. induction xs as [|x xs IH]; [constructor|]. by apply writes_raw. Qed.

Lemma writes_concat {A} (f : A -> list chunk) (g : A -> list Z) l :
  (forall a, a ∈ l -> writes (f a) (g a)) -> writes (concat (f <$> l)) (concat (g <$> l)).
Proof.
  induction l as [|a l IH]; intros H; [constructor|]. cbn [fmap list_fmap concat].
  apply writes_app; [apply H, list_elem_of_here|]. apply IH. intros b Hb. by apply H, list_elem_of_further.
Qed.

(** The [n] bytes of a list from [off] on. *)
Definition bytes_at (l : list Z) (off n : Z) : list Z := take (Z.to_nat n) (drop (Z.to_nat off) l).

Lemma zlen_bytes_at l off n : 0 <= off -> 0 <= n -> off + n <= zlen l -> zlen (bytes_at l off n) = n.
Proof. intros. unfold zlen, bytes_at in *. rewrite length_take, length_drop. lia. Qed.

Lemma bytes_at_add l off m n : 0 <= off -> 0 <= m -> 0 <= n -> bytes_at l off (m + n) = bytes_at l off m ++ bytes_at l (off + m) n.
Proof.
  intros. unfold bytes_at. rewrite !Z2Nat.inj_add by lia.
  by rewrite <- (drop_drop l), take_take_drop.
Qed.

Lemma writes_tensor t off size :
  0 <= off -> 0 <= size -> off + size <= zlen (t_data t) -> writes [FromTensor t off size] (bytes_at (t_data t) off size).
Proof.
  intros H1 H2 H3. rewrite <- (app_nil_r (bytes_at _ _ _)). constructor; [|by apply zlen_bytes_at|constructor].
  cbn [chunk_bytes]. unfold tensor_bytes. destruct (Z.leb_spec 0 off); [|lia].
  by destruct (Z.leb_spec (off + size) (zlen (t_data t))); [|lia].
Qed.

Lemma writes_size l x : writes l x -> size_written l = Ok (zlen x).
Proof.
  induction 1 as [|c l x y Hc Hs _ IH]; [done|]. cbn [size_written].
  destruct c; [| |done]; rewrite IH; cbn [mbind res_bind]; by rewrite zlen_app, Hs.
Qed.

Lemma writes_file l x : writes l x -> write_to None l = (x, Ok tt).
Proof. induction 1 as [|c l x y Hc Hs _ IH]; [done|]. cbn [write_to fmap option_fmap option_map]. by rewrite Hc, IH. Qed.

Lemma writes_buffer l x : writes l x -> forall size, zlen x <= size -> write_to (Some size) l = (x, Ok tt).
Proof.
  induction 1 as [|c l x y Hc Hs _ IH]; intros size Hx; [done|]. rewrite zlen_app in Hx. pose proof (zlen_nonneg y).
  cbn [write_to fmap option_fmap option_map]. destruct (Z.ltb_spec size (chunk_size c)); [lia|].
  by rewrite Hc, IH by lia.
Qed.

(** A buffer that is too small is noticed. *)
Lemma writes_short l x : writes l x -> forall size, 0 <= size < zlen x ->
  (write_to (Some size) l).2 = throw "unexpectedly reached end of buffer".
Proof.
  induction 1 as [|c l x y Hc Hs _ IH]; intros size Hx; [change (zlen (@nil Z)) with 0 in Hx; lia|].
  rewrite zlen_app in Hx. cbn [write_to fmap option_fmap option_map]. destruct (Z.ltb_spec size (chunk_size c)); [done|].
  rewrite Hc. cbn [snd]. apply IH. lia.
Qed.

(** * Readers *)

(** [m] reads exactly [bytes], returns [a] and leaves the context [cx']. *)
Definition consumes {A} (m : reads A) (bytes : list Z) (cx cx' : state_ctx) (a : A) : Prop :=
  forall rest n, m (mk_reader (bytes ++ rest) n cx) = (mk_reader rest (n + zlen bytes) cx', Ok a).

Lemma consumes_ret {A} (a : A) cx : consumes (mret a) [] cx cx a.
Proof. intros rest n. cbn. by rewrite Z.add_0_r. Qed.

Lemma consumes_bind {A B} (m : reads A) (f : A -> reads B) b1 b2 cx1 cx2 cx3 a r :
  consumes m b1 cx1 cx2 a -> consumes (f a) b2 cx2 cx3 r -> consumes (m ≫= f) (b1 ++ b2) cx1 cx3 r.
Proof.
  intros Hm Hf rest n. unfold mbind, reads_bind. rewrite <- app_assoc, Hm, Hf. by rewrite zlen_app, Z.add_assoc.
Qed.

(** A step that reads nothing. *)
Lemma consumes_step {A B} (m : reads A) (f : A -> reads B) bytes cx1 cx2 cx3 a r :
  consumes m [] cx1 cx2 a -> consumes (f a) bytes cx2 cx3 r -> consumes (m ≫= f) bytes cx1 cx3 r.
Proof. intros Hm Hf. by apply (consumes_bind m f [] bytes cx1 cx2 cx3 a). Qed.

(** A last piece. *)
Lemma consumes_last {A B} (m : reads A) (f : A -> reads B) bytes cx1 cx2 cx3 a r :
  consumes m bytes cx1 cx2 a -> consumes (f a) [] cx2 cx3 r -> consumes (m ≫= f) bytes cx1 cx3 r.
Proof. intros Hm Hf. rewrite <- (app_nil_r bytes). by apply (consumes_bind m f bytes [] cx1 cx2 cx3 a). Qed.

Lemma consumes_get cx : consumes get_ctx [] cx cx cx.
Proof. intros rest n. cbn. by rewrite Z.add_0_r. Qed.

Lemma consumes_put cx cx' : consumes (put_ctx cx') [] cx cx' tt.
Proof. intros rest n. cbn. by rewrite Z.add_0_r. Qed.

Lemma consumes_lift {A} (f : state_ctx -> res (A * state_ctx)) cx cx' a : f cx = Ok (a, cx') -> consumes (lift f) [] cx cx' a.
Proof. intros Hf rest n. unfold lift. cbn. by rewrite Hf, Z.add_0_r. Qed.

Lemma consumes_res {A} (m : res A) cx a : m = Ok a -> consumes (lift_res m) [] cx cx a.
Proof. intros -> rest n. cbn. by rewrite Z.add_0_r. Qed.

Lemma consumes_read bytes cx size : size = zlen bytes -> consumes (read size) bytes cx cx bytes.
Proof.
  intros -> rest n. unfold read. cbn [rd_left rd_size rd_ctx]. rewrite zlen_app.
  pose proof (zlen_nonneg rest). destruct (Z.ltb_spec (zlen bytes + zlen rest) (zlen bytes)); [lia|].
  rewrite drop_app_length', take_app_length' by (unfold zlen; lia). done.
Qed.

Lemma consumes_u32 x cx : consumes read_u32 (le_bytes 4 x) cx cx (u32 x).
Proof.
  unfold read_u32. rewrite <- (app_nil_r (le_bytes 4 x)). eapply consumes_bind; [by apply consumes_read; rewrite zlen_le_bytes|].
  replace (u32 x) with (le_value (le_bytes 4 x)) by apply le_value_4. apply consumes_ret.
Qed.

Lemma consumes_i32 x cx : consumes read_i32 (le_bytes 4 x) cx cx (i32 x).
Proof.
  unfold read_i32. rewrite <- (app_nil_r (le_bytes 4 x)). eapply consumes_bind; [by apply consumes_read; rewrite zlen_le_bytes|].
  replace (i32 x) with (i32 (le_value (le_bytes 4 x))) by (rewrite le_value_4; apply i32_u32). apply consumes_ret.
Qed.

Lemma consumes_u64 x cx : consumes read_u64 (le_bytes 8 x) cx cx (wrap_u 64 x).
Proof.
  unfold read_u64. rewrite <- (app_nil_r (le_bytes 8 x)). eapply consumes_bind; [by apply consumes_read; rewrite zlen_le_bytes|].
  replace (wrap_u 64 x) with (le_value (le_bytes 8 x)) by apply le_value_8. apply consumes_ret.
Qed.

(** A loop that reads one piece in each iteration. *)
Lemma consumes_for (I : Z -> state_ctx -> Prop) body (bytes : Z -> list Z) n cx :
  0 <= n -> I 0 cx ->
  (forall j c, 0 <= j < n -> I j c -> exists c', consumes (body j) (bytes j) c c' true /\ I (j + 1) c') ->
  exists cx', consumes (for_true 0 n body) (concat (bytes <$> zseq 0 (Z.to_nat n))) cx cx' true /\ I n cx'.
Proof.
  intros Hn H0 Hb. unfold for_true. rewrite Z.sub_0_r.
  assert (Hgen : forall m i c, 0 <= i -> i + Z.of_nat m = n -> I i c ->
    exists cx', consumes (for_ok m i body) (concat (bytes <$> zseq i m)) c cx' true /\ I n cx').
  { induction m as [|m IH]; intros i c Hi Hm Hc; cbn [for_ok].
    - exists c. split; [apply consumes_ret|]. replace n with i by lia. done.
    - destruct (Hb i c ltac:(lia) Hc) as (c1 & H1 & HI). destruct (IH (i + 1) c1 ltac:(lia) ltac:(lia) HI) as (c2 & H2 & HI2).
      exists c2. split; [|done]. rewrite zseq_cons. cbn [fmap list_fmap concat]. eapply consumes_bind; [exact H1|exact H2]. }
  apply Hgen; [lia..|done].
Qed.

(** * The bytes of a state *)

(** The indices of the cells that are saved, from index [i] on. *)
Fixpoint saved_from (seq_id i : Z) (cells : list kv_cell) : list Z :=
  match cells with
  | [] => []
  | c :: cells => if cell_selected seq_id c then i :: saved_from seq_id (i + 1) cells else saved_from seq_id (i + 1) cells
  end.

Definition saved (cache : kv_cache) (seq_id : Z) : list Z := saved_from seq_id 0 (kv_cells cache).

Lemma elem_of_saved_from seq_id cells : forall i x,
  x ∈ saved_from seq_id i cells <-> exists c, i <= x /\ zlookup cells (x - i) = Some c /\ cell_selected seq_id c = true.
Proof.
  induction cells as [|c cells IH]; intros i x; cbn [saved_from].
  - split; [by intros ?%elem_of_nil|]. intros (c & H1 & H2 & _). apply zlookup_Some_lt in H2. change (zlen (@nil kv_cell)) with 0 in H2. lia.
  - assert (Hrest : x ∈ saved_from seq_id (i + 1) cells <->
      exists c0, i < x /\ zlookup (c :: cells) (x - i) = Some c0 /\ cell_selected seq_id c0 = true).
    { rewrite IH. split; intros (c0 & H1 & H2 & H3); exists c0; (split; [lia|]); (split; [|done]).
      - change (c :: cells) with ([c] ++ cells). unfold zlookup in *. destruct (Z.leb_spec 0 (x - (i + 1))); [|done].
        destruct (Z.leb_spec 0 (x - i)); [|lia]. rewrite lookup_app_r by (cbn; lia). rewrite <- H2. f_equal. cbn. lia.
      - change (c :: cells) with ([c] ++ cells) in H2. unfold zlookup in *. destruct (Z.leb_spec 0 (x - (i + 1))); [|lia].
        destruct (Z.leb_spec 0 (x - i)); [|lia]. rewrite lookup_app_r in H2 by (cbn; lia). rewrite <- H2. f_equal. cbn. lia. }
    destruct (cell_selected seq_id c) eqn:Ec.
    + rewrite elem_of_cons, Hrest. split.
      * intros [->|(c0 & H1 & H2)]; [exists c; rewrite Z.sub_diag; done|]. exists c0. split; [lia|done].
      * intros (c0 & H1 & H2 & H3). destruct (decide (x = i)); [by left|right]. exists c0. split; [lia|done].
    + rewrite Hrest. split; intros (c0 & H1 & H2 & H3); exists c0; (split; [|done]); [lia|].
      destruct (decide (x = i)) as [->|]; [|lia]. rewrite Z.sub_diag in H2. injection H2 as <-. congruence.
Qed.

Lemma elem_of_saved cache seq_id x :
  x ∈ saved cache seq_id <-> exists c, zlookup (kv_cells cache) x = Some c /\ cell_selected seq_id c = true.
Proof.
  unfold saved. rewrite elem_of_saved_from. setoid_rewrite Z.sub_0_r.
  split; [naive_solver|]. intros (c & Hc & Hs). exists c. split; [|done]. apply zlookup_Some_lt in Hc. lia.
Qed.

Lemma zlen_saved_from seq_id cells : forall i,
  zlen (saved_from seq_id i cells) = zlen (filter (fun c => cell_selected seq_id c = true) cells).
Proof.
  induction cells as [|c cells IH]; intros i; [done|]. cbn [saved_from]. rewrite filter_cons.
  destruct (cell_selected seq_id c) eqn:E; [rewrite decide_True by done; by rewrite !zlen_cons, IH|].
  rewrite decide_False by done. apply IH.
Qed.

Lemma NoDup_saved_from seq_id cells : forall i, NoDup (saved_from seq_id i cells).
Proof.
  induction cells as [|c cells IH]; intros i; cbn [saved_from]; [constructor|].
  destruct (cell_selected seq_id c); [|done]. constructor; [|done]. rewrite elem_of_saved_from. intros (? & ? & _). lia.
Qed.

Definition range_cells (r : Z * Z) : list Z := zseq r.1 (Z.to_nat (r.2 - r.1)).

Lemma zseq_join a b n : a <= b -> zseq a (Z.to_nat (b - a)) ++ zseq b n = zseq a (Z.to_nat (b - a) + n).
Proof.
  intros. replace b with (a + (b - a)) at 2 by lia. replace n with (Z.to_nat (Z.of_nat n)) at 1 by lia.
  rewrite <- zseq_app by lia. f_equal. lia.
Qed.

(** The ranges are the saved cells, in order. *)
Lemma cell_ranges_spec seq_id cells : forall i size begin,
  0 <= i -> size = i + zlen cells -> begin = size \/ 0 <= begin < i ->
  let ranges := cell_ranges size seq_id i cells begin in
  concat (range_cells <$> ranges) =
    (if begin =? size then [] else zseq begin (Z.to_nat (i - begin))) ++ saved_from seq_id i cells /\
  Forall (fun r => 0 <= r.1 < r.2 /\ r.2 <= size) ranges.
Proof.
  induction cells as [|c cells IH]; intros i size begin Hi Hs Hb; cbn [cell_ranges saved_from].
  - change (zlen (@nil kv_cell)) with 0 in Hs. destruct (Z.eqb_spec begin size) as [->|]; [done|]. cbn. split; [|constructor; [cbn; lia|constructor]].
    unfold range_cells. cbn. by replace (size - begin) with (i - begin) by lia.
  - rewrite zlen_cons in Hs. pose proof (zlen_nonneg cells).
    destruct (cell_selected seq_id c).
    + destruct (IH (i + 1) size (if begin =? size then i else begin)) as [E F]; [lia..|destruct (Z.eqb_spec begin size); lia|].
      split; [|done]. rewrite E. destruct (Z.eqb_spec begin size) as [->|Hne].
      * destruct (Z.eqb_spec i size); [lia|]. replace (Z.to_nat (i + 1 - i)) with 1%nat by lia. by rewrite zseq_cons.
      * destruct (Z.eqb_spec begin size); [lia|]. replace (Z.to_nat (i + 1 - begin)) with (Z.to_nat (i - begin) + 1)%nat by lia.
        rewrite <- zseq_join by lia. rewrite zseq_cons. cbn [app]. by rewrite <- app_assoc.
    + destruct (Z.eqb_spec begin size) as [->|Hne].
      * destruct (IH (i + 1) size size) as [E F]; [lia..|]. rewrite Z.eqb_refl in E. done.
      * destruct (IH (i + 1) size size) as [E F]; [lia..|]. rewrite Z.eqb_refl in E. cbn [fmap list_fmap concat].
        split; [by rewrite E|]. constructor; [cbn; lia|done].
Qed.

Lemma zlen_range_cells ranges : Forall (fun r : Z * Z => 0 <= r.1 < r.2) ranges ->
  zlen (concat (range_cells <$> ranges)) = zsum ((fun r => r.2 - r.1) <$> ranges).
Proof.
  induction 1 as [|r ranges Hr _ IH]; [done|]. cbn [fmap list_fmap concat]. rewrite zlen_app, zsum_cons, IH.
  unfold range_cells. rewrite zlen_zseq; lia.
Qed.

(** A loop that appends. *)
Lemma for_z_appends {A} (body : Z -> list A -> res (list A)) (g : Z -> list A) lo hi acc :
  (forall i acc, lo <= i < hi -> body i acc = Ok (acc ++ g i)) ->
  for_z lo hi body acc = Ok (acc ++ concat (g <$> zseq lo (Z.to_nat (hi - lo)))).
Proof.
  unfold for_z. remember (Z.to_nat (hi - lo)) as n eqn:En. revert lo acc En.
  induction n as [|n IH]; intros lo acc En H; cbn [for_n]; [by rewrite app_nil_r|].
  rewrite H by lia. cbn [mbind res_bind]. rewrite (IH (lo + 1)); [|lia|intros i a Hi; apply H; lia].
  rewrite zseq_cons. cbn [fmap list_fmap concat]. by rewrite app_assoc.
Qed.

Lemma concat_fmap_concat {A B C} (f : B -> list C) (g : A -> list B) l :
  concat ((fun a => concat (f <$> g a)) <$> l) = concat (f <$> concat (g <$> l)).
Proof. induction l as [|a l IH]; [done|]. cbn [fmap list_fmap concat]. by rewrite IH, fmap_app, concat_app. Qed.

(** ** Cells *)

Definition cell_bytes (seq_id : Z) (c : kv_cell) : list Z :=
  let n := if seq_id =? -1 then Z.of_nat (size (c_seq_id c)) else 0 in
  le_bytes 4 (c_pos c) ++ le_bytes 4 n ++
  (if n =? 0 then [] else concat (le_bytes 4 <$> merge_sort Z.le (elements (c_seq_id c)))).

Lemma writes_cell seq_id c : writes (write_cell seq_id c) (cell_bytes seq_id c).
Proof.
  unfold write_cell, cell_bytes. set (n := if _ =? _ then _ else _). apply writes_raw, writes_raw.
  destruct (n =? 0); [constructor|]. unfold write_u32. rewrite (list_fmap_compose (le_bytes 4) Raw). apply writes_raws.
Qed.

Definition cell_of (cache : kv_cache) (i : Z) : kv_cell := default cell_init (zlookup (kv_cells cache) i).

Definition meta_bytes (cache : kv_cache) (seq_id : Z) : list Z :=
  concat ((fun i => cell_bytes seq_id (cell_of cache i)) <$> saved cache seq_id).

Definition the_ranges (cache : kv_cache) (seq_id : Z) : list (Z * Z) :=
  cell_ranges (kv_size cache) seq_id 0 (kv_cells cache) (kv_size cache).

Lemma the_ranges_spec cache seq_id :
  concat (range_cells <$> the_ranges cache seq_id) = saved cache seq_id /\
  Forall (fun r => 0 <= r.1 < r.2 /\ r.2 <= kv_size cache) (the_ranges cache seq_id).
Proof.
  destruct (cell_ranges_spec seq_id (kv_cells cache) 0 (kv_size cache) (kv_size cache)) as [E F]; [done|done|by left|].
  rewrite Z.eqb_refl in E. done.
Qed.

Lemma meta_writes cache seq_id :
  writes (calls (write_kv_cache_meta (kv_cells cache) (the_ranges cache seq_id) seq_id)) (meta_bytes cache seq_id).
Proof.
  destruct (the_ranges_spec cache seq_id) as [E F]. unfold meta_bytes. rewrite <- E. clear E.
  assert (Hg : forall ranges acc, Forall (fun r : Z * Z => 0 <= r.1 < r.2 /\ r.2 <= kv_size cache) ranges ->
    foldM (fun acc '(a, b) => for_z a b (fun i acc => c ← vget (kv_cells cache) i; Ok (acc ++ write_cell seq_id c)) acc) acc ranges =
    Ok (acc ++ concat ((fun i => write_cell seq_id (cell_of cache i)) <$> concat (range_cells <$> ranges)))).
  { induction ranges as [|[a b] ranges IH]; intros acc HF; cbn [foldM]; [by rewrite app_nil_r|].
    apply Forall_cons in HF as [Hr HF]. cbn in Hr.
    rewrite (for_z_appends _ (fun i => write_cell seq_id (cell_of cache i))).
    - cbn [mbind res_bind]. rewrite IH by done. cbn [fmap list_fmap concat]. by rewrite fmap_app, concat_app, app_assoc.
    - intros i acc' Hi. destruct (zlookup_lt (kv_cells cache) i) as [c Hc]; [unfold kv_size in *; lia|].
      rewrite (vget_Some _ _ _ Hc). unfold cell_of. by rewrite Hc. }
  unfold write_kv_cache_meta. rewrite Hg by done. cbn [app calls]. apply writes_concat. intros i _. apply writes_cell.
Qed.

(** ** Tensors *)

(** The bytes of row [i] among rows of [n] bytes that start at [base]. *)
Definition row_at (t : tensor) (base n i : Z) : list Z := bytes_at (t_data t) (base + i * n) n.

(** Adjacent rows. *)
Lemma row_at_join t base n m : forall a, 0 <= base -> 0 <= n -> 0 <= a ->
  bytes_at (t_data t) (base + a * n) (Z.of_nat m * n) = concat (row_at t base n <$> zseq a m).
Proof.
  induction m as [|m IH]; intros a Hb Hn Ha; [done|]. rewrite zseq_cons. cbn [fmap list_fmap concat].
  rewrite <- IH by lia. unfold row_at. replace (Z.of_nat (S m) * n) with (n + Z.of_nat m * n) by lia.
  rewrite bytes_at_add by nia. by replace (base + (a + 1) * n) with (base + a * n + n) by lia.
Qed.

(** What the code relies on in the tensors: one for each layer, large enough for
    the cells, with sizes of the width of the code; the offsets of the transposed
    values fit into 32 bits. *)
Record ctx_shape (p : state_params) (cx : state_ctx) : Prop := {
  cs_layers : 0 <= sp_n_layer p < 4294967296;
  cs_k_len  : zlen (st_k cx) = sp_n_layer p;
  cs_v_len  : zlen (st_v cx) = sp_n_layer p;
  cs_k      : forall il t, zlookup (st_k cx) il = Some t ->
                0 <= t_type t <= INT32_MAX /\
                0 <= sp_row_size p (t_type t) (sp_n_embd_k p il) < 18446744073709551616 /\
                kv_size (st_cache cx) * sp_row_size p (t_type t) (sp_n_embd_k p il) <= zlen (t_data t);
  cs_v      : forall il t, zlookup (st_v cx) il = Some t ->
                0 <= t_type t <= INT32_MAX /\
                if st_v_trans cx then
                  0 < sp_type_size p (t_type t) < 4294967296 /\ 0 <= sp_n_embd_v p il < 4294967296 /\
                  sp_n_embd_v p il * kv_size (st_cache cx) * sp_type_size p (t_type t) < 4294967296 /\
                  sp_n_embd_v p il * kv_size (st_cache cx) * sp_type_size p (t_type t) <= zlen (t_data t)
                else
                  0 <= sp_row_size p (t_type t) (sp_n_embd_v p il) < 18446744073709551616 /\
                  kv_size (st_cache cx) * sp_row_size p (t_type t) (sp_n_embd_v p il) <= zlen (t_data t);
  cs_size   : kv_size (st_cache cx) <= KV_SIZE_MAX
}.

Definition tensor_of (l : list tensor) (il : Z) : tensor := default (mk_tensor 0 []) (zlookup l il).

Section bytes.
Context (p : state_params).

Definition k_row (t : tensor) (il : Z) : Z := sp_row_size p (t_type t) (sp_n_embd_k p il).
Definition v_row (t : tensor) (il : Z) : Z := sp_row_size p (t_type t) (sp_n_embd_v p il).
Definition v_el (t : tensor) : Z := sp_type_size p (t_type t).

(** The bytes of a layer for the cells [l]. *)
Definition rows_bytes (t : tensor) (n : Z) (l : list Z) : list Z :=
  le_bytes 4 (t_type t) ++ le_bytes 8 n ++ concat (row_at t 0 n <$> l).

Definition column_bytes (t : tensor) (size : Z) (l : list Z) (j : Z) : list Z :=
  concat (row_at t (j * size * v_el t) (v_el t) <$> l).

Definition trans_bytes (t : tensor) (size n : Z) (l : list Z) : list Z :=
  le_bytes 4 (t_type t) ++ le_bytes 4 (v_el t) ++ le_bytes 4 n ++
  concat (column_bytes t size l <$> zseq 0 (Z.to_nat n)).

Definition k_bytes (cx : state_ctx) (l : list Z) (il : Z) : list Z :=
  let t := tensor_of (st_k cx) il in rows_bytes t (k_row t il) l.

Definition v_bytes (cx : state_ctx) (l : list Z) (il : Z) : list Z :=
  let t := tensor_of (st_v cx) il in
  if st_v_trans cx then trans_bytes t (kv_size (st_cache cx)) (sp_n_embd_v p il) l else rows_bytes t (v_row t il) l.

Definition layers : list Z := zseq 0 (Z.to_nat (sp_n_layer p)).

Definition data_bytes (cx : state_ctx) (l : list Z) : list Z :=
  le_bytes 4 (if st_v_trans cx then 1 else 0) ++ le_bytes 4 (sp_n_layer p) ++
  concat (k_bytes cx l <$> layers) ++ concat (v_bytes cx l <$> layers).

Definition kv_bytes (cx : state_ctx) (seq_id : Z) : list Z :=
  let l := saved (st_cache cx) seq_id in
  le_bytes 4 (zlen l) ++ meta_bytes (st_cache cx) seq_id ++ data_bytes cx l.

(** Ranges of rows. *)
Lemma writes_ranges t base n size ranges (f : Z * Z -> chunk) :
  0 <= base -> 0 <= n -> base + size * n <= zlen (t_data t) ->
  Forall (fun r : Z * Z => 0 <= r.1 < r.2 /\ r.2 <= size) ranges ->
  (forall a b, 0 <= a < b -> b <= size -> f (a, b) = FromTensor t (base + a * n) ((b - a) * n)) ->
  writes (f <$> ranges) (concat (row_at t base n <$> concat (range_cells <$> ranges))).
Proof.
  intros Hb Hn Hd HF Hf. induction HF as [|[a b] ranges Hr _ IH]; [constructor|]. cbn in Hr.
  cbn [fmap list_fmap concat]. rewrite fmap_app, concat_app. change (f (a, b) :: (f <$> ranges)) with ([f (a, b)] ++ (f <$> ranges)).
  apply writes_app; [|exact IH]. rewrite Hf by lia. unfold range_cells. cbn [fst snd].
  rewrite <- row_at_join by lia. replace (Z.of_nat (Z.to_nat (b - a)) * n) with ((b - a) * n) by nia.
  apply writes_tensor; nia.
Qed.

Lemma writes_rows t n cache seq_id :
  0 <= n -> kv_size cache * n <= zlen (t_data t) ->
  writes (write_rows t n (the_ranges cache seq_id)) (concat (row_at t 0 n <$> saved cache seq_id)).
Proof.
  intros Hn Hd. destruct (the_ranges_spec cache seq_id) as [E F]. rewrite <- E. unfold write_rows.
  apply (writes_ranges t 0 n (kv_size cache)); [lia|done|lia|done|]. intros a b Ha Hb. cbn. done.
Qed.

Lemma each_layer_appends f g :
  (forall il, 0 <= il < sp_n_layer p -> f il = Ok (g il)) -> each_layer p f = Ok (concat (g <$> layers)).
Proof.
  intros H. unfold each_layer, layers.
  rewrite (for_z_appends _ g); [by rewrite Z.sub_0_r|]. intros i acc Hi. by rewrite H.
Qed.

Section write.
Context (cx : state_ctx) (seq_id : Z) (Hshape : ctx_shape p cx).

Definition k_layer_chunks (il : Z) : list chunk :=
  let t := tensor_of (st_k cx) il in
  write_u32 (t_type t) :: write_u64 (k_row t il) :: write_rows t (k_row t il) (the_ranges (st_cache cx) seq_id).

Definition v_layer_chunks (il : Z) : list chunk :=
  let t := tensor_of (st_v cx) il in
  if st_v_trans cx then
    write_u32 (t_type t) :: write_u32 (v_el t) :: write_u32 (sp_n_embd_v p il) ::
    concat ((fun j => (fun '(a, b) => FromTensor t (v_offset a j (kv_size (st_cache cx)) (v_el t)) ((b - a) * v_el t))
       <$> the_ranges (st_cache cx) seq_id) <$> zseq 0 (Z.to_nat (sp_n_embd_v p il)))
  else write_u32 (t_type t) :: write_u64 (v_row t il) :: write_rows t (v_row t il) (the_ranges (st_cache cx) seq_id).

Lemma vget_layer l il : zlen l = sp_n_layer p -> 0 <= il < sp_n_layer p -> zlookup l il = Some (tensor_of l il).
Proof using.
  intros Hl Hil. destruct (zlookup_lt l il) as [t Ht]; [lia|]. unfold tensor_of. by rewrite Ht.
Qed.

Lemma k_layer_writes il : 0 <= il < sp_n_layer p ->
  write_layer p (sp_n_embd_k p) (st_k cx) (the_ranges (st_cache cx) seq_id) il = Ok (k_layer_chunks il) /\
  writes (k_layer_chunks il) (k_bytes cx (saved (st_cache cx) seq_id) il).
Proof using Hshape.
  intros Hil. pose proof (vget_layer (st_k cx) il (cs_k_len _ _ Hshape) Hil) as Ht.
  destruct (cs_k _ _ Hshape il _ Ht) as (H1 & H2 & H3).
  unfold write_layer. rewrite (vget_Some _ _ _ Ht). split; [done|]. unfold k_layer_chunks, k_bytes, rows_bytes.
  apply writes_raw, writes_raw, writes_rows; [unfold k_row; lia|exact H3].
Qed.

Lemma v_layer_writes il : 0 <= il < sp_n_layer p ->
  (if st_v_trans cx then write_layer_trans p (kv_size (st_cache cx)) (st_v cx) (the_ranges (st_cache cx) seq_id) il
   else write_layer p (sp_n_embd_v p) (st_v cx) (the_ranges (st_cache cx) seq_id) il) = Ok (v_layer_chunks il) /\
  writes (v_layer_chunks il) (v_bytes cx (saved (st_cache cx) seq_id) il).
Proof using Hshape.
  intros Hil. pose proof (vget_layer (st_v cx) il (cs_v_len _ _ Hshape) Hil) as Ht.
  destruct (cs_v _ _ Hshape il _ Ht) as (H1 & H2). unfold v_layer_chunks, v_bytes. destruct (st_v_trans cx).
  - destruct H2 as (H2 & H3 & H4 & H5). unfold write_layer_trans. rewrite (vget_Some _ _ _ Ht). cbn [mbind res_bind].
    split; [unfold v_el; by rewrite u32_small by lia|]. unfold trans_bytes. apply writes_raw, writes_raw, writes_raw.
    apply writes_concat. intros j Hj%elem_of_zseq. destruct (the_ranges_spec (st_cache cx) seq_id) as [E F].
    unfold column_bytes. rewrite <- E. set (t := tensor_of (st_v cx) il) in *. pose proof (zlen_nonneg (kv_cells (st_cache cx))) as Hk0.
    change (zlen (kv_cells (st_cache cx))) with (kv_size (st_cache cx)) in Hk0. unfold v_el. set (el := sp_type_size p (t_type t)) in *.
    set (size := kv_size (st_cache cx)) in *. set (n := sp_n_embd_v p il) in *.
    assert (Hnj : (j + 1) * size * el <= n * size * el) by (apply Z.mul_le_mono_nonneg_r; [lia|]; apply Z.mul_le_mono_nonneg_r; lia).
    apply (writes_ranges t (j * size * el) el size); [nia|lia|nia|done|].
    intros a b Ha Hb. unfold v_offset.
    assert (a + j * size < (j + 1) * size) by nia. assert ((a + j * size) * el <= (j + 1) * size * el) by (apply Z.mul_le_mono_nonneg_r; lia).
    assert (a + j * size <= (a + j * size) * el) by nia.
    rewrite (u32_small (a + j * size)) by nia. rewrite u32_small by nia. f_equal. lia.
  - destruct H2 as (H2 & H3). unfold write_layer. rewrite (vget_Some _ _ _ Ht). split; [done|]. unfold rows_bytes.
    apply writes_raw, writes_raw, writes_rows; [unfold v_row; lia|exact H3].
Qed.

Lemma writes_layers (f : Z -> list chunk) (g : Z -> list Z) :
  (forall il, 0 <= il < sp_n_layer p -> writes (f il) (g il)) ->
  writes (concat (f <$> layers)) (concat (g <$> layers)).
Proof using. intros H. apply writes_concat. intros il Hil%elem_of_zseq. apply H. lia. Qed.

(** [write_kv_cache] succeeds and writes the bytes of the selected cells. *)
Lemma kv_cache_writes : writes (write_kv_cache p cx seq_id) (kv_bytes cx seq_id).
Proof using Hshape.
  destruct (the_ranges_spec (st_cache cx) seq_id) as [E F]. unfold write_kv_cache.
  fold (the_ranges (st_cache cx) seq_id).
  rewrite <- (zlen_saved_from seq_id (kv_cells (st_cache cx)) 0). fold (saved (st_cache cx) seq_id).
  rewrite <- zlen_range_cells by (eapply Forall_impl; [exact F|]; cbn; lia). rewrite E, Z.eqb_refl. cbn [negb].
  unfold kv_bytes. apply writes_raw, writes_app; [apply meta_writes|].
  unfold write_kv_cache_data.
  rewrite (each_layer_appends (write_layer p (sp_n_embd_k p) (st_k cx) (the_ranges (st_cache cx) seq_id)) k_layer_chunks)
    by (intros; by apply k_layer_writes). cbn [mbind res_bind].
  assert (Hv : (if st_v_trans cx then each_layer p (write_layer_trans p (kv_size (st_cache cx)) (st_v cx) (the_ranges (st_cache cx) seq_id))
    else each_layer p (write_layer p (sp_n_embd_v p) (st_v cx) (the_ranges (st_cache cx) seq_id))) = Ok (concat (v_layer_chunks <$> layers))).
  { destruct (st_v_trans cx) eqn:Ev; apply each_layer_appends; intros il Hil; destruct (v_layer_writes il Hil) as [H _]; by rewrite Ev in H. }
  rewrite Hv. cbn [mbind res_bind calls]. unfold data_bytes. apply writes_raw, writes_raw, writes_app; apply writes_layers.
  - intros il Hil. by apply k_layer_writes.
  - intros il Hil. by apply v_layer_writes.
Qed.
End write.
End bytes.
