(* ===== verification/StateRead.v ===== *)
(** Reading the key/value cache back: the tensors of one layer and of all layers,
    with rows and with transposed values, and the cells of the whole cache. *)
From S2P Require Import Prelude Batch KvCache KvSpec KvUpdate Outputs State StateBytes.

(** * Reading the tensors *)

(** A tensor after a store. *)
Definition put_bytes (t : tensor) (off : Z) (b : list Z) : tensor :=
  mk_tensor (t_type t) (take (Z.to_nat off) (t_data t) ++ b ++ drop (Z.to_nat (off + zlen b)) (t_data t)).

Section put_bytes.
Context (t : tensor) (off : Z) (b : list Z) (Hoff : 0 <= off) (Hfit : off + zlen b <= zlen (t_data t)).

Lemma zlen_put_bytes : zlen (t_data (put_bytes t off b)) = zlen (t_data t).
Proof using Hoff Hfit. unfold put_bytes, zlen in *. cbn. rewrite !length_app, length_take, length_drop. lia. Qed.

Lemma tensor_store_ok : tensor_store t off b = Ok (put_bytes t off b).
Proof using Hoff Hfit.
  unfold tensor_store. destruct (Z.leb_spec 0 off); [|lia]. by destruct (Z.leb_spec (off + zlen b) (zlen (t_data t))); [|lia].
Qed.

(** Inside, before and after the bytes that were stored. *)
Lemma put_bytes_inside q n :
  off <= q -> 0 <= n -> q + n <= off + zlen b -> bytes_at (t_data (put_bytes t off b)) q n = bytes_at b (q - off) n.
Proof using Hoff Hfit.
  intros H1 H2 H3. unfold put_bytes, bytes_at, zlen in *. cbn [t_data].
  rewrite drop_app_ge by (rewrite length_take; lia). rewrite length_take, Nat.min_l by lia.
  rewrite drop_app_le by lia. rewrite take_app_le by (rewrite length_drop; lia). do 2 f_equal. lia.
Qed.

Lemma put_bytes_before q n :
  0 <= q -> 0 <= n -> q + n <= off -> bytes_at (t_data (put_bytes t off b)) q n = bytes_at (t_data t) q n.
Proof using Hoff Hfit.
  intros H1 H2 H3. unfold put_bytes, bytes_at, zlen in *. cbn [t_data].
  rewrite drop_app_le by (rewrite length_take; lia). rewrite take_app_le by (rewrite length_drop, length_take; lia).
  rewrite <- (take_drop (Z.to_nat off) (t_data t)) at 2. rewrite drop_app_le by (rewrite length_take; lia).
  by rewrite take_app_le by (rewrite length_drop, length_take; lia).
Qed.

Lemma put_bytes_after q n :
  off + zlen b <= q -> 0 <= n -> bytes_at (t_data (put_bytes t off b)) q n = bytes_at (t_data t) q n.
Proof using Hoff Hfit.
  intros H1 H2. unfold put_bytes, bytes_at, zlen in *. cbn [t_data].
  rewrite drop_app_ge by (rewrite length_take; lia). rewrite length_take, Nat.min_l by lia.
  rewrite drop_app_ge by lia. rewrite drop_drop. do 2 f_equal. lia.
Qed.
End put_bytes.

(** A row of a list of rows. *)
Lemma bytes_at_concat {A} (f : A -> list Z) n l : 0 <= n -> (forall a, a ∈ l -> zlen (f a) = n) ->
  forall k a, zlookup l k = Some a -> bytes_at (concat (f <$> l)) (k * n) n = f a.
Proof.
  intros Hn Hf k a Hk. pose proof (zlookup_Some_lt _ _ _ Hk) as Hr. revert k Hk Hr.
  induction l as [|x l IH]; intros k Hk Hr; [change (zlen (@nil A)) with 0 in Hr; lia|].
  assert (Hx : zlen (f x) = n) by apply Hf, list_elem_of_here. cbn [fmap list_fmap concat].
  destruct (decide (k = 0)) as [->|Hk0].
  - injection Hk as ->. unfold bytes_at. rewrite drop_0 by lia. rewrite take_app_le by (unfold zlen in Hx; lia).
    rewrite take_ge; [done|unfold zlen in Hx; lia].
  - rewrite zlen_cons in Hr. rewrite <- (IH ltac:(intros; by apply Hf, list_elem_of_further) (k - 1)).
    + unfold bytes_at. rewrite drop_app_ge by (unfold zlen in Hx; nia). do 2 f_equal. unfold zlen in Hx. nia.
    + unfold zlookup in *. destruct (Z.leb_spec 0 k); [|lia]. destruct (Z.leb_spec 0 (k - 1)); [|lia].
      replace (Z.to_nat k) with (S (Z.to_nat (k - 1))) in Hk by lia. done.
    + lia.
Qed.

Lemma zlen_concat {A} (f : A -> list Z) n l : (forall a, a ∈ l -> zlen (f a) = n) -> zlen (concat (f <$> l)) = zlen l * n.
Proof.
  intros Hf. induction l as [|x l IH]; [done|]. cbn [fmap list_fmap concat]. rewrite zlen_app, zlen_cons, IH, Hf.
  - lia.
  - apply list_elem_of_here.
  - intros a Ha. by apply Hf, list_elem_of_further.
Qed.

(** The rows [l] of [s], from [base] on, are in [t'] from row [head] on at [base'];
    the other ones of the [size] rows there are those of [t]. *)
Definition rows_moved (s t t' : tensor) (base base' n head size : Z) (l : list Z) : Prop :=
  (forall k i, zlookup l k = Some i -> row_at t' base' n (head + k) = row_at s base n i) /\
  (forall i, 0 <= i < size -> i < head \/ head + zlen l <= i -> row_at t' base' n i = row_at t base' n i).

Definition same_shape (t t' : tensor) : Prop := t_type t' = t_type t /\ zlen (t_data t') = zlen (t_data t).

Lemma rows_moved_put s t base base' n head l size size' :
  0 <= base -> 0 <= base' -> 0 <= n -> 0 <= head ->
  (forall i, i ∈ l -> 0 <= i < size) -> base + size * n <= zlen (t_data s) ->
  base' + (head + zlen l) * n <= zlen (t_data t) ->
  let b := concat (row_at s base n <$> l) in
  zlen b = zlen l * n /\ rows_moved s t (put_bytes t (base' + head * n) b) base base' n head size' l.
Proof.
  intros Hb Hb' Hn Hh Hl Hs Ht b.
  assert (Hrow : forall i, i ∈ l -> zlen (row_at s base n i) = n).
  { intros i Hi. specialize (Hl i Hi). unfold row_at. apply zlen_bytes_at; nia. }
  assert (Hlen : zlen b = zlen l * n) by by apply zlen_concat.
  split; [done|]. pose proof (zlen_nonneg l). split.
  - intros k i Hk. pose proof (zlookup_Some_lt _ _ _ Hk) as Hr. unfold row_at.
    rewrite put_bytes_inside by (rewrite ?Hlen; nia). transitivity (bytes_at b (k * n) n); [f_equal; lia|].
    by apply (bytes_at_concat (row_at s base n)).
  - intros i Hi [Hlt|Hge]; unfold row_at.
    + apply put_bytes_before; try (rewrite ?Hlen); nia.
    + apply put_bytes_after; try (rewrite ?Hlen); nia.
Qed.

(** ** One tensor *)

Definition tensors (keys : bool) (cx : state_ctx) : list tensor := if keys then st_k cx else st_v cx.

Definition set_list (keys : bool) (l : list tensor) (cx : state_ctx) : state_ctx :=
  if keys then set_tensors l (st_v cx) cx else set_tensors (st_k cx) l cx.

Definition with_tensor (keys : bool) (il : Z) (t : tensor) (cx : state_ctx) : state_ctx :=
  set_list keys (<[Z.to_nat il := t]> (tensors keys cx)) cx.

Lemma set_list_same keys cx : set_list keys (tensors keys cx) cx = cx.
Proof. by destruct cx, keys. Qed.

Lemma set_list_twice keys l k cx : set_list keys l (set_list keys k cx) = set_list keys l cx.
Proof. by destruct keys. Qed.

Lemma tensors_set_list keys l cx : tensors keys (set_list keys l cx) = l.
Proof. by destruct keys. Qed.

Lemma consumes_store keys cx il t off b :
  zlookup (tensors keys cx) il = Some t -> 0 <= off -> off + zlen b <= zlen (t_data t) ->
  consumes (store keys il off b) [] cx (with_tensor keys il (put_bytes t off b) cx) tt.
Proof.
  intros Ht Hoff Hfit. apply consumes_lift. fold (tensors keys cx). rewrite (vget_Some _ _ _ Ht). cbn [mbind res_bind].
  rewrite tensor_store_ok by done. cbn [mbind res_bind]. rewrite vset_at by by apply zlookup_Some_lt in Ht. by destruct keys.
Qed.

Lemma tensor_of_insert l il t i :
  0 <= il < zlen l -> 0 <= i -> tensor_of (<[Z.to_nat il := t]> l) i = if decide (il = i) then t else tensor_of l i.
Proof. intros Hil Hi. unfold tensor_of. rewrite zlookup_insert by done. by case_decide. Qed.

Section read.
Context (p : state_params).

(** A layer of rows. *)
Lemma read_layer_consumes keys n_embd s l il cx t size size' :
  let n := sp_row_size p (t_type s) (n_embd il) in
  let head := kv_head (st_cache cx) in
  zlookup (tensors keys cx) il = Some t -> t_type t = t_type s ->
  0 <= t_type s <= INT32_MAX -> 0 <= n < 18446744073709551616 -> 0 <= head ->
  (forall i, i ∈ l -> 0 <= i < size) -> size * n <= zlen (t_data s) -> (head + zlen l) * n <= zlen (t_data t) ->
  exists t', consumes (read_layer p keys n_embd (zlen l) il) (rows_bytes s n l) cx (with_tensor keys il t' cx) true /\
    same_shape t t' /\ rows_moved s t t' 0 0 n head size' l.
Proof.
  intros n head Ht Htype Hty Hn Hhead Hl Hs Hd. pose proof (zlen_nonneg l) as Hl0.
  destruct (rows_moved_put s t 0 0 n head l size size') as [Hlen Hmoved]; [lia..|done|lia|lia|].
  set (b := concat (row_at s 0 n <$> l)) in *.
  exists (if zlen l =? 0 then t else put_bytes t (head * n) b).
  assert (Hq : 0 <= head * n) by nia. assert (Hq2 : head * n + zlen b <= zlen (t_data t)) by nia.
  split.
  - unfold read_layer, rows_bytes. eapply consumes_step; [apply consumes_get|]. cbn beta.
    eapply consumes_bind; [apply consumes_i32|]. rewrite i32_small by (unfold INT32_MIN; lia). cbn beta.
    eapply consumes_step; [apply consumes_res; fold (tensors keys cx); by apply vget_Some|]. cbn beta.
    rewrite Htype, Z.eqb_refl. cbn [negb]. fold n.
    eapply consumes_bind; [apply consumes_u64|]. cbn beta. fold n.
    replace (wrap_u 64 n) with n by (unfold wrap_u; rewrite Z.mod_small; lia). rewrite Z.eqb_refl. cbn [negb]. fold b.
    destruct (Z.eqb_spec (zlen l) 0) as [E|E].
    + destruct l; [|rewrite zlen_cons in E; pose proof (zlen_nonneg l); lia]. cbn.
      replace (with_tensor keys il t cx) with cx; [apply consumes_ret|]. unfold with_tensor.
      rewrite list_insert_id; [by rewrite set_list_same|]. unfold zlookup in Ht. by destruct (0 <=? il).
    + eapply consumes_last; [apply consumes_read; lia|]. cbn beta. fold head.
      eapply consumes_step; [apply (consumes_store keys cx il t); [done|lia|lia]|]. apply consumes_ret.
  - destruct (Z.eqb_spec (zlen l) 0) as [E|E].
    + split; [done|]. split; [|done]. intros k i Hk%zlookup_Some_lt. lia.
    + split; [split; [done|by apply zlen_put_bytes]|exact Hmoved].
Qed.

(** Another column of the transposed values. *)
Lemma other_column t b el size head j j' i :
  0 < el -> 0 <= head -> zlen b <= (size - head) * el -> 0 <= j -> 0 <= j' -> j <> j' -> 0 <= i < size ->
  (j + 1) * size * el <= zlen (t_data t) ->
  row_at (put_bytes t (j * size * el + head * el) b) (j' * size * el) el i = row_at t (j' * size * el) el i.
Proof.
  intros He Hh Hb Hj Hj' Hne Hi Hd. pose proof (zlen_nonneg b). unfold row_at.
  assert (Hcol : forall a c, a + 1 <= c -> a * size * el + size * el <= c * size * el).
  { intros a c Hac. replace (a * size * el + size * el) with ((a + 1) * (size * el)) by lia.
    replace (c * size * el) with (c * (size * el)) by lia. apply Z.mul_le_mono_nonneg_r; nia. }
  assert (0 <= j' * size * el /\ 0 <= j * size * el) by nia.
  assert (head * el + zlen b <= size * el) by nia. assert (i * el + el <= size * el) by nia.
  assert (j * size * el + size * el <= zlen (t_data t)) by lia. assert (0 <= head * el /\ 0 <= i * el) by nia.
  destruct (Z.lt_trichotomy j' j) as [Hlt|[->|Hlt]]; [|done|].
  - apply put_bytes_before; [lia|lia|lia|lia|]. specialize (Hcol j' j). lia.
  - apply put_bytes_after; [lia|lia| |lia]. specialize (Hcol j j'). lia.
Qed.

Section trans.
Context (s : tensor) (l : list Z) (il : Z) (cx : state_ctx) (t : tensor) (size : Z).
Local Abbreviation el := (sp_type_size p (t_type s)).
Local Abbreviation n := (sp_n_embd_v p il).
Local Abbreviation head := (kv_head (st_cache cx)).
Local Abbreviation size' := (kv_size (st_cache cx)).
Context (Ht : zlookup (st_v cx) il = Some t) (Htype : t_type t = t_type s).
Context (Hty : 0 <= t_type s <= INT32_MAX) (Hel : 0 < el < 4294967296) (Hn : 0 <= n < 4294967296).
Context (Hhead : 0 <= head) (Hfit : head + zlen l <= size') (Hl : forall i, i ∈ l -> 0 <= i < size).
Context (Hs : n * size * el <= zlen (t_data s)) (Hd : n * size' * el <= zlen (t_data t)) (H32 : n * size' * el < 4294967296).

(** Where the columns of the values stand after [j] iterations. *)
Definition columns_inv (j : Z) (c : state_ctx) : Prop :=
  exists t', c = with_tensor false il t' cx /\ same_shape t t' /\
    forall j', 0 <= j' < n -> if j' <? j then rows_moved s t t' (j' * size * el) (j' * size' * el) el head size' l
      else forall i, 0 <= i < size' -> row_at t' (j' * size' * el) el i = row_at t (j' * size' * el) el i.

Definition read_column (j : Z) : reads bool :=
  b ← read (zlen l * el); _ ← store false il (u32 (head + j * size') * el) b; mret true.

Lemma with_same_tensor : with_tensor false il t cx = cx.
Proof using Ht.
  clear -Ht. unfold with_tensor. rewrite list_insert_id; [by rewrite set_list_same|]. unfold zlookup in Ht. cbn [tensors]. by destruct (0 <=? il).
Qed.

(** A column before and after it is stored. *)
Lemma column_moved j t1 : l <> [] -> 0 <= j < n -> same_shape t t1 ->
  let off := j * size' * el + head * el in
  let b := column_bytes p s size l j in
  0 <= off /\ off + zlen b <= zlen (t_data t1) /\ zlen b = zlen l * el /\ u32 (head + j * size') * el = off /\
  rows_moved s t1 (put_bytes t1 off b) (j * size * el) (j * size' * el) el head size' l /\
  (forall j' i, 0 <= j' -> j <> j' -> 0 <= i < size' -> row_at (put_bytes t1 off b) (j' * size' * el) el i = row_at t1 (j' * size' * el) el i).
Proof using Hel Hn Hhead Hfit Hl Hs Hd H32.
  intros Hne Hj [Hty1 Hlen1] off b. pose proof (zlen_nonneg l) as Hl0.
  assert (Hjs : (j + 1) * size' * el <= n * size' * el) by (apply Z.mul_le_mono_nonneg_r; [lia|]; apply Z.mul_le_mono_nonneg_r; lia).
  assert (Hi0 : exists i0, i0 ∈ l) by (destruct l as [|i0 l0]; [done|exists i0; apply list_elem_of_here]).
  destruct Hi0 as [i0 Hi0]. pose proof (Hl i0 Hi0) as Hsz.
  assert (Hlast : (j + 1) * size * el <= n * size * el) by (apply Z.mul_le_mono_nonneg_r; [lia|]; apply Z.mul_le_mono_nonneg_r; lia).
  assert (0 <= j * size * el) by (apply Z.mul_nonneg_nonneg; [apply Z.mul_nonneg_nonneg|]; lia).
  assert (0 <= j * size' * el) by (apply Z.mul_nonneg_nonneg; [apply Z.mul_nonneg_nonneg|]; lia).
  destruct (rows_moved_put s t1 (j * size * el) (j * size' * el) el head l size size') as [Hlen Hmoved]; [lia..|done|lia|nia|].
  change (concat (row_at s (j * size * el) el <$> l)) with b in Hlen, Hmoved.
  splits; [unfold off; nia|unfold off; nia|done| |exact Hmoved|].
  - unfold off. rewrite u32_small; [lia|]. assert (head + j * size' <= (j + 1) * size') by lia. nia.
  - intros j' i Hj' Hne' Hi. apply other_column; try done; try lia. rewrite Hlen. nia.
Qed.

Lemma column_step j c : l <> [] -> 0 <= j < n -> columns_inv j c ->
  exists c', consumes (read_column j) (column_bytes p s size l j) c c' true /\ columns_inv (j + 1) c'.
Proof using Ht Hel Hn Hhead Hfit Hl Hs Hd H32.
  intros Hne Hj (t1 & -> & Hsh & Hinv). destruct (column_moved j t1 Hne Hj Hsh) as (Ho & Hfits & Hlen & Hoff & Hmoved & Hkeep).
  set (off := j * size' * el + head * el) in *. set (b := column_bytes p s size l j) in *.
  exists (with_tensor false il (put_bytes t1 off b) cx). split.
  - unfold read_column. eapply consumes_last; [apply consumes_read; by rewrite Hlen|]. cbn beta. rewrite Hoff.
    eapply consumes_step; [apply (consumes_store false _ il t1); [|done|done]|].
    + unfold with_tensor. rewrite tensors_set_list. rewrite zlookup_insert by (apply zlookup_Some_lt in Ht; cbn [tensors]; lia).
      by rewrite decide_True.
    + cbn beta. unfold with_tensor. rewrite set_list_twice, tensors_set_list, list_insert_insert_eq. apply consumes_ret.
  - exists (put_bytes t1 off b). destruct Hsh as [Hty1 Hlen1]. splits; [done|split; [done|by rewrite zlen_put_bytes]|].
    intros j' Hj'. specialize (Hinv j' Hj'). destruct (Z.ltb_spec j' (j + 1)), (Z.ltb_spec j' j); try lia.
    + destruct Hinv as [I1 I2]. split.
      * intros k i Hk. pose proof (zlookup_Some_lt _ _ _ Hk). rewrite Hkeep by lia. by apply I1.
      * intros i Hi Hout. rewrite Hkeep by lia. by apply I2.
    + assert (j' = j) as -> by lia. destruct Hmoved as [M1 M2]. split; [done|].
      intros i Hi Hout. rewrite M2 by done. by apply Hinv.
    + intros i Hi. rewrite Hkeep by lia. by apply Hinv.
Qed.

Lemma columns_consume :
  exists t', consumes (if zlen l =? 0 then mret true else for_true 0 n read_column)
      (concat (column_bytes p s size l <$> zseq 0 (Z.to_nat n))) cx (with_tensor false il t' cx) true /\
    same_shape t t' /\ forall j, 0 <= j < n -> rows_moved s t t' (j * size * el) (j * size' * el) el head size' l.
Proof using Ht Hel Hn Hhead Hfit Hl Hs Hd H32.
  destruct (Z.eqb_spec (zlen l) 0) as [E|E].
  - exists t. assert (Hnil : l = []) by (destruct l as [|? l']; [done|rewrite zlen_cons in E; pose proof (zlen_nonneg l'); lia]).
    splits; [|done|].
    + replace (concat _) with (@nil Z); [rewrite with_same_tensor; apply consumes_ret|].
      unfold column_bytes. rewrite Hnil. induction (zseq 0 (Z.to_nat n)); [done|by cbn].
    + intros j Hj. split; [|done]. intros k i Hk%zlookup_Some_lt. lia.
  - assert (Hne : l <> []) by (intros ->; done).
    destruct (consumes_for columns_inv read_column (column_bytes p s size l) n cx) as (cx' & Hc & t' & -> & Hsh & Hmv); [lia| | |].
    + exists t. rewrite with_same_tensor. splits; [done|done|]. intros j' Hj'. by destruct (Z.ltb_spec j' 0); [lia|].
    + intros j c Hj. by apply column_step.
    + exists t'. splits; [exact Hc|exact Hsh|]. intros j Hj. specialize (Hmv j Hj). by destruct (Z.ltb_spec j n); [|lia].
Qed.

(** A layer of transposed values. *)
Lemma read_trans_consumes :
  exists t', consumes (read_layer_trans p (zlen l) il) (trans_bytes p s size n l) cx (with_tensor false il t' cx) true /\
    same_shape t t' /\ forall j, 0 <= j < n -> rows_moved s t t' (j * size * el) (j * size' * el) el head size' l.
Proof using Ht Htype Hty Hel Hn Hhead Hfit Hl Hs Hd H32.
  destruct columns_consume as (t' & Hgo & Hsh & Hmv). exists t'. split; [|done].
  unfold read_layer_trans, trans_bytes, v_el.
  eapply consumes_step; [apply consumes_get|]. cbn beta.
  eapply consumes_bind; [apply consumes_i32|]. rewrite i32_small by (unfold INT32_MIN; lia). cbn beta.
  eapply consumes_step; [apply consumes_res; by apply vget_Some|]. cbn beta.
  rewrite Htype, Z.eqb_refl. cbn [negb].
  eapply consumes_bind; [apply consumes_u32|]. cbn beta. rewrite (u32_small el) by lia. rewrite Z.eqb_refl. cbn [negb].
  eapply consumes_bind; [apply consumes_u32|]. cbn beta. rewrite (u32_small n) by lia. rewrite Z.eqb_refl. cbn [negb].
  exact Hgo.
Qed.
End trans.
End read.

(** ** All layers *)

Section layers.
Context (p : state_params).

Lemma layers_consume keys body bytes (L : Z -> tensor -> Prop) cx :
  0 <= sp_n_layer p -> zlen (tensors keys cx) = sp_n_layer p ->
  (forall il l, 0 <= il < sp_n_layer p -> zlookup l il = Some (tensor_of (tensors keys cx) il) ->
     exists t', consumes (body il) (bytes il) (set_list keys l cx) (with_tensor keys il t' (set_list keys l cx)) true /\ L il t') ->
  exists l, consumes (for_true 0 (sp_n_layer p) body) (concat (bytes <$> layers p)) cx (set_list keys l cx) true /\
    zlen l = sp_n_layer p /\ forall il, 0 <= il < sp_n_layer p -> L il (tensor_of l il).
Proof.
  intros Hn Hlen Hbody.
  destruct (consumes_for (fun j c => exists l, c = set_list keys l cx /\ zlen l = sp_n_layer p /\
      forall il, 0 <= il < sp_n_layer p -> if il <? j then L il (tensor_of l il) else tensor_of l il = tensor_of (tensors keys cx) il)
    body bytes (sp_n_layer p) cx) as (cx' & Hc & l & -> & Hl & HL).
  - done.
  - exists (tensors keys cx). splits; [by rewrite set_list_same|done|]. intros il Hil. by destruct (Z.ltb_spec il 0); [lia|].
  - intros j c Hj (l & -> & Hl & Hinv). pose proof (Hinv j Hj) as Hjt. destruct (Z.ltb_spec j j); [lia|].
    destruct (Hbody j l Hj) as (t' & Hc & HL); [rewrite <- Hjt; apply (vget_layer p); lia|].
    eexists. split; [exact Hc|]. exists (<[Z.to_nat j := t']> l). splits.
    + unfold with_tensor. by rewrite set_list_twice, tensors_set_list.
    + by rewrite zlen_insert.
    + intros il Hil. rewrite tensor_of_insert by lia. specialize (Hinv il Hil). case_decide as E.
      * subst il. by destruct (Z.ltb_spec j (j + 1)); [|lia].
      * destruct (Z.ltb_spec il (j + 1)), (Z.ltb_spec il j); try lia; done.
  - exists l. splits; [exact Hc|done|]. intros il Hil. specialize (HL il Hil). by destruct (Z.ltb_spec il (sp_n_layer p)); [|lia].
Qed.

(** Two contexts of the same model: the state of one fits into the other. *)
Record compatible (cx cx' : state_ctx) : Prop := {
  cm_trans : st_v_trans cx' = st_v_trans cx;
  cm_k     : forall il, t_type (tensor_of (st_k cx') il) = t_type (tensor_of (st_k cx) il);
  cm_v     : forall il, t_type (tensor_of (st_v cx') il) = t_type (tensor_of (st_v cx) il)
}.

(** The keys and values that [cx] has for a cell. *)
Definition cell_key (cx : state_ctx) (il i : Z) : list Z :=
  let t := tensor_of (st_k cx) il in row_at t 0 (k_row p t il) i.

Definition cell_value (cx : state_ctx) (il i : Z) : list Z :=
  let t := tensor_of (st_v cx) il in
  if st_v_trans cx
  then concat ((fun j => row_at t (j * kv_size (st_cache cx) * v_el p t) (v_el p t) i) <$> zseq 0 (Z.to_nat (sp_n_embd_v p il)))
  else row_at t 0 (v_row p t il) i.

(** The keys and values of the cells [l] of [cx] are in [cx'] from cell [head]
    on; the other cells have those of [cx0]. *)
Definition rows_restored (cx cx0 cx' : state_ctx) (head : Z) (l : list Z) : Prop :=
  forall il, 0 <= il < sp_n_layer p ->
    (forall k i, zlookup l k = Some i -> cell_key cx' il (head + k) = cell_key cx il i /\ cell_value cx' il (head + k) = cell_value cx il i) /\
    (forall i, 0 <= i < kv_size (st_cache cx0) -> i < head \/ head + zlen l <= i ->
       cell_key cx' il i = cell_key cx0 il i /\ cell_value cx' il i = cell_value cx0 il i).

Section data.
Context (cx dst : state_ctx) (l : list Z).
Context (Hsrc : ctx_shape p cx) (Hdst : ctx_shape p dst) (Hcm : compatible cx dst).
Context (Hl : forall i, i ∈ l -> 0 <= i < kv_size (st_cache cx)).
Context (Hhead : 0 <= kv_head (st_cache dst)) (Hfit : kv_head (st_cache dst) + zlen l <= kv_size (st_cache dst)).
Local Abbreviation head := (kv_head (st_cache dst)).
Local Abbreviation size' := (kv_size (st_cache dst)).

Lemma keys_consume :
  exists k, consumes (for_true 0 (sp_n_layer p) (read_layer p true (sp_n_embd_k p) (zlen l))) (concat (k_bytes p cx l <$> layers p))
      dst (set_list true k dst) true /\ zlen k = sp_n_layer p /\
    forall il, 0 <= il < sp_n_layer p -> same_shape (tensor_of (st_k dst) il) (tensor_of k il) /\
      rows_moved (tensor_of (st_k cx) il) (tensor_of (st_k dst) il) (tensor_of k il) 0 0 (k_row p (tensor_of (st_k cx) il) il) head size' l.
Proof using Hsrc Hdst Hcm Hl Hhead Hfit.
  apply (layers_consume true _ _ (fun il t' => same_shape (tensor_of (st_k dst) il) t' /\
    rows_moved (tensor_of (st_k cx) il) (tensor_of (st_k dst) il) t' 0 0 (k_row p (tensor_of (st_k cx) il) il) head size' l)).
  - apply Hsrc.
  - apply (cs_k_len _ _ Hdst).
  - intros il k Hil Ht. cbn [tensors] in Ht.
    destruct (cs_k _ _ Hsrc il _ (vget_layer p _ il (cs_k_len _ _ Hsrc) Hil)) as (S1 & S2 & S3).
    destruct (cs_k _ _ Hdst il _ (vget_layer p _ il (cs_k_len _ _ Hdst) Hil)) as (D1 & D2 & D3).
    rewrite (cm_k _ _ Hcm) in D1, D2, D3.
    apply (read_layer_consumes p true (sp_n_embd_k p) (tensor_of (st_k cx) il) l il (set_list true k dst) (tensor_of (st_k dst) il)
      (kv_size (st_cache cx)) size'); try done; [apply Hcm|]. cbn [st_cache set_list set_tensors].
    eapply Z.le_trans; [|exact D3]. apply Z.mul_le_mono_nonneg_r; lia.
Qed.

Lemma values_consume :
  exists v, consumes (if st_v_trans dst then for_true 0 (sp_n_layer p) (read_layer_trans p (zlen l))
      else for_true 0 (sp_n_layer p) (read_layer p false (sp_n_embd_v p) (zlen l))) (concat (v_bytes p cx l <$> layers p))
      dst (set_list false v dst) true /\ zlen v = sp_n_layer p /\
    forall il, 0 <= il < sp_n_layer p -> let s := tensor_of (st_v cx) il in let t := tensor_of (st_v dst) il in
      same_shape t (tensor_of v il) /\
      if st_v_trans cx then forall j, 0 <= j < sp_n_embd_v p il ->
        rows_moved s t (tensor_of v il) (j * kv_size (st_cache cx) * v_el p s) (j * size' * v_el p s) (v_el p s) head size' l
      else rows_moved s t (tensor_of v il) 0 0 (v_row p s il) head size' l.
Proof using Hsrc Hdst Hcm Hl Hhead Hfit.
  rewrite (cm_trans _ _ Hcm).
  assert (Hb : forall f g, (if st_v_trans cx then for_true 0 (sp_n_layer p) f else for_true 0 (sp_n_layer p) g) =
    for_true 0 (sp_n_layer p) (fun il => if st_v_trans cx then f il else g il)) by (intros; by destruct (st_v_trans cx)).
  rewrite Hb. clear Hb.
  apply (layers_consume false _ _ (fun il t' => let s := tensor_of (st_v cx) il in let t := tensor_of (st_v dst) il in
    same_shape t t' /\
      if st_v_trans cx then forall j, 0 <= j < sp_n_embd_v p il ->
        rows_moved s t t' (j * kv_size (st_cache cx) * v_el p s) (j * size' * v_el p s) (v_el p s) head size' l
      else rows_moved s t t' 0 0 (v_row p s il) head size' l)).
  - apply Hsrc.
  - apply (cs_v_len _ _ Hdst).
  - intros il v Hil Ht. cbn [tensors] in Ht.
    destruct (cs_v _ _ Hsrc il _ (vget_layer p _ il (cs_v_len _ _ Hsrc) Hil)) as (S1 & S2).
    destruct (cs_v _ _ Hdst il _ (vget_layer p _ il (cs_v_len _ _ Hdst) Hil)) as (D1 & D2).
    rewrite (cm_v _ _ Hcm), (cm_trans _ _ Hcm) in D2. unfold v_bytes. destruct (st_v_trans cx).
    + destruct S2 as (S2 & S3 & S4 & S5), D2 as (D2 & D3 & D4 & D5).
      apply (read_trans_consumes p (tensor_of (st_v cx) il) l il (set_list false v dst) (tensor_of (st_v dst) il) (kv_size (st_cache cx)));
        try done. apply Hcm.
    + destruct S2 as (S2 & S3), D2 as (D2 & D3).
      apply (read_layer_consumes p false (sp_n_embd_v p) (tensor_of (st_v cx) il) l il (set_list false v dst) (tensor_of (st_v dst) il)
        (kv_size (st_cache cx)) size'); try done; [apply Hcm|]. cbn [st_cache set_list set_tensors].
      eapply Z.le_trans; [|exact D3]. apply Z.mul_le_mono_nonneg_r; lia.
Qed.
End data.

(** Replacing tensors by ones of the same shape. *)
Section replace.
Context (cx dst : state_ctx) (keys : bool) (l : list tensor).
Context (Hdst : ctx_shape p dst) (Hcm : compatible cx dst) (Hlen : zlen l = sp_n_layer p).
Context (Hsame : forall il, 0 <= il < sp_n_layer p -> same_shape (tensor_of (tensors keys dst) il) (tensor_of l il)).

Lemma zlen_tensors : zlen (tensors keys dst) = sp_n_layer p.
Proof using Hdst. clear -Hdst. destruct keys; apply Hdst. Qed.

Lemma replaced_tensor il t : zlookup l il = Some t -> exists t0, zlookup (tensors keys dst) il = Some t0 /\ same_shape t0 t.
Proof using Hdst Hlen Hsame.
  intros Ht. pose proof (zlookup_Some_lt _ _ _ Ht). pose proof zlen_tensors.
  destruct (zlookup_lt (tensors keys dst) il) as [t0 Ht0]; [lia|]. exists t0. split; [done|].
  specialize (Hsame il ltac:(lia)). unfold tensor_of in Hsame. by rewrite Ht, Ht0 in Hsame.
Qed.

Lemma replaced_type il : t_type (tensor_of l il) = t_type (tensor_of (tensors keys dst) il).
Proof using Hdst Hlen Hsame.
  destruct (decide (0 <= il < sp_n_layer p)) as [Hil|Hil]; [by destruct (Hsame il Hil)|]. pose proof zlen_tensors.
  unfold tensor_of. destruct (zlookup l il) eqn:E1; [apply zlookup_Some_lt in E1; lia|].
  destruct (zlookup (tensors keys dst) il) eqn:E2; [apply zlookup_Some_lt in E2; lia|done].
Qed.

Lemma shape_replaced : ctx_shape p (set_list keys l dst) /\ compatible cx (set_list keys l dst).
Proof using Hdst Hcm Hlen Hsame.
  pose proof replaced_tensor as Hr. pose proof replaced_type as Ht. destruct Hdst as [D1 D2 D3 D4 D5 D6], Hcm as [C1 C2 C3].
  destruct keys; cbn [tensors] in *; (split; split; try done); cbn [st_k st_v set_list set_tensors st_cache st_v_trans].
  - intros il t (t0 & Ht0 & T1 & T2)%Hr. specialize (D4 il t0 Ht0). by rewrite T1, T2.
  - intros il. by rewrite Ht.
  - intros il t (t0 & Ht0 & T1 & T2)%Hr. specialize (D5 il t0 Ht0). by rewrite T1, T2.
  - intros il. by rewrite Ht.
Qed.
End replace.

Section restore.
Context (cx dst : state_ctx) (l : list Z).
Context (Hsrc : ctx_shape p cx) (Hdst : ctx_shape p dst) (Hcm : compatible cx dst).
Context (Hl : forall i, i ∈ l -> 0 <= i < kv_size (st_cache cx)).
Local Abbreviation head := (kv_head (st_cache dst)).
Context (Hhead : 0 <= head) (Hfit : head + zlen l <= kv_size (st_cache dst)).

(** [read_kv_cache_data] puts the keys and values of the cells into the tensors. *)
Lemma data_consumes :
  exists k v, let dst' := set_tensors k v dst in
    consumes (read_kv_cache_data p (zlen l)) (data_bytes p cx l) dst dst' true /\
    ctx_shape p dst' /\ compatible cx dst' /\ rows_restored cx dst dst' head l.
Proof using Hsrc Hdst Hcm Hl Hhead Hfit.
  destruct (keys_consume cx dst l) as (k & Hk & Hklen & Hkeys); try done.
  destruct (shape_replaced cx dst true k Hdst Hcm Hklen) as [Hmid Hcmid]; [intros il Hil; by apply Hkeys|].
  destruct (values_consume cx (set_list true k dst) l) as (v & Hv & Hvlen & Hvals); try done.
  destruct (shape_replaced cx (set_list true k dst) false v Hmid Hcmid Hvlen) as [Hend Hcend]; [intros il Hil; by apply Hvals|].
  exists k, v. cbv zeta. splits; [|exact Hend|exact Hcend|].
  - unfold read_kv_cache_data, data_bytes.
    eapply consumes_bind; [apply consumes_u32|]. cbn beta. eapply consumes_bind; [apply consumes_u32|]. cbn beta.
    eapply consumes_step; [apply consumes_get|]. cbn beta. rewrite (u32_small (sp_n_layer p)) by apply Hsrc. rewrite Z.eqb_refl. cbn [negb].
    destruct (Z.ltb_spec (kv_size (st_cache dst)) (zlen l)); [lia|].
    assert (Bool.eqb (st_v_trans dst) (negb (u32 (if st_v_trans cx then 1 else 0) =? 0)) = true) as ->.
    { rewrite (cm_trans _ _ Hcm). by destruct (st_v_trans cx). }
    cbn [negb]. eapply consumes_bind; [exact Hk|]. cbn beta iota. cbn [negb]. exact Hv.
  - intros il Hil. destruct (Hkeys il Hil) as [[K1 _] [K3 K4]]. destruct (Hvals il Hil) as [[V1 _] V3]. clear Hk Hv.
    cbn [st_k st_v st_v_trans st_cache set_list set_tensors] in *.
    unfold cell_key, cell_value. cbn [st_k st_v st_v_trans st_cache set_tensors].
    unfold k_row, v_row, v_el in *. rewrite K1, V1, (cm_trans _ _ Hcm), !(cm_k _ _ Hcm), !(cm_v _ _ Hcm).
    destruct (st_v_trans cx); [|split; [intros i0 i Hi; split; [by apply K3|by apply V3]|intros i Hi Hout; split; [by apply K4|by apply V3]]].
    split.
    + intros i0 i Hi. split; [by apply K3|]. f_equal. apply list_fmap_ext. intros ? j Hj%list_elem_of_lookup_2%elem_of_zseq. apply V3; [lia|done].
    + intros i Hi Hout. split; [by apply K4|]. f_equal. apply list_fmap_ext. intros ? j Hj%list_elem_of_lookup_2%elem_of_zseq. apply V3; [lia|done|done].
Qed.
End restore.
End layers.

(** * Reading the cells *)

Lemma zseq_fmap_list {A B} (f : A -> B) (d : A) l :
  (fun j => f (default d (zlookup l j))) <$> zseq 0 (Z.to_nat (zlen l)) = f <$> l.
Proof.
  apply zlookup_ext.
  - unfold zlen. rewrite !length_fmap, length_zseq. lia.
  - intros i Hi. assert (Hr : 0 <= i < zlen l) by (unfold zlen in *; rewrite length_fmap, length_zseq in Hi; lia).
    rewrite !zlookup_fmap, zlookup_zseq by done. cbn. by destruct (zlookup_lt l i Hr) as [x ->].
Qed.

(** Replacing the cells of the cache. *)
Definition with_kv (cells : list kv_cell) (cx : state_ctx) : state_ctx :=
  set_kv (with_cells (st_cache cx) (kv_head (st_cache cx)) (kv_used (st_cache cx)) cells) cx.

Lemma with_kv_cells cells cx : kv_cells (st_cache (with_kv cells cx)) = cells.
Proof. done. Qed.

Lemma with_kv_twice k cells cx : with_kv k (with_kv cells cx) = with_kv k cx.
Proof. done. Qed.

Lemma with_kv_same cx : with_kv (kv_cells (st_cache cx)) cx = cx.
Proof. unfold with_kv, with_cells, set_kv. destruct cx as [[] ? ? ? ? ?]. done. Qed.

Lemma consumes_set_cell cx i f c :
  zlookup (kv_cells (st_cache cx)) i = Some c ->
  consumes (set_cell i f) [] cx (with_kv (<[Z.to_nat i := f c]> (kv_cells (st_cache cx))) cx) tt.
Proof.
  intros Hc. apply consumes_lift. unfold upd_cell. rewrite (vget_Some _ _ _ Hc). cbn [mbind res_bind].
  rewrite vset_at by by apply zlookup_Some_lt in Hc. done.
Qed.

(** The position and the owners of a cell. *)
Definition content (c : kv_cell) : Z * gset Z := (c_pos c, c_seq_id c).

Definition contents (cells : list kv_cell) : list (Z * gset Z) := content <$> cells.

Lemma contents_insert cells i c : contents (<[i := c]> cells) = <[i := content c]> (contents cells).
Proof. unfold contents. apply list_fmap_insert. Qed.

(** One sequence id of a cell. *)
Lemma read_cell_id_consumes cx i c id :
  kv_recurrent (st_cache cx) = false -> zlookup (kv_cells (st_cache cx)) i = Some c ->
  0 <= id < kv_size (st_cache cx) -> kv_size (st_cache cx) <= KV_SIZE_MAX ->
  consumes (read_cell_id i) (le_bytes 4 id) cx
    (with_kv (<[Z.to_nat i := set_seqs (c_seq_id c ∪ {[id]}) c]> (kv_cells (st_cache cx))) cx) true.
Proof.
  intros Hrec Hc Hid Hmax. unfold KV_SIZE_MAX in Hmax. unfold read_cell_id.
  eapply consumes_last; [apply consumes_i32|]. cbn beta. rewrite i32_small by (unfold INT32_MIN, INT32_MAX; lia).
  eapply consumes_step; [apply consumes_get|]. cbn beta. rewrite u32_small by lia.
  destruct (Z.ltb_spec id 0); [lia|]. destruct (Z.leb_spec (kv_size (st_cache cx)) id); [lia|]. cbn [orb].
  eapply consumes_step; [by apply (consumes_set_cell cx i _ c)|]. cbn beta.
  rewrite Hrec. apply consumes_ret.
Qed.

Lemma list_to_set_take_S (ids : list Z) j x : 0 <= j -> zlookup ids j = Some x ->
  list_to_set (C := gset Z) (take (Z.to_nat (j + 1)) ids) = list_to_set (take (Z.to_nat j) ids) ∪ {[x]}.
Proof.
  intros Hj Hx. unfold zlookup in Hx. destruct (Z.leb_spec 0 j); [|lia].
  replace (Z.to_nat (j + 1)) with (S (Z.to_nat j)) by lia. rewrite (take_S_r _ _ _ Hx), list_to_set_app_L. set_solver.
Qed.

(** The ids of a cell that was cleared. *)
Lemma read_ids_consumes cx i c ids :
  kv_recurrent (st_cache cx) = false -> zlookup (kv_cells (st_cache cx)) i = Some c -> c_seq_id c = ∅ ->
  Forall (fun id => 0 <= id < kv_size (st_cache cx)) ids -> kv_size (st_cache cx) <= KV_SIZE_MAX ->
  consumes (for_true 0 (zlen ids) (fun _ => read_cell_id i)) (concat (le_bytes 4 <$> ids)) cx
    (with_kv (<[Z.to_nat i := set_seqs (list_to_set ids) c]> (kv_cells (st_cache cx))) cx) true.
Proof.
  intros Hrec Hc He Hids Hmax. pose proof (zlookup_Some_lt _ _ _ Hc) as Hi.
  rewrite <- (zseq_fmap_list (le_bytes 4) 0 ids).
  destruct (consumes_for (fun j cx' => cx' = with_kv (<[Z.to_nat i := set_seqs (list_to_set (take (Z.to_nat j) ids)) c]> (kv_cells (st_cache cx))) cx)
    (fun _ => read_cell_id i) (fun j => le_bytes 4 (default 0 (zlookup ids j))) (zlen ids) cx) as (cx' & Hcx & ->).
  - apply zlen_nonneg.
  - rewrite take_0. replace (set_seqs _ c) with c by (unfold set_seqs; cbn [list_to_set]; rewrite <- He; by destruct c).
    rewrite list_insert_id; [by rewrite with_kv_same|]. unfold zlookup in Hc. by destruct (0 <=? i).
  - intros j cx' Hj ->. destruct (zlookup_lt ids j Hj) as [id Hid]. rewrite Hid. cbn [default].
    eexists. split.
    + apply (read_cell_id_consumes _ i (set_seqs (list_to_set (take (Z.to_nat j) ids)) c)); [done| | |].
      * rewrite with_kv_cells, zlookup_insert by lia. by rewrite decide_True.
      * rewrite Forall_forall in Hids. unfold kv_size. rewrite with_kv_cells, zlen_insert. apply Hids, elem_of_zlookup. by exists j.
      * unfold kv_size. rewrite with_kv_cells, zlen_insert. done.
    + rewrite with_kv_cells, list_insert_insert_eq, with_kv_twice. do 2 f_equal. cbn [c_seq_id set_seqs].
      rewrite (list_to_set_take_S ids j id) by (done || lia). done.
  - replace (list_to_set ids) with (list_to_set (C := gset Z) (take (Z.to_nat (zlen ids)) ids)); [done|].
    f_equal. apply take_ge. unfold zlen. lia.
Qed.

(** ** All cells *)

Lemma size_ids_bound (S : gset Z) n : 0 <= n -> (forall id, id ∈ S -> 0 <= id < n) -> Z.of_nat (size S) <= n.
Proof.
  intros Hn HS. assert (Hsub : S ⊆ list_to_set (zseq 0 (Z.to_nat n))).
  { intros id Hid. apply elem_of_list_to_set, elem_of_zseq. specialize (HS id Hid). lia. }
  apply subseteq_size in Hsub. rewrite size_list_to_set in Hsub by apply NoDup_zseq. rewrite length_zseq in Hsub. lia.
Qed.

Lemma sorted_elements (S : gset Z) :
  list_to_set (C := gset Z) (merge_sort Z.le (elements S)) = S /\ zlen (merge_sort Z.le (elements S)) = Z.of_nat (size S).
Proof.
  pose proof (merge_sort_Permutation Z.le (elements S)) as Hp. split.
  - rewrite (list_to_set_perm_L _ _ Hp). apply list_to_set_elements_L.
  - unfold zlen. by rewrite Hp.
Qed.

Lemma count_used_full cells : Forall (fun c => is_empty c = false) cells -> count_used cells = zlen cells.
Proof. induction 1 as [|c cells Hc _ IH]; [done|]. rewrite count_used_cons, zlen_cons, Hc, IH. lia. Qed.

Lemma count_used_empty cells : Forall (fun c => is_empty c = true) cells -> count_used cells = 0.
Proof. induction 1 as [|c cells Hc _ IH]; [done|]. by rewrite count_used_cons, Hc, IH. Qed.

(** The slot of cell [i]. *)
Definition slot_at (cache : kv_cache) (i : Z) : slot := default None (zlookup (slots cache) i).

Section cells.
Context (src : kv_cache) (dst : state_ctx).
Context (Hsrc : kv_wf src) (Hdst : kv_wf (st_cache dst)).
Local Abbreviation l := (saved src (-1)).
Local Abbreviation size' := (kv_size (st_cache dst)).
Context (Hids : forall c id, c ∈ kv_cells src -> id ∈ c_seq_id c -> 0 <= id < size').
Context (Hfit : zlen l <= size').

Lemma saved_cell k i : zlookup l k = Some i ->
  exists c, zlookup (kv_cells src) i = Some c /\ 0 <= c_pos c <= INT32_MAX /\ c_seq_id c <> ∅ /\ is_empty c = false /\
    forall id, id ∈ c_seq_id c -> 0 <= id < size'.
Proof using Hsrc Hids.
  clear Hdst Hfit.
  intros Hk. assert (Hi : i ∈ l) by (apply elem_of_zlookup; exists k; split; [by apply zlookup_Some_lt in Hk|done]).
  apply elem_of_saved in Hi as (c & Hc & Hs). exists c.
  assert (Hin : c ∈ kv_cells src) by (apply elem_of_zlookup; exists i; split; [by apply zlookup_Some_lt in Hc|done]).
  assert (He : is_empty c = false).
  { apply is_empty_false. intros He. unfold cell_selected, is_empty, has_seq_id in Hs. rewrite He in Hs. rewrite bool_decide_eq_true_2 in Hs by done.
    cbn in Hs. case_bool_decide; set_solver. }
  pose proof (kw_cells _ Hsrc) as Hok. rewrite Forall_forall in Hok. pose proof (proj1 (is_empty_false c) He).
  destruct (Hok c Hin) as [[_ ?]|[Hp _]]; [done|]. splits; try lia; try done. intros id. by apply Hids.
Qed.

(** What is in the cells after [i] iterations. *)
Definition restored_to (i : Z) (cells : list kv_cell) : Prop :=
  contents cells = (content ∘ cell_of src <$> take (Z.to_nat i) l) ++ replicate (Z.to_nat (size' - i)) (-1, ∅).

Lemma restored_next i cells c cell' d :
  0 <= i < zlen l -> restored_to i cells -> zlookup l i = Some c -> zlookup cells i = Some d ->
  content cell' = content (cell_of src c) ->
  content d = (-1, ∅) /\ zlen cells = size' /\ restored_to (i + 1) (<[Z.to_nat i := cell']> cells).
Proof using Hfit.
  intros Hi Hr Hc Hd Hcell. unfold restored_to in *.
  assert (Hlen : length (content ∘ cell_of src <$> take (Z.to_nat i) l) = Z.to_nat i).
  { rewrite length_fmap, length_take. unfold zlen in *. lia. }
  assert (Hat : contents cells !! Z.to_nat i = Some (content d)).
  { unfold contents. rewrite list_lookup_fmap. unfold zlookup in Hd. destruct (Z.leb_spec 0 i); [|lia]. by rewrite Hd. }
  split; [|split].
  - rewrite Hr, lookup_app_r, Hlen, Nat.sub_diag in Hat by lia. rewrite lookup_replicate in Hat. by destruct Hat as [-> _].
  - assert (E : length (contents cells) = length cells) by apply length_fmap. rewrite Hr, length_app, Hlen, length_replicate in E.
    unfold zlen in *. lia.
  - rewrite contents_insert, Hr. rewrite insert_app_r_alt by lia. rewrite Hlen, Nat.sub_diag.
    replace (Z.to_nat (size' - i)) with (S (Z.to_nat (size' - (i + 1)))) by lia. cbn [replicate insert list_insert].
    unfold zlookup in Hc. destruct (Z.leb_spec 0 i); [|lia]. replace (Z.to_nat (i + 1)) with (S (Z.to_nat i)) by lia.
    rewrite (take_S_r _ _ _ Hc), fmap_app, <- app_assoc. cbn. unfold compose. by rewrite Hcell.
Qed.

Lemma restored_start : restored_to 0 (kv_cells (llama_kv_cache_clear (st_cache dst))).
Proof using.
  unfold restored_to, contents, llama_kv_cache_clear. cbn [kv_cells with_cells take fmap list_fmap app]. rewrite Z.sub_0_r.
  rewrite take_0. cbn [fmap list_fmap app]. unfold kv_size, zlen. rewrite Nat2Z.id.
  induction (kv_cells (st_cache dst)) as [|c cells IH]; [done|]. cbn [fmap list_fmap length replicate]. by f_equal.
Qed.

(** The well-formed cache that holds the cells. *)
Lemma restored_wf cells cache :
  restored_to (zlen l) cells -> cache = with_cells (llama_kv_cache_clear (st_cache dst)) 0 (zlen l) cells ->
  kv_wf cache /\ kv_size cache = size' /\ slots cache = (slot_at src <$> l) ++ replicate (Z.to_nat (size' - zlen l)) None.
Proof using Hsrc Hdst Hids Hfit.
  intros Hr ->. pose proof (clear_spec _ Hdst) as [[W1 W2 W3 W4 W5] _]. unfold restored_to in Hr.
  replace (take (Z.to_nat (zlen l)) l) with l in Hr by (unfold zlen; rewrite Nat2Z.id; by rewrite firstn_all).
  assert (Hlen : zlen cells = size').
  { assert (E : length (contents cells) = length cells) by apply length_fmap. rewrite Hr, length_app, length_fmap, length_replicate in E.
    unfold zlen in *. lia. }
  set (n := length l). assert (Hn : zlen l = Z.of_nat n) by done.
  assert (H1 : Forall (fun c => is_empty c = false /\ cell_ok c) (take n cells)).
  { apply Forall_lookup. intros k c Hk. apply lookup_take_Some in Hk as [Hk Hkn].
    assert (Hck : contents cells !! k = Some (content c)) by (unfold contents; by rewrite list_lookup_fmap, Hk).
    destruct (l !! k) as [i|] eqn:Ei; [|apply lookup_ge_None in Ei; unfold n in *; lia].
    rewrite Hr, lookup_app_l, list_lookup_fmap, Ei in Hck by (rewrite length_fmap; unfold n in *; lia). injection Hck as E1 E2.
    destruct (saved_cell (Z.of_nat k) i) as (c0 & Hc0 & Hp & Hne & _ & _); [by rewrite zlookup_nat|]. unfold cell_of in E1, E2. rewrite Hc0 in E1, E2. cbn in E1, E2.
    split; [apply is_empty_false; by rewrite <- E2|]. right. by rewrite <- E1, <- E2. }
  assert (H2 : Forall (fun c => is_empty c = true /\ cell_ok c) (drop n cells)).
  { apply Forall_lookup. intros k c Hk. rewrite lookup_drop in Hk.
    assert (Hck : contents cells !! (n + k)%nat = Some (content c)) by (unfold contents; by rewrite list_lookup_fmap, Hk).
    rewrite Hr, lookup_app_r, length_fmap in Hck by (rewrite length_fmap; unfold n; lia).
    apply lookup_replicate in Hck as [[= E1 E2] _]. split; [by apply is_empty_true|]. by left. }
  split; [|split].
  - split; unfold kv_size; cbn [kv_recurrent kv_cells kv_used kv_head with_cells]; [by destruct Hdst| | |lia|destruct Hdst as [_ _ _ _ ?]; unfold kv_size in *; lia].
    + rewrite <- (take_drop n cells). apply Forall_app. split; eapply Forall_impl; [exact H1|by intros ? []|exact H2|by intros ? []].
    + rewrite <- (take_drop n cells), count_used_app.
      rewrite count_used_full by (eapply Forall_impl; [exact H1|by intros ? []]).
      rewrite count_used_empty by (eapply Forall_impl; [exact H2|by intros ? []]).
      unfold zlen in *. rewrite length_take. lia.
  - done.
  - assert (Hs : forall k, slots (with_cells (llama_kv_cache_clear (st_cache dst)) 0 (zlen l) k) =
      (fun x : Z * gset Z => if bool_decide (x.2 = ∅) then None else Some x) <$> contents k).
    { intros k. unfold slots, contents. cbn [kv_cells with_cells]. rewrite <- list_fmap_compose. apply list_fmap_ext. intros ? c _. done. }
    rewrite Hs, Hr, fmap_app, fmap_replicate. f_equal.
    rewrite <- list_fmap_compose. apply list_fmap_ext. intros k i Hi. unfold compose, slot_at, cell_of.
    destruct (saved_cell (Z.of_nat k) i) as (c0 & Hc0 & _); [by rewrite zlookup_nat|].
    unfold slots. rewrite zlookup_fmap, Hc0. cbn. unfold cell_slot, is_empty. done.
Qed.

(** One cell is read back. *)
Lemma cell_step i cells j : zlookup l j = Some i -> restored_to j cells ->
  exists cells', consumes (pos ← read_i32; n_seq_id ← read_u32; _ ← set_cell j (set_pos pos); for_true 0 n_seq_id (fun _ => read_cell_id j))
      (cell_bytes (-1) (cell_of src i)) (with_kv cells (clear_kv dst)) (with_kv cells' (clear_kv dst)) true /\ restored_to (j + 1) cells'.
Proof using Hsrc Hdst Hids Hfit.
  intros Hi Hr. pose proof (kw_attention _ Hdst) as Hrec. pose proof (kw_size _ Hdst) as Hmax. pose proof (zlookup_Some_lt _ _ _ Hi) as Hj.
  destruct (saved_cell j i Hi) as (c & Hc & Hp & Hne & _ & Hcids).
  assert (Hlen : zlen cells = size').
  { assert (E : length (contents cells) = length cells) by apply length_fmap.
    rewrite Hr, length_app, length_fmap, length_take, length_replicate in E. unfold zlen in *. lia. }
  destruct (zlookup_lt cells j) as [d Hd]; [lia|]. replace (cell_of src i) with c by (unfold cell_of; by rewrite Hc).
  set (ids := merge_sort Z.le (elements (c_seq_id c))). destruct (sorted_elements (c_seq_id c)) as [Hset Hzlen]. fold ids in Hset, Hzlen.
  assert (Hsz : Z.of_nat (size (c_seq_id c)) <= size') by (apply size_ids_bound; [pose proof (zlen_nonneg (kv_cells (st_cache dst))); unfold kv_size; lia|done]).
  set (cell' := set_seqs (list_to_set ids) (set_pos (c_pos c) d)).
  destruct (restored_next j cells i cell' d Hj Hr Hi Hd) as (Hcd & _ & Hnext); [unfold cell_of, cell', content; by rewrite Hc, Hset|].
  exists (<[Z.to_nat j := cell']> cells). split; [|done].
  unfold cell_bytes. change (-1 =? -1) with true. cbv zeta iota. eapply consumes_bind; [apply consumes_i32|]. cbn beta.
  rewrite i32_small by (unfold INT32_MIN; lia).
  eapply consumes_bind; [apply consumes_u32|]. cbn beta. rewrite u32_small by (unfold KV_SIZE_MAX in *; lia).
  eapply consumes_step; [by apply (consumes_set_cell _ j _ d)|]. cbn beta. rewrite with_kv_twice, with_kv_cells.
  assert (Hn0 : (Z.of_nat (size (c_seq_id c)) =? 0) = false).
  { apply Z.eqb_neq. intros E. apply Hne, leibniz_equiv, size_empty_inv. lia. }
  rewrite Hn0, <- Hzlen.
  replace (with_kv (<[Z.to_nat j := cell']> cells) (clear_kv dst))
    with (with_kv (<[Z.to_nat j := cell']> (<[Z.to_nat j := set_pos (c_pos c) d]> cells))
      (with_kv (<[Z.to_nat j := set_pos (c_pos c) d]> cells) (clear_kv dst))) by (by rewrite with_kv_twice, list_insert_insert_eq).
  apply read_ids_consumes; [done| | | |].
  - rewrite with_kv_cells, zlookup_insert by lia. by rewrite decide_True.
  - cbn. by injection Hcd.
  - apply Forall_forall. intros id Hid. unfold kv_size. rewrite with_kv_cells, zlen_insert, Hlen. apply Hcids.
    rewrite <- Hset. by apply elem_of_list_to_set.
  - unfold kv_size. rewrite with_kv_cells, zlen_insert, Hlen. done.
Qed.

(** The cells are read back, packed at the start of the cache. *)
Lemma meta_all_consumes :
  exists cells, let cache := with_cells (llama_kv_cache_clear (st_cache dst)) 0 (zlen l) cells in
    consumes (read_kv_cache_meta (zlen l) (-1)) (meta_bytes src (-1)) dst (set_kv cache (clear_kv dst)) true /\
    restored_to (zlen l) cells.
Proof using Hsrc Hdst Hids Hfit.
  destruct (consumes_for (fun i c => exists cells, c = with_kv cells (clear_kv dst) /\ restored_to i cells)
    (fun i => pos ← read_i32; n_seq_id ← read_u32; _ ← set_cell i (set_pos pos); for_true 0 n_seq_id (fun _ => read_cell_id i))
    (fun i => cell_bytes (-1) (cell_of src (default 0 (zlookup l i)))) (zlen l) (clear_kv dst)) as (cx' & Hc & cells & -> & Hr).
  - apply zlen_nonneg.
  - exists (kv_cells (llama_kv_cache_clear (st_cache dst))). split; [done|apply restored_start].
  - intros j c Hj (cells & -> & Hr). destruct (zlookup_lt l j Hj) as [i Hi]. rewrite Hi. change (default 0 (Some i)) with i.
    destruct (cell_step i cells j Hi Hr) as (cells' & Hc & Hr'). eauto.
  - exists cells. cbv zeta. split; [|done]. unfold read_kv_cache_meta. cbn [Z.eqb negb].
    eapply consumes_last.
    + unfold read_meta_all. eapply consumes_step; [apply consumes_get|]. cbn beta.
      destruct (Z.ltb_spec size' (zlen l)); [lia|]. eapply consumes_step; [apply consumes_put|]. cbn beta.
      unfold meta_bytes. rewrite <- (zseq_fmap_list (fun i => cell_bytes (-1) (cell_of src i)) 0 l).
      eapply consumes_last; [exact Hc|]. cbn beta iota. eapply consumes_step; [apply consumes_get|]. cbn beta.
      eapply consumes_step; [apply consumes_put|]. cbn beta. apply consumes_ret.
    + cbn beta iota. cbn [negb]. eapply consumes_step; [apply consumes_get|]. cbn beta.
      match goal with |- consumes (if ?b then _ else _) _ _ _ _ => change b with (kv_recurrent (st_cache dst)) end.
      rewrite (kw_attention _ Hdst). apply consumes_ret.
Qed.
End cells.
