(* ===== verification/StateSpec.v ===== *)
(** Saving and restoring as a whole: the outputs, the round trips of the state, of
    a session file and of one sequence. *)
From S2P Require Import Prelude Batch KvCache KvSpec KvUpdate Outputs State StateBytes StateRead.

(** * Outputs *)

Definition has_logits (op : output_params) : bool := negb (op_embeddings op).
Definition has_embd (op : output_params) : bool := op_embeddings op && op_no_pooling op.

(** Floats for [m] rows of [n], when there are any. *)
Record floats_ok (has : bool) (size n m : Z) (buf : option (list Z)) : Prop := {
  fl_none : has = false -> size = 0;
  fl_some : has = true -> 0 < n /\ m * n <= size /\ exists l, buf = Some l /\ size <= zlen l /\ Forall (fun x => 0 <= x < 4294967296) l
}.

(** Outputs in the order of the batch: every row belongs to one id. *)
Record rows_ok (op : output_params) (o : outputs Z) : Prop := {
  ro_batch  : 0 <= op_n_batch op <= INT32_MAX;
  ro_len    : zlen (o_ids o) = op_n_batch op;
  ro_n      : 0 <= o_n_outputs o <= op_n_batch op /\ o_n_outputs o <= o_output_size o;
  ro_range  : forall id j, zlookup (o_ids o) id = Some j -> -1 <= j < o_n_outputs o;
  ro_row    : forall j, 0 <= j < o_n_outputs o -> exists id, zlookup (o_ids o) id = Some j /\
                forall id', zlookup (o_ids o) id' = Some j -> id' = id;
  ro_logits : floats_ok (has_logits op) (o_logits_size o) (op_n_vocab op) (o_n_outputs o) (o_logits o);
  ro_embd   : floats_ok (has_embd op) (o_embd_size o) (op_n_embd op) (o_n_outputs o) (o_embd o);
  ro_fit    : o_logits_size o < 18446744073709551616 /\ o_embd_size o < 18446744073709551616
}.

Definition floats_bytes (has : bool) (n m : Z) (buf : option (list Z)) : list Z :=
  let x := if has then take (Z.to_nat (m * n)) (default [] buf) else [] in
  le_bytes 8 (zlen x) ++ concat (le_bytes 4 <$> x).

Lemma floats_written has size n m buf :
  floats_ok has size n m buf -> 0 <= m -> size < 18446744073709551616 ->
  exists l, write_floats size n m buf = Ok l /\ writes l (floats_bytes has n m buf).
Proof.
  intros [H0 H1] Hm Hs. unfold write_floats, floats_bytes. destruct has.
  - destruct (H1 eq_refl) as (Hn & Hmn & l & -> & Hl & _). unfold wrap_u. change (2 ^ 64) with 18446744073709551616.
    assert (0 <= m * n) by nia. assert (m <= m * n) by nia.
    rewrite (Z.mod_small m), (Z.mod_small (m * n)) by lia. rewrite Z.min_r by lia. change (default [] (Some l)) with l. cbn [or_ub mbind res_bind].
    assert (Hlen : zlen (take (Z.to_nat (m * n)) l) = m * n) by (unfold zlen in *; rewrite length_take; lia).
    destruct (Z.eqb_spec (m * n) 0) as [E|E].
    + eexists. split; [done|]. replace (take (Z.to_nat (m * n)) l) with (@nil Z) by by rewrite E. rewrite E.
      apply writes_raw. constructor.
    + destruct (Z.leb_spec (m * n) (zlen l)); [|lia]. eexists. split; [done|]. rewrite Hlen. apply writes_raw.
      apply writes_last.
  - rewrite (H0 eq_refl). rewrite Z.min_l by (apply Z.mod_pos_bound; done).
    eexists. split; [done|]. apply (writes_raw (le_bytes 8 0)). constructor.
Qed.

(** The ids by row. *)
Lemma output_positions_spec op o : rows_ok op o ->
  safe (output_positions (op_n_batch op) (o_n_outputs o) (o_ids o)) (fun pos => zlen pos = o_n_outputs o /\
    forall id j, 0 <= j -> zlookup (o_ids o) id = Some j -> zlookup pos j = Some id).
Proof.
  intros [H0 H1 H2 H3 H4 _ _ _]. unfold output_positions.
  eapply (post_mono _ (fun pos => zlen pos = o_n_outputs o /\
    forall id j, id < op_n_batch op -> 0 <= j -> zlookup (o_ids o) id = Some j -> zlookup pos j = Some id) _ (fun _ => False)); [| |done].
  - apply (for_z_post 0 (op_n_batch op) _ (fun i pos => zlen pos = o_n_outputs o /\
      forall id j, id < i -> 0 <= j -> zlookup (o_ids o) id = Some j -> zlookup pos j = Some id)); [lia| |].
    + split; [unfold zlen; rewrite length_replicate; lia|]. intros id j Hid _ Hj. apply zlookup_Some_lt in Hj. lia.
    + intros i pos Hi [P1 P2]. destruct (zlookup_lt (o_ids o) i) as [j Hj]; [lia|]. rewrite (vget_Some _ _ _ Hj). cbn [mbind res_bind].
      pose proof (H3 i j Hj) as Hr. destruct (Z.leb_spec 0 j) as [Hj0|Hj0]; [|cbn [post]].
      * destruct (Z.ltb_spec j (o_n_outputs o)); [|lia]. cbn [ggml_assert mbind res_bind]. rewrite vset_at by lia. cbn [post].
        rewrite zlen_insert. split; [done|]. intros id j' Hid Hj' Hlk. rewrite zlookup_insert by lia. case_decide as E.
        -- subst j'. f_equal. destruct (H4 j ltac:(lia)) as (i0 & Hi0 & Hu). rewrite (Hu _ Hlk). by apply Hu.
        -- apply P2; [|done|done]. destruct (decide (id = i)) as [->|]; [|lia]. rewrite Hj in Hlk. by injection Hlk.
      * split; [done|]. intros id j' Hid Hj' Hlk. apply P2; [|done|done]. destruct (decide (id = i)) as [->|]; [|lia].
        rewrite Hj in Hlk. injection Hlk as <-. lia.
  - intros pos [P1 P2]. split; [done|]. intros id j Hj Hlk. apply P2; [|done|done]. apply zlookup_Some_lt in Hlk. lia.
Qed.

(** The outputs as they are written, with the ids of the rows in [pos]. *)
Definition outputs_bytes (op : output_params) (o : outputs Z) (pos : list Z) : list Z :=
  (le_bytes 4 (o_n_outputs o) ++ concat (le_bytes 4 <$> pos)) ++
  floats_bytes (has_logits op) (op_n_vocab op) (o_n_outputs o) (o_logits o) ++
  floats_bytes (has_embd op) (op_n_embd op) (o_n_outputs o) (o_embd o).

Lemma ids_written p cx out_ids o :
  llama_output_reorder (sp_out p) (sb_out_ids (st_sbatch cx)) (st_out cx) = Ok (out_ids, o) -> rows_ok (sp_out p) o ->
  exists l cx' pos, write_output_ids p cx = Ok (l, cx') /\ writes l (le_bytes 4 (o_n_outputs o) ++ concat (le_bytes 4 <$> pos)) /\
    (exists sb, cx' = set_outputs o (set_sb sb cx)) /\
    zlen pos = o_n_outputs o /\ (forall id j, 0 <= j -> zlookup (o_ids o) id = Some j -> zlookup pos j = Some id).
Proof.
  intros Hre Hok. pose proof (output_positions_spec _ _ Hok) as Hpos. apply safe_ok in Hpos as (pos & Hpos & P1 & P2).
  pose proof Hok as [H0 H1 H2 H3 H4 _ _ _]. unfold write_output_ids. rewrite Hre. cbn [mbind res_bind].
  rewrite u32_small by (unfold INT32_MAX in *; lia). destruct (Z.leb_spec (o_n_outputs o) (o_output_size o)); [|lia].
  cbn [ggml_assert mbind res_bind]. rewrite Hpos. cbn [mbind res_bind].
  eexists _, _, pos. split; [reflexivity|]. splits; [|by eexists|done|done].
  destruct (Z.eqb_spec (o_n_outputs o) 0) as [E|E].
  - rewrite E in P1. destruct pos; [|rewrite zlen_cons in P1; pose proof (zlen_nonneg pos); lia]. rewrite E. apply writes_raw. constructor.
  - apply writes_raw. apply writes_last.
Qed.

(** ** Reading *)

(** The reserved outputs of a context of the same model. *)
Definition fresh_outputs (op : output_params) (m : Z) (buf : option Z) : outputs Z :=
  let rows := Z.max m (op_n_seq_max op) in
  let logits_size := if has_logits op then op_n_vocab op * rows else 0 in
  let embd_size := if has_embd op then op_n_embd op * rows else 0 in
  mk_outputs (replicate (Z.to_nat (op_n_batch op)) (-1)) 0 rows logits_size embd_size
    (if has_logits op then Some (replicate (Z.to_nat logits_size) 0) else None)
    (if has_embd op then Some (replicate (Z.to_nat embd_size) 0) else None) buf.

(** The sizes of the output buffers in bytes fit into 64 bits. *)
Definition output_sizes_ok (op : output_params) (m : Z) : Prop :=
  0 <= op_n_vocab op /\ 0 <= op_n_embd op /\
  op_n_vocab op * Z.max m (op_n_seq_max op) < 2305843009213693952 /\ op_n_embd op * Z.max m (op_n_seq_max op) < 2305843009213693952.

Lemma reserve_fresh op alloc (o : outputs Z) m :
  output_sizes_ok op m -> 0 <= m -> 0 <= op_n_batch op -> o_ids o = [] \/ zlen (o_ids o) = op_n_batch op ->
  (forall n, is_Some (alloc n)) ->
  exists buf, llama_output_reserve op alloc 0 o m = (fresh_outputs op m buf, Z.max m (op_n_seq_max op)).
Proof.
  intros (S1 & S2 & S3 & S4) Hm Hb Hids Halloc. unfold llama_output_reserve.
  assert (Hst : forall n, 0 <= n -> n * Z.max m (op_n_seq_max op) < 2305843009213693952 -> size_t (n * Z.max m (op_n_seq_max op)) = n * Z.max m (op_n_seq_max op)).
  { intros n Hn Hlt. unfold size_t, wrap_u. rewrite Z.mod_small; [done|]. split; [nia|]. change (2 ^ 64) with 18446744073709551616. lia. }
  set (ids := match o_ids o with [] => _ | _ => _ end).
  assert (Hl : length ids = Z.to_nat (op_n_batch op)).
  { unfold ids. destruct (o_ids o) eqn:E; [by rewrite length_replicate|]. destruct Hids as [|Hids]; [done|]. unfold zlen in Hids. lia. }
  fold (has_logits op) (has_embd op). rewrite !Hst by done.
  match goal with |- context [alloc ?n] => destruct (Halloc n) as [b Hbuf]; rewrite Hbuf end.
  set (grow := bool_decide (o_buf o = None) || _).
  assert (Hsome : grow = false -> is_Some (o_buf o)).
  { unfold grow. intros [Hn _]%orb_false_iff. apply bool_decide_eq_false in Hn. destruct (o_buf o); [eauto|done]. }
  clearbody grow. destruct grow.
  - destruct (true && _); cbn [o_ids]; rewrite Hl; eexists; reflexivity.
  - destruct (Hsome eq_refl) as [b0 ->]. cbn [andb o_ids]. rewrite Hl. eexists. reflexivity.
Qed.

Lemma restore_ids_spec n_batch l : forall i ids,
  n_batch <= INT32_MAX -> zlen ids = n_batch -> NoDup l -> Forall (fun id => 0 <= id < n_batch) l ->
  exists ids', restore_ids n_batch i l ids = (ids', Ok tt) /\ zlen ids' = n_batch /\
    (forall k id, zlookup l k = Some id -> zlookup ids' id = Some (i + k)) /\
    (forall id, id ∉ l -> zlookup ids' id = zlookup ids id).
Proof.
  induction l as [|x l IH]; intros i ids Hmax Hlen Hnd Hr; cbn [restore_ids].
  - exists ids. splits; try done. intros k id Hk%zlookup_Some_lt. change (zlen (@nil Z)) with 0 in Hk. lia.
  - apply NoDup_cons in Hnd as [Hx Hnd]. apply Forall_cons in Hr as [Hx2 Hr]. rewrite u32_small by (unfold INT32_MAX in *; lia).
    destruct (Z.leb_spec n_batch x); [lia|]. rewrite vset_at by lia.
    destruct (IH (i + 1) (<[Z.to_nat x := i]> ids)) as (ids' & E & L & H1 & H2); [done|by rewrite zlen_insert|done|done|].
    exists ids'. splits; [done|done| |].
    + intros k id Hk. pose proof (zlookup_Some_lt _ _ _ Hk) as Hkr. destruct (decide (k = 0)) as [->|Hk0].
      * injection Hk as <-. rewrite H2 by done. rewrite zlookup_insert by lia. rewrite decide_True by done. f_equal. lia.
      * rewrite (H1 (k - 1)); [f_equal; lia|]. rewrite zlen_cons in Hkr. change (x :: l) with ([x] ++ l) in Hk.
        unfold zlookup in *. destruct (Z.leb_spec 0 k); [|lia]. destruct (Z.leb_spec 0 (k - 1)); [|lia].
        rewrite lookup_app_r in Hk by (cbn; lia). rewrite <- Hk. f_equal. cbn. lia.
    + intros id Hid. apply not_elem_of_cons in Hid as [Hne Hid]. rewrite H2 by done. destruct (Z.lt_ge_cases id 0) as [Hneg|Hpos].
      * unfold zlookup. by destruct (Z.leb_spec 0 id); [lia|].
      * rewrite zlookup_insert by lia. by rewrite decide_False.
Qed.

(** Restoring the ids by row gives the ids that were saved. *)
Lemma restore_ids_same op o pos : rows_ok op o -> zlen pos = o_n_outputs o ->
  (forall id j, 0 <= j -> zlookup (o_ids o) id = Some j -> zlookup pos j = Some id) ->
  restore_ids (op_n_batch op) 0 pos (replicate (Z.to_nat (op_n_batch op)) (-1)) = (o_ids o, Ok tt) /\
  Forall (fun id => 0 <= id < op_n_batch op) pos.
Proof.
  intros [H0 H1 H2 H3 H4 _ _ _] Hlen Hpos.
  assert (Hback : forall j id, zlookup pos j = Some id -> zlookup (o_ids o) id = Some j).
  { intros j id Hj. pose proof (zlookup_Some_lt _ _ _ Hj) as Hr. destruct (H4 j ltac:(lia)) as (id' & Hid' & _).
    pose proof (Hpos id' j ltac:(lia) Hid') as E. rewrite Hj in E. injection E as ->. done. }
  assert (Hrange : Forall (fun id => 0 <= id < op_n_batch op) pos).
  { apply Forall_forall. intros id (j & _ & Hj)%elem_of_zlookup. apply Hback, zlookup_Some_lt in Hj. lia. }
  assert (Hnd : NoDup pos).
  { apply NoDup_alt. intros a b id Ha Hb. rewrite <- zlookup_nat in Ha, Hb. apply Hback in Ha, Hb. rewrite Ha in Hb. injection Hb. lia. }
  destruct (restore_ids_spec (op_n_batch op) pos 0 (replicate (Z.to_nat (op_n_batch op)) (-1))) as (ids' & E & L & R1 & R2);
    [lia|unfold zlen; rewrite length_replicate; lia|done|done|].
  split; [|done]. rewrite E. f_equal. apply zlookup_ext; [lia|]. intros id Hid. rewrite L in Hid.
  destruct (zlookup_lt (o_ids o) id) as [j Hj]; [lia|]. rewrite Hj. pose proof (H3 _ _ Hj) as Hjr.
  destruct (decide (j = -1)) as [->|Hj1].
  - rewrite R2; [apply zlookup_replicate_lt; lia|]. intros (k & _ & Hk)%elem_of_zlookup. pose proof (zlookup_Some_lt _ _ _ Hk).
    apply Hback in Hk. rewrite Hj in Hk. injection Hk. lia.
  - rewrite (R1 j id); [f_equal; lia|]. apply Hpos; [lia|done].
Qed.

Section read_outputs.
Context (p : state_params) (alloc : Z -> option Z) (o : outputs Z) (pos : list Z).
Local Abbreviation op := (sp_out p).
Local Abbreviation m := (o_n_outputs o).
Context (Hok : rows_ok op o) (Hsizes : output_sizes_ok op m) (Halloc : forall n, is_Some (alloc n)).
Context (Hlen : zlen pos = m) (Hpos : forall id j, 0 <= j -> zlookup (o_ids o) id = Some j -> zlookup pos j = Some id).

Lemma read_ids_consume cx :
  o_ids (st_out cx) = [] \/ zlen (o_ids (st_out cx)) = op_n_batch op ->
  exists buf, consumes (read_output_ids p alloc) (le_bytes 4 m ++ concat (le_bytes 4 <$> pos)) cx
    (set_outputs (with_ids_outputs (o_ids o) m (fresh_outputs op m buf)) cx) tt.
Proof using Hok Hsizes Halloc Hlen Hpos.
  intros Hids. pose proof Hok as [H0 H1 H2 H3 H4 _ _ _]. destruct (restore_ids_same op o pos Hok Hlen Hpos) as [Hre Hrange].
  destruct (reserve_fresh op alloc (st_out cx) m Hsizes ltac:(lia) ltac:(lia) Hids Halloc) as (buf & Hbuf).
  exists buf. unfold read_output_ids. eapply consumes_bind; [apply consumes_u32|]. cbn beta. rewrite u32_small by (unfold INT32_MAX in *; lia).
  eapply consumes_step; [apply consumes_lift; rewrite Hbuf; reflexivity|]. cbn beta. cbn [fst snd].
  destruct (Z.ltb_spec (Z.max m (op_n_seq_max op)) m); [lia|].
  destruct (Z.eqb_spec m 0) as [E|E].
  - assert (pos = []) as -> by (destruct pos; [done|rewrite zlen_cons in Hlen; pose proof (zlen_nonneg l); lia]).
    cbn in Hre. injection Hre as Hre. rewrite <- Hre, E. apply consumes_ret.
  - eapply consumes_last; [apply consumes_read; rewrite zlen_words_bytes; lia|]. cbn beta.
    replace (i32 <$> words (Z.to_nat m) (concat (le_bytes 4 <$> pos))) with pos.
    2:{ replace (Z.to_nat m) with (length pos) by (unfold zlen in Hlen; lia). rewrite words_bytes, <- list_fmap_compose.
        rewrite <- (list_fmap_id pos) at 1. apply list_fmap_ext. intros ? x Hx%list_elem_of_lookup_2.
        rewrite Forall_forall in Hrange. specialize (Hrange x Hx). unfold compose. rewrite i32_u32, i32_small; [done|]. unfold INT32_MIN, INT32_MAX in *. lia. }
    eapply consumes_step; [apply consumes_get|]. cbn beta. cbn [st_out set_outputs fresh_outputs o_ids o_n_outputs]. rewrite Hre. cbn [fst snd].
    eapply consumes_step; [apply consumes_put|]. cbn beta. eapply consumes_step; [by apply consumes_res|]. cbn beta.
    eapply consumes_step; [apply consumes_get|]. cbn beta. rewrite i32_small by (unfold INT32_MIN, INT32_MAX in *; lia). apply consumes_put.
Qed.
End read_outputs.

(** Floats at the front of a buffer. *)
Lemma front_floats_ok l x : zlen x <= zlen l -> front_floats (Some l) x = Ok (x ++ drop (length x) l).
Proof. intros H. unfold front_floats. cbn [or_ub mbind res_bind]. by destruct (Z.leb_spec (zlen x) (zlen l)); [|lia]. Qed.

(** The floats of [m] rows of [n] are restored at the front of the buffer. *)
Definition floats_restored (has : bool) (n m : Z) (buf buf' : option (list Z)) : Prop :=
  has = true -> exists l l', buf = Some l /\ buf' = Some l' /\ forall j, 0 <= j < m -> row n l' j = row n l j.

Lemma row_front n m (l rest : list Z) j : 0 <= n -> 0 <= j < m -> m * n <= zlen l ->
  row n (take (Z.to_nat (m * n)) l ++ rest) j = row n l j.
Proof.
  intros Hn Hj Hl. apply row_ext; [lia..|]. intros x Hx. assert (j * n + x < m * n) by nia. assert (0 <= j * n + x) by nia.
  unfold zlookup, zlen in *. destruct (Z.leb_spec 0 (j * n + x)); [|lia].
  rewrite lookup_app_l by (rewrite length_take; lia). by rewrite lookup_take_lt by lia.
Qed.

(** What the two readers of floats share. *)
Lemma words_floats x : Forall (fun x => 0 <= x < 4294967296) x -> words (Z.to_nat (zlen x)) (concat (le_bytes 4 <$> x)) = x.
Proof.
  intros Hx. unfold zlen. rewrite Nat2Z.id, words_bytes. induction Hx as [|y x Hy _ IH]; [done|]. cbn [fmap list_fmap].
  by rewrite IH, u32_small.
Qed.

Definition room_for (has : bool) (size n m : Z) (buf : option (list Z)) : Prop :=
  0 <= size /\ (has = true -> m * n <= size /\ exists l, buf = Some l /\ size <= zlen l).

Section read_floats.
Context (has : bool) (size n m : Z) (buf : option (list Z)).
Context (Hsrc : floats_ok has size n m buf) (Hm : 0 <= m) (Hmax : m * n < 2305843009213693952).

(** The floats that are saved. *)
Definition saved_floats : list Z := if has then take (Z.to_nat (m * n)) (default [] buf) else [].

Lemma saved_floats_ok :
  Forall (fun x => 0 <= x < 4294967296) saved_floats /\ 0 <= zlen saved_floats < 2305843009213693952 /\
  forall size' buf', room_for has size' n m buf' -> zlen saved_floats <= size' /\
    (if zlen saved_floats =? 0 then floats_restored has n m buf buf'
    else exists x, or_ub buf' = Ok x /\ front_floats buf' saved_floats = Ok (saved_floats ++ drop (length saved_floats) x) /\
      floats_restored has n m buf (Some (saved_floats ++ drop (length saved_floats) x))).
Proof using Hsrc Hm Hmax.
  unfold saved_floats. destruct Hsrc as [H0 H1]. destruct has.
  - destruct (H1 eq_refl) as (Hn & Hmn & l & -> & Hl & Hf). change (default [] (Some l)) with l.
    assert (Hlen : zlen (take (Z.to_nat (m * n)) l) = m * n) by (unfold zlen in *; rewrite length_take; nia).
    rewrite Hlen. splits; [by apply Forall_take|nia|done|].
    intros size' buf' [_ Hr]. destruct (Hr eq_refl) as (R1 & l' & -> & R2). split; [done|].
    destruct (Z.eqb_spec (m * n) 0) as [E|E].
    + intros _. exists l, l'. splits; [done|done|]. intros j Hj. nia.
    + exists l'. splits; [done|apply front_floats_ok; lia|]. intros _. eexists l, _. splits; [done|done|].
      intros j Hj. apply row_front; lia.
  - splits; [constructor|done|done|]. intros size' buf' [Hs _]. split; [done|]. by intros ?.
Qed.
End read_floats.

Lemma read_floats_consume size_of get set message size n m buf has cx :
  floats_ok has size n m buf -> 0 <= m -> m * n < 2305843009213693952 ->
  (forall o, set (get o) o = o) -> room_for has (size_of (st_out cx)) n m (get (st_out cx)) ->
  exists l, consumes (read_floats size_of get set message) (floats_bytes has n m buf) cx (set_outputs (set l (st_out cx)) cx) tt /\
    floats_restored has n m buf l.
Proof.
  intros Hsrc Hm Hmax Hset Hroom. destruct (saved_floats_ok has size n m buf Hsrc Hm Hmax) as (F1 & F2 & F3).
  destruct (F3 _ _ Hroom) as [Hsz Hrest]. unfold floats_bytes. fold (saved_floats has n m buf). set (x := saved_floats has n m buf) in *.
  assert (Hgo : exists l, floats_restored has n m buf l /\ consumes (if zlen x =? 0 then mret tt else
      l ← read (zlen x * 4);
      y ← lift_res (front_floats (get (st_out cx)) (words (Z.to_nat (zlen x)) l));
      put_ctx (set_outputs (set (Some y) (st_out cx)) cx)) (concat (le_bytes 4 <$> x)) cx (set_outputs (set l (st_out cx)) cx) tt).
  { destruct (Z.eqb_spec (zlen x) 0) as [E|E].
    - exists (get (st_out cx)). split; [done|]. destruct x; [|rewrite zlen_cons in E; pose proof (zlen_nonneg x); lia].
      rewrite Hset. replace (set_outputs (st_out cx) cx) with cx by by destruct cx. apply consumes_ret.
    - destruct Hrest as (y & Hy & Hf & Hres). eexists. split; [exact Hres|].
      eapply consumes_last; [apply consumes_read; by rewrite zlen_words_bytes|]. cbn beta. rewrite words_floats by done.
      eapply consumes_step; [apply consumes_res; exact Hf|]. cbn beta. apply consumes_put. }
  destruct Hgo as (l & Hl & Hgo). exists l. split; [|done]. unfold read_floats. eapply consumes_bind; [apply consumes_u64|]. cbn beta.
  replace (wrap_u 64 (zlen x)) with (zlen x) by (unfold wrap_u; rewrite Z.mod_small; lia).
  eapply consumes_step; [apply consumes_get|]. cbn beta. destruct (Z.ltb_spec (size_of (st_out cx)) (zlen x)); [lia|]. exact Hgo.
Qed.

(** * The whole state *)

(** A context whose state can be saved: [o] is its outputs in order. *)
Record state_ready (p : state_params) (cx : state_ctx) (o : outputs Z) : Prop := {
  sr_shape   : ctx_shape p cx;
  sr_cells   : kv_wf (st_cache cx);
  sr_reorder : exists out_ids, llama_output_reorder (sp_out p) (sb_out_ids (st_sbatch cx)) (st_out cx) = Ok (out_ids, o);
  sr_rows    : rows_ok (sp_out p) o;
  sr_sizes   : output_sizes_ok (sp_out p) (o_n_outputs o);
  sr_arch    : zlen (sp_arch p) < 4294967296
}.

(** A context into which the state of [cx] can be restored: of the same model,
    with enough cells and room for all sequence ids. *)
Record state_fits (p : state_params) (cx dst : state_ctx) : Prop := {
  sf_shape  : ctx_shape p dst;
  sf_cells  : kv_wf (st_cache dst);
  sf_same   : compatible cx dst;
  sf_ids    : o_ids (st_out dst) = [] \/ zlen (o_ids (st_out dst)) = op_n_batch (sp_out p);
  sf_room   : zlen (saved (st_cache cx) (-1)) <= kv_size (st_cache dst);
  sf_seqs   : forall c id, c ∈ kv_cells (st_cache cx) -> id ∈ c_seq_id c -> 0 <= id < kv_size (st_cache dst)
}.

Definition arch_bytes (p : state_params) : list Z := le_bytes 4 (zlen (sp_arch p)) ++ sp_arch p.

Definition state_bytes (p : state_params) (cx : state_ctx) (o : outputs Z) (pos : list Z) : list Z :=
  arch_bytes p ++ outputs_bytes (sp_out p) o pos ++ kv_bytes p cx (-1).

Lemma set_outputs_kv p cx o sb seq_id : kv_bytes p (set_outputs o (set_sb sb cx)) seq_id = kv_bytes p cx seq_id.
Proof. done. Qed.

Lemma shape_outputs p o sb cx : ctx_shape p cx -> ctx_shape p (set_outputs o (set_sb sb cx)).
Proof. intros []. by split. Qed.

Lemma model_info_writes p : writes (write_model_info p) (arch_bytes p).
Proof. unfold write_model_info, write_string, arch_bytes. apply writes_raw, writes_last. Qed.

Lemma model_info_consumed p cx : zlen (sp_arch p) < 4294967296 -> consumes (read_model_info p) (arch_bytes p) cx cx tt.
Proof.
  intros Hlen. pose proof (zlen_nonneg (sp_arch p)). unfold read_model_info, read_string, arch_bytes.
  eapply consumes_last; [eapply consumes_bind; [apply consumes_u32|]; cbn beta; rewrite u32_small by lia; by apply consumes_read|].
  cbn beta. rewrite bool_decide_eq_true_2 by done. apply consumes_ret.
Qed.

Section state.
Context (p : state_params) (alloc : Z -> option Z) (cx dst : state_ctx) (o : outputs Z).
Context (Hready : state_ready p cx o) (Halloc : forall n, is_Some (alloc n)).
Local Abbreviation op := (sp_out p).
Local Abbreviation m := (o_n_outputs o).

(** The state is written as its bytes. *)
Lemma state_written :
  exists pos sb, let cx' := set_outputs o (set_sb sb cx) in
    (state_chunks p cx).2 = cx' /\ writes (state_chunks p cx).1 (state_bytes p cx o pos) /\
    zlen pos = m /\ (forall id j, 0 <= j -> zlookup (o_ids o) id = Some j -> zlookup pos j = Some id).
Proof using Hready.
  destruct Hready as [S1 S2 [out_ids S3] S4 S5 S6].
  destruct (ids_written p cx out_ids o S3 S4) as (l & cx' & pos & E & W & [sb ->] & P1 & P2).
  exists pos, sb. cbv zeta. unfold state_chunks. rewrite E. cbn [fst snd]. splits; [done| |done|done].
  destruct S4 as [_ _ [Hm _] _ _ Hl He [Hf1 Hf2]].
  destruct (floats_written _ _ _ _ _ Hl) as (l1 & E1 & W1); [lia|done|].
  destruct (floats_written _ _ _ _ _ He) as (l2 & E2 & W2); [lia|done|].
  change (st_out (set_outputs o (set_sb sb cx))) with o. unfold write_logits, write_embeddings. rewrite E1, E2. cbn [calls].
  unfold state_bytes, outputs_bytes. apply writes_app; [apply model_info_writes|]. rewrite <- !app_assoc. rewrite (app_assoc (le_bytes 4 m)).
  apply writes_app; [done|]. apply writes_app; [done|]. apply writes_app; [done|].
  rewrite <- (set_outputs_kv p cx o sb). apply kv_cache_writes. by apply shape_outputs.
Qed.

Definition outputs_restored (o' : outputs Z) : Prop :=
  o_ids o' = o_ids o /\ o_n_outputs o' = m /\ m <= o_output_size o' /\
  floats_restored (has_logits op) (op_n_vocab op) m (o_logits o) (o_logits o') /\
  floats_restored (has_embd op) (op_n_embd op) m (o_embd o) (o_embd o').

(** The outputs are read back. *)
Lemma outputs_consumed dst0 pos :
  zlen pos = m -> (forall id j, 0 <= j -> zlookup (o_ids o) id = Some j -> zlookup pos j = Some id) ->
  o_ids (st_out dst0) = [] \/ zlen (o_ids (st_out dst0)) = op_n_batch op ->
  exists o', consumes (_ ← read_output_ids p alloc; _ ← read_logits; read_embeddings) (outputs_bytes op o pos) dst0 (set_outputs o' dst0) tt /\
    outputs_restored o'.
Proof using Hready Halloc.
  intros P1 P2 Hids. destruct Hready as [S1 S2 S3 S4 S5 S6]. destruct (read_ids_consume p alloc o pos S4 S5 Halloc P1 P2 dst0 Hids) as (buf & Hc).
  set (o1 := with_ids_outputs (o_ids o) m (fresh_outputs op m buf)) in Hc. pose proof S4 as [_ _ [Hm _] _ _ Hl He _].
  destruct S5 as (V1 & V2 & V3 & V4). assert (Hroom : forall has n, 0 <= n -> room_for has (if has then n * Z.max m (op_n_seq_max op) else 0) n m
    (if has then Some (replicate (Z.to_nat (if has then n * Z.max m (op_n_seq_max op) else 0)) 0) else None)).
  { intros has n Hn. split; [destruct has; nia|]. intros ->. split; [nia|]. eexists. split; [done|]. unfold zlen. rewrite length_replicate. nia. }
  destruct (read_floats_consume o_logits_size o_logits set_logits "logits buffer too small" _ _ _ _ _ (set_outputs o1 dst0) Hl) as (lg & C1 & R1);
    [lia|nia|by intros []|apply (Hroom (has_logits op) (op_n_vocab op) V1)|].
  destruct (read_floats_consume o_embd_size o_embd set_embd "embeddings buffer too small" _ _ _ _ _ (set_outputs (set_logits lg o1) dst0) He) as (em & C2 & R2);
    [lia|nia|by intros []|apply (Hroom (has_embd op) (op_n_embd op) V2)|].
  exists (set_embd em (set_logits lg o1)). split.
  - unfold outputs_bytes. eapply consumes_bind; [exact Hc|]. cbn beta. eapply consumes_bind; [exact C1|]. cbn beta. exact C2.
  - unfold outputs_restored. cbn. splits; try done. lia.
Qed.

Definition state_restored (dst' : state_ctx) : Prop :=
  let l := saved (st_cache cx) (-1) in
  (kv_wf (st_cache dst') /\ kv_head (st_cache dst') = 0 /\
   slots (st_cache dst') = (slot_at (st_cache cx) <$> l) ++ replicate (Z.to_nat (kv_size (st_cache dst) - zlen l)) None) /\
  rows_restored p cx (clear_kv dst) dst' 0 l /\ outputs_restored (st_out dst').

Context (Hfits : state_fits p cx dst).

Lemma shape_cleared cache : kv_size cache = kv_size (st_cache dst) ->
  ctx_shape p (set_kv cache (clear_kv dst)) /\ compatible cx (set_kv cache (clear_kv dst)).
Proof using Hfits.
  clear Hready Halloc. intros Hsz. destruct Hfits as [[D1 D2 D3 D4 D5 D6] F2 [C1 C2 C3] F4 F5 F6].
  assert (Hget : forall l il t, zlookup (clear_tensor <$> l) il = Some t ->
    exists t0, zlookup l il = Some t0 /\ t_type t = t_type t0 /\ zlen (t_data t) = zlen (t_data t0)).
  { intros l il t. rewrite zlookup_fmap. destruct (zlookup l il) as [t0|]; [|done]. intros [= <-]. exists t0. splits; try done.
    unfold zlen. cbn. by rewrite length_replicate. }
  assert (Hty : forall l il, t_type (tensor_of (clear_tensor <$> l) il) = t_type (tensor_of l il)).
  { intros l il. unfold tensor_of. rewrite zlookup_fmap. by destruct (zlookup l il). }
  split; split; cbn [st_k st_v st_v_trans st_cache set_kv set_tensors clear_kv]; rewrite ?Hsz; try done.
  - unfold zlen in *. by rewrite length_fmap.
  - unfold zlen in *. by rewrite length_fmap.
  - intros il t (t0 & Ht0 & T1 & T2)%Hget. specialize (D4 il t0 Ht0). by rewrite T1, T2.
  - intros il t (t0 & Ht0 & T1 & T2)%Hget. specialize (D5 il t0 Ht0). by rewrite T1, T2.
  - intros il. by rewrite Hty.
  - intros il. by rewrite Hty.
Qed.

(** The cache is read back. *)
Lemma kv_consumed o' :
  exists dst', consumes (read_kv_cache p (-1)) (kv_bytes p cx (-1)) (set_outputs o' dst) dst' tt /\
    st_out dst' = o' /\ forall c, st_out dst' = o' -> outputs_restored o' -> c = dst' -> state_restored c.
Proof using Hready Hfits.
  clear Halloc. destruct Hready as [S1 S2 S3 S4 S5 S6]. pose proof Hfits as [F1 F2 F3 F4 F5 F6]. set (l := saved (st_cache cx) (-1)) in *.
  destruct (meta_all_consumes (st_cache cx) (set_outputs o' dst) S2 F2 F6 F5) as (cells & Hc & Hr). fold l in Hc, Hr.
  set (cache := with_cells (llama_kv_cache_clear (st_cache dst)) 0 (zlen l) cells) in *.
  destruct (restored_wf (st_cache cx) (set_outputs o' dst) S2 F2 F6 F5 cells cache Hr eq_refl) as (W1 & W2 & W3). cbn [st_cache set_outputs] in W2, W3.
  destruct (shape_cleared cache W2) as [Hsh Hcm].
  assert (Hl : forall i, i ∈ l -> 0 <= i < kv_size (st_cache cx)).
  { intros i (c & Hi & _)%elem_of_saved. by apply zlookup_Some_lt in Hi. }
  set (mid := set_kv cache (clear_kv (set_outputs o' dst))) in *.
  destruct (data_consumes p cx mid l S1) as (k & v & Hd & _ & _ & Hrows); [by destruct Hsh|by destruct Hcm|done|done|change (zlen l <= kv_size cache); lia|].
  exists (set_tensors k v mid). split; [|split; [done|]].
  - unfold read_kv_cache, kv_bytes. fold l. eapply consumes_bind; [apply consumes_u32|]. cbn beta.
    assert (Hsmall : 0 <= zlen l < 4294967296) by (pose proof (zlen_nonneg l); pose proof (kw_size _ F2); unfold KV_SIZE_MAX in *; lia).
    rewrite u32_small by done. eapply consumes_bind; [exact Hc|]. cbn beta iota. eapply consumes_last; [exact Hd|]. cbn beta iota. apply consumes_ret.
  - intros c _ Ho' ->. unfold state_restored. cbn [st_cache st_out set_tensors mid set_kv clear_kv set_outputs].
    split; [split; [done|split; [done|exact W3]]|split; [|done]]. intros il Hil. destruct (Hrows il Hil) as [R1 R2]. split; [exact R1|].
    assert (Hsz : kv_size (st_cache mid) = kv_size (st_cache (clear_kv dst))).
    { change (kv_size (st_cache mid)) with (kv_size cache). rewrite W2. unfold kv_size, zlen. cbn. by rewrite length_fmap. }
    rewrite <- Hsz. intros i Hi Hout. destruct (R2 i Hi Hout) as [-> ->]. split; [done|]. unfold cell_value. by rewrite Hsz.
Qed.
End state.

Lemma consumes_run {A} (m : reads A) bytes cx cx' a rest n :
  consumes m bytes cx cx' a -> m (mk_reader (bytes ++ rest) n cx) = (mk_reader rest (n + zlen bytes) cx', Ok a).
Proof. done. Qed.

Section roundtrip.
Context (p : state_params) (alloc : Z -> option Z) (cx dst : state_ctx) (o : outputs Z).
Context (Hready : state_ready p cx o) (Halloc : forall n, is_Some (alloc n)) (Hfits : state_fits p cx dst).

(** Restoring what was saved. *)
Lemma state_roundtrips :
  exists pos sb dst', let bytes := state_bytes p cx o pos in
    (state_chunks p cx).2 = set_outputs o (set_sb sb cx) /\ writes (state_chunks p cx).1 bytes /\
    (forall rest n, state_set_data_internal p alloc (mk_reader (bytes ++ rest) n dst) = (mk_reader rest (n + zlen bytes) dst', Ok (n + zlen bytes))) /\
    state_restored p cx dst o dst'.
Proof using Hready Halloc Hfits.
  destruct (state_written p cx o Hready) as (pos & sb & E1 & W & P1 & P2).
  destruct (outputs_consumed p alloc cx o Hready Halloc dst pos P1 P2 (sf_ids _ _ _ Hfits)) as (o' & Ho & Ro).
  destruct (kv_consumed p cx dst o Hready Hfits o') as (dst' & Hk & Eo & Rk).
  exists pos, sb, dst'. cbv zeta. splits; [done|done| |by apply Rk].
  assert (Hall : consumes (_ ← read_model_info p; _ ← read_output_ids p alloc; _ ← read_logits; _ ← read_embeddings; read_kv_cache p (-1))
    (state_bytes p cx o pos) dst dst' tt).
  { unfold state_bytes. eapply consumes_bind; [apply model_info_consumed, (sr_arch _ _ _ Hready)|]. cbn beta.
    intros rest n. pose proof (consumes_bind (_ ← read_output_ids p alloc; _ ← read_logits; read_embeddings) (fun _ => read_kv_cache p (-1)) _ _ _ _ _ _ _ Ho Hk rest n) as H.
    rewrite <- H. unfold mbind, reads_bind. destruct (read_output_ids p alloc _) as [s1 [[]|e]]; [|done]. destruct (read_logits s1) as [s2 [[]|e]]; [|done].
    by destruct (read_embeddings s2) as [s3 [[]|e]]. }
  intros rest n. unfold state_set_data_internal. by rewrite (consumes_run _ _ _ _ _ rest n Hall).
Qed.

(** C22. Saving and restoring: [llama_state_get_size] returns the number of bytes
    that [llama_state_get_data] then writes, a buffer that is too small gives 0, and
    [llama_state_set_data] on these bytes in a context of the same model reads all
    of them and restores the state: the cells in use are packed at the start of the
    cache, in their order, with their positions, their sequences and, in every
    layer, their keys and values, and the outputs have their ids and rows again. *)
Theorem state_roundtrip :
  exists cx' bytes dst',
    llama_state_get_size p cx = (cx', Ok (zlen bytes)) /\ st_out cx' = o /\
    (forall size, zlen bytes <= size -> llama_state_get_data p cx size = (cx', bytes, Ok (zlen bytes))) /\
    (forall size, 0 <= size < zlen bytes -> (llama_state_get_data p cx size).2 = Ok 0) /\
    llama_state_set_data p alloc bytes dst = (dst', Ok (zlen bytes)) /\
    state_restored p cx dst o dst'.
Proof using Hready Halloc Hfits.
  destruct state_roundtrips as (pos & sb & dst' & E & W & R & S). set (bytes := state_bytes p cx o pos) in *.
  exists (set_outputs o (set_sb sb cx)), bytes, dst'. pose proof (writes_size _ _ W) as Hsize. splits; [| | | | |exact S].
  - unfold llama_state_get_size. by rewrite E, Hsize.
  - done.
  - intros size Hs. unfold llama_state_get_data, ctx_after. rewrite (writes_buffer _ _ W size Hs), E, Hsize. cbn [snd fst mbind res_bind].
    rewrite (writes_buffer _ _ (model_info_writes p) size); [done|]. unfold bytes, state_bytes in Hs. rewrite zlen_app in Hs.
    pose proof (zlen_nonneg (outputs_bytes (sp_out p) o pos ++ kv_bytes p cx (-1))). lia.
  - intros size Hs. unfold llama_state_get_data. by rewrite (writes_short _ _ W size Hs).
  - specialize (R [] 0). rewrite app_nil_r in R. unfold llama_state_set_data. by rewrite R.
Qed.

(** C24. A session file holds the prompt and the state: what [llama_state_save_file]
    writes, [llama_state_load_file] accepts when there is room for the tokens, and
    it returns the tokens and restores the state; without enough room it refuses the
    file and leaves the context alone. *)
Theorem session_file_roundtrip tokens capacity :
  Forall (fun t => INT32_MIN <= t <= INT32_MAX) tokens -> zlen tokens < 4294967296 ->
  exists cx' file dst',
    llama_state_save_file p cx tokens = (cx', file, Ok true) /\
    llama_state_load_file p alloc file capacity dst =
      (if zlen tokens <=? capacity then (dst', Some tokens, Ok true) else (dst, None, Ok false)) /\
    state_restored p cx dst o dst'.
Proof using Hready Halloc Hfits.
  intros Ht Hlen. destruct state_roundtrips as (pos & sb & dst' & E & W & R & S). set (bytes := state_bytes p cx o pos) in *.
  pose proof (zlen_nonneg tokens).
  assert (Hw : writes (file_header SESSION_MAGIC SESSION_VERSION tokens ++ (state_chunks p cx).1)
    ((le_bytes 4 SESSION_MAGIC ++ le_bytes 4 SESSION_VERSION ++ le_bytes 4 (zlen tokens) ++ concat (le_bytes 4 <$> tokens)) ++ bytes)).
  { apply writes_app; [|done]. apply writes_raw, writes_raw, writes_raw, writes_last. }
  eexists _, _, dst'. splits; [|  |exact S].
  - unfold llama_state_save_file. rewrite (writes_file _ _ Hw). reflexivity.
  - unfold llama_state_load_file. cbn [fst].
    assert (Hhead : forall rest, read_header SESSION_MAGIC SESSION_VERSION capacity
      (mk_reader ((le_bytes 4 SESSION_MAGIC ++ le_bytes 4 SESSION_VERSION ++ le_bytes 4 (zlen tokens) ++ concat (le_bytes 4 <$> tokens)) ++ rest) 0 dst) =
      if zlen tokens <=? capacity then (mk_reader rest (12 + 4 * zlen tokens) dst, Ok (Some tokens))
      else (mk_reader (concat (le_bytes 4 <$> tokens) ++ rest) 12 dst, Ok None)).
    { intros rest. rewrite <- !app_assoc. unfold read_header. unfold mbind, reads_bind.
      rewrite (consumes_run _ _ _ _ _ _ _ (consumes_u32 SESSION_MAGIC dst)). rewrite (consumes_run _ _ _ _ _ _ _ (consumes_u32 SESSION_VERSION dst)).
      cbn [u32]. change (negb (u32 SESSION_MAGIC =? SESSION_MAGIC) || negb (u32 SESSION_VERSION =? SESSION_VERSION)) with false. cbn beta iota.
      rewrite (consumes_run _ _ _ _ _ _ _ (consumes_u32 (zlen tokens) dst)). rewrite u32_small by lia. rewrite !zlen_le_bytes.
      destruct (Z.ltb_spec capacity (zlen tokens)), (Z.leb_spec (zlen tokens) capacity); try lia; [done|].
      rewrite (consumes_run _ _ _ _ _ rest _ (consumes_read (concat (le_bytes 4 <$> tokens)) dst (4 * zlen tokens) ltac:(rewrite zlen_words_bytes; lia))).
      rewrite zlen_words_bytes. unfold mret, reads_ret. f_equal; [f_equal; lia|]. do 2 f_equal. unfold zlen. rewrite Nat2Z.id, words_bytes, <- list_fmap_compose.
      rewrite <- (list_fmap_id tokens) at 2. apply list_fmap_ext. intros ? x Hx%list_elem_of_lookup_2. rewrite Forall_forall in Ht. unfold compose.
      rewrite i32_u32. apply i32_small. by apply Ht. }
    rewrite Hhead. destruct (zlen tokens <=? capacity); [|done]. cbn [rd_left]. specialize (R [] 0). rewrite app_nil_r in R. rewrite R.
    cbn [fst snd rd_ctx mbind res_bind]. by rewrite Z.eqb_refl.
Qed.
End roundtrip.

(** * One sequence *)

(** The positions of the cells [l]. *)
Definition positions (cache : kv_cache) (l : list Z) : list Z := (fun i => c_pos (cell_of cache i)) <$> l.

Lemma spec_rm_idem d s : spec_rm d (-1) (-1) (spec_rm d (-1) (-1) s) = spec_rm d (-1) (-1) s.
Proof.
  destruct s as [[q T]|]; [|done]. cbn [spec_rm]. destruct (in_range_pos (-1) (-1) q) eqn:E; [|cbn [spec_rm]; by rewrite E].
  destruct (d <? 0) eqn:Ed; [done|]. unfold owned. case_decide as H1; [done|]. cbn [spec_rm]. rewrite E, Ed.
  unfold owned. replace (T ∖ {[d]} ∖ {[d]}) with (T ∖ {[d]}) by set_solver. by rewrite decide_False.
Qed.

(** The tokens of sequence [d] at the given positions, as [read_kv_cache_meta] puts
    them into a ubatch. *)
Definition seq_ubatch (d : Z) (pos : list Z) : llama_ubatch :=
  mk_ubatch true (zlen pos) (zlen pos) 1 (Some []) None pos [1] [[d]] [].

Lemma seq_ubatch_valid d pos :
  0 < zlen pos <= INT32_MAX -> Forall (fun q => 0 <= q <= INT32_MAX) pos -> ub_valid (seq_ubatch d pos).
Proof.
  intros Hlen Hpos. split; cbn; [lia|lia|lia| |].
  - intros t Ht. destruct (zlookup_lt pos t Ht) as [q Hq]. exists q. split; [done|].
    rewrite Forall_forall in Hpos. apply Hpos, elem_of_zlookup. by exists t.
  - intros s Hs. assert (s = 0) as -> by lia. by exists 1, [d].
Qed.

Lemma seq_token_slot d pos k q : 0 <= k -> zlookup pos k = Some q -> token_slot (seq_ubatch d pos) k = Some (q, {[d]}).
Proof.
  intros Hk Hq. pose proof (zlookup_Some_lt _ _ _ Hq) as Hr. unfold token_slot. cbn [ub_pos ub_n_seq_id ub_seq_id ub_n_seq_tokens seq_ubatch].
  rewrite Hq. cbn [mbind option_bind]. rewrite Z.div_small by lia.
  change (seqs_at [1] [[d]] 0) with (Some [d]). cbn [mbind option_bind]. by replace (list_to_set [d]) with ({[d]} : gset Z) by set_solver.
Qed.

Lemma read_positions_consume cx l :
  Forall (fun q => 0 <= q <= INT32_MAX) l ->
  consumes (read_positions (length l)) (concat ((fun q => le_bytes 4 q ++ le_bytes 4 0) <$> l)) cx cx (Some l).
Proof.
  induction 1 as [|q l Hq _ IH]; cbn [read_positions length fmap list_fmap concat]; [apply consumes_ret|].
  rewrite <- app_assoc. eapply consumes_bind; [apply consumes_i32|]. cbn beta. rewrite i32_small by (unfold INT32_MIN; lia).
  eapply consumes_bind; [apply consumes_u32|]. cbn beta. change (negb (u32 0 =? 0)) with false. cbn iota.
  eapply consumes_last; [exact IH|]. cbn beta iota. apply consumes_ret.
Qed.

(** A cell by its slot. *)
Lemma slot_cell cache i q T : zlookup (slots cache) i = Some (Some (q, T)) ->
  exists c, zlookup (kv_cells cache) i = Some c /\ c_pos c = q /\ c_seq_id c = T.
Proof.
  unfold slots. rewrite zlookup_fmap. destruct (zlookup (kv_cells cache) i) as [c|]; [|done]. intros [= H]. exists c. split; [done|].
  unfold cell_slot in H. destruct (is_empty c); [done|]. by injection H.
Qed.

Lemma zlen_slots cache : zlen (slots cache) = kv_size cache.
Proof. unfold slots, kv_size, zlen. by rewrite length_fmap. Qed.

(** A cell of the window of a sequence. *)
Lemma window_cell d pos h left cache k :
  free_window left h (zlen pos) -> stored (seq_ubatch d pos) h left (slots cache) -> 0 <= k < zlen pos ->
  exists c q, zlookup (kv_cells cache) (h + k) = Some c /\ zlookup pos k = Some q /\ c_pos c = q /\ c_seq_id c = {[d]}.
Proof.
  intros (W1 & W2 & _) [S1 S2] Hk. destruct (zlookup_lt pos k) as [q Hq]; [lia|]. specialize (S2 (h + k) ltac:(lia)).
  change (ub_n_tokens (seq_ubatch d pos)) with (zlen pos) in S2. rewrite bool_decide_eq_true_2 in S2 by lia.
  replace (h + k - h) with k in S2 by lia. rewrite (seq_token_slot d pos k q) in S2 by (done || lia).
  apply slot_cell in S2 as (c & ? & ? & ?). by exists c, q.
Qed.

Section seq.
Context (p : state_params) (cx dst : state_ctx) (s d : Z).
Context (Hshape : ctx_shape p cx) (Hcells : kv_wf (st_cache cx)).
Context (Hdshape : ctx_shape p dst) (Hdcells : kv_wf (st_cache dst)) (Hcm : compatible cx dst).
Context (Hs : 0 <= s) (Hd : 0 <= d) (Hne : saved (st_cache cx) s <> []).
Local Abbreviation l := (saved (st_cache cx) s).
Local Abbreviation pos := (positions (st_cache cx) l).
Local Abbreviation ub := (seq_ubatch d pos).
(** The slots that are left when the old tokens of the sequence are removed. *)
Definition slots_left : list slot := spec_rm d (-1) (-1) <$> slots (st_cache dst).

Lemma zlen_positions : zlen pos = zlen l.
Proof using. unfold positions, zlen. by rewrite length_fmap. Qed.

Lemma positions_ok : Forall (fun q => 0 <= q <= INT32_MAX) pos /\ 0 < zlen l <= KV_SIZE_MAX.
Proof using Hcells Hne Hs.
  clear -Hcells Hne Hs. split.
  - apply Forall_fmap, Forall_forall. intros i (c & Hc & Hsel)%elem_of_saved. unfold compose, cell_of. rewrite Hc. cbn.
    pose proof (kw_cells _ Hcells) as Hok. rewrite Forall_forall in Hok.
    destruct (Hok c) as [[_ He]|[H _]]; [apply elem_of_zlookup; exists i; split; [by apply zlookup_Some_lt in Hc|done]| |done].
    unfold cell_selected, has_seq_id in Hsel. rewrite He in Hsel. destruct (Z.eqb_spec s (-1)); [lia|]. cbn in Hsel. case_bool_decide; set_solver.
  - split; [destruct l; [done|rewrite zlen_cons; pose proof (zlen_nonneg l); lia]|].
    unfold saved. rewrite zlen_saved_from. pose proof (length_filter (fun c => cell_selected s c = true) (kv_cells (st_cache cx))).
    pose proof (kw_size _ Hcells). unfold kv_size, zlen in *. lia.
Qed.

Lemma seq_meta_bytes : meta_bytes (st_cache cx) s = concat ((fun q => le_bytes 4 q ++ le_bytes 4 0) <$> pos).
Proof using Hs.
  unfold meta_bytes, positions. rewrite <- list_fmap_compose. f_equal. apply list_fmap_ext. intros ? i _. unfold cell_bytes, compose.
  destruct (Z.eqb_spec s (-1)); [lia|]. cbn [Z.eqb]. by rewrite app_nil_r.
Qed.

(** What reading the cells does, with the slot that was found. *)
Lemma meta_seq_consumes :
  exists ok cache sb, consumes (read_kv_cache_meta (zlen l) d) (meta_bytes (st_cache cx) s) dst (set_kv cache (set_sb sb dst)) ok /\
    kv_wf cache /\ kv_size cache = kv_size (st_cache dst) /\
    if ok : bool then free_window slots_left (kv_head cache) (zlen l) /\ stored ub (kv_head cache) slots_left (slots cache)
    else slots cache = slots_left /\ forall h, ~ free_window slots_left h (zlen l).
Proof using Hcells Hdcells Hs Hd Hne.
  clear Hshape Hdshape Hcm.
  destruct positions_ok as [Hpos Hlen]. pose proof zlen_positions as Hzp.
  pose proof (seq_rm_spec (st_cache dst) d (-1) (-1) Hdcells) as Hrm. apply safe_ok in Hrm as ([b c1] & Erm & _ & W1 & S1). cbn [snd] in *.
  assert (Hsize1 : kv_size c1 = kv_size (st_cache dst)).
  { rewrite <- (zlen_slots c1), <- (zlen_slots (st_cache dst)), S1. unfold zlen. by rewrite length_fmap. }
  assert (Hub : ub_valid ub) by (apply seq_ubatch_valid; [unfold KV_SIZE_MAX, INT32_MAX in *; lia|done]).
  pose proof (find_slot_attention_spec c1 ub W1 Hub) as Hfind. apply safe_ok in Hfind as ([slot c2] & Efind & W2 & S2 & Hslot). cbn [fst snd] in *.
  change (ub_n_tokens ub) with (zlen pos) in Hslot. rewrite S1, Hzp in Hslot. fold slots_left in Hslot.
  exists (slot_found slot), c2, (reserve_ubatch (st_sbatch dst) (zlen l) false).1. rewrite <- Hsize1, <- S2. split; [|split; [done|split; [done|]]].
  2:{ destruct (slot_found slot); [by destruct Hslot as (_ & ? & ?)|done]. }
  unfold read_kv_cache_meta. destruct (Z.eqb_spec d (-1)); [lia|]. cbn [negb].
  eapply consumes_last with (cx2 := set_kv c2 (set_sb (reserve_ubatch (st_sbatch dst) (zlen l) false).1 dst)) (a := slot_found slot).
  - unfold read_meta_seq. eapply consumes_step; [apply consumes_lift; rewrite Erm; reflexivity|]. cbn beta. cbn [snd].
    eapply consumes_step; [apply consumes_lift; reflexivity|]. cbn beta. cbn [fst snd reserve_ubatch sb_capacity].
    rewrite seq_meta_bytes. eapply consumes_last; [replace (Z.to_nat (zlen l)) with (length pos) by (unfold zlen in *; lia); by apply read_positions_consume|].
    cbn beta iota. rewrite !put_ok by (done || lia).
    eapply consumes_step; [by apply consumes_res|]. cbn beta. eapply consumes_step; [by apply consumes_res|]. cbn beta.
    eapply consumes_step.
    { apply consumes_lift. cbn [st_cache set_sb set_kv]. unfold llama_kv_cache_find_slot. rewrite (kw_attention _ W1).
      change ([] ++ [1]) with [1]. change ([] ++ [[d]]) with [[d]].
      replace (mk_ubatch true (zlen l) (zlen l) 1 (Some []) None pos [1] [[d]] []) with ub by (unfold seq_ubatch; by rewrite Hzp).
      rewrite Efind. reflexivity. }
    cbn beta. cbn [fst snd]. destruct (slot_found slot) eqn:Ef; cbn [negb]; [|apply consumes_ret].
    destruct Hslot as (_ & Hwin & Hst).
    eapply consumes_step; [apply consumes_get|]. cbn beta zeta. cbn [st_cache set_kv].
    assert (Hfit : 0 <= kv_head c2 /\ kv_head c2 + zlen l <= kv_size c2).
    { destruct Hwin as (? & ? & _), Hst as [E _]. rewrite zlen_slots in E. lia. }
    pose proof (kw_size _ W2) as Hmax. unfold KV_SIZE_MAX in *. rewrite <- Hzp in Hwin.
    destruct (window_cell _ _ _ _ _ 0 Hwin Hst) as (ca & qa & A1 & A2 & A3 & A4); [lia|]. rewrite Z.add_0_r in A1.
    destruct (window_cell _ _ _ _ _ (zlen l - 1) Hwin Hst) as (cb & qb & B1 & B2 & B3 & B4); [lia|].
    replace (kv_head c2 + (zlen l - 1)) with (kv_head c2 + zlen l - 1) in B1 by lia.
    rewrite !u32_small by lia. rewrite (vget_Some _ _ _ A1), (vget_Some _ _ _ A2), (vget_Some _ _ _ B1), (vget_Some _ _ _ B2).
    destruct (Z.leb_spec (kv_head c2 + zlen l) (kv_size c2)); [|lia].
    unfold has_seq_id.
    eapply consumes_step; [by apply consumes_res|]. cbn beta. eapply consumes_step; [by apply consumes_res|]. cbn beta.
    eapply consumes_step; [by apply consumes_res|]. cbn beta. rewrite A3, Z.eqb_refl.
    eapply consumes_step; [by apply consumes_res|]. cbn beta. eapply consumes_step; [by apply consumes_res|]. cbn beta.
    eapply consumes_step; [by apply consumes_res|]. cbn beta. rewrite B3, Z.eqb_refl.
    eapply consumes_step; [by apply consumes_res|]. cbn beta. rewrite A4, B4, bool_decide_eq_true_2 by set_solver.
    eapply consumes_step; [by apply consumes_res|]. cbn beta. eapply consumes_step; [by apply consumes_res|]. cbn beta. apply consumes_ret.
  - cbn beta. destruct (slot_found slot); cbn [negb]; [|apply consumes_ret].
    eapply consumes_step; [apply consumes_get|]. cbn beta. cbn [st_cache set_kv]. rewrite (kw_attention _ W2). apply consumes_ret.
Qed.

(** C23. One sequence: the bytes that [llama_state_seq_get_data] writes for sequence
    [s] - as many as [llama_state_seq_get_size] says - are read by
    [llama_state_seq_set_data] as sequence [d] of a context of the same model. When
    the cache without the old tokens of [d] has a window for the cells, they are
    put there, in their order, with their positions, owned by [d] alone, and with
    their keys and values in every layer; all other cells keep theirs. Otherwise
    the call returns 0, and the old tokens of [d] are gone. *)
Theorem seq_roundtrip :
  exists bytes, llama_state_seq_get_size p cx s = Ok (zlen bytes) /\
    (forall size, zlen bytes <= size -> llama_state_seq_get_data p cx size s = (bytes, Ok (zlen bytes))) /\
    exists dst' r, llama_state_seq_set_data p bytes d dst = (dst', Ok r) /\ kv_wf (st_cache dst') /\
      ((exists h, free_window slots_left h (zlen l)) ->
         let head := kv_head (st_cache dst') in
         r = zlen bytes /\ free_window slots_left head (zlen l) /\
         (forall i, 0 <= i < kv_size (st_cache dst) -> zlookup (slots (st_cache dst')) i =
            if bool_decide (head <= i < head + zlen l)
            then (fun j => Some (c_pos (cell_of (st_cache cx) j), {[d]})) <$> zlookup l (i - head)
            else zlookup slots_left i) /\
         rows_restored p cx dst dst' head l) /\
      ((forall h, ~ free_window slots_left h (zlen l)) ->
         r = 0 /\ slots (st_cache dst') = slots_left /\ st_k dst' = st_k dst /\ st_v dst' = st_v dst).
Proof using Hshape Hcells Hdshape Hdcells Hcm Hs Hd Hne.
  pose proof (kv_cache_writes p cx s Hshape) as W. exists (kv_bytes p cx s). pose proof (writes_size _ _ W) as Hsize. split; [exact Hsize|]. split.
  { intros size Hsz. unfold llama_state_seq_get_data. by rewrite (writes_buffer _ _ W size Hsz), Hsize. }
  destruct positions_ok as [_ Hlen]. unfold KV_SIZE_MAX in Hlen.
  destruct meta_seq_consumes as (ok & cache & sb & Hc & W1 & S1 & Hok). set (mid := set_kv cache (set_sb sb dst)) in *.
  unfold llama_state_seq_set_data, state_seq_set_data_internal.
  assert (Hstart : forall rest, read_kv_cache p d (mk_reader (kv_bytes p cx s ++ rest) 0 dst) =
    (ok ← (if ok : bool then read_kv_cache_data p (zlen l) else mret false);
     if ok : bool then mret tt
     else _ ← (if d =? -1 then (cx ← get_ctx; put_ctx (clear_kv cx))
               else lift (fun cx => r ← llama_kv_cache_seq_rm (st_cache cx) d (-1) (-1); Ok (tt, set_kv r.2 cx)));
          lift_res (throw "failed to restore kv cache"))
    (mk_reader (data_bytes p cx l ++ rest) (4 + zlen (meta_bytes (st_cache cx) s)) mid)).
  { intros rest. unfold read_kv_cache, kv_bytes. unfold mbind at 1, reads_bind at 1. rewrite <- !app_assoc.
    rewrite (consumes_run _ _ _ _ _ _ _ (consumes_u32 (zlen l) dst)), u32_small by lia. rewrite zlen_le_bytes.
    unfold mbind at 1, reads_bind at 1. rewrite (consumes_run _ _ _ _ _ _ _ Hc). reflexivity. }
  specialize (Hstart []). rewrite app_nil_r in Hstart. rewrite Hstart. clear Hstart. destruct ok.
  - destruct Hok as [Hwin Hst].
    assert (Hfit : 0 <= kv_head cache /\ kv_head cache + zlen l <= kv_size cache).
    { destruct Hwin as (? & ? & _), Hst as [E _]. rewrite zlen_slots in E. lia. }
    assert (Hmsh : ctx_shape p mid) by (destruct Hdshape; by split; cbn [st_cache mid set_kv]; rewrite ?S1).
    destruct (data_consumes p cx mid l Hshape Hmsh) as (k & v & Hdata & _ & _ & Hrows); [by destruct Hcm| |apply Hfit|apply Hfit|].
    { intros i (c & Hi & _)%elem_of_saved. by apply zlookup_Some_lt in Hi. }
    exists (set_tensors k v mid), (zlen (kv_bytes p cx s)). unfold mbind, reads_bind.
    rewrite (consumes_run _ _ _ _ _ _ _ Hdata). unfold mret, reads_ret. cbn [fst snd rd_ctx rd_size]. split; [|split; [done|split]].
    + replace (4 + _ + _) with (zlen (kv_bytes p cx s)); [done|]. unfold kv_bytes. rewrite !zlen_app, zlen_le_bytes. lia.
    + intros _. cbn [st_cache set_tensors mid set_kv]. split; [done|]. split; [exact Hwin|]. split.
      * intros i Hi. destruct Hst as [St1 St2]. rewrite zlen_slots in St1. rewrite St2 by lia. change (ub_n_tokens ub) with (zlen pos). rewrite zlen_positions.
        case_bool_decide as Hin; [|done]. destruct (zlookup_lt l (i - kv_head cache)) as [j Hj]; [lia|]. rewrite Hj. cbn.
        rewrite (seq_token_slot d pos _ (c_pos (cell_of (st_cache cx) j))); [done|lia|]. unfold positions. by rewrite zlookup_fmap, Hj.
      * intros il Hil. destruct (Hrows il Hil) as [R1 R2]. split; [exact R1|]. intros i Hi Hout.
        destruct (R2 i) as [-> ->]; [cbn [st_cache mid set_kv]; lia|done|]. split; [done|]. unfold cell_value. cbn [st_cache mid set_kv]. by rewrite S1.
    + intros Hno. by destruct (Hno (kv_head cache)).
  - destruct Hok as [Hst Hno]. pose proof (seq_rm_spec cache d (-1) (-1) W1) as Hrm. apply safe_ok in Hrm as ([b c3] & Erm & _ & W3 & S3). cbn [snd] in *.
    exists (set_kv c3 mid), 0. unfold mbind, reads_bind, mret, reads_ret. destruct (Z.eqb_spec d (-1)); [lia|]. unfold lift. cbn [rd_ctx].
    cbn [st_cache mid set_kv]. rewrite Erm. cbn. split; [done|split; [done|split]].
    + intros [h Hh]. by destruct (Hno h).
    + intros _. splits; try done. rewrite S3, Hst. unfold slots_left. rewrite <- list_fmap_compose. apply list_fmap_ext. intros ? sl _. apply spec_rm_idem.
Qed.
End seq.
