(* ===== verification/StateExamples.v ===== *)
(** Examples of saving and restoring, and where restoring falls short. *)
From S2P Require Import Prelude Batch KvCache KvSpec KvUpdate Outputs State StateBytes StateRead StateSpec.

(** * Examples *)

(** A model of one layer with rows of two bytes, and values that are transposed. *)
Definition demo_sparams : state_params :=
  mk_sparams [108; 108] 1 (fun _ => 2) (fun _ => 2) (fun _ n => n) (fun _ => 1) (mk_oparams 2 2 4 1 false false).

Definition demo_tensor (first size : Z) : tensor := mk_tensor 1 (zseq first (Z.to_nat (2 * size))).

(** Two sequences in a cache of four cells, and the outputs of a batch of two. *)
Definition demo_sctx : state_ctx :=
  mk_sctx (mk_cache false false false true 3 2 0
      [mk_cell 5 0 (-1) (-1) {[0]}; cell_init; mk_cell 6 0 (-1) (-1) {[0; 1]}; cell_init])
    [demo_tensor 10 4] [demo_tensor 20 4] true
    sbatch_empty
    (mk_outputs [-1; 0; 1; -1] 2 2 4 0 (Some [7; 8; 9; 10]) None (Some 16)).

(** A cache of three cells with one token. *)
Definition demo_dst : state_ctx :=
  mk_sctx (mk_cache false false false true 1 1 0 [mk_cell 0 0 (-1) (-1) {[0]}; cell_init; cell_init])
    [demo_tensor 30 3] [demo_tensor 40 3] true
    sbatch_empty
    (mk_outputs [] 0 0 0 0 None None None).

Definition demo_alloc (size : Z) : option Z := Some size.

Lemma zlookup_single {A} (a x : A) i : zlookup [a] i = Some x -> i = 0 /\ x = a.
Proof.
  intros H. pose proof (zlookup_Some_lt _ _ _ H) as Hi. change (zlen [a]) with 1 in Hi. assert (i = 0) as -> by lia. by injection H.
Qed.

Lemma demo_shape : ctx_shape demo_sparams demo_sctx /\ ctx_shape demo_sparams demo_dst /\ compatible demo_sctx demo_dst.
Proof.
  split; [|split]; split; try done; try (intros il t [-> ->]%zlookup_single; vm_compute; done).
  - intros il. unfold tensor_of. destruct (decide (il = 0)) as [->|]; [done|].
    assert (Hn : forall t, zlookup [t] il = @None tensor) by (intros t; destruct (zlookup [t] il) eqn:E; [by apply zlookup_single in E as [? _]|done]).
    cbn [st_k demo_sctx demo_dst]. by rewrite !Hn.
  - intros il. unfold tensor_of. destruct (decide (il = 0)) as [->|]; [done|].
    assert (Hn : forall t, zlookup [t] il = @None tensor) by (intros t; destruct (zlookup [t] il) eqn:E; [by apply zlookup_single in E as [? _]|done]).
    cbn [st_v demo_sctx demo_dst]. by rewrite !Hn.
Qed.

Lemma demo_wf : kv_wf (st_cache demo_sctx) /\ kv_wf (st_cache demo_dst).
Proof.
  split; (split; [done| |vm_compute; reflexivity|vm_compute; by split|vm_compute; done]); cbn;
    repeat (apply Forall_cons; split; [unfold cell_ok, INT32_MAX; cbn; first [left; done|right; split; [lia|set_solver]]|]); constructor.
Qed.

Lemma demo_ready : state_ready demo_sparams demo_sctx (st_out demo_sctx).
Proof.
  split; [apply demo_shape|apply demo_wf|exists []; reflexivity| |unfold output_sizes_ok; cbn; lia|reflexivity].
  split.
  - cbn. unfold INT32_MAX. lia.
  - reflexivity.
  - cbn. lia.
  - intros id j Hj. pose proof (zlookup_Some_lt _ _ _ Hj) as Hr. change (zlen _) with 4 in Hr.
    assert (Hc : id = 0 \/ id = 1 \/ id = 2 \/ id = 3) by lia. destruct Hc as [->|[->|[->| ->]]]; injection Hj as <-; cbn; lia.
  - intros j Hj. change (o_n_outputs _) with 2 in Hj. assert (Hc : j = 0 \/ j = 1) by lia.
    exists (j + 1). destruct Hc as [->| ->]; (split; [done|]); intros id' Hid; pose proof (zlookup_Some_lt _ _ _ Hid) as Hr; change (zlen _) with 4 in Hr;
      assert (Hc : id' = 0 \/ id' = 1 \/ id' = 2 \/ id' = 3) by lia; destruct Hc as [->|[->|[->| ->]]]; (done || by injection Hid).
  - split; [done|]. intros _. splits; [done|done|]. eexists. splits; [done|done|]. repeat (constructor; [lia|]). constructor.
  - split; [reflexivity|]. intros [=].
  - cbn. lia.
Qed.

Lemma demo_fits : state_fits demo_sparams demo_sctx demo_dst.
Proof.
  split; [apply demo_shape|apply demo_wf|apply demo_shape|by left|vm_compute; done|].
  intros c id Hc Hid. change (kv_size _) with 3. cbn [st_cache demo_sctx kv_cells] in Hc.
  rewrite !elem_of_cons in Hc. destruct Hc as [->|[->|[->|[->|[]%elem_of_nil]]]]; cbn in Hid; set_unfold in Hid; lia.
Qed.

Lemma state_roundtrip_witness :
  state_ready demo_sparams demo_sctx (st_out demo_sctx) /\ state_fits demo_sparams demo_sctx demo_dst /\
  exists bytes dst', llama_state_get_size demo_sparams demo_sctx = (demo_sctx, Ok (zlen bytes)) /\
    llama_state_set_data demo_sparams demo_alloc bytes demo_dst = (dst', Ok (zlen bytes)) /\
    slots (st_cache dst') = [Some (5, {[0]}); Some (6, {[0; 1]}); None] /\
    cell_key demo_sparams dst' 0 1 = [14; 15] /\ cell_value demo_sparams dst' 0 1 = [22; 26].
Proof.
  split; [exact demo_ready|]. split; [exact demo_fits|].
  destruct (state_roundtrip demo_sparams demo_alloc demo_sctx demo_dst (st_out demo_sctx) demo_ready (fun n => ex_intro _ n eq_refl) demo_fits)
    as (cx' & bytes & dst' & H1 & H2 & _ & _ & H3 & (_ & _ & H4) & H5 & _).
  assert (E : llama_state_get_size demo_sparams demo_sctx = (demo_sctx, Ok 122)) by (vm_compute; reflexivity).
  exists bytes, dst'. destruct (H5 0 ltac:(vm_compute; done)) as [H6 _]. destruct (H6 1 2 ltac:(vm_compute; done)) as [K V]. change (0 + 1) with 1 in K, V.
  split; [rewrite H1 in E; injection E as -> E'; rewrite H1; reflexivity|]. split; [exact H3|]. split; [rewrite H4; vm_compute; reflexivity|].
  split; [rewrite K; vm_compute; reflexivity|rewrite V; vm_compute; reflexivity].
Defined.

Lemma session_file_roundtrip_witness :
  exists cx' file dst', llama_state_save_file demo_sparams demo_sctx [1; 2] = (cx', file, Ok true) /\
    llama_state_load_file demo_sparams demo_alloc file 8 demo_dst = (dst', Some [1; 2], Ok true) /\
    slots (st_cache dst') = [Some (5, {[0]}); Some (6, {[0; 1]}); None].
Proof.
  destruct (session_file_roundtrip demo_sparams demo_alloc demo_sctx demo_dst (st_out demo_sctx) demo_ready (fun n => ex_intro _ n eq_refl)
    demo_fits [1; 2] 8) as (cx' & file & dst' & H1 & H2 & (_ & _ & H4) & _).
  - repeat (constructor; [unfold INT32_MIN, INT32_MAX; lia|]). constructor.
  - vm_compute. reflexivity.
  - exists cx', file, dst'. split; [exact H1|]. split; [exact H2|]. rewrite H4. vm_compute. reflexivity.
Defined.

Lemma seq_roundtrip_witness :
  exists bytes dst', llama_state_seq_get_size demo_sparams demo_sctx 0 = Ok (zlen bytes) /\
    llama_state_seq_set_data demo_sparams bytes 1 demo_dst = (dst', Ok (zlen bytes)) /\
    exists head, 0 <= head /\ cell_key demo_sparams dst' 0 (head + 1) = [14; 15] /\ cell_value demo_sparams dst' 0 (head + 1) = [22; 26].
Proof.
  destruct demo_shape as (D1 & D2 & D3), demo_wf as [W1 W2].
  destruct (seq_roundtrip demo_sparams demo_sctx demo_dst 0 1 D1 W1 D2 W2 D3 ltac:(lia) ltac:(lia)) as (bytes & H1 & _ & dst' & r & H2 & _ & H3 & _).
  - vm_compute. discriminate.
  - assert (Hw : exists h, free_window (slots_left demo_dst 1) h (zlen (saved (st_cache demo_sctx) 0))).
    { exists 1. split; [lia|]. change (zlen (saved (st_cache demo_sctx) 0)) with 2. split; [vm_compute; discriminate|].
      intros i Hi. assert (Hc : i = 1 \/ i = 2) by lia. destruct Hc as [->| ->]; vm_compute; reflexivity. }
    destruct (H3 Hw) as (-> & (Hh & _) & _ & Hr). exists bytes, dst'. split; [exact H1|]. split; [exact H2|].
    exists (kv_head (st_cache dst')). split; [exact Hh|].
    destruct (Hr 0 ltac:(vm_compute; done)) as [R _]. destruct (R 1 2 ltac:(vm_compute; done)) as [K V].
    split; [rewrite K; vm_compute; reflexivity|rewrite V; vm_compute; reflexivity].
Defined.

(** * Where restoring falls short *)

(** The bytes of the state of the example. *)
Definition demo_bytes : list Z := (llama_state_get_data demo_sparams demo_sctx 1000).1.2.

(** A state that ends in the middle of the cells: the exception leaves
    [read_kv_cache] before it clears the cache, so that [llama_state_set_data] returns
    0 with a cell in use that [used] does not count, while the tokens of the context
    are gone. *)
Theorem truncated_state_breaks_cache :
  let r := llama_state_set_data demo_sparams demo_alloc (take 68 demo_bytes) demo_dst in
  r.2 = Ok 0 /\ kv_used (st_cache r.1) = 0 /\ count_used (kv_cells (st_cache r.1)) = 1 /\
  slots (st_cache r.1) = [Some (5, {[0]}); None; None].
Proof. vm_compute. repeat split. Qed.

(** A pending shift: the positions of the source are new, its keys are not rotated. *)
Definition demo_shifted : state_ctx :=
  set_kv (mk_cache true false false true 3 2 0
    [mk_cell 5 3 (-1) (-1) {[0]}; cell_init; mk_cell 6 3 (-1) (-1) {[0; 1]}; cell_init]) demo_sctx.

(** The shift is not saved with the state: the cells come back with their new
    positions, with keys for the old ones, and nothing left to rotate. *)
Lemma pending_shift_is_lost :
  let bytes := (llama_state_get_data demo_sparams demo_shifted 1000).1.2 in
  let r := llama_state_set_data demo_sparams demo_alloc bytes demo_dst in
  r.2 = Ok (zlen bytes) /\ slots (st_cache r.1) = [Some (5, {[0]}); Some (6, {[0; 1]}); None] /\
  kv_has_shift (st_cache r.1) = false /\ (c_delta <$> kv_cells (st_cache r.1)) = [0; 0; 0].
Proof. vm_compute. repeat split. Qed.

(** The other way round, a shift that is pending in the context that is overwritten
    stays: the restored keys will be rotated by it. *)
Lemma old_shift_is_kept :
  let dst := set_kv (mk_cache true false false true 1 1 0 [mk_cell 4 4 (-1) (-1) {[0]}; cell_init; cell_init]) demo_dst in
  let r := llama_state_set_data demo_sparams demo_alloc demo_bytes dst in
  r.2 = Ok (zlen demo_bytes) /\ kv_has_shift (st_cache r.1) = true /\ (c_delta <$> kv_cells (st_cache r.1)) = [4; 0; 0].
Proof. vm_compute. repeat split. Qed.

(** The offset of an element of the transposed values is computed in 32 bits: from
    4 GiB on it is the offset of another one. *)
Lemma v_offset_wraps : v_offset 0 2048 1048576 2 = v_offset 0 0 1048576 2.
Proof. reflexivity. Qed.
