(* ===== verification/Vocab.v ===== *)
(** The vocabulary ([src/llama-vocab.cpp], [llama_vocab] and [llama_vocab::impl]):
    its tables, the look-ups the tokenisers are built from, and the escaping of
    white space. A token's score is a binary32 number. *)
From Stdlib Require Export Floats.SpecFloat.
From S2P Require Import Prelude Unicode.

(** * Data *)

(** A [float]; the comparisons of the language. *)
Abbreviation float := spec_float.

Definition float_lt (a b : float) : bool := SFltb a b.
Definition float_eq (a b : float) : bool := SFeqb a b.
Definition is_nan (a : float) : bool := match a with S754_nan => true | _ => false end.

(** A whole number below [2 ^ 24] as a [float]. *)
Definition float_of_Z (z : Z) : float :=
  match z with
  | 0 => S754_zero false
  | Z.pos p => binary_normalize 24 128 z 0 false
  | Z.neg p => binary_normalize 24 128 z 0 true
  end.

Inductive llama_vocab_type : Type :=
| VOCAB_NONE | VOCAB_SPM | VOCAB_BPE | VOCAB_WPM | VOCAB_UGM | VOCAB_RWKV.

#[export] Instance llama_vocab_type_eq_dec : EqDecision llama_vocab_type.
Proof. solve_decision. Defined.

Definition LLAMA_TOKEN_NULL : Z := -1.

Definition ATTR_UNKNOWN      : Z := 1.
Definition ATTR_UNUSED       : Z := 2.
Definition ATTR_NORMAL       : Z := 4.
Definition ATTR_CONTROL      : Z := 8.
Definition ATTR_USER_DEFINED : Z := 16.
Definition ATTR_BYTE         : Z := 32.
Definition ATTR_NORMALIZED   : Z := 64.
Definition ATTR_LSTRIP       : Z := 128.
Definition ATTR_RSTRIP       : Z := 256.
Definition ATTR_SINGLE_WORD  : Z := 512.

(** [attr & mask] as a condition. *)
Definition has_attr (attr mask : Z) : bool := negb (Z.land attr mask =? 0).

Record token_data : Type := mk_token {
  t_text  : bytes;
  t_score : float;
  t_attr  : Z
}.

(** The fields of [llama_vocab::impl] that tokenisation reads. *)
Record llama_vocab : Type := mk_vocab {
  v_type                 : llama_vocab_type;
  v_max_token_len        : Z;
  v_special_bos_id       : Z;
  v_special_eos_id       : Z;
  v_special_unk_id       : Z;
  v_special_sep_id       : Z;
  v_add_space_prefix     : bool;
  v_add_bos              : bool;
  v_add_eos              : bool;
  v_ignore_merges        : bool;
  v_clean_spaces         : bool;
  v_remove_extra_whitespaces   : bool;
  v_escape_whitespaces         : bool;
  v_treat_whitespace_as_suffix : bool;
  v_token_to_id          : gmap bytes Z;
  v_id_to_token          : list token_data;
  v_cache_special_tokens : list Z;
  v_cache_token_to_piece : list bytes;
  v_bpe_ranks            : gmap (bytes * bytes) Z;
  v_special_eog_ids      : gset Z
}.

Definition n_tokens (v : llama_vocab) : Z := u32 (zlen (v_id_to_token v)).

(** * Look-ups *)

(** [GGML_ASSERT(type != LLAMA_VOCAB_TYPE_NONE)] *)
Definition assert_typed (v : llama_vocab) : res unit :=
  ggml_assert (bool_decide (v_type v <> VOCAB_NONE)).

(** [v.at(i)] of a vector. *)
Definition vec_at {A} (l : list A) (i : Z) : res A :=
  match zlookup l i with Some x => Ok x | None => throw "out_of_range" end.

(** [id_to_token[id].attr & mask] *)
Definition test_attr (v : llama_vocab) (id mask : Z) : res bool :=
  assert_typed v;;
  d ← vget (v_id_to_token v) id;
  mret (has_attr (t_attr d) mask).

Definition is_normal (v : llama_vocab) (id : Z) : res bool := test_attr v id ATTR_NORMAL.
Definition is_unknown (v : llama_vocab) (id : Z) : res bool := test_attr v id ATTR_UNKNOWN.
Definition is_control (v : llama_vocab) (id : Z) : res bool := test_attr v id ATTR_CONTROL.
Definition is_byte (v : llama_vocab) (id : Z) : res bool := test_attr v id ATTR_BYTE.
Definition is_user_defined (v : llama_vocab) (id : Z) : res bool := test_attr v id ATTR_USER_DEFINED.
Definition is_unused (v : llama_vocab) (id : Z) : res bool := test_attr v id ATTR_UNUSED.

Definition is_eog (v : llama_vocab) (id : Z) : bool :=
  negb (id =? LLAMA_TOKEN_NULL) && bool_decide (id ∈ v_special_eog_ids v).

Definition get_token_data (v : llama_vocab) (id : Z) : res token_data :=
  assert_typed v;; vec_at (v_id_to_token v) id.

Definition token_get_attr (v : llama_vocab) (id : Z) : res Z :=
  assert_typed v;;
  d ← vec_at (v_id_to_token v) id;
  mret (t_attr d).

Definition text_to_token (v : llama_vocab) (text : bytes) : res Z :=
  assert_typed v;;
  mret (match v_token_to_id v !! text with Some id => id | None => LLAMA_TOKEN_NULL end).

(** ** Bytes *)

(** [isspace] of the C locale. *)
Definition isspace (c : Z) : bool := (c =? 32) || ((9 <=? c) && (c <=? 13)).

Definition hex_value (c : Z) : option Z :=
  if (48 <=? c) && (c <=? 57) then Some (c - 48)
  else if (65 <=? c) && (c <=? 70) then Some (c - 55)
  else if (97 <=? c) && (c <=? 102) then Some (c - 87)
  else None.

Fixpoint hex_digits (s : bytes) (acc : Z) : Z :=
  match s with
  | c :: s =>
      match hex_value c with Some d => hex_digits s (16 * acc + d) | None => acc end
  | [] => acc
  end.

Fixpoint skip_space (s : bytes) : bytes :=
  match s with c :: s' => if isspace c then skip_space s' else s | [] => [] end.

(** [strtol(s, NULL, 16)] of a short string: white space, a sign, an optional
    [0x] that a digit follows, the digits. *)
Definition strtol16 (s : bytes) : Z :=
  let s := skip_space s in
  let '(sign, s) := match s with
                    | 45 :: s' => (-1, s')
                    | 43 :: s' => (1, s')
                    | _ => (1, s)
                    end in
  let s := match s with
           | 48 :: x :: d :: s' =>
               if ((x =? 120) || (x =? 88)) && bool_decide (is_Some (hex_value d))
               then d :: s' else s
           | _ => s
           end in
  sign * hex_digits s 0.

Definition token_to_byte (v : llama_vocab) (id : Z) : res Z :=
  assert_typed v;;
  b ← is_byte v id;
  ggml_assert b;;
  d ← vec_at (v_id_to_token v) id;
  match v_type v with
  | VOCAB_SPM | VOCAB_UGM =>
      if (3 <=? length (t_text d))%nat then Ok (u8 (strtol16 (substr 3 2 (t_text d))))
      else throw "out_of_range"
  | _ => Err Abort
  end.

(** [hex[i]] *)
Definition hex_char (i : Z) : Z := if i <? 10 then 48 + i else 55 + i.

(** The name of a byte token: [<0xNN>]. *)
Definition byte_name (ch : Z) : bytes :=
  [60; 48; 120; hex_char (Z.shiftr ch 4); hex_char (Z.land ch 15); 62].

Definition byte_to_token (v : llama_vocab) (ch : Z) : res Z :=
  assert_typed v;;
  match v_type v with
  | VOCAB_SPM | VOCAB_UGM =>
      match v_token_to_id v !! byte_name ch with
      | Some id => Ok id
      | None => map_at (v_token_to_id v) (if ch =? 0 then [] else [ch])
      end
  | VOCAB_WPM | VOCAB_BPE => u ← unicode_byte_to_utf8 ch; map_at (v_token_to_id v) u
  | _ => Err Abort
  end.

(** ** Merge ranks *)

(** [s.find(c) == std::string::npos] *)
Definition lacks (c : Z) (s : bytes) : bool := bool_decide (c ∉ s).

Definition find_bpe_rank (v : llama_vocab) (token_left token_right : bytes) : res Z :=
  ggml_assert (lacks 32 token_left);;
  ggml_assert (lacks 10 token_left);;
  ggml_assert (lacks 32 token_right);;
  ggml_assert (lacks 10 token_right);;
  mret (match v_bpe_ranks v !! (token_left, token_right) with Some r => r | None => -1 end).

(** * White space *)

(** [s.find(k, pos)] *)
Definition string_find (s k : bytes) (pos : nat) : option nat :=
  if (pos <=? length s)%nat then Nat.add pos <$> find_sub k (drop pos s) else None.

Definition replace_step (s search replace : bytes) (st : bytes * nat) :
    res (step (bytes * nat) bytes) :=
  let '(builder, last_pos) := st in
  match string_find s search last_pos with
  | Some pos =>
      mret (Next (builder ++ substr last_pos (pos - last_pos) s ++ replace,
                  (pos + length search)%nat))
  | None => mret (Done (builder ++ drop last_pos s))
  end.

Definition replace_all (s search replace : bytes) : res bytes :=
  match search with
  | [] => Ok s
  | _ => while (replace_step s search replace) (S (length s)) ([], O)
  end.

(** U+2581, the visible space of SentencePiece. *)
Definition visible_space : bytes := [226; 150; 129].

Definition llama_escape_whitespace (text : bytes) : res bytes :=
  replace_all text [32] visible_space.

Definition llama_unescape_whitespace (word : bytes) : res bytes :=
  replace_all word visible_space [32].

(** * Decoding the byte-level alphabet *)

(** [format("%02x", b)] *)
Definition hex_lower (i : Z) : Z := if i <? 10 then 48 + i else 87 + i.
Definition format_02x (b : Z) : bytes := [hex_lower (b / 16); hex_lower (b mod 16)].

Definition decode_text_step (text : bytes) (decoded_text : bytes) (cpt : Z) : res bytes :=
  utf8 ← unicode_cpt_to_utf8 cpt;
  match unicode_utf8_to_byte utf8 with
  | Ok b => mret (decoded_text ++ [b])
  | Err (Throw _) =>
      mret (decoded_text ++ str "[UNK_BYTE_0x" ++ concat (format_02x <$> utf8) ++ text ++ str "]")
  | Err e => Err e
  end.

Definition llama_decode_text (text : bytes) : res bytes :=
  cpts ← unicode_cpts_from_utf8 text;
  foldM (decode_text_step text) [] cpts.

(** * The order of the scores *)

(** A float other than NaN as a triple that is ordered lexicographically. *)
Definition float_rank (a : float) : Z * Z * Z :=
  match a with
  | S754_zero _ | S754_nan => (0, 0, 0)
  | S754_infinity true => (-2, 0, 0)
  | S754_infinity false => (2, 0, 0)
  | S754_finite true m e => (-1, - e, - Z.pos m)
  | S754_finite false m e => (1, e, Z.pos m)
  end.

Definition rank_lt (a b : Z * Z * Z) : Prop :=
  a.1.1 < b.1.1 \/ (a.1.1 = b.1.1 /\ (a.1.2 < b.1.2 \/ (a.1.2 = b.1.2 /\ a.2 < b.2))).

Lemma float_compare_rank a b :
  is_nan a = false -> is_nan b = false ->
  match SFcompare a b with
  | Some Lt => rank_lt (float_rank a) (float_rank b)
  | Some Eq => float_rank a = float_rank b
  | Some Gt => rank_lt (float_rank b) (float_rank a)
  | None => False
  end.
Proof.
  unfold rank_lt. destruct a as [[]|[]| |[] m e], b as [[]|[]| |[] m' e']; cbn [is_nan]; try discriminate;
    intros _ _; cbn; try lia; try done;
    (destruct (Z.compare_spec e e') as [->|He|He]; cbn; [|lia|lia]);
    change (Pos.compare_cont Eq m m') with (Pos.compare m m');
    (destruct (Pos.compare_spec m m') as [->|Hm|Hm]; cbn; [done|lia|lia]).
Qed.

Lemma float_lt_rank a b :
  is_nan a = false -> is_nan b = false ->
  float_lt a b = true <-> rank_lt (float_rank a) (float_rank b).
Proof.
  intros Ha Hb. pose proof (float_compare_rank a b Ha Hb) as H. unfold float_lt, SFltb, rank_lt in *.
  destruct (SFcompare a b) as [[]|]; [rewrite H| | |]; naive_solver lia.
Qed.

Lemma float_eq_rank a b :
  is_nan a = false -> is_nan b = false ->
  float_eq a b = true <-> float_rank a = float_rank b.
Proof.
  intros Ha Hb. pose proof (float_compare_rank a b Ha Hb) as H. unfold float_eq, SFeqb, rank_lt in *.
  destruct (SFcompare a b) as [[]|]; [done| | |done]; (split; [done|]); intros E; rewrite E in H; lia.
Qed.

(** * Replacing *)

Section replacing.
Context (search replace : bytes) (Hne : search <> []).

Lemma find_sub_cons_miss k x s :
  starts_with k (x :: s) = false -> find_sub k (x :: s) = S <$> find_sub k s.
Proof. intros H. cbn [find_sub]. by rewrite H. Qed.

Lemma find_sub_hit k s : find_sub k (k ++ s) = Some O.
Proof.
  assert (starts_with k (k ++ s) = true) as H by (apply starts_with_spec; by exists s).
  destruct (k ++ s); cbn [find_sub]; by rewrite H.
Qed.

(** The text after replacing, by recursion on the text. *)
Fixpoint replaced (fuel : nat) (s : bytes) : bytes :=
  match fuel with
  | O => s
  | S fuel =>
      match find_sub search s with
      | Some n => take n s ++ replace ++ replaced fuel (drop (n + length search) s)
      | None => s
      end
  end.

Lemma replaced_S f s :
  replaced (S f) s = match find_sub search s with
                     | Some n => take n s ++ replace ++ replaced f (drop (n + length search) s)
                     | None => s
                     end.
Proof. done. Qed.

Lemma find_sub_bound k s n : find_sub k s = Some n -> (n + length k <= length s)%nat.
Proof.
  intros H. destruct (find_sub_Some _ _ _ H) as (t & Ht).
  assert (length (take n s) = n) as Hn; [|by rewrite Ht, !length_app, Hn; lia].
  rewrite length_take. enough (n <= length s)%nat by lia.
  revert n H Ht. induction s as [|y s IH]; intros n; cbn [find_sub]; destruct (starts_with _ _);
    intros H; try (injection H as <-; lia); try discriminate.
  destruct (find_sub k s) as [m|] eqn:E; [|discriminate]. injection H as <-.
  intros Ht. cbn in Ht. injection Ht as Ht. specialize (IH m eq_refl Ht). cbn. lia.
Qed.

Lemma replace_loop s fuel builder last :
  (length s - last < fuel)%nat -> (last <= length s)%nat ->
  while (replace_step s search replace) fuel (builder, last) =
    Ok (builder ++ replaced fuel (drop last s)).
Proof using Hne.
  revert builder last. induction fuel as [|fuel IH]; intros builder last Hf Hl; [lia|].
  cbn [while replace_step mbind res_bind replaced]. unfold string_find.
  destruct (Nat.leb_spec last (length s)); [|lia].
  destruct (find_sub search (drop last s)) as [n|] eqn:E; cbn [fmap option_fmap option_map mret res_ret mbind res_bind].
  - pose proof (find_sub_bound _ _ _ E) as Hb. rewrite length_drop in Hb.
    assert (length search <> 0)%nat by (destruct search; [done|cbn; lia]).
    rewrite IH by lia. rewrite <- !app_assoc, drop_drop. unfold substr.
    replace (last + n - last)%nat with n by lia. by rewrite Nat.add_assoc.
  - done.
Qed.

Lemma replaced_fuel f f' s :
  (length s < f)%nat -> (length s < f')%nat -> replaced f s = replaced f' s.
Proof using Hne.
  revert f' s. induction f as [|f IH]; intros [|f'] s Hf Hf'; try lia. cbn [replaced].
  destruct (find_sub search s) as [n|] eqn:E; [|done]. do 2 f_equal.
  pose proof (find_sub_bound _ _ _ E). assert (length search <> 0)%nat by (destruct search; [done|cbn; lia]).
  apply IH; rewrite length_drop; lia.
Qed.

Lemma replace_all_eq s : replace_all s search replace = Ok (replaced (S (length s)) s).
Proof using Hne.
  trans (while (replace_step s search replace) (S (length s)) ([], O)).
  { clear -Hne. unfold replace_all. by destruct search. }
  rewrite replace_loop by lia. by rewrite app_nil_l, drop_0.
Qed.

Lemma replaced_miss x s :
  starts_with search (x :: s) = false ->
  replaced (S (length (x :: s))) (x :: s) = x :: replaced (S (length s)) s.
Proof using Hne.
  intros H. rewrite (replaced_S (length (x :: s))), (replaced_S (length s)), find_sub_cons_miss by done.
  destruct (find_sub search s) as [n|] eqn:E; cbn [fmap option_fmap option_map]; [|done].
  pose proof (find_sub_bound _ _ _ E). assert (length search <> 0)%nat by (destruct search; [done|cbn; lia]).
  cbn [take drop app Nat.add length]. do 3 f_equal. apply replaced_fuel; rewrite length_drop; lia.
Qed.

Lemma replaced_hit s :
  replaced (S (length (search ++ s))) (search ++ s) = replace ++ replaced (S (length s)) s.
Proof using Hne.
  rewrite (replaced_S (length (search ++ s))), find_sub_hit, take_0, app_nil_l, Nat.add_0_l, drop_app_length. f_equal.
  assert (length search <> 0)%nat by (destruct search; [done|cbn; lia]).
  apply replaced_fuel; [rewrite length_app|]; lia.
Qed.
End replacing.

(** ** White space *)

(** The escaped text: every space made visible. *)
Definition escaped (s : bytes) : bytes :=
  concat ((fun c => if c =? 32 then visible_space else [c]) <$> s).

Lemma llama_escape_whitespace_eq s : llama_escape_whitespace s = Ok (escaped s).
Proof.
  unfold llama_escape_whitespace. rewrite replace_all_eq by done. f_equal.
  induction s as [|c s IH]; [done|]. unfold escaped in *. rewrite fmap_cons. cbn [concat].
  destruct (Z.eqb_spec c 32) as [->|Hc].
  - change (32 :: s) with ([32] ++ s). rewrite replaced_hit by done. by rewrite IH.
  - rewrite replaced_miss; [by rewrite IH|done|]. cbn [starts_with]. by destruct (Z.eqb_spec 32 c) as [<-|].
Qed.

(** The unescaped word. *)
Definition unescaped (s : bytes) : bytes := replaced visible_space [32] (S (length s)) s.

Lemma llama_unescape_whitespace_eq s : llama_unescape_whitespace s = Ok (unescaped s).
Proof. unfold llama_unescape_whitespace, unescaped. by rewrite replace_all_eq. Qed.

Lemma unescaped_space s : unescaped (visible_space ++ s) = 32 :: unescaped s.
Proof. unfold unescaped. by rewrite replaced_hit. Qed.

Lemma unescaped_miss c s :
  starts_with visible_space (c :: s) = false -> unescaped (c :: s) = c :: unescaped s.
Proof. intros H. unfold unescaped. by rewrite replaced_miss. Qed.

(** The characters of a text and the visible space. *)
Definition unescape_char (u : bytes) : bytes := if decide (u = visible_space) then [32] else u.

Lemma unescaped_char cpt u s : utf8_form cpt u -> unescaped (u ++ s) = unescape_char u ++ unescaped s.
Proof.
  intros Hu. unfold unescape_char. case_decide as E; [rewrite E; apply unescaped_space|].
  assert (Hc : forall b s, 128 <= b < 192 -> unescaped (b :: s) = b :: unescaped s).
  { intros b t Hb. apply unescaped_miss. unfold visible_space. cbn [starts_with]. destruct (Z.eqb_spec 226 b); [lia|done]. }
  destruct Hu as [a ?|a b ? ?|a b c ? ? ? ?|a b c d ? ? ? ? ? ?]; cbn [app]; (rewrite unescaped_miss;
    [rewrite ?Hc by lia; done
    |unfold visible_space; cbn [starts_with];
     match goal with |- (226 =? ?b) && _ = _ => destruct (Z.eqb_spec 226 b) as [Hb|]; [|done] end; try lia]).
  cbn [andb]. destruct (Z.eqb_spec 150 (128 + b)) as [E1|]; [|done].
  destruct (Z.eqb_spec 129 (128 + c)) as [E2|]; [|done]. exfalso. apply E. unfold visible_space.
  repeat f_equal; lia.
Qed.

Lemma unescaped_text cps us :
  Forall2 utf8_form cps us -> unescaped (concat us) = concat (unescape_char <$> us).
Proof.
  induction 1 as [|c u cps us Hu _ IH]; [done|]. rewrite fmap_cons. cbn [concat].
  by rewrite (unescaped_char c) , IH.
Qed.

(** ** Byte tokens *)

Lemma byte_name_value ch : byte_ok ch -> u8 (strtol16 (substr 3 2 (byte_name ch))) = ch.
Proof.
  intros Hc.
  assert (H : (u8 (strtol16 (substr 3 2 (byte_name ch))) =? ch) = true); [|by apply Z.eqb_eq].
  apply (zseq_forallb (fun ch => u8 (strtol16 (substr 3 2 (byte_name ch))) =? ch) 0 256);
    [vm_compute; reflexivity|unfold byte_ok in Hc; lia].
Qed.

(** ** The byte-level alphabet *)

Lemma decode_text_steps text cps us bs acc :
  Forall2 utf8_form cps us -> mapM unicode_utf8_to_byte us = Ok bs ->
  foldM (decode_text_step text) acc cps = Ok (acc ++ bs).
Proof.
  intros Hu. revert bs acc. induction Hu as [|c u cps us Hu _ IH]; intros bs acc Hm.
  - cbn in Hm. inv_ok. cbn. by rewrite app_nil_r.
  - cbn [mapM] in Hm. apply res_bind_ok in Hm as (b & Hb & Hm). apply res_bind_ok in Hm as (k & Hk & Hm).
    inv_ok. cbn [foldM].
    assert (decode_text_step text acc c = Ok (acc ++ [b])) as ->.
    { unfold decode_text_step. rewrite (unicode_cpt_to_utf8_complete _ _ Hu). cbn [mbind res_bind]. by rewrite Hb. }
    cbn [mbind res_bind]. rewrite (IH k) by done. by rewrite <- app_assoc.
Qed.

(** A text of the alphabet is decoded to the bytes its characters stand for. *)
Lemma llama_decode_text_alphabet bs us :
  Forall byte_ok bs -> mapM unicode_byte_to_utf8 bs = Ok us -> llama_decode_text (concat us) = Ok bs.
Proof.
  intros Hb Hm. destruct (byte_alphabet_text bs Hb) as (us' & cps & H1 & H2 & H3).
  rewrite H1 in Hm. injection Hm as <-. unfold llama_decode_text.
  rewrite (unicode_cpts_from_utf8_text cps) by (by exists us'). cbn [mbind res_bind].
  by rewrite (decode_text_steps _ _ us' bs).
Qed.
