(* ===== verification/Merge.v ===== *)
(** The merging of adjacent symbols that the SPM and the BPE tokeniser share
    ([src/llama-vocab.cpp]): the list of symbols over a text, the work queue of
    bigrams, and the loop that merges the best bigram until none is left; with
    the reference it implements, the repeated merge of the best adjacent pair. *)
From S2P Require Import Prelude Unicode Vocab.

(** * Symbols *)

(** [llm_symbol]: [text] is a pointer into the tokenised text, here an offset. *)
Record llm_symbol : Type := mk_sym {
  s_prev : Z;
  s_next : Z;
  s_text : nat;
  s_n    : nat
}.

(** [std::string(text.c_str() + off, n)] *)
Definition read_str (text : bytes) (off n : nat) : res bytes :=
  if (off + n <=? length text)%nat then Ok (substr off n text) else Err UB.

Definition sym_str (text : bytes) (s : llm_symbol) : res bytes := read_str text (s_text s) (s_n s).

(** One iteration of the loop that splits a text into UTF-8 characters. *)
Definition split_step (text : bytes) (st : Z * nat * list llm_symbol) :
    res (step (Z * nat * list llm_symbol) (list llm_symbol)) :=
  let '(index, offs, symbols) := st in
  if (offs <? length text)%nat then
    c ← vget text (Z.of_nat offs);
    let len := Z.to_nat (unicode_len_utf8 c) in
    let n := Nat.min len (length text - offs) in
    let next := if (offs + n =? length text)%nat then -1 else index + 1 in
    mret (Next (index + 1, (offs + n)%nat, symbols ++ [mk_sym (index - 1) next offs n]))
  else mret (Done symbols).

Definition split_symbols (text : bytes) (offs : nat) (symbols : list llm_symbol) : res (list llm_symbol) :=
  while (split_step text) (S (length text)) (0, offs, symbols).

(** * The merge loop *)

(** [symbols[i] = f(symbols[i])] *)
Definition upd_sym (symbols : list llm_symbol) (i : Z) (f : llm_symbol -> llm_symbol) : res (list llm_symbol) :=
  s ← vget symbols i; vset symbols i (f s).

(** Merges the right symbol into the left one and removes it from the chain. *)
Definition merge_symbols (symbols : list llm_symbol) (left right : Z) : res (list llm_symbol) :=
  right_sym ← vget symbols right;
  symbols ← upd_sym symbols left (fun s => mk_sym (s_prev s) (s_next s) (s_text s) (s_n s + s_n right_sym));
  symbols ← upd_sym symbols right (fun s => mk_sym (s_prev s) (s_next s) (s_text s) 0);
  right_sym ← vget symbols right;
  symbols ← upd_sym symbols left (fun s => mk_sym (s_prev s) (s_next right_sym) (s_text s) (s_n s));
  if 0 <=? s_next right_sym then
    upd_sym symbols (s_next right_sym) (fun s => mk_sym left (s_next s) (s_text s) (s_n s))
  else Ok symbols.

(** The state of a session: its symbols, its work queue and what else it keeps. *)
Record session (B E : Type) : Type := mk_session {
  ss_symbols : list llm_symbol;
  ss_queue   : list B;
  ss_extra   : E
}.
Arguments mk_session {B E} _ _ _.
Arguments ss_symbols {B E} _.
Arguments ss_queue {B E} _.
Arguments ss_extra {B E} _.

Section engine.
Context `{CppHeap} {B E : Type}.
(** The bigrams: their two symbols and the comparator of the queue. *)
Context (b_left b_right : B -> Z) (lt : B -> B -> bool).
(** Whether a bigram is outdated, and the addition of a bigram to the queue. *)
Context (outdated : llm_symbol -> llm_symbol -> B -> res bool).
Context (try_add : Z -> Z -> session B E -> res (session B E)).

(** Seeds the work queue with all pairs of neighbours. *)
Definition seed (ss : session B E) : res (session B E) :=
  for_z 1 (zlen (ss_symbols ss)) (fun i ss => try_add (i - 1) i ss) ss.

(** The body of the loop, for the bigram taken from the queue. *)
Definition merge_bigram (bigram : B) (ss : session B E) : res (session B E) :=
  let left := b_left bigram in
  let right := b_right bigram in
  left_sym ← vget (ss_symbols ss) left;
  right_sym ← vget (ss_symbols ss) right;
  skip ← outdated left_sym right_sym bigram;
  if skip : bool then mret ss
  else
    symbols ← merge_symbols (ss_symbols ss) left right;
    left_sym ← vget symbols left;
    ss ← try_add (s_prev left_sym) left (mk_session symbols (ss_queue ss) (ss_extra ss));
    try_add left (s_next left_sym) ss.

Definition merge_step (ss : session B E) : res (step (session B E) (session B E)) :=
  match heap_pop lt (ss_queue ss) with
  | None => mret (Done ss)
  | Some (bigram, queue) =>
      ss ← merge_bigram bigram (mk_session (ss_symbols ss) queue (ss_extra ss));
      mret (Next ss)
  end.

Definition merge_all (ss : session B E) : res (session B E) :=
  let fuel := (4 * length (ss_symbols ss) + 1)%nat in
  ss ← seed ss; while merge_step fuel ss.
End engine.

(** [for (int i = 0; i != -1; i = symbols[i].next) body] *)
Definition walk {T A} (next : T -> Z) (body : T -> A -> res A) (symbols : list T) (a : A) : res A :=
  while (fun st : Z * A =>
    let '(i, a) := st in
    if i =? -1 then mret (Done a)
    else s ← vget symbols i; a ← body s a; mret (Next (next s, a)))
    (S (length symbols)) (0, a).

(** * The reference *)

Section reference.
(** The rank of a pair of texts, if they may be merged; a higher rank goes first. *)
Context (rank : bytes -> bytes -> option (Z * Z * Z)).

(** [rank_lt] as a test. *)
Definition rank_ltb (a b : Z * Z * Z) : bool :=
  (a.1.1 <? b.1.1) || ((a.1.1 =? b.1.1) && ((a.1.2 <? b.1.2) || ((a.1.2 =? b.1.2) && (a.2 <? b.2)))).

(** The first of the adjacent pairs of the highest rank. *)
Fixpoint best_pair (ps : list bytes) : option (nat * (Z * Z * Z)) :=
  match ps with
  | a :: ps' =>
      match ps' with
      | b :: _ =>
          match rank a b, best_pair ps' with
          | None, None => None
          | None, Some (k, q) => Some (S k, q)
          | Some p, None => Some (O, p)
          | Some p, Some (k, q) => if rank_ltb p q then Some (S k, q) else Some (O, p)
          end
      | [] => None
      end
  | [] => None
  end.

Fixpoint join_at (k : nat) (ps : list bytes) : list bytes :=
  match k, ps with
  | O, a :: b :: ps => (a ++ b) :: ps
  | S k, a :: ps => a :: join_at k ps
  | _, _ => ps
  end.

(** Merges the best pair as long as there is one. *)
Fixpoint greedy (fuel : nat) (ps : list bytes) : list bytes :=
  match fuel with
  | O => ps
  | S fuel =>
      match best_pair ps with
      | Some (k, _) => greedy fuel (join_at k ps)
      | None => ps
      end
  end.

Definition greedy_merge (ps : list bytes) : list bytes := greedy (length ps) ps.

(** No two neighbours can be merged. *)
Definition stuck (ps : list bytes) : Prop :=
  forall pre a b post, ps = pre ++ a :: b :: post -> rank a b = None.
End reference.

(** The characters of a text, as the splitting loop cuts them. *)
Fixpoint utf8_pieces (fuel : nat) (text : bytes) : list bytes :=
  match fuel, text with
  | S fuel, c :: _ =>
      let n := Nat.min (Z.to_nat (unicode_len_utf8 c)) (length text) in
      take n text :: utf8_pieces fuel (drop n text)
  | _, _ => []
  end.

Definition utf8_chars (text : bytes) : list bytes := utf8_pieces (length text) text.

(** * Facts of the reference *)

Lemma rank_ltb_lt p q : rank_ltb p q = true <-> rank_lt p q.
Proof.
  unfold rank_ltb, rank_lt. rewrite orb_true_iff, andb_true_iff, orb_true_iff, andb_true_iff,
    !Z.ltb_lt, !Z.eqb_eq. tauto.
Qed.

Lemma rank_ltb_spec p q : reflect (rank_lt p q) (rank_ltb p q).
Proof. apply iff_reflect. symmetry. apply rank_ltb_lt. Qed.

Lemma rank_lt_trichotomy p q : rank_lt p q \/ p = q \/ rank_lt q p.
Proof.
  destruct p as [[p1 p2] p3], q as [[q1 q2] q3]. unfold rank_lt. cbn.
  destruct (decide (p1 = q1)) as [->|]; [|lia].
  destruct (decide (p2 = q2)) as [->|]; [|lia].
  destruct (decide (p3 = q3)) as [->|]; [by right; left|lia].
Qed.

Lemma rank_lt_irrefl p : ~ rank_lt p p.
Proof. unfold rank_lt. lia. Qed.

Lemma rank_lt_trans p q r : rank_lt p q -> rank_lt q r -> rank_lt p r.
Proof. unfold rank_lt. lia. Qed.

Section reference_facts.
Context (rank : bytes -> bytes -> option (Z * Z * Z)).

Lemma best_pair_cons a b ps :
  best_pair rank (a :: b :: ps) =
    match rank a b, best_pair rank (b :: ps) with
    | None, None => None
    | None, Some (k, q) => Some (S k, q)
    | Some p, None => Some (O, p)
    | Some p, Some (k, q) => if rank_ltb p q then Some (S k, q) else Some (O, p)
    end.
Proof. done. Qed.

Lemma best_pair_Some ps k p :
  best_pair rank ps = Some (k, p) ->
  exists pre a b post, ps = pre ++ a :: b :: post /\ length pre = k /\ rank a b = Some p.
Proof.
  revert k p. induction ps as [|a [|b ps] IH]; intros k p; [done|done|].
  rewrite best_pair_cons.
  destruct (rank a b) as [p0|] eqn:Hr.
  - destruct (best_pair rank (b :: ps)) as [[k' q]|] eqn:Hb.
    + destruct (rank_ltb p0 q); intros [= <- <-].
      * destruct (IH _ _ eq_refl) as (pre & x & y & post & E & <- & Hq). rewrite E.
        by exists (a :: pre), x, y, post.
      * by exists [], a, b, ps.
    + intros [= <- <-]. by exists [], a, b, ps.
  - destruct (best_pair rank (b :: ps)) as [[k' q]|] eqn:Hb; [|done]. intros [= <- <-].
    destruct (IH _ _ eq_refl) as (pre & x & y & post & E & <- & Hq). rewrite E.
    by exists (a :: pre), x, y, post.
Qed.

Lemma best_pair_None ps : best_pair rank ps = None -> stuck rank ps.
Proof.
  induction ps as [|a [|b ps] IH]; intros H pre x y post E.
  - by destruct pre.
  - by destruct pre as [|? [|]].
  - rewrite best_pair_cons in H.
    destruct (rank a b) as [p0|] eqn:Hr.
    + destruct (best_pair rank (b :: ps)) as [[k' q]|]; [by destruct (rank_ltb p0 q)|done].
    + destruct (best_pair rank (b :: ps)) as [[k' q]|] eqn:Hb; [done|].
      destruct pre as [|z pre]; simplify_list_eq; [done|].
      by apply (IH eq_refl pre x y post).
Qed.

Lemma stuck_best_pair ps : stuck rank ps -> best_pair rank ps = None.
Proof.
  intros Hs. destruct (best_pair rank ps) as [[k p]|] eqn:E; [|done].
  apply best_pair_Some in E as (pre & a & b & post & -> & _ & Hr).
  rewrite (Hs pre a b post) in Hr; done.
Qed.

(** A pair above all others, and strictly above those before it, is the one. *)
Lemma best_pair_at pre a b post p :
  rank a b = Some p ->
  (forall pre' x y post' q, pre ++ a :: b :: post = pre' ++ x :: y :: post' -> rank x y = Some q ->
     ((length pre' < length pre)%nat -> rank_lt q p) /\ ((length pre < length pre')%nat -> ~ rank_lt p q)) ->
  best_pair rank (pre ++ a :: b :: post) = Some (length pre, p).
Proof.
  intros Hr. induction pre as [|c pre IH]; intros Hall.
  - cbn [app]. rewrite best_pair_cons, Hr.
    destruct (best_pair rank (b :: post)) as [[k q]|] eqn:Hb; [|done].
    apply best_pair_Some in Hb as (pre' & x & y & post' & E & <- & Hq).
    destruct (rank_ltb_spec p q) as [Hlt|]; [|done]. exfalso.
    destruct (Hall (a :: pre') x y post' q) as [_ Hn]; [cbn; by rewrite E|done|]. apply Hn; [cbn; lia|done].
  - assert (IH' : best_pair rank (pre ++ a :: b :: post) = Some (length pre, p)).
    { apply IH. intros pre' x y post' q E Hq.
      destruct (Hall (c :: pre') x y post' q) as [H1 H2]; [cbn; by rewrite E|done|].
      cbn in H1, H2. split; intros; [apply H1|apply H2]; lia. }
    assert (exists d rest, pre ++ a :: b :: post = d :: rest) as (d & rest & E)
      by (destruct pre; cbn; eauto).
    cbn [app length]. rewrite E in *. rewrite best_pair_cons, IH'.
    destruct (rank c d) as [q|] eqn:Hq; [|done].
    destruct (Hall [] c d rest q) as [H1 _]; [cbn; by rewrite E|done|].
    cbn in H1. assert (rank_lt q p) as Hlt%rank_ltb_lt by (apply H1; lia). by rewrite Hlt.
Qed.

Lemma join_at_mid pre a b post : join_at (length pre) (pre ++ a :: b :: post) = pre ++ (a ++ b) :: post.
Proof. induction pre as [|c pre IH]; cbn; [done|by rewrite IH]. Qed.

Lemma greedy_merge_join ps k p :
  best_pair rank ps = Some (k, p) -> greedy_merge rank ps = greedy_merge rank (join_at k ps).
Proof.
  intros H. pose proof (best_pair_Some _ _ _ H) as (pre & a & b & post & -> & <- & _).
  unfold greedy_merge. rewrite join_at_mid.
  replace (length (pre ++ a :: b :: post)) with (S (length (pre ++ (a ++ b) :: post)))
    by (rewrite !length_app; cbn; lia).
  cbn [greedy]. by rewrite H, join_at_mid.
Qed.

Lemma greedy_stuck ps fuel : stuck rank ps -> greedy rank fuel ps = ps.
Proof. intros H. destruct fuel; cbn [greedy]; [done|]. by rewrite stuck_best_pair. Qed.

Lemma greedy_concat fuel ps : concat (greedy rank fuel ps) = concat ps.
Proof.
  revert ps. induction fuel as [|fuel IH]; intros ps; cbn [greedy]; [done|].
  destruct (best_pair rank ps) as [[k p]|] eqn:H; [|done].
  apply best_pair_Some in H as (pre & a & b & post & -> & <- & _).
  rewrite IH, join_at_mid, !concat_app. cbn. by rewrite <- app_assoc.
Qed.

(** The merge ends with no pair left. *)
Lemma greedy_is_stuck fuel ps : (length ps <= fuel)%nat -> stuck rank (greedy rank fuel ps).
Proof.
  revert ps. induction fuel as [|fuel IH]; intros ps Hl; cbn [greedy].
  - destruct ps; [|cbn in Hl; lia]. intros [|? pre]; discriminate.
  - destruct (best_pair rank ps) as [[k p]|] eqn:H; [|by apply best_pair_None].
    apply best_pair_Some in H as (pre & a & b & post & -> & <- & _).
    apply IH. rewrite join_at_mid. rewrite !length_app in *. cbn in *. lia.
Qed.

(** Every piece joins consecutive pieces of the start. *)
Lemma greedy_groups fuel ps :
  exists gs : list (list bytes), concat gs = ps /\ greedy rank fuel ps = (@concat Z <$> gs) /\ Forall (fun g => g <> []) gs.
Proof.
  assert (forall gs : list (list bytes), Forall (fun g => g <> []) gs -> exists gs' : list (list bytes), concat gs' = concat gs /\
    greedy rank fuel (@concat Z <$> gs) = (@concat Z <$> gs') /\ Forall (fun g : list bytes => g <> []) gs') as H.
  { induction fuel as [|fuel IH]; intros gs Hg; cbn [greedy]; [by exists gs|].
    destruct (best_pair rank (@concat Z <$> gs)) as [[k p]|] eqn:H; [|by exists gs].
    apply best_pair_Some in H as (pre & a & b & post & E & <- & _). rewrite E, join_at_mid.
    apply fmap_app_inv in E as (gpre & rest & -> & E & ->).
    destruct rest as [|ga [|gb gpost]]; try discriminate. injection E as -> -> ->.
    apply Forall_app in Hg as [Hg1 [Hga [_ Hg2]%Forall_cons]%Forall_cons].
    destruct (IH (gpre ++ (ga ++ gb) :: gpost)) as (gs' & E1 & E2 & H2).
    { apply Forall_app. split; [done|]. constructor; [|done]. by destruct ga. }
    exists gs'. split; [|split; [|done]].
    - rewrite E1, !concat_app. cbn. by rewrite <- app_assoc.
    - rewrite <- E2, fmap_app, fmap_cons, concat_app. done. }
  destruct (H ((fun x => [x]) <$> ps)) as (gs' & E1 & E2 & H2).
  { apply Forall_fmap, Forall_true. done. }
  assert (@concat Z <$> ((fun x : bytes => [x]) <$> ps) = ps) as E.
  { rewrite <- list_fmap_compose. rewrite <- (list_fmap_id ps) at 2. apply list_fmap_ext.
    intros ? x _. cbn. by rewrite app_nil_r. }
  rewrite E in E2. exists gs'. split; [|done]. rewrite E1. clear.
  induction ps as [|p ps IH]; [done|]. cbn in *. by rewrite IH.
Qed.
(** A property of the pieces that joining establishes. *)
Lemma greedy_Forall (P : bytes -> Prop) fuel ps :
  (forall a b, is_Some (rank a b) -> P (a ++ b)) -> Forall P ps -> Forall P (greedy rank fuel ps).
Proof.
  intros Hr. revert ps. induction fuel as [|fuel IH]; intros ps Hp; cbn [greedy]; [done|].
  destruct (best_pair rank ps) as [[k p]|] eqn:H; [|done].
  apply best_pair_Some in H as (pre & a & b & post & -> & <- & Hab).
  apply IH. rewrite join_at_mid. apply Forall_app in Hp as [Hp1 [_ [_ Hp2]%Forall_cons]%Forall_cons].
  apply Forall_app. split; [done|]. constructor; [|done]. apply Hr. rewrite Hab. by eexists.
Qed.
End reference_facts.

(** * The chain of symbols *)

Abbreviation pieces := (list (Z * bytes)).

Definition head_idx (ps : pieces) (nxt : Z) : Z :=
  match ps with [] => nxt | (i, _) :: _ => i end.

Fixpoint last_idx (prev : Z) (ps : pieces) : Z :=
  match ps with [] => prev | (i, _) :: ps => last_idx i ps end.

(** The symbols at the indices of the pieces spell them from the offset [off] on,
    linked to each other, to [prev] before and [nxt] after them. *)
Fixpoint linked (syms : list llm_symbol) (prev : Z) (off : nat) (ps : pieces) (nxt : Z) : Prop :=
  match ps with
  | [] => True
  | (i, t) :: ps =>
      zlookup syms i = Some (mk_sym prev (head_idx ps nxt) off (length t)) /\ prev < i /\ t <> [] /\
      linked syms i (off + length t) ps nxt
  end.

(** The live symbols are the pieces of the text; the others are empty. *)
Record chain (text : bytes) (syms : list llm_symbol) (ps : pieces) : Prop := {
  ch_linked : linked syms (-1) 0 ps (-1);
  ch_text : text = concat ps.*2;
  ch_dead : forall i s, zlookup syms i = Some s -> i ∉ ps.*1 -> s_n s = O
}.

Definition total (ps : pieces) : nat := length (concat ps.*2).

Lemma total_cons i t ps : total ((i, t) :: ps) = (length t + total ps)%nat.
Proof. unfold total. cbn. by rewrite length_app. Qed.

Lemma linked_app syms prev off ps qs nxt :
  linked syms prev off (ps ++ qs) nxt <->
  linked syms prev off ps (head_idx qs nxt) /\ linked syms (last_idx prev ps) (off + total ps) qs nxt.
Proof.
  revert prev off. induction ps as [|[i t] ps IH]; intros prev off; cbn [app linked last_idx].
  - unfold total. cbn. rewrite Nat.add_0_r. tauto.
  - rewrite total_cons, Nat.add_assoc, IH.
    assert (head_idx (ps ++ qs) nxt = head_idx ps (head_idx qs nxt)) as -> by (by destruct ps as [|[]]).
    tauto.
Qed.

Lemma linked_above syms prev off ps nxt i : linked syms prev off ps nxt -> i ∈ ps.*1 -> prev < i.
Proof.
  revert prev off. induction ps as [|[j t] ps IH]; intros prev off; cbn; [by intros _ ?%elem_of_nil|].
  intros (_ & Hj & _ & Hl) [->|Hi]%elem_of_cons; [done|]. specialize (IH _ _ Hl Hi). lia.
Qed.

Lemma last_idx_ge syms prev off ps nxt : linked syms prev off ps nxt -> prev <= last_idx prev ps.
Proof.
  revert prev off. induction ps as [|[j t] ps IH]; intros prev off; cbn; [lia|].
  intros (_ & Hj & _ & Hl). specialize (IH _ _ Hl). lia.
Qed.

Lemma last_idx_ge_all syms prev off ps nxt i : linked syms prev off ps nxt -> i ∈ ps.*1 -> i <= last_idx prev ps.
Proof.
  revert prev off. induction ps as [|[j t] ps IH]; intros prev off; cbn; [by intros _ ?%elem_of_nil|].
  intros (_ & Hj & _ & Hl) [->|Hi]%elem_of_cons; [by eapply last_idx_ge|]. by eapply IH.
Qed.

(** The indices increase. *)
Lemma linked_nodup syms prev off ps nxt : linked syms prev off ps nxt -> NoDup ps.*1.
Proof.
  revert prev off. induction ps as [|[j t] ps IH]; intros prev off; cbn; [constructor|].
  intros (_ & Hj & _ & Hl). constructor; [|by eapply IH].
  intros Hi. pose proof (linked_above _ _ _ _ _ _ Hl Hi). lia.
Qed.

(** A symbol outside the pieces may change. *)
Lemma linked_frame syms syms' prev off ps nxt :
  (forall i, i ∈ ps.*1 -> zlookup syms' i = zlookup syms i) ->
  linked syms prev off ps nxt -> linked syms' prev off ps nxt.
Proof.
  revert prev off. induction ps as [|[j t] ps IH]; intros prev off Hf; cbn; [done|].
  intros (Hj & Hlt & Ht & Hl). split; [rewrite Hf; [done|by left]|]. split; [done|]. split; [done|].
  apply IH; [|done]. intros i Hi. apply Hf. by right.
Qed.

(** Two neighbours and their surroundings. *)
Lemma linked_pair syms pre l a r b post :
  linked syms (-1) 0 (pre ++ (l, a) :: (r, b) :: post) (-1) <->
  linked syms (-1) 0 pre l /\
  zlookup syms l = Some (mk_sym (last_idx (-1) pre) r (total pre) (length a)) /\ last_idx (-1) pre < l /\ a <> [] /\
  zlookup syms r = Some (mk_sym l (head_idx post (-1)) (total pre + length a) (length b)) /\ l < r /\ b <> [] /\
  linked syms r (total pre + length a + length b) post (-1).
Proof. rewrite linked_app. cbn. tauto. Qed.

Lemma linked_one syms pre l a post :
  linked syms (-1) 0 (pre ++ (l, a) :: post) (-1) <->
  linked syms (-1) 0 pre l /\
  zlookup syms l = Some (mk_sym (last_idx (-1) pre) (head_idx post (-1)) (total pre) (length a)) /\
  last_idx (-1) pre < l /\ a <> [] /\ linked syms l (total pre + length a) post (-1).
Proof. rewrite linked_app. cbn. tauto. Qed.

Lemma upd_sym_ok syms i f s :
  zlookup syms i = Some s ->
  exists syms', upd_sym syms i f = Ok syms' /\ zlen syms' = zlen syms /\ zlookup syms' i = Some (f s) /\
    forall j, j <> i -> zlookup syms' j = zlookup syms j.
Proof.
  intros Hs. pose proof (zlookup_Some_lt _ _ _ Hs) as Hi. unfold upd_sym. rewrite (vget_Some _ _ _ Hs). cbn [mbind res_bind].
  rewrite vset_at by done. eexists. split; [done|]. split; [apply zlen_insert|]. split.
  - rewrite zlookup_insert by lia. by rewrite decide_True.
  - intros j Hj. destruct (Z.leb_spec 0 j); [|unfold zlookup; by destruct (Z.leb_spec 0 j); [lia|]].
    rewrite zlookup_insert by lia. rewrite decide_False; [done|]. intros ->. done.
Qed.

Lemma last_idx_in prev ps : ps <> [] -> last_idx prev ps ∈ ps.*1.
Proof.
  revert prev. induction ps as [|[i t] [|[j u] ps] IH]; intros prev Hne; [done|by left|].
  right. by apply (IH i).
Qed.

Lemma merge_symbols_spec text syms pre l a r b post :
  chain text syms (pre ++ (l, a) :: (r, b) :: post) ->
  exists syms', merge_symbols syms l r = Ok syms' /\
    chain text syms' (pre ++ (l, a ++ b) :: post) /\ zlen syms' = zlen syms /\
    zlookup syms' l = Some (mk_sym (last_idx (-1) pre) (head_idx post (-1)) (total pre) (length a + length b)).
Proof.
  intros [Hl Ht Hd]. pose proof (linked_nodup _ _ _ _ _ Hl) as Hnd.
  rewrite fmap_app, !fmap_cons in Hnd. cbn [fst] in Hnd.
  apply NoDup_app in Hnd as (_ & Hpre & [Hl1 [Hr1 _]%NoDup_cons]%NoDup_cons).
  apply not_elem_of_cons in Hl1 as [Hlr Hl1].
  apply linked_pair in Hl as (Lpre & Sl & Hlt & Ha & Sr & Hltr & Hb & Lpost).
  assert (Hlpre : l ∉ pre.*1) by (intros H; apply (Hpre _ H); by left).
  assert (Hrpre : r ∉ pre.*1) by (intros H; apply (Hpre _ H); right; by left).
  unfold merge_symbols. rewrite (vget_Some _ _ _ Sr). cbn [mbind res_bind s_n].
  edestruct (upd_sym_ok syms l) as (syms1 & -> & N1 & S1 & F1); [exact Sl|]. cbn [mbind res_bind].
  edestruct (upd_sym_ok syms1 r) as (syms2 & -> & N2 & S2 & F2); [rewrite F1 by done; exact Sr|]. cbn [mbind res_bind].
  rewrite (vget_Some _ _ _ S2). cbn [mbind res_bind s_next s_prev s_text s_n].
  edestruct (upd_sym_ok syms2 l) as (syms3 & -> & N3 & S3 & F3); [rewrite F2 by done; exact S1|]. cbn [mbind res_bind].
  cbn [s_next s_prev s_text s_n] in *.
  assert (Hdead3 : forall syms4 : list llm_symbol, (forall j s, zlookup syms4 j = Some s -> j ∉ (r :: post.*1) ->
      zlookup syms3 j = Some s) -> (forall s, zlookup syms4 r = Some s -> s_n s = O) ->
      forall i s, zlookup syms4 i = Some s -> i ∉ (pre ++ (l, a ++ b) :: post).*1 -> s_n s = O).
  { intros syms4 H4 Hr4 i s Hi Hni. rewrite fmap_app, fmap_cons in Hni. cbn [fst] in Hni.
    destruct (decide (i = r)) as [->|Hir]; [by apply Hr4|].
    apply not_elem_of_app in Hni as [Hni1 [Hil Hni2]%not_elem_of_cons].
    apply H4 in Hi; [|by apply not_elem_of_cons]. rewrite F3, F2, F1 in Hi by done.
    apply (Hd i s Hi). rewrite fmap_app, !fmap_cons. cbn [fst]. set_solver. }
  assert (Htext : text = concat (pre ++ (l, a ++ b) :: post).*2).
  { rewrite Ht, !fmap_app, !fmap_cons, !concat_app. cbn. by rewrite <- app_assoc. }
  assert (Hab : a ++ b <> []) by (by destruct a).
  destruct post as [|[c t] post].
  - cbn [head_idx]. destruct (Z.leb_spec 0 (-1)); [lia|]. exists syms3. split; [done|]. split; [|split; [lia|done]].
    split; [|done|].
    + apply linked_one. rewrite length_app. split; [|done].
      eapply linked_frame; [|exact Lpre]. intros i Hi. rewrite F3, F2, F1; [done|..]; by intros ->.
    + apply Hdead3; [done|]. intros s Hs. rewrite F3, S2 in Hs by done. by injection Hs as <-.
  - cbn [head_idx] in *. cbn [linked] in Lpost. destruct Lpost as (Sc & Hrc & Hct & Lpost).
    pose proof (zlookup_Some_lt _ _ _ Sc) as Hc0. destruct (Z.leb_spec 0 c); [|lia].
    rewrite fmap_cons in Hl1, Hr1. cbn [fst] in *.
    apply not_elem_of_cons in Hl1 as [Hlc Hl1]. apply not_elem_of_cons in Hr1 as [Hrc' Hr1].
    assert (Hcp : c ∉ post.*1) by (intros H'; pose proof (linked_above _ _ _ _ _ _ Lpost H'); lia).
    assert (Hcpre : c ∉ pre.*1) by (intros H'; apply (Hpre _ H'); set_solver).
    edestruct (upd_sym_ok syms3 c) as (syms4 & -> & N4 & S4 & F4); [rewrite F3, F2, F1 by done; exact Sc|].
    cbn [s_next s_prev s_text s_n] in *.
    exists syms4. split; [done|]. split; [|split; [lia|by rewrite F4 by done]].
    split; [|done|].
    + apply linked_one. rewrite F4 by done. rewrite length_app, Nat.add_assoc. split; [|split; [done|split; [done|split; [done|]]]].
      * eapply linked_frame; [|exact Lpre]. intros i Hi. rewrite F4, F3, F2, F1; [done|..]; by intros ->.
      * cbn [linked]. split; [done|]. split; [lia|]. split; [done|].
        eapply linked_frame; [|exact Lpost]. intros i Hi. rewrite F4, F3, F2, F1; [done|..]; by intros ->.
    + apply Hdead3.
      * intros j s Hj Hn. rewrite F4 in Hj; [done|]. set_solver.
      * intros s Hs. rewrite F4, F3, S2 in Hs by done. by injection Hs as <-.
Qed.

(** * Splitting a text *)

(** Pieces numbered from [k] on. *)
Fixpoint numbered (k : Z) (cs : list bytes) : pieces :=
  match cs with [] => [] | c :: cs => (k, c) :: numbered (k + 1) cs end.

(** The symbols the splitting loop makes of the characters [cs]. *)
Fixpoint sym_list (k : Z) (off : nat) (cs : list bytes) : list llm_symbol :=
  match cs with
  | [] => []
  | c :: cs =>
      mk_sym (k - 1) (match cs with [] => -1 | _ => k + 1 end) off (length c) ::
      sym_list (k + 1) (off + length c) cs
  end.

Lemma unicode_len_utf8_pos c : 1 <= unicode_len_utf8 c <= 4.
Proof.
  unfold unicode_len_utf8. pose proof (u8_range c) as Hc.
  assert (Hs : 0 <= Z.shiftr (u8 c) 4 < 16).
  { rewrite Z.shiftr_div_pow2 by lia. change (2 ^ 4) with 16. Z.div_mod_to_equations; lia. }
  assert (Hn : exists k, (k < 16)%nat /\ Z.to_nat (Z.shiftr (u8 c) 4) = k) by (eexists; split; [|done]; lia).
  destruct Hn as (k & Hk & ->). do 16 (destruct k as [|k]; [cbn; lia|]). lia.
Qed.

Lemma utf8_pieces_fuel f f' text :
  (length text <= f)%nat -> (length text <= f')%nat -> utf8_pieces f text = utf8_pieces f' text.
Proof.
  revert f' text. induction f as [|f IH]; intros [|f'] [|c text] Hf Hf'; cbn [length] in *; try lia; try done.
  cbn [utf8_pieces]. f_equal. pose proof (unicode_len_utf8_pos c).
  apply IH; rewrite length_drop; cbn [length]; lia.
Qed.

Lemma utf8_chars_cons c text :
  let n := Nat.min (Z.to_nat (unicode_len_utf8 c)) (length (c :: text)) in
  utf8_chars (c :: text) = take n (c :: text) :: utf8_chars (drop n (c :: text)).
Proof.
  cbn zeta. unfold utf8_chars at 1. cbn [length utf8_pieces]. f_equal. pose proof (unicode_len_utf8_pos c).
  apply utf8_pieces_fuel; [|done]. rewrite length_drop. cbn [length]. lia.
Qed.

Lemma utf8_chars_concat text : concat (utf8_chars text) = text.
Proof.
  induction text as [text IH] using (induction_ltof1 _ (@length Z)). unfold ltof in IH.
  destruct text as [|c text]; [done|]. rewrite utf8_chars_cons. cbn [concat].
  pose proof (unicode_len_utf8_pos c). rewrite IH; [apply take_drop|].
  rewrite length_drop. cbn [length]. lia.
Qed.

Lemma utf8_chars_nonempty text : Forall (fun c => c <> []) (utf8_chars text).
Proof.
  induction text as [text IH] using (induction_ltof1 _ (@length Z)). unfold ltof in IH.
  destruct text as [|c text]; [constructor|]. rewrite utf8_chars_cons. pose proof (unicode_len_utf8_pos c). constructor.
  - destruct (Nat.min _ _) eqn:E; [cbn [length] in E; lia|]. done.
  - apply IH. rewrite length_drop. cbn [length]. lia.
Qed.

Lemma utf8_chars_nil_iff text : utf8_chars text = [] <-> text = [].
Proof.
  split; [|by intros ->]. intros H. rewrite <- (utf8_chars_concat text). by rewrite H.
Qed.

Lemma split_loop text fuel k offs syms :
  (length text - offs < fuel)%nat -> (offs <= length text)%nat ->
  while (split_step text) fuel (k, offs, syms) = Ok (syms ++ sym_list k offs (utf8_chars (drop offs text))).
Proof.
  revert k offs syms. induction fuel as [|fuel IH]; intros k offs syms Hf Ho; [lia|]. cbn [while].
  unfold split_step. destruct (Nat.ltb_spec offs (length text)) as [Hlt|Hge].
  - destruct (lookup_lt_is_Some_2 text offs Hlt) as (c & Hc). rewrite (vget_Some _ _ c) by (by rewrite zlookup_nat).
    cbn [mbind res_bind mret res_ret].
    rewrite (drop_S _ _ _ Hc), utf8_chars_cons. cbn [sym_list]. pose proof (unicode_len_utf8_pos c).
    set (n := Nat.min (Z.to_nat (unicode_len_utf8 c)) (length (c :: drop (S offs) text))).
    assert (Hn : Nat.min (Z.to_nat (unicode_len_utf8 c)) (length text - offs) = n).
    { unfold n. cbn [length]. rewrite length_drop. f_equal. lia. }
    rewrite Hn. assert (Hn1 : (1 <= n <= length text - offs)%nat) by (rewrite <- Hn; lia).
    rewrite IH by lia. rewrite <- app_assoc. cbn [app]. f_equal. f_equal.
    rewrite <- (drop_S _ _ _ Hc), drop_drop.
    assert (length (take n (drop offs text)) = n) as -> by (rewrite length_take, length_drop; lia).
    f_equal. f_equal. destruct (Nat.eqb_spec (offs + n) (length text)) as [Ee|Ee].
    + rewrite drop_ge by lia. done.
    + destruct (utf8_chars (drop (offs + n) text)) eqn:Eu; [|done]. apply (proj1 (utf8_chars_nil_iff _)) in Eu.
      apply (f_equal length) in Eu. rewrite length_drop in Eu. cbn in Eu. lia.
  - cbn. rewrite drop_ge by lia. by rewrite app_nil_r.
Qed.

Lemma sym_list_linked cs pre k off :
  Forall (fun c => c <> []) cs -> k = zlen pre ->
  linked (pre ++ sym_list k off cs) (k - 1) off (numbered k cs) (-1).
Proof.
  revert pre k off. induction cs as [|c cs IH]; intros pre k off Hne Hk; cbn [sym_list numbered linked]; [done|].
  apply Forall_cons in Hne as [Hc Hne]. split; [|split; [lia|split; [done|]]].
  - rewrite Hk, zlookup_mid_0. do 2 f_equal. by destruct cs.
  - rewrite cons_middle, app_assoc. replace k with (k + 1 - 1) at 3 by lia. apply IH; [done|].
    rewrite zlen_app. unfold zlen at 2. cbn. lia.
Qed.

Lemma numbered_snd k cs : (numbered k cs).*2 = cs.
Proof. revert k. induction cs as [|c cs IH]; intros k; cbn; [done|]. by rewrite IH. Qed.

Lemma numbered_fst k cs : (numbered k cs).*1 = zseq k (length cs).
Proof.
  revert k. induction cs as [|c cs IH]; intros k; [done|]. cbn [numbered length]. rewrite zseq_cons, fmap_cons, IH. done.
Qed.

Lemma length_sym_list k off cs : length (sym_list k off cs) = length cs.
Proof. revert k off. induction cs; intros; cbn; auto. Qed.

(** The symbols of a fresh session. *)
Lemma sym_list_chain cs :
  Forall (fun c => c <> []) cs -> chain (concat cs) (sym_list 0 0 cs) (numbered 0 cs).
Proof.
  intros Hne. split.
  - apply (sym_list_linked cs [] 0 0); done.
  - by rewrite numbered_snd.
  - intros i s Hs Hn. exfalso. apply Hn. rewrite numbered_fst, elem_of_zseq.
    apply zlookup_Some_lt in Hs. unfold zlen in Hs. rewrite length_sym_list in Hs. lia.
Qed.

Lemma split_symbols_spec text :
  split_symbols text 0 [] = Ok (sym_list 0 0 (utf8_chars text)).
Proof. unfold split_symbols. rewrite split_loop by lia. by rewrite drop_0. Qed.

(** Characters are not cut. *)
Lemma utf8_chars_text cps us : Forall2 utf8_form cps us -> utf8_chars (concat us) = us.
Proof.
  induction 1 as [|c u cps us Hu _ IH]; [done|]. cbn [concat].
  pose proof (utf8_form_len _ _ Hu) as Hlen. unfold zlen in Hlen.
  destruct (u ++ concat us) as [|b v] eqn:Eu; [apply (f_equal length) in Eu; rewrite length_app in Eu; cbn in Eu; lia|].
  assert (exists w, u = b :: w) as (w & Ew) by (destruct u; [cbn in Hlen; lia|simplify_list_eq; eauto]).
  rewrite utf8_chars_cons, (utf8_form_head_len _ _ _ _ Hu Ew), <- Eu. unfold zlen. rewrite Nat2Z.id.
  rewrite Nat.min_l by (rewrite length_app; lia). rewrite take_app_length, drop_app_length. by rewrite IH.
Qed.

(** * The merge loop implements the reference *)

(** The symbol of a piece spells it. *)
Lemma chain_symbol text syms pre i t post :
  chain text syms (pre ++ (i, t) :: post) ->
  exists s, zlookup syms i = Some s /\ s_prev s = last_idx (-1) pre /\ s_next s = head_idx post (-1) /\
    s_text s = total pre /\ s_n s = length t /\ t <> [] /\ sym_str text s = Ok t.
Proof.
  intros [Hl Ht _]. apply linked_one in Hl as (_ & Hs & _ & Hne & _).
  eexists. split; [exact Hs|]. cbn. splits; try done. unfold sym_str, read_str. cbn.
  rewrite Ht, fmap_app, fmap_cons, concat_app. cbn [concat snd]. unfold substr, total.
  rewrite drop_app_length, take_app_length.
  destruct (Nat.leb_spec (length (concat pre.*2) + length t) (length (concat pre.*2 ++ t ++ concat post.*2))) as [|H];
    [done|]. rewrite !length_app in H. lia.
Qed.

Lemma chain_nodup text syms ps : chain text syms ps -> NoDup ps.*1.
Proof. intros [Hl _ _]. by eapply linked_nodup. Qed.

Lemma chain_range text syms ps i : chain text syms ps -> i ∈ ps.*1 -> 0 <= i < zlen syms.
Proof.
  intros Hc ([j t] & -> & Hi)%list_elem_of_fmap. apply list_elem_of_split in Hi as (pre & post & ->).
  destruct (chain_symbol _ _ _ _ _ _ Hc) as (s & Hs & _). by eapply zlookup_Some_lt.
Qed.

(** A piece, and the pair it is in, is determined by its index. *)
Lemma nodup_split (pre pre' : pieces) x y post post' :
  NoDup (pre ++ x :: post).*1 -> pre ++ x :: post = pre' ++ y :: post' -> x.1 = y.1 ->
  pre = pre' /\ x = y /\ post = post'.
Proof.
  revert pre'. induction pre as [|z pre IH]; intros [|z' pre'] Hnd E Exy; simplify_list_eq.
  - done.
  - apply NoDup_cons in Hnd as [Hn _]. exfalso. apply Hn. rewrite ?Exy, ?fmap_app, ?fmap_cons. set_solver.
  - apply NoDup_cons in Hnd as [Hn _]. exfalso. apply Hn. rewrite ?Exy, ?fmap_app, ?fmap_cons. set_solver.
  - apply NoDup_cons in Hnd as [_ Hnd]. destruct (IH pre') as (-> & -> & ->); try done.
Qed.

(** What a tokeniser's bigrams, its test for outdated bigrams and its addition of
    bigrams promise to the loop; [entry bg l r a b p] says that the bigram [bg] was
    made for the symbols [l] and [r] when they spelled [a] and [b]. *)
Record merge_laws `{CppHeap} {B E : Type} (b_left b_right : B -> Z) (lt : B -> B -> bool)
    (outdated : llm_symbol -> llm_symbol -> B -> res bool)
    (try_add : Z -> Z -> session B E -> res (session B E))
    (text : bytes) (rank : bytes -> bytes -> option (Z * Z * Z))
    (entry : B -> Z -> Z -> bytes -> bytes -> Z * Z * Z -> Prop)
    (piece_ok : bytes -> Prop) (extra_ok : E -> Prop) : Prop := {
  ml_proj : forall bg l r a b p, entry bg l r a b p -> b_left bg = l /\ b_right bg = r;
  ml_len : forall bg l r a b p l' r' a' b' p',
    entry bg l r a b p -> entry bg l' r' a' b' p' -> (length a + length b = length a' + length b')%nat;
  ml_lt : forall bg l r a b p bg' l' r' a' b' p',
    entry bg l r a b p -> entry bg' l' r' a' b' p' ->
    lt bg bg' = true <-> rank_lt p p' \/ (p = p' /\ l' < l);
  ml_empty : forall ls rs bg, s_n ls = O \/ s_n rs = O -> outdated ls rs bg = Ok true;
  ml_outdated : forall ls rs bg l r a b b' p,
    entry bg l r a b p -> s_n ls <> O -> s_n rs <> O ->
    sym_str text ls = Ok a -> sym_str text rs = Ok b' -> b' = b \/ (length b < length b')%nat ->
    s_n ls = length a -> s_n rs = length b' ->
    outdated ls rs bg = Ok (negb (bool_decide (b' = b)));
  ml_add_none : forall ss l r, l = -1 \/ r = -1 -> try_add l r ss = Ok ss;
  ml_add : forall ss l r ls rs a b,
    zlookup (ss_symbols ss) l = Some ls -> zlookup (ss_symbols ss) r = Some rs ->
    s_text rs = (s_text ls + s_n ls)%nat -> s_n ls = length a -> s_n rs = length b ->
    sym_str text ls = Ok a -> sym_str text rs = Ok b ->
    piece_ok a -> piece_ok b -> extra_ok (ss_extra ss) ->
    exists ss', try_add l r ss = Ok ss' /\ ss_symbols ss' = ss_symbols ss /\ extra_ok (ss_extra ss') /\
      match rank a b with
      | None => ss_queue ss' = ss_queue ss
      | Some p => exists bg, entry bg l r a b p /\ ss_queue ss' = heap_push lt bg (ss_queue ss)
      end;
  ml_app : forall a b, piece_ok a -> piece_ok b -> piece_ok (a ++ b)
}.

(** Where a pair of neighbours lies in relation to another one. *)
Lemma pair_cases {A} (pre pre' post post' : list A) x y u v :
  pre' ++ x :: y :: post' = pre ++ u :: v :: post ->
  (exists mid, pre = pre' ++ x :: y :: mid) \/ (pre = pre' ++ [x] /\ y = u) \/
  (pre' = pre /\ x = u /\ y = v) \/ x = v \/ (exists mid, post = mid ++ x :: y :: post').
Proof.
  revert pre. induction pre' as [|z pre' IH]; intros pre Heq; (destruct pre as [|w pre]; simplify_list_eq).
  - right; right; by left.
  - destruct pre as [|w2 pre]; simplify_list_eq; [right; by left|]. left. by exists pre.
  - destruct pre' as [|w2 pre']; simplify_list_eq; [by right; right; right; left|].
    right; right; right; right. by exists pre'.
  - destruct (IH pre) as [(mid & ->)|[(-> & ->)|[(-> & -> & ->)|[->|H']]]]; [done|left; by exists mid|right; by left|
      right; right; by left|right; right; right; by left|right; right; right; by right].
Qed.

(** Likewise after a merge. *)
Lemma pair_cases_one {A} (pre pre' post post' : list A) x y u :
  pre' ++ x :: y :: post' = pre ++ u :: post ->
  (exists mid, pre = pre' ++ x :: y :: mid) \/ (pre = pre' ++ [x] /\ y = u) \/
  (x = u /\ post = y :: post') \/ (exists mid, post = mid ++ x :: y :: post').
Proof.
  revert pre. induction pre' as [|z pre' IH]; intros pre Heq; (destruct pre as [|w pre]; simplify_list_eq).
  - right; right; by left.
  - destruct pre as [|w2 pre]; simplify_list_eq; [right; by left|]. left. by exists pre.
  - right; right; right. by exists pre'.
  - destruct (IH pre) as [(mid & ->)|[(-> & ->)|[(-> & ->)|H']]]; [done|left; by exists mid|right; by left|
      right; right; by left|right; right; by right].
Qed.
(** The order of the queue: by rank, then by position from the right. *)
Lemma above_neg_trans (p q r : Z * Z * Z) (i j k : Z) :
  ~ (rank_lt p q \/ (p = q /\ j < i)) -> ~ (rank_lt q r \/ (q = r /\ k < j)) ->
  ~ (rank_lt p r \/ (p = r /\ k < i)).
Proof.
  assert (Heq : forall p q : Z * Z * Z, p = q <-> p.1.1 = q.1.1 /\ p.1.2 = q.1.2 /\ p.2 = q.2).
  { intros [[??]?] [[??]?]. cbn. split; [by intros [= -> -> ->]|by intros (-> & -> & ->)]. }
  rewrite !Heq. unfold rank_lt. lia.
Qed.

Section merge_spec.
Context `{CppHeapLaws} {B E : Type} (b_left b_right : B -> Z) (lt : B -> B -> bool).
Context (outdated : llm_symbol -> llm_symbol -> B -> res bool).
Context (try_add : Z -> Z -> session B E -> res (session B E)).
Context (text : bytes) (rank : bytes -> bytes -> option (Z * Z * Z)).
Context (entry : B -> Z -> Z -> bytes -> bytes -> Z * Z * Z -> Prop).
Context (piece_ok : bytes -> Prop) (extra_ok : E -> Prop).
Hypothesis laws : merge_laws b_left b_right lt outdated try_add text rank entry piece_ok extra_ok.

Let laws_proj := ml_proj _ _ _ _ _ _ _ _ _ _ laws.
Let laws_len := ml_len _ _ _ _ _ _ _ _ _ _ laws.
Let laws_lt := ml_lt _ _ _ _ _ _ _ _ _ _ laws.
Let laws_empty := ml_empty _ _ _ _ _ _ _ _ _ _ laws.
Let laws_outdated := ml_outdated _ _ _ _ _ _ _ _ _ _ laws.
Let laws_none := ml_add_none _ _ _ _ _ _ _ _ _ _ laws.
Let laws_add := ml_add _ _ _ _ _ _ _ _ _ _ laws.
Let laws_app := ml_app _ _ _ _ _ _ _ _ _ _ laws.

Definition is_entry (bg : B) : Prop := exists l r a b p, entry bg l r a b p.

Lemma entries_strict_weak q : (forall bg, bg ∈ q -> is_entry bg) -> strict_weak lt q.
Proof using laws.
  intros Hq. split.
  - intros x y Hx Hy. destruct (Hq x Hx) as (l & r & a & b & p & Ex), (Hq y Hy) as (l' & r' & a' & b' & p' & Ey).
    rewrite (laws_lt _ _ _ _ _ _ _ _ _ _ _ _ Ex Ey). intros Hlt.
    apply not_true_iff_false. rewrite (laws_lt _ _ _ _ _ _ _ _ _ _ _ _ Ey Ex).
    unfold rank_lt in *. naive_solver lia.
  - intros x y z Hx Hy Hz.
    destruct (Hq x Hx) as (l & r & a & b & p & Ex), (Hq y Hy) as (l' & r' & a' & b' & p' & Ey),
      (Hq z Hz) as (l'' & r'' & a'' & b'' & p'' & Ez).
    rewrite <- !not_true_iff_false.
    rewrite (laws_lt _ _ _ _ _ _ _ _ _ _ _ _ Ex Ey).
    rewrite (laws_lt _ _ _ _ _ _ _ _ _ _ _ _ Ey Ez).
    rewrite (laws_lt _ _ _ _ _ _ _ _ _ _ _ _ Ex Ez).
    apply above_neg_trans.
Qed.

(** A bigram of the queue: outdated for good, or about neighbours. *)
Definition sound (n : Z) (ps : pieces) (bg : B) : Prop :=
  exists l r a b p, entry bg l r a b p /\ rank a b = Some p /\ 0 <= l < n /\ 0 <= r < n /\
    (l ∉ ps.*1 \/ r ∉ ps.*1 \/
     exists pre b' post, ps = pre ++ (l, a) :: (r, b') :: post /\ (b' = b \/ (length b < length b')%nat)).

(** Every pair that may be merged is in the queue. *)
Definition queued (q : list B) (x y : Z * bytes) : Prop :=
  forall p, rank x.2 y.2 = Some p -> exists bg, bg ∈ q /\ entry bg x.1 y.1 x.2 y.2 p.

Definition complete (ps : pieces) (q : list B) : Prop :=
  forall pre x y post, ps = pre ++ x :: y :: post -> queued q x y.

Record merge_inv (ps : pieces) (ss : session B E) : Prop := {
  mi_chain : chain text (ss_symbols ss) ps;
  mi_pieces : Forall piece_ok ps.*2;
  mi_extra : extra_ok (ss_extra ss);
  mi_sound : forall bg, bg ∈ ss_queue ss -> sound (zlen (ss_symbols ss)) ps bg
}.

Lemma sound_entry n ps bg : sound n ps bg -> is_entry bg.
Proof. intros (l & r & a & b & p & He & _). by exists l, r, a, b, p. Qed.

Lemma queued_mono q q' x y : (forall bg, bg ∈ q -> bg ∈ q') -> queued q x y -> queued q' x y.
Proof. intros Hq Hx p Hp. destruct (Hx p Hp) as (bg & Hbg & He). eauto. Qed.

(** Adding the bigram of two neighbours. *)
Lemma try_add_spec ps pre x y post ss :
  merge_inv ps ss -> ps = pre ++ x :: y :: post ->
  exists ss', try_add x.1 y.1 ss = Ok ss' /\ ss_symbols ss' = ss_symbols ss /\ merge_inv ps ss' /\
    (forall bg, bg ∈ ss_queue ss -> bg ∈ ss_queue ss') /\ queued (ss_queue ss') x y /\
    (length (ss_queue ss') <= S (length (ss_queue ss)))%nat.
Proof using laws H0.
  intros [Hc Hp He Hs] Eps. destruct x as [l a], y as [r b]. cbn [fst snd].
  destruct (chain_symbol text (ss_symbols ss) pre l a ((r, b) :: post)) as (ls & Sl & _ & _ & Tl & Nl & _ & Al); [by rewrite <- Eps|].
  destruct (chain_symbol text (ss_symbols ss) (pre ++ [(l, a)]) r b post) as (rs & Sr & _ & _ & Tr & Nr & _ & Ar).
  { rewrite <- app_assoc. cbn [app]. by rewrite <- Eps. }
  rewrite Eps, fmap_app, !fmap_cons, Forall_app, !Forall_cons in Hp. destruct Hp as (Hp1 & Ha & Hb & Hp2).
  destruct (laws_add ss l r ls rs a b) as (ss' & -> & Es & He' & Hq); try done.
  { rewrite Tr, Tl, Nl. unfold total. by rewrite fmap_app, concat_app, length_app; cbn; rewrite app_nil_r. }
  exists ss'. split; [done|]. split; [done|].
  assert (Hpieces : Forall piece_ok ps.*2).
  { rewrite Eps, fmap_app, !fmap_cons, Forall_app, !Forall_cons. done. }
  destruct (rank a b) as [p|] eqn:Hr.
  - destruct Hq as (bg & Hbg & Eq).
    assert (Hperm : ss_queue ss' ≡ₚ bg :: ss_queue ss).
    { rewrite Eq. apply heap_push_perm, entries_strict_weak. intros bg' [->|Hb']%elem_of_cons.
      - by exists l, r, a, b, p.
      - by eapply sound_entry, Hs. }
    splits.
    + split; [by rewrite Es|done|done|]. rewrite Es. intros bg'. rewrite Hperm, elem_of_cons. intros [->|Hin]; [|by apply Hs].
      exists l, r, a, b, p. splits; try done; try (eapply zlookup_Some_lt; eassumption).
      right; right. exists pre, b, post. auto.
    + intros bg' Hin. rewrite Hperm. by right.
    + intros q Hq. cbn in Hq. rewrite Hr in Hq. injection Hq as <-. exists bg. rewrite Hperm. split; [by left|done].
    + by rewrite Hperm.
  - splits.
    + split; [by rewrite Es|done|done|]. by rewrite Es, Hq.
    + by rewrite Hq.
    + intros q Hq'. cbn in Hq'. by rewrite Hr in Hq'.
    + rewrite Hq. lia.
Qed.

Lemma last_idx_snoc prev (ps : pieces) x : last_idx prev (ps ++ [x]) = x.1.
Proof. revert prev. induction ps as [|[i t] ps IH]; intros prev; cbn; [by destruct x|apply IH]. Qed.

Lemma try_add_prev ps pre y post ss :
  merge_inv ps ss -> ps = pre ++ y :: post ->
  exists ss', try_add (last_idx (-1) pre) y.1 ss = Ok ss' /\ ss_symbols ss' = ss_symbols ss /\ merge_inv ps ss' /\
    (forall bg, bg ∈ ss_queue ss -> bg ∈ ss_queue ss') /\ (forall pre' x, pre = pre' ++ [x] -> queued (ss_queue ss') x y) /\
    (length (ss_queue ss') <= S (length (ss_queue ss)))%nat.
Proof using laws H0.
  intros Hi Eps. destruct pre as [|x pre _] using rev_ind.
  - exists ss. cbn. rewrite laws_none by (by left). splits; auto. by intros [].
  - rewrite last_idx_snoc. rewrite <- app_assoc in Eps. cbn in Eps.
    destruct (try_add_spec ps pre x y post ss Hi Eps) as (ss' & Hs & E1 & I & M & Q & L).
    exists ss'. splits; auto. intros pre' x' E'. apply app_inj_tail in E' as [_ <-]. done.
Qed.

Lemma try_add_next ps pre x post ss :
  merge_inv ps ss -> ps = pre ++ x :: post ->
  exists ss', try_add x.1 (head_idx post (-1)) ss = Ok ss' /\ ss_symbols ss' = ss_symbols ss /\ merge_inv ps ss' /\
    (forall bg, bg ∈ ss_queue ss -> bg ∈ ss_queue ss') /\ (forall y post', post = y :: post' -> queued (ss_queue ss') x y) /\
    (length (ss_queue ss') <= S (length (ss_queue ss)))%nat.
Proof using laws H0.
  intros Hi Eps. destruct post as [|y post].
  - exists ss. cbn. rewrite laws_none by (by right). splits; auto. done.
  - destruct (try_add_spec ps pre x y post ss Hi Eps) as (ss' & Hs & E1 & I & M & Q & L).
    exists ss'. destruct y as [j u]. cbn [head_idx]. cbn [fst] in Hs. splits; auto. intros y' post' [= <- <-]. done.
Qed.


(** Merging two neighbours keeps the other bigrams sound. *)
Lemma sound_join n pre l a r b post bg :
  NoDup (pre ++ (l, a) :: (r, b) :: post).*1 -> b <> [] ->
  sound n (pre ++ (l, a) :: (r, b) :: post) bg -> sound n (pre ++ (l, a ++ b) :: post) bg.
Proof.
  intros Hnd Hb (l0 & r0 & a0 & b0 & p & He & Hr & Hl0 & Hr0 & Hcase).
  exists l0, r0, a0, b0, p. split; [done|]. split; [done|]. split; [done|]. split; [done|].
  rewrite fmap_app, !fmap_cons in Hnd. cbn [fst] in Hnd.
  assert (Hrn : r ∉ (pre ++ (l, a ++ b) :: post).*1).
  { rewrite fmap_app, fmap_cons. cbn [fst]. apply NoDup_app in Hnd as (_ & Hpre & [Hl1 [Hr1 _]%NoDup_cons]%NoDup_cons).
    rewrite not_elem_of_app, not_elem_of_cons. split; [intros H'; apply (Hpre _ H'); right; by left|].
    split; [|done]. intros ->. apply Hl1. by left. }
  destruct Hcase as [Hn|[Hn|(pre0 & b' & post0 & Eps & Hb')]].
  1,2: rewrite fmap_app, !fmap_cons, elem_of_app, !elem_of_cons in Hn; rewrite fmap_app, fmap_cons, !elem_of_app, !elem_of_cons; cbn [fst] in *; tauto.
  symmetry in Eps. apply pair_cases in Eps as [(mid & ->)|[(-> & [= -> ->])|[(-> & [= -> ->] & [= -> ->])|[[= -> ->]|(mid & ->)]]]].
  - right; right. exists pre0, b', (mid ++ (l, a ++ b) :: post). by rewrite <- app_assoc.
  - right; right. exists pre0, (a ++ b), post. rewrite <- app_assoc. split; [done|]. right. rewrite length_app.
    destruct b; [done|]. destruct Hb' as [->|]; cbn; lia.
  - by right; left.
  - by left.
  - right; right. exists (pre ++ (l, a ++ b) :: mid), b', post0. by rewrite <- app_assoc.
Qed.

(** The pairs that a merge leaves alone are still queued. *)
Lemma queued_other n pre l a r b post q q' bg p x y pre' post' :
  NoDup (pre ++ (l, a) :: (r, b) :: post).*1 -> entry bg l r a b p ->
  (forall c, c ∈ q -> sound n (pre ++ (l, a) :: (r, b) :: post) c) ->
  q ≡ₚ bg :: q' -> complete (pre ++ (l, a) :: (r, b) :: post) q ->
  pre ++ (l, a) :: (r, b) :: post = pre' ++ x :: y :: post' -> x.1 <> l -> queued q' x y.
Proof using laws.
  intros Hnd He _ Hq Hc Eps Hx s Hs. destruct (Hc _ _ _ _ Eps s Hs) as (bg' & Hin & He').
  exists bg'. split; [|done]. rewrite Hq, elem_of_cons in Hin. destruct Hin as [->|]; [|done].
  destruct (laws_proj _ _ _ _ _ _ He) as [El _], (laws_proj _ _ _ _ _ _ He') as [El' _]. congruence.
Qed.

(** The best queued pair is the best pair of the reference. *)
Lemma top_is_best syms pre l a r b post q bg p :
  chain text syms (pre ++ (l, a) :: (r, b) :: post) -> entry bg l r a b p -> rank a b = Some p ->
  complete (pre ++ (l, a) :: (r, b) :: post) q -> (forall c, c ∈ q -> lt bg c = false) ->
  best_pair rank (pre ++ (l, a) :: (r, b) :: post).*2 = Some (length pre, p).
Proof using laws.
  intros Hch He Hr Hc Htop. rewrite fmap_app, !fmap_cons. cbn [snd].
  rewrite <- (length_fmap snd pre). apply best_pair_at; [done|].
  intros pre' x y post' s Eps Hs.
  assert (exists pre1 i j post1, pre ++ (l, a) :: (r, b) :: post = pre1 ++ (i, x) :: (j, y) :: post1 /\ pre' = pre1.*2)
    as (pre1 & i & j & post1 & E1 & ->).
  { assert (Hm : (pre ++ (l, a) :: (r, b) :: post).*2 = pre' ++ x :: y :: post') by (by rewrite fmap_app, !fmap_cons).
    apply fmap_app_inv in Hm as (pre1 & rest & -> & Hm & ->).
    destruct rest as [|[i x'] [|[j y'] post1]]; try discriminate. cbn in Hm. injection Hm as -> -> ->.
    by exists pre1, i, j, post1. }
  destruct (Hc _ _ _ _ E1 s Hs) as (bg' & Hin & He'). cbn in He'. apply Htop in Hin.
  assert (Hn : ~ (rank_lt p s \/ (p = s /\ i < l))).
  { rewrite <- (laws_lt _ _ _ _ _ _ _ _ _ _ _ _ He He'). by rewrite Hin. }
  rewrite !length_fmap. split; [|intros _ Hlt; apply Hn; by left]. intros Hlen.
  assert (Hil : i < l).
  { destruct Hch as [Hl _ _]. rewrite E1 in Hl.
    assert (pre1 ++ (i, x) :: (j, y) :: post1 = pre ++ (l, a) :: (r, b) :: post) as E2 by done.
    clear -Hl E2 Hlen. apply linked_app in Hl as [_ Hl].
    cbn [linked] in Hl. destruct Hl as (_ & _ & _ & Hl).
    apply (linked_above _ _ _ _ _ _ (Hl : linked _ _ _ ((j, y) :: post1) _)).
    assert (pre = (pre1 ++ [(i, x)]) ++ drop (S (length pre1)) pre) as Epre.
    { rewrite <- (take_drop (S (length pre1)) pre) at 1. f_equal.
      assert (take (S (length pre1)) (pre ++ (l, a) :: (r, b) :: post) = take (S (length pre1)) pre) as <- by (apply take_app_le; lia).
      rewrite <- E2. rewrite cons_middle, app_assoc. apply take_app_length'. rewrite length_app. cbn. lia. }
    rewrite Epre, <- !app_assoc in E2. apply app_inv_head in E2. cbn in E2. injection E2 as E2.
    rewrite E2, fmap_app, fmap_cons. set_solver. }
  destruct (rank_lt_trichotomy p s) as [?|[?|?]]; [exfalso; apply Hn; by left|exfalso; apply Hn; by right|done].
Qed.

(** A popped bigram that is outdated is dropped. *)
Definition merged (ps : pieces) (ss : session B E) (ps' : pieces) (ss' : session B E) (extra : nat) : Prop :=
  merge_inv ps' ss' /\ complete ps' (ss_queue ss') /\ head_idx ps' (-1) = head_idx ps (-1) /\
  zlen (ss_symbols ss') = zlen (ss_symbols ss) /\ greedy_merge rank ps'.*2 = greedy_merge rank ps.*2 /\
  (length (ss_queue ss') + 3 * length ps' < length (ss_queue ss) + 3 * length ps + extra)%nat.

Lemma merge_bigram_skip ps ss bg q :
  merge_inv ps ss -> ss_queue ss ≡ₚ bg :: q -> complete ps q -> merged ps ss ps (mk_session (ss_symbols ss) q (ss_extra ss)) 0.
Proof.
  intros [Hch Hp He Hs] Hq Hc. unfold merged. cbn. splits; try done.
  - split; [done|done|done|]. cbn. intros c Hin. apply Hs. rewrite Hq. by right.
  - rewrite Hq. cbn. lia.
Qed.

(** A popped bigram that is not is merged. *)
Lemma merge_bigram_join pre l a r b post ss bg q p :
  merge_inv (pre ++ (l, a) :: (r, b) :: post) ss -> complete (pre ++ (l, a) :: (r, b) :: post) (ss_queue ss) ->
  ss_queue ss ≡ₚ bg :: q -> entry bg l r a b p -> rank a b = Some p -> (forall c, c ∈ ss_queue ss -> lt bg c = false) ->
  exists ss', merge_bigram b_left b_right outdated try_add bg (mk_session (ss_symbols ss) q (ss_extra ss)) = Ok ss' /\
    merged (pre ++ (l, a) :: (r, b) :: post) ss (pre ++ (l, a ++ b) :: post) ss' 0.
Proof using laws H0.
  intros [Hch Hp He Hs] Hc Hq Hent Hr Htop. pose proof (chain_nodup _ _ _ Hch) as Hnd.
  destruct (chain_symbol _ _ _ _ _ _ Hch) as (ls & Sl & _ & _ & Tl & Nl & Hane & Al).
  pose proof Hch as Hch'. rewrite cons_middle, app_assoc in Hch'.
  destruct (chain_symbol _ _ _ _ _ _ Hch') as (rs & Sr & _ & _ & Tr & Nr & Hbne & Ar).
  unfold merge_bigram. destruct (laws_proj _ _ _ _ _ _ Hent) as [-> ->]. cbn [ss_symbols ss_queue ss_extra].
  rewrite (vget_Some _ _ _ Sl), (vget_Some _ _ _ Sr). cbn [mbind res_bind].
  rewrite (laws_outdated ls rs bg l r a b b p) by (try done; try (by left); rewrite ?Nl, ?Nr; by destruct a, b).
  rewrite bool_decide_eq_true_2 by done. cbn [negb mbind res_bind].
  destruct (merge_symbols_spec _ _ _ _ _ _ _ _ Hch) as (syms' & -> & Hch2 & Hlen & Sl'). cbn [mbind res_bind].
  rewrite (vget_Some _ _ _ Sl'). cbn [mbind res_bind s_prev s_next].
  set (ps' := pre ++ (l, a ++ b) :: post) in *.
  assert (Hi1 : merge_inv ps' (mk_session syms' q (ss_extra ss))).
  { split; cbn; [done| |done|].
    - unfold ps'. rewrite fmap_app, !fmap_cons, Forall_app, !Forall_cons in *. cbn [snd] in *.
      destruct Hp as (?&?&?&?). splits; auto.
    - intros c Hin. rewrite Hlen. apply (sound_join _ _ _ _ r); [done|done|]. apply Hs. rewrite Hq. by right. }
  destruct (try_add_prev ps' pre (l, a ++ b) post _ Hi1 eq_refl) as (ss1 & E1 & Y1 & I1 & M1 & Q1 & L1).
  cbn [fst] in E1. rewrite E1. cbn [mbind res_bind].
  destruct (try_add_next ps' pre (l, a ++ b) post _ I1 eq_refl) as (ss2 & E2 & Y2 & I2 & M2 & Q2 & L2).
  cbn [fst] in E2. rewrite E2. exists ss2. split; [done|]. unfold merged. splits.
  - done.
  - intros pre' x y post' Eps. unfold ps' in Eps. symmetry in Eps.
    assert (Hqueued : forall pre0 post0, pre ++ (l, a) :: (r, b) :: post = pre0 ++ x :: y :: post0 -> x.1 <> l -> queued (ss_queue ss2) x y).
    { intros pre0 post0 Eo Hx. eapply queued_mono; [exact M2|]. eapply queued_mono; [exact M1|]. cbn.
      by eapply (queued_other (zlen (ss_symbols ss))). }
    rewrite fmap_app, !fmap_cons in Hnd. apply NoDup_app in Hnd as (_ & Hpre & [Hl1 [Hr1 _]%NoDup_cons]%NoDup_cons).
    cbn [fst] in *.
    apply pair_cases_one in Eps as [(mid & ->)|[(-> & ->)|[(-> & ->)|(mid & ->)]]].
    + apply (Hqueued pre' (mid ++ (l, a) :: (r, b) :: post)); [by rewrite <- app_assoc|].
      intros Ex. apply (Hpre x.1); [rewrite fmap_app, fmap_cons; set_solver|rewrite Ex; by left].
    + eapply queued_mono; [exact M2|]. by eapply Q1.
    + by eapply Q2.
    + apply (Hqueued (pre ++ (l, a) :: (r, b) :: mid) post'); [by rewrite <- app_assoc|].
      intros Ex. apply Hl1. rewrite <- Ex, fmap_app, fmap_cons. set_solver.
  - unfold ps'. by destruct pre as [|[]].
  - by rewrite Y2, Y1.
  - rewrite (greedy_merge_join rank _ _ _ (top_is_best _ _ _ _ _ _ _ _ _ _ Hch Hent Hr Hc Htop)).
    unfold ps'. rewrite !fmap_app, !fmap_cons. cbn [snd]. by rewrite <- (length_fmap snd pre), join_at_mid.
  - rewrite Hq. unfold ps'. rewrite !length_app. cbn [length ss_queue] in *. lia.
Qed.

(** What an iteration does: it leaves the loop when no pair is left, or drops an
    outdated bigram, or merges the best pair. *)
Lemma merge_step_spec ps ss :
  merge_inv ps ss -> complete ps (ss_queue ss) ->
  (merge_step b_left b_right lt outdated try_add ss = Ok (Done ss) /\ stuck rank ps.*2) \/
  exists ps' ss', merge_step b_left b_right lt outdated try_add ss = Ok (Next ss') /\ merged ps ss ps' ss' 0.
Proof using laws H0.
  intros Hi Hc. unfold merge_step. destruct (decide (ss_queue ss = [])) as [Hq|Hq].
  { left. rewrite Hq, heap_pop_nil. split; [done|]. intros pre' x y post' Eps.
    apply fmap_app_inv in Eps as (pre & rest & -> & Hm & ->).
    destruct rest as [|[i x'] [|[j y'] post]]; try discriminate. cbn in Hm. injection Hm as -> -> ->.
    destruct (rank x' y') as [p|] eqn:Hr; [|done].
    destruct (Hc _ _ _ _ eq_refl p Hr) as (bg & Hbg & _). rewrite Hq in Hbg. by apply elem_of_nil in Hbg. }
  right. pose proof Hi as [Hch Hp He Hs].
  assert (Hsw : strict_weak lt (ss_queue ss)) by (apply entries_strict_weak; intros c Hin; by eapply sound_entry, Hs).
  destruct (heap_pop_top _ lt _ Hsw Hq) as (bg & q & -> & Hperm & Htop).
  assert (Hbg : bg ∈ ss_queue ss) by (rewrite Hperm; by left).
  destruct (Hs _ Hbg) as (l & r & a & b & p & Hent & Hr & Hl & Hrr & Hcase).
  pose proof (laws_proj _ _ _ _ _ _ Hent) as [El Er].
  destruct (zlookup_lt _ _ Hl) as (ls & Sl), (zlookup_lt _ _ Hrr) as (rs & Sr).
  assert (Hskip : outdated ls rs bg = Ok true -> merge_bigram b_left b_right outdated try_add bg
    (mk_session (ss_symbols ss) q (ss_extra ss)) = Ok (mk_session (ss_symbols ss) q (ss_extra ss))).
  { intros Ho. unfold merge_bigram. rewrite El, Er. cbn [ss_symbols]. rewrite (vget_Some _ _ _ Sl), (vget_Some _ _ _ Sr).
    cbn [mbind res_bind]. by rewrite Ho. }
  assert (Hdrop : (forall pre x y post, ps = pre ++ x :: y :: post -> ~ exists s, entry bg x.1 y.1 x.2 y.2 s) -> complete ps q).
  { intros Hno pre x y post Eps s Hxy. destruct (Hc _ _ _ _ Eps s Hxy) as (bg' & Hin & He').
    exists bg'. split; [|done]. rewrite Hperm, elem_of_cons in Hin. destruct Hin as [->|]; [|done].
    exfalso. apply (Hno _ _ _ _ Eps). by exists s. }
  assert (Hdead : l ∉ ps.*1 \/ r ∉ ps.*1 -> exists ps' ss', (ss0 ← merge_bigram b_left b_right outdated try_add bg
    (mk_session (ss_symbols ss) q (ss_extra ss)); mret (Next (R := session B E) ss0)) = Ok (Next ss') /\ merged ps ss ps' ss' 0).
  { intros Hlr. eexists ps, _. rewrite Hskip; [split; [done|]|].
    - apply (merge_bigram_skip ps ss bg q); [done|done|]. apply Hdrop. intros pre x y post Eps (s & Hx).
      destruct (laws_proj _ _ _ _ _ _ Hx) as [E1 E2]. rewrite Eps, fmap_app, !fmap_cons in Hlr. set_solver.
    - apply laws_empty. destruct Hlr as [Hn|Hn]; [left|right]; by eapply (ch_dead _ _ _ Hch). }
  destruct Hcase as [Hn|[Hn|(pre & b' & post & -> & Hb')]]; [by apply Hdead; left|by apply Hdead; right|].
  destruct (decide (b' = b)) as [->|Hne].
  - destruct (merge_bigram_join pre l a r b post ss bg q p) as (ss' & -> & Hm); try done. by eexists _, ss'.
  - destruct Hb' as [|Hb']; [done|].
    destruct (chain_symbol _ _ _ _ _ _ Hch) as (ls' & Sl' & _ & _ & _ & Nl & Hane & Al).
    rewrite Sl in Sl'. injection Sl' as <-.
    pose proof Hch as Hch'. rewrite cons_middle, app_assoc in Hch'.
    destruct (chain_symbol _ _ _ _ _ _ Hch') as (rs' & Sr' & _ & _ & _ & Nr & Hbne & Ar).
    rewrite Sr in Sr'. injection Sr' as <-.
    eexists _, _. rewrite Hskip; [split; [done|]|].
    + apply (merge_bigram_skip _ ss bg q); [done|done|]. apply Hdrop. intros pre1 [l1 a1] [r1 b1] post1 Eps (s & Hx).
      cbn in Hx. destruct (laws_proj _ _ _ _ _ _ Hx) as [E1 E2]. pose proof (laws_len _ _ _ _ _ _ _ _ _ _ _ Hent Hx) as Hlen.
      apply nodup_split in Eps as (-> & [= <- <-] & [= <- <- <-]); [lia|by eapply chain_nodup|cbn; congruence].
    + rewrite (laws_outdated ls rs bg l r a b b' p); try done; [by rewrite bool_decide_eq_false_2|..]; rewrite ?Nl, ?Nr.
      * by destruct a.
      * by destruct b'.
      * by right.
Qed.

(** The loop ends with the pieces of the reference. *)
Lemma merge_loop_spec fuel ps ss :
  merge_inv ps ss -> complete ps (ss_queue ss) -> (length (ss_queue ss) + 3 * length ps < fuel)%nat ->
  exists ps' ss', while (merge_step b_left b_right lt outdated try_add) fuel ss = Ok ss' /\
    merge_inv ps' ss' /\ ps'.*2 = greedy_merge rank ps.*2 /\ head_idx ps' (-1) = head_idx ps (-1) /\
    zlen (ss_symbols ss') = zlen (ss_symbols ss).
Proof using laws H0.
  revert ps ss. induction fuel as [|fuel IH]; intros ps ss Hi Hc Hf; [lia|]. cbn [while].
  destruct (merge_step_spec ps ss Hi Hc) as [[-> Hst]|(ps' & ss' & -> & Hi' & Hc' & Hh & Hlen & Hg & Hm)]; cbn [mbind res_bind].
  - exists ps, ss. splits; try done. unfold greedy_merge. by rewrite greedy_stuck.
  - destruct (IH ps' ss' Hi' Hc') as (ps2 & ss2 & -> & Hi2 & Hg2 & Hh2 & Hl2); [lia|].
    exists ps2, ss2. splits; try done; [by rewrite Hg2|congruence|congruence].
Qed.

(** The work queue after the seeding. *)
Lemma seed_spec cs extra :
  text = concat cs -> Forall (fun c => c <> []) cs -> Forall piece_ok cs -> extra_ok extra ->
  exists ss, seed try_add (mk_session (sym_list 0 0 cs) [] extra) = Ok ss /\ merge_inv (numbered 0 cs) ss /\
    complete (numbered 0 cs) (ss_queue ss) /\ (length (ss_queue ss) <= length cs)%nat /\
    ss_symbols ss = sym_list 0 0 cs.
Proof using laws H0.
  intros Ht Hne Hok He. set (ss0 := mk_session (sym_list 0 0 cs) [] extra).
  assert (Hi0 : merge_inv (numbered 0 cs) ss0).
  { split; cbn; [rewrite Ht; by apply sym_list_chain|by rewrite numbered_snd|done|]. by intros ? ?%elem_of_nil. }
  unfold seed. destruct (decide (cs = [])) as [->|Hcs].
  { exists ss0. split; [done|]. splits; try done. intros [|? pre]; discriminate. }
  assert (Hn : zlen (ss_symbols ss0) = zlen cs) by (unfold zlen; cbn; by rewrite length_sym_list).
  rewrite Hn. assert (1 <= zlen cs) by (destruct cs; [done|unfold zlen; cbn; lia]).
  set (I := fun (i : Z) (ss : session B E) => merge_inv (numbered 0 cs) ss /\ ss_symbols ss = sym_list 0 0 cs /\
    Z.of_nat (length (ss_queue ss)) <= i - 1 /\
    forall pre x y post, numbered 0 cs = pre ++ x :: y :: post -> zlen pre + 1 < i -> queued (ss_queue ss) x y).
  assert (Hsafe : safe (for_z 1 (zlen cs) (fun i ss => try_add (i - 1) i ss) ss0) (I (zlen cs))).
  { apply for_z_post; [lia| |].
    - unfold I. splits; try done. intros pre x y post _ Hl. pose proof (zlen_nonneg pre). lia.
    - intros i ss Hi (Hinv & Hsym & Hlen & Hq).
      set (k := Z.to_nat (i - 1)). unfold zlen in Hi.
      assert (Hk : (S k < length (numbered 0 cs))%nat).
      { rewrite <- (length_fmap fst), numbered_fst, length_zseq. lia. }
      destruct (lookup_lt_is_Some_2 (numbered 0 cs) k) as (x & Hx); [lia|].
      destruct (lookup_lt_is_Some_2 (numbered 0 cs) (S k)) as (y & Hy); [lia|].
      assert (Eps : numbered 0 cs = take k (numbered 0 cs) ++ x :: y :: drop (S (S k)) (numbered 0 cs)).
      { rewrite <- (take_drop k (numbered 0 cs)) at 1. by rewrite (drop_S _ _ _ Hx), (drop_S _ _ _ Hy). }
      assert (Hx1 : x.1 = i - 1 /\ y.1 = i).
      { assert (K1 : (numbered 0 cs).*1 !! k = Some x.1) by (by rewrite list_lookup_fmap, Hx).
        assert (K2 : (numbered 0 cs).*1 !! S k = Some y.1) by (by rewrite list_lookup_fmap, Hy).
        rewrite numbered_fst in K1, K2. rewrite <- zlookup_nat in K1, K2.
        replace (length cs) with (Z.to_nat (zlen cs)) in K1, K2 by (unfold zlen; lia).
        rewrite zlookup_zseq in K1 by (unfold k, zlen; lia). rewrite zlookup_zseq in K2 by (unfold k, zlen; lia).
        injection K1 as <-. injection K2 as <-. unfold k. lia. }
      destruct (try_add_spec _ _ x y _ ss Hinv Eps) as (ss' & Ha & Hs' & Hi' & Hm & Hxy & Hl').
      destruct Hx1 as [E1 E2]. rewrite E1, E2 in Ha. rewrite Ha. cbn [post]. unfold I. splits; [done|by rewrite Hs'|lia|].
      intros pre x' y' post E' Hlt. destruct (decide (zlen pre + 1 < i)) as [Hlt'|Hge].
      + eapply queued_mono; [exact Hm|]. by eapply Hq.
      + assert (length pre = k) as Hpk by (unfold zlen, k in *; lia).
        assert (x' = x /\ y' = y) as [-> ->]; [|done].
        rewrite E' in Hx, Hy. subst k. rewrite <- Hpk in Hx, Hy.
        rewrite list_lookup_middle in Hx by done. rewrite cons_middle, app_assoc in Hy.
        rewrite list_lookup_middle in Hy by (rewrite length_app; cbn; lia). split; congruence. }
  apply safe_ok in Hsafe as (ss & -> & Hinv & Hsym & Hlen & Hq). exists ss. split; [done|]. splits; try done.
  - intros pre x y post Eps. apply (Hq _ _ _ _ Eps). apply (f_equal length) in Eps.
    rewrite <- (length_fmap fst), numbered_fst, length_zseq, length_app in Eps. cbn in Eps. unfold zlen. lia.
  - unfold zlen in Hlen. lia.
Qed.

(** The whole merge of a text, character by character at the start. *)
Lemma merge_all_spec cs extra :
  text = concat cs -> Forall (fun c => c <> []) cs -> Forall piece_ok cs -> extra_ok extra ->
  exists ps ss, merge_all b_left b_right lt outdated try_add (mk_session (sym_list 0 0 cs) [] extra) = Ok ss /\
    merge_inv ps ss /\ ps.*2 = greedy_merge rank cs /\ (cs <> [] -> head_idx ps (-1) = 0) /\
    zlen (ss_symbols ss) = zlen cs.
Proof using laws H0.
  intros Ht Hne Hok He. destruct (seed_spec cs extra Ht Hne Hok He) as (ss & Hs & Hi & Hc & Hq & Hsym).
  unfold merge_all. rewrite Hs. cbn [mbind res_bind ss_symbols]. rewrite length_sym_list.
  destruct (merge_loop_spec (4 * length cs + 1) _ ss Hi Hc) as (ps & ss' & -> & Hi' & Hg & Hh & Hl).
  { assert (length (numbered 0 cs) = length cs) as ->; [|lia].
    by rewrite <- (length_fmap fst), numbered_fst, length_zseq. }
  exists ps, ss'. splits; try done.
  - by rewrite Hg, numbered_snd.
  - intros Hcs. rewrite Hh. by destruct cs.
  - rewrite Hl, Hsym. unfold zlen. by rewrite length_sym_list.
Qed.
End merge_spec.

(** * Reading the result *)

Lemma greedy_nil rank cs : greedy_merge rank cs = [] -> Forall (fun c : bytes => c <> []) cs -> cs = [].
Proof.
  intros H Hne. pose proof (greedy_concat rank (length cs) cs) as Hc. unfold greedy_merge in H. rewrite H in Hc.
  destruct cs as [|[|x c] cs]; [done|by apply Forall_cons in Hne as [? _]|done].
Qed.

(** Following the chain visits the pieces in order. *)
Lemma walk_from {A} (body : llm_symbol -> A -> res A) (f : A -> bytes -> res A) syms prev off ps a fuel :
  linked syms prev off ps (-1) -> -1 <= prev -> (length ps < fuel)%nat ->
  (forall i t s a, (i, t) ∈ ps -> zlookup syms i = Some s -> body s a = f a t) ->
  while (fun st : Z * A =>
    let '(i, a) := st in
    if i =? -1 then mret (Done a)
    else s ← vget syms i; a ← body s a; mret (Next (s_next s, a))) fuel (head_idx ps (-1), a) =
  foldM f a ps.*2.
Proof.
  revert prev off a fuel. induction ps as [|[i t] ps IH]; intros prev off a fuel Hl Hp Hf Hb;
    (destruct fuel as [|fuel]; [cbn in Hf; lia|]); cbn [while head_idx].
  - done.
  - cbn [linked] in Hl. destruct Hl as (Hs & Hlt & _ & Hl). destruct (Z.eqb_spec i (-1)); [lia|].
    rewrite (vget_Some _ _ _ Hs). cbn [mbind res_bind]. rewrite (Hb i t) by (done || by left).
    rewrite fmap_cons. cbn [foldM snd]. destruct (f a t) as [a'|e]; cbn [mbind res_bind mret res_ret s_next]; [|done].
    eapply IH; [exact Hl|lia|cbn in Hf; lia|]. intros i' t' s' a0 Hin. apply Hb. by right.
Qed.

Lemma chain_length text syms ps : chain text syms ps -> zlen ps <= zlen syms.
Proof.
  intros Hc. pose proof (chain_nodup _ _ _ Hc) as Hnd.
  assert (Hsub : forall i, i ∈ ps.*1 -> i ∈ zseq 0 (length syms)).
  { intros i Hi. apply (chain_range _ _ _ _ Hc) in Hi. rewrite elem_of_zseq. unfold zlen in Hi. lia. }
  pose proof (submseteq_length _ _ (NoDup_submseteq _ _ Hnd Hsub)) as Hle.
  rewrite length_fmap, length_zseq in Hle. unfold zlen. lia.
Qed.

Lemma walk_spec {A} (body : llm_symbol -> A -> res A) (f : A -> bytes -> res A) text syms ps a :
  chain text syms ps -> head_idx ps (-1) = 0 ->
  (forall s t a, t ∈ ps.*2 -> s_n s = length t -> sym_str text s = Ok t -> body s a = f a t) ->
  walk s_next body syms a = foldM f a ps.*2.
Proof.
  intros Hc Hh Hb. unfold walk. rewrite <- Hh. eapply (walk_from body f); [exact (ch_linked _ _ _ Hc)|lia| |].
  - pose proof (chain_length _ _ _ Hc) as Hl. unfold zlen in Hl. lia.
  - intros i t s a' Hin Hs. pose proof Hin as Hin'. apply list_elem_of_split in Hin as (pre & post & ->).
    destruct (chain_symbol _ _ _ _ _ _ Hc) as (s' & Hs' & _ & _ & _ & Hn & _ & Hstr).
    rewrite Hs in Hs'. injection Hs' as <-. apply Hb; [|done|done].
    apply list_elem_of_fmap. by exists (i, t).
Qed.

(** The symbols that are not empty are the pieces, in order. *)
Lemma live_from text syms pre suf prev off ps :
  syms = pre ++ suf -> linked syms prev off ps (-1) -> prev < zlen pre ->
  (forall i, i ∈ ps.*1 -> zlen pre <= i) ->
  (forall i s, zlookup syms i = Some s -> zlen pre <= i -> i ∉ ps.*1 -> s_n s = O) ->
  (forall i t s, (i, t) ∈ ps -> zlookup syms i = Some s -> s_n s = length t /\ sym_str text s = Ok t) ->
  Forall2 (fun s t => s_n s = length t /\ sym_str text s = Ok t) (filter (fun s => s_n s <> O) suf) ps.*2.
Proof.
  revert pre prev off ps. induction suf as [|s suf IH]; intros pre prev off ps -> Hl Hp Habove Hdead Hstr.
  - destruct ps as [|[i t] ps]; [constructor|]. cbn [linked] in Hl. destruct Hl as (Hs & _).
    apply zlookup_Some_lt in Hs. rewrite app_nil_r in Hs. specialize (Habove i ltac:(by left)). lia.
  - assert (Hthis : zlookup (pre ++ s :: suf) (zlen pre) = Some s) by apply zlookup_mid_0.
    assert (Hnext : zlen (pre ++ [s]) = zlen pre + 1) by (rewrite zlen_app; done).
    destruct (decide (zlen pre ∈ ps.*1)) as [Hin|Hn].
    + destruct ps as [|[i t] ps]; [by apply elem_of_nil in Hin|].
      pose proof (linked_nodup _ _ _ _ _ Hl) as Hnd. cbn [linked] in Hl. destruct Hl as (Hs & Hlt & Ht & Hl).
      assert (i = zlen pre) as ->.
      { rewrite fmap_cons, elem_of_cons in Hin. cbn [fst] in Hin. destruct Hin as [Hin|Hin]; [done|].
        pose proof (linked_above _ _ _ _ _ _ Hl Hin). specialize (Habove i ltac:(by left)). cbn in *. lia. }
      destruct (Hstr (zlen pre) t s) as [H1 H2]; [by left|done|].
      rewrite filter_cons_True by (rewrite H1; by destruct t). constructor; [done|].
      apply (IH (pre ++ [s]) (zlen pre) (off + length t)%nat); [by rewrite <- app_assoc|done|lia| | |].
      * intros i Hi. pose proof (linked_above _ _ _ _ _ _ Hl Hi). lia.
      * intros i s' Hi Hge Hni. apply (Hdead i s'); [done|lia|]. rewrite fmap_cons, not_elem_of_cons. cbn [fst]. split; [lia|done].
      * intros i t' s' Hi. apply Hstr. by right.
    + rewrite filter_cons_False by (rewrite (Hdead (zlen pre) s) by (done || lia); auto).
      apply (IH (pre ++ [s]) prev off); [by rewrite <- app_assoc|done|lia| | |done].
      * intros i Hi. specialize (Habove i Hi). destruct (decide (i = zlen pre)) as [->|]; [done|lia].
      * intros i s' Hi Hge. apply Hdead; [done|lia].
Qed.

Lemma chain_live text syms ps :
  chain text syms ps ->
  Forall2 (fun s t => s_n s = length t /\ sym_str text s = Ok t) (filter (fun s => s_n s <> O) syms) ps.*2.
Proof.
  intros Hc. apply (live_from text syms [] syms (-1) 0); [done|apply Hc|done| | |].
  - intros i Hi. apply (chain_range _ _ _ _ Hc) in Hi. change (zlen []) with 0. lia.
  - intros i s Hs _. by apply (ch_dead _ _ _ Hc).
  - intros i t s Hin Hs. apply list_elem_of_split in Hin as (pre & post & ->).
    destruct (chain_symbol _ _ _ _ _ _ Hc) as (s' & Hs' & _ & _ & _ & Hn & _ & Hstr).
    rewrite Hs in Hs'. by injection Hs' as <-.
Qed.
