(* ===== verification/Spm.v ===== *)
(** The SPM tokeniser ([src/llama-vocab.cpp], [llm_tokenizer_spm_session]): it
    implements the repeated merge of the neighbours whose joined text is the token
    of the highest score, the leftmost first, and falls back to bytes. *)
From S2P Require Import Prelude Unicode Vocab Merge.

(** * Definitions *)

(** [llm_bigram_spm] and its comparator. *)
Record llm_bigram_spm : Type := mk_spm {
  sb_left  : Z;
  sb_right : Z;
  sb_score : float;
  sb_size  : nat
}.

Definition spm_lt (l r : llm_bigram_spm) : bool :=
  float_lt (sb_score l) (sb_score r) || (float_eq (sb_score l) (sb_score r) && (sb_left r <? sb_left l)).

(** The state of a session; what it keeps besides is [rev_merge]. *)
Abbreviation spm_session := (session llm_bigram_spm (gmap bytes (Z * Z))).

Section spm.
Context `{CppHeap} (v : llama_vocab) (text : bytes).

Definition spm_try_add_bigram (left right : Z) (ss : spm_session) : res spm_session :=
  if (left =? -1) || (right =? -1) then mret ss
  else
    l ← vget (ss_symbols ss) left;
    r ← vget (ss_symbols ss) right;
    t ← read_str text (s_text l) (s_n l + s_n r);
    token ← text_to_token v t;
    if token =? LLAMA_TOKEN_NULL then mret ss
    else if n_tokens v <=? u32 token then mret ss
    else
      tok_data ← get_token_data v token;
      let bigram := mk_spm left right (t_score tok_data) (length t) in
      mret (mk_session (ss_symbols ss) (heap_push spm_lt bigram (ss_queue ss))
              (<[t := (left, right)]> (ss_extra ss))).

(** One of the symbols already got merged. *)
Definition spm_outdated (left_sym right_sym : llm_symbol) (bigram : llm_bigram_spm) : res bool :=
  mret ((s_n left_sym =? 0)%nat || (s_n right_sym =? 0)%nat ||
        negb (s_n left_sym + s_n right_sym =? sb_size bigram)%nat).

(** [output.push_back(vocab.byte_to_token(b))] for every byte. *)
Definition push_bytes (output : list Z) (t : bytes) : res (list Z) :=
  foldM (fun output b => id ← byte_to_token v b; mret (output ++ [id])) output t.

Fixpoint resegment (fuel : nat) (symbols : list llm_symbol) (rev_merge : gmap bytes (Z * Z))
    (symbol : llm_symbol) (output : list Z) : res (list Z) :=
  match fuel with
  | O => Err Fuel
  | S fuel =>
      t ← sym_str text symbol;
      token ← text_to_token v t;
      if negb (token =? LLAMA_TOKEN_NULL) then mret (output ++ [token])
      else
        match rev_merge !! t with
        | None => push_bytes output t
        | Some p =>
            first ← vget symbols p.1;
            output ← resegment fuel symbols rev_merge first output;
            second ← vget symbols p.2;
            resegment fuel symbols rev_merge second output
        end
  end.

(** [llm_tokenizer_spm_session::tokenize] *)
Definition spm_tokenize (output : list Z) : res (list Z) :=
  symbols ← split_symbols text 0 [];
  ss ← merge_all sb_left sb_right spm_lt spm_outdated spm_try_add_bigram (mk_session symbols [] ∅);
  walk s_next (resegment (S (length symbols)) (ss_symbols ss) (ss_extra ss)) (ss_symbols ss) output.
End spm.

(** * The reference *)

(** Two neighbours may be merged if their joined text is a token; its score ranks
    them. *)
Definition spm_rank (v : llama_vocab) (a b : bytes) : option (Z * Z * Z) :=
  id ← v_token_to_id v !! (a ++ b);
  d ← zlookup (v_id_to_token v) id;
  Some (float_rank (t_score d)).

(** The tokens of a piece: its own, or those of its bytes. *)
Definition emit_piece (v : llama_vocab) (output : list Z) (t : bytes) : res (list Z) :=
  match v_token_to_id v !! t with
  | Some id => Ok (output ++ [id])
  | None => push_bytes v output t
  end.

(** What loading a vocabulary establishes: every text leads to a token that exists,
    and the scores are numbers. *)
Record vocab_ok (v : llama_vocab) : Prop := {
  vo_type : v_type v <> VOCAB_NONE;
  vo_size : zlen (v_id_to_token v) <= INT32_MAX;
  vo_ids : map_Forall (fun _ id => 0 <= id < zlen (v_id_to_token v)) (v_token_to_id v);
  vo_scores : Forall (fun d => is_nan (t_score d) = false) (v_id_to_token v)
}.

(** * The laws of the merge loop *)

Lemma text_to_token_eq v t :
  v_type v <> VOCAB_NONE ->
  text_to_token v t = Ok (default LLAMA_TOKEN_NULL (v_token_to_id v !! t)).
Proof.
  intros Ht. unfold text_to_token, assert_typed. rewrite bool_decide_eq_true_2 by done. cbn.
  by destruct (v_token_to_id v !! t).
Qed.

Lemma vocab_token v t id :
  vocab_ok v -> v_token_to_id v !! t = Some id ->
  text_to_token v t = Ok id /\ id <> LLAMA_TOKEN_NULL /\ u32 id < n_tokens v /\
  exists d, zlookup (v_id_to_token v) id = Some d /\ get_token_data v id = Ok d /\ is_nan (t_score d) = false.
Proof.
  intros Hv Ht. pose proof (vo_ids _ Hv _ _ Ht) as Hid. pose proof (vo_size _ Hv) as Hs. unfold INT32_MAX in Hs. cbn in Hid.
  split; [by rewrite text_to_token_eq, Ht by apply Hv|]. split; [unfold LLAMA_TOKEN_NULL; lia|].
  split; [unfold n_tokens; rewrite !u32_small by lia; lia|].
  destruct (zlookup_lt _ _ Hid) as (d & Hd). exists d. split; [done|].
  unfold get_token_data, assert_typed, vec_at. rewrite bool_decide_eq_true_2 by apply Hv. cbn. rewrite Hd. split; [done|].
  pose proof (vo_scores _ Hv) as Hn. rewrite Forall_forall in Hn. apply Hn, elem_of_zlookup. eauto.
Qed.

(** The bigram of two symbols. *)
Definition spm_entry (v : llama_vocab) (bg : llm_bigram_spm) (l r : Z) (a b : bytes) (p : Z * Z * Z) : Prop :=
  exists s, is_nan s = false /\ p = float_rank s /\ bg = mk_spm l r s (length a + length b).

(** Whatever [rev_merge] knows is a token. *)
Definition rev_merge_ok (v : llama_vocab) (rev_merge : gmap bytes (Z * Z)) : Prop :=
  forall t, is_Some (rev_merge !! t) -> is_Some (v_token_to_id v !! t).

Lemma read_joined text ls rs a b :
  sym_str text ls = Ok a -> sym_str text rs = Ok b -> s_text rs = (s_text ls + s_n ls)%nat ->
  s_n ls = length a -> s_n rs = length b -> read_str text (s_text ls) (s_n ls + s_n rs) = Ok (a ++ b).
Proof.
  unfold sym_str, read_str. destruct (Nat.leb_spec (s_text ls + s_n ls) (length text)); [|done].
  destruct (Nat.leb_spec (s_text rs + s_n rs) (length text)) as [Hr|]; [|done]. intros [= <-] [= <-] Ht _ _.
  rewrite Ht in Hr. destruct (Nat.leb_spec (s_text ls + (s_n ls + s_n rs)) (length text)); [|lia].
  f_equal. unfold substr. rewrite Ht, <- drop_drop. rewrite <- (take_drop (s_n ls) (drop (s_text ls) text)) at 1.
  rewrite take_app. f_equal.
  - apply take_ge. rewrite length_take. lia.
  - rewrite length_take, length_drop. f_equal. lia.
Qed.

Lemma spm_laws `{CppHeap} v text :
  vocab_ok v ->
  merge_laws sb_left sb_right spm_lt spm_outdated (spm_try_add_bigram v text) text (spm_rank v)
    (spm_entry v) (fun _ => True) (rev_merge_ok v).
Proof.
  intros Hv. split.
  - by intros bg l r a b p (s & _ & _ & ->).
  - intros bg l r a b p l' r' a' b' p' (s & _ & _ & ->) (s' & _ & _ & [= _ _ _ E]). lia.
  - intros bg l r a b p bg' l' r' a' b' p' (s & Hs & -> & ->) (s' & Hs' & -> & ->).
    unfold spm_lt. cbn. rewrite orb_true_iff, andb_true_iff, float_lt_rank, float_eq_rank, Z.ltb_lt by done. done.
  - intros ls rs bg Hz. unfold spm_outdated. destruct Hz as [-> | ->]; cbn; [done|]. by rewrite orb_true_r.
  - intros ls rs bg l r a b b' p (s & _ & _ & ->) Hl Hr _ _ Hb Nl Nr. unfold spm_outdated. cbn [sb_size].
    destruct (Nat.eqb_spec (s_n ls) 0); [done|]. destruct (Nat.eqb_spec (s_n rs) 0); [done|]. cbn [orb].
    rewrite Nl, Nr. cbn [mret res_ret]. do 2 f_equal. apply eq_bool_prop_intro || idtac.
    destruct (Nat.eqb_spec (length a + length b') (length a + length b)) as [E|E];
      destruct (bool_decide_reflect (b' = b)) as [->|Hne]; try done; destruct Hb as [|Hb]; try done; lia.
  - intros ss l r Hlr. unfold spm_try_add_bigram. destruct Hlr as [-> | ->]; cbn; [done|]. by rewrite orb_true_r.
  - intros ss l r ls rs a b Sl Sr Ht Nl Nr Al Ar _ _ He.
    unfold spm_try_add_bigram. pose proof (zlookup_Some_lt _ _ _ Sl). pose proof (zlookup_Some_lt _ _ _ Sr).
    destruct (Z.eqb_spec l (-1)); [lia|]. destruct (Z.eqb_spec r (-1)); [lia|]. cbn [orb].
    rewrite (vget_Some _ _ _ Sl), (vget_Some _ _ _ Sr). cbn [mbind res_bind].
    rewrite (read_joined text ls rs a b) by done. cbn [mbind res_bind].
    unfold spm_rank. destruct (v_token_to_id v !! (a ++ b)) as [id|] eqn:Hid; cbn [mbind option_bind].
    + destruct (vocab_token v _ _ Hv Hid) as (-> & Hn & Hu & d & Hd & Hg & Hnan). cbn [mbind res_bind].
      destruct (Z.eqb_spec id LLAMA_TOKEN_NULL); [done|]. destruct (Z.leb_spec (n_tokens v) (u32 id)); [lia|].
      rewrite Hg, Hd. cbn [mbind res_bind option_bind mret res_ret]. eexists. split; [done|]. cbn [ss_symbols ss_extra ss_queue].
      split; [done|]. split.
      * intros t. destruct (decide (t = a ++ b)) as [->|Hne]; [by rewrite Hid|].
        rewrite lookup_insert_ne by done. apply He.
      * eexists. split; [|done]. exists (t_score d). split; [done|]. split; [done|]. by rewrite length_app.
    + rewrite text_to_token_eq, Hid by apply Hv. cbn. exists ss. done.
  - done.
Qed.

(** A piece is never resegmented: its text is a token, or was never merged. *)
Lemma resegment_emit v text fuel symbols rev_merge s t output :
  vocab_ok v -> rev_merge_ok v rev_merge -> sym_str text s = Ok t ->
  resegment v text (S fuel) symbols rev_merge s output = emit_piece v output t.
Proof.
  intros Hv Hrev Hs. cbn [resegment]. rewrite Hs. cbn [mbind res_bind]. unfold emit_piece.
  destruct (v_token_to_id v !! t) as [id|] eqn:Hid.
  - destruct (vocab_token v _ _ Hv Hid) as (-> & Hn & _). cbn [mbind res_bind].
    by destruct (Z.eqb_spec id LLAMA_TOKEN_NULL).
  - rewrite text_to_token_eq, Hid by apply Hv. cbn [mbind res_bind default]. cbn.
    destruct (rev_merge !! t) eqn:E; [|done]. destruct (Hrev t) as [? H]; [by rewrite E|]. by rewrite Hid in H.
Qed.

(** * The session *)

Lemma spm_tokenize_eq `{CppHeapLaws} (v : llama_vocab) (text : bytes) (output : list Z) :
  vocab_ok v -> text <> [] ->
  spm_tokenize v text output =
    foldM (emit_piece v) output (greedy_merge (spm_rank v) (utf8_chars text)).
Proof.
  intros Hv Hne. unfold spm_tokenize. rewrite split_symbols_spec. cbn [mbind res_bind].
  pose proof (utf8_chars_nonempty text) as Hcs. pose proof (utf8_chars_concat text) as Hcat.
  destruct (merge_all_spec _ _ _ _ _ _ _ _ _ _ (spm_laws v text Hv) (utf8_chars text) ∅) as
    (ps & ss & -> & Hi & Hg & Hh & Hl); try done.
  { by apply Forall_true. }
  { intros t [? Ht]. by rewrite lookup_empty in Ht. }
  cbn [mbind res_bind]. rewrite length_sym_list, <- Hg.
  apply (walk_spec _ _ text); [apply Hi|apply Hh; by rewrite utf8_chars_nil_iff|].
  intros s t out _ _ Hs. by apply resegment_emit; [|apply Hi|].
Qed.

(** * Properties *)

(** C27. SPM tokenisation is greedy merging: on every text that is not empty, whatever
    order the work queue keeps its elements in, the session returns, without
    undefined behaviour and within its fuel, the tokens of the pieces that the
    reference yields, which joins again and again the neighbours whose joined text
    is the token with the highest score, the leftmost of them first; a piece that
    is no token yields the tokens of its bytes, and [resegment] never recurs. *)
Theorem spm_tokenize_greedy `{CppHeapLaws} (v : llama_vocab) (text : bytes) (output : list Z) :
  vocab_ok v -> text <> [] ->
  spm_tokenize v text output =
    foldM (emit_piece v) output (greedy_merge (spm_rank v) (utf8_chars text)).
Proof. apply spm_tokenize_eq. Qed.

(** * Example *)

(** Builds the two tables the way loading a model does. *)
Definition index_tokens (l : list token_data) : gmap bytes Z :=
  list_to_map (reverse (imap (fun i d => (t_text d, Z.of_nat i)) l)).

Definition demo_tokens : list token_data := [
  mk_token (str "<unk>") (float_of_Z 0) ATTR_UNKNOWN;
  mk_token (str "<s>") (float_of_Z 0) ATTR_CONTROL;
  mk_token (str "</s>") (float_of_Z 0) ATTR_CONTROL;
  mk_token (str "<0x0A>") (float_of_Z 0) ATTR_BYTE;
  mk_token (str "<0x63>") (float_of_Z 0) ATTR_BYTE;
  mk_token visible_space (float_of_Z (-6)) ATTR_NORMAL;
  mk_token (str "a") (float_of_Z (-3)) ATTR_NORMAL;
  mk_token (str "b") (float_of_Z (-4)) ATTR_NORMAL;
  mk_token (str "ab") (float_of_Z (-2)) ATTR_NORMAL;
  mk_token (visible_space ++ str "a") (float_of_Z (-1)) ATTR_NORMAL;
  mk_token (str "ba") (float_of_Z (-5)) ATTR_NORMAL].

Definition demo_vocab : llama_vocab :=
  mk_vocab VOCAB_SPM 6 1 2 0 (-1) true true false false false false true false
    (index_tokens demo_tokens) demo_tokens [1; 2; 0] [] ∅ {[2]}.

Lemma demo_vocab_ok : vocab_ok demo_vocab.
Proof.
  split; [done|vm_compute; discriminate| |].
  - apply map_Forall_to_list. apply (bool_decide_unpack _). vm_compute. exact I.
  - repeat constructor.
Qed.

Lemma spm_tokenize_greedy_witness :
  vocab_ok demo_vocab /\ visible_space ++ str "abbac" <> [] /\
  @spm_tokenize scan_heap demo_vocab (visible_space ++ str "abbac") [1] = Ok [1; 9; 7; 10; 4].
Proof.
  split; [exact demo_vocab_ok|]. split; [discriminate|].
  rewrite (@spm_tokenize_greedy scan_heap scan_heap_laws demo_vocab (visible_space ++ str "abbac") [1] demo_vocab_ok);
    [vm_compute; reflexivity|discriminate].
Defined.
