(* ===== verification/Bpe.v ===== *)
(** The BPE tokeniser ([src/llama-vocab.cpp], [llm_tokenizer_bpe_session]): every
    word of the pre-tokeniser is merged by the ranks of the vocabulary's merges, the
    pieces of all words are chained and emitted as tokens. *)
From S2P Require Import Prelude Unicode UnicodeSplit Vocab Merge.

(** * Definitions *)

(** [llm_bigram_bpe] and its comparator. *)
Record llm_bigram_bpe : Type := mk_bpe {
  bb_left  : Z;
  bb_right : Z;
  bb_text  : bytes;
  bb_rank  : Z;
  bb_size  : nat
}.

Definition bpe_lt (l r : llm_bigram_bpe) : bool :=
  (bb_rank r <? bb_rank l) || ((bb_rank l =? bb_rank r) && (bb_left r <? bb_left l)).

Abbreviation bpe_session := (session llm_bigram_bpe unit).

(** A finished symbol with the word its text pointer leads into. *)
Abbreviation final_symbol := (bytes * llm_symbol)%type.

(** [append_bos], [append_eos] *)
Definition append_bos (v : llama_vocab) (output : list Z) : res (list Z) :=
  if v_add_bos v then
    ggml_assert (negb (v_special_bos_id v =? LLAMA_TOKEN_NULL));;
    mret (output ++ [v_special_bos_id v])
  else mret output.

Definition append_eos (v : llama_vocab) (output : list Z) : res (list Z) :=
  if v_add_eos v then
    ggml_assert (negb (v_special_eos_id v =? LLAMA_TOKEN_NULL));;
    mret (output ++ [v_special_eos_id v])
  else mret output.

Section bpe.
Context `{CppHeap} (v : llama_vocab).

Section word.
Context (word : bytes).

Definition add_new_bigram (left right : Z) (ss : bpe_session) : res bpe_session :=
  if (left =? -1) || (right =? -1) then mret ss
  else
    l ← vget (ss_symbols ss) left;
    left_token ← sym_str word l;
    r ← vget (ss_symbols ss) right;
    right_token ← sym_str word r;
    rank_found ← find_bpe_rank v left_token right_token;
    if rank_found <? 0 then mret ss
    else
      let bigram := mk_bpe left right (left_token ++ right_token) rank_found
                      (length left_token + length right_token) in
      mret (mk_session (ss_symbols ss) (heap_push bpe_lt bigram (ss_queue ss)) (ss_extra ss)).

Definition bpe_outdated (left_symbol right_symbol : llm_symbol) (bigram : llm_bigram_bpe) : res bool :=
  if (s_n left_symbol =? 0)%nat || (s_n right_symbol =? 0)%nat then mret true
  else
    left_token ← sym_str word left_symbol;
    right_token ← sym_str word right_symbol;
    mret (negb (bool_decide (left_token ++ right_token = bb_text bigram))).

(** The symbols of a word after its merges. *)
Definition bpe_word : res (list llm_symbol) :=
  whole ← (if v_ignore_merges v then
             token ← text_to_token v word; mret (negb (token =? LLAMA_TOKEN_NULL))
           else mret false);
  symbols ← (if whole : bool then split_symbols word (length word) [mk_sym (-1) (-1) 0 (length word)]
             else split_symbols word 0 []);
  ss ← merge_all bb_left bb_right bpe_lt bpe_outdated add_new_bigram (mk_session symbols [] tt);
  mret (ss_symbols ss).
End word.

(** Adds a finished symbol to the final list, linked to the one before. *)
Definition add_final (word : bytes) (st : list final_symbol * Z) (sym : llm_symbol) :
    res (list final_symbol * Z) :=
  let '(symbols_final, final_prev_index) := st in
  if (0 <? s_n sym)%nat then
    let sym := mk_sym final_prev_index (-1) (s_text sym) (s_n sym) in
    symbols_final ←
      (if negb (final_prev_index =? -1) then
         p ← vget symbols_final final_prev_index;
         vset symbols_final final_prev_index
           (p.1, mk_sym (s_prev p.2) (zlen symbols_final) (s_text p.2) (s_n p.2))
       else mret symbols_final);
    mret (symbols_final ++ [(word, sym)], zlen symbols_final)
  else mret st.

Definition bpe_add_word (st : list final_symbol * Z) (word : bytes) : res (list final_symbol * Z) :=
  symbols ← bpe_word word;
  foldM (add_final word) st symbols.

(** The single bytes of a piece that is no token; a byte without a token is dropped. *)
Definition bpe_push_bytes (output : list Z) (t : bytes) : res (list Z) :=
  foldM (fun output b =>
    token_multibyte ← text_to_token v [b];
    mret (if negb (token_multibyte =? LLAMA_TOKEN_NULL) then output ++ [token_multibyte] else output))
    output t.

Definition bpe_emit (fs : final_symbol) (output : list Z) : res (list Z) :=
  if (s_n fs.2 =? 0)%nat then mret output
  else
    t ← sym_str fs.1 fs.2;
    token ← text_to_token v t;
    if token =? LLAMA_TOKEN_NULL then bpe_push_bytes output t else mret (output ++ [token]).

(** [llm_tokenizer_bpe_session::tokenize]; [regex_exprs] are the tokeniser's. *)
Definition bpe_tokenize `{UnicodeData} `{RegexEngine} (regex_exprs : list bytes) (text : bytes)
    (output : list Z) : res (list Z) :=
  word_collection ← unicode_regex_split text regex_exprs;
  st ← foldM bpe_add_word ([], -1) word_collection;
  match st.1 with
  | [] => mret output
  | _ => walk (fun fs => s_next fs.2) bpe_emit st.1 output
  end.
End bpe.

(** * The reference *)

(** The pair's place in the list of merges; an earlier merge goes first. *)
Definition bpe_rank (v : llama_vocab) (a b : bytes) : option (Z * Z * Z) :=
  match v_bpe_ranks v !! (a, b) with
  | Some r => if r <? 0 then None else Some ((- r), 0, 0)
  | None => None
  end.

(** The pieces of a word: the word, if merges are to be ignored for it, or the
    pieces of its greedy merge. *)
Definition bpe_pieces (v : llama_vocab) (word : bytes) : list bytes :=
  if v_ignore_merges v && negb (bool_decide (word = [])) &&
     bool_decide (is_Some (v_token_to_id v !! word)) then [word]
  else greedy_merge (bpe_rank v) (utf8_chars word).

Definition bpe_emit_piece (v : llama_vocab) (output : list Z) (t : bytes) : res (list Z) :=
  match v_token_to_id v !! t with
  | Some id => Ok (output ++ [id])
  | None => bpe_push_bytes v output t
  end.

(** * The laws of the merge loop *)

(** What the assertions of [find_bpe_rank] ask of a text. *)
Definition no_blank (t : bytes) : Prop := (32 ∉ t) /\ (10 ∉ t).

Lemma no_blank_app a b : no_blank (a ++ b) <-> no_blank a /\ no_blank b.
Proof. unfold no_blank. rewrite !elem_of_app. tauto. Qed.

Lemma find_bpe_rank_eq v a b :
  no_blank a -> no_blank b -> find_bpe_rank v a b = Ok (default (-1) (v_bpe_ranks v !! (a, b))).
Proof.
  intros [A1 A2] [B1 B2]. unfold find_bpe_rank, lacks. rewrite !bool_decide_eq_true_2 by done. cbn.
  by destruct (v_bpe_ranks v !! (a, b)).
Qed.

Definition bpe_entry (bg : llm_bigram_bpe) (l r : Z) (a b : bytes) (p : Z * Z * Z) : Prop :=
  exists k, p = ((- k), 0, 0) /\ bg = mk_bpe l r (a ++ b) k (length a + length b).

Lemma bpe_laws `{CppHeap} v word :
  merge_laws bb_left bb_right bpe_lt (bpe_outdated word) (add_new_bigram v word) word (bpe_rank v)
    bpe_entry no_blank (fun _ => True).
Proof.
  split.
  - by intros bg l r a b p (k & _ & ->).
  - intros bg l r a b p l' r' a' b' p' (k & _ & ->) (k' & _ & [= _ _ _ _ E]). lia.
  - intros bg l r a b p bg' l' r' a' b' p' (k & -> & ->) (k' & -> & ->).
    unfold bpe_lt, rank_lt. cbn. rewrite orb_true_iff, andb_true_iff, !Z.ltb_lt, Z.eqb_eq. split.
    + intros [?|[-> ?]]; [left; lia|by right].
    + intros [?|[[= ?] ?]]; [left; lia|right; lia].
  - intros ls rs bg Hz. unfold bpe_outdated. destruct Hz as [-> | ->]; cbn; [done|]. by rewrite orb_true_r.
  - intros ls rs bg l r a b b' p (k & _ & ->) Hl Hr Al Ar Hb _ _. unfold bpe_outdated.
    destruct (Nat.eqb_spec (s_n ls) 0); [done|]. destruct (Nat.eqb_spec (s_n rs) 0); [done|]. cbn [orb].
    rewrite Al, Ar. cbn [mbind res_bind bb_text mret res_ret]. do 2 f_equal.
    apply bool_decide_ext. split; [intros E; by apply app_inv_head in E|by intros ->].
  - intros ss l r Hlr. unfold add_new_bigram. destruct Hlr as [-> | ->]; cbn; [done|]. by rewrite orb_true_r.
  - intros ss l r ls rs a b Sl Sr Ht Nl Nr Al Ar Ha Hb _.
    unfold add_new_bigram. pose proof (zlookup_Some_lt _ _ _ Sl). pose proof (zlookup_Some_lt _ _ _ Sr).
    destruct (Z.eqb_spec l (-1)); [lia|]. destruct (Z.eqb_spec r (-1)); [lia|]. cbn [orb].
    rewrite (vget_Some _ _ _ Sl), (vget_Some _ _ _ Sr). cbn [mbind res_bind]. rewrite Al, Ar. cbn [mbind res_bind].
    rewrite find_bpe_rank_eq by done. cbn [mbind res_bind]. unfold bpe_rank.
    destruct (v_bpe_ranks v !! (a, b)) as [k|] eqn:Hk; cbn [default]; [|by exists ss].
    unfold id. destruct (Z.ltb_spec k 0); [by exists ss|]. eexists. split; [done|]. split; [done|]. split; [done|].
    eexists. split; [|done]. by exists k.
  - intros a b Ha Hb. by apply no_blank_app.
Qed.

Lemma no_blank_chars word : no_blank word -> Forall no_blank (utf8_chars word).
Proof.
  intros Hw. rewrite Forall_forall. intros c Hc. rewrite <- (utf8_chars_concat word) in Hw.
  apply list_elem_of_split in Hc as (l1 & l2 & E). rewrite E, concat_app in Hw. cbn in Hw.
  rewrite !no_blank_app in Hw. tauto.
Qed.

(** * Words *)

Definition spelled (word : bytes) (s : llm_symbol) (t : bytes) : Prop :=
  s_n s = length t /\ sym_str word s = Ok t.

(** The live symbols of a word are its pieces. *)
Lemma bpe_word_spec `{CppHeapLaws} v word :
  v_type v <> VOCAB_NONE -> map_Forall (fun _ id => 0 <= id) (v_token_to_id v) -> no_blank word ->
  exists syms, bpe_word v word = Ok syms /\
    Forall2 (spelled word) (filter (fun s => s_n s <> O) syms) (bpe_pieces v word).
Proof.
  intros Ht Hids Hb. unfold bpe_word, bpe_pieces.
  assert (Hdirect : (if v_ignore_merges v then
             token ← text_to_token v word; mret (negb (token =? LLAMA_TOKEN_NULL))
           else mret false) = Ok (v_ignore_merges v && bool_decide (is_Some (v_token_to_id v !! word)))).
  { destruct (v_ignore_merges v); [|done]. unfold text_to_token, assert_typed. rewrite bool_decide_eq_true_2 by done. cbn.
    destruct (v_token_to_id v !! word) as [id|] eqn:E; cbn; [|done]. specialize (Hids _ _ E). cbn in Hids.
    unfold LLAMA_TOKEN_NULL. by destruct (Z.eqb_spec id (-1)); [lia|]. }
  rewrite Hdirect. cbn [mbind res_bind].
  destruct (v_ignore_merges v && bool_decide (is_Some (v_token_to_id v !! word))) eqn:E.
  - apply andb_true_iff in E as [E1 E2]. rewrite E1, E2. cbn [andb].
    unfold split_symbols. rewrite split_loop by lia. rewrite drop_ge by lia. cbn [sym_list utf8_chars utf8_pieces length app].
    change (utf8_chars []) with (@nil bytes). cbn [sym_list app mbind res_bind]. rewrite andb_true_r.
    destruct (decide (word = [])) as [->|Hne].
    + rewrite bool_decide_eq_true_2 by done. cbn [negb].
      unfold merge_all, seed. cbn [ss_symbols]. change (zlen [_]) with 1. rewrite for_z_empty by lia. cbn [mbind res_bind length Nat.mul Nat.add].
      cbn [while merge_step ss_queue]. unfold merge_step. cbn [ss_queue]. rewrite heap_pop_nil. cbn.
      eexists. split; [done|]. constructor.
    + rewrite bool_decide_eq_false_2 by done. cbn [negb].
      destruct (merge_all_spec _ _ _ _ _ _ _ _ _ _ (bpe_laws v word) [word] tt) as (ps & ss & Hm & Hi & Hg & _);
        [cbn; by rewrite app_nil_r|by apply Forall_singleton|by apply Forall_singleton|done|].
      cbn [sym_list] in Hm. change (0 - 1) with (-1) in Hm. rewrite Hm. cbn [mbind res_bind mret res_ret]. eexists. split; [done|].
      replace [word] with ps.*2 by (by rewrite Hg). apply chain_live, Hi.
  - rewrite split_symbols_spec. cbn [mbind res_bind].
    assert (v_ignore_merges v && negb (bool_decide (word = [])) && bool_decide (is_Some (v_token_to_id v !! word)) = false) as ->.
    { destruct (v_ignore_merges v); [|done]. cbn in *. by rewrite E, andb_false_r. }
    destruct (merge_all_spec _ _ _ _ _ _ _ _ _ _ (bpe_laws v word) (utf8_chars word) tt) as (ps & ss & -> & Hi & <- & _);
      [by rewrite utf8_chars_concat|apply utf8_chars_nonempty|by apply no_blank_chars|done|].
    cbn [mbind res_bind mret res_ret]. eexists. split; [done|]. apply chain_live, Hi.
Qed.

(** * The final list *)

(** Every symbol is linked to the one after it. *)
Definition links_ok (F : list final_symbol) : Prop :=
  forall i fs, F !! i = Some fs -> s_next fs.2 = (if (S i =? length F)%nat then -1 else Z.of_nat (S i)).

Definition final_ok (st : list final_symbol * Z) (ts : list bytes) : Prop :=
  st.2 = zlen st.1 - 1 /\ links_ok st.1 /\ Forall2 (fun fs t => spelled fs.1 fs.2 t /\ t <> []) st.1 ts.

Lemma add_final_spec word st sym ts t :
  final_ok st ts -> spelled word sym t -> t <> [] ->
  exists st', add_final word st sym = Ok st' /\ final_ok st' (ts ++ [t]).
Proof.
  destruct st as [F k]. intros (Hk & Hl & Hf) [Hn Hs] Hne. cbn [fst snd] in *.
  destruct sym as [pv nx off n]. cbn [s_n s_text s_next s_prev] in *. subst n. unfold add_final. cbn [s_n s_text].
  destruct (Nat.ltb_spec 0 (length t)); [|by destruct t; [|cbn in *; lia]].
  assert (Hnew : forall G k', (spelled word (mk_sym k' (-1) off (length t)) t) /\ t <> [] ->
    length G = length F -> Forall2 (fun fs t => spelled fs.1 fs.2 t /\ t <> []) G ts ->
    (forall i fs, G !! i = Some fs -> s_next fs.2 = Z.of_nat (S i)) ->
    final_ok (G ++ [(word, mk_sym k' (-1) off (length t))], zlen F) (ts ++ [t])).
  { intros G k' Hsp HG Hfa Hnx. split; [|split]; cbn [fst snd].
    - rewrite zlen_app. unfold zlen. rewrite HG. cbn. lia.
    - intros i fs Hi. rewrite length_app. cbn [length]. apply lookup_app_Some in Hi as [Hi|[Hge Hi]].
      + rewrite (Hnx _ _ Hi). apply lookup_lt_Some in Hi. destruct (Nat.eqb_spec (S i) (length G + 1)); [lia|done].
      + apply list_lookup_singleton_Some in Hi as [Hi0 <-]. cbn [snd s_next].
        destruct (Nat.eqb_spec (S i) (length G + 1)); [done|lia].
    - by apply Forall2_app; [|constructor]. }
  rewrite Hk. destruct (Z.eqb_spec (zlen F - 1) (-1)) as [E|E]; cbn [negb].
  - assert (F = []) as -> by (destruct F; [done|unfold zlen in E; cbn in E; lia]). cbn [mbind res_bind mret res_ret].
    eexists. split; [done|]. apply (Hnew [] (zlen (@nil final_symbol) - 1)); [done|done|done|]. intros i fs Hi. by rewrite lookup_nil in Hi.
  - assert (Hlast : 0 <= zlen F - 1 < zlen F) by (pose proof (zlen_nonneg F); lia).
    destruct (zlookup_lt _ _ Hlast) as (p & Hp). rewrite (vget_Some _ _ _ Hp). cbn [mbind res_bind].
    rewrite vset_at by done. cbn [mbind res_bind mret res_ret]. rewrite zlen_insert.
    eexists. split; [done|]. apply Hnew; [done|by rewrite length_insert| |].
    + unfold zlookup in Hp. destruct (Z.leb_spec 0 (zlen F - 1)); [|done].
      destruct (Forall2_lookup_l _ _ _ _ _ Hf Hp) as (u & Hu & Hpu).
      rewrite <- (list_insert_id ts (Z.to_nat (zlen F - 1)) u) by done. by apply Forall2_insert.
    + intros i fs Hi. destruct (decide (i = Z.to_nat (zlen F - 1))) as [->|Hi'].
      * rewrite list_lookup_insert_eq in Hi by (unfold zlen in *; lia). injection Hi as <-. cbn [fst snd s_next]. lia.
      * rewrite list_lookup_insert_ne in Hi by done. rewrite (Hl _ _ Hi). apply lookup_lt_Some in Hi.
        destruct (Nat.eqb_spec (S i) (length F)); [unfold zlen in Hi'; lia|done].
Qed.

Lemma add_finals_spec word st syms ts us :
  final_ok st ts -> Forall2 (spelled word) (filter (fun s => s_n s <> O) syms) us ->
  exists st', foldM (add_final word) st syms = Ok st' /\ final_ok st' (ts ++ us).
Proof.
  revert st ts us. induction syms as [|s syms IH]; intros st ts us Hst Hf.
  - apply Forall2_nil_inv_l in Hf as ->. exists st. by rewrite app_nil_r.
  - cbn [foldM]. destruct (decide (s_n s = O)) as [Hz|Hz].
    + rewrite filter_cons_False in Hf by auto.
      assert (add_final word st s = Ok st) as ->; [|by apply IH].
      unfold add_final. destruct st as [F k]. by rewrite Hz.
    + rewrite filter_cons_True in Hf by done. apply Forall2_cons_inv_l in Hf as (t & us' & Hs & Hf & ->).
      destruct (add_final_spec word st s ts t Hst Hs) as (st' & -> & Hst').
      { destruct Hs as [Hn _]. intros ->. by rewrite Hn in Hz. }
      cbn [mbind res_bind]. destruct (IH _ _ us' Hst') as (st2 & -> & H2); [done|].
      exists st2. rewrite <- app_assoc in H2. done.
Qed.

(** Emitting the final list. *)
Lemma walk_final {A} (body : final_symbol -> A -> res A) (f : A -> bytes -> res A) F ts a :
  F <> [] -> links_ok F -> Forall2 (fun fs t => spelled fs.1 fs.2 t /\ t <> []) F ts ->
  (forall fs t a, spelled fs.1 fs.2 t -> t <> [] -> body fs a = f a t) ->
  walk (fun fs => s_next fs.2) body F a = foldM f a ts.
Proof.
  intros Hne Hl Hf Hb. unfold walk.
  assert (Hgen : forall fuel i a, (i <= length F)%nat -> (length F - i < fuel)%nat ->
    while (fun st : Z * A =>
      let '(i, a) := st in
      if i =? -1 then mret (Done a)
      else s ← vget F i; a ← body s a; mret (Next (s_next s.2, a)))
      fuel (if (i =? length F)%nat then -1 else Z.of_nat i, a) = foldM f a (drop i ts)).
  { induction fuel as [|fuel IH]; intros i b Hi Hfuel; [lia|]. cbn [while].
    destruct (Nat.eqb_spec i (length F)) as [->|Hi'].
    - cbn. rewrite drop_ge; [done|]. by rewrite (Forall2_length _ _ _ Hf).
    - destruct (Z.eqb_spec (Z.of_nat i) (-1)); [lia|].
      destruct (lookup_lt_is_Some_2 F i) as (fs & Hfs); [lia|].
      destruct (Forall2_lookup_l _ _ _ _ _ Hf Hfs) as (t & Ht & Hsp & Htne).
      rewrite (vget_Some _ _ fs) by (by rewrite zlookup_nat). cbn [mbind res_bind].
      rewrite (Hb _ _ _ Hsp Htne), (drop_S _ _ _ Ht). cbn [foldM].
      destruct (f b t) as [b'|]; cbn [mbind res_bind mret res_ret]; [|done].
      rewrite (Hl _ _ Hfs). apply IH; lia. }
  specialize (Hgen (S (length F)) O a). rewrite drop_0 in Hgen.
  destruct (Nat.eqb_spec 0 (length F)) as [E|_]; [by destruct F|]. apply Hgen; lia.
Qed.

(** * The session *)

Lemma bpe_tokenize_eq `{CppHeapLaws} `{D : UnicodeData} `{R : RegexEngine} (v : llama_vocab)
    (regex_exprs : list bytes) (text : bytes) (words : list bytes) (output : list Z) :
  v_type v <> VOCAB_NONE -> map_Forall (fun _ id => 0 <= id) (v_token_to_id v) ->
  unicode_regex_split text regex_exprs = Ok words -> Forall no_blank words ->
  bpe_tokenize v regex_exprs text output =
    foldM (bpe_emit_piece v) output (concat (bpe_pieces v <$> words)).
Proof.
  intros Ht Hids Hw Hb. unfold bpe_tokenize. rewrite Hw. cbn [mbind res_bind].
  assert (Hgen : forall st ts, final_ok st ts ->
    exists st', foldM (bpe_add_word v) st words = Ok st' /\ final_ok st' (ts ++ concat (bpe_pieces v <$> words))).
  { clear Hw. induction Hb as [|w words Hb _ IH]; intros st ts Hst; [exists st; cbn; by rewrite app_nil_r|].
    destruct (bpe_word_spec v w Ht Hids Hb) as (syms & Hwd & Hs).
    destruct (add_finals_spec w st syms ts _ Hst Hs) as (st1 & Hst1 & H1).
    assert (bpe_add_word v st w = Ok st1) as E by (unfold bpe_add_word; by rewrite Hwd).
    cbn [foldM]. rewrite E. cbn [mbind res_bind].
    destruct (IH _ _ H1) as (st2 & -> & H2). exists st2. split; [done|]. by rewrite fmap_cons, <- app_assoc in *. }
  destruct (Hgen ([], -1) []) as ([F k] & -> & Hk & Hl & Hf).
  { split; [done|]. split; [|constructor]. intros i fs Hi. cbn in Hi. by rewrite lookup_nil in Hi. }
  cbn [mbind res_bind fst snd app] in *. destruct (decide (F = [])) as [->|HF].
  { apply Forall2_nil_inv_l in Hf. by rewrite Hf. }
  trans (walk (fun fs => s_next fs.2) (bpe_emit v) F output); [by destruct F|].
  apply walk_final; [done|done|done|].
  intros [w s] t a [Hn Hs] Hne. unfold bpe_emit. cbn [fst snd] in *. rewrite Hn.
  destruct (Nat.eqb_spec (length t) 0); [by destruct t|]. rewrite Hs. cbn [mbind res_bind].
  unfold text_to_token, assert_typed, bpe_emit_piece. rewrite bool_decide_eq_true_2 by done. cbn [mbind res_bind ggml_assert mret res_ret].
  destruct (v_token_to_id v !! t) as [id|] eqn:E; [|done]. specialize (Hids _ _ E). cbn in Hids.
  unfold LLAMA_TOKEN_NULL. by destruct (Z.eqb_spec id (-1)); [lia|].
Qed.

(** * Properties *)

(** C28. BPE tokenisation is greedy merging: for every split of the text into words
    without spaces and line feeds, whatever order the work queue keeps its elements
    in, the session returns, without a failed assertion, undefined behaviour or
    exhausted fuel, the tokens of the pieces of the words in order; the pieces are
    those of the reference, which applies the merge of the lowest rank again and
    again, the leftmost first, or the word itself if it is a token and merges are
    to be ignored. *)
Theorem bpe_tokenize_greedy `{CppHeapLaws} `{D : UnicodeData} `{R : RegexEngine} (v : llama_vocab)
    (regex_exprs : list bytes) (text : bytes) (words : list bytes) (output : list Z) :
  v_type v <> VOCAB_NONE -> map_Forall (fun _ id => 0 <= id) (v_token_to_id v) ->
  unicode_regex_split text regex_exprs = Ok words -> Forall no_blank words ->
  bpe_tokenize v regex_exprs text output =
    foldM (bpe_emit_piece v) output (concat (bpe_pieces v <$> words)).
Proof. apply bpe_tokenize_eq. Qed.

(** * Example *)

(** The token of a space in the byte-level alphabet, U+0120. *)
Definition byte_space : bytes := [196; 160].

Definition demo_bpe_texts : list bytes :=
  [str "h"; str "e"; str "l"; str "o"; byte_space; str "he"; str "ll"; byte_space ++ str "he"; str "llo"].

Definition demo_bpe_merges : list (bytes * bytes) :=
  [(str "h", str "e"); (byte_space, str "he"); (str "l", str "l"); (str "ll", str "o")].

Definition demo_bpe_vocab : llama_vocab :=
  mk_vocab VOCAB_BPE 3 (-1) (-1) (-1) (-1) false false false false false false false false
    (list_to_map (imap (fun i t => (t, Z.of_nat i)) demo_bpe_texts))
    ((fun t => mk_token t (float_of_Z 0) ATTR_NORMAL) <$> demo_bpe_texts) [] []
    (list_to_map (imap (fun i m => (m, Z.of_nat i)) demo_bpe_merges)) ∅.

Lemma bpe_tokenize_greedy_witness :
  v_type demo_bpe_vocab <> VOCAB_NONE /\
  map_Forall (fun _ id => 0 <= id) (v_token_to_id demo_bpe_vocab) /\
  @unicode_regex_split ascii_data silent_engine (str "he hello") [regex_gpt2] =
    Ok [str "he"; byte_space ++ str "hello"] /\
  Forall no_blank [str "he"; byte_space ++ str "hello"] /\
  @bpe_tokenize scan_heap demo_bpe_vocab ascii_data silent_engine [regex_gpt2] (str "he hello") [] = Ok [5; 7; 8].
Proof.
  assert (H1 : v_type demo_bpe_vocab <> VOCAB_NONE) by discriminate.
  assert (H2 : map_Forall (fun _ id => 0 <= id) (v_token_to_id demo_bpe_vocab)).
  { apply map_Forall_to_list. apply (bool_decide_unpack _). vm_compute. exact I. }
  assert (H3 : @unicode_regex_split ascii_data silent_engine (str "he hello") [regex_gpt2] =
    Ok [str "he"; byte_space ++ str "hello"]) by (vm_compute; reflexivity).
  assert (H4 : Forall no_blank [str "he"; byte_space ++ str "hello"]).
  { apply (bool_decide_unpack _). vm_compute. exact I. }
  split; [exact H1|]. split; [exact H2|]. split; [exact H3|]. split; [exact H4|].
  rewrite (@bpe_tokenize_greedy scan_heap scan_heap_laws ascii_data silent_engine demo_bpe_vocab [regex_gpt2]
    (str "he hello") [str "he"; byte_space ++ str "hello"] [] H1 H2 H3 H4). vm_compute. reflexivity.
Defined.
