(* ===== verification/Trie.v ===== *)
(** The prefix tree of the vocabulary ([src/llama-vocab.cpp], [naive_trie]) and the
    RWKV tokeniser, which looks for the longest token at every position. *)
From S2P Require Import Prelude Unicode Vocab.

(** * The prefix tree *)

(** [naive_trie]; [children] is a [std::map], here its list of entries. *)
#[warnings="-register-all"]
Inductive naive_trie : Type :=
| Node (children : list (Z * naive_trie)) (has_value : bool) (value : Z).

Definition children (t : naive_trie) : list (Z * naive_trie) := let 'Node c _ _ := t in c.
Definition has_value (t : naive_trie) : bool := let 'Node _ h _ := t in h.
Definition value (t : naive_trie) : Z := let 'Node _ _ v := t in v.

Definition empty_trie : naive_trie := Node [] false 0.

(** [children.find(c)] *)
Fixpoint find_child (c : Z) (l : list (Z * naive_trie)) : option naive_trie :=
  match l with
  | [] => None
  | (d, t) :: l => if c =? d then Some t else find_child c l
  end.

(** The child [c], made if it is missing, is replaced by [f] of it. *)
Fixpoint alter_child (c : Z) (f : naive_trie -> naive_trie) (l : list (Z * naive_trie)) : list (Z * naive_trie) :=
  match l with
  | [] => [(c, f empty_trie)]
  | (d, t) :: l => if c =? d then (d, f t) :: l else (d, t) :: alter_child c f l
  end.

Fixpoint insert (key : bytes) (v : Z) (t : naive_trie) : naive_trie :=
  match key with
  | [] => Node (children t) true v
  | c :: key => Node (alter_child c (insert key v) (children t)) (has_value t) (value t)
  end.

Definition traverse (t : naive_trie) (c : Z) : option naive_trie := find_child c (children t).

(** [get_longest_prefix(key, len, offset)]: the length it returns. *)
Fixpoint get_longest_prefix (t : naive_trie) (key : bytes) (offset : nat) : nat :=
  match key with
  | [] => offset
  | c :: key =>
      match find_child c (children t) with
      | Some t => get_longest_prefix t key (S offset)
      | None => offset
      end
  end.

(** * RWKV *)

(** The state of the parser of an escaped token. *)
Record rwkv_parser : Type := mk_rp {
  rp_escaping : bool;
  rp_hex_remaining : Z;
  rp_hex_acc : Z;
  rp_output : bytes
}.

(** One character of [llama_unescape_rwkv_token]; the [char] is compared as a
    signed number. *)
Definition unescape_rwkv_step (st : rwkv_parser) (c : Z) : rwkv_parser :=
  let '(mk_rp escaping hex_remaining hex_acc output) := st in
  if negb (hex_remaining =? 0) then
    let sc := wrap_s 8 c in
    let value := u8 (if 97 <=? sc then sc - 97 + 10 else sc - 48) in
    let hex_acc := u8 (Z.shiftl hex_acc 4 + value) in
    let hex_remaining := hex_remaining - 1 in
    if hex_remaining =? 0 then mk_rp escaping 0 0 (output ++ [hex_acc])
    else mk_rp escaping hex_remaining hex_acc output
  else if escaping then
    if c =? 116 then mk_rp false 0 hex_acc (output ++ [9])
    else if c =? 110 then mk_rp false 0 hex_acc (output ++ [10])
    else if c =? 114 then mk_rp false 0 hex_acc (output ++ [13])
    else if c =? 120 then mk_rp false 2 hex_acc output
    else mk_rp false 0 hex_acc (output ++ [c])
  else if c =? 92 then mk_rp true 0 hex_acc output
  else mk_rp false 0 hex_acc (output ++ [c]).

Definition llama_unescape_rwkv_token (escaped : bytes) : bytes :=
  rp_output (fold_left unescape_rwkv_step escaped (mk_rp false 0 0 [])).

(** The constructor of [llm_tokenizer_rwkv]. *)
Definition rwkv_matcher (v : llama_vocab) : res naive_trie :=
  for_z 0 (n_tokens v) (fun id t =>
    data ← get_token_data v id;
    mret (insert (llama_unescape_rwkv_token (t_text data)) id t)) empty_trie.

(** [text[i]] of a [std::string]: the terminator at its end may be read. *)
Definition string_at (text : bytes) (i : nat) : res Z :=
  match text !! i with
  | Some c => Ok c
  | None => if (i =? length text)%nat then Ok 0 else Err UB
  end.

(** Traverses the tree to find the longest matching token. *)
Fixpoint rwkv_match (fuel : nat) (text : bytes) (node : naive_trie) (position : nat)
    (token_id : Z) (token_length : nat) : res (Z * nat) :=
  match fuel with
  | O => Err Fuel
  | S fuel =>
      let '(token_id, token_length) :=
        if has_value node then (value node, S position) else (token_id, token_length) in
      c ← string_at text (S position);
      match traverse node c with
      | Some node => rwkv_match fuel text node (S position) token_id token_length
      | None => mret (token_id, token_length)
      end
  end.

Definition rwkv_step (v : llama_vocab) (matcher : naive_trie) (text : bytes) (st : nat * list Z) :
    res (step (nat * list Z) (list Z)) :=
  let '(position, output) := st in
  if (position <? length text)%nat then
    c ← string_at text position;
    match traverse matcher c with
    | None => mret (Next (S position, output ++ [v_special_unk_id v]))
    | Some node =>
        r ← rwkv_match (S (length text)) text node position 0 O;
        mret (Next (r.2, output ++ [r.1]))
    end
  else mret (Done output).

(** [llm_tokenizer_rwkv_session::tokenize], with the fuel for one iteration per byte. *)
Definition rwkv_tokenize (v : llama_vocab) (matcher : naive_trie) (text : bytes) (output : list Z) : res (list Z) :=
  while (rwkv_step v matcher text) (S (length text)) (O, output).

(** * The tree is a finite map *)

(** The node a text leads to, and the value there. *)
Fixpoint node_at (t : naive_trie) (key : bytes) : option naive_trie :=
  match key with
  | [] => Some t
  | c :: key => match traverse t c with Some t => node_at t key | None => None end
  end.

Definition trie_lookup (t : naive_trie) (key : bytes) : option Z :=
  match node_at t key with
  | Some t => if has_value t then Some (value t) else None
  | None => None
  end.

Lemma find_alter c d f l :
  find_child d (alter_child c f l) =
    if d =? c then Some (f (default empty_trie (find_child c l))) else find_child d l.
Proof.
  induction l as [|[e t] l IH]; cbn [alter_child find_child].
  - by destruct (Z.eqb_spec d c).
  - destruct (Z.eqb_spec c e) as [->|Hce]; cbn [find_child].
    + by destruct (d =? e).
    + rewrite IH. destruct (Z.eqb_spec c e); [done|].
      destruct (Z.eqb_spec d c) as [->|]; [by destruct (Z.eqb_spec c e)|done].
Qed.

Lemma node_at_empty key : key <> [] -> node_at empty_trie key = None.
Proof. by destruct key. Qed.

Lemma trie_lookup_empty key : trie_lookup empty_trie key = None.
Proof. by destruct key. Qed.

Lemma trie_lookup_cons t c key :
  trie_lookup t (c :: key) = match traverse t c with Some t => trie_lookup t key | None => None end.
Proof. unfold trie_lookup. cbn. by destruct (traverse t c). Qed.

(** Inserting a key changes the value of that key only. *)
Lemma trie_lookup_insert key v t key' :
  trie_lookup (insert key v t) key' = if decide (key' = key) then Some v else trie_lookup t key'.
Proof.
  revert t key'. induction key as [|c key IH]; intros t key'; cbn [insert].
  - destruct key' as [|d key']; cbn; [done|]. by rewrite !trie_lookup_cons.
  - destruct key' as [|d key']; [done|]. rewrite !trie_lookup_cons. unfold traverse. cbn [children].
    rewrite find_alter. destruct (Z.eqb_spec d c) as [->|Hd].
    + rewrite IH. destruct (decide (key' = key)) as [->|Hk]; [by rewrite decide_True|].
      rewrite decide_False by congruence. destruct (find_child c (children t)); cbn; [done|]. apply trie_lookup_empty.
    + by rewrite decide_False by congruence.
Qed.

(** Inserting a key adds its prefixes to the paths. *)
Lemma node_at_insert key v t key' :
  is_Some (node_at (insert key v t) key') <-> key' `prefix_of` key \/ is_Some (node_at t key').
Proof.
  revert t key'. induction key as [|c key IH]; intros t key'; cbn [insert].
  - destruct key' as [|d key']; cbn.
    + split; [intros _; by left|intros _; eauto].
    + unfold traverse. cbn [children]. split; [by right|]. intros [H|H]; [|done]. by apply prefix_nil_inv in H.
  - destruct key' as [|d key']; cbn [node_at].
    + split; [intros _; left; apply prefix_nil|eauto].
    + unfold traverse. cbn [children]. rewrite find_alter. destruct (Z.eqb_spec d c) as [->|Hd].
      * rewrite IH. destruct (find_child c (children t)) as [s|] eqn:E; cbn [default].
        -- split; [intros [?|?]; [left; by apply prefix_cons|by right]|].
           intros [?%prefix_cons_inv_2|?]; [by left|by right].
        -- unfold id. split.
           ++ intros [?|H]; [left; by apply prefix_cons|]. destruct key'; [left; apply prefix_cons, prefix_nil|by destruct H].
           ++ intros [?%prefix_cons_inv_2|[? [=]]]. by left.
      * split; [by right|]. intros [H|H]; [|done]. by apply prefix_cons_inv_1 in H.
Qed.

(** * Longest match *)

(** The longest prefix of [s] that [look] knows, of at most [n] bytes and at least
    one. *)
Fixpoint longest_prefix (look : bytes -> option Z) (n : nat) (s : bytes) : option (nat * Z) :=
  match n with
  | O => None
  | S m => match look (take n s) with Some id => Some (n, id) | None => longest_prefix look m s end
  end.

(** The reference of the tokeniser: the longest token at every position, or the
    unknown token for one byte. *)
Fixpoint rwkv_reference (look : bytes -> option Z) (unk : Z) (fuel : nat) (s : bytes) : list Z :=
  match fuel, s with
  | S fuel, c :: s' =>
      match longest_prefix look (length s) s with
      | Some (n, id) => id :: rwkv_reference look unk fuel (drop n s)
      | None => unk :: rwkv_reference look unk fuel s'
      end
  | _, _ => []
  end.

(** The tokens by their unescaped texts; of two with one text the later counts. *)
Definition rwkv_tokens (v : llama_vocab) : gmap bytes Z :=
  list_to_map (reverse (imap (fun i d => (llama_unescape_rwkv_token (t_text d), Z.of_nat i)) (v_id_to_token v))).

(** What the search asks of the tokens: the first byte of a token is a token, and
    a token has no byte 0 after its first byte. *)
Record rwkv_ok (look : bytes -> option Z) : Prop := {
  ro_first : forall c k, is_Some (look (c :: k)) -> is_Some (look [c]);
  ro_nul : forall c k, is_Some (look (c :: k)) -> 0 ∉ k
}.

(** The longest match below a node, the node's own value included. *)
Fixpoint longest_in (t : naive_trie) (s : bytes) : option (nat * Z) :=
  let here := if has_value t then Some (O, value t) else None in
  match s with
  | [] => here
  | c :: s =>
      match traverse t c with
      | Some t => match longest_in t s with Some (n, id) => Some (S n, id) | None => here end
      | None => here
      end
  end.

Lemma longest_prefix_cons t c s n :
  longest_prefix (trie_lookup t) (S n) (c :: s) =
    match traverse t c with
    | Some t' => match longest_prefix (trie_lookup t') n s with
                 | Some (m, id) => Some (S m, id)
                 | None => if has_value t' then Some (1%nat, value t') else None
                 end
    | None => None
    end.
Proof.
  induction n as [|n IH].
  - cbn [longest_prefix]. change (take 1 (c :: s)) with [c]. rewrite trie_lookup_cons. destruct (traverse t c) as [t'|]; [|done].
    unfold trie_lookup. cbn. by destruct (has_value t').
  - assert (E : forall m k (l : bytes), longest_prefix (trie_lookup k) (S m) l =
      match trie_lookup k (take (S m) l) with Some id => Some (S m, id) | None => longest_prefix (trie_lookup k) m l end) by done.
    rewrite (E (S n)), IH. change (take (S (S n)) (c :: s)) with (c :: take (S n) s).
    rewrite trie_lookup_cons. destruct (traverse t c) as [t'|]; [|done]. rewrite (E n).
    by destruct (trie_lookup t' (take (S n) s)).
Qed.

Lemma longest_in_spec t s :
  longest_in t s =
    match longest_prefix (trie_lookup t) (length s) s with
    | Some r => Some r
    | None => if has_value t then Some (O, value t) else None
    end.
Proof.
  revert t. induction s as [|c s IH]; intros t; [done|]. cbn [longest_in length]. rewrite longest_prefix_cons.
  destruct (traverse t c) as [t'|]; [|done]. rewrite IH.
  destruct (longest_prefix (trie_lookup t') (length s) s) as [[m id]|]; [done|]. by destruct (has_value t').
Qed.

(** The search reads the text up to its terminator, which it does not follow. *)
Lemma rwkv_match_spec text node position fuel token_id token_length :
  (length text - position < fuel)%nat -> (position < length text)%nat ->
  (forall k, is_Some (trie_lookup node k) -> 0 ∉ k) ->
  (forall k t, node_at node k = Some t -> exists k', is_Some (trie_lookup t k')) ->
  rwkv_match fuel text node position token_id token_length =
    Ok (match longest_in node (drop (S position) text) with
        | Some (n, id) => (id, (S position + n)%nat)
        | None => (token_id, token_length)
        end).
Proof.
  revert node position token_id token_length. induction fuel as [|fuel IH];
    intros node position token_id token_length Hf Hp Hnul Hkeys; [lia|]. cbn [rwkv_match].
  destruct (decide (S position < length text)%nat) as [Hlt|Hge].
  - destruct (lookup_lt_is_Some_2 text (S position) Hlt) as (c & Hc).
    unfold string_at. rewrite Hc, (drop_S _ _ _ Hc). cbn [longest_in].
    destruct (has_value node) eqn:Hv; cbn [mbind res_bind]; destruct (traverse node c) as [node'|] eqn:Ht;
      rewrite ?Nat.add_0_r; try done.
    all: rewrite IH; [|lia|lia| |]; [by destruct (longest_in node' (drop (S (S position)) text)) as [[n id]|];
      rewrite ?Nat.add_succ_r, ?Nat.add_0_r| |].
    all: try (intros k Hk H0; apply (Hnul (c :: k)); [by rewrite trie_lookup_cons, Ht|by right]).
    all: intros k t Hk; apply (Hkeys (c :: k)); cbn; by rewrite Ht.
  - unfold string_at. rewrite (lookup_ge_None_2 text) by lia.
    destruct (Nat.eqb_spec (S position) (length text)); [|lia]. rewrite drop_ge by lia. cbn [longest_in].
    assert (traverse node 0 = None) as E.
    { destruct (traverse node 0) as [t|] eqn:E; [|done]. destruct (Hkeys [0] t) as (k' & Hk'); [cbn; by rewrite E|].
      exfalso. apply (Hnul (0 :: k')); [by rewrite trie_lookup_cons, E|by left]. }
    destruct (has_value node) eqn:Hv; cbn [mbind res_bind]; rewrite E; by rewrite ?Nat.add_0_r.
Qed.

(** Every node of a tree made by insertions leads to a value. *)
Definition trim (t : naive_trie) : Prop :=
  forall c k t', node_at t (c :: k) = Some t' -> exists k', is_Some (trie_lookup t' k').

Lemma node_at_app t k k' : node_at t (k ++ k') = match node_at t k with Some t => node_at t k' | None => None end.
Proof. revert t. induction k as [|c k IH]; intros t; cbn; [done|]. by destruct (traverse t c). Qed.

Lemma trie_lookup_app t k k' :
  trie_lookup t (k ++ k') = match node_at t k with Some t => trie_lookup t k' | None => None end.
Proof. unfold trie_lookup. rewrite node_at_app. by destruct (node_at t k). Qed.

Lemma trim_insert key v t : trim t -> trim (insert key v t).
Proof.
  intros Ht c k t' Hk.
  assert (Hin : is_Some (node_at (insert key v t) (c :: k))) by eauto.
  assert (Hgo : forall k', is_Some (trie_lookup (insert key v t) ((c :: k) ++ k')) -> is_Some (trie_lookup t' k')).
  { intros k'. by rewrite trie_lookup_app, Hk. }
  apply node_at_insert in Hin as [(k' & ->)|[t0 H0]].
  - exists k'. apply Hgo. rewrite trie_lookup_insert, decide_True by done. done.
  - destruct (Ht _ _ _ H0) as (k' & Hk'). exists k'. apply Hgo. rewrite trie_lookup_insert.
    case_decide; [done|]. by rewrite trie_lookup_app, H0.
Qed.

Lemma trim_empty : trim empty_trie.
Proof. by intros c k t'. Qed.

(** * The tokeniser *)

Lemma rwkv_matcher_spec v :
  v_type v <> VOCAB_NONE -> zlen (v_id_to_token v) <= INT32_MAX ->
  exists m, rwkv_matcher v = Ok m /\ trim m /\ forall key, trie_lookup m key = rwkv_tokens v !! key.
Proof.
  intros Ht Hsize. unfold rwkv_matcher, n_tokens, INT32_MAX in *. pose proof (zlen_nonneg (v_id_to_token v)) as Hz.
  rewrite u32_small by lia.
  set (tokens := v_id_to_token v) in *. set (g := fun (i : nat) (d : token_data) => (llama_unescape_rwkv_token (t_text d), Z.of_nat i)).
  set (I := fun (i : Z) (t : naive_trie) => trim t /\ forall key, trie_lookup t key =
    (list_to_map (reverse (imap g (take (Z.to_nat i) tokens))) : gmap bytes Z) !! key).
  assert (Hsafe : safe (for_z 0 (zlen tokens) (fun id t =>
    data ← get_token_data v id; mret (insert (llama_unescape_rwkv_token (t_text data)) id t)) empty_trie) (I (zlen tokens))).
  { apply for_z_post; [lia| |].
    - split; [apply trim_empty|]. intros key. change (Z.to_nat 0) with O. rewrite take_0. cbn. by rewrite trie_lookup_empty, lookup_empty.
    - intros i t Hi [Htrim Hlook]. destruct (zlookup_lt tokens i Hi) as (d & Hd).
      assert (get_token_data v i = Ok d) as ->.
      { unfold get_token_data, assert_typed, vec_at. rewrite bool_decide_eq_true_2 by done. cbn [mbind res_bind ggml_assert].
        fold tokens. by rewrite Hd. }
      cbn [mbind res_bind mret res_ret post]. split; [by apply trim_insert|]. intros key. rewrite trie_lookup_insert, Hlook.
      unfold zlookup in Hd. destruct (Z.leb_spec 0 i) as [_|]; [|done].
      replace (Z.to_nat (i + 1)) with (S (Z.to_nat i)) by lia. rewrite (take_S_r _ _ _ Hd), imap_app, reverse_app. cbn.
      rewrite length_take. apply lookup_lt_Some in Hd. rewrite Nat.min_l by lia. unfold g at 2. cbn [fst snd].
      rewrite Nat.add_0_r, Z2Nat.id by lia.
      destruct (decide (key = llama_unescape_rwkv_token (t_text d))) as [->|Hne]; [by rewrite lookup_insert_eq|].
      by rewrite lookup_insert_ne. }
  apply safe_ok in Hsafe as (m & -> & Htrim & Hlook). exists m. split; [done|]. split; [done|].
  intros key. rewrite Hlook. unfold zlen. rewrite Nat2Z.id, firstn_all. done.
Qed.

Section rwkv.
Context (v : llama_vocab) (m : naive_trie) (text : bytes).
Hypothesis Htrim : trim m.
Hypothesis Hok : rwkv_ok (trie_lookup m).

Lemma rwkv_step_spec position output :
  (position < length text)%nat ->
  exists c s, drop position text = c :: s /\ drop (S position) text = s /\
  rwkv_step v m text (position, output) =
    match longest_prefix (trie_lookup m) (length (c :: s)) (c :: s) with
    | Some (n, id) => Ok (Next ((position + n)%nat, output ++ [id]))
    | None => Ok (Next (S position, output ++ [v_special_unk_id v]))
    end.
Proof using Htrim Hok.
  intros Hp. destruct (lookup_lt_is_Some_2 text position Hp) as (c & Hc).
  exists c, (drop (S position) text). split; [by apply drop_S|]. split; [done|].
  unfold rwkv_step. destruct (Nat.ltb_spec position (length text)); [|lia].
  unfold string_at. rewrite Hc. cbn [mbind res_bind length]. rewrite longest_prefix_cons.
  destruct (traverse m c) as [node|] eqn:Hn; [|done].
  assert (Hnode : forall k, trie_lookup node k = trie_lookup m (c :: k)) by (intros k; by rewrite trie_lookup_cons, Hn).
  assert (Hv : has_value node = true).
  { destruct (Htrim c [] node) as (k & Hk); [cbn; by rewrite Hn|]. rewrite Hnode in Hk.
    apply (ro_first _ Hok) in Hk. rewrite <- Hnode in Hk. unfold trie_lookup in Hk. cbn in Hk.
    destruct (has_value node); [done|by destruct Hk]. }
  rewrite rwkv_match_spec; [|lia|lia| |].
  - cbn [mbind res_bind]. rewrite longest_in_spec, Hv.
    destruct (longest_prefix (trie_lookup node) (length (drop (S position) text)) (drop (S position) text)) as [[n id]|]; cbn.
    + do 3 f_equal. lia.
    + do 3 f_equal. lia.
  - intros k Hk. rewrite Hnode in Hk. by apply (ro_nul _ Hok) in Hk.
  - intros k t Hk. apply (Htrim c k). cbn. by rewrite Hn.
Qed.

Lemma longest_prefix_bound look n (s : bytes) k id : longest_prefix look n s = Some (k, id) -> (1 <= k <= n)%nat.
Proof.
  induction n as [|n IH]; cbn; [done|]. destruct (look (take (S n) s)); [intros [= <- <-]; lia|].
  intros H. apply IH in H. lia.
Qed.

Lemma rwkv_loop fuel position output f :
  (length text - position < fuel)%nat -> (length text - position <= f)%nat ->
  while (rwkv_step v m text) fuel (position, output) =
    Ok (output ++ rwkv_reference (trie_lookup m) (v_special_unk_id v) f (drop position text)).
Proof using Htrim Hok.
  revert position output f. induction fuel as [|fuel IH]; intros position output f Hfuel Hf; [lia|]. cbn [while].
  destruct (decide (position < length text)%nat) as [Hp|Hp].
  - destruct (rwkv_step_spec position output Hp) as (c & s & Hd & Hs & ->). rewrite Hd.
    destruct f as [|f]; [lia|]. cbn [rwkv_reference].
    destruct (longest_prefix (trie_lookup m) (length (c :: s)) (c :: s)) as [[n id]|] eqn:E; cbn [mbind res_bind].
    + apply longest_prefix_bound in E. assert (length (c :: s) = length text - position)%nat as El by (by rewrite <- Hd, length_drop).
      rewrite (IH _ _ f) by lia. rewrite <- app_assoc, <- drop_drop, Hd. done.
    + rewrite (IH _ _ f) by lia. by rewrite <- app_assoc, Hs.
  - unfold rwkv_step. destruct (Nat.ltb_spec position (length text)); [lia|]. cbn. rewrite drop_ge by lia.
    destruct f; by rewrite app_nil_r.
Qed.
End rwkv.

(** * Properties *)

(** RWKV tokenisation is the longest match: if the first byte of every token is
    itself a token and no token has a zero byte inside, then for every text the
    prefix tree is built and the session returns, reading nothing behind the text's
    terminator and within one iteration per byte, the longest token at each position,
    or the unknown token for one byte where no token fits. *)
Theorem rwkv_tokenize_longest (v : llama_vocab) (text : bytes) (output : list Z) :
  v_type v <> VOCAB_NONE -> zlen (v_id_to_token v) <= INT32_MAX -> rwkv_ok (fun k => rwkv_tokens v !! k) ->
  (m ← rwkv_matcher v; rwkv_tokenize v m text output) =
    Ok (output ++ rwkv_reference (fun k => rwkv_tokens v !! k) (v_special_unk_id v) (length text) text).
Proof.
  intros Ht Hs [H1 H2]. destruct (rwkv_matcher_spec v Ht Hs) as (m & -> & Htrim & Hlook). cbn [mbind res_bind].
  assert (Hok : rwkv_ok (trie_lookup m)).
  { split; intros c k; rewrite ?Hlook; [apply H1|apply H2]. }
  unfold rwkv_tokenize. rewrite (rwkv_loop v m text Htrim Hok _ _ _ (length text)) by lia. rewrite drop_0. do 2 f_equal.
  assert (Hext : forall n s, longest_prefix (trie_lookup m) n s = longest_prefix (fun k => rwkv_tokens v !! k) n s).
  { induction n as [|n IH]; intros s; cbn; [done|]. by rewrite Hlook, IH. }
  generalize (length text). intros f. revert text. induction f as [|f IH]; intros [|c s]; cbn [rwkv_reference]; try done.
  rewrite Hext. destruct (longest_prefix _ _ _) as [[n id]|]; by rewrite IH.
Qed.

(** A vocabulary with two single bytes, one longer token and an escaped one. *)
Definition demo_rwkv_vocab : llama_vocab :=
  mk_vocab VOCAB_RWKV 6 (-1) (-1) 0 (-1) false false false false false false false false ∅
    ((fun t => mk_token t (float_of_Z 0) ATTR_NORMAL) <$>
       [str "<s>"; str "a"; str "b"; str "ab"; str "aba"; [92; 110]; str "<"]) [] [] ∅ ∅.

Lemma demo_rwkv_ok : rwkv_ok (fun k => rwkv_tokens demo_rwkv_vocab !! k).
Proof.
  assert (H : map_Forall (fun k _ => match k with
    | [] => True
    | c :: k => is_Some (rwkv_tokens demo_rwkv_vocab !! [c]) /\ Forall (fun b => b <> 0) k
    end) (rwkv_tokens demo_rwkv_vocab)).
  { apply map_Forall_to_list. vm_compute. repeat constructor; try discriminate; by eexists. }
  split; intros c k [id Hk]; specialize (H _ _ Hk); cbn in H; destruct H as [H1 H2]; [done|].
  intros H0. rewrite Forall_forall in H2. by apply (H2 0).
Qed.

Lemma rwkv_tokenize_longest_witness :
  v_type demo_rwkv_vocab <> VOCAB_NONE /\ zlen (v_id_to_token demo_rwkv_vocab) <= INT32_MAX /\
  rwkv_ok (fun k => rwkv_tokens demo_rwkv_vocab !! k) /\
  (m ← rwkv_matcher demo_rwkv_vocab; rwkv_tokenize demo_rwkv_vocab m (str "abxabab" ++ [10]) []) =
    Ok [3; 0; 4; 2; 5].
Proof.
  assert (H1 : v_type demo_rwkv_vocab <> VOCAB_NONE) by discriminate.
  assert (H2 : zlen (v_id_to_token demo_rwkv_vocab) <= INT32_MAX) by (vm_compute; discriminate).
  split; [exact H1|]. split; [exact H2|]. split; [exact demo_rwkv_ok|].
  rewrite (rwkv_tokenize_longest demo_rwkv_vocab (str "abxabab" ++ [10]) [] H1 H2 demo_rwkv_ok). vm_compute. reflexivity.
Defined.

(** A vocabulary in which "ab" is a token and "a" is not. *)
Definition gap_rwkv_vocab : llama_vocab :=
  mk_vocab VOCAB_RWKV 6 (-1) (-1) 0 (-1) false false false false false false false false ∅
    ((fun t => mk_token t (float_of_Z 0) ATTR_NORMAL) <$> [str "<s>"; str "ab"]) [] [] ∅ ∅.

(** The session does not end on "a" if "ab" is a token and "a" is not: the search
    finds a node for "a" but no token, the length of the match stays 0 and the
    position is set back to the start, again and again. *)
Theorem rwkv_without_byte_token_loops (m : naive_trie) (fuel : nat) :
  rwkv_matcher gap_rwkv_vocab = Ok m ->
  forall output, while (rwkv_step gap_rwkv_vocab m (str "a")) fuel (O, output) = Err Fuel.
Proof.
  intros Hm. assert (E : rwkv_matcher gap_rwkv_vocab = Ok (insert (str "ab") 1 (insert (str "<s>") 0 empty_trie)))
    by (vm_compute; reflexivity).
  assert (m = insert (str "ab") 1 (insert (str "<s>") 0 empty_trie)) as -> by congruence. clear Hm E.
  induction fuel as [|fuel IH]; intros output; [done|]. cbn [while].
  assert (Hs : rwkv_step gap_rwkv_vocab (insert (str "ab") 1 (insert (str "<s>") 0 empty_trie)) (str "a") (O, output) =
    Ok (Next (O, output ++ [0]))) by reflexivity.
  rewrite Hs. cbn [mbind res_bind]. apply IH.
Qed.
