(* ===== verification/Wpm.v ===== *)
(** The WPM tokeniser ([src/llama-vocab.cpp], [llm_tokenizer_wpm_session]): the
    normalisation of a text to words, and the longest match over a word, or the
    unknown token for a word that is not covered. *)
From S2P Require Import Prelude Unicode Vocab Trie.

(** * Words *)

Definition is_chinese_char (cpt : Z) : bool :=
  ((0x4E00 <=? cpt) && (cpt <=? 0x9FFF)) ||
  ((0x3400 <=? cpt) && (cpt <=? 0x4DBF)) ||
  ((0x20000 <=? cpt) && (cpt <=? 0x2A6DF)) ||
  ((0x2A700 <=? cpt) && (cpt <=? 0x2B73F)) ||
  ((0x2B740 <=? cpt) && (cpt <=? 0x2B81F)) ||
  ((0x2B920 <=? cpt) && (cpt <=? 0x2CEAF)) ||
  ((0xF900 <=? cpt) && (cpt <=? 0xFAFF)) ||
  ((0x2F800 <=? cpt) && (cpt <=? 0x2FA1F)).

Section preprocess.
Context `{UnicodeData}.

(** Finishes the previous word if there is any; the words are the finished ones
    and [words.back()]. *)
Definition finish_word (words : list bytes * bytes) : list bytes * bytes :=
  match words.2 with [] => words | back => (words.1 ++ [back], []) end.

(** One code point of [preprocess]; the [assert] is compiled out of a release. *)
Definition preprocess_step (words : list bytes * bytes) (cpt : Z) : res (list bytes * bytes) :=
  let flags := unicode_cpt_flags_from_cpt cpt in
  if is_whitespace flags then mret (finish_word words)
  else if (cpt =? 0) || (cpt =? 0xFFFD) || Unicode.is_control flags then mret words
  else
    s ← unicode_cpt_to_utf8 (unicode_tolower cpt);
    if is_punctuation flags || ((cpt <? 0x7F) && is_symbol flags) || is_chinese_char cpt then
      let words := finish_word words in
      mret (words.1 ++ [s], [])
    else mret (words.1, words.2 ++ s).

Definition preprocess (text : bytes) : res (list bytes) :=
  cpts ← unicode_cpts_from_utf8 text;
  cpts_nfd ← unicode_cpts_normalize_nfd cpts;
  words ← foldM preprocess_step ([], []) cpts_nfd;
  mret (match words.2 with [] => words.1 | back => words.1 ++ [back] end).
End preprocess.

(** * Tokens of a word *)

Section wpm.
Context (v : llama_vocab).

(** The loop over the possible match lengths from [j - i] down. *)
Fixpoint wpm_match (word1 : bytes) (i : nat) (len : nat) : res (option (nat * Z)) :=
  match len with
  | O => mret None
  | S len' =>
      id ← text_to_token v (substr i len word1);
      if negb (id =? LLAMA_TOKEN_NULL) then mret (Some (len, id)) else wpm_match word1 i len'
  end.

(** One position of a word: a match moves behind it; without one the word's tokens
    are discarded. *)
Definition wpm_step (word1 : bytes) (current_tokens : nat) (st : nat * list Z) : res (step (nat * list Z) (list Z)) :=
  let '(i, output) := st in
  if (i <? length word1)%nat then
    r ← wpm_match word1 i (Z.to_nat (Z.min (zlen word1) (Z.of_nat i + v_max_token_len v + 1) - Z.of_nat i));
    mret (match r with
          | Some (len, id) => Next ((i + len)%nat, output ++ [id])
          | None => Done (take current_tokens output)
          end)
  else mret (Done output).

Definition wpm_word (output : list Z) (word : bytes) : res (list Z) :=
  if (length word =? 0)%nat then mret output
  else
    let word1 := visible_space ++ word in
    let current_tokens := length output in
    output ← while (wpm_step word1 current_tokens) (S (length word1)) (O, output);
    mret (if (current_tokens =? length output)%nat then output ++ [v_special_unk_id v] else output).

(** [llm_tokenizer_wpm_session::tokenize] *)
Definition wpm_tokenize `{UnicodeData} (text : bytes) (output : list Z) : res (list Z) :=
  words ← preprocess text;
  foldM wpm_word output words.
End wpm.

(** * The reference *)

(** Covers a text by longest matches, if they reach its end. *)
Fixpoint longest_cover (look : bytes -> option Z) (fuel : nat) (s : bytes) : option (list Z) :=
  match fuel, s with
  | S fuel, _ :: _ =>
      match longest_prefix look (length s) s with
      | Some (n, id) => cons id <$> longest_cover look fuel (drop n s)
      | None => None
      end
  | _, _ => Some []
  end.

Definition wpm_reference (v : llama_vocab) (word : bytes) : list Z :=
  match longest_cover (fun t => v_token_to_id v !! t) (length (visible_space ++ word)) (visible_space ++ word) with
  | Some ids => ids
  | None => [v_special_unk_id v]
  end.

(** * Lemmas *)

Lemma longest_prefix_limit look n m s :
  (n <= m)%nat -> (forall k id, look (take k s) = Some id -> (n < k)%nat -> (k <= m)%nat -> False) ->
  longest_prefix look m s = longest_prefix look n s.
Proof.
  intros Hle. induction m as [|m IH]; intros Hno; [by replace n with O by lia|].
  destruct (decide (n = S m)) as [->|]; [done|]. cbn [longest_prefix].
  destruct (look (take (S m) s)) as [id|] eqn:E; [exfalso; apply (Hno (S m) id); [done|lia|lia]|].
  apply IH; [lia|]. intros k id Hk H1 H2. apply (Hno k id); [done|done|lia].
Qed.

Section wpm_lemmas.
Context (v : llama_vocab).
Hypothesis Htype : v_type v <> VOCAB_NONE.
Hypothesis Hids : map_Forall (fun _ id => 0 <= id) (v_token_to_id v).
Hypothesis Hlen : map_Forall (fun t _ => zlen t <= v_max_token_len v) (v_token_to_id v).

Let look (t : bytes) : option Z := v_token_to_id v !! t.

Lemma wpm_match_spec word1 i len :
  wpm_match v word1 i len = Ok (longest_prefix look len (drop i word1)).
Proof using Htype Hids.
  induction len as [|len IH]; [done|]. cbn [wpm_match longest_prefix]. unfold substr, look.
  unfold text_to_token, assert_typed. rewrite bool_decide_eq_true_2 by done. cbn [ggml_assert mbind res_bind mret res_ret].
  destruct (v_token_to_id v !! take (S len) (drop i word1)) as [id|] eqn:E; [|done].
  specialize (Hids _ _ E). cbn in Hids. unfold LLAMA_TOKEN_NULL. by destruct (Z.eqb_spec id (-1)); [lia|].
Qed.

Lemma wpm_loop word1 fuel i out output f :
  (length word1 - i < fuel)%nat -> (length word1 - i <= f)%nat ->
  while (wpm_step v word1 (length out)) fuel (i, out ++ output) =
    Ok (match longest_cover look f (drop i word1) with
        | Some ids => out ++ output ++ ids
        | None => out
        end).
Proof using Htype Hids Hlen.
  revert i output f. induction fuel as [|fuel IH]; intros i output f Hf Hf'; [lia|]. cbn [while]. unfold wpm_step.
  destruct (Nat.ltb_spec i (length word1)) as [Hi|Hi].
  - rewrite wpm_match_spec. cbn [mbind res_bind mret res_ret].
    set (n := Z.to_nat (Z.min (zlen word1) (Z.of_nat i + v_max_token_len v + 1) - Z.of_nat i)).
    destruct f as [|f]; [lia|]. destruct (lookup_lt_is_Some_2 word1 i Hi) as (c & Hc).
    rewrite (drop_S _ _ _ Hc). cbn [longest_cover]. rewrite <- (drop_S _ _ _ Hc).
    assert (longest_prefix look (length (drop i word1)) (drop i word1) = longest_prefix look n (drop i word1)) as ->.
    { apply longest_prefix_limit; [rewrite length_drop; unfold n, zlen; lia|].
      intros k id Hk H1 H2. rewrite length_drop in H2. specialize (Hlen _ _ Hk). cbn in Hlen.
      unfold zlen in Hlen. rewrite length_take, length_drop in Hlen. unfold n, zlen in H1. lia. }
    destruct (longest_prefix look n (drop i word1)) as [[k id]|] eqn:E.
    + apply longest_prefix_bound in E. assert (n <= length word1 - i)%nat by (unfold n, zlen; lia).
      rewrite <- app_assoc, (IH _ _ f) by lia. rewrite drop_drop.
      destruct (longest_cover look f (drop (i + k) word1)); cbn; [|done]. by rewrite <- !app_assoc.
    + by rewrite take_app_length.
  - cbn. rewrite drop_ge by lia. destruct f; cbn; by rewrite app_nil_r.
Qed.

Lemma longest_cover_nonempty f c s ids : longest_cover look (S f) (c :: s) = Some ids -> ids <> [].
Proof.
  cbn [longest_cover]. destruct (longest_prefix _ _ _) as [[n id]|]; [|done].
  destruct (longest_cover look f _); cbn; [by intros [= <-]|done].
Qed.

Lemma wpm_word_spec output word :
  word <> [] -> wpm_word v output word = Ok (output ++ wpm_reference v word).
Proof using Htype Hids Hlen.
  intros Hw. unfold wpm_word, wpm_reference. destruct (Nat.eqb_spec (length word) 0); [by destruct word|].
  rewrite <- (app_nil_r output) at 2. rewrite (wpm_loop _ _ _ _ _ (length (visible_space ++ word))) by lia.
  rewrite drop_0. fold look. destruct (longest_cover look _ _) as [ids|] eqn:E; cbn [mbind res_bind mret res_ret app].
  - assert (ids <> []) as Hne.
    { change (visible_space ++ word) with (226 :: 150 :: 129 :: word) in E. cbn [length] in E. by apply longest_cover_nonempty in E. }
    rewrite length_app. destruct (Nat.eqb_spec (length output) (length output + length ids)); [destruct ids; [done|cbn in *; lia]|done].
  - by rewrite Nat.eqb_refl.
Qed.
End wpm_lemmas.

(** The words of the normalisation are not empty. *)
Section words.
Context `{UnicodeData}.

Lemma unicode_cpt_to_utf8_nonempty c s : unicode_cpt_to_utf8 c = Ok s -> s <> [].
Proof. unfold unicode_cpt_to_utf8. repeat case_match; intros [= <-]; done. Qed.

Lemma finish_word_nonempty words : Forall (fun w => w <> []) words.1 -> Forall (fun w => w <> []) (finish_word words).1.
Proof.
  intros Hw. unfold finish_word. destruct words as [front [|c back]]; cbn in *; [done|].
  apply Forall_app. split; [done|]. by apply Forall_singleton.
Qed.

Lemma preprocess_nonempty text words : preprocess text = Ok words -> Forall (fun w => w <> []) words.
Proof.
  unfold preprocess. intros Hp. inv_ok. rename x1 into st, H2 into Hst.
  assert (Hfront : Forall (fun w => w <> []) st.1).
  { eapply (post_ok _ (fun st : list bytes * bytes => Forall (fun w => w <> []) st.1) (fun _ => True)); [exact Hst|].
    apply (foldM_post _ (fun _ (st : list bytes * bytes) => Forall (fun w => w <> []) st.1)); [constructor|].
    intros _ c w _ Hw. unfold preprocess_step. case_match; [by apply finish_word_nonempty|].
    case_match; [done|]. destruct (unicode_cpt_to_utf8 (unicode_tolower c)) as [s|] eqn:E; [|done]. cbn [mbind res_bind].
    apply unicode_cpt_to_utf8_nonempty in E. case_match; cbn; [|done].
    apply Forall_app. split; [by apply finish_word_nonempty|]. by apply Forall_singleton. }
  destruct st as [front [|c back]]; cbn in *; [done|]. apply Forall_app. split; [done|]. by apply Forall_singleton.
Qed.
End words.

(** * Properties *)

(** WPM tokenisation covers the words: if no token is longer than the
    vocabulary's [max_token_len], the session returns, for every word of the
    normalised text with the visible space before it, the tokens of its longest
    matches from the left if these cover it, and otherwise the unknown token alone;
    the only failures are those of the normalisation. *)
Theorem wpm_tokenize_longest `{UnicodeData} (v : llama_vocab) (text : bytes) (output : list Z) :
  v_type v <> VOCAB_NONE -> map_Forall (fun _ id => 0 <= id) (v_token_to_id v) ->
  map_Forall (fun t _ => zlen t <= v_max_token_len v) (v_token_to_id v) ->
  wpm_tokenize v text output =
    (words ← preprocess text; mret (output ++ concat (wpm_reference v <$> words))).
Proof.
  intros Ht Hi Hl. unfold wpm_tokenize. destruct (preprocess text) as [words|e] eqn:E; cbn [mbind res_bind]; [|done].
  apply preprocess_nonempty in E. clear text. revert output. induction E as [|w words Hw _ IH]; intros output; cbn.
  - by rewrite app_nil_r.
  - rewrite wpm_word_spec by done. cbn [mbind res_bind]. rewrite IH. cbn. by rewrite <- app_assoc.
Qed.

Definition demo_wpm_vocab : llama_vocab :=
  let texts := [str "[UNK]"; visible_space ++ str "he"; str "llo"; visible_space ++ str "hel"; visible_space; str "!"] in
  mk_vocab VOCAB_WPM 6 0 0 0 0 false false false false false false false false
    (list_to_map (imap (fun i t => (t, Z.of_nat i)) texts))
    ((fun t => mk_token t (float_of_Z 0) ATTR_NORMAL) <$> texts) [] [] ∅ ∅.

Lemma wpm_tokenize_longest_witness :
  v_type demo_wpm_vocab <> VOCAB_NONE /\ map_Forall (fun _ id => 0 <= id) (v_token_to_id demo_wpm_vocab) /\
  map_Forall (fun t _ => zlen t <= v_max_token_len demo_wpm_vocab) (v_token_to_id demo_wpm_vocab) /\
  @wpm_tokenize demo_wpm_vocab ascii_data (str "he Hello!") [] =
    (words ← @preprocess ascii_data (str "he Hello!"); mret (concat (wpm_reference demo_wpm_vocab <$> words))).
Proof.
  assert (H1 : v_type demo_wpm_vocab <> VOCAB_NONE) by discriminate.
  assert (H2 : map_Forall (fun _ id => 0 <= id) (v_token_to_id demo_wpm_vocab)).
  { apply map_Forall_to_list. apply (bool_decide_unpack _). vm_compute. exact I. }
  assert (H3 : map_Forall (fun t _ => zlen t <= v_max_token_len demo_wpm_vocab) (v_token_to_id demo_wpm_vocab)).
  { apply map_Forall_to_list. apply (bool_decide_unpack _). vm_compute. exact I. }
  split; [exact H1|]. split; [exact H2|]. split; [exact H3|].
  apply (@wpm_tokenize_longest ascii_data demo_wpm_vocab (str "he Hello!") [] H1 H2 H3).
Defined.
