(* ===== verification/Ugm.v ===== *)
(** The UGM tokeniser ([src/llama-vocab.cpp], [llm_tokenizer_ugm] and its session):
    the normalisation of a text by the precompiled character map, and the Viterbi
    search for the tokenisation with the highest sum of scores. *)
From S2P Require Import Prelude Unicode Vocab Trie.

(** * Scores *)

(** A [float] as a [double] and back; [double] addition and comparison. *)
Definition cond_opp (s : bool) (m : positive) : Z := if s then Z.neg m else Z.pos m.

Definition double_of_float (a : float) : float :=
  match a with S754_finite s m e => binary_normalize 53 1024 (cond_opp s m) e s | _ => a end.

Definition float_of_double (a : float) : float :=
  match a with S754_finite s m e => binary_normalize 24 128 (cond_opp s m) e s | _ => a end.

Definition double_add (a b : float) : float := SFadd 53 1024 a b.
Definition double_gt (a b : float) : bool := SFltb b a.

(** [FLT_MAX] *)
Definition flt_max (s : bool) : float := S754_finite s 16777215 104.

(** * The tokeniser *)

Record llm_tokenizer_ugm : Type := mk_ugm {
  u_charsmap            : bytes;
  u_xcda_array_size     : Z;
  u_prefix_replacements : Z;
  u_user_defined_token_matcher : naive_trie;
  u_min_score           : float;
  u_max_score           : float;
  u_unknown_token_score : float;
  u_token_matcher       : naive_trie
}.

(** Four bytes of the character map as a [uint32_t]. *)
Definition read_u32 (blob : bytes) (off : Z) : res Z :=
  b0 ← vget blob off;
  b1 ← vget blob (off + 1);
  b2 ← vget blob (off + 2);
  b3 ← vget blob (off + 3);
  mret (b0 + 256 * b1 + 65536 * b2 + 16777216 * b3).

(** The sizes of the two parts of the character map: the entries of the array,
    which starts at byte 4, and the offset of the replacement strings. *)
Definition ugm_charsmap (blob : bytes) : res (Z * Z) :=
  if 0 <? zlen blob then
    xcda_blob_size ← read_u32 blob 0;
    if zlen blob <=? xcda_blob_size + 4 then throw "Index out of array bounds in precompiled charsmap!"
    else mret (xcda_blob_size / 4, 4 + xcda_blob_size)
  else mret (0, 0).

(** [std::min<float>(a, b)], [std::max<float>(a, b)] *)
Definition float_min (a b : float) : float := if float_lt b a then b else a.
Definition float_max (a b : float) : float := if float_lt a b then b else a.

(** One token of the constructor's loop. *)
Definition ugm_add_token (v : llama_vocab) (id : Z) (t : llm_tokenizer_ugm) : res llm_tokenizer_ugm :=
  token_data ← get_token_data v id;
  normal ← is_normal v id;
  user_defined ← is_user_defined v id;
  unused ← is_unused v id;
  mret (mk_ugm (u_charsmap t) (u_xcda_array_size t) (u_prefix_replacements t)
    (if user_defined : bool then insert (t_text token_data) 0 (u_user_defined_token_matcher t)
     else u_user_defined_token_matcher t)
    (if normal : bool then float_min (u_min_score t) (t_score token_data) else u_min_score t)
    (if normal then float_max (u_max_score t) (t_score token_data) else u_max_score t)
    (u_unknown_token_score t)
    (if (normal || user_defined || unused)%bool then insert (t_text token_data) id (u_token_matcher t)
     else u_token_matcher t)).

(** The constructor of [llm_tokenizer_ugm]. *)
Definition ugm_tokenizer (v : llama_vocab) (precompiled_charsmap : bytes) : res llm_tokenizer_ugm :=
  sizes ← ugm_charsmap precompiled_charsmap;
  t ← for_z 0 (n_tokens v) (ugm_add_token v)
        (mk_ugm precompiled_charsmap sizes.1 sizes.2 empty_trie (flt_max false) (flt_max true)
           (S754_zero false) empty_trie);
  mret (mk_ugm (u_charsmap t) (u_xcda_array_size t) (u_prefix_replacements t)
    (u_user_defined_token_matcher t) (u_min_score t) (u_max_score t)
    (SFsub 24 128 (u_min_score t) (float_of_Z 10)) (u_token_matcher t)).

(** * Normalisation *)

Section ugm.
Context (v : llama_vocab) (t : llm_tokenizer_ugm).

(** [xcda_array_view] *)
Definition get_node (index : Z) : res Z :=
  if u_xcda_array_size t <? index then throw "Index out of array bounds in XCDA array!"
  else read_u32 (u_charsmap t) (4 + 4 * index).

Definition get_base (index : Z) : res Z :=
  packed_node ← get_node index;
  mret (u32 (Z.shiftl (Z.shiftr packed_node 10) (Z.shiftr (Z.land packed_node 512) 6))).

Definition get_lcheck (index : Z) : res Z :=
  packed_node ← get_node index; mret (Z.land packed_node (2147483648 + 255)).

Definition get_leaf (index : Z) : res bool :=
  packed_node ← get_node index; mret (Z.land (Z.shiftr packed_node 8) 1 =? 1).

Definition get_value (index : Z) : res Z :=
  packed_node ← get_node index; mret (Z.land packed_node 2147483647).

(** The walk through the array along the input; the length of the longest match
    so far and the index of its replacement. *)
Fixpoint xcda_walk (input : bytes) (node_index : Z) (len : nat) (longest : nat * Z) : res (nat * Z) :=
  match input with
  | [] => mret longest
  | c :: input =>
      if c =? 0 then mret longest
      else
        let node_index := Z.lxor node_index c in
        lcheck ← get_lcheck node_index;
        if negb (lcheck =? c) then mret longest
        else
          is_leaf ← get_leaf node_index;
          base ← get_base node_index;
          let node_index := Z.lxor node_index base in
          longest ← (if is_leaf : bool then value ← get_value node_index; mret (S len, value)
                     else mret longest);
          xcda_walk input node_index (S len) longest
  end.

(** [strlen] and the string it measures. *)
Fixpoint c_string (s : bytes) : res bytes :=
  match s with
  | [] => Err UB
  | c :: s => if c =? 0 then mret [] else t ← c_string s; mret (c :: t)
  end.

(** [normalize_prefix]: the normalised text of a prefix of the input, and the
    length of that prefix. *)
Definition normalize_prefix (input : bytes) (input_offset : nat) : res (bytes * nat) :=
  if (input_offset =? length input)%nat then mret ([], O)
  else
    let rest := drop input_offset input in
    let match_len := get_longest_prefix (u_user_defined_token_matcher t) rest 0 in
    if (0 <? match_len)%nat then mret (take match_len rest, match_len)
    else
      longest ← (if 0 <? u_xcda_array_size t then
                   root ← get_base 0; xcda_walk rest root 0 (O, 0)
                 else mret (O, 0));
      if (0 <? longest.1)%nat then
        let prefix_replacements_size :=
          if 0 <? zlen (u_charsmap t) then zlen (u_charsmap t) - u_prefix_replacements t else 0 in
        if prefix_replacements_size <=? longest.2 then
          throw "Index out of array bounds in precompiled charsmap!"
        else
          s ← c_string (drop (Z.to_nat (u_prefix_replacements t + longest.2)) (u_charsmap t));
          mret (s, longest.1)
      else
        match unicode_cpt_from_utf8 input (Z.of_nat input_offset) with
        | Ok r =>
            let n := Z.to_nat (r.2 - Z.of_nat input_offset) in
            mret (take n rest, n)
        | Err (Throw _) => mret ([239; 191; 189], 1%nat)
        | Err e => Err e
        end.

(** The flags and the text of [normalize]'s loop. *)
Record normalizer : Type := mk_norm {
  nz_is_space_prepended : bool;
  nz_processing_non_ws  : bool;
  nz_normalized         : bytes
}.

Definition ugm_space : bytes := if v_escape_whitespaces v then visible_space else [32].

(** One byte of a normalised prefix. *)
Definition normalize_byte (st : normalizer) (c : Z) : normalizer :=
  let '(mk_norm prepended non_ws normalized) := st in
  let shall_prepend_space := negb (v_treat_whitespace_as_suffix v) && v_add_space_prefix v in
  let shall_merge_spaces := v_remove_extra_whitespaces v in
  if negb (c =? 32) then
    let sep := negb non_ws && ((shall_prepend_space && negb prepended) || shall_merge_spaces) in
    mk_norm (prepended || sep) true ((if sep then normalized ++ ugm_space else normalized) ++ [c])
  else mk_norm prepended false (if shall_merge_spaces then normalized else normalized ++ ugm_space).

Definition normalize_step (input : bytes) (s : nat * normalizer) : res (step (nat * normalizer) bytes) :=
  let '(input_offset, st) := s in
  if (input_offset <? length input)%nat then
    r ← normalize_prefix input input_offset;
    mret (Next ((input_offset + r.2)%nat, fold_left normalize_byte r.1 st))
  else
    mret (Done (if v_treat_whitespace_as_suffix v && v_add_space_prefix v
                then nz_normalized st ++ ugm_space else nz_normalized st)).

Definition normalize (input : bytes) : res bytes :=
  while (normalize_step input) (S (length input)) (O, mk_norm false false []).

(** * The search *)

Record best_tokenization : Type := mk_best {
  bt_token_id     : Z;
  bt_input_offset : nat;
  bt_score_sum    : float
}.

(** Replaces the champion at [pos] if the challenger's score is above its. *)
Definition challenge (results : list best_tokenization) (pos : nat) (token_id : Z) (input_offset : nat)
    (challenger_score : float) : res (list best_tokenization) :=
  current_champ ← vget results (Z.of_nat pos);
  if double_gt challenger_score (double_of_float (bt_score_sum current_champ)) then
    vset results (Z.of_nat pos) (mk_best token_id input_offset (float_of_double challenger_score))
  else mret results.

(** The tokens that begin at [input_offset]: the walk down the tree of tokens. *)
Fixpoint ugm_scan (fuel : nat) (normalized : bytes) (input_offset n_utf8_code_units : nat) (score : float)
    (node : option naive_trie) (prefix_offset : nat) (found : bool) (results : list best_tokenization) :
    res (bool * list best_tokenization) :=
  match fuel with
  | O => Err Fuel
  | S fuel =>
      match node with
      | Some node =>
          if (prefix_offset <=? length normalized)%nat then
            st ← (if has_value node then
                    token_data ← get_token_data v (value node);
                    user_defined ← is_user_defined v (value node);
                    let token_score := if user_defined : bool then S754_zero false
                                       else double_of_float (t_score token_data) in
                    results ← challenge results prefix_offset (value node) input_offset
                                (double_add (double_of_float score) token_score);
                    mret (found || (prefix_offset - input_offset =? n_utf8_code_units)%nat, results)
                  else mret (found, results));
            c ← string_at normalized prefix_offset;
            ugm_scan fuel normalized input_offset n_utf8_code_units score (traverse node c)
              (S prefix_offset) st.1 st.2
          else mret (found, results)
      | None => mret (found, results)
      end
  end.

(** One code point of the forward pass. *)
Definition ugm_forward_step (normalized : bytes) (st : nat * list best_tokenization) :
    res (step (nat * list best_tokenization) (list best_tokenization)) :=
  let '(input_offset, results) := st in
  if (input_offset <? length normalized)%nat then
    c ← string_at normalized input_offset;
    let n := Nat.min (Z.to_nat (unicode_len_utf8 c)) (length normalized - input_offset) in
    current_best ← vget results (Z.of_nat input_offset);
    r ← ugm_scan (S (S (length normalized))) normalized input_offset n (bt_score_sum current_best)
          (traverse (u_token_matcher t) c) (S input_offset) false results;
    results ← (if negb r.1 then
                 challenge r.2 (input_offset + n) (v_special_unk_id v) input_offset
                   (double_add (double_of_float (bt_score_sum current_best))
                               (double_of_float (u_unknown_token_score t)))
               else mret r.2);
    mret (Next ((input_offset + n)%nat, results))
  else mret (Done results).

Definition ugm_forward (normalized : bytes) : res (list best_tokenization) :=
  let results := mk_best (v_special_unk_id v) 0 (S754_zero false) ::
                 replicate (length normalized) (mk_best (v_special_unk_id v) 0 (flt_max true)) in
  while (ugm_forward_step normalized) (S (length normalized)) (O, results).

(** The backward pass; a run of unknown tokens becomes one. The loop's reference
    overwrites the last entry, which is not read again. *)
Fixpoint ugm_backward (fuel : nat) (results : list best_tokenization) (tokenization : best_tokenization)
    (is_prev_unknown : bool) (output : list Z) : res (list Z) :=
  match fuel with
  | O => Err Fuel
  | S fuel =>
      let is_unknown := bt_token_id tokenization =? v_special_unk_id v in
      let output := if negb (is_prev_unknown && is_unknown) then output ++ [bt_token_id tokenization]
                    else output in
      if (bt_input_offset tokenization =? 0)%nat then mret output
      else
        next ← vget results (Z.of_nat (bt_input_offset tokenization));
        ugm_backward fuel results next is_unknown output
  end.

(** [llm_tokenizer_ugm_session::tokenize] *)
Definition ugm_tokenize (text : bytes) (output : list Z) : res (list Z) :=
  normalized ← normalize text;
  match normalized with
  | [] => mret output
  | _ =>
      results ← ugm_forward normalized;
      best ← vget results (zlen normalized);
      ids ← ugm_backward (S (length normalized)) results best false [];
      mret (output ++ reverse ids)
  end.
End ugm.

(** * The tokeniser's trees *)

(** Every key of the tree of tokens is the text of its token. *)
Definition matcher_ok (v : llama_vocab) (m : naive_trie) : Prop :=
  forall k id, trie_lookup m k = Some id -> exists d, zlookup (v_id_to_token v) id = Some d /\ t_text d = k.

Lemma get_token_data_ok v id d :
  v_type v <> VOCAB_NONE -> zlookup (v_id_to_token v) id = Some d -> get_token_data v id = Ok d.
Proof.
  intros Ht Hd. unfold get_token_data, assert_typed, vec_at. rewrite bool_decide_eq_true_2 by done. cbn. by rewrite Hd.
Qed.

Lemma test_attr_ok v id d mask :
  v_type v <> VOCAB_NONE -> zlookup (v_id_to_token v) id = Some d ->
  test_attr v id mask = Ok (has_attr (t_attr d) mask).
Proof.
  intros Ht Hd. unfold test_attr, assert_typed. rewrite bool_decide_eq_true_2 by done. cbn. by rewrite (vget_Some _ _ _ Hd).
Qed.

Lemma ugm_tokenizer_matcher v blob t :
  v_type v <> VOCAB_NONE -> zlen (v_id_to_token v) <= INT32_MAX -> ugm_tokenizer v blob = Ok t ->
  matcher_ok v (u_token_matcher t).
Proof.
  intros Ht Hs H. unfold ugm_tokenizer in H. inv_ok. cbn [u_token_matcher].
  match goal with H : for_z _ _ _ _ = Ok ?r |- _ => rename H into Hloop end.
  eapply (post_ok _ (fun t => matcher_ok v (u_token_matcher t)) (fun _ => True)); [exact Hloop|].
  unfold n_tokens. pose proof (zlen_nonneg (v_id_to_token v)). unfold INT32_MAX in Hs. rewrite u32_small by lia.
  apply (for_z_post _ _ _ (fun _ t => matcher_ok v (u_token_matcher t))); [lia| |].
  - intros k id. cbn. by rewrite trie_lookup_empty.
  - intros i u Hi Hu. destruct (zlookup_lt _ _ Hi) as (d & Hd). unfold ugm_add_token, is_normal, is_user_defined, is_unused.
    rewrite (get_token_data_ok _ _ _ Ht Hd). cbn [mbind res_bind]. rewrite !(test_attr_ok _ _ _ _ Ht Hd).
    cbn [mbind res_bind mret res_ret post u_token_matcher]. destruct (_ || _); [|done].
    intros k id. rewrite trie_lookup_insert. case_decide as E; [|apply Hu]. intros [= <-]. subst k. by exists d.
Qed.

(** * The forward pass *)

Section search.
Context (v : llama_vocab) (t : llm_tokenizer_ugm) (s : bytes).
Hypothesis Htype : v_type v <> VOCAB_NONE.
Hypothesis Hmatch : matcher_ok v (u_token_matcher t).

(** The bytes of the code point at [i]. *)
Definition char_len (i : nat) : nat :=
  match s !! i with
  | Some c => Nat.min (Z.to_nat (unicode_len_utf8 c)) (length s - i)
  | None => O
  end.

(** The offsets the forward pass visits. *)
Inductive char_start : nat -> Prop :=
| char_start_0 : char_start 0
| char_start_next i : char_start i -> (i < length s)%nat -> char_start (i + char_len i).

(** What an entry that was reached says: its token is the text from its offset, or
    it is the unknown token over one code point. *)
Definition segment_ok (e : best_tokenization) (j : nat) : Prop :=
  (bt_input_offset e < j)%nat /\ char_start (bt_input_offset e) /\
  (trie_lookup (u_token_matcher t) (substr (bt_input_offset e) (j - bt_input_offset e) s) = Some (bt_token_id e) \/
   (bt_token_id e = v_special_unk_id v /\ j = (bt_input_offset e + char_len (bt_input_offset e))%nat)).

Definition results_ok (results : list best_tokenization) : Prop :=
  length results = S (length s) /\
  forall j e, (0 < j)%nat -> results !! j = Some e -> bt_score_sum e = flt_max true \/ segment_ok e j.

Lemma challenge_ok results pos id off score :
  results_ok results -> (pos <= length s)%nat -> segment_ok (mk_best id off (float_of_double score)) pos ->
  safe (challenge results pos id off score) results_ok.
Proof.
  intros [Hlen Hr] Hpos Hseg. unfold challenge. destruct (lookup_lt_is_Some_2 results pos) as (champ & Hc); [lia|].
  rewrite (vget_Some _ _ champ) by (by rewrite zlookup_nat). cbn [mbind res_bind]. destruct (double_gt _ _); [|done].
  rewrite vset_at by (unfold zlen; lia). cbn [post]. rewrite Nat2Z.id. split; [by rewrite length_insert|].
  intros j e Hj He. destruct (decide (j = pos)) as [->|Hne].
  - rewrite list_lookup_insert_eq in He by lia. injection He as <-. by right.
  - rewrite list_lookup_insert_ne in He by done. by apply Hr.
Qed.

Lemma substr_S i j c : (i <= j)%nat -> s !! j = Some c -> substr i (S j - i) s = substr i (j - i) s ++ [c].
Proof.
  intros Hij Hc. unfold substr. replace (S j - i)%nat with (S (j - i)) by lia. apply take_S_r.
  rewrite lookup_drop. by replace (i + (j - i))%nat with j by lia.
Qed.

Lemma node_at_snoc m k c : node_at m (k ++ [c]) = match node_at m k with Some n => traverse n c | None => None end.
Proof. rewrite node_at_app. destruct (node_at m k) as [n|]; [|done]. cbn. by destruct (traverse n c). Qed.

(** Walking down the tree challenges the ends of the tokens it meets. *)
Lemma ugm_scan_ok fuel off n score node pos found results :
  (length s + 2 - pos <= fuel)%nat -> (0 < fuel)%nat -> (off < pos)%nat -> char_start off ->
  (forall nd, node = Some nd -> (pos <= length s)%nat -> node_at (u_token_matcher t) (substr off (pos - off) s) = Some nd) ->
  results_ok results ->
  safe (ugm_scan v fuel s off n score node pos found results) (fun r => results_ok r.2).
Proof using Htype Hmatch.
  revert node pos found results. induction fuel as [|fuel IH]; intros node pos found results Hf Hf0 Hpos Hstart Hnode Hr; [lia|].
  cbn [ugm_scan]. destruct node as [nd|]; [|done].
  destruct (Nat.leb_spec pos (length s)) as [Hle|]; [|done].
  specialize (Hnode nd eq_refl Hle).
  eapply (post_bind _ _ (fun st : bool * list best_tokenization => results_ok st.2)).
  - destruct (has_value nd) eqn:Hv; [|done].
    assert (Hl : trie_lookup (u_token_matcher t) (substr off (pos - off) s) = Some (value nd))
      by (unfold trie_lookup; by rewrite Hnode, Hv).
    destruct (Hmatch _ _ Hl) as (d & Hd & _). rewrite (get_token_data_ok _ _ _ Htype Hd). cbn [mbind res_bind].
    unfold is_user_defined. rewrite (test_attr_ok _ _ _ _ Htype Hd). cbn [mbind res_bind].
    eapply post_bind; [apply challenge_ok; [done|done|]|].
    + split; [done|]. split; [done|]. by left.
    + intros results' Hr'. done.
  - intros [found' results'] Hr'. cbn [fst snd] in *.
    assert (exists c, string_at s pos = Ok c /\ ((pos < length s)%nat -> s !! pos = Some c)) as (c & -> & Hc).
    { unfold string_at. destruct (s !! pos) as [c|] eqn:E; [by exists c|].
      apply lookup_ge_None in E. destruct (Nat.eqb_spec pos (length s)); [|lia]. exists 0. split; [done|lia]. }
    cbn [mbind res_bind]. apply IH; try done; [lia|lia|lia|].
    intros nd' Hnd' Hle'. rewrite substr_S with (c := c) by (lia || apply Hc; lia). by rewrite node_at_snoc, Hnode.
Qed.

Lemma char_len_pos i : (i < length s)%nat -> (1 <= char_len i <= length s - i)%nat.
Proof.
  intros Hi. unfold char_len. destruct (lookup_lt_is_Some_2 s i Hi) as (c & ->).
  assert (1 <= unicode_len_utf8 c <= 4); [|lia].
  unfold unicode_len_utf8. pose proof (u8_range c) as Hc.
  assert (Hs : 0 <= Z.shiftr (u8 c) 4 < 16).
  { rewrite Z.shiftr_div_pow2 by lia. change (2 ^ 4) with 16. Z.div_mod_to_equations; lia. }
  assert (Hn : exists k, (k < 16)%nat /\ Z.to_nat (Z.shiftr (u8 c) 4) = k) by (eexists; split; [|done]; lia).
  destruct Hn as (k & Hk & ->). do 16 (destruct k as [|k]; [cbn; lia|]). lia.
Qed.

Lemma ugm_forward_step_ok off results :
  (off < length s)%nat -> char_start off -> results_ok results ->
  safe (ugm_forward_step v t s (off, results))
    (fun r => exists results', r = Next ((off + char_len off)%nat, results') /\ results_ok results').
Proof using Htype Hmatch.
  intros Hoff Hstart Hr. unfold ugm_forward_step. destruct (Nat.ltb_spec off (length s)); [|lia].
  pose proof (char_len_pos off Hoff) as Hlen. unfold char_len in *.
  destruct (lookup_lt_is_Some_2 s off Hoff) as (c & Hc). unfold string_at. rewrite Hc in *. cbn [mbind res_bind].
  set (n := Nat.min (Z.to_nat (unicode_len_utf8 c)) (length s - off)) in *.
  destruct (lookup_lt_is_Some_2 results off) as (cur & Hcur); [destruct Hr; lia|].
  rewrite (vget_Some _ _ cur) by (by rewrite zlookup_nat). cbn [mbind res_bind].
  eapply (post_bind _ _ (fun r => results_ok r.2)).
  - apply ugm_scan_ok; try done; [lia|lia|lia|]. intros nd Hnd _.
    replace (S off - off)%nat with 1%nat by lia. unfold substr. rewrite (drop_S _ _ _ Hc). cbn. by rewrite Hnd.
  - intros [found results'] Hr'. cbn [fst snd] in *.
    eapply (post_bind _ _ results_ok); [|intros r2 Hr2; cbn; by exists r2].
    destruct found; cbn [negb]; [done|]. apply challenge_ok; [done|lia|]. split; cbn; [lia|]. split; [done|].
    right. split; [done|]. unfold char_len. by rewrite Hc.
Qed.

Lemma ugm_forward_ok :
  s <> [] -> safe (ugm_forward v t s) results_ok.
Proof using Htype Hmatch.
  intros Hs. unfold ugm_forward.
  apply (while_post _ (fun st => (st.1 <= length s)%nat /\ char_start st.1 /\ results_ok st.2) (fun st => length s - st.1)%nat).
  - cbn. split; [lia|]. split; [constructor|]. split; [cbn; by rewrite length_replicate|].
    intros [|j] e Hj He; [lia|]. cbn in He. apply lookup_replicate in He as [-> _]. by left.
  - cbn. lia.
  - intros [off results] (Hoff & Hstart & Hr). cbn [fst snd] in *.
    destruct (decide (off < length s)%nat) as [Hlt|Hge].
    + eapply post_mono; [by apply ugm_forward_step_ok| |done]. intros r (results' & -> & Hr'). cbn [fst snd].
      pose proof (char_len_pos off Hlt). split; [|lia]. split; [lia|]. split; [by constructor|done].
    + unfold ugm_forward_step. destruct (Nat.ltb_spec off (length s)); [lia|]. done.
Qed.

Lemma char_start_end : char_start (length s).
Proof.
  assert (H : forall n i, (length s - i <= n)%nat -> (i <= length s)%nat -> char_start i -> char_start (length s)).
  { induction n as [|n IH]; intros i Hn Hi Hc; [by replace (length s) with i by lia|].
    destruct (decide (i = length s)) as [<-|Hne]; [done|]. pose proof (char_len_pos i ltac:(lia)).
    apply (IH (i + char_len i)%nat); [lia|lia|]. constructor; [done|lia]. }
  apply (H (length s) O); [lia|lia|constructor].
Qed.

(** * The backward pass *)

(** A run of unknown tokens as one; [next] says whether one follows the list. *)
Fixpoint merge_unknown (unk : Z) (ids : list Z) (next : bool) : list Z :=
  match ids with
  | [] => []
  | id :: ids =>
      let follows := match ids with [] => next | id' :: _ => id' =? unk end in
      (if (id =? unk) && follows then [] else [id]) ++ merge_unknown unk ids next
  end.

Lemma merge_unknown_snoc unk ids id next :
  merge_unknown unk (ids ++ [id]) next =
    merge_unknown unk ids (id =? unk) ++ (if (id =? unk) && next then [] else [id]).
Proof.
  induction ids as [|a ids IH]; cbn; [by rewrite app_nil_r|]. rewrite IH. destruct ids as [|b ids]; cbn; by rewrite ?app_nil_r, <- ?app_assoc.
Qed.

(** A tile of the text: a token and the bytes it stands for. *)
Definition tile_ok (tile : Z * bytes) : Prop :=
  (exists d, zlookup (v_id_to_token v) tile.1 = Some d /\ t_text d = tile.2) \/
  (tile.1 = v_special_unk_id v /\ exists i, char_start i /\ tile.2 = substr i (char_len i) s).

Lemma ugm_backward_ok results fuel j e prev out :
  results_ok results ->
  (forall j e, char_start j -> (0 < j)%nat -> results !! j = Some e -> bt_score_sum e <> flt_max true) ->
  (j < fuel)%nat -> (0 < j)%nat -> char_start j -> (j <= length s)%nat -> results !! j = Some e ->
  exists tiles, concat tiles.*2 = take j s /\ Forall tile_ok tiles /\
    ugm_backward v fuel results e prev out = Ok (out ++ reverse (merge_unknown (v_special_unk_id v) tiles.*1 prev)).
Proof using Hmatch.
  intros [Hlen Hr] Hreach. revert j e prev out. induction fuel as [|fuel IH]; intros j e prev out Hf Hj Hstart Hle He; [lia|].
  destruct (Hr j e Hj He) as [Hn|(Hlt & Hoff & Hseg)]; [by edestruct Hreach|].
  set (off := bt_input_offset e) in *. set (id := bt_token_id e) in *.
  set (tile := (id, substr off (j - off) s)).
  assert (Htile : tile_ok tile).
  { unfold tile_ok, tile. cbn [fst snd]. destruct Hseg as [Hl|[Hu Hj']].
    - left. destruct (Hmatch _ _ Hl) as (d & Hd & Ht). by exists d.
    - right. split; [done|]. exists off. split; [done|]. f_equal. lia. }
  assert (Hcat : take off s ++ substr off (j - off) s = take j s).
  { unfold substr. rewrite <- (take_drop off (take j s)). rewrite take_take, Nat.min_l by lia. f_equal.
    by rewrite skipn_firstn_comm. }
  cbn [ugm_backward]. fold off id.
  destruct (Nat.eqb_spec off 0) as [Hz|Hz].
  - exists [tile]. split; [unfold tile; cbn [fmap list_fmap concat snd]; by rewrite app_nil_r, <- Hcat, Hz|].
    split; [by apply Forall_singleton|]. unfold tile. cbn [fmap list_fmap merge_unknown fst]. rewrite app_nil_r.
    destruct prev, (id =? v_special_unk_id v); cbn; by rewrite ?app_nil_r.
  - destruct (lookup_lt_is_Some_2 results off) as (e' & He'); [lia|].
    rewrite (vget_Some _ _ e') by (by rewrite zlookup_nat). cbn [mbind res_bind].
    destruct (IH off e' (id =? v_special_unk_id v) (if negb (prev && (id =? v_special_unk_id v)) then out ++ [id] else out))
      as (tiles & Hc & Ht & ->); try done; [lia|lia|lia|].
    exists (tiles ++ [tile]). rewrite !fmap_app. change ([tile].*2) with [substr off (j - off) s]. change ([tile].*1) with [id]. split; [|split].
    + rewrite concat_app, Hc. cbn. by rewrite app_nil_r.
    + apply Forall_app. split; [done|by apply Forall_singleton].
    + rewrite merge_unknown_snoc, reverse_app.
      destruct prev, (id =? v_special_unk_id v); cbn [andb negb]; by rewrite ?reverse_nil, ?reverse_singleton, <- ?app_assoc.
Qed.
End search.

(** * Properties *)

(** UGM tokenisation tiles the normalised text: the search returns for every
    normalised text that is not empty, and, if no sum of scores sank to the initial
    [-FLT_MAX] at the start of a code point, the tokens it outputs are, up to runs
    of unknown tokens that become one, the tokens of consecutive parts of that text
    that make up the whole: every part is the text of its token, or a single code
    point for the unknown token. *)
Theorem ugm_tokenize_tiles (v : llama_vocab) (blob text s : bytes) (t : llm_tokenizer_ugm) (output : list Z) :
  v_type v <> VOCAB_NONE -> zlen (v_id_to_token v) <= INT32_MAX -> ugm_tokenizer v blob = Ok t ->
  normalize v t text = Ok s -> s <> [] ->
  exists results, ugm_forward v t s = Ok results /\
    ((forall j e, char_start s j -> (0 < j)%nat -> results !! j = Some e -> bt_score_sum e <> flt_max true) ->
     exists tiles, concat tiles.*2 = s /\ Forall (tile_ok v s) tiles /\
       ugm_tokenize v t text output = Ok (output ++ merge_unknown (v_special_unk_id v) tiles.*1 false)).
Proof.
  intros Ht Hsize Htok Hnorm Hne. pose proof (ugm_tokenizer_matcher v blob t Ht Hsize Htok) as Hm.
  pose proof (ugm_forward_ok v t s Ht Hm Hne) as Hfw. apply safe_ok in Hfw as (results & Hfw & Hr).
  exists results. split; [done|]. intros Hreach.
  destruct (lookup_lt_is_Some_2 results (length s)) as (e & He); [destruct Hr; lia|].
  destruct (ugm_backward_ok v t s Hm results (S (length s)) (length s) e false []) as (tiles & Hc & Htiles & Hb);
    try done; [lia|destruct s; [done|cbn; lia]|apply char_start_end|].
  exists tiles. split; [by rewrite Hc, firstn_all|]. split; [done|].
  unfold ugm_tokenize. rewrite Hnorm. cbn [mbind res_bind].
  assert (Hrest : (results ← ugm_forward v t s; best ← vget results (zlen s);
      ids ← ugm_backward v (S (length s)) results best false []; mret (output ++ reverse ids)) =
    Ok (output ++ merge_unknown (v_special_unk_id v) tiles.*1 false)).
  { rewrite Hfw. cbn [mbind res_bind]. unfold zlen. rewrite (vget_Some _ _ e) by (by rewrite zlookup_nat).
    cbn [mbind res_bind]. rewrite Hb. cbn [mbind res_bind mret res_ret app]. by rewrite reverse_involutive. }
  by destruct s.
Qed.

Definition demo_ugm_tokens : list token_data := [
  mk_token (str "<unk>") (float_of_Z 0) ATTR_UNKNOWN;
  mk_token visible_space (float_of_Z (-3)) ATTR_NORMAL;
  mk_token (str "a") (float_of_Z (-2)) ATTR_NORMAL;
  mk_token (str "b") (float_of_Z (-2)) ATTR_NORMAL;
  mk_token (str "ab") (float_of_Z (-5)) ATTR_NORMAL;
  mk_token (visible_space ++ str "ab") (float_of_Z (-4)) ATTR_NORMAL].

Definition ugm_vocab_of (tokens : list token_data) : llama_vocab :=
  mk_vocab VOCAB_UGM 6 (-1) 1 0 (-1) true false false false false true true false
    (list_to_map (imap (fun i d => (t_text d, Z.of_nat i)) tokens)) tokens [] [] ∅ ∅.

Definition demo_ugm_vocab : llama_vocab := ugm_vocab_of demo_ugm_tokens.

(** The tokeniser of [demo_ugm_vocab]. *)
Definition demo_ugm : llm_tokenizer_ugm :=
  Eval vm_compute in match ugm_tokenizer demo_ugm_vocab [] with Ok t => t | Err _ =>
    mk_ugm [] 0 0 empty_trie (S754_zero false) (S754_zero false) (S754_zero false) empty_trie end.

(** "ab  cdab": the start beats the split into three tokens, the two unknown
    letters become one unknown token. *)
Lemma ugm_tokenize_tiles_witness :
  ugm_tokenizer demo_ugm_vocab [] = Ok demo_ugm /\
  normalize demo_ugm_vocab demo_ugm (str "ab  cdab") = Ok (visible_space ++ str "ab" ++ visible_space ++ str "cdab") /\
  exists results,
    ugm_forward demo_ugm_vocab demo_ugm (visible_space ++ str "ab" ++ visible_space ++ str "cdab") = Ok results /\
    ((forall j e, char_start (visible_space ++ str "ab" ++ visible_space ++ str "cdab") j -> (0 < j)%nat ->
        results !! j = Some e -> bt_score_sum e <> flt_max true) ->
     exists tiles, concat tiles.*2 = visible_space ++ str "ab" ++ visible_space ++ str "cdab" /\
       Forall (tile_ok demo_ugm_vocab (visible_space ++ str "ab" ++ visible_space ++ str "cdab")) tiles /\
       ugm_tokenize demo_ugm_vocab demo_ugm (str "ab  cdab") [7] = Ok ([7] ++ merge_unknown 0 tiles.*1 false)).
Proof.
  assert (H1 : ugm_tokenizer demo_ugm_vocab [] = Ok demo_ugm) by (vm_compute; reflexivity).
  assert (H2 : normalize demo_ugm_vocab demo_ugm (str "ab  cdab") = Ok (visible_space ++ str "ab" ++ visible_space ++ str "cdab"))
    by (vm_compute; reflexivity).
  split; [exact H1|]. split; [exact H2|].
  apply (ugm_tokenize_tiles demo_ugm_vocab [] (str "ab  cdab")
    (visible_space ++ str "ab" ++ visible_space ++ str "cdab") demo_ugm [7]);
    [discriminate|vm_compute; discriminate|exact H1|exact H2|discriminate].
Defined.

Example demo_ugm_output : ugm_tokenize demo_ugm_vocab demo_ugm (str "ab  cdab") [7] = Ok [7; 5; 1; 0; 2; 3].
Proof. vm_compute. reflexivity. Qed.

(** Every entry was reached in that run. *)
Example demo_ugm_reached :
  match ugm_forward demo_ugm_vocab demo_ugm (visible_space ++ str "ab" ++ visible_space ++ str "cdab") with
  | Ok results => forallb (fun j => match results !! j with
                                    | Some e => double_gt (double_of_float (bt_score_sum e)) (double_of_float (flt_max true))
                                    | None => false end) [3; 4; 5; 8; 9; 10; 11; 12]%nat
  | Err _ => false
  end = true.
Proof. vm_compute. reflexivity. Qed.

(** A user-defined token U+00E9 in the vocabulary. *)
Definition accent_ugm_vocab : llama_vocab :=
  ugm_vocab_of [mk_token (str "<unk>") (float_of_Z 0) ATTR_UNKNOWN; mk_token [195; 169] (float_of_Z 0) ATTR_USER_DEFINED].

(** The comment in [normalize_prefix] says that a prefix of the input that matches
    a user-defined token is returned; the code returns the longest path in the tree
    of these tokens, which need not end at a token. With the user-defined token
    U+00E9 the text U+00E8, whose first byte is the same, is cut after that byte;
    the other byte is no character and becomes U+FFFD. *)
Theorem normalize_cuts_character :
  (t ← ugm_tokenizer accent_ugm_vocab []; normalize accent_ugm_vocab t [195; 168]) =
    Ok (visible_space ++ [195; 239; 191; 189]).
Proof. vm_compute. reflexivity. Qed.
