(* ===== verification/Tokenize.v ===== *)
(** Tokenising and detokenising ([src/llama-vocab.cpp], [llama_vocab::impl]): the
    partition of a text by the special tokens, the dispatch to the five tokenisers,
    the pieces of tokens and their cache, and the way back to a text. *)
From S2P Require Import Prelude Unicode UnicodeSplit Vocab Merge Spm Bpe Trie Wpm Ugm.

(** * Fragments *)

(** [fragment_buffer_variant]: a token, or a part of the text, which is the same
    string for all fragments. *)
Inductive fragment : Type :=
| FragToken (token : Z)
| FragText (offset length : nat).

(** The constructor for a part of the text, with its assertions. *)
Definition frag_text (raw_text : bytes) (offset len : nat) : res fragment :=
  ggml_assert (1 <=? len)%nat;;
  ggml_assert (offset + len <=? length raw_text)%nat;;
  mret (FragText offset len).

(** The loop that shortens the text to the left of a special token. *)
Fixpoint lstrip_len (raw_text : bytes) (offset len : nat) : nat :=
  match len with
  | O => O
  | S len' =>
      match raw_text !! (offset + len')%nat with
      | Some c => if isspace c then lstrip_len raw_text offset len' else len
      | None => len
      end
  end.

(** The loop that shortens the text to the right of it from the front. *)
Fixpoint rstrip_text (raw_text : bytes) (offset len : nat) : nat * nat :=
  match len with
  | O => (offset, O)
  | S len' =>
      match raw_text !! offset with
      | Some c => if isspace c then rstrip_text raw_text (S offset) len' else (offset, len)
      | None => (offset, len)
      end
  end.

(** One occurrence of a special token. The state is what stands in the list for the
    fragment so far, [emplace_after] and [erase_after] having put it in the
    fragment's place, and the text to the right of it, of length 0 if there is none. *)
Definition st_split_step (raw_text : bytes) (special_id : Z) (data : token_data)
    (st : list fragment * nat * nat) : res (step (list fragment * nat * nat) (list fragment)) :=
  let '(done, base_offset, base_length) := st in
  let text := t_text data in
  let stop :=
    mret (Done (if (base_length =? 0)%nat then done else done ++ [FragText base_offset base_length])) in
  match string_find raw_text text base_offset with
  | None => stop
  | Some pos =>
      if (base_offset + base_length <? pos + length text)%nat then stop
      else
        done ←
          (if (base_offset <? pos)%nat then
             let left_length :=
               if has_attr (t_attr data) ATTR_LSTRIP then lstrip_len raw_text base_offset (pos - base_offset)
               else (pos - base_offset)%nat in
             if (0 <? left_length)%nat then
               f ← frag_text raw_text base_offset left_length; mret (done ++ [f])
             else mret done
           else mret done);
        let done := done ++ [FragToken special_id] in
        if (pos + length text <? base_offset + base_length)%nat then
          let right_offset := (pos + length text)%nat in
          let right_length := (base_length - ((pos - base_offset) + length text))%nat in
          let '(right_offset, right_length) :=
            if has_attr (t_attr data) ATTR_RSTRIP then rstrip_text raw_text right_offset right_length
            else (right_offset, right_length) in
          (if (0 <? right_length)%nat then frag_text raw_text right_offset right_length;; mret tt else mret tt);;
          mret (Next (done, right_offset, right_length))
        else mret (Done done)
  end.

Definition st_split (raw_text : bytes) (special_id : Z) (data : token_data) (f : fragment) : res (list fragment) :=
  match f with
  | FragToken _ => mret [f]
  | FragText offset len =>
      while (st_split_step raw_text special_id data) (S (S len)) ([], offset, len)
  end.

(** The special tokens a call looks for. *)
Definition st_skips (parse_special : bool) (data : token_data) : bool :=
  negb parse_special && has_attr (t_attr data) (Z.lor ATTR_CONTROL ATTR_UNKNOWN).

(** [tokenizer_st_partition] *)
Definition tokenizer_st_partition (v : llama_vocab) (raw_text : bytes) (parse_special : bool)
    (buffer : list fragment) : res (list fragment) :=
  foldM (fun buffer special_id =>
    data ← get_token_data v special_id;
    if st_skips parse_special data then mret buffer
    else fs ← mapM (st_split raw_text special_id data) buffer; mret (concat fs))
    buffer (v_cache_special_tokens v).

(** * Tokenising *)

(** What [init_tokenizer] makes; the casts in [tokenize] rely on its kind. *)
Inductive llm_tokenizer : Type :=
| TokenizerSpm
| TokenizerBpe (regex_exprs : list bytes)
| TokenizerWpm
| TokenizerUgm (t : llm_tokenizer_ugm)
| TokenizerRwkv (token_matcher : naive_trie).

(** [init_tokenizer]; the expressions are those of the pre-tokeniser's type. *)
Definition init_tokenizer (v : llama_vocab) (regex_exprs : list bytes) (precompiled_charsmap : bytes) :
    res llm_tokenizer :=
  match v_type v with
  | VOCAB_SPM => mret TokenizerSpm
  | VOCAB_BPE => mret (TokenizerBpe regex_exprs)
  | VOCAB_WPM => mret TokenizerWpm
  | VOCAB_UGM => t ← ugm_tokenizer v precompiled_charsmap; mret (TokenizerUgm t)
  | VOCAB_RWKV => m ← rwkv_matcher v; mret (TokenizerRwkv m)
  | VOCAB_NONE => Err Abort
  end.

Section tokenize.
Context `{CppHeap} `{UnicodeData} `{RegexEngine} (v : llama_vocab).

(** [output.push_back(id)] of a special token that is asserted to exist. *)
Definition push_special (b : bool) (id : Z) (output : list Z) : res (list Z) :=
  if b then ggml_assert (negb (id =? LLAMA_TOKEN_NULL));; mret (output ++ [id]) else mret output.

(** The loop over the fragments, for the sessions that take the text as it is. *)
Definition tokenize_fragments (session : bytes -> list Z -> res (list Z)) (raw_text : bytes)
    (output : list Z) (buffer : list fragment) : res (list Z) :=
  foldM (fun output f =>
    match f with
    | FragText offset len => session (substr offset len raw_text) output
    | FragToken token => mret (output ++ [token])
    end) output buffer.

(** The loop of the SPM case: a space before the text that follows a special token
    or the start. *)
Definition spm_fragment (raw_text : bytes) (st : list Z * bool) (f : fragment) : res (list Z * bool) :=
  let '(output, is_prev_special) := st in
  match f with
  | FragText offset len =>
      let text := (if v_add_space_prefix v && is_prev_special then [32] else []) ++ substr offset len raw_text in
      text ← llama_escape_whitespace text;
      output ← spm_tokenize v text output;
      mret (output, false)
  | FragToken token => mret (output ++ [token], true)
  end.

Definition tokenize (tokenizer : option llm_tokenizer) (raw_text : bytes) (add_special parse_special : bool) :
    res (list Z) :=
  match tokenizer with
  | None => Err Abort
  | Some tokenizer =>
      buffer ← (match raw_text with
                | [] => mret []
                | _ =>
                    f ← frag_text raw_text 0 (length raw_text);
                    tokenizer_st_partition v raw_text parse_special [f]
                end);
      match v_type v, tokenizer with
      | VOCAB_SPM, _ =>
          output ← push_special (add_special && v_add_bos v) (v_special_bos_id v) [];
          st ← foldM (spm_fragment raw_text) (output, true) buffer;
          push_special (add_special && v_add_eos v) (v_special_eos_id v) st.1
      | VOCAB_BPE, TokenizerBpe regex_exprs =>
          output ← (if add_special then append_bos v [] else mret []);
          output ← tokenize_fragments (bpe_tokenize v regex_exprs) raw_text output buffer;
          if add_special then append_eos v output else mret output
      | VOCAB_WPM, _ =>
          output ← push_special add_special (v_special_bos_id v) [];
          output ← tokenize_fragments (wpm_tokenize v) raw_text output buffer;
          push_special add_special (v_special_sep_id v) output
      | VOCAB_UGM, TokenizerUgm t =>
          output ← push_special (add_special && v_add_bos v) (v_special_bos_id v) [];
          output ← tokenize_fragments (ugm_tokenize v t) raw_text output buffer;
          push_special (add_special && v_add_eos v) (v_special_eos_id v) output
      | VOCAB_RWKV, TokenizerRwkv m => tokenize_fragments (rwkv_tokenize v m) raw_text [] buffer
      | VOCAB_NONE, _ => Err Abort
      | _, _ => Err UB
      end
  end.

(** [llama_vocab::tokenize] for a caller's buffer: the count and what is written. *)
Definition tokenize_into (tokenizer : option llm_tokenizer) (text : bytes) (n_tokens_max : Z)
    (add_special parse_special : bool) : res (Z * list Z) :=
  ids ← tokenize tokenizer text add_special parse_special;
  if n_tokens_max <? zlen ids then mret (- zlen ids, []) else mret (zlen ids, ids).
End tokenize.

(** * Pieces *)

(** [_try_copy]: the number of bytes and what is written to the buffer. *)
Fixpoint skip_spaces (lstrip : nat) (t : bytes) : bytes :=
  match lstrip, t with S lstrip, 32 :: t => skip_spaces lstrip t | _, _ => t end.

Definition try_copy (length lstrip : Z) (t : bytes) : Z * bytes :=
  let t := skip_spaces (Z.to_nat lstrip) t in
  if length <? zlen t then (- zlen t, []) else (zlen t, t).

Definition attr_special : Z := Z.lor ATTR_UNKNOWN ATTR_CONTROL.

(** [token_to_piece] with a buffer of [length] bytes. *)
Definition token_to_piece (v : llama_vocab) (token length lstrip : Z) (special : bool) : res (Z * bytes) :=
  attr ← token_get_attr v token;
  if negb special && has_attr attr attr_special then mret (0, [])
  else
    match v_cache_token_to_piece v with
    | _ :: _ => result ← vec_at (v_cache_token_to_piece v) token; mret (try_copy length lstrip result)
    | [] =>
        if (0 <=? token) && (token <? zlen (v_id_to_token v)) then
          d ← vget (v_id_to_token v) token;
          let token_text := t_text d in
          match v_type v with
          | VOCAB_WPM | VOCAB_SPM | VOCAB_UGM =>
              if has_attr attr (Z.lor attr_special ATTR_USER_DEFINED) then mret (try_copy length lstrip token_text)
              else if has_attr attr ATTR_NORMAL then
                result ← llama_unescape_whitespace token_text;
                mret (try_copy length lstrip result)
              else if has_attr attr ATTR_BYTE then
                byte ← token_to_byte v token; mret (try_copy length lstrip [byte])
              else mret (0, [])
          | VOCAB_BPE =>
              if has_attr attr (Z.lor attr_special ATTR_USER_DEFINED) then mret (try_copy length lstrip token_text)
              else if has_attr attr ATTR_NORMAL then
                result ← llama_decode_text token_text;
                mret (try_copy length lstrip result)
              else mret (0, [])
          | VOCAB_RWKV =>
              let result := llama_unescape_rwkv_token token_text in
              mret (if length <? zlen result then (- zlen result, []) else (zlen result, result))
          | VOCAB_NONE => Err Abort
          end
        else mret (0, [])
    end.

(** [token_to_piece_for_cache]; [capacity] is that of an empty string. *)
Definition token_to_piece_for_cache (capacity : Z) (v : llama_vocab) (token : Z) (special : bool) : res bytes :=
  r ← token_to_piece v token capacity 0 special;
  if r.1 <? 0 then
    r' ← token_to_piece v token (- r.1) 0 special;
    ggml_assert (r'.1 =? - r.1);;
    mret r'.2
  else mret r.2.

(** The caches that loading builds at its end. *)
Definition is_special_token (v : llama_vocab) (id : Z) : bool :=
  match zlookup (v_id_to_token v) id with
  | Some d => has_attr (t_attr d) (Z.lor (Z.lor ATTR_CONTROL ATTR_USER_DEFINED) ATTR_UNKNOWN)
  | None => false
  end.

Definition special_tokens_cache `{CppSort} (v : llama_vocab) : list Z :=
  std_sort (fun a b =>
      match zlookup (v_id_to_token v) a, zlookup (v_id_to_token v) b with
      | Some a, Some b => zlen (t_text b) <? zlen (t_text a)
      | _, _ => false
      end)
    (filter (fun id => is_special_token v id = true) (zseq 0 (length (v_id_to_token v)))).

Definition piece_cache (capacity : Z) (v : llama_vocab) : res (list bytes) :=
  mapM (fun id => token_to_piece_for_cache capacity v id true) (zseq 0 (length (v_id_to_token v))).

(** * Detokenising *)

(** One token of the loop: the space left, the total and the text written. *)
Record detok : Type := mk_detok { dt_avail : Z; dt_total : Z; dt_text : bytes; dt_remove_space : bool }.

Definition detok_step (v : llama_vocab) (unparse_special : bool) (st : detok) (token : Z) : res detok :=
  ggml_assert (0 <=? dt_avail st);;
  r ← token_to_piece v token (dt_avail st) (if dt_remove_space st then 1 else 0) unparse_special;
  let n_chars := r.1 in
  if n_chars <? 0 then
    total ← s32 (dt_total st - n_chars);
    mret (mk_detok 0 total (dt_text st) false)
  else if 0 <? n_chars then
    total ← s32 (dt_total st + n_chars);
    mret (mk_detok (dt_avail st - n_chars) total (dt_text st ++ r.2) false)
  else mret (mk_detok (dt_avail st) (dt_total st) (dt_text st) false).

(** The passes of [clean_spaces] over the text: [i] reads, [total] writes. *)
Definition is_stop (x : Z) : bool := (x =? 63) || (x =? 33) || (x =? 46) || (x =? 44).

Definition pass1_step (i : Z) (st : bytes * Z) : res (bytes * Z) :=
  let '(text, total) := st in
  x ← vget text i;
  prev ← vget text (i - 1);
  let total := if (prev =? 32) && is_stop x then total - 1 else total in
  text ← vset text total x;
  mret (text, total + 1).

Definition pass2_step (total2 : Z) (st : Z * bytes * Z) : res (step (Z * bytes * Z) (bytes * Z)) :=
  let '(i, text, total) := st in
  if i <? total2 then
    x ← vget text i;
    quote ← (if (x =? 39) && (i + 1 <? total2) then
               prev ← vget text (i - 1);
               next ← vget text (i + 1);
               mret ((prev =? 32) && (next =? 32))
             else mret false);
    if quote : bool then
      text ← vset text (i + 1) 0;
      text ← vset text (total - 1) x;
      mret (Next (i + 2, text, total))
    else
      text ← vset text total x;
      mret (Next (i + 1, text, total + 1))
  else mret (Done (text, total)).

(** " 's", " 'm", " 're" and " 've" lose their space. *)
Definition is_contraction (text : bytes) (i total3 : Z) : res bool :=
  x1 ← vget text (i + 1);
  if (x1 =? 116) || (x1 =? 100) then mret false
  else if (x1 =? 115) || (x1 =? 109) then mret true
  else if i + 2 <? total3 then
    x2 ← vget text (i + 2);
    mret (((x1 =? 114) && (x2 =? 101)) || ((x1 =? 118) && (x2 =? 101)))
  else mret false.

Definition pass3_step (total3 : Z) (i : Z) (st : bytes * Z) : res (bytes * Z) :=
  let '(text, total) := st in
  x ← vget text i;
  prev ← vget text (i - 1);
  drop_space ← (if (prev =? 32) && (x =? 39) && (i + 1 <? total3) then is_contraction text i total3 else mret false);
  let total := if drop_space : bool then total - 1 else total in
  text ← vset text total x;
  mret (text, total + 1).

Definition clean (text : bytes) (total : Z) : res (bytes * Z) :=
  let start (total : Z) := if total =? 0 then 0 else 1 in
  r1 ← for_z 1 total pass1_step (text, start total);
  r2 ← while (pass2_step r1.2) (S (Z.to_nat r1.2)) (1, r1.1, start r1.2);
  for_z 1 r2.2 (pass3_step r2.2) (r2.1, start r2.2).

(** The tokens without the BOS and EOS that are to be removed, and whether the
    space before the first one goes. *)
Definition detok_tokens (v : llama_vocab) (remove_special : bool) (tokens : list Z) : list Z * bool :=
  let '(tokens, remove_space) :=
    if remove_special && v_add_bos v then
      match tokens with
      | t :: tokens' => if t =? v_special_bos_id v then (tokens', false) else (tokens, v_add_space_prefix v)
      | [] => (tokens, v_add_space_prefix v)
      end
    else (tokens, v_add_space_prefix v) in
  if remove_special && v_add_eos v then
    match last tokens with
    | Some t => if t =? v_special_eos_id v then (take (pred (length tokens)) tokens, remove_space)
                else (tokens, remove_space)
    | None => (tokens, remove_space)
    end
  else (tokens, remove_space).

(** [detokenize] to a buffer of [text_len_max] bytes: the result and, if it is not
    negative, that many bytes of the buffer. *)
Definition detokenize (v : llama_vocab) (has_tokenizer : bool) (tokens : list Z) (text_len_max : Z)
    (remove_special unparse_special : bool) : res (Z * bytes) :=
  if bool_decide (v_type v = VOCAB_NONE) then mret (0, [])
  else
    ggml_assert has_tokenizer;;
    let '(tokens, remove_space) := detok_tokens v remove_special tokens in
    st ← foldM (detok_step v unparse_special) (mk_detok text_len_max 0 [] remove_space) tokens;
    let total := dt_total st in
    if text_len_max <? total then mret (- total, [])
    else
      r ← (if v_clean_spaces v then clean (dt_text st) total else mret (dt_text st, total));
      let '(text, total) := r in
      if total <=? text_len_max then mret (total, take (Z.to_nat total) text) else mret (- total, []).

(** [llama_vocab::detokenize] to a string; [capacity] is that of an empty string. *)
Definition detokenize_string (capacity : Z) (v : llama_vocab) (has_tokenizer : bool) (tokens : list Z)
    (special : bool) : res bytes :=
  r ← detokenize v has_tokenizer tokens (Z.max capacity (zlen tokens)) false special;
  if r.1 <? 0 then
    r' ← detokenize v has_tokenizer tokens (- r.1) false special;
    ggml_assert (r'.1 <=? - r.1);;
    mret r'.2
  else mret r.2.
