(* ===== verification/Partition.v ===== *)
(** The partition of a text by its special tokens ([src/llama-vocab.cpp],
    [tokenizer_st_partition]): the fragments cover the text in order, and no special
    token is left in a fragment of text. *)
From S2P Require Import Prelude Unicode Vocab Tokenize.

(** * What a partition promises *)

(** The fragments cover the text from [p] to [q]: parts of it, occurrences of
    tokens, and, if [strips] allows it, white space that belongs to none. *)
Inductive frag_cover (v : llama_vocab) (raw : bytes) (strips : bool) : nat -> list fragment -> nat -> Prop :=
| cover_nil p : frag_cover v raw strips p [] p
| cover_text p len fs q :
    (0 < len)%nat -> (p + len <= length raw)%nat -> frag_cover v raw strips (p + len) fs q ->
    frag_cover v raw strips p (FragText p len :: fs) q
| cover_token p id d fs q :
    zlookup (v_id_to_token v) id = Some d -> substr p (length (t_text d)) raw = t_text d ->
    frag_cover v raw strips (p + length (t_text d)) fs q ->
    frag_cover v raw strips p (FragToken id :: fs) q
| cover_space p c fs q :
    strips = true -> raw !! p = Some c -> isspace c = true -> frag_cover v raw strips (S p) fs q ->
    frag_cover v raw strips p fs q.

(** No occurrence of [text] in a fragment. *)
Definition frag_free (raw text : bytes) (f : fragment) : Prop :=
  match f with FragToken _ => True | FragText off len => find_sub text (substr off len raw) = None end.

(** The special tokens that a call looks for. *)
Definition looks_for (v : llama_vocab) (parse_special : bool) (d : token_data) : Prop :=
  exists id, id ∈ v_cache_special_tokens v /\ zlookup (v_id_to_token v) id = Some d /\ st_skips parse_special d = false.

Definition strips_space (d : token_data) : bool :=
  has_attr (t_attr d) ATTR_LSTRIP || has_attr (t_attr d) ATTR_RSTRIP.

(** * Searching *)

Lemma find_sub_None k s : find_sub k s = None <-> forall i, (i <= length s)%nat -> starts_with k (drop i s) = false.
Proof.
  induction s as [|y s IH]; cbn [find_sub].
  - destruct (starts_with k []) eqn:E; split; try done.
    + intros H. specialize (H O ltac:(cbn; lia)). cbn in H. congruence.
    + intros _ i Hi. cbn in Hi. by replace i with O by lia.
  - destruct (starts_with k (y :: s)) eqn:E.
    + split; [done|]. intros H. specialize (H O ltac:(cbn; lia)). cbn in *. congruence.
    + rewrite fmap_None, IH. split.
      * intros H [|i] Hi; [done|]. apply H. cbn in Hi. lia.
      * intros H i Hi. apply (H (S i)). cbn. lia.
Qed.

Lemma find_sub_first k s n :
  find_sub k s = Some n ->
  starts_with k (drop n s) = true /\ forall i, (i < n)%nat -> starts_with k (drop i s) = false.
Proof.
  revert n. induction s as [|y s IH]; intros n; cbn [find_sub]; destruct (starts_with _ _) eqn:E; try done.
  1,2: by intros [= <-]; split; [|lia].
  destruct (find_sub k s) as [m|]; cbn; [|done]. intros [= <-]. destruct (IH m eq_refl) as [H1 H2].
  split; [done|]. intros [|i] Hi; [done|]. apply H2. lia.
Qed.

(** A prefix only looks at its own length. *)
Lemma starts_with_take k s n : (length k <= n)%nat -> starts_with k (take n s) = starts_with k s.
Proof.
  revert s n. induction k as [|x k IH]; intros [|y s] [|n] Hn; cbn in *; try done; try lia.
  rewrite IH by lia. done.
Qed.

Lemma starts_with_len k s : starts_with k s = true -> (length k <= length s)%nat.
Proof. intros (t & ->)%starts_with_spec. rewrite length_app. lia. Qed.

(** An occurrence in a part of the text is one in the whole text. *)
Lemma starts_with_substr k raw off len i :
  (off + len <= length raw)%nat -> (i + length k <= len)%nat ->
  starts_with k (drop i (substr off len raw)) = starts_with k (drop (off + i) raw).
Proof.
  intros Hl Hi. unfold substr. rewrite skipn_firstn_comm, drop_drop. apply starts_with_take. lia.
Qed.

Lemma substr_free k raw off len :
  k <> [] -> (off + len <= length raw)%nat ->
  (forall i, (off <= i)%nat -> (i + length k <= off + len)%nat -> starts_with k (drop i raw) = false) ->
  find_sub k (substr off len raw) = None.
Proof.
  intros Hk Hl Hno. apply find_sub_None. intros i Hi.
  destruct (decide (i + length k <= len)%nat) as [Hf|Hf].
  - rewrite starts_with_substr by done. apply Hno; lia.
  - destruct (starts_with k _) eqn:E; [|done]. apply starts_with_len in E.
    rewrite length_drop in E. unfold substr in *. rewrite length_take, length_drop in E. rewrite length_take, length_drop in Hi.
    assert (length k <> 0)%nat by (by destruct k). lia.
Qed.

(** A part of a part without occurrences has none. *)
Lemma free_part k raw off len off' len' :
  k <> [] -> (off + len <= length raw)%nat -> find_sub k (substr off len raw) = None ->
  (off <= off')%nat -> (off' + len' <= off + len)%nat -> find_sub k (substr off' len' raw) = None.
Proof.
  intros Hk Hl Hf H1 H2. apply substr_free; [done|lia|]. intros i Hi Hi'.
  rewrite find_sub_None in Hf. specialize (Hf (i - off)%nat). rewrite starts_with_substr in Hf by lia.
  replace (off + (i - off))%nat with i in Hf by lia. apply Hf. unfold substr. rewrite length_take, length_drop. lia.
Qed.

Lemma string_find_Some s k pos m :
  string_find s k pos = Some m ->
  (pos <= m)%nat /\ (m + length k <= length s)%nat /\ substr m (length k) s = k /\
  forall i, (pos <= i)%nat -> (i < m)%nat -> starts_with k (drop i s) = false.
Proof.
  unfold string_find. destruct (Nat.leb_spec pos (length s)); [|done].
  destruct (find_sub k (drop pos s)) as [n|] eqn:E; cbn; [|done]. intros [= <-].
  pose proof (find_sub_bound _ _ _ E) as Hb. rewrite length_drop in Hb.
  destruct (find_sub_first _ _ _ E) as [H1 H2]. rewrite drop_drop in H1. split; [lia|]. split; [lia|]. split.
  - apply starts_with_spec in H1 as (t & Ht). unfold substr. rewrite Ht. by rewrite take_app_length.
  - intros i Hi Hi'. specialize (H2 (i - pos)%nat ltac:(lia)). rewrite drop_drop in H2.
    by replace (pos + (i - pos))%nat with i in H2 by lia.
Qed.

Lemma string_find_None s k pos :
  (pos <= length s)%nat -> string_find s k pos = None ->
  forall i, (pos <= i)%nat -> (i <= length s)%nat -> starts_with k (drop i s) = false.
Proof.
  unfold string_find. intros Hp. destruct (Nat.leb_spec pos (length s)); [|lia].
  destruct (find_sub k (drop pos s)) as [n|] eqn:E; cbn; [done|]. intros _ i Hi Hi'.
  rewrite find_sub_None in E. specialize (E (i - pos)%nat). rewrite drop_drop, length_drop in E.
  replace (pos + (i - pos))%nat with i in E by lia. apply E. lia.
Qed.

(** * Covers *)

Section covers.
Context (v : llama_vocab) (raw : bytes).
Implicit Types (fs gs : list fragment) (p q r : nat) (b : bool).

Lemma cover_app b p q r fs gs :
  frag_cover v raw b p fs q -> frag_cover v raw b q gs r -> frag_cover v raw b p (fs ++ gs) r.
Proof.
  intros H Hg. induction H; cbn; [done|apply cover_text; auto|eapply cover_token; eauto|eapply cover_space; eauto].
Qed.

Lemma cover_mono b b' p q fs : (b = true -> b' = true) -> frag_cover v raw b p fs q -> frag_cover v raw b' p fs q.
Proof.
  intros Hb H. induction H; [apply cover_nil|apply cover_text; auto|eapply cover_token; eauto|eapply cover_space; eauto].
Qed.

Lemma cover_spaces b p n q fs :
  b = true -> (forall i, (p <= i)%nat -> (i < p + n)%nat -> exists c, raw !! i = Some c /\ isspace c = true) ->
  frag_cover v raw b (p + n) fs q -> frag_cover v raw b p fs q.
Proof.
  intros Hb. revert p. induction n as [|n IH]; intros p Hs Hc; [by rewrite Nat.add_0_r in Hc|].
  destruct (Hs p ltac:(lia) ltac:(lia)) as (c & Hp & Hspace). eapply cover_space; [done|done|done|].
  apply IH; [intros i H1 H2; apply Hs; lia|]. by rewrite Nat.add_succ_comm.
Qed.

Lemma cover_bound b p fs q : frag_cover v raw b p fs q -> (p <= q)%nat.
Proof. induction 1; lia. Qed.

(** Replacing fragments by covers of theirs. *)
Lemma cover_concat b p q fs fss :
  frag_cover v raw b p fs q ->
  Forall2 (fun f gs => match f with
                       | FragToken _ => gs = [f]
                       | FragText off len => frag_cover v raw b off gs (off + len)
                       end) fs fss ->
  frag_cover v raw b p (concat fss) q.
Proof.
  intros H. revert fss. induction H as [p|p len fs q H1 H2 Hc IH|p id d fs q Hd Ht Hc IH|p c fs q Hb Hc Hs Hr IH]; intros fss Hf.
  - apply Forall2_nil_inv_l in Hf as ->. constructor.
  - apply Forall2_cons_inv_l in Hf as (gs & fss' & Hg & Hf & ->). cbn. eapply cover_app; eauto.
  - apply Forall2_cons_inv_l in Hf as (gs & fss' & -> & Hf & ->). cbn. eapply cover_token; eauto.
  - eapply cover_space; eauto.
Qed.

(** The bytes of the fragments. *)
Definition frag_bytes (f : fragment) : bytes :=
  match f with
  | FragToken id => match zlookup (v_id_to_token v) id with Some d => t_text d | None => [] end
  | FragText off len => substr off len raw
  end.

Lemma cover_bytes p q fs :
  frag_cover v raw false p fs q -> concat (frag_bytes <$> fs) = substr p (q - p) raw.
Proof.
  intros H. remember false as b. induction H as [p|p len fs q H1 H2 Hc IH|p id d fs q Hd Ht Hc IH|p c fs q Hb Hc Hs Hr IH]; try congruence.
  - cbn. by rewrite Nat.sub_diag.
  - rewrite fmap_cons. cbn [concat frag_bytes]. rewrite IH by done. apply cover_bound in Hc. unfold substr.
    rewrite <- drop_drop. replace (q - p)%nat with (len + (q - (p + len)))%nat by lia. by rewrite take_take_drop.
  - rewrite fmap_cons. cbn [concat frag_bytes]. rewrite Hd, IH by done. apply cover_bound in Hc. rewrite <- Ht at 1. unfold substr.
    rewrite <- drop_drop. replace (q - p)%nat with (length (t_text d) + (q - (p + length (t_text d))))%nat by lia. by rewrite take_take_drop.
Qed.
End covers.

(** * Splitting one fragment *)

Lemma lstrip_len_spec raw off len :
  (off + len <= length raw)%nat ->
  (lstrip_len raw off len <= len)%nat /\
  forall i, (off + lstrip_len raw off len <= i)%nat -> (i < off + len)%nat -> exists c, raw !! i = Some c /\ isspace c = true.
Proof.
  induction len as [|len IH]; intros Hl; cbn [lstrip_len]; [split; [lia|intros; lia]|].
  destruct (lookup_lt_is_Some_2 raw (off + len)) as (c & Hc); [lia|]. rewrite Hc.
  destruct (isspace c) eqn:E; [|split; [lia|intros; lia]].
  destruct IH as [H1 H2]; [lia|]. split; [lia|]. intros i Hi Hi'.
  destruct (decide (i = off + len)%nat) as [->|]; [by exists c|]. apply H2; lia.
Qed.

Lemma rstrip_text_spec raw off len :
  (off + len <= length raw)%nat ->
  let r := rstrip_text raw off len in
  (off <= r.1)%nat /\ (r.1 + r.2 = off + len)%nat /\
  forall i, (off <= i)%nat -> (i < r.1)%nat -> exists c, raw !! i = Some c /\ isspace c = true.
Proof.
  cbn zeta. revert off. induction len as [|len IH]; intros off Hl; cbn [rstrip_text]; [cbn; split; [lia|split; [lia|intros; lia]]|].
  destruct (lookup_lt_is_Some_2 raw off) as (c & Hc); [lia|]. rewrite Hc.
  destruct (isspace c) eqn:E; [|cbn; split; [lia|split; [lia|intros; lia]]].
  destruct (IH (S off)) as (H1 & H2 & H3); [lia|]. split; [lia|]. split; [lia|]. intros i Hi Hi'.
  destruct (decide (i = off)) as [->|]; [by exists c|]. apply H3; lia.
Qed.

(** A fragment lies in the part from [off] to [off + len]. *)
Definition frag_inside (off len : nat) (f : fragment) : Prop :=
  match f with FragToken _ => True | FragText o l => (off <= o)%nat /\ (o + l <= off + len)%nat end.

Lemma frag_text_ok raw off len :
  (0 < len)%nat -> (off + len <= length raw)%nat -> frag_text raw off len = Ok (FragText off len).
Proof.
  intros H1 H2. unfold frag_text. destruct (Nat.leb_spec 1 len); [|lia].
  destruct (Nat.leb_spec (off + len) (length raw)); [|lia]. done.
Qed.

Section split.
Context (v : llama_vocab) (raw : bytes) (id : Z) (d : token_data) (off len : nat).
Hypothesis Hd : zlookup (v_id_to_token v) id = Some d.
Hypothesis Hne : t_text d <> [].
Hypothesis Hlen : (off + len <= length raw)%nat.

Let good (f : fragment) : Prop := frag_free raw (t_text d) f /\ frag_inside off len f.

Definition split_inv (st : list fragment * nat * nat) : Prop :=
  let '(done, bo, bl) := st in
  frag_cover v raw (strips_space d) off done bo /\ (off <= bo)%nat /\ (bo + bl = off + len)%nat /\ Forall good done.

Definition split_done (fs : list fragment) : Prop :=
  frag_cover v raw (strips_space d) off fs (off + len) /\ Forall good fs.

Lemma split_stop done bo bl :
  split_inv (done, bo, bl) ->
  (forall i, (bo <= i)%nat -> (i + length (t_text d) <= bo + bl)%nat -> starts_with (t_text d) (drop i raw) = false) ->
  split_done (if (bl =? 0)%nat then done else done ++ [FragText bo bl]).
Proof using Hne Hlen.
  intros (Hc & Hb & Hs & Hg) Hno. destruct (Nat.eqb_spec bl 0) as [->|Hbl].
  - split; [|done]. by replace (off + len)%nat with bo by lia.
  - split.
    + eapply cover_app; [done|]. rewrite <- Hs. constructor; [lia|lia|constructor].
    + apply Forall_app. split; [done|]. apply Forall_singleton. split; [|cbn; lia].
      cbn. apply substr_free; [done|lia|done].
Qed.

(** The text to the left of an occurrence. *)
Lemma split_left done bo bl pos :
  split_inv (done, bo, bl) -> (bo <= pos)%nat -> (pos + length (t_text d) <= bo + bl)%nat ->
  (forall i, (bo <= i)%nat -> (i < pos)%nat -> starts_with (t_text d) (drop i raw) = false) ->
  exists left, (if (bo <? pos)%nat then
      let left_length := if has_attr (t_attr d) ATTR_LSTRIP then lstrip_len raw bo (pos - bo) else (pos - bo)%nat in
      if (0 <? left_length)%nat then f ← frag_text raw bo left_length; mret (done ++ [f]) else mret done
    else mret done) = Ok (done ++ left) /\
    frag_cover v raw (strips_space d) bo left pos /\ Forall good left.
Proof using Hne Hlen.
  intros (Hc & Hb & Hs & Hg) Hpos Hin Hno.
  destruct (Nat.ltb_spec bo pos) as [Hlt|Hge].
  2: { exists []. rewrite app_nil_r. split; [done|]. split; [|done]. replace pos with bo by lia. constructor. }
  cbn zeta. set (l := if has_attr (t_attr d) ATTR_LSTRIP then _ else _).
  assert (Hl : (l <= pos - bo)%nat /\ forall fs r, frag_cover v raw (strips_space d) pos fs r ->
    frag_cover v raw (strips_space d) (bo + l) fs r).
  { unfold l. destruct (has_attr (t_attr d) ATTR_LSTRIP) eqn:El.
    - destruct (lstrip_len_spec raw bo (pos - bo)) as [H1 H2]; [lia|]. split; [done|]. intros fs r Hcov.
      apply (cover_spaces _ _ _ _ (pos - (bo + lstrip_len raw bo (pos - bo)))); [unfold strips_space; by rewrite El| |].
      + intros i Hi Hi'. apply H2; lia.
      + by replace (bo + lstrip_len raw bo (pos - bo) + (pos - (bo + lstrip_len raw bo (pos - bo))))%nat with pos by lia.
    - split; [lia|]. intros fs r. by replace (bo + (pos - bo))%nat with pos by lia. }
  destruct Hl as [Hl Hspaces].
  destruct (Nat.ltb_spec 0 l) as [Hl0|Hl0].
  - rewrite frag_text_ok by lia. cbn [mbind res_bind mret res_ret]. exists [FragText bo l]. split; [done|]. split.
    + constructor; [lia|lia|]. apply Hspaces. constructor.
    + apply Forall_singleton. split; [|cbn; lia]. cbn. apply substr_free; [done|lia|].
      intros i Hi Hi'. apply Hno; [lia|]. assert (length (t_text d) <> 0)%nat by (clear -Hne; by destruct (t_text d)). lia.
  - exists []. rewrite app_nil_r. split; [done|]. split; [|done].
    replace bo with (bo + l)%nat by lia. apply Hspaces. constructor.
Qed.

Lemma st_split_ok :
  (0 < len)%nat -> safe (st_split raw id d (FragText off len)) split_done.
Proof using Hd Hne Hlen.
  intros Hl0. unfold st_split.
  apply (while_post _ split_inv (fun st => st.2)).
  - cbn. split; [constructor|]. split; [lia|]. split; [lia|constructor].
  - cbn. lia.
  - intros [[done bo] bl] Hinv. pose proof Hinv as (Hc & Hb & Hs & Hg). unfold st_split_step.
    destruct (string_find raw (t_text d) bo) as [pos|] eqn:Ef.
    2: { cbn. apply split_stop; [done|]. intros i Hi Hi'.
         apply (string_find_None _ _ bo); [lia|done|lia|lia]. }
    apply string_find_Some in Ef as (Hpos & Hfit & Hocc & Hno).
    destruct (Nat.ltb_spec (bo + bl) (pos + length (t_text d))) as [Hout|Hin].
    { cbn. apply split_stop; [done|]. intros i Hi Hi'. apply Hno; lia. }
    destruct (split_left done bo bl pos Hinv Hpos Hin Hno) as (left & Hleft & Hcl & Hgl).
    cbn zeta in Hleft. rewrite Hleft. cbn [mbind res_bind].
    assert (Hcov : frag_cover v raw (strips_space d) off ((done ++ left) ++ [FragToken id]) (pos + length (t_text d))).
    { eapply cover_app; [eapply cover_app; [done|exact Hcl]|]. eapply cover_token; [exact Hd|done|constructor]. }
    assert (Hgood : Forall good ((done ++ left) ++ [FragToken id])).
    { rewrite !Forall_app, Forall_singleton. done. }
    assert (Htl : length (t_text d) <> O) by (clear -Hne; by destruct (t_text d)).
    destruct (Nat.ltb_spec (pos + length (t_text d)) (bo + bl)) as [Hright|Hend].
    2: { cbn. split; [|done]. by replace (off + len)%nat with (pos + length (t_text d))%nat by lia. }
    set (ro := (pos + length (t_text d))%nat) in *. set (rl := (bl - (pos - bo + length (t_text d)))%nat).
    set (r := if has_attr (t_attr d) ATTR_RSTRIP then rstrip_text raw ro rl else (ro, rl)).
    assert (Hr : (ro <= r.1)%nat /\ (r.1 + r.2 = off + len)%nat /\
      frag_cover v raw (strips_space d) off ((done ++ left) ++ [FragToken id]) r.1).
    { unfold r. destruct (has_attr (t_attr d) ATTR_RSTRIP) eqn:Er; [|cbn; split; [lia|split; [unfold ro, rl; lia|done]]].
      destruct (rstrip_text_spec raw ro rl) as (H1 & H2 & H3); [unfold ro, rl; lia|]. split; [done|].
      split; [unfold ro, rl in *; lia|]. rewrite <- (app_nil_r (_ ++ [FragToken id])). eapply cover_app; [exact Hcov|].
      apply (cover_spaces _ _ _ _ ((rstrip_text raw ro rl).1 - ro)); [unfold strips_space; rewrite Er; by destruct (has_attr _ _)| |].
      - intros i Hi Hi'. apply H3; lia.
      - replace (ro + ((rstrip_text raw ro rl).1 - ro))%nat with (rstrip_text raw ro rl).1 by lia. constructor. }
    destruct r as [ro' rl']. cbn [fst snd] in Hr. destruct Hr as (H1 & H2 & H3).
    assert ((if (0 <? rl')%nat then frag_text raw ro' rl';; mret tt else mret tt) = Ok tt) as ->.
    { destruct (Nat.ltb_spec 0 rl'); [|done]. by rewrite frag_text_ok by lia. }
    cbn. split; [|unfold ro in *; lia]. split; [done|]. split; [unfold ro in *; lia|]. split; [lia|done].
Qed.
End split.

(** * The whole partition *)

(** Every special token of the cache exists and has a text. *)
Definition specials_ok (v : llama_vocab) : Prop :=
  Forall (fun id => exists d, zlookup (v_id_to_token v) id = Some d /\ t_text d <> []) (v_cache_special_tokens v).

(** Whether a token that is looked for takes white space beside it away. *)
Definition any_strips (v : llama_vocab) (parse_special : bool) : bool :=
  existsb (fun id => match zlookup (v_id_to_token v) id with
                     | Some d => negb (st_skips parse_special d) && strips_space d
                     | None => false
                     end) (v_cache_special_tokens v).

Definition frag_in_text (raw : bytes) (f : fragment) : Prop :=
  match f with FragToken _ => True | FragText o l => (0 < l)%nat /\ (o + l <= length raw)%nat end.

Lemma cover_in_text v raw b p q fs : frag_cover v raw b p fs q -> Forall (frag_in_text raw) fs.
Proof. intros H. induction H; [constructor|constructor; [done|done]|constructor; [done|done]|done]. Qed.

(** Parts of fragments without occurrences have none. *)
Lemma inside_free raw k off len gs :
  k <> [] -> (off + len <= length raw)%nat -> frag_free raw k (FragText off len) ->
  Forall (frag_inside off len) gs -> Forall (frag_free raw k) gs.
Proof.
  intros Hk Hl Hf Hg. rewrite Forall_forall in *. intros g Hin. specialize (Hg g Hin).
  destruct g as [id|o l]; [done|]. cbn in *. by eapply free_part; [..|apply Hg|apply Hg].
Qed.

(** One special token over all fragments. *)
Lemma split_all_frags v raw id d b buffer :
  zlookup (v_id_to_token v) id = Some d -> t_text d <> [] -> (strips_space d = true -> b = true) ->
  frag_cover v raw b 0 buffer (length raw) ->
  safe (mapM (st_split raw id d) buffer) (fun fss =>
    frag_cover v raw b 0 (concat fss) (length raw) /\ Forall (frag_free raw (t_text d)) (concat fss) /\
    forall k, k <> [] -> Forall (frag_free raw k) buffer -> Forall (frag_free raw k) (concat fss)).
Proof.
  intros Hd Hne Hb Hc. pose proof (cover_in_text _ _ _ _ _ _ Hc) as Hin.
  eapply post_mono; [apply (mapM_safe _ _ (fun f gs => match f with
      | FragToken _ => gs = [f]
      | FragText off len => (off + len <= length raw)%nat /\ frag_cover v raw b off gs (off + len) /\
          Forall (fun g => frag_free raw (t_text d) g /\ frag_inside off len g) gs
      end))| |done].
  - intros [tok|off len] Hf; [done|]. rewrite Forall_forall in Hin. specialize (Hin _ Hf). cbn in Hin.
    eapply post_mono; [apply (st_split_ok v raw id d off len Hd Hne); [lia|lia]| |done].
    intros fs [H1 H2]. split; [lia|]. split; [by eapply cover_mono|done].
  - intros fss Hfss. split; [|split].
    + eapply cover_concat; [exact Hc|]. eapply Forall2_impl; [exact Hfss|]. intros [tok|off len] gs; [done|]. by intros (_ & ? & _).
    + clear Hc Hin. induction Hfss as [|f gs buffer fss Hf _ IH]; cbn; [constructor|]. apply Forall_app. split; [|done].
      destruct f as [tok|off len]; [subst gs; by apply Forall_singleton|]. destruct Hf as (_ & _ & Hf).
      eapply Forall_impl; [exact Hf|]. by intros g [? _].
    + intros k Hk Hfree. clear Hc Hin. induction Hfss as [|f gs buffer fss Hf _ IH]; cbn; [constructor|].
      apply Forall_cons in Hfree as [Hf1 Hf2]. apply Forall_app. split; [|by apply IH].
      destruct f as [tok|off len]; [subst gs; by apply Forall_singleton|]. destruct Hf as (Hl & _ & Hf).
      eapply (inside_free _ _ off len); [done|done|done|]. eapply Forall_impl; [exact Hf|]. by intros g [_ ?].
Qed.

Lemma partition_spec v raw parse_special :
  v_type v <> VOCAB_NONE -> specials_ok v -> raw <> [] ->
  exists fs, tokenizer_st_partition v raw parse_special [FragText 0 (length raw)] = Ok fs /\
    frag_cover v raw (any_strips v parse_special) 0 fs (length raw) /\
    forall d, looks_for v parse_special d -> Forall (frag_free raw (t_text d)) fs.
Proof.
  intros Ht Hok Hraw. unfold tokenizer_st_partition.
  set (I := fun (seen : list Z) (buffer : list fragment) =>
    frag_cover v raw (any_strips v parse_special) 0 buffer (length raw) /\
    forall id d, id ∈ seen -> zlookup (v_id_to_token v) id = Some d -> st_skips parse_special d = false ->
      t_text d <> [] /\ Forall (frag_free raw (t_text d)) buffer).
  assert (Hsafe : safe (foldM (fun buffer special_id =>
      data ← get_token_data v special_id;
      if st_skips parse_special data then mret buffer
      else fs ← mapM (st_split raw special_id data) buffer; mret (concat fs))
      [FragText 0 (length raw)] (v_cache_special_tokens v)) (I (v_cache_special_tokens v))).
  { apply foldM_post.
    - split; [|by intros id d ?%elem_of_nil]. constructor; [destruct raw; [done|cbn; lia]|lia|constructor].
    - intros seen id buffer Hid [Hc Hf]. unfold specials_ok in Hok. rewrite Forall_forall in Hok.
      destruct (Hok _ Hid) as (d & Hd & Hne). unfold get_token_data, assert_typed, vec_at.
      rewrite bool_decide_eq_true_2 by done. cbn [mbind res_bind ggml_assert]. rewrite Hd. cbn [mbind res_bind].
      destruct (st_skips parse_special d) eqn:Es.
      + cbn. split; [done|]. intros id' d' Hin Hd' Hs'. apply elem_of_app in Hin as [Hin|Hin]; [by eapply Hf|].
        apply list_elem_of_singleton in Hin as ->. rewrite Hd in Hd'. injection Hd' as <-. congruence.
      + eapply post_bind; [apply (split_all_frags v raw id d (any_strips v parse_special)); [done|done| |done]|].
        { intros Hstrip. unfold any_strips. apply existsb_exists. exists id. split; [by apply list_elem_of_In|].
          by rewrite Hd, Es. }
        intros fss (H1 & H2 & H3). cbn. split; [done|]. intros id' d' Hin Hd' Hs'.
        apply elem_of_app in Hin as [Hin|Hin].
        * destruct (Hf _ _ Hin Hd' Hs') as [Hne' Hfree]. split; [done|]. by apply H3.
        * apply list_elem_of_singleton in Hin as ->. rewrite Hd in Hd'. injection Hd' as <-. done. }
  apply safe_ok in Hsafe as (fs & -> & Hc & Hf). exists fs. split; [done|]. split; [done|].
  intros d (id & Hid & Hd & Hs). by apply (Hf id d).
Qed.

(** A text in which no special token occurs is one fragment. *)
Lemma partition_plain v raw parse_special :
  v_type v <> VOCAB_NONE -> specials_ok v -> raw <> [] ->
  (forall d, looks_for v parse_special d -> find_sub (t_text d) raw = None) ->
  tokenizer_st_partition v raw parse_special [FragText 0 (length raw)] = Ok [FragText 0 (length raw)].
Proof.
  intros Ht Hok Hraw Hno. unfold tokenizer_st_partition.
  assert (Hgen : forall ids, (forall id, id ∈ ids -> id ∈ v_cache_special_tokens v) ->
    foldM (fun buffer special_id =>
      data ← get_token_data v special_id;
      if st_skips parse_special data then mret buffer
      else fs ← mapM (st_split raw special_id data) buffer; mret (concat fs))
      [FragText 0 (length raw)] ids = Ok [FragText 0 (length raw)]); [|by apply Hgen].
  induction ids as [|id ids IH]; intros Hin; [done|]. cbn [foldM].
  assert (Hid : id ∈ v_cache_special_tokens v) by (apply Hin; by left).
  unfold specials_ok in Hok. rewrite Forall_forall in Hok. destruct (Hok _ Hid) as (d & Hd & Hne).
  assert (get_token_data v id = Ok d) as ->.
  { unfold get_token_data, assert_typed, vec_at. rewrite bool_decide_eq_true_2 by done. cbn. by rewrite Hd. }
  cbn [mbind res_bind]. destruct (st_skips parse_special d) eqn:Es; cbn [mbind res_bind mret res_ret].
  { apply IH. intros i Hi. apply Hin. by right. }
  assert (Hfind : string_find raw (t_text d) 0 = None).
  { unfold string_find. cbn. rewrite drop_0. rewrite (Hno d); [done|]. by exists id. }
  assert (st_split raw id d (FragText 0 (length raw)) = Ok [FragText 0 (length raw)]) as Hs.
  { unfold st_split. cbn [while st_split_step]. rewrite Hfind. cbn.
    destruct (length raw) eqn:El; [by destruct raw|done]. }
  cbn [mapM]. rewrite Hs. cbn [mbind res_bind mret res_ret concat app]. apply IH. intros i Hi. apply Hin. by right.
Qed.

(** * Properties *)


Definition demo_partition_vocab : llama_vocab :=
  mk_vocab VOCAB_BPE 6 (-1) (-1) (-1) (-1) false false false false false false false false ∅
    [mk_token (str "<a>") (float_of_Z 0) ATTR_CONTROL; mk_token (str "<ab>") (float_of_Z 0) ATTR_USER_DEFINED;
     mk_token (str "x") (float_of_Z 0) ATTR_NORMAL] [1; 0] [] ∅ ∅.


Example demo_partition :
  tokenizer_st_partition demo_partition_vocab (str "x<ab><a>y<a>") true [FragText 0 12] =
    Ok [FragText 0 1; FragToken 1; FragToken 0; FragText 8 1; FragToken 0] /\
  tokenizer_st_partition demo_partition_vocab (str "x<ab><a>y<a>") false [FragText 0 12] =
    Ok [FragText 0 1; FragToken 1; FragText 5 7].
Proof. vm_compute. done. Qed.
