(* ===== verification/Detok.v ===== *)
(** Pieces and detokenising ([src/llama-vocab.cpp], [token_to_piece], [detokenize]):
    the cache of pieces is transparent, the space a text needs is measured exactly,
    and the clean-up of spaces stays inside the text. *)
From S2P Require Import Prelude Unicode UnicodeSplit Vocab Spm Trie Tokenize.

(** * Pieces *)

(** What [token_to_piece] writes to a buffer that is large enough. *)
Definition full_piece (v : llama_vocab) (token : Z) (special : bool) : res bytes :=
  attr ← token_get_attr v token;
  if negb special && has_attr attr attr_special then mret []
  else
    match v_cache_token_to_piece v with
    | _ :: _ => vec_at (v_cache_token_to_piece v) token
    | [] =>
        if (0 <=? token) && (token <? zlen (v_id_to_token v)) then
          d ← vget (v_id_to_token v) token;
          match v_type v with
          | VOCAB_WPM | VOCAB_SPM | VOCAB_UGM =>
              if has_attr attr (Z.lor attr_special ATTR_USER_DEFINED) then mret (t_text d)
              else if has_attr attr ATTR_NORMAL then llama_unescape_whitespace (t_text d)
              else if has_attr attr ATTR_BYTE then byte ← token_to_byte v token; mret [byte]
              else mret []
          | VOCAB_BPE =>
              if has_attr attr (Z.lor attr_special ATTR_USER_DEFINED) then mret (t_text d)
              else if has_attr attr ATTR_NORMAL then llama_decode_text (t_text d)
              else mret []
          | VOCAB_RWKV => mret (llama_unescape_rwkv_token (t_text d))
          | VOCAB_NONE => Err Abort
          end
        else mret []
    end.

Lemma try_copy_nil len lstrip : 0 <= len -> try_copy len lstrip [] = (0, []).
Proof.
  intros Hl. unfold try_copy. assert (skip_spaces (Z.to_nat lstrip) [] = []) as -> by (by destruct (Z.to_nat lstrip)).
  change (zlen []) with 0. by destruct (Z.ltb_spec len 0); [lia|].
Qed.

Lemma try_copy_0 len p : try_copy len 0 p = if len <? zlen p then (- zlen p, []) else (zlen p, p).
Proof. done. Qed.

Lemma token_to_piece_eq v token len lstrip special :
  0 <= len -> v_type v <> VOCAB_RWKV \/ v_cache_token_to_piece v <> [] \/ lstrip <= 0 ->
  token_to_piece v token len lstrip special =
    (p ← full_piece v token special; mret (try_copy len lstrip p)).
Proof.
  intros Hl Hr. unfold token_to_piece, full_piece. destruct (token_get_attr v token) as [attr|]; cbn [mbind res_bind]; [|done].
  destruct (negb special && has_attr attr attr_special); [cbn; by rewrite try_copy_nil|].
  destruct (v_cache_token_to_piece v) as [|p0 ps]; [|by destruct (vec_at (p0 :: ps) token)].
  destruct ((0 <=? token) && (token <? zlen (v_id_to_token v))); [|cbn; by rewrite try_copy_nil].
  destruct (vget (v_id_to_token v) token) as [d|]; cbn [mbind res_bind]; [|done].
  destruct (v_type v).
  6: { destruct Hr as [?|[?|Hr]]; [done|done|]. unfold try_copy. replace (Z.to_nat lstrip) with O by lia.
       cbn [mbind res_bind mret res_ret skip_spaces]. done. }
  all: repeat (case_match; try done); cbn [mbind res_bind mret res_ret]; rewrite ?try_copy_nil by done; try done.
  all: repeat match goal with |- context [mbind _ ?m] => destruct m; cbn [mbind res_bind mret res_ret]; try done end.
Qed.

(** ** The cache *)

(** The vocabulary with a cache of pieces. *)
Definition with_cache (v : llama_vocab) (c : list bytes) : llama_vocab :=
  let '(mk_vocab a1 a2 a3 a4 a5 a6 a7 a8 a9 b1 b2 b3 b4 b5 b6 b7 b8 _ c1 c2) := v in
  mk_vocab a1 a2 a3 a4 a5 a6 a7 a8 a9 b1 b2 b3 b4 b5 b6 b7 b8 c c1 c2.

(** The pieces without a cache. *)
Lemma full_piece_uncached v token special :
  full_piece (with_cache v []) token special =
    (attr ← token_get_attr v token;
     if negb special && has_attr attr attr_special then mret []
     else if (0 <=? token) && (token <? zlen (v_id_to_token v)) then
       d ← vget (v_id_to_token v) token;
       match v_type v with
       | VOCAB_WPM | VOCAB_SPM | VOCAB_UGM =>
           if has_attr attr (Z.lor attr_special ATTR_USER_DEFINED) then mret (t_text d)
           else if has_attr attr ATTR_NORMAL then llama_unescape_whitespace (t_text d)
           else if has_attr attr ATTR_BYTE then byte ← token_to_byte v token; mret [byte]
           else mret []
       | VOCAB_BPE =>
           if has_attr attr (Z.lor attr_special ATTR_USER_DEFINED) then mret (t_text d)
           else if has_attr attr ATTR_NORMAL then llama_decode_text (t_text d)
           else mret []
       | VOCAB_RWKV => mret (llama_unescape_rwkv_token (t_text d))
       | VOCAB_NONE => Err Abort
       end
     else mret []).
Proof. by destruct v. Qed.

(** The cache, if there is one, holds the pieces. *)
Definition cache_agrees (v : llama_vocab) : Prop :=
  forall token special, full_piece v token special = full_piece (with_cache v []) token special.

Lemma cache_agrees_nil v : v_cache_token_to_piece v = [] -> cache_agrees v.
Proof. intros Hv token special. f_equal. destruct v. cbn in Hv. by rewrite Hv. Qed.

Lemma token_to_piece_for_cache_eq capacity v token special :
  0 <= capacity -> token_to_piece_for_cache capacity v token special = full_piece v token special.
Proof.
  intros Hc. unfold token_to_piece_for_cache. rewrite token_to_piece_eq by (done || (right; by right)).
  destruct (full_piece v token special) as [p|] eqn:E; cbn [mbind res_bind mret res_ret]; [|done].
  rewrite try_copy_0. pose proof (zlen_nonneg p). destruct (Z.ltb_spec capacity (zlen p)); cbn [fst snd].
  - destruct (Z.ltb_spec (- zlen p) 0); [|lia]. rewrite token_to_piece_eq by (lia || (right; by right)).
    rewrite E. cbn [mbind res_bind mret res_ret]. rewrite try_copy_0, Z.opp_involutive.
    destruct (Z.ltb_spec (zlen p) (zlen p)); [lia|]. cbn [fst snd]. by rewrite Z.eqb_refl.
  - destruct (Z.ltb_spec (zlen p) 0); [lia|]. done.
Qed.

(** With the cache that loading builds the pieces stay what they were. *)
Lemma full_piece_cached capacity v c token special :
  0 <= capacity -> v_cache_token_to_piece v = [] -> piece_cache capacity v = Ok c ->
  full_piece (with_cache v c) token special = full_piece v token special.
Proof.
  intros Hc Hnil Hcache. unfold piece_cache in Hcache. apply mapM_ok in Hcache.
  unfold full_piece at 1.
  assert (token_get_attr (with_cache v c) token = token_get_attr v token) as -> by (by destruct v).
  assert (v_cache_token_to_piece (with_cache v c) = c) as -> by (by destruct v).
  assert (v_id_to_token (with_cache v c) = v_id_to_token v) as -> by (by destruct v).
  destruct (token_get_attr v token) as [attr|] eqn:Ha; [|unfold full_piece; by rewrite Ha].
  assert (Hrange : 0 <= token < zlen (v_id_to_token v)).
  { unfold token_get_attr, assert_typed, vec_at in Ha. destruct (bool_decide (v_type v <> VOCAB_NONE)); [|done]. cbn in Ha.
    destruct (zlookup (v_id_to_token v) token) eqn:E; [|done]. by eapply zlookup_Some_lt. }
  assert (Hin : zlookup (zseq 0 (length (v_id_to_token v))) token = Some token).
  { replace (length (v_id_to_token v)) with (Z.to_nat (zlen (v_id_to_token v))) by (unfold zlen; lia).
    apply zlookup_zseq. done. }
  unfold zlookup in Hin. destruct (Z.leb_spec 0 token) as [_|]; [|lia].
  destruct (Forall2_lookup_l _ _ _ _ _ Hcache Hin) as (p & Hp & Hfull).
  rewrite token_to_piece_for_cache_eq in Hfull by done.
  cbn [mbind res_bind]. destruct (negb special && has_attr attr attr_special) eqn:Es.
  { unfold full_piece. rewrite Ha. cbn [mbind res_bind]. by rewrite Es. }
  assert (full_piece v token special = Ok p) as ->.
  { rewrite <- Hfull. unfold full_piece. rewrite Ha. cbn [mbind res_bind]. rewrite Es. done. }
  destruct c as [|p0 c]; [done|]. unfold vec_at, zlookup. destruct (Z.leb_spec 0 token) as [_|]; [|lia]. by rewrite Hp.
Qed.

(** * Measuring the text *)

(** The pieces with the space before the first one removed. *)
Definition stripped (remove_space : bool) (ps : list bytes) : list bytes :=
  match ps with
  | p :: ps => (if remove_space then skip_spaces 1 p else p) :: ps
  | [] => []
  end.

Lemma stripped_false ps : stripped false ps = ps.
Proof. by destruct ps. Qed.

(** One token, by the piece that is left of it. *)
Lemma detok_step_eq v special avail total text rs token p :
  v_type v <> VOCAB_RWKV \/ v_cache_token_to_piece v <> [] \/ rs = false ->
  full_piece v token special = Ok p ->
  0 <= avail -> 0 <= total ->
  let q := if rs then skip_spaces 1 p else p in
  total + zlen q <= INT32_MAX ->
  detok_step v special (mk_detok avail total text rs) token =
    Ok (mk_detok (if avail <? zlen q then 0 else avail - zlen q) (total + zlen q)
          (if avail <? zlen q then text else text ++ q) false).
Proof.
  intros Hr Hp Ha Ht q Hmax. pose proof (zlen_nonneg q) as Hq.
  assert (Hstep : token_to_piece v token avail (if rs then 1 else 0) special =
    Ok (if avail <? zlen q then (- zlen q, []) else (zlen q, q))).
  { rewrite token_to_piece_eq; [|done|].
    - rewrite Hp. cbn [mbind res_bind mret res_ret]. unfold try_copy, q. by destruct rs.
    - destruct Hr as [?|[?| ->]]; [by left|by right; left|right; right; lia]. }
  unfold detok_step. cbn [dt_avail dt_total dt_text dt_remove_space].
  destruct (Z.leb_spec 0 avail); [|lia]. cbn [ggml_assert mbind res_bind]. rewrite Hstep. cbn [mbind res_bind].
  destruct (Z.ltb_spec avail (zlen q)) as [Hlt|Hge]; cbn [fst snd].
  - destruct (Z.ltb_spec (- zlen q) 0); [|lia]. rewrite s32_ok by (unfold INT32_MIN, INT32_MAX in *; lia).
    cbn [mbind res_bind mret res_ret]. do 2 f_equal. lia.
  - destruct (Z.ltb_spec (zlen q) 0); [lia|]. destruct (Z.ltb_spec 0 (zlen q)) as [Hz|Hz].
    + by rewrite s32_ok by (unfold INT32_MIN, INT32_MAX in *; lia).
    + assert (q = []) as -> by (destruct q; [done|unfold zlen in Hz; cbn in Hz; lia]). cbn [mret res_ret].
      change (zlen []) with 0. by rewrite Z.add_0_r, Z.sub_0_r, app_nil_r.
Qed.

(** The loop over the tokens: the total is the length of the text, and the text is
    complete if it fits. *)
Lemma detok_loop v special tokens ps avail total text rs :
  v_type v <> VOCAB_RWKV \/ v_cache_token_to_piece v <> [] \/ rs = false ->
  Forall2 (fun token p => full_piece v token special = Ok p) tokens ps ->
  0 <= avail -> 0 <= total -> total + zlen (concat (stripped rs ps)) <= INT32_MAX ->
  exists st, foldM (detok_step v special) (mk_detok avail total text rs) tokens = Ok st /\
    dt_total st = total + zlen (concat (stripped rs ps)) /\
    (zlen (concat (stripped rs ps)) <= avail -> dt_text st = text ++ concat (stripped rs ps)).
Proof.
  intros Hr Hps. revert avail total text rs Hr. induction Hps as [|token p tokens ps Hp _ IH]; intros avail total text rs Hr Ha Ht Hmax.
  - eexists. split; [done|]. cbn. split; [change (zlen []) with 0; lia|]. intros _. by rewrite app_nil_r.
  - assert (Hstrip : concat (stripped rs (p :: ps)) = (if rs then skip_spaces 1 p else p) ++ concat ps) by done.
    rewrite Hstrip, zlen_app in *.
    pose proof (detok_step_eq v special avail total text rs token p Hr Hp Ha Ht) as Hstep. cbn zeta in Hstep.
    set (q := if rs then skip_spaces 1 p else p) in *. clearbody q.
    pose proof (zlen_nonneg q) as Hq. pose proof (zlen_nonneg (concat ps)) as Hps.
    cbn [foldM]. rewrite Hstep by lia. cbn [mbind res_bind].
    destruct (IH (if avail <? zlen q then 0 else avail - zlen q) (total + zlen q)
      (if avail <? zlen q then text else text ++ q) false) as (st & -> & H1 & H2).
    + by right; right.
    + destruct (Z.ltb_spec avail (zlen q)); lia.
    + lia.
    + rewrite stripped_false. lia.
    + rewrite stripped_false in H1, H2. exists st. split; [done|]. split; [lia|]. intros Hfit.
      destruct (Z.ltb_spec avail (zlen q)); [lia|]. rewrite app_assoc. apply H2. lia.
Qed.

(** ** The clean-up of spaces *)

(** The buffer keeps its length, and what is written stays behind what is read. *)
Definition clean_inv (n i : Z) (st : bytes * Z) : Prop := zlen st.1 = n /\ 1 <= st.2 <= i.

Lemma vset_safe {A} (l : list A) i x : 0 <= i < zlen l -> safe (vset l i x) (fun l' => zlen l' = zlen l).
Proof. intros Hi. rewrite vset_at by done. cbn. apply zlen_insert. Qed.

(** A write at [total], or one before it if the byte before is dropped. *)
Lemma clean_write n i text total x (drop : bool) :
  i < n -> clean_inv n i (text, total) ->
  let total := if drop then total - 1 else total in
  safe (text ← vset text total x; mret (text, total + 1)) (clean_inv n (i + 1)).
Proof.
  intros Hi [Hn Ht] total'. cbn [fst snd] in *.
  assert (0 <= total' < i + 1 /\ 0 <= total' /\ 1 <= total' + 1 <= i + 1 /\ total' <= i) by (unfold total'; destruct drop; lia).
  clearbody total'.
  eapply post_bind; [apply vset_safe; lia|]. intros t' Ht'; cbn beta in Ht'. cbn [mret res_ret post]. unfold clean_inv. cbn [fst snd]. lia.
Qed.

Lemma pass1_safe n i st : 1 <= i < n -> clean_inv n i st -> safe (pass1_step i st) (clean_inv n (i + 1)).
Proof.
  destruct st as [t total]. intros Hi H. pose proof H as [Hn Ht]. cbn [fst snd] in *. unfold pass1_step.
  eapply post_bind; [apply vget_safe; lia|]. intros x _. eapply post_bind; [apply vget_safe; lia|]. intros prev _.
  apply (clean_write n i t total x); [lia|done].
Qed.

Lemma pass3_safe n total3 i st :
  total3 <= n -> 1 <= i < total3 -> clean_inv n i st -> safe (pass3_step total3 i st) (clean_inv n (i + 1)).
Proof.
  destruct st as [t total]. intros Hn3 Hi H. pose proof H as [Hn Ht]. cbn [fst snd] in *. unfold pass3_step.
  eapply post_bind; [apply vget_safe; lia|]. intros x _. eapply post_bind; [apply vget_safe; lia|]. intros prev _.
  eapply (post_bind _ _ (fun _ => True)).
  { destruct (_ && (i + 1 <? total3)) eqn:E; [|done]. apply andb_prop in E as [_ E%Z.ltb_lt]. unfold is_contraction.
    eapply post_bind; [apply vget_safe; lia|]. intros x1 _. repeat (case_match; try done).
    eapply post_bind; [apply vget_safe; lia|]. intros x2 _. done. }
  intros drop _. apply (clean_write n i t total x); [lia|done].
Qed.

Lemma pass2_safe n total2 fuel text total :
  zlen text = n -> 1 <= total <= 1 -> 1 <= total2 <= n -> (Z.to_nat total2 < fuel)%nat ->
  safe (while (pass2_step total2) fuel (1, text, total)) (clean_inv n total2).
Proof.
  intros Hn Ht Ht2 Hfuel.
  apply (while_post _ (fun '(i, t, total) => clean_inv n i (t, total) /\ i <= total2)
    (fun '(i, _, _) => Z.to_nat (total2 - i))).
  { split; [|lia]. split; cbn; lia. }
  { lia. }
  intros [[i t] tot] [[Hz Htot] Hi]. cbn [fst snd] in *. unfold pass2_step.
  destruct (Z.ltb_spec i total2).
  2: { cbn. split; cbn; lia. }
  eapply post_bind; [apply vget_safe; lia|]. intros x _.
  eapply (post_bind _ _ (fun quote => quote = true -> i + 1 < total2)).
  { destruct ((x =? 39) && (i + 1 <? total2)) eqn:E; [|done]. apply andb_prop in E as [_ E%Z.ltb_lt].
    eapply post_bind; [apply vget_safe; lia|]. intros prev _.
    eapply post_bind; [apply vget_safe; lia|]. intros next _. cbn [mret res_ret post]. by intros _. }
  intros [] Hq.
  - specialize (Hq eq_refl). eapply post_bind; [apply vset_safe; lia|]. intros t' Ht'; cbn beta in Ht'.
    eapply post_bind; [apply vset_safe; lia|]. intros t'' Ht''; cbn beta in Ht''. cbn [mret res_ret post]. unfold clean_inv. cbn [fst snd]. lia.
  - eapply post_bind; [apply vset_safe; lia|]. intros t' Ht'; cbn beta in Ht'. cbn [mret res_ret post]. unfold clean_inv. cbn [fst snd]. lia.
Qed.

(** The passes stay inside the text and never make it longer. *)
Lemma clean_spec text :
  safe (clean text (zlen text)) (fun r => zlen r.1 = zlen text /\ 0 <= r.2 <= zlen text).
Proof.
  unfold clean. set (n := zlen text). pose proof (zlen_nonneg text) as Hn.
  destruct (Z.eqb_spec n 0) as [E|Hn0].
  { assert (text = []) as -> by (destruct text; [done|unfold n, zlen in E; cbn in E; lia]). by vm_compute. }
  eapply (post_bind _ _ (clean_inv n n)).
  { apply for_z_post; [lia|split; [done|cbn; lia]|]. intros i st Hi H. by apply pass1_safe. }
  intros [t1 total1] [Ht1 Htot1]. cbn [fst snd] in *.
  destruct (Z.eqb_spec total1 0); [lia|].
  eapply (post_bind _ _ (clean_inv n total1)); [apply pass2_safe; lia|].
  intros [t2 total2] [Ht2 Htot2]. cbn [fst snd] in *. destruct (Z.eqb_spec total2 0); [lia|].
  apply (post_mono _ (clean_inv n total2) _ (fun _ => False)); [| |done].
  - apply for_z_post; [lia|split; [done|cbn; lia]|]. intros i st Hi H. apply pass3_safe; [lia|done|done].
  - intros r [H1 H2]. cbn. lia.
Qed.

(** ** The text *)

(** What the tokens spell: their pieces, the space before the first removed if it is
    to be, and the spaces cleaned up if the vocabulary asks for it. *)
Definition raw_text_of (v : llama_vocab) (remove_special special : bool) (tokens : list Z) : res bytes :=
  let '(tokens, remove_space) := detok_tokens v remove_special tokens in
  ps ← mapM (fun token => full_piece v token special) tokens;
  mret (concat (stripped remove_space ps)).

Definition cleaned (v : llama_vocab) (raw : bytes) : res bytes :=
  if v_clean_spaces v then r ← clean raw (zlen raw); mret (take (Z.to_nat r.2) r.1) else mret raw.

Lemma cleaned_safe v raw : safe (cleaned v raw) (fun t => zlen t <= zlen raw).
Proof.
  unfold cleaned. destruct (v_clean_spaces v); [|cbn [mret res_ret post]; lia].
  eapply post_bind; [apply clean_spec|]. intros [t total] [Ht Htot]. cbn [fst snd mret res_ret post] in *.
  unfold zlen in *. rewrite length_take. lia.
Qed.

Lemma detokenize_eq v remove_special special tokens raw max :
  v_type v <> VOCAB_NONE -> v_type v <> VOCAB_RWKV \/ v_cache_token_to_piece v <> [] \/ v_add_space_prefix v = false ->
  raw_text_of v remove_special special tokens = Ok raw -> zlen raw <= INT32_MAX -> 0 <= max ->
  detokenize v true tokens max remove_special special =
    if max <? zlen raw then Ok (- zlen raw, []) else t ← cleaned v raw; mret (zlen t, t).
Proof.
  intros Hnone Hr Hraw Hmax Hm. unfold detokenize, raw_text_of in *. rewrite bool_decide_eq_false_2 by done.
  cbn [ggml_assert mbind res_bind].
  assert (v_add_space_prefix v = false -> (detok_tokens v remove_special tokens).2 = false) as Hrs.
  { intros Hs. unfold detok_tokens. rewrite Hs. repeat case_match; simplify_eq; done. }
  destruct (detok_tokens v remove_special tokens) as [toks rs]. cbn [snd] in Hrs.
  apply res_bind_ok in Hraw as (ps & Hps%mapM_ok & [= <-]).
  destruct (detok_loop v special toks ps max 0 [] rs) as (st & -> & Htot & Htext); [|done|done|lia|lia|].
  { destruct Hr as [?|[?|?]]; auto. }
  rewrite Z.add_0_l in Htot. cbn [mbind res_bind]. rewrite Htot.
  destruct (Z.ltb_spec max (zlen (concat (stripped rs ps)))) as [|Hfit]; [done|]. rewrite Htext by lia. cbn [app].
  pose proof (cleaned_safe v (concat (stripped rs ps))) as Hc. unfold cleaned in *.
  destruct (v_clean_spaces v); cbn [mbind res_bind mret res_ret].
  - pose proof (clean_spec (concat (stripped rs ps))) as Hspec.
    destruct (clean _ _) as [[t total]|]; [|done]. cbn [post mbind res_bind mret res_ret fst snd] in *.
    destruct (Z.leb_spec total max); [|lia]. unfold zlen in *. rewrite length_take, Nat.min_l by lia.
    by rewrite Z2Nat.id by lia.
  - destruct (Z.leb_spec (zlen (concat (stripped rs ps))) max); [|lia]. unfold zlen.
    by rewrite Nat2Z.id, firstn_all.
Qed.

Lemma detokenize_string_eq capacity v special tokens raw :
  v_type v <> VOCAB_NONE -> v_type v <> VOCAB_RWKV \/ v_cache_token_to_piece v <> [] \/ v_add_space_prefix v = false ->
  raw_text_of v false special tokens = Ok raw -> zlen raw <= INT32_MAX -> 0 <= capacity ->
  detokenize_string capacity v true tokens special = cleaned v raw.
Proof.
  intros Hnone Hr Hraw Hmax Hcap. unfold detokenize_string. pose proof (zlen_nonneg raw).
  rewrite (detokenize_eq v false special tokens raw) by (done || lia).
  pose proof (cleaned_safe v raw) as Hc. destruct (cleaned v raw) as [t|] eqn:E; [|done]. cbn [post] in Hc.
  pose proof (zlen_nonneg t). destruct (Z.ltb_spec (Z.max capacity (zlen tokens)) (zlen raw)); cbn [mbind res_bind mret res_ret fst snd].
  - destruct (Z.ltb_spec (- zlen raw) 0); [|lia]. rewrite (detokenize_eq v false special tokens raw) by (done || lia).
    rewrite Z.opp_involutive. destruct (Z.ltb_spec (zlen raw) (zlen raw)); [lia|]. rewrite E.
    cbn [mbind res_bind mret res_ret fst snd]. by destruct (Z.leb_spec (zlen t) (zlen raw)); [|lia].
  - by destruct (Z.ltb_spec (zlen t) 0); [lia|].
Qed.


(** The cache of pieces is transparent: once loading has built it, every piece a
    caller asks for, at every buffer length, is what it was without the cache, and so are
    the texts. *)
Theorem piece_cache_transparent capacity v c token len lstrip special :
  0 <= capacity -> v_cache_token_to_piece v = [] -> piece_cache capacity v = Ok c ->
  0 <= len -> v_type v <> VOCAB_RWKV \/ lstrip <= 0 ->
  token_to_piece (with_cache v c) token len lstrip special = token_to_piece v token len lstrip special /\
  token_to_piece_for_cache capacity (with_cache v c) token special = token_to_piece_for_cache capacity v token special.
Proof.
  intros Hcap Hnil Hc Hl Hr. assert (v_type (with_cache v c) = v_type v) as Ht by (by destruct v).
  rewrite !token_to_piece_eq by (rewrite ?Ht; destruct Hr; auto).
  by rewrite !token_to_piece_for_cache_eq, !(full_piece_cached capacity v c) by done.
Qed.

(** * Witnesses *)

(** A sentence-piece vocabulary that cleans spaces up. *)
Definition piece_tokens : list token_data := [
  mk_token (str "<unk>") (float_of_Z 0) ATTR_UNKNOWN; mk_token (str "<s>") (float_of_Z 0) ATTR_CONTROL;
  mk_token (str "</s>") (float_of_Z 0) ATTR_CONTROL; mk_token (str "<0x0A>") (float_of_Z 0) ATTR_BYTE;
  mk_token (visible_space ++ str "it") (float_of_Z (-1)) ATTR_NORMAL;
  mk_token (visible_space ++ str "'s") (float_of_Z (-2)) ATTR_NORMAL;
  mk_token (visible_space ++ str "!") (float_of_Z (-3)) ATTR_NORMAL].

Definition piece_vocab : llama_vocab :=
  mk_vocab VOCAB_SPM 6 1 2 0 (-1) true true true false true false true false
    (index_tokens piece_tokens) piece_tokens [2; 1; 0] [] ∅ {[2]}.


Lemma piece_cache_transparent_witness : exists c,
  piece_cache 15 piece_vocab = Ok c /\ length c = 7%nat /\
  token_to_piece (with_cache piece_vocab c) 5 2 1 false = Ok (2, str "'s") /\
  token_to_piece (with_cache piece_vocab c) 1 9 0 false = Ok (0, []).
Proof.
  destruct (piece_cache 15 piece_vocab) as [c|] eqn:E; [|vm_compute in E; discriminate E].
  exists c. split; [reflexivity|]. split; [vm_compute in E; injection E as <-; reflexivity|]. split.
  - rewrite (proj1 (piece_cache_transparent 15 piece_vocab c 5 2 1 false ltac:(discriminate) eq_refl E
      ltac:(discriminate) ltac:(left; discriminate))). vm_compute. reflexivity.
  - rewrite (proj1 (piece_cache_transparent 15 piece_vocab c 1 9 0 false ltac:(discriminate) eq_refl E
      ltac:(discriminate) ltac:(left; discriminate))). vm_compute. reflexivity.
Defined.
