(* ===== verification/RoundTrip.v ===== *)
(** Tokenising and detokenising a text gives the text back ([src/llama-vocab.cpp],
    [tokenize], [detokenize]): what a vocabulary has to hold for that, and what is
    left over. *)
From S2P Require Import Prelude Unicode UnicodeSplit Vocab Merge Spm Bpe Trie Wpm Ugm Tokenize Partition Detok.

(** * The pieces of a list of tokens *)

(** The tokens spell the text, none of them nothing. *)
Definition emits (v : llama_vocab) (special : bool) (ids : list Z) (text : bytes) : Prop :=
  exists ps, Forall2 (fun id p => full_piece v id special = Ok p) ids ps /\ concat ps = text /\ Forall (fun p => p <> []) ps.

Lemma emits_nil v special : emits v special [] [].
Proof. exists []. split; [constructor|]. split; [done|constructor]. Qed.

Lemma emits_one v special id p : full_piece v id special = Ok p -> p <> [] -> emits v special [id] p.
Proof. intros H Hp. exists [p]. split; [by constructor|]. split; [cbn; by rewrite app_nil_r|by constructor]. Qed.

Lemma emits_app v special ids1 ids2 t1 t2 :
  emits v special ids1 t1 -> emits v special ids2 t2 -> emits v special (ids1 ++ ids2) (t1 ++ t2).
Proof.
  intros (p1 & H1 & <- & N1) (p2 & H2 & <- & N2). exists (p1 ++ p2).
  split; [by apply Forall2_app|]. split; [by rewrite concat_app|by apply Forall_app].
Qed.

(** A loop that emits tokens for every element. *)
Lemma emits_fold {A} v special (emit : list Z -> A -> res (list Z)) (spell : A -> bytes) ts out :
  (forall t, t ∈ ts -> exists ids, (forall out, emit out t = Ok (out ++ ids)) /\ emits v special ids (spell t)) ->
  exists ids, foldM emit out ts = Ok (out ++ ids) /\ emits v special ids (concat (spell <$> ts)).
Proof.
  revert out. induction ts as [|t ts IH]; intros out H.
  - exists []. cbn. rewrite app_nil_r. split; [done|apply emits_nil].
  - destruct (H t) as (ids & Ht & He); [left|]. cbn [foldM]. rewrite Ht. cbn [mbind res_bind].
    destruct (IH (out ++ ids)) as (ids' & Hf & He'); [intros; apply H; by right|].
    exists (ids ++ ids'). rewrite Hf, app_assoc. split; [done|]. rewrite fmap_cons. by apply emits_app.
Qed.

(** The text of a list of tokens. *)
Lemma emits_raw_text v special ids text :
  emits v special ids text -> raw_text_of v false special ids =
    Ok (if v_add_space_prefix v && bool_decide (head text = Some 32) then tail text else text).
Proof.
  intros (ps & Hps & <- & Hne). unfold raw_text_of, detok_tokens. cbn [andb].
  apply mapM_ok in Hps. rewrite Hps. cbn [mbind res_bind mret res_ret]. f_equal.
  destruct (v_add_space_prefix v); [|by rewrite stripped_false]. cbn [andb].
  destruct Hne as [|p ps Hp _]; [done|]. destruct p as [|c p]; [done|]. cbn [stripped concat app head tail].
  destruct (bool_decide_reflect (Some c = Some 32)) as [[= ->]|Hc]; [done|].
  f_equal. destruct c as [|c|c]; try done. cbn [skip_spaces]. repeat (destruct c as [c|c|]; try done).
Qed.

(** The same between a BOS and an EOS that detokenising removes; with a BOS the
    space before the text stays. *)
Lemma emits_raw_text_special v special ids text :
  emits v special ids text -> ids <> [] ->
  raw_text_of v true special
    ((if v_add_bos v then [v_special_bos_id v] else []) ++ ids ++ (if v_add_eos v then [v_special_eos_id v] else [])) =
    Ok (if v_add_space_prefix v && negb (v_add_bos v) && bool_decide (head text = Some 32) then tail text else text).
Proof.
  intros He Hids. pose proof (emits_raw_text _ _ _ _ He) as Hr. destruct He as (ps & Hps & <- & Hne).
  assert (Heos : forall rs : bool, (if v_add_eos v then
    match last (ids ++ (if v_add_eos v then [v_special_eos_id v] else [])) with
    | Some t => if t =? v_special_eos_id v
        then (take (pred (length (ids ++ (if v_add_eos v then [v_special_eos_id v] else [])))) (ids ++ (if v_add_eos v then [v_special_eos_id v] else [])), rs)
        else (ids ++ (if v_add_eos v then [v_special_eos_id v] else []), rs)
    | None => (ids ++ (if v_add_eos v then [v_special_eos_id v] else []), rs)
    end else (ids ++ (if v_add_eos v then [v_special_eos_id v] else []), rs)) = (ids, rs)).
  { intros rs. destruct (v_add_eos v); [|by rewrite app_nil_r]. rewrite last_snoc, Z.eqb_refl, length_app. cbn [length].
    replace (pred (length ids + 1)) with (length ids) by lia. by rewrite take_app_length. }
  unfold raw_text_of, detok_tokens in *. cbn [andb] in *. destruct (v_add_bos v); cbn [app negb].
  - rewrite Z.eqb_refl, Heos, andb_false_r. cbn [andb]. apply mapM_ok in Hps. rewrite Hps. cbn [mbind res_bind mret res_ret].
    by rewrite stripped_false.
  - rewrite Heos, andb_true_r. exact Hr.
Qed.

(** * SPM *)

(** What a sentence-piece vocabulary has to hold: the tables agree, the visible space
    is a token and every byte has one. *)
Record spm_text_vocab (v : llama_vocab) : Prop := {
  sv_type : v_type v = VOCAB_SPM;
  sv_ok : vocab_ok v;
  sv_texts : map_Forall (fun t id => exists d, zlookup (v_id_to_token v) id = Some d /\ t_text d = t) (v_token_to_id v);
  sv_space : is_Some (v_token_to_id v !! visible_space);
  sv_bytes : forall b, byte_ok b -> exists id d, v_token_to_id v !! byte_name b = Some id /\
    zlookup (v_id_to_token v) id = Some d /\ t_attr d = ATTR_BYTE;
  sv_cache : cache_agrees v;
  sv_specials : specials_ok v;
  sv_bos : v_add_bos v = true -> v_special_bos_id v <> LLAMA_TOKEN_NULL;
  sv_eos : v_add_eos v = true -> v_special_eos_id v <> LLAMA_TOKEN_NULL
}.

(** No token that is not a plain piece of text has its name in the text. *)
Definition plain_text (v : llama_vocab) (text : bytes) : Prop :=
  forall t id d, v_token_to_id v !! t = Some id -> zlookup (v_id_to_token v) id = Some d ->
    find_sub t text <> None -> t_attr d = ATTR_NORMAL.

Lemma find_sub_mid k pre post : find_sub k (pre ++ k ++ post) <> None.
Proof.
  intros H. rewrite find_sub_None in H. specialize (H (length pre)). rewrite drop_app_length in H.
  assert (starts_with k (k ++ post) = true) as E by (apply starts_with_spec; by exists post).
  rewrite H in E; [done|]. rewrite length_app. lia.
Qed.

(** ** Escaping *)

Lemma escaped_app a b : escaped (a ++ b) = escaped a ++ escaped b.
Proof. unfold escaped. by rewrite fmap_app, concat_app. Qed.

Lemma escaped_other s : 32 ∉ s -> escaped s = s.
Proof.
  induction s as [|c s IH]; [done|]. intros [Hc Hs]%not_elem_of_cons. unfold escaped in *. cbn.
  destruct (Z.eqb_spec c 32); [done|]. cbn. by rewrite IH.
Qed.

Definition escape_char (u : bytes) : bytes := if decide (u = [32]) then visible_space else u.

Lemma escaped_char c u : utf8_form c u -> escaped u = escape_char u.
Proof.
  intros Hu. unfold escape_char. case_decide as E; [by rewrite E|]. apply escaped_other.
  destruct Hu as [a Ha|a b ? ?|a b d ? ? ? ?|a b d e ? ? ? ? ? ?]; rewrite ?not_elem_of_cons; [|split_and!; try lia; by apply not_elem_of_nil..].
  split; [congruence|by apply not_elem_of_nil].
Qed.

Lemma escape_char_form c u : utf8_form c u -> exists c', utf8_form c' (escape_char u).
Proof.
  intros Hu. unfold escape_char. case_decide; [|by exists c]. exists ((2 * 64 + 22) * 64 + 1).
  apply (utf8_form_3 2 22 1); lia.
Qed.

(** U+2581 is the only character that is spelled as the visible space is. *)
Lemma visible_space_char c u : utf8_form c u -> c <> 9601 -> u <> visible_space.
Proof.
  intros Hu Hc E. unfold visible_space in E. destruct Hu as [a Ha|a b ? ?|a b d ? ? ? ?|a b d e ? ? ? ? ? ?]; simplify_eq.
  apply Hc. lia.
Qed.

Lemma unescape_escape_char u : u <> visible_space -> unescape_char (escape_char u) = u.
Proof. intros Hu. unfold unescape_char, escape_char. repeat case_decide; by simplify_eq. Qed.

(** A text without U+2581 as its characters, escaped. *)
Lemma escaped_text cps text :
  utf8_text cps text -> 9601 ∉ cps ->
  exists cs us, Forall2 utf8_form cs us /\ escaped text = concat us /\ concat (unescape_char <$> us) = text.
Proof.
  intros (us & Hus & ->) Hno. induction Hus as [|c u cps us Hu _ IH].
  - exists [], []. split; [constructor|done].
  - apply not_elem_of_cons in Hno as [Hc Hno]. destruct (IH Hno) as (cs & vs & Hvs & He & Hun).
    destruct (escape_char_form c u Hu) as (c' & Hc'). exists (c' :: cs), (escape_char u :: vs).
    split; [by constructor|]. cbn [concat]. rewrite escaped_app, He, (escaped_char c u Hu). split; [done|].
    rewrite fmap_cons. cbn [concat]. rewrite Hun, unescape_escape_char; [done|]. by eapply visible_space_char.
Qed.

(** ** Pieces *)

Section spm_pieces.
Context (v : llama_vocab) (special : bool) (Hv : spm_text_vocab v).

Lemma typed : bool_decide (v_type v <> VOCAB_NONE) = true.
Proof using Hv. apply bool_decide_eq_true_2. by rewrite (sv_type _ Hv). Qed.

Lemma spm_full_piece id d :
  zlookup (v_id_to_token v) id = Some d ->
  full_piece v id special =
    if negb special && has_attr (t_attr d) attr_special then Ok []
    else if has_attr (t_attr d) (Z.lor attr_special ATTR_USER_DEFINED) then Ok (t_text d)
    else if has_attr (t_attr d) ATTR_NORMAL then Ok (unescaped (t_text d))
    else if has_attr (t_attr d) ATTR_BYTE then byte ← token_to_byte v id; mret [byte]
    else Ok [].
Proof using Hv.
  intros Hd. rewrite (sv_cache _ Hv), full_piece_uncached. unfold token_get_attr, assert_typed, vec_at.
  rewrite typed, Hd. cbn [ggml_assert mbind res_bind mret res_ret]. rewrite (sv_type _ Hv). pose proof (zlookup_Some_lt _ _ _ Hd).
  destruct (Z.leb_spec 0 id); [|lia]. destruct (Z.ltb_spec id (zlen (v_id_to_token v))); [|lia]. cbn [andb].
  rewrite (vget_Some _ _ _ Hd). cbn [mbind res_bind]. by rewrite llama_unescape_whitespace_eq.
Qed.

Lemma spm_normal_piece id d :
  zlookup (v_id_to_token v) id = Some d -> t_attr d = ATTR_NORMAL -> full_piece v id special = Ok (unescaped (t_text d)).
Proof using Hv. intros Hd Ha. rewrite (spm_full_piece id d), Ha by done. by destruct special. Qed.

Lemma spm_byte_piece b :
  byte_ok b -> exists id, byte_to_token v b = Ok id /\ full_piece v id special = Ok [b].
Proof using Hv.
  intros Hb. destruct (sv_bytes _ Hv b Hb) as (id & d & Hid & Hd & Ha). exists id.
  split.
  - unfold byte_to_token, assert_typed. rewrite typed, (sv_type _ Hv). cbn [ggml_assert mbind res_bind]. by rewrite Hid.
  - rewrite (spm_full_piece id d), Ha by done.
    assert (token_to_byte v id = Ok b) as ->; [|by destruct special].
    unfold token_to_byte, is_byte, test_attr, assert_typed, vec_at. rewrite typed, (vget_Some _ _ _ Hd).
    cbn [ggml_assert mbind res_bind mret res_ret]. rewrite Ha, Hd, (sv_type _ Hv). cbn [ggml_assert mbind res_bind mret res_ret].
    destruct (sv_texts _ Hv _ _ Hid) as (d' & Hd' & Ht). rewrite Hd in Hd'. injection Hd' as <-.
    change (has_attr ATTR_BYTE ATTR_BYTE) with true. cbn [ggml_assert mbind res_bind]. rewrite Ht.
    change (3 <=? length (byte_name b))%nat with true. cbv iota. by rewrite byte_name_value.
Qed.

Lemma spm_push_bytes t :
  Forall byte_ok t -> t <> [] -> exists ids, (forall out, push_bytes v out t = Ok (out ++ ids)) /\ emits v special ids t.
Proof using Hv.
  intros Hb _. unfold push_bytes. induction Hb as [|b t Hb _ IH].
  - exists []. split; [intros out; cbn; by rewrite app_nil_r|apply emits_nil].
  - destruct (spm_byte_piece b Hb) as (id & Hid & Hp). destruct IH as (ids & Hf & He). exists (id :: ids). split.
    + intros out. cbn [foldM]. rewrite Hid. cbn [mbind res_bind mret res_ret]. by rewrite Hf, <- app_assoc.
    + apply (emits_app v special [id] ids [b] t); [|done]. by apply emits_one.
Qed.

Lemma unescaped_nonempty cs us : Forall2 utf8_form cs us -> us <> [] -> unescaped (concat us) <> [].
Proof.
  intros H Hne. rewrite (unescaped_text cs) by done. destruct H as [|c u cs us Hu _]; [done|]. rewrite fmap_cons. cbn [concat].
  unfold unescape_char. case_decide; [done|]. by destruct Hu.
Qed.

(** The tokens of a plain text spell it unescaped. *)
Lemma spm_tokenize_spells `{CppHeapLaws} cs us out :
  Forall2 utf8_form cs us -> us <> [] -> plain_text v (concat us) ->
  exists ids, spm_tokenize v (concat us) out = Ok (out ++ ids) /\ emits v special ids (concat (unescape_char <$> us)).
Proof using Hv.
  intros Hus Hne Hplain.
  assert (concat us <> []) as Hne'.
  { destruct Hus as [|c u ? ? Hu]; [done|]. by destruct Hu. }
  rewrite spm_tokenize_eq by (apply Hv || done). rewrite (utf8_chars_text cs) by done.
  destruct (greedy_groups (spm_rank v) (length us) us) as (gs & Hgs & Hg & Hgne). fold (greedy_merge (spm_rank v) us) in Hg.
  assert (Hchars : Forall (fun g => exists cs, Forall2 utf8_form cs g) gs).
  { clear -Hgs Hus. revert cs us Hgs Hus. induction gs as [|g gs IH]; intros cs us <- Hus; [constructor|].
    cbn in Hus. apply Forall2_app_inv_r in Hus as (c1 & c2 & H1 & H2 & ->). constructor; [by exists c1|]. by eapply IH. }
  assert (Hpieces : Forall (fun t => is_Some (v_token_to_id v !! t) \/ t ∈ us) (greedy_merge (spm_rank v) us)).
  { apply greedy_Forall.
    - intros a b [p Hp]. left. unfold spm_rank in Hp. destruct (v_token_to_id v !! (a ++ b)); [by eexists|done].
    - rewrite Forall_forall. by right. }
  rewrite Hg in *.
  destruct (emits_fold v special (emit_piece v) unescaped (@concat Z <$> gs) out) as (ids & Hf & He).
  - intros t Ht. pose proof Ht as (g & -> & Hin)%list_elem_of_fmap.
    rewrite Forall_forall in Hpieces. destruct (proj1 (Forall_forall _ _) Hchars g Hin) as (gc & Hgc).
    pose proof (proj1 (Forall_forall _ _) Hgne g Hin) as Hgne1. cbn beta in Hgne1.
    unfold emit_piece. destruct (v_token_to_id v !! concat g) as [id|] eqn:Hid.
    + destruct (sv_texts _ Hv _ _ Hid) as (d & Hd & Hdt). exists [id]. split; [done|].
      apply emits_one; [|by eapply unescaped_nonempty]. rewrite <- Hdt. apply spm_normal_piece; [done|].
      eapply Hplain; [done|done|]. apply list_elem_of_split in Hin as (g1 & g2 & ->). rewrite <- Hgs, !concat_app. cbn [concat].
      rewrite concat_app. apply find_sub_mid.
    + destruct (Hpieces _ Ht) as [[? E]|Hu]; [by rewrite Hid in E|].
      apply list_elem_of_lookup in Hu as (i & Hi). destruct (Forall2_lookup_r _ _ _ _ _ Hus Hi) as (c & _ & Hc).
      assert (unescaped (concat g) = concat g) as Hun.
      { rewrite <- (app_nil_r (concat g)) at 1. rewrite (unescaped_char c) by done. unfold unescape_char.
        case_decide as E; [|apply app_nil_r]. destruct (sv_space _ Hv) as [? Hs]. by rewrite <- E, Hid in Hs. }
      rewrite Hun. apply spm_push_bytes; [by eapply utf8_form_bytes|]. intros E. rewrite E in Hc. inversion Hc.
  - exists ids. split; [done|]. replace (concat (unescape_char <$> us)) with (concat (unescaped <$> (@concat Z <$> gs))); [done|].
    rewrite <- Hgs. clear -Hchars. induction Hchars as [|g gs (gc & Hgc) _ IH]; [done|].
    rewrite !fmap_cons. cbn [concat]. rewrite fmap_app, concat_app, IH. by rewrite (unescaped_text gc).
Qed.
End spm_pieces.

(** ** The round trip *)

(** The text with the space that is put before it. *)
Definition prefixed (v : llama_vocab) (text : bytes) : bytes := (if v_add_space_prefix v then [32] else []) ++ text.

Definition special_ids (b : bool) (id : Z) : list Z := if b then [id] else [].

Lemma push_special_eq b id out :
  (b = true -> id <> LLAMA_TOKEN_NULL) -> push_special b id out = Ok (out ++ special_ids b id).
Proof.
  intros Hid. unfold push_special, special_ids. destruct b; [|by rewrite app_nil_r].
  destruct (Z.eqb_spec id LLAMA_TOKEN_NULL); [|done]. by specialize (Hid eq_refl).
Qed.

(** A text without special tokens is one fragment. *)
Lemma one_fragment v text parse_special :
  v_type v <> VOCAB_NONE -> specials_ok v -> text <> [] ->
  (forall d, looks_for v parse_special d -> find_sub (t_text d) text = None) ->
  (match text with
   | [] => mret []
   | _ => f ← frag_text text 0 (length text); tokenizer_st_partition v text parse_special [f]
   end) = Ok [FragText 0 (length text)].
Proof.
  intros Ht Hs Hne Hno.
  trans (f ← frag_text text 0 (length text); tokenizer_st_partition v text parse_special [f]); [by destruct text|].
  rewrite frag_text_ok by (destruct text; [done|cbn; lia]). cbn [mbind res_bind]. by apply partition_plain.
Qed.

Lemma substr_all (text : bytes) : substr 0 (length text) text = text.
Proof. unfold substr. rewrite drop_0. apply firstn_all. Qed.

Lemma spm_text_tokens `{CppHeapLaws} `{UnicodeData} `{RegexEngine} v cps text add_special parse_special special :
  spm_text_vocab v -> utf8_text cps text -> text <> [] -> 9601 ∉ cps ->
  plain_text v (escaped (prefixed v text)) ->
  (forall d, looks_for v parse_special d -> find_sub (t_text d) text = None) ->
  exists ids, tokenize v (Some TokenizerSpm) text add_special parse_special =
      Ok (special_ids (add_special && v_add_bos v) (v_special_bos_id v) ++ ids ++
          special_ids (add_special && v_add_eos v) (v_special_eos_id v)) /\
    emits v special ids (prefixed v text) /\ ids <> [].
Proof.
  intros Hv Htxt Hne Hno Hplain Hfree.
  assert (Hpre : exists cps', utf8_text cps' (prefixed v text) /\ 9601 ∉ cps').
  { unfold prefixed. destruct (v_add_space_prefix v); [|by exists cps]. exists (32 :: cps). split.
    - apply (utf8_text_cons 32 [32]); [|done]. apply utf8_form_1. lia.
    - rewrite not_elem_of_cons. split; [lia|done]. }
  destruct Hpre as (cps' & Htxt' & Hno'). destruct (escaped_text cps' _ Htxt' Hno') as (cs & us & Hus & He & Hun).
  assert (Hune : us <> []).
  { intros ->. cbn in Hun. unfold prefixed in Hun. destruct (v_add_space_prefix v); [done|]. by destruct text. }
  rewrite He in Hplain.
  destruct (spm_tokenize_spells v special Hv cs us (special_ids (add_special && v_add_bos v) (v_special_bos_id v)) Hus Hune Hplain)
    as (ids & Hids & Hem).
  rewrite Hun in Hem. exists ids. split; [|split; [done|]].
  - unfold tokenize. rewrite one_fragment by (rewrite ?(sv_type _ Hv); done || apply Hv). cbn [mbind res_bind].
    rewrite (sv_type _ Hv), push_special_eq by (intros [_ ?]%andb_true_iff; by apply (sv_bos _ Hv)).
    cbn [mbind res_bind app foldM].
    assert (Hfrag : spm_fragment v text (special_ids (add_special && v_add_bos v) (v_special_bos_id v), true) (FragText 0 (length text)) =
      Ok (special_ids (add_special && v_add_bos v) (v_special_bos_id v) ++ ids, false)).
    { unfold spm_fragment. rewrite andb_true_r, substr_all. fold (prefixed v text).
      rewrite llama_escape_whitespace_eq, He. cbn [mbind res_bind]. by rewrite Hids. }
    rewrite Hfrag. cbn [mbind res_bind mret res_ret fst].
    rewrite push_special_eq by (intros [_ ?]%andb_true_iff; by apply (sv_eos _ Hv)). by rewrite <- app_assoc.
  - intros ->. destruct Hem as (ps & Hps & Hcat & _). apply Forall2_nil_inv_l in Hps as ->. cbn in Hcat.
    unfold prefixed in Hcat. destruct (v_add_space_prefix v); [done|]. by destruct text.
Qed.

Lemma spm_text_roundtrip `{CppHeapLaws} `{UnicodeData} `{RegexEngine} (v : llama_vocab) (cps : list Z) (text : bytes)
    (parse_special special : bool) (capacity max : Z) :
  spm_text_vocab v -> v_clean_spaces v = false -> utf8_text cps text -> text <> [] -> 9601 ∉ cps ->
  plain_text v (escaped (prefixed v text)) ->
  (forall d, looks_for v parse_special d -> find_sub (t_text d) text = None) ->
  zlen text < max <= INT32_MAX -> 0 <= capacity ->
  (exists ids, tokenize v (Some TokenizerSpm) text false parse_special = Ok ids /\
     detokenize_string capacity v true ids special = Ok text) /\
  (exists ids, tokenize v (Some TokenizerSpm) text true parse_special = Ok ids /\
     let back := (if v_add_bos v && v_add_space_prefix v then [32] else []) ++ text in
     detokenize v true ids max true special = Ok (zlen back, back)).
Proof.
  intros Hv Hclean Htxt Hne Hno Hplain Hfree Hmax Hcap.
  assert (Hnone : v_type v <> VOCAB_NONE /\ v_type v <> VOCAB_RWKV) by (by rewrite (sv_type _ Hv)). destruct Hnone as [Hn1 Hn2].
  split.
  - destruct (spm_text_tokens v cps text false parse_special special Hv Htxt Hne Hno Hplain Hfree) as (ids & Hids & He & _).
    cbn [andb special_ids app] in Hids. rewrite app_nil_r in Hids. exists ids. split; [done|].
    apply emits_raw_text in He.
    assert (Ht : (if v_add_space_prefix v && bool_decide (head (prefixed v text) = Some 32) then tail (prefixed v text)
      else prefixed v text) = text).
    { unfold prefixed. by destruct (v_add_space_prefix v). }
    rewrite Ht in He. rewrite (detokenize_string_eq capacity v special ids text); [|done|by left|done|lia|lia].
    unfold cleaned. by rewrite Hclean.
  - destruct (spm_text_tokens v cps text true parse_special special Hv Htxt Hne Hno Hplain Hfree) as (ids & Hids & He & Hine).
    cbn [andb] in Hids. eexists. split; [done|]. cbn zeta.
    pose proof (emits_raw_text_special _ _ _ _ He Hine) as Hraw.
    assert (Ht : (if v_add_space_prefix v && negb (v_add_bos v) && bool_decide (head (prefixed v text) = Some 32)
      then tail (prefixed v text) else prefixed v text) = (if v_add_bos v && v_add_space_prefix v then [32] else []) ++ text).
    { unfold prefixed. by destruct (v_add_space_prefix v), (v_add_bos v). }
    rewrite Ht in Hraw. set (back := (if v_add_bos v && v_add_space_prefix v then [32] else []) ++ text) in *.
    assert (Hlen : zlen back <= max).
    { unfold back. rewrite zlen_app. destruct (v_add_bos v && v_add_space_prefix v); [change (zlen [32]) with 1|change (zlen []) with 0]; lia. }
    rewrite (detokenize_eq v true special _ back) by (done || (by left) || lia || (pose proof (zlen_nonneg text); lia)).
    destruct (Z.ltb_spec max (zlen back)); [lia|]. unfold cleaned. by rewrite Hclean.
Qed.

(** * Properties *)

(** C25. SPM round trip: for every UTF-8 text without U+2581 that names no special token,
    tokenising without the special tokens and turning the tokens into a string gives
    the text back, byte for byte, whatever order the work queue keeps. With the
    special tokens, and removing them, the text comes back as well, but for the
    space that the tokeniser puts before it, which stays if the vocabulary adds a
    BOS. *)
Theorem spm_roundtrip `{CppHeapLaws} `{UnicodeData} `{RegexEngine} (v : llama_vocab) (cps : list Z) (text : bytes)
    (parse_special special : bool) (capacity max : Z) :
  spm_text_vocab v -> v_clean_spaces v = false -> utf8_text cps text -> text <> [] -> 9601 ∉ cps ->
  plain_text v (escaped (prefixed v text)) ->
  (forall d, looks_for v parse_special d -> find_sub (t_text d) text = None) ->
  zlen text < max <= INT32_MAX -> 0 <= capacity ->
  (exists ids, tokenize v (Some TokenizerSpm) text false parse_special = Ok ids /\
     detokenize_string capacity v true ids special = Ok text) /\
  (exists ids, tokenize v (Some TokenizerSpm) text true parse_special = Ok ids /\
     let back := (if v_add_bos v && v_add_space_prefix v then [32] else []) ++ text in
     detokenize v true ids max true special = Ok (zlen back, back)).
Proof. apply spm_text_roundtrip. Qed.

(** A sentence-piece vocabulary with a token for every byte. *)
Definition full_tokens : list token_data :=
  [mk_token (str "<unk>") (float_of_Z 0) ATTR_UNKNOWN; mk_token (str "<s>") (float_of_Z 0) ATTR_CONTROL;
   mk_token (str "</s>") (float_of_Z 0) ATTR_CONTROL] ++
  ((fun b => mk_token (byte_name b) (float_of_Z 0) ATTR_BYTE) <$> zseq 0 256) ++
  [mk_token visible_space (float_of_Z (-6)) ATTR_NORMAL; mk_token (str "a") (float_of_Z (-3)) ATTR_NORMAL;
   mk_token (str "b") (float_of_Z (-4)) ATTR_NORMAL; mk_token (str "ab") (float_of_Z (-2)) ATTR_NORMAL;
   mk_token (visible_space ++ str "a") (float_of_Z (-1)) ATTR_NORMAL].

Definition full_vocab : llama_vocab :=
  mk_vocab VOCAB_SPM 6 1 2 0 (-1) true true true false false false true false
    (index_tokens full_tokens) full_tokens [1; 2; 0] [] ∅ {[2]}.

(** Decides [map_Forall] of a decidable property. *)
Ltac map_forall_decide := apply map_Forall_to_list; apply (bool_decide_unpack _); vm_compute; exact I.

Lemma full_vocab_ok : vocab_ok full_vocab.
Proof.
  split; [discriminate|vm_compute; discriminate|map_forall_decide|]. apply (bool_decide_unpack _). vm_compute. exact I.
Qed.

Lemma full_vocab_texts :
  map_Forall (fun t id => exists d, zlookup (v_id_to_token full_vocab) id = Some d /\ t_text d = t) (v_token_to_id full_vocab).
Proof.
  assert (H : map_Forall (fun t id => (fun d => t_text d) <$> zlookup (v_id_to_token full_vocab) id = Some t)
    (v_token_to_id full_vocab)) by map_forall_decide.
  intros t id Hid. specialize (H t id Hid). cbn beta in H. destruct (zlookup _ id) as [d|]; [|discriminate H].
  injection H as H. exists d. split; [reflexivity|exact H].
Qed.

Lemma full_vocab_bytes b : byte_ok b -> exists id d, v_token_to_id full_vocab !! byte_name b = Some id /\
  zlookup (v_id_to_token full_vocab) id = Some d /\ t_attr d = ATTR_BYTE.
Proof.
  intros Hb.
  assert (H : match v_token_to_id full_vocab !! byte_name b with
    | Some id => match zlookup (v_id_to_token full_vocab) id with
                 | Some d => t_attr d =? ATTR_BYTE | None => false end
    | None => false end = true).
  { apply (zseq_forallb (fun b => match v_token_to_id full_vocab !! byte_name b with
      | Some id => match zlookup (v_id_to_token full_vocab) id with
                   | Some d => t_attr d =? ATTR_BYTE | None => false end
      | None => false end) 0 256); [vm_compute; reflexivity|unfold byte_ok in Hb; lia]. }
  destruct (v_token_to_id full_vocab !! byte_name b) as [id|]; [|discriminate H].
  destruct (zlookup _ id) as [d|] eqn:Hd; [|discriminate H]. exists id, d.
  split; [reflexivity|]. split; [exact Hd|]. apply Z.eqb_eq, H.
Qed.

Lemma full_vocab_text : spm_text_vocab full_vocab.
Proof.
  split; [reflexivity|apply full_vocab_ok|apply full_vocab_texts|apply (bool_decide_unpack _); vm_compute; exact I|
    apply full_vocab_bytes|by apply cache_agrees_nil| |discriminate|discriminate].
  repeat constructor; (eexists; split; [vm_compute; reflexivity|discriminate]).
Qed.

(** The text "ab ac": the token " a" and the byte of "c". *)
Lemma spm_roundtrip_witness :
  (exists ids, @tokenize scan_heap ascii_data silent_engine full_vocab (Some TokenizerSpm) (str "ab ac") false true = Ok ids /\
     detokenize_string 15 full_vocab true ids false = Ok (str "ab ac")) /\
  (exists ids, @tokenize scan_heap ascii_data silent_engine full_vocab (Some TokenizerSpm) (str "ab ac") true true = Ok ids /\
     detokenize full_vocab true ids 100 true false = Ok (6, str " ab ac")).
Proof.
  apply (@spm_roundtrip scan_heap scan_heap_laws ascii_data silent_engine full_vocab [97; 98; 32; 97; 99] (str "ab ac") true false 15 100
    full_vocab_text).
  - reflexivity.
  - exists [[97]; [98]; [32]; [97]; [99]]. split; [|reflexivity]. repeat constructor; discriminate.
  - discriminate.
  - apply (bool_decide_unpack _). vm_compute. exact I.
  - assert (H : map_Forall (fun t id => find_sub t (escaped (prefixed full_vocab (str "ab ac"))) = None \/
      t_attr <$> zlookup (v_id_to_token full_vocab) id = Some ATTR_NORMAL) (v_token_to_id full_vocab)) by map_forall_decide.
    intros t id d Hid Hd Hf. destruct (H t id Hid) as [E|E]; [contradiction|]. rewrite Hd in E. injection E as E. exact E.
  - intros d (id & Hid & Hd & _).
    assert (H : Forall (fun id => match zlookup (v_id_to_token full_vocab) id with
      | Some d => find_sub (t_text d) (str "ab ac") = None | None => True end) (v_cache_special_tokens full_vocab)).
    { repeat constructor. }
    rewrite Forall_forall in H. specialize (H id Hid). cbn beta in H. rewrite Hd in H. exact H.
  - vm_compute. split; congruence.
  - discriminate.
Defined.
