(* ===== verification/RoundTripBpe.v ===== *)
(** The BPE round trip ([src/llama-vocab.cpp], [src/unicode.cpp]): with the whole
    byte-level alphabet among its tokens a vocabulary loses nothing of a text. *)
From S2P Require Import Prelude Unicode UnicodeSplit Vocab Merge Spm Bpe Trie Wpm Ugm Tokenize Partition Detok RoundTrip.

(** * The byte-level alphabet *)

(** No character of the alphabet is a space or a line feed. *)
Lemma alphabet_no_blank b u : byte_ok b -> unicode_byte_to_utf8 b = Ok u -> no_blank u.
Proof.
  intros Hb Hu.
  assert (H : match unicode_byte_to_utf8 b with Ok u => lacks 32 u && lacks 10 u | Err _ => false end = true).
  { apply (zseq_forallb (fun b => match unicode_byte_to_utf8 b with Ok u => lacks 32 u && lacks 10 u | Err _ => false end) 0 256);
      [vm_compute; reflexivity|unfold byte_ok in Hb; lia]. }
  rewrite Hu in H. unfold lacks in H. apply andb_true_iff in H as [H1%bool_decide_eq_true H2%bool_decide_eq_true]. split; assumption.
Qed.

Lemma spells_no_blank w bs : Forall byte_ok bs -> spells w bs -> no_blank w.
Proof.
  intros Hb (us & Hus & ->). apply mapM_ok in Hus. induction Hus as [|b u bs us Hu _ IH].
  - split; by apply not_elem_of_nil.
  - apply Forall_cons in Hb as [Hb Hbs]. cbn [concat]. apply no_blank_app. split; [by eapply alphabet_no_blank|by apply IH].
Qed.

(** Cutting the characters of a text cuts its bytes. *)
Lemma cut_alphabet (gs : list (list bytes)) bs :
  mapM unicode_byte_to_utf8 bs = Ok (concat gs) ->
  exists bss, concat bss = bs /\ Forall2 (fun g b => mapM unicode_byte_to_utf8 b = Ok g) gs bss.
Proof.
  intros H%mapM_ok. revert bs H. induction gs as [|g gs IH]; intros bs H.
  - cbn in H. apply Forall2_nil_inv_r in H as ->. by exists [].
  - cbn in H. apply Forall2_app_inv_r in H as (b1 & b2 & H1 & H2 & ->). destruct (IH b2 H2) as (bss & <- & Hb).
    exists (b1 :: bss). split; [done|]. constructor; [by apply mapM_ok|done].
Qed.

(** * Pieces *)

(** What a byte-level vocabulary has to hold: the tables agree, the alphabet's
    characters and what its merges join are tokens. *)
Record bpe_text_vocab (v : llama_vocab) : Prop := {
  bv_type : v_type v = VOCAB_BPE;
  bv_texts : map_Forall (fun t id => exists d, zlookup (v_id_to_token v) id = Some d /\ t_text d = t) (v_token_to_id v);
  bv_alphabet : forall b u, byte_ok b -> unicode_byte_to_utf8 b = Ok u -> is_Some (v_token_to_id v !! u);
  bv_merges : map_Forall (fun p _ => is_Some (v_token_to_id v !! (p.1 ++ p.2))) (v_bpe_ranks v);
  bv_cache : cache_agrees v;
  bv_space : v_add_space_prefix v = false;
  bv_specials : specials_ok v;
  bv_bos : v_add_bos v = true -> v_special_bos_id v <> LLAMA_TOKEN_NULL;
  bv_eos : v_add_eos v = true -> v_special_eos_id v <> LLAMA_TOKEN_NULL
}.

Section bpe_pieces.
Context (v : llama_vocab) (special : bool) (Hv : bpe_text_vocab v).

Lemma bpe_ids : map_Forall (fun _ id => 0 <= id) (v_token_to_id v).
Proof using Hv. intros t id Hid. destruct (bv_texts _ Hv _ _ Hid) as (d & Hd & _). by apply zlookup_Some_lt in Hd as [? _]. Qed.

Lemma bpe_normal_piece id d bs :
  zlookup (v_id_to_token v) id = Some d -> t_attr d = ATTR_NORMAL -> Forall byte_ok bs -> spells (t_text d) bs ->
  full_piece v id special = Ok bs.
Proof using Hv.
  intros Hd Ha Hb (us & Hus & Ht). rewrite (bv_cache _ Hv), full_piece_uncached. unfold token_get_attr, assert_typed, vec_at.
  rewrite bool_decide_eq_true_2 by (rewrite (bv_type _ Hv); discriminate). rewrite Hd. cbn [ggml_assert mbind res_bind mret res_ret].
  rewrite Ha, (bv_type _ Hv). pose proof (zlookup_Some_lt _ _ _ Hd).
  destruct (Z.leb_spec 0 id); [|lia]. destruct (Z.ltb_spec id (zlen (v_id_to_token v))); [|lia]. cbn [andb].
  rewrite (vget_Some _ _ _ Hd). cbn [mbind res_bind]. rewrite Ht, (llama_decode_text_alphabet bs us) by done.
  by destruct special.
Qed.

(** Every piece of a word is a token. *)
Lemma bpe_pieces_tokens w bs :
  Forall byte_ok bs -> spells w bs -> Forall (fun t => is_Some (v_token_to_id v !! t)) (bpe_pieces v w).
Proof using Hv.
  intros Hb (us & Hus & ->). unfold bpe_pieces. destruct (_ && _ && _) eqn:E.
  - apply andb_true_iff in E as [_ E%bool_decide_eq_true]. by apply Forall_singleton.
  - apply greedy_Forall.
    + intros a b [p Hp]. unfold bpe_rank in Hp. destruct (v_bpe_ranks v !! (a, b)) as [r|] eqn:Hr; [|done].
      by apply (bv_merges _ Hv) in Hr.
    + destruct (byte_alphabet_text bs Hb) as (us' & cps & Hus' & Hf & _). rewrite Hus in Hus'. injection Hus' as <-.
      rewrite (utf8_chars_text cps) by done. apply mapM_ok in Hus. clear -Hus Hb Hv.
      induction Hus as [|b u bs us Hu _ IH]; [constructor|]. apply Forall_cons in Hb as [Hb Hbs].
      constructor; [by eapply (bv_alphabet _ Hv)|by apply IH].
Qed.

(** The pieces of a word spell consecutive parts of its bytes. *)
Lemma bpe_pieces_parts w bs :
  Forall byte_ok bs -> spells w bs ->
  exists bss, concat bss = bs /\ Forall2 spells (bpe_pieces v w) bss /\ Forall (fun b => b <> []) bss /\ concat (bpe_pieces v w) = w.
Proof.
  intros Hb Hw. pose proof Hw as (us & Hus & Hcat). unfold bpe_pieces. destruct (_ && _ && _) eqn:E.
  - exists [bs]. split; [cbn; by rewrite app_nil_r|]. split; [by constructor|]. split; [|cbn; by rewrite app_nil_r].
    constructor; [|constructor]. intros ->. cbn in Hus. injection Hus as <-. rewrite Hcat in E. cbn in E.
    by rewrite andb_false_r in E.
  - destruct (byte_alphabet_text bs Hb) as (us' & cps & Hus' & Hf & _). rewrite Hus in Hus'. injection Hus' as <-.
    rewrite Hcat, (utf8_chars_text cps) by done.
    destruct (greedy_groups (bpe_rank v) (length us) us) as (gs & Hgs & Hg & Hgne). fold (greedy_merge (bpe_rank v) us) in Hg.
    rewrite Hg. destruct (cut_alphabet gs bs) as (bss & Hbss & Hcut); [by rewrite Hgs|].
    exists bss. split; [done|]. split; [|split].
    + apply Forall2_fmap_l. eapply Forall2_impl; [done|]. intros g b Hgb. by exists g.
    + clear -Hcut Hgne. induction Hcut as [|g b gs bss Hgb _ IH]; [constructor|]. apply Forall_cons in Hgne as [Hg Hgs].
      constructor; [|by apply IH]. intros ->. cbn in Hgb. by injection Hgb as <-.
    + rewrite <- Hgs. clear. induction gs as [|g gs IH]; [done|]. cbn. by rewrite concat_app, IH.
Qed.

Lemma emits_bpe_pieces ts bss out :
  Forall byte_ok (concat bss) -> Forall2 spells ts bss -> Forall (fun b => b <> []) bss ->
  Forall (fun t => exists id d, v_token_to_id v !! t = Some id /\ zlookup (v_id_to_token v) id = Some d /\ t_attr d = ATTR_NORMAL) ts ->
  exists ids, foldM (bpe_emit_piece v) out ts = Ok (out ++ ids) /\ emits v special ids (concat bss).
Proof using Hv.
  intros Hb Hs Hne Ht. revert out Ht Hb Hne. induction Hs as [|t bs ts bss Hs _ IH]; intros out Ht Hb Hne.
  - exists []. cbn. rewrite app_nil_r. split; [done|apply emits_nil].
  - cbn [concat] in *. apply Forall_app in Hb as [Hb1 Hb2]. apply Forall_cons in Hne as [Hne1 Hne2].
    apply Forall_cons in Ht as [(id & d & Hid & Hd & Ha) Ht2]. cbn [foldM].
    assert (bpe_emit_piece v out t = Ok (out ++ [id])) as -> by (unfold bpe_emit_piece; by rewrite Hid). cbn [mbind res_bind].
    destruct (IH (out ++ [id]) Ht2 Hb2 Hne2) as (ids & Hf & He). exists (id :: ids).
    rewrite Hf, <- app_assoc. split; [done|]. apply (emits_app v special [id] ids bs); [|done].
    apply emits_one; [|done]. destruct (bv_texts _ Hv _ _ Hid) as (d' & Hd' & Hdt). rewrite Hd in Hd'. injection Hd' as <-.
    apply (bpe_normal_piece id d); [done|done|done|by rewrite Hdt].
Qed.

(** The tokens of words spell their bytes. *)
Lemma bpe_words_spell words parts out :
  Forall2 spells words parts -> Forall byte_ok (concat parts) -> plain_text v (concat words) ->
  exists ids, foldM (bpe_emit_piece v) out (concat (bpe_pieces v <$> words)) = Ok (out ++ ids) /\
    emits v special ids (concat parts).
Proof using Hv.
  intros Hs Hb Hplain.
  assert (Hcut : exists bss, concat bss = concat parts /\ Forall2 spells (concat (bpe_pieces v <$> words)) bss /\
    Forall (fun b => b <> []) bss /\ concat (concat (bpe_pieces v <$> words)) = concat words /\
    Forall (fun t => is_Some (v_token_to_id v !! t)) (concat (bpe_pieces v <$> words))).
  { clear Hplain. induction Hs as [|w p words parts Hw _ IH].
    - exists []. split_and!; constructor.
    - cbn [concat] in Hb. apply Forall_app in Hb as [Hb1 Hb2]. destruct (IH Hb2) as (bss & H1 & H2 & H3 & H4 & H5).
      destruct (bpe_pieces_parts w p Hb1 Hw) as (bss' & H1' & H2' & H3' & H4').
      exists (bss' ++ bss). rewrite fmap_cons. cbn [concat].
      split; [by rewrite concat_app, H1, H1'|]. split; [by apply Forall2_app|]. split; [by apply Forall_app|].
      split; [by rewrite concat_app, H4, H4'|]. apply Forall_app. split; [by apply (bpe_pieces_tokens w p)|done]. }
  destruct Hcut as (bss & Hcat & Hsp & Hne & Htxt & Htok). rewrite <- Hcat in *.
  apply emits_bpe_pieces; [done|done|done|].
  rewrite Forall_forall in *. intros t Ht. destruct (Htok t Ht) as [id Hid]. destruct (bv_texts _ Hv _ _ Hid) as (d & Hd & Hdt).
  exists id, d. split; [done|]. split; [done|]. eapply Hplain; [done|done|].
  rewrite <- Htxt. apply list_elem_of_split in Ht as (l1 & l2 & ->). rewrite concat_app. cbn [concat]. apply find_sub_mid.
Qed.
End bpe_pieces.

(** * The round trip *)

Section bpe_text.
Context `{CppHeapLaws} {D : UnicodeData} {R : RegexEngine} {RL : RegexEngineLaws R}.
Context (v : llama_vocab) (special : bool) (Hv : bpe_text_vocab v).

(** The text in the byte-level alphabet names no token but plain pieces. *)
Definition plain_spelling (text : bytes) : Prop := exists e, spells e text /\ plain_text v e.

Lemma bpe_session_spells cps text exprs out :
  utf8_text cps text -> Forall (Forall byte_ok) exprs -> plain_spelling text ->
  may_throw (bpe_tokenize v exprs text out) (fun r => exists ids, r = out ++ ids /\ emits v special ids text).
Proof using All.
  intros Htxt Hes (e & Hse & Hplain).
  pose proof (unicode_regex_split_spells cps text exprs Htxt Hes) as Hsplit.
  destruct (unicode_regex_split text exprs) as [words|err] eqn:Hwords.
  - destruct Hsplit as (parts & Hcat & Hsp).
    assert (Hbytes : Forall byte_ok (concat parts)) by (rewrite Hcat; by eapply utf8_text_bytes).
    rewrite (bpe_tokenize_eq v exprs text words out); [|by rewrite (bv_type _ Hv)|by apply bpe_ids|done|].
    + assert (Hwe : concat words = e).
      { destruct Hse as (us & Hus & ->). clear -Hus Hsp Hcat. apply mapM_ok in Hus. revert us text Hcat Hus.
        induction Hsp as [|w p words parts (ws & Hws & ->) _ IH]; intros us text <- Hus.
        - apply Forall2_nil_inv_l in Hus as ->. done.
        - cbn [concat] in Hus. apply Forall2_app_inv_l in Hus as (u1 & u2 & H1 & H2 & ->). apply mapM_ok in H1.
          rewrite Hws in H1. injection H1 as ->. cbn [concat]. by rewrite (IH u2 _ eq_refl H2), concat_app. }
      destruct (bpe_words_spell v special Hv words parts out Hsp Hbytes) as (ids & -> & He); [by rewrite Hwe|].
      cbn. exists ids. split; [done|]. by rewrite <- Hcat.
    + clear -Hsp Hbytes. induction Hsp as [|w p words parts Hw _ IH]; [constructor|]. cbn [concat] in Hbytes.
      apply Forall_app in Hbytes as [H1 H2]. constructor; [by apply (spells_no_blank w p)|by apply IH].
  - unfold bpe_tokenize. rewrite Hwords. exact Hsplit.
Qed.

Lemma append_bos_eq out : append_bos v out = Ok (out ++ special_ids (v_add_bos v) (v_special_bos_id v)).
Proof using Hv.
  unfold append_bos, special_ids. pose proof (bv_bos _ Hv) as Hb. destruct (v_add_bos v); [|by rewrite app_nil_r].
  destruct (Z.eqb_spec (v_special_bos_id v) LLAMA_TOKEN_NULL); [by specialize (Hb eq_refl)|done].
Qed.

Lemma append_eos_eq out : append_eos v out = Ok (out ++ special_ids (v_add_eos v) (v_special_eos_id v)).
Proof using Hv.
  unfold append_eos, special_ids. pose proof (bv_eos _ Hv) as Hb. destruct (v_add_eos v); [|by rewrite app_nil_r].
  destruct (Z.eqb_spec (v_special_eos_id v) LLAMA_TOKEN_NULL); [by specialize (Hb eq_refl)|done].
Qed.

Lemma bpe_text_tokens cps text exprs add_special parse_special :
  utf8_text cps text -> text <> [] -> Forall (Forall byte_ok) exprs -> plain_spelling text ->
  (forall d, looks_for v parse_special d -> find_sub (t_text d) text = None) ->
  may_throw (tokenize v (Some (TokenizerBpe exprs)) text add_special parse_special) (fun r => exists ids,
    r = special_ids (add_special && v_add_bos v) (v_special_bos_id v) ++ ids ++
        special_ids (add_special && v_add_eos v) (v_special_eos_id v) /\ emits v special ids text /\ ids <> []).
Proof using All.
  intros Htxt Hne Hes Hplain Hfree. unfold tokenize.
  rewrite one_fragment by (rewrite ?(bv_type _ Hv); done || apply Hv). cbn [mbind res_bind]. rewrite (bv_type _ Hv).
  assert (Hbos : (if add_special then append_bos v [] else mret []) =
    Ok (special_ids (add_special && v_add_bos v) (v_special_bos_id v))).
  { destruct add_special; [by rewrite append_bos_eq|done]. }
  rewrite Hbos. cbn [mbind res_bind]. set (start := special_ids _ _) at 1.
  unfold tokenize_fragments. cbn [foldM]. rewrite substr_all.
  pose proof (bpe_session_spells cps text exprs start Htxt Hes Hplain) as Hs.
  destruct (bpe_tokenize v exprs text start) as [r|err]; [|exact Hs]. destruct Hs as (ids & -> & He). cbn [mbind res_bind mret res_ret].
  assert (Heos : (if add_special then append_eos v (start ++ ids) else mret (start ++ ids)) =
    Ok (start ++ ids ++ special_ids (add_special && v_add_eos v) (v_special_eos_id v))).
  { destruct add_special; [by rewrite append_eos_eq, <- app_assoc|cbn; by rewrite app_nil_r]. }
  rewrite Heos. cbn [post]. exists ids. split; [done|]. split; [done|]. intros ->.
  destruct He as (ps & Hps & Hcat & _). by apply Forall2_nil_inv_l in Hps as ->.
Qed.
End bpe_text.

(** * Property *)

(** C26. BPE round trip: for every UTF-8 text that names no special token, whatever the
    regular expressions match and whatever order the work queue keeps, tokenising
    either throws the regular expression engine's exception or gives tokens that
    detokenising turns into the text, byte for byte, with and without the special
    tokens; nothing is dropped. *)
Theorem bpe_roundtrip `{CppHeapLaws} {D : UnicodeData} {R : RegexEngine} {RL : RegexEngineLaws R}
    (v : llama_vocab) (cps : list Z) (text : bytes) (exprs : list bytes) (parse_special special : bool) (capacity max : Z) :
  bpe_text_vocab v -> v_clean_spaces v = false -> utf8_text cps text -> text <> [] ->
  Forall (Forall byte_ok) exprs -> plain_spelling v text ->
  (forall d, looks_for v parse_special d -> find_sub (t_text d) text = None) ->
  zlen text <= max <= INT32_MAX -> 0 <= capacity ->
  may_throw (tokenize v (Some (TokenizerBpe exprs)) text false parse_special)
    (fun ids => detokenize_string capacity v true ids special = Ok text) /\
  may_throw (tokenize v (Some (TokenizerBpe exprs)) text true parse_special)
    (fun ids => detokenize v true ids max true special = Ok (zlen text, text)).
Proof.
  intros Hv Hclean Htxt Hne Hes Hplain Hfree Hmax Hcap. pose proof (zlen_nonneg text) as Hz.
  assert (Hnone : v_type v <> VOCAB_NONE /\ v_type v <> VOCAB_RWKV) by (rewrite (bv_type _ Hv); split; discriminate).
  destruct Hnone as [Hn1 Hn2]. pose proof (bv_space _ Hv) as Hspace. split.
  - eapply post_mono; [by apply (bpe_text_tokens v special Hv cps text exprs false parse_special)| |done].
    intros r (ids & -> & He & _). cbn [andb special_ids app]. rewrite app_nil_r.
    apply emits_raw_text in He. rewrite Hspace in He. cbn [andb] in He.
    rewrite (detokenize_string_eq capacity v special ids text) by (done || (by left) || lia). unfold cleaned. by rewrite Hclean.
  - eapply post_mono; [by apply (bpe_text_tokens v special Hv cps text exprs true parse_special)| |done].
    intros r (ids & -> & He & Hine). cbn [andb]. apply emits_raw_text_special in He; [|done]. rewrite Hspace in He. cbn [andb] in He.
    unfold special_ids. rewrite (detokenize_eq v true special _ text) by (done || (by left) || lia).
    destruct (Z.ltb_spec max (zlen text)); [lia|]. unfold cleaned. by rewrite Hclean.
Qed.

(** A byte-level vocabulary with the whole alphabet. *)
Definition alphabet : list bytes :=
  match mapM unicode_byte_to_utf8 (zseq 0 256) with Ok us => us | Err _ => [] end.

Definition full_bpe_texts : list bytes := alphabet ++ [str "he"; str "ll"; byte_space ++ str "he"; str "llo"].

Definition full_bpe_tokens : list token_data :=
  ((fun t => mk_token t (float_of_Z 0) ATTR_NORMAL) <$> full_bpe_texts) ++ [mk_token (str "<|end|>") (float_of_Z 0) ATTR_CONTROL].

Definition full_bpe_vocab : llama_vocab :=
  mk_vocab VOCAB_BPE 7 260 260 (-1) (-1) false true true false false false false false
    (index_tokens full_bpe_tokens) full_bpe_tokens [260] []
    (list_to_map (imap (fun i m => (m, Z.of_nat i)) demo_bpe_merges)) {[260]}.

Lemma full_bpe_texts_ok :
  map_Forall (fun t id => exists d, zlookup (v_id_to_token full_bpe_vocab) id = Some d /\ t_text d = t) (v_token_to_id full_bpe_vocab).
Proof.
  assert (H : map_Forall (fun t id => (fun d => t_text d) <$> zlookup (v_id_to_token full_bpe_vocab) id = Some t)
    (v_token_to_id full_bpe_vocab)) by map_forall_decide.
  intros t id Hid. specialize (H t id Hid). cbn beta in H. destruct (zlookup _ id) as [d|]; [|discriminate H].
  injection H as H. exists d. split; [reflexivity|exact H].
Qed.

Lemma full_bpe_alphabet b u : byte_ok b -> unicode_byte_to_utf8 b = Ok u -> is_Some (v_token_to_id full_bpe_vocab !! u).
Proof.
  intros Hb Hu.
  assert (H : match unicode_byte_to_utf8 b with Ok u => bool_decide (is_Some (v_token_to_id full_bpe_vocab !! u)) | Err _ => false end = true).
  { apply (zseq_forallb (fun b => match unicode_byte_to_utf8 b with
      | Ok u => bool_decide (is_Some (v_token_to_id full_bpe_vocab !! u)) | Err _ => false end) 0 256);
      [vm_compute; reflexivity|unfold byte_ok in Hb; lia]. }
  rewrite Hu in H. apply bool_decide_eq_true in H. exact H.
Qed.

Lemma full_bpe_text : bpe_text_vocab full_bpe_vocab.
Proof.
  split; [reflexivity|apply full_bpe_texts_ok|apply full_bpe_alphabet|map_forall_decide|apply cache_agrees_nil; reflexivity|reflexivity| |discriminate|discriminate].
  repeat constructor. eexists. split; [vm_compute; reflexivity|discriminate].
Qed.

(** "he hello": the tokens "he", " he" and "llo" between two ends. *)
Lemma bpe_roundtrip_witness :
  @tokenize scan_heap ascii_data silent_engine full_bpe_vocab (Some (TokenizerBpe [regex_gpt2])) (str "he hello") true true =
    Ok [260; 256; 258; 259; 260] /\
  may_throw (@tokenize scan_heap ascii_data silent_engine full_bpe_vocab (Some (TokenizerBpe [regex_gpt2])) (str "he hello") true true)
    (fun ids => detokenize full_bpe_vocab true ids 100 true true = Ok (8, str "he hello")).
Proof.
  split; [vm_compute; reflexivity|].
  apply (@bpe_roundtrip scan_heap scan_heap_laws ascii_data silent_engine silent_engine_laws full_bpe_vocab
    [104; 101; 32; 104; 101; 108; 108; 111] (str "he hello") [regex_gpt2] true true 15 100 full_bpe_text).
  - reflexivity.
  - exists [[104]; [101]; [32]; [104]; [101]; [108]; [108]; [111]]. split; [|reflexivity].
    repeat constructor; discriminate.
  - discriminate.
  - apply (bool_decide_unpack _). vm_compute. exact I.
  - exists (str "he" ++ byte_space ++ str "hello"). split.
    + exists [[104]; [101]; byte_space; [104]; [101]; [108]; [108]; [111]]. split; vm_compute; reflexivity.
    + assert (H : map_Forall (fun t id => find_sub t (str "he" ++ byte_space ++ str "hello") = None \/
        t_attr <$> zlookup (v_id_to_token full_bpe_vocab) id = Some ATTR_NORMAL) (v_token_to_id full_bpe_vocab)) by map_forall_decide.
      intros t id d Hid Hd Hf. destruct (H t id Hid) as [E|E]; [contradiction|]. rewrite Hd in E. injection E as E. exact E.
  - intros d (id & Hid & Hd & _).
    assert (H : Forall (fun id => match zlookup (v_id_to_token full_bpe_vocab) id with
      | Some d => find_sub (t_text d) (str "he hello") = None | None => True end) (v_cache_special_tokens full_bpe_vocab)).
    { apply Forall_singleton. vm_compute. reflexivity. }
    rewrite Forall_forall in H. specialize (H id Hid). cbn beta in H. rewrite Hd in H. exact H.
  - vm_compute. split; congruence.
  - discriminate.
Defined.
