(* ===== verification/PreTypes.v ===== *)
(** Pre-tokeniser types ([include/llama.h], [src/llama-vocab.cpp]): the settings that
    a type's name in a model file selects, and the regular expressions of each type. *)
From S2P Require Import Prelude Unicode UnicodeSplit.

(** [llama_vocab_pre_type] *)
Inductive pre_type : Type :=
| PRE_DEFAULT
| PRE_LLAMA3
| PRE_DEEPSEEK_LLM
| PRE_DEEPSEEK_CODER
| PRE_FALCON
| PRE_MPT
| PRE_STARCODER
| PRE_GPT2
| PRE_REFACT
| PRE_COMMAND_R
| PRE_STABLELM2
| PRE_QWEN2
| PRE_OLMO
| PRE_DBRX
| PRE_SMAUG
| PRE_PORO
| PRE_CHATGLM3
| PRE_CHATGLM4
| PRE_VIKING
| PRE_JAIS
| PRE_TEKKEN
| PRE_SMOLLM
| PRE_CODESHELL
| PRE_BLOOM
| PRE_GPT3_FINNISH
| PRE_EXAONE
| PRE_CHAMELEON
| PRE_MINERVA
| PRE_DEEPSEEK3_LLM.

#[export] Instance pre_type_eq_dec : EqDecision pre_type.
Proof. solve_decision. Defined.

(** ** Expressions *)

(** [llm_tokenizer_bpe::regex_exprs]; the two expressions with a hand-written
    splitter have names of their own. *)
Definition bpe_regex_exprs (t : pre_type) : list bytes :=
  match t with
  | PRE_LLAMA3 =>
      [regex_llama3_cased]
  | PRE_DBRX | PRE_SMAUG =>
      [regex_llama3_cased]
  | PRE_DEEPSEEK_LLM =>
      [str "[" ++ [13] ++ [10] ++ str "]";
       str "\s?[A-Za-zµÀ-ÖØ-öø-ƺƼ-ƿǄ-ʓʕ-ʯͰ-ͳͶͷͻ-ͽͿΆΈ-ΊΌΎ-ΡΣ-ϵϷ-ҁҊ-ԯԱ-ՖႠ-ჅᎠ-Ᏽᏸ-ᏽᲐ-ᲺᲽ-Ჿᴀ-ᴫᵫ-ᵷᵹ-ᶚḀ-ἕἘ-Ἕἠ-ὅὈ-Ὅὐ-ὗὙὛὝὟ-ώᾀ-ᾴᾶ-ᾼιῂ-ῄῆ-ῌῐ-ΐῖ-Ίῠ-Ῥῲ-ῴῶ-ῼℂℇℊ-ℓℕℙ-ℝℤΩℨK-ℭℯ-ℴℹℼ-ℿⅅ-ⅉⅎↃↄⰀ-ⱻⱾ-ⳤⳫ-ⳮⳲⳳꙀ-ꙭꚀ-ꚛꜢ-ꝯꝱ-ꞇꞋ-ꞎꭰ-ꮿﬀ-ﬆﬓ-ﬗＡ-Ｚａ-ｚ𐐀-𐑏𐒰-𐓓𐓘-𐓻𐲀-𐲲𐳀-𐳲𑢠-𑣟𞤀-𞥃]+";
       str "\s?[!-/:-~！-／：-～‘-‟" ++ [227; 128; 128] ++ str "-。]+";
       str "\s+$";
       str "[一-龥ࠀ-一가-퟿]+";
       str "\p{N}+"]
  | PRE_DEEPSEEK3_LLM =>
      [str "\p{N}{1,3}";
       str "[一-龥぀-ゟ゠-ヿ]+";
       str "[!" ++ [34] ++ str "#$%&'()*+,\-./:;<=>?@\[\\\]^_`{|}~][A-Za-z]+|[^" ++ [13] ++ [10] ++ str "\p{L}\p{P}\p{S}]?[\p{L}\p{M}]+| ?[\p{P}\p{S}]+[" ++ [13] ++ [10] ++ str "]*|\s*[" ++ [13] ++ [10] ++ str "]+|\s+(?!\S)|\s+"]
  | PRE_DEEPSEEK_CODER =>
      [str "[" ++ [13] ++ [10] ++ str "]";
       str "\s?\p{L}+";
       str "\s?\p{P}+";
       str "[一-龥ࠀ-一가-퟿]+";
       str "\p{N}"]
  | PRE_FALCON =>
      [str "[\p{P}\$\+<=>\^~\|`]+";
       regex_gpt2;
       str "[0-9][0-9][0-9]"]
  | PRE_STARCODER | PRE_REFACT | PRE_COMMAND_R | PRE_SMOLLM | PRE_CODESHELL | PRE_EXAONE | PRE_MINERVA =>
      [str "\p{N}";
       regex_gpt2]
  | PRE_GPT2 | PRE_MPT | PRE_OLMO | PRE_JAIS =>
      [regex_gpt2]
  | PRE_STABLELM2 | PRE_QWEN2 =>
      [str "(?:'[sS]|'[tT]|'[rR][eE]|'[vV][eE]|'[mM]|'[lL][lL]|'[dD])|[^\r\n\p{L}\p{N}]?\p{L}+|\p{N}| ?[^\s\p{L}\p{N}]+[\r\n]*|\s*[\r\n]+|\s+(?!\S)|\s+"]
  | PRE_PORO | PRE_BLOOM | PRE_GPT3_FINNISH =>
      [str " ?[^(\s|.,!?…。，、।۔،)]+"]
  | PRE_CHATGLM4 =>
      [regex_llama3_cased]
  | PRE_VIKING =>
      [str " ?[^(\s|.,!?…。，、।۔،)]+";
       str "\p{N}"]
  | PRE_TEKKEN =>
      [str "[^\r\n\p{L}\p{N}]?((?=[\p{L}])([^a-z]))*((?=[\p{L}])([^A-Z]))+|[^\r\n\p{L}\p{N}]?((?=[\p{L}])([^a-z]))+((?=[\p{L}])([^A-Z]))*|\p{N}| ?[^\s\p{L}\p{N}]+[\r\n/]*|\s*[\r\n]+|\s+(?!\S)|\s+"]
  | PRE_CHAMELEON =>
      [str "<sentinel:[0-9]+>";
       str "(IMGIMG)((A|B|C|D|E|F|G|H|I){1,4})Z";
       str "([\t\n]|    |  )";
       str "\p{N}";
       str "[\p{P}!-/:-@\[-`{-~]";
       regex_gpt2]
  | _ =>
      [str "[\p{P}\$\+<=>\^~\|]+";
       regex_gpt2;
       str "\p{N}+";
       str "[0-9][0-9][0-9]"]
  end.

(** ** Names *)

(** [s == "a" || s == "b" || ...] *)
Definition one_of (s : bytes) (names : list string) : bool := existsb (fun n => bool_decide (s = str n)) names.

(** What a name of a pre-tokeniser sets: the type, [clean_spaces], [ignore_merges] and
    [add_bos], and whether the BOS token is reset. *)
Record pre_settings : Type := mk_pre {
  ps_type          : pre_type;
  ps_clean_spaces  : bool;
  ps_ignore_merges : bool;
  ps_add_bos       : bool;
  ps_no_bos        : bool
}.

Definition pre_settings_of (pre : bytes) : res pre_settings :=
  if bool_decide (pre = []) then Ok (mk_pre PRE_DEFAULT true false false false)
  else if one_of pre ["default"] then
    Ok (mk_pre PRE_DEFAULT true false false false)
  else if one_of pre ["llama3"; "llama-v3"; "llama-bpe"; "falcon3"] then
    Ok (mk_pre PRE_LLAMA3 true true true false)
  else if one_of pre ["deepseek-llm"] then
    Ok (mk_pre PRE_DEEPSEEK_LLM false false false false)
  else if one_of pre ["deepseek-coder"] then
    Ok (mk_pre PRE_DEEPSEEK_CODER false false false false)
  else if one_of pre ["deepseek-v3"] then
    Ok (mk_pre PRE_DEEPSEEK3_LLM false false false false)
  else if one_of pre ["falcon"] then
    Ok (mk_pre PRE_FALCON true false false false)
  else if one_of pre ["mpt"] then
    Ok (mk_pre PRE_MPT true false false false)
  else if one_of pre ["starcoder"] then
    Ok (mk_pre PRE_STARCODER true false false false)
  else if one_of pre ["gpt-2"; "phi-2"; "jina-es"; "jina-de"; "gigachat"; "jina-v1-en"; "jina-v2-es"; "jina-v2-de"; "jina-v2-code"; "roberta-bpe"] then
    Ok (mk_pre PRE_GPT2 true false false false)
  else if one_of pre ["refact"] then
    Ok (mk_pre PRE_REFACT true false false false)
  else if one_of pre ["command-r"] then
    Ok (mk_pre PRE_COMMAND_R false false false false)
  else if one_of pre ["qwen2"; "deepseek-r1-qwen"] then
    Ok (mk_pre PRE_QWEN2 false false false false)
  else if one_of pre ["stablelm2"] then
    Ok (mk_pre PRE_STABLELM2 true false false false)
  else if one_of pre ["olmo"] then
    Ok (mk_pre PRE_OLMO true false false false)
  else if one_of pre ["dbrx"] then
    Ok (mk_pre PRE_DBRX true false false false)
  else if one_of pre ["smaug-bpe"] then
    Ok (mk_pre PRE_SMAUG true false false false)
  else if one_of pre ["poro-chat"] then
    Ok (mk_pre PRE_PORO false false false false)
  else if one_of pre ["chatglm-bpe"] then
    Ok (mk_pre PRE_CHATGLM4 true false false true)
  else if one_of pre ["viking"] then
    Ok (mk_pre PRE_VIKING false false false false)
  else if one_of pre ["jais"] then
    Ok (mk_pre PRE_JAIS true false false false)
  else if one_of pre ["tekken"] then
    Ok (mk_pre PRE_TEKKEN false true true false)
  else if one_of pre ["smollm"] then
    Ok (mk_pre PRE_SMOLLM false false false false)
  else if one_of pre ["codeshell"] then
    Ok (mk_pre PRE_CODESHELL true false false false)
  else if one_of pre ["bloom"] then
    Ok (mk_pre PRE_BLOOM true false false false)
  else if one_of pre ["gpt3-finnish"] then
    Ok (mk_pre PRE_GPT3_FINNISH true false false false)
  else if one_of pre ["exaone"] then
    Ok (mk_pre PRE_EXAONE true false false false)
  else if one_of pre ["chameleon"] then
    Ok (mk_pre PRE_CHAMELEON false false true false)
  else if one_of pre ["minerva-7b"] then
    Ok (mk_pre PRE_MINERVA true false false false)
  else if one_of pre ["megrez"] then
    Ok (mk_pre PRE_QWEN2 true false false false)
  else throw "unknown pre-tokenizer type".

(** * Facts *)

Lemma one_of_spec s names : one_of s names = true <-> exists n, n ∈ names /\ s = str n.
Proof.
  unfold one_of. rewrite existsb_exists. split.
  - intros (n & Hn & E%bool_decide_eq_true). exists n. by rewrite list_elem_of_In.
  - intros (n & Hn & ->). exists n. rewrite <- list_elem_of_In. split; [done|]. by apply bool_decide_eq_true.
Qed.

(** All expressions are byte strings. *)
Lemma bpe_regex_exprs_bytes t : Forall (Forall byte_ok) (bpe_regex_exprs t).
Proof.
  assert (forallb (forallb (fun b => (0 <=? b) && (b <? 256))) (bpe_regex_exprs t) = true) as H by (by destruct t; vm_compute).
  rewrite Forall_forall. intros e He. rewrite Forall_forall. intros b Hb.
  rewrite forallb_forall in H. specialize (H e ltac:(by apply list_elem_of_In)). rewrite forallb_forall in H.
  specialize (H b ltac:(by apply list_elem_of_In)). unfold byte_ok. lia.
Qed.
