(* ===== verification/VocabLoad.v ===== *)
(** Loading a vocabulary ([src/llama-vocab.cpp], [llama_vocab::impl::load]): the
    settings of the tokeniser, the tokens, the special tokens, the end-of-generation
    tokens, the caches and the attributes that depend on a model's name. The model
    file enters as the record of the keys that loading reads. *)
From stdpp Require Import pretty.
From S2P Require Import Prelude Unicode UnicodeSplit Vocab Merge Spm Bpe Trie Wpm Ugm Tokenize PreTypes.

(** * The keys of a model file *)

(** The special tokens that have an id. *)
Inductive special_slot : Type :=
| BOS | EOS | EOT | EOM | UNK | SEP | PAD | MASK
| FIM_PRE | FIM_SUF | FIM_MID | FIM_PAD | FIM_REP | FIM_SEP.

#[export] Instance special_slot_eq_dec : EqDecision special_slot.
Proof. solve_decision. Defined.

(** The keys that name one; the last three are deprecated. *)
Inductive special_key : Type :=
| KEY (s : special_slot)
| PREFIX_ID | SUFFIX_ID | MIDDLE_ID.

Record vocab_file : Type := mk_file {
  vf_model            : option bytes;
  vf_pre              : option bytes;
  vf_merges           : option (list bytes);
  vf_charsmap         : option bytes;
  vf_add_prefix       : option bool;
  vf_remove_extra_ws  : option bool;
  vf_vocab_size       : option Z;
  vf_tokens           : option (list bytes);
  vf_scores           : option (list float);
  vf_token_types      : option (list Z);
  vf_ids              : special_key -> option Z;
  vf_add_bos          : option bool;
  vf_add_eos          : option bool;
  vf_name             : option bytes
}.

(** The order in which a loop visits the elements of a [std::unordered_map]. *)
Class CppHashOrder : Type := hash_order : gmap bytes Z -> list (bytes * Z).

Class CppHashOrderLaws `{CppHashOrder} : Prop :=
  hash_order_perm : forall m, hash_order m ≡ₚ map_to_list m.

(** * Settings *)

Definition slot_ids : Type := special_slot -> Z.

Definition set_id (ids : slot_ids) (s : special_slot) (id : Z) : slot_ids :=
  fun s' => if decide (s' = s) then id else ids s'.

Record vocab_config : Type := mk_config {
  vc_type             : llama_vocab_type;
  vc_pre              : pre_type;
  vc_ids              : slot_ids;
  vc_ranks            : gmap (bytes * bytes) Z;
  vc_charsmap         : bytes;
  vc_add_space_prefix : bool;
  vc_clean_spaces     : bool;
  vc_add_bos          : bool;
  vc_add_eos          : bool;
  vc_ignore_merges    : bool;
  vc_remove_extra_ws  : bool
}.

(** The two parts of a merge; both stay empty if there is no space behind the first
    byte. *)
Definition split_merge (word : bytes) : bytes * bytes :=
  match string_find word [32] 1 with
  | Some pos => (take pos word, drop (S pos) word)
  | None => ([], [])
  end.

(** [bpe_ranks.emplace(...)] of every merge: an earlier one stays. *)
Definition load_ranks (merges : list bytes) : gmap (bytes * bytes) Z :=
  list_to_map (imap (fun i word => (split_merge word, Z.of_nat i)) merges).

(** The default ids of each model of tokenisers. *)
Definition ids_spm : slot_ids :=
  fun s => match s with BOS => 1 | EOS => 2 | UNK => 0 | _ => LLAMA_TOKEN_NULL end.
Definition ids_wpm : slot_ids :=
  fun s => match s with BOS => 101 | UNK => 100 | SEP => 102 | PAD => 0 | MASK => 103 | _ => LLAMA_TOKEN_NULL end.
Definition ids_bpe : slot_ids :=
  fun s => match s with BOS => 11 | EOS => 11 | _ => LLAMA_TOKEN_NULL end.
Definition ids_ugm : slot_ids :=
  fun s => match s with EOS => 1 | UNK => 2 | PAD => 0 | _ => LLAMA_TOKEN_NULL end.
Definition ids_none : slot_ids := fun _ => LLAMA_TOKEN_NULL.

(** The settings by the name of the tokeniser's model. *)
Definition model_config (f : vocab_file) (tokenizer_model : bytes) : res vocab_config :=
  let config type ids ranks charsmap :=
    mk_config type PRE_DEFAULT ids ranks charsmap false false false false false false in
  if one_of tokenizer_model ["llama"] then mret (config VOCAB_SPM ids_spm ∅ [])
  else if one_of tokenizer_model ["bert"] then mret (config VOCAB_WPM ids_wpm ∅ [])
  else if one_of tokenizer_model ["gpt2"] then
    match vf_merges f with
    | None => throw "cannot find tokenizer merges in model file"
    | Some merges => mret (config VOCAB_BPE ids_bpe (load_ranks merges) [])
    end
  else if one_of tokenizer_model ["t5"] then mret (config VOCAB_UGM ids_ugm ∅ (default [] (vf_charsmap f)))
  else if one_of tokenizer_model ["rwkv"] then mret (config VOCAB_RWKV ids_none ∅ [])
  else throw "unknown tokenizer".

(** The flags of each type, and those of the pre-tokeniser. *)
Definition type_config (tokenizer_pre : bytes) (c : vocab_config) : res vocab_config :=
  let '(mk_config type _ ids ranks charsmap prefix clean bos eos ignore ws) := c in
  match type with
  | VOCAB_BPE =>
      p ← pre_settings_of tokenizer_pre;
      mret (mk_config type (ps_type p) (if ps_no_bos p then set_id ids BOS LLAMA_TOKEN_NULL else ids) ranks charsmap
              false (ps_clean_spaces p) (ps_add_bos p) eos (ps_ignore_merges p) ws)
  | VOCAB_SPM => mret (mk_config type PRE_DEFAULT ids ranks charsmap true false true false ignore ws)
  | VOCAB_WPM => mret (mk_config type PRE_DEFAULT ids ranks charsmap false true true false ignore ws)
  | VOCAB_UGM => mret (mk_config type PRE_DEFAULT ids ranks charsmap prefix clean false true ignore ws)
  | VOCAB_RWKV => mret (mk_config type PRE_DEFAULT ids ranks charsmap false false false false ignore ws)
  | VOCAB_NONE => mret (mk_config type PRE_DEFAULT ids ranks charsmap prefix clean bos eos ignore ws)
  end.

(** The keys that override them. *)
Definition file_config (f : vocab_file) (c : vocab_config) : vocab_config :=
  let '(mk_config type pre ids ranks charsmap prefix clean bos eos ignore ws) := c in
  mk_config type pre ids ranks charsmap (default prefix (vf_add_prefix f)) clean bos eos ignore
    (default ws (vf_remove_extra_ws f)).

Definition load_config (f : vocab_file) (tokenizer_model : bytes) : res vocab_config :=
  c ← model_config f tokenizer_model;
  c ← type_config (default [] (vf_pre f)) c;
  mret (file_config f c).

(** * Tokens *)

(** The attribute of a token's type in the file. *)
Definition attr_of_type (t : Z) : Z :=
  if t =? 2 then ATTR_UNKNOWN
  else if t =? 5 then ATTR_UNUSED
  else if t =? 1 then ATTR_NORMAL
  else if t =? 3 then ATTR_CONTROL
  else if t =? 4 then ATTR_USER_DEFINED
  else if t =? 6 then ATTR_BYTE
  else 0.

(** The name of an empty token: [EMPTY_i]. *)
Definition empty_name (i : Z) : bytes := str "[EMPTY_" ++ str (pretty (Z.to_N i)) ++ str "]".

(** The tables while the tokens are read; the arrays of scores and types are read
    through a pointer, without a check of their length. *)
Record tables : Type := mk_tables {
  tb_token_to_id   : gmap bytes Z;
  tb_id_to_token   : list token_data;
  tb_max_token_len : Z
}.

Definition load_token (f : vocab_file) (st : tables * Z) (word : bytes) : res (tables * Z) :=
  let '(mk_tables t2i i2t max_len, i) := st in
  let word := if bool_decide (word = []) then empty_name i else word in
  score ← (match vf_scores f with Some scores => vget scores i | None => mret (float_of_Z 0) end);
  attr ← (match vf_token_types f with
          | Some toktypes => t ← vget toktypes i; mret (attr_of_type t)
          | None => mret ATTR_NORMAL
          end);
  mret (mk_tables (<[word := i]> t2i) (i2t ++ [mk_token word score attr]) (Z.max max_len (zlen word)), i + 1).

Definition load_tokens (f : vocab_file) : res tables :=
  match vf_tokens f with
  | None => throw "cannot find tokenizer vocab in model file"
  | Some words =>
      st ← foldM (load_token f) (mk_tables ∅ [] 0, 0) words;
      let t := st.1 in
      ggml_assert (zlen (tb_id_to_token t) =? Z.of_nat (size (tb_token_to_id t)));;
      mret t
  end.

(** * The special tokens *)

(** The vocabulary in the making. *)
Record loading : Type := mk_loading {
  lg_config : vocab_config;
  lg_tables : tables;
  lg_special_tokens : list Z;
  lg_pieces : list bytes;
  lg_eog : gset Z
}.

(** As the operations of the vocabulary see it. *)
Definition as_vocab (l : loading) : llama_vocab :=
  let c := lg_config l in
  let t := lg_tables l in
  mk_vocab (vc_type c) (tb_max_token_len t) (vc_ids c BOS) (vc_ids c EOS) (vc_ids c UNK) (vc_ids c SEP)
    (vc_add_space_prefix c) (vc_add_bos c) (vc_add_eos c) (vc_ignore_merges c) (vc_clean_spaces c)
    (vc_remove_extra_ws c) true false (tb_token_to_id t) (tb_id_to_token t) (lg_special_tokens l) (lg_pieces l)
    (vc_ranks c) (lg_eog l).

Definition set_config (l : loading) (c : vocab_config) : loading :=
  mk_loading c (lg_tables l) (lg_special_tokens l) (lg_pieces l) (lg_eog l).

Definition set_tokens (l : loading) (i2t : list token_data) : loading :=
  mk_loading (lg_config l) (mk_tables (tb_token_to_id (lg_tables l)) i2t (tb_max_token_len (lg_tables l)))
    (lg_special_tokens l) (lg_pieces l) (lg_eog l).

Definition with_ids (c : vocab_config) (ids : slot_ids) : vocab_config :=
  let '(mk_config type pre _ ranks charsmap prefix clean bos eos ignore ws) := c in
  mk_config type pre ids ranks charsmap prefix clean bos eos ignore ws.

(** [{ LLM_KV_TOKENIZER_BOS_ID, special_bos_id }, ...] *)
Definition special_token_types : list (special_key * special_slot) :=
  ((fun s => (KEY s, s)) <$>
    [BOS; EOS; EOT; EOM; UNK; SEP; PAD; MASK; FIM_PRE; FIM_SUF; FIM_MID; FIM_PAD; FIM_REP; FIM_SEP]) ++
  [(PREFIX_ID, FIM_PRE); (SUFFIX_ID, FIM_SUF); (MIDDLE_ID, FIM_MID)].

(** An id of the file counts if it is one of a token. *)
Definition read_ids (f : vocab_file) (n_tokens : Z) (ids : slot_ids) : slot_ids :=
  fold_left (fun ids '(key, slot) =>
    match vf_ids f key with
    | None => ids
    | Some new_id => if n_tokens <=? new_id then ids else set_id ids slot (i32 new_id)
    end) special_token_types ids.

Definition read_flags (f : vocab_file) (c : vocab_config) : vocab_config :=
  let '(mk_config type pre ids ranks charsmap prefix clean bos eos ignore ws) := c in
  mk_config type pre ids ranks charsmap prefix clean (default bos (vf_add_bos f)) (default eos (vf_add_eos f)) ignore ws.

(** ** Detection by text *)

Definition eot_names : list string :=
  ["<|eot_id|>"; "<|im_end|>"; "<|end|>"; "<end_of_turn>"; "<|endoftext|>"; "<EOT>"; "<｜end▁of▁sentence｜>"].
Definition eom_names : list string := ["<|eom_id|>"].
Definition fim_pre_names : list string := ["<|fim_prefix|>"; "<fim-prefix>"; "<｜fim▁begin｜>"; "<PRE>"].
Definition fim_suf_names : list string := ["<|fim_suffix|>"; "<fim-suffix>"; "<｜fim▁hole｜>"; "<SUF>"].
Definition fim_mid_names : list string := ["<|fim_middle|>"; "<fim-middle>"; "<｜fim▁end｜>"; "<MID>"].
Definition fim_pad_names : list string := ["<|fim_pad|>"; "<fim-pad>"; "<PAD>"].
Definition fim_rep_names : list string := ["<|fim_repo|>"; "<|repo_name|>"; "<fim-repo>"; "<REPO>"].
Definition fim_sep_names : list string := ["<|file_sep|>"].

(** The tests of the loop's body, in its order. *)
Definition detections : list (special_slot * list string) :=
  [(EOT, eot_names); (EOM, eom_names); (FIM_PRE, fim_pre_names); (FIM_SUF, fim_suf_names);
   (FIM_MID, fim_mid_names); (FIM_PAD, fim_pad_names); (FIM_REP, fim_rep_names); (FIM_SEP, fim_sep_names)].

(** A token that looks like a control token becomes one. *)
Definition make_control (i2t : list token_data) (id : Z) : res (list token_data) :=
  d ← vget i2t id;
  if has_attr (t_attr d) ATTR_CONTROL then mret i2t
  else vset i2t id (mk_token (t_text d) (t_score d) ATTR_CONTROL).

Definition detect (t : bytes * Z) (st : slot_ids * list token_data) (d : special_slot * list string) :
    res (slot_ids * list token_data) :=
  let '(ids, i2t) := st in
  if (ids d.1 =? LLAMA_TOKEN_NULL) && one_of t.1 d.2 then
    i2t ← make_control i2t t.2;
    mret (set_id ids d.1 t.2, i2t)
  else mret st.

Definition detect_all `{CppHashOrder} (t2i : gmap bytes Z) (st : slot_ids * list token_data) :
    res (slot_ids * list token_data) :=
  foldM (fun st t => foldM (detect t) st detections) st (hash_order t2i).

(** ** End of generation *)

Definition eog_names : list string :=
  ["<|eot_id|>"; "<|im_end|>"; "<|end|>"; "<end_of_turn>"; "<|endoftext|>"; "<|eom_id|>"; "<EOT>"].

Definition eog_step (st : gset Z * list token_data) (t : bytes * Z) : res (gset Z * list token_data) :=
  let '(eog, i2t) := st in
  if one_of t.1 eog_names then i2t ← make_control i2t t.2; mret ({[t.2]} ∪ eog, i2t) else mret st.

(** [special_eog_ids.insert(id)] of an id that is set. *)
Definition insert_id (ids : slot_ids) (eog : gset Z) (s : special_slot) : gset Z :=
  if ids s =? LLAMA_TOKEN_NULL then eog else {[ids s]} ∪ eog.

Definition find_eog `{CppHashOrder} (ids : slot_ids) (t2i : gmap bytes Z) (i2t : list token_data) :
    res (gset Z * list token_data) :=
  let eog := fold_left (insert_id ids) [FIM_PAD; FIM_REP; FIM_SEP] ∅ in
  st ← foldM eog_step (eog, i2t) (hash_order t2i);
  mret (fold_left (insert_id ids) [EOS; EOT; EOM] st.1, st.2).

(** * Attributes by name *)

(** [std::tolower] of the C locale. *)
Definition tolower (c : Z) : Z := if (65 <=? c) && (c <=? 90) then c + 32 else c.

Definition contains_any (s : bytes) (substrs : list string) : bool :=
  existsb (fun substr => bool_decide (is_Some (find_sub (str substr) s))) substrs.

Definition set_tokenid_attr (i2t : list token_data) (id attr : Z) (value : bool) : res (list token_data) :=
  d ← vec_at i2t id;
  let current := if value then Z.lor (t_attr d) attr else Z.land (t_attr d) (Z.lnot attr) in
  vset i2t id (mk_token (t_text d) (t_score d) current).

Definition set_token_attr (t2i : gmap bytes Z) (i2t : list token_data) (token : string) (attr : Z) (value : bool) :
    res (list token_data) :=
  id ← map_at t2i (str token);
  set_tokenid_attr i2t id attr value.

Definition name_attributes (f : vocab_file) (t2i : gmap bytes Z) (specials : list Z) (i2t : list token_data) :
    res (list token_data) :=
  let model_name := tolower <$> default [] (vf_name f) in
  let tokenizer_pre := default [] (vf_pre f) in
  if contains_any tokenizer_pre ["jina-v2-de"; "jina-v2-es"; "jina-v2-code"] then
    set_token_attr t2i i2t "<mask>" ATTR_LSTRIP true
  else if contains_any model_name ["phi-3"; "phi3"] then
    i2t ← foldM (fun i2t id => set_tokenid_attr i2t id ATTR_RSTRIP true) i2t specials;
    i2t ← foldM (fun i2t token => set_token_attr t2i i2t token ATTR_RSTRIP true) i2t ["</s>"%string];
    foldM (fun i2t token => set_token_attr t2i i2t token ATTR_RSTRIP false) i2t
      ["<unk>"%string; "<s>"%string; "<|endoftext|>"%string]
  else mret i2t.

(** * Loading *)

Section load.
Context `{CppHeap} `{CppSort} `{CppHashOrder} `{UnicodeData} `{RegexEngine}.

(** The token of a line feed; [capacity] below is that of an empty string. *)
Definition find_linefeed (v : llama_vocab) (tk : llm_tokenizer) (pad : Z) : res Z :=
  match v_type v with
  | VOCAB_SPM =>
      match byte_to_token v 10 with
      | Ok id => Ok id
      | Err (Throw _) => Ok pad
      | Err e => Err e
      end
  | VOCAB_WPM => mret pad
  | VOCAB_RWKV =>
      ids ← tokenize v (Some tk) [10] false false;
      match ids with id :: _ => mret id | [] => Err Abort end
  | _ =>
      ids ← tokenize v (Some tk) [10] false false;
      match ids with id :: _ => mret id | [] => mret pad end
  end.

(** A loaded vocabulary, with what [llama_vocab] does not keep. *)
Record loaded : Type := mk_loaded {
  ld_vocab     : llama_vocab;
  ld_tokenizer : option llm_tokenizer;
  ld_linefeed  : Z;
  ld_ids       : slot_ids
}.

(** The branch of a model without vocabulary. *)
Definition load_none (f : vocab_file) : loaded :=
  let n_tokens := default 0 (vf_vocab_size f) in
  let c := mk_config VOCAB_NONE PRE_DEFAULT ids_none ∅ [] false false false false false false in
  mk_loaded (as_vocab (mk_loading c (mk_tables ∅ (replicate (Z.to_nat n_tokens) (mk_token [] (float_of_Z 0) 0)) 0) [] [] ∅))
    None LLAMA_TOKEN_NULL ids_none.

(** The special tokens: ids, flags, detection and the end of generation. *)
Definition load_specials (f : vocab_file) (l : loading) : res loading :=
  let t2i := tb_token_to_id (lg_tables l) in
  let ids := read_ids f (zlen (tb_id_to_token (lg_tables l))) (vc_ids (lg_config l)) in
  let c := read_flags f (lg_config l) in
  st ← detect_all t2i (ids, tb_id_to_token (lg_tables l));
  eog ← find_eog st.1 t2i st.2;
  let l := set_tokens (set_config l (with_ids c st.1)) eog.2 in
  mret (mk_loading (lg_config l) (lg_tables l) (lg_special_tokens l) (lg_pieces l) eog.1).

(** The two caches. *)
Definition load_caches (capacity : Z) (l : loading) : res loading :=
  let specials := special_tokens_cache (as_vocab l) in
  let l := mk_loading (lg_config l) (lg_tables l) specials (lg_pieces l) (lg_eog l) in
  cache ← piece_cache capacity (as_vocab l);
  mret (mk_loading (lg_config l) (lg_tables l) specials cache (lg_eog l)).

Definition load (capacity : Z) (f : vocab_file) : res loaded :=
  match vf_model f with
  | None => throw "key not found in model"
  | Some tokenizer_model =>
      if one_of tokenizer_model ["no_vocab"; "none"] then mret (load_none f)
      else
        c ← load_config f tokenizer_model;
        t ← load_tokens f;
        let l := mk_loading c t [] [] ∅ in
        tk ← init_tokenizer (as_vocab l) (bpe_regex_exprs (vc_pre c)) (vc_charsmap c);
        linefeed ← find_linefeed (as_vocab l) tk (vc_ids c PAD);
        l ← load_specials f l;
        l ← load_caches capacity l;
        i2t ← name_attributes f (tb_token_to_id (lg_tables l)) (lg_special_tokens l) (tb_id_to_token (lg_tables l));
        let l := set_tokens l i2t in
        mret (mk_loaded (as_vocab l) (Some tk) linefeed (vc_ids (lg_config l)))
  end.
End load.
