(* ===== verification/VocabLoadSpec.v ===== *)
(** What loading a vocabulary establishes ([src/llama-vocab.cpp],
    [llama_vocab::impl::load]): the tables agree, the special tokens are found, the
    caches are right; and a sentence-piece model that is loaded gives texts back. *)
From stdpp Require Import pretty.
From S2P Require Import Prelude Unicode UnicodeSplit Vocab Merge Spm Bpe Trie Wpm Ugm Tokenize Partition Detok.
From S2P Require Import RoundTrip PreTypes VocabLoad.

(** * The tables *)

(** The two tables are inverse to each other, and no token is empty. *)
Record tables_ok (t2i : gmap bytes Z) (i2t : list token_data) : Prop := {
  to_texts : map_Forall (fun t id => exists d, zlookup i2t id = Some d /\ t_text d = t) t2i;
  to_ids : forall id d, zlookup i2t id = Some d -> t2i !! t_text d = Some id;
  to_nonempty : Forall (fun d => t_text d <> []) i2t
}.

(** The texts of the tokens, the empty ones named. *)
Definition named (i : nat) (word : bytes) : bytes := if bool_decide (word = []) then empty_name (Z.of_nat i) else word.

(** The arrays that are read through a pointer are long enough. *)
Definition arrays_ok (f : vocab_file) (n : nat) : Prop :=
  (forall scores, vf_scores f = Some scores -> (n <= length scores)%nat) /\
  (forall types, vf_token_types f = Some types -> (n <= length types)%nat).

Definition score_at (f : vocab_file) (i : nat) : float :=
  match vf_scores f with Some scores => default (float_of_Z 0) (scores !! i) | None => float_of_Z 0 end.
Definition attr_at (f : vocab_file) (i : nat) : Z :=
  match vf_token_types f with Some types => attr_of_type (default 0 (types !! i)) | None => ATTR_NORMAL end.

(** The tokens of the file. *)
Definition token_list (f : vocab_file) (words : list bytes) : list token_data :=
  imap (fun i w => mk_token (named i w) (score_at f i) (attr_at f i)) words.

(** The index, a later token in the place of an earlier one of the same text. *)
Definition index_of (texts : list bytes) : gmap bytes Z :=
  list_to_map (reverse (imap (fun i t => (t, Z.of_nat i)) texts)).

Lemma named_nonempty i w : named i w <> [].
Proof.
  unfold named. destruct (bool_decide_reflect (w = [])) as [E|E]; [|done]. unfold empty_name. intros H.
  by apply app_eq_nil in H as [H _].
Qed.

Lemma index_of_snoc texts t : index_of (texts ++ [t]) = <[t := Z.of_nat (length texts)]> (index_of texts).
Proof. unfold index_of. rewrite imap_app, reverse_app. cbn. by rewrite Nat.add_0_r. Qed.

Lemma load_token_spec f i w t2i i2t max :
  arrays_ok f (S i) ->
  load_token f (mk_tables t2i i2t max, Z.of_nat i) w =
    Ok (mk_tables (<[named i w := Z.of_nat i]> t2i) (i2t ++ [mk_token (named i w) (score_at f i) (attr_at f i)])
          (Z.max max (zlen (named i w))), Z.of_nat (S i)).
Proof.
  intros [Hs Ht]. unfold load_token. fold (named i w). unfold score_at, attr_at.
  assert (Hscore : (match vf_scores f with Some scores => vget scores (Z.of_nat i) | None => mret (float_of_Z 0) end) = Ok (score_at f i)).
  { unfold score_at. destruct (vf_scores f) as [scores|]; [|done]. specialize (Hs _ eq_refl).
    destruct (lookup_lt_is_Some_2 scores i) as (x & Hx); [lia|]. rewrite (vget_Some _ _ x) by (by rewrite zlookup_nat). by rewrite Hx. }
  rewrite Hscore. cbn [mbind res_bind].
  assert (Hattr : (match vf_token_types f with
     | Some toktypes => t ← vget toktypes (Z.of_nat i); mret (attr_of_type t) | None => mret ATTR_NORMAL end) = Ok (attr_at f i)).
  { unfold attr_at. destruct (vf_token_types f) as [types|]; [|done]. specialize (Ht _ eq_refl).
    destruct (lookup_lt_is_Some_2 types i) as (x & Hx); [lia|]. rewrite (vget_Some _ _ x) by (by rewrite zlookup_nat). by rewrite Hx. }
  rewrite Hattr. cbn [mbind res_bind mret res_ret]. do 3 f_equal. lia.
Qed.

Lemma token_list_snoc f words w :
  token_list f (words ++ [w]) =
    token_list f words ++ [mk_token (named (length words) w) (score_at f (length words)) (attr_at f (length words))].
Proof. unfold token_list. rewrite imap_app. cbn. by rewrite Nat.add_0_r. Qed.

Lemma load_tokens_loop f words :
  arrays_ok f (length words) ->
  exists max, foldM (load_token f) (mk_tables ∅ [] 0, 0) words =
    Ok (mk_tables (index_of (t_text <$> token_list f words)) (token_list f words) max, zlen words) /\
    Forall (fun d => zlen (t_text d) <= max) (token_list f words).
Proof.
  induction words as [|w words IH] using rev_ind; intros Ha; [by exists 0|].
  rewrite length_app in Ha. cbn [length] in Ha.
  destruct IH as (max & IH & Hmax); [destruct Ha as [H1 H2]; split; intros l Hl; [specialize (H1 _ Hl)|specialize (H2 _ Hl)]; lia|].
  rewrite foldM_app, IH. cbn [mbind res_bind foldM]. unfold zlen at 1.
  rewrite load_token_spec by (by rewrite Nat.add_1_r in Ha). cbn [mbind res_bind mret res_ret].
  eexists. rewrite token_list_snoc, fmap_app, zlen_app. cbn [fmap list_fmap t_text]. rewrite index_of_snoc.
  assert (length (t_text <$> token_list f words) = length words) as -> by (unfold token_list; by rewrite length_fmap, length_imap).
  split; [do 2 f_equal; unfold zlen; cbn; lia|]. apply Forall_app. split.
  - eapply Forall_impl; [done|]. cbn. lia.
  - apply Forall_singleton. cbn [t_text]. lia.
Qed.

Lemma index_of_Some texts t : is_Some (index_of texts !! t) <-> t ∈ texts.
Proof.
  induction texts as [|u texts IH] using rev_ind; [split; [by intros [? ?]|by intros ?%elem_of_nil]|].
  rewrite index_of_snoc, elem_of_app, list_elem_of_singleton. destruct (decide (t = u)) as [->|Hne].
  - rewrite lookup_insert_eq. split; [by right|by eexists].
  - rewrite lookup_insert_ne, IH by done. naive_solver.
Qed.

Lemma size_index_of texts :
  (size (index_of texts) <= length texts)%nat /\ (size (index_of texts) = length texts <-> NoDup texts).
Proof.
  induction texts as [|t texts [IH1 IH2]] using rev_ind; [split; [done|]; split; [constructor|done]|].
  rewrite index_of_snoc, length_app, NoDup_app. cbn [length].
  destruct (index_of texts !! t) as [i|] eqn:E.
  - rewrite map_size_insert_Some by (by eexists). split; [lia|]. split; [lia|].
    intros (_ & Hn & _). exfalso. apply (Hn t); [|by left]. apply index_of_Some. by eexists.
  - rewrite map_size_insert_None by done. split; [lia|]. split.
    + intros Hs. split; [apply IH2; lia|]. split; [|apply NoDup_singleton]. intros u Hu ->%list_elem_of_singleton.
      apply index_of_Some in Hu as [? Hu]. by rewrite E in Hu.
    + intros (Hn & _ & _). apply IH2 in Hn. lia.
Qed.

Lemma index_of_lookup texts t id :
  NoDup texts -> index_of texts !! t = Some id <-> zlookup texts id = Some t.
Proof.
  induction texts as [|u texts IH] using rev_ind; intros Hn.
  - split; [done|]. unfold zlookup. by destruct (0 <=? id).
  - apply NoDup_app in Hn as (Hn & Hu & _). rewrite index_of_snoc.
    assert (Hlook : forall id, zlookup (texts ++ [u]) id = Some t <-> zlookup texts id = Some t \/ (id = Z.of_nat (length texts) /\ t = u)).
    { intros k. unfold zlookup. destruct (Z.leb_spec 0 k); [|split; [done|intros [?|[-> ?]]; [done|lia]]].
      rewrite lookup_app_Some, list_lookup_singleton_Some. split.
      - intros [?|(H1 & H2 & ->)]; [by left|right]. split; [lia|done].
      - intros [?|[-> ->]]; [by left|right]. rewrite Nat2Z.id. split; [done|]. split; [lia|done]. }
    rewrite Hlook. destruct (decide (t = u)) as [->|Hne].
    + rewrite lookup_insert_eq. split.
      * intros [= <-]. right. split; reflexivity.
      * intros [Hl|[-> _]]; [|reflexivity]. exfalso. apply (Hu u); [|by left]. apply elem_of_zlookup. exists id. split; [by eapply zlookup_Some_lt|done].
    + rewrite lookup_insert_ne by done. rewrite IH by done. naive_solver.
Qed.

Lemma token_list_tables f words :
  NoDup (t_text <$> token_list f words) -> tables_ok (index_of (t_text <$> token_list f words)) (token_list f words).
Proof.
  intros Hn. split.
  - intros t id Hid%index_of_lookup; [|done]. rewrite zlookup_fmap in Hid.
    destruct (zlookup (token_list f words) id) as [d|]; [|done]. exists d. split; [done|]. cbn in Hid. congruence.
  - intros id d Hd. apply index_of_lookup; [done|]. by rewrite zlookup_fmap, Hd.
  - rewrite Forall_forall. intros d (i & Hi)%list_elem_of_lookup. unfold token_list in Hi.
    apply list_lookup_imap_Some in Hi as (w & _ & ->). apply named_nonempty.
Qed.

(** Reading the tokens succeeds exactly if no two of them have the same text. *)
Lemma load_tokens_spec f words :
  vf_tokens f = Some words -> arrays_ok f (length words) ->
  exists max, Forall (fun d => zlen (t_text d) <= max) (token_list f words) /\ load_tokens f =
    if bool_decide (NoDup (t_text <$> token_list f words))
    then Ok (mk_tables (index_of (t_text <$> token_list f words)) (token_list f words) max) else Err Abort.
Proof.
  intros Hw Ha. unfold load_tokens. rewrite Hw. destruct (load_tokens_loop f words Ha) as (max & -> & Hmax). exists max. split; [done|].
  cbn [mbind res_bind fst tb_token_to_id tb_id_to_token].
  destruct (size_index_of (t_text <$> token_list f words)) as [_ Hs]. rewrite length_fmap in Hs.
  destruct (bool_decide_reflect (NoDup (t_text <$> token_list f words))) as [Hn|Hn].
  - apply Hs in Hn. rewrite Hn. unfold zlen. by rewrite Z.eqb_refl.
  - destruct (Z.eqb_spec (zlen (token_list f words)) (Z.of_nat (size (index_of (t_text <$> token_list f words))))) as [E|]; [|done].
    exfalso. apply Hn, Hs. unfold zlen in E. lia.
Qed.

(** * The special tokens *)

(** The texts of tokens that loading turns into control tokens. *)
Definition control_name (t : bytes) : bool :=
  existsb (fun d => one_of t d.2) detections || one_of t eog_names.

(** The tokens after some of these were turned. *)
Definition kept_or_marked (d d' : token_data) : Prop :=
  t_text d' = t_text d /\ t_score d' = t_score d /\
  (d' = d \/ (t_attr d' = ATTR_CONTROL /\ control_name (t_text d) = true)).

Definition marked (i2t i2t' : list token_data) : Prop := Forall2 kept_or_marked i2t i2t'.

Lemma kept_refl d : kept_or_marked d d.
Proof. split; [done|]. split; [done|by left]. Qed.

#[export] Instance marked_refl : Reflexive marked.
Proof. intros l. apply Forall_Forall2_diag, Forall_true. apply kept_refl. Qed.

#[export] Instance marked_trans : Transitive marked.
Proof.
  intros l1 l2 l3 H12. revert l3. induction H12 as [|a b l1 l2 (H1 & H2 & H3) _ IH]; intros l3 H23.
  - by apply Forall2_nil_inv_l in H23 as ->.
  - apply Forall2_cons_inv_l in H23 as (c & l3' & (H4 & H5 & H6) & H23 & ->). constructor; [|by apply IH].
    split; [congruence|]. split; [congruence|]. destruct H6 as [->|[H6 H7]]; [done|]. right. split; [done|]. by rewrite <- H1.
Qed.

Lemma marked_lookup i2t i2t' id d :
  marked i2t i2t' -> zlookup i2t id = Some d -> exists d', zlookup i2t' id = Some d' /\ kept_or_marked d d'.
Proof.
  intros Hm. unfold zlookup. destruct (0 <=? id); [|done]. intros Hd. destruct (Forall2_lookup_l _ _ _ _ _ Hm Hd) as (d' & H1 & H2).
  by exists d'.
Qed.

Lemma marked_lookup_r i2t i2t' id d' :
  marked i2t i2t' -> zlookup i2t' id = Some d' -> exists d, zlookup i2t id = Some d /\ kept_or_marked d d'.
Proof.
  intros Hm. unfold zlookup. destruct (0 <=? id); [|done]. intros Hd. destruct (Forall2_lookup_r _ _ _ _ _ Hm Hd) as (d & H1 & H2).
  by exists d.
Qed.

Lemma marked_zlen i2t i2t' : marked i2t i2t' -> zlen i2t' = zlen i2t.
Proof. intros H. unfold zlen. by rewrite (Forall2_length _ _ _ H). Qed.

(** The tables still agree. *)
Lemma marked_tables t2i i2t i2t' : tables_ok t2i i2t -> marked i2t i2t' -> tables_ok t2i i2t'.
Proof.
  intros [H1 H2 H3] Hm. split.
  - intros t id Hid. destruct (H1 _ _ Hid) as (d & Hd & <-). destruct (marked_lookup _ _ _ _ Hm Hd) as (d' & Hd' & Ht & _). by exists d'.
  - intros id d' Hd'. destruct (marked_lookup_r _ _ _ _ Hm Hd') as (d & Hd & Ht & _). rewrite Ht. by apply H2.
  - rewrite Forall_forall in *. intros d' (i & Hi)%list_elem_of_lookup. destruct (Forall2_lookup_r _ _ _ _ _ Hm Hi) as (d & Hd & Ht & _).
    rewrite Ht. apply H3. by eapply list_elem_of_lookup_2.
Qed.

Lemma make_control_safe i2t id d :
  zlookup i2t id = Some d -> control_name (t_text d) = true -> safe (make_control i2t id) (marked i2t).
Proof.
  intros Hd Hc. unfold make_control. rewrite (vget_Some _ _ _ Hd). cbn [mbind res_bind].
  destruct (has_attr (t_attr d) ATTR_CONTROL); [cbn [mret res_ret post]; reflexivity|].
  pose proof (zlookup_Some_lt _ _ _ Hd). rewrite vset_at by done. cbn [post].
  unfold zlookup in Hd. destruct (Z.leb_spec 0 id); [|done].
  rewrite <- (list_insert_id i2t (Z.to_nat id) d) at 1 by done. apply Forall2_insert; [apply marked_refl|].
  split; [done|]. split; [done|]. right. split; [done|]. done.
Qed.

(** Ids are those of the file or of tokens. *)
Definition ids_from (n : Z) (ids ids' : slot_ids) : Prop := forall s, ids' s = ids s \/ 0 <= ids' s < n.

Lemma ids_from_refl n ids : ids_from n ids ids.
Proof. by left. Qed.

Lemma ids_from_set n ids ids' s id : ids_from n ids ids' -> 0 <= id < n -> ids_from n ids (set_id ids' s id).
Proof. intros H Hid s'. unfold set_id. case_decide; [by right|apply H]. Qed.

(** A set id stays set. *)
Lemma ids_from_null n ids ids' s : ids_from n ids ids' -> ids s <> LLAMA_TOKEN_NULL -> ids' s <> LLAMA_TOKEN_NULL.
Proof. intros H Hs. destruct (H s) as [->|?]; [done|]. unfold LLAMA_TOKEN_NULL. lia. Qed.

Section specials.
Context `{CppHashOrderLaws} (t2i : gmap bytes Z) (i2t : list token_data) (Hok : tables_ok t2i i2t).

Lemma hash_order_token t : t ∈ hash_order t2i -> exists d, zlookup i2t t.2 = Some d /\ t_text d = t.1.
Proof using All.
  rewrite hash_order_perm. destruct t as [t id]. rewrite elem_of_map_to_list. intros Ht. apply (to_texts _ _ Hok _ _ Ht).
Qed.

Lemma detect_all_safe ids :
  safe (detect_all t2i (ids, i2t)) (fun st => ids_from (zlen i2t) ids st.1 /\ marked i2t st.2).
Proof using All.
  unfold detect_all. apply (foldM_post _ (fun _ st => ids_from (zlen i2t) ids st.1 /\ marked i2t st.2)).
  { split; [apply ids_from_refl|reflexivity]. }
  intros _ t st Ht Hst. destruct (hash_order_token t Ht) as (d & Hd & Hdt).
  apply (foldM_post _ (fun _ st => ids_from (zlen i2t) ids st.1 /\ marked i2t st.2)); [done|].
  intros _ rule [ids' i2t'] Hrule [Hids Hm]. cbn [fst snd] in *. unfold detect.
  destruct ((ids' rule.1 =? LLAMA_TOKEN_NULL) && one_of t.1 rule.2) eqn:E; [|done].
  apply andb_prop in E as [_ E]. destruct (marked_lookup _ _ _ _ Hm Hd) as (d' & Hd' & Ht' & _).
  eapply post_bind.
  - apply (make_control_safe i2t' t.2 d'); [done|]. rewrite Ht', Hdt. unfold control_name.
    apply orb_true_iff. left. apply existsb_exists. exists rule. split; [by apply list_elem_of_In|done].
  - intros i2t'' Hm'. cbn [mret res_ret post fst snd]. split; [|by etrans].
    apply ids_from_set; [done|]. by eapply zlookup_Some_lt.
Qed.

(** ** End of generation *)

(** The tokens that are looked for by their text, and the ids that count as well. *)
Definition eog_spec (ids : slot_ids) (eog : gset Z) : Prop :=
  forall id, id ∈ eog <->
    (exists t, one_of t eog_names = true /\ t2i !! t = Some id) \/
    (exists s, s ∈ [FIM_PAD; FIM_REP; FIM_SEP; EOS; EOT; EOM] /\ ids s = id /\ id <> LLAMA_TOKEN_NULL).

Lemma insert_ids ids eog ss id :
  id ∈ fold_left (insert_id ids) ss eog <-> id ∈ eog \/ exists s, s ∈ ss /\ ids s = id /\ id <> LLAMA_TOKEN_NULL.
Proof.
  revert eog. induction ss as [|s ss IH]; intros eog; cbn [fold_left].
  - split; [by left|]. intros [?|(? & ?%elem_of_nil & _)]; done.
  - rewrite IH. unfold insert_id. destruct (Z.eqb_spec (ids s) LLAMA_TOKEN_NULL) as [E|E]; [|rewrite elem_of_union, elem_of_singleton].
    + split; [intros [?|(s' & ? & ?)]; [by left|right; exists s'; by rewrite elem_of_cons; auto]|].
      intros [?|(s' & [->|?]%elem_of_cons & ? & ?)]; [by left|congruence|right; by exists s'].
    + split.
      * intros [[->|?]|(s' & ? & ?)]; [right; exists s; by rewrite elem_of_cons; auto|by left|right; exists s'; by rewrite elem_of_cons; auto].
      * intros [?|(s' & [->|?]%elem_of_cons & ? & ?)]; [by left; right|left; by left|right; by exists s'].
Qed.

Lemma find_eog_safe ids :
  safe (find_eog ids t2i i2t) (fun st => eog_spec ids st.1 /\ marked i2t st.2).
Proof using All.
  unfold find_eog. set (start := fold_left (insert_id ids) [FIM_PAD; FIM_REP; FIM_SEP] ∅).
  eapply (post_bind _ _ (fun st => marked i2t st.2 /\ forall id, id ∈ st.1 <->
    id ∈ start \/ exists t, t ∈ hash_order t2i /\ one_of t.1 eog_names = true /\ t.2 = id)).
  - apply (foldM_post _ (fun seen st => marked i2t st.2 /\ forall id, id ∈ st.1 <->
      id ∈ start \/ exists t, t ∈ seen /\ one_of t.1 eog_names = true /\ t.2 = id)).
    { split; [reflexivity|]. intros id. split; [by left|]. intros [?|(? & ?%elem_of_nil & _)]; done. }
    intros seen t [eog i2t'] Ht [Hm Heog]. cbn [fst snd] in *. unfold eog_step.
    destruct (hash_order_token t Ht) as (d & Hd & Hdt). destruct (one_of t.1 eog_names) eqn:E.
    + destruct (marked_lookup _ _ _ _ Hm Hd) as (d' & Hd' & Ht' & _). eapply post_bind.
      * apply (make_control_safe i2t' t.2 d'); [done|]. rewrite Ht', Hdt. unfold control_name. by rewrite E, orb_true_r.
      * intros i2t'' Hm'. cbn [mret res_ret post fst snd]. split; [by etrans|]. intros id.
        rewrite elem_of_union, elem_of_singleton, Heog. setoid_rewrite elem_of_app. setoid_rewrite list_elem_of_singleton.
        naive_solver.
    + cbn [mret res_ret post fst snd]. split; [done|]. intros id. rewrite Heog.
      setoid_rewrite elem_of_app. setoid_rewrite list_elem_of_singleton.
      naive_solver congruence.
  - intros [eog i2t'] [Hm Heog]. cbn [mret res_ret post fst snd] in *. split; [|done]. intros id. rewrite insert_ids, Heog.
    unfold start. rewrite insert_ids, elem_of_empty.
    assert (Hperm : forall t, t ∈ hash_order t2i <-> t2i !! t.1 = Some t.2)
      by (intros [t i]; by rewrite hash_order_perm, elem_of_map_to_list).
    setoid_rewrite Hperm.
    assert (Hslots : forall s, s ∈ [FIM_PAD; FIM_REP; FIM_SEP; EOS; EOT; EOM] <->
      s ∈ [FIM_PAD; FIM_REP; FIM_SEP] \/ s ∈ [EOS; EOT; EOM]) by (intros s; by rewrite <- elem_of_app).
    setoid_rewrite Hslots. split.
    + intros [[[?|(s & Hs & ?)]|([t i] & Ht & E & <-)]|(s & Hs & ?)]; [done| | |]; cbn [fst snd] in *.
      * right. exists s. by split; [left|].
      * left. by exists t.
      * right. exists s. by split; [right|].
    + intros [(t & E & Ht)|(s & [Hs|Hs] & ?)].
      * left. right. by exists (t, id).
      * left. left. right. by exists s.
      * right. by exists s.
Qed.
End specials.

(** * The steps of loading *)

(** The ids of a file are 32-bit numbers. *)
Definition file_ids_ok (f : vocab_file) : Prop := forall k id, vf_ids f k = Some id -> 0 <= id.

Lemma read_ids_from f n ids : file_ids_ok f -> 0 <= n <= INT32_MAX -> ids_from n ids (read_ids f n ids).
Proof.
  intros Hf Hn. unfold read_ids. generalize special_token_types. intros keys.
  assert (Hgen : forall ids', ids_from n ids ids' -> ids_from n ids (fold_left (fun ids '(key, slot) =>
    match vf_ids f key with
    | None => ids
    | Some new_id => if n <=? new_id then ids else set_id ids slot (i32 new_id)
    end) keys ids')); [|apply Hgen, ids_from_refl].
  induction keys as [|[key slot] keys IH]; intros ids' Hids; cbn [fold_left]; [done|]. apply IH.
  destruct (vf_ids f key) as [id|] eqn:E; [|done]. specialize (Hf _ _ E). destruct (Z.leb_spec n id); [done|].
  apply ids_from_set; [done|]. rewrite i32_small; [lia|]. unfold INT32_MIN, INT32_MAX in *. lia.
Qed.

(** What [load_specials] leaves alone, and what it finds. *)
Record specials_found (l l' : loading) (f : vocab_file) : Prop := {
  sp_config : exists ids, lg_config l' = with_ids (read_flags f (lg_config l)) ids /\
    ids_from (zlen (tb_id_to_token (lg_tables l))) (vc_ids (lg_config l)) ids;
  sp_index : tb_token_to_id (lg_tables l') = tb_token_to_id (lg_tables l);
  sp_tokens : marked (tb_id_to_token (lg_tables l)) (tb_id_to_token (lg_tables l'));
  sp_eog : eog_spec (tb_token_to_id (lg_tables l)) (vc_ids (lg_config l')) (lg_eog l');
  sp_caches : lg_pieces l' = lg_pieces l /\ lg_special_tokens l' = lg_special_tokens l
}.

Lemma vc_ids_with_ids c ids : vc_ids (with_ids c ids) = ids.
Proof. by destruct c. Qed.

Lemma ids_from_trans n a b c : ids_from n a b -> ids_from n b c -> ids_from n a c.
Proof. intros H1 H2 s. destruct (H2 s) as [->|?]; [apply H1|by right]. Qed.

Lemma load_specials_safe `{CppHashOrderLaws} f l :
  tables_ok (tb_token_to_id (lg_tables l)) (tb_id_to_token (lg_tables l)) ->
  zlen (tb_id_to_token (lg_tables l)) <= INT32_MAX -> file_ids_ok f ->
  safe (load_specials f l) (fun l' => specials_found l l' f).
Proof.
  intros Hok Hn Hf. unfold load_specials. pose proof (zlen_nonneg (tb_id_to_token (lg_tables l))).
  pose proof (read_ids_from f (zlen (tb_id_to_token (lg_tables l))) (vc_ids (lg_config l)) Hf ltac:(lia)) as Hids.
  eapply post_bind; [by apply detect_all_safe|]. intros [ids i2t] [Hids' Hm]. cbn [fst snd] in *.
  eapply post_bind; [apply find_eog_safe; by eapply marked_tables|]. intros [eog i2t'] [Heog Hm']. cbn [fst snd mret res_ret post] in *.
  split; cbn.
  - exists ids. split; [done|]. by eapply ids_from_trans.
  - done.
  - by etrans.
  - by rewrite vc_ids_with_ids.
  - done.
Qed.

(** ** The caches *)

Definition longer (v : llama_vocab) (a b : Z) : bool :=
  match zlookup (v_id_to_token v) a, zlookup (v_id_to_token v) b with
  | Some a, Some b => zlen (t_text b) <? zlen (t_text a)
  | _, _ => false
  end.

Lemma special_tokens_range `{CppSortLaws} v id : id ∈ special_tokens_cache v -> 0 <= id < zlen (v_id_to_token v).
Proof.
  unfold special_tokens_cache. set (ids := filter _ _).
  assert (Hids : forall i, i ∈ ids -> 0 <= i < zlen (v_id_to_token v)).
  { intros i Hi. unfold ids in Hi. apply list_elem_of_filter in Hi as [_ Hi%elem_of_zseq]. unfold zlen. lia. }
  rewrite std_sort_perm; [apply Hids|]. split.
  - intros a b _ _. destruct (zlookup (v_id_to_token v) a), (zlookup (v_id_to_token v) b); try done.
    rewrite Z.ltb_lt, Z.ltb_ge. lia.
  - intros a b c Ha%Hids%zlookup_lt Hb%Hids%zlookup_lt Hc%Hids%zlookup_lt.
    destruct Ha as [da ->], Hb as [db ->], Hc as [dc ->]. rewrite !Z.ltb_ge. lia.
Qed.

Lemma special_tokens_ok `{CppSortLaws} v :
  Forall (fun d => t_text d <> []) (v_id_to_token v) -> Forall (fun id => exists d,
    zlookup (v_id_to_token v) id = Some d /\ t_text d <> []) (special_tokens_cache v).
Proof.
  intros Hne. rewrite Forall_forall in Hne. rewrite Forall_forall. intros id (d & Hd)%special_tokens_range%zlookup_lt. exists d. split; [done|].
  apply Hne, elem_of_zlookup. exists id. split; [by eapply zlookup_Some_lt|done].
Qed.

(** The piece of every token of a sentence-piece vocabulary exists if its byte
    tokens have a number in their names. *)
Lemma spm_piece_exists v id d :
  v_type v = VOCAB_SPM -> zlookup (v_id_to_token v) id = Some d ->
  (has_attr (t_attr d) ATTR_BYTE = true -> (3 <= length (t_text d))%nat) ->
  exists p, full_piece (with_cache v []) id true = Ok p.
Proof.
  intros Ht Hd Hb. rewrite full_piece_uncached. unfold token_get_attr, assert_typed, vec_at.
  rewrite bool_decide_eq_true_2 by (by rewrite Ht). rewrite Hd. cbn [ggml_assert mbind res_bind mret res_ret negb andb].
  pose proof (zlookup_Some_lt _ _ _ Hd). destruct (Z.leb_spec 0 id); [|lia].
  destruct (Z.ltb_spec id (zlen (v_id_to_token v))); [|lia]. cbn [andb]. rewrite (vget_Some _ _ _ Hd). cbn [mbind res_bind]. rewrite Ht.
  destruct (has_attr (t_attr d) (Z.lor attr_special ATTR_USER_DEFINED)); [by eexists|].
  destruct (has_attr (t_attr d) ATTR_NORMAL); [rewrite llama_unescape_whitespace_eq; by eexists|].
  destruct (has_attr (t_attr d) ATTR_BYTE) eqn:E; [|by eexists]. specialize (Hb eq_refl).
  unfold token_to_byte, is_byte, test_attr, assert_typed, vec_at. rewrite bool_decide_eq_true_2 by (by rewrite Ht).
  rewrite (vget_Some _ _ _ Hd). cbn [ggml_assert mbind res_bind mret res_ret]. rewrite E. cbn [ggml_assert mbind res_bind].
  rewrite Hd. cbn [mbind res_bind]. rewrite Ht. destruct (Nat.leb_spec 3 (length (t_text d))); [|lia]. by eexists.
Qed.

Lemma piece_cache_exists capacity v :
  0 <= capacity -> v_cache_token_to_piece v = [] ->
  (forall id d, zlookup (v_id_to_token v) id = Some d -> exists p, full_piece v id true = Ok p) ->
  exists c, piece_cache capacity v = Ok c.
Proof.
  intros Hc Hnil Hp. unfold piece_cache. destruct (mapM _ _) as [c|e] eqn:E; [by exists c|].
  apply mapM_err in E as (id & Hid%elem_of_zseq & E). rewrite token_to_piece_for_cache_eq in E by done.
  destruct (zlookup_lt (v_id_to_token v) id) as [d Hd]; [unfold zlen; lia|]. destruct (Hp id d Hd) as (p & Hp'). congruence.
Qed.

(** * Sentence-piece models *)

(** A model file of the SentencePiece kind: tokens with different texts, among them
    the visible space and a byte token for every byte. *)
Record spm_file (f : vocab_file) (words : list bytes) : Prop := {
  sf_model : vf_model f = Some (str "llama");
  sf_tokens : vf_tokens f = Some words;
  sf_arrays : arrays_ok f (length words);
  sf_distinct : NoDup (t_text <$> token_list f words);
  sf_size : zlen words <= INT32_MAX;
  sf_scores : Forall (fun d => is_nan (t_score d) = false) (token_list f words);
  sf_space : visible_space ∈ words;
  sf_bytes : forall b, byte_ok b -> exists i, words !! i = Some (byte_name b) /\ attr_at f i = ATTR_BYTE;
  sf_byte_texts : Forall (fun d => has_attr (t_attr d) ATTR_BYTE = true -> (3 <= length (t_text d))%nat) (token_list f words);
  sf_ids : file_ids_ok f;
  sf_names : contains_any (default [] (vf_pre f)) ["jina-v2-de"; "jina-v2-es"; "jina-v2-code"] = false /\
    contains_any (tolower <$> default [] (vf_name f)) ["phi-3"; "phi3"] = false
}.

(** The settings of such a model. *)
Definition spm_config (f : vocab_file) : vocab_config :=
  mk_config VOCAB_SPM PRE_DEFAULT ids_spm ∅ [] (default true (vf_add_prefix f)) false true false false
    (default false (vf_remove_extra_ws f)).

Lemma load_config_spm f : vf_model f = Some (str "llama") -> load_config f (str "llama") = Ok (spm_config f).
Proof. done. Qed.

(** No byte token looks like a control token. *)
Lemma byte_name_plain b : byte_ok b -> control_name (byte_name b) = false.
Proof.
  intros Hb. apply negb_true_iff.
  apply (zseq_forallb (fun b => negb (control_name (byte_name b))) 0 256); [vm_compute; reflexivity|unfold byte_ok in Hb; lia].
Qed.

Lemma token_list_word f words i w : words !! i = Some w -> w <> [] ->
  token_list f words !! i = Some (mk_token w (score_at f i) (attr_at f i)).
Proof.
  intros Hi Hw. unfold token_list. rewrite list_lookup_imap, Hi. cbn. unfold named. by rewrite bool_decide_eq_false_2.
Qed.

Section spm_load.
Context `{CppSortLaws} `{CppHashOrderLaws} `{CppHeap} `{UnicodeData} `{RegexEngine} (capacity : Z) (f : vocab_file) (words : list bytes).
Hypothesis Hcap : 0 <= capacity.
Hypothesis Hf : spm_file f words.

(** The tables before the special tokens are looked for. *)
Let t2i := index_of (t_text <$> token_list f words).
Let i2t := token_list f words.

Lemma spm_tables : tables_ok t2i i2t.
Proof using Hf. apply token_list_tables, Hf. Qed.

Lemma spm_tables_size : zlen i2t = zlen words.
Proof. unfold i2t, zlen, token_list. by rewrite length_imap. Qed.

(** The byte of a line feed. *)
Lemma spm_linefeed v :
  v_type v = VOCAB_SPM -> v_token_to_id v = t2i -> exists id, find_linefeed v TokenizerSpm (-1) = Ok id.
Proof using Hf.
  intros Ht Hi. unfold find_linefeed. rewrite Ht. unfold byte_to_token, assert_typed.
  rewrite bool_decide_eq_true_2 by (by rewrite Ht). cbn [ggml_assert mbind res_bind]. rewrite Ht, Hi.
  destruct (t2i !! byte_name 10); [by eexists|]. unfold map_at. by destruct (_ !! _); eexists.
Qed.

(** The vocabulary after the special tokens were found. *)
Lemma spm_specials_vocab l l' :
  lg_tables l = mk_tables t2i i2t (tb_max_token_len (lg_tables l)) -> lg_config l = spm_config f ->
  lg_pieces l = [] -> specials_found l l' f ->
  v_type (as_vocab l') = VOCAB_SPM /\ v_clean_spaces (as_vocab l') = false /\ vocab_ok (as_vocab l') /\
  tables_ok (v_token_to_id (as_vocab l')) (v_id_to_token (as_vocab l')) /\
  v_cache_token_to_piece (as_vocab l') = [] /\
  v_special_bos_id (as_vocab l') <> LLAMA_TOKEN_NULL /\ v_special_eos_id (as_vocab l') <> LLAMA_TOKEN_NULL.
Proof using Hf.
  intros Hl Hc Hnil Hs. destruct (sp_config _ _ _ Hs) as (ids & Hc' & Hids). rewrite Hc in Hc', Hids.
  pose proof (sp_tokens _ _ _ Hs) as Hm. pose proof (sp_index _ _ _ Hs) as Hi. rewrite Hl in Hm, Hi. cbn in Hm, Hi.
  pose proof (marked_tables _ _ _ spm_tables Hm) as Hok. unfold as_vocab. cbn.
  rewrite Hc', Hi. cbn. destruct (sp_caches _ _ _ Hs) as [-> _].
  split; [done|]. split; [done|]. split; [|split; [done|split; [done|]]].
  - split; cbn; [done| | |].
    + rewrite (marked_zlen _ _ Hm), spm_tables_size. apply Hf.
    + intros t id Hid. destruct (to_texts _ _ Hok _ _ Hid) as (d & Hd & _). by eapply zlookup_Some_lt.
    + rewrite Forall_forall. intros d (i & Hdi)%list_elem_of_lookup.
      destruct (Forall2_lookup_r _ _ _ _ _ Hm Hdi) as (d0 & Hd0 & _ & -> & _).
      pose proof (sf_scores _ _ Hf) as Hsc. rewrite Forall_forall in Hsc. apply Hsc. by eapply list_elem_of_lookup_2.
  - split; apply (ids_from_null _ _ _ _ Hids); done.
Qed.

Lemma spm_pieces_exist v id d :
  marked i2t (v_id_to_token v) -> v_type v = VOCAB_SPM -> v_cache_token_to_piece v = [] ->
  zlookup (v_id_to_token v) id = Some d -> exists p, full_piece v id true = Ok p.
Proof using Hf.
  intros Hm Ht Hnil Hd. rewrite (cache_agrees_nil v Hnil). apply (spm_piece_exists v id d); [done|done|].
  destruct (marked_lookup_r _ _ _ _ Hm Hd) as (d0 & Hd0 & Htext & _ & Hattr). rewrite Htext.
  destruct Hattr as [->|[-> _]]; [|done].
  pose proof (sf_byte_texts _ _ Hf) as Hb. rewrite Forall_forall in Hb. apply Hb, elem_of_zlookup. exists id.
  split; [by eapply zlookup_Some_lt|done].
Qed.

Lemma spm_byte_tokens i2t' b :
  marked i2t i2t' -> byte_ok b -> exists id d, t2i !! byte_name b = Some id /\ zlookup i2t' id = Some d /\ t_attr d = ATTR_BYTE.
Proof using Hf.
  intros Hm Hb. destruct (sf_bytes _ _ Hf b Hb) as (i & Hi & Ha).
  pose proof (token_list_word f words i (byte_name b) Hi ltac:(done)) as Hd. fold i2t in Hd.
  assert (Hz : zlookup i2t (Z.of_nat i) = Some (mk_token (byte_name b) (score_at f i) (attr_at f i))) by (by rewrite zlookup_nat).
  destruct (marked_lookup _ _ _ _ Hm Hz) as (d' & Hd' & _ & _ & Hattr). exists (Z.of_nat i), d'.
  split; [apply (to_ids _ _ spm_tables _ _ Hz)|]. split; [done|].
  destruct Hattr as [->|[_ Hc]]; [done|]. cbn [t_text] in Hc. by rewrite byte_name_plain in Hc.
Qed.

Lemma spm_space_token : is_Some (t2i !! visible_space).
Proof using Hf.
  apply index_of_Some. pose proof (sf_space _ _ Hf) as (i & Hi)%list_elem_of_lookup.
  apply list_elem_of_fmap. exists (mk_token visible_space (score_at f i) (attr_at f i)). split; [done|].
  eapply list_elem_of_lookup_2, token_list_word; [exact Hi|done].
Qed.

Lemma spm_load :
  exists ld, load capacity f = Ok ld /\ ld_tokenizer ld = Some TokenizerSpm /\
    spm_text_vocab (ld_vocab ld) /\ v_clean_spaces (ld_vocab ld) = false /\
    v_token_to_id (ld_vocab ld) = t2i /\ marked i2t (v_id_to_token (ld_vocab ld)) /\
    eog_spec t2i (ld_ids ld) (v_special_eog_ids (ld_vocab ld)).
Proof using All.
  unfold load. rewrite (sf_model _ _ Hf). change (one_of (str "llama") ["no_vocab"; "none"]) with false. cbv iota.
  rewrite load_config_spm by apply Hf. cbn [mbind res_bind].
  destruct (load_tokens_spec f words (sf_tokens _ _ Hf) (sf_arrays _ _ Hf)) as (max & _ & ->).
  rewrite bool_decide_eq_true_2 by apply Hf. fold t2i i2t. cbn [mbind res_bind].
  change (index_of (t_text <$> i2t)) with t2i.
  set (l0 := mk_loading (spm_config f) (mk_tables t2i i2t max) [] [] ∅).
  change (init_tokenizer (as_vocab l0) _ _) with (@Ok llm_tokenizer TokenizerSpm). cbn [mbind res_bind].
  destruct (spm_linefeed (as_vocab l0) eq_refl eq_refl) as (lf & Hlf).
  change (vc_ids (spm_config f) PAD) with (-1). rewrite Hlf. cbn [mbind res_bind].
  pose proof (load_specials_safe f l0 spm_tables) as Hsp. cbn [lg_tables l0 tb_id_to_token] in Hsp.
  specialize (Hsp ltac:(unfold l0; cbn; rewrite spm_tables_size; apply Hf) (sf_ids _ _ Hf)).
  destruct (load_specials f l0) as [l1|]; [|done]. cbn [post mbind res_bind] in *.
  destruct (spm_specials_vocab l0 l1 eq_refl eq_refl eq_refl Hsp) as (Ht & Hclean & Hvok & Htab & Hnil & Hbos & Heos).
  pose proof (sp_tokens _ _ _ Hsp) as Hm. pose proof (sp_index _ _ _ Hsp) as Hidx. pose proof (sp_eog _ _ _ Hsp) as Heog.
  cbn [l0 lg_tables tb_id_to_token tb_token_to_id] in Hm, Hidx, Heog.
  unfold load_caches. set (specials := special_tokens_cache (as_vocab l1)).
  set (l2 := mk_loading (lg_config l1) (lg_tables l1) specials (lg_pieces l1) (lg_eog l1)).
  destruct (piece_cache_exists capacity (as_vocab l2) Hcap Hnil) as (cache & Hcache).
  { intros id d Hd. by apply (spm_pieces_exist (as_vocab l2) id d). }
  rewrite Hcache. cbn [mbind res_bind mret res_ret].
  unfold name_attributes. destruct (sf_names _ _ Hf) as [-> ->]. cbn [mbind res_bind mret res_ret].
  eexists. split; [done|]. cbn [ld_tokenizer ld_vocab ld_ids]. split; [done|].
  set (l3 := set_tokens _ _).
  assert (Hl3 : as_vocab l3 = with_cache (as_vocab l2) cache) by done. rewrite Hl3.
  split; [|split; [done|split; [done|split; [done|exact Heog]]]].
  split.
  - exact Ht.
  - destruct Hvok as [H1' H2' H3' H4']. split; [exact H1'|exact H2'|exact H3'|exact H4'].
  - apply (to_texts _ _ Htab).
  - assert (v_token_to_id (with_cache (as_vocab l2) cache) = t2i) as -> by exact Hidx. apply spm_space_token.
  - intros b Hb. destruct (spm_byte_tokens _ b Hm Hb) as (id & d & Hid & Hd & Ha). exists id, d.
    split; [|done]. assert (v_token_to_id (with_cache (as_vocab l2) cache) = t2i) as -> by exact Hidx. done.
  - intros token special. change (with_cache (with_cache (as_vocab l2) cache) []) with (with_cache (as_vocab l2) []).
    rewrite (full_piece_cached capacity (as_vocab l2) cache token special Hcap Hnil Hcache). by apply cache_agrees_nil.
  - apply (special_tokens_ok (as_vocab l1)), Htab.
  - intros _. exact Hbos.
  - intros _. exact Heos.
Qed.
End spm_load.

(** * Properties *)

(** C32. The tables are inverse: from a model file whose arrays are long enough, reading the
    tokens succeeds exactly if no two of them have the same text, an empty one counting
    as its placeholder; then a text leads to an id exactly if it is the text of the token
    of that id, no token is empty and none is longer than the maximum that is kept. *)
Theorem load_tokens_inverse (f : vocab_file) (words : list bytes) :
  vf_tokens f = Some words -> arrays_ok f (length words) ->
  (NoDup (t_text <$> token_list f words) ->
     exists t, load_tokens f = Ok t /\ tables_ok (tb_token_to_id t) (tb_id_to_token t) /\
       tb_id_to_token t = token_list f words /\ Forall (fun d => zlen (t_text d) <= tb_max_token_len t) (tb_id_to_token t)) /\
  (~ NoDup (t_text <$> token_list f words) -> load_tokens f = Err Abort).
Proof.
  intros Hw Ha. destruct (load_tokens_spec f words Hw Ha) as (max & Hmax & ->). split; intros Hn.
  - rewrite bool_decide_eq_true_2 by done. eexists. split; [done|]. cbn. split; [by apply token_list_tables|done].
  - by rewrite bool_decide_eq_false_2.
Qed.

(** C31. Loading a sentence-piece model works: whatever order the hash table visits its
    elements in and whatever sorted order [std::sort] chooses, loading returns; the
    tokens keep their ids, the end-of-generation tokens are those with one of the known
    names together with the special ids that are set, and every plain UTF-8 text
    is turned into tokens and back without a change. *)
Theorem load_spm_correct `{CppSortLaws} `{CppHashOrderLaws} `{CppHeapLaws} `{UnicodeData} `{RegexEngine}
    (capacity : Z) (f : vocab_file) (words : list bytes) :
  0 <= capacity -> spm_file f words ->
  exists ld, load capacity f = Ok ld /\ ld_tokenizer ld = Some TokenizerSpm /\
    (forall i w, words !! i = Some w -> w <> [] -> v_token_to_id (ld_vocab ld) !! w = Some (Z.of_nat i)) /\
    (forall id, is_eog (ld_vocab ld) id = true <-> id <> LLAMA_TOKEN_NULL /\
       ((exists t, one_of t eog_names = true /\ v_token_to_id (ld_vocab ld) !! t = Some id) \/
        (exists s, s ∈ [FIM_PAD; FIM_REP; FIM_SEP; EOS; EOT; EOM] /\ ld_ids ld s = id))) /\
    (forall cps text special, utf8_text cps text -> text <> [] -> 9601 ∉ cps ->
       plain_text (ld_vocab ld) (escaped (prefixed (ld_vocab ld) text)) ->
       (forall d, looks_for (ld_vocab ld) false d -> find_sub (t_text d) text = None) -> zlen text < INT32_MAX ->
       exists ids, tokenize (ld_vocab ld) (ld_tokenizer ld) text false false = Ok ids /\
         detokenize_string capacity (ld_vocab ld) true ids special = Ok text).
Proof.
  intros Hcap Hf. destruct (spm_load capacity f words Hcap Hf) as (ld & Hld & Htk & Hv & Hclean & Hidx & Hm & Heog).
  exists ld. split; [done|]. split; [done|]. split; [|split].
  - intros i w Hi Hw. rewrite Hidx. pose proof (token_list_word f words i w Hi Hw) as Hd.
    apply index_of_lookup; [apply Hf|]. by rewrite zlookup_nat, list_lookup_fmap, Hd.
  - intros id. unfold is_eog. rewrite andb_true_iff, bool_decide_eq_true, (Heog id), negb_true_iff, Z.eqb_neq, Hidx. naive_solver.
  - intros cps text special Htxt Hne Hno Hplain Hfree Hlen. rewrite Htk.
    destruct (spm_text_roundtrip (ld_vocab ld) cps text false special capacity INT32_MAX Hv Hclean Htxt Hne Hno Hplain Hfree
      ltac:(unfold INT32_MAX in *; lia) Hcap) as [Hback _]. exact Hback.
Qed.

(** * Examples *)

(** A file of the SentencePiece kind. *)
Definition demo_file_words : list bytes :=
  [str "<unk>"; str "<s>"; str "</s>"] ++ (byte_name <$> zseq 0 256) ++ [visible_space; str "a"; str "b"; str "ab"; []; str "<|im_end|>"].

Definition demo_file : vocab_file :=
  mk_file (Some (str "llama")) None None None None None None (Some demo_file_words)
    (Some (replicate 265 (float_of_Z (-1)))) (Some ([2; 3; 3] ++ replicate 256 6 ++ replicate 6 1))
    (fun k => match k with KEY EOS => Some 2 | KEY PAD => Some 1000 | _ => None end) None None (Some (str "Demo")).

(** The order of the keys. *)
Definition key_order : CppHashOrder := fun m => map_to_list m.
Lemma key_order_laws : @CppHashOrderLaws key_order.
Proof. intros m. done. Qed.

Lemma demo_file_words_distinct : NoDup (t_text <$> token_list demo_file demo_file_words).
Proof. apply (bool_decide_unpack _). vm_compute. exact I. Qed.

Lemma demo_file_arrays : arrays_ok demo_file (length demo_file_words).
Proof. split; intros l Hl; injection Hl as <-; vm_compute; repeat constructor. Qed.

Definition demo_has_byte (b : Z) : bool :=
  match demo_file_words !! Z.to_nat (b + 3) with Some w => bool_decide (w = byte_name b) | None => false end &&
  (attr_at demo_file (Z.to_nat (b + 3)) =? ATTR_BYTE).

Lemma demo_file_ok : spm_file demo_file demo_file_words.
Proof.
  split.
  - reflexivity.
  - reflexivity.
  - apply demo_file_arrays.
  - apply demo_file_words_distinct.
  - vm_compute. discriminate.
  - apply (bool_decide_unpack _). vm_compute. exact I.
  - apply (bool_decide_unpack _). vm_compute. exact I.
  - intros b Hb. exists (Z.to_nat (b + 3)).
    assert (H : demo_has_byte b = true).
    { apply (zseq_forallb demo_has_byte 0 256); [vm_compute; reflexivity|unfold byte_ok in Hb; lia]. }
    unfold demo_has_byte in H.
    apply andb_prop in H as [H1 H2]. destruct (demo_file_words !! Z.to_nat (b + 3)) as [w|]; [|discriminate H1].
    apply bool_decide_eq_true in H1. subst w. split; [reflexivity|]. apply Z.eqb_eq, H2.
  - apply (bool_decide_unpack _). vm_compute. exact I.
  - intros k id Hk. destruct k as [[]| | |]; cbn in Hk; try discriminate Hk; injection Hk as <-; lia.
  - split; vm_compute; reflexivity.
Qed.

Lemma load_tokens_inverse_witness :
  exists t, load_tokens demo_file = Ok t /\ tables_ok (tb_token_to_id t) (tb_id_to_token t) /\
    tb_id_to_token t = token_list demo_file demo_file_words /\
    Forall (fun d => zlen (t_text d) <= tb_max_token_len t) (tb_id_to_token t).
Proof.
  exact (proj1 (load_tokens_inverse demo_file demo_file_words eq_refl demo_file_arrays) demo_file_words_distinct).
Defined.

Lemma load_spm_correct_witness :
  exists ld, @load scan_heap insertion_std_sort key_order ascii_data silent_engine 15 demo_file = Ok ld /\
    v_token_to_id (ld_vocab ld) !! str "<|im_end|>" = Some 264 /\ is_eog (ld_vocab ld) 264 = true /\ is_eog (ld_vocab ld) 262 = false.
Proof.
  destruct (@load_spm_correct insertion_std_sort insertion_std_sort_laws key_order key_order_laws scan_heap scan_heap_laws
    ascii_data silent_engine 15 demo_file demo_file_words ltac:(discriminate) demo_file_ok) as (ld & Hld & _ & Hids & Heog & _).
  exists ld. split; [exact Hld|].
  assert (Hend : v_token_to_id (ld_vocab ld) !! str "<|im_end|>" = Some 264).
  { apply (Hids 264%nat (str "<|im_end|>")); [vm_compute; reflexivity|discriminate]. }
  split; [exact Hend|]. split.
  - apply Heog. split; [discriminate|]. left. exists (str "<|im_end|>"). split; [vm_compute; reflexivity|exact Hend].
  - assert (Hload : match @load scan_heap insertion_std_sort key_order ascii_data silent_engine 15 demo_file with
      | Ok ld => is_eog (ld_vocab ld) 262 | Err _ => true end = false) by (vm_compute; reflexivity).
    rewrite Hld in Hload. exact Hload.
Defined.

(** The token that ends a turn depends on the order of the hash table: with both
    "<|im_end|>" and "<|endoftext|>" among the tokens the first that the loop meets
    counts. *)
Theorem eot_depends_on_order :
  let t2i := list_to_map [(str "<|im_end|>", 1); (str "<|endoftext|>", 0)] : gmap bytes Z in
  let i2t := [mk_token (str "<|endoftext|>") (float_of_Z 0) ATTR_CONTROL; mk_token (str "<|im_end|>") (float_of_Z 0) ATTR_CONTROL] in
  let rev_order : CppHashOrder := fun m => reverse (map_to_list m) in
  @CppHashOrderLaws rev_order /\
  match @detect_all key_order t2i (ids_bpe, i2t), @detect_all rev_order t2i (ids_bpe, i2t) with
  | Ok a, Ok b => negb (a.1 EOT =? b.1 EOT)
  | _, _ => false
  end = true.
Proof. split; [intros m; apply reverse_Permutation|vm_compute; reflexivity]. Qed.

(** Scores are read behind the end of a shorter array. *)
Theorem short_scores_read_outside :
  load_tokens (mk_file (Some (str "llama")) None None None None None None (Some [str "a"; str "b"])
    (Some [float_of_Z 0]) None (fun _ => None) None None None) = Err UB.
Proof. vm_compute. reflexivity. Qed.
