(* ===== verification/HashSet.v ===== *)
(** The set of tensor pointers that ggml's graph code uses: a bit set and a hash table
    with open addressing and linear probing ([ggml_bitset_*], [ggml_hash_*] of
    [ggml/src/ggml-impl.h], [ggml_hash_size] and [ggml_hash_set_*] of [ggml/src/ggml.c]).
    A pointer is its address. The theorems: a table behaves as a set of pointers whose
    elements keep their index, and it is large enough for the number of elements it was
    made for. *)
From S2P Require Import Prelude.

(** ** The bit set *)

Definition BITSET_SHR : Z := 5.
Definition BITSET_MASK : Z := 31.

Definition ggml_bitset_size (n : Z) : Z := Z.shiftr (u64 (n + BITSET_MASK)) BITSET_SHR.

Definition bit_of (i : Z) : Z := u32 (Z.shiftl 1 (Z.land i BITSET_MASK)).

Definition ggml_bitset_get (bitset : list Z) (i : Z) : res bool :=
  w ← vget bitset (Z.shiftr i BITSET_SHR);
  Ok (negb (Z.land w (bit_of i) =? 0)).

Definition ggml_bitset_set (bitset : list Z) (i : Z) : res (list Z) :=
  w ← vget bitset (Z.shiftr i BITSET_SHR);
  vset bitset (Z.shiftr i BITSET_SHR) (Z.lor w (bit_of i)).

Definition ggml_bitset_clear (bitset : list Z) (i : Z) : res (list Z) :=
  w ← vget bitset (Z.shiftr i BITSET_SHR);
  vset bitset (Z.shiftr i BITSET_SHR) (Z.land w (u32 (Z.lnot (bit_of i)))).

(** ** The table *)

Definition GGML_HASHSET_FULL : Z := SIZE_MAX.
Definition GGML_HASHSET_ALREADY_EXISTS : Z := SIZE_MAX - 1.

(** [keys[i]] is [None] as long as nothing was stored there: [malloc] does not
    initialise the array. *)
Record ggml_hash_set : Type := {
  hs_size : Z;
  hs_used : list Z;
  hs_keys : list (option Z)
}.

Definition ggml_hash (p : Z) : Z := Z.shiftr p 4.

(** [ggml_hash(key) % hash_set->size] *)
Definition hash_start (hs : ggml_hash_set) (key : Z) : res Z :=
  if hs_size hs =? 0 then Err UB else Ok (ggml_hash key mod hs_size hs).

Definition hs_key (hs : ggml_hash_set) (i : Z) : res Z :=
  k ← vget (hs_keys hs) i; or_ub k.

(** [i = (i + 1) % hash_set->size] *)
Definition next_slot (hs : ggml_hash_set) (i : Z) : Z := u64 (i + 1) mod hs_size hs.

Definition hs_store (hs : ggml_hash_set) (i key : Z) : res ggml_hash_set :=
  used ← ggml_bitset_set (hs_used hs) i;
  keys ← vset (hs_keys hs) i (Some key);
  Ok {| hs_size := hs_size hs; hs_used := used; hs_keys := keys |}.

Definition find_step (hs : ggml_hash_set) (key h i : Z) : res (step Z Z) :=
  u ← ggml_bitset_get (hs_used hs) i;
  if (u : bool) then
    k ← hs_key hs i;
    if k =? key then Ok (Done i)
    else
      let i := next_slot hs i in
      if i =? h then Ok (Done GGML_HASHSET_FULL) else Ok (Next i)
  else Ok (Done i).

Definition ggml_hash_find (hs : ggml_hash_set) (key : Z) : res Z :=
  h ← hash_start hs key;
  while (find_step hs key h) (S (Z.to_nat (hs_size hs))) h.

Definition ggml_hash_contains (hs : ggml_hash_set) (key : Z) : res bool :=
  i ← ggml_hash_find hs key;
  if i =? GGML_HASHSET_FULL then Ok false else ggml_bitset_get (hs_used hs) i.

Definition insert_step (hs : ggml_hash_set) (key h i : Z) : res (step Z (ggml_hash_set * Z)) :=
  u ← ggml_bitset_get (hs_used hs) i;
  if negb u then
    hs' ← hs_store hs i key; Ok (Done (hs', i))
  else
    k ← hs_key hs i;
    if k =? key then Ok (Done (hs, GGML_HASHSET_ALREADY_EXISTS))
    else
      let i := next_slot hs i in
      if i =? h then Err Abort else Ok (Next i).

Definition ggml_hash_insert (hs : ggml_hash_set) (key : Z) : res (ggml_hash_set * Z) :=
  h ← hash_start hs key;
  while (insert_step hs key h) (S (Z.to_nat (hs_size hs))) h.

Definition find_or_insert_step (hs : ggml_hash_set) (key h i : Z) : res (step Z (ggml_hash_set * Z)) :=
  u ← ggml_bitset_get (hs_used hs) i;
  if negb u then
    hs' ← hs_store hs i key; Ok (Done (hs', i))
  else
    k ← hs_key hs i;
    if k =? key then Ok (Done (hs, i))
    else
      let i := next_slot hs i in
      if i =? h then Err Abort else Ok (Next i).

Definition ggml_hash_find_or_insert (hs : ggml_hash_set) (key : Z) : res (ggml_hash_set * Z) :=
  h ← hash_start hs key;
  while (find_or_insert_step hs key h) (S (Z.to_nat (hs_size hs))) h.

(** ** Size and creation *)

Definition primes : list Z :=
  [2; 3; 5; 11; 17; 37; 67; 131; 257; 521; 1031;
   2053; 4099; 8209; 16411; 32771; 65537; 131101;
   262147; 524309; 1048583; 2097169; 4194319; 8388617;
   16777259; 33554467; 67108879; 134217757; 268435459;
   536870923; 1073741827; 2147483659].

Definition n_primes : Z := Eval compute in zlen primes.

Definition size_step (min_sz : Z) (lr : Z * Z) : res (step (Z * Z) Z) :=
  let '(l, r) := lr in
  if l <? r then
    let m := (l + r) / 2 in
    p ← vget primes m;
    if p <? min_sz then Ok (Next (m + 1, r)) else Ok (Next (l, m))
  else Ok (Done l).

Definition ggml_hash_size (min_sz : Z) : res Z :=
  l ← while (size_step min_sz) (S (length primes)) (0, n_primes);
  if l <? n_primes then vget primes l else Ok (Z.lor min_sz 1).

Definition ggml_hash_set_new (size : Z) : res ggml_hash_set :=
  size ← ggml_hash_size size;
  Ok {| hs_size := size;
        hs_used := replicate (Z.to_nat (ggml_bitset_size size)) 0;
        hs_keys := replicate (Z.to_nat size) None |}.

Definition ggml_hash_set_reset (hs : ggml_hash_set) : ggml_hash_set :=
  {| hs_size := hs_size hs;
     hs_used := replicate (Z.to_nat (ggml_bitset_size (hs_size hs))) 0;
     hs_keys := hs_keys hs |}.

(** * The bit set *)

Definition bit_at (bits : list Z) (i : Z) : bool :=
  match zlookup bits (i / 32) with Some w => Z.testbit w (i mod 32) | None => false end.

Lemma bit_of_pow i : bit_of i = 2 ^ (i mod 32).
Proof.
  unfold bit_of, BITSET_MASK. change 31 with (Z.ones 5). rewrite Z.land_ones by lia. change (2 ^ 5) with 32.
  pose proof (Z.mod_pos_bound i 32 ltac:(lia)). rewrite Z.shiftl_mul_pow2 by lia. rewrite Z.mul_1_l. apply u32_small.
  split; [lia|]. apply (Z.pow_lt_mono_r 2 _ 32); lia.
Qed.

Lemma land_pow_testbit w k : 0 <= k -> negb (Z.land w (2 ^ k) =? 0) = Z.testbit w k.
Proof.
  intros Hk. destruct (Z.testbit w k) eqn:E; destruct (Z.eqb_spec (Z.land w (2 ^ k)) 0) as [Hz|Hz]; try done; exfalso.
  - apply (f_equal (fun z => Z.testbit z k)) in Hz. rewrite Z.land_spec, E, Z.pow2_bits_true, Z.bits_0 in Hz by lia. done.
  - apply Hz, Z.bits_inj'. intros n Hn. rewrite Z.land_spec, Z.bits_0. destruct (decide (n = k)) as [->|Hne]; [by rewrite E|].
    rewrite Z.pow2_bits_false by lia. apply andb_false_r.
Qed.

Section bitset.
Context (bits : list Z) (i : Z) (Hi : 0 <= i < 32 * zlen bits).

Lemma bit_word_range : 0 <= i / 32 < zlen bits.
Proof using Hi. split; [apply Z.div_pos; lia|apply Z.div_lt_upper_bound; lia]. Qed.

Lemma bitset_shr : Z.shiftr i BITSET_SHR = i / 32.
Proof. unfold BITSET_SHR. by rewrite Z.shiftr_div_pow2. Qed.

Lemma bitset_get_ok : ggml_bitset_get bits i = Ok (bit_at bits i).
Proof using Hi.
  unfold ggml_bitset_get, bit_at. rewrite bitset_shr, bit_of_pow. destruct (zlookup_lt _ _ bit_word_range) as [w Hw].
  unfold vget. rewrite Hw. cbn. f_equal. apply land_pow_testbit, Z.mod_pos_bound. lia.
Qed.

Lemma bitset_set_ok :
  exists bits', ggml_bitset_set bits i = Ok bits' /\ zlen bits' = zlen bits /\
    forall j, 0 <= j -> bit_at bits' j = if decide (j = i) then true else bit_at bits j.
Proof using Hi.
  unfold ggml_bitset_set. rewrite bitset_shr, bit_of_pow. pose proof bit_word_range as Hr.
  destruct (zlookup_lt _ _ Hr) as [w Hw]. unfold vget. rewrite Hw. cbn [or_ub mbind res_bind].
  rewrite vset_at by done. eexists. split; [reflexivity|]. split; [apply zlen_insert|].
  intros j Hj. unfold bit_at. rewrite zlookup_insert; [|exact Hr|apply Z.div_pos; [exact Hj|lia]].
  pose proof (Z.mod_pos_bound j 32 ltac:(lia)). pose proof (Z.mod_pos_bound i 32 ltac:(lia)).
  destruct (decide (i / 32 = j / 32)) as [E|E].
  - rewrite Z.lor_spec, <- E, Hw. case_decide as Ej.
    + subst j. rewrite Z.pow2_bits_true by lia. apply orb_true_r.
    + rewrite Z.pow2_bits_false; [apply orb_false_r|].
      pose proof (Z.div_mod i 32 ltac:(lia)). pose proof (Z.div_mod j 32 ltac:(lia)). lia.
  - rewrite decide_False; [done|]. intros ->. done.
Qed.
End bitset.

Lemma bit_at_zeros n i : bit_at (replicate n 0) i = false.
Proof.
  unfold bit_at, zlookup. destruct (0 <=? i / 32); [|done].
  destruct (replicate n 0 !! Z.to_nat (i / 32)) as [w|] eqn:E; rewrite ?E; [|done]. apply lookup_replicate in E as [-> _]. apply Z.bits_0.
Qed.

(** * The table as a partial map from indices to pointers *)

Definition slot (hs : ggml_hash_set) (i : Z) : option Z :=
  if bit_at (hs_used hs) i then mjoin (zlookup (hs_keys hs) i) else None.

(** The [d]-th index that is looked at for a key. *)
Definition probe (hs : ggml_hash_set) (key d : Z) : Z := (ggml_hash key + d) mod hs_size hs.

(** Bits outside the table are not set, a used slot has a key, no key is stored twice,
    and the slots before a key on its way are in use. *)
Record hash_ok (hs : ggml_hash_set) : Prop := {
  ho_size : 0 < hs_size hs < SIZE_MAX - 31;
  ho_used : zlen (hs_used hs) = (hs_size hs + 31) / 32;
  ho_keys : zlen (hs_keys hs) = hs_size hs;
  ho_init : forall i, 0 <= i < hs_size hs -> bit_at (hs_used hs) i = true -> is_Some (slot hs i);
  ho_inj  : forall i j k, 0 <= i < hs_size hs -> 0 <= j < hs_size hs ->
              slot hs i = Some k -> slot hs j = Some k -> i = j;
  ho_way  : forall k d, 0 <= d < hs_size hs -> slot hs (probe hs k d) = Some k ->
              forall e, 0 <= e < d -> is_Some (slot hs (probe hs k e))
}.

Definition hash_mem (hs : ggml_hash_set) (k : Z) : Prop := exists i, 0 <= i < hs_size hs /\ slot hs i = Some k.

Section table.
Context (hs : ggml_hash_set) (Hok : hash_ok hs).

Local Lemma size_pos : 0 < hs_size hs.
Proof using Hok. apply (ho_size hs Hok). Qed.

Lemma probe_range k d : 0 <= probe hs k d < hs_size hs.
Proof using Hok. apply Z.mod_pos_bound, size_pos. Qed.

Lemma probe_next k d : next_slot hs (probe hs k d) = probe hs k (d + 1).
Proof using Hok.
  unfold next_slot. pose proof (probe_range k d). pose proof (ho_size hs Hok).
  rewrite u64_small by lia. unfold probe. rewrite Z.add_mod_idemp_l by lia. f_equal. lia.
Qed.

Lemma probe_start k d : 0 <= d < hs_size hs -> (probe hs k d = probe hs k 0) <-> d = 0.
Proof using Hok.
  intros Hd. pose proof size_pos. split; [|by intros ->]. unfold probe. rewrite Z.add_0_r. intros E.
  assert (d mod hs_size hs = 0) as Hm.
  { replace d with ((ggml_hash k + d) - ggml_hash k) by lia. rewrite Zminus_mod, E, Z.sub_diag. apply Z.mod_0_l. lia. }
  by rewrite Z.mod_small in Hm.
Qed.

Lemma probe_wrap k : probe hs k (hs_size hs) = probe hs k 0.
Proof using Hok.
  pose proof size_pos. unfold probe. rewrite Z.add_0_r. rewrite Z.add_mod, Z.mod_same, Z.add_0_r, Z.mod_mod by lia. done.
Qed.

Lemma probe_surj k i : 0 <= i < hs_size hs -> exists d, 0 <= d < hs_size hs /\ probe hs k d = i.
Proof using Hok.
  intros Hi. pose proof size_pos. exists ((i - ggml_hash k) mod hs_size hs). split; [apply Z.mod_pos_bound; lia|].
  unfold probe. rewrite Z.add_mod_idemp_r by lia. replace (ggml_hash k + (i - ggml_hash k)) with i by lia. by apply Z.mod_small.
Qed.

Lemma start_ok k : hash_start hs k = Ok (probe hs k 0).
Proof using Hok. unfold hash_start, probe. pose proof size_pos. rewrite (proj2 (Z.eqb_neq _ _)) by lia. by rewrite Z.add_0_r. Qed.

Lemma used_get i : 0 <= i < hs_size hs -> ggml_bitset_get (hs_used hs) i = Ok (bool_decide (is_Some (slot hs i))).
Proof using Hok.
  intros Hi. rewrite bitset_get_ok.
  - f_equal. destruct (bit_at (hs_used hs) i) eqn:E.
    + symmetry. apply bool_decide_eq_true_2, (ho_init hs Hok); done.
    + symmetry. apply bool_decide_eq_false_2. unfold slot. rewrite E. by intros [??].
  - rewrite (ho_used hs Hok). pose proof (Z.div_mod (hs_size hs + 31) 32 ltac:(lia)). pose proof (Z.mod_pos_bound (hs_size hs + 31) 32 ltac:(lia)). lia.
Qed.

Lemma key_get i k : slot hs i = Some k -> hs_key hs i = Ok k.
Proof.
  unfold slot, hs_key. destruct (bit_at (hs_used hs) i); [|done]. intros E. unfold vget.
  destruct (zlookup (hs_keys hs) i) as [o|] eqn:El; [|done]. cbn in E |- *. by rewrite E.
Qed.

(** Where the way of a key ends: at the key, at a free slot, or nowhere. *)
Definition stops (k d : Z) : Prop := slot hs (probe hs k d) = None \/ slot hs (probe hs k d) = Some k.
Definition passes (k d : Z) : Prop := exists k', slot hs (probe hs k d) = Some k' /\ k' <> k.

Lemma stops_or_passes k d : stops k d \/ passes k d.
Proof.
  unfold stops, passes. destruct (slot hs (probe hs k d)) as [k'|]; [|by left; left].
  destruct (decide (k' = k)) as [->|]; [by left; right|]. right. by exists k'.
Qed.

Lemma way_ends k :
  (exists d, 0 <= d < hs_size hs /\ stops k d /\ forall e, 0 <= e < d -> passes k e) \/
  (forall e, 0 <= e < hs_size hs -> passes k e).
Proof.
  assert (forall n : nat, (exists d, 0 <= d < Z.of_nat n /\ stops k d /\ forall e, 0 <= e < d -> passes k e) \/
    (forall e, 0 <= e < Z.of_nat n -> passes k e)) as H.
  { induction n as [|n [(d & Hd & Hs & Hp)|IH]]; [right; lia|left; exists d; split; [lia|done]|].
    destruct (stops_or_passes k (Z.of_nat n)) as [Hs|Hp].
    - left. exists (Z.of_nat n). split; [lia|]. split; [done|]. intros e He. apply IH. lia.
    - right. intros e He. destruct (decide (e = Z.of_nat n)) as [->|]; [done|]. apply IH. lia. }
  destruct (H (Z.to_nat (hs_size hs))) as [(d & Hd & Hs & Hp)|Hp]; [left; exists d; split; [lia|done]|right; intros e He; apply Hp; lia].
Qed.

(** A loop over the way of a key. *)
Lemma probe_while {R} (body : Z -> res (step Z R)) k d o fuel :
  0 <= d -> (Z.to_nat d < fuel)%nat ->
  (forall e, 0 <= e < d -> body (probe hs k e) = Ok (Next (probe hs k (e + 1)))) ->
  (r ← body (probe hs k d); match r with Next s => Err Fuel | Done r => Ok r end) = o -> o <> Err Fuel ->
  while body fuel (probe hs k 0) = o.
Proof using.
  intros Hd Hf Hnext Hlast Ho.
  assert (forall n e, (n < fuel)%nat -> 0 <= e -> d = e + Z.of_nat n -> forall f, (n < f)%nat -> while body f (probe hs k e) = o) as H.
  { intros n. induction n as [|n IH]; intros e Hn He Hde f Hlt; destruct f as [|f]; try lia; cbn [while].
    - replace e with d by lia. destruct (body (probe hs k d)) as [[s|r]|x]; cbn in *; subst; done.
    - rewrite Hnext by lia. cbn [mbind res_bind]. apply IH; lia. }
  apply (H (Z.to_nat d) 0); lia.
Qed.
End table.

(** ** The three searches *)

Section search.
Context (hs : ggml_hash_set) (Hok : hash_ok hs) (k : Z).

(** The case distinction of a search: the key is there, it has a place, or there is none. *)
Inductive search_result : Prop :=
| search_found d : 0 <= d < hs_size hs -> slot hs (probe hs k d) = Some k ->
    (forall e, 0 <= e < d -> passes hs k e) -> search_result
| search_free d : 0 <= d < hs_size hs -> slot hs (probe hs k d) = None -> ~ hash_mem hs k ->
    (forall e, 0 <= e < d -> passes hs k e) -> search_result
| search_full : ~ hash_mem hs k -> (forall i, 0 <= i < hs_size hs -> is_Some (slot hs i)) ->
    (forall e, 0 <= e < hs_size hs -> passes hs k e) -> search_result.

Lemma search : search_result.
Proof using Hok.
  destruct (way_ends hs k) as [(d & Hd & [Hn|Hs] & Hp)|Hp].
  - apply (search_free d); try done. intros (i & Hi & Hs).
    destruct (probe_surj hs Hok k i Hi) as (d' & Hd' & <-).
    destruct (Z.lt_trichotomy d' d) as [Hlt|[->|Hgt]].
    + destruct (Hp d' ltac:(lia)) as (k' & Hk' & Hne). congruence.
    + congruence.
    + destruct (ho_way hs Hok k d' Hd' Hs d ltac:(lia)) as [? ?]. congruence.
  - by apply (search_found d).
  - apply search_full; [| |done].
    + intros (i & Hi & Hs). destruct (probe_surj hs Hok k i Hi) as (d' & Hd' & <-).
      destruct (Hp d' Hd') as (k' & Hk' & Hne). congruence.
    + intros i Hi. destruct (probe_surj hs Hok k i Hi) as (d' & Hd' & <-).
      destruct (Hp d' Hd') as (k' & Hk' & Hne). by exists k'.
Qed.

Lemma found_at i : 0 <= i < hs_size hs -> slot hs i = Some k ->
  exists d, 0 <= d < hs_size hs /\ probe hs k d = i /\ forall e, 0 <= e < d -> passes hs k e.
Proof using Hok.
  intros Hi Hs. destruct search as [d Hd Hs' Hp|d Hd Hn Hm _|Hm _ _].
  - exists d. split; [done|]. split; [|done]. by apply (ho_inj hs Hok _ _ k (probe_range hs Hok k d) Hi).
  - destruct Hm. by exists i.
  - destruct Hm. by exists i.
Qed.

(** One look at an index, for the loops that stop at the key or at a free slot. *)
Lemma step_passes d : 0 <= d < hs_size hs - 1 -> passes hs k d ->
  find_step hs k (probe hs k 0) (probe hs k d) = Ok (Next (probe hs k (d + 1))) /\
  insert_step hs k (probe hs k 0) (probe hs k d) = Ok (Next (probe hs k (d + 1))) /\
  find_or_insert_step hs k (probe hs k 0) (probe hs k d) = Ok (Next (probe hs k (d + 1))).
Proof using Hok.
  intros Hd (k' & Hk' & Hne). unfold find_step, insert_step, find_or_insert_step.
  rewrite (used_get hs Hok _ (probe_range hs Hok k d)), Hk', (key_get hs _ k' Hk'). cbn [mbind res_bind].
  rewrite bool_decide_eq_true_2 by by exists k'. cbn [negb]. rewrite (proj2 (Z.eqb_neq k' k)) by done.
  rewrite (probe_next hs Hok), (proj2 (Z.eqb_neq (probe hs k (d + 1)) (probe hs k 0))); [done|].
  intros E. apply (probe_start hs Hok) in E; lia.
Qed.

Lemma step_full d : d = hs_size hs - 1 -> passes hs k d ->
  find_step hs k (probe hs k 0) (probe hs k d) = Ok (Done GGML_HASHSET_FULL) /\
  insert_step hs k (probe hs k 0) (probe hs k d) = Err Abort /\
  find_or_insert_step hs k (probe hs k 0) (probe hs k d) = Err Abort.
Proof using Hok.
  intros Hd (k' & Hk' & Hne). unfold find_step, insert_step, find_or_insert_step.
  rewrite (used_get hs Hok _ (probe_range hs Hok k d)), Hk', (key_get hs _ k' Hk'). cbn [mbind res_bind].
  rewrite bool_decide_eq_true_2 by by exists k'. cbn [negb]. rewrite (proj2 (Z.eqb_neq k' k)) by done.
  rewrite (probe_next hs Hok). replace (d + 1) with (hs_size hs) by lia. rewrite (probe_wrap hs Hok), Z.eqb_refl. done.
Qed.

Lemma step_found i : 0 <= i < hs_size hs -> slot hs i = Some k ->
  find_step hs k (probe hs k 0) i = Ok (Done i) /\
  insert_step hs k (probe hs k 0) i = Ok (Done (hs, GGML_HASHSET_ALREADY_EXISTS)) /\
  find_or_insert_step hs k (probe hs k 0) i = Ok (Done (hs, i)).
Proof using Hok.
  intros Hi Hk. unfold find_step, insert_step, find_or_insert_step.
  rewrite (used_get hs Hok _ Hi), Hk, (key_get hs _ k Hk). cbn [mbind res_bind].
  rewrite bool_decide_eq_true_2 by by exists k. by rewrite Z.eqb_refl.
Qed.

Lemma step_free i hs' : 0 <= i < hs_size hs -> slot hs i = None -> hs_store hs i k = Ok hs' ->
  find_step hs k (probe hs k 0) i = Ok (Done i) /\
  insert_step hs k (probe hs k 0) i = Ok (Done (hs', i)) /\
  find_or_insert_step hs k (probe hs k 0) i = Ok (Done (hs', i)).
Proof using Hok.
  intros Hi Hk Hst. unfold find_step, insert_step, find_or_insert_step.
  rewrite (used_get hs Hok _ Hi), Hk. cbn [mbind res_bind].
  rewrite bool_decide_eq_false_2 by by intros [??]. cbn [negb]. by rewrite Hst.
Qed.

(** ** Storing a key *)

Definition stored (i : Z) (hs' : ggml_hash_set) : Prop :=
  hash_ok hs' /\ hs_size hs' = hs_size hs /\
  forall j, 0 <= j < hs_size hs -> slot hs' j = if decide (j = i) then Some k else slot hs j.

Lemma store_ok d :
  0 <= d < hs_size hs -> slot hs (probe hs k d) = None -> ~ hash_mem hs k ->
  (forall e, 0 <= e < d -> passes hs k e) ->
  exists hs', hs_store hs (probe hs k d) k = Ok hs' /\ stored (probe hs k d) hs'.
Proof using Hok.
  intros Hd Hn Hm Hp. set (i := probe hs k d) in *. pose proof (probe_range hs Hok k d) as Hi. fold i in Hi.
  assert (Hib : 0 <= i < 32 * zlen (hs_used hs)).
  { rewrite (ho_used hs Hok). pose proof (Z.div_mod (hs_size hs + 31) 32 ltac:(lia)). pose proof (Z.mod_pos_bound (hs_size hs + 31) 32 ltac:(lia)). lia. }
  destruct (bitset_set_ok _ i Hib) as (used & Hu & Hlu & Hbits).
  unfold hs_store. rewrite Hu. cbn [mbind res_bind]. rewrite vset_at by (rewrite (ho_keys hs Hok); lia). cbn [mbind res_bind].
  eexists. split; [reflexivity|].
  assert (Hslot : forall j, 0 <= j < hs_size hs ->
    slot {| hs_size := hs_size hs; hs_used := used; hs_keys := <[Z.to_nat i:=Some k]> (hs_keys hs) |} j =
    if decide (j = i) then Some k else slot hs j).
  { intros j Hj. unfold slot. cbn. rewrite Hbits by lia. rewrite zlookup_insert by (rewrite ?(ho_keys hs Hok); lia).
    destruct (decide (j = i)) as [->|Hne]; [by rewrite decide_True|]. by rewrite decide_False. }
  split; [|split; [done|exact Hslot]]. constructor; cbn [hs_size hs_used hs_keys].
  - apply (ho_size hs Hok).
  - rewrite Hlu. apply (ho_used hs Hok).
  - rewrite zlen_insert. apply (ho_keys hs Hok).
  - intros j Hj. rewrite Hslot, Hbits by lia. case_decide; [done|]. apply (ho_init hs Hok); done.
  - intros a b k' Ha Hb. rewrite !Hslot by lia. repeat case_decide; intros Ea Eb; subst; try done.
    + injection Ea as <-. destruct Hm. by exists b.
    + injection Eb as <-. destruct Hm. by exists a.
    + by apply (ho_inj hs Hok _ _ k').
  - intros k' d' Hd' Hs e He. change (probe _ k' d') with (probe hs k' d') in Hs. change (probe _ k' e) with (probe hs k' e).
    rewrite Hslot in Hs by apply (probe_range hs Hok). rewrite Hslot by apply (probe_range hs Hok). destruct (decide (probe hs k' e = i)) as [Ei|Ei]; [by eexists|].
    destruct (decide (probe hs k' d' = i)) as [Ed|Ed]; [|by apply (ho_way hs Hok k' d' Hd' Hs)]. injection Hs as <-.
    assert (d' = d) as ->.
    { destruct (Z.lt_trichotomy d' d) as [Hlt|[?|Hgt]]; [|done|].
      - destruct (Hp d' ltac:(lia)) as (x & Hx & _). congruence.
      - exfalso. subst i. unfold probe in Ed. apply (f_equal (fun z => (z - ggml_hash k) mod hs_size hs)) in Ed.
        rewrite !Zminus_mod_idemp_l in Ed.
        replace (ggml_hash k + d' - ggml_hash k) with d' in Ed by lia. replace (ggml_hash k + d - ggml_hash k) with d in Ed by lia.
        rewrite !Z.mod_small in Ed by lia. lia. }
    destruct (Hp e He) as (x & Hx & _). by exists x.
Qed.

Lemma found_find i : 0 <= i < hs_size hs -> slot hs i = Some k -> ggml_hash_find hs k = Ok i.
Proof using Hok.
  intros Hi Hs. destruct (found_at i Hi Hs) as (d & Hd & <- & Hp). unfold ggml_hash_find. rewrite (start_ok hs Hok). cbn [mbind res_bind].
  apply (probe_while hs _ k d); [lia|lia|intros e He; apply step_passes; [lia|by apply Hp]| |done].
  rewrite (proj1 (step_found _ Hi Hs)). done.
Qed.

Lemma found_find_or_insert i : 0 <= i < hs_size hs -> slot hs i = Some k -> ggml_hash_find_or_insert hs k = Ok (hs, i).
Proof using Hok.
  intros Hi Hs. destruct (found_at i Hi Hs) as (d & Hd & <- & Hp). unfold ggml_hash_find_or_insert. rewrite (start_ok hs Hok). cbn [mbind res_bind].
  apply (probe_while hs _ k d); [lia|lia|intros e He; apply step_passes; [lia|by apply Hp]| |done].
  rewrite (proj2 (proj2 (step_found _ Hi Hs))). done.
Qed.

Lemma found_insert i : 0 <= i < hs_size hs -> slot hs i = Some k -> ggml_hash_insert hs k = Ok (hs, GGML_HASHSET_ALREADY_EXISTS).
Proof using Hok.
  intros Hi Hs. destruct (found_at i Hi Hs) as (d & Hd & <- & Hp). unfold ggml_hash_insert. rewrite (start_ok hs Hok). cbn [mbind res_bind].
  apply (probe_while hs _ k d); [lia|lia|intros e He; apply step_passes; [lia|by apply Hp]| |done].
  rewrite (proj1 (proj2 (step_found _ Hi Hs))). done.
Qed.

(** A key that is not there is stored where its search ends. *)
Lemma absent_insert : ~ hash_mem hs k -> (exists i, 0 <= i < hs_size hs /\ slot hs i = None) ->
  exists hs' i, 0 <= i < hs_size hs /\ slot hs i = None /\ stored i hs' /\
    ggml_hash_find hs k = Ok i /\ ggml_hash_insert hs k = Ok (hs', i) /\ ggml_hash_find_or_insert hs k = Ok (hs', i).
Proof using Hok.
  intros Hm (j & Hj & Hjn). destruct search as [d Hd Hs _|d Hd Hn _ Hp|_ Hf _].
  - destruct Hm. exists (probe hs k d). split; [apply (probe_range hs Hok)|done].
  - destruct (store_ok d Hd Hn Hm Hp) as (hs' & Hst & Hs'). pose proof (probe_range hs Hok k d) as Hi.
    exists hs', (probe hs k d). split; [done|]. split; [done|]. split; [done|].
    destruct (step_free _ _ Hi Hn Hst) as (H1 & H2 & H3).
    unfold ggml_hash_find, ggml_hash_insert, ggml_hash_find_or_insert. rewrite (start_ok hs Hok). cbn [mbind res_bind].
    split; [|split]; (apply (probe_while hs _ k d); [lia|lia|intros e He; apply step_passes; [lia|by apply Hp]|rewrite ?H1, ?H2, ?H3; done|done]).
  - destruct (Hf j Hj) as [??]. congruence.
Qed.

Lemma full_insert : ~ hash_mem hs k -> (forall i, 0 <= i < hs_size hs -> is_Some (slot hs i)) ->
  ggml_hash_find hs k = Ok GGML_HASHSET_FULL /\ ggml_hash_insert hs k = Err Abort /\ ggml_hash_find_or_insert hs k = Err Abort.
Proof using Hok.
  intros Hm Hf. destruct search as [d Hd Hs _|d Hd Hn _ Hp|_ _ Hp].
  - destruct Hm. exists (probe hs k d). split; [apply (probe_range hs Hok)|done].
  - destruct (Hf _ (probe_range hs Hok k d)) as [??]. congruence.
  - pose proof (ho_size hs Hok) as Hsz. destruct (step_full (hs_size hs - 1) eq_refl (Hp (hs_size hs - 1) ltac:(lia))) as (H1 & H2 & H3).
    unfold ggml_hash_find, ggml_hash_insert, ggml_hash_find_or_insert. rewrite (start_ok hs Hok). cbn [mbind res_bind].
    split; [|split]; (apply (probe_while hs _ k (hs_size hs - 1)); [lia|lia|intros e He; apply step_passes; [lia|apply Hp; lia]|rewrite ?H1, ?H2, ?H3; done|done]).
Qed.
End search.

(** ** Sets of bounded size *)

(** A table with at least as many slots as there are possible keys has a place for
    every one of them. *)
Lemma room hs (U : gset Z) k :
  hash_ok hs -> (forall x, hash_mem hs x -> x ∈ U) -> k ∈ U -> ~ hash_mem hs k ->
  Z.of_nat (size U) <= hs_size hs -> exists i, 0 <= i < hs_size hs /\ slot hs i = None.
Proof.
  intros Hok HU Hk Hm Hsz. set (idx := zseq 0 (Z.to_nat (hs_size hs))).
  destruct (decide (Exists (fun i => slot hs i = None) idx)) as [He|He].
  - apply list.Exists_exists in He as (i & Hi & Hn). apply elem_of_zseq in Hi. exists i. split; [lia|done].
  - exfalso. assert (Hall : forall i, i ∈ idx -> exists x, slot hs i = Some x).
    { intros i Hi. destruct (slot hs i) as [x|] eqn:E; [by exists x|]. destruct He. apply list.Exists_exists. by exists i. }
    assert (Hin : forall i, i ∈ idx -> 0 <= i < hs_size hs) by (intros i Hi%elem_of_zseq; lia).
    assert (HN : NoDup ((fun i => default 0 (slot hs i)) <$> idx)).
    { apply NoDup_fmap_2_strong; [|apply NoDup_zseq]. intros a b Ha Hb E.
      destruct (Hall a Ha) as [x Hx], (Hall b Hb) as [y Hy]. rewrite Hx, Hy in E. cbn in E. subst y.
      apply (ho_inj hs Hok a b x); auto. }
    assert (Hsub : list_to_set ((fun i => default 0 (slot hs i)) <$> idx) ⊆ U ∖ {[k]}).
    { intros x Hx. apply elem_of_list_to_set, list_elem_of_fmap in Hx as (i & -> & Hi).
      destruct (Hall i Hi) as [x Hx]. rewrite Hx. cbn. assert (hash_mem hs x) as Hmx by (exists i; auto).
      apply elem_of_difference. split; [by apply HU|]. intros ->%elem_of_singleton. done. }
    apply subseteq_size in Hsub. rewrite (size_list_to_set (C := gset Z)) in Hsub by done.
    rewrite size_difference in Hsub by set_solver. rewrite size_singleton in Hsub.
    unfold idx in Hsub. rewrite length_fmap, length_zseq in Hsub. pose proof (ho_size hs Hok).
    assert (size U <> 0)%nat. { intros H0%size_empty_iff. set_solver. } lia.
Qed.

#[export] Instance hash_mem_dec hs k : Decision (hash_mem hs k).
Proof.
  destruct (decide (Exists (fun i => slot hs i = Some k) (zseq 0 (Z.to_nat (hs_size hs))))) as [He|He].
  - left. apply list.Exists_exists in He as (i & Hi%elem_of_zseq & Hs). exists i. split; [lia|done].
  - right. intros (i & Hi & Hs). destruct He. apply list.Exists_exists. exists i. split; [apply elem_of_zseq; lia|done].
Defined.

(** What a look-up with insertion does when there is room for the keys. *)
Definition looked_up (hs : ggml_hash_set) (k : Z) (hs' : ggml_hash_set) (i : Z) : Prop :=
  hash_ok hs' /\ hs_size hs' = hs_size hs /\ 0 <= i < hs_size hs /\ slot hs' i = Some k /\
  (forall j, 0 <= j < hs_size hs -> j <> i -> slot hs' j = slot hs j) /\
  (slot hs i = Some k \/ slot hs i = None /\ ~ hash_mem hs k).

Lemma find_or_insert_ok hs (U : gset Z) k :
  hash_ok hs -> (forall x, hash_mem hs x -> x ∈ U) -> k ∈ U -> Z.of_nat (size U) <= hs_size hs ->
  exists hs' i, ggml_hash_find_or_insert hs k = Ok (hs', i) /\ looked_up hs k hs' i.
Proof.
  intros Hok HU Hk Hsz. destruct (decide (hash_mem hs k)) as [(i & Hi & Hs)|Hm].
  - exists hs, i. split; [by apply found_find_or_insert|]. unfold looked_up. splits; auto; lia.
  - destruct (absent_insert hs Hok k Hm (room hs U k Hok HU Hk Hm Hsz)) as (hs' & i & Hi & Hn & (Hok' & Hs' & Hslot) & _ & _ & E).
    exists hs', i. split; [done|]. unfold looked_up. splits; auto; try lia.
    + rewrite Hslot by lia. by rewrite decide_True.
    + intros j Hj Hne. rewrite Hslot by lia. by rewrite decide_False.
Qed.

Lemma looked_up_mem hs k hs' i : looked_up hs k hs' i -> forall x, hash_mem hs' x <-> x = k \/ hash_mem hs x.
Proof.
  intros (_ & Hsz & Hi & Hs & Hrest & Hold) x. unfold hash_mem. rewrite Hsz. split.
  - intros (j & Hj & Hx). destruct (decide (j = i)) as [->|Hne]; [left; congruence|].
    right. exists j. split; [done|]. by rewrite <- (Hrest j Hj Hne).
  - intros [->|(j & Hj & Hx)]; [by exists i|]. destruct (decide (j = i)) as [->|Hne].
    + exists i. split; [done|]. destruct Hold as [Hold|[Hold _]]; congruence.
    + exists j. split; [done|]. by rewrite (Hrest j Hj Hne).
Qed.

Lemma contains_spec hs k : hash_ok hs -> ggml_hash_contains hs k = Ok (bool_decide (hash_mem hs k)).
Proof.
  intros Hok. pose proof (ho_size hs Hok) as Hsz. unfold ggml_hash_contains, GGML_HASHSET_FULL.
  assert (Hne : forall i, 0 <= i < hs_size hs -> (i =? SIZE_MAX) = false) by (intros; apply Z.eqb_neq; lia).
  destruct (decide (hash_mem hs k)) as [(i & Hi & Hs)|Hm].
  - rewrite (found_find hs Hok k i Hi Hs). cbn [mbind res_bind]. rewrite Hne by done.
    rewrite (used_get hs Hok i Hi), Hs. f_equal. rewrite !bool_decide_eq_true_2; [done|by exists i|by eexists].
  - rewrite (bool_decide_eq_false_2 (hash_mem hs k)) by done.
    destruct (decide (Exists (fun i => slot hs i = None) (zseq 0 (Z.to_nat (hs_size hs))))) as [He|He].
    + apply list.Exists_exists in He as (j & Hj%elem_of_zseq & Hn).
      destruct (absent_insert hs Hok k Hm) as (hs' & i & Hi & Hin & _ & E & _); [exists j; split; [lia|done]|].
      rewrite E. cbn [mbind res_bind]. rewrite Hne by done. by rewrite (used_get hs Hok i Hi), Hin.
    + destruct (full_insert hs Hok k Hm) as (E & _).
      * intros j Hj. destruct (slot hs j) as [x|] eqn:Ex; [by eexists|]. destruct He. apply list.Exists_exists.
        exists j. split; [apply elem_of_zseq; lia|done].
      * rewrite E. cbn [mbind res_bind]. unfold GGML_HASHSET_FULL. by rewrite Z.eqb_refl.
Qed.

(** ** The size of a new table *)

Lemma primes_bounds : Forall (fun p => 2 <= p <= 2147483659) primes.
Proof. apply (bool_decide_unpack _). vm_compute. exact I. Qed.

Lemma primes_ascending i j p q : zlookup primes i = Some p -> zlookup primes j = Some q -> i <= j -> p <= q.
Proof.
  intros Hp Hq Hij. pose proof (zlookup_Some_lt _ _ _ Hp) as Hi. pose proof (zlookup_Some_lt _ _ _ Hq) as Hj.
  change (zlen primes) with 32 in *.
  assert (H : forallb (fun i => forallb (fun j => negb (i <=? j) ||
     match zlookup primes i, zlookup primes j with Some p, Some q => p <=? q | _, _ => true end) (zseq 0 32)) (zseq 0 32) = true) by (vm_compute; reflexivity).
  rewrite forallb_forall in H. specialize (H i). rewrite <- list_elem_of_In, elem_of_zseq in H. specialize (H ltac:(lia)).
  rewrite forallb_forall in H. specialize (H j). rewrite <- list_elem_of_In, elem_of_zseq in H. specialize (H ltac:(lia)).
  rewrite Hp, Hq in H. rewrite (proj2 (Z.leb_le i j) Hij) in H. cbn in H. by apply Z.leb_le.
Qed.

(** The binary search finds the first prime that is not smaller. *)
Lemma size_search min_sz :
  safe (while (size_step min_sz) (S (length primes)) (0, n_primes)) (fun l =>
    0 <= l <= n_primes /\ (forall i p, 0 <= i < l -> zlookup primes i = Some p -> p < min_sz) /\
    (forall i p, l <= i -> zlookup primes i = Some p -> min_sz <= p)).
Proof.
  apply (while_post _ (fun '(l, r) => 0 <= l <= r /\ r <= n_primes /\
      (forall i p, 0 <= i < l -> zlookup primes i = Some p -> p < min_sz) /\
      (forall i p, r <= i -> zlookup primes i = Some p -> min_sz <= p)) (fun '(l, r) => Z.to_nat (r - l))).
  - unfold n_primes. splits; try lia. intros i p Hi Hp%zlookup_Some_lt. change (zlen primes) with 32 in Hp. lia.
  - vm_compute. lia.
  - intros [l r] (Hl & Hr & Hlo & Hhi). unfold size_step. destruct (Z.ltb_spec l r) as [Hlt|Hge].
    + assert (l <= (l + r) / 2 < r) as Hm by (split; [apply Z.div_le_lower_bound; lia|apply Z.div_lt_upper_bound; lia]).
      destruct (zlookup_lt primes ((l + r) / 2)) as [p Hp]; [change (zlen primes) with 32; unfold n_primes in Hr; lia|].
      rewrite (vget_Some _ _ _ Hp). cbn [mbind res_bind]. destruct (Z.ltb_spec p min_sz) as [Hpl|Hpg]; cbn [post]; splits; try lia; try done.
      * intros i q Hi Hq. assert (q <= p) by (apply (primes_ascending i ((l + r) / 2)); [done|done|lia]). lia.
      * intros i q Hi Hq. assert (p <= q) by (apply (primes_ascending ((l + r) / 2) i); [done|done|lia]). lia.
    + cbn [post]. assert (l = r) as -> by lia. splits; try lia; done.
Qed.

Lemma hash_size_ok min_sz : 0 <= min_sz < 2 ^ 63 ->
  safe (ggml_hash_size min_sz) (fun sz => min_sz <= sz /\ 2 <= sz < SIZE_MAX - 31).
Proof.
  intros Hmin. unfold ggml_hash_size. eapply post_bind; [apply size_search|]. intros l (Hl & Hlo & Hhi).
  destruct (Z.ltb_spec l n_primes) as [Hlt|Hge].
  - destruct (zlookup_lt primes l) as [p Hp]; [change (zlen primes) with n_primes; lia|]. rewrite (vget_Some _ _ _ Hp). cbn [post].
    pose proof (proj1 (Forall_forall _ _) primes_bounds p) as Hb.
    assert (2 <= p <= 2147483659) by (apply Hb, elem_of_zlookup; exists l; split; [by apply zlookup_Some_lt in Hp|done]).
    unfold SIZE_MAX. split; [apply (Hhi l); [lia|done]|lia].
  - cbn [post]. assert (2147483659 < min_sz) by (apply (Hlo 31); [unfold n_primes in *; lia|reflexivity]).
    assert (min_sz <= Z.lor min_sz 1 <= min_sz + 1) as Hlor.
    { pose proof (Z.add_lor_land min_sz 1). assert (0 <= Z.land min_sz 1 <= 1); [|lia].
      change (Z.land min_sz 1) with (Z.land min_sz (Z.ones 1)). rewrite Z.land_ones by lia. change (2 ^ 1) with 2.
      pose proof (Z.mod_pos_bound min_sz 2 ltac:(lia)). lia. }
    unfold SIZE_MAX. lia.
Qed.

(** ** New and cleared tables *)

Lemma bitset_size_div n : 0 <= n <= SIZE_MAX - 31 -> ggml_bitset_size n = (n + 31) / 32.
Proof.
  intros Hn. unfold ggml_bitset_size, BITSET_MASK, BITSET_SHR. rewrite u64_small by lia. by rewrite Z.shiftr_div_pow2.
Qed.

Lemma zeros_ok n keys : 0 < n < SIZE_MAX - 31 -> zlen keys = n ->
  let hs := {| hs_size := n; hs_used := replicate (Z.to_nat (ggml_bitset_size n)) 0; hs_keys := keys |} in
  hash_ok hs /\ forall i, slot hs i = None.
Proof.
  intros Hn Hk hs. assert (Hs : forall i, slot hs i = None) by (intros i; unfold slot; cbn; by rewrite bit_at_zeros).
  split; [|exact Hs]. subst hs. constructor; cbn [hs_size hs_used hs_keys]; try done.
  - rewrite bitset_size_div by lia. unfold zlen. rewrite length_replicate. pose proof (Z.div_pos (n + 31) 32). lia.
  - intros i _. cbn. by rewrite bit_at_zeros.
  - intros i j k _ _. by rewrite Hs.
  - intros k d _. by rewrite Hs.
Qed.

Lemma hash_set_new_ok n : 0 <= n < 2 ^ 63 ->
  safe (ggml_hash_set_new n) (fun hs => hash_ok hs /\ n <= hs_size hs /\ forall i, slot hs i = None).
Proof.
  intros Hn. unfold ggml_hash_set_new. eapply post_bind; [by apply hash_size_ok|]. intros sz [Hle Hsz]. cbn [post].
  destruct (zeros_ok sz (replicate (Z.to_nat sz) None)) as [Hok Hs]; [lia| |by split].
  unfold zlen. rewrite length_replicate. lia.
Qed.

Lemma reset_ok hs : hash_ok hs ->
  hash_ok (ggml_hash_set_reset hs) /\ hs_size (ggml_hash_set_reset hs) = hs_size hs /\ forall i, slot (ggml_hash_set_reset hs) i = None.
Proof.
  intros Hok. destruct (zeros_ok (hs_size hs) (hs_keys hs) (ho_size hs Hok) (ho_keys hs Hok)) as [H1 H2]. by split.
Qed.

(** ** A table behaves as a set *)

Definition insert_keys (hs : ggml_hash_set) (ks : list Z) : res ggml_hash_set :=
  foldM (fun hs k => r ← ggml_hash_find_or_insert hs k; Ok r.1) hs ks.

Lemma insert_keys_ok hs (U : gset Z) ks :
  hash_ok hs -> (forall x, hash_mem hs x -> x ∈ U) -> (forall k, k ∈ ks -> k ∈ U) -> Z.of_nat (size U) <= hs_size hs ->
  safe (insert_keys hs ks) (fun hs' => hash_ok hs' /\ hs_size hs' = hs_size hs /\
    (forall x, hash_mem hs' x <-> x ∈ ks \/ hash_mem hs x) /\
    forall i k, 0 <= i < hs_size hs -> slot hs i = Some k -> slot hs' i = Some k).
Proof.
  intros Hok HU Hks Hsz. unfold insert_keys.
  eapply post_mono; [apply (foldM_post _ (fun seen hs' => (forall x, x ∈ seen -> x ∈ U) /\ hash_ok hs' /\ hs_size hs' = hs_size hs /\
    (forall x, hash_mem hs' x <-> x ∈ seen \/ hash_mem hs x) /\
    forall i k, 0 <= i < hs_size hs -> slot hs i = Some k -> slot hs' i = Some k))|intros hs' [_ H]; exact H|intros e He; exact He].
  - splits; try done; [by intros x ?%elem_of_nil|]. intros x. rewrite elem_of_nil. tauto.
  - intros seen k t Hk (Hseen & Ht & Hst & Hm & Hkeep).
    assert (HtU : forall x, hash_mem t x -> x ∈ U) by (intros x Hx; apply Hm in Hx as [Hx|Hx]; auto).
    destruct (find_or_insert_ok t U k) as (t' & i & E & Hl); [done|done|by apply Hks|lia|].
    rewrite E. cbn [mbind res_bind post fst]. pose proof (looked_up_mem _ _ _ _ Hl) as Hm'. destruct Hl as (H1 & H2 & H3 & H4 & H5 & H6).
    splits; [|done|lia| |].
    + intros x Hx. apply elem_of_app in Hx as [Hx|Hx]; [auto|]. apply list_elem_of_singleton in Hx as ->. auto.
    + intros x. rewrite Hm', Hm, elem_of_app, list_elem_of_singleton. tauto.
    + intros j x Hj Hx. destruct (decide (j = i)) as [->|Hne].
      * apply Hkeep in Hx; [|done]. destruct H6 as [H6|[H6 _]]; congruence.
      * rewrite H5 by (try lia; done). by apply Hkeep.
Qed.

Lemma set_of_keys n ks :
  0 <= n < 2 ^ 63 -> Z.of_nat (size (list_to_set ks : gset Z)) <= n ->
  safe (hs ← ggml_hash_set_new n; insert_keys hs ks) (fun hs =>
    (forall k, ggml_hash_contains hs k = Ok (bool_decide (k ∈ ks))) /\
    (forall k, k ∈ ks -> exists i, 0 <= i < hs_size hs /\ ggml_hash_find hs k = Ok i /\
       ggml_hash_find_or_insert hs k = Ok (hs, i) /\ ggml_hash_insert hs k = Ok (hs, GGML_HASHSET_ALREADY_EXISTS)) /\
    (forall k l i, k ∈ ks -> l ∈ ks -> ggml_hash_find hs k = Ok i -> ggml_hash_find hs l = Ok i -> k = l)).
Proof.
  intros Hn Hsz. eapply post_bind; [by apply hash_set_new_ok|]. intros hs (Hok & Hle & Hs).
  assert (Hempty : forall x, ~ hash_mem hs x) by (intros x (i & _ & Hi); by rewrite Hs in Hi).
  eapply post_mono; [apply (insert_keys_ok hs (list_to_set ks)); [done|by intros x ?%Hempty|set_solver|lia]| |done].
  intros hs' (Hok' & Hs' & Hm & _).
  assert (Hfind : forall k, k ∈ ks -> exists i, 0 <= i < hs_size hs' /\ slot hs' i = Some k).
  { intros k Hk. apply Hm. by left. }
  splits.
  - intros k. rewrite contains_spec by done. f_equal. apply bool_decide_ext. rewrite Hm. pose proof (Hempty k). tauto.
  - intros k Hk. destruct (Hfind k Hk) as (i & Hi & E). exists i. splits; [lia|lia| | |].
    + by apply found_find.
    + by apply found_find_or_insert.
    + by apply (found_insert hs' Hok' k i).
  - intros k l i Hk Hl Ek El. destruct (Hfind k Hk) as (a & Ha & Ea), (Hfind l Hl) as (b & Hb & Eb).
    rewrite (found_find hs' Hok' k a Ha Ea) in Ek. rewrite (found_find hs' Hok' l b Hb Eb) in El. congruence.
Qed.

(** C33. A table of the size that [ggml_hash_set_new] chooses for [n] elements takes any [n]
    pointers, in any order and repeated at will: every insertion returns, the table
    contains exactly these pointers, each has an index of its own, which look-ups find
    again without changing the table, and a second insertion reports that it exists. *)
Theorem hash_set_holds n ks :
  0 <= n < 2 ^ 63 -> Z.of_nat (size (list_to_set ks : gset Z)) <= n ->
  safe (hs ← ggml_hash_set_new n; insert_keys hs ks) (fun hs =>
    (forall k, ggml_hash_contains hs k = Ok (bool_decide (k ∈ ks))) /\
    (forall k, k ∈ ks -> exists i, 0 <= i < hs_size hs /\ ggml_hash_find hs k = Ok i /\
       ggml_hash_find_or_insert hs k = Ok (hs, i) /\ ggml_hash_insert hs k = Ok (hs, GGML_HASHSET_ALREADY_EXISTS)) /\
    (forall k l i, k ∈ ks -> l ∈ ks -> ggml_hash_find hs k = Ok i -> ggml_hash_find hs l = Ok i -> k = l)).
Proof. apply set_of_keys. Qed.

(** Pointers that all start at the same slot, one of them twice. *)
Definition demo_keys : list Z := [80; 80 + 16 * 5; 80 + 16 * 10; 80; 96].

Lemma hash_set_holds_witness :
  0 <= 4 < 2 ^ 63 /\ Z.of_nat (size (list_to_set demo_keys : gset Z)) <= 4 /\
  safe (hs ← ggml_hash_set_new 4; insert_keys hs demo_keys) (fun hs =>
    ggml_hash_contains hs 96 = Ok true /\ ggml_hash_contains hs 112 = Ok false).
Proof.
  assert (H : Z.of_nat (size (list_to_set demo_keys : gset Z)) <= 4) by (apply (bool_decide_unpack _); vm_compute; exact I).
  split; [lia|]. split; [exact H|]. eapply post_mono; [apply (hash_set_holds 4 demo_keys); [lia|exact H]| |intros e He; exact He].
  intros hs (Hc & _ & _). rewrite !Hc. by vm_compute.
Defined.
