(* ===== verification/Alloc.v ===== *)
(** The allocator of offsets in a buffer ([ggml_dyn_tallocr] of
    [ggml/src/ggml-alloc.c]), which plans the offsets of tensors that live for a part of a
    computation. The [n_free_blocks] entries in use of the
    array [free_blocks] are a list; an entry moves when one before it is removed or
    inserted. Offsets and sizes are [size_t]. *)
From S2P Require Import Prelude.

Definition MAX_FREE_BLOCKS : Z := 256.

(** [aligned_offset(buffer, offset, alignment)] for the address [buffer] *)
Definition aligned_offset (buffer offset alignment : Z) : Z :=
  let align := (alignment - u64 (buffer + offset) mod alignment) mod alignment in
  u64 (offset + align).

(** [GGML_PAD(x, n)] *)
Definition GGML_PAD (x n : Z) : Z := Z.land (u64 (u64 (x + n) - 1)) (u64 (Z.lnot (u64 (n - 1)))).

(** ** The dynamic allocator *)

Record free_block : Type := { fb_offset : Z; fb_size : Z }.

#[export] Instance free_block_eq_dec : EqDecision free_block.
Proof. solve_decision. Defined.

Record ggml_dyn_tallocr : Type := {
  da_alignment   : Z;
  da_free_blocks : list free_block;
  da_max_size    : Z
}.

Definition with_blocks (alloc : ggml_dyn_tallocr) (bs : list free_block) : ggml_dyn_tallocr :=
  {| da_alignment := da_alignment alloc; da_free_blocks := bs; da_max_size := da_max_size alloc |}.

(** The best fitting free block besides the last one: the state of the loop is
    [best_fit_block] and [best_fit_size]. *)
Definition best_fit_step (size i : Z) (block : free_block) (best : Z * Z) : Z * Z :=
  if (size <=? fb_size block) && (fb_size block <=? best.2) then (i, fb_size block) else best.

Fixpoint best_fit_loop (size i : Z) (blocks : list free_block) (best : Z * Z) : Z * Z :=
  match blocks with
  | [] | [_] => best
  | block :: rest => best_fit_loop size (i + 1) rest (best_fit_step size i block best)
  end.

Definition best_fit (blocks : list free_block) (size : Z) : res Z :=
  let best := (best_fit_loop size 0 blocks (-1, SIZE_MAX)).1 in
  if best =? -1 then
    block ← vget blocks (zlen blocks - 1);
    if size <=? fb_size block then Ok (zlen blocks - 1) else Err Abort
  else Ok best.

(** Shifting the entries after [i] to the left. *)
Definition remove_block (i : Z) (blocks : list free_block) : list free_block := delete (Z.to_nat i) blocks.

Definition ggml_dyn_tallocr_alloc (alloc : ggml_dyn_tallocr) (size : Z) : res (ggml_dyn_tallocr * Z) :=
  let size := aligned_offset 0 size (da_alignment alloc) in
  let blocks := da_free_blocks alloc in
  best ← best_fit blocks size;
  block ← vget blocks best;
  let offset := fb_offset block in
  let block := {| fb_offset := u64 (offset + size); fb_size := u64 (fb_size block - size) |} in
  blocks ← vset blocks best block;
  let blocks := if fb_size block =? 0 then remove_block best blocks else blocks in
  Ok ({| da_alignment := da_alignment alloc;
         da_free_blocks := blocks;
         da_max_size := Z.max (da_max_size alloc) (u64 (offset + size)) |}, offset).

(** Merging a freed range with the block [i], which ends where the range begins, and
    with the next one. *)
Definition merge_after (blocks : list free_block) (i : Z) (block : free_block) (size : Z) : list free_block :=
  let block := {| fb_offset := fb_offset block; fb_size := u64 (fb_size block + size) |} in
  match zlookup blocks (i + 1) with
  | Some next =>
      if u64 (fb_offset block + fb_size block) =? fb_offset next then
        remove_block (i + 1)
          (<[Z.to_nat i := {| fb_offset := fb_offset block; fb_size := u64 (fb_size block + fb_size next) |}]> blocks)
      else <[Z.to_nat i := block]> blocks
  | None => <[Z.to_nat i := block]> blocks
  end.

(** Merging with the block [i], which begins where the range ends, and with the
    previous one. *)
Definition merge_before (blocks : list free_block) (i : Z) (block : free_block) (offset size : Z) : list free_block :=
  let block := {| fb_offset := offset; fb_size := u64 (fb_size block + size) |} in
  match zlookup blocks (i - 1) with
  | Some prev =>
      if u64 (fb_offset prev + fb_size prev) =? fb_offset block then
        remove_block i
          (<[Z.to_nat (i - 1) := {| fb_offset := fb_offset prev; fb_size := u64 (fb_size prev + fb_size block) |}]>
             (<[Z.to_nat i := block]> blocks))
      else <[Z.to_nat i := block]> blocks
  | None => <[Z.to_nat i := block]> blocks
  end.

(** The loop that looks for a block to merge with; [rest] are the blocks from [i] on. *)
Fixpoint merge_loop (blocks : list free_block) (offset size i : Z) (rest : list free_block) : option (list free_block) :=
  match rest with
  | [] => None
  | block :: rest =>
      if u64 (fb_offset block + fb_size block) =? offset then Some (merge_after blocks i block size)
      else if u64 (offset + size) =? fb_offset block then Some (merge_before blocks i block offset size)
      else merge_loop blocks offset size (i + 1) rest
  end.

(** [insert_pos] *)
Fixpoint insert_pos (blocks : list free_block) (offset : Z) : nat :=
  match blocks with
  | block :: rest => if fb_offset block <? offset then S (insert_pos rest offset) else O
  | [] => O
  end.

Definition insert_block (blocks : list free_block) (offset size : Z) : list free_block :=
  let pos := insert_pos blocks offset in
  take pos blocks ++ {| fb_offset := offset; fb_size := size |} :: drop pos blocks.

Definition ggml_dyn_tallocr_free_tensor (alloc : ggml_dyn_tallocr) (offset size : Z) : res ggml_dyn_tallocr :=
  let size := aligned_offset 0 size (da_alignment alloc) in
  let blocks := da_free_blocks alloc in
  match merge_loop blocks offset size 0 blocks with
  | Some blocks => Ok (with_blocks alloc blocks)
  | None =>
      _ ← ggml_assert (zlen blocks <? MAX_FREE_BLOCKS);
      Ok (with_blocks alloc (insert_block blocks offset size))
  end.

Definition ggml_dyn_tallocr_reset (alloc : ggml_dyn_tallocr) : ggml_dyn_tallocr :=
  {| da_alignment := da_alignment alloc;
     da_free_blocks := [{| fb_offset := 0; fb_size := SIZE_MAX / 2 |}];
     da_max_size := 0 |}.

Definition ggml_dyn_tallocr_new (alignment : Z) : ggml_dyn_tallocr :=
  ggml_dyn_tallocr_reset {| da_alignment := alignment; da_free_blocks := []; da_max_size := 0 |}.

Definition ggml_dyn_tallocr_max_size (alloc : ggml_dyn_tallocr) : Z := da_max_size alloc.
