(* ===== verification/Pad.v ===== *)
(** The macro [GGML_PAD] of [ggml/include/ggml.h]: rounding up to a multiple of a power of
    two by masking bits. *)
From S2P Require Import Prelude Alloc.

Lemma land_high k y : 0 <= k <= 64 -> 0 <= y < 2 ^ 64 -> Z.land y (u64 (Z.lnot (2 ^ k - 1))) = y / 2 ^ k * 2 ^ k.
Proof.
  intros Hk Hy. rewrite <- Z.shiftr_div_pow2, <- Z.shiftl_mul_pow2 by lia. apply Z.bits_inj'. intros n Hn.
  rewrite Z.land_spec. unfold u64, wrap_u. replace (2 ^ k - 1) with (Z.ones k) by (rewrite Z.ones_equiv; lia).
  destruct (Z.lt_ge_cases n 64) as [Hlt|Hge].
  - rewrite Z.mod_pow2_bits_low, Z.lnot_spec by lia. destruct (Z.lt_ge_cases n k) as [Hnk|Hnk].
    + rewrite Z.ones_spec_low, Z.shiftl_spec_low by lia. by rewrite andb_false_r.
    + rewrite Z.ones_spec_high, Z.shiftl_spec, Z.shiftr_spec by lia. cbn. rewrite andb_true_r. f_equal. lia.
  - assert (Hbit : Z.testbit y n = false).
    { destruct (decide (y = 0)) as [->|Hne]; [apply Z.bits_0|]. apply Z.bits_above_log2; [lia|]. apply Z.log2_lt_pow2; [lia|].
      eapply Z.lt_le_trans; [apply Hy|]. apply Z.pow_le_mono_r; lia. }
    rewrite Hbit. cbn. destruct (Z.lt_ge_cases n k) as [Hnk|Hnk]; [lia|]. rewrite Z.shiftl_spec, Z.shiftr_spec by lia. symmetry. rewrite <- Hbit. f_equal. lia.
Qed.

Lemma GGML_PAD_spec x k : 0 <= k <= 62 -> 0 <= x <= 2 ^ 63 -> x <= GGML_PAD x (2 ^ k) < x + 2 ^ k /\ (2 ^ k | GGML_PAD x (2 ^ k)).
Proof.
  intros Hk Hx. assert (1 <= 2 ^ k <= 2 ^ 62) as Hp by (split; [apply (Z.pow_le_mono_r 2 0 k)|apply Z.pow_le_mono_r]; lia).
  unfold GGML_PAD. rewrite !(u64_small (x + 2 ^ k)), (u64_small (x + 2 ^ k - 1)), (u64_small (2 ^ k - 1)) by (unfold SIZE_MAX; lia).
  rewrite land_high by lia. pose proof (Z.div_mod (x + 2 ^ k - 1) (2 ^ k) ltac:(lia)). pose proof (Z.mod_pos_bound (x + 2 ^ k - 1) (2 ^ k) ltac:(lia)).
  split; [lia|by exists ((x + 2 ^ k - 1) / 2 ^ k)].
Qed.


(** The zeros that follow. *)
Lemma neg_mod_spec n al : 0 < al -> 0 <= (- n) mod al < al /\ (al | n + (- n) mod al).
Proof.
  intros Hal. split; [by apply Z.mod_pos_bound|]. apply Z.mod_divide; [lia|]. rewrite Zplus_mod_idemp_r. by replace (n + - n) with 0 by lia.
Qed.

Lemma neg_mod_unique n m al : 0 <= m < al -> (al | n + m) -> (- n) mod al = m.
Proof. intros Hm [q Hq]. symmetry. apply (Z.mod_unique_pos _ _ (- q)); [done|]. lia. Qed.

Lemma GGML_PAD_mod x k : 0 <= k <= 62 -> 0 <= x <= 2 ^ 63 -> GGML_PAD x (2 ^ k) = x + (- x) mod 2 ^ k.
Proof.
  intros Hk Hx. destruct (GGML_PAD_spec x k Hk Hx) as [H1 H2]. rewrite (neg_mod_unique x (GGML_PAD x (2 ^ k) - x)); [lia|lia|].
  by replace (x + (GGML_PAD x (2 ^ k) - x)) with (GGML_PAD x (2 ^ k)) by lia.
Qed.

(** A number with a single bit. *)
Lemma single_bit x : 0 < x -> Z.land x (x - 1) = 0 -> x = 2 ^ Z.log2 x.
Proof.
  intros Hx Hl. destruct (Z.log2_spec x Hx) as [H1 H2]. destruct (decide (x = 2 ^ Z.log2 x)) as [|Hne]; [done|].
  assert (Hlog : Z.log2 (x - 1) = Z.log2 x) by (apply Z.log2_unique; [apply Z.log2_nonneg|lia]).
  assert (Hb : Z.testbit (Z.land x (x - 1)) (Z.log2 x) = true).
  { pose proof (Z.log2_nonneg x). assert (0 < 2 ^ Z.log2 x) by (apply Z.pow_pos_nonneg; lia).
    rewrite Z.land_spec, Z.bit_log2 by done. rewrite <- Hlog. apply Z.bit_log2. lia. }
  rewrite Hl, Z.bits_0 in Hb. done.
Qed.

Lemma GGML_PAD_divide x k : 0 <= k <= 62 -> (2 ^ k | GGML_PAD x (2 ^ k)).
Proof.
  intros Hk. assert (1 <= 2 ^ k <= 2 ^ 62) as Hp by (split; [apply (Z.pow_le_mono_r 2 0 k)|apply Z.pow_le_mono_r]; lia).
  unfold GGML_PAD. rewrite (u64_small (2 ^ k - 1)) by (unfold SIZE_MAX; lia). pose proof (u64_range (u64 (x + 2 ^ k) - 1)) as Hr. unfold SIZE_MAX in Hr.
  rewrite land_high by lia. apply Z.divide_factor_r.
Qed.
