(* ===== verification/AllocSpec.v ===== *)
(** The dynamic allocator of ggml plans ranges that do not overlap. The state is related
    to the list of the ranges that are handed out: every address of the planned space is
    in exactly one free block or one live range ([alloc_ok]); when the sizes are positive
    the free blocks are sorted and no two of them touch ([compact]), from which it follows
    that an allocation finds space and that a free finds a place in the array. *)
From S2P Require Import Prelude Alloc.

(** * Ranges and how often they cover an address *)

Definition HALF : Z := SIZE_MAX / 2.

Lemma HALF_eq : HALF = 9223372036854775807.
Proof. reflexivity. Qed.

Definition covers (b : free_block) (a : Z) : Z :=
  if decide (fb_offset b <= a < fb_offset b + fb_size b) then 1 else 0.

Definition cover (bs : list free_block) (a : Z) : Z := zsum ((fun b => covers b a) <$> bs).

Lemma covers_range b a : 0 <= covers b a <= 1.
Proof. unfold covers. case_decide; lia. Qed.

Lemma covers_in b a : fb_offset b <= a < fb_offset b + fb_size b -> covers b a = 1.
Proof. intros. unfold covers. by rewrite decide_True. Qed.

Lemma covers_out b a : ~ (fb_offset b <= a < fb_offset b + fb_size b) -> covers b a = 0.
Proof. intros. unfold covers. by rewrite decide_False. Qed.

Lemma covers_split o s t a : 0 <= s -> 0 <= t ->
  covers {| fb_offset := o; fb_size := s + t |} a =
  covers {| fb_offset := o; fb_size := s |} a + covers {| fb_offset := o + s; fb_size := t |} a.
Proof. intros. unfold covers; cbn. repeat case_decide; lia. Qed.

Lemma cover_append l k a : cover (l ++ k) a = cover l a + cover k a.
Proof. unfold cover. by rewrite fmap_app, zsum_app. Qed.

Lemma cover_cons b l a : cover (b :: l) a = covers b a + cover l a.
Proof. done. Qed.

Lemma cover_nonneg l a : 0 <= cover l a.
Proof. apply zsum_nonneg, Forall_fmap, Forall_forall. intros b _. cbn. pose proof (covers_range b a). lia. Qed.

Lemma cover_delete l i b a : l !! i = Some b -> cover (delete i l) a = cover l a - covers b a.
Proof.
  intros Hb. rewrite <- (take_drop_middle l i b Hb) at 2. rewrite delete_take_drop, !cover_append, cover_cons. lia.
Qed.

Lemma cover_insert l i b x a : l !! i = Some b -> cover (<[i := x]> l) a = cover l a - covers b a + covers x a.
Proof.
  intros Hb. rewrite <- (take_drop_middle l i b Hb) at 2. rewrite insert_take_drop by (by eapply lookup_lt_Some).
  rewrite !cover_append, !cover_cons. lia.
Qed.

Lemma cover_elem l i b a : l !! i = Some b -> covers b a <= cover l a.
Proof. intros Hb. pose proof (cover_nonneg (delete i l) a) as H. rewrite (cover_delete _ _ _ _ Hb) in H. lia. Qed.

Lemma cover_two l i j b c a : l !! i = Some b -> l !! j = Some c -> i <> j -> covers b a + covers c a <= cover l a.
Proof.
  intros Hb Hc Hij.
  assert (exists k, delete i l !! k = Some c) as [k Hk].
  { destruct (decide (j < i)%nat); [exists j; by rewrite list_lookup_delete_lt|].
    exists (j - 1)%nat. rewrite list_lookup_delete_ge by lia. by replace (S (j - 1)) with j by lia. }
  pose proof (cover_elem _ _ _ a Hk) as H. rewrite (cover_delete _ _ _ _ Hb) in H. lia.
Qed.

Lemma cover_pos l a : 0 < cover l a -> exists i b, l !! i = Some b /\ fb_offset b <= a < fb_offset b + fb_size b.
Proof.
  induction l as [|b l IH]; [cbn; lia|]. rewrite cover_cons. intros H. destruct (decide (fb_offset b <= a < fb_offset b + fb_size b)) as [Hin|Hout].
  - by exists O, b.
  - rewrite covers_out in H by done. destruct IH as (i & c & Hc & Hin); [lia|]. by exists (S i), c.
Qed.

(** * The invariant *)

Section spec.
Context (al : Z) (Hal : 0 < al <= 2 ^ 62).

Record range_ok (b : free_block) : Prop := {
  ro_lo   : 0 <= fb_offset b;
  ro_size : 0 <= fb_size b;
  ro_hi   : fb_offset b + fb_size b <= HALF;
  ro_al   : (al | fb_offset b)
}.

Record alloc_ok (free live : list free_block) (max : Z) : Prop := {
  ao_free  : Forall range_ok free;
  ao_live  : Forall range_ok live;
  ao_al    : Forall (fun b => (al | fb_size b)) live;
  ao_cover : forall a, 0 <= a < HALF -> cover free a + cover live a = 1;
  ao_max   : Forall (fun b => fb_offset b + fb_size b <= max) live;
  ao_bound : 0 <= max <= HALF
}.

Definition pad (size : Z) : Z := aligned_offset 0 size al.

Lemma pad_spec size : 0 <= size <= HALF -> size <= pad size < size + al /\ (al | pad size).
Proof using Hal.
  intros Hs. unfold pad, aligned_offset. rewrite HALF_eq in Hs. assert (2 ^ 62 = 4611686018427387904) as H62 by reflexivity. rewrite H62 in Hal.
  rewrite Z.add_0_l, (u64_small size) by (unfold SIZE_MAX; lia).
  pose proof (Z.mod_pos_bound (al - size mod al) al ltac:(lia)) as Hm. rewrite u64_small by (unfold SIZE_MAX; lia). split; [lia|].
  apply Z.mod_divide; [lia|]. rewrite Z.add_mod_idemp_r by lia.
  replace (size + (al - size mod al)) with (size - size mod al + al) by lia.
  rewrite Z.add_mod, Z.mod_same, Z.add_0_r, Z.mod_mod by lia. rewrite Zminus_mod_idemp_r, Z.sub_diag. apply Z.mod_0_l. lia.
Qed.

Lemma fresh_alloc_ok : alloc_ok [{| fb_offset := 0; fb_size := SIZE_MAX / 2 |}] [] 0.
Proof.
  constructor; [|constructor..| |constructor|rewrite HALF_eq; lia].
  - repeat constructor; cbn; try (change (SIZE_MAX / 2) with HALF; rewrite ?HALF_eq; lia). apply Z.divide_0_r.
  - intros a Ha. cbn. unfold covers; cbn. rewrite decide_True; [done|]. unfold HALF in Ha. lia.
Qed.

(** Free ranges and live ranges are disjoint, and so are two live ranges. *)
Lemma alloc_ok_disjoint free live max : alloc_ok free live max ->
  (forall i j b c a, live !! i = Some b -> live !! j = Some c -> i <> j ->
     fb_offset b <= a < fb_offset b + fb_size b -> ~ (fb_offset c <= a < fb_offset c + fb_size c)) /\
  (forall i j b c a, live !! i = Some b -> free !! j = Some c ->
     fb_offset b <= a < fb_offset b + fb_size b -> ~ (fb_offset c <= a < fb_offset c + fb_size c)).
Proof.
  intros Hok. assert (Hr : forall i b a, live !! i = Some b -> fb_offset b <= a < fb_offset b + fb_size b -> 0 <= a < HALF).
  { intros i b a Hb Ha. destruct (Forall_lookup_1 _ _ _ _ (ao_live _ _ _ Hok) Hb). lia. }
  split; intros i j b c a Hb Hc.
  - intros Hij Hba Hca. pose proof (cover_two _ _ _ _ _ a Hb Hc Hij) as H. rewrite !covers_in in H by done.
    pose proof (ao_cover _ _ _ Hok a (Hr _ _ _ Hb Hba)). pose proof (cover_nonneg free a). lia.
  - intros Hba Hca. pose proof (cover_elem _ _ _ a Hb) as H. pose proof (cover_elem _ _ _ a Hc) as H'. rewrite covers_in in H, H' by done.
    pose proof (ao_cover _ _ _ Hok a (Hr _ _ _ Hb Hba)). lia.
Qed.

(** * Allocation *)

(** The loop keeps the best of the blocks it has seen, which excludes the last one. *)
Lemma best_fit_loop_spec size l i best : 0 <= i ->
  let r := best_fit_loop size i l best in
  (r = best /\ (forall j b, (j < length l - 1)%nat -> l !! j = Some b -> size <= fb_size b -> best.2 < fb_size b) \/
   exists j b, (j < length l - 1)%nat /\ l !! j = Some b /\ r = (i + Z.of_nat j, fb_size b) /\ size <= fb_size b <= best.2 /\
     forall k c, (k < length l - 1)%nat -> l !! k = Some c -> size <= fb_size c -> fb_size b <= fb_size c).
Proof.
  revert i best. induction l as [|b l IH]; intros i best Hi; [left; split; [done|cbn; lia]|].
  destruct l as [|b' l]; [left; split; [done|cbn; lia]|].
  change (best_fit_loop size i (b :: b' :: l) best) with (best_fit_loop size (i + 1) (b' :: l) (best_fit_step size i b best)).
  cbv zeta. specialize (IH (i + 1) (best_fit_step size i b best) ltac:(lia)). cbv zeta in IH.
  assert (Hstep : size <= fb_size b <= best.2 /\ best_fit_step size i b best = (i, fb_size b) \/
                  (size <= fb_size b -> best.2 < fb_size b) /\ best_fit_step size i b best = best).
  { unfold best_fit_step. destruct (Z.leb_spec size (fb_size b)), (Z.leb_spec (fb_size b) best.2); cbn; [left|right..]; split; try done; lia. }
  assert (Hlen : (length (b :: b' :: l) - 1 = S (length (b' :: l) - 1))%nat) by (cbn; lia). rewrite Hlen.
  destruct IH as [[Hr Hno]|(j & c & Hj & Hc & Hr & Hfit & Hmin)]; destruct Hstep as [[Hb Hs]|[Hb Hs]]; rewrite Hs in *.
  - right. exists O, b. split; [lia|]. split; [done|]. split; [rewrite Hr; f_equal; lia|]. split; [done|].
    intros [|k] c Hk Hc Hsz; [injection Hc as <-; lia|]. pose proof (Hno k c ltac:(lia) Hc Hsz) as H. cbn in H. lia.
  - left. split; [done|]. intros [|k] c Hk Hc Hsz; [injection Hc as <-; by apply Hb|]. apply (Hno k); [lia|done|done].
  - right. exists (S j), c. split; [lia|]. split; [done|]. split; [rewrite Hr; f_equal; lia|]. cbn in Hfit. split; [lia|].
    intros [|k] d Hk Hd Hsz; [injection Hd as <-; lia|]. apply (Hmin k); [lia|done|done].
  - right. exists (S j), c. split; [lia|]. split; [done|]. split; [rewrite Hr; f_equal; lia|]. split; [lia|].
    intros [|k] d Hk Hd Hsz; [injection Hd as <-; specialize (Hb Hsz); lia|]. apply (Hmin k); [lia|done|done].
Qed.

(** The block that is taken fits; it is a smallest one that fits among the blocks before
    the last, and the last one only when none of them fits. *)
Definition best_block (free : list free_block) (p : Z) (n : nat) (b : free_block) : Prop :=
  free !! n = Some b /\ p <= fb_size b /\
  (forall k c, (k < length free - 1)%nat -> free !! k = Some c -> p <= fb_size c -> (n < length free - 1)%nat /\ fb_size b <= fb_size c).

Lemma best_fit_spec free p : Forall range_ok free -> free <> [] ->
  post (best_fit free p) (fun i => exists n b, i = Z.of_nat n /\ best_block free p n b)
    (fun e => e = Abort /\ exists b, free !! (length free - 1)%nat = Some b /\ fb_size b < p).
Proof.
  intros Hfree Hne. unfold best_fit. pose proof (best_fit_loop_spec p free 0 (-1, SIZE_MAX) ltac:(lia)) as H. cbv zeta in H.
  destruct H as [[-> Hno]|(j & b & Hj & Hb & -> & Hfit & Hmin)]; cbn [fst].
  - rewrite Z.eqb_refl. assert (Hlen : (0 < length free)%nat) by (destruct free; [done|cbn; lia]).
    destruct (lookup_lt_is_Some_2 free (length free - 1)%nat ltac:(lia)) as [b Hb].
    assert (zlen free - 1 = Z.of_nat (length free - 1)) as El by (unfold zlen; lia).
    rewrite El. unfold vget. rewrite zlookup_nat, Hb. cbn [or_ub mbind res_bind].
    destruct (Z.leb_spec p (fb_size b)) as [Hle|Hgt]; cbn [post].
    + exists (length free - 1)%nat, b. split; [done|]. split; [done|]. split; [done|].
      intros k c Hk Hc Hsz. specialize (Hno k c Hk Hc Hsz). cbn in Hno.
      destruct (Forall_lookup_1 _ _ _ _ Hfree Hc) as [? ? ? _]. rewrite HALF_eq in *. unfold SIZE_MAX in *. lia.
    + split; [done|]. by exists b.
  - rewrite (proj2 (Z.eqb_neq (0 + Z.of_nat j) (-1))) by lia. cbn [post]. exists j, b. split; [lia|].
    split; [done|]. split; [lia|]. intros k c Hk Hc Hsz. split; [lia|]. by apply (Hmin k).
Qed.

(** The last address of the space is never live, because its size is odd. *)
Lemma free_nonempty free live max : (2 | al) -> alloc_ok free live max -> free <> [].
Proof using Hal.
  intros H2 Hok ->. pose proof (ao_cover _ _ _ Hok (HALF - 1) ltac:(rewrite HALF_eq; lia)) as H. cbn in H.
  destruct (cover_pos live (HALF - 1)) as (i & b & Hb & Hin); [lia|].
  destruct (Forall_lookup_1 _ _ _ _ (ao_live _ _ _ Hok) Hb) as [Hlo Hsz Hhi Hdiv].
  pose proof (Forall_lookup_1 _ _ _ _ (ao_al _ _ _ Hok) Hb) as Hdiv'. cbn in Hdiv'.
  assert (2 | HALF) as [k Hk].
  { replace HALF with (fb_offset b + fb_size b) by lia. apply Z.divide_add_r; by eapply Z.divide_trans. }
  rewrite HALF_eq in Hk. lia.
Qed.

(** The free list after taking [p] bytes from the front of block [n]. *)
Definition taken (free : list free_block) (n : nat) (b : free_block) (p : Z) : list free_block :=
  if decide (fb_size b = p) then delete n free
  else <[n := {| fb_offset := fb_offset b + p; fb_size := fb_size b - p |}]> free.

Lemma alloc_step alloc live size :
  da_alignment alloc = al -> alloc_ok (da_free_blocks alloc) live (da_max_size alloc) -> da_free_blocks alloc <> [] -> 0 <= size <= HALF - al ->
  post (ggml_dyn_tallocr_alloc alloc size)
    (fun '(alloc', o) => exists n b, best_block (da_free_blocks alloc) (pad size) n b /\ o = fb_offset b /\
       alloc' = {| da_alignment := al; da_free_blocks := taken (da_free_blocks alloc) n b (pad size);
                   da_max_size := Z.max (da_max_size alloc) (o + pad size) |} /\
       alloc_ok (da_free_blocks alloc') (live ++ [{| fb_offset := o; fb_size := pad size |}]) (da_max_size alloc'))
    (fun e => e = Abort /\ exists b, da_free_blocks alloc !! (length (da_free_blocks alloc) - 1)%nat = Some b /\ fb_size b < pad size).
Proof using Hal.
  intros Ea Hok Hne Hsz. unfold ggml_dyn_tallocr_alloc. rewrite Ea. fold (pad size).
  destruct (pad_spec size ltac:(rewrite HALF_eq in *; lia)) as [Hp Hpal]. set (free := da_free_blocks alloc) in *. set (p := pad size) in *.
  eapply post_bind; [apply best_fit_spec; [apply Hok|done]|]. intros i (n & b & -> & Hbest). pose proof Hbest as (Hb & Hfit & _).
  destruct (Forall_lookup_1 _ _ _ _ (ao_free _ _ _ Hok) Hb) as [Hlo Hbs Hhi Hdiv]. pose proof (ao_bound _ _ _ Hok) as Hmax.
  assert (Hrange : HALF <= SIZE_MAX) by (rewrite HALF_eq; unfold SIZE_MAX; lia).
  unfold vget. rewrite zlookup_nat, Hb. cbn [or_ub mbind res_bind].
  rewrite vset_at by (unfold zlen; apply lookup_lt_Some in Hb; lia). cbn [mbind res_bind fb_size fb_offset].
  rewrite !u64_small by lia. cbn [post]. exists n, b. split; [done|]. split; [done|]. split.
  { f_equal. unfold taken, remove_block. rewrite Nat2Z.id. case_decide as Hd.
    - rewrite (proj2 (Z.eqb_eq (fb_size b - p) 0)) by lia. rewrite !delete_take_drop, take_insert_ge, drop_insert_lt by lia. done.
    - rewrite (proj2 (Z.eqb_neq (fb_size b - p) 0)) by lia. done. }
  unfold remove_block. rewrite Nat2Z.id. cbn [da_free_blocks da_max_size].
  set (b' := {| fb_offset := fb_offset b + p; fb_size := fb_size b - p |}).
  assert (Hb' : range_ok b') by (constructor; cbn; try lia; by apply Z.divide_add_r).
  assert (Hcov : forall a, covers b a = covers {| fb_offset := fb_offset b; fb_size := p |} a + covers b' a).
  { intros a. pose proof (covers_split (fb_offset b) p (fb_size b - p) a ltac:(lia) ltac:(lia)) as H.
    replace (p + (fb_size b - p)) with (fb_size b) in H by lia. destruct b. exact H. }
  assert (Hins : <[n:=b']> free !! n = Some b') by (apply list_lookup_insert_eq; by eapply lookup_lt_Some).
  constructor.
  - case_match; [apply Forall_delete|]; apply Forall_insert; try done; apply Hok.
  - apply Forall_app. split; [apply Hok|]. repeat constructor; cbn; try lia. done.
  - apply Forall_app. split; [exact (ao_al _ _ _ Hok)|]. repeat constructor. done.
  - intros a Ha. rewrite cover_append, cover_cons. change (cover [] a) with 0. pose proof (ao_cover _ _ _ Hok a Ha) as H.
    specialize (Hcov a). destruct (fb_size b - p =? 0) eqn:E.
    + apply Z.eqb_eq in E. rewrite (cover_delete _ _ b') by done. rewrite (cover_insert _ _ b) by done. rewrite (covers_out b' a) in * by (cbn; lia). lia.
    + rewrite (cover_insert _ _ b) by done. lia.
  - apply Forall_app. split; [eapply Forall_impl; [exact (ao_max _ _ _ Hok)|]|apply Forall_singleton; cbn [fb_offset fb_size]; lia].
    intros c Hc. cbn beta in Hc |- *. lia.
  - lia.
Qed.

(** * Freeing *)

Definition fb_end (b : free_block) : Z := fb_offset b + fb_size b.

Lemma HALF_le : HALF <= SIZE_MAX.
Proof. rewrite HALF_eq. unfold SIZE_MAX. lia. Qed.

Lemma fb_eta b : {| fb_offset := fb_offset b; fb_size := fb_size b |} = b.
Proof. by destruct b. Qed.

(** Block [b] does not touch the range from [o] of size [s]. *)
Definition apart (o s : Z) (b : free_block) : Prop := fb_end b <> o /\ o + s <> fb_offset b.

Lemma end_u64 b : range_ok b -> u64 (fb_offset b + fb_size b) = fb_end b.
Proof. intros [H1 H2 H3 _]. pose proof HALF_le. unfold fb_end. apply u64_small. lia. Qed.

Section free.
Context (free : list free_block) (Hfree : Forall range_ok free) (o s : Z) (Ho : 0 <= o) (Hs : 0 <= s) (Hos : o + s <= HALF).

Lemma merge_search_spec i :
  match merge_loop free o s (Z.of_nat i) (drop i free) with
  | None => forall j b, (i <= j)%nat -> free !! j = Some b -> apart o s b
  | Some r => exists n b, (i <= n)%nat /\ free !! n = Some b /\ (forall j c, (i <= j < n)%nat -> free !! j = Some c -> apart o s c) /\
      (fb_end b = o /\ r = merge_after free (Z.of_nat n) b s \/
       fb_end b <> o /\ o + s = fb_offset b /\ r = merge_before free (Z.of_nat n) b o s)
  end.
Proof using Hfree Ho Hs Hos.
  remember (drop i free) as rest eqn:Er. revert i Er. induction rest as [|b rest IH]; intros i Er; cbn [merge_loop].
  - intros j b Hj Hb. apply lookup_lt_Some in Hb. apply (f_equal length) in Er. rewrite length_drop in Er. cbn in Er. lia.
  - assert (Hb : free !! i = Some b) by (rewrite <- (Nat.add_0_r i), <- lookup_drop, <- Er; done).
    assert (Hrest : rest = drop (S i) free) by (apply (f_equal tail) in Er; cbn in Er; rewrite Er, <- (skipn_skipn 1 i); done).
    pose proof (Forall_lookup_1 _ _ _ _ Hfree Hb) as Hok. rewrite end_u64 by done.
    pose proof HALF_le as Hsz. rewrite (u64_small (o + s)) by lia.
    destruct (Z.eqb_spec (fb_end b) o) as [He|He].
    { exists i, b. split; [lia|]. split; [done|]. split; [lia|]. by left. }
    destruct (Z.eqb_spec (o + s) (fb_offset b)) as [Hf|Hf].
    { exists i, b. split; [lia|]. split; [done|]. split; [lia|]. by right. }
    specialize (IH (S i) Hrest). replace (Z.of_nat (S i)) with (Z.of_nat i + 1) in IH by lia.
    assert (Hap : forall j c, (i <= j)%nat -> (S i <= j -> apart o s c)%nat -> free !! j = Some c -> apart o s c).
    { intros j c Hj Hrec Hc. destruct (decide (j = i)) as [->|]; [|apply Hrec; lia]. assert (c = b) as -> by congruence. by split. }
    destruct (merge_loop free o s (Z.of_nat i + 1) rest) as [r|].
    + destruct IH as (n & c & Hn & Hc & Hpre & Hr). exists n, c. split; [lia|]. split; [done|]. split; [|done].
      intros j d Hj Hd. apply (Hap j); [lia| |done]. intros. by apply (Hpre j); [lia|].
    + intros j c Hj Hc. apply (Hap j); [lia| |done]. intros. by apply (IH j).
Qed.

(** The three shapes of the free list after a range is given back. *)
Inductive given_back : list free_block -> Prop :=
| gb_after n b : free !! n = Some b -> fb_end b = o ->
    (forall c, free !! S n = Some c -> o + s <> fb_offset c) ->
    given_back (<[n := {| fb_offset := fb_offset b; fb_size := fb_size b + s |}]> free)
| gb_between n b c : free !! n = Some b -> free !! S n = Some c -> fb_end b = o -> o + s = fb_offset c ->
    given_back (delete (S n) (<[n := {| fb_offset := fb_offset b; fb_size := fb_size b + s + fb_size c |}]> free))
| gb_before n b : free !! n = Some b -> fb_end b <> o -> o + s = fb_offset b ->
    (forall m c, n = S m -> free !! m = Some c -> fb_end c <> o) ->
    given_back (<[n := {| fb_offset := o; fb_size := fb_size b + s |}]> free)
| gb_new : (forall j b, free !! j = Some b -> apart o s b) -> given_back (insert_block free o s).

Lemma merge_after_spec n b : free !! n = Some b -> fb_end b = o -> given_back (merge_after free (Z.of_nat n) b s).
Proof using Hfree Ho Hs Hos.
  intros Hb He. destruct (Forall_lookup_1 _ _ _ _ Hfree Hb) as [Hlo Hbs Hhi _]. unfold fb_end in He.
  pose proof HALF_le as Hsz.
  unfold merge_after. cbn [fb_offset fb_size]. rewrite (u64_small (fb_size b + s)) by lia.
  replace (Z.of_nat n + 1) with (Z.of_nat (S n)) by lia. rewrite zlookup_nat, Nat2Z.id.
  destruct (free !! S n) as [c|] eqn:Hc.
  - rewrite u64_small by lia. destruct (Z.eqb_spec (fb_offset b + (fb_size b + s)) (fb_offset c)) as [E|E].
    + destruct (Forall_lookup_1 _ _ _ _ Hfree Hc) as [Hclo Hcs Hchi _]. rewrite u64_small by lia. unfold remove_block. rewrite Nat2Z.id.
      apply gb_between; [done|done|unfold fb_end; lia|lia].
    + apply gb_after; [done|unfold fb_end; lia|]. rewrite Hc. intros d [= <-]. lia.
  - apply gb_after; [done|unfold fb_end; lia|]. by rewrite Hc.
Qed.

Lemma merge_before_spec n b : free !! n = Some b -> fb_end b <> o -> o + s = fb_offset b ->
  (forall j c, (j < n)%nat -> free !! j = Some c -> apart o s c) -> given_back (merge_before free (Z.of_nat n) b o s).
Proof using Hfree Ho Hs Hos.
  intros Hb Hne He Hpre. destruct (Forall_lookup_1 _ _ _ _ Hfree Hb) as [Hlo Hbs Hhi _].
  pose proof HALF_le as Hsz.
  unfold merge_before. cbn [fb_offset fb_size]. rewrite (u64_small (fb_size b + s)) by lia. rewrite Nat2Z.id.
  assert (Hdone : given_back (<[n:={| fb_offset := o; fb_size := fb_size b + s |}]> free)).
  { apply gb_before; [done|done|done|]. intros m c -> Hc. apply (Hpre m c); [lia|done]. }
  destruct (zlookup free (Z.of_nat n - 1)) as [c|] eqn:Hc; [|done].
  pose proof (zlookup_Some_lt _ _ _ Hc) as Hn. replace (Z.of_nat n - 1) with (Z.of_nat (n - 1)) in Hc by lia. rewrite zlookup_nat in Hc.
  destruct (Hpre (n - 1)%nat c ltac:(lia) Hc) as [Hce _]. rewrite end_u64 by (by eapply Forall_lookup_1).
  by rewrite (proj2 (Z.eqb_neq _ _) Hce).
Qed.

Lemma give_back_spec :
  match merge_loop free o s 0 free with
  | Some r => given_back r
  | None => given_back (insert_block free o s)
  end.
Proof using Hfree Ho Hs Hos.
  pose proof (merge_search_spec 0) as H. rewrite drop_0 in H. change (Z.of_nat 0) with 0 in H.
  destruct (merge_loop free o s 0 free) as [r|].
  - destruct H as (n & b & _ & Hb & Hpre & [[He ->]|(Hne & He & ->)]); [by apply merge_after_spec|].
    apply merge_before_spec; try done. intros j c Hj. apply Hpre. lia.
  - apply gb_new. intros j b. apply H. lia.
Qed.

Lemma insert_block_perm : insert_block free o s ≡ₚ {| fb_offset := o; fb_size := s |} :: free.
Proof. unfold insert_block. rewrite <- Permutation_middle. by rewrite take_drop. Qed.

(** Whatever the shape, the range is free afterwards and nothing else has changed. *)
Lemma given_back_cover r : given_back r ->
  (forall a, cover r a = cover free a + covers {| fb_offset := o; fb_size := s |} a) /\ ((al | o) -> Forall range_ok r).
Proof using Hfree Ho Hs Hos.
  intros Hgb. assert (Hok : forall n b, free !! n = Some b -> range_ok b) by (intros n b; by apply Forall_lookup_1).
  destruct Hgb as [n b Hb He _|n b c Hb Hc He Hf|n b Hb _ Hf _|_].
  - pose proof (Hok _ _ Hb) as [Hlo Hbs Hhi Hdiv]. unfold fb_end in He. split.
    + intros a. rewrite (cover_insert _ _ b) by done. rewrite covers_split by lia. rewrite He, fb_eta. lia.
    + intros _. apply Forall_insert; [done|]. constructor; cbn; try lia. done.
  - pose proof (Hok _ _ Hb) as [Hlo Hbs Hhi Hdiv]. pose proof (Hok _ _ Hc) as [Hclo Hcs Hchi _]. unfold fb_end in He. split.
    + intros a. rewrite (cover_delete _ _ c) by (by rewrite list_lookup_insert_ne by lia). rewrite (cover_insert _ _ b) by done.
      rewrite !covers_split by lia. replace (fb_offset b + (fb_size b + s)) with (fb_offset c) by lia. rewrite He, !fb_eta. lia.
    + intros _. apply Forall_delete, Forall_insert; [done|]. constructor; cbn; try lia. done.
  - pose proof (Hok _ _ Hb) as [Hlo Hbs Hhi Hdiv]. split.
    + intros a. rewrite (cover_insert _ _ b) by done. rewrite (Z.add_comm (fb_size b)), covers_split by lia. rewrite Hf, fb_eta. lia.
    + intros Hal'. apply Forall_insert; [done|]. constructor; cbn; try lia. done.
  - split.
    + intros a. unfold cover. assert (Hp : (fun b => covers b a) <$> insert_block free o s ≡ₚ covers {| fb_offset := o; fb_size := s |} a :: ((fun b => covers b a) <$> free)).
      { by rewrite insert_block_perm. }
      assert (Hz : forall l k, l ≡ₚ k -> zsum l = zsum k).
      { intros l k. induction 1; rewrite ?zsum_cons in *; lia. }
      rewrite (Hz _ _ Hp), zsum_cons. lia.
    + intros Hal'. rewrite insert_block_perm. constructor; [|done]. constructor; cbn; try lia. done.
Qed.
End free.

Lemma free_step alloc live i b :
  da_alignment alloc = al -> alloc_ok (da_free_blocks alloc) live (da_max_size alloc) ->
  live !! i = Some b -> forall size, 0 <= size <= HALF -> fb_size b = pad size ->
  post (ggml_dyn_tallocr_free_tensor alloc (fb_offset b) size)
    (fun alloc' => alloc' = with_blocks alloc (da_free_blocks alloc') /\
       given_back (da_free_blocks alloc) (fb_offset b) (fb_size b) (da_free_blocks alloc') /\
       alloc_ok (da_free_blocks alloc') (delete i live) (da_max_size alloc'))
    (fun e => e = Abort /\ MAX_FREE_BLOCKS <= zlen (da_free_blocks alloc) /\
       given_back (da_free_blocks alloc) (fb_offset b) (fb_size b) (insert_block (da_free_blocks alloc) (fb_offset b) (fb_size b))).
Proof using Hal.
  intros Ea Hok Hb size Hsz Hbsz. unfold ggml_dyn_tallocr_free_tensor. rewrite Ea. fold (pad size). rewrite <- Hbsz.
  destruct (Forall_lookup_1 _ _ _ _ (ao_live _ _ _ Hok) Hb) as [Hlo Hbs Hhi Hdiv].
  assert (Hafter : forall r, given_back (da_free_blocks alloc) (fb_offset b) (fb_size b) r -> alloc_ok r (delete i live) (da_max_size alloc)).
  { intros r Hr. destruct (given_back_cover _ (ao_free _ _ _ Hok) _ _ Hlo Hbs Hhi r Hr) as [Hc Hr'].
    constructor; [by apply Hr'|apply Forall_delete, Hok|apply Forall_delete; exact (ao_al _ _ _ Hok)| |apply Forall_delete; exact (ao_max _ _ _ Hok)|apply Hok].
    intros a Ha. rewrite Hc, (cover_delete _ _ _ _ Hb). pose proof (ao_cover _ _ _ Hok a Ha). rewrite fb_eta. lia. }
  pose proof (give_back_spec _ (ao_free _ _ _ Hok) _ _ Hlo Hbs Hhi) as Hg.
  destruct (merge_loop _ _ _ 0 _) as [r|]; cbn [post].
  - split; [done|]. split; [done|]. by apply Hafter.
  - destruct (Z.ltb_spec (zlen (da_free_blocks alloc)) MAX_FREE_BLOCKS); cbn [ggml_assert mbind res_bind post]; [|done].
    split; [done|]. split; [done|]. by apply Hafter.
Qed.

(** * Sorted and without neighbours *)

Record compact (free : list free_block) : Prop := {
  cp_pos   : forall i b, free !! i = Some b -> 0 < fb_size b;
  cp_order : forall i j b c, (i < j)%nat -> free !! i = Some b -> free !! j = Some c -> fb_offset b < fb_offset c;
  cp_apart : forall i j b c, free !! i = Some b -> free !! j = Some c -> fb_end b <> fb_offset c
}.

(** Two free blocks do not overlap. *)
Definition separate (free : list free_block) : Prop :=
  forall i j b c, i <> j -> free !! i = Some b -> free !! j = Some c -> fb_end b <= fb_offset c \/ fb_end c <= fb_offset b.

Lemma sides (b c : free_block) : 0 < fb_size b -> 0 < fb_size c ->
  (forall a, fb_offset b <= a < fb_end b -> ~ (fb_offset c <= a < fb_end c)) -> fb_end b <= fb_offset c \/ fb_end c <= fb_offset b.
Proof.
  unfold fb_end. intros Hb Hc H. destruct (decide (fb_offset b <= fb_offset c)) as [Hle|Hgt].
  - specialize (H (fb_offset c)). lia.
  - specialize (H (fb_offset b)). lia.
Qed.

Lemma alloc_ok_separate free live max : alloc_ok free live max -> compact free -> separate free.
Proof.
  intros Hok Hcp i j b c Hij Hb Hc. apply sides; [by eapply cp_pos|by eapply cp_pos|]. intros a Ha Ha'.
  pose proof (cover_two _ _ _ _ _ a Hb Hc Hij) as H. rewrite !covers_in in H by done.
  destruct (Forall_lookup_1 _ _ _ _ (ao_free _ _ _ Hok) Hb). unfold fb_end in *.
  pose proof (ao_cover _ _ _ Hok a ltac:(lia)). pose proof (cover_nonneg live a). lia.
Qed.

(** In a compact list there is a gap after every block but the last. *)
Lemma compact_gap free i j b c : compact free -> separate free ->
  (i < j)%nat -> free !! i = Some b -> free !! j = Some c -> fb_end b < fb_offset c.
Proof.
  intros Hcp Hs Hij Hb Hc. pose proof (cp_order _ Hcp _ _ _ _ Hij Hb Hc). pose proof (cp_apart _ Hcp _ _ _ _ Hb Hc).
  pose proof (cp_pos _ Hcp _ _ Hc). unfold fb_end in *. destruct (Hs i j b c ltac:(lia) Hb Hc); unfold fb_end in *; lia.
Qed.

Lemma delete_lookup {A} (l : list A) n i x : delete n l !! i = Some x -> l !! (if decide (i < n)%nat then i else S i) = Some x.
Proof. case_decide; [by rewrite list_lookup_delete_lt|by rewrite list_lookup_delete_ge by lia]. Qed.

Lemma compact_delete free n : compact free -> compact (delete n free).
Proof.
  intros Hcp. constructor.
  - intros i b Hb%delete_lookup. by eapply cp_pos.
  - intros i j b c Hij Hb%delete_lookup Hc%delete_lookup. eapply cp_order; [done| |exact Hb|exact Hc]. repeat case_decide; lia.
  - intros i j b c Hb%delete_lookup Hc%delete_lookup. by eapply cp_apart.
Qed.

(** Replacing a block by another one that keeps its place and its distance. *)
Lemma compact_update free n x : compact free -> 0 < fb_size x ->
  (forall i b, i <> n -> free !! i = Some b ->
     ((i < n)%nat -> fb_offset b < fb_offset x) /\ ((n < i)%nat -> fb_offset x < fb_offset b) /\
     fb_end b <> fb_offset x /\ fb_end x <> fb_offset b) ->
  compact (<[n := x]> free).
Proof.
  intros Hcp Hx Hn. constructor.
  - intros i b. rewrite list_lookup_insert_Some. intros [(-> & -> & _)|[_ Hb]]; [done|by eapply cp_pos].
  - intros i j b c Hij. rewrite !list_lookup_insert_Some. intros [(-> & -> & _)|[Hi Hb]] [(E & -> & _)|[Hj Hc]]; [lia| | |by eapply cp_order].
    + apply (Hn j c); [done|done|lia].
    + subst j. apply (Hn i b); [done|done|lia].
  - intros i j b c. rewrite !list_lookup_insert_Some. intros [(-> & -> & _)|[Hi Hb]] [(E & -> & _)|[Hj Hc]]; [|by apply (Hn j c)|by apply (Hn i b)|by eapply cp_apart].
    unfold fb_end. lia.
Qed.

Lemma compact_taken free live max n b p :
  alloc_ok free live max -> compact free -> free !! n = Some b -> 0 < p <= fb_size b -> compact (taken free n b p).
Proof.
  intros Hok Hcp Hb Hp. pose proof (alloc_ok_separate _ _ _ Hok Hcp) as Hs. unfold taken. case_decide; [by apply compact_delete|].
  apply compact_update; [done|cbn; lia|]. intros i c Hi Hc. unfold fb_end; cbn. pose proof (cp_pos _ Hcp _ _ Hc).
  assert (Hbc : (i < n)%nat -> fb_end c < fb_offset b) by (intros; by eapply compact_gap).
  assert (Hcb : (n < i)%nat -> fb_end b < fb_offset c) by (intros; by eapply compact_gap). unfold fb_end in *.
  destruct (Nat.lt_trichotomy i n) as [?|[?|?]]; [specialize (Hbc ltac:(lia)); lia|done|specialize (Hcb ltac:(lia)); lia].
Qed.

Lemma insert_pos_spec free o :
  (insert_pos free o <= length free)%nat /\
  (forall i b, (i < insert_pos free o)%nat -> free !! i = Some b -> fb_offset b < o) /\
  (forall b, free !! insert_pos free o = Some b -> o <= fb_offset b).
Proof.
  induction free as [|b free (IH1 & IH2 & IH3)]; cbn [insert_pos]; [splits; [done|lia|done]|].
  destruct (Z.ltb_spec (fb_offset b) o) as [Hlt|Hge].
  - splits; [cbn; lia| |done]. intros [|i] c Hi Hc; [by injection Hc as <-|]. apply (IH2 i); [lia|done].
  - splits; [lia|lia|]. by intros c [= <-].
Qed.

Lemma insert_block_lookup free o s i b : insert_block free o s !! i = Some b ->
  i = insert_pos free o /\ b = {| fb_offset := o; fb_size := s |} \/
  (i < insert_pos free o)%nat /\ free !! i = Some b \/
  (insert_pos free o < i)%nat /\ free !! (i - 1)%nat = Some b.
Proof.
  unfold insert_block. destruct (insert_pos_spec free o) as [Hlen _]. set (pos := insert_pos free o) in *.
  rewrite lookup_app. destruct (decide (i < pos)%nat) as [Hi|Hi].
  - rewrite lookup_take_lt by done. destruct (free !! i) eqn:E; [intros [= ->]; right; left; done|].
    apply lookup_ge_None in E. lia.
  - rewrite lookup_take_ge by lia. rewrite length_take, Nat.min_l by lia. rewrite lookup_cons. destruct (i - pos)%nat as [|k] eqn:Ek.
    + intros [= <-]. left. split; [lia|done].
    + rewrite lookup_drop. intros Hb. right; right. split; [lia|]. by replace (i - 1)%nat with (pos + k)%nat by lia.
Qed.

Lemma delete_insert_next {A} (l : list A) n x : delete (S n) (<[n := x]> l) = <[n := x]> (delete (S n) l).
Proof. revert n. induction l as [|y l IH]; intros [|n]; cbn; [done..|]. f_equal. apply IH. Qed.

(** Freeing keeps the list compact. *)
Lemma compact_given_back free o s r : compact free -> separate free -> 0 < s ->
  (forall i b, free !! i = Some b -> fb_end b <= o \/ o + s <= fb_offset b) -> given_back free o s r -> compact r.
Proof.
  intros Hcp Hsep Hs Hside Hgb.
  assert (Hgap : forall i j b c, (i < j)%nat -> free !! i = Some b -> free !! j = Some c -> fb_end b < fb_offset c) by (intros; by eapply compact_gap).
  assert (Hpos : forall i b, free !! i = Some b -> 0 < fb_size b) by (intros; by eapply cp_pos).
  destruct Hgb as [n b Hb He Hnext|n b c Hb Hc He Hf|n b Hb Hne Hf Hprev|Hap].
  - pose proof (Hpos _ _ Hb). apply compact_update; [done|cbn; lia|]. intros i c Hi Hc. pose proof (Hpos _ _ Hc).
    destruct (Nat.lt_trichotomy i n) as [Hlt|[?|Hgt]]; [|done|].
    + pose proof (Hgap _ _ _ _ Hlt Hc Hb). unfold fb_end in *; cbn. lia.
    + pose proof (Hgap _ _ _ _ Hgt Hb Hc). pose proof (Hside _ _ Hc).
      assert (o + s <> fb_offset c); [|unfold fb_end in *; cbn; lia].
      destruct (decide (i = S n)) as [->|Hin]; [by apply Hnext|]. intros E.
      destruct (lookup_lt_is_Some_2 free (S n)) as [d Hd]; [apply lookup_lt_Some in Hc; lia|].
      pose proof (Hgap n (S n) b d ltac:(lia) Hb Hd). pose proof (Hgap (S n) i d c ltac:(lia) Hd Hc). pose proof (Hside _ _ Hd). pose proof (Hpos _ _ Hd).
      unfold fb_end in *. lia.
  - pose proof (Hpos _ _ Hb). pose proof (Hpos _ _ Hc).
    pose proof (Hgap n (S n) b c ltac:(lia) Hb Hc) as Hbc. rewrite delete_insert_next.
    apply compact_update; [by apply compact_delete|cbn; lia|]. intros i d Hi Hd%delete_lookup. pose proof (Hpos _ _ Hd).
    case_decide as Hin.
    + pose proof (Hgap i n d b ltac:(lia) Hd Hb). unfold fb_end in *; cbn. lia.
    + pose proof (Hgap (S n) (S i) c d ltac:(lia) Hc Hd). unfold fb_end in *; cbn. lia.
  - pose proof (Hpos _ _ Hb). apply compact_update; [done|cbn; lia|]. intros i c Hi Hc. pose proof (Hpos _ _ Hc). pose proof (Hside _ _ Hc).
    destruct (Nat.lt_trichotomy i n) as [Hlt|[?|Hgt]]; [|done|].
    + pose proof (Hgap _ _ _ _ Hlt Hc Hb). assert (fb_end c <> o); [|unfold fb_end in *; cbn; lia].
      destruct n as [|m]; [lia|]. destruct (decide (i = m)) as [->|Him]; [by apply (Hprev m)|].
      destruct (lookup_lt_is_Some_2 free m) as [d Hd]; [apply lookup_lt_Some in Hb; lia|].
      pose proof (Hgap i m c d ltac:(lia) Hc Hd). pose proof (Hgap m (S m) d b ltac:(lia) Hd Hb). pose proof (Hside _ _ Hd). pose proof (Hpos _ _ Hd).
      unfold fb_end in *. lia.
    + pose proof (Hgap _ _ _ _ Hgt Hb Hc). unfold fb_end in *; cbn. lia.
  - destruct (insert_pos_spec free o) as (_ & Hbefore & Hat).
    assert (Hafter : forall i b, (insert_pos free o <= i)%nat -> free !! i = Some b -> o + s < fb_offset b).
    { intros i b Hi Hb. destruct (lookup_lt_is_Some_2 free (insert_pos free o)) as [d Hd]; [apply lookup_lt_Some in Hb; lia|].
      pose proof (Hat d Hd). pose proof (Hside _ _ Hb). destruct (Hap _ _ Hb). pose proof (Hpos _ _ Hb). pose proof (Hpos _ _ Hd).
      destruct (decide (i = insert_pos free o)) as [->|]; [|pose proof (Hgap (insert_pos free o) i d b ltac:(lia) Hd Hb)]; unfold fb_end in *; [assert (d = b) by congruence; subst|]; lia. }
    assert (Hbefore' : forall i b, (i < insert_pos free o)%nat -> free !! i = Some b -> fb_end b < o).
    { intros i b Hi Hb. pose proof (Hbefore _ _ Hi Hb). pose proof (Hside _ _ Hb). destruct (Hap _ _ Hb). unfold fb_end in *. lia. }
    constructor.
    + intros i b [(-> & ->)|[[_ Hb]|[_ Hb]]]%insert_block_lookup; [done|by eapply Hpos..].
    + intros i j b c Hij [(-> & ->)|[[Hi Hb]|[Hi Hb]]]%insert_block_lookup [(Ej & ->)|[[Hj Hc]|[Hj Hc]]]%insert_block_lookup; cbn [fb_offset]; try lia.
      * pose proof (Hafter (j - 1)%nat c ltac:(lia) Hc). lia.
      * subst j. by apply (Hbefore i).
      * by apply (cp_order _ Hcp i j).
      * pose proof (Hbefore _ _ Hi Hb). pose proof (Hafter (j - 1)%nat c ltac:(lia) Hc). lia.
      * eapply (cp_order _ Hcp (i - 1) (j - 1)); [lia|done|done].
    + assert (Hx : forall i b, free !! i = Some b -> apart o s b) by done.
      intros i j b c [(-> & ->)|[[_ Hb]|[_ Hb]]]%insert_block_lookup [(Ej & ->)|[[_ Hc]|[_ Hc]]]%insert_block_lookup;
        try (by eapply cp_apart); unfold fb_end; cbn; try lia; try (by apply (Hx _ _ Hc)); by apply (Hx _ _ Hb).
Qed.

(** * What compactness gives *)

Section compacted.
Context (free live : list free_block) (max : Z) (Hok : alloc_ok free live max) (Hcp : compact free).

Local Lemma gap i j b c : (i < j)%nat -> free !! i = Some b -> free !! j = Some c -> fb_end b < fb_offset c.
Proof using Hok Hcp. by apply compact_gap, (alloc_ok_separate _ _ _ Hok Hcp). Qed.

(** An address of the space that no free block has is live. *)
Lemma live_at a : 0 <= a < HALF -> (forall i b, free !! i = Some b -> ~ (fb_offset b <= a < fb_end b)) ->
  exists k r, live !! k = Some r /\ fb_offset r <= a < fb_end r.
Proof using Hok.
  intros Ha Hno. apply cover_pos. pose proof (ao_cover _ _ _ Hok a Ha) as H.
  destruct (decide (0 < cover free a)) as [Hp|Hp]; [|pose proof (cover_nonneg free a); lia].
  apply cover_pos in Hp as (i & b & Hb & Hin). by destruct (Hno i b Hb).
Qed.

(** The end of every block but the last is live. *)
Lemma gap_live i b : (S i < length free)%nat -> free !! i = Some b ->
  exists k r, live !! k = Some r /\ fb_offset r <= fb_end b < fb_end r.
Proof using Hok Hcp.
  intros Hi Hb. destruct (lookup_lt_is_Some_2 free (S i) Hi) as [c Hc]. pose proof (gap i (S i) b c ltac:(lia) Hb Hc) as Hbc.
  destruct (Forall_lookup_1 _ _ _ _ (ao_free _ _ _ Hok) Hc) as [? ? Hchi _]. destruct (Forall_lookup_1 _ _ _ _ (ao_free _ _ _ Hok) Hb) as [? ? _ _].
  apply live_at; [unfold fb_end in *; lia|]. intros j d Hd Hin. destruct (Nat.lt_trichotomy j i) as [Hj|[->|Hj]].
  - pose proof (gap j i d b Hj Hd Hb). unfold fb_end in *. lia.
  - assert (d = b) as -> by congruence. lia.
  - destruct (decide (j = S i)) as [->|Hne]; [assert (d = c) as -> by congruence; lia|].
    pose proof (gap (S i) j c d ltac:(lia) Hc Hd). unfold fb_end in *. lia.
Qed.

(** There is at most one free block more than there are live ranges. *)
Lemma few_blocks : (length free <= length live + 1)%nat.
Proof using Hok Hcp.
  set (R := fun (i k : nat) => exists b r, free !! i = Some b /\ live !! k = Some r /\ fb_offset r <= fb_end b < fb_end r).
  assert (HR : Forall (fun i => exists k, R i k) (seq 0 (length free - 1))).
  { apply Forall_forall. intros i Hi%elem_of_seq. destruct (lookup_lt_is_Some_2 free i ltac:(lia)) as [b Hb].
    destruct (gap_live i b ltac:(lia) Hb) as (k & r & Hr & Hin). by exists k, b, r. }
  apply Forall_choose in HR as (ks & Hks).
  assert (Hlen : length ks = (length free - 1)%nat) by (apply Forall2_length in Hks; by rewrite length_seq in Hks).
  assert (Hlk : forall i k, ks !! i = Some k -> R i k).
  { intros i k Hk. destruct (Forall2_lookup_l _ _ _ _ _ Hks Hk) as (j & Hj & Hjk). apply lookup_seq in Hj as [-> _]. exact Hjk. }
  assert (HN : NoDup ks).
  { assert (Hinj : forall i j k, (i < j)%nat -> ks !! i = Some k -> ks !! j = Some k -> False).
    { intros i j k Hij (b & r & Hb & Hr & Hbr)%Hlk (c & r' & Hc & Hr' & Hcr)%Hlk. assert (r' = r) as -> by congruence.
      pose proof (gap i j b c Hij Hb Hc). pose proof (cp_pos _ Hcp _ _ Hc).
      destruct (alloc_ok_disjoint _ _ _ Hok) as [_ Hd]. apply (Hd _ _ _ _ (fb_offset c) Hr Hc); unfold fb_end in *; lia. }
    apply NoDup_alt. intros i j k Hi Hj. destruct (Nat.lt_trichotomy i j) as [?|[?|?]]; [|done|]; exfalso; eauto. }
  assert (Hsub : ks ⊆ seq 0 (length live)).
  { intros k Hk. apply list_elem_of_lookup in Hk as [i Hi]. destruct (Hlk i k Hi) as (b & r & _ & Hr & _).
    apply elem_of_seq. apply lookup_lt_Some in Hr. lia. }
  pose proof (submseteq_length _ _ (NoDup_submseteq _ _ HN Hsub)) as H. rewrite length_seq in H. lia.
Qed.

(** The last block reaches to the end of the space and begins below [max]. *)
Lemma last_block : (2 | al) -> exists b, free !! (length free - 1)%nat = Some b /\ fb_end b = HALF /\ fb_offset b <= max.
Proof using Hok Hcp.
  intros H2. assert (Hl : exists i b, free !! i = Some b /\ fb_offset b <= HALF - 1 < fb_end b).
  { apply cover_pos. pose proof (ao_cover _ _ _ Hok (HALF - 1) ltac:(rewrite HALF_eq; lia)) as H.
    destruct (decide (0 < cover live (HALF - 1))) as [Hp|Hp]; [|pose proof (cover_nonneg live (HALF - 1)); lia].
    exfalso. apply cover_pos in Hp as (i & b & Hb & Hin). destruct (Forall_lookup_1 _ _ _ _ (ao_live _ _ _ Hok) Hb) as [Hlo Hsz Hhi Hdiv].
    pose proof (Forall_lookup_1 _ _ _ _ (ao_al _ _ _ Hok) Hb) as Hdiv'. cbn in Hdiv'.
    assert (2 | HALF) as [k Hk] by (replace HALF with (fb_offset b + fb_size b) by lia; apply Z.divide_add_r; by eapply Z.divide_trans).
    rewrite HALF_eq in Hk. lia. }
  destruct Hl as (i & b & Hb & Hin). pose proof (Forall_lookup_1 _ _ _ _ (ao_free _ _ _ Hok) Hb) as [Hlo Hsz Hhi _].
  assert (i = length free - 1)%nat as ->.
  { pose proof (lookup_lt_Some _ _ _ Hb). destruct (decide (i = length free - 1)%nat) as [|Hne]; [done|]. exfalso.
    destruct (lookup_lt_is_Some_2 free (S i) ltac:(lia)) as [c Hc]. pose proof (gap i (S i) b c ltac:(lia) Hb Hc).
    destruct (Forall_lookup_1 _ _ _ _ (ao_free _ _ _ Hok) Hc) as [? ? ? _]. unfold fb_end in *. lia. }
  exists b. split; [done|]. split; [unfold fb_end in *; lia|]. pose proof (ao_bound _ _ _ Hok).
  destruct (decide (fb_offset b = 0)); [lia|].
  destruct (live_at (fb_offset b - 1)) as (k & r & Hr & Hrin); [unfold fb_end in *; lia| |].
  - intros j c Hc Hcin. pose proof (cp_apart _ Hcp _ _ _ _ Hc Hb). pose proof (cp_pos _ Hcp _ _ Hb).
    destruct (decide (j = length free - 1)%nat) as [->|Hj]; [assert (c = b) as -> by congruence; lia|].
    destruct (alloc_ok_separate _ _ _ Hok Hcp j (length free - 1)%nat c b Hj Hc Hb); unfold fb_end in *; lia.
  - pose proof (Forall_lookup_1 _ _ _ _ (ao_max _ _ _ Hok) Hr) as H'. cbn in H'. unfold fb_end in *. lia.
Qed.
End compacted.

(** When nothing is live the whole space is one block again. *)
Lemma all_free free max : (2 | al) -> alloc_ok free [] max -> compact free -> free = [{| fb_offset := 0; fb_size := HALF |}].
Proof.
  intros H2 Hok Hcp. pose proof (few_blocks _ _ _ Hok Hcp) as Hlen. destruct (last_block _ _ _ Hok Hcp H2) as (b & Hb & He & _).
  destruct free as [|c [|? ?]]; [done| |cbn in Hlen; lia]. cbn in Hb. injection Hb as ->.
  destruct (Forall_lookup_1 _ _ 0%nat _ (ao_free _ _ _ Hok) eq_refl) as [Hlo Hsz Hhi _].
  destruct (decide (fb_offset b = 0)) as [E|E].
  - unfold fb_end in He. rewrite E in He. destruct b; cbn in *. do 2 f_equal; lia.
  - destruct (live_at _ _ _ Hok 0) as (k & r & Hr & _); [rewrite HALF_eq; lia| |done].
    intros [|i] d Hd; [injection Hd as <-; unfold fb_end; lia|done].
Qed.

(** * Sequences of operations *)

(** The states that allocations of at least [lo] bytes, frees of live ranges and resets
    lead to, with the offset and the size of every live range. *)
Inductive reach (lo : Z) : ggml_dyn_tallocr -> list (Z * Z) -> Prop :=
| reach_new : reach lo (ggml_dyn_tallocr_new al) []
| reach_alloc alloc live size alloc' o :
    reach lo alloc live -> lo <= size <= HALF - al ->
    ggml_dyn_tallocr_alloc alloc size = Ok (alloc', o) -> reach lo alloc' (live ++ [(o, size)])
| reach_free alloc live i o size alloc' :
    reach lo alloc live -> live !! i = Some (o, size) ->
    ggml_dyn_tallocr_free_tensor alloc o size = Ok alloc' -> reach lo alloc' (delete i live)
| reach_reset alloc live :
    reach lo alloc live -> reach lo (ggml_dyn_tallocr_reset alloc) [].

Definition planned (r : Z * Z) : free_block := {| fb_offset := r.1; fb_size := pad r.2 |}.

Record state_ok (lo : Z) (alloc : ggml_dyn_tallocr) (live : list (Z * Z)) : Prop := {
  st_al      : da_alignment alloc = al;
  st_ok      : alloc_ok (da_free_blocks alloc) (planned <$> live) (da_max_size alloc);
  st_compact : 0 < lo -> compact (da_free_blocks alloc);
  st_sizes   : Forall (fun r => lo <= r.2 <= HALF - al) live
}.

Lemma fresh_compact : compact [{| fb_offset := 0; fb_size := SIZE_MAX / 2 |}].
Proof.
  assert (H : forall i b, [{| fb_offset := 0; fb_size := SIZE_MAX / 2 |}] !! i = Some b -> i = O /\ b = {| fb_offset := 0; fb_size := HALF |}).
  { intros [|i] b Hb; [by injection Hb as <-|done]. }
  constructor.
  - intros i b [_ ->]%H. cbn. rewrite HALF_eq. lia.
  - intros i j b c Hij [-> _]%H [-> _]%H. lia.
  - intros i j b c [_ ->]%H [_ ->]%H. unfold fb_end; cbn. rewrite HALF_eq. lia.
Qed.

(** A live range of positive size is beside every free block. *)
Lemma live_side free live max k r : alloc_ok free live max -> compact free -> live !! k = Some r -> 0 < fb_size r ->
  forall i b, free !! i = Some b -> fb_end b <= fb_offset r \/ fb_offset r + fb_size r <= fb_offset b.
Proof.
  intros Hok Hcp Hr Hs i b Hb. apply sides; [by eapply cp_pos|done|].
  intros a Ha Hra. destruct (alloc_ok_disjoint _ _ _ Hok) as [_ Hd]. exact (Hd _ _ _ _ a Hr Hb Hra Ha).
Qed.

Context (Heven : (2 | al)).

Lemma state_alloc lo alloc live size : 0 <= lo -> state_ok lo alloc live -> lo <= size <= HALF - al ->
  post (ggml_dyn_tallocr_alloc alloc size)
    (fun '(alloc', o) => state_ok lo alloc' (live ++ [(o, size)]) /\ da_max_size alloc' = Z.max (da_max_size alloc) (o + pad size) /\
       exists n b, best_block (da_free_blocks alloc) (pad size) n b /\ o = fb_offset b)
    (fun e => e = Abort /\ exists b, da_free_blocks alloc !! (length (da_free_blocks alloc) - 1)%nat = Some b /\ fb_size b < pad size).
Proof using Hal Heven.
  intros Hlo [Ea Hok Hcp Hsz] Hs. eapply post_mono; [apply (alloc_step alloc (planned <$> live) size); [done|done|by eapply free_nonempty|lia]| |done].
  intros [alloc' o] (n & b & Hbest & -> & -> & Hok'). cbn [da_free_blocks da_max_size] in *. split; [|by split; [|exists n, b]].
  pose proof (pad_spec size ltac:(lia)) as [Hp _].
  constructor; cbn [da_alignment da_free_blocks da_max_size]; [done|by rewrite fmap_app| |].
  - intros Hpos. destruct Hbest as (Hb & Hfit & _). eapply compact_taken; [exact Hok|by apply Hcp|exact Hb|lia].
  - apply Forall_app. split; [done|]. apply Forall_singleton. cbn. lia.
Qed.

Lemma state_free lo alloc live i o size : 0 <= lo -> state_ok lo alloc live -> live !! i = Some (o, size) ->
  post (ggml_dyn_tallocr_free_tensor alloc o size)
    (fun alloc' => state_ok lo alloc' (delete i live) /\ da_max_size alloc' = da_max_size alloc)
    (fun e => e = Abort /\ (0 < lo -> 256 < zlen live)).
Proof using Hal.
  intros Hlo [Ea Hok Hcp Hsz] Hi. assert (Hr : (planned <$> live) !! i = Some (planned (o, size))) by (by rewrite list_lookup_fmap, Hi).
  pose proof (Forall_lookup_1 _ _ _ _ Hsz Hi) as Hsize. cbn in Hsize. pose proof (pad_spec size ltac:(lia)) as [Hp _].
  assert (Hcp' : 0 < lo -> forall r, given_back (da_free_blocks alloc) o (pad size) r -> compact r).
  { intros Hpos r Hg. eapply compact_given_back; [by apply Hcp|eapply alloc_ok_separate; [exact Hok|by apply Hcp]| | |exact Hg]; [lia|].
    apply (live_side _ _ _ _ _ Hok (Hcp Hpos) Hr). cbn. lia. }
  pose proof (free_step alloc (planned <$> live) i (planned (o, size)) Ea Hok Hr size ltac:(lia) eq_refl) as H. cbn [fb_offset fb_size planned fst snd] in H.
  eapply post_mono; [exact H| |].
  - intros alloc' (E & Hg & Hok'). rewrite E. cbn [da_max_size with_blocks]. split; [|done].
    constructor; cbn [da_alignment da_free_blocks da_max_size with_blocks]; [done| | |by apply Forall_delete].
    + rewrite E in Hok'. cbn [da_free_blocks da_max_size with_blocks] in Hok'. by rewrite list_fmap_delete.
    + intros Hpos. by apply Hcp'.
  - intros e (-> & Hfull & Hg). split; [done|]. intros Hpos. pose proof (Hcp' Hpos _ Hg) as Hc.
    destruct (Forall_lookup_1 _ _ _ _ (ao_live _ _ _ Hok) Hr) as [Hro Hrs Hrhi Hrdiv]. cbn in Hro, Hrs, Hrhi, Hrdiv.
    destruct (given_back_cover _ (ao_free _ _ _ Hok) _ _ Hro Hrs Hrhi _ Hg) as [Hcov Hrange].
    assert (Hok' : alloc_ok (insert_block (da_free_blocks alloc) o (pad size)) (delete i (planned <$> live)) (da_max_size alloc)).
    { constructor; [by apply Hrange|apply Forall_delete, Hok|apply Forall_delete; exact (ao_al _ _ _ Hok)| |apply Forall_delete; exact (ao_max _ _ _ Hok)|apply Hok].
      intros a Ha. rewrite Hcov, (cover_delete _ _ _ _ Hr). pose proof (ao_cover _ _ _ Hok a Ha). change (planned (o, size)) with {| fb_offset := o; fb_size := pad size |}. lia. }
    pose proof (few_blocks _ _ _ Hok' Hc) as Hlen. rewrite insert_block_perm, length_delete, length_fmap in Hlen by (by eexists).
    unfold MAX_FREE_BLOCKS, zlen in *. apply lookup_lt_Some in Hi. cbn in Hlen. lia.
Qed.

Lemma state_reset lo alloc live : state_ok lo alloc live -> state_ok lo (ggml_dyn_tallocr_reset alloc) [].
Proof.
  intros [Ea _ _ _]. constructor; cbn [da_alignment da_free_blocks da_max_size ggml_dyn_tallocr_reset]; [done|exact fresh_alloc_ok|intros _; exact fresh_compact|constructor].
Qed.

Lemma reach_state lo alloc live : 0 <= lo -> reach lo alloc live -> state_ok lo alloc live.
Proof using Hal Heven.
  intros Hlo H. induction H as [|alloc live size alloc' o _ IH Hs E|alloc live i o size alloc' _ IH Hi E|alloc live _ IH].
  - constructor; cbn; [done|exact fresh_alloc_ok|intros _; exact fresh_compact|constructor].
  - pose proof (state_alloc lo alloc live size Hlo IH Hs) as H. rewrite E in H. apply H.
  - pose proof (state_free lo alloc live i o size Hlo IH Hi) as H. rewrite E in H. apply H.
  - by apply (state_reset lo alloc live).
Qed.

(** The ranges that the live entries asked for. *)
Definition in_range (r : Z * Z) (a : Z) : Prop := r.1 <= a < r.1 + r.2.

Lemma state_safe alloc live : state_ok 0 alloc live ->
  (forall i j r q a, live !! i = Some r -> live !! j = Some q -> i <> j -> in_range r a -> ~ in_range q a) /\
  (forall i r, live !! i = Some r -> 0 <= r.1 /\ r.1 + r.2 <= da_max_size alloc /\ (al | r.1)).
Proof using Hal.
  intros [_ Hok _ Hsz].
  assert (Hpl : forall i r, live !! i = Some r -> (planned <$> live) !! i = Some (planned r) /\ r.2 <= pad r.2).
  { intros i r Hr. split; [by rewrite list_lookup_fmap, Hr|]. pose proof (Forall_lookup_1 _ _ _ _ Hsz Hr) as H. cbn in H. apply pad_spec. lia. }
  split.
  - intros i j r q a Hr Hq Hij Hra Hqa. destruct (Hpl i r Hr) as [Hr' Hpr], (Hpl j q Hq) as [Hq' Hpq].
    destruct (alloc_ok_disjoint _ _ _ Hok) as [Hd _]. unfold in_range in *.
    apply (Hd i j (planned r) (planned q) a Hr' Hq' Hij); cbn; lia.
  - intros i r Hr. destruct (Hpl i r Hr) as [Hr' Hpr]. destruct (Forall_lookup_1 _ _ _ _ (ao_live _ _ _ Hok) Hr') as [H1 H2 H3 H4].
    pose proof (Forall_lookup_1 _ _ _ _ (ao_max _ _ _ Hok) Hr') as H5. cbn in *. splits; [lia|lia|done].
Qed.
End spec.

(** * The properties of the allocator *)

(** The planned ranges never overlap: in every state that allocations (of any sizes,
    zero included), frees and resets lead to, two live tensors share no byte, each begins
    at a multiple of the alignment and lies below [max_size], which is therefore a
    sufficient size of the buffer; a further allocation returns an offset or aborts, and
    so does a free of a live tensor. *)
Theorem tallocr_ranges_disjoint al alloc live :
  0 < al <= 2 ^ 62 -> (2 | al) -> reach al 0 alloc live ->
  (forall i j r q a, live !! i = Some r -> live !! j = Some q -> i <> j -> in_range r a -> ~ in_range q a) /\
  (forall i r, live !! i = Some r -> 0 <= r.1 /\ r.1 + r.2 <= ggml_dyn_tallocr_max_size alloc /\ (al | r.1)) /\
  (forall size, 0 <= size <= HALF - al ->
     post (ggml_dyn_tallocr_alloc alloc size) (fun '(alloc', o) => ggml_dyn_tallocr_max_size alloc <= ggml_dyn_tallocr_max_size alloc')
       (fun e => e = Abort)) /\
  (forall i o size, live !! i = Some (o, size) ->
     post (ggml_dyn_tallocr_free_tensor alloc o size) (fun alloc' => ggml_dyn_tallocr_max_size alloc' = ggml_dyn_tallocr_max_size alloc)
       (fun e => e = Abort)).
Proof.
  intros Hal H2 Hr. pose proof (reach_state al Hal H2 0 alloc live ltac:(lia) Hr) as Hst.
  destruct (state_safe al Hal alloc live Hst) as [Hd Hb]. split; [exact Hd|]. split; [exact Hb|]. split.
  - intros size Hs. eapply post_mono; [by apply (state_alloc al Hal H2 0 alloc live)| |by intros e [? _]].
    intros [alloc' o] (_ & E & _). unfold ggml_dyn_tallocr_max_size. lia.
  - intros i o size Hi. eapply post_mono; [by apply (state_free al Hal 0 alloc live i)|by intros alloc' [_ ?]|by intros e [? _]].
Qed.

(** C34. The allocator makes progress when the sizes are positive: the free blocks are
    sorted with a gap between them, an allocation returns as long as the space above
    [max_size] can take it, from a best fitting block, a free returns as long as at
    most 256 tensors are live, and once nothing is live the whole space is one block. *)
Theorem tallocr_progress al alloc live :
  0 < al <= 2 ^ 62 -> (2 | al) -> reach al 1 alloc live ->
  (forall i j b c, (i < j)%nat -> da_free_blocks alloc !! i = Some b -> da_free_blocks alloc !! j = Some c -> fb_end b < fb_offset c) /\
  (forall size, 1 <= size -> ggml_dyn_tallocr_max_size alloc + size + al <= HALF ->
     exists alloc' n b, ggml_dyn_tallocr_alloc alloc size = Ok (alloc', fb_offset b) /\
       best_block (da_free_blocks alloc) (pad al size) n b) /\
  (forall i o size, live !! i = Some (o, size) -> zlen live <= 256 -> exists alloc', ggml_dyn_tallocr_free_tensor alloc o size = Ok alloc') /\
  (live = [] -> da_free_blocks alloc = [{| fb_offset := 0; fb_size := HALF |}]).
Proof.
  intros Hal H2 Hr. pose proof (reach_state al Hal H2 1 alloc live ltac:(lia) Hr) as Hst.
  destruct (Hst) as [Ea Hok Hcp Hsz]. specialize (Hcp ltac:(lia)). pose proof (alloc_ok_separate al _ _ _ Hok Hcp) as Hsep.
  pose proof (ao_bound _ _ _ _ Hok) as Hmax. unfold ggml_dyn_tallocr_max_size. split; [|split; [|split]].
  - intros i j b c. by apply compact_gap.
  - intros size Hs1 Hs2. pose proof (state_alloc al Hal H2 1 alloc live size ltac:(lia) Hst ltac:(lia)) as H.
    destruct (ggml_dyn_tallocr_alloc alloc size) as [[alloc' o]|e]; cbn [post] in H.
    + destruct H as (_ & _ & n & b & Hb & ->). by exists alloc', n, b.
    + exfalso. destruct H as (_ & b & Hb & Hlt). destruct (last_block al _ _ _ Hok Hcp H2) as (b' & Hb' & He & Ho).
      assert (b' = b) as -> by congruence. pose proof (pad_spec al Hal size ltac:(lia)) as [Hp _]. unfold fb_end in He. lia.
  - intros i o size Hi Hlen. pose proof (state_free al Hal 1 alloc live i o size ltac:(lia) Hst Hi) as H.
    destruct (ggml_dyn_tallocr_free_tensor alloc o size) as [alloc'|e]; [by exists alloc'|].
    destruct H as [_ H]. specialize (H ltac:(lia)). lia.
  - intros ->. by apply (all_free al _ _ H2 Hok).
Qed.

(** * Examples *)

(** Two tensors, the first is given back. *)
Definition demo_alloc : res (ggml_dyn_tallocr * list (Z * Z)) :=
  '(a, o1) ← ggml_dyn_tallocr_alloc (ggml_dyn_tallocr_new 32) 40;
  '(a, o2) ← ggml_dyn_tallocr_alloc a 100;
  a ← ggml_dyn_tallocr_free_tensor a o1 40;
  Ok (a, [(o2, 100)]).

Definition demo_state : ggml_dyn_tallocr :=
  {| da_alignment := 32;
     da_free_blocks := [{| fb_offset := 0; fb_size := 64 |}; {| fb_offset := 192; fb_size := HALF - 192 |}];
     da_max_size := 192 |}.

Lemma demo_reach lo : lo <= 40 -> reach 32 lo demo_state [(64, 100)].
Proof.
  intros Hlo. assert (H32 : 100 <= HALF - 32) by (rewrite HALF_eq; lia).
  apply (reach_free 32 lo {| da_alignment := 32; da_free_blocks := [{| fb_offset := 192; fb_size := HALF - 192 |}]; da_max_size := 192 |} [(0, 40); (64, 100)] 0 0 40);
    [|reflexivity|vm_compute; reflexivity].
  apply (reach_alloc 32 lo {| da_alignment := 32; da_free_blocks := [{| fb_offset := 64; fb_size := HALF - 64 |}]; da_max_size := 64 |} [(0, 40)] 100);
    [|lia|vm_compute; reflexivity].
  apply (reach_alloc 32 lo (ggml_dyn_tallocr_new 32) [] 40); [constructor|lia|vm_compute; reflexivity].
Qed.

Lemma tallocr_ranges_disjoint_witness :
  (32 | 64) /\ 64 + 100 <= ggml_dyn_tallocr_max_size demo_state /\
  post (ggml_dyn_tallocr_alloc demo_state 60) (fun '(a, o) => o = 0) (fun _ => False).
Proof.
  assert (H2 : (2 | 32)) by (exists 16; reflexivity). assert (H62 : 0 < 32 <= 2 ^ 62) by (split; reflexivity || discriminate).
  destruct (tallocr_ranges_disjoint 32 demo_state [(64, 100)] H62 H2 (demo_reach 0 ltac:(lia))) as (_ & Hr & _).
  destruct (Hr O (64, 100) eq_refl) as (_ & H1 & H3). split; [exact H3|]. split; [exact H1|]. vm_compute. reflexivity.
Defined.

Lemma tallocr_progress_witness :
  exists a, ggml_dyn_tallocr_free_tensor demo_state 64 100 = Ok a /\ ggml_dyn_tallocr_max_size a = 192.
Proof.
  assert (H2 : (2 | 32)) by (exists 16; reflexivity). assert (H62 : 0 < 32 <= 2 ^ 62) by (split; reflexivity || discriminate).
  destruct (tallocr_progress 32 demo_state [(64, 100)] H62 H2 (demo_reach 1 ltac:(lia))) as (_ & _ & Hf & _).
  destruct (Hf O 64 100 eq_refl ltac:(vm_compute; discriminate)) as (a & E). exists a. split; [exact E|].
  vm_compute in E. injection E as <-. reflexivity.
Defined.

(** A tensor without bytes leaves an empty block behind when it is freed, here inside
    another free block: the array is not sorted by address any more and its blocks touch. *)
Lemma empty_tensor_breaks_order :
  (a ← (r ← ggml_dyn_tallocr_alloc (ggml_dyn_tallocr_new 32) 64; Ok r.1);
   a ← (r ← ggml_dyn_tallocr_alloc a 0; Ok r.1);
   a ← ggml_dyn_tallocr_free_tensor a 0 64;
   a ← ggml_dyn_tallocr_free_tensor a 64 0;
   a ← (r ← ggml_dyn_tallocr_alloc a 96; Ok r.1);
   Ok (fb_offset <$> da_free_blocks a)) = Ok [96; 64].
Proof. vm_compute. reflexivity. Qed.
