(* ===== verification/Tensor.v ===== *)
(** Tensors and graphs as the allocator sees them ([ggml/include/ggml.h],
    [ggml/src/ggml-impl.h]), and the sizes of types and tensors ([ggml/src/ggml.c]): a
    pointer to a tensor is its address, and the tensors of a graph are a heap that maps
    addresses to the structures. *)
From S2P Require Import Prelude HashSet.

Definition GGML_MAX_SRC : Z := 10.
Definition GGML_MAX_DIMS : Z := 4.
Definition GGML_MAX_NAME : Z := 64.

Inductive ggml_op : Type :=
| GGML_OP_NONE | GGML_OP_DUP | GGML_OP_ADD | GGML_OP_ADD1 | GGML_OP_ACC | GGML_OP_SUB | GGML_OP_MUL
| GGML_OP_DIV | GGML_OP_SQR | GGML_OP_SQRT | GGML_OP_LOG | GGML_OP_SIN | GGML_OP_COS | GGML_OP_SUM
| GGML_OP_SUM_ROWS | GGML_OP_MEAN | GGML_OP_ARGMAX | GGML_OP_COUNT_EQUAL | GGML_OP_REPEAT
| GGML_OP_REPEAT_BACK | GGML_OP_CONCAT | GGML_OP_SILU_BACK | GGML_OP_NORM | GGML_OP_RMS_NORM
| GGML_OP_RMS_NORM_BACK | GGML_OP_GROUP_NORM | GGML_OP_MUL_MAT | GGML_OP_MUL_MAT_ID | GGML_OP_OUT_PROD
| GGML_OP_SCALE | GGML_OP_SET | GGML_OP_CPY | GGML_OP_CONT | GGML_OP_RESHAPE | GGML_OP_VIEW | GGML_OP_PERMUTE
| GGML_OP_TRANSPOSE | GGML_OP_GET_ROWS | GGML_OP_GET_ROWS_BACK | GGML_OP_DIAG | GGML_OP_DIAG_MASK_INF
| GGML_OP_DIAG_MASK_ZERO | GGML_OP_SOFT_MAX | GGML_OP_SOFT_MAX_BACK | GGML_OP_ROPE | GGML_OP_ROPE_BACK
| GGML_OP_CLAMP | GGML_OP_CONV_TRANSPOSE_1D | GGML_OP_IM2COL | GGML_OP_IM2COL_BACK | GGML_OP_CONV_TRANSPOSE_2D
| GGML_OP_POOL_1D | GGML_OP_POOL_2D | GGML_OP_POOL_2D_BACK | GGML_OP_UPSCALE | GGML_OP_PAD
| GGML_OP_PAD_REFLECT_1D | GGML_OP_ARANGE | GGML_OP_TIMESTEP_EMBEDDING | GGML_OP_ARGSORT | GGML_OP_LEAKY_RELU
| GGML_OP_FLASH_ATTN_EXT | GGML_OP_FLASH_ATTN_BACK | GGML_OP_SSM_CONV | GGML_OP_SSM_SCAN | GGML_OP_WIN_PART
| GGML_OP_WIN_UNPART | GGML_OP_GET_REL_POS | GGML_OP_ADD_REL_POS | GGML_OP_RWKV_WKV6
| GGML_OP_GATED_LINEAR_ATTN | GGML_OP_UNARY | GGML_OP_MAP_UNARY | GGML_OP_MAP_BINARY | GGML_OP_MAP_CUSTOM1_F32
| GGML_OP_MAP_CUSTOM2_F32 | GGML_OP_MAP_CUSTOM3_F32 | GGML_OP_MAP_CUSTOM1 | GGML_OP_MAP_CUSTOM2
| GGML_OP_MAP_CUSTOM3 | GGML_OP_CROSS_ENTROPY_LOSS | GGML_OP_CROSS_ENTROPY_LOSS_BACK | GGML_OP_OPT_STEP_ADAMW.

#[export] Instance ggml_op_eq_dec : EqDecision ggml_op.
Proof. solve_decision. Defined.

Definition GGML_TENSOR_FLAG_INPUT  : Z := 1.
Definition GGML_TENSOR_FLAG_OUTPUT : Z := 2.

Definition GGML_TENSOR_FLAG_PARAM  : Z := 4.

(** A null pointer is [None], and [src] has [GGML_MAX_SRC] entries. Left out are the
    parameters of the operation and [extra], which belong to the kernels. *)
Record ggml_tensor : Type := {
  t_type      : Z;
  t_buffer    : option Z;
  t_ne        : list Z;
  t_nb        : list Z;
  t_op        : ggml_op;
  t_flags     : Z;
  t_src       : list (option Z);
  t_view_src  : option Z;
  t_view_offs : Z;
  t_data      : option Z;
  t_name      : bytes
}.

(** The array [src] with the given sources at its start. *)
Definition src_array (srcs : list Z) : list (option Z) := (Some <$> srcs) ++ replicate (Z.to_nat GGML_MAX_SRC - length srcs) None.
Arguments src_array : simpl never.

Definition heap : Type := Z -> ggml_tensor.

Definition heap_set (T : heap) (t : Z) (x : ggml_tensor) : heap := fun u => if decide (u = t) then x else T u.

Definition has_flag (t : ggml_tensor) (f : Z) : bool := negb (Z.land (t_flags t) f =? 0).

Inductive ggml_cgraph_eval_order : Type :=
| GGML_CGRAPH_EVAL_ORDER_LEFT_TO_RIGHT
| GGML_CGRAPH_EVAL_ORDER_RIGHT_TO_LEFT.

(** [nodes] and [leafs] are arrays of [size] pointers, of which the first [n_nodes] and
    [n_leafs] are in use: the lists hold these. Gradients are left out. *)
Record ggml_cgraph : Type := {
  cg_size    : Z;
  cg_nodes   : list Z;
  cg_leafs   : list Z;
  cg_visited : ggml_hash_set;
  cg_order   : ggml_cgraph_eval_order
}.

Definition n_nodes (graph : ggml_cgraph) : Z := zlen (cg_nodes graph).
Definition n_leafs (graph : ggml_cgraph) : Z := zlen (cg_leafs graph).

(** ** Types *)

(** [blck_size] and [type_size] of every type. The types that were removed have none. *)
Definition type_traits : list (Z * Z) :=
  [(1, 4); (1, 2); (32, 18); (32, 20); (0, 0); (0, 0); (32, 22); (32, 24); (32, 34); (32, 36);
   (256, 84); (256, 110); (256, 144); (256, 176); (256, 210); (256, 292);
   (256, 66); (256, 74); (256, 98); (256, 50); (32, 18); (256, 110); (256, 82); (256, 136);
   (1, 1); (1, 2); (1, 4); (1, 8); (1, 8); (256, 56); (1, 2);
   (0, 0); (0, 0); (0, 0); (256, 54); (256, 66); (0, 0); (0, 0); (0, 0)].

Definition GGML_TYPE_COUNT : Z := 39.

Definition ggml_blck_size (type : Z) : Z := fst (default (0, 0) (zlookup type_traits type)).
Definition ggml_type_size (type : Z) : Z := snd (default (0, 0) (zlookup type_traits type)).

(** The division by the block size of a removed type is undefined. *)
Definition ggml_row_size (type ne : Z) : res Z :=
  if ggml_blck_size type =? 0 then Err UB else Ok (u64 (ggml_type_size type * ne) / ggml_blck_size type).

(** ** Sizes of a tensor *)

Definition ne_at (t : ggml_tensor) (i : Z) : Z := default 0 (zlookup (t_ne t) i).
Definition nb_at (t : ggml_tensor) (i : Z) : Z := default 0 (zlookup (t_nb t) i).

(** The sizes below are for the types that exist, as those that were removed divide by
    zero. [nbytes += (ne[i] - 1)*nb[i]] *)
Definition add_dim (t : ggml_tensor) (nbytes i : Z) : Z := u64 (nbytes + (ne_at t i - 1) * nb_at t i).

Definition ggml_nbytes (t : ggml_tensor) : Z :=
  let blck_size := ggml_blck_size (t_type t) in
  if blck_size =? 1 then fold_left (add_dim t) [0; 1; 2; 3] (ggml_type_size (t_type t))
  else fold_left (add_dim t) [1; 2; 3] (u64 (ne_at t 0 * nb_at t 0) / blck_size).

Definition ggml_is_empty (t : ggml_tensor) : bool :=
  existsb (fun i => ne_at t i =? 0) [0; 1; 2; 3].

(** The last dimension of more than one element. *)
Definition ggml_n_dims (t : ggml_tensor) : Z :=
  if 1 <? ne_at t 3 then 4 else if 1 <? ne_at t 2 then 3 else if 1 <? ne_at t 1 then 2 else 1.

(** [ggml_is_contiguous_n] with [n = 0] *)
Definition contiguous_dim (t : ggml_tensor) (next : option Z) (i : Z) : option Z :=
  nb ← next;
  if ne_at t i =? 1 then Some nb
  else if nb_at t i =? nb then Some (u64 (nb * ne_at t i)) else None.

Definition ggml_is_contiguous (t : ggml_tensor) : bool :=
  let next_nb := ggml_type_size (t_type t) in
  if negb (ne_at t 0 =? ggml_blck_size (t_type t)) && negb (nb_at t 0 =? next_nb) then false
  else
    let next_nb := u64 (next_nb * Z.quot (ne_at t 0) (ggml_blck_size (t_type t))) in
    bool_decide (is_Some (fold_left (contiguous_dim t) [1; 2; 3] (Some next_nb))).

Lemma src_array_elem srcs s : Some s ∈ src_array srcs <-> s ∈ srcs.
Proof.
  unfold src_array. rewrite elem_of_app. split.
  - intros [(x & [= ->] & Hx)%list_elem_of_fmap|[Hs _]%elem_of_replicate]; [done|discriminate].
  - intros Hs. left. apply list_elem_of_fmap. by exists s.
Qed.
