(* ===== verification/GraphSpec.v ===== *)
(** Building a graph: the visit of the sources ends, and the graph holds the tensors that
    the results depend on, each once, and every node after the tensors it reads. *)
From S2P Require Import Prelude HashSet Tensor Graph.

(** Two heaps that differ in the names of tensors only. *)
Definition unnamed (x : ggml_tensor) : ggml_tensor :=
  {| t_type := t_type x; t_buffer := t_buffer x; t_ne := t_ne x; t_nb := t_nb x; t_op := t_op x; t_flags := t_flags x;
     t_src := t_src x; t_view_src := t_view_src x; t_view_offs := t_view_offs x; t_data := t_data x; t_name := [] |}.

Definition but_names (T T' : heap) : Prop := forall t, unnamed (T' t) = unnamed (T t).

#[export] Instance but_names_preorder : PreOrder but_names.
Proof. split; [by intros T t|]. intros T1 T2 T3 H1 H2 t. by rewrite H2. Qed.

Lemma but_names_name T t prefix n : but_names T (name_if_unnamed T t prefix n).
Proof.
  unfold name_if_unnamed. case_decide; [|done]. intros u. unfold ggml_set_name, heap_set. by destruct (decide (u = t)) as [->|].
Qed.

Lemma but_names_src T T' t : but_names T T' -> t_src (T' t) = t_src (T t).
Proof. intros H. by apply (f_equal t_src (H t)). Qed.

Lemma but_names_leaf T T' t : but_names T T' -> is_leaf (T' t) = is_leaf (T t).
Proof.
  intros H. unfold is_leaf, has_flag. pose proof (f_equal t_op (H t)) as E1. pose proof (f_equal t_flags (H t)) as E2.
  cbn in E1, E2. by rewrite E1, E2.
Qed.

(** ** The table *)

Lemma insert_new hs (U : gset Z) k :
  hash_ok hs -> (forall x, hash_mem hs x -> x ∈ U) -> k ∈ U -> Z.of_nat (size U) <= hs_size hs -> ~ hash_mem hs k ->
  exists hs' i, ggml_hash_insert hs k = Ok (hs', i) /\ (i =? GGML_HASHSET_ALREADY_EXISTS) = false /\
    hash_ok hs' /\ hs_size hs' = hs_size hs /\ forall x, hash_mem hs' x <-> x = k \/ hash_mem hs x.
Proof.
  intros Hok HU Hk Hsz Hm. destruct (absent_insert hs Hok k Hm (room hs U k Hok HU Hk Hm Hsz)) as (hs' & i & Hi & Hn & (Hok' & Hs' & Hslot) & _ & E & _).
  exists hs', i. split; [done|]. split; [apply Z.eqb_neq; pose proof (ho_size hs Hok); unfold GGML_HASHSET_ALREADY_EXISTS, SIZE_MAX in *; lia|].
  split; [done|]. split; [done|]. intros x. unfold hash_mem. rewrite Hs'. split.
  - intros (j & Hj & Hx). rewrite Hslot in Hx by done. case_decide; [left; congruence|right; by exists j].
  - intros [->|(j & Hj & Hx)].
    + exists i. split; [done|]. rewrite Hslot by done. by rewrite decide_True.
    + exists j. split; [done|]. rewrite Hslot by done. rewrite decide_False; [done|]. intros ->. congruence.
Qed.

Lemma insert_old hs k : hash_ok hs -> hash_mem hs k -> ggml_hash_insert hs k = Ok (hs, GGML_HASHSET_ALREADY_EXISTS).
Proof. intros Hok (i & Hi & Hs). by apply (found_insert hs Hok k i). Qed.

(** * Visiting *)

(** [s] is read by [t]. *)
Definition source (T : heap) (t s : Z) : Prop := Some s ∈ t_src (T t).

(** [t] depends on [s]. *)
Definition depends (T : heap) : Z -> Z -> Prop := rtc (source T).

Section visit.
Context (T0 : heap) (U : gset Z) (rank : Z -> nat).
Context (Hsrc : forall t s, t ∈ U -> source T0 t s -> s ∈ U).
Context (Hrank : forall t s, t ∈ U -> source T0 t s -> (rank s < rank t)%nat).

Definition leafs_of : gset Z := filter (fun t => is_leaf (T0 t) = true) U.
Definition nodes_of : gset Z := filter (fun t => is_leaf (T0 t) = false) U.

Definition in_graph (g : ggml_cgraph) (t : Z) : Prop := t ∈ cg_leafs g \/ t ∈ cg_nodes g.

(** Every source of the [i]-th node is a leaf or an earlier node. *)
Definition topo (leafs nodes : list Z) : Prop :=
  forall i t s, nodes !! i = Some t -> source T0 t s -> s ∈ leafs \/ exists j, (j < i)%nat /\ nodes !! j = Some s.

Record graph_inv (g : ggml_cgraph) : Prop := {
  gi_hash  : hash_ok (cg_visited g);
  gi_room  : Z.of_nat (size U) <= hs_size (cg_visited g);
  gi_keys  : forall t, hash_mem (cg_visited g) t -> t ∈ U;
  gi_size  : Z.of_nat (size leafs_of) <= cg_size g /\ Z.of_nat (size nodes_of) <= cg_size g;
  gi_dup   : NoDup (cg_nodes g) /\ NoDup (cg_leafs g);
  gi_leaf  : forall t, t ∈ cg_leafs g -> is_leaf (T0 t) = true /\ hash_mem (cg_visited g) t;
  gi_node  : forall t, t ∈ cg_nodes g -> is_leaf (T0 t) = false /\ hash_mem (cg_visited g) t;
  gi_topo  : topo (cg_leafs g) (cg_nodes g);
  gi_close : forall t s, t ∈ cg_leafs g -> source T0 t s -> in_graph g s
}.

(** What a visit of [t] adds: the order of the old nodes and leafs stays, and the new
    ones are what [t] depends on. *)
Record grows (g g' : ggml_cgraph) (new : Z -> Prop) : Prop := {
  gr_nodes : exists l, cg_nodes g' = cg_nodes g ++ l;
  gr_leafs : exists l, cg_leafs g' = cg_leafs g ++ l;
  gr_open  : forall t, hash_mem (cg_visited g') t /\ ~ in_graph g' t <-> hash_mem (cg_visited g) t /\ ~ in_graph g t;
  gr_new   : forall t, in_graph g' t -> in_graph g t \/ new t;
  gr_size  : cg_size g' = cg_size g /\ cg_order g' = cg_order g
}.

Lemma grows_in g g' new t : grows g g' new -> in_graph g t -> in_graph g' t.
Proof. intros [(l & E1) (k & E2) _ _ _]. unfold in_graph. rewrite E1, E2, !elem_of_app. tauto. Qed.

Lemma grows_refl g new : grows g g new.
Proof. constructor; [exists []; by rewrite app_nil_r|exists []; by rewrite app_nil_r|done|tauto|done]. Qed.

Lemma grows_trans g1 g2 g3 new : grows g1 g2 new -> grows g2 g3 new -> grows g1 g3 new.
Proof.
  intros [(l & A1) (k & A2) A3 A4 [A5 A6]] [(l' & B1) (k' & B2) B3 B4 [B5 B6]]. constructor.
  - exists (l ++ l'). by rewrite B1, A1, app_assoc.
  - exists (k ++ k'). by rewrite B2, A2, app_assoc.
  - intros t. by rewrite B3, A3.
  - intros t H. destruct (B4 t H); [auto|tauto].
  - split; congruence.
Qed.

Lemma grows_weaken g g' (new new' : Z -> Prop) : (forall t, new t -> new' t) -> grows g g' new -> grows g g' new'.
Proof. intros Hn [A1 A2 A3 A4 A5]. constructor; try done. intros t H. destruct (A4 t H); auto. Qed.

(** Everything that a tensor of the graph depends on is in the graph. *)
Lemma in_graph_source g t s : graph_inv g -> in_graph g t -> source T0 t s -> in_graph g s.
Proof.
  intros I [Ht|Ht] Hs; [by apply (gi_close _ I t)|]. apply list_elem_of_lookup in Ht as [i Hi].
  destruct (gi_topo _ I i t s Hi Hs) as [?|(j & _ & Hj)]; [by left|right; by eapply list_elem_of_lookup_2].
Qed.

Lemma in_graph_depends g t s : graph_inv g -> depends T0 t s -> in_graph g t -> in_graph g s.
Proof. intros I Hd. induction Hd as [|x y z Hxy _ IH]; [done|]. intros Hx. apply IH. by apply (in_graph_source g x). Qed.

Lemma in_graph_mem g t : graph_inv g -> in_graph g t -> hash_mem (cg_visited g) t.
Proof. intros I [H|H]; [by apply (gi_leaf _ I)|by apply (gi_node _ I)]. Qed.

(** There is room for one more of the tensors of [U]. *)
Lemma room_left (l : list Z) (V : gset Z) t : NoDup l -> (forall x, x ∈ l -> x ∈ V) -> t ∈ V -> t ∉ l -> (length l < size V)%nat.
Proof.
  intros HN Hin Ht Hl. assert (HN' : NoDup (t :: l)) by by constructor.
  assert (Hsub : (list_to_set (t :: l) : gset Z) ⊆ V) by (intros x; rewrite elem_of_list_to_set, elem_of_cons; naive_solver).
  apply subseteq_size in Hsub. rewrite (size_list_to_set (C := gset Z)) in Hsub by done. cbn in Hsub. lia.
Qed.

Lemma topo_snoc leafs nodes t : topo leafs nodes -> (forall s, source T0 t s -> s ∈ leafs \/ s ∈ nodes) -> topo leafs (nodes ++ [t]).
Proof.
  intros Ht Hs i x s Hi Hx. apply lookup_app_Some in Hi as [Hi|[Hlen Hi]].
  - destruct (Ht i x s Hi Hx) as [?|(j & Hj & E)]; [by left|]. right. exists j. split; [done|]. by apply lookup_app_l_Some.
  - apply list_lookup_singleton_Some in Hi as [Hi <-]. destruct (Hs s Hx) as [?|Hin]; [by left|]. right.
    apply list_elem_of_lookup in Hin as [j Hj]. pose proof (lookup_lt_Some _ _ _ Hj). exists j. split; [lia|]. by apply lookup_app_l_Some.
Qed.

Lemma topo_leafs leafs leafs' nodes : (forall t, t ∈ leafs -> t ∈ leafs') -> topo leafs nodes -> topo leafs' nodes.
Proof. intros Hl Ht i t s Hi Hs. destruct (Ht i t s Hi Hs); auto. Qed.

(** The end of a visit, when all sources are in the graph. *)
Lemma append_ok T g node : but_names T0 T -> graph_inv g -> hash_mem (cg_visited g) node -> ~ in_graph g node ->
  (forall s, source T0 node s -> in_graph g s) ->
  safe (append_tensor T g node) (fun '(T', g') => but_names T0 T' /\ graph_inv g' /\ in_graph g' node /\
    cg_visited g' = cg_visited g /\ (forall t, in_graph g' t <-> in_graph g t \/ t = node) /\
    cg_nodes g' = cg_nodes g ++ (if is_leaf (T0 node) then [] else [node]) /\
    cg_leafs g' = cg_leafs g ++ (if is_leaf (T0 node) then [node] else []) /\
    cg_size g' = cg_size g /\ cg_order g' = cg_order g).
Proof.
  intros HT I Hm Hnot Hs. pose proof (gi_keys _ I _ Hm) as HU. destruct I as [I1 I2 I3 [I4 I5] [I6 I7] I8 I9 I10 I11].
  unfold append_tensor. rewrite (but_names_leaf T0 T node HT). destruct (is_leaf (T0 node)) eqn:El; unfold ggml_assert.
  - assert (n_leafs g < cg_size g) as Hlt.
    { pose proof (room_left (cg_leafs g) leafs_of node I7 ltac:(intros x Hx; apply elem_of_filter; split; [apply I8, Hx|apply I3, I8, Hx])
        ltac:(apply elem_of_filter; done) ltac:(intros Hx; apply Hnot; by left)). unfold n_leafs, zlen. lia. }
    rewrite (proj2 (Z.ltb_lt _ _) Hlt). cbn [mbind res_bind post]. splits.
    + etransitivity; [exact HT|apply but_names_name].
    + constructor; cbn [with_leafs cg_size cg_nodes cg_leafs cg_visited]; try done.
      * split; [done|]. apply NoDup_app. splits; [done|intros x Hx ->%list_elem_of_singleton; apply Hnot; by left|apply NoDup_singleton].
      * intros t. rewrite elem_of_app, list_elem_of_singleton. intros [?| ->]; [by apply I8|done].
      * eapply topo_leafs; [|exact I10]. intros t Ht. rewrite elem_of_app. by left.
      * intros t s. rewrite elem_of_app, list_elem_of_singleton. unfold in_graph. cbn. rewrite elem_of_app.
        intros [Ht| ->] Hts; [destruct (I11 t s Ht Hts)|destruct (Hs s Hts)]; tauto.
    + left. cbn. rewrite elem_of_app, list_elem_of_singleton. by right.
    + done.
    + intros t. unfold in_graph. cbn. rewrite elem_of_app, list_elem_of_singleton. tauto.
    + cbn. by rewrite app_nil_r.
    + done.
    + done.
    + done.
  - assert (n_nodes g < cg_size g) as Hlt.
    { pose proof (room_left (cg_nodes g) nodes_of node I6 ltac:(intros x Hx; apply elem_of_filter; split; [apply I9, Hx|apply I3, I9, Hx])
        ltac:(apply elem_of_filter; done) ltac:(intros Hx; apply Hnot; by right)). unfold n_nodes, zlen. lia. }
    rewrite (proj2 (Z.ltb_lt _ _) Hlt). cbn [mbind res_bind post]. splits.
    + etransitivity; [exact HT|apply but_names_name].
    + constructor; cbn [with_nodes cg_size cg_nodes cg_leafs cg_visited]; try done.
      * split; [|done]. apply NoDup_app. splits; [done|intros x Hx ->%list_elem_of_singleton; apply Hnot; by right|apply NoDup_singleton].
      * intros t. rewrite elem_of_app, list_elem_of_singleton. intros [?| ->]; [by apply I9|done].
      * by apply topo_snoc.
      * intros t s Ht Hts. unfold in_graph. cbn. rewrite elem_of_app. destruct (I11 t s Ht Hts); tauto.
    + right. cbn. rewrite elem_of_app, list_elem_of_singleton. by right.
    + done.
    + intros t. unfold in_graph. cbn. rewrite elem_of_app, list_elem_of_singleton. tauto.
    + done.
    + cbn. by rewrite app_nil_r.
    + done.
    + done.
Qed.
(** A tensor that was visited and is not in the graph yet is one whose sources are being
    visited: it depends on the tensor at hand. *)
Definition pending_above (g : ggml_cgraph) (node : Z) : Prop :=
  forall p, hash_mem (cg_visited g) p -> ~ in_graph g p -> (rank node < rank p)%nat.

(** The result of a visit. A leaf without sources adds no node. *)
Definition visited (T : heap) (g : ggml_cgraph) (node : Z) (st : heap * ggml_cgraph) : Prop :=
  but_names T0 st.1 /\ graph_inv st.2 /\ in_graph st.2 node /\ grows g st.2 (depends T0 node) /\
  ((exists l, cg_nodes st.2 = l ++ [node]) \/ cg_nodes st.2 = cg_nodes g \/ (is_leaf (T0 node) = true /\ exists s, source T0 node s)).

Lemma eval_sources_elem order srcs s : s ∈ eval_sources order srcs <-> s ∈ srcs.
Proof. destruct order; cbn; [done|]. by rewrite !list_elem_of_In, <- in_rev. Qed.

Lemma start_inv g hs node : graph_inv g -> hash_ok hs -> hs_size hs = hs_size (cg_visited g) -> node ∈ U ->
  (forall x, hash_mem hs x <-> x = node \/ hash_mem (cg_visited g) x) -> graph_inv (with_visited g hs).
Proof.
  intros [I1 I2 I3 I4 I5 I6 I7 I8 I9] Hok Hsz HU Hm. constructor; cbn [with_visited cg_size cg_nodes cg_leafs cg_visited]; rewrite ?Hsz; try done.
  - intros t [->|Ht]%Hm; [done|by apply I3].
  - intros t Ht. split; [by apply I6|]. apply Hm. right. by apply I6.
  - intros t Ht. split; [by apply I7|]. apply Hm. right. by apply I7.
Qed.

(** The loop over the sources of [node]. *)
Definition sources_inv (g1 : ggml_cgraph) (node : Z) (start : heap * ggml_cgraph) (seen : list (option Z)) (st : heap * ggml_cgraph) : Prop :=
  but_names T0 st.1 /\ graph_inv st.2 /\ (forall s, Some s ∈ seen -> in_graph st.2 s) /\
  grows g1 st.2 (fun t => exists s, source T0 node s /\ depends T0 s t) /\
  ((forall s, ~ source T0 node s) -> st = start).

Lemma visit_ok fuel : forall T g node, but_names T0 T -> graph_inv g -> node ∈ U -> (rank node < fuel)%nat -> pending_above g node ->
  safe (ggml_visit_parents fuel T g node) (visited T g node).
Proof.
  induction fuel as [|fuel IH]; intros T g node HT I HU Hfuel Hpend; [lia|]. cbn [ggml_visit_parents].
  destruct (decide (hash_mem (cg_visited g) node)) as [Hm|Hm].
  { rewrite (insert_old _ _ (gi_hash _ I) Hm). cbn [mbind res_bind]. rewrite Z.eqb_refl. cbn [post]. unfold visited. cbn [fst snd].
    assert (in_graph g node) as Hin.
    { destruct (decide (node ∈ cg_leafs g)); [by left|]. destruct (decide (node ∈ cg_nodes g)); [by right|]. exfalso.
      assert (rank node < rank node)%nat; [|lia]. apply (Hpend node Hm). by intros [?|?]. }
    splits; [done|done|done|apply grows_refl|right; by left]. }
  destruct (insert_new _ U node (gi_hash _ I) (gi_keys _ I) HU (gi_room _ I) Hm) as (hs & i & -> & Ei & Hok & Hsz & Hmem).
  cbn [mbind res_bind]. rewrite Ei. rewrite (but_names_src T0 T node HT). set (g1 := with_visited g hs).
  pose proof (start_inv g hs node I Hok Hsz HU Hmem : graph_inv g1) as I1.
  assert (Hnot : ~ in_graph g node) by (intros H; by apply Hm, in_graph_mem).
  eapply (post_bind _ _ (fun st => sources_inv g1 node (T, g1) (eval_sources (cg_order g) (t_src (T0 node))) st)).
  { apply foldM_post.
    - split; [done|]. split; [done|]. split; [by intros s ?%elem_of_nil|]. split; [apply grows_refl|done].
    - intros seen [s|] [T1 g2] Hin (HT1 & I2 & Hseen & Hg & Hst); cbn [fst snd] in *.
      + apply eval_sources_elem in Hin. assert (source T0 node s) as Hs by exact Hin.
        eapply post_mono; [apply (IH T1 g2 s HT1 I2 (Hsrc _ _ HU Hs))| |done].
        * pose proof (Hrank _ _ HU Hs). lia.
        * intros p Hp Hpn. destruct (proj1 (gr_open _ _ _ Hg p) (conj Hp Hpn)) as [Hp1 Hp2]. pose proof (Hrank _ _ HU Hs).
          apply Hmem in Hp1 as [->|Hp1]; [done|]. specialize (Hpend p Hp1 Hp2). lia.
        * intros st (H1 & H2 & H3 & H4 & _). split; [done|]. split; [done|]. split; [|split].
          -- intros s'. rewrite elem_of_app, list_elem_of_singleton. intros [Hs'|[= ->]]; [|done]. by apply (grows_in g2 _ _ _ H4), Hseen.
          -- eapply grows_trans; [exact Hg|]. eapply grows_weaken; [|exact H4]. intros t Ht. by exists s.
          -- intros Hno. by destruct (Hno s).
      + cbn [post]. split; [done|]. split; [done|]. split; [|done].
        intros s'. rewrite elem_of_app, list_elem_of_singleton. intros [Hs'|?]; [by apply Hseen|done]. }
  intros [T1 g2] (HT1 & I2 & Hseen & Hg & Hst). cbn [fst snd] in *.
  assert (Hopen : hash_mem (cg_visited g2) node /\ ~ in_graph g2 node) by (apply (gr_open _ _ _ Hg); split; [by apply Hmem; left|done]).
  eapply post_mono; [apply (append_ok T1 g2 node HT1 I2 (proj1 Hopen) (proj2 Hopen)); intros s Hs; by apply Hseen, eval_sources_elem| |done].
  intros [T2 g3] (HT2 & I3 & Hin & Ev & Hig & El & Ek & Esz & Eo). unfold visited. cbn [fst snd]. splits; [done|done|done| |].
  - destruct Hg as [(l1 & A1) (l2 & A2) A3 A4 [A5 A6]]. constructor.
    + eexists. rewrite El, A1, <- app_assoc. reflexivity.
    + eexists. rewrite Ek, A2, <- app_assoc. reflexivity.
    + intros t. rewrite Ev, Hig. split.
      * intros [H1 H2]. destruct (proj1 (A3 t)) as [H3 H4]; [by split; [|tauto]|]. apply Hmem in H3 as [->|H3]; [tauto|by split].
      * intros [H1 H2]. destruct (proj2 (A3 t)) as [H3 H4]; [by split; [apply Hmem; right|]|]. split; [done|]. intros [?| ->]; [done|]. by apply Hm.
    + intros t [Ht| ->]%Hig; [|by right; apply rtc_refl]. destruct (A4 t Ht) as [?|(s & Hs & Hd)]; [by left|]. right. by apply rtc_l with s.
    + cbn in *. split; congruence.
  - destruct (is_leaf (T0 node)) eqn:Hl.
    + destruct (decide (Exists is_Some (t_src (T0 node)))) as [He|Hno].
      * right. right. split; [done|]. apply list.Exists_exists in He as (o & Ho & [s ->]). by exists s.
      * right. left. rewrite El, app_nil_r.
        assert ((T1, g2) = (T, g1)) as [= _ ->]; [|done]. apply Hst. intros s Hs. apply Hno, list.Exists_exists. by exists (Some s).
    + left. by exists (cg_nodes g2).
Qed.
(** ** Building a graph for several results *)

Context (Hleaf : forall t s, t ∈ U -> is_leaf (T0 t) = true -> ~ source T0 t s).

Lemma expand_ok fuel T g t : but_names T0 T -> graph_inv g -> t ∈ U -> (rank t < fuel)%nat ->
  (forall x, hash_mem (cg_visited g) x -> in_graph g x) ->
  safe (ggml_build_forward_expand fuel T g t) (fun st => but_names T0 st.1 /\ graph_inv st.2 /\
    (forall x, hash_mem (cg_visited st.2) x -> in_graph st.2 x) /\
    (forall x, in_graph st.2 x <-> in_graph g x \/ depends T0 t x) /\
    (exists l, cg_nodes st.2 = cg_nodes g ++ l) /\ (exists l, cg_leafs st.2 = cg_leafs g ++ l) /\ cg_size st.2 = cg_size g).
Proof.
  intros HT I HU Hfuel Hdone. unfold ggml_build_forward_expand, ggml_build_forward_impl.
  eapply post_bind; [apply (visit_ok fuel T g t HT I HU Hfuel); intros p Hp Hn; by destruct Hn; apply Hdone|].
  intros [T' g'] (HT' & I' & Hin & Hg & Hlast). cbn [fst snd] in *.
  assert (Hres : but_names T0 T' /\ graph_inv g' /\ (forall x, hash_mem (cg_visited g') x -> in_graph g' x) /\
    (forall x, in_graph g' x <-> in_graph g x \/ depends T0 t x) /\
    (exists l, cg_nodes g' = cg_nodes g ++ l) /\ (exists l, cg_leafs g' = cg_leafs g ++ l) /\ cg_size g' = cg_size g).
  { splits; [done|done| | |apply Hg|apply Hg|apply (gr_size _ _ _ Hg)].
    - intros x Hx. destruct (decide (x ∈ cg_leafs g')); [by left|]. destruct (decide (x ∈ cg_nodes g')); [by right|]. exfalso.
      destruct (proj1 (gr_open _ _ _ Hg x)) as [H1 H2]; [split; [done|by intros [?|?]]|]. by apply H2, Hdone.
    - intros x. split; [apply (gr_new _ _ _ Hg)|]. intros [Hx|Hx]; [by apply (grows_in _ _ _ _ Hg)|by apply (in_graph_depends g' t)]. }
  destruct (Z.ltb_spec 0 (n_nodes g' - n_nodes g)) as [Hnew|Hnew]; [|exact Hres].
  destruct Hlast as [[l El]|[El|[Hl [s Hs]]]]; [|unfold n_nodes in Hnew; rewrite El in Hnew; lia|by destruct (Hleaf t s HU Hl)].
  assert (vget (cg_nodes g') (n_nodes g' - 1) = Ok t) as ->.
  { apply vget_Some. unfold n_nodes, zlen. rewrite El, length_app. cbn. replace (Z.of_nat (length l + 1) - 1) with (Z.of_nat (length l)) by lia.
    rewrite zlookup_nat, lookup_app_r by lia. by rewrite Nat.sub_diag. }
  cbn [mbind res_bind]. unfold ggml_assert. rewrite Z.eqb_refl. exact Hres.
Qed.

Definition build_graph (fuel : nat) (T : heap) (g : ggml_cgraph) (outputs : list Z) : res (heap * ggml_cgraph) :=
  foldM (fun st t => ggml_build_forward_expand fuel st.1 st.2 t) (T, g) outputs.

Lemma new_graph_inv n : 0 <= n <= INT32_MAX -> Z.of_nat (size leafs_of) <= n -> Z.of_nat (size nodes_of) <= n ->
  safe (ggml_new_graph_custom n) (fun g => graph_inv g /\ (forall x, ~ hash_mem (cg_visited g) x) /\ cg_nodes g = [] /\ cg_leafs g = [] /\ cg_size g = n).
Proof using.
  unfold INT32_MAX. intros Hn Hl Hnn. unfold ggml_new_graph_custom. rewrite u64_small by (unfold SIZE_MAX; lia).
  eapply post_bind; [apply hash_size_ok; lia|]. intros sz [Hle Hsz]. cbn [post].
  destruct (zeros_ok sz (replicate (Z.to_nat sz) None)) as [Hok Hs]; [lia|unfold zlen; rewrite length_replicate; lia|].
  assert (Hno : forall x, ~ hash_mem (ggml_hash_set_reset {| hs_size := sz; hs_used := []; hs_keys := replicate (Z.to_nat sz) None |}) x).
  { intros x (i & _ & Hi). change (ggml_hash_set_reset _) with {| hs_size := sz; hs_used := replicate (Z.to_nat (ggml_bitset_size sz)) 0; hs_keys := replicate (Z.to_nat sz) None |} in Hi.
    by rewrite Hs in Hi. }
  assert (i32 n = n) as Ei by (apply i32_small; unfold INT32_MIN, INT32_MAX; lia).
  splits; try done. constructor; cbn [cg_size cg_nodes cg_leafs cg_visited]; rewrite ?Ei.
  - exact Hok.
  - cbn [ggml_hash_set_reset hs_size]. assert (U = leafs_of ∪ nodes_of) as ->.
    { apply set_eq. intros x. unfold leafs_of, nodes_of. rewrite elem_of_union, !elem_of_filter. destruct (is_leaf (T0 x)); naive_solver. }
    rewrite size_union; [lia|]. intros x. unfold leafs_of, nodes_of. rewrite !elem_of_filter. intros [E1 _] [E2 _]. congruence.
  - intros t Ht. by destruct (Hno t).
  - done.
  - split; constructor.
  - by intros t ?%elem_of_nil.
  - by intros t ?%elem_of_nil.
  - by intros i t s Hi.
  - by intros t s ?%elem_of_nil.
Qed.
(** What building a graph for [outputs] gives. *)
Definition built (outputs : list Z) (T : heap) (g : ggml_cgraph) : Prop :=
  but_names T0 T /\ NoDup (cg_nodes g) /\ NoDup (cg_leafs g) /\ topo (cg_leafs g) (cg_nodes g) /\
  (forall t, t ∈ cg_leafs g <-> is_leaf (T0 t) = true /\ exists o, o ∈ outputs /\ depends T0 o t) /\
  (forall t, t ∈ cg_nodes g <-> is_leaf (T0 t) = false /\ exists o, o ∈ outputs /\ depends T0 o t).

Lemma build_ok fuel n outputs : 0 <= n <= INT32_MAX -> Z.of_nat (size leafs_of) <= n -> Z.of_nat (size nodes_of) <= n ->
  (forall o, o ∈ outputs -> o ∈ U /\ (rank o < fuel)%nat) ->
  safe (g ← ggml_new_graph_custom n; build_graph fuel T0 g outputs) (fun '(T, g) => built outputs T g).
Proof.
  intros Hn Hl Hnn Hout. eapply post_bind; [by apply new_graph_inv|]. intros g (I & Hempty & En & El & Es).
  unfold build_graph. eapply post_mono; [apply (foldM_post _ (fun seen st => but_names T0 st.1 /\ graph_inv st.2 /\
    (forall x, hash_mem (cg_visited st.2) x -> in_graph st.2 x) /\
    (forall x, in_graph st.2 x <-> exists o, o ∈ seen /\ depends T0 o x)))| |intros e He; exact He].
  - cbn [fst snd]. splits; [done|done|by intros x ?%Hempty|]. intros x. unfold in_graph. rewrite En, El. split; [by intros [?%elem_of_nil|?%elem_of_nil]|].
    by intros (o & ?%elem_of_nil & _).
  - intros seen o [T g'] Ho (HT & I' & Hdone & Hin). cbn [fst snd] in *. destruct (Hout o Ho) as [HoU Hof].
    eapply post_mono; [apply (expand_ok fuel T g' o HT I' HoU Hof Hdone)| |done].
    intros st (H1 & H2 & H3 & H4 & _). splits; [done|done|done|]. intros x. rewrite H4, Hin. split.
    + intros [(o' & Ho' & Hd)|Hd]; [exists o'|exists o]; rewrite elem_of_app, list_elem_of_singleton; auto.
    + intros (o' & Ho' & Hd). rewrite elem_of_app, list_elem_of_singleton in Ho'. destruct Ho' as [Ho'| ->]; [left; by exists o'|by right].
  - intros [T g'] (HT & I' & _ & Hin). cbn [fst snd] in *. destruct (gi_dup _ I') as [D1 D2]. unfold built.
    splits; [done|done|done|apply (gi_topo _ I')| |]; intros t; rewrite <- Hin; unfold in_graph.
    + split; [intros Ht; split; [by apply (gi_leaf _ I')|by left]|]. intros [Hl' [Ht|Ht]]; [done|]. apply (gi_node _ I') in Ht as [Ht _]. congruence.
    + split; [intros Ht; split; [by apply (gi_node _ I')|by right]|]. intros [Hl' [Ht|Ht]]; [|done]. apply (gi_leaf _ I') in Ht as [Ht _]. congruence.
Qed.
End visit.

(** C35. Building a graph ends and gives what the results depend on. For tensors without
    cyclic dependencies, whose constants have no sources, a graph that is made for at
    least as many nodes and leafs as there are takes any outputs: no assertion fails, the
    leafs are the constants and the nodes the computed tensors that some output depends
    on, each exactly once, and the sources of every node are leafs or earlier nodes. The
    depth of the recursion is bounded by the length of the longest chain of sources, and
    the tensors only change by getting names. *)
Theorem build_forward_correct T U (rank : Z -> nat) fuel n outputs :
  (forall t s, t ∈ U -> source T t s -> s ∈ U /\ (rank s < rank t)%nat /\ is_leaf (T t) = false) ->
  0 <= n <= INT32_MAX -> Z.of_nat (size (leafs_of T U)) <= n -> Z.of_nat (size (nodes_of T U)) <= n ->
  (forall o, o ∈ outputs -> o ∈ U /\ (rank o < fuel)%nat) ->
  safe (g ← ggml_new_graph_custom n; build_graph fuel T g outputs) (fun '(T', g) => built T outputs T' g).
Proof.
  intros Hs Hn Hl Hnn Hout. apply (build_ok T U rank); try done.
  - intros t s Ht Hts. by apply (Hs t s).
  - intros t s Ht Hts. by apply (Hs t s).
  - intros t s Ht Hleaf Hts. destruct (Hs t s Ht Hts) as (_ & _ & Hn'). congruence.
Qed.

(** ** An example *)

Module BuildExample.
Definition demo_tensor (op : ggml_op) (srcs : list Z) : ggml_tensor :=
  {| t_type := 0; t_buffer := None; t_ne := [1; 1; 1; 1]; t_nb := [4; 4; 4; 4]; t_op := op; t_flags := 0;
     t_src := src_array srcs; t_view_src := None; t_view_offs := 0; t_data := None; t_name := [] |}.

(** Two constants [16] and [32], their sum [48], and two results of it [64] and [80]. *)
Definition demo_heap : heap := fun t =>
  if t =? 48 then demo_tensor GGML_OP_ADD [16; 32]
  else if t =? 64 then demo_tensor GGML_OP_MUL [48; 16]
  else if t =? 80 then demo_tensor GGML_OP_SIN [48]
  else demo_tensor GGML_OP_NONE [].

Definition demo_set : gset Z := {[16; 32; 48; 64; 80]}.
End BuildExample.

Lemma build_forward_correct_witness :
  exists T g, (g ← ggml_new_graph_custom 4; build_graph 97 BuildExample.demo_heap g [64; 80]) = Ok (T, g) /\
    cg_nodes g = [48; 64; 80] /\ cg_leafs g = [16; 32] /\ t_name (T 64) = str "node_1" /\
    built BuildExample.demo_heap [64; 80] T g.
Proof.
  assert (P : safe (g ← ggml_new_graph_custom 4; build_graph 97 BuildExample.demo_heap g [64; 80]) (fun '(T', g) => built BuildExample.demo_heap [64; 80] T' g)).
  { apply (build_forward_correct BuildExample.demo_heap BuildExample.demo_set Z.to_nat 97 4).
    - unfold BuildExample.demo_set. intros t s Ht Hts. rewrite !elem_of_union, !elem_of_singleton in Ht.
      destruct Ht as [[[[->| ->]| ->]| ->]| ->]; unfold source in Hts; cbn [BuildExample.demo_heap BuildExample.demo_tensor t_src Z.eqb Pos.eqb] in Hts; apply src_array_elem in Hts;
        rewrite ?elem_of_cons, ?elem_of_nil in Hts; try by exfalso.
      all: (destruct Hts as [->|[->|[]]] || destruct Hts as [->|[]]); (splits; [set_solver|cbn; lia|reflexivity]).
    - unfold INT32_MAX. lia.
    - vm_compute. discriminate.
    - vm_compute. discriminate.
    - intros o Ho. apply elem_of_cons in Ho as [->|Ho]; [|apply list_elem_of_singleton in Ho as ->]; (split; [unfold BuildExample.demo_set; set_solver|cbn; lia]). }
  destruct (g ← _; _) as [[T g]|e] eqn:E; [|destruct P]. exists T, g. vm_compute in E. injection E as <- <-.
  split; [reflexivity|]. split; [reflexivity|]. split; [reflexivity|]. split; [reflexivity|]. exact P.
Defined.
