(* ===== verification/Buffers.v ===== *)
(** Backend buffers ([ggml/src/ggml-backend.cpp]): the memory that tensors are placed in.
    What a backend does for a buffer type is a parameter: its alignment, its optional
    limit on the size of a buffer, its optional size of a tensor, and the memory it gives
    for a request. The store holds the tensors and the buffers that were made; a pointer
    to a buffer is its index, and a buffer that was freed keeps its index. *)
From S2P Require Import Prelude HashSet Tensor.

(** ** What the backends provide *)

(** [ggml_backend_buffer_type_i]: a buffer type is known by its address, and the result
    for an optional function is [None] if the type does not have it. The answer to the
    [w]-th request for a buffer is its base address and its size, or nothing. *)
Class BufferTypes : Type := {
  iface_get_alignment  : Z -> Z;
  iface_get_max_size   : Z -> option Z;
  iface_get_alloc_size : Z -> option (ggml_tensor -> Z);
  iface_alloc_buffer   : nat -> Z -> Z -> option (Z * Z)
}.

(** [ggml_backend_buft_get_*] *)
Definition buft_get_alignment `{BufferTypes} (buft : Z) : Z := iface_get_alignment buft.

Definition buft_get_max_size `{BufferTypes} (buft : Z) : Z := default SIZE_MAX (iface_get_max_size buft).

Definition buft_get_alloc_size `{BufferTypes} (buft : Z) (t : ggml_tensor) : Z :=
  match iface_get_alloc_size buft with Some f => f t | None => ggml_nbytes t end.

(** ** Buffers *)

Inductive ggml_backend_buffer_usage : Type :=
| GGML_BACKEND_BUFFER_USAGE_ANY
| GGML_BACKEND_BUFFER_USAGE_WEIGHTS
| GGML_BACKEND_BUFFER_USAGE_COMPUTE.

(** [buf_parts] are the buffers that a multi-buffer collects; [buf_base] is what its
    backend answers to [get_base]. *)
Record backend_buffer : Type := {
  buf_type  : Z;
  buf_base  : Z;
  buf_size  : Z;
  buf_usage : ggml_backend_buffer_usage;
  buf_parts : list Z;
  buf_freed : bool
}.

Record store : Type := {
  st_heap     : heap;
  st_bufs     : list backend_buffer;
  st_requests : nat
}.

Definition with_heap (s : store) (T : heap) : store := {| st_heap := T; st_bufs := st_bufs s; st_requests := st_requests s |}.
Definition with_bufs (s : store) (bs : list backend_buffer) : store := {| st_heap := st_heap s; st_bufs := bs; st_requests := st_requests s |}.

(** [ggml_backend_buffer_init]: the new buffer goes to the next index. *)
Definition buffer_init (s : store) (buft base size : Z) (parts : list Z) : store * Z :=
  (with_bufs s (st_bufs s ++ [{| buf_type := buft; buf_base := base; buf_size := size; buf_usage := GGML_BACKEND_BUFFER_USAGE_ANY;
                                 buf_parts := parts; buf_freed := false |}]), zlen (st_bufs s)).

(** Access to a buffer: one that was freed must not be used. *)
Definition buf_get (s : store) (b : Z) : res backend_buffer :=
  x ← vget (st_bufs s) b;
  if buf_freed x then Err UB else Ok x.

Definition freed_buffer (x : backend_buffer) : backend_buffer :=
  {| buf_type := buf_type x; buf_base := buf_base x; buf_size := buf_size x; buf_usage := buf_usage x; buf_parts := buf_parts x; buf_freed := true |}.

Definition used_for (u : ggml_backend_buffer_usage) (x : backend_buffer) : backend_buffer :=
  {| buf_type := buf_type x; buf_base := buf_base x; buf_size := buf_size x; buf_usage := u; buf_parts := buf_parts x; buf_freed := buf_freed x |}.

Definition buf_update (s : store) (b : Z) (f : backend_buffer -> backend_buffer) : res store :=
  x ← buf_get s b;
  bs ← vset (st_bufs s) b (f x);
  Ok (with_bufs s bs).

(** [ggml_backend_buffer_free]; a multi-buffer frees its parts, which are no
    multi-buffers. *)
Definition buffer_free (s : store) (b : option Z) : res store :=
  match b with
  | None => Ok s
  | Some b =>
      x ← buf_get s b;
      s ← foldM (fun s p => buf_update s p freed_buffer) s (buf_parts x);
      buf_update s b freed_buffer
  end.

(** [ggml_backend_buffer_set_usage] *)
Definition buffer_set_usage (s : store) (b : Z) (u : ggml_backend_buffer_usage) : res store :=
  s ← buf_update s b (used_for u);
  x ← buf_get s b;
  foldM (fun s p => buf_update s p (used_for u)) s (buf_parts x).

(** [ggml_backend_buffer_get_base] *)
Definition buffer_get_base (s : store) (b : Z) : res Z :=
  x ← buf_get s b;
  if buf_size x =? 0 then Ok 0
  else
    _ ← ggml_assert (negb (buf_base x =? 0));
    Ok (buf_base x).

(** [ggml_backend_buffer_get_size] *)
Definition buffer_get_size (s : store) (b : Z) : res Z := x ← buf_get s b; Ok (buf_size x).

Section buffers.
Context `{BufferTypes}.

(** [ggml_backend_buft_alloc_buffer]: a request for nothing makes a dummy buffer. *)
Definition buft_alloc_buffer (s : store) (buft size : Z) : store * option Z :=
  if size =? 0 then let '(s, b) := buffer_init s buft 0 0 [] in (s, Some b)
  else
    let answer := iface_alloc_buffer (st_requests s) buft size in
    let s := {| st_heap := st_heap s; st_bufs := st_bufs s; st_requests := S (st_requests s) |} in
    match answer with
    | Some (base, size) => let '(s, b) := buffer_init s buft base size [] in (s, Some b)
    | None => (s, None)
    end.

(** [ggml_backend_buffer_get_alignment], [ggml_backend_buffer_get_alloc_size] *)
Definition buffer_get_alignment (s : store) (b : Z) : res Z := x ← buf_get s b; Ok (buft_get_alignment (buf_type x)).
Definition buffer_get_alloc_size (s : store) (b : Z) (t : ggml_tensor) : res Z := x ← buf_get s b; Ok (buft_get_alloc_size (buf_type x) t).

(** [ggml_backend_multi_buffer_alloc_buffer]: a multi-buffer has no base. *)
Definition multi_buffer_alloc_buffer (s : store) (buffers : list Z) : res (store * Z) :=
  total_size ← foldM (fun n b => size ← buffer_get_size s b; Ok (u64 (n + size))) 0 buffers;
  first ← vget buffers 0;
  x ← buf_get s first;
  Ok (buffer_init s (buf_type x) 0 total_size buffers).

(** ** Placing a tensor *)

(** A pointer from an address. *)
Definition to_ptr (a : Z) : option Z := if a =? 0 then None else Some a.

Definition placed_at (x : ggml_tensor) (buffer : Z) (data : option Z) : ggml_tensor :=
  {| t_type := t_type x; t_buffer := Some buffer; t_ne := t_ne x; t_nb := t_nb x; t_op := t_op x; t_flags := t_flags x;
     t_src := t_src x; t_view_src := t_view_src x; t_view_offs := t_view_offs x; t_data := data; t_name := t_name x |}.

(** The callback [init_tensor] of the backend is left out: it sets [extra]. *)
Definition ggml_backend_view_init (s : store) (tensor : Z) : res store :=
  let x := st_heap s tensor in
  _ ← ggml_assert (bool_decide (t_buffer x = None));
  _ ← ggml_assert (bool_decide (is_Some (t_view_src x)));
  view_src ← or_ub (t_view_src x);
  let v := st_heap s view_src in
  _ ← ggml_assert (bool_decide (is_Some (t_buffer v)));
  _ ← ggml_assert (bool_decide (is_Some (t_data v)));
  buffer ← or_ub (t_buffer v);
  data ← or_ub (t_data v);
  Ok (with_heap s (heap_set (st_heap s) tensor (placed_at x buffer (to_ptr (u64 (data + t_view_offs x)))))).

Definition ggml_backend_tensor_alloc (s : store) (buffer tensor addr : Z) : res store :=
  let x := st_heap s tensor in
  _ ← ggml_assert (bool_decide (t_buffer x = None));
  _ ← ggml_assert (bool_decide (t_data x = None));
  _ ← ggml_assert (bool_decide (t_view_src x = None));
  base ← buffer_get_base s buffer;
  _ ← ggml_assert (base <=? addr);
  alloc_size ← buffer_get_alloc_size s buffer x;
  size ← buffer_get_size s buffer;
  _ ← ggml_assert (u64 (addr + alloc_size) <=? u64 (base + size));
  Ok (with_heap s (heap_set (st_heap s) tensor (placed_at x buffer (to_ptr addr)))).
End buffers.
