(* ===== verification/Gallocr.v ===== *)
(** The plan of the graph allocator ([ggml_gallocr_alloc_graph_impl] of
    [ggml/src/ggml-alloc.c]): it gives every tensor of a graph an offset so that tensors
    share memory when their lives do not overlap. *)
From S2P Require Import Prelude HashSet Alloc Tensor Buffers.

(** ** Helpers *)

Definition ggml_is_view (t : ggml_tensor) : bool := bool_decide (is_Some (t_view_src t)).

Definition ggml_are_same_layout (a b : ggml_tensor) : bool :=
  (t_type a =? t_type b) && bool_decide (t_ne a = t_ne b) && bool_decide (t_nb a = t_nb b).

Definition ggml_op_can_inplace (op : ggml_op) : bool :=
  match op with
  | GGML_OP_SCALE | GGML_OP_DIAG_MASK_ZERO | GGML_OP_DIAG_MASK_INF | GGML_OP_ADD
  | GGML_OP_ADD1 | GGML_OP_SUB | GGML_OP_MUL | GGML_OP_DIV | GGML_OP_SQR | GGML_OP_SQRT
  | GGML_OP_LOG | GGML_OP_UNARY | GGML_OP_ROPE | GGML_OP_ROPE_BACK | GGML_OP_SILU_BACK
  | GGML_OP_RMS_NORM | GGML_OP_RMS_NORM_BACK | GGML_OP_SOFT_MAX | GGML_OP_SOFT_MAX_BACK => true
  | _ => false
  end.

(** ** The graph allocator *)

Record hash_node : Type := {
  hn_n_children : Z;
  hn_n_views    : Z;
  hn_buffer_id  : Z;
  hn_offset     : Z;
  hn_allocated  : bool
}.

(** [memset] to zero *)
Definition zero_node : hash_node :=
  {| hn_n_children := 0; hn_n_views := 0; hn_buffer_id := 0; hn_offset := 0; hn_allocated := false |}.

Definition with_children (h : hash_node) (n : Z) : hash_node :=
  {| hn_n_children := n; hn_n_views := hn_n_views h; hn_buffer_id := hn_buffer_id h; hn_offset := hn_offset h; hn_allocated := hn_allocated h |}.

Definition with_views (h : hash_node) (n : Z) : hash_node :=
  {| hn_n_children := hn_n_children h; hn_n_views := n; hn_buffer_id := hn_buffer_id h; hn_offset := hn_offset h; hn_allocated := hn_allocated h |}.

Definition with_place (h : hash_node) (buffer_id offset : Z) : hash_node :=
  {| hn_n_children := hn_n_children h; hn_n_views := hn_n_views h; hn_buffer_id := buffer_id; hn_offset := offset; hn_allocated := hn_allocated h |}.

Definition with_allocated (h : hash_node) (b : bool) : hash_node :=
  {| hn_n_children := hn_n_children h; hn_n_views := hn_n_views h; hn_buffer_id := hn_buffer_id h; hn_offset := hn_offset h; hn_allocated := b |}.

Record tensor_alloc : Type := {
  ta_buffer_id : Z;
  ta_offset    : Z;
  ta_size_max  : Z  (* 0 = pre-allocated, unused, or view *)
}.

Record node_alloc : Type := {
  na_dst : tensor_alloc;
  na_src : list tensor_alloc
}.

(** [buf_tallocs] and [buffers] are arrays of pointers, and two buffer ids of the same
    type share an allocator and a buffer: the entries are indices into the allocators,
    and the buffers that were made are in the store. *)
Record ggml_gallocr : Type := {
  ga_bufts       : list Z;
  ga_buffers     : list (option Z);
  ga_buf_tallocs : list Z;
  ga_tallocs     : list ggml_dyn_tallocr;
  ga_hash_set    : ggml_hash_set;
  ga_hash_values : list hash_node;
  ga_node_allocs : list node_alloc;
  ga_leaf_allocs : list tensor_alloc
}.

Definition with_hash_set (g : ggml_gallocr) (hs : ggml_hash_set) : ggml_gallocr :=
  {| ga_bufts := ga_bufts g; ga_buffers := ga_buffers g; ga_buf_tallocs := ga_buf_tallocs g; ga_tallocs := ga_tallocs g;
     ga_hash_set := hs; ga_hash_values := ga_hash_values g; ga_node_allocs := ga_node_allocs g; ga_leaf_allocs := ga_leaf_allocs g |}.

Definition with_hash_values (g : ggml_gallocr) (vs : list hash_node) : ggml_gallocr :=
  {| ga_bufts := ga_bufts g; ga_buffers := ga_buffers g; ga_buf_tallocs := ga_buf_tallocs g; ga_tallocs := ga_tallocs g;
     ga_hash_set := ga_hash_set g; ga_hash_values := vs; ga_node_allocs := ga_node_allocs g; ga_leaf_allocs := ga_leaf_allocs g |}.

Definition with_tallocs (g : ggml_gallocr) (ts : list ggml_dyn_tallocr) : ggml_gallocr :=
  {| ga_bufts := ga_bufts g; ga_buffers := ga_buffers g; ga_buf_tallocs := ga_buf_tallocs g; ga_tallocs := ts;
     ga_hash_set := ga_hash_set g; ga_hash_values := ga_hash_values g; ga_node_allocs := ga_node_allocs g; ga_leaf_allocs := ga_leaf_allocs g |}.

Definition with_buffers (g : ggml_gallocr) (bs : list (option Z)) : ggml_gallocr :=
  {| ga_bufts := ga_bufts g; ga_buffers := bs; ga_buf_tallocs := ga_buf_tallocs g; ga_tallocs := ga_tallocs g;
     ga_hash_set := ga_hash_set g; ga_hash_values := ga_hash_values g; ga_node_allocs := ga_node_allocs g; ga_leaf_allocs := ga_leaf_allocs g |}.

Definition with_allocs (g : ggml_gallocr) (ns : list node_alloc) (ls : list tensor_alloc) : ggml_gallocr :=
  {| ga_bufts := ga_bufts g; ga_buffers := ga_buffers g; ga_buf_tallocs := ga_buf_tallocs g; ga_tallocs := ga_tallocs g;
     ga_hash_set := ga_hash_set g; ga_hash_values := ga_hash_values g; ga_node_allocs := ns; ga_leaf_allocs := ls |}.

Section gallocr.
Context `{BufferTypes} (T : heap).

(** ** The table of a graph *)

(** The address of a table entry is its index. *)
Definition ggml_gallocr_hash_get (g : ggml_gallocr) (t : Z) : res (ggml_gallocr * Z) :=
  '(hs, i) ← ggml_hash_find_or_insert (ga_hash_set g) t;
  Ok (with_hash_set g hs, i).

Definition hn_get (g : ggml_gallocr) (i : Z) : res hash_node := vget (ga_hash_values g) i.

Definition hn_update (g : ggml_gallocr) (i : Z) (f : hash_node -> hash_node) : res ggml_gallocr :=
  h ← hn_get g i;
  vs ← vset (ga_hash_values g) i (f h);
  Ok (with_hash_values g vs).

Definition ggml_gallocr_is_own (g : ggml_gallocr) (t : Z) : res (ggml_gallocr * bool) :=
  '(g, i) ← ggml_gallocr_hash_get g t;
  h ← hn_get g i;
  Ok (g, hn_allocated h).

Definition ggml_gallocr_is_allocated (g : ggml_gallocr) (t : Z) : res (ggml_gallocr * bool) :=
  match t_data (T t) with Some _ => Ok (g, true) | None => ggml_gallocr_is_own g t end.

Definition is_output (t : ggml_tensor) : bool := has_flag t GGML_TENSOR_FLAG_OUTPUT.

(** The condition on an output in the loop over the parents: the parent or the tensor
    that it is a view of. *)
Definition parent_is_output (p : ggml_tensor) : bool :=
  is_output p || match t_view_src p with Some s => is_output (T s) | None => false end.

(** Trying to put [node], whose entry is [i], into the place of [parent]. *)
Definition reuse_parent (g : ggml_gallocr) (i node parent : Z) : res (ggml_gallocr * bool) :=
  '(g, own) ← ggml_gallocr_is_own g parent;
  if negb own then Ok (g, false)
  else if parent_is_output (T parent) then Ok (g, false)
  else if negb (ggml_are_same_layout (T node) (T parent)) then Ok (g, false)
  else
    '(g, p_i) ← ggml_gallocr_hash_get g parent;
    p_hn ← hn_get g p_i;
    if (hn_n_children p_hn =? 1) && (hn_n_views p_hn =? 0) then
      match t_view_src (T parent) with
      | Some view_src =>
          '(g, v_i) ← ggml_gallocr_hash_get g view_src;
          v_hn ← hn_get g v_i;
          if (hn_n_views v_hn =? 1) && (hn_n_children v_hn =? 0) &&
             bool_decide (t_data (T view_src) = t_data (T parent)) then
            g ← hn_update g i (fun h => with_place h (hn_buffer_id p_hn) (hn_offset p_hn));
            g ← hn_update g p_i (fun h => with_allocated h false);
            g ← hn_update g v_i (fun h => with_allocated h false);
            Ok (g, true)
          else Ok (g, false)
      | None =>
          g ← hn_update g i (fun h => with_place h (hn_buffer_id p_hn) (hn_offset p_hn));
          g ← hn_update g p_i (fun h => with_allocated h false);
          Ok (g, true)
      end
    else Ok (g, false).

Fixpoint reuse_loop (g : ggml_gallocr) (i node : Z) (srcs : list (option Z)) : res (ggml_gallocr * bool) :=
  match srcs with
  | [] => Ok (g, false)
  | None :: srcs => reuse_loop g i node srcs
  | Some parent :: srcs =>
      r ← reuse_parent g i node parent;
      if (r.2 : bool) then Ok r else reuse_loop r.1 i node srcs
  end.

Definition talloc_of (g : ggml_gallocr) (buffer_id : Z) : res (Z * ggml_dyn_tallocr) :=
  a ← vget (ga_buf_tallocs g) buffer_id;
  alloc ← vget (ga_tallocs g) a;
  Ok (a, alloc).

Definition ggml_gallocr_allocate_node (g : ggml_gallocr) (node buffer_id : Z) : res ggml_gallocr :=
  _ ← ggml_assert (0 <=? buffer_id);
  '(g, i) ← ggml_gallocr_hash_get g node;
  '(g, allocated) ← ggml_gallocr_is_allocated g node;
  if negb allocated && negb (ggml_is_view (T node)) then
    g ← hn_update g i (fun h => with_allocated h true);
    '(g, reused) ← if ggml_op_can_inplace (t_op (T node)) then reuse_loop g i node (t_src (T node)) else Ok (g, false);
    if (reused : bool) then Ok g
    else
      '(a, alloc) ← talloc_of g buffer_id;
      buft ← vget (ga_bufts g) buffer_id;
      '(alloc, offset) ← ggml_dyn_tallocr_alloc alloc (buft_get_alloc_size buft (T node));
      tallocs ← vset (ga_tallocs g) a alloc;
      hn_update (with_tallocs g tallocs) i (fun h => with_place h buffer_id offset)
  else Ok g.

Definition ggml_gallocr_free_node (g : ggml_gallocr) (node : Z) : res ggml_gallocr :=
  if is_output (T node) then Ok g
  else
    '(g, i) ← ggml_gallocr_hash_get g node;
    hn ← hn_get g i;
    '(a, alloc) ← talloc_of g (hn_buffer_id hn);
    buft ← vget (ga_bufts g) (hn_buffer_id hn);
    alloc ← ggml_dyn_tallocr_free_tensor alloc (hn_offset hn) (buft_get_alloc_size buft (T node));
    tallocs ← vset (ga_tallocs g) a alloc;
    hn_update (with_tallocs g tallocs) i (fun h => with_allocated h false).

Definition get_node_buffer_id (node_buffer_ids : option (list Z)) (i : Z) : res Z :=
  match node_buffer_ids with Some ids => vget ids i | None => Ok 0 end.

(** ** Planning a graph *)

Definition count_up (g : ggml_gallocr) (t : Z) (f : hash_node -> hash_node) : res ggml_gallocr :=
  '(g, i) ← ggml_gallocr_hash_get g t; hn_update g i f.

Definition add_child (h : hash_node) : hash_node := with_children h (hn_n_children h + 1).
Definition add_view (h : hash_node) : hash_node := with_views h (hn_n_views h + 1).

(** The loop over [leafs] *)
Definition allocate_leaf (graph : ggml_cgraph) (ids : option (list Z)) (i : Z) (g : ggml_gallocr) : res ggml_gallocr :=
  leaf ← vget (cg_leafs graph) i;
  id ← get_node_buffer_id ids i;
  ggml_gallocr_allocate_node g leaf id.

Definition count_src (ids : option (list Z)) (i : Z) (g : ggml_gallocr) (src : option Z) : res ggml_gallocr :=
  match src with
  | None => Ok g
  | Some src =>
      g ← count_up g src add_child;
      if has_flag (T src) GGML_TENSOR_FLAG_INPUT then
        id ← get_node_buffer_id ids i; ggml_gallocr_allocate_node g src id
      else Ok g
  end.

(** The loop that counts children and views *)
Definition count_node (graph : ggml_cgraph) (ids : option (list Z)) (i : Z) (g : ggml_gallocr) : res ggml_gallocr :=
  node ← vget (cg_nodes graph) i;
  g ← match t_view_src (T node) with
      | Some view_src => if decide (t_op (T node) = GGML_OP_NONE) then Ok g else count_up g view_src add_view
      | None => Ok g
      end;
  g ← if has_flag (T node) GGML_TENSOR_FLAG_INPUT then
        id ← get_node_buffer_id ids i; ggml_gallocr_allocate_node g node id
      else Ok g;
  foldM (count_src ids i) g (t_src (T node)).

Definition allocate_parent (buffer_id : Z) (g : ggml_gallocr) (src : option Z) : res ggml_gallocr :=
  match src with None => Ok g | Some parent => ggml_gallocr_allocate_node g parent buffer_id end.

Definition drop_child (h : hash_node) : hash_node := with_children h (hn_n_children h - 1).
Definition drop_view (h : hash_node) : hash_node := with_views h (hn_n_views h - 1).

Definition update_parent (g : ggml_gallocr) (src : option Z) : res ggml_gallocr :=
  match src with
  | None => Ok g
  | Some parent =>
      '(g, p_i) ← ggml_gallocr_hash_get g parent;
      g ← hn_update g p_i drop_child;
      p_hn ← hn_get g p_i;
      if (hn_n_children p_hn =? 0) && (hn_n_views p_hn =? 0) then
        match t_view_src (T parent) with
        | Some view_src =>
            '(g, v_i) ← ggml_gallocr_hash_get g view_src;
            g ← hn_update g v_i drop_view;
            v_hn ← hn_get g v_i;
            if (hn_n_views v_hn =? 0) && (hn_n_children v_hn =? 0) && hn_allocated v_hn then
              ggml_gallocr_free_node g view_src
            else Ok g
        | None => if hn_allocated p_hn then ggml_gallocr_free_node g parent else Ok g
        end
      else Ok g
  end.

(** The loop that allocates the nodes and frees what nobody needs any more *)
Definition allocate_step (graph : ggml_cgraph) (ids : option (list Z)) (i : Z) (g : ggml_gallocr) : res ggml_gallocr :=
  node ← vget (cg_nodes graph) i;
  buffer_id ← get_node_buffer_id ids i;
  g ← foldM (allocate_parent buffer_id) g (t_src (T node));
  g ← ggml_gallocr_allocate_node g node buffer_id;
  foldM update_parent g (t_src (T node)).

Definition ggml_gallocr_alloc_graph_impl (g : ggml_gallocr) (graph : ggml_cgraph) (node_buffer_ids leaf_buffer_ids : option (list Z)) : res ggml_gallocr :=
  let g := with_hash_set g (ggml_hash_set_reset (ga_hash_set g)) in
  let g := with_hash_values g (replicate (Z.to_nat (hs_size (ga_hash_set g))) zero_node) in
  g ← for_z 0 (n_leafs graph) (allocate_leaf graph leaf_buffer_ids) g;
  g ← for_z 0 (n_nodes graph) (count_node graph node_buffer_ids) g;
  for_z 0 (n_nodes graph) (allocate_step graph node_buffer_ids) g.
End gallocr.
