(* ===== verification/GallocSpec.v ===== *)
(** A specification of the graph allocator: the planner works on a map from tensors to
    their entries instead of a hash table with slots, and has no branch for reusing the
    place of a view, which cannot be reached. The allocator of Gallocr implements it:
    started on related states the two give related plans or fail alike. *)
From S2P Require Import Prelude HashSet Alloc Tensor Buffers Gallocr.

(** * The planner *)

Record planner : Type := {
  p_hn      : Z -> hash_node;
  p_tallocs : list ggml_dyn_tallocr
}.

Definition p_update (p : planner) (t : Z) (f : hash_node -> hash_node) : planner :=
  {| p_hn := fun u => if decide (u = t) then f (p_hn p t) else p_hn p u; p_tallocs := p_tallocs p |}.

Definition p_with_tallocs (p : planner) (ts : list ggml_dyn_tallocr) : planner := {| p_hn := p_hn p; p_tallocs := ts |}.

Section planner.
Context `{BufferTypes} (T : heap) (bufts buf_tallocs : list Z).

Definition reusable (p : planner) (node parent : Z) : bool :=
  hn_allocated (p_hn p parent) && negb (parent_is_output T (T parent)) && ggml_are_same_layout (T node) (T parent) &&
  (hn_n_children (p_hn p parent) =? 1) && (hn_n_views (p_hn p parent) =? 0).

(** [node] takes the place of [parent]. *)
Definition p_reuse (p : planner) (node parent : Z) : planner :=
  p_update (p_update p node (fun h => with_place h (hn_buffer_id (p_hn p parent)) (hn_offset (p_hn p parent))))
    parent (fun h => with_allocated h false).

Fixpoint p_reuse_loop (p : planner) (node : Z) (srcs : list (option Z)) : option planner :=
  match srcs with
  | [] => None
  | None :: srcs => p_reuse_loop p node srcs
  | Some parent :: srcs => if reusable p node parent then Some (p_reuse p node parent) else p_reuse_loop p node srcs
  end.

Definition p_talloc (p : planner) (buffer_id : Z) : res (Z * ggml_dyn_tallocr) :=
  a ← vget buf_tallocs buffer_id;
  alloc ← vget (p_tallocs p) a;
  Ok (a, alloc).

(** A new place for [node] in the buffer [buffer_id]. *)
Definition p_place (p : planner) (node buffer_id : Z) : res planner :=
  '(a, alloc) ← p_talloc p buffer_id;
  buft ← vget bufts buffer_id;
  '(alloc, offset) ← ggml_dyn_tallocr_alloc alloc (buft_get_alloc_size buft (T node));
  tallocs ← vset (p_tallocs p) a alloc;
  Ok (p_update (p_with_tallocs p tallocs) node (fun h => with_place h buffer_id offset)).

(** The tensors that get a place: not those with data, and not views. *)
Definition placed (t : Z) : bool := bool_decide (t_data (T t) = None) && bool_decide (t_view_src (T t) = None).

Definition p_allocate (p : planner) (node buffer_id : Z) : res planner :=
  _ ← ggml_assert (0 <=? buffer_id);
  if placed node && negb (hn_allocated (p_hn p node)) then
    let p := p_update p node (fun h => with_allocated h true) in
    match (if ggml_op_can_inplace (t_op (T node)) then p_reuse_loop p node (t_src (T node)) else None) with
    | Some p => Ok p
    | None => p_place p node buffer_id
    end
  else Ok p.

Definition p_free (p : planner) (node : Z) : res planner :=
  if is_output (T node) then Ok p
  else
    let hn := p_hn p node in
    '(a, alloc) ← p_talloc p (hn_buffer_id hn);
    buft ← vget bufts (hn_buffer_id hn);
    alloc ← ggml_dyn_tallocr_free_tensor alloc (hn_offset hn) (buft_get_alloc_size buft (T node));
    tallocs ← vset (p_tallocs p) a alloc;
    Ok (p_update (p_with_tallocs p tallocs) node (fun h => with_allocated h false)).

Definition p_leaf (graph : ggml_cgraph) (ids : option (list Z)) (i : Z) (p : planner) : res planner :=
  leaf ← vget (cg_leafs graph) i;
  id ← get_node_buffer_id ids i;
  p_allocate p leaf id.

Definition p_input (ids : option (list Z)) (i : Z) (p : planner) (t : Z) : res planner :=
  if has_flag (T t) GGML_TENSOR_FLAG_INPUT then id ← get_node_buffer_id ids i; p_allocate p t id else Ok p.

Definition p_count_src (ids : option (list Z)) (i : Z) (p : planner) (src : option Z) : res planner :=
  match src with None => Ok p | Some src => p_input ids i (p_update p src add_child) src end.

Definition p_count_view (p : planner) (node : Z) : planner :=
  match t_view_src (T node) with
  | Some view_src => if decide (t_op (T node) = GGML_OP_NONE) then p else p_update p view_src add_view
  | None => p
  end.

Definition p_count (graph : ggml_cgraph) (ids : option (list Z)) (i : Z) (p : planner) : res planner :=
  node ← vget (cg_nodes graph) i;
  p ← p_input ids i (p_count_view p node) node;
  foldM (p_count_src ids i) p (t_src (T node)).

Definition p_parent (buffer_id : Z) (p : planner) (src : option Z) : res planner :=
  match src with None => Ok p | Some parent => p_allocate p parent buffer_id end.

(** A tensor without readers and views gives its place back. *)
Definition p_release (p : planner) (t : Z) : res planner :=
  let h := p_hn p t in
  if (hn_n_views h =? 0) && (hn_n_children h =? 0) && hn_allocated h then p_free p t else Ok p.

Definition p_drop (p : planner) (src : option Z) : res planner :=
  match src with
  | None => Ok p
  | Some parent =>
      let p := p_update p parent drop_child in
      if (hn_n_children (p_hn p parent) =? 0) && (hn_n_views (p_hn p parent) =? 0) then
        match t_view_src (T parent) with
        | Some view_src => p_release (p_update p view_src drop_view) view_src
        | None => p_release p parent
        end
      else Ok p
  end.

Definition p_step (graph : ggml_cgraph) (ids : option (list Z)) (i : Z) (p : planner) : res planner :=
  node ← vget (cg_nodes graph) i;
  buffer_id ← get_node_buffer_id ids i;
  p ← foldM (p_parent buffer_id) p (t_src (T node));
  p ← p_allocate p node buffer_id;
  foldM p_drop p (t_src (T node)).

Definition plan_graph (tallocs : list ggml_dyn_tallocr) (graph : ggml_cgraph) (node_ids leaf_ids : option (list Z)) : res planner :=
  p ← for_z 0 (n_leafs graph) (p_leaf graph leaf_ids) {| p_hn := fun _ => zero_node; p_tallocs := tallocs |};
  p ← for_z 0 (n_nodes graph) (p_count graph node_ids) p;
  for_z 0 (n_nodes graph) (p_step graph node_ids) p.
End planner.

(** * Simulation *)

Section sim.
Context `{BufferTypes} (T : heap) (bufts buf_tallocs : list Z) (buffers : list (option Z)) (U : gset Z).
Context (Hsrc : forall t s, t ∈ U -> Some s ∈ t_src (T t) -> s ∈ U).
Context (Hview : forall t s, t ∈ U -> t_view_src (T t) = Some s -> s ∈ U).

(** [i] is the address of the entry of [t]. *)
Definition entry_at (g : ggml_gallocr) (i t : Z) : Prop :=
  0 <= i < hs_size (ga_hash_set g) /\ slot (ga_hash_set g) i = Some t.

Record sim (g : ggml_gallocr) (p : planner) : Prop := {
  sm_hash   : hash_ok (ga_hash_set g);
  sm_keys   : forall t, hash_mem (ga_hash_set g) t -> t ∈ U;
  sm_room   : Z.of_nat (size U) <= hs_size (ga_hash_set g);
  sm_values : zlen (ga_hash_values g) = hs_size (ga_hash_set g);
  sm_zero   : forall i, 0 <= i < hs_size (ga_hash_set g) -> slot (ga_hash_set g) i = None -> zlookup (ga_hash_values g) i = Some zero_node;
  sm_hn     : forall i t, entry_at g i t -> zlookup (ga_hash_values g) i = Some (p_hn p t);
  sm_absent : forall t, ~ hash_mem (ga_hash_set g) t -> p_hn p t = zero_node;
  sm_talloc : ga_tallocs g = p_tallocs p;
  sm_bufts  : ga_bufts g = bufts;
  sm_ids    : ga_buf_tallocs g = buf_tallocs;
  sm_owned  : forall t, hn_allocated (p_hn p t) = true -> placed T t = true;
  sm_buffers : ga_buffers g = buffers
}.

(** Related outcomes: related states, or the same failure. *)
Definition sim_res (m : res ggml_gallocr) (n : res planner) : Prop :=
  match m, n with
  | Ok g, Ok p => sim g p
  | Err e, Err e' => e = e'
  | _, _ => False
  end.

Lemma sim_bind m n f h : sim_res m n -> (forall g p, sim g p -> sim_res (f g) (h p)) -> sim_res (m ≫= f) (n ≫= h).
Proof. destruct m, n; cbn; auto; done. Qed.

Lemma sim_bind_eq {A} (m : res A) f h : (forall x, sim_res (f x) (h x)) -> sim_res (m ≫= f) (m ≫= h).
Proof. intros Hx. destruct m; cbn; auto. Qed.

Lemma sim_foldM {A} (f : ggml_gallocr -> A -> res ggml_gallocr) (h : planner -> A -> res planner) l g p :
  (forall a g p, a ∈ l -> sim g p -> sim_res (f g a) (h p a)) -> sim g p -> sim_res (foldM f g l) (foldM h p l).
Proof.
  revert g p. induction l as [|a l IH]; intros g p Hf Hgp; cbn [foldM]; [done|].
  eapply sim_bind; [apply Hf; [by left|done]|]. intros g' p' Hgp'. apply IH; [|done]. intros b ? ? ?. apply Hf. by right.
Qed.

Lemma sim_for_z lo hi (f : Z -> ggml_gallocr -> res ggml_gallocr) (h : Z -> planner -> res planner) g p :
  (forall i g p, lo <= i < hi -> sim g p -> sim_res (f i g) (h i p)) -> sim g p -> sim_res (for_z lo hi f g) (for_z lo hi h p).
Proof.
  unfold for_z. intros Hf. assert (Hn : forall n i g p, (forall j g p, i <= j < i + Z.of_nat n -> sim g p -> sim_res (f j g) (h j p)) ->
    sim g p -> sim_res (for_n n i f g) (for_n n i h p)).
  { intros n. induction n as [|n IH]; intros i g' p' Hj Hgp; cbn [for_n]; [done|].
    eapply sim_bind; [apply Hj; [lia|done]|]. intros g2 p2 H2. apply IH; [|done]. intros j ? ? ?. apply Hj. lia. }
  apply Hn. intros j ? ? ?. apply Hf. lia.
Qed.

(** ** Entries *)

Lemma sim_hash_get g p t : sim g p -> t ∈ U ->
  exists g' i, ggml_gallocr_hash_get g t = Ok (g', i) /\ sim g' p /\ entry_at g' i t /\ (forall j u, entry_at g j u -> entry_at g' j u).
Proof using.
  intros S Ht. destruct (find_or_insert_ok (ga_hash_set g) U t (sm_hash _ _ S) (sm_keys _ _ S) Ht (sm_room _ _ S)) as (hs & i & E & Hl).
  exists (with_hash_set g hs), i. unfold ggml_gallocr_hash_get. rewrite E. pose proof (looked_up_mem _ _ _ _ Hl) as Hm.
  destruct Hl as (Hok & Hsz & Hi & Hs & Hrest & Hold).
  assert (Hkeep : forall j u, entry_at g j u -> entry_at (with_hash_set g hs) j u).
  { intros j u [Hj Hu]. unfold entry_at. cbn. rewrite Hsz. split; [done|].
    destruct (decide (j = i)) as [->|Hne]; [destruct Hold as [Hold|[Hold _]]; congruence|by rewrite Hrest]. }
  split; [done|]. split; [|split; [unfold entry_at; cbn; rewrite Hsz; done|exact Hkeep]].
  destruct S as [S1 S2 S3 S4 S5 S6 S7 S8 S9 S10 S11 S12].
  constructor; cbn [ga_hash_set ga_hash_values ga_tallocs ga_bufts ga_buf_tallocs with_hash_set]; rewrite ?Hsz; try done.
  - intros u [->|Hu]%Hm; [done|by apply S2].
  - intros j Hj Hn. apply S5; [done|]. destruct (decide (j = i)) as [->|Hne]; [congruence|by rewrite <- Hrest].
  - intros j u [Hj Hu]. cbn in Hj, Hu. rewrite Hsz in Hj. destruct (decide (j = i)) as [->|Hne].
    + assert (u = t) as -> by congruence. destruct Hold as [Hold|[Hold Hno]]; [by apply S6|].
      rewrite (S7 t Hno). by apply S5.
    + rewrite Hrest in Hu by done. by apply S6.
  - intros u Hu. apply S7. intros Hmu. apply Hu, Hm. by right.
Qed.

Lemma sim_hn_get g p i t : sim g p -> entry_at g i t -> hn_get g i = Ok (p_hn p t).
Proof using. intros S Hi. unfold hn_get. by apply vget_Some, (sm_hn _ _ S). Qed.

Lemma sim_hn_update g p i t f : sim g p -> entry_at g i t ->
  (hn_allocated (f (p_hn p t)) = true -> placed T t = true) ->
  exists g', hn_update g i f = Ok g' /\ sim g' (p_update p t f) /\ forall j u, entry_at g j u -> entry_at g' j u.
Proof using.
  intros S Hi Hown. unfold hn_update. rewrite (sim_hn_get g p i t S Hi). cbn [mbind res_bind].
  rewrite vset_at by (rewrite (sm_values _ _ S); apply Hi). eexists. split; [reflexivity|]. split; [|done].
  destruct S as [S1 S2 S3 S4 S5 S6 S7 S8 S9 S10 S11 S12]. destruct Hi as [Hi Ht].
  constructor; cbn [ga_hash_set ga_hash_values ga_tallocs ga_bufts ga_buf_tallocs with_hash_values p_hn p_update p_tallocs]; try done.
  - by rewrite zlen_insert.
  - intros j Hj Hn. rewrite zlookup_insert by lia. rewrite decide_False by congruence. by apply S5.
  - intros j u [Hj Hu]. cbn in Hj, Hu. rewrite zlookup_insert by lia. destruct (decide (i = j)) as [->|Hne].
    + assert (u = t) as -> by congruence. by rewrite decide_True.
    + rewrite decide_False; [by apply S6|]. intros ->. apply Hne. by apply (ho_inj _ S1 i j t).
  - intros u Hu. destruct (decide (u = t)) as [->|]; [|by apply S7]. destruct Hu. by exists i.
  - intros u. destruct (decide (u = t)) as [->|]; [done|]. apply S11.
Qed.

Lemma sim_count g p t f : sim g p -> t ∈ U -> (forall h, hn_allocated (f h) = hn_allocated h) ->
  sim_res (count_up g t f) (Ok (p_update p t f)).
Proof using.
  intros S Ht Hf. unfold count_up. destruct (sim_hash_get g p t S Ht) as (g1 & i & -> & S1 & Hi & _). cbn [mbind res_bind].
  destruct (sim_hn_update g1 p i t f S1 Hi) as (g2 & -> & S2 & _); [rewrite Hf; apply (sm_owned _ _ S)|]. exact S2.
Qed.

Lemma sim_tallocs g p ts : sim g p -> sim (with_tallocs g ts) (p_with_tallocs p ts).
Proof using. intros [S1 S2 S3 S4 S5 S6 S7 S8 S9 S10 S11 S12]. by constructor. Qed.

(** ** The operations *)

Definition reuse_sim (i node : Z) (r : res (ggml_gallocr * bool)) (p : planner) (o : option planner) : Prop :=
  exists g' b, r = Ok (g', b) /\ entry_at g' i node /\
    match o with Some p' => b = true /\ sim g' p' | None => b = false /\ sim g' p end.

Lemma sim_own g p t : sim g p -> t ∈ U ->
  exists g' i, ggml_gallocr_is_own g t = Ok (g', hn_allocated (p_hn p t)) /\ sim g' p /\ entry_at g' i t /\
    forall j u, entry_at g j u -> entry_at g' j u.
Proof using.
  intros S Ht. unfold ggml_gallocr_is_own. destruct (sim_hash_get g p t S Ht) as (g1 & i & -> & S1 & Hi & Hk). cbn [mbind res_bind].
  rewrite (sim_hn_get g1 p i t S1 Hi). cbn [mbind res_bind]. by exists g1, i.
Qed.

Lemma sim_reuse_parent g p i node parent : sim g p -> entry_at g i node -> parent ∈ U -> hn_allocated (p_hn p node) = true ->
  reuse_sim i node (reuse_parent T g i node parent) p (if reusable T p node parent then Some (p_reuse p node parent) else None).
Proof using.
  intros S Hi Hp Hnode. unfold reuse_parent, reusable. destruct (sim_own g p parent S Hp) as (g1 & j & -> & S1 & _ & Hk1). cbn [mbind res_bind].
  assert (Hi1 : entry_at g1 i node) by auto.
  destruct (hn_allocated (p_hn p parent)) eqn:Eal; cbn [negb andb]; [|by exists g1, false].
  destruct (parent_is_output T (T parent)); cbn [negb andb]; [by exists g1, false|].
  destruct (ggml_are_same_layout (T node) (T parent)); cbn [negb andb]; [|by exists g1, false].
  destruct (sim_hash_get g1 p parent S1 Hp) as (g2 & p_i & -> & S2 & Hpi & Hk2). cbn [mbind res_bind].
  rewrite (sim_hn_get g2 p p_i parent S2 Hpi). cbn [mbind res_bind].
  destruct ((hn_n_children (p_hn p parent) =? 1) && (hn_n_views (p_hn p parent) =? 0)); [|exists g2, false; auto].
  pose proof (sm_owned _ _ S parent Eal) as Hpl. unfold placed in Hpl. apply andb_true_iff in Hpl as [_ Hv]. apply bool_decide_eq_true in Hv. rewrite Hv.
  destruct (sim_hn_update g2 p i node (fun h => with_place h (hn_buffer_id (p_hn p parent)) (hn_offset (p_hn p parent))) S2) as (g3 & -> & S3 & Hk3);
    [auto|intros _; by apply (sm_owned _ _ S)|]. cbn [mbind res_bind].
  destruct (sim_hn_update g3 _ p_i parent (fun h => with_allocated h false) S3) as (g4 & -> & S4 & Hk4); [auto|done|]. cbn [mbind res_bind].
  exists g4, true. split; [done|]. split; [auto|]. by split.
Qed.

Lemma sim_reuse_loop srcs g p i node : (forall s, Some s ∈ srcs -> s ∈ U) -> sim g p -> entry_at g i node -> hn_allocated (p_hn p node) = true ->
  reuse_sim i node (reuse_loop T g i node srcs) p (p_reuse_loop T p node srcs).
Proof using.
  revert g. induction srcs as [|[parent|] srcs IH]; intros g Hs S Hi Hnode; cbn [reuse_loop p_reuse_loop].
  - by exists g, false.
  - destruct (sim_reuse_parent g p i node parent S Hi) as (g1 & b & -> & Hi1 & Hr); [apply Hs; by left|done|]. cbn [mbind res_bind].
    destruct (reusable T p node parent); destruct Hr as [-> S1]; cbn [snd fst].
    + by exists g1, true.
    + apply IH; [|done|done|done]. intros s ?. apply Hs. by right.
  - apply IH; [|done|done|done]. intros s ?. apply Hs. by right.
Qed.

Lemma sim_place g p i node buffer_id : sim g p -> entry_at g i node -> hn_allocated (p_hn p node) = true ->
  sim_res ('(a, alloc) ← talloc_of g buffer_id;
           buft ← vget (ga_bufts g) buffer_id;
           '(alloc, offset) ← ggml_dyn_tallocr_alloc alloc (buft_get_alloc_size buft (T node));
           tallocs ← vset (ga_tallocs g) a alloc;
           hn_update (with_tallocs g tallocs) i (fun h => with_place h buffer_id offset))
          (p_place T bufts buf_tallocs p node buffer_id).
Proof using.
  intros S Hi Hnode. unfold p_place, talloc_of, p_talloc. rewrite (sm_ids _ _ S), (sm_talloc _ _ S), (sm_bufts _ _ S).
  rewrite !res_bind_assoc. apply sim_bind_eq. intros a. cbn beta. rewrite !res_bind_assoc. apply sim_bind_eq. intros alloc. cbn [mbind res_bind].
  apply sim_bind_eq. intros buft. apply sim_bind_eq. intros [alloc' offset]. apply sim_bind_eq. intros tallocs.
  destruct (sim_hn_update (with_tallocs g tallocs) (p_with_tallocs p tallocs) i node (fun h => with_place h buffer_id offset)) as (g' & -> & S' & _);
    [by apply sim_tallocs|done|intros _; by apply (sm_owned _ _ S)|]. exact S'.
Qed.

Lemma sim_allocate g p node buffer_id : sim g p -> node ∈ U ->
  sim_res (ggml_gallocr_allocate_node T g node buffer_id) (p_allocate T bufts buf_tallocs p node buffer_id).
Proof using Hsrc.
  intros S Hn. unfold ggml_gallocr_allocate_node, p_allocate. apply sim_bind_eq. intros _.
  destruct (sim_hash_get g p node S Hn) as (g1 & i & -> & S1 & Hi & _). cbn [mbind res_bind].
  unfold ggml_gallocr_is_allocated, placed. destruct (t_data (T node)) as [d|] eqn:Ed; [done|].
  destruct (sim_own g1 p node S1 Hn) as (g2 & j & -> & S2 & _ & Hk). cbn [mbind res_bind]. specialize (Hk i node Hi). clear g1 S1 Hi.
  unfold ggml_is_view. destruct (t_view_src (T node)) as [v|] eqn:Ev; [by destruct (hn_allocated _)|].
  destruct (hn_allocated (p_hn p node)) eqn:Eal; cbn [negb andb bool_decide]; [done|].
  assert (Hpl : placed T node = true) by (unfold placed; by rewrite Ed, Ev).
  destruct (sim_hn_update g2 p i node (fun h => with_allocated h true) S2 Hk) as (g3 & -> & S3 & Hk3); [done|]. cbn [mbind res_bind].
  assert (Hnode : hn_allocated (p_hn (p_update p node (fun h => with_allocated h true)) node) = true) by (cbn; by rewrite decide_True).
  destruct (ggml_op_can_inplace (t_op (T node))).
  - destruct (sim_reuse_loop (t_src (T node)) g3 _ i node (fun s => Hsrc node s Hn) S3 (Hk3 _ _ Hk) Hnode) as (g4 & b & -> & Hi4 & Hr). cbn [mbind res_bind].
    destruct (p_reuse_loop _ _ _ _) as [p'|]; destruct Hr as [-> S4]; [done|]. by apply sim_place.
  - cbn [mbind res_bind]. apply sim_place; auto.
Qed.

Lemma sim_free g p node : sim g p -> node ∈ U -> sim_res (ggml_gallocr_free_node T g node) (p_free T bufts buf_tallocs p node).
Proof using.
  intros S Hn. unfold ggml_gallocr_free_node, p_free. destruct (is_output (T node)); [done|].
  destruct (sim_hash_get g p node S Hn) as (g1 & i & -> & S1 & Hi & _). cbn [mbind res_bind].
  rewrite (sim_hn_get g1 p i node S1 Hi). cbn [mbind res_bind]. unfold talloc_of, p_talloc. rewrite (sm_ids _ _ S1), (sm_talloc _ _ S1), (sm_bufts _ _ S1).
  rewrite !res_bind_assoc. apply sim_bind_eq. intros a. cbn beta. rewrite !res_bind_assoc. apply sim_bind_eq. intros alloc. cbn [mbind res_bind].
  apply sim_bind_eq. intros buft. apply sim_bind_eq. intros alloc'. apply sim_bind_eq. intros tallocs.
  destruct (sim_hn_update (with_tallocs g1 tallocs) (p_with_tallocs p tallocs) i node (fun h => with_allocated h false)) as (g' & -> & S' & _);
    [by apply sim_tallocs|done|done|]. exact S'.
Qed.

Lemma sim_input ids i g p t : sim g p -> t ∈ U ->
  sim_res (if has_flag (T t) GGML_TENSOR_FLAG_INPUT then id ← get_node_buffer_id ids i; ggml_gallocr_allocate_node T g t id else Ok g)
    (p_input T bufts buf_tallocs ids i p t).
Proof using Hsrc. intros S Ht. unfold p_input. destruct (has_flag _ _); [|done]. apply sim_bind_eq. intros id. by apply sim_allocate. Qed.

Context (graph : ggml_cgraph).
Context (Hnodes : forall t, t ∈ cg_nodes graph -> t ∈ U) (Hleafs : forall t, t ∈ cg_leafs graph -> t ∈ U).

Lemma sim_vget (l : list Z) i (f : Z -> res ggml_gallocr) (h : Z -> res planner) : (forall t, t ∈ l -> sim_res (f t) (h t)) -> sim_res (vget l i ≫= f) (vget l i ≫= h).
Proof using.
  intros Hx. unfold vget. destruct (zlookup l i) as [t|] eqn:E; cbn; [|done]. apply Hx, elem_of_zlookup. exists i.
  split; [by apply zlookup_Some_lt in E|done].
Qed.

Lemma sim_bind_ok m q f n : sim_res m (Ok q) -> (forall g, sim g q -> sim_res (f g) n) -> sim_res (m ≫= f) n.
Proof using. destruct m; cbn; auto; done. Qed.

Lemma sim_count_node ids i g p : sim g p -> sim_res (count_node T graph ids i g) (p_count T bufts buf_tallocs graph ids i p).
Proof using Hsrc Hview Hnodes.
  intros S. unfold count_node, p_count. apply sim_vget. intros node Hn. apply Hnodes in Hn.
  eapply (sim_bind_ok _ (p_count_view T p node)).
  - unfold p_count_view. destruct (t_view_src (T node)) as [v|] eqn:Ev; [|done]. case_decide; [done|]. apply sim_count; [done|by eapply Hview|done].
  - intros g1 S1. eapply sim_bind; [by apply sim_input|]. intros g2 p2 S2. apply sim_foldM; [|done].
    intros [s|] g3 p3 Hs S3; [|done]. cbn [count_src p_count_src].
    apply (sim_bind_ok _ (p_update p3 s add_child)); [apply sim_count; [done|by eapply Hsrc|done]|].
    intros g4 S4. apply sim_input; [done|by eapply Hsrc].
Qed.

Lemma sim_release g p i t : sim g p -> t ∈ U -> entry_at g i t ->
  sim_res (h ← hn_get g i; if (hn_n_views h =? 0) && (hn_n_children h =? 0) && hn_allocated h then ggml_gallocr_free_node T g t else Ok g)
    (p_release T bufts buf_tallocs p t).
Proof using.
  intros S Ht Hi. rewrite (sim_hn_get g p i t S Hi). cbn [mbind res_bind]. unfold p_release. destruct (_ && _ && _); [|done]. by apply sim_free.
Qed.

Lemma sim_update_parent g p src : sim g p -> (forall s, src = Some s -> s ∈ U) ->
  sim_res (update_parent T g src) (p_drop T bufts buf_tallocs p src).
Proof using Hview.
  intros S Hs. destruct src as [parent|]; [|done]. specialize (Hs parent eq_refl). unfold update_parent, p_drop.
  destruct (sim_hash_get g p parent S Hs) as (g1 & i & -> & S1 & Hi & _). cbn [mbind res_bind].
  destruct (sim_hn_update g1 p i parent drop_child S1 Hi (sm_owned _ _ S parent)) as (g2 & -> & S2 & Hk2). cbn [mbind res_bind].
  set (p2 := p_update p parent drop_child) in *. rewrite (sim_hn_get g2 p2 i parent S2 (Hk2 _ _ Hi)). cbn [mbind res_bind].
  destruct ((hn_n_children (p_hn p2 parent) =? 0) && (hn_n_views (p_hn p2 parent) =? 0)) eqn:E; [|done].
  destruct (t_view_src (T parent)) as [v|] eqn:Ev.
  - pose proof (Hview parent v Hs Ev) as Hv. destruct (sim_hash_get g2 p2 v S2 Hv) as (g3 & j & -> & S3 & Hj & _). cbn [mbind res_bind].
    destruct (sim_hn_update g3 p2 j v drop_view S3 Hj (sm_owned _ _ S2 v)) as (g4 & -> & S4 & Hk4). cbn [mbind res_bind].
    apply (sim_release g4 _ j v S4 Hv). auto.
  - unfold p_release. apply andb_true_iff in E as [-> ->]. cbn [andb]. destruct (hn_allocated (p_hn p2 parent)); [|done]. by apply sim_free.
Qed.

Lemma sim_step ids i g p : sim g p -> sim_res (allocate_step T graph ids i g) (p_step T bufts buf_tallocs graph ids i p).
Proof using Hsrc Hview Hnodes.
  intros S. unfold allocate_step, p_step. apply sim_vget. intros node Hn. apply Hnodes in Hn. apply sim_bind_eq. intros id.
  eapply sim_bind; [apply sim_foldM; [|exact S]|].
  { intros [s|] g1 p1 Hs S1; [|done]. apply sim_allocate; [done|by eapply Hsrc]. }
  intros g1 p1 S1. eapply sim_bind; [by apply sim_allocate|]. intros g2 p2 S2. apply sim_foldM; [|done].
  intros src g3 p3 Hs S3. apply sim_update_parent; [done|]. intros s ->. by eapply Hsrc.
Qed.

Lemma sim_start g : hash_ok (ga_hash_set g) -> Z.of_nat (size U) <= hs_size (ga_hash_set g) -> ga_bufts g = bufts -> ga_buf_tallocs g = buf_tallocs -> ga_buffers g = buffers ->
  let g := with_hash_set g (ggml_hash_set_reset (ga_hash_set g)) in
  sim (with_hash_values g (replicate (Z.to_nat (hs_size (ga_hash_set g))) zero_node)) {| p_hn := fun _ => zero_node; p_tallocs := ga_tallocs g |}.
Proof using.
  intros Hok Hsz Hb Hi Hbu. destruct (reset_ok _ Hok) as (Hok' & Hs' & Hn). cbv zeta. pose proof (ho_size _ Hok) as Hpos.
  constructor; cbn [ga_hash_set ga_hash_values ga_tallocs ga_bufts ga_buf_tallocs with_hash_set with_hash_values p_hn p_tallocs]; rewrite ?Hs'; try done.
  - intros t (i & _ & E). by rewrite Hn in E.
  - unfold zlen. rewrite length_replicate. lia.
  - intros i Hir _. apply zlookup_replicate_lt. lia.
  - intros i t [_ E]. cbn in E. by rewrite Hn in E.
Qed.

Lemma alloc_graph_sim g node_ids leaf_ids :
  hash_ok (ga_hash_set g) -> Z.of_nat (size U) <= hs_size (ga_hash_set g) -> ga_bufts g = bufts -> ga_buf_tallocs g = buf_tallocs -> ga_buffers g = buffers ->
  sim_res (ggml_gallocr_alloc_graph_impl T g graph node_ids leaf_ids) (plan_graph T bufts buf_tallocs (ga_tallocs g) graph node_ids leaf_ids).
Proof using Hsrc Hview Hnodes Hleafs.
  intros Hok Hsz Hb Hi Hbu. unfold ggml_gallocr_alloc_graph_impl, plan_graph. pose proof (sim_start g Hok Hsz Hb Hi Hbu) as S. cbv zeta in S |- *.
  eapply sim_bind; [apply sim_for_z; [|exact S]|].
  { intros i g1 p1 _ S1. unfold allocate_leaf, p_leaf. apply sim_vget. intros leaf Hl. apply sim_bind_eq. intros id. apply sim_allocate; auto. }
  intros g1 p1 S1. eapply sim_bind; [apply sim_for_z; [|exact S1]|]; [intros i ? ? _; apply sim_count_node|].
  intros g2 p2 S2. apply sim_for_z; [|exact S2]. intros i ? ? _. apply sim_step.
Qed.
End sim.

(** * The allocator implements the planner *)

(** The tensors that a graph mentions, closed under sources and views. *)
Record graph_tensors (T : heap) (graph : ggml_cgraph) (U : gset Z) : Prop := {
  gt_nodes : forall t, t ∈ cg_nodes graph -> t ∈ U;
  gt_leafs : forall t, t ∈ cg_leafs graph -> t ∈ U;
  gt_src   : forall t s, t ∈ U -> Some s ∈ t_src (T t) -> s ∈ U;
  gt_view  : forall t s, t ∈ U -> t_view_src (T t) = Some s -> s ∈ U
}.

(** The entry of a tensor in the table of the allocator. *)
Definition entry_of (g : ggml_gallocr) (t : Z) : res hash_node :=
  '(g, i) ← ggml_gallocr_hash_get g t; hn_get g i.

Lemma sim_entry `{BufferTypes} T bufts buf_tallocs buffers U g p t : sim T bufts buf_tallocs buffers U g p -> t ∈ U -> entry_of g t = Ok (p_hn p t).
Proof.
  intros S Ht. unfold entry_of. destruct (sim_hash_get _ _ _ _ _ g p t S Ht) as (g' & i & -> & S' & Hi & _). cbn [mbind res_bind].
  by apply (sim_hn_get T bufts buf_tallocs buffers U).
Qed.

(** The graph allocator with its hash table implements the planner: when the table has
    room for the tensors of the graph, both fail in the same way or both return, with the
    same entry for every tensor and the same free lists. In particular the branch that
    would put a node into the place of a view is never taken. *)
Theorem gallocr_implements_planner `{BufferTypes} T graph U g node_ids leaf_ids :
  graph_tensors T graph U -> hash_ok (ga_hash_set g) -> Z.of_nat (size U) <= hs_size (ga_hash_set g) ->
  match ggml_gallocr_alloc_graph_impl T g graph node_ids leaf_ids,
        plan_graph T (ga_bufts g) (ga_buf_tallocs g) (ga_tallocs g) graph node_ids leaf_ids with
  | Ok g', Ok p => ga_tallocs g' = p_tallocs p /\ forall t, t ∈ U -> entry_of g' t = Ok (p_hn p t)
  | Err e, Err e' => e = e'
  | _, _ => False
  end.
Proof.
  intros [H1 H2 H3 H4] Hok Hsz.
  pose proof (alloc_graph_sim T (ga_bufts g) (ga_buf_tallocs g) (ga_buffers g) U H3 H4 graph H1 H2 g node_ids leaf_ids Hok Hsz eq_refl eq_refl eq_refl) as S.
  unfold sim_res in S. destruct (ggml_gallocr_alloc_graph_impl _ _ _ _ _) as [g'|e], (plan_graph _ _ _ _ _ _ _) as [p|e']; try done.
  split; [apply (sm_talloc _ _ _ _ _ _ _ S)|]. intros t Ht. by apply (sim_entry T (ga_bufts g) (ga_buf_tallocs g) (ga_buffers g) U).
Qed.
