(* ===== verification/GallocSafety.v ===== *)
(** The plan of a graph is safe: when the nodes are computed in their order, a tensor that
    is still needed is never overwritten. The proof follows the planner with an invariant
    that relates the entries to the counts of the readers and views that are still to
    come, and the free lists to the ranges of the tensors that own their place. *)
From S2P Require Import Prelude HashSet Alloc AllocSpec Tensor Buffers Gallocr GallocSpec.

(** * Live ranges of the allocators *)

Definition talloc_ok (alloc : ggml_dyn_tallocr) (live : list (Z * Z)) : Prop :=
  0 < da_alignment alloc <= 2 ^ 62 /\ (2 | da_alignment alloc) /\ state_ok (da_alignment alloc) 0 alloc live.

Lemma zsum_perm l k : l ≡ₚ k -> zsum l = zsum k.
Proof. induction 1; rewrite ?zsum_cons in *; lia. Qed.

Lemma cover_perm l k a : l ≡ₚ k -> cover l a = cover k a.
Proof. intros H. unfold cover. by apply zsum_perm, fmap_Permutation. Qed.

Lemma talloc_ok_perm alloc l k : l ≡ₚ k -> talloc_ok alloc l -> talloc_ok alloc k.
Proof.
  intros HP (H1 & H2 & [Ea [O1 O2 O3 O4 O5 O6] Hc Hs]). split; [done|]. split; [done|].
  assert (HP' : planned (da_alignment alloc) <$> l ≡ₚ planned (da_alignment alloc) <$> k) by by apply fmap_Permutation.
  constructor; [done| |done|by rewrite <- HP]. constructor; try done; try (by rewrite <- HP').
  intros a Ha. rewrite <- (cover_perm _ _ a HP'). by apply O4.
Qed.

(** An allocator that may have more space in use, at the same alignment. *)
Definition talloc_grows (alloc alloc' : ggml_dyn_tallocr) : Prop :=
  da_max_size alloc <= da_max_size alloc' /\ da_alignment alloc' = da_alignment alloc.

Lemma talloc_grows_refl alloc : talloc_grows alloc alloc.
Proof. split; [lia|done]. Qed.

Lemma talloc_alloc alloc live size : talloc_ok alloc live -> 0 <= size < 2 ^ 62 ->
  post (ggml_dyn_tallocr_alloc alloc size)
    (fun '(alloc', o) => talloc_ok alloc' ((o, size) :: live) /\ talloc_grows alloc alloc' /\ 0 <= o /\ o + size <= da_max_size alloc' /\ (da_alignment alloc' | o))
    (fun e => e = Abort).
Proof.
  intros (Hal & H2 & Hst) Hs. eapply post_mono; [apply (state_alloc _ Hal H2 0 alloc live size ltac:(lia) Hst)| |by intros e [? _]].
  { assert (2 ^ 62 = 4611686018427387904) as E by reflexivity. rewrite E in *. rewrite HALF_eq. lia. }
  intros [alloc' o] (Hst' & Hmax & _). pose proof (st_al _ _ _ _ Hst') as Ea.
  destruct (state_safe _ Hal alloc' _ Hst') as [_ Hb]. destruct (Hb (length live) (o, size)) as (Ho & Hle & Hdiv); [by rewrite lookup_app_r, Nat.sub_diag|].
  splits; [|split; [lia|done]|exact Ho|exact Hle|by rewrite Ea]. apply (talloc_ok_perm _ (live ++ [(o, size)])); [by rewrite Permutation_app_comm|].
  unfold talloc_ok. by rewrite Ea.
Qed.

Lemma talloc_free alloc live o size : talloc_ok alloc ((o, size) :: live) ->
  post (ggml_dyn_tallocr_free_tensor alloc o size)
    (fun alloc' => talloc_ok alloc' live /\ talloc_grows alloc alloc') (fun e => e = Abort).
Proof.
  intros (Hal & H2 & Hst). eapply post_mono; [apply (state_free _ Hal 0 alloc _ 0 o size ltac:(lia) Hst eq_refl)| |by intros e [? _]].
  intros alloc' (Hst' & Hmax). pose proof (st_al _ _ _ _ Hst') as Ea. split; [unfold talloc_ok; by rewrite Ea|split; [lia|done]].
Qed.

Lemma talloc_disjoint alloc l r q rest a : l ≡ₚ r :: q :: rest -> talloc_ok alloc l -> in_range r a -> ~ in_range q a.
Proof.
  intros HP Hok. apply (talloc_ok_perm _ _ _ HP) in Hok as (Hal & _ & Hst).
  destruct (state_safe _ Hal alloc _ Hst) as [Hd _]. by apply (Hd 0%nat 1%nat r q a eq_refl eq_refl).
Qed.

Lemma talloc_fresh al : 0 < al <= 2 ^ 62 -> (2 | al) -> talloc_ok (ggml_dyn_tallocr_new al) [].
Proof. intros Hal H2. split; [done|]. split; [done|]. apply (reach_state al Hal H2 0); [lia|constructor]. Qed.

(** * The ranges of the tensors of a graph *)

(** Changing whether one element is in a filter. *)
Lemma filter_flip (P Q : Z -> bool) (ts : list Z) t : NoDup ts -> t ∈ ts ->
  (forall u, u <> t -> P u = Q u) -> P t = false -> Q t = true -> List.filter Q ts ≡ₚ t :: List.filter P ts.
Proof.
  intros HN Hin Hsame HP HQ. apply list_elem_of_split in Hin as (l1 & l2 & ->).
  apply NoDup_app in HN as (_ & Hdis & HN2). apply NoDup_cons in HN2 as [Hl2 _].
  assert (Hl1 : t ∉ l1) by (intros H; apply (Hdis t H); by left).
  assert (Heq : forall l, t ∉ l -> List.filter P l = List.filter Q l).
  { intros l Hl. apply filter_ext_in. intros u Hu. apply Hsame. intros ->. apply Hl. by apply list_elem_of_In. }
  rewrite !List.filter_app. cbn. rewrite HP, HQ, (Heq l1 Hl1), (Heq l2 Hl2). by rewrite Permutation_middle.
Qed.

Section safety.
Context `{BufferTypes} (T : heap) (bufts buf_tallocs : list Z) (graph : ggml_cgraph).
Local Abbreviation N := (cg_nodes graph).
Local Abbreviation L := (cg_leafs graph).

(** The tensors that can get a place. *)
Definition ts : list Z := remove_dups (L ++ N).

Lemma ts_elem t : t ∈ ts <-> t ∈ L \/ t ∈ N.
Proof. unfold ts. by rewrite elem_of_remove_dups, elem_of_app. Qed.

Definition place (p : planner) (t : Z) : Z * Z := (hn_buffer_id (p_hn p t), hn_offset (p_hn p t)).

Definition size_in (buffer_id t : Z) : Z :=
  match zlookup bufts buffer_id with Some b => buft_get_alloc_size b (T t) | None => 0 end.

(** The range that a tensor has at a place: offset and size. *)
Definition range_at (pl : Z * Z) (t : Z) : Z * Z := (pl.2, size_in pl.1 t).
Definition range (p : planner) (t : Z) : Z * Z := range_at (place p t) t.

Definition owns (p : planner) (a t : Z) : bool :=
  hn_allocated (p_hn p t) && bool_decide (zlookup buf_tallocs (hn_buffer_id (p_hn p t)) = Some a).

Definition live (p : planner) (a : Z) : list (Z * Z) := range p <$> List.filter (owns p a) ts.

(** Nothing that matters for the live ranges differs between two states at [t]. *)
Definition same_at (p q : planner) (t : Z) : Prop :=
  place p t = place q t /\ hn_allocated (p_hn p t) = hn_allocated (p_hn q t).

Lemma same_owns p q a t : same_at p q t -> owns p a t = owns q a t /\ range p t = range q t.
Proof. unfold same_at, owns, range, place. intros [[= -> ->] ->]. done. Qed.

Lemma live_same p q a : (forall t, same_at p q t) -> live p a = live q a.
Proof.
  intros Hs. unfold live. rewrite (List.filter_ext (owns p a) (owns q a)) by (intros t; by apply same_owns).
  apply list_fmap_ext. intros ? t _. by apply same_owns.
Qed.

Lemma live_gain p q a t : t ∈ ts -> (forall u, u <> t -> same_at p q u) -> owns p a t = false -> owns q a t = true ->
  live q a ≡ₚ range q t :: live p a.
Proof.
  intros Ht Hs Hp Hq. unfold live.
  assert (Ho : forall u, u <> t -> owns p a u = owns q a u) by (intros u Hu; by apply same_owns, Hs).
  rewrite (filter_flip (owns p a) (owns q a) ts t (NoDup_remove_dups _) Ht Ho Hp Hq).
  cbn [fmap list_fmap]. f_equiv. apply reflexive_eq, list_fmap_ext. intros ? u Hu. symmetry.
  destruct (decide (u = t)) as [->|Hne]; [|by apply same_owns, Hs].
  exfalso. apply list_elem_of_lookup_2 in Hu. apply list_elem_of_In, filter_In in Hu as [_ Hu]. congruence.
Qed.

Lemma live_same_at p q a t : (forall u, u <> t -> same_at p q u) -> owns p a t = false -> owns q a t = false -> live p a = live q a.
Proof.
  intros Hs Hp Hq. unfold live.
  assert (E : List.filter (owns p a) ts = List.filter (owns q a) ts).
  { apply List.filter_ext. intros u. destruct (decide (u = t)) as [->|Hne]; [congruence|by apply same_owns, Hs]. }
  rewrite E. apply list_fmap_ext. intros i u Hu. destruct (decide (u = t)) as [->|Hne]; [|by apply same_owns, Hs].
  exfalso. apply list_elem_of_lookup_2 in Hu. apply list_elem_of_In, filter_In in Hu as [_ Hu]. congruence.
Qed.

(** * Counting readers and views *)

Fixpoint occ (srcs : list (option Z)) (t : Z) : Z :=
  match srcs with [] => 0 | s :: srcs => (if decide (s = Some t) then 1 else 0) + occ srcs t end.

Lemma occ_nonneg srcs t : 0 <= occ srcs t.
Proof. induction srcs as [|s srcs IH]; cbn; [lia|]. case_decide; lia. Qed.

Lemma occ_pos srcs t : Some t ∈ srcs -> 0 < occ srcs t.
Proof.
  induction srcs as [|s srcs IH]; [by intros ?%elem_of_nil|]. cbn. pose proof (occ_nonneg srcs t).
  intros [<-|Hin]%elem_of_cons; [rewrite decide_True by done; lia|]. specialize (IH Hin). case_decide; lia.
Qed.

Lemma occ_elem srcs t : 0 < occ srcs t -> Some t ∈ srcs.
Proof.
  induction srcs as [|s srcs IH]; cbn; [lia|]. case_decide as E; [intros _; subst; by left|]. intros Ho. right. apply IH. lia.
Qed.

(** How often [t] is read by the nodes of a list, and from the [k]-th node on. *)
Definition readers (l : list Z) (t : Z) : Z := zsum ((fun n => occ (t_src (T n)) t) <$> l).
Definition rem (k : nat) (t : Z) : Z := readers (drop k N) t.

Lemma readers_nonneg l t : 0 <= readers l t.
Proof. apply zsum_nonneg, Forall_fmap, Forall_forall. intros n _. apply occ_nonneg. Qed.

Lemma readers_append l k t : readers (l ++ k) t = readers l t + readers k t.
Proof. unfold readers. by rewrite fmap_app, zsum_app. Qed.

Lemma readers_elem l t : 0 < readers l t -> exists n, n ∈ l /\ Some t ∈ t_src (T n).
Proof.
  induction l as [|n l IH]; [cbn; lia|]. change (readers (n :: l) t) with (occ (t_src (T n)) t + readers l t). intros Hr.
  destruct (decide (0 < occ (t_src (T n)) t)) as [Hp|Hp]; [exists n; split; [by left|by apply occ_elem]|].
  destruct IH as (m & Hm & Hs); [lia|]. exists m. split; [by right|done].
Qed.

Lemma rem_nonneg k t : 0 <= rem k t.
Proof. apply readers_nonneg. Qed.

Lemma rem_step k node t : N !! k = Some node -> rem k t = occ (t_src (T node)) t + rem (S k) t.
Proof. intros Hn. unfold rem. by rewrite (drop_S _ _ _ Hn). Qed.

Lemma rem_pos k j node t : (k <= j)%nat -> N !! j = Some node -> Some t ∈ t_src (T node) -> 0 < rem k t.
Proof.
  intros Hkj Hn Ht. unfold rem. rewrite <- (take_drop (j - k) (drop k N)), drop_drop. replace (k + (j - k))%nat with j by lia.
  rewrite readers_append. fold (rem j t). rewrite (rem_step _ _ _ Hn). pose proof (occ_pos _ _ Ht). pose proof (rem_nonneg (S j) t).
  pose proof (readers_nonneg (take (j - k) (drop k N)) t). lia.
Qed.

(** A node that is counted as a view of [r]. *)
Definition view_of (v r : Z) : bool := bool_decide (t_view_src (T v) = Some r) && negb (bool_decide (t_op (T v) = GGML_OP_NONE)).

(** [v] had readers and has none any more. *)
Definition finished (c : Z -> Z) (v : Z) : bool := (0 <? rem 0 v) && (c v <=? 0).

(** The views of [r] that are not finished when the counts are [c]. *)
Definition views_in (l : list Z) (c : Z -> Z) (r : Z) : Z :=
  zsum ((fun v => if view_of v r && negb (finished c v) then 1 else 0) <$> l).
Definition views (c : Z -> Z) (r : Z) : Z := views_in N c r.

Lemma views_in_nonneg l c r : 0 <= views_in l c r.
Proof. apply zsum_nonneg, Forall_fmap, Forall_forall. intros n _. cbn. case_match; lia. Qed.

Lemma views_mono c d r : (forall v, c v <= d v) -> views c r <= views d r.
Proof.
  intros Hcd. unfold views, views_in. induction N as [|v l IH]; [done|]. cbn [fmap list_fmap]. rewrite !zsum_cons.
  assert (finished d v = true -> finished c v = true) as Hf.
  { unfold finished. rewrite !andb_true_iff, !Z.leb_le. pose proof (Hcd v). intros [? ?]. split; [done|lia]. }
  destruct (view_of v r), (finished c v), (finished d v); cbn; first [lia|by specialize (Hf eq_refl)].
Qed.

Lemma views_same c d r : (forall v, view_of v r = true -> finished c v = finished d v) -> views c r = views d r.
Proof.
  intros Hcd. unfold views, views_in. f_equal. apply list_fmap_ext. intros ? v _. destruct (view_of v r) eqn:E; [|done]. by rewrite (Hcd v E).
Qed.

Lemma views_elem c v r : v ∈ N -> view_of v r = true -> finished c v = false -> 0 < views c r.
Proof.
  intros Hv Hvr Hf. unfold views. apply list_elem_of_split in Hv as (l1 & l2 & ->). unfold views_in. rewrite fmap_app, zsum_app. cbn [fmap list_fmap].
  rewrite zsum_cons, Hvr, Hf. cbn. pose proof (views_in_nonneg l1 c r). pose proof (views_in_nonneg l2 c r). unfold views_in in *. lia.
Qed.

Lemma views_none c r : (forall v, v ∈ N -> view_of v r = false) -> views c r = 0.
Proof.
  intros Hno. unfold views, views_in. induction N as [|v l IH]; [done|]. cbn [fmap list_fmap]. rewrite zsum_cons, (Hno v) by by left. cbn.
  rewrite IH; [done|]. intros u Hu. apply Hno. by right.
Qed.

(** When the last reader of a view is done, its source has one view less. *)
Lemma views_finish c d v r : NoDup N -> v ∈ N -> view_of v r = true -> finished c v = false -> finished d v = true ->
  (forall u, u <> v -> c u = d u) -> views d r = views c r - 1.
Proof.
  intros HN Hv Hvr Hc Hd Hsame. unfold views. apply list_elem_of_split in Hv as (l1 & l2 & E). rewrite E in HN |- *.
  apply NoDup_app in HN as (_ & Hdis & HN2). apply NoDup_cons in HN2 as [Hl2 _].
  assert (Hl : forall l, v ∉ l -> views_in l d r = views_in l c r).
  { intros l Hnv. unfold views_in. f_equal. apply list_fmap_ext. intros i u Hu. unfold finished. rewrite (Hsame u); [done|].
    intros ->. apply Hnv. by eapply list_elem_of_lookup_2. }
  assert (Happ : forall c, views_in (l1 ++ v :: l2) c r = views_in l1 c r + ((if view_of v r && negb (finished c v) then 1 else 0) + views_in l2 c r)).
  { intros c'. unfold views_in. by rewrite fmap_app, zsum_app. }
  rewrite !Happ, Hvr, Hc, Hd, (Hl l2 Hl2), (Hl l1); cbn; [lia|]. intros Hin. apply (Hdis v Hin). by left.
Qed.

(** * Well-formed graphs *)

Definition is_input (t : Z) : bool := has_flag (T t) GGML_TENSOR_FLAG_INPUT.

(** What [ggml_build_forward_expand] and the backends make of a graph: every source is a
    leaf or an earlier node, views are nodes with an operation and the source of a view
    is not a view itself, inputs and leafs are not computed. *)
Record graph_ok : Prop := {
  go_nodup : NoDup N;
  go_leaf  : forall t, t ∈ N -> t ∉ L;
  go_leaf_op : forall t, t ∈ L -> t_op (T t) = GGML_OP_NONE;
  go_input : forall t, t ∈ N -> is_input t = true -> t_op (T t) = GGML_OP_NONE;
  go_none  : forall t, t ∈ N -> placed T t = true -> t_op (T t) = GGML_OP_NONE -> is_input t = true;
  go_topo  : forall i t s, N !! i = Some t -> Some s ∈ t_src (T t) -> s ∈ L \/ exists j, (j < i)%nat /\ N !! j = Some s;
  go_flat  : forall v r, v ∈ L \/ v ∈ N -> t_view_src (T v) = Some r -> t_view_src (T r) = None;
  go_root  : forall i v r, N !! i = Some v -> t_view_src (T v) = Some r -> t_data (T r) = None -> r ∈ L \/ exists j, (j < i)%nat /\ N !! j = Some r;
  go_reads : forall i t s r, N !! i = Some t -> Some s ∈ t_src (T t) -> t_view_src (T s) = Some r -> t_data (T r) = None ->
               s ∈ N /\ t_op (T s) <> GGML_OP_NONE
}.

(** * The invariant *)

(** The number of allocators and their alignments. *)
Context (nt : Z) (als : Z -> Z).

(** A buffer id with an allocator and a buffer type. *)
Definition valid_id (id : Z) : Prop :=
  0 <= id /\ exists a b, zlookup buf_tallocs id = Some a /\ zlookup bufts id = Some b /\ 0 <= a < nt.

(** The range of a tensor is below the [max_size] of its allocator. *)
Definition fits (p : planner) (t : Z) : Prop :=
  exists a b alloc, zlookup buf_tallocs (place p t).1 = Some a /\ zlookup bufts (place p t).1 = Some b /\ zlookup (p_tallocs p) a = Some alloc /\
    0 <= (range p t).1 /\ (range p t).1 + (range p t).2 <= da_max_size alloc /\ (da_alignment alloc | (range p t).1).

(** [c] and [nv] are the counts of the entries, [need] the tensors that must keep their
    place, [born] the ones that have got one. *)
Record inv (c nv : Z -> Z) (need born : Z -> Prop) (p : planner) : Prop := {
  iv_c     : forall t, hn_n_children (p_hn p t) = c t;
  iv_v     : forall t, t_data (T t) = None \/ t_view_src (T t) <> None -> hn_n_views (p_hn p t) = nv t;
  iv_owned : forall t, hn_allocated (p_hn p t) = true -> placed T t = true /\ born t /\ t ∈ ts /\ valid_id (hn_buffer_id (p_hn p t));
  iv_need  : forall t, placed T t = true -> born t -> need t -> hn_allocated (p_hn p t) = true;
  iv_live  : forall a alloc, zlookup (p_tallocs p) a = Some alloc -> talloc_ok alloc (live p a);
  iv_fit   : forall t, placed T t = true -> born t -> fits p t;
  iv_len   : zlen (p_tallocs p) = nt;
  iv_al    : forall a alloc, zlookup (p_tallocs p) a = Some alloc -> da_alignment alloc = als a
}.

Lemma inv_weaken c nv need born need' (born' : Z -> Prop) p : inv c nv need born p ->
  (forall t, need' t -> need t) -> (forall t, placed T t = true -> born' t <-> born t) -> inv c nv need' born' p.
Proof.
  intros [I1 I2 I3 I4 I5 I6 I7 I8] Hn Hb. constructor; try done.
  - intros t Ht. destruct (I3 t Ht) as (H1 & H2 & H3). split; [done|]. split; [by apply Hb|done].
  - intros t Hp Hbt Hnt. apply I4; [done|by apply Hb|by apply Hn].
  - intros t Hp Hbt. apply I6; [done|by apply Hb].
Qed.

Lemma fits_same p p' t : fits p t -> place p' t = place p t ->
  (forall a alloc, zlookup (p_tallocs p) a = Some alloc -> exists alloc', zlookup (p_tallocs p') a = Some alloc' /\ talloc_grows alloc alloc') ->
  fits p' t.
Proof.
  intros (a & b & alloc & Ha & Hb & Hal & H1 & H2 & H3) Hpl Hm. destruct (Hm a alloc Hal) as (alloc' & Hal' & Hle & Ea).
  exists a, b, alloc'. unfold range in *. rewrite Hpl, Ea. splits; [done|done|done|done|lia|done].
Qed.

Lemma inv_counts c nv need born c' nv' p p' : inv c nv need born p ->
  (forall t, hn_n_children (p_hn p' t) = c' t) ->
  (forall t, t_data (T t) = None \/ t_view_src (T t) <> None -> hn_n_views (p_hn p' t) = nv' t) ->
  (forall t, same_at p p' t) -> p_tallocs p' = p_tallocs p -> inv c' nv' need born p'.
Proof.
  intros [I1 I2 I3 I4 I5 I6 I7 I8] Hc Hv Hs Ht. constructor; rewrite ?Ht; try done.
  - intros t Hal. destruct (Hs t) as [[= E1 E2] E3]. rewrite <- E1. apply I3. by rewrite E3.
  - intros t H1 H2 H3. destruct (Hs t) as [_ E]. rewrite <- E. by apply I4.
  - intros a alloc Ha. rewrite <- (live_same p p' a Hs). by apply I5.
  - intros t H1 H2. apply (fits_same p); [by apply I6|symmetry; apply Hs|]. rewrite Ht. intros a alloc Ha. exists alloc. split; [done|apply talloc_grows_refl].
Qed.

Lemma owns_valid p c nv need born t : inv c nv need born p -> hn_allocated (p_hn p t) = true ->
  exists a alloc b, zlookup buf_tallocs (hn_buffer_id (p_hn p t)) = Some a /\ zlookup bufts (hn_buffer_id (p_hn p t)) = Some b /\
    zlookup (p_tallocs p) a = Some alloc /\ owns p a t = true /\ forall a', a' <> a -> owns p a' t = false.
Proof.
  intros I Hal. destruct (iv_owned _ _ _ _ _ I t Hal) as (_ & _ & _ & _ & a & b & Ha & Hb & Hr).
  destruct (zlookup_lt (p_tallocs p) a) as [alloc Halloc]; [by rewrite (iv_len _ _ _ _ _ I)|].
  exists a, alloc, b. unfold owns. rewrite Hal, Ha. splits; try done; [by rewrite bool_decide_eq_true_2|].
  intros a' Hne. apply bool_decide_eq_false_2. congruence.
Qed.

(** Tensors that own their place do not overlap. *)
Definition disjoint_at (p q : Z * Z) (t u : Z) : Prop :=
  forall x, zlookup buf_tallocs p.1 = zlookup buf_tallocs q.1 ->
    in_range (range_at p t) x -> ~ in_range (range_at q u) x.

Lemma filter_two (P : Z -> bool) (l : list Z) t u : NoDup l -> t ∈ l -> u ∈ l -> t <> u -> P t = true -> P u = true ->
  exists k, List.filter P l ≡ₚ t :: u :: k.
Proof.
  intros HN Ht Hu Hne Pt Pu.
  assert (Hin : forall x, x ∈ l -> P x = true -> x ∈ List.filter P l) by (intros x Hx Px; by apply list_elem_of_In, filter_In; rewrite <- list_elem_of_In).
  pose proof (Hin t Ht Pt) as Ht'. pose proof (Hin u Hu Pu) as Hu'. apply list_elem_of_split in Ht' as (l1 & l2 & E). rewrite E in Hu' |- *.
  assert (Hu2 : u ∈ l1 ++ l2) by (rewrite elem_of_app, elem_of_cons in *; naive_solver).
  apply elem_of_Permutation in Hu2 as [k Hk]. exists k. by rewrite <- Permutation_middle, Hk.
Qed.

Lemma inv_disjoint c nv need born p t u : inv c nv need born p -> t <> u ->
  hn_allocated (p_hn p t) = true -> hn_allocated (p_hn p u) = true -> disjoint_at (place p t) (place p u) t u.
Proof.
  intros I Hne Ht Hu x Hsame. destruct (owns_valid _ _ _ _ _ _ I Ht) as (a & alloc & _ & Ha & _ & Halloc & Ot & _).
  cbn in Hsame. assert (Ha' : zlookup buf_tallocs (hn_buffer_id (p_hn p u)) = Some a) by congruence.
  assert (Ou : owns p a u = true) by (unfold owns; rewrite Hu, Ha'; by apply bool_decide_eq_true_2).
  destruct (iv_owned _ _ _ _ _ I t Ht) as (_ & _ & Htt & _), (iv_owned _ _ _ _ _ I u Hu) as (_ & _ & Huu & _).
  destruct (filter_two (owns p a) ts t u (NoDup_remove_dups _) Htt Huu Hne Ot Ou) as [k Hk].
  apply (talloc_disjoint alloc (live p a) _ _ (range p <$> k)); [|by apply (iv_live _ _ _ _ _ I)].
  unfold live. by rewrite Hk.
Qed.

(** ** Allocating *)

Context (Hsizes : forall b t, t ∈ ts -> 0 <= buft_get_alloc_size b (T t) < 2 ^ 62).
Context (Hlayout : forall b t u, ggml_are_same_layout (T t) (T u) = true -> buft_get_alloc_size b (T t) = buft_get_alloc_size b (T u)).

Definition grown (node : Z) (p p' : planner) : Prop :=
  hn_allocated (p_hn p' node) = true /\ forall u, u <> node -> place p' u = place p u.

Lemma reuse_loop_Some p node srcs p' : p_reuse_loop T p node srcs = Some p' ->
  exists parent, Some parent ∈ srcs /\ reusable T p node parent = true /\ p' = p_reuse p node parent.
Proof.
  induction srcs as [|[parent|] srcs IH]; cbn; [done| |].
  - destruct (reusable T p node parent) eqn:E; [intros [= <-]; exists parent; split; [by left|done]|].
    intros (q & Hq & Hr)%IH. exists q. split; [by right|done].
  - intros (q & Hq & Hr)%IH. exists q. split; [by right|done].
Qed.

Section allocate.
Context (c nv : Z -> Z) (need need' born : Z -> Prop) (p : planner) (node id : Z).
Context (I : inv c nv need born p) (Hpl : placed T node = true) (Hts : node ∈ ts) (Hnb : ~ born node) (Hid : valid_id id).
Context (Hnode : Some node ∉ t_src (T node)) (Hneed : forall t, need' t -> t <> node -> need t).

Local Abbreviation p1 := (p_update p node (fun h => with_allocated h true)).

Local Lemma node_free : hn_allocated (p_hn p node) = false.
Proof. destruct (hn_allocated (p_hn p node)) eqn:E; [|done]. by destruct (iv_owned _ _ _ _ _ I node E) as (_ & ? & _). Qed.

(** Taking the place of a parent. *)
Lemma reuse_inv parent : Some parent ∈ t_src (T node) -> reusable T p1 node parent = true ->
  (c parent = 1 -> nv parent = 0 -> is_output (T parent) = false -> ~ need' parent) ->
  inv c nv need' (fun t => born t \/ t = node) (p_reuse p1 node parent) /\ grown node p (p_reuse p1 node parent).
Proof.
  intros Hin Hr Hnn. assert (Hne : parent <> node) by (intros ->; done).
  unfold reusable in Hr. cbn in Hr. rewrite (decide_False (P := parent = node)) in Hr by done. rewrite !andb_true_iff, !Z.eqb_eq, negb_true_iff in Hr.
  destruct Hr as ((((Hal & Hout) & Hlay) & Hc1) & Hv0).
  destruct (iv_owned _ _ _ _ _ I parent Hal) as (Hplp & Hbp & Htp & Hvp).
  assert (Hnp : ~ need' parent).
  { apply Hnn; [by rewrite <- (iv_c _ _ _ _ _ I)| |].
    - rewrite <- (iv_v _ _ _ _ _ I); [done|]. unfold placed in Hplp. apply andb_true_iff in Hplp as [Hd%bool_decide_eq_true _]. by left.
    - unfold parent_is_output in Hout. by apply orb_false_iff in Hout as [? _]. }
  set (p' := p_reuse p1 node parent).
  assert (Hpar : p_hn p' parent = with_allocated (p_hn p parent) false) by (cbn; by rewrite decide_True, decide_False, decide_False by done).
  assert (Hnd : p_hn p' node = with_place (with_allocated (p_hn p node) true) (hn_buffer_id (p_hn p parent)) (hn_offset (p_hn p parent))).
  { cbn. rewrite (decide_False (P := node = parent)) by done. rewrite !(decide_True (P := node = node)) by done. by rewrite (decide_False (P := parent = node)). }
  assert (Hoth : forall u, u <> node -> u <> parent -> p_hn p' u = p_hn p u) by (intros u H1 H2; cbn; by rewrite !decide_False).
  assert (Hpl' : forall u, u <> node -> place p' u = place p u).
  { intros u Hu. unfold place. destruct (decide (u = parent)) as [->|Hup]; [by rewrite Hpar|by rewrite Hoth]. }
  split; [|split; [by rewrite Hnd|exact Hpl']].
  assert (Hflds : forall u, hn_n_children (p_hn p' u) = hn_n_children (p_hn p u) /\ hn_n_views (p_hn p' u) = hn_n_views (p_hn p u)).
  { intros u. destruct (decide (u = node)) as [->|H1]; [by rewrite Hnd|]. destruct (decide (u = parent)) as [->|H2]; [by rewrite Hpar|by rewrite Hoth]. }
  constructor.
  - intros u. rewrite (proj1 (Hflds u)). apply (iv_c _ _ _ _ _ I).
  - intros u. rewrite (proj2 (Hflds u)). apply (iv_v _ _ _ _ _ I).
  - intros u. destruct (decide (u = node)) as [->|H1]; [rewrite Hnd; cbn; auto|].
    destruct (decide (u = parent)) as [->|H2]; [by rewrite Hpar|]. rewrite Hoth by done. intros Hu. destruct (iv_owned _ _ _ _ _ I u Hu) as (? & ? & ?). auto.
  - intros u Hu Hb Hn. destruct (decide (u = node)) as [->|H1]; [by rewrite Hnd|].
    destruct (decide (u = parent)) as [->|H2]; [done|]. rewrite Hoth by done. destruct Hb as [Hb|]; [|done]. apply (iv_need _ _ _ _ _ I); auto.
  - intros a alloc Ha. change (p_tallocs p') with (p_tallocs p) in Ha. eapply talloc_ok_perm; [|by apply (iv_live _ _ _ _ _ I)].
    set (q := p_update p parent (fun h => with_allocated h false)).
    assert (Hq : p_hn q parent = with_allocated (p_hn p parent) false) by (cbn; by rewrite decide_True).
    assert (Hqo : forall u, u <> parent -> p_hn q u = p_hn p u) by (intros u Hu; cbn; by rewrite decide_False).
    assert (Hs1 : forall u, u <> parent -> same_at q p u) by (intros u Hu; unfold same_at, place; by rewrite Hqo).
    assert (Hs2 : forall u, u <> node -> same_at q p' u).
    { intros u Hu. unfold same_at, place. destruct (decide (u = parent)) as [->|Hup]; [by rewrite Hq, Hpar|by rewrite Hqo, Hoth]. }
    assert (Hown : owns p' a node = owns p a parent) by (unfold owns; rewrite Hnd, Hal; done).
    assert (Hqn : owns q a node = false) by (unfold owns; by rewrite Hqo, node_free).
    assert (Hqp : owns q a parent = false) by (unfold owns; by rewrite Hq).
    destruct (owns p a parent) eqn:Eo.
    + rewrite (live_gain q p a parent Htp Hs1 Hqp Eo), (live_gain q p' a node Hts Hs2 Hqn Hown).
      assert (range p parent = range p' node) as ->; [|done].
      unfold range, range_at, place. rewrite Hnd. cbn. f_equal. unfold size_in. destruct (zlookup bufts _); [|done]. symmetry. by apply Hlayout.
    + by rewrite <- (live_same_at q p a parent Hs1 Hqp Eo), <- (live_same_at q p' a node Hs2 Hqn Hown).
  - intros u Hu Hb. destruct (decide (u = node)) as [->|H1].
    + destruct (iv_fit _ _ _ _ _ I parent Hplp Hbp) as (a & b & alloc & Ha & Eb & Hal' & Hrg). exists a, b, alloc.
      unfold range, range_at, place, size_in in *. rewrite Hnd. cbn in Ha, Eb, Hrg |- *. rewrite Eb in Hrg |- *. destruct Hrg as (? & ? & ?). splits; [done|done|done|lia| |done]. rewrite (Hlayout _ node parent Hlay). lia.
    + destruct Hb as [Hb|]; [|done]. apply (fits_same p); [by apply (iv_fit _ _ _ _ _ I)|by apply Hpl'|]. intros a alloc Ha. exists alloc. split; [done|apply talloc_grows_refl].
  - apply (iv_len _ _ _ _ _ I).
  - apply (iv_al _ _ _ _ _ I).
Qed.

(** A place of its own. *)
Lemma place_inv :
  post (p_place T bufts buf_tallocs p1 node id)
    (fun p' => inv c nv need' (fun t => born t \/ t = node) p' /\ grown node p p') (fun e => e = Abort).
Proof.
  destruct Hid as (Hid0 & a & b & Ha & Hb & Hr). unfold p_place, p_talloc. rewrite (vget_Some _ _ _ Ha), (vget_Some _ _ _ Hb). cbn [mbind res_bind].
  change (p_tallocs p1) with (p_tallocs p). pose proof (iv_len _ _ _ _ _ I) as Hlen.
  destruct (zlookup_lt (p_tallocs p) a) as [alloc Halloc]; [lia|]. rewrite (vget_Some _ _ _ Halloc). cbn [mbind res_bind].
  eapply post_bind; [apply (talloc_alloc alloc (live p a)); [by apply (iv_live _ _ _ _ _ I)|by apply Hsizes]|].
  intros [alloc' o] (Hok' & Hmax & Ho & Hfit). cbn beta iota. rewrite vset_at by lia. cbn [mbind res_bind post].
  set (p' := p_update (p_with_tallocs p1 _) node _).
  assert (Hnd : p_hn p' node = with_place (with_allocated (p_hn p node) true) id o) by (cbn; by rewrite !decide_True).
  assert (Hoth : forall u, u <> node -> p_hn p' u = p_hn p u) by (intros u H1; cbn; by rewrite !decide_False).
  assert (Hs : forall u, u <> node -> same_at p p' u) by (intros u Hu; unfold same_at, place; by rewrite Hoth).
  split; [|split; [by rewrite Hnd|intros u Hu; unfold place; by rewrite Hoth]].
  constructor.
  - intros u. destruct (decide (u = node)) as [->|H1]; [rewrite Hnd|rewrite Hoth by done]; apply (iv_c _ _ _ _ _ I).
  - intros u. destruct (decide (u = node)) as [->|H1]; [rewrite Hnd|rewrite Hoth by done]; apply (iv_v _ _ _ _ _ I).
  - intros u. destruct (decide (u = node)) as [->|H1].
    + rewrite Hnd. cbn. intros _. splits; auto.
    + rewrite Hoth by done. intros Hu. destruct (iv_owned _ _ _ _ _ I u Hu) as (? & ? & ?). auto.
  - intros u Hu Hb' Hn. destruct (decide (u = node)) as [->|H1]; [by rewrite Hnd|]. rewrite Hoth by done.
    destruct Hb' as [Hb'|]; [|done]. apply (iv_need _ _ _ _ _ I); auto.
  - intros a' al Ha'. cbn in Ha'. pose proof (zlookup_Some_lt _ _ _ Ha') as Hr'. rewrite zlen_insert in Hr'. rewrite zlookup_insert in Ha' by lia.
    assert (Hno : owns p a' node = false) by (unfold owns; by rewrite node_free). destruct (decide (a = a')) as [->|Hne].
    + injection Ha' as <-. eapply talloc_ok_perm; [|exact Hok'].
      assert (Hyes : owns p' a' node = true) by (unfold owns; rewrite Hnd; cbn; by apply bool_decide_eq_true_2).
      rewrite (live_gain p p' a' node Hts Hs Hno Hyes). f_equiv. apply reflexive_eq. unfold range, range_at, place. rewrite Hnd. cbn.
      unfold size_in. by rewrite Hb.
    + rewrite <- (live_same_at p p' a' node Hs Hno); [by apply (iv_live _ _ _ _ _ I)|].
      unfold owns. rewrite Hnd. cbn. apply bool_decide_eq_false_2. congruence.
  - assert (Hta : p_tallocs p' = <[Z.to_nat a:=alloc']> (p_tallocs p)) by done. intros u Hu Hb'. destruct (decide (u = node)) as [->|H1].
    + exists a, b, alloc'. rewrite Hta, zlookup_insert, decide_True by (try done; lia). unfold range, range_at, place, size_in. rewrite Hnd. cbn. by rewrite Hb.
    + destruct Hb' as [Hb'|]; [|done]. apply (fits_same p); [by apply (iv_fit _ _ _ _ _ I)|unfold place; by rewrite Hoth|].
      intros a' al Ha'. rewrite Hta. pose proof (zlookup_Some_lt _ _ _ Ha'). rewrite zlookup_insert by lia. destruct (decide (a = a')) as [->|]; [|exists al; split; [done|apply talloc_grows_refl]].
      exists alloc'. split; [done|]. by assert (al = alloc) as -> by congruence.
  - cbn. by rewrite zlen_insert.
  - intros a' al Ha'. cbn in Ha'. destruct (decide (a = a')) as [<-|Hne].
    + rewrite zlookup_insert_eq in Ha' by lia. injection Ha' as <-. rewrite (proj2 Hmax). by apply (iv_al _ _ _ _ _ I).
    + rewrite zlookup_insert_ne in Ha' by (lia || done). by apply (iv_al _ _ _ _ _ I).
Qed.

Lemma allocate_inv :
  (ggml_op_can_inplace (t_op (T node)) = true -> forall parent, Some parent ∈ t_src (T node) ->
     c parent = 1 -> nv parent = 0 -> is_output (T parent) = false -> ~ need' parent) ->
  post (p_allocate T bufts buf_tallocs p node id)
    (fun p' => inv c nv need' (fun t => born t \/ t = node) p' /\ grown node p p') (fun e => e = Abort).
Proof.
  intros Hre. unfold p_allocate. destruct Hid as [Hid0 _]. rewrite (proj2 (Z.leb_le 0 id)) by done. cbn [ggml_assert mbind res_bind].
  rewrite Hpl, node_free. cbn [andb negb]. destruct (ggml_op_can_inplace (t_op (T node))) eqn:Eop; [|apply place_inv].
  destruct (p_reuse_loop T p1 node (t_src (T node))) as [p'|] eqn:E; [|apply place_inv].
  apply reuse_loop_Some in E as (parent & Hin & Hr & ->). cbn [post]. apply reuse_inv; auto.
Qed.
End allocate.

(** Nothing happens to a tensor that is not placed or has its place. *)
Lemma allocate_done p node id : 0 <= id -> placed T node = false \/ hn_allocated (p_hn p node) = true ->
  p_allocate T bufts buf_tallocs p node id = Ok p.
Proof.
  intros Hid Hn. unfold p_allocate. rewrite (proj2 (Z.leb_le 0 id)) by done. cbn [ggml_assert mbind res_bind].
  destruct Hn as [-> | ->]; [done|]. by rewrite andb_false_r.
Qed.

(** ** Freeing *)

Definition still (p p' : planner) : Prop := forall u, place p' u = place p u.

Lemma free_inv c nv need born p t : inv c nv need born p -> hn_allocated (p_hn p t) = true -> (is_output (T t) = false -> ~ need t) ->
  post (p_free T bufts buf_tallocs p t) (fun p' => inv c nv need born p' /\ still p p') (fun e => e = Abort).
Proof.
  intros I Hal Hn. unfold p_free. destruct (is_output (T t)) eqn:Eo; [by split|]. specialize (Hn eq_refl).
  destruct (owns_valid _ _ _ _ _ _ I Hal) as (a & alloc & b & Ha & Hb & Halloc & Ho & Hother).
  destruct (iv_owned _ _ _ _ _ I t Hal) as (_ & _ & Htt & _). pose proof (zlookup_Some_lt _ _ _ Halloc) as Hr.
  unfold p_talloc. rewrite (vget_Some _ _ _ Ha), (vget_Some _ _ _ Hb). cbn [mbind res_bind]. rewrite (vget_Some _ _ _ Halloc). cbn [mbind res_bind].
  set (q := p_update p t (fun h => with_allocated h false)).
  assert (Hqt : p_hn q t = with_allocated (p_hn p t) false) by (cbn; by rewrite decide_True).
  assert (Hqo : forall u, u <> t -> p_hn q u = p_hn p u) by (intros u Hu; cbn; by rewrite decide_False).
  assert (Hs : forall u, u <> t -> same_at q p u) by (intros u Hu; unfold same_at, place; by rewrite Hqo).
  assert (Hqn : forall a', owns q a' t = false) by (intros a'; unfold owns; by rewrite Hqt).
  pose proof (live_gain q p a t Htt Hs (Hqn a) Ho) as Hlive.
  assert (Hrange : range p t = (hn_offset (p_hn p t), buft_get_alloc_size b (T t))) by (unfold range, range_at, place, size_in; cbn; by rewrite Hb).
  rewrite Hrange in Hlive. eapply post_bind; [apply (talloc_free alloc (live q a)), (talloc_ok_perm _ _ _ Hlive); by apply (iv_live _ _ _ _ _ I)|].
  intros alloc' [Hok' Hmax]. cbn beta. rewrite vset_at by done. cbn [mbind res_bind post].
  set (p' := p_update (p_with_tallocs p _) t _). assert (Hp' : forall u, p_hn p' u = p_hn q u) by done.
  assert (Hflds : forall u, hn_n_children (p_hn p' u) = hn_n_children (p_hn p u) /\ hn_n_views (p_hn p' u) = hn_n_views (p_hn p u) /\ place p' u = place p u).
  { intros u. unfold place. rewrite Hp'. destruct (decide (u = t)) as [->|H1]; [by rewrite Hqt|by rewrite Hqo]. }
  split; [|intros u; apply Hflds]. constructor.
  - intros u. rewrite (proj1 (Hflds u)). apply (iv_c _ _ _ _ _ I).
  - intros u. rewrite (proj1 (proj2 (Hflds u))). apply (iv_v _ _ _ _ _ I).
  - intros u. rewrite Hp'. destruct (decide (u = t)) as [->|H1]; [by rewrite Hqt|rewrite Hqo by done; apply (iv_owned _ _ _ _ _ I)].
  - intros u Hu Hbu Hnu. rewrite Hp'. destruct (decide (u = t)) as [->|H1]; [done|rewrite Hqo by done; by apply (iv_need _ _ _ _ _ I)].
  - intros a' al Ha'. cbn in Ha'. pose proof (zlookup_Some_lt _ _ _ Ha') as Hr'. rewrite zlen_insert in Hr'. rewrite zlookup_insert in Ha' by lia.
    assert (Hlq : live p' a' = live q a') by (apply live_same; done). rewrite Hlq. destruct (decide (a = a')) as [->|Hne].
    + injection Ha' as <-. exact Hok'.
    + rewrite (live_same_at q p a' t Hs (Hqn a')); [by apply (iv_live _ _ _ _ _ I)|by apply Hother].
  - assert (Hta : p_tallocs p' = <[Z.to_nat a:=alloc']> (p_tallocs p)) by done. intros u Hu Hbu.
    apply (fits_same p); [by apply (iv_fit _ _ _ _ _ I)|by apply Hflds|].
    intros a' al Ha'. rewrite Hta. pose proof (zlookup_Some_lt _ _ _ Ha'). rewrite zlookup_insert by lia. destruct (decide (a = a')) as [->|]; [|exists al; split; [done|apply talloc_grows_refl]].
    exists alloc'. split; [done|]. by assert (al = alloc) as -> by congruence.
  - cbn. rewrite zlen_insert. apply (iv_len _ _ _ _ _ I).
  - intros a' al Ha'. cbn in Ha'. destruct (decide (a = a')) as [<-|Hne].
    + rewrite zlookup_insert_eq in Ha' by lia. injection Ha' as <-. rewrite (proj2 Hmax). by apply (iv_al _ _ _ _ _ I).
    + rewrite zlookup_insert_ne in Ha' by (lia || done). by apply (iv_al _ _ _ _ _ I).
Qed.

Lemma release_inv c nv need born p t : inv c nv need born p ->
  (placed T t = true -> is_output (T t) = false -> c t = 0 -> nv t = 0 -> ~ need t) ->
  post (p_release T bufts buf_tallocs p t) (fun p' => inv c nv need born p' /\ still p p') (fun e => e = Abort).
Proof.
  intros I Hn. unfold p_release. destruct (_ && _ && _) eqn:E; [|by split]. rewrite !andb_true_iff, !Z.eqb_eq in E. destruct E as [[Hv Hc] Hal].
  destruct (iv_owned _ _ _ _ _ I t Hal) as (Hpl & _). apply free_inv; [done|done|]. intros Ho. apply Hn; [done|done| |].
  - by rewrite <- (iv_c _ _ _ _ _ I).
  - rewrite <- (iv_v _ _ _ _ _ I); [done|]. left. unfold placed in Hpl. apply andb_true_iff in Hpl as [Hd%bool_decide_eq_true _]. done.
Qed.

Lemma still_trans p q r : still p q -> still q r -> still p r.
Proof. intros H1 H2 u. by rewrite H2, H1. Qed.

(** ** A reader is done *)

Context (Hwf : graph_ok).

Lemma views_of_view c v : t_view_src (T v) <> None -> views c v = 0.
Proof.
  intros Hv. apply views_none. intros u Hu. unfold view_of. destruct (t_view_src (T u)) as [r|] eqn:E; [|done].
  destruct (decide (r = v)) as [->|Hne]; [destruct Hv; by apply (go_flat Hwf u v (or_intror Hu))|].
  rewrite bool_decide_eq_false_2 by congruence. done.
Qed.

Lemma drop_inv c c' need born p s :
  inv c (views c) need born p -> 0 < c s -> (forall u, 0 <= c u) -> (forall u, c' u = if decide (u = s) then c s - 1 else c u) ->
  (s ∈ L \/ s ∈ N) -> (forall r, t_view_src (T s) = Some r -> t_data (T r) = None -> s ∈ N /\ t_op (T s) <> GGML_OP_NONE /\ 0 < rem 0 s) ->
  (forall t, t = s \/ t_view_src (T s) = Some t -> placed T t = true -> is_output (T t) = false -> c' t = 0 -> views c' t = 0 -> ~ need t) ->
  post (p_drop T bufts buf_tallocs p (Some s)) (fun p' => inv c' (views c') need born p' /\ still p p') (fun e => e = Abort).
Proof.
  intros I Hcs Hc0 Hc' Hs Hview Hn. unfold p_drop. set (p1 := p_update p s drop_child).
  assert (Hc1 : forall t, hn_n_children (p_hn p1 t) = c' t).
  { intros t. rewrite Hc'. cbn. destruct (decide (t = s)) as [->|]; cbn; by rewrite (iv_c _ _ _ _ _ I). }
  assert (Hv1 : forall t, hn_n_views (p_hn p1 t) = hn_n_views (p_hn p t)) by (intros t; cbn; by destruct (decide (t = s)) as [->|]).
  assert (Hs1 : forall t, same_at p p1 t) by (intros t; unfold same_at, place; cbn; by destruct (decide (t = s)) as [->|]).
  assert (Hst1 : still p p1) by (intros t; symmetry; apply Hs1).
  assert (Hfin : forall v, v <> s -> finished c v = finished c' v) by (intros v Hv; unfold finished; by rewrite Hc', decide_False).
  rewrite Hc1. destruct (t_view_src (T s)) as [r|] eqn:Er.
  - (* a view *)
    assert (Hsv : hn_n_views (p_hn p1 s) = 0).
    { rewrite Hv1, (iv_v _ _ _ _ _ I) by (right; congruence). apply views_of_view. congruence. }
    rewrite Hsv, Z.eqb_refl, andb_true_r. destruct (Z.eqb_spec (c' s) 0) as [Hz|Hz].
    + set (p2 := p_update p1 r drop_view).
      assert (I2 : inv c' (views c') need born p2).
      { apply (inv_counts c (views c) need born c' (views c') p p2 I).
        - intros t. cbn. destruct (decide (t = r)) as [->|]; cbn; apply Hc1.
        - intros t Hrel. assert (Ht : hn_n_views (p_hn p2 t) = if decide (t = r) then hn_n_views (p_hn p1 r) - 1 else hn_n_views (p_hn p1 t)) by (cbn; by destruct (decide (t = r)) as [->|]).
          rewrite Ht, !Hv1. destruct (decide (t = r)) as [->|Hne].
          + pose proof (go_flat Hwf s r Hs Er) as Hflat. destruct Hrel as [Hd|Hd]; [|done]. rewrite (iv_v _ _ _ _ _ I) by by left.
            destruct (Hview r eq_refl Hd) as (HsN & Hop & Hrem). symmetry. apply (views_finish c c' s r (go_nodup Hwf)); try done.
            * unfold view_of. rewrite Er, bool_decide_eq_true_2, bool_decide_eq_false_2 by done. done.
            * unfold finished. rewrite (proj2 (Z.leb_gt (c s) 0)) by lia. apply andb_false_r.
            * unfold finished. rewrite (proj2 (Z.ltb_lt 0 (rem 0 s))), (proj2 (Z.leb_le (c' s) 0)) by lia. done.
            * intros u Hu. by rewrite Hc', decide_False.
          + rewrite (iv_v _ _ _ _ _ I) by done. apply views_same. intros v Hv. apply Hfin. intros ->.
            unfold view_of in Hv. rewrite Er in Hv. apply andb_true_iff in Hv as [Hv%bool_decide_eq_true _]. congruence.
        - intros t. destruct (Hs1 t) as [E1 E2]. unfold same_at. unfold place in *. rewrite E1, E2. cbn. by destruct (decide (t = r)) as [->|].
        - done. }
      eapply post_mono; [apply (release_inv _ _ _ _ p2 r I2)| |done].
      * intros Hp Ho Hcr Hvr. by apply Hn; [right| | | |].
      * intros p' [I' Hst]. split; [done|]. eapply still_trans; [|exact Hst]. intros t. rewrite <- Hst1. unfold place. cbn. by destruct (decide (t = r)) as [->|].
    + cbn [post]. split; [|done]. apply (inv_counts c (views c) need born c' (views c') p p1 I); try done.
      intros t Hrel. rewrite Hv1, (iv_v _ _ _ _ _ I) by done. apply views_same. intros v _. destruct (decide (v = s)) as [->|]; [|by apply Hfin].
      rewrite Hc', decide_True in Hz by done. unfold finished. rewrite Hc', decide_True by done.
      rewrite (proj2 (Z.leb_gt (c s) 0)), (proj2 (Z.leb_gt (c s - 1) 0)) by lia. done.
  - assert (I1 : inv c' (views c') need born p1).
    { apply (inv_counts c (views c) need born c' (views c') p p1 I); try done.
      intros t Hrel. rewrite Hv1, (iv_v _ _ _ _ _ I) by done. apply views_same. intros v Hv. apply Hfin. intros ->. unfold view_of in Hv. by rewrite Er in Hv. }
    destruct (_ && _); [|by split]. eapply post_mono; [apply (release_inv _ _ _ _ p1 s I1)| |done].
    + intros Hp Ho Hcr Hvr. by apply Hn; [left| | | |].
    + intros p' [I' Hst]. split; [done|]. by eapply still_trans.
Qed.

(** * The loop over the nodes *)

(** The tensors that have got a place when node [i] is about to be computed, and those
    that must keep it: outputs, tensors with readers or unfinished views to come, and
    nodes that are still to come. *)
Definition born_at (i : nat) (t : Z) : Prop := t ∈ L \/ (t ∈ N /\ is_input t = true) \/ t ∈ take i N.
Definition need_at (i : nat) (t : Z) : Prop :=
  is_output (T t) = true \/ 0 < rem i t \/ 0 < views (rem i) t \/ t ∈ drop i N.

Lemma rem_le i t : (i < length N)%nat -> rem (S i) t <= rem i t.
Proof.
  intros Hi. destruct (lookup_lt_is_Some_2 N i Hi) as [node Hn]. rewrite (rem_step _ _ _ Hn). pose proof (occ_nonneg (t_src (T node)) t). lia.
Qed.

Lemma need_step i t : (i < length N)%nat -> need_at (S i) t -> need_at i t.
Proof.
  intros Hi. unfold need_at. pose proof (rem_le i t Hi). pose proof (views_mono (rem (S i)) (rem i) t (fun v => rem_le i v Hi)).
  destruct (lookup_lt_is_Some_2 N i Hi) as [node Hn]. rewrite (drop_S _ _ _ Hn), elem_of_cons. intros [?|[?|[?|?]]]; auto; right; [left|right; left]; lia.
Qed.

(** A source of node [i], and the tensor that it is a view of, are leafs or earlier. *)
Definition before (i : nat) (t : Z) : Prop := t ∈ L \/ exists j, (j < i)%nat /\ N !! j = Some t.

Lemma before_born i t : before i t -> born_at i t.
Proof. intros [Ht|(j & Hj & Ht)]; [by left|]. right; right. apply list_elem_of_lookup. exists j. by rewrite lookup_take_lt. Qed.

Lemma before_not_later i k t : before i t -> (i <= k)%nat -> t ∉ drop k N.
Proof.
  intros Hb Hik Hin. apply list_elem_of_lookup in Hin as [m Hm]. rewrite lookup_drop in Hm. destruct Hb as [Ht|(j & Hj & Ht)].
  - by apply (go_leaf Hwf t); [eapply list_elem_of_lookup_2|].
  - pose proof (NoDup_lookup _ _ _ _ (go_nodup Hwf) Hm Ht). lia.
Qed.

Lemma before_mono i j t : (i <= j)%nat -> before i t -> before j t.
Proof. intros Hij [?|(k & ? & ?)]; [by left|right; exists k; split; [lia|done]]. Qed.

Lemma root_before i node s r : N !! i = Some node -> Some s ∈ t_src (T node) -> t_view_src (T s) = Some r -> t_data (T r) = None -> before i r.
Proof.
  intros Hn Hs Hr Hd. destruct (go_topo Hwf i node s Hn Hs) as [HL|(j & Hj & Hs')].
  - destruct (go_reads Hwf i node s r Hn Hs Hr Hd) as [HN _]. by destruct (go_leaf Hwf s HN).
  - destruct (go_root Hwf j s r Hs' Hr Hd) as [?|(k & Hk & ?)]; [by left|right; exists k; split; [lia|done]].
Qed.

Definition loop_inv (i : nat) (p : planner) : Prop := inv (rem i) (views (rem i)) (need_at i) (born_at i) p.
Definition mid_inv (i : nat) (p : planner) : Prop := inv (rem i) (views (rem i)) (need_at (S i)) (born_at (S i)) p.

(** Every source of a node has its place already. *)
Lemma parents_done i node p id : N !! i = Some node -> 0 <= id -> loop_inv i p ->
  foldM (p_parent T bufts buf_tallocs id) p (t_src (T node)) = Ok p.
Proof.
  intros Hn Hid I. assert (Hall : forall srcs, (forall s, Some s ∈ srcs -> Some s ∈ t_src (T node)) -> foldM (p_parent T bufts buf_tallocs id) p srcs = Ok p); [|by apply Hall].
  intros srcs. induction srcs as [|[s|] srcs IH]; intros Hin; cbn [foldM p_parent]; [done| |cbn [mbind res_bind]; apply IH; intros; apply Hin; by right].
  rewrite allocate_done; [cbn [mbind res_bind]; apply IH; intros; apply Hin; by right|done|].
  destruct (placed T s) eqn:Ep; [right|by left]. assert (Hs : Some s ∈ t_src (T node)) by (apply Hin; by left).
  apply (iv_need _ _ _ _ _ I s Ep); [by apply before_born, (go_topo Hwf i node)|].
  right; left. by apply (rem_pos i i node).
Qed.

(** The place of node [i]. *)
Lemma node_alloc_inv i node p id : N !! i = Some node -> valid_id id -> loop_inv i p ->
  post (p_allocate T bufts buf_tallocs p node id)
    (fun p' => mid_inv i p' /\ (placed T node = true -> hn_allocated (p_hn p' node) = true) /\
       forall u, born_at i u -> place p' u = place p u) (fun e => e = Abort).
Proof.
  intros Hn Hid I. pose proof (lookup_lt_Some _ _ _ Hn) as Hi. pose proof (list_elem_of_lookup_2 _ _ _ Hn) as HnN.
  assert (Hborn : forall t, born_at (S i) t <-> born_at i t \/ t = node).
  { intros t. unfold born_at. rewrite (take_S_r _ _ _ Hn), elem_of_app, list_elem_of_singleton. tauto. }
  assert (Hmid : placed T node = false \/ born_at i node -> mid_inv i p).
  { intros Hcase. eapply inv_weaken; [exact I| |].
    - intros t. by apply need_step.
    - intros t Hp. rewrite Hborn. split; [|by left]. intros [Hb| ->]; [done|]. destruct Hcase; [congruence|done]. }
  destruct (placed T node) eqn:Ep.
  2:{ rewrite allocate_done by (try apply Hid; by left). cbn [post]. splits; [apply Hmid; by left|done|done]. }
  destruct (is_input node) eqn:Ein.
  { assert (Hb : born_at i node) by (right; by left).
    assert (Hal : hn_allocated (p_hn p node) = true).
    { apply (iv_need _ _ _ _ _ I); [done|done|]. right; right; right. rewrite (drop_S _ _ _ Hn). by left. }
    rewrite allocate_done; [cbn [post]; splits; [apply Hmid; by right|done|done]|apply Hid|by right]. }
  assert (Hnb : ~ born_at i node).
  { intros [HL|[[_ Hin]|Ht]]; [by apply (go_leaf Hwf node)|congruence|]. apply list_elem_of_lookup in Ht as [j Hj].
    apply lookup_take_Some in Hj as [Hj Hlt]. pose proof (NoDup_lookup _ _ _ _ (go_nodup Hwf) Hj Hn). lia. }
  assert (Hself : Some node ∉ t_src (T node)).
  { intros Hs. apply (before_not_later i i node (go_topo Hwf i node node Hn Hs)); [lia|]. rewrite (drop_S _ _ _ Hn). by left. }
  eapply post_mono; [apply (allocate_inv (rem i) (views (rem i)) (need_at i) (need_at (S i)) (born_at i) p node id I Ep); try done| |done].
  - apply ts_elem. by right.
  - intros t Ht _. by apply need_step.
  - intros _ parent Hpar Hc Hv Hout Hneed. pose proof (rem_step i node parent Hn) as Hr. pose proof (occ_pos _ _ Hpar). pose proof (rem_nonneg (S i) parent).
    pose proof (views_mono (rem (S i)) (rem i) parent (fun v => rem_le i v Hi)).
    destruct Hneed as [Ho|[Hr'|[Hv'|Hd]]]; [congruence|lia|lia|]. by apply (before_not_later i (S i) parent (go_topo Hwf i node parent Hn Hpar)); [lia|].
  - intros p' [I' [Hal Hpl]]. splits.
    + eapply inv_weaken; [exact I'|done|]. intros t _. apply Hborn.
    + done.
    + intros u Hu. apply Hpl. by intros ->.
Qed.

(** The readers of the sources of node [i] become one less. *)
Lemma drops_inv i node p : N !! i = Some node -> mid_inv i p ->
  post (foldM (p_drop T bufts buf_tallocs) p (t_src (T node)))
    (fun p' => loop_inv (S i) p' /\ still p p') (fun e => e = Abort).
Proof.
  intros Hn. unfold mid_inv, loop_inv. set (need := need_at (S i)). set (born := born_at (S i)).
  set (cf := fun srcs t => rem (S i) t + occ srcs t).
  assert (Hcf0 : forall srcs u, 0 <= cf srcs u) by (intros srcs u; unfold cf; pose proof (rem_nonneg (S i) u); pose proof (occ_nonneg srcs u); lia).
  assert (Hloop : forall srcs p, (forall s, Some s ∈ srcs -> Some s ∈ t_src (T node)) -> inv (cf srcs) (views (cf srcs)) need born p ->
     post (foldM (p_drop T bufts buf_tallocs) p srcs) (fun p' => inv (cf []) (views (cf [])) need born p' /\ still p p') (fun e => e = Abort)).
  { intros srcs. induction srcs as [|[s|] srcs IH]; intros q Hin I; cbn [foldM]; [by split| |].
    - assert (Hs : Some s ∈ t_src (T node)) by (apply Hin; by left).
      assert (Hcs : forall u, cf srcs u = if decide (u = s) then cf (Some s :: srcs) s - 1 else cf (Some s :: srcs) u).
      { intros u. unfold cf. cbn [occ]. destruct (decide (u = s)) as [->|Hne]; [rewrite decide_True by done; lia|rewrite (decide_False (P := Some s = Some u)) by congruence; lia]. }
      eapply post_bind; [apply (drop_inv (cf (Some s :: srcs)) (cf srcs) need born q s I)|]; try done.
      + specialize (Hcs s). rewrite decide_True in Hcs by done. specialize (Hcf0 srcs s). lia.
      + apply (go_topo Hwf i node s Hn) in Hs as [HL|(j & _ & Hj)]; [by left|right; by eapply list_elem_of_lookup_2].
      + intros r Hr Hd. destruct (go_reads Hwf i node s r Hn Hs Hr Hd) as [? ?]. splits; try done. apply (rem_pos 0 i node); [lia|done|done].
      + intros t Hst Hp Ho Hct Hvt [Ho'|[Hr|[Hv|Hd]]].
        * congruence.
        * unfold cf in Hct. pose proof (occ_nonneg srcs t). lia.
        * assert (views (rem (S i)) t <= views (cf srcs) t); [|lia]. apply views_mono. intros v. unfold cf. pose proof (occ_nonneg srcs v). lia.
        * assert (Hb : before i t).
          { destruct Hst as [->|Hr]; [by apply (go_topo Hwf i node s Hn)|]. apply (root_before i node s t Hn Hs Hr).
            unfold placed in Hp. by apply andb_true_iff in Hp as [?%bool_decide_eq_true _]. }
          by apply (before_not_later i (S i) t Hb); [lia|].
      + intros q' [I' Hst]. eapply post_mono; [apply IH; [intros; apply Hin; by right|exact I']| |done].
        intros q'' [I'' Hst']. split; [done|]. by eapply still_trans.
    - cbn [p_drop mbind res_bind]. apply IH; [intros; apply Hin; by right|]. exact I. }
  intros I. assert (I0 : inv (cf (t_src (T node))) (views (cf (t_src (T node)))) need born p).
  { eapply inv_counts; [exact I| | | |done]; [|intros t Ht; rewrite (iv_v _ _ _ _ _ I) by done; apply views_same|done].
    - intros t. rewrite (iv_c _ _ _ _ _ I), (rem_step _ _ _ Hn). unfold cf. lia.
    - intros v _. unfold finished. rewrite (rem_step _ _ _ Hn). unfold cf. by rewrite Z.add_comm. }
  eapply post_mono; [apply (Hloop _ p (fun s Hs => Hs) I0)| |done]. intros p' [I' Hst]. split; [|done].
  eapply inv_counts; [exact I'| | | |done]; [|intros t Ht; rewrite (iv_v _ _ _ _ _ I') by done; apply views_same|done].
  - intros t. rewrite (iv_c _ _ _ _ _ I'). unfold cf. cbn. lia.
  - intros v _. unfold finished, cf. cbn. by rewrite Z.add_0_r.
Qed.

(** Where node [i] writes: into its own range or that of the tensor it is a view of. *)
Definition root_of (t : Z) : Z := default t (t_view_src (T t)).

(** Computing node [j] at the places [pl] leaves everything alone that is still needed. *)
Definition write_safe (pl : Z -> Z * Z) (j : nat) : Prop :=
  forall node u, N !! j = Some node -> t_op (T node) <> GGML_OP_NONE -> placed T (root_of node) = true -> u <> root_of node ->
    placed T u = true -> born_at (S j) u -> need_at (S j) u -> disjoint_at (pl (root_of node)) (pl u) (root_of node) u.

Lemma readers_later i node : N !! i = Some node -> 0 < rem 0 node -> 0 < rem (S i) node.
Proof.
  intros Hn Hr. unfold rem in Hr. rewrite drop_0 in Hr. apply readers_elem in Hr as (n & Hin & Hs). apply list_elem_of_lookup in Hin as [k Hk].
  destruct (go_topo Hwf k n node Hk Hs) as [HL|(j & Hj & Hjn)].
  - by destruct (go_leaf Hwf node (list_elem_of_lookup_2 _ _ _ Hn)).
  - pose proof (NoDup_lookup _ _ _ _ (go_nodup Hwf) Hn Hjn). apply (rem_pos (S i) k n); [lia|done|done].
Qed.

Lemma view_keeps_source i node r : N !! i = Some node -> t_op (T node) <> GGML_OP_NONE -> t_view_src (T node) = Some r ->
  0 < views (rem i) r /\ 0 < views (rem (S i)) r.
Proof.
  intros Hn Hop Hr. assert (Hv : view_of node r = true) by (unfold view_of; by rewrite bool_decide_eq_true_2, bool_decide_eq_false_2).
  assert (Hk : forall k, (k <= S i)%nat -> finished (rem k) node = false).
  { intros k Hk. unfold finished. destruct (Z.ltb_spec 0 (rem 0 node)) as [Hp|Hp]; [|done]. pose proof (readers_later i node Hn Hp) as Hl.
    unfold rem in Hl. destruct (readers_elem _ _ Hl) as (n & Hin & Hs). apply list_elem_of_lookup in Hin as [m Hm]. rewrite lookup_drop in Hm.
    pose proof (rem_pos k (S i + m) n node ltac:(lia) Hm Hs). cbn. apply Z.leb_gt. lia. }
  pose proof (list_elem_of_lookup_2 _ _ _ Hn) as HN. split; eapply views_elem; eauto.
Qed.

Lemma root_born i node r : N !! i = Some node -> t_view_src (T node) = Some r -> t_data (T r) = None -> born_at i r.
Proof. intros Hn Hr Hd. by apply before_born, (go_root Hwf i node). Qed.

Context (node_ids leaf_ids : option (list Z)).
Context (Hids : forall i node, N !! i = Some node -> exists id, get_node_buffer_id node_ids (Z.of_nat i) = Ok id /\ valid_id id).
Context (Hlids : forall i leaf, L !! i = Some leaf -> exists id, get_node_buffer_id leaf_ids (Z.of_nat i) = Ok id /\ valid_id id).

Lemma step_inv i p : (i < length N)%nat -> loop_inv i p ->
  post (p_step T bufts buf_tallocs graph node_ids (Z.of_nat i) p)
    (fun p' => loop_inv (S i) p' /\ (forall u, born_at i u -> place p' u = place p u) /\ write_safe (place p') i) (fun e => e = Abort).
Proof.
  intros Hi I. destruct (lookup_lt_is_Some_2 N i Hi) as [node Hn]. destruct (Hids i node Hn) as (id & Eid & Hid).
  unfold p_step. unfold vget. rewrite zlookup_nat, Hn, Eid. cbn [or_ub mbind res_bind].
  rewrite (parents_done i node p id Hn (proj1 Hid) I). cbn [mbind res_bind].
  eapply post_bind; [by apply (node_alloc_inv i node p id)|]. intros pm (Im & Hal & Hplace).
  eapply post_mono; [by apply (drops_inv i node pm)| |done]. intros p' [I' Hst]. split; [done|]. split; [intros u Hu; rewrite Hst; by apply Hplace|].
  intros node' u Hn' Hop Hw Hne Hu Hbu Hnu. assert (node' = node) as -> by congruence. rewrite !Hst. eapply inv_disjoint; [exact Im|done| |].
  - unfold root_of in *. destruct (t_view_src (T node)) as [r|] eqn:Er; cbn in *; [|by apply Hal].
    unfold placed in Hw. apply andb_true_iff in Hw as Hw'. destruct Hw' as [Hd%bool_decide_eq_true _].
    eapply (iv_need _ _ _ _ _ Im); [exact Hw| |right; right; left; by apply (view_keeps_source i node)].
    pose proof (root_born i node r Hn Er Hd) as [?|[?|Hb]]; [by left|by right; left|]. right; right. rewrite (take_S_r _ _ _ Hn). apply elem_of_app. by left.
  - by apply (iv_need _ _ _ _ _ Im).
Qed.

Lemma loop_safe n i p pf : (i + n = length N)%nat -> loop_inv i p ->
  for_n n (Z.of_nat i) (p_step T bufts buf_tallocs graph node_ids) p = Ok pf ->
  (forall u, born_at i u -> place pf u = place p u) /\ forall j, (i <= j < length N)%nat -> write_safe (place pf) j.
Proof.
  revert i p. induction n as [|n IH]; intros i p Hlen I E; cbn [for_n] in E.
  - injection E as <-. split; [done|]. intros j Hj. lia.
  - apply res_bind_ok in E as (p1 & E1 & E). pose proof (step_inv i p ltac:(lia) I) as Hs. rewrite E1 in Hs. destruct Hs as (I1 & Hpl & Hw).
    replace (Z.of_nat i + 1) with (Z.of_nat (S i)) in E by lia. destruct (IH (S i) p1 ltac:(lia) I1 E) as [Hpl' Hsafe].
    assert (Hbs : forall u, born_at i u -> born_at (S i) u).
    { intros u [?|[?|Hu]]; [by left|by right; left|]. right; right. apply list_elem_of_lookup in Hu as [k Hk]. apply lookup_take_Some in Hk as [Hk Hlt].
      apply list_elem_of_lookup. exists k. rewrite lookup_take_lt by lia. done. }
    split; [intros u Hu; rewrite Hpl' by auto; by apply Hpl|].
    intros j Hj. destruct (decide (j = i)) as [->|Hne]; [|apply Hsafe; lia].
    intros node u Hn Hop Hwp Hne Hu Hbu Hnu. assert (Hbr : born_at (S i) (root_of node)).
    { unfold root_of in *. destruct (t_view_src (T node)) as [r|] eqn:Er; cbn in *.
      - apply Hbs, (root_born i node r Hn Er). unfold placed in Hwp. by apply andb_true_iff in Hwp as [?%bool_decide_eq_true _].
      - right; right. rewrite (take_S_r _ _ _ Hn). apply elem_of_app. right. by left. }
    rewrite (Hpl' u Hbu), (Hpl' _ Hbr). by apply Hw.
Qed.

Lemma loop_total n i p : (i + n = length N)%nat -> loop_inv i p ->
  post (for_n n (Z.of_nat i) (p_step T bufts buf_tallocs graph node_ids) p) (loop_inv (length N)) (fun e => e = Abort).
Proof.
  revert i p. induction n as [|n IH]; intros i p Hlen I; cbn [for_n].
  - cbn. by replace (length N) with i by lia.
  - eapply post_bind; [apply (step_inv i p ltac:(lia) I)|]. intros p1 (I1 & _). replace (Z.of_nat i + 1) with (Z.of_nat (S i)) by lia. apply IH; [lia|done].
Qed.

(** * Leafs and inputs *)

Definition always (t : Z) : Prop := True.

(** Leafs and inputs have no operation, so they get places of their own. *)
Lemma plain_allocate c nv born p t id : inv c nv always born p -> t ∈ ts -> t_op (T t) = GGML_OP_NONE -> valid_id id ->
  post (p_allocate T bufts buf_tallocs p t id) (fun p' => inv c nv always (fun u => born u \/ u = t) p') (fun e => e = Abort).
Proof.
  intros I Ht Hop Hid. destruct (placed T t) eqn:Ep.
  2:{ rewrite allocate_done; [|apply Hid|by left]. eapply inv_weaken; [exact I|done|].
      intros u Hp. split; [|by left]. intros [Hb| ->]; [done|congruence]. }
  destruct (hn_allocated (p_hn p t)) eqn:Eal.
  { rewrite allocate_done; [|apply Hid|by right]. eapply inv_weaken; [exact I|done|].
    intros u Hp. split; [|by left]. intros [Hb| ->]; [done|]. by destruct (iv_owned _ _ _ _ _ I t Eal) as (_ & ? & _). }
  assert (Hnb : ~ born t) by (intros Hb; rewrite (iv_need _ _ _ _ _ I t Ep Hb) in Eal; [done|exact Logic.I]).
  unfold p_allocate. rewrite (proj2 (Z.leb_le 0 id)) by apply Hid. cbn [ggml_assert mbind res_bind]. rewrite Ep, Eal, Hop. cbn [andb negb ggml_op_can_inplace].
  eapply post_mono; [apply (place_inv c nv always always born p t id I Ep Ht Hnb Hid); done| |done]. by intros p' [? _].
Qed.

Lemma input_allocate c nv born ids i p t : inv c nv always born p -> t ∈ L \/ t ∈ N ->
  (exists id, get_node_buffer_id ids i = Ok id /\ valid_id id) ->
  post (p_input T bufts buf_tallocs ids i p t) (fun p' => inv c nv always (fun u => born u \/ (is_input t = true /\ u = t)) p') (fun e => e = Abort).
Proof.
  intros I Ht (id & Eid & Hid). unfold p_input. fold (is_input t). destruct (is_input t) eqn:Ein.
  - rewrite Eid. cbn [mbind res_bind]. eapply post_mono; [apply (plain_allocate c nv born p t id I); [by apply ts_elem| |done]| |done].
    + destruct Ht as [Ht|Ht]; [by apply (go_leaf_op Hwf)|by apply (go_input Hwf)].
    + intros p' I'. eapply inv_weaken; [exact I'| |]; naive_solver.
  - cbn [post]. eapply inv_weaken; [exact I| |]; naive_solver.
Qed.

Definition view_count (l : list Z) (r : Z) : Z := zsum ((fun v => if view_of v r then 1 else 0) <$> l).

(** Counting a reader. *)
Lemma add_child_inv c nv need born p s : inv c nv need born p ->
  inv (fun t => c t + (if decide (Some s = Some t) then 1 else 0)) nv need born (p_update p s add_child).
Proof.
  intros I. apply (inv_counts c nv need born _ _ p _ I); [| | |done].
  - intros t. cbn. destruct (decide (t = s)) as [->|Hne]; cbn.
    + rewrite decide_True by done. by rewrite (iv_c _ _ _ _ _ I).
    + rewrite decide_False by congruence. rewrite (iv_c _ _ _ _ _ I). lia.
  - intros t Ht. cbn. destruct (decide (t = s)) as [->|Hne]; cbn; by apply (iv_v _ _ _ _ _ I).
  - intros t. unfold same_at, place. cbn. by destruct (decide (t = s)) as [->|].
Qed.

Lemma count_view_inv c nv need born p node : inv c nv need born p ->
  inv c (fun r => nv r + (if view_of node r then 1 else 0)) need born (p_count_view T p node).
Proof.
  intros I. unfold p_count_view, view_of. destruct (t_view_src (T node)) as [s|].
  2:{ apply (inv_counts c nv need born _ _ p _ I); [apply I| |done|done]. intros t Ht. rewrite (bool_decide_eq_false_2 (None = Some t)) by done. cbn. rewrite (iv_v _ _ _ _ _ I) by done. lia. }
  destruct (decide (t_op (T node) = GGML_OP_NONE)) as [Hop|Hop].
  { apply (inv_counts c nv need born _ _ p _ I); [apply I| |done|done]. intros t Ht. rewrite (bool_decide_eq_true_2 (t_op (T node) = GGML_OP_NONE)) by done. cbn [negb].
    rewrite andb_false_r, (iv_v _ _ _ _ _ I) by done. lia. }
  rewrite (bool_decide_eq_false_2 (t_op (T node) = GGML_OP_NONE)) by done. apply (inv_counts c nv need born _ _ p _ I); [| | |done].
  - intros t. cbn. destruct (decide (t = s)) as [->|]; cbn; apply (iv_c _ _ _ _ _ I).
  - intros t Ht. cbn. rewrite andb_true_r. destruct (decide (t = s)) as [->|Hne]; cbn; rewrite (iv_v _ _ _ _ _ I) by done.
    + by rewrite bool_decide_eq_true_2.
    + rewrite bool_decide_eq_false_2 by congruence. lia.
  - intros t. unfold same_at, place. cbn. by destruct (decide (t = s)) as [->|].
Qed.

(** The states of the counting loop. *)
Definition count_born (k : nat) (born : Z -> Prop) : Prop :=
  (forall t, born t -> t ∈ L \/ (t ∈ N /\ is_input t = true)) /\ (forall t, t ∈ L -> born t) /\
  (forall t, t ∈ take k N -> is_input t = true -> born t).
Definition count_inv (k : nat) (p : planner) : Prop :=
  exists born, inv (readers (take k N)) (view_count (take k N)) always born p /\ count_born k born.

Lemma source_known i node s : N !! i = Some node -> Some s ∈ t_src (T node) -> s ∈ L \/ s ∈ N.
Proof. intros Hn Hs. destruct (go_topo Hwf i node s Hn Hs) as [?|(j & _ & Hj)]; [by left|right; by eapply list_elem_of_lookup_2]. Qed.

Lemma count_srcs_inv i node p born c nv :
  N !! i = Some node -> inv c nv always born p -> count_born (S i) born ->
  post (foldM (p_count_src T bufts buf_tallocs node_ids (Z.of_nat i)) p (t_src (T node)))
    (fun p' => exists born', inv (fun t => c t + occ (t_src (T node)) t) nv always born' p' /\ count_born (S i) born') (fun e => e = Abort).
Proof.
  intros Hn. assert (Hloop : forall srcs c born p, (forall s, Some s ∈ srcs -> Some s ∈ t_src (T node)) -> inv c nv always born p -> count_born (S i) born ->
    post (foldM (p_count_src T bufts buf_tallocs node_ids (Z.of_nat i)) p srcs)
      (fun p' => exists born', inv (fun t => c t + occ srcs t) nv always born' p' /\ count_born (S i) born') (fun e => e = Abort)); [|intros I Hb; by apply (Hloop _ c born)].
  intros srcs. induction srcs as [|[s|] srcs IH]; intros c' born' q Hin I Hb; cbn [foldM].
  - exists born'. split; [|done]. apply (inv_counts c' nv always born' _ _ q _ I); [|apply I|done|done]. intros t. cbn. rewrite (iv_c _ _ _ _ _ I). lia.
  - assert (Hs : Some s ∈ t_src (T node)) by (apply Hin; by left). pose proof (source_known i node s Hn Hs) as Hsk. cbn [p_count_src].
    eapply post_bind; [apply (input_allocate _ _ _ node_ids (Z.of_nat i) _ s (add_child_inv _ _ _ _ _ s I) Hsk); by apply (Hids i node)|].
    intros q' I'. eapply post_mono; [apply (IH _ _ q' (fun u Hu => Hin u (list_elem_of_further _ _ _ Hu)) I')| |done].
    + destruct Hb as (B1 & B2 & B3). split; [|split]; [|naive_solver..]. intros t [Ht|[Ht ->]]; [auto|]. destruct Hsk; auto.
    + intros q'' (b & I'' & Hb''). exists b. split; [|done]. apply (inv_counts _ nv always b _ _ q'' _ I''); [|apply I''|done|done].
      intros t. rewrite (iv_c _ _ _ _ _ I''). cbn [occ]. lia.
  - cbn [p_count_src mbind res_bind]. eapply post_mono; [apply (IH c' born' q (fun u Hu => Hin u (list_elem_of_further _ _ _ Hu)) I Hb)| |done].
    intros q'' (b & I'' & Hb''). exists b. split; [|done]. apply (inv_counts _ nv always b _ _ q'' _ I''); [|apply I''|done|done].
    intros t. rewrite (iv_c _ _ _ _ _ I''). cbn [occ]. rewrite decide_False by done. lia.
Qed.

Lemma count_node_inv i p : (i < length N)%nat -> count_inv i p ->
  post (p_count T bufts buf_tallocs graph node_ids (Z.of_nat i) p) (count_inv (S i)) (fun e => e = Abort).
Proof.
  intros Hi (born & I & B1 & B2 & B3). destruct (lookup_lt_is_Some_2 N i Hi) as [node Hn]. pose proof (list_elem_of_lookup_2 _ _ _ Hn) as HN.
  unfold p_count, vget. rewrite zlookup_nat, Hn. cbn [or_ub mbind res_bind].
  eapply post_bind; [apply (input_allocate _ _ _ node_ids (Z.of_nat i) _ node (count_view_inv _ _ _ _ _ node I)); [by right|by apply (Hids i node)]|].
  intros p1 I1. eapply post_mono; [apply (count_srcs_inv i node p1 _ _ _ Hn I1)| |done].
  - split; [|split]; [|naive_solver|].
    + intros t [Ht|[Ht ->]]; [auto|right; done].
    + intros t. rewrite (take_S_r _ _ _ Hn), elem_of_app, list_elem_of_singleton. naive_solver.
  - intros p2 (b & I2 & Hb). exists b. split; [|done]. apply (inv_counts _ _ always b _ _ p2 _ I2); [| |done|done].
    + intros t. rewrite (iv_c _ _ _ _ _ I2), (take_S_r _ _ _ Hn), readers_append. unfold readers at 3. cbn. lia.
    + intros t Ht. rewrite (iv_v _ _ _ _ _ I2) by done. unfold view_count. rewrite (take_S_r _ _ _ Hn), fmap_app, zsum_app. cbn. lia.
Qed.

Lemma leaf_inv i p : (i < length L)%nat -> inv (fun _ => 0) (fun _ => 0) always (fun t => t ∈ take i L) p ->
  post (p_leaf T bufts buf_tallocs graph leaf_ids (Z.of_nat i) p) (inv (fun _ => 0) (fun _ => 0) always (fun t => t ∈ take (S i) L)) (fun e => e = Abort).
Proof.
  intros Hi I. destruct (lookup_lt_is_Some_2 L i Hi) as [leaf Hl]. destruct (Hlids i leaf Hl) as (id & Eid & Hid). pose proof (list_elem_of_lookup_2 _ _ _ Hl) as HL.
  unfold p_leaf, vget. rewrite zlookup_nat, Hl, Eid. cbn [or_ub mbind res_bind].
  eapply post_mono; [apply (plain_allocate _ _ _ p leaf id I); [apply ts_elem; by left|by apply (go_leaf_op Hwf)|done]| |done].
  intros p' I'. eapply inv_weaken; [exact I'|done|]. intros t _. by rewrite (take_S_r _ _ _ Hl), elem_of_app, list_elem_of_singleton.
Qed.

(** A loop over the indices of a list. *)
Lemma for_nat_post {A} (l : list A) (J : nat -> planner -> Prop) (body : Z -> planner -> res planner) p :
  J O p -> (forall i q, (i < length l)%nat -> J i q -> post (body (Z.of_nat i) q) (J (S i)) (fun e => e = Abort)) ->
  post (for_z 0 (zlen l) body p) (J (length l)) (fun e => e = Abort).
Proof.
  intros H0' Hb. pose proof (for_z_post 0 (zlen l) body (fun z => J (Z.to_nat z)) (fun e => e = Abort) p (zlen_nonneg l) H0') as Hp.
  cbn beta in Hp. replace (Z.to_nat (zlen l)) with (length l) in Hp by (unfold zlen; lia). apply Hp. intros j q Hj Hq. unfold zlen in Hj.
  replace (Z.to_nat (j + 1)) with (S (Z.to_nat j)) by lia. rewrite <- (Z2Nat.id j) at 1 by lia. apply Hb; [lia|done].
Qed.

Definition fresh_tallocs (tallocs : list ggml_dyn_tallocr) : Prop :=
  zlen tallocs = nt /\ forall a alloc, zlookup tallocs a = Some alloc ->
    exists al, 0 < al <= 2 ^ 62 /\ (2 | al) /\ alloc = ggml_dyn_tallocr_new al.

Definition aligned_as (tallocs : list ggml_dyn_tallocr) : Prop :=
  forall a alloc, zlookup tallocs a = Some alloc -> da_alignment alloc = als a.

Lemma counted_inv tallocs : fresh_tallocs tallocs -> aligned_as tallocs ->
  post (p ← for_z 0 (n_leafs graph) (p_leaf T bufts buf_tallocs graph leaf_ids) {| p_hn := fun _ => zero_node; p_tallocs := tallocs |};
        for_z 0 (n_nodes graph) (p_count T bufts buf_tallocs graph node_ids) p) (loop_inv 0) (fun e => e = Abort).
Proof.
  intros [Hlen Hfresh] Hal. eapply post_bind.
  { apply (for_nat_post L (fun i => inv (fun _ => 0) (fun _ => 0) always (fun t => t ∈ take i L))); [|apply leaf_inv].
    constructor; cbn; [done|done|done|by intros t _ Ht%elem_of_nil| |by intros t _ Ht%elem_of_nil|done|exact Hal].
    intros a alloc Ha. destruct (Hfresh a alloc Ha) as (al & H1 & H2 & ->). unfold live.
    assert (List.filter (owns {| p_hn := fun _ => zero_node; p_tallocs := tallocs |} a) ts = []) as ->; [|by apply talloc_fresh].
    clear. generalize ts. intros l. induction l as [|t l IH]; [done|exact IH]. }
  intros p1 I1. rewrite firstn_all in I1. eapply post_mono; [apply (for_nat_post N count_inv)| |done].
  - exists (fun t => t ∈ L). split; [exact I1|]. split; [naive_solver|]. split; [done|]. by intros t ?%elem_of_nil.
  - apply count_node_inv.
  - intros p2 (born & I2 & B1 & B2 & B3). rewrite firstn_all in I2, B3.
    assert (I3 : inv (rem 0) (views (rem 0)) always born p2).
    { apply (inv_counts _ _ _ _ _ _ p2 _ I2); [| |done|done].
      - intros t. rewrite (iv_c _ _ _ _ _ I2). unfold rem. by rewrite drop_0.
      - intros t Ht. rewrite (iv_v _ _ _ _ _ I2) by done. unfold views, views_in, view_count. f_equal. apply list_fmap_ext. intros ? v _.
        assert (finished (rem 0) v = false) as ->; [|by rewrite andb_true_r]. unfold finished. destruct (Z.ltb_spec 0 (rem 0 v)); [cbn; apply Z.leb_gt; lia|done]. }
    eapply inv_weaken; [exact I3|done|]. intros t _. split.
    + intros [Hb|[[Hb Hin]|Hb]]; [by apply B2|by apply B3|]. by apply elem_of_nil in Hb.
    + intros Hb. destruct (B1 t Hb); [by left|by right; left].
Qed.

(** * The plan *)

Lemma plan_safe tallocs pf : fresh_tallocs tallocs -> aligned_as tallocs ->
  plan_graph T bufts buf_tallocs tallocs graph node_ids leaf_ids = Ok pf ->
  loop_inv (length N) pf /\ forall j, (j < length N)%nat -> write_safe (place pf) j.
Proof.
  intros Hf Hal E. unfold plan_graph in E. apply res_bind_ok in E as (p1 & E1 & E). apply res_bind_ok in E as (p2 & E2 & E).
  pose proof (counted_inv tallocs Hf Hal) as Hc. rewrite E1 in Hc. cbn [mbind res_bind] in Hc. rewrite E2 in Hc. cbn [post] in Hc.
  unfold for_z in E. replace (Z.to_nat (n_nodes graph - 0)) with (length N) in E by (unfold n_nodes, zlen; lia).
  pose proof (loop_total (length N) 0 p2 (Nat.add_0_l _) Hc) as Ht. change (Z.of_nat 0) with 0 in Ht. rewrite E in Ht. split; [exact Ht|].
  intros j Hj. apply (proj2 (loop_safe (length N) 0 p2 pf (Nat.add_0_l _) Hc E)). lia.
Qed.

Lemma plan_total tallocs : fresh_tallocs tallocs -> aligned_as tallocs ->
  post (plan_graph T bufts buf_tallocs tallocs graph node_ids leaf_ids) (fun _ => True) (fun e => e = Abort).
Proof.
  intros Hf Hal. pose proof (counted_inv tallocs Hf Hal) as Hc. unfold plan_graph.
  destruct (for_z 0 (n_leafs graph) _ _) as [p1|e]; [|exact Hc]. cbn [mbind res_bind] in Hc |- *.
  eapply post_bind; [exact Hc|]. intros p2 I2. unfold for_z. replace (Z.to_nat (n_nodes graph - 0)) with (length N) by (unfold n_nodes, zlen; lia).
  eapply post_mono; [apply (loop_total (length N) 0 p2 (Nat.add_0_l _) I2)|done|done].
Qed.
End safety.

(** The alignments of given allocators. *)
Definition alignments (tallocs : list ggml_dyn_tallocr) (a : Z) : Z := match zlookup tallocs a with Some alloc => da_alignment alloc | None => 0 end.

Lemma aligned_alignments tallocs : aligned_as (alignments tallocs) tallocs.
Proof. intros a alloc Ha. unfold alignments. by rewrite Ha. Qed.
