(* ===== verification/GallocExec.v ===== *)
(** Computing a graph in shared memory. A node is a function of the contents of its
    sources; with the plan of the graph allocator the nodes are computed in the memory of
    the buffers, where tensors follow each other at the same addresses. The theorem says
    that this gives the results of a computation in which every tensor has memory of its
    own. *)
From S2P Require Import Prelude HashSet Alloc AllocSpec Tensor Buffers Gallocr GallocSpec GallocSafety.

(** What a plan is made for: the buffer types answer with sizes that depend on the layout
    only, the ids of the buffers are valid, and the allocators have been reset. *)
Record planning `{BufferTypes} (T : heap) (graph : ggml_cgraph) (bufts buf_tallocs : list Z)
    (tallocs : list ggml_dyn_tallocr) (node_ids leaf_ids : option (list Z)) : Prop := {
  pn_graph  : graph_ok T graph;
  pn_sizes  : forall b t, t ∈ ts graph -> 0 <= buft_get_alloc_size b (T t) < 2 ^ 62;
  pn_layout : forall b t u, ggml_are_same_layout (T t) (T u) = true -> buft_get_alloc_size b (T t) = buft_get_alloc_size b (T u);
  pn_nodes  : forall i node, cg_nodes graph !! i = Some node ->
                exists id, get_node_buffer_id node_ids (Z.of_nat i) = Ok id /\ valid_id bufts buf_tallocs (zlen tallocs) id;
  pn_leafs  : forall i leaf, cg_leafs graph !! i = Some leaf ->
                exists id, get_node_buffer_id leaf_ids (Z.of_nat i) = Ok id /\ valid_id bufts buf_tallocs (zlen tallocs) id;
  pn_fresh  : fresh_tallocs (zlen tallocs) tallocs
}.

Section exec.
Context `{BufferTypes} {V : Type} (T : heap) (graph : ggml_cgraph) (bufts buf_tallocs : list Z).
Local Abbreviation N := (cg_nodes graph).
Local Abbreviation root := (root_of T).

(** ** The two machines *)

(** [ggml_nbytes]: the bytes of a tensor; a backend asks for at least that many. *)
Context (nbytes : Z -> Z).

(** What a node computes from the contents of its sources and, for a view, the old content
    of the tensor it is a view of. *)
Context (kern : Z -> list (option (list V)) -> option (list V) -> list V).

Definition compute (rd : Z -> list V) (t : Z) : list V :=
  kern t (option_map (fun s => rd (root s)) <$> t_src (T t))
    (match t_view_src (T t) with Some _ => Some (rd (root t)) | None => None end).

(** Every tensor has memory of its own. *)
Definition step_apart (st : Z -> list V) (t : Z) : Z -> list V :=
  if decide (t_op (T t) = GGML_OP_NONE) then st
  else fun u => if decide (u = root t) then compute st t else st u.

(** The memory of the buffers, by allocator and offset, and the memory of the tensors that
    were allocated before. *)
Record machine : Type := {
  m_mem : option Z -> Z -> V;
  m_ext : Z -> list V
}.

Section shared.
Context (pl : Z -> Z * Z).

Definition read_root (m : machine) (r : Z) : list V :=
  if placed T r then (fun k => m_mem m (zlookup buf_tallocs (pl r).1) ((pl r).2 + k)) <$> zseq 0 (Z.to_nat (nbytes r))
  else m_ext m r.

Definition write_root (m : machine) (r : Z) (l : list V) : machine :=
  if placed T r then
    {| m_mem := fun a o =>
         if decide (a = zlookup buf_tallocs (pl r).1) then default (m_mem m a o) (zlookup l (o - (pl r).2)) else m_mem m a o;
       m_ext := m_ext m |}
  else {| m_mem := m_mem m; m_ext := fun u => if decide (u = r) then l else m_ext m u |}.

Definition step_shared (m : machine) (t : Z) : machine :=
  if decide (t_op (T t) = GGML_OP_NONE) then m else write_root m (root t) (compute (read_root m) t).

(** The contents agree on what is there and still needed when node [i] comes. *)
Definition agree (i : nat) (m : machine) (st : Z -> list V) : Prop :=
  forall r, t_view_src (T r) = None -> (placed T r = true -> born_at T graph i r /\ need_at T graph i r) -> read_root m r = st r.

Context (Hwf : graph_ok T graph).
Context (Hbytes : forall t b, t ∈ ts graph -> 0 <= nbytes t <= buft_get_alloc_size b (T t)).
Context (Hkern : forall t xs old, zlen (kern t xs old) = nbytes (root t)).

Lemma read_write r l m : zlen l = nbytes r -> read_root (write_root m r l) r = l.
Proof.
  intros Hl. unfold read_root, write_root. destruct (placed T r); cbn [m_mem m_ext]; [|by rewrite decide_True].
  apply zlookup_ext.
  - unfold zlen at 1. rewrite length_fmap, length_zseq. pose proof (zlen_nonneg l). lia.
  - intros i Hi. unfold zlen in Hi at 1. rewrite length_fmap, length_zseq in Hi. rewrite zlookup_fmap, zlookup_zseq by lia. cbn.
    rewrite decide_True by done. replace ((pl r).2 + i - (pl r).2) with i by lia. destruct (zlookup_lt l i) as [x Hx]; [lia|]. by rewrite Hx.
Qed.

Lemma read_write_other r u l m : u <> r -> zlen l = nbytes r ->
  (placed T r = true -> placed T u = true -> forall x, zlookup buf_tallocs (pl r).1 = zlookup buf_tallocs (pl u).1 ->
     (pl r).2 <= x < (pl r).2 + nbytes r -> ~ ((pl u).2 <= x < (pl u).2 + nbytes u)) ->
  read_root (write_root m r l) u = read_root m u.
Proof.
  intros Hne Hl Hd. unfold read_root, write_root. destruct (placed T r) eqn:Er; cbn [m_mem m_ext]; [|by rewrite decide_False].
  destruct (placed T u) eqn:Eu; cbn [m_mem m_ext]; [|done]. apply list_fmap_ext. intros i k Hk.
  apply list_elem_of_lookup_2, elem_of_zseq in Hk. case_decide as Ea; [|done].
  destruct (zlookup l ((pl u).2 + k - (pl r).2)) as [x|] eqn:E; [|done]. exfalso. apply zlookup_Some_lt in E.
  apply (Hd eq_refl eq_refl ((pl u).2 + k)); [done|lia|lia].
Qed.

(** A root of the graph that is not placed has memory of its own. *)
Lemma reads_agree i m st node : agree i m st -> N !! i = Some node -> t_op (T node) <> GGML_OP_NONE -> compute (read_root m) node = compute st node.
Proof.
  intros Ha Hn Hopn. unfold compute. f_equal.
  - apply list_fmap_ext. intros k o Ho. destruct o as [s|]; [|done]. cbn. f_equal. apply list_elem_of_lookup_2 in Ho.
    pose proof (go_topo T graph Hwf i node s Hn Ho) as Hb. assert (Hsk : s ∈ cg_leafs graph \/ s ∈ N).
    { destruct Hb as [?|(j & _ & Hj)]; [by left|right; by eapply list_elem_of_lookup_2]. }
    unfold root_of. destruct (t_view_src (T s)) as [r|] eqn:Er; cbn.
    + apply Ha; [by apply (go_flat T graph Hwf s)|]. intros Hp. assert (Hd : t_data (T r) = None) by (unfold placed in Hp; by apply andb_true_iff in Hp as [?%bool_decide_eq_true _]).
      split; [apply before_born; by apply (root_before T graph Hwf i node s)|]. right; right; left.
      destruct (go_reads T graph Hwf i node s r Hn Ho Er Hd) as [HN Hop]. apply (views_elem _ _ _ s); [done| |].
      * unfold view_of. by rewrite Er, bool_decide_eq_true_2, bool_decide_eq_false_2.
      * unfold finished. pose proof (rem_pos T graph i i node s ltac:(lia) Hn Ho). rewrite (proj2 (Z.leb_gt (rem T graph i s) 0)) by lia. apply andb_false_r.
    + apply Ha; [done|]. intros Hp. split; [by apply before_born|]. right; left. by apply (rem_pos T graph i i node).
  - destruct (t_view_src (T node)) as [r|] eqn:Er; [|done]. f_equal. unfold root_of. rewrite Er. cbn.
    apply Ha; [apply (go_flat T graph Hwf node); [right; by eapply list_elem_of_lookup_2|done]|]. intros Hp.
    assert (Hd : t_data (T r) = None) by (unfold placed in Hp; by apply andb_true_iff in Hp as [?%bool_decide_eq_true _]).
    split; [by apply (root_born T graph Hwf i node)|]. right; right; left. by apply (view_keeps_source T graph Hwf i node).
Qed.

Lemma born_ts i t : born_at T graph i t -> t ∈ ts graph.
Proof.
  rewrite ts_elem. intros [?|[[? _]|Ht]]; [by left|by right|right]. apply list_elem_of_lookup in Ht as [k Hk]. apply lookup_take_Some in Hk as [Hk _].
  by eapply list_elem_of_lookup_2.
Qed.

(** A tensor that is there after node [i] was there before, or is the one it writes. *)
Lemma born_step i node r : N !! i = Some node -> placed T r = true -> t_view_src (T r) = None -> born_at T graph (S i) r ->
  born_at T graph i r \/ (r = node /\ root node = node /\ t_op (T node) <> GGML_OP_NONE).
Proof.
  intros Hn Hp Hv [?|[?|Hb]]; [by left; left|by left; right; left|]. rewrite (take_S_r _ _ _ Hn), elem_of_app, list_elem_of_singleton in Hb.
  destruct Hb as [Hb| ->]; [by left; right; right|]. pose proof (list_elem_of_lookup_2 _ _ _ Hn) as HN.
  destruct (decide (t_op (T node) = GGML_OP_NONE)) as [Hop|Hop].
  - left. right; left. split; [done|]. by apply (go_none T graph Hwf).
  - right. split; [done|]. unfold root_of. by rewrite Hv.
Qed.

Lemma step_agree i m st node : N !! i = Some node -> write_safe T bufts buf_tallocs graph pl i ->
  (forall r, placed T r = true -> born_at T graph (S i) r -> exists b, zlookup bufts (pl r).1 = Some b) ->
  agree i m st -> agree (S i) (step_shared m node) (step_apart st node).
Proof.
  intros Hn Hsafe Hbuft Ha. pose proof (lookup_lt_Some _ _ _ Hn) as Hi. unfold step_shared, step_apart. destruct (decide (t_op (T node) = GGML_OP_NONE)) as [Hop|Hop].
  - intros r Hv Hr. apply Ha; [done|]. intros Hp. destruct (Hr Hp) as [Hb Hnd]. split; [|by apply need_step].
    by destruct (born_step i node r Hn Hp Hv Hb) as [?|(_ & _ & ?)].
  - intros r Hv Hr. rewrite (reads_agree i m st node Ha Hn Hop). set (x := compute st node).
    assert (Hx : zlen x = nbytes (root node)) by apply Hkern.
    destruct (decide (r = root node)) as [->|Hne]; [by apply read_write|].
    rewrite read_write_other; [|done|done|].
    + apply Ha; [done|]. intros Hp. destruct (Hr Hp) as [Hb Hnd]. split; [|by apply need_step].
      destruct (born_step i node r Hn Hp Hv Hb) as [?|(-> & E & _)]; [done|]. by rewrite E in Hne.
    + intros Hpw Hp y Hsame Hy Hy'. destruct (Hr Hp) as [Hb Hnd].
      assert (Hbw : born_at T graph (S i) (root node)).
      { unfold root_of in *. destruct (t_view_src (T node)) as [w|] eqn:Ew; cbn in *.
        - assert (Hd : t_data (T w) = None) by (unfold placed in Hpw; by apply andb_true_iff in Hpw as [?%bool_decide_eq_true _]).
          destruct (root_born T graph Hwf i node w Hn Ew Hd) as [?|[?|Ht]]; [by left|by right; left|]. right; right. rewrite (take_S_r _ _ _ Hn). apply elem_of_app. by left.
        - right; right. rewrite (take_S_r _ _ _ Hn). apply elem_of_app. right. by left. }
      destruct (Hbuft r Hp Hb) as [b Eb], (Hbuft _ Hpw Hbw) as [bw Ebw].
      pose proof (Hbytes r b (born_ts _ _ Hb)). pose proof (Hbytes (root node) bw (born_ts _ _ Hbw)).
      apply (Hsafe node r Hn Hop Hpw Hne Hp Hb Hnd y Hsame); unfold in_range, range_at, size_in; cbn; rewrite ?Eb, ?Ebw; lia.
Qed.

(** The states of the two machines before node [i]. *)
Definition shared_at (m : machine) (i : nat) : machine := fold_left step_shared (take i N) m.
Definition apart_at (st : Z -> list V) (i : nat) : Z -> list V := fold_left step_apart (take i N) st.

Lemma born_mono i r : born_at T graph i r -> born_at T graph (length N) r.
Proof.
  intros [?|[?|Hb]]; [by left|by right; left|right; right]. rewrite firstn_all. apply list_elem_of_lookup in Hb as [k Hk].
  apply lookup_take_Some in Hk as [Hk _]. by eapply list_elem_of_lookup_2.
Qed.

Lemma run_agree m st :
  (forall j, (j < length N)%nat -> write_safe T bufts buf_tallocs graph pl j) ->
  (forall r, placed T r = true -> born_at T graph (length N) r -> exists b, zlookup bufts (pl r).1 = Some b) ->
  agree 0 m st -> forall i, (i <= length N)%nat -> agree i (shared_at m i) (apart_at st i).
Proof.
  intros Hsafe Hbuft H0' i. induction i as [|i IH]; intros Hi; [exact H0'|].
  destruct (lookup_lt_is_Some_2 N i Hi) as [node Hn]. unfold shared_at, apart_at. rewrite (take_S_r _ _ _ Hn), !fold_left_app. cbn [fold_left].
  apply step_agree; [done|by apply Hsafe| |apply IH; lia]. intros r Hp Hb. apply Hbuft; [done|]. by apply (born_mono (S i)).
Qed.
End shared.
End exec.

(** * The graph allocator *)

(** The place that the allocator has planned for a tensor. *)
Definition planned_place (g : ggml_gallocr) (t : Z) : Z * Z :=
  match entry_of g t with Ok h => (hn_buffer_id h, hn_offset h) | Err _ => (0, 0) end.

Section graph.
Context `{BufferTypes} {V : Type} (T : heap) (graph : ggml_cgraph) (U : gset Z) (g : ggml_gallocr) (node_ids leaf_ids : option (list Z)).
Context (nbytes : Z -> Z) (kern : Z -> list (option (list V)) -> option (list V) -> list V).
Context (Hgt : graph_tensors T graph U) (Hok : hash_ok (ga_hash_set g)) (Hroom : Z.of_nat (size U) <= hs_size (ga_hash_set g)).
Context (Hpl : planning T graph (ga_bufts g) (ga_buf_tallocs g) (ga_tallocs g) node_ids leaf_ids).
Context (Hbytes : forall t b, t ∈ ts graph -> 0 <= nbytes t <= buft_get_alloc_size b (T t)).
Context (Hkern : forall t xs old, zlen (kern t xs old) = nbytes (root_of T t)).

Lemma plan_places :
  post (ggml_gallocr_alloc_graph_impl T g graph node_ids leaf_ids)
    (fun g' => exists p, plan_graph T (ga_bufts g) (ga_buf_tallocs g) (ga_tallocs g) graph node_ids leaf_ids = Ok p /\
       ga_tallocs g' = p_tallocs p /\ (forall t, t ∈ U -> planned_place g' t = place p t) /\
       ga_bufts g' = ga_bufts g /\ ga_buf_tallocs g' = ga_buf_tallocs g)
    (fun e => e = Abort).
Proof using Hgt Hok Hroom Hpl.
  destruct Hgt as [H1 H2 H3 H4]. destruct Hpl as [P1 P2 P3 P4 P5 P6].
  pose proof (alloc_graph_sim T (ga_bufts g) (ga_buf_tallocs g) (ga_buffers g) U H3 H4 graph H1 H2 g node_ids leaf_ids Hok Hroom eq_refl eq_refl eq_refl) as S.
  pose proof (plan_total T (ga_bufts g) (ga_buf_tallocs g) graph _ (alignments (ga_tallocs g)) P2 P3 P1 node_ids leaf_ids P4 P5 (ga_tallocs g) P6 (aligned_alignments _)) as Ht.
  unfold sim_res in S. destruct (ggml_gallocr_alloc_graph_impl _ _ _ _ _) as [g'|e], (plan_graph _ _ _ _ _ _ _) as [p|e']; try done; cbn [post] in *; [|by subst].
  exists p. split; [done|]. split; [apply (sm_talloc _ _ _ _ _ _ _ S)|]. split; [|split; [apply (sm_bufts _ _ _ _ _ _ _ S)|apply (sm_ids _ _ _ _ _ _ _ S)]].
  intros t Ht'. unfold planned_place. by rewrite (sim_entry T (ga_bufts g) (ga_buf_tallocs g) (ga_buffers g) U g' p t S Ht').
Qed.

Lemma root_in_U t : t ∈ U -> root_of T t ∈ U.
Proof using Hgt. intros Ht. unfold root_of. destruct (t_view_src (T t)) as [r|] eqn:E; [|done]. by apply (gt_view _ _ _ Hgt t). Qed.

Lemma born_in_U i t : born_at T graph i t -> t ∈ U.
Proof using Hgt.
  intros Hb%born_ts. apply ts_elem in Hb as [?|?]; [by apply (gt_leafs _ _ _ Hgt)|by apply (gt_nodes _ _ _ Hgt)].
Qed.

(** With the places [pl] the computation in shared memory gives the same as the one in
    which every tensor has memory of its own, for every node and for the outputs. *)
Definition computes_apart (ids : list Z) (pl : Z -> Z * Z) : Prop :=
  forall (m : machine (V := V)) st,
    (forall r, t_view_src (T r) = None -> (placed T r = true -> born_at T graph 0 r /\ need_at T graph 0 r) ->
       read_root T ids nbytes pl m r = st r) ->
    let shared := shared_at T graph ids nbytes kern pl m in
    let apart := apart_at T graph kern st in
    (forall i node, cg_nodes graph !! i = Some node -> t_op (T node) <> GGML_OP_NONE ->
       compute T kern (read_root T ids nbytes pl (shared i)) node = compute T kern (apart i) node) /\
    (forall t, t ∈ cg_leafs graph \/ t ∈ cg_nodes graph -> t_view_src (T t) = None -> is_output (T t) = true ->
       read_root T ids nbytes pl (shared (length (cg_nodes graph))) t = apart (length (cg_nodes graph)) t).

Lemma plan_computes p pl :
  plan_graph T (ga_bufts g) (ga_buf_tallocs g) (ga_tallocs g) graph node_ids leaf_ids = Ok p ->
  (forall t, t ∈ U -> pl t = place p t) -> computes_apart (ga_buf_tallocs g) pl.
Proof using Hgt Hpl Hbytes Hkern.
  intros Ep Hplace m st Hinit. cbv zeta. destruct Hpl as [P1 P2 P3 P4 P5 P6].
  destruct (plan_safe T (ga_bufts g) (ga_buf_tallocs g) graph _ (alignments (ga_tallocs g)) P2 P3 P1 node_ids leaf_ids P4 P5 (ga_tallocs g) p P6 (aligned_alignments _) Ep) as [Iend Hsafe].
  assert (Hrun : forall i, (i <= length (cg_nodes graph))%nat -> agree T graph (ga_buf_tallocs g) nbytes pl i
      (shared_at T graph (ga_buf_tallocs g) nbytes kern pl m i) (apart_at T graph kern st i)).
  { apply (run_agree T graph (ga_bufts g) (ga_buf_tallocs g) nbytes kern pl P1 Hbytes Hkern m st); [| |exact Hinit].
    - intros j Hj node u Hn Hop Hw Hne Hu Hb Hnd. rewrite !Hplace; [by apply (Hsafe j Hj)|by apply (born_in_U (S j))|].
      apply root_in_U, (gt_nodes _ _ _ Hgt). by eapply list_elem_of_lookup_2.
    - intros r Hr Hb. rewrite Hplace by by eapply born_in_U. destruct (iv_fit _ _ _ _ _ _ _ _ _ _ _ Iend r Hr Hb) as (a & b & alloc & _ & Eb & _). by exists b. }
  split.
  - intros i node Hn Hop. apply (reads_agree T graph (ga_buf_tallocs g) nbytes kern _ P1 i); [|done|done]. apply Hrun. apply lookup_lt_Some in Hn. lia.
  - intros t Ht Hv Ho. apply (Hrun (length (cg_nodes graph)) ltac:(lia)); [done|]. intros Hp. split; [|by left].
    destruct Ht as [Ht|Ht]; [by left|right; right]. by rewrite firstn_all.
Qed.

Lemma shared_memory_ok :
  post (ggml_gallocr_alloc_graph_impl T g graph node_ids leaf_ids)
    (fun g' => computes_apart (ga_buf_tallocs g) (planned_place g')) (fun e => e = Abort).
Proof using Hgt Hok Hroom Hpl Hbytes Hkern.
  eapply post_mono; [exact plan_places| |done]. intros g' (p & Ep & _ & Hplace & _). by apply (plan_computes p).
Qed.
End graph.

(** C5. Sharing memory does not change what a graph computes. For every well-formed graph the
    allocator returns a plan or aborts, and with its plan the computation in the memory of
    the buffers, where a tensor may take the place of a source or of a tensor that is not
    needed any more, computes for every node the same as a computation in which every
    tensor has memory of its own; at the end the outputs are in their places. Both start
    with the same leafs and inputs. *)
Theorem plan_preserves_computation `{BufferTypes} {V} T graph U g node_ids leaf_ids nbytes (kern : Z -> list (option (list V)) -> option (list V) -> list V) :
  graph_tensors T graph U -> hash_ok (ga_hash_set g) -> Z.of_nat (size U) <= hs_size (ga_hash_set g) ->
  planning T graph (ga_bufts g) (ga_buf_tallocs g) (ga_tallocs g) node_ids leaf_ids ->
  (forall t b, t ∈ ts graph -> 0 <= nbytes t <= buft_get_alloc_size b (T t)) ->
  (forall t xs old, zlen (kern t xs old) = nbytes (root_of T t)) ->
  post (ggml_gallocr_alloc_graph_impl T g graph node_ids leaf_ids)
    (fun g' => forall (m : machine (V := V)) st,
       (forall r, t_view_src (T r) = None -> (placed T r = true -> born_at T graph 0 r /\ need_at T graph 0 r) ->
          read_root T (ga_buf_tallocs g) nbytes (planned_place g') m r = st r) ->
       let shared := shared_at T graph (ga_buf_tallocs g) nbytes kern (planned_place g') m in
       let apart := apart_at T graph kern st in
       (forall i node, cg_nodes graph !! i = Some node -> t_op (T node) <> GGML_OP_NONE ->
          compute T kern (read_root T (ga_buf_tallocs g) nbytes (planned_place g') (shared i)) node = compute T kern (apart i) node) /\
       (forall t, t ∈ cg_leafs graph \/ t ∈ cg_nodes graph -> t_view_src (T t) = None -> is_output (T t) = true ->
          read_root T (ga_buf_tallocs g) nbytes (planned_place g') (shared (length (cg_nodes graph))) t = apart (length (cg_nodes graph)) t))
    (fun e => e = Abort).
Proof. intros. by apply (shared_memory_ok T graph U). Qed.

(** * An example *)

Module GraphExample.

Definition four_bytes : BufferTypes := {|
  iface_get_alignment := fun _ => 32; iface_get_max_size := fun _ => None;
  iface_get_alloc_size := fun _ => Some (fun _ => 4); iface_alloc_buffer := fun _ _ size => if size <=? 2 ^ 40 then Some (4096, size) else None |}.

Definition demo_tensor (op : ggml_op) (flags : Z) (srcs : list Z) (view data : option Z) : ggml_tensor :=
  {| t_type := 0; t_buffer := None; t_ne := [1; 1; 1; 1]; t_nb := [4; 4; 4; 4]; t_op := op; t_flags := flags;
     t_src := src_array srcs; t_view_src := view; t_view_offs := 0; t_data := data; t_name := [] |}.

(** An input [16], weights [32] that have data, their product [48], a view [64] of it, its
    sum [80] with the input, which takes the place of the input, and the output [96]. *)
Definition demo_heap : heap := fun t =>
  if t =? 16 then demo_tensor GGML_OP_NONE 1 [] None None
  else if t =? 32 then demo_tensor GGML_OP_NONE 0 [] None (Some 999)
  else if t =? 48 then demo_tensor GGML_OP_MUL 0 [16; 32] None None
  else if t =? 64 then demo_tensor GGML_OP_RESHAPE 0 [48] (Some 48) None
  else if t =? 80 then demo_tensor GGML_OP_ADD 0 [64; 16] None None
  else if t =? 96 then demo_tensor GGML_OP_SCALE 2 [80] None None
  else demo_tensor GGML_OP_NONE 0 [] None (Some 0).

(** A graph with the table of the visited tensors left empty. *)
Definition plain_graph (nodes leafs : list Z) : ggml_cgraph := {|
  cg_size := 16; cg_nodes := nodes; cg_leafs := leafs;
  cg_visited := {| hs_size := 0; hs_used := []; hs_keys := [] |}; cg_order := GGML_CGRAPH_EVAL_ORDER_LEFT_TO_RIGHT |}.

Definition demo_graph : ggml_cgraph := plain_graph [48; 64; 80; 96] [16; 32].

Definition demo_gallocr : ggml_gallocr := {|
  ga_bufts := [7]; ga_buffers := [None]; ga_buf_tallocs := [0]; ga_tallocs := [ggml_dyn_tallocr_new 32];
  ga_hash_set := {| hs_size := 11; hs_used := replicate (Z.to_nat (ggml_bitset_size 11)) 0; hs_keys := replicate 11 None |};
  ga_hash_values := []; ga_node_allocs := []; ga_leaf_allocs := [] |}.

Definition demo_tensors : gset Z := {[16; 32; 48; 64; 80; 96]}.

Ltac demo_case := repeat match goal with
  | H : _ ∈ {[_; _; _; _; _; _]} |- _ => unfold demo_tensors in H; rewrite !elem_of_union, !elem_of_singleton in H
  | H : _ \/ _ |- _ => destruct H as [H|H]
  | H : _ ∈ src_array _ |- _ => apply src_array_elem in H
  | H : _ ∈ _ :: _ |- _ => apply elem_of_cons in H as [H|H]
  | H : _ ∈ [] |- _ => by apply elem_of_nil in H
  | H : _ = _ :> Z |- _ => subst
  | H : Some _ = Some _ |- _ => injection H as H
  end.

Lemma demo_nodes_cases i t : cg_nodes demo_graph !! i = Some t ->
  (i = 0%nat /\ t = 48) \/ (i = 1%nat /\ t = 64) \/ (i = 2%nat /\ t = 80) \/ (i = 3%nat /\ t = 96).
Proof. destruct i as [|[|[|[|i]]]]; cbn; intros [= <-]; auto. Qed.

Lemma demo_graph_tensors : graph_tensors demo_heap demo_graph demo_tensors.
Proof.
  constructor.
  - intros t Ht. cbn in Ht. unfold demo_tensors. demo_case; set_solver.
  - intros t Ht. cbn in Ht. unfold demo_tensors. demo_case; set_solver.
  - intros t s Ht Hs. unfold demo_tensors in *. demo_case; cbn in Hs; demo_case; set_solver.
  - intros t s Ht Hs. unfold demo_tensors in *. demo_case; cbn in Hs; try discriminate; demo_case; set_solver.
Qed.

Lemma demo_graph_ok : graph_ok demo_heap demo_graph.
Proof.
  constructor.
  - apply (bool_decide_unpack _). vm_compute. exact I.
  - intros t Ht Hl. cbn in Ht, Hl. demo_case; lia.
  - intros t Ht. cbn in Ht. demo_case; reflexivity.
  - intros t Ht Hi. cbn in Ht. demo_case; vm_compute in Hi; discriminate Hi.
  - intros t Ht Hp Ho. cbn in Ht. demo_case; discriminate Ho.
  - intros i t s Hn Hs. apply demo_nodes_cases in Hn as [[-> ->]|[[-> ->]|[[-> ->]|[-> ->]]]]; cbn in Hs; demo_case.
    + left. cbn. set_solver.
    + left. cbn. set_solver.
    + right. exists 0%nat. split; [lia|done].
    + right. exists 1%nat. split; [lia|done].
    + left. cbn. set_solver.
    + right. exists 2%nat. split; [lia|done].
  - intros v r Hv Hr. cbn in Hv. demo_case; cbn in Hr; try discriminate Hr. by injection Hr as <-.
  - intros i v r Hn Hr _. apply demo_nodes_cases in Hn as [[-> ->]|[[-> ->]|[[-> ->]|[-> ->]]]]; cbn in Hr; try discriminate Hr.
    injection Hr as <-. right. exists 0%nat. split; [lia|done].
  - intros i t s r Hn Hs Hr _. apply demo_nodes_cases in Hn as [[-> ->]|[[-> ->]|[[-> ->]|[-> ->]]]]; cbn in Hs; demo_case; cbn in Hr; try discriminate Hr.
    split; [cbn; set_solver|done].
Qed.

Lemma demo_planning : @planning four_bytes demo_heap demo_graph [7] [0] [ggml_dyn_tallocr_new 32] None None.
Proof.
  assert (Hid : valid_id [7] [0] (zlen [ggml_dyn_tallocr_new 32]) 0) by (split; [lia|]; by exists 0, 7).
  constructor.
  - exact demo_graph_ok.
  - intros b t _. cbn. lia.
  - done.
  - intros i t _. by exists 0.
  - intros i t _. by exists 0.
  - split; [done|]. intros a alloc Ha. exists 32. split; [split; [lia|]; discriminate|]. split; [by exists 16|].
    pose proof (zlookup_Some_lt _ _ _ Ha) as Hr. change (zlen [ggml_dyn_tallocr_new 32]) with 1 in Hr. replace a with 0 in Ha by lia. by injection Ha as <-.
Qed.

(** Contents are four numbers; a node adds up what it reads. *)
Definition demo_kern (t : Z) (xs : list (option (list Z))) (old : option (list Z)) : list Z :=
  (fun k => t + zsum ((fun x => match x with Some l => default 0 (zlookup l k) | None => 0 end) <$> old :: xs)) <$> zseq 0 4.

Definition demo_machine : machine (V := Z) := {| m_mem := fun _ o => o; m_ext := fun _ => [5; 6; 7; 8] |}.

Lemma demo_hash_ok : hash_ok (ga_hash_set demo_gallocr).
Proof. apply (zeros_ok 11 (replicate 11 None)); [unfold SIZE_MAX; lia|done]. Qed.

(** An output [64] that is a view, and has a reader. *)
Definition view_heap : heap := fun t =>
  if t =? 16 then demo_tensor GGML_OP_NONE 1 [] None None
  else if t =? 48 then demo_tensor GGML_OP_SIN 0 [16] None None
  else if t =? 64 then demo_tensor GGML_OP_RESHAPE 2 [48] (Some 48) None
  else if t =? 80 then demo_tensor GGML_OP_SIN 0 [64] None None
  else if t =? 96 then demo_tensor GGML_OP_SIN 2 [80] None None
  else demo_tensor GGML_OP_NONE 0 [] None (Some 0).

Definition view_graph : ggml_cgraph := plain_graph [48; 64; 80; 96] [16].
End GraphExample.

(** The comment says that graph outputs are never freed. An output that is a view has no
    place of its own, and the tensor it is a view of is freed with the last reader of the
    view: here the last node is put into the memory of the output [64]. *)
Lemma output_view_is_overwritten :
  (g ← @ggml_gallocr_alloc_graph_impl GraphExample.four_bytes GraphExample.view_heap GraphExample.demo_gallocr GraphExample.view_graph None None;
   Ok (bool_decide (planned_place g 96 = planned_place g 48))) = Ok true /\
  has_flag (GraphExample.view_heap 64) GGML_TENSOR_FLAG_OUTPUT = true /\ t_view_src (GraphExample.view_heap 64) = Some 48.
Proof. vm_compute. done. Qed.

Lemma plan_preserves_computation_witness :
  exists g', @ggml_gallocr_alloc_graph_impl GraphExample.four_bytes GraphExample.demo_heap GraphExample.demo_gallocr GraphExample.demo_graph None None = Ok g' /\
    planned_place g' 96 = planned_place g' 16 /\
    read_root GraphExample.demo_heap [0] (fun _ => 4) (planned_place g')
      (shared_at GraphExample.demo_heap GraphExample.demo_graph [0] (fun _ => 4) GraphExample.demo_kern (planned_place g') GraphExample.demo_machine 4) 96 =
      [346; 351; 356; 361].
Proof.
  pose proof (@plan_preserves_computation GraphExample.four_bytes Z GraphExample.demo_heap GraphExample.demo_graph GraphExample.demo_tensors
    GraphExample.demo_gallocr None None (fun _ => 4) GraphExample.demo_kern GraphExample.demo_graph_tensors GraphExample.demo_hash_ok
    ltac:(apply (bool_decide_unpack _); vm_compute; exact I) GraphExample.demo_planning ltac:(intros; cbn; lia) ltac:(intros; reflexivity)) as P.
  destruct (ggml_gallocr_alloc_graph_impl _ _ _ _ _) as [g'|e] eqn:E; [|exfalso; vm_compute in E; discriminate E].
  cbn [post] in P. exists g'. split; [reflexivity|].
  destruct (P GraphExample.demo_machine _ (fun r _ _ => eq_refl)) as [_ Hout]. clear P.
  vm_compute in E. injection E as <-. split; [vm_compute; reflexivity|].
  etransitivity; [exact (Hout 96 ltac:(right; cbn; set_solver) eq_refl eq_refl)|vm_compute; reflexivity].
Defined.

Lemma gallocr_implements_planner_witness :
  exists g' p, @ggml_gallocr_alloc_graph_impl GraphExample.four_bytes GraphExample.demo_heap GraphExample.demo_gallocr GraphExample.demo_graph None None = Ok g' /\
    @plan_graph GraphExample.four_bytes GraphExample.demo_heap [7] [0] [ggml_dyn_tallocr_new 32] GraphExample.demo_graph None None = Ok p /\
    entry_of g' 96 = Ok (p_hn p 96).
Proof.
  pose proof (@gallocr_implements_planner GraphExample.four_bytes GraphExample.demo_heap GraphExample.demo_graph GraphExample.demo_tensors
    GraphExample.demo_gallocr None None GraphExample.demo_graph_tensors GraphExample.demo_hash_ok
    ltac:(apply (bool_decide_unpack _); vm_compute; exact I)) as P.
  destruct (ggml_gallocr_alloc_graph_impl _ _ _ _ _) as [g'|e] eqn:E; [|exfalso; vm_compute in E; discriminate E].
  destruct (plan_graph _ _ _ _ _ _ _) as [p|e] eqn:Ep; [|destruct P].
  exists g', p. split; [reflexivity|]. split; [reflexivity|]. apply (proj2 P 96). unfold GraphExample.demo_tensors. set_solver.
Defined.
