(* ===== verification/GallocBuffers.v ===== *)
(** The buffers of the graph allocator ([ggml/src/ggml-alloc.c]): making an allocator,
    reserving the buffers that the plan of a graph needs, and giving the tensors of a
    graph their addresses. *)
From S2P Require Import Prelude HashSet Alloc Tensor Buffers Gallocr.

Section gallocr.
Context `{BufferTypes}.

(** ** Making and freeing *)

(** The first index below [i] with the value [x], for the loops that look for an earlier
    use of the same thing. *)
Fixpoint find_below {A} `{EqDecision A} (x : A) (n : nat) (l : list A) : option nat :=
  match n, l with
  | S n, y :: l => if decide (y = x) then Some 0%nat else S <$> find_below x n l
  | _, _ => None
  end.

(** One buffer type: it shares the allocator of an earlier one of the same type. *)
Definition new_talloc (bufts : list Z) (st : list Z * list ggml_dyn_tallocr) (i : nat) : res (list Z * list ggml_dyn_tallocr) :=
  buft ← vget bufts (Z.of_nat i);
  match find_below buft i bufts with
  | Some j => a ← vget st.1 (Z.of_nat j); Ok (st.1 ++ [a], st.2)
  | None => Ok (st.1 ++ [zlen st.2], st.2 ++ [ggml_dyn_tallocr_new (buft_get_alignment buft)])
  end.

Definition ggml_gallocr_new_n (bufts : list Z) : res ggml_gallocr :=
  '(ids, tallocs) ← foldM (new_talloc bufts) ([], []) (seq 0 (length bufts));
  Ok {| ga_bufts := bufts; ga_buffers := replicate (length bufts) None; ga_buf_tallocs := ids; ga_tallocs := tallocs;
        ga_hash_set := {| hs_size := 0; hs_used := []; hs_keys := [] |}; ga_hash_values := [];
        ga_node_allocs := []; ga_leaf_allocs := [] |}.

Definition ggml_gallocr_new (buft : Z) : res ggml_gallocr := ggml_gallocr_new_n [buft].

(** What [ggml_gallocr_free] does to the buffers; the rest of the allocator is memory of
    its own. *)
Definition free_buffer_at (g : ggml_gallocr) (s : store) (i : nat) : res store :=
  b ← vget (ga_buffers g) (Z.of_nat i);
  match find_below b i (ga_buffers g) with
  | Some _ => Ok s
  | None => buffer_free s b
  end.

Definition ggml_gallocr_free (s : store) (g : ggml_gallocr) : res store :=
  foldM (free_buffer_at g) s (seq 0 (length (ga_buffers g))).

(** ** Reserving *)

(** A table of sufficient size; its values are cleared before they are used. *)
Definition size_table (g : ggml_gallocr) (graph : ggml_cgraph) : res ggml_gallocr :=
  n ← s32 (n_nodes graph + n_leafs graph);
  let min_hash_size := u64 (u64 n + u64 n / 4) in
  if hs_size (ga_hash_set g) <? min_hash_size then
    hs ← ggml_hash_set_new min_hash_size;
    Ok (with_hash_values (with_hash_set g hs) [])
  else Ok g.

Definition reset_talloc (g : ggml_gallocr) (i : nat) : res ggml_gallocr :=
  '(a, alloc) ← talloc_of g (Z.of_nat i);
  tallocs ← vset (ga_tallocs g) a (ggml_dyn_tallocr_reset alloc);
  Ok (with_tallocs g tallocs).

Definition no_alloc : tensor_alloc := {| ta_buffer_id := -1; ta_offset := SIZE_MAX; ta_size_max := 0 |}.

(** Tensors that get no place. *)
Definition has_place (x : ggml_tensor) : bool := bool_decide (is_Some (t_view_src x)) || bool_decide (is_Some (t_data x)).

(** What the table says about a tensor. *)
Definition recorded (T : heap) (g : ggml_gallocr) (t : Z) (h : hash_node) : res tensor_alloc :=
  buft ← vget (ga_bufts g) (hn_buffer_id h);
  Ok {| ta_buffer_id := hn_buffer_id h; ta_offset := hn_offset h; ta_size_max := buft_get_alloc_size buft (T t) |}.

Definition record_tensor (T : heap) (g : ggml_gallocr) (t : Z) : res (ggml_gallocr * tensor_alloc) :=
  if has_place (T t) then Ok (g, no_alloc)
  else
    '(g, i) ← ggml_gallocr_hash_get g t;
    h ← hn_get g i;
    a ← recorded T g t h;
    Ok (g, a).

Definition record_src (T : heap) (st : ggml_gallocr * list tensor_alloc) (src : option Z) : res (ggml_gallocr * list tensor_alloc) :=
  match src with
  | None => Ok (st.1, st.2 ++ [no_alloc])
  | Some t => '(g, a) ← record_tensor T st.1 t; Ok (g, st.2 ++ [a])
  end.

Definition record_node (T : heap) (st : ggml_gallocr * list node_alloc) (node : Z) : res (ggml_gallocr * list node_alloc) :=
  '(g, dst) ← record_tensor T st.1 node;
  '(g, srcs) ← foldM (record_src T) (g, []) (t_src (T node));
  Ok (g, st.2 ++ [{| na_dst := dst; na_src := srcs |}]).

(** The table is asked for a leaf even if it has a place. *)
Definition record_leaf (T : heap) (st : ggml_gallocr * list tensor_alloc) (leaf : Z) : res (ggml_gallocr * list tensor_alloc) :=
  '(g, i) ← ggml_gallocr_hash_get st.1 leaf;
  h ← hn_get g i;
  if has_place (T leaf) then Ok (g, st.2 ++ [no_alloc])
  else a ← recorded T g leaf h; Ok (g, st.2 ++ [a]).

(** A buffer that is used by an earlier id as well is that one. *)
Definition share_buffer (g : ggml_gallocr) (i : nat) : res ggml_gallocr :=
  a ← vget (ga_buf_tallocs g) (Z.of_nat i);
  match find_below a i (ga_buf_tallocs g) with
  | Some j =>
      b ← vget (ga_buffers g) (Z.of_nat j);
      bs ← vset (ga_buffers g) (Z.of_nat i) b;
      Ok (with_buffers g bs)
  | None => Ok g
  end.

Definition current_size (s : store) (b : option Z) : res Z :=
  match b with Some b => buffer_get_size s b | None => Ok 0 end.

(** One buffer: it is made anew when it is too small. The last result tells whether the
    memory was there. *)
Definition realloc_buffer (s : store) (g : ggml_gallocr) (i : nat) : res (store * ggml_gallocr * bool) :=
  g ← share_buffer g i;
  b ← vget (ga_buffers g) (Z.of_nat i);
  cur_size ← current_size s b;
  '(_, alloc) ← talloc_of g (Z.of_nat i);
  let new_size := ggml_dyn_tallocr_max_size alloc in
  if (cur_size <? new_size) || bool_decide (b = None) then
    s ← buffer_free s b;
    buft ← vget (ga_bufts g) (Z.of_nat i);
    let '(s, b) := buft_alloc_buffer s buft new_size in
    bs ← vset (ga_buffers g) (Z.of_nat i) b;
    let g := with_buffers g bs in
    match b with
    | None => Ok (s, g, false)
    | Some b => s ← buffer_set_usage s b GGML_BACKEND_BUFFER_USAGE_COMPUTE; Ok (s, g, true)
    end
  else Ok (s, g, true).

Fixpoint realloc_buffers (s : store) (g : ggml_gallocr) (ids : list nat) : res (store * ggml_gallocr * bool) :=
  match ids with
  | [] => Ok (s, g, true)
  | i :: ids =>
      '(s, g, ok) ← realloc_buffer s g i;
      if (ok : bool) then realloc_buffers s g ids else Ok (s, g, false)
  end.

(** The [n_nodes] and [n_leafs] of the allocator are the lengths of the lists. *)
Definition ggml_gallocr_reserve_n (s : store) (g : ggml_gallocr) (graph : ggml_cgraph) (node_buffer_ids leaf_buffer_ids : option (list Z)) : res (store * ggml_gallocr * bool) :=
  let T := st_heap s in
  g ← size_table g graph;
  g ← foldM reset_talloc g (seq 0 (length (ga_bufts g)));
  g ← ggml_gallocr_alloc_graph_impl T g graph node_buffer_ids leaf_buffer_ids;
  '(g, nodes) ← foldM (record_node T) (g, []) (cg_nodes graph);
  '(g, leafs) ← foldM (record_leaf T) (g, []) (cg_leafs graph);
  realloc_buffers s (with_allocs g nodes leafs) (seq 0 (length (ga_bufts g))).

Definition ggml_gallocr_reserve (s : store) (g : ggml_gallocr) (graph : ggml_cgraph) : res (store * ggml_gallocr * bool) :=
  ggml_gallocr_reserve_n s g graph None None.

(** ** Allocating a graph *)

Definition ggml_gallocr_init_tensor (g : ggml_gallocr) (s : store) (tensor : Z) (a : tensor_alloc) : res store :=
  let x := st_heap s tensor in
  match t_view_src x with
  | Some view_src =>
      match t_buffer x, t_buffer (st_heap s view_src) with
      | None, Some _ => ggml_backend_view_init s tensor
      | _, _ => Ok s
      end
  | None =>
      match t_data x with
      | None =>
          b ← vget (ga_buffers g) (ta_buffer_id a);
          b ← or_ub b;
          base ← buffer_get_base s b;
          ggml_backend_tensor_alloc s b tensor (u64 (base + ta_offset a))
      | Some _ => Ok s
      end
  end.

(** The answer is whether the old place is good enough. *)
Definition ggml_gallocr_node_needs_realloc (T : heap) (g : ggml_gallocr) (node : Z) (a : tensor_alloc) : res bool :=
  if negb (has_place (T node)) then
    _ ← ggml_assert (0 <=? ta_buffer_id a);
    buft ← vget (ga_bufts g) (ta_buffer_id a);
    Ok (buft_get_alloc_size buft (T node) <=? ta_size_max a)
  else Ok (0 <=? ta_size_max a).

(** Whether all sources still fit; the array of places has one for every source. *)
Fixpoint srcs_fit (T : heap) (g : ggml_gallocr) (srcs : list (option Z)) (places : list tensor_alloc) : res bool :=
  match srcs with
  | [] => Ok true
  | src :: srcs =>
      a ← vget places 0;
      ok ← match src with Some t => ggml_gallocr_node_needs_realloc T g t a | None => Ok true end;
      if (ok : bool) then srcs_fit T g srcs (tail places) else Ok false
  end.

Fixpoint nodes_fit (T : heap) (g : ggml_gallocr) (nodes : list Z) (places : list node_alloc) : res bool :=
  match nodes with
  | [] => Ok true
  | node :: nodes =>
      a ← vget places 0;
      ok ← ggml_gallocr_node_needs_realloc T g node (na_dst a);
      if (ok : bool) then
        ok ← srcs_fit T g (t_src (T node)) (na_src a);
        if (ok : bool) then nodes_fit T g nodes (tail places) else Ok false
      else Ok false
  end.

Definition ggml_gallocr_needs_realloc (T : heap) (g : ggml_gallocr) (graph : ggml_cgraph) : res bool :=
  if negb (zlen (ga_node_allocs g) =? n_nodes graph) then Ok true
  else if negb (zlen (ga_leaf_allocs g) =? n_leafs graph) then Ok true
  else fit ← nodes_fit T g (cg_nodes graph) (ga_node_allocs g); Ok (negb fit).

Definition init_leaf (g : ggml_gallocr) (s : store) (la : Z * tensor_alloc) : res store :=
  ggml_gallocr_init_tensor g s la.1 la.2.

Definition init_src (g : ggml_gallocr) (s : store) (sa : option Z * tensor_alloc) : res store :=
  match sa.1 with Some src => ggml_gallocr_init_tensor g s src sa.2 | None => Ok s end.

Definition init_node (g : ggml_gallocr) (s : store) (na : Z * node_alloc) : res store :=
  s ← foldM (init_src g) s (zip (t_src (st_heap s na.1)) (na_src na.2));
  ggml_gallocr_init_tensor g s na.1 (na_dst na.2).

(** The buffers are reset, which is a callback of the backend. *)
Definition reset_buffer (s : store) (b : option Z) : res store :=
  match b with Some b => _ ← buf_get s b; Ok s | None => Ok s end.

Definition init_graph (s : store) (g : ggml_gallocr) (graph : ggml_cgraph) : res store :=
  s ← foldM reset_buffer s (ga_buffers g);
  s ← foldM (init_leaf g) s (zip (cg_leafs graph) (ga_leaf_allocs g));
  foldM (init_node g) s (zip (cg_nodes graph) (ga_node_allocs g)).

Definition ggml_gallocr_alloc_graph (s : store) (g : ggml_gallocr) (graph : ggml_cgraph) : res (store * ggml_gallocr * bool) :=
  needs ← ggml_gallocr_needs_realloc (st_heap s) g graph;
  '(s, g, ok) ← if (needs : bool) then
                  if zlen (ga_bufts g) =? 1 then ggml_gallocr_reserve s g graph else Ok (s, g, false)
                else Ok (s, g, true);
  if (ok : bool) then s ← init_graph s g graph; Ok (s, g, true) else Ok (s, g, false).

Definition ggml_gallocr_get_buffer_size (s : store) (g : ggml_gallocr) (buffer_id : Z) : res Z :=
  _ ← ggml_assert ((0 <=? buffer_id) && (buffer_id <? zlen (ga_buffers g)));
  b ← vget (ga_buffers g) buffer_id;
  match b with
  | None => Ok 0
  | Some x =>
      match find_below b (Z.to_nat buffer_id) (ga_buffers g) with
      | Some _ => Ok 0
      | None => buffer_get_size s x
      end
  end.
End gallocr.
