(* ===== verification/GallocReserve.v ===== *)
(** Reserving the buffers of a graph: the records of the graph allocator are the plan, and
    every buffer is alive and large enough for the tensors that were planned in it. *)
From S2P Require Import Prelude HashSet Alloc AllocSpec Tensor Buffers Gallocr GallocSpec GallocSafety GallocExec GallocBuffers.

(** * Buffers *)

(** What is assumed of the backends: memory that is given out is not at the null address,
    is as large as asked for and aligned for its type, and does not wrap around the address
    space. *)
Class SaneBackends `{BufferTypes} : Prop :=
  sane_alloc : forall w buft size base sz, 0 < size -> iface_alloc_buffer w buft size = Some (base, sz) ->
    0 < base /\ size <= sz /\ base + sz <= SIZE_MAX /\ (iface_get_alignment buft | base).

(** A buffer of a type, from a single request. *)
Record buffer_fine `{BufferTypes} (x : backend_buffer) (buft : Z) : Prop := {
  bf_type  : buf_type x = buft;
  bf_parts : buf_parts x = [];
  bf_size  : 0 <= buf_size x /\ 0 <= buf_base x /\ buf_base x + buf_size x <= SIZE_MAX;
  bf_base  : buf_size x = 0 \/ 0 < buf_base x;
  bf_align : (buft_get_alignment buft | buf_base x)
}.

(** Nothing changes but the buffer [b]. *)
Definition only_buffer (s s' : store) (b : Z) : Prop :=
  st_heap s' = st_heap s /\ forall c, c <> b -> buf_get s' c = buf_get s c.

Lemma buf_get_range s b x : buf_get s b = Ok x -> 0 <= b < zlen (st_bufs s).
Proof. unfold buf_get. intros (y & Hy & _)%res_bind_ok. by apply vget_ok, zlookup_Some_lt in Hy. Qed.

Lemma buf_update_ok s b x f : buf_get s b = Ok x ->
  exists s', buf_update s b f = Ok s' /\ only_buffer s s' b /\ vget (st_bufs s') b = Ok (f x).
Proof.
  intros Hb. pose proof (buf_get_range _ _ _ Hb) as Hr. unfold buf_update. rewrite Hb. cbn [mbind res_bind].
  rewrite vset_at by done. cbn [mbind res_bind]. eexists. split; [reflexivity|]. split; [split; [done|]|].
  - intros c Hc. unfold buf_get, vget, with_bufs. cbn [st_bufs]. rewrite zlookup_insert_ne by (lia || congruence). done.
  - apply vget_Some. cbn [st_bufs with_bufs]. by apply zlookup_insert_eq.
Qed.

Lemma only_buffer_live s s' b c x : only_buffer s s' b -> c <> b -> buf_get s c = Ok x -> buf_get s' c = Ok x.
Proof. intros [_ Ho] Hc. by rewrite Ho. Qed.

Lemma free_ok s b x : buf_get s b = Ok x -> buf_parts x = [] -> exists s', buffer_free s (Some b) = Ok s' /\ only_buffer s s' b /\ st_requests s' = st_requests s.
Proof.
  intros Hb Hp. destruct (buf_update_ok s b x freed_buffer Hb) as (s' & E & Ho & _). exists s'. unfold buffer_free. rewrite Hb. cbn [mbind res_bind]. rewrite Hp.
  cbn [foldM mbind res_bind]. rewrite E. split; [done|]. split; [done|]. unfold buf_update in E. rewrite Hb in E. cbn [mbind res_bind] in E.
  apply res_bind_ok in E as (bs & _ & [= <-]). done.
Qed.

Lemma set_usage_ok s b x u : buf_get s b = Ok x -> buf_parts x = [] ->
  exists s', buffer_set_usage s b u = Ok s' /\ only_buffer s s' b /\ buf_get s' b = Ok (used_for u x).
Proof.
  intros Hb Hp. destruct (buf_update_ok s b x (used_for u) Hb) as (s' & E & Ho & Hx). exists s'.
  assert (Hb' : buf_get s' b = Ok (used_for u x)).
  { unfold buf_get. rewrite Hx. cbn. unfold buf_get in Hb. apply res_bind_ok in Hb as (y & _ & Hy). destruct (buf_freed y) eqn:Ey; [done|]. injection Hy as <-. by rewrite Ey. }
  unfold buffer_set_usage. rewrite E. cbn [mbind res_bind]. rewrite Hb'. cbn [mbind res_bind]. cbn [used_for buf_parts]. rewrite Hp. done.
Qed.

Lemma buffer_init_ok s buft base size parts :
  let r := buffer_init s buft base size parts in
  st_heap r.1 = st_heap s /\ (forall b x, buf_get s b = Ok x -> buf_get r.1 b = Ok x) /\ r.2 = zlen (st_bufs s) /\
  buf_get r.1 r.2 = Ok {| buf_type := buft; buf_base := base; buf_size := size; buf_usage := GGML_BACKEND_BUFFER_USAGE_ANY; buf_parts := parts; buf_freed := false |}.
Proof.
  cbn. splits; [done| |done|].
  - intros b x. unfold buf_get. intros (y & Hy & Hx)%res_bind_ok. apply vget_ok in Hy. cbn [st_bufs with_bufs]. by rewrite (vget_Some _ b y (zlookup_app_l_Some _ _ _ _ Hy)).
  - unfold buf_get. cbn [st_bufs with_bufs]. rewrite (vget_Some _ _ _ (zlookup_app_len _ _)). done.
Qed.

Section alloc_buffer.
Context {BT : BufferTypes} {SB : SaneBackends}.

Lemma alloc_buffer_ok s buft size : 0 <= size ->
  let r := buft_alloc_buffer s buft size in
  st_heap r.1 = st_heap s /\ (forall b x, buf_get s b = Ok x -> buf_get r.1 b = Ok x) /\
  match r.2 with
  | Some b => b = zlen (st_bufs s) /\ exists x, buf_get r.1 b = Ok x /\ buffer_fine x buft /\ size <= buf_size x
  | None => True
  end.
Proof.
  intros Hs. cbv zeta. unfold buft_alloc_buffer. destruct (Z.eqb_spec size 0) as [->|Hne].
  - destruct (buffer_init_ok s buft 0 0 []) as (H1 & H2 & H3 & H4). destruct (buffer_init s buft 0 0 []) as [s' b]. cbn [fst snd] in *.
    splits; [done|done|done|]. eexists. split; [exact H4|]. split; [|cbn; lia]. constructor; cbn; unfold SIZE_MAX; [done|done|lia|by left|apply Z.divide_0_r].
  - destruct (iface_alloc_buffer (st_requests s) buft size) as [[base sz]|] eqn:E; [|by splits].
    destruct (sane_alloc _ _ _ _ _ (ltac:(lia) : 0 < size) E) as (Hb & Hsz & Hend & Hal).
    set (s1 := {| st_heap := st_heap s; st_bufs := st_bufs s; st_requests := S (st_requests s) |}).
    destruct (buffer_init_ok s1 buft base sz []) as (H1 & H2 & H3 & H4). destruct (buffer_init s1 buft base sz []) as [s' b]. cbn [fst snd] in *.
    splits; [done| |done|].
    + intros c x Hc. by apply H2.
    + eexists. split; [exact H4|]. split; [|done]. constructor; cbn; [done|done|lia|by right|done].
Qed.
End alloc_buffer.

(** * Reallocating the buffers *)

Lemma find_below_Some {A} `{EqDecision A} (x : A) n l j : find_below x n l = Some j -> (j < n)%nat /\ l !! j = Some x.
Proof.
  revert l j. induction n as [|n IH]; intros [|y l] j; cbn; try done. case_decide as E; [intros [= <-]; subst; split; [lia|done]|].
  destruct (find_below x n l) as [k|] eqn:Ek; [|done]. intros [= <-]. destruct (IH _ _ Ek). split; [lia|done].
Qed.

Lemma find_below_None {A} `{EqDecision A} (x : A) n l : find_below x n l = None -> x ∉ take n l.
Proof.
  revert l. induction n as [|n IH]; intros [|y l]; cbn; [set_solver..|]. case_decide as E; [done|].
  destruct (find_below x n l) as [k|] eqn:Ek; [done|]. intros _ [->|Hx]%elem_of_cons; [done|]. by apply (IH l Ek).
Qed.

Lemma take_elem {A} (l : list A) n x : x ∈ take n l <-> exists j, (j < n)%nat /\ l !! j = Some x.
Proof.
  rewrite list_elem_of_lookup. split; intros [j Hj]; exists j; [by apply lookup_take_Some in Hj as [??]|apply lookup_take_Some; tauto].
Qed.

Section reserve.
Context {BT : BufferTypes} {SB : SaneBackends} (bufts ids : list Z) (ty : Z -> Z).
Context (Hlen : length ids = length bufts).
(** The buffer ids with one allocator have one type. *)
Context (Hty : forall i a, ids !! i = Some a -> bufts !! i = Some (ty a)).

(** [B] gives the buffer of an allocator: it is alive, of the right type, and belongs to
    no other allocator. *)
Record bufs_live (s : store) (B : Z -> option Z) : Prop := {
  bl_live : forall a b, B a = Some b -> exists x, buf_get s b = Ok x /\ buffer_fine x (ty a);
  bl_inj  : forall a a' b, B a = Some b -> B a' = Some b -> a = a'
}.

Lemma bufs_live_mono s s' B : bufs_live s B -> (forall b x, buf_get s b = Ok x -> buf_get s' b = Ok x) -> bufs_live s' B.
Proof. intros [L1 L2] Hs. constructor; [|done]. intros a b Hb. destruct (L1 a b Hb) as (x & Hx & Hf). exists x. auto. Qed.

(** A buffer that no allocator had becomes that of [a]. *)
Lemma bufs_live_set s B a b x : bufs_live s B -> buf_get s b = Ok x -> buffer_fine x (ty a) -> (forall a', B a' <> Some b) ->
  bufs_live s (fun a' => if decide (a' = a) then Some b else B a').
Proof.
  intros [L1 L2] Hb Hf Hnew. constructor.
  - intros a' b'. destruct (decide (a' = a)) as [->|]; [intros [= <-]; by exists x|apply L1].
  - intros a1 a2 b'. destruct (decide (a1 = a)) as [->|], (decide (a2 = a)) as [->|]; try done; [intros [= <-] E; by destruct (Hnew a2)|intros E [= <-]; by destruct (Hnew a1)|apply L2].
Qed.

Lemma bufs_live_drop s s' B a b : bufs_live s B -> B a = Some b -> only_buffer s s' b -> bufs_live s' (fun a' => if decide (a' = a) then None else B a').
Proof.
  intros [L1 L2] Ha Ho. constructor.
  - intros a' b'. destruct (decide (a' = a)) as [->|Hne]; [done|]. intros Hb. destruct (L1 a' b' Hb) as (x & Hx & Hf). exists x. split; [|done].
    apply (only_buffer_live s s' b); [done|congruence || (intros ->; apply Hne; by apply (L2 a' a b))|done].
  - intros a1 a2 b'. destruct (decide (a1 = a)), (decide (a2 = a)); try done. apply L2.
Qed.

Context (tallocs : list ggml_dyn_tallocr).
Context (Hids : forall i a, ids !! i = Some a -> exists alloc, zlookup tallocs a = Some alloc /\ 0 <= da_max_size alloc).

(** The space that the allocator [a] needs. *)
Definition needed (a : Z) : Z := match zlookup tallocs a with Some alloc => da_max_size alloc | None => 0 end.

(** The allocators below [i] have a buffer that is large enough; the entries of the other
    ids are up to date unless they share one of these. *)
Record realloc_inv (i : nat) (s : store) (g : ggml_gallocr) (B : Z -> option Z) : Prop := {
  ri_live : bufs_live s B;
  ri_len  : length (ga_buffers g) = length ids;
  ri_done : forall j a, (j < i)%nat -> ids !! j = Some a -> ga_buffers g !! j = Some (B a) /\
              exists b x, B a = Some b /\ buf_get s b = Ok x /\ needed a <= buf_size x;
  ri_rest : forall j a, (i <= j)%nat -> ids !! j = Some a -> a ∉ take i ids -> ga_buffers g !! j = Some (B a)
}.

Definition static (g : ggml_gallocr) : Prop := ga_bufts g = bufts /\ ga_buf_tallocs g = ids /\ ga_tallocs g = tallocs.

(** The allocators differ in their buffers only. *)
Definition but_buffers (g g' : ggml_gallocr) : Prop := exists bs, g' = with_buffers g bs.

Lemma but_buffers_trans g1 g2 g3 : but_buffers g1 g2 -> but_buffers g2 g3 -> but_buffers g1 g3.
Proof. intros [b1 ->] [b2 ->]. by exists b2. Qed.

Lemma but_buffers_refl g : but_buffers g g.
Proof. exists (ga_buffers g). by destruct g. Qed.

Lemma share_ok i s g B a : static g -> realloc_inv i s g B -> ids !! i = Some a ->
  exists g', share_buffer g i = Ok g' /\ but_buffers g g' /\ realloc_inv i s g' B /\ ga_buffers g' !! i = Some (B a) /\
    (a ∈ take i ids -> exists b x, B a = Some b /\ buf_get s b = Ok x /\ needed a <= buf_size x).
Proof.
  intros (E1 & E2 & E3) I Ha. unfold share_buffer. rewrite E2. rewrite (vget_nat _ _ _ Ha). cbn [mbind res_bind].
  destruct (find_below a i ids) as [j|] eqn:Ef.
  - apply find_below_Some in Ef as [Hj Hja]. destruct (ri_done _ _ _ _ I j a Hj Hja) as [Hbj Hsz].
    rewrite (vget_nat _ _ _ Hbj). cbn [mbind res_bind]. pose proof (lookup_lt_Some _ _ _ Ha) as Hi.
    rewrite vset_at by (unfold zlen; rewrite (ri_len _ _ _ _ I); lia). cbn [mbind res_bind]. rewrite Nat2Z.id.
    eexists. split; [reflexivity|]. split; [by eexists|]. destruct I as [I1 I2 I3 I4]. cbn [with_buffers ga_buffers]. splits; [|by apply list_lookup_insert_eq; lia|done].
    constructor; cbn [with_buffers ga_buffers]; [done|by rewrite length_insert| |].
    + intros k c Hk Hc. destruct (I3 k c Hk Hc) as [H1 H2]. split; [|done]. rewrite list_lookup_insert_ne by lia. done.
    + intros k c Hk Hc Hnew. destruct (decide (k = i)) as [->|Hne]; [|rewrite list_lookup_insert_ne by done; by apply I4].
      assert (c = a) as -> by congruence. by apply list_lookup_insert_eq; lia.
  - apply find_below_None in Ef. exists g. split; [done|]. split; [apply but_buffers_refl|]. split; [done|]. split; [by apply (ri_rest _ _ _ _ I)|done].
Qed.

Lemma talloc_at i s g B a : static g -> realloc_inv i s g B -> ids !! i = Some a ->
  exists alloc, talloc_of g (Z.of_nat i) = Ok (a, alloc) /\ da_max_size alloc = needed a /\ 0 <= needed a.
Proof.
  intros (E1 & E2 & E3) I Ha. destruct (Hids i a Ha) as (alloc & Hal & Hpos). exists alloc. unfold talloc_of, needed. rewrite E2, E3.
  rewrite (vget_nat _ _ _ Ha). cbn [mbind res_bind]. rewrite (vget_Some _ _ _ Hal), Hal. done.
Qed.

(** A buffer that is large enough and alive at [i] completes the step. *)
Lemma realloc_next i s g B a b x : realloc_inv i s g B -> ids !! i = Some a -> ga_buffers g !! i = Some (B a) ->
  B a = Some b -> buf_get s b = Ok x -> needed a <= buf_size x -> realloc_inv (S i) s g B.
Proof.
  intros [I1 I2 I3 I4] Ha Hg Hb Hx Hle. constructor; [done|done| |].
  - intros j c Hj Hc. destruct (decide (j = i)) as [->|]; [|apply I3; [lia|done]]. assert (c = a) as -> by congruence. split; [done|]. by exists b, x.
  - intros j c Hj Hc Hnew. rewrite (take_S_r _ _ _ Ha), elem_of_app, list_elem_of_singleton in Hnew. apply I4; [lia|done|tauto].
Qed.

(** The first buffer of an allocator is made or made anew. *)
Lemma realloc_new i s s' g B B' a b x : realloc_inv i s g B -> ids !! i = Some a -> a ∉ take i ids ->
  bufs_live s' B' -> B' a = Some b -> (forall a', a' <> a -> B' a' = B a') ->
  (forall c y, c <> b -> (forall d, B a = Some d -> c <> d) -> buf_get s c = Ok y -> buf_get s' c = Ok y) ->
  buf_get s' b = Ok x -> needed a <= buf_size x ->
  realloc_inv (S i) s' (with_buffers g (<[i := Some b]> (ga_buffers g))) B'.
Proof.
  intros [I1 I2 I3 I4] Ha Hnew Hl Hba Hsame Hother Hx Hle. pose proof (lookup_lt_Some _ _ _ Ha) as Hi.
  constructor; cbn [with_buffers ga_buffers]; [done|by rewrite length_insert| |].
  - intros j c Hj Hc. destruct (decide (j = i)) as [->|Hne].
    + assert (c = a) as -> by congruence. rewrite Hba. split; [apply list_lookup_insert_eq; lia|by exists b, x].
    + assert (c <> a) as Hca by (intros ->; apply Hnew, take_elem; exists j; split; [lia|done]).
      rewrite Hsame by done. destruct (I3 j c ltac:(lia) Hc) as (H1 & b' & x' & H2 & H3 & H4).
      split; [by rewrite list_lookup_insert_ne by done|]. exists b', x'. splits; [done| |done]. apply Hother; [| |done].
      * intros ->. apply Hca, (bl_inj _ _ Hl c a b); [by rewrite Hsame|done].
      * intros d Hd ->. by apply Hca, (bl_inj _ _ I1 c a d).
  - intros j c Hj Hc Hn. rewrite (take_S_r _ _ _ Ha), elem_of_app, list_elem_of_singleton in Hn. rewrite Hsame by tauto.
    rewrite list_lookup_insert_ne by (intros ->; lia). apply I4; [lia|done|tauto].
Qed.

(** The memory for an allocator whose buffer is missing or too small. *)
Lemma renew_ok i s g B a : static g -> realloc_inv i s g B -> ids !! i = Some a -> a ∉ take i ids -> ga_buffers g !! i = Some (B a) -> 0 <= needed a ->
  safe (s ← buffer_free s (B a);
        buft ← vget (ga_bufts g) (Z.of_nat i);
        let '(s, b) := buft_alloc_buffer s buft (needed a) in
        bs ← vset (ga_buffers g) (Z.of_nat i) b;
        let g := with_buffers g bs in
        match b with
        | None => Ok (s, g, false)
        | Some b => s ← buffer_set_usage s b GGML_BACKEND_BUFFER_USAGE_COMPUTE; Ok (s, g, true)
        end)
    (fun '(s', g', ok) => ok = true -> st_heap s' = st_heap s /\ but_buffers g g' /\ exists B', realloc_inv (S i) s' g' B').
Proof.
  intros (E1 & E2 & E3) I Ha Hnew Hg Hn. pose proof (lookup_lt_Some _ _ _ Ha) as Hi.
  set (B0 := fun a' => if decide (a' = a) then None else B a').
  assert (Hfree : exists s1, buffer_free s (B a) = Ok s1 /\ st_heap s1 = st_heap s /\ bufs_live s1 B0 /\
    (forall c y, (forall d, B a = Some d -> c <> d) -> buf_get s c = Ok y -> buf_get s1 c = Ok y)).
  { destruct (B a) as [d|] eqn:Ed.
    - destruct (bl_live _ _ (ri_live _ _ _ _ I) a d Ed) as (x & Hx & Hf). destruct (free_ok s d x Hx (bf_parts _ _ Hf)) as (s1 & E & Ho & _).
      exists s1. splits; [done|apply Ho|by apply (bufs_live_drop s s1 B a d (ri_live _ _ _ _ I))|]. intros c y Hc. apply (only_buffer_live _ _ _ _ _ Ho). by apply Hc.
    - exists s. splits; [done|done| |done]. destruct (ri_live _ _ _ _ I) as [L1 L2]. constructor.
      + intros a' b. unfold B0. case_decide; [done|]. apply L1.
      + intros a1 a2 b. unfold B0. do 2 case_decide; try done. apply L2. }
  destruct Hfree as (s1 & -> & Hh1 & L1 & Hk1). cbn [mbind res_bind]. rewrite E1, (vget_nat _ _ _ (Hty i a Ha)). cbn [mbind res_bind].
  pose proof (alloc_buffer_ok s1 (ty a) (needed a) Hn) as Hal. cbv zeta in Hal. destruct (buft_alloc_buffer s1 (ty a) (needed a)) as [s2 ob]. cbn [fst snd] in Hal.
  destruct Hal as (Hh2 & Hk2 & Hb). rewrite vset_at by (unfold zlen; rewrite (ri_len _ _ _ _ I); lia). cbn [mbind res_bind]. rewrite Nat2Z.id.
  destruct ob as [b|]; [|cbn [post]; done]. destruct Hb as (Eb & x & Hx & Hf & Hle).
  destruct (set_usage_ok s2 b x GGML_BACKEND_BUFFER_USAGE_COMPUTE Hx (bf_parts _ _ Hf)) as (s3 & -> & Ho & Hx3). cbn [mbind res_bind post]. intros _.
  assert (Hfresh : forall c y, buf_get s1 c = Ok y -> c <> b) by (intros c y Hc%buf_get_range ->; lia).
  split; [rewrite (proj1 Ho); congruence|]. split; [by eexists|]. exists (fun a' => if decide (a' = a) then Some b else B0 a').
  apply (realloc_new i s s3 g B _ a b (used_for GGML_BACKEND_BUFFER_USAGE_COMPUTE x) I Ha Hnew); [| | | |exact Hx3|exact Hle].
  - eapply (bufs_live_set s3 B0 a b); [|exact Hx3|destruct Hf; by constructor|].
    + destruct L1 as [M1 M2]. constructor; [|done]. intros a' c Hc. destruct (M1 a' c Hc) as (y & Hy & Hfy). exists y.
      split; [|done]. apply (only_buffer_live _ _ _ _ _ Ho); [by apply (Hfresh c y)|by apply Hk2].
    + intros a' E. destruct (bl_live _ _ L1 a' b E) as (y & Hy & _). by apply (Hfresh b y).
  - by rewrite decide_True.
  - intros a' Hne. unfold B0. by rewrite !decide_False.
  - intros c y Hcb Hcd Hc. by apply (only_buffer_live _ _ _ _ _ Ho Hcb), Hk2, Hk1.
Qed.

Lemma realloc_step i s g B a : static g -> realloc_inv i s g B -> ids !! i = Some a ->
  safe (realloc_buffer s g i) (fun '(s', g', ok) => ok = true -> st_heap s' = st_heap s /\ but_buffers g g' /\ exists B', realloc_inv (S i) s' g' B').
Proof.
  intros Hst I Ha. unfold realloc_buffer. destruct (share_ok i s g B a Hst I Ha) as (g1 & -> & Hb1 & I1 & Hg1 & Hshared). cbn [mbind res_bind].
  rewrite (vget_nat _ _ _ Hg1). cbn [mbind res_bind].
  assert (Hst1 : static g1) by (destruct Hb1 as [bs ->]; exact Hst).
  destruct (talloc_at i s g1 B a Hst1 I1 Ha) as (alloc & Eal & Emax & Hpos). unfold ggml_dyn_tallocr_max_size.
  assert (Hkeep : forall b x, B a = Some b -> buf_get s b = Ok x -> needed a <= buf_size x ->
      st_heap s = st_heap s /\ but_buffers g g1 /\ exists B', realloc_inv (S i) s g1 B').
  { intros b x Hb Hx Hle. split; [done|]. split; [done|]. exists B. by apply (realloc_next i s g1 B a b x). }
  assert (Hrenew : a ∉ take i ids -> forall m, m = needed a -> safe (s ← buffer_free s (B a); buft ← vget (ga_bufts g1) (Z.of_nat i);
      let '(s, b) := buft_alloc_buffer s buft m in bs ← vset (ga_buffers g1) (Z.of_nat i) b; let g := with_buffers g1 bs in
      match b with None => Ok (s, g, false) | Some b => s ← buffer_set_usage s b GGML_BACKEND_BUFFER_USAGE_COMPUTE; Ok (s, g, true) end)
      (fun '(s', g', ok) => ok = true -> st_heap s' = st_heap s /\ but_buffers g g' /\ exists B', realloc_inv (S i) s' g' B')).
  { intros Hnew m ->. eapply post_mono; [by apply (renew_ok i s g1 B a)| |done].
    intros [[s' g'] ok] Hr Hok. destruct (Hr Hok) as (H1 & H2 & H3). split; [done|]. split; [by apply (but_buffers_trans _ g1)|done]. }
  destruct (B a) as [b|] eqn:Eb; cbn [current_size].
  - destruct (bl_live _ _ (ri_live _ _ _ _ I) a b Eb) as (x & Hx & Hf). unfold buffer_get_size. rewrite Hx. cbn [mbind res_bind]. rewrite Eal. cbn [mbind res_bind].
    rewrite Emax. rewrite (bool_decide_eq_false_2 (Some b = None)) by done. rewrite orb_false_r. destruct (Z.ltb_spec (buf_size x) (needed a)) as [Hlt|Hge].
    + apply Hrenew; [|done]. intros Hin. destruct (Hshared Hin) as (b' & x' & [= <-] & Hx' & Hle). assert (x' = x) as -> by congruence. lia.
    + cbn [post]. intros _. by apply (Hkeep b x).
  - cbn [mbind res_bind]. rewrite Eal. cbn [mbind res_bind]. rewrite Emax, bool_decide_eq_true_2, orb_true_r by done.
    apply Hrenew; [|done]. intros Hin. by destruct (Hshared Hin) as (b' & x' & ? & _).
Qed.

Lemma realloc_ok n : forall i s g B, (i + n = length ids)%nat -> static g -> realloc_inv i s g B ->
  safe (realloc_buffers s g (seq i n)) (fun '(s', g', ok) => ok = true -> st_heap s' = st_heap s /\ but_buffers g g' /\ exists B', realloc_inv (length ids) s' g' B').
Proof.
  induction n as [|n IH]; intros i s g B Hn Hst I; cbn [seq realloc_buffers].
  - cbn [post]. intros _. split; [done|]. split; [apply but_buffers_refl|]. exists B. by replace (length ids) with i by lia.
  - destruct (lookup_lt_is_Some_2 ids i ltac:(lia)) as [a Ha].
    eapply post_bind; [by apply (realloc_step i s g B a)|]. intros [[s1 g1] ok] Hr. destruct ok; [|cbn [post]; done].
    destruct (Hr eq_refl) as (Hh & [bs ->] & B1 & I1).
    eapply post_mono; [apply (IH (S i) s1 (with_buffers g bs) B1 ltac:(lia) Hst I1)| |done]. intros [[s2 g2] ok2] H2 Hok. destruct (H2 Hok) as (H3 & [bs' ->] & H4).
    split; [congruence|]. split; [by exists bs'|done].
Qed.
End reserve.

(** * The records of the plan *)

Section records.
Context {BT : BufferTypes} (T : heap) (bufts ids : list Z) (buffers : list (option Z)) (U : gset Z).
Context (Hsrc : forall t s, t ∈ U -> Some s ∈ t_src (T t) -> s ∈ U).
Context (Hview : forall t s, t ∈ U -> t_view_src (T t) = Some s -> s ∈ U).
Local Abbreviation sim := (sim T bufts ids buffers U).

(** What is recorded of a plan. *)
Definition tensor_place (p : planner) (t : Z) : tensor_alloc :=
  if has_place (T t) then no_alloc
  else {| ta_buffer_id := (place p t).1; ta_offset := (place p t).2; ta_size_max := size_in T bufts (place p t).1 t |}.

Definition src_place (p : planner) (src : option Z) : tensor_alloc :=
  match src with Some t => tensor_place p t | None => no_alloc end.

Definition node_place (p : planner) (node : Z) : node_alloc :=
  {| na_dst := tensor_place p node; na_src := src_place p <$> t_src (T node) |}.

(** The buffer type of the place is known. *)
Definition known (p : planner) (t : Z) : Prop := has_place (T t) = false -> exists b, zlookup bufts (place p t).1 = Some b.

Lemma recorded_ok g p t : sim g p -> has_place (T t) = false -> known p t -> recorded T g t (p_hn p t) = Ok (tensor_place p t).
Proof using.
  intros S Hp Hk. destruct (Hk Hp) as [b Hb]. unfold recorded, tensor_place, size_in. rewrite (sm_bufts _ _ _ _ _ _ _ S), Hp.
  unfold place in *. cbn [fst snd] in *. by rewrite (vget_Some _ _ _ Hb), Hb.
Qed.

Lemma record_tensor_ok g p t : sim g p -> t ∈ U -> known p t -> exists g', record_tensor T g t = Ok (g', tensor_place p t) /\ sim g' p.
Proof using Hsrc Hview.
  intros S Ht Hk. unfold record_tensor. destruct (has_place (T t)) eqn:Ep.
  - exists g. unfold tensor_place. by rewrite Ep.
  - destruct (sim_hash_get _ _ _ _ _ g p t S Ht) as (g' & i & -> & S' & Hi & _). exists g'. cbn [mbind res_bind].
    rewrite (sim_hn_get _ _ _ _ _ g' p i t S' Hi). cbn [mbind res_bind]. by rewrite (recorded_ok g' p t S' Ep Hk).
Qed.

Lemma record_srcs_ok srcs g p done : sim g p -> (forall t, Some t ∈ srcs -> t ∈ U /\ known p t) ->
  exists g', foldM (record_src T) (g, done) srcs = Ok (g', done ++ (src_place p <$> srcs)) /\ sim g' p.
Proof using Hsrc Hview.
  revert g done. induction srcs as [|[t|] srcs IH]; intros g done S Hin; cbn [foldM].
  - exists g. cbn. by rewrite app_nil_r.
  - destruct (Hin t (list_elem_of_here _ _)) as [Ht Hk]. cbn [record_src fst snd].
        destruct (record_tensor_ok g p t S Ht Hk) as (g1 & -> & S1). cbn [mbind res_bind].
    destruct (IH g1 (done ++ [tensor_place p t]) S1 (fun u Hu => Hin u (list_elem_of_further _ _ _ Hu))) as (g2 & E & S2).
    exists g2. rewrite E. by rewrite <- app_assoc.
  - cbn [record_src fst snd mbind res_bind]. destruct (IH g (done ++ [no_alloc]) S (fun u Hu => Hin u (list_elem_of_further _ _ _ Hu))) as (g2 & E & S2).
    exists g2. rewrite E. by rewrite <- app_assoc.
Qed.

Lemma record_nodes_ok nodes g p done : sim g p -> (forall t, t ∈ nodes -> t ∈ U) -> (forall t, t ∈ U -> known p t) ->
  exists g', foldM (record_node T) (g, done) nodes = Ok (g', done ++ (node_place p <$> nodes)) /\ sim g' p.
Proof using Hsrc Hview.
  revert g done. induction nodes as [|t nodes IH]; intros g done S Hin Hk; cbn [foldM].
  - exists g. cbn. by rewrite app_nil_r.
  - pose proof (Hin t (list_elem_of_here _ _)) as Ht. change (record_node T (g, done) t) with ('(g, dst) ← record_tensor T g t; '(g, srcs) ← foldM (record_src T) (g, []) (t_src (T t)); Ok (g, done ++ [{| na_dst := dst; na_src := srcs |}])).
    destruct (record_tensor_ok g p t S Ht (Hk t Ht)) as (g1 & -> & S1). cbn [mbind res_bind].
    destruct (record_srcs_ok (t_src (T t)) g1 p [] S1) as (g2 & -> & S2); [intros s Hs; split; [|apply Hk]; by apply (Hsrc t)|]. cbn [mbind res_bind app].
    destruct (IH g2 (done ++ [node_place p t]) S2 (fun u Hu => Hin u (list_elem_of_further _ _ _ Hu)) Hk) as (g3 & E & S3).
    exists g3. split; [|exact S3]. etransitivity; [exact E|]. by rewrite <- app_assoc.
Qed.

Lemma record_leafs_ok leafs g p done : sim g p -> (forall t, t ∈ leafs -> t ∈ U) -> (forall t, t ∈ U -> known p t) ->
  exists g', foldM (record_leaf T) (g, done) leafs = Ok (g', done ++ (tensor_place p <$> leafs)) /\ sim g' p.
Proof using Hsrc Hview.
  revert g done. induction leafs as [|t leafs IH]; intros g done S Hin Hk; cbn [foldM].
  - exists g. cbn. by rewrite app_nil_r.
  - pose proof (Hin t (list_elem_of_here _ _)) as Ht. change (record_leaf T (g, done) t) with ('(g, i) ← ggml_gallocr_hash_get g t; h ← hn_get g i; if has_place (T t) then Ok (g, done ++ [no_alloc]) else a ← recorded T g t h; Ok (g, done ++ [a])).
    destruct (sim_hash_get _ _ _ _ _ g p t S Ht) as (g1 & i & -> & S1 & Hi & _). cbn [mbind res_bind].
    rewrite (sim_hn_get _ _ _ _ _ g1 p i t S1 Hi). cbn [mbind res_bind].
    assert (Hstep : (if has_place (T t) then Ok (g1, done ++ [no_alloc]) else a ← recorded T g1 t (p_hn p t); Ok (g1, done ++ [a])) = Ok (g1, done ++ [tensor_place p t])).
    { destruct (has_place (T t)) eqn:Ep; [unfold tensor_place; by rewrite Ep|]. by rewrite (recorded_ok g1 p t S1 Ep (Hk t Ht)). }
    rewrite Hstep. cbn [mbind res_bind].
    destruct (IH g1 (done ++ [tensor_place p t]) S1 (fun u Hu => Hin u (list_elem_of_further _ _ _ Hu)) Hk) as (g3 & E & S3).
    exists g3. split; [|exact S3]. etransitivity; [exact E|]. by rewrite <- app_assoc.
Qed.
End records.

(** * Reserving *)

Lemma talloc_max_nonneg alloc live : talloc_ok alloc live -> 0 <= da_max_size alloc.
Proof. intros (_ & _ & [_ [_ _ _ _ _ H] _ _]). lia. Qed.

Section reserving.
Context {BT : BufferTypes} {SB : SaneBackends} (bufts ids : list Z) (ty : Z -> Z).
Context (Hlen : length ids = length bufts).
Context (Hty : forall i a, ids !! i = Some a -> bufts !! i = Some (ty a)).

(** What holds of an allocator between calls. *)
Record gallocr_ok (s : store) (g : ggml_gallocr) : Prop := {
  gk_static  : ga_bufts g = bufts /\ ga_buf_tallocs g = ids;
  gk_hash    : hs_size (ga_hash_set g) = 0 \/ hash_ok (ga_hash_set g);
  gk_tallocs : forall a alloc, zlookup (ga_tallocs g) a = Some alloc ->
                 a ∈ ids /\ da_alignment alloc = buft_get_alignment (ty a) /\ 0 < da_alignment alloc <= 2 ^ 62 /\ (2 | da_alignment alloc);
  gk_ids     : forall i a, ids !! i = Some a -> 0 <= a < zlen (ga_tallocs g);
  gk_bufs    : length (ga_buffers g) = length ids /\
                 exists B, bufs_live ty s B /\ forall i a, ids !! i = Some a -> ga_buffers g !! i = Some (B a)
}.

(** ** The table and the allocators *)

Lemma size_table_ok g graph : hs_size (ga_hash_set g) = 0 \/ hash_ok (ga_hash_set g) -> 0 < n_nodes graph + n_leafs graph <= INT32_MAX ->
  safe (size_table g graph) (fun g' => exists hs vs, g' = with_hash_values (with_hash_set g hs) vs /\ hash_ok hs /\ n_nodes graph + n_leafs graph <= hs_size hs).
Proof.
  clear Hty Hlen. unfold INT32_MAX. intros Hh Hn. unfold size_table. rewrite s32_ok by (unfold INT32_MIN, INT32_MAX; lia). cbn [mbind res_bind].
  set (n := n_nodes graph + n_leafs graph) in *. assert (0 <= n / 4 <= n) as Hq by (split; [apply Z.div_pos; lia|apply Z.div_le_upper_bound; lia]).
  rewrite !(u64_small n) by (unfold SIZE_MAX; lia). rewrite u64_small by (unfold SIZE_MAX; lia).
  destruct (Z.ltb_spec (hs_size (ga_hash_set g)) (n + n / 4)) as [Hlt|Hge].
  - eapply post_bind; [apply hash_set_new_ok; lia|]. intros hs (Hok & Hle & _). cbn [post]. exists hs, []. splits; [done|done|lia].
  - cbn [post]. exists (ga_hash_set g), (ga_hash_values g). splits; [by destruct g| |lia]. destruct Hh as [Hh|Hh]; [lia|done].
Qed.

Lemma reset_step g i a ts : ga_buf_tallocs g = ids -> ids !! i = Some a -> 0 <= a < zlen ts ->
  (forall b alloc, zlookup (ga_tallocs g) b = Some alloc -> zlookup ts b = Some (if decide (b ∈ take i ids) then ggml_dyn_tallocr_reset alloc else alloc)) -> zlen ts = zlen (ga_tallocs g) ->
  exists ts', reset_talloc (with_tallocs g ts) i = Ok (with_tallocs g ts') /\ zlen ts' = zlen ts /\
    forall b alloc, zlookup (ga_tallocs g) b = Some alloc -> zlookup ts' b = Some (if decide (b ∈ take (S i) ids) then ggml_dyn_tallocr_reset alloc else alloc).
Proof.
  clear Hty Hlen. intros Ei Ha Hr Hts Hl. unfold reset_talloc, talloc_of. cbn [with_tallocs ga_buf_tallocs ga_tallocs]. rewrite Ei, (vget_nat _ _ _ Ha). cbn [mbind res_bind].
  destruct (zlookup_lt (ga_tallocs g) a) as [alloc Hal]; [lia|]. pose proof (Hts a alloc Hal) as Hta. rewrite (vget_Some _ _ _ Hta). cbn [mbind res_bind].
  rewrite vset_at by lia. cbn [mbind res_bind]. eexists. split; [reflexivity|]. split; [by rewrite zlen_insert|].
  intros b al Hb. rewrite (take_S_r _ _ _ Ha). destruct (decide (b = a)) as [->|Hne].
  - rewrite zlookup_insert_eq by lia. assert (al = alloc) as -> by congruence. rewrite (decide_True (P := a ∈ take i ids ++ [a])) by set_solver.
    by destruct (decide (a ∈ take i ids)).
  - rewrite zlookup_insert_ne by (lia || congruence). rewrite (Hts b al Hb). f_equal.
    destruct (decide (b ∈ take i ids)), (decide (b ∈ take i ids ++ [a])); try done; set_solver.
Qed.

Lemma reset_ok_all s g : gallocr_ok s g ->
  foldM reset_talloc g (seq 0 (length bufts)) = Ok (with_tallocs g (ggml_dyn_tallocr_reset <$> ga_tallocs g)).
Proof.
  intros K. assert (Hloop : forall n i ts, (i + n = length ids)%nat -> zlen ts = zlen (ga_tallocs g) ->
    (forall b alloc, zlookup (ga_tallocs g) b = Some alloc -> zlookup ts b = Some (if decide (b ∈ take i ids) then ggml_dyn_tallocr_reset alloc else alloc)) ->
    foldM reset_talloc (with_tallocs g ts) (seq i n) = Ok (with_tallocs g (ggml_dyn_tallocr_reset <$> ga_tallocs g))).
  { intros n. induction n as [|n IH]; intros i ts Hi Hl Hts; cbn [seq foldM].
    - do 2 f_equal. apply zlookup_ext; [unfold zlen in *; rewrite length_fmap; lia|]. intros b Hb. rewrite zlookup_fmap.
      destruct (zlookup_lt (ga_tallocs g) b) as [alloc Hal]; [lia|]. rewrite (Hts b alloc Hal), Hal. cbn. rewrite decide_True; [done|].
      rewrite firstn_all2 by lia. by apply (gk_tallocs _ _ K b alloc).
    - destruct (lookup_lt_is_Some_2 ids i ltac:(lia)) as [a Ha].
      destruct (reset_step g i a ts (proj2 (gk_static _ _ K)) Ha ltac:(rewrite Hl; by apply (gk_ids _ _ K i)) Hts Hl) as (ts' & -> & Hl' & Hts').
      cbn [mbind res_bind]. apply IH; [lia|lia|done]. }
  rewrite <- Hlen. transitivity (foldM reset_talloc (with_tallocs g (ga_tallocs g)) (seq 0 (length ids))); [by destruct g|].
  apply Hloop; [done|done|]. intros b alloc Hb. rewrite decide_False; [done|]. by intros ?%elem_of_nil.
Qed.

(** ** The plan in the buffers *)

Context (T : heap) (graph : ggml_cgraph) (U : gset Z) (node_ids leaf_ids : option (list Z)).
Context (Hgt : graph_tensors T graph U) (HU : forall t, t ∈ U -> t ∈ cg_leafs graph \/ t ∈ cg_nodes graph).

(** The buffer [b] in which the plan [p] has put a tensor, and what is known of it. *)
Definition in_buffer (s : store) (g : ggml_gallocr) (p : planner) (t : Z) : Prop :=
  exists i b x, (place p t).1 = Z.of_nat i /\ ga_buffers g !! i = Some (Some b) /\ buf_get s b = Ok x /\
    (exists buft, bufts !! i = Some buft /\ buffer_fine x buft /\ (buft_get_alignment buft | (place p t).2)) /\
    0 <= (place p t).2 /\ (place p t).2 + size_in T bufts (place p t).1 t <= buf_size x.

(** What a successful reservation leaves. *)
Record reserved (s : store) (g : ggml_gallocr) (p : planner) : Prop := {
  rs_static : ga_bufts g = bufts /\ ga_buf_tallocs g = ids;
  rs_nodes  : ga_node_allocs g = node_place T bufts p <$> cg_nodes graph;
  rs_leafs  : ga_leaf_allocs g = tensor_place T bufts p <$> cg_leafs graph;
  rs_live   : Forall (fun ob => exists b x, ob = Some b /\ buf_get s b = Ok x) (ga_buffers g);
  rs_fit    : forall t, t ∈ U -> placed T t = true -> in_buffer s g p t
}.

Lemma remove_dups_length (l : list Z) : (length (remove_dups l) <= length l)%nat.
Proof. induction l as [|x l IH]; cbn; [lia|]. case_decide; cbn; lia. Qed.

Lemma size_U : Z.of_nat (size U) <= n_nodes graph + n_leafs graph.
Proof.
  assert (Hsub : U ⊆ list_to_set (remove_dups (cg_leafs graph ++ cg_nodes graph))).
  { intros t Ht. apply elem_of_list_to_set, elem_of_remove_dups, elem_of_app. by apply HU. }
  apply subseteq_size in Hsub. rewrite (size_list_to_set (C := gset Z)) in Hsub by apply NoDup_remove_dups.
  pose proof (remove_dups_length (cg_leafs graph ++ cg_nodes graph)). rewrite length_app in *. unfold n_nodes, n_leafs, zlen. lia.
Qed.

Lemma has_place_placed (x : heap) t : has_place (x t) = negb (placed x t).
Proof.
  unfold has_place, placed. destruct (t_data (x t)), (t_view_src (x t)); reflexivity.
Qed.

Lemma planned_fits als p t : loop_inv T bufts ids graph (zlen (p_tallocs p)) als (length (cg_nodes graph)) p -> t ∈ U -> placed T t = true ->
  fits T bufts ids p t.
Proof.
  intros I Ht Hp. apply (iv_fit _ _ _ _ _ _ _ _ _ _ _ I t Hp). destruct (HU t Ht) as [?|Hn]; [by left|right; right]. by rewrite firstn_all.
Qed.

(** The table of an allocator gives the places of the plan. *)
Lemma sim_planned g p t : sim T bufts ids (ga_buffers g) U g p -> t ∈ U -> planned_place g t = place p t.
Proof. intros S Ht. unfold planned_place. by rewrite (sim_entry T bufts ids (ga_buffers g) U g p t S Ht). Qed.

(** A fitting place is a range of the buffer that the allocator of its id has. *)
Lemma fits_in_buffer s g p B t : realloc_inv ids ty (p_tallocs p) (length ids) s g B ->
  (forall a alloc, zlookup (p_tallocs p) a = Some alloc -> da_alignment alloc = buft_get_alignment (ty a)) ->
  fits T bufts ids p t -> in_buffer s g p t.
Proof.
  intros R Hal (a & buft & alloc & Ha & Hb & Hta & H1 & H2 & H3). pose proof (zlookup_Some_lt _ _ _ Ha) as Hr. unfold range, range_at in *. cbn [fst snd] in *.
  exists (Z.to_nat (place p t).1). assert (Hi : ids !! Z.to_nat (place p t).1 = Some a) by (rewrite <- zlookup_nat, Z2Nat.id by lia; exact Ha).
  destruct (ri_done _ _ _ _ _ _ _ R _ a (lookup_lt_Some _ _ _ Hi) Hi) as [Hgb (b & x & HB & Hx & Hle)]. exists b, x.
  destruct (bl_live _ _ _ (ri_live _ _ _ _ _ _ _ R) a b HB) as (x' & Hx' & Hf). assert (x' = x) as -> by congruence.
  unfold needed in Hle. rewrite Hta in Hle. splits; [lia|by rewrite Hgb, HB|done| |done|lia].
  exists (ty a). splits; [by apply Hty|done|]. by rewrite <- (Hal a alloc Hta).
Qed.


Lemma ok_with_table s g hs vs : gallocr_ok s g -> hash_ok hs -> gallocr_ok s (with_hash_values (with_hash_set g hs) vs).
Proof. intros [K1 K2 K3 K4 K5] Hok. constructor; try done. by right. Qed.

(** The start of the loop over the buffers. *)
Lemma realloc_start s g g' tallocs : gallocr_ok s g -> ga_buffers g' = ga_buffers g -> exists B, realloc_inv ids ty tallocs 0 s g' B.
Proof.
  intros K Eb. destruct (gk_bufs _ _ K) as (Hl & B & Hlive & HB). exists B. constructor; [done|by rewrite Eb|intros j a Hj; lia|].
  intros j a _ Ha _. rewrite Eb. by apply HB.
Qed.

(** The end of the loop over the buffers. *)
Lemma reserved_ok s s' g g' p B als :
  gallocr_ok s g -> zlen (p_tallocs p) = zlen (ga_tallocs g) -> als = alignments (ggml_dyn_tallocr_reset <$> ga_tallocs g) ->
  loop_inv T bufts ids graph (zlen (p_tallocs p)) als (length (cg_nodes graph)) p ->
  sim T bufts ids (ga_buffers g') U g' p -> ga_node_allocs g' = node_place T bufts p <$> cg_nodes graph -> ga_leaf_allocs g' = tensor_place T bufts p <$> cg_leafs graph ->
  realloc_inv ids ty (p_tallocs p) (length ids) s' g' B ->
  gallocr_ok s' g' /\ reserved s' g' p.
Proof.
  intros K Hl -> I S Hn Hlf R.
  assert (Hal : forall a alloc, zlookup (p_tallocs p) a = Some alloc ->
    a ∈ ids /\ da_alignment alloc = buft_get_alignment (ty a) /\ 0 < da_alignment alloc <= 2 ^ 62 /\ (2 | da_alignment alloc)).
  { intros a alloc Ha. pose proof (zlookup_Some_lt _ _ _ Ha) as Hr. destruct (zlookup_lt (ga_tallocs g) a) as [al0 H0']; [lia|].
    destruct (gk_tallocs _ _ K a al0 H0') as (K1 & K2 & _). pose proof (iv_al _ _ _ _ _ _ _ _ _ _ _ I a alloc Ha) as Eal.
    unfold alignments in Eal. rewrite zlookup_fmap, H0' in Eal. cbn in Eal. destruct (iv_live _ _ _ _ _ _ _ _ _ _ _ I a alloc Ha) as (B1 & B2 & _).
    splits; [done|congruence|lia|lia|done]. }
  assert (Hall : forall i a, ids !! i = Some a -> exists b x, ga_buffers g' !! i = Some (Some b) /\ buf_get s' b = Ok x).
  { intros i a Ha. destruct (ri_done _ _ _ _ _ _ _ R i a (lookup_lt_Some _ _ _ Ha) Ha) as [Hb (b & x & EB & Hx & _)]. exists b, x. split; [by rewrite Hb, EB|done]. }
  split.
  - constructor.
    + split; [apply (sm_bufts _ _ _ _ _ _ _ S)|apply (sm_ids _ _ _ _ _ _ _ S)].
    + right. apply (sm_hash _ _ _ _ _ _ _ S).
    + rewrite (sm_talloc _ _ _ _ _ _ _ S). exact Hal.
    + intros i a Ha. rewrite (sm_talloc _ _ _ _ _ _ _ S), Hl. by apply (gk_ids _ _ K i).
    + split; [apply (ri_len _ _ _ _ _ _ _ R)|]. exists B. split; [apply (ri_live _ _ _ _ _ _ _ R)|]. intros i a Ha.
      apply (ri_done _ _ _ _ _ _ _ R i a (lookup_lt_Some _ _ _ Ha) Ha).
  - constructor.
    + split; [apply (sm_bufts _ _ _ _ _ _ _ S)|apply (sm_ids _ _ _ _ _ _ _ S)].
    + exact Hn.
    + exact Hlf.
    + apply Forall_lookup. intros i ob Hob. pose proof (lookup_lt_Some _ _ _ Hob) as Hi. rewrite (ri_len _ _ _ _ _ _ _ R) in Hi.
      destruct (lookup_lt_is_Some_2 ids i Hi) as [a Ha]. destruct (Hall i a Ha) as (b & x & Hb & Hx). exists b, x. split; [congruence|done].
    + intros t Ht Hp. apply (fits_in_buffer s' g' p B t R); [|by apply (planned_fits _ p t I)]. intros a alloc Ha. by apply (Hal a alloc).
Qed.

Lemma reserve_ok s g : st_heap s = T -> gallocr_ok s g -> 0 < n_nodes graph + n_leafs graph <= INT32_MAX ->
  planning T graph bufts ids (ggml_dyn_tallocr_reset <$> ga_tallocs g) node_ids leaf_ids ->
  post (ggml_gallocr_reserve_n s g graph node_ids leaf_ids)
    (fun '(s', g', ok) => ok = true -> st_heap s' = T /\ gallocr_ok s' g' /\
       exists p, plan_graph T bufts ids (ggml_dyn_tallocr_reset <$> ga_tallocs g) graph node_ids leaf_ids = Ok p /\
         reserved s' g' p /\ forall t, t ∈ U -> planned_place g' t = place p t)
    (fun e => e = Abort).
Proof.
  intros HT K Hn Hpl. destruct Hgt as [G1 G2 G3 G4]. destruct Hpl as [P1 P2 P3 P4 P5 P6]. unfold ggml_gallocr_reserve_n. rewrite HT.
  eapply post_bind; [eapply post_mono; [apply (size_table_ok g graph (gk_hash _ _ K) Hn)|intros ? Hx; exact Hx|done]|].
  intros g0 (hs & vs & -> & Hok & Hroom). set (g1 := with_hash_values (with_hash_set g hs) vs).
  pose proof (ok_with_table s g hs vs K Hok : gallocr_ok s g1) as K1.
  change (ga_bufts g1) with (ga_bufts g). rewrite (proj1 (gk_static _ _ K)), (reset_ok_all s g1 K1). cbn [mbind res_bind].
  change (ga_tallocs g1) with (ga_tallocs g). set (ts0 := ggml_dyn_tallocr_reset <$> ga_tallocs g) in *. set (g2 := with_tallocs g1 ts0).
  pose proof (alloc_graph_sim T bufts ids (ga_buffers g) U G3 G4 graph G1 G2 g2 node_ids leaf_ids Hok ltac:(pose proof size_U; cbn; lia)
    (proj1 (gk_static _ _ K)) (proj2 (gk_static _ _ K)) eq_refl) as S.
  pose proof (plan_total T bufts ids graph _ (alignments ts0) P2 P3 P1 node_ids leaf_ids P4 P5 ts0 P6 (aligned_alignments _)) as Htot.
  change (ga_tallocs g2) with ts0 in S. unfold sim_res in S. destruct (plan_graph T bufts ids ts0 graph node_ids leaf_ids) as [p|e] eqn:Ep.
  2: { destruct (ggml_gallocr_alloc_graph_impl _ _ _ _ _) as [|e']; [done|]. cbn [mbind res_bind post] in *. by subst. }
  destruct (ggml_gallocr_alloc_graph_impl T g2 graph node_ids leaf_ids) as [g3|e']; [|done]. cbn [mbind res_bind].
  destruct (plan_safe T bufts ids graph _ (alignments ts0) P2 P3 P1 node_ids leaf_ids P4 P5 ts0 p P6 (aligned_alignments _) Ep) as [I _].
  pose proof (iv_len _ _ _ _ _ _ _ _ _ _ _ I) as Hl. rewrite <- Hl in I.
  assert (Hknown : forall t, t ∈ U -> known T bufts p t).
  { intros t Ht Hp. rewrite has_place_placed in Hp. apply negb_false_iff in Hp. destruct (planned_fits _ p t I Ht Hp) as (a & b & _ & _ & Hb & _). by exists b. }
  destruct (record_nodes_ok T bufts ids (ga_buffers g) U G3 G4 (cg_nodes graph) g3 p [] S G1 Hknown) as (g4 & -> & S4). cbn [mbind res_bind app].
  destruct (record_leafs_ok T bufts ids (ga_buffers g) U G3 G4 (cg_leafs graph) g4 p [] S4 G2 Hknown) as (g5 & -> & S5). cbn [mbind res_bind app].
  set (g6 := with_allocs g5 _ _). destruct (realloc_start s g g6 (p_tallocs p) K (sm_buffers _ _ _ _ _ _ _ S5)) as [B R].
  assert (Hids : forall i a, ids !! i = Some a -> exists alloc, zlookup (p_tallocs p) a = Some alloc /\ 0 <= da_max_size alloc).
  { intros i a Ha. destruct (zlookup_lt (p_tallocs p) a) as [alloc Hal].
    - rewrite Hl. unfold ts0, zlen. rewrite length_fmap. by apply (gk_ids _ _ K i).
    - exists alloc. split; [done|]. by eapply talloc_max_nonneg, (iv_live _ _ _ _ _ _ _ _ _ _ _ I). }
  rewrite (sm_bufts _ _ _ _ _ _ _ S5), <- Hlen. eapply post_mono; [apply (realloc_ok bufts ids ty Hlen Hty (p_tallocs p) Hids (length ids) 0 s g6 B (Nat.add_0_l _)); [|exact R]| |done].
  - split; [apply (sm_bufts _ _ _ _ _ _ _ S5)|split; [apply (sm_ids _ _ _ _ _ _ _ S5)|apply (sm_talloc _ _ _ _ _ _ _ S5)]].
  - intros [[s' g'] ok] Hr Htrue. destruct (Hr Htrue) as (Hh & [bs ->] & B' & R'). split; [congruence|].
    assert (S6 : sim T bufts ids (ga_buffers (with_buffers g6 bs)) U (with_buffers g6 bs) p) by (destruct S5; by constructor).
    destruct (reserved_ok s s' g (with_buffers g6 bs) p B' (alignments ts0) K) as [H1 H2]; try done.
    + rewrite Hl. unfold ts0, zlen. by rewrite length_fmap.
    + split; [done|]. exists p. split; [done|]. split; [done|]. intros t Ht. by apply sim_planned.
Qed.
End reserving.
