(* ===== verification/GallocInit.v ===== *)
(** Giving the tensors of a graph their addresses. After a successful reservation the
    tensors of a graph of the same links are placed in the buffers at the offsets of the
    plan: no assertion fails, every tensor lies within its buffer, aligned for its type,
    and views point into the tensors they are views of. *)
From S2P Require Import Prelude HashSet Alloc AllocSpec Tensor Buffers Gallocr GallocSpec GallocSafety GallocExec GallocBuffers GallocReserve.

(** A graph that is built anew for the same computation: its tensors are linked in the
    same way, and those that had memory still have. *)
Definition same_links (T T' : heap) : Prop :=
  forall t, t_src (T' t) = t_src (T t) /\ t_view_src (T' t) = t_view_src (T t) /\ t_data (T' t) = t_data (T t).

(** The tensors that are to be placed are in no buffer yet and not empty; leafs that are
    views were placed before; the size of every leaf to be placed is seen by a node. *)
Record ready `{BufferTypes} (T : heap) (graph : ggml_cgraph) (U : gset Z) : Prop := {
  rd_buffer : forall t, placed T t = true -> t_buffer (T t) = None;
  rd_size   : forall t b, t ∈ U -> placed T t = true -> 0 < buft_get_alloc_size b (T t);
  rd_leaf   : forall t, t ∈ cg_leafs graph -> t_view_src (T t) <> None -> t_buffer (T t) <> None;
  rd_read   : forall t, t ∈ cg_leafs graph -> placed T t = true -> exists n, n ∈ cg_nodes graph /\ Some t ∈ t_src (T n)
}.

Lemma forallb_false {A} (f : A -> bool) l : forallb f l = false -> exists x, x ∈ l /\ f x = false.
Proof.
  induction l as [|x l IH]; cbn; [done|]. destruct (f x) eqn:E; [|intros _; exists x; split; [by left|done]].
  intros Hl. destruct (IH Hl) as (y & Hy & Ey). exists y. split; [by right|done].
Qed.

Section init.
Context {BT : BufferTypes} (T T' : heap) (bufts ids : list Z) (graph : ggml_cgraph) (U : gset Z).
Context (Hgt : graph_tensors T graph U) (HU : forall t, t ∈ U -> t ∈ cg_leafs graph \/ t ∈ cg_nodes graph).
Context (Hwf : graph_ok T graph).
Context (s : store) (g : ggml_gallocr) (p : planner).
Context (R : reserved bufts ids T graph U s g p).
Context (Hsame : same_links T T') (Hready : ready T' graph U).

Lemma placed_same t : placed T' t = placed T t.
Proof using Hsame. destruct (Hsame t) as (_ & E1 & E2). unfold placed. by rewrite E1, E2. Qed.

Lemma has_place_same t : has_place (T' t) = has_place (T t).
Proof using Hsame. destruct (Hsame t) as (_ & E1 & E2). unfold has_place. by rewrite E1, E2. Qed.

(** ** Whether the places are large enough *)

Definition fits_now (t : Z) : bool :=
  has_place (T' t) ||
  match zlookup bufts (place p t).1 with
  | Some b => buft_get_alloc_size b (T' t) <=? size_in T bufts (place p t).1 t
  | None => false
  end.

Lemma node_fits_ok t : t ∈ U -> ggml_gallocr_node_needs_realloc T' g t (tensor_place T bufts p t) = Ok (fits_now t).
Proof using Hsame R.
  intros Ht. unfold ggml_gallocr_node_needs_realloc, fits_now, tensor_place. rewrite has_place_same.
  destruct (has_place (T t)) eqn:Ep; cbn [negb orb no_alloc ta_size_max ta_buffer_id]; [done|].
  rewrite has_place_placed in Ep. apply negb_false_iff in Ep.
  destruct (rs_fit _ _ _ _ _ _ _ _ R t Ht Ep) as (i & b & x & Ei & _ & _ & (buft & Hb & _) & _).
  rewrite (proj1 (rs_static _ _ _ _ _ _ _ _ R)), Ei, (vget_nat _ _ _ Hb), zlookup_nat, Hb. unfold ggml_assert.
  rewrite (proj2 (Z.leb_le 0 (Z.of_nat i))) by lia. done.
Qed.

Definition src_fits (src : option Z) : bool := match src with Some t => fits_now t | None => true end.

Lemma srcs_fit_ok srcs : (forall t, Some t ∈ srcs -> t ∈ U) ->
  srcs_fit T' g srcs (src_place T bufts p <$> srcs) = Ok (forallb src_fits srcs).
Proof using Hsame R.
  induction srcs as [|src srcs IH]; intros Hin; [done|]. cbn [srcs_fit fmap list_fmap].
  rewrite (vget_Some (src_place T bufts p src :: _) 0 (src_place T bufts p src)) by done. cbn [mbind res_bind tail forallb].
  assert (match src with Some t => ggml_gallocr_node_needs_realloc T' g t (src_place T bufts p src) | None => Ok true end = Ok (src_fits src)) as ->.
  { destruct src as [t|]; [|done]. apply node_fits_ok, Hin. by left. }
  cbn [mbind res_bind]. destruct (src_fits src); [|done]. apply IH. intros t Ht. apply Hin. by right.
Qed.

Definition node_fits (node : Z) : bool := fits_now node && forallb src_fits (t_src (T node)).

Lemma nodes_fit_ok nodes : (forall t, t ∈ nodes -> t ∈ U) -> nodes_fit T' g nodes (node_place T bufts p <$> nodes) = Ok (forallb node_fits nodes).
Proof using Hsame R Hgt.
  induction nodes as [|node nodes IH]; intros Hin; [done|]. cbn [nodes_fit fmap list_fmap].
  rewrite (vget_Some (node_place T bufts p node :: _) 0 (node_place T bufts p node)) by done. cbn [mbind res_bind tail forallb node_place na_dst na_src].
  pose proof (Hin node (list_elem_of_here _ _)) as Hn. rewrite (node_fits_ok node Hn). cbn [mbind res_bind]. unfold node_fits at 1.
  destruct (fits_now node); cbn [andb]; [|done]. rewrite (proj1 (Hsame node)), srcs_fit_ok by (intros t Ht; by apply (gt_src _ _ _ Hgt node)). cbn [mbind res_bind].
  destruct (forallb src_fits (t_src (T node))); [|done]. apply IH. intros t Ht. apply Hin. by right.
Qed.

Lemma needs_realloc_ok : ggml_gallocr_needs_realloc T' g graph = Ok (negb (forallb node_fits (cg_nodes graph))).
Proof using Hsame R Hgt.
  unfold ggml_gallocr_needs_realloc. rewrite (rs_nodes _ _ _ _ _ _ _ _ R), (rs_leafs _ _ _ _ _ _ _ _ R). unfold n_nodes, n_leafs, zlen. rewrite !length_fmap, !Z.eqb_refl. cbn [negb].
  rewrite nodes_fit_ok by apply (gt_nodes _ _ _ Hgt). done.
Qed.

(** All tensors are covered by the test. *)
Lemma all_fit t : forallb node_fits (cg_nodes graph) = true -> t ∈ U -> placed T' t = true -> fits_now t = true.
Proof using Hsame Hready HU.
  intros Hf Ht Hp. rewrite forallb_forall in Hf. destruct (HU t Ht) as [Hl|Hn].
  - destruct (rd_read _ _ _ Hready t Hl Hp) as (n & Hn & Hs). apply list_elem_of_In, Hf, andb_true_iff in Hn as [_ Hsrc].
    rewrite forallb_forall in Hsrc. rewrite (proj1 (Hsame n)) in Hs. by apply list_elem_of_In, Hsrc in Hs.
  - by apply list_elem_of_In, Hf, andb_true_iff in Hn as [? _].
Qed.

(** A place is too small only for a tensor that has grown. *)
Lemma not_fit : forallb node_fits (cg_nodes graph) = false -> exists t buft, t ∈ U /\ buft_get_alloc_size buft (T t) < buft_get_alloc_size buft (T' t).
Proof using Hsame R Hgt.
  assert (Hone : forall t, t ∈ U -> fits_now t = false -> exists t buft, t ∈ U /\ buft_get_alloc_size buft (T t) < buft_get_alloc_size buft (T' t)).
  { intros t Ht Hf. unfold fits_now in Hf. apply orb_false_iff in Hf as [Hp Hf]. rewrite has_place_same, has_place_placed in Hp. apply negb_false_iff in Hp.
    destruct (rs_fit _ _ _ _ _ _ _ _ R t Ht Hp) as (i & b & x & Ei & _ & _ & (buft & Hb & _) & _). exists t, buft. split; [done|].
    unfold size_in in Hf. rewrite Ei, zlookup_nat, Hb in Hf. by apply Z.leb_gt. }
  intros (n & Hn & Hnf)%forallb_false. pose proof (gt_nodes _ _ _ Hgt n Hn) as HnU. apply andb_false_iff in Hnf as [Hnf|Hnf]; [by apply (Hone n)|].
  apply forallb_false in Hnf as ([t|] & Ht & Htf); [|done]. apply (Hone t); [by apply (gt_src _ _ _ Hgt n)|done].
Qed.

(** ** The final heap *)

(** The buffer of the place of [t], and the address in it. *)
Definition slot_of (t : Z) : option (Z * Z) :=
  match zlookup (ga_buffers g) (place p t).1 with
  | Some (Some b) => match buf_get s b with Ok x => Some (b, buf_base x + (place p t).2) | Err _ => None end
  | _ => None
  end.

Definition put_at (t : Z) : ggml_tensor :=
  if placed T' t && bool_decide (t ∈ U) then
    match slot_of t with Some (b, a) => placed_at (T' t) b (Some a) | None => T' t end
  else T' t.

Definition final (t : Z) : ggml_tensor :=
  match t_view_src (T' t) with
  | None => put_at t
  | Some r =>
      match t_buffer (T' t), t_buffer (put_at r), t_data (put_at r) with
      | None, Some b, Some d => placed_at (T' t) b (to_ptr (u64 (d + t_view_offs (T' t))))
      | _, _, _ => T' t
      end
  end.

Context (Hfits : forall t, t ∈ U -> placed T' t = true -> fits_now t = true).

(** A tensor of the plan at its address. *)
Record settled (t b a : Z) : Prop := {
  se_slot   : slot_of t = Some (b, a);
  se_buffer : exists i x, (place p t).1 = Z.of_nat i /\ ga_buffers g !! i = Some (Some b) /\ buf_get s b = Ok x /\
    a = buf_base x + (place p t).2 /\ 0 <= (place p t).2 /\ 0 < buf_base x /\ 0 < buf_size x /\
    0 < buft_get_alloc_size (buf_type x) (T' t) /\ a + buft_get_alloc_size (buf_type x) (T' t) <= buf_base x + buf_size x <= SIZE_MAX /\
    (buft_get_alignment (buf_type x) | a)
}.

Lemma settled_ok t : t ∈ U -> placed T' t = true -> exists b a, settled t b a /\ put_at t = placed_at (T' t) b (Some a).
Proof using Hsame R Hready Hfits.
  intros Ht Hp. pose proof Hp as Hp0. rewrite placed_same in Hp0.
  destruct (rs_fit _ _ _ _ _ _ _ _ R t Ht Hp0) as (i & b & x & Ei & Hb & Hx & (buft & Hbuft & Hf & Hal) & Ho & Hle).
  assert (Es : slot_of t = Some (b, buf_base x + (place p t).2)) by (unfold slot_of; by rewrite Ei, zlookup_nat, Hb, Hx).
  pose proof (Hfits t Ht Hp) as Hfit. unfold fits_now in Hfit. rewrite has_place_same, has_place_placed, Hp0 in Hfit. cbn [negb orb] in Hfit.
  rewrite Ei, zlookup_nat, Hbuft in Hfit. apply Z.leb_le in Hfit. rewrite Ei in Hle. pose proof (rd_size _ _ _ Hready t buft Ht Hp) as Hpos.
  pose proof (bf_size _ _ Hf) as Hbs. destruct (bf_base _ _ Hf) as [Hz|Hpb]; [lia|].
  exists b, (buf_base x + (place p t).2). split.
  - constructor; [done|]. exists i, x. rewrite (bf_type _ _ Hf). splits; try done; try lia. apply Z.divide_add_r; [|done]. apply (bf_align _ _ Hf).
  - unfold put_at. rewrite Hp, bool_decide_eq_true_2 by done. cbn [andb]. by rewrite Es.
Qed.

Lemma put_unplaced t : placed T' t = false -> put_at t = T' t.
Proof using. intros Hp. unfold put_at. by rewrite Hp. Qed.

Lemma put_links t : t_view_src (put_at t) = t_view_src (T' t) /\ t_src (put_at t) = t_src (T' t) /\ t_view_offs (put_at t) = t_view_offs (T' t).
Proof using. unfold put_at. destruct (_ && _); [|done]. destruct (slot_of t) as [[b a]|]; done. Qed.

Lemma final_links t : t_view_src (final t) = t_view_src (T' t) /\ t_src (final t) = t_src (T' t) /\ t_view_offs (final t) = t_view_offs (T' t).
Proof using.
  unfold final. destruct (t_view_src (T' t)) as [r|] eqn:Ev; [|rewrite <- Ev; apply put_links].
  rewrite <- Ev. destruct (t_buffer (T' t)); [done|]. destruct (t_buffer (put_at r)); [|done]. by destruct (t_data (put_at r)).
Qed.

(** ** The loops *)

(** Every tensor is as before or as it is to be; the buffers do not change. *)
Definition in_progress (s1 : store) : Prop :=
  (forall t, st_heap s1 t = T' t \/ t ∈ U /\ st_heap s1 t = final t) /\ st_bufs s1 = st_bufs s.

Definition keeps (s1 s2 : store) : Prop := in_progress s2 /\ forall t, st_heap s1 t = final t -> st_heap s2 t = final t.

Lemma stores_keep_refl s1 : in_progress s1 -> keeps s1 s1.
Proof using. by split. Qed.

Lemma stores_keep_trans s1 s2 s3 : keeps s1 s2 -> keeps s2 s3 -> keeps s1 s3.
Proof using. intros [H1 H2] [H3 H4]. split; [done|]. auto. Qed.

Lemma between_links s1 t : in_progress s1 -> t_view_src (st_heap s1 t) = t_view_src (T' t) /\ t_src (st_heap s1 t) = t_src (T' t) /\ t_view_offs (st_heap s1 t) = t_view_offs (T' t).
Proof using. intros [H _]. destruct (H t) as [->|[_ ->]]; [done|apply final_links]. Qed.

Lemma between_get s1 b : in_progress s1 -> buf_get s1 b = buf_get s b.
Proof using. intros [_ E]. unfold buf_get. by rewrite E. Qed.

Lemma set_final s1 t : in_progress s1 -> t ∈ U -> keeps s1 (with_heap s1 (heap_set (st_heap s1) t (final t))) /\ st_heap (with_heap s1 (heap_set (st_heap s1) t (final t))) t = final t.
Proof using.
  intros [H1 H2] Ht. cbn [with_heap st_heap]. unfold heap_set. split; [split; [split; [|done]|]|by rewrite decide_True].
  - intros u. cbn [with_heap st_heap]. unfold heap_set. case_decide as E; [subst; by right|apply H1].
  - intros u Hu. cbn [with_heap st_heap]. unfold heap_set. case_decide as E; [by subst|done].
Qed.

(** A tensor without an address gets the one of its place. *)
Lemma alloc_ok_init s1 t : in_progress s1 -> t ∈ U -> placed T' t = true -> st_heap s1 t = T' t ->
  safe (b ← vget (ga_buffers g) (place p t).1; b ← or_ub b; base ← buffer_get_base s1 b;
        ggml_backend_tensor_alloc s1 b t (u64 (base + (place p t).2)))
    (fun s2 => keeps s1 s2 /\ st_heap s2 t = final t).
Proof using Hsame R Hready Hfits.
  intros Hb Ht Hp E. destruct (settled_ok t Ht Hp) as (b & a & [_ (i & x & Ei & Hg & Hx & Ea & Ho & Hbase & Hsz & Hpos & [Hle Hmax] & _)] & Eput).
  pose proof Hp as Hp'. apply andb_true_iff in Hp' as [Hd%bool_decide_eq_true Hv%bool_decide_eq_true].
  assert (Efin : final t = placed_at (T' t) b (Some a)) by (unfold final; by rewrite Hv).
  rewrite Ei, (vget_nat _ _ _ Hg). cbn [mbind res_bind or_ub].
  assert (Hgb : buffer_get_base s1 b = Ok (buf_base x)).
  { unfold buffer_get_base. rewrite (between_get s1 b Hb), Hx. cbn [mbind res_bind]. destruct (Z.eqb_spec (buf_size x) 0); [lia|].
    destruct (Z.eqb_spec (buf_base x) 0); [lia|]. done. }
  rewrite Hgb. cbn [mbind res_bind]. unfold SIZE_MAX in Hmax. rewrite (u64_small (buf_base x + (place p t).2)) by (unfold SIZE_MAX; lia). rewrite <- Ea.
  unfold ggml_backend_tensor_alloc. rewrite E, (rd_buffer _ _ _ Hready t Hp), Hd, Hv. unfold ggml_assert. rewrite !bool_decide_eq_true_2 by done. cbn [mbind res_bind].
  rewrite Hgb. cbn [mbind res_bind]. rewrite (proj2 (Z.leb_le (buf_base x) a)) by lia. cbn [mbind res_bind].
  unfold buffer_get_alloc_size, buffer_get_size. rewrite (between_get s1 b Hb), Hx. cbn [mbind res_bind].
  rewrite !u64_small by (unfold SIZE_MAX; lia). rewrite (proj2 (Z.leb_le _ _) Hle). cbn [mbind res_bind post].
  assert (to_ptr a = Some a) as -> by (unfold to_ptr; destruct (Z.eqb_spec a 0); [lia|done]). rewrite <- Efin. by apply set_final.
Qed.

(** The tensors that are not to be placed have both a buffer and data, or none. *)
Lemma put_data r b : t_view_src (T' r) = None -> t_buffer (put_at r) = Some b -> exists d, t_data (put_at r) = Some d.
Proof using Hready.
  intros Hv. unfold put_at. destruct (placed T' r && bool_decide (r ∈ U)) eqn:Ep.
  - destruct (slot_of r) as [[b' a]|]; [intros _; by exists a|]. apply andb_true_iff in Ep as [Ep _]. by rewrite (rd_buffer _ _ _ Hready r Ep).
  - destruct (t_data (T' r)) as [d|] eqn:Ed; [by exists d|]. assert (placed T' r = true) as Hp by (unfold placed; by rewrite Ed, Hv).
    by rewrite (rd_buffer _ _ _ Hready r Hp).
Qed.

Lemma init_tensor_ok s1 t : in_progress s1 -> t ∈ U ->
  (forall r, t_view_src (T' t) = Some r -> t_buffer (T' t) = None -> st_heap s1 r = final r) ->
  safe (ggml_gallocr_init_tensor g s1 t (tensor_place T bufts p t)) (fun s2 => keeps s1 s2 /\ st_heap s2 t = final t).
Proof using Hsame R Hready Hfits HU Hwf.
  intros Hb Ht Hroot. unfold ggml_gallocr_init_tensor. destruct (between_links s1 t Hb) as (Ev & _ & Eo). rewrite Ev.
  destruct (t_view_src (T' t)) as [r|] eqn:Evt.
  - assert (Hr : t_view_src (T' r) = None).
    { destruct (Hsame t) as (_ & E1 & _). destruct (Hsame r) as (_ & E2 & _). rewrite E2. apply (go_flat _ _ Hwf t r); [by apply HU|congruence]. }
    destruct (t_buffer (T' t)) as [b0|] eqn:Eb0.
    { assert (final t = T' t) as Ef by (unfold final; by rewrite Evt, Eb0). assert (st_heap s1 t = T' t) as E1 by (destruct (proj1 Hb t) as [?|[_ ?]]; congruence).
      rewrite E1, Eb0. cbn [post]. split; [by apply stores_keep_refl|congruence]. }
    specialize (Hroot r eq_refl eq_refl). assert (Er : final r = put_at r) by (unfold final; by rewrite Hr). rewrite Er in Hroot. rewrite Hroot.
    destruct (t_buffer (put_at r)) as [b|] eqn:Ebr.
    + destruct (put_data r b Hr Ebr) as [d Ed].
      assert (Ef : final t = placed_at (T' t) b (to_ptr (u64 (d + t_view_offs (T' t))))) by (unfold final; by rewrite Evt, Eb0, Ebr, Ed).
      destruct (proj1 Hb t) as [E1|[_ E1]]; rewrite E1.
      * rewrite Eb0. unfold ggml_backend_view_init. rewrite E1, Eb0, Evt. unfold ggml_assert. rewrite !bool_decide_eq_true_2 by (done || by eexists). cbn [mbind res_bind or_ub].
        rewrite Hroot, Ebr, Ed. rewrite !bool_decide_eq_true_2 by (by eexists). cbn [mbind res_bind or_ub post]. rewrite <- Ef. by apply set_final.
      * rewrite Ef. cbn [placed_at t_buffer post]. split; [by apply stores_keep_refl|congruence].
    + assert (final t = T' t) as Ef by (unfold final; by rewrite Evt, Eb0, Ebr). assert (st_heap s1 t = T' t) as E1 by (destruct (proj1 Hb t) as [?|[_ ?]]; congruence).
      rewrite E1, Eb0. cbn [post]. split; [by apply stores_keep_refl|congruence].
  - assert (Ef : final t = put_at t) by (unfold final; by rewrite Evt). destruct (t_data (T' t)) as [d|] eqn:Ed.
    + assert (put_at t = T' t) as Ep by (apply put_unplaced; unfold placed; by rewrite Ed).
      assert (st_heap s1 t = T' t) as E1 by (destruct (proj1 Hb t) as [?|[_ ?]]; congruence). rewrite E1, Ed. cbn [post]. split; [by apply stores_keep_refl|congruence].
    + assert (Hp : placed T' t = true) by (unfold placed; by rewrite Ed, Evt).
      destruct (proj1 Hb t) as [E1|[_ E1]].
      * rewrite E1, Ed. unfold tensor_place. rewrite has_place_placed, <- placed_same, Hp. cbn [negb ta_buffer_id ta_offset].
        by apply alloc_ok_init.
      * destruct (settled_ok t Ht Hp) as (b & a & _ & Eput). rewrite E1, Ef, Eput. cbn [placed_at t_data post]. split; [by apply stores_keep_refl|congruence].
Qed.

(** The tensors that have their final form before node [i]. *)
Definition ready_to (i : nat) (s1 : store) : Prop :=
  in_progress s1 /\ forall t, t ∈ cg_leafs graph \/ t ∈ take i (cg_nodes graph) -> st_heap s1 t = final t.

Lemma ready_keeps i s1 s2 : ready_to i s1 -> keeps s1 s2 -> ready_to i s2.
Proof using. intros [_ H1] [H2 H3]. split; [done|]. auto. Qed.

Lemma root_ready i s1 t r : ready_to i s1 -> t ∈ cg_leafs graph \/ t ∈ take (S i) (cg_nodes graph) ->
  t_view_src (T' t) = Some r -> t_buffer (T' t) = None -> st_heap s1 r = final r.
Proof using Hsame Hready HU Hgt Hwf.
  intros [Hb Hd] Ht Hv Hbuf. destruct Ht as [Ht|Ht].
  { destruct (rd_leaf _ _ _ Hready t Ht); [by rewrite Hv|done]. }
  destruct (Hsame t) as (_ & Ev & _). rewrite Hv in Ev. symmetry in Ev. apply list_elem_of_lookup in Ht as [j Hj]. apply lookup_take_Some in Hj as [Hj Hji].
  destruct (Hsame r) as (_ & Evr & Edr). destruct (t_data (T r)) as [d|] eqn:Ed.
  - assert (t_view_src (T r) = None) as Hr by (apply (go_flat _ _ Hwf t r); [right; by eapply list_elem_of_lookup_2|done]).
    assert (final r = T' r) as Ef.
    { unfold final. rewrite Evr, Hr. apply put_unplaced. unfold placed. by rewrite Edr. }
    destruct (proj1 Hb r) as [?|[_ ?]]; congruence.
  - destruct (go_root _ _ Hwf j t r Hj Ev Ed) as [Hl|(k & Hk & Hkr)]; [apply Hd; by left|]. apply Hd. right.
    apply list_elem_of_lookup. exists k. apply lookup_take_Some. split; [done|lia].
Qed.

Lemma foldM_zip_fmap {A B S'} (f : S' -> A * B -> res S') (h : A -> B) s0 l :
  foldM f s0 (zip l (h <$> l)) = foldM (fun s x => f s (x, h x)) s0 l.
Proof. revert s0. induction l as [|x l IH]; intros s0; [done|]. cbn. destruct (f s0 (x, h x)); cbn; auto. Qed.

Lemma init_leafs_ok s1 : in_progress s1 -> safe (foldM (init_leaf g) s1 (zip (cg_leafs graph) (ga_leaf_allocs g))) (ready_to 0).
Proof using Hsame R Hready Hfits HU Hwf Hgt.
  intros Hb. rewrite (rs_leafs _ _ _ _ _ _ _ _ R), foldM_zip_fmap.
  eapply post_mono; [apply (foldM_post _ (fun seen s2 => in_progress s2 /\ forall t, t ∈ seen -> st_heap s2 t = final t))| |intros e He; exact He].
  - split; [done|]. by intros t ?%elem_of_nil.
  - intros seen t s2 Ht [Hb2 Hd]. unfold init_leaf. cbn [fst snd].
    eapply post_mono; [apply (init_tensor_ok s2 t Hb2 (gt_leafs _ _ _ Hgt t Ht))| |intros e He; exact He].
    + intros r Hv Hbuf. destruct (rd_leaf _ _ _ Hready t Ht); [by rewrite Hv|done].
    + intros s3 [[K1 K2] Ef]. split; [done|]. intros u. rewrite elem_of_app, list_elem_of_singleton. intros [Hu| ->]; [by apply K2, Hd|done].
  - intros s2 [Hb2 Hd]. split; [done|]. intros t [Ht|Ht]; [by apply Hd|by apply elem_of_nil in Ht].
Qed.

Lemma init_node_ok i s1 node : cg_nodes graph !! i = Some node -> ready_to i s1 ->
  safe (init_node g s1 (node, node_place T bufts p node)) (ready_to (S i)).
Proof using Hsame R Hready Hfits HU Hwf Hgt.
  intros Hn Hr. pose proof (list_elem_of_lookup_2 _ _ _ Hn) as Hin. unfold init_node. cbn [fst snd node_place na_src na_dst].
  destruct (between_links s1 node (proj1 Hr)) as (_ & Es & _). rewrite Es, (proj1 (Hsame node)), foldM_zip_fmap.
  eapply post_bind; [apply (foldM_post _ (fun _ s2 => keeps s1 s2))|].
  - apply stores_keep_refl, Hr.
  - intros seen [t|] s2 Ht Hk; unfold init_src; cbn [fst snd src_place]; [|exact Hk].
    assert (Hkn : t ∈ cg_leafs graph \/ t ∈ take (S i) (cg_nodes graph)).
    { destruct (go_topo _ _ Hwf i node t Hn Ht) as [?|(j & Hj & Hjt)]; [by left|right]. apply list_elem_of_lookup. exists j. apply lookup_take_Some. split; [done|lia]. }
    eapply post_mono; [apply (init_tensor_ok s2 t (proj1 Hk) (gt_src _ _ _ Hgt node t (gt_nodes _ _ _ Hgt _ Hin) Ht))| |intros e He; exact He].
    + intros r. apply (root_ready i); [by apply (ready_keeps i s1)|done].
    + intros s3 [Hk3 _]. by apply (stores_keep_trans s1 s2).
  - intros s2 Hk. pose proof (ready_keeps i s1 s2 Hr Hk) as Hr2.
    eapply post_mono; [apply (init_tensor_ok s2 node (proj1 Hr2) (gt_nodes _ _ _ Hgt _ Hin))| |intros e He; exact He].
    + intros r. apply (root_ready i); [done|]. right. rewrite (take_S_r _ _ _ Hn), elem_of_app, list_elem_of_singleton. by right.
    + intros s3 [[K1 K2] Ef]. split; [done|]. intros t. rewrite (take_S_r _ _ _ Hn), elem_of_app, list_elem_of_singleton.
      intros [Ht|[Ht| ->]]; [| |done]; apply K2, (proj2 Hr2); auto.
Qed.

Lemma init_nodes_ok n : forall i s1, (i + n = length (cg_nodes graph))%nat -> ready_to i s1 ->
  safe (foldM (fun s node => init_node g s (node, node_place T bufts p node)) s1 (drop i (cg_nodes graph))) (ready_to (length (cg_nodes graph))).
Proof using Hsame R Hready Hfits HU Hwf Hgt.
  induction n as [|n IH]; intros i s1 Hi Hr.
  - rewrite drop_ge by lia. cbn [foldM post]. by replace (length (cg_nodes graph)) with i by lia.
  - destruct (lookup_lt_is_Some_2 (cg_nodes graph) i ltac:(lia)) as [node Hn]. rewrite (drop_S _ _ _ Hn). cbn [foldM].
    eapply post_bind; [by apply (init_node_ok i)|]. intros s2 Hr2. apply IH; [lia|done].
Qed.

Lemma init_graph_ok : safe (init_graph (with_heap s T') g graph)
  (fun s2 => st_bufs s2 = st_bufs s /\ (forall t, t ∈ U -> st_heap s2 t = final t) /\ forall t, t ∉ U -> st_heap s2 t = T' t).
Proof using Hsame R Hready Hfits HU Hwf Hgt.
  unfold init_graph. set (s1 := with_heap s T'). assert (Hb1 : in_progress s1) by (split; [intros t; by left|done]).
  assert (foldM reset_buffer s1 (ga_buffers g) = Ok s1) as ->.
  { pose proof (rs_live _ _ _ _ _ _ _ _ R) as Hl. induction Hl as [|ob l (b & x & -> & Hx) _ IH]; [done|]. cbn [foldM reset_buffer].
    rewrite (between_get s1 b Hb1), Hx. cbn [mbind res_bind]. exact IH. }
  cbn [mbind res_bind]. eapply post_bind; [by apply init_leafs_ok|]. intros s2 Hr.
  rewrite (rs_nodes _ _ _ _ _ _ _ _ R), foldM_zip_fmap. eapply post_mono; [apply (init_nodes_ok (length (cg_nodes graph)) 0 s2 eq_refl Hr)| |done].
  intros s3 [[H1 H2] H3]. splits; [done| |].
  - intros t Ht. apply H3. rewrite firstn_all. by apply HU.
  - intros t Ht. destruct (H1 t) as [?|[? _]]; [done|by destruct Ht].
Qed.
End init.
