(* ===== verification/GallocCorrect.v ===== *)
(** The graph allocator as a whole: from a new allocator over reservations to placed
    graphs, and what its checks do not see. *)
From S2P Require Import Prelude HashSet Alloc AllocSpec Tensor Buffers Gallocr GallocSpec GallocSafety GallocExec GallocBuffers GallocReserve GallocInit.

(** * New allocators *)

(** An allocator between calls: buffer ids of one allocator have one buffer type, and the
    buffers it holds are alive, one for each allocator. *)
Definition usable `{BufferTypes} (s : store) (g : ggml_gallocr) : Prop :=
  exists ty, length (ga_buf_tallocs g) = length (ga_bufts g) /\
    (forall i a, ga_buf_tallocs g !! i = Some a -> ga_bufts g !! i = Some (ty a)) /\
    gallocr_ok (ga_bufts g) (ga_buf_tallocs g) ty s g.

(** Alignments are even powers of two in practice; even is enough. *)
Definition good_alignment (al : Z) : Prop := 0 < al <= 2 ^ 62 /\ (2 | al).

Section new.
Context `{BufferTypes} (bufts : list Z).

(** After [i] buffer types: [tys] are the types of the allocators made so far. *)
Definition new_inv (i : nat) (st : list Z * list ggml_dyn_tallocr) : Prop :=
  exists tys, st.2 = (fun b => ggml_dyn_tallocr_new (buft_get_alignment b)) <$> tys /\ length st.1 = i /\
    (forall j a, st.1 !! j = Some a -> exists b, zlookup tys a = Some b /\ bufts !! j = Some b) /\
    (forall a b, zlookup tys a = Some b -> a ∈ st.1 /\ b ∈ bufts).

Lemma new_step i st : (i < length bufts)%nat -> new_inv i st -> safe (new_talloc bufts st i) (new_inv (S i)).
Proof.
  intros Hi (tys & Ets & Hl & Hids & Hused). destruct (lookup_lt_is_Some_2 bufts i Hi) as [buft Hb]. unfold new_talloc.
  rewrite (vget_nat _ _ _ Hb). cbn [mbind res_bind]. destruct (find_below buft i bufts) as [j|] eqn:Ef.
  - apply find_below_Some in Ef as [Hj Hjb]. destruct (lookup_lt_is_Some_2 st.1 j ltac:(lia)) as [a Ha].
    rewrite (vget_nat _ _ _ Ha). cbn [mbind res_bind post]. exists tys. cbn [fst snd]. splits; [done|rewrite length_app; cbn; lia| |].
    + intros k c Hk. apply lookup_app_Some in Hk as [Hk|[Hk Hc]]; [by apply Hids|]. apply list_lookup_singleton_Some in Hc as [Hk' <-].
      assert (k = i) as -> by lia. destruct (Hids j a Ha) as (b & Hta & Hjb'). exists b. split; [done|congruence].
    + intros c b Hc. destruct (Hused c b Hc). split; [|done]. apply elem_of_app. by left.
  - cbn [post]. exists (tys ++ [buft]). cbn [fst snd]. assert (Hlen : zlen st.2 = zlen tys) by (rewrite Ets; unfold zlen; by rewrite length_fmap).
    splits; [by rewrite fmap_app, Ets|rewrite length_app; cbn; lia| |].
    + intros k c Hk. apply lookup_app_Some in Hk as [Hk|[Hk Hc]].
      * destruct (Hids k c Hk) as (b & Hc & Hkb). exists b. split; [by apply zlookup_app_l_Some|done].
      * apply list_lookup_singleton_Some in Hc as [Hk' <-]. assert (k = i) as -> by lia. exists buft. rewrite Hlen. split; [apply zlookup_app_len|done].
    + intros c b Hc. destruct (decide (c < zlen tys)) as [Hlt|Hge].
      * pose proof (zlookup_Some_lt _ _ _ Hc) as Hr. destruct (zlookup_lt tys c) as [b' Hb']; [lia|]. pose proof (zlookup_app_l_Some tys [buft] c b' Hb') as E.
        assert (b' = b) as -> by congruence. destruct (Hused c b Hb'). split; [apply elem_of_app; by left|done].
      * pose proof (zlookup_Some_lt _ _ _ Hc) as Hr. unfold zlen in Hr, Hge. rewrite length_app in Hr. cbn in Hr. assert (c = zlen tys) as -> by (unfold zlen; lia).
        rewrite zlookup_app_len in Hc. injection Hc as <-. split; [apply elem_of_app; right; rewrite Hlen; by left|by eapply list_elem_of_lookup_2].
Qed.

Lemma new_n_ok s : (forall b, b ∈ bufts -> good_alignment (buft_get_alignment b)) ->
  safe (ggml_gallocr_new_n bufts) (fun g => ga_bufts g = bufts /\ usable s g).
Proof.
  intros Hal. unfold ggml_gallocr_new_n. eapply (post_bind _ _ (new_inv (length bufts))).
  { assert (Hloop : forall n i st, (i + n = length bufts)%nat -> new_inv i st -> safe (foldM (new_talloc bufts) st (seq i n)) (new_inv (length bufts))).
    { intros n. induction n as [|n IH]; intros i st Hi Hinv; cbn [seq foldM]; [cbn; by replace (length bufts) with i by lia|].
      eapply post_bind; [apply new_step; [lia|done]|]. intros st' Hst'. apply IH; [lia|done]. }
    apply Hloop; [done|]. exists []. cbn. splits; [done|done|done|]. intros a b Hab. apply zlookup_Some_lt in Hab. unfold zlen in Hab. cbn in Hab. lia. }
  intros [ids ts] (tys & Ets & Hl & Hids & Hused). cbn [fst snd] in *. cbn [post ga_bufts]. split; [done|].
  exists (fun a => default 0 (zlookup tys a)). cbn [ga_bufts ga_buf_tallocs]. splits; [done| |].
  - intros i a Ha. destruct (Hids i a Ha) as (b & -> & Hb). done.
  - constructor; cbn; [done|by left| | |].
    + intros a alloc Ha. rewrite Ets, zlookup_fmap in Ha. destruct (zlookup tys a) as [b|] eqn:Eb; [|done]. injection Ha as <-. cbn.
      destruct (Hused a b Eb) as [H1 H2]. splits; [done|done|apply Hal, H2..].
    + intros i a Ha. destruct (Hids i a Ha) as (b & Hb & _). apply zlookup_Some_lt in Hb. rewrite Ets. unfold zlen in *. by rewrite length_fmap.
    + split; [by rewrite length_replicate|]. exists (fun _ => None). split; [by constructor|]. intros i a Ha. apply lookup_replicate. split; [done|].
      apply lookup_lt_Some in Ha. lia.
Qed.
End new.

(** * Reserving and placing *)

(** The tensor [t] of the heap [T] is placed in the store [s]: it is in a live buffer of
    the id that was planned, at the planned offset, aligned, and wholly within. *)
Definition in_place `{BufferTypes} (T : heap) (s : store) (g : ggml_gallocr) (t : Z) : Prop :=
  exists b x, zlookup (ga_buffers g) (planned_place g t).1 = Some (Some b) /\ buf_get s b = Ok x /\
    let addr := buf_base x + (planned_place g t).2 in
    st_heap s t = placed_at (T t) b (Some addr) /\
    0 < buf_base x <= addr /\ addr + buft_get_alloc_size (buf_type x) (T t) <= buf_base x + buf_size x /\
    (buft_get_alignment (buf_type x) | addr).

(** The view [v] of [r] points into the memory of [r]. *)
Definition view_in_place (T : heap) (s : store) (v r : Z) : Prop :=
  exists b a, t_buffer (st_heap s r) = Some b /\ t_data (st_heap s r) = Some a /\
    st_heap s v = placed_at (T v) b (to_ptr (u64 (a + t_view_offs (T v)))).

(** What placing a graph of the heap [T] has done. *)
Record graph_placed `{BufferTypes} (T : heap) (graph : ggml_cgraph) (U : gset Z) (s s' : store) (g : ggml_gallocr) : Prop := {
  gp_bufs  : st_bufs s' = st_bufs s;
  gp_place : forall t, t ∈ U -> placed T t = true -> in_place T s' g t;
  gp_view  : forall v r, v ∈ U -> t_view_src (T v) = Some r -> t_buffer (T v) = None -> placed T r = true -> view_in_place T s' v r;
  gp_rest  : forall t, (t ∉ U \/ t_view_src (T t) = None /\ placed T t = false) -> st_heap s' t = T t
}.

Section graph.
Context {BT : BufferTypes} {SB : SaneBackends} (T : heap) (graph : ggml_cgraph) (U : gset Z) (s : store) (g : ggml_gallocr) (node_ids leaf_ids : option (list Z)).
Context (Hgt : graph_tensors T graph U) (HU : forall t, t ∈ U -> t ∈ cg_leafs graph \/ t ∈ cg_nodes graph).
Context (Hn : 0 < n_nodes graph + n_leafs graph <= INT32_MAX).
Context (HT : st_heap s = T) (Hus : usable s g).
Context (Hpl : planning T graph (ga_bufts g) (ga_buf_tallocs g) (ggml_dyn_tallocr_reset <$> ga_tallocs g) node_ids leaf_ids).

Lemma place_graph s1 g1 p T' :
  reserved (ga_bufts g) (ga_buf_tallocs g) T graph U s1 g1 p -> (forall t, t ∈ U -> planned_place g1 t = place p t) ->
  same_links T T' -> ready T' graph U -> ggml_gallocr_needs_realloc T' g1 graph = Ok false ->
  safe (ggml_gallocr_alloc_graph (with_heap s1 T') g1 graph)
    (fun '(s2, g2, ok) => ok = true /\ g2 = g1 /\ graph_placed T' graph U s1 s2 g1).
Proof using Hgt HU Hpl.
  intros R Hplace Hsame Hready Hneed. pose proof (pn_graph _ _ _ _ _ _ _ Hpl) as Hwf.
  pose proof (needs_realloc_ok T T' (ga_bufts g) (ga_buf_tallocs g) graph U Hgt s1 g1 p R Hsame) as E. rewrite Hneed in E. injection E as E. symmetry in E. apply negb_false_iff in E.
  pose proof (all_fit T T' (ga_bufts g) graph U HU p Hsame Hready) as Hall.
  assert (Hfits : forall t, t ∈ U -> placed T' t = true -> fits_now T T' (ga_bufts g) p t = true) by (intros t Ht Hp; by apply Hall).
  unfold ggml_gallocr_alloc_graph. cbn [with_heap st_heap]. rewrite Hneed. cbn [mbind res_bind].
  eapply post_bind; [apply (init_graph_ok T T' (ga_bufts g) (ga_buf_tallocs g) graph U Hgt HU Hwf s1 g1 p R Hsame Hready Hfits)|].
  intros s2 (Hbufs & Hfin & Hrest). cbn [post]. splits; [done|done|]. constructor; [done| | |].
  - intros t Ht Hp. destruct (settled_ok T T' (ga_bufts g) (ga_buf_tallocs g) graph U s1 g1 p R Hsame Hready Hfits t Ht Hp) as (b & a & [_ (i & x & Ei & Hb & Hx & Ea & Ho & Hbase & _ & _ & [Hle _] & Hal)] & Eput).
    exists b, x. rewrite (Hplace t Ht). split; [by rewrite Ei, zlookup_nat|]. split; [unfold buf_get in *; by rewrite Hbufs|].
    cbv zeta. rewrite <- Ea. split; [|split; [lia|split; [lia|done]]]. rewrite (Hfin t Ht). unfold final.
    pose proof Hp as Hp'. apply andb_true_iff in Hp' as [_ Hv%bool_decide_eq_true]. by rewrite Hv.
  - intros v r Hv Hvr Hvb Hp. assert (Hr : r ∈ U) by (apply (gt_view _ _ _ Hgt v); [done|]; rewrite <- (proj1 (proj2 (Hsame v))); done).
    destruct (settled_ok T T' (ga_bufts g) (ga_buf_tallocs g) graph U s1 g1 p R Hsame Hready Hfits r Hr Hp) as (b & a & _ & Eput).
    pose proof Hp as Hp'. apply andb_true_iff in Hp' as [_ Hrv%bool_decide_eq_true].
    assert (Er : st_heap s2 r = placed_at (T' r) b (Some a)) by (rewrite (Hfin r Hr); unfold final; by rewrite Hrv).
    exists b, a. rewrite Er. splits; [done|done|]. rewrite (Hfin v Hv). unfold final. rewrite Hvr, Hvb, Eput. done.
  - intros t Ht. destruct (decide (t ∈ U)) as [HtU|Hno]; [|by apply Hrest]. destruct Ht as [?|[Hv Hp]]; [done|].
    rewrite (Hfin t HtU). unfold final. rewrite Hv. by apply put_unplaced.
Qed.

Lemma reserve_usable :
  post (ggml_gallocr_reserve_n s g graph node_ids leaf_ids)
    (fun '(s1, g1, ok) => ok = true -> usable s1 g1 /\ st_heap s1 = T /\ exists p,
       plan_graph T (ga_bufts g) (ga_buf_tallocs g) (ggml_dyn_tallocr_reset <$> ga_tallocs g) graph node_ids leaf_ids = Ok p /\
       ga_buf_tallocs g1 = ga_buf_tallocs g /\
       reserved (ga_bufts g) (ga_buf_tallocs g) T graph U s1 g1 p /\ forall t, t ∈ U -> planned_place g1 t = place p t)
    (fun e => e = Abort).
Proof using SB Hgt HU Hn HT Hus Hpl.
  destruct Hus as (ty & Hlen & Hty & K).
  eapply post_mono; [apply (reserve_ok _ _ ty Hlen Hty T graph U node_ids leaf_ids Hgt HU s g HT K Hn Hpl)| |done].
  intros [[s1 g1] ok] Hr Hok. destruct (Hr Hok) as (H1 & K1 & p & Ep & R & Hplace). destruct (gk_static _ _ _ _ _ K1) as [E1 E2].
  split; [|split; [done|by exists p]]. exists ty. by rewrite E1, E2.
Qed.
End graph.

Lemma reserve_alloc_ok {BT : BufferTypes} {SB : SaneBackends} {V} T graph U s g node_ids leaf_ids nbytes (kern : Z -> list (option (list V)) -> option (list V) -> list V) :
  graph_tensors T graph U -> (forall t, t ∈ U -> t ∈ cg_leafs graph \/ t ∈ cg_nodes graph) -> 0 < n_nodes graph + n_leafs graph <= INT32_MAX ->
  st_heap s = T -> usable s g ->
  planning T graph (ga_bufts g) (ga_buf_tallocs g) (ggml_dyn_tallocr_reset <$> ga_tallocs g) node_ids leaf_ids ->
  (forall t b, t ∈ ts graph -> 0 <= nbytes t <= buft_get_alloc_size b (T t)) ->
  (forall t xs old, zlen (kern t xs old) = nbytes (root_of T t)) ->
  post (ggml_gallocr_reserve_n s g graph node_ids leaf_ids)
    (fun '(s1, g1, ok) => ok = true ->
       usable s1 g1 /\ st_heap s1 = T /\
       computes_apart T graph nbytes kern (ga_buf_tallocs g1) (planned_place g1) /\
       forall T', same_links T T' -> ready T' graph U ->
         match ggml_gallocr_needs_realloc T' g1 graph with
         | Ok false => safe (ggml_gallocr_alloc_graph (with_heap s1 T') g1 graph)
                         (fun '(s2, g2, ok2) => ok2 = true /\ g2 = g1 /\ graph_placed T' graph U s1 s2 g1)
         | Ok true => exists t buft, t ∈ U /\ buft_get_alloc_size buft (T t) < buft_get_alloc_size buft (T' t)
         | Err _ => False
         end)
    (fun e => e = Abort).
Proof.
  intros Hgt HU Hn HT Hus Hpl Hbytes Hkern. eapply post_mono; [by apply (reserve_usable T graph U s g node_ids leaf_ids)| |done].
  intros [[s1 g1] ok] Hr Hok. destruct (Hr Hok) as (H1 & H2 & p & Ep & Eids & R & Hplace). splits; [done|done| |].
  - rewrite Eids. by apply (plan_computes T graph U (with_tallocs g (ggml_dyn_tallocr_reset <$> ga_tallocs g)) node_ids leaf_ids nbytes kern Hgt Hpl Hbytes Hkern p).
  - intros T' Hsame Hready. destruct (ggml_gallocr_needs_realloc T' g1 graph) as [[|]|e] eqn:E.
    + rewrite (needs_realloc_ok T T' (ga_bufts g) (ga_buf_tallocs g) graph U Hgt s1 g1 p R Hsame) in E. injection E as E. apply negb_true_iff in E.
      by apply (not_fit T T' (ga_bufts g) (ga_buf_tallocs g) graph U Hgt s1 g1 p R Hsame).
    + by apply (place_graph T graph U g node_ids leaf_ids Hgt HU Hpl s1 g1 p T').
    + by rewrite (needs_realloc_ok T T' (ga_bufts g) (ga_buf_tallocs g) graph U Hgt s1 g1 p R Hsame) in E.
Qed.


(** * Examples *)

Module PlaceExample.
Import GraphExample.

Definition demo_store : store := {| st_heap := demo_heap; st_bufs := []; st_requests := 0 |}.

Lemma place_demo_sane : @SaneBackends four_bytes.
Proof.
  intros w buft size base sz Hs. cbn. destruct (Z.leb_spec size (2 ^ 40)) as [Hle|]; [|done]. intros [= <- <-]. change (2 ^ 40) with 1099511627776 in Hle. unfold SIZE_MAX.
  splits; [lia|lia|lia|by exists 128].
Qed.

Lemma place_demo_ready : @ready four_bytes demo_heap demo_graph demo_tensors.
Proof.
  constructor.
  - intros t _. unfold demo_heap. repeat case_match; done.
  - intros t b _ _. cbn. lia.
  - intros t Ht Hv. cbn in Ht. demo_case; by destruct Hv.
  - intros t Ht Hp. cbn in Ht. demo_case; [|discriminate Hp]. exists 48. split; [cbn; set_solver|by apply src_array_elem; left].
Qed.

Lemma demo_same : same_links demo_heap demo_heap.
Proof. by intros t. Qed.

Lemma demo_in_graph t : t ∈ demo_tensors -> t ∈ cg_leafs demo_graph \/ t ∈ cg_nodes demo_graph.
Proof. intros Ht. demo_case; cbn; set_solver. Qed.

(** Tensors of floats without elements. *)
Definition empty_tensor (op : ggml_op) (srcs : list Z) : ggml_tensor :=
  {| t_type := 0; t_buffer := None; t_ne := [0; 1; 1; 1]; t_nb := [4; 0; 0; 0]; t_op := op; t_flags := 0;
     t_src := src_array srcs; t_view_src := None; t_view_offs := 0; t_data := None; t_name := [] |}.

Definition empty_heap : heap := fun t => if t =? 48 then empty_tensor GGML_OP_SIN [16] else empty_tensor GGML_OP_NONE [].

Definition plain_bytes : BufferTypes := {|
  iface_get_alignment := fun _ => 32; iface_get_max_size := fun _ => None;
  iface_get_alloc_size := fun _ => None; iface_alloc_buffer := fun _ _ size => Some (4096, size) |}.

(** A chain of nodes, and another graph in which the last node reads the first one. *)
Definition chain_heap (last_src : Z) : heap := fun t =>
  if t =? 16 then demo_tensor GGML_OP_NONE 1 [] None None
  else if t =? 48 then demo_tensor GGML_OP_SIN 0 [16] None None
  else if t =? 64 then demo_tensor GGML_OP_SIN 0 [48] None None
  else if t =? 80 then demo_tensor GGML_OP_SIN 0 [64] None None
  else if t =? 96 then demo_tensor GGML_OP_SIN 2 [last_src] None None
  else demo_tensor GGML_OP_NONE 0 [] None (Some 0).

Definition chain_graph : ggml_cgraph := plain_graph [48; 64; 80; 96] [16].

(** Memory for one buffer only. *)
Definition one_buffer : BufferTypes := {|
  iface_get_alignment := fun _ => 32; iface_get_max_size := fun _ => None;
  iface_get_alloc_size := fun _ => Some (fun _ => 4);
  iface_alloc_buffer := fun w _ size => match w with O => Some (4096, size) | _ => None end |}.

Definition store_of (T : heap) : store := {| st_heap := T; st_bufs := []; st_requests := 0 |}.
End PlaceExample.

(** A graph without any element cannot be allocated: the buffer of size zero has no base,
    so the input still has no data when it is visited again as a source, and the assertion
    that it is in no buffer fails. *)
Lemma empty_graph_aborts :
  (g ← @ggml_gallocr_new PlaceExample.plain_bytes 7;
   '(s, g, ok) ← @ggml_gallocr_reserve PlaceExample.plain_bytes (PlaceExample.store_of PlaceExample.empty_heap) g (GraphExample.plain_graph [48] [16]);
   _ ← ggml_assert ok;
   Ok (@ggml_gallocr_alloc_graph PlaceExample.plain_bytes s g (GraphExample.plain_graph [48] [16]))) = Ok (Err Abort).
Proof. vm_compute. reflexivity. Qed.

(** The header says that the buffers are reallocated when the topology changes. The check
    looks at the numbers of tensors and their sizes only: a graph in which the last node
    reads the first one is accepted with the plan of a chain, in which the first node has
    given its memory to the third. *)
Lemma topology_is_not_checked :
  (g ← @ggml_gallocr_new GraphExample.four_bytes 7;
   '(s, g, _) ← @ggml_gallocr_reserve GraphExample.four_bytes (PlaceExample.store_of (PlaceExample.chain_heap 80)) g PlaceExample.chain_graph;
   '(s, g, ok) ← @ggml_gallocr_alloc_graph GraphExample.four_bytes (with_heap s (PlaceExample.chain_heap 48)) g PlaceExample.chain_graph;
   Ok (ok, t_data (st_heap s 48), t_data (st_heap s 80), t_src (st_heap s 96) !! 0%nat)) = Ok (true, Some 4128, Some 4128, Some (Some 48)).
Proof. vm_compute. reflexivity. Qed.

(** Two buffer ids of one type share a buffer. When the larger buffer of a second
    reservation is refused, the first id forgets the freed buffer but the second one still
    holds it, and freeing the allocator frees it again. *)
Lemma failed_reserve_double_free :
  (g ← @ggml_gallocr_new_n PlaceExample.one_buffer [7; 7];
   '(s, g, ok1) ← @ggml_gallocr_reserve PlaceExample.one_buffer (PlaceExample.store_of (PlaceExample.chain_heap 80)) g (GraphExample.plain_graph [] [16]);
   '(s, g, ok2) ← @ggml_gallocr_reserve PlaceExample.one_buffer s g PlaceExample.chain_graph;
   Ok (ok1, ok2, ggml_gallocr_free s g)) = Ok (true, false, Err UB).
Proof. vm_compute. reflexivity. Qed.

