(* ===== verification/GraphAlloc.v ===== *)
(** From tensors to memory: the graph that is built for some outputs is a graph that the
    allocator can plan and place. Here the theorems on building (GraphSpec), planning
    (GallocExec) and placing (GallocCorrect) meet, in the order in which a context uses
    them. *)
From S2P Require Import Prelude HashSet Alloc AllocSpec Tensor Graph GraphSpec Buffers Gallocr GallocSpec GallocSafety GallocExec GallocBuffers GallocReserve GallocInit GallocCorrect.

(** What the constructors of operations make of tensors: no cycles, constants have no
    sources, inputs are not computed, and a view is an operation on something that leads
    to the tensor that holds its data, which is no view. The tensors [U] are closed under
    sources; [rank] bounds the length of a chain of sources. *)
Record buildable (T : heap) (U : gset Z) (rank : Z -> nat) : Prop := {
  bd_src   : forall t s, t ∈ U -> source T t s -> s ∈ U /\ (rank s < rank t)%nat /\ is_leaf (T t) = false;
  bd_flags : forall t, t ∈ U -> has_flag (T t) GGML_TENSOR_FLAG_PARAM = false /\
               (has_flag (T t) GGML_TENSOR_FLAG_INPUT = true -> t_op (T t) = GGML_OP_NONE);
  bd_view  : forall v r, v ∈ U -> t_view_src (T v) = Some r ->
               t_view_src (T r) = None /\ t_op (T v) <> GGML_OP_NONE /\ exists s, source T v s /\ depends T s r;
  bd_free  : forall t, placed T t = true -> t_buffer (T t) = None
}.

Lemma but_names_fields T T' t : but_names T T' ->
  t_op (T' t) = t_op (T t) /\ t_flags (T' t) = t_flags (T t) /\ t_src (T' t) = t_src (T t) /\ t_view_src (T' t) = t_view_src (T t) /\
  t_data (T' t) = t_data (T t) /\ t_buffer (T' t) = t_buffer (T t) /\
  t_type (T' t) = t_type (T t) /\ t_ne (T' t) = t_ne (T t) /\ t_nb (T' t) = t_nb (T t).
Proof.
  intros H. pose proof (H t) as E. unfold unnamed in E. injection E as E1 E2 E3 E4 E5 E6 E7 E8 E9 E10. by splits.
Qed.

Lemma but_names_placed T T' t : but_names T T' -> placed T' t = placed T t.
Proof. intros H. destruct (but_names_fields T T' t H) as (_ & _ & _ & E1 & E2 & _). unfold placed. by rewrite E1, E2. Qed.

Lemma but_names_root T T' t : but_names T T' -> root_of T' t = root_of T t.
Proof. intros H. destruct (but_names_fields T T' t H) as (_ & _ & _ & E & _). unfold root_of. by rewrite E. Qed.

Section built.
Context (T : heap) (U : gset Z) (rank : Z -> nat) (outputs : list Z) (T1 : heap) (g : ggml_cgraph).
Context (Hbd : buildable T U rank) (Hout : forall o, o ∈ outputs -> o ∈ U) (Hb : built T outputs T1 g).
Local Abbreviation N := (cg_nodes g).
Local Abbreviation L := (cg_leafs g).

Lemma built_names : but_names T T1.
Proof using Hb. apply Hb. Qed.

Lemma built_nodup : NoDup N /\ NoDup L.
Proof using Hb. by destruct Hb as (_ & H1 & H2 & _). Qed.

Lemma built_leaf t : t ∈ L -> is_leaf (T t) = true.
Proof using Hb. destruct Hb as (_ & _ & _ & _ & HL & _). by intros [H _]%HL. Qed.

Lemma built_node t : t ∈ N -> is_leaf (T t) = false.
Proof using Hb. destruct Hb as (_ & _ & _ & _ & _ & HN). by intros [H _]%HN. Qed.

Lemma built_in t : t ∈ L \/ t ∈ N <-> exists o, o ∈ outputs /\ depends T o t.
Proof using Hb.
  destruct Hb as (_ & _ & _ & _ & HL & HN). rewrite HL, HN. destruct (is_leaf (T t)); naive_solver.
Qed.

Lemma depends_U t s : depends T t s -> t ∈ U -> s ∈ U.
Proof using Hbd. induction 1 as [t|t u s Hs _ IH]; [done|]. intros Ht. apply IH. by apply (bd_src _ _ _ Hbd t u). Qed.

Lemma built_U t : t ∈ L \/ t ∈ N -> t ∈ U.
Proof using Hbd Hout Hb. intros (o & Ho & Hd)%built_in. by apply (depends_U o t Hd), Hout. Qed.

Lemma built_depends t s : t ∈ L \/ t ∈ N -> depends T t s -> s ∈ L \/ s ∈ N.
Proof using Hb. rewrite !built_in. intros (o & Ho & Hd) Hs. exists o. split; [done|]. by transitivity t. Qed.

(** What a node depends on through a source comes before it. *)
Lemma built_before i s r : s ∈ L \/ (exists j, (j < i)%nat /\ N !! j = Some s) -> depends T s r ->
  r ∈ L \/ exists j, (j < i)%nat /\ N !! j = Some r.
Proof using Hbd Hout Hb.
  intros Hs Hd. revert Hs. induction Hd as [s|s u r Hsu _ IH]; [done|]. intros Hs. apply IH. destruct Hs as [Hs|(j & Hj & Hs)].
  - destruct (bd_src _ _ _ Hbd s u) as (_ & _ & Hn); [apply built_U; by left|done|]. apply built_leaf in Hs. congruence.
  - destruct Hb as (_ & _ & _ & Htopo & _). destruct (Htopo j s u Hs Hsu) as [?|(k & Hk & Hu)]; [by left|right]. exists k. split; [lia|done].
Qed.

Lemma leaf_op t : t ∈ U -> is_leaf (T t) = true <-> t_op (T t) = GGML_OP_NONE.
Proof using Hbd.
  intros Ht. destruct (bd_flags _ _ _ Hbd t Ht) as [Hp _]. unfold is_leaf. rewrite Hp, andb_true_r. apply bool_decide_eq_true.
Qed.

(** The graph meets the conditions of the planner. *)
Lemma built_graph_ok : graph_ok T1 g.
Proof using Hbd Hout Hb.
  pose proof built_names as Hn. pose proof Hb as (_ & HN & HL & Htopo & _). pose proof built_U as HU. constructor.
  - done.
  - intros t Ht%built_node Hl%built_leaf. congruence.
  - intros t Ht. destruct (but_names_fields T T1 t Hn) as (-> & _). apply leaf_op; [apply HU; by left|by apply built_leaf].
  - intros t Ht. unfold is_input, has_flag. destruct (but_names_fields T T1 t Hn) as (-> & -> & _). intros Hi. by apply (bd_flags _ _ _ Hbd t); [apply HU; right|].
  - intros t Ht _. destruct (but_names_fields T T1 t Hn) as (-> & _). intros Hop%leaf_op; [|apply HU; by right]. apply built_node in Ht. congruence.
  - intros i t s Hi. destruct (but_names_fields T T1 t Hn) as (_ & _ & -> & _). by apply Htopo.
  - intros v r Hv. destruct (but_names_fields T T1 v Hn) as (_ & _ & _ & -> & _). destruct (but_names_fields T T1 r Hn) as (_ & _ & _ & -> & _).
    intros Hr. by apply (bd_view _ _ _ Hbd v r (HU v Hv)).
  - intros i v r Hi. destruct (but_names_fields T T1 v Hn) as (_ & _ & _ & -> & _). intros Hr _.
    assert (Hv : v ∈ N) by by eapply list_elem_of_lookup_2. destruct (bd_view _ _ _ Hbd v r (HU v (or_intror Hv)) Hr) as (_ & _ & s & Hs & Hd).
    apply (built_before i s r); [by apply (Htopo i v s)|done].
  - intros i t s r Hi. destruct (but_names_fields T T1 t Hn) as (_ & _ & -> & _). destruct (but_names_fields T T1 s Hn) as (-> & _ & _ & -> & _). intros Hs Hr _.
    assert (Hin : s ∈ L \/ s ∈ N) by (destruct (Htopo i t s Hi Hs) as [?|(j & _ & Hj)]; [by left|right; by eapply list_elem_of_lookup_2]).
    destruct (bd_view _ _ _ Hbd s r (HU s Hin) Hr) as (_ & Hop & _). split; [|done]. destruct Hin as [Hl|?]; [|done]. apply built_leaf, leaf_op in Hl; [done|]. 
    apply (bd_src _ _ _ Hbd t s); [apply HU; right; by eapply list_elem_of_lookup_2|done].
Qed.
End built.

Lemma usable_bufs `{BufferTypes} s s' g : st_bufs s' = st_bufs s -> usable s g -> usable s' g.
Proof.
  intros E (ty & Hlen & Hty & [K1 K2 K3 K4 (K5 & B & [L1 L2] & K6)]). exists ty. splits; [done|done|]. constructor; [done..|].
  split; [done|]. exists B. split; [|done]. constructor; [|done]. intros a b Ha. destruct (L1 a b Ha) as (x & Hx & Hf). exists x.
  split; [|done]. unfold buf_get in *. by rewrite E.
Qed.

Lemma usable_fresh `{BufferTypes} s g : usable s g -> fresh_tallocs (zlen (ggml_dyn_tallocr_reset <$> ga_tallocs g)) (ggml_dyn_tallocr_reset <$> ga_tallocs g).
Proof.
  intros (ty & _ & _ & K). split; [done|]. intros a alloc Ha. rewrite zlookup_fmap in Ha.
  destruct (zlookup (ga_tallocs g) a) as [alloc'|] eqn:E; [|done]. injection Ha as <-. destruct (gk_tallocs _ _ _ _ _ K a alloc' E) as (_ & _ & H1 & H2).
  by exists (da_alignment alloc').
Qed.

(** The tensors of a graph. *)
Definition graph_set (g : ggml_cgraph) : gset Z := list_to_set (cg_leafs g ++ cg_nodes g).

Lemma graph_set_elem g t : t ∈ graph_set g <-> t ∈ cg_leafs g \/ t ∈ cg_nodes g.
Proof. unfold graph_set. by rewrite elem_of_list_to_set, elem_of_app. Qed.

Section alloc.
Context {BT : BufferTypes} (T : heap) (U : gset Z) (rank : Z -> nat) (outputs : list Z) (T1 : heap) (g : ggml_cgraph).
Context (Hbd : buildable T U rank) (Hout : forall o, o ∈ outputs -> o ∈ U /\ is_leaf (T o) = false) (Hb : built T outputs T1 g).
(** The size of a tensor depends on its layout. *)
Context (Hlay : forall b x y, ggml_are_same_layout x y = true -> buft_get_alloc_size b x = buft_get_alloc_size b y).
Context (Hsize : forall b t, t ∈ U -> 0 <= buft_get_alloc_size b (T t) < 2 ^ 62 /\ (placed T t = true -> 0 < buft_get_alloc_size b (T t))).

Lemma built_set t : t ∈ graph_set g -> t ∈ U.
Proof using Hbd Hout Hb. rewrite graph_set_elem. apply (built_U T U rank outputs T1 g Hbd); [|done]. intros o Ho. by apply Hout. Qed.

Lemma same_size b t : buft_get_alloc_size b (T1 t) = buft_get_alloc_size b (T t).
Proof using Hb Hlay.
  apply Hlay. destruct (but_names_fields T T1 t (built_names _ _ _ _ Hb)) as (_ & _ & _ & _ & _ & _ & E1 & E2 & E3).
  unfold ggml_are_same_layout. by rewrite E1, E2, E3, Z.eqb_refl, !bool_decide_eq_true_2.
Qed.

Lemma built_tensors : graph_tensors T1 g (graph_set g).
Proof using Hbd Hout Hb.
  pose proof (built_names _ _ _ _ Hb) as Hn. constructor.
  - intros t Ht. apply graph_set_elem. by right.
  - intros t Ht. apply graph_set_elem. by left.
  - intros t s Ht. destruct (but_names_fields T T1 t Hn) as (_ & _ & -> & _). intros Hs. rewrite graph_set_elem in *.
    apply (built_depends T outputs T1 g Hb t); [done|by apply rtc_once].
  - intros v r Hv. destruct (but_names_fields T T1 v Hn) as (_ & _ & _ & -> & _). intros Hr.
    destruct (bd_view _ _ _ Hbd v r (built_set v Hv) Hr) as (_ & _ & s & Hs & Hd). rewrite graph_set_elem in *.
    apply (built_depends T outputs T1 g Hb v); [done|by eapply rtc_l].
Qed.

Lemma built_ready : ready T1 g (graph_set g).
Proof using Hbd Hout Hb Hlay Hsize.
  pose proof (built_names _ _ _ _ Hb) as Hn. constructor.
  - intros t. rewrite (but_names_placed T T1 t Hn). destruct (but_names_fields T T1 t Hn) as (_ & _ & _ & _ & _ & -> & _). apply (bd_free _ _ _ Hbd).
  - intros t b Ht. rewrite (but_names_placed T T1 t Hn), same_size. apply (Hsize b t (built_set t Ht)).
  - intros t Ht. destruct (but_names_fields T T1 t Hn) as (_ & _ & _ & -> & _). destruct (t_view_src (T t)) as [r|] eqn:Er; [|done]. intros _.
    assert (HU : t ∈ U) by (apply built_set, graph_set_elem; by left). destruct (bd_view _ _ _ Hbd t r HU Er) as (_ & Hop & _).
    destruct Hop. apply (leaf_op T U rank Hbd t HU). by apply (built_leaf T outputs T1 g Hb).
  - intros t Ht _. destruct (proj1 (built_in T outputs T1 g Hb t) (or_introl Ht)) as (o & Ho & [->|(n & Hon & Hnt)]%rtc_inv_r).
    + pose proof (built_leaf T outputs T1 g Hb t Ht). destruct (Hout t Ho). congruence.
    + exists n. assert (Hin : n ∈ cg_leafs g \/ n ∈ cg_nodes g) by (apply (built_in T outputs T1 g Hb); by exists o).
      destruct (but_names_fields T T1 n Hn) as (_ & _ & -> & _). split; [|exact Hnt]. destruct Hin as [Hl|?]; [|done].
      destruct (bd_src _ _ _ Hbd n t) as (_ & _ & Hf); [apply built_set, graph_set_elem; by left|done|].
      pose proof (built_leaf T outputs T1 g Hb n Hl). congruence.
Qed.

Lemma built_count : outputs <> [] -> Z.of_nat (size U) <= INT32_MAX -> 0 < n_nodes g + n_leafs g <= INT32_MAX.
Proof using Hbd Hout Hb.
  intros Hne Hmax. destruct (built_nodup _ _ _ _ Hb) as [HN HL].
  assert (Hnd : NoDup (cg_leafs g ++ cg_nodes g)).
  { apply NoDup_app. splits; [done| |done]. intros t Hl%(built_leaf T outputs T1 g Hb) Hn%(built_node T outputs T1 g Hb). congruence. }
  assert (Hle : (length (cg_leafs g ++ cg_nodes g) <= size U)%nat).
  { rewrite <- (size_list_to_set (C := gset Z)) by done. apply subseteq_size. intros t Ht. by apply built_set. }
  rewrite length_app in Hle. unfold n_nodes, n_leafs, zlen. split; [|lia].
  destruct outputs as [|o os]; [done|]. assert (Hin : o ∈ cg_leafs g \/ o ∈ cg_nodes g) by (apply (built_in T (o :: os) T1 g Hb); exists o; split; [by left|done]).
  destruct Hin as [Hin|Hin]; apply list_elem_of_lookup in Hin as [i Hi%lookup_lt_Some]; lia.
Qed.

Lemma built_planning s galloc : usable s galloc -> ga_bufts galloc <> [] ->
  planning T1 g (ga_bufts galloc) (ga_buf_tallocs galloc) (ggml_dyn_tallocr_reset <$> ga_tallocs galloc) None None.
Proof using Hbd Hout Hb Hlay Hsize.
  intros Hus Hne.
  assert (Hid : forall i, exists id, get_node_buffer_id None i = Ok id /\
    valid_id (ga_bufts galloc) (ga_buf_tallocs galloc) (zlen (ggml_dyn_tallocr_reset <$> ga_tallocs galloc)) id).
  { intros i. exists 0. split; [done|]. split; [done|]. destruct Hus as (ty & Hlen & Hty & K).
    destruct (ga_bufts galloc) as [|b bs]; [done|]. destruct (ga_buf_tallocs galloc) as [|a ids] eqn:Eids; [done|].
    exists a, b. split; [done|]. split; [done|]. unfold zlen. rewrite length_fmap. apply (gk_ids _ _ _ _ _ K 0%nat a). done. }
  constructor.
  - apply (built_graph_ok T U rank outputs T1 g Hbd); [|done]. intros o Ho. by apply Hout.
  - intros b t Ht. rewrite same_size. apply Hsize, built_set, graph_set_elem. unfold ts in Ht. by rewrite elem_of_remove_dups, elem_of_app in Ht.
  - intros b t u. apply Hlay.
  - intros i node _. apply Hid.
  - intros i leaf _. apply Hid.
  - by apply (usable_fresh s).
Qed.
End alloc.

(** * The whole path *)

(** A graph is built for the outputs, memory is reserved for it, and its tensors are
    placed; the last results are the allocator and whether there was memory. *)
Definition build_and_alloc `{BufferTypes} (fuel : nat) (s : store) (galloc : ggml_gallocr) (n : Z) (outputs : list Z) : res (ggml_cgraph * store * ggml_gallocr * bool) :=
  '(T1, g) ← (g ← ggml_new_graph_custom n; build_graph fuel (st_heap s) g outputs);
  '(s, galloc, ok) ← ggml_gallocr_reserve (with_heap s T1) galloc g;
  if (ok : bool) then '(s, galloc, ok) ← ggml_gallocr_alloc_graph s galloc g; Ok (g, s, galloc, ok)
  else Ok (g, s, galloc, false).

(** What it gives: the graph of the outputs in the memory of live buffers, where running
    it gives what running it with memory of its own for every tensor gives. *)
Record computes_outputs `{BufferTypes} {V} (T : heap) (outputs : list Z) nbytes (kern : Z -> list (option (list V)) -> option (list V) -> list V)
    (g : ggml_cgraph) (s' : store) (galloc : ggml_gallocr) : Prop := {
  co_built  : exists T1 s1, built T outputs T1 g /\ st_heap s1 = T1 /\ graph_placed T1 g (graph_set g) s1 s' galloc /\
                computes_apart T1 g nbytes kern (ga_buf_tallocs galloc) (planned_place galloc);
  co_usable : usable s' galloc
}.

Lemma build_part T U rank fuel n outputs : buildable T U rank -> Z.of_nat (size U) <= n <= INT32_MAX ->
  (forall o, o ∈ outputs -> o ∈ U /\ (rank o < fuel)%nat) ->
  safe (g ← ggml_new_graph_custom n; build_graph fuel T g outputs) (fun '(T1, g) => built T outputs T1 g).
Proof.
  intros Hbd Hn Ho.
  assert (Hpart : forall V : gset Z, V ⊆ U -> Z.of_nat (size V) <= n) by (intros V' HV; pose proof (subseteq_size _ _ HV); lia).
  apply (build_ok T U rank); [..|done].
  - intros t u Ht Htu. by apply (bd_src _ _ _ Hbd t u).
  - intros t u Ht Htu. by apply (bd_src _ _ _ Hbd t u).
  - intros t u Ht Hl Htu. destruct (bd_src _ _ _ Hbd t u Ht Htu) as (_ & _ & ?). congruence.
  - lia.
  - apply Hpart. unfold leafs_of. set_solver.
  - apply Hpart. unfold nodes_of. set_solver.
Qed.

(** C6. From tensors to memory. For tensors as the constructors of operations make them,
    building the graph of some outputs, reserving memory for it and placing its tensors
    meets no undefined behaviour, no end of fuel and no failed assertion other than the
    limit on free blocks of the planner. If there was memory, the graph consists of what
    the outputs depend on, each tensor has its planned place in a live buffer, aligned and
    wholly within it, and computing the graph in this shared memory gives for every node
    what a computation in separate memory gives. *)
Theorem build_and_alloc_correct {BT : BufferTypes} {SB : SaneBackends} {V} s galloc U (rank : Z -> nat) fuel n outputs nbytes
    (kern : Z -> list (option (list V)) -> option (list V) -> list V) :
  buildable (st_heap s) U rank -> usable s galloc -> ga_bufts galloc <> [] ->
  outputs <> [] -> (forall o, o ∈ outputs -> o ∈ U /\ is_leaf (st_heap s o) = false /\ (rank o < fuel)%nat) ->
  Z.of_nat (size U) <= n <= INT32_MAX ->
  (forall b x y, ggml_are_same_layout x y = true -> buft_get_alloc_size b x = buft_get_alloc_size b y) ->
  (forall b t, t ∈ U -> 0 <= buft_get_alloc_size b (st_heap s t) < 2 ^ 62 /\ (placed (st_heap s) t = true -> 0 < buft_get_alloc_size b (st_heap s t))) ->
  (forall t b, t ∈ U -> 0 <= nbytes t <= buft_get_alloc_size b (st_heap s t)) ->
  (forall t xs old, zlen (kern t xs old) = nbytes (root_of (st_heap s) t)) ->
  post (build_and_alloc fuel s galloc n outputs)
    (fun '(g, s', galloc', ok) => ok = true -> computes_outputs (st_heap s) outputs nbytes kern g s' galloc')
    (fun e => e = Abort).
Proof.
  intros Hbd Hus Hbt Hne Ho Hn Hlay Hsize Hbytes Hkern.
  assert (Hout : forall o, o ∈ outputs -> o ∈ U /\ is_leaf (st_heap s o) = false) by (intros o Hin; by destruct (Ho o Hin) as (? & ? & _)).
  unfold build_and_alloc. eapply post_bind.
  { eapply post_mono; [apply (build_part (st_heap s) U rank fuel n outputs Hbd Hn)|intros r Hr; exact Hr|intros e []].
    intros o Hin. by destruct (Ho o Hin) as (? & _ & ?). }
  intros [T1 g] Hb. set (T := st_heap s) in *.
  pose proof (built_planning T U rank outputs T1 g Hbd Hout Hb Hlay Hsize (with_heap s T1) galloc (usable_bufs s (with_heap s T1) galloc eq_refl Hus) Hbt) as Hpl.
  pose proof (built_tensors T U rank outputs T1 g Hbd Hout Hb) as Hgt.
  unfold ggml_gallocr_reserve. eapply post_bind.
  { refine (reserve_alloc_ok T1 g (graph_set g) (with_heap s T1) galloc None None nbytes kern Hgt _ _ _ _ Hpl _ _).
    - intros t. apply graph_set_elem.
    - apply (built_count T U rank outputs T1 g Hbd Hout Hb Hne). lia.
    - done.
    - by apply (usable_bufs s).
    - intros t b Ht. rewrite (same_size T outputs T1 g Hb Hlay). apply Hbytes, (built_set T U rank outputs T1 g Hbd Hout Hb), graph_set_elem.
      unfold ts in Ht. by rewrite elem_of_remove_dups, elem_of_app in Ht.
    - intros t xs old. rewrite (but_names_root T T1 t (built_names _ _ _ _ Hb)). apply Hkern. }
  intros [[s1 g1] [|]] Hr; [|done]. destruct (Hr eq_refl) as (Hus1 & HT1 & Hcomp & Hall).
  specialize (Hall T1 ltac:(by intros t) (built_ready T U rank outputs T1 g Hbd Hout Hb Hlay Hsize)).
  assert (Es : with_heap s1 T1 = s1) by (unfold with_heap; rewrite <- HT1; by destruct s1).
  destruct (ggml_gallocr_needs_realloc T1 g1 g) as [[|]|e]; [destruct Hall as (t & b & _ & Hlt); lia| |done].
  rewrite Es in Hall. eapply post_bind; [eapply post_mono; [exact Hall|intros r H'; exact H'|intros e []]|].
  intros [[s2 g2] ok] (-> & -> & Hp). cbn [post]. intros _. constructor.
  - exists T1, s1. splits; done.
  - apply (usable_bufs s1); [apply (gp_bufs _ _ _ _ _ _ Hp)|done].
Qed.

(** * An example *)

Module BuildAllocExample.
Import GraphExample PlaceExample.

Definition demo_rank (t : Z) : nat := Z.to_nat (t / 16).

Lemma demo_buildable : buildable demo_heap demo_tensors demo_rank.
Proof.
  constructor.
  - intros t s Ht Hs. unfold demo_tensors in Ht; unfold source in Hs. demo_case; cbn in Hs; demo_case; (split; [unfold demo_tensors; set_solver|]); (split; [vm_compute; lia|done]).
  - intros t Ht. unfold demo_tensors in Ht. demo_case; (split; [done|]); by intros.
  - intros v r Hv Hr. unfold demo_tensors in Hv. demo_case; cbn in Hr; try done. injection Hr as <-. splits; [done|done|]. exists 48. split; [|done].
    unfold source. cbn. apply src_array_elem. by left.
  - intros t _. unfold demo_heap. repeat case_match; done.
Qed.
End BuildAllocExample.

(** The graph of the output [96] has the nodes and leafs of the example above; its tensors
    share a buffer of which they take three places. *)
Lemma build_and_alloc_correct_witness :
  exists g s' galloc, (g0 ← @ggml_gallocr_new_n GraphExample.four_bytes [7];
      @build_and_alloc GraphExample.four_bytes 7 PlaceExample.demo_store g0 16 [96]) = Ok (g, s', galloc, true) /\
    @computes_outputs GraphExample.four_bytes Z GraphExample.demo_heap [96] (fun _ => 4) GraphExample.demo_kern g s' galloc /\
    cg_nodes g = [48; 64; 80; 96] /\ cg_leafs g = [16; 32] /\
    (t_data ∘ st_heap s' <$> [16; 48; 64; 80; 96]) = [Some 4096; Some 4128; Some 4128; Some 4096; Some 4096].
Proof.
  pose proof (@new_n_ok GraphExample.four_bytes [7] PlaceExample.demo_store ltac:(intros b _; split; [split; [cbn; lia|vm_compute; discriminate]|by exists 16])) as Hnew.
  destruct (ggml_gallocr_new_n [7]) as [g0|e] eqn:Eg; [|destruct Hnew]. cbn [post] in Hnew. destruct Hnew as [Ebt Hus]. cbn [mbind res_bind].
  pose proof (@build_and_alloc_correct GraphExample.four_bytes PlaceExample.place_demo_sane Z PlaceExample.demo_store g0 GraphExample.demo_tensors BuildAllocExample.demo_rank 7 16 [96]
    (fun _ => 4) GraphExample.demo_kern BuildAllocExample.demo_buildable Hus ltac:(by rewrite Ebt) ltac:(done)
    ltac:(intros o ->%list_elem_of_singleton; split; [unfold GraphExample.demo_tensors; set_solver|split; [done|vm_compute; lia]])
    ltac:(vm_compute; split; discriminate) ltac:(done) ltac:(intros; cbn; lia) ltac:(intros; cbn; lia) ltac:(intros; reflexivity)) as P.
  destruct (build_and_alloc _ _ _ _ _) as [[[[g s'] g1] ok]|e] eqn:E.
  2: { exfalso. vm_compute in Eg. injection Eg as <-. vm_compute in E. discriminate E. }
  assert (Eok : ok = true) by (vm_compute in Eg; injection Eg as <-; vm_compute in E; by injection E as _ _ _ <-). subst ok.
  cbn [post] in P. exists g, s', g1. split; [reflexivity|]. split; [exact (P eq_refl)|]. clear P.
  vm_compute in Eg. injection Eg as <-. vm_compute in E. injection E as <- <- <-. splits; reflexivity.
Defined.
