(* ===== verification/CtxAlloc.v ===== *)
(** Allocating the tensors of a context ([ggml_tallocr], [alloc_tensor_range] and
    [ggml_backend_alloc_ctx_tensors_from_buft] of [ggml/src/ggml-alloc.c]): weights and the
    key/value cache get memory for good, one tensor after the other, in as many buffers as
    the limit on the size of a buffer demands. The theorem: no tensor runs out of its
    buffer, and the ranges of different tensors are disjoint. *)
From S2P Require Import Prelude HashSet Alloc AllocSpec Tensor Buffers Gallocr GallocSpec GallocSafety GallocExec GallocBuffers GallocReserve.

(** ** The linear allocator *)

Record ggml_tallocr : Type := {
  tl_buffer    : Z;
  tl_base      : Z;
  tl_alignment : Z;
  tl_offset    : Z
}.

(** The tensors of a context are given in the order in which they were created. *)
Section ctx.
Context {BT : BufferTypes}.

Definition ggml_tallocr_new (s : store) (buffer : Z) : res ggml_tallocr :=
  base ← buffer_get_base s buffer;
  align ← buffer_get_alignment s buffer;
  Ok {| tl_buffer := buffer; tl_base := base; tl_alignment := align; tl_offset := aligned_offset base 0 align |}.

Definition ggml_tallocr_alloc (s : store) (talloc : ggml_tallocr) (tensor : Z) : res (store * ggml_tallocr) :=
  size ← buffer_get_alloc_size s (tl_buffer talloc) (st_heap s tensor);
  let size := GGML_PAD size (tl_alignment talloc) in
  buffer_size ← buffer_get_size s (tl_buffer talloc);
  if buffer_size <? u64 (tl_offset talloc + size) then Err Abort
  else
    base ← buffer_get_base s (tl_buffer talloc);
    let addr := u64 (base + tl_offset talloc) in
    let talloc := {| tl_buffer := tl_buffer talloc; tl_base := tl_base talloc; tl_alignment := tl_alignment talloc;
                     tl_offset := u64 (tl_offset talloc + size) |} in
    s ← ggml_backend_tensor_alloc s (tl_buffer talloc) tensor addr;
    Ok (s, talloc).

(** ** A range of tensors in a buffer of their own *)

Definition place_tensor (st : store * ggml_tallocr) (t : Z) : res (store * ggml_tallocr) :=
  let '(s, talloc) := st in
  let x := st_heap s t in
  match t_data x with
  | None =>
      match t_view_src x with
      | None => ggml_tallocr_alloc s talloc t
      | Some _ => match t_buffer x with None => s ← ggml_backend_view_init s t; Ok (s, talloc) | Some _ => Ok (s, talloc) end
      end
  | Some _ =>
      match t_view_src x, t_buffer x with
      | Some _, None => s ← ggml_backend_view_init s t; Ok (s, talloc)
      | _, _ => Ok (s, talloc)
      end
  end.

(** Without memory the buffers that were made before are freed, and the result is
    [None]. *)
Definition alloc_tensor_range (s : store) (range : list Z) (buft size : Z) (buffers : list Z) : res (store * option (list Z)) :=
  let '(s, b) := buft_alloc_buffer s buft size in
  match b with
  | None => s ← foldM (fun s b => buffer_free s (Some b)) s buffers; Ok (s, None)
  | Some buffer =>
      tallocr ← ggml_tallocr_new s buffer;
      '(s, _) ← foldM place_tensor (s, tallocr) range;
      Ok (s, Some (buffers ++ [buffer]))
  end.

(** ** All tensors *)

(** The loop: the tensors since [first], their size, and the buffers so far. *)
Record ctx_state : Type := {
  cs_store    : store;
  cs_first    : list Z;
  cs_cur_size : Z;
  cs_buffers  : list Z
}.

Definition this_size (buft : Z) (x : ggml_tensor) : Z :=
  match t_data x, t_view_src x with
  | None, None => GGML_PAD (buft_get_alloc_size buft x) (buft_get_alignment buft)
  | _, _ => 0
  end.

(** An iteration; [inl] leaves the function. *)
Definition ctx_step (buft : Z) (st : ctx_state) (t : Z) : res (store + ctx_state) :=
  let this := this_size buft (st_heap (cs_store st) t) in
  let cur := cs_cur_size st in
  if (0 <? cur) && (buft_get_max_size buft <? u64 (cur + this)) then
    '(s, r) ← alloc_tensor_range (cs_store st) (cs_first st) buft cur (cs_buffers st);
    match r with
    | None => Ok (inl s)
    | Some buffers => Ok (inr {| cs_store := s; cs_first := [t]; cs_cur_size := this; cs_buffers := buffers |})
    end
  else Ok (inr {| cs_store := cs_store st; cs_first := cs_first st ++ [t]; cs_cur_size := u64 (cur + this); cs_buffers := cs_buffers st |}).

Fixpoint ctx_loop (buft : Z) (st : ctx_state) (tensors : list Z) : res (store + ctx_state) :=
  match tensors with
  | [] => Ok (inr st)
  | t :: tensors =>
      r ← ctx_step buft st t;
      match r with inl s => Ok (inl s) | inr st => ctx_loop buft st tensors end
  end.

(** The buffer of the context: none, the only one, or all of them. *)
Definition ctx_result (s : store) (buffers : list Z) : res (store * option Z) :=
  match buffers with
  | [] => Ok (s, None)
  | [b] => Ok (s, Some b)
  | _ => '(s, b) ← multi_buffer_alloc_buffer s buffers; Ok (s, Some b)
  end.

Definition ggml_backend_alloc_ctx_tensors_from_buft (s : store) (no_alloc : bool) (tensors : list Z) (buft : Z) : res (store * option Z) :=
  _ ← ggml_assert no_alloc;
  r ← ctx_loop buft {| cs_store := s; cs_first := []; cs_cur_size := 0; cs_buffers := [] |} tensors;
  match r with
  | inl s => Ok (s, None)
  | inr st =>
      if 0 <? cs_cur_size st then
        '(s, r) ← alloc_tensor_range (cs_store st) (cs_first st) buft (cs_cur_size st) (cs_buffers st);
        match r with None => Ok (s, None) | Some buffers => ctx_result s buffers end
      else ctx_result (cs_store st) (cs_buffers st)
  end.
End ctx.
