(* ===== verification/CtxAllocSpec.v ===== *)
(** Correctness of the allocation of a context: every tensor gets a range of its own in a
    live buffer, aligned for the buffer type, and on failure every buffer that was made is
    freed again. *)
From S2P Require Import Prelude HashSet Alloc Pad AllocSpec Tensor Buffers Gallocr GallocSpec GallocSafety GallocExec GallocBuffers GallocReserve GallocInit GallocCorrect CtxAlloc.

(** * Freeing the buffers *)

Lemma free_gone s b x : buf_get s b = Ok x -> buf_parts x = [] ->
  exists s', buffer_free s (Some b) = Ok s' /\ only_buffer s s' b /\ buf_get s' b = Err UB /\ zlen (st_bufs s') = zlen (st_bufs s).
Proof.
  intros Hb Hp. pose proof (buf_get_range _ _ _ Hb) as Hr. unfold buffer_free. rewrite Hb. cbn [mbind res_bind]. rewrite Hp. cbn [foldM mbind res_bind].
  unfold buf_update. rewrite Hb. cbn [mbind res_bind]. rewrite vset_at by done. cbn [mbind res_bind]. eexists. split; [reflexivity|]. splits.
  - split; [done|]. intros c Hc. unfold buf_get, vget, with_bufs. cbn [st_bufs]. rewrite zlookup_insert_ne by (lia || congruence). done.
  - unfold buf_get. cbn [st_bufs with_bufs]. rewrite (vget_Some _ _ _ (zlookup_insert_eq _ _ _ Hr)). done.
  - cbn [with_bufs st_bufs]. unfold zlen. by rewrite length_insert.
Qed.

Lemma free_all bs : NoDup bs -> forall s, (forall b, b ∈ bs -> exists x, buf_get s b = Ok x /\ buf_parts x = []) ->
  exists s', foldM (fun s b => buffer_free s (Some b)) s bs = Ok s' /\ (forall b, (b ∉ bs) -> buf_get s' b = buf_get s b) /\
    (forall b, b ∈ bs -> buf_get s' b = Err UB) /\ zlen (st_bufs s') = zlen (st_bufs s).
Proof.
  induction 1 as [|b bs Hb Hnd IH]; intros s Hs; [exists s; splits; [done|done|intros b Hb; by apply elem_of_nil in Hb|done]|].
  destruct (Hs b) as (x & Hx & Hp); [by left|]. destruct (free_gone s b x Hx Hp) as (s1 & E1 & [_ Ho] & Hgone & El).
  destruct (IH s1) as (s2 & E2 & Hkeep & Hfree & El2).
  { intros c Hc. rewrite Ho by (intros ->; done). apply Hs. by right. }
  exists s2. cbn [foldM]. rewrite E1. cbn [mbind res_bind]. splits; [done| | |by rewrite El2].
  - intros c Hc. rewrite Hkeep, Ho; [done|intros ->; apply Hc; by left|intros Hc'; apply Hc; by right].
  - intros c [->|Hc]%elem_of_cons; [by rewrite Hkeep|by apply Hfree].
Qed.

(** * Ranges *)

Lemma heap_set_eq (T : heap) t x : heap_set T t x t = x.
Proof. unfold heap_set. by rewrite decide_True. Qed.

Lemma heap_set_ne (T : heap) t x u : u <> t -> heap_set T t x u = T u.
Proof. intros. unfold heap_set. by rewrite decide_False. Qed.

Section ctx.
Context {BT : BufferTypes} {SB : SaneBackends} (buft k : Z) (T : heap) (l : list Z) (s0 : store).
Context (Hk : 0 <= k <= 62) (Hal : buft_get_alignment buft = 2 ^ k).
Local Abbreviation al := (2 ^ k).
Local Abbreviation sz t := (buft_get_alloc_size buft (T t)).

(** The space that a tensor takes. *)
Definition pads (t : Z) : Z := if placed T t then GGML_PAD (sz t) al else 0.
Definition total (ts : list Z) : Z := zsum (pads <$> ts).

Context (Hsz : forall t, t ∈ l -> placed T t = true -> 0 < sz t <= 2 ^ 62).
Context (Hbuf : forall t, t ∈ l -> placed T t = true -> t_buffer (T t) = None).

Lemma pads_bounds t : t ∈ l -> 0 <= pads t /\ (al | pads t) /\ (placed T t = true -> sz t <= pads t).
Proof using Hk Hsz.
  intros Ht. unfold pads. destruct (placed T t) eqn:Ep; [|splits; [lia|apply Z.divide_0_r|done]].
  pose proof (Hsz t Ht Ep) as Hs. destruct (GGML_PAD_spec (sz t) k Hk) as [H1 H2]; [lia|]. splits; [lia|done|intros _; lia].
Qed.

(** A placed tensor: its range in a live buffer. *)
Definition sits (s : store) (t b a : Z) : Prop :=
  exists x, buf_get s b = Ok x /\ buffer_fine x buft /\ st_heap s t = placed_at (T t) b (Some a) /\
    0 < buf_base x <= a /\ a + sz t <= buf_base x + buf_size x /\ (al | a).

(** The tensors [seen] have been dealt with. *)
Record laid (s : store) (seen : list Z) : Prop := {
  la_place : forall t, t ∈ seen -> placed T t = true -> exists b a, zlen (st_bufs s0) <= b /\ sits s t b a;
  la_apart : forall t u b a c, t ∈ seen -> u ∈ seen -> t <> u -> placed T t = true -> placed T u = true ->
               sits s t b a -> sits s u b c -> a + sz t <= c \/ c + sz u <= a;
  la_view  : forall v r, v ∈ seen -> t_view_src (T v) = Some r -> t_buffer (T v) = None -> view_in_place T s v r;
  la_rest  : forall t, t ∉ seen \/ (placed T t = false /\ (t_view_src (T t) = None \/ t_buffer (T t) <> None)) -> st_heap s t = T t
}.

Lemma sits_fun s t b a b' a' : sits s t b a -> sits s t b' a' -> b' = b /\ a' = a.
Proof. intros (x & _ & _ & E & _) (y & _ & _ & E' & _). rewrite E in E'. by injection E' as -> ->. Qed.

Lemma laid_bufs s s' seen : laid s seen -> st_heap s' = st_heap s -> (forall b x, buf_get s b = Ok x -> buf_get s' b = Ok x) -> laid s' seen.
Proof.
  intros [L1 L2 L3 L4] Eh Hb.
  assert (Hto : forall t b a, sits s t b a -> sits s' t b a).
  { intros t b a (x & Hx & H). exists x. rewrite Eh. split; [by apply Hb|done]. }
  constructor.
  - intros t Ht Hp. destruct (L1 t Ht Hp) as (b & a & Hge & Hs). exists b, a. split; [done|by apply Hto].
  - intros t u b a c Ht Hu Hne Hpt Hpu Hst Hsu. destruct (L1 t Ht Hpt) as (b1 & a1 & _ & S1), (L1 u Hu Hpu) as (b2 & a2 & _ & S2).
    destruct (sits_fun _ _ _ _ _ _ (Hto _ _ _ S1) Hst) as [-> ->]. destruct (sits_fun _ _ _ _ _ _ (Hto _ _ _ S2) Hsu) as [E ->]. subst b2.
    by apply (L2 t u b1 a1 a2).
  - intros v r Hv Hr Hn. destruct (L3 v r Hv Hr Hn) as (b & a & H). exists b, a. by rewrite Eh.
  - intros t Ht. rewrite Eh. by apply L4.
Qed.

(** The views of the context: the tensor that a view points into was allocated before it
    or has a place already. *)
Definition view_known (seen : list Z) (t : Z) : Prop :=
  forall r, t_view_src (T t) = Some r -> t_buffer (T t) = None -> t_view_src (T r) = None /\
    ((placed T r = true /\ r ∈ seen) \/ (is_Some (t_buffer (T r)) /\ is_Some (t_data (T r)))).

(** The source of a view has a buffer and data when the view is reached. *)
Lemma view_source s seen t r : laid s seen -> view_known seen t -> t_view_src (T t) = Some r -> t_buffer (T t) = None ->
  exists b a, t_buffer (st_heap s r) = Some b /\ t_data (st_heap s r) = Some a.
Proof.
  intros L Hv Hr Hn. destruct (Hv r Hr Hn) as [Hrv [[Hp Hin]|[[b Eb] [a Ea]]]].
  - destruct (la_place _ _ L r Hin Hp) as (b & a & _ & x & _ & _ & E & _). exists b, a. by rewrite E.
  - exists b, a. rewrite (la_rest _ _ L r); [done|]. right. unfold placed. rewrite Ea. split; [done|by left].
Qed.

(** Setting one more tensor. *)
Lemma sits_other s t u y b a : u <> t -> sits (with_heap s (heap_set (st_heap s) t y)) u b a <-> sits s u b a.
Proof. intros Hne. unfold sits. cbn [with_heap st_heap]. unfold heap_set. by rewrite decide_False. Qed.

Lemma view_other s t v r y : v <> t -> r <> t -> view_in_place T s v r -> view_in_place T (with_heap s (heap_set (st_heap s) t y)) v r.
Proof. intros Hv Hr. unfold view_in_place. cbn [with_heap st_heap]. unfold heap_set. by rewrite !decide_False. Qed.

(** A tensor that is neither placed nor a view to be set. *)
Lemma laid_skip s seen t : laid s seen -> t ∉ seen -> placed T t = false -> t_view_src (T t) = None \/ t_buffer (T t) <> None -> laid s (seen ++ [t]).
Proof.
  intros [L1 L2 L3 L4] Ht Hp Hv. constructor.
  - intros u. rewrite elem_of_app, list_elem_of_singleton. intros [Hu| ->] Hpu; [by apply L1|congruence].
  - intros u w b a c. rewrite !elem_of_app, !list_elem_of_singleton. intros [Hu| ->] [Hw| ->] Hne Hpu Hpw; try congruence. by apply L2.
  - intros v r. rewrite elem_of_app, list_elem_of_singleton. intros [Hu| ->] Hr Hn; [by apply L3|]. destruct Hv; congruence.
  - intros u [Hu|Hu]; apply L4; [|by right]. left. intros Hin. apply Hu, elem_of_app. by left.
Qed.

(** The view [t] of [r] is set. *)
Lemma laid_view s seen t r b a : laid s seen -> t ∉ seen -> t_view_src (T t) = Some r -> t_buffer (T t) = None -> r <> t -> 
  (forall v q, v ∈ seen -> t_view_src (T v) = Some q -> t_buffer (T v) = None -> q <> t) ->
  t_buffer (st_heap s r) = Some b -> t_data (st_heap s r) = Some a ->
  laid (with_heap s (heap_set (st_heap s) t (placed_at (T t) b (to_ptr (u64 (a + t_view_offs (T t))))))) (seen ++ [t]).
Proof.
  intros [L1 L2 L3 L4] Ht Hr Hn Hrt Hq Eb Ea. assert (Hp : placed T t = false) by (unfold placed; rewrite Hr; apply andb_false_r). constructor.
  - intros u. rewrite elem_of_app, list_elem_of_singleton. intros [Hu| ->] Hpu; [|congruence]. destruct (L1 u Hu Hpu) as (b' & a' & Hge & Hs). exists b', a'.
    split; [done|]. apply sits_other; [by intros ->|done].
  - intros u w b' a' c. rewrite !elem_of_app, !list_elem_of_singleton. intros [Hu| ->] [Hw| ->] Hne Hpu Hpw; try congruence.
    rewrite !sits_other by (by intros ->). by apply L2.
  - intros v q. rewrite elem_of_app, list_elem_of_singleton. intros [Hv| ->] Hvq Hvn.
    + apply view_other; [by intros ->|by apply (Hq v)|by apply L3].
    + assert (q = r) as -> by congruence. exists b, a. cbn [with_heap st_heap]. unfold heap_set. rewrite (decide_False _ _ Hrt), decide_True by done. done.
  - intros u Hu. cbn [with_heap st_heap]. unfold heap_set. rewrite decide_False.
    + apply L4. destruct Hu as [Hu|Hu]; [left; intros Hin; apply Hu, elem_of_app; by left|by right].
    + intros ->. destruct Hu as [Hu|[_ [?|?]]]; [apply Hu, elem_of_app; right; by left|congruence|congruence].
Qed.

(** The tensor [t] is placed behind the others of its buffer. *)
Lemma laid_place s seen t b a x : laid s seen -> t ∉ seen -> placed T t = true ->
  (forall v q, v ∈ seen -> t_view_src (T v) = Some q -> t_buffer (T v) = None -> q <> t) ->
  zlen (st_bufs s0) <= b -> buf_get s b = Ok x -> buffer_fine x buft -> 0 < buf_base x <= a -> a + sz t <= buf_base x + buf_size x -> (al | a) ->
  (forall u c, u ∈ seen -> placed T u = true -> sits s u b c -> c + sz u <= a) ->
  let s' := with_heap s (heap_set (st_heap s) t (placed_at (T t) b (Some a))) in
  laid s' (seen ++ [t]) /\ sits s' t b a.
Proof.
  intros [L1 L2 L3 L4] Ht Hp Hq Hnew Hx Hf Hb Hle Hdiv Hend s'.
  assert (St : sits s' t b a) by (exists x; refine (conj Hx (conj Hf (conj _ (conj Hb (conj Hle Hdiv))))); apply heap_set_eq).
  assert (So : forall u b' a', u <> t -> sits s' u b' a' <-> sits s u b' a') by (intros; by apply sits_other). split; [|exact St]. constructor.
  - intros u. rewrite elem_of_app, list_elem_of_singleton. intros [Hu| ->] Hpu; [|by exists b, a].
    destruct (L1 u Hu Hpu) as (b' & a' & Hge & Hs). exists b', a'. split; [done|]. apply So; [by intros ->|done].
  - intros u w b' a' c. rewrite !elem_of_app, !list_elem_of_singleton. intros [Hu| ->] [Hw| ->] Hne Hpu Hpw Hsu Hsw; [| | |done].
    + apply So in Hsu; [|by intros ->]. apply So in Hsw; [|by intros ->]. by apply (L2 u w b').
    + apply So in Hsu; [|done]. destruct (sits_fun _ _ _ _ _ _ St Hsw) as [-> ->]. left. by apply Hend.
    + apply So in Hsw; [|by intros ->]. destruct (sits_fun _ _ _ _ _ _ St Hsu) as [-> ->]. right. by apply Hend.
  - intros v r. rewrite elem_of_app, list_elem_of_singleton. intros [Hv| ->] Hvr Hvn.
    + apply view_other; [by intros ->|by apply (Hq v)|by apply L3].
    + unfold placed in Hp. rewrite Hvr, andb_false_r in Hp. done.
  - intros u Hu. subst s'. cbn [with_heap st_heap]. unfold heap_set. rewrite decide_False.
    + apply L4. destruct Hu as [Hu|Hu]; [left; intros Hin; apply Hu, elem_of_app; by left|by right].
    + intros ->. destruct Hu as [Hu|[Hu _]]; [apply Hu, elem_of_app; right; by left|congruence].
Qed.

(** ** Filling a buffer *)

(** The linear allocator of the buffer [b] at the offset [o]. *)
Definition tallocr_at (b : Z) (x : backend_buffer) (o : Z) : ggml_tallocr :=
  {| tl_buffer := b; tl_base := buf_base x; tl_alignment := al; tl_offset := o |}.

(** Everything in the buffer [b] ends before the offset [o]. *)
Definition ends_at (s : store) (seen : list Z) (b : Z) (x : backend_buffer) (o : Z) : Prop :=
  forall u c, u ∈ seen -> placed T u = true -> sits s u b c -> c + sz u <= buf_base x + o.

Lemma unseen_source seen t : (forall v, v ∈ seen -> view_known seen v) -> t ∉ seen -> placed T t = true \/ t_view_src (T t) <> None ->
  forall v q, v ∈ seen -> t_view_src (T v) = Some q -> t_buffer (T v) = None -> q <> t.
Proof.
  intros Hk' Ht Hc v q Hv Hq Hn ->. destruct (Hk' v Hv t Hq Hn) as [Hnv [[_ Hin]|[_ [d Ed]]]]; [done|].
  destruct Hc as [Hp|Hvt]; [|done]. unfold placed in Hp. by rewrite Ed in Hp.
Qed.

Lemma place_tensor_ok s seen t b x o : laid s seen -> (forall v, v ∈ seen -> view_known seen v) -> t ∉ seen -> t ∈ l -> view_known seen t -> zlen (st_bufs s0) <= b ->
  buf_get s b = Ok x -> buffer_fine x buft -> 0 < buf_size x -> 0 <= o -> (al | o) -> o + pads t <= buf_size x -> ends_at s seen b x o ->
  safe (place_tensor (s, tallocr_at b x o) t)
    (fun '(s', tl') => laid s' (seen ++ [t]) /\ st_bufs s' = st_bufs s /\ tl' = tallocr_at b x (o + pads t) /\ ends_at s' (seen ++ [t]) b x (o + pads t)).
Proof.
  intros L Hvs Ht Htl Hvt Hnew Hx Hf Hpos Ho Hdo Hfit Hend. unfold place_tensor. rewrite (la_rest _ _ L t) by by left.
  destruct (bf_size _ _ Hf) as (_ & _ & Hmax). destruct (bf_base _ _ Hf) as [?|Hbase]; [lia|]. destruct (pads_bounds t Htl) as (Hp0 & Hpd & Hple).
  assert (Hskip : placed T t = false -> t_view_src (T t) = None \/ t_buffer (T t) <> None ->
    laid s (seen ++ [t]) /\ st_bufs s = st_bufs s /\ tallocr_at b x o = tallocr_at b x (o + pads t) /\ ends_at s (seen ++ [t]) b x (o + pads t)).
  { intros Hp Hv. unfold pads. rewrite Hp, Z.add_0_r. splits; [by apply laid_skip|done|done|]. intros u c. rewrite elem_of_app, list_elem_of_singleton.
    intros [Hu| ->] Hpu; [by apply Hend|congruence]. }
  assert (Hview : forall r, t_view_src (T t) = Some r -> t_buffer (T t) = None -> safe (s ← ggml_backend_view_init s t; Ok (s, tallocr_at b x o))
    (fun '(s', tl') => laid s' (seen ++ [t]) /\ st_bufs s' = st_bufs s /\ tl' = tallocr_at b x (o + pads t) /\ ends_at s' (seen ++ [t]) b x (o + pads t))).
  { intros r Hr Hn. destruct (view_source s seen t r L Hvt Hr Hn) as (b' & a' & Eb & Ea). assert (Hp : placed T t = false) by (unfold placed; rewrite Hr; apply andb_false_r).
    unfold ggml_backend_view_init. rewrite (la_rest _ _ L t) by by left. rewrite Hn, Hr. unfold ggml_assert. rewrite !bool_decide_eq_true_2 by (done || by eexists).
    cbn [mbind res_bind or_ub]. rewrite Eb, Ea, !bool_decide_eq_true_2 by (by eexists). cbn [mbind res_bind or_ub post].
    unfold pads. rewrite Hp, Z.add_0_r. splits; [|done|done|].
    - apply (laid_view s seen t r b' a' L Ht Hr Hn); [|apply unseen_source; [done|done|right; by rewrite Hr]|done|done].
      intros ->. destruct (Hvt t Hr Hn) as [? _]. congruence.
    - intros u c. rewrite elem_of_app, list_elem_of_singleton. intros [Hu| ->] Hpu Hs; [|congruence]. apply (Hend u c Hu Hpu). by apply sits_other in Hs; [|intros ->]. }
  destruct (t_data (T t)) as [d|] eqn:Ed.
  - assert (Hp : placed T t = false) by (unfold placed; by rewrite Ed). destruct (t_view_src (T t)) as [r|] eqn:Ev; [|cbn [post]; apply Hskip; [done|by left]].
    destruct (t_buffer (T t)) as [c|] eqn:Eb; [cbn [post]; apply Hskip; [done|by right]|by apply (Hview r)].
  - destruct (t_view_src (T t)) as [r|] eqn:Ev.
    { assert (Hp : placed T t = false) by (unfold placed; by rewrite Ed, Ev).
      destruct (t_buffer (T t)) as [c|] eqn:Eb; [cbn [post]; apply Hskip; [done|by right]|by apply (Hview r)]. }
    assert (Hp : placed T t = true) by (unfold placed; by rewrite Ed, Ev). specialize (Hple Hp). pose proof (Hsz t Htl Hp) as Hs. pose proof (Hbuf t Htl Hp) as Ebuf.
    unfold ggml_tallocr_alloc. cbn [tallocr_at tl_buffer tl_offset tl_alignment tl_base]. unfold buffer_get_alloc_size, buffer_get_size. rewrite Hx. cbn [mbind res_bind].
    rewrite (bf_type _ _ Hf), (la_rest _ _ L t) by by left. assert (GGML_PAD (sz t) al = pads t) as -> by (unfold pads; by rewrite Hp).
    unfold SIZE_MAX in Hmax. rewrite (u64_small (o + pads t)) by (unfold SIZE_MAX; lia). destruct (Z.ltb_spec (buf_size x) (o + pads t)); [lia|].
    assert (Egb : buffer_get_base s b = Ok (buf_base x)).
    { unfold buffer_get_base. rewrite Hx. cbn [mbind res_bind]. destruct (Z.eqb_spec (buf_size x) 0); [lia|]. destruct (Z.eqb_spec (buf_base x) 0); [lia|]. done. }
    rewrite Egb. cbn [mbind res_bind]. rewrite (u64_small (buf_base x + o)) by (unfold SIZE_MAX; lia).
    unfold ggml_backend_tensor_alloc. rewrite (la_rest _ _ L t) by by left. rewrite Ebuf, Ed, Ev. unfold ggml_assert. rewrite !bool_decide_eq_true_2 by done. cbn [mbind res_bind].
    rewrite Egb. cbn [mbind res_bind]. rewrite (proj2 (Z.leb_le (buf_base x) (buf_base x + o))) by lia. cbn [mbind res_bind].
    unfold buffer_get_alloc_size, buffer_get_size. rewrite Hx. cbn [mbind res_bind]. rewrite (bf_type _ _ Hf), !u64_small by (unfold SIZE_MAX; lia).
    rewrite (proj2 (Z.leb_le (buf_base x + o + sz t) _)) by lia. cbn [mbind res_bind post].
    assert (to_ptr (buf_base x + o) = Some (buf_base x + o)) as -> by (unfold to_ptr; destruct (Z.eqb_spec (buf_base x + o) 0); [lia|done]).
    destruct (laid_place s seen t b (buf_base x + o) x L Ht Hp) as [L' S']; try done; try lia.
    { apply unseen_source; auto. }
    { apply Z.divide_add_r; [|done]. rewrite <- Hal. apply (bf_align _ _ Hf). }
    splits; [exact L'|done|done|]. intros u c. rewrite elem_of_app, list_elem_of_singleton. intros [Hu| ->] Hpu Hsu.
    + apply sits_other in Hsu; [|by intros ->]. pose proof (Hend u c Hu Hpu Hsu). lia.
    + destruct (sits_fun _ _ _ _ _ _ S' Hsu) as [_ ->]. lia.
Qed.

(** ** A range of tensors *)

Context (Hviews : forall seen t rest, l = seen ++ t :: rest -> view_known seen t) (Hnd : NoDup l).

Lemma view_known_mono seen seen' t : (forall v, v ∈ seen -> v ∈ seen') -> view_known seen t -> view_known seen' t.
Proof. intros Hi H r Hr Hn. destruct (H r Hr Hn) as [H1 [[H2 H3]|H2]]; split; auto. Qed.

Lemma split_unseen seen t rest : l = seen ++ t :: rest ->
  (t ∉ seen) /\ t ∈ l /\ view_known seen t /\ (forall v, v ∈ seen -> view_known seen v).
Proof using Hviews Hnd.
  intros E. pose proof Hnd as Hn. rewrite E in Hn. apply NoDup_app in Hn as (_ & Hn & _). splits.
  - intros Ht. apply (Hn t Ht). by left.
  - rewrite E. apply elem_of_app. right. by left.
  - by apply (Hviews seen t rest).
  - intros v Hv. apply list_elem_of_split in Hv as (s1 & s2 & Es). apply (view_known_mono s1).
    + intros u Hu. rewrite Es. apply elem_of_app. by left.
    + apply (Hviews s1 v (s2 ++ t :: rest)). by rewrite E, Es, <- app_assoc.
Qed.

Lemma total_app ts us : total (ts ++ us) = total ts + total us.
Proof. unfold total. by rewrite fmap_app, zsum_app. Qed.

Lemma total_ok ts : (forall t, t ∈ ts -> t ∈ l) -> 0 <= total ts /\ (al | total ts).
Proof using Hk Hsz.
  induction ts as [|t ts IH]; intros Hi; [split; [done|apply Z.divide_0_r]|].
  destruct (pads_bounds t) as (H1 & H2 & _); [apply Hi; by left|]. destruct IH as [H3 H4]; [intros u Hu; apply Hi; by right|].
  change (t :: ts) with ([t] ++ ts). rewrite total_app. assert (total [t] = pads t) as -> by (unfold total; cbn; lia). split; [lia|by apply Z.divide_add_r].
Qed.

Lemma buf_get_bufs s s' b : st_bufs s' = st_bufs s -> buf_get s' b = buf_get s b.
Proof. intros E. unfold buf_get. by rewrite E. Qed.

Lemma range_ok b x ts : zlen (st_bufs s0) <= b -> buffer_fine x buft -> 0 < buf_size x -> forall s seen o rest, l = seen ++ ts ++ rest -> laid s seen ->
  buf_get s b = Ok x -> 0 <= o -> (al | o) -> o + total ts <= buf_size x -> ends_at s seen b x o ->
  safe (foldM place_tensor (s, tallocr_at b x o) ts) (fun '(s', _) => laid s' (seen ++ ts) /\ st_bufs s' = st_bufs s).
Proof.
  intros Hnew Hf Hpos. induction ts as [|t ts IH]; intros s seen o rest El L Hx Ho Hdo Hfit Hend; [cbn; by rewrite app_nil_r|].
  destruct (split_unseen seen t (ts ++ rest) El) as (Ht & Htl & Hvt & Hvs). destruct (pads_bounds t Htl) as (Hp & Hpd & _).
  change (t :: ts) with ([t] ++ ts) in Hfit. rewrite total_app in Hfit.
  assert (total [t] = pads t) as Et by (unfold total; cbn; lia). rewrite Et in Hfit.
  destruct (total_ok ts) as [Hn _]. { intros u Hu. rewrite El. apply elem_of_app. right. right. apply elem_of_app. by left. }
  cbn [foldM]. eapply post_bind; [apply (place_tensor_ok s seen t b x o); try done; lia|].
  intros [s1 tl] (L1 & E1 & -> & Hend1). eapply post_mono; [apply (IH s1 (seen ++ [t]) (o + pads t) rest)| |intros e He; exact He].
  - by rewrite El, <- app_assoc.
  - done.
  - by rewrite (buf_get_bufs s).
  - lia.
  - by apply Z.divide_add_r.
  - lia.
  - done.
  - intros [s2 tl2]. rewrite <- app_assoc. intros [L2 E2]. split; [done|by rewrite E2].
Qed.

(** ** A buffer for a range *)

(** The buffers made since the store [s0]; those of [s0] are as they were. *)
Record owning (s : store) (buffers : list Z) : Prop := {
  ow_range : forall b, b ∈ buffers <-> zlen (st_bufs s0) <= b < zlen (st_bufs s);
  ow_live  : forall b, b ∈ buffers -> exists x, buf_get s b = Ok x /\ buffer_fine x buft;
  ow_nodup : NoDup buffers;
  ow_kept  : forall b x, buf_get s0 b = Ok x -> buf_get s b = Ok x;
  ow_grows : zlen (st_bufs s0) <= zlen (st_bufs s)
}.

(** Memory was refused: the buffers made since [s0] are freed. *)
Record refused (s : store) : Prop := {
  rf_cause : exists w size, iface_alloc_buffer w buft size = None;
  rf_freed : forall b x, zlen (st_bufs s0) <= b -> buf_get s b <> Ok x;
  rf_kept  : forall b x, buf_get s0 b = Ok x -> buf_get s b = Ok x
}.

Lemma alloc_buffer_len s size : 0 < size ->
  let r := buft_alloc_buffer s buft size in
  match r.2 with
  | Some _ => zlen (st_bufs r.1) = zlen (st_bufs s) + 1
  | None => st_bufs r.1 = st_bufs s /\ exists w, iface_alloc_buffer w buft size = None
  end.
Proof.
  intros Hs. cbv zeta. unfold buft_alloc_buffer. destruct (Z.eqb_spec size 0); [lia|].
  destruct (iface_alloc_buffer (st_requests s) buft size) as [[base sz]|] eqn:E; cbn; [|by eauto].
  unfold zlen. rewrite length_app. cbn. lia.
Qed.

Lemma aligned_base base : 0 < base <= SIZE_MAX -> (al | base) -> aligned_offset base 0 al = 0.
Proof using Hk.
  intros Hb Hd. assert (1 <= al <= 2 ^ 62) as Hp by (split; [apply (Z.pow_le_mono_r 2 0 k)|apply Z.pow_le_mono_r]; lia).
  unfold aligned_offset. rewrite Z.add_0_r, (u64_small base) by lia. apply Z.mod_divide in Hd as ->; [|lia].
  rewrite Z.sub_0_r, Z_mod_same_full. done.
Qed.

Lemma alloc_tensor_range_ok s seen range rest buffers : l = seen ++ range ++ rest -> laid s seen -> owning s buffers ->
  0 < total range <= 2 ^ 62 ->
  safe (alloc_tensor_range s range buft (total range) buffers) (fun '(s', r) =>
    match r with
    | Some bs => laid s' (seen ++ range) /\ owning s' bs /\ exists b, bs = buffers ++ [b]
    | None => refused s'
    end).
Proof.
  intros El L [O1 O2 O3 O4 O5] Hsize. unfold alloc_tensor_range.
  pose proof (alloc_buffer_ok s buft (total range) ltac:(lia)) as Ha. pose proof (alloc_buffer_len s (total range) ltac:(lia)) as Hlen.
  cbv zeta in Ha, Hlen. destruct (buft_alloc_buffer s buft (total range)) as [s1 [b|]]; cbn [fst snd] in *.
  - destruct Ha as (Eh & Hmono & -> & x & Hx & Hf & Hge). destruct (bf_base _ _ Hf) as [?|Hbase]; [lia|]. destruct (bf_size _ _ Hf) as (_ & _ & Hmax).
    assert (Hold : forall t b a, t ∈ seen -> placed T t = true -> sits s1 t b a -> b < zlen (st_bufs s)).
    { intros t c a Ht Hp Hs. destruct (la_place _ _ L t Ht Hp) as (c' & a' & _ & y & Hy & Hfy & E & _). destruct Hs as (_ & _ & _ & E' & _).
      rewrite Eh, E in E'. injection E' as E1 _. subst c. apply buf_get_range in Hy. lia. }
    assert (Enew : ggml_tallocr_new s1 (zlen (st_bufs s)) = Ok (tallocr_at (zlen (st_bufs s)) x 0)).
    { unfold ggml_tallocr_new, buffer_get_base, buffer_get_alignment. rewrite Hx. cbn [mbind res_bind].
      destruct (Z.eqb_spec (buf_size x) 0); [lia|]. destruct (Z.eqb_spec (buf_base x) 0); [lia|]. cbn [mbind res_bind negb ggml_assert].
      rewrite (bf_type _ _ Hf), Hal, aligned_base; [done|lia|]. rewrite <- Hal. apply (bf_align _ _ Hf). }
    rewrite Enew. cbn [mbind res_bind]. eapply post_bind; [apply (range_ok _ x range O5 Hf ltac:(lia) s1 seen 0 rest El)|].
    + by apply (laid_bufs s).
    + done.
    + lia.
    + apply Z.divide_0_r.
    + lia.
    + intros u c Hu Hp Hs. pose proof (Hold u _ c Hu Hp Hs). lia.
    + intros [s2 tl] [L2 E2]. cbn [post]. split; [done|]. split; [|by eexists]. constructor.
      * intros c. rewrite elem_of_app, list_elem_of_singleton, O1, E2. lia.
      * intros c. rewrite elem_of_app, list_elem_of_singleton, (buf_get_bufs s1) by done. intros [Hc| ->]; [|by exists x].
        destruct (O2 c Hc) as (y & Hy & Hfy). exists y. auto.
      * apply NoDup_app. splits; [done| |apply NoDup_singleton]. intros c Hc%O1. rewrite list_elem_of_singleton. lia.
      * intros c y Hy. rewrite (buf_get_bufs s1) by done. auto.
      * rewrite E2. lia.
  - destruct Ha as (_ & Hmono & _), Hlen as (Eb & w & Hw).
    destruct (free_all buffers O3 s1) as (s2 & E2 & Hkeep & Hfree & El2).
    { intros c Hc. destruct (O2 c Hc) as (y & Hy & Hfy). exists y. split; [auto|apply (bf_parts _ _ Hfy)]. }
    rewrite E2. cbn [mbind res_bind post]. constructor; [by eauto| |].
    + intros c y Hc Hy. assert (c ∈ buffers) as Hin; [|by rewrite (Hfree c Hin) in Hy].
      apply O1. apply buf_get_range in Hy. rewrite El2, Eb in Hy. lia.
    + intros c y Hy. rewrite Hkeep; [auto|]. rewrite O1. apply buf_get_range in Hy. lia.
Qed.

(** ** The loop over the tensors *)

Context (Hmaxs : forall t, t ∈ l -> pads t <= buft_get_max_size buft) (Htot : total l <= 2 ^ 62) (HT : st_heap s0 = T).
Context (Hmax0 : 0 <= buft_get_max_size buft).

(** The tensors [done] have been dealt with, and the others seen wait for a buffer. *)
Record filling (seen dealt : list Z) (st : ctx_state) : Prop := {
  fl_seen  : seen = dealt ++ cs_first st;
  fl_laid  : laid (cs_store st) dealt;
  fl_size  : cs_cur_size st = total (cs_first st);
  fl_max   : cs_cur_size st <= buft_get_max_size buft;
  fl_own   : owning (cs_store st) (cs_buffers st);
  fl_start : cs_cur_size st = 0 -> dealt = [];
  fl_same  : dealt = [] -> cs_store st = s0 /\ cs_buffers st = []
}.

Lemma total_part a b c : l = a ++ b ++ c -> 0 <= total b <= total l.
Proof.
  intros E. assert (Hin : forall ts, (forall t, t ∈ ts -> t ∈ a ++ b ++ c) -> 0 <= total ts) by (intros ts H; rewrite <- E in H; by apply total_ok).
  rewrite E, !total_app. pose proof (Hin a ltac:(set_solver)). pose proof (Hin b ltac:(set_solver)). pose proof (Hin c ltac:(set_solver)). lia.
Qed.

Lemma this_size_pads s seen t : laid s seen -> (t ∉ seen) -> this_size buft (st_heap s t) = pads t.
Proof.
  intros L Ht. rewrite (la_rest _ _ L t) by by left. unfold this_size, pads, placed. rewrite Hal. by destruct (t_data (T t)), (t_view_src (T t)).
Qed.

Lemma total_one t : total [t] = pads t.
Proof. unfold total. cbn. lia. Qed.

Lemma ctx_step_ok seen dealt t rest st : l = seen ++ t :: rest -> filling seen dealt st ->
  safe (ctx_step buft st t) (fun r => match r with
    | inl s => refused s
    | inr st' => exists dealt', filling (seen ++ [t]) dealt' st'
    end).
Proof.
  intros El [F1 F2 F3 F4 F5 F6 F7]. destruct (split_unseen seen t rest El) as (Ht & Htl & _ & _). pose proof (pads_bounds t Htl) as (Hp & _ & _).
  assert (Htd : t ∉ dealt) by (intros Hd; apply Ht; rewrite F1; apply elem_of_app; by left).
  assert (El' : l = dealt ++ cs_first st ++ t :: rest) by (by rewrite El, F1, <- app_assoc).
  pose proof (total_part dealt (cs_first st) (t :: rest) El') as Hfirst.
  assert (Hboth : 0 <= total (cs_first st ++ [t]) <= total l).
  { apply (total_part dealt _ rest). by rewrite El', <- !app_assoc. }
  rewrite total_app, total_one in Hboth. unfold ctx_step. rewrite (this_size_pads _ dealt t F2 Htd), F3, (u64_small (total (cs_first st) + pads t)) by (unfold SIZE_MAX; lia).
  destruct ((0 <? total (cs_first st)) && _) eqn:Ec; cbn [post].
  - apply andb_true_iff in Ec as [Hpos%Z.ltb_lt Hfull%Z.ltb_lt].
    eapply post_bind; [apply (alloc_tensor_range_ok _ dealt _ (t :: rest) _ El' F2 F5); lia|].
    intros [s [bs|]]; [|done]. intros (L & O & b & ->). cbn [post]. exists seen. rewrite F1. constructor; cbn [cs_first cs_store cs_cur_size cs_buffers]; try done.
    + by rewrite total_one.
    + by apply Hmaxs.
    + pose proof (Hmaxs t Htl). lia.
    + intros E. apply app_eq_nil in E as [_ E]. rewrite E in Hpos. cbn in Hpos. lia.
  - exists dealt. constructor; cbn [cs_first cs_store cs_cur_size cs_buffers]; try done.
    + by rewrite F1, <- app_assoc.
    + by rewrite total_app, total_one.
    + apply andb_false_iff in Ec as [Hz%Z.ltb_ge|Hle%Z.ltb_ge]; [|done]. pose proof (Hmaxs t Htl). lia.
    + intros E. apply F6. lia.
Qed.

Lemma ctx_loop_ok ts : forall seen dealt st, l = seen ++ ts -> filling seen dealt st ->
  safe (ctx_loop buft st ts) (fun r => match r with
    | inl s => refused s
    | inr st' => exists dealt', filling l dealt' st'
    end).
Proof.
  induction ts as [|t ts IH]; intros seen dealt st El Hf; cbn [ctx_loop].
  - cbn [post]. exists dealt. rewrite app_nil_r in El. by rewrite El.
  - eapply post_bind; [by apply (ctx_step_ok seen dealt t ts)|]. intros [s|st']; [done|]. intros [dealt' Hf']. apply (IH (seen ++ [t]) dealt'); [|done].
    by rewrite El, <- app_assoc.
Qed.

(** ** The buffer of the context *)

(** [b] is the buffer of the context: the only one, or a multi-buffer of them all. *)
Definition collects (s : store) (b : Z) (buffers : list Z) : Prop :=
  buffers = [b] \/ exists x, buf_get s b = Ok x /\ buf_parts x = buffers.

(** Every tensor is in its place, in one of the buffers that the buffer [b] stands for. *)
Definition allocated (s : store) (b : Z) : Prop :=
  laid s l /\ exists buffers, collects s b buffers /\
    forall t, t ∈ l -> placed T t = true -> exists c a, c ∈ buffers /\ sits s t c a.

Lemma sits_moved s s' t b a : sits s t b a -> st_heap s' = st_heap s -> (forall b x, buf_get s b = Ok x -> buf_get s' b = Ok x) -> sits s' t b a.
Proof. intros (x & Hx & H) Eh Hb. exists x. rewrite Eh. split; [by apply Hb|done]. Qed.

Lemma total_size_ok (s : store) (buffers : list Z) : (forall b, b ∈ buffers -> exists x, buf_get s b = Ok x) -> forall n,
  exists m, foldM (fun n b => size ← buffer_get_size s b; Ok (u64 (n + size))) n buffers = Ok m.
Proof.
  intros Hl. induction buffers as [|b buffers IH]; intros n; [by exists n|]. cbn [foldM]. destruct (Hl b) as [x Hx]; [by left|].
  assert (buffer_get_size s b = Ok (buf_size x)) as -> by (unfold buffer_get_size; by rewrite Hx). cbn [mbind res_bind]. apply IH. intros c Hc. apply Hl. by right.
Qed.

Lemma ctx_result_ok s buffers : laid s l -> owning s buffers -> buffers <> [] ->
  safe (ctx_result s buffers) (fun '(s', r) => exists b, r = Some b /\ allocated s' b /\ st_heap s' = st_heap s).
Proof.
  intros L [O1 O2 O3 O4 O5] Hne.
  assert (Hin : forall t, t ∈ l -> placed T t = true -> exists c a, c ∈ buffers /\ sits s t c a).
  { intros t Ht Hp. destruct (la_place _ _ L t Ht Hp) as (c & a & Hge & Hs). exists c, a. split; [|done]. apply O1. split; [done|].
    destruct Hs as (x & Hx & _). by apply buf_get_range in Hx as [_ ?]. }
  destruct buffers as [|b [|c bs]]; [done| |].
  - cbn. exists b. splits; [done| |done]. split; [done|]. exists [b]. split; [by left|done].
  - cbn [ctx_result]. unfold multi_buffer_alloc_buffer. destruct (total_size_ok s (b :: c :: bs)) with (n := 0) as [m Em].
    { intros d Hd. destruct (O2 d Hd) as (x & Hx & _). by exists x. }
    rewrite Em. cbn [mbind res_bind]. destruct (O2 b) as (x & Hx & _); [by left|].
    assert (vget (b :: c :: bs) 0 = Ok b) as -> by done. cbn [mbind res_bind]. rewrite Hx. cbn [mbind res_bind].
    destruct (buffer_init_ok s (buf_type x) 0 m (b :: c :: bs)) as (H1 & H2 & H3 & H4).
    destruct (buffer_init s (buf_type x) 0 m (b :: c :: bs)) as [s' d]. cbn [fst snd post] in *. exists d. splits; [done| |done]. split.
    + by apply (laid_bufs s).
    + exists (b :: c :: bs). split; [right; eexists; by split|]. intros t Ht Hp. destruct (Hin t Ht Hp) as (e & a & He & Hs). exists e, a. split; [done|]. by apply (sits_moved s).
Qed.

Lemma filling_end dealt st : filling l dealt st -> cs_cur_size st = 0 -> cs_buffers st = [] /\ cs_store st = s0 /\ total l = 0.
Proof. intros [F1 F2 F3 F4 F5 F6 F7] E. destruct (F7 (F6 E)) as [E1 E2]. splits; [done|done|]. rewrite F1, (F6 E). cbn [app]. by rewrite <- F3. Qed.

Lemma filling_start : filling [] [] {| cs_store := s0; cs_first := []; cs_cur_size := 0; cs_buffers := [] |}.
Proof.
  constructor; cbn [cs_first cs_store cs_cur_size cs_buffers]; try done.
  - constructor; try (intros t Ht; by apply elem_of_nil in Ht). + intros t u b a c Ht. by apply elem_of_nil in Ht. + intros v r Hv. by apply elem_of_nil in Hv.
    + intros t _. by rewrite HT.
  - constructor; [|intros b Hb; by apply elem_of_nil in Hb|constructor|done|lia]. intros b. rewrite elem_of_nil. lia.
Qed.
End ctx.

(** * All tensors *)

(** A context before it is allocated, for a buffer type of alignment [2 ^ k]: the tensors
    to be placed are in no buffer, not empty, each fits a buffer, and together they are not
    larger than the address space. *)
Record ctx_ready `{BufferTypes} (buft k : Z) (T : heap) (l : list Z) : Prop := {
  cr_align : 0 <= k <= 62 /\ buft_get_alignment buft = 2 ^ k;
  cr_nodup : NoDup l;
  cr_size  : forall t, t ∈ l -> placed T t = true -> 0 < buft_get_alloc_size buft (T t) <= 2 ^ 62;
  cr_free  : forall t, t ∈ l -> placed T t = true -> t_buffer (T t) = None;
  cr_views : forall seen t rest, l = seen ++ t :: rest -> view_known T seen t;
  cr_max   : 0 <= buft_get_max_size buft /\ forall t, t ∈ l -> pads buft k T t <= buft_get_max_size buft;
  cr_total : total buft k T l <= 2 ^ 62
}.

(** C37. Allocating the tensors of a context ([ggml_backend_alloc_ctx_tensors_from_buft],
    used for the weights and the key/value cache) meets no assertion, no overflow and no
    freed buffer. If it returns a buffer, every tensor of the context that had no memory
    sits wholly inside a live buffer of the requested type, at an address aligned for it;
    the ranges of different tensors are disjoint; every view points into the memory of its
    source at its offset; the other tensors are unchanged; and all these buffers are the
    returned one or collected by it, so that freeing it frees them all. If it returns none,
    either there was nothing to place and nothing has changed, or the backend refused
    memory, and then every buffer made by the call has been freed and the older ones are
    untouched. *)
Theorem ctx_tensors_allocated {BT : BufferTypes} {SB : SaneBackends} buft k s l : ctx_ready buft k (st_heap s) l ->
  safe (ggml_backend_alloc_ctx_tensors_from_buft s true l buft) (fun '(s', r) =>
    match r with
    | Some b => allocated buft k (st_heap s) l s s' b
    | None => (total buft k (st_heap s) l = 0 /\ s' = s) \/ refused buft s s'
    end).
Proof.
  intros [[Hk Hal] Hnd Hsz Hfr Hv [Hm Hms] Htot]. unfold ggml_backend_alloc_ctx_tensors_from_buft. cbn [ggml_assert mbind res_bind].
  eapply post_bind; [by apply (ctx_loop_ok buft k (st_heap s) l s Hk Hal Hsz Hfr Hv Hnd Hms Htot eq_refl Hm l [] []); [|apply filling_start]|].
  intros [s1|st]; [by right|]. intros [dealt F]. destruct (Z.ltb_spec 0 (cs_cur_size st)) as [Hpos|Hz].
  - pose proof F as [F1 F2 F3 F4 F5 F6 F7]. assert (El : l = dealt ++ cs_first st ++ []) by (by rewrite app_nil_r).
    pose proof (total_part buft k (st_heap s) l s Hk Hal Hsz Hfr Hv Hnd Hms Htot eq_refl Hm dealt (cs_first st) [] El) as Hle.
    rewrite F3 in *. eapply post_bind; [apply (alloc_tensor_range_ok buft k (st_heap s) l s Hk Hal Hsz Hfr Hv Hnd _ dealt _ [] _ El F2 F5); lia|].
    intros [s1 [bs|]]; [|by right]. intros (L & O & b & ->). rewrite <- F1 in L.
    eapply post_mono; [apply (ctx_result_ok buft k (st_heap s) l s _ _ L O); by destruct (cs_buffers st)| |intros e He; exact He].
    by intros [s2 r] (c & -> & Ha & _).
  - assert (Ez : cs_cur_size st = 0).
    { pose proof F as [F1 F2 F3 F4 F5 F6 F7]. pose proof (total_part buft k (st_heap s) l s Hk Hal Hsz Hfr Hv Hnd Hms Htot eq_refl Hm dealt (cs_first st) [] ltac:(by rewrite app_nil_r)). lia. }
    destruct (filling_end buft k (st_heap s) l s dealt st F Ez) as (-> & -> & Ht). cbn [ctx_result post]. by left.
Qed.

(** * Examples *)

Module ContextExample.

Definition demo_tensor (view : option Z) : ggml_tensor :=
  {| t_type := 0; t_buffer := None; t_ne := [1; 1; 1; 1]; t_nb := [4; 4; 4; 4]; t_op := GGML_OP_NONE; t_flags := 0;
     t_src := src_array []; t_view_src := view; t_view_offs := 0; t_data := None; t_name := [] |}.

(** Three tensors of four bytes, and a view of the first one. *)
Definition demo_heap : heap := fun t => demo_tensor (if t =? 48 then Some 16 else None).

Definition demo_store : store := {| st_heap := demo_heap; st_bufs := []; st_requests := 0 |}.

(** Buffers of at most 64 bytes, with room for two tensors. *)
Definition small_buffers : BufferTypes := {|
  iface_get_alignment := fun _ => 32; iface_get_max_size := fun _ => Some 64;
  iface_get_alloc_size := fun _ => Some (fun _ => 4);
  iface_alloc_buffer := fun w _ size =>
    if 64 <? size then None else match w with O => Some (4096, size) | 1%nat => Some (8192, size) | _ => None end |}.

(** Buffers of at most 16 bytes, less than a tensor takes. *)
Definition tiny_buffers : BufferTypes := {|
  iface_get_alignment := fun _ => 32; iface_get_max_size := fun _ => Some 16;
  iface_get_alloc_size := fun _ => Some (fun _ => 4); iface_alloc_buffer := fun _ _ size => Some (4096, size) |}.

Lemma ctx_demo_sane : @SaneBackends small_buffers.
Proof.
  intros w buft size base sz Hs. cbn. destruct (Z.ltb_spec 64 size); [done|].
  destruct w as [|[|w]]; [intros [= <- <-]|intros [= <- <-]|done]; unfold SIZE_MAX; (splits; [lia|lia|lia|]); [by exists 128|by exists 256].
Qed.

Lemma ctx_demo_ready : @ctx_ready small_buffers 7 5 demo_heap [16; 32; 48; 64].
Proof.
  constructor.
  - split; [lia|done].
  - apply (bool_decide_unpack _). vm_compute. done.
  - intros t _ _. cbn. lia.
  - intros t _ _. done.
  - intros seen t rest E r Hr _. unfold demo_heap in Hr. cbn in Hr. destruct (Z.eqb_spec t 48) as [->|]; [|done]. injection Hr as <-.
    split; [done|]. left. split; [done|]. destruct seen as [|a seen]; [done|]. injection E as <- _. by left.
  - split; [vm_compute; done|]. intros t Ht. repeat (apply elem_of_cons in Ht as [->|Ht]; [vm_compute; done|]). by apply elem_of_nil in Ht.
  - vm_compute. done.
Qed.
End ContextExample.

(** The first two tensors share a buffer, the third one gets another, and the result is a
    buffer that collects both. *)
Lemma ctx_tensors_allocated_witness :
  exists s', @ggml_backend_alloc_ctx_tensors_from_buft ContextExample.small_buffers ContextExample.demo_store true [16; 32; 48; 64] 7 = Ok (s', Some 2) /\
    @allocated ContextExample.small_buffers 7 5 ContextExample.demo_heap [16; 32; 48; 64] ContextExample.demo_store s' 2 /\
    (t_data ∘ st_heap s' <$> [16; 32; 48; 64]) = [Some 4096; Some 4128; Some 4096; Some 8192].
Proof.
  pose proof (@ctx_tensors_allocated ContextExample.small_buffers ContextExample.ctx_demo_sane 7 5 ContextExample.demo_store [16; 32; 48; 64] ContextExample.ctx_demo_ready) as P.
  destruct (ggml_backend_alloc_ctx_tensors_from_buft _ _ _ _) as [[s' r]|e] eqn:E; [|vm_compute in E; discriminate E].
  assert (Er : r = Some 2) by (vm_compute in E; by injection E as _ <-). subst r. cbn [post] in P. exists s'. split; [reflexivity|]. split; [exact P|].
  vm_compute in E. injection E as <-. reflexivity.
Defined.

(** The message says that nothing is left to do when no buffer was made. But a context of
    views only is skipped altogether: although its source has memory by now, the view [48]
    stays without buffer and data, which [alloc_tensor_range] would have given it ("view of
    a pre-allocated tensor"). *)
Lemma views_alone_are_skipped :
  (s ← ggml_backend_tensor_alloc (H := ContextExample.small_buffers)
         (buft_alloc_buffer (H := ContextExample.small_buffers) ContextExample.demo_store 7 64).1 0 16 4096;
   '(s, r) ← @ggml_backend_alloc_ctx_tensors_from_buft ContextExample.small_buffers s true [48] 7;
   Ok (r, t_data (st_heap s 16), t_buffer (st_heap s 48), t_data (st_heap s 48))) = Ok (None, Some 4096, None, None).
Proof. vm_compute. reflexivity. Qed.

(** A tensor larger than the limit on the size of a buffer is put in a larger buffer all
    the same; and the view that follows it starts a range of size zero, which is never
    visited. *)
Lemma view_after_large_tensor_is_skipped :
  ('(s, r) ← @ggml_backend_alloc_ctx_tensors_from_buft ContextExample.tiny_buffers ContextExample.demo_store true [16; 48] 7;
   Ok (r, t_data (st_heap s 16), t_data (st_heap s 48))) = Ok (Some 0, Some 4096, None).
Proof. vm_compute. reflexivity. Qed.
