(* ===== verification/Gguf.v ===== *)
(** GGUF files ([ggml/src/gguf.cpp]): the container of models, which holds key-value pairs,
    the descriptions of tensors and their data. Here are the context with its accessors
    and setters, the reader and the writer. A file is the list of its bytes. *)
From S2P Require Import Prelude HashSet Alloc Tensor.

(** * Types *)

Definition GGUF_TYPE_UINT8   : Z := 0.
Definition GGUF_TYPE_INT8    : Z := 1.
Definition GGUF_TYPE_UINT16  : Z := 2.
Definition GGUF_TYPE_INT16   : Z := 3.
Definition GGUF_TYPE_UINT32  : Z := 4.
Definition GGUF_TYPE_INT32   : Z := 5.
Definition GGUF_TYPE_FLOAT32 : Z := 6.
Definition GGUF_TYPE_BOOL    : Z := 7.
Definition GGUF_TYPE_STRING  : Z := 8.
Definition GGUF_TYPE_ARRAY   : Z := 9.
Definition GGUF_TYPE_UINT64  : Z := 10.
Definition GGUF_TYPE_INT64   : Z := 11.
Definition GGUF_TYPE_FLOAT64 : Z := 12.

Definition GGUF_MAGIC : bytes := str "GGUF".
Definition GGUF_VERSION : Z := 3.
Definition GGUF_KEY_GENERAL_ALIGNMENT : bytes := str "general.alignment".
Definition GGUF_DEFAULT_ALIGNMENT : Z := 32.

(** The sizes in the order of the types; strings and arrays have none. *)
Definition GGUF_TYPE_SIZE : list Z := [1; 1; 2; 2; 4; 4; 4; 1; 0; 0; 8; 8; 8].

Definition gguf_type_size (type : Z) : Z := default 0 (zlookup GGUF_TYPE_SIZE type).

(** [c_str()] of a string, up to the first null. *)
Fixpoint c_str (s : bytes) : bytes :=
  match s with [] => [] | c :: s => if c =? 0 then [] else c :: c_str s end.

(** * Key-value pairs *)

(** [kv_data] holds the values of the types of a fixed size as bytes of the host, which is
    little-endian; strings are in [kv_data_string]. *)
Record gguf_kv : Type := {
  kv_key         : bytes;
  kv_is_array    : bool;
  kv_type        : Z;
  kv_data        : bytes;
  kv_data_string : list bytes
}.

(** The constructors. *)
Definition make_kv (key : bytes) (is_array : bool) (type : Z) (data : bytes) (strings : list bytes) : res gguf_kv :=
  _ ← ggml_assert (negb (bool_decide (key = [])));
  Ok {| kv_key := key; kv_is_array := is_array; kv_type := type; kv_data := data; kv_data_string := strings |}.

Definition kv_value (key : bytes) (type : Z) (value : bytes) : res gguf_kv := make_kv key false type value [].
Definition kv_values (key : bytes) (type : Z) (values : bytes) : res gguf_kv := make_kv key true type values [].
Definition kv_string (key value : bytes) : res gguf_kv := make_kv key false GGUF_TYPE_STRING [] [value].
Definition kv_strings (key : bytes) (values : list bytes) : res gguf_kv := make_kv key true GGUF_TYPE_STRING [] values.

Definition get_ne (kv : gguf_kv) : res Z :=
  if kv_type kv =? GGUF_TYPE_STRING then
    let ne := zlen (kv_data_string kv) in
    _ ← ggml_assert (kv_is_array kv || (ne =? 1));
    Ok ne
  else
    let type_size := gguf_type_size (kv_type kv) in
    if type_size =? 0 then Err UB
    else
      _ ← ggml_assert (zlen (kv_data kv) mod type_size =? 0);
      let ne := zlen (kv_data kv) / type_size in
      _ ← ggml_assert (kv_is_array kv || (ne =? 1));
      Ok ne.

(** [get_val<T>(i)] for the type [type], and for strings *)
Definition get_val (kv : gguf_kv) (type i : Z) : res bytes :=
  _ ← ggml_assert (type =? kv_type kv);
  let type_size := gguf_type_size (kv_type kv) in
  if type_size =? 0 then Err UB
  else
    _ ← ggml_assert (zlen (kv_data kv) mod type_size =? 0);
    _ ← ggml_assert ((i + 1) * type_size <=? zlen (kv_data kv));
    Ok (take (Z.to_nat type_size) (drop (Z.to_nat (i * type_size)) (kv_data kv))).

Definition get_val_string (kv : gguf_kv) (i : Z) : res bytes :=
  _ ← ggml_assert (kv_type kv =? GGUF_TYPE_STRING);
  _ ← ggml_assert (i + 1 <=? zlen (kv_data_string kv));
  vget (kv_data_string kv) i.

Definition cast (kv : gguf_kv) (new_type : Z) : res gguf_kv :=
  let new_type_size := gguf_type_size new_type in
  if new_type_size =? 0 then Err UB
  else
    _ ← ggml_assert (zlen (kv_data kv) mod new_type_size =? 0);
    Ok {| kv_key := kv_key kv; kv_is_array := kv_is_array kv; kv_type := new_type; kv_data := kv_data kv; kv_data_string := kv_data_string kv |}.

(** * The context *)

Record gguf_tensor_info : Type := {
  ti_t      : ggml_tensor;
  ti_offset : Z
}.

(** [gc_data] is the binary blob if it was loaded. *)
Record gguf_context : Type := {
  gc_version   : Z;
  gc_kv        : list gguf_kv;
  gc_info      : list gguf_tensor_info;
  gc_alignment : Z;
  gc_offset    : Z;
  gc_size      : Z;
  gc_data      : option bytes
}.

Definition gguf_init_empty : gguf_context :=
  {| gc_version := GGUF_VERSION; gc_kv := []; gc_info := []; gc_alignment := GGUF_DEFAULT_ALIGNMENT; gc_offset := 0; gc_size := 0; gc_data := None |}.

Definition with_kv (ctx : gguf_context) (kv : list gguf_kv) : gguf_context :=
  {| gc_version := gc_version ctx; gc_kv := kv; gc_info := gc_info ctx; gc_alignment := gc_alignment ctx; gc_offset := gc_offset ctx; gc_size := gc_size ctx; gc_data := gc_data ctx |}.

Definition with_info (ctx : gguf_context) (info : list gguf_tensor_info) : gguf_context :=
  {| gc_version := gc_version ctx; gc_kv := gc_kv ctx; gc_info := info; gc_alignment := gc_alignment ctx; gc_offset := gc_offset ctx; gc_size := gc_size ctx; gc_data := gc_data ctx |}.

(** ** Look-ups *)

(** The first index from [i] on whose name is [name] as a C string. *)
Fixpoint find_from (name : bytes) (i : Z) (names : list bytes) : Z :=
  match names with
  | [] => -1
  | n :: names => if decide (c_str name = c_str n) then i else find_from name (i + 1) names
  end.

Definition gguf_find_key (ctx : gguf_context) (key : bytes) : Z := find_from key 0 (kv_key <$> gc_kv ctx).

(** The pair of an index that is checked. *)
Definition kv_at (ctx : gguf_context) (key_id : Z) : res gguf_kv :=
  _ ← ggml_assert ((0 <=? key_id) && (key_id <? zlen (gc_kv ctx)));
  vget (gc_kv ctx) key_id.

Definition gguf_get_key (ctx : gguf_context) (key_id : Z) : res bytes := kv ← kv_at ctx key_id; Ok (c_str (kv_key kv)).

Definition gguf_get_kv_type (ctx : gguf_context) (key_id : Z) : res Z :=
  kv ← kv_at ctx key_id; Ok (if kv_is_array kv then GGUF_TYPE_ARRAY else kv_type kv).

Definition gguf_get_arr_type (ctx : gguf_context) (key_id : Z) : res Z :=
  kv ← kv_at ctx key_id; _ ← ggml_assert (kv_is_array kv); Ok (kv_type kv).

Definition gguf_get_arr_data (ctx : gguf_context) (key_id : Z) : res bytes :=
  kv ← kv_at ctx key_id; _ ← ggml_assert (negb (kv_type kv =? GGUF_TYPE_STRING)); Ok (kv_data kv).

Definition gguf_get_arr_str (ctx : gguf_context) (key_id i : Z) : res bytes :=
  kv ← kv_at ctx key_id; _ ← ggml_assert (kv_type kv =? GGUF_TYPE_STRING);
  s ← vget (kv_data_string kv) i; Ok (c_str s).

Definition gguf_get_arr_n (ctx : gguf_context) (key_id : Z) : res Z :=
  kv ← kv_at ctx key_id;
  if kv_type kv =? GGUF_TYPE_STRING then Ok (zlen (kv_data_string kv))
  else
    let type_size := gguf_type_size (kv_type kv) in
    if type_size =? 0 then Err UB
    else
      _ ← ggml_assert (zlen (kv_data kv) mod type_size =? 0);
      Ok (zlen (kv_data kv) / type_size).

(** The functions [gguf_get_val_*] read the bytes of one value of their type. *)
Definition get_scalar (ctx : gguf_context) (key_id type : Z) : res bytes :=
  kv ← kv_at ctx key_id;
  ne ← get_ne kv;
  _ ← ggml_assert (ne =? 1);
  get_val kv type 0.

Definition gguf_get_val_u8 (ctx : gguf_context) (key_id : Z) : res Z := v ← get_scalar ctx key_id GGUF_TYPE_UINT8; Ok (le_value v).
Definition gguf_get_val_i8 (ctx : gguf_context) (key_id : Z) : res Z := v ← get_scalar ctx key_id GGUF_TYPE_INT8; Ok (wrap_s 8 (le_value v)).
Definition gguf_get_val_u16 (ctx : gguf_context) (key_id : Z) : res Z := v ← get_scalar ctx key_id GGUF_TYPE_UINT16; Ok (le_value v).
Definition gguf_get_val_i16 (ctx : gguf_context) (key_id : Z) : res Z := v ← get_scalar ctx key_id GGUF_TYPE_INT16; Ok (wrap_s 16 (le_value v)).
Definition gguf_get_val_u32 (ctx : gguf_context) (key_id : Z) : res Z := v ← get_scalar ctx key_id GGUF_TYPE_UINT32; Ok (le_value v).
Definition gguf_get_val_i32 (ctx : gguf_context) (key_id : Z) : res Z := v ← get_scalar ctx key_id GGUF_TYPE_INT32; Ok (wrap_s 32 (le_value v)).
Definition gguf_get_val_u64 (ctx : gguf_context) (key_id : Z) : res Z := v ← get_scalar ctx key_id GGUF_TYPE_UINT64; Ok (le_value v).
Definition gguf_get_val_i64 (ctx : gguf_context) (key_id : Z) : res Z := v ← get_scalar ctx key_id GGUF_TYPE_INT64; Ok (wrap_s 64 (le_value v)).
(** A float is its bits. *)
Definition gguf_get_val_f32 (ctx : gguf_context) (key_id : Z) : res Z := v ← get_scalar ctx key_id GGUF_TYPE_FLOAT32; Ok (le_value v).
Definition gguf_get_val_f64 (ctx : gguf_context) (key_id : Z) : res Z := v ← get_scalar ctx key_id GGUF_TYPE_FLOAT64; Ok (le_value v).
Definition gguf_get_val_bool (ctx : gguf_context) (key_id : Z) : res bool := v ← get_scalar ctx key_id GGUF_TYPE_BOOL; Ok (negb (le_value v =? 0)).

Definition gguf_get_val_str (ctx : gguf_context) (key_id : Z) : res bytes :=
  kv ← kv_at ctx key_id;
  ne ← get_ne kv;
  _ ← ggml_assert (ne =? 1);
  s ← get_val_string kv 0; Ok (c_str s).

Definition gguf_get_val_data (ctx : gguf_context) (key_id : Z) : res bytes :=
  kv ← kv_at ctx key_id;
  ne ← get_ne kv;
  _ ← ggml_assert (ne =? 1);
  _ ← ggml_assert (negb (kv_type kv =? GGUF_TYPE_STRING));
  Ok (kv_data kv).

Definition ti_name (ti : gguf_tensor_info) : bytes := t_name (ti_t ti).

Definition gguf_find_tensor (ctx : gguf_context) (name : bytes) : Z := find_from name 0 (ti_name <$> gc_info ctx).

Definition info_at (ctx : gguf_context) (tensor_id : Z) : res gguf_tensor_info :=
  _ ← ggml_assert ((0 <=? tensor_id) && (tensor_id <? zlen (gc_info ctx)));
  vget (gc_info ctx) tensor_id.

Definition gguf_get_tensor_offset (ctx : gguf_context) (tensor_id : Z) : res Z := ti ← info_at ctx tensor_id; Ok (ti_offset ti).
Definition gguf_get_tensor_name (ctx : gguf_context) (tensor_id : Z) : res bytes := ti ← info_at ctx tensor_id; Ok (ti_name ti).
Definition gguf_get_tensor_type (ctx : gguf_context) (tensor_id : Z) : res Z := ti ← info_at ctx tensor_id; Ok (t_type (ti_t ti)).
Definition gguf_get_tensor_size (ctx : gguf_context) (tensor_id : Z) : res Z := ti ← info_at ctx tensor_id; Ok (ggml_nbytes (ti_t ti)).

(** ** Setters *)

Definition gguf_remove_key (ctx : gguf_context) (key : bytes) : gguf_context * Z :=
  let key_id := gguf_find_key ctx key in
  if 0 <=? key_id then (with_kv ctx (delete (Z.to_nat key_id) (gc_kv ctx)), key_id) else (ctx, key_id).

Definition power_of_2 (x : Z) : bool := negb (x =? 0) && (Z.land x (x - 1) =? 0).

(** The value matters for [uint32_t] only; arrays are given as [None]. *)
Definition gguf_check_reserved_keys (key : bytes) (type : option Z) (val : Z) : res unit :=
  if bool_decide (key = GGUF_KEY_GENERAL_ALIGNMENT) then
    if bool_decide (type = Some GGUF_TYPE_UINT32) then ggml_assert (power_of_2 val) else Err Abort
  else Ok tt.

(** The pair replaces an earlier one of the same key. *)
Definition emplace_kv (ctx : gguf_context) (key : bytes) (kv : res gguf_kv) : res gguf_context :=
  let ctx := (gguf_remove_key ctx key).1 in
  kv ← kv;
  Ok (with_kv ctx (gc_kv ctx ++ [kv])).

(** The functions [gguf_set_val_*] store the bytes of a value of their type. *)
Definition set_scalar (ctx : gguf_context) (key : bytes) (type val : Z) : res gguf_context :=
  _ ← gguf_check_reserved_keys key (Some type) val;
  emplace_kv ctx key (kv_value key type (le_bytes (Z.to_nat (gguf_type_size type)) val)).

Definition gguf_set_val_u8 (ctx : gguf_context) (key : bytes) (val : Z) : res gguf_context := set_scalar ctx key GGUF_TYPE_UINT8 val.
Definition gguf_set_val_i8 (ctx : gguf_context) (key : bytes) (val : Z) : res gguf_context := set_scalar ctx key GGUF_TYPE_INT8 val.
Definition gguf_set_val_u16 (ctx : gguf_context) (key : bytes) (val : Z) : res gguf_context := set_scalar ctx key GGUF_TYPE_UINT16 val.
Definition gguf_set_val_i16 (ctx : gguf_context) (key : bytes) (val : Z) : res gguf_context := set_scalar ctx key GGUF_TYPE_INT16 val.
Definition gguf_set_val_u32 (ctx : gguf_context) (key : bytes) (val : Z) : res gguf_context := set_scalar ctx key GGUF_TYPE_UINT32 val.
Definition gguf_set_val_i32 (ctx : gguf_context) (key : bytes) (val : Z) : res gguf_context := set_scalar ctx key GGUF_TYPE_INT32 val.
Definition gguf_set_val_f32 (ctx : gguf_context) (key : bytes) (val : Z) : res gguf_context := set_scalar ctx key GGUF_TYPE_FLOAT32 val.
Definition gguf_set_val_u64 (ctx : gguf_context) (key : bytes) (val : Z) : res gguf_context := set_scalar ctx key GGUF_TYPE_UINT64 val.
Definition gguf_set_val_i64 (ctx : gguf_context) (key : bytes) (val : Z) : res gguf_context := set_scalar ctx key GGUF_TYPE_INT64 val.
Definition gguf_set_val_f64 (ctx : gguf_context) (key : bytes) (val : Z) : res gguf_context := set_scalar ctx key GGUF_TYPE_FLOAT64 val.
Definition gguf_set_val_bool (ctx : gguf_context) (key : bytes) (val : bool) : res gguf_context := set_scalar ctx key GGUF_TYPE_BOOL (Z.b2z val).

Definition gguf_set_val_str (ctx : gguf_context) (key val : bytes) : res gguf_context :=
  _ ← gguf_check_reserved_keys key (Some GGUF_TYPE_STRING) 0;
  emplace_kv ctx key (kv_string key val).

(** [data] is the memory of the [n] values. The array is made of bytes and then cast. *)
Definition gguf_set_arr_data (ctx : gguf_context) (key : bytes) (type : Z) (data : bytes) (n : Z) : res gguf_context :=
  _ ← gguf_check_reserved_keys key None 0;
  let nbytes := u64 (n * gguf_type_size type) in
  if nbytes <=? zlen data then
    emplace_kv ctx key (kv ← kv_values key GGUF_TYPE_INT8 (take (Z.to_nat nbytes) data); cast kv type)
  else Err UB.

Definition gguf_set_arr_str (ctx : gguf_context) (key : bytes) (data : list bytes) : res gguf_context :=
  _ ← gguf_check_reserved_keys key None 0;
  emplace_kv ctx key (kv_strings key data).

(** One pair of [src] for [gguf_set_kv]. The types of a fixed size go through the function
    for their type, which stores the same bytes again. *)
Definition set_kv_from (ctx : gguf_context) (kv : gguf_kv) : res gguf_context :=
  let key := c_str (kv_key kv) in
  if negb (kv_is_array kv) then
    if kv_type kv =? GGUF_TYPE_STRING then s ← get_val_string kv 0; gguf_set_val_str ctx key (c_str s)
    else if gguf_type_size (kv_type kv) =? 0 then Err Abort
    else v ← get_val kv (kv_type kv) 0; set_scalar ctx key (kv_type kv) (le_value v)
  else
    ne ← get_ne kv;
    if kv_type kv =? GGUF_TYPE_STRING then gguf_set_arr_str ctx key (c_str <$> kv_data_string kv)
    else if gguf_type_size (kv_type kv) =? 0 then Err Abort
    else gguf_set_arr_data ctx key (kv_type kv) (kv_data kv) ne.

Definition gguf_set_kv (ctx src : gguf_context) : res gguf_context := foldM set_kv_from ctx (gc_kv src).

(** Where a tensor that follows [ti] starts. *)
Definition next_offset (alignment : Z) (ti : gguf_tensor_info) : Z :=
  u64 (ti_offset ti + GGML_PAD (ggml_nbytes (ti_t ti)) alignment).

Definition gguf_add_tensor (ctx : gguf_context) (tensor : ggml_tensor) : res gguf_context :=
  _ ← ggml_assert (gguf_find_tensor ctx (t_name tensor) =? -1);
  let offset := match last (gc_info ctx) with None => 0 | Some ti => next_offset (gc_alignment ctx) ti end in
  Ok (with_info ctx (gc_info ctx ++ [{| ti_t := tensor; ti_offset := offset |}])).

(** The strides of a tensor without gaps. *)
Definition dense_nb (type_size blck_size : Z) (ne : list Z) : list Z :=
  let ne_at i := default 0 (zlookup ne i) in
  let nb1 := u64 (type_size * Z.quot (ne_at 0) blck_size) in
  let nb2 := u64 (nb1 * ne_at 1) in
  let nb3 := u64 (nb2 * ne_at 2) in
  [type_size; nb1; nb2; nb3].

Definition with_type (t : ggml_tensor) (type : Z) (nb : list Z) : ggml_tensor :=
  {| t_type := type; t_buffer := t_buffer t; t_ne := t_ne t; t_nb := nb; t_op := t_op t; t_flags := t_flags t; t_src := t_src t;
     t_view_src := t_view_src t; t_view_offs := t_view_offs t; t_data := t_data t; t_name := t_name t |}.

(** The offsets behind the tensor [prev]. *)
Fixpoint update_offsets (alignment : Z) (prev : gguf_tensor_info) (infos : list gguf_tensor_info) : list gguf_tensor_info :=
  match infos with
  | [] => []
  | ti :: infos =>
      let ti := {| ti_t := ti_t ti; ti_offset := next_offset alignment prev |} in
      ti :: update_offsets alignment ti infos
  end.

Definition gguf_set_tensor_type (ctx : gguf_context) (name : bytes) (type : Z) : res gguf_context :=
  let tensor_id := gguf_find_tensor ctx name in
  if tensor_id <? 0 then Err Abort
  else
    ti ← vget (gc_info ctx) tensor_id;
    let tensor := ti_t ti in
    let blck_size := ggml_blck_size type in
    if blck_size =? 0 then Err UB
    else
      _ ← ggml_assert (Z.rem (ne_at tensor 0) blck_size =? 0);
      let ti := {| ti_t := with_type tensor type (dense_nb (ggml_type_size type) blck_size (t_ne tensor)); ti_offset := ti_offset ti |} in
      let before := take (Z.to_nat tensor_id) (gc_info ctx) in
      let behind := drop (S (Z.to_nat tensor_id)) (gc_info ctx) in
      Ok (with_info ctx (before ++ ti :: update_offsets (gc_alignment ctx) ti behind)).

Definition with_data (t : ggml_tensor) (data : option Z) : ggml_tensor :=
  {| t_type := t_type t; t_buffer := t_buffer t; t_ne := t_ne t; t_nb := t_nb t; t_op := t_op t; t_flags := t_flags t; t_src := t_src t;
     t_view_src := t_view_src t; t_view_offs := t_view_offs t; t_data := data; t_name := t_name t |}.

Definition gguf_set_tensor_data (ctx : gguf_context) (name : bytes) (data : option Z) : res gguf_context :=
  let tensor_id := gguf_find_tensor ctx name in
  if tensor_id <? 0 then Err Abort
  else
    ti ← vget (gc_info ctx) tensor_id;
    infos ← vset (gc_info ctx) tensor_id {| ti_t := with_data (ti_t ti) data; ti_offset := ti_offset ti |};
    Ok (with_info ctx infos).

(** * Reading *)

(** Whether a vector of so many bytes can be made; otherwise an exception is thrown. *)
Class Memory : Type := { mem_fits : Z -> bool }.

(** The rest of the file and the position in it. *)
Record file_pos : Type := {
  fp_rest : bytes;
  fp_pos  : Z
}.

(** Reading from a file: [Ok None] is a result [false] of the reader, after which the
    functions clean up and return a null pointer. *)
Definition reading (A : Type) : Type := file_pos -> res (option (A * file_pos)).

#[export] Instance parse_ret : MRet reading := fun A a f => Ok (Some (a, f)).
#[export] Instance parse_bind : MBind reading := fun A B k m f =>
  match m f with
  | Ok (Some (a, f)) => k a f
  | Ok None => Ok None
  | Err e => Err e
  end.

Definition fail {A} : reading A := fun _ => Ok None.
Definition guard (b : bool) : reading unit := if b then mret tt else fail.
Definition lift {A} (m : res A) : reading A := fun f => match m with Ok a => Ok (Some (a, f)) | Err e => Err e end.

(** [try ... catch (std::length_error &) ... catch (std::bad_alloc &)] *)
Definition catch {A} (m : reading A) : reading A := fun f =>
  match m f with Err (Throw _) => Ok None | r => r end.

(** [fread] of [n] bytes *)
Definition gr_bytes (n : Z) : reading bytes := fun f =>
  if n <=? zlen (fp_rest f) then
    Ok (Some (take (Z.to_nat n) (fp_rest f), {| fp_rest := drop (Z.to_nat n) (fp_rest f); fp_pos := fp_pos f + n |}))
  else Ok None.

Definition gr_u32 : reading Z := b ← gr_bytes 4; mret (le_value b).
Definition gr_i32 : reading Z := b ← gr_bytes 4; mret (wrap_s 32 (le_value b)).
Definition gr_u64 : reading Z := b ← gr_bytes 8; mret (le_value b).
Definition gr_i64 : reading Z := b ← gr_bytes 8; mret (wrap_s 64 (le_value b)).

Section reader.
Context `{Memory}.

(** [resize] *)
Definition resize (size : Z) : reading unit := if mem_fits size then mret tt else lift (throw "length_error").

Definition gr_string : reading bytes :=
  size ← gr_u64;
  _ ← resize size;
  gr_bytes size.

Fixpoint gr_strings (n : nat) : reading (list bytes) :=
  match n with
  | O => mret []
  | S n => s ← gr_string; l ← gr_strings n; mret (s :: l)
  end.

(** A [bool] is stored as 0 or 1. *)
Definition to_bools (type : Z) (data : bytes) : bytes :=
  if type =? GGUF_TYPE_BOOL then (fun b => if b =? 0 then 0 else 1) <$> data else data.

(** [gguf_read_emplace_helper] for a type of a fixed size; the elements of a
    [std::vector<bool>] are bits. *)
Definition read_values (key : bytes) (type : Z) (is_array : bool) (n : Z) : reading gguf_kv :=
  let size := gguf_type_size type in
  if is_array then
    data ← catch (_ ← resize (if type =? GGUF_TYPE_BOOL then (n + 7) / 8 else n * size); gr_bytes (n * size));
    lift (kv_values key type (to_bools type data))
  else
    data ← gr_bytes size;
    lift (kv_value key type (to_bools type data)).

(** and for strings, of which each takes 32 bytes; a single string is read outside of the
    [try]. *)
Definition read_texts (key : bytes) (is_array : bool) (n : Z) : reading gguf_kv :=
  if is_array then
    l ← catch (_ ← resize (n * 32); gr_strings (Z.to_nat n));
    lift (kv_strings key l)
  else
    s ← gr_string;
    lift (kv_string key s).

Definition gguf_read_emplace_helper (key : bytes) (type : Z) (is_array : bool) (n : Z) : reading gguf_kv :=
  if type =? GGUF_TYPE_STRING then read_texts key is_array n else read_values key type is_array n.

Definition read_kv (kvs : list gguf_kv) : reading gguf_kv :=
  key ← catch gr_string;
  _ ← guard (negb (existsb (fun kv => bool_decide (key = kv_key kv)) kvs));
  type ← gr_i32;
  '(is_array, type, n) ← (if type =? GGUF_TYPE_ARRAY then type ← gr_i32; n ← gr_u64; mret (true, type, n) else mret (false, type, 1));
  if bool_decide (is_Some (zlookup GGUF_TYPE_SIZE type)) && negb (type =? GGUF_TYPE_ARRAY) then
    gguf_read_emplace_helper key type is_array n
  else fail.

Fixpoint read_kvs (n : nat) (kvs : list gguf_kv) : reading (list gguf_kv) :=
  match n with
  | O => mret kvs
  | S n => kv ← read_kv kvs; read_kvs n (kvs ++ [kv])
  end.

Definition INT64_MAX : Z := 9223372036854775807.

(** The dimension [j] of [n_dims]. *)
Definition read_dim (n_dims j : Z) : reading Z :=
  ne ← (if j <? n_dims then gr_i64 else mret 1);
  _ ← guard (0 <=? ne);
  mret ne.

(** [INT64_MAX/ne <= n]; a division by zero is undefined. *)
Definition too_many (ne n : Z) : res bool := if ne =? 0 then Err UB else Ok (INT64_MAX / ne <=? n).

(** Whether the number of elements is not representable. *)
Definition unrepresentable (ne0 ne1 ne2 ne3 : Z) : res bool :=
  b ← too_many ne1 ne0;
  if (b : bool) then Ok true
  else
    b ← too_many ne2 (ne0 * ne1);
    if (b : bool) then Ok true else too_many ne3 (ne0 * ne1 * ne2).

(** A tensor of which the name, the type and the shape are known; the other members are
    not set. *)
Definition described (name : bytes) (type : Z) (ne nb : list Z) : ggml_tensor :=
  {| t_type := type; t_buffer := None; t_ne := ne; t_nb := nb; t_op := GGML_OP_NONE; t_flags := 0; t_src := src_array [];
     t_view_src := None; t_view_offs := 0; t_data := None; t_name := name |}.

Definition read_name (infos : list gguf_tensor_info) : reading bytes :=
  name ← catch gr_string;
  _ ← guard (zlen name <? GGML_MAX_NAME);
  let name := c_str name in
  _ ← guard (negb (existsb (fun ti => bool_decide (name = ti_name ti)) infos));
  mret name.

Definition read_shape : reading (list Z) :=
  n_dims ← gr_u32;
  _ ← guard (n_dims <=? GGML_MAX_DIMS);
  ne0 ← read_dim n_dims 0;
  ne1 ← read_dim n_dims 1;
  ne2 ← read_dim n_dims 2;
  ne3 ← read_dim n_dims 3;
  bad ← lift (unrepresentable ne0 ne1 ne2 ne3);
  _ ← guard (negb bad);
  mret [ne0; ne1; ne2; ne3].

Definition read_type (ne : list Z) : reading (Z * list Z) :=
  type ← gr_i32;
  _ ← guard ((0 <=? type) && (type <? GGML_TYPE_COUNT));
  let type_size := ggml_type_size type in
  let blck_size := ggml_blck_size type in
  _ ← guard (negb ((blck_size =? 0) || negb (Z.rem (default 0 (zlookup ne 0)) blck_size =? 0)));
  mret (type, dense_nb type_size blck_size ne).

Definition read_info (infos : list gguf_tensor_info) : reading gguf_tensor_info :=
  name ← read_name infos;
  ne ← read_shape;
  '(type, nb) ← read_type ne;
  offset ← gr_u64;
  mret {| ti_t := described name type ne nb; ti_offset := offset |}.

Fixpoint read_infos (n : nat) (infos : list gguf_tensor_info) : reading (list gguf_tensor_info) :=
  match n with
  | O => mret infos
  | S n => ti ← read_info infos; read_infos n (infos ++ [ti])
  end.

(** [fseek] to the next multiple of the alignment, which may be behind the end. *)
Definition seek_data (alignment : Z) : reading Z := fun f =>
  let pos := GGML_PAD (fp_pos f) alignment in
  if wrap_s 64 pos <? 0 then Ok None
  else Ok (Some (pos, {| fp_rest := drop (Z.to_nat (pos - fp_pos f)) (fp_rest f); fp_pos := pos |})).

(** The size of the data section, where the tensors must follow each other. *)
Definition add_size (alignment size : Z) (ti : gguf_tensor_info) : reading Z :=
  _ ← guard (ti_offset ti =? size);
  mret (u64 (size + GGML_PAD (ggml_nbytes (ti_t ti)) alignment)).

Fixpoint data_size (alignment size : Z) (infos : list gguf_tensor_info) : reading Z :=
  match infos with
  | [] => mret size
  | ti :: infos => size ← add_size alignment size ti; data_size alignment size infos
  end.

(** The numbers must be possible lengths of vectors; the sizes are those of the structures
    on a 64-bit host. *)
Definition sizeof_gguf_tensor_info : Z := 344.
Definition sizeof_gguf_kv : Z := 88.

Definition gguf_read_header : reading (Z * Z * Z) :=
  magic ← gr_bytes 4;
  _ ← guard (bool_decide (magic = GGUF_MAGIC));
  version ← gr_u32;
  _ ← guard (negb (version =? 1) && (version <=? GGUF_VERSION));
  n_tensors ← gr_i64;
  _ ← guard ((0 <=? n_tensors) && (n_tensors <=? SIZE_MAX / sizeof_gguf_tensor_info));
  n_kv ← gr_i64;
  _ ← guard ((0 <=? n_kv) && (n_kv <=? SIZE_MAX / sizeof_gguf_kv));
  mret (version, n_tensors, n_kv).

(** The alignment of the data section. *)
Definition read_alignment (kvs : list gguf_kv) : reading Z :=
  let ctx := with_kv gguf_init_empty kvs in
  let alignment_idx := gguf_find_key ctx GGUF_KEY_GENERAL_ALIGNMENT in
  alignment ← lift (if alignment_idx =? -1 then Ok GGUF_DEFAULT_ALIGNMENT else gguf_get_val_u32 ctx alignment_idx);
  _ ← guard (power_of_2 alignment);
  mret alignment.

(** [load] tells whether the binary blob is read into a context ([params.ctx] is given and
    not [no_alloc]); the tensors that are made in that context are not part of the model. *)
Definition gguf_read (load : bool) : reading gguf_context :=
  '(version, n_tensors, n_kv) ← gguf_read_header;
  kvs ← read_kvs (Z.to_nat n_kv) [];
  _ ← lift (ggml_assert (zlen kvs =? n_kv));
  alignment ← read_alignment kvs;
  infos ← read_infos (Z.to_nat n_tensors) [];
  _ ← lift (ggml_assert (zlen infos =? n_tensors));
  offset ← seek_data alignment;
  size ← data_size alignment 0 infos;
  data ← (if load then data ← gr_bytes size; mret (Some data) else mret None);
  mret {| gc_version := version; gc_kv := kvs; gc_info := infos; gc_alignment := alignment; gc_offset := offset; gc_size := size; gc_data := data |}.

Definition gguf_init_from_file_impl (file : bytes) (load : bool) : res (option gguf_context) :=
  match gguf_read load {| fp_rest := file; fp_pos := 0 |} with
  | Ok (Some (ctx, _)) => Ok (Some ctx)
  | Ok None => Ok None
  | Err e => Err e
  end.
End reader.

(** * Writing *)

Definition gw_string (val : bytes) : bytes := le_bytes 8 (zlen val) ++ val.

(** [pad]: zeros are appended while the size is no multiple of the alignment. *)
Fixpoint pad_loop (fuel : nat) (alignment : Z) (buf : bytes) : res bytes :=
  if zlen buf mod alignment =? 0 then Ok buf
  else match fuel with O => Err Fuel | S fuel => pad_loop fuel alignment (buf ++ [0]) end.

Definition pad_buf (alignment : Z) (buf : bytes) : res bytes :=
  if alignment =? 0 then Err UB else pad_loop (Z.to_nat alignment) alignment buf.

(** The values of a pair. *)
Definition gw_bool (kv : gguf_kv) (buf : bytes) (i : Z) : res bytes :=
  v ← get_val kv GGUF_TYPE_BOOL i; Ok (buf ++ [if le_value v =? 0 then 0 else 1]).

Definition gw_text (kv : gguf_kv) (buf : bytes) (i : Z) : res bytes :=
  s ← get_val_string kv i; Ok (buf ++ gw_string s).

Definition gw_kv (buf : bytes) (kv : gguf_kv) : res bytes :=
  ne ← get_ne kv;
  let buf := buf ++ gw_string (kv_key kv) in
  let buf := buf ++ (if kv_is_array kv then le_bytes 4 GGUF_TYPE_ARRAY ++ le_bytes 4 (kv_type kv) ++ le_bytes 8 ne else le_bytes 4 (kv_type kv)) in
  if kv_type kv =? GGUF_TYPE_BOOL then for_z 0 ne (fun i buf => gw_bool kv buf i) buf
  else if kv_type kv =? GGUF_TYPE_STRING then for_z 0 ne (fun i buf => gw_text kv buf i) buf
  else if gguf_type_size (kv_type kv) =? 0 then Err Abort
  else Ok (buf ++ kv_data kv).

Definition gw_tensor_meta (buf : bytes) (ti : gguf_tensor_info) : bytes :=
  let t := ti_t ti in
  let n_dims := ggml_n_dims t in
  buf ++ gw_string (c_str (t_name t)) ++ le_bytes 4 n_dims ++ concat ((fun j => le_bytes 8 (ne_at t j)) <$> zseq 0 (Z.to_nat n_dims)) ++
  le_bytes 4 (t_type t) ++ le_bytes 8 (ti_offset ti).

Section writer.
(** The bytes of a tensor, from a backend or from memory. *)
Context (contents : ggml_tensor -> bytes).

Definition gw_tensor_data (offset_data alignment : Z) (buf : bytes) (ti : gguf_tensor_info) : res bytes :=
  let t := ti_t ti in
  _ ← ggml_assert (u64 (zlen buf - offset_data) =? ti_offset ti);
  _ ← ggml_assert (ggml_is_contiguous t);
  _ ← ggml_assert (bool_decide (is_Some (t_buffer t)) || bool_decide (is_Some (t_data t)));
  pad_buf alignment (buf ++ contents t).

Definition gguf_write_to_buf (ctx : gguf_context) (buf : bytes) (only_meta : bool) : res bytes :=
  let buf := buf ++ GGUF_MAGIC ++ le_bytes 4 (gc_version ctx) ++ le_bytes 8 (zlen (gc_info ctx)) ++ le_bytes 8 (zlen (gc_kv ctx)) in
  buf ← foldM gw_kv buf (gc_kv ctx);
  let buf := fold_left gw_tensor_meta (gc_info ctx) buf in
  buf ← pad_buf (gc_alignment ctx) buf;
  if only_meta then Ok buf
  else foldM (gw_tensor_data (zlen buf) (gc_alignment ctx)) buf (gc_info ctx).

Definition gguf_get_meta_size (ctx : gguf_context) : res Z :=
  buf ← gguf_write_to_buf ctx [] true; Ok (zlen buf).
End writer.
