(* ===== verification/GgufSpec.v ===== *)
(** Correctness of GGUF files: what the writer produces the reader reads back, and
    whatever the reader accepts is well formed. *)
From S2P Require Import Prelude HashSet Alloc Pad Tensor Gguf.

(** * Readers *)

(** [m] reads exactly [b] and returns [a]. *)
Definition gives {A} (m : reading A) (b : bytes) (a : A) : Prop :=
  forall rest pos, m {| fp_rest := b ++ rest; fp_pos := pos |} = Ok (Some (a, {| fp_rest := rest; fp_pos := pos + zlen b |})).

Lemma gives_ret {A} (a : A) : gives (mret a) [] a.
Proof. intros rest pos. unfold mret, parse_ret. cbn [app]. by rewrite Z.add_0_r. Qed.

Lemma gives_bind {A B} (m : reading A) (k : A -> reading B) b1 b2 a c : gives m b1 a -> gives (k a) b2 c -> gives (m ≫= k) (b1 ++ b2) c.
Proof.
  intros Hm Hk rest pos. unfold mbind, parse_bind. rewrite <- app_assoc, Hm, Hk, zlen_app. by rewrite Z.add_assoc.
Qed.

(** The reader needs nothing. *)
Lemma gives_bind_nil {A B} (m : reading A) (k : A -> reading B) b a c : gives m [] a -> gives (k a) b c -> gives (m ≫= k) b c.
Proof. intros Hm Hk. by apply (gives_bind m k [] b a c). Qed.

Lemma gives_last {A B} (m : reading A) (k : A -> reading B) b a c : gives m b a -> gives (k a) [] c -> gives (m ≫= k) b c.
Proof. intros Hm Hk. rewrite <- (app_nil_r b). by eapply gives_bind. Qed.

Lemma gives_guard b : b = true -> gives (guard b) [] tt.
Proof. intros ->. apply gives_ret. Qed.

Lemma gives_lift {A} (m : res A) a : m = Ok a -> gives (lift m) [] a.
Proof. intros -> rest pos. cbn. by rewrite Z.add_0_r. Qed.

Lemma gives_catch {A} (m : reading A) b a : gives m b a -> gives (catch m) b a.
Proof. intros Hm rest pos. unfold catch. by rewrite Hm. Qed.

Lemma gives_bytes b n : zlen b = n -> gives (gr_bytes n) b b.
Proof.
  intros <- rest pos. unfold gr_bytes. cbn [fp_rest fp_pos]. rewrite zlen_app. destruct (Z.leb_spec (zlen b) (zlen b + zlen rest)); [|pose proof (zlen_nonneg rest); lia].
  unfold zlen. rewrite Nat2Z.id, take_app_length, drop_app_length. done.
Qed.

Lemma gives_u32 x : 0 <= x < 2 ^ 32 -> gives gr_u32 (le_bytes 4 x) x.
Proof.
  intros Hx. unfold gr_u32. eapply gives_last; [apply gives_bytes, zlen_le_bytes|]. rewrite le_value_4, u32_small by lia. apply gives_ret.
Qed.

Lemma gives_u64 x : 0 <= x < 2 ^ 64 -> gives gr_u64 (le_bytes 8 x) x.
Proof.
  intros Hx. unfold gr_u64. eapply gives_last; [apply gives_bytes, zlen_le_bytes|]. rewrite le_value_8. change (wrap_u 64 x) with (u64 x).
  rewrite u64_small by (unfold SIZE_MAX; lia). apply gives_ret.
Qed.

Lemma wrap_s_mod w x : 0 < w -> - 2 ^ (w - 1) <= x < 2 ^ (w - 1) -> wrap_s w (x mod 2 ^ w) = x.
Proof.
  intros Hw Hx. unfold wrap_s. rewrite Zplus_mod_idemp_l, Z.mod_small; [lia|].
  replace (2 ^ w) with (2 * 2 ^ (w - 1)) by (rewrite <- Z.pow_succ_r by lia; f_equal; lia). lia.
Qed.

Lemma gives_i32 x : - 2 ^ 31 <= x < 2 ^ 31 -> gives gr_i32 (le_bytes 4 x) x.
Proof.
  intros Hx. unfold gr_i32. eapply gives_last; [apply gives_bytes, zlen_le_bytes|]. rewrite le_value_bytes. change (256 ^ Z.of_nat 4) with (2 ^ 32).
  rewrite wrap_s_mod by lia. apply gives_ret.
Qed.

Lemma gives_i64 x : - 2 ^ 63 <= x < 2 ^ 63 -> gives gr_i64 (le_bytes 8 x) x.
Proof.
  intros Hx. unfold gr_i64. eapply gives_last; [apply gives_bytes, zlen_le_bytes|]. rewrite le_value_bytes. change (256 ^ Z.of_nat 8) with (2 ^ 64).
  rewrite wrap_s_mod by lia. apply gives_ret.
Qed.

(** * What is written *)

(** The bytes of a pair. *)
Definition kv_values_bytes (kv : gguf_kv) : bytes :=
  if kv_type kv =? GGUF_TYPE_STRING then concat (gw_string <$> kv_data_string kv) else kv_data kv.

Definition kv_count (kv : gguf_kv) : Z :=
  if kv_type kv =? GGUF_TYPE_STRING then zlen (kv_data_string kv) else zlen (kv_data kv) / gguf_type_size (kv_type kv).

Definition kv_head (kv : gguf_kv) : bytes :=
  if kv_is_array kv then le_bytes 4 GGUF_TYPE_ARRAY ++ le_bytes 4 (kv_type kv) ++ le_bytes 8 (kv_count kv) else le_bytes 4 (kv_type kv).

Definition kv_bytes (kv : gguf_kv) : bytes := gw_string (kv_key kv) ++ kv_head kv ++ kv_values_bytes kv.

(** A pair as the constructors make it. *)
Record kv_ok (kv : gguf_kv) : Prop := {
  ko_key   : kv_key kv <> [];
  ko_count : kv_is_array kv = true \/ kv_count kv = 1;
  ko_value : (kv_type kv = GGUF_TYPE_STRING /\ kv_data kv = []) \/
             (0 < gguf_type_size (kv_type kv) /\ (gguf_type_size (kv_type kv) | zlen (kv_data kv)) /\ kv_data_string kv = [] /\
              (kv_type kv = GGUF_TYPE_BOOL -> Forall (fun b => b = 0 \/ b = 1) (kv_data kv)))
}.

Lemma type_size_range type : 0 <= gguf_type_size type <= 8 /\ (0 < gguf_type_size type -> 0 <= type < 13 /\ type <> GGUF_TYPE_STRING /\ type <> GGUF_TYPE_ARRAY).
Proof.
  unfold gguf_type_size, GGUF_TYPE_STRING, GGUF_TYPE_ARRAY. destruct (zlookup GGUF_TYPE_SIZE type) as [n|] eqn:E; [|cbn; lia].
  pose proof (zlookup_Some_lt _ _ _ E) as Hr. change (zlen GGUF_TYPE_SIZE) with 13 in Hr. cbn [default].
  assert (Hcase : type = 0 \/ type = 1 \/ type = 2 \/ type = 3 \/ type = 4 \/ type = 5 \/ type = 6 \/ type = 7 \/
    type = 8 \/ type = 9 \/ type = 10 \/ type = 11 \/ type = 12) by lia.
  repeat (destruct Hcase as [->|Hcase]; [vm_compute in E; injection E as <-; cbn; lia|]). subst type. vm_compute in E. injection E as <-. cbn. lia.
Qed.

Lemma kv_type_range kv : kv_ok kv -> 0 <= kv_type kv < 13 /\ kv_type kv <> GGUF_TYPE_ARRAY.
Proof.
  intros [_ _ [[-> _]|(Hs & _)]]; [unfold GGUF_TYPE_STRING, GGUF_TYPE_ARRAY; lia|]. destruct (type_size_range (kv_type kv)) as [_ H]. destruct (H Hs) as (H1 & _ & H2). done.
Qed.

Lemma get_ne_ok kv : kv_ok kv -> get_ne kv = Ok (kv_count kv).
Proof.
  intros [_ Hc Hv]. unfold get_ne, kv_count in *.
  assert (Ha : forall n, kv_is_array kv = true \/ n = 1 -> ggml_assert (kv_is_array kv || (n =? 1)) = Ok tt).
  { intros n [->| ->]; [done|]. by rewrite Z.eqb_refl, orb_true_r. }
  destruct (Z.eqb_spec (kv_type kv) GGUF_TYPE_STRING) as [E|Hne]; [by rewrite Ha|]. destruct Hv as [[? _]|(Hs & Hd & _ & _)]; [done|].
  destruct (Z.eqb_spec (gguf_type_size (kv_type kv)) 0); [lia|]. apply Z.mod_divide in Hd as ->; [|lia]. cbn [Z.eqb ggml_assert mbind res_bind].
  by rewrite Ha.
Qed.

(** A loop that appends something for every element of a list. *)
Lemma for_appends {A} (l : list A) (f : A -> bytes) (body : Z -> bytes -> res bytes) buf :
  (forall i x b, l !! i = Some x -> body (Z.of_nat i) b = Ok (b ++ f x)) -> for_z 0 (zlen l) body buf = Ok (buf ++ concat (f <$> l)).
Proof.
  intros Hb. apply safe_ok_eq.
  pose proof (for_z_post 0 (zlen l) body (fun i b => b = buf ++ concat (f <$> take (Z.to_nat i) l)) (fun _ => False) buf (zlen_nonneg l)) as H.
  cbn beta in H. assert (Z.to_nat (zlen l) = length l) as El by (unfold zlen; lia). rewrite El, firstn_all in H. apply H; [cbn; by rewrite app_nil_r|].
  intros i b Hi ->. unfold zlen in Hi. destruct (lookup_lt_is_Some_2 l (Z.to_nat i)) as [x Hx]; [lia|].
  pose proof (Hb (Z.to_nat i) x (buf ++ concat (f <$> take (Z.to_nat i) l)) Hx) as E. rewrite Z2Nat.id in E by lia. rewrite E. cbn [post].
  replace (Z.to_nat (i + 1)) with (S (Z.to_nat i)) by lia. rewrite (take_S_r _ _ _ Hx), fmap_app, concat_app. cbn. by rewrite app_nil_r, app_assoc.
Qed.

Lemma concat_single (l : bytes) : concat ((fun b => [b]) <$> l) = l.
Proof. induction l as [|b l IH]; [done|]. cbn. by rewrite IH. Qed.

Lemma get_val_bool kv i b : kv_ok kv -> kv_type kv = GGUF_TYPE_BOOL -> kv_data kv !! i = Some b -> get_val kv GGUF_TYPE_BOOL (Z.of_nat i) = Ok [b].
Proof.
  intros _ Et Hb. unfold get_val. rewrite Et, Z.eqb_refl. cbn [ggml_assert mbind res_bind]. change (gguf_type_size GGUF_TYPE_BOOL) with 1.
  cbn [Z.eqb]. rewrite Z.mod_1_r. cbn [Z.eqb ggml_assert mbind res_bind]. pose proof (lookup_lt_Some _ _ _ Hb).
  rewrite (proj2 (Z.leb_le _ _)) by (unfold zlen; lia). cbn [ggml_assert mbind res_bind]. rewrite Z.mul_1_r, Nat2Z.id. f_equal.
  rewrite (drop_S _ _ _ Hb). done.
Qed.

Lemma get_val_text kv i s : kv_type kv = GGUF_TYPE_STRING -> kv_data_string kv !! i = Some s -> get_val_string kv (Z.of_nat i) = Ok s.
Proof.
  intros Et Hs. unfold get_val_string. rewrite Et. cbn [Z.eqb ggml_assert mbind res_bind]. pose proof (lookup_lt_Some _ _ _ Hs).
  rewrite Z.eqb_refl. cbn [ggml_assert mbind res_bind]. rewrite (proj2 (Z.leb_le _ _)) by (unfold zlen; lia). cbn [ggml_assert mbind res_bind].
  by apply vget_nat.
Qed.

Lemma gw_kv_ok buf kv : kv_ok kv -> gw_kv buf kv = Ok (buf ++ kv_bytes kv).
Proof.
  intros Hk. unfold gw_kv. rewrite (get_ne_ok kv Hk). cbn [mbind res_bind]. fold (kv_head kv). set (b0 := (buf ++ gw_string (kv_key kv)) ++ kv_head kv).
  assert (Hend : forall v, v = kv_values_bytes kv -> Ok (b0 ++ v) = Ok (buf ++ kv_bytes kv)).
  { intros v ->. unfold b0, kv_bytes. by rewrite <- !app_assoc. }
  unfold kv_count. destruct (ko_value kv Hk) as [[Et _]|(Hs & [n Hd] & _ & Hbool)].
  - rewrite Et. cbn [Z.eqb]. change (GGUF_TYPE_STRING =? GGUF_TYPE_BOOL) with false. cbn [Z.eqb]. rewrite Z.eqb_refl.
    rewrite (for_appends (kv_data_string kv) gw_string); [apply Hend; unfold kv_values_bytes; by rewrite Et, Z.eqb_refl|].
    intros i s b Hi. unfold gw_text. by rewrite (get_val_text kv i s Et Hi).
  - destruct (type_size_range (kv_type kv)) as [_ Hr]. destruct (Hr Hs) as (_ & Hns & _). apply Z.eqb_neq in Hns. rewrite Hns.
    destruct (Z.eqb_spec (kv_type kv) GGUF_TYPE_BOOL) as [Et|Hnb].
    + rewrite Et. change (gguf_type_size GGUF_TYPE_BOOL) with 1. rewrite Z.div_1_r.
      rewrite (for_appends (kv_data kv) (fun b => [b])); [apply Hend; unfold kv_values_bytes; by rewrite Hns, concat_single|].
      intros i b0' b Hi. unfold gw_bool. rewrite (get_val_bool kv i b0' Hk Et Hi). cbn [mbind res_bind le_value]. f_equal. f_equal. f_equal.
      specialize (Hbool Et). rewrite Forall_lookup in Hbool. by destruct (Hbool i b0' Hi) as [->| ->].
    + destruct (Z.eqb_spec (gguf_type_size (kv_type kv)) 0); [lia|]. apply Hend. unfold kv_values_bytes. by rewrite Hns.
Qed.

(** * Reading back *)

Lemma zlen_gw_string s : zlen (gw_string s) = 8 + zlen s.
Proof. unfold gw_string. by rewrite zlen_app, zlen_le_bytes. Qed.

Lemma zlen_texts l : 8 * zlen l <= zlen (concat (gw_string <$> l)) /\ forall s, s ∈ l -> zlen s <= zlen (concat (gw_string <$> l)).
Proof.
  induction l as [|s l [IH1 IH2]]; [split; [unfold zlen; cbn; lia|by intros s ?%elem_of_nil]|]. rewrite fmap_cons. cbn [concat]. rewrite zlen_cons, zlen_app, zlen_gw_string.
  pose proof (zlen_nonneg s). pose proof (zlen_nonneg (concat (gw_string <$> l))). split; [lia|]. intros u [->|Hu]%elem_of_cons; [lia|]. specialize (IH2 u Hu). lia.
Qed.

Section reading.
Context {MM : Memory} (M : Z) (HM : forall n, 0 <= n <= 4 * M -> mem_fits n = true) (HM64 : M < 2 ^ 62).

Lemma gives_resize n : 0 <= n <= 4 * M -> gives (resize n) [] tt.
Proof using HM. intros Hn. unfold resize. rewrite HM by done. apply gives_ret. Qed.

Lemma gives_string s : zlen s <= M -> gives gr_string (gw_string s) s.
Proof using HM HM64.
  intros Hs. pose proof (zlen_nonneg s). unfold gr_string, gw_string. eapply gives_bind; [apply gives_u64; lia|].
  eapply gives_bind_nil; [apply gives_resize; lia|]. by apply gives_bytes.
Qed.

Lemma gives_strings l : (forall s, s ∈ l -> zlen s <= M) -> gives (gr_strings (length l)) (concat (gw_string <$> l)) l.
Proof using HM HM64.
  induction l as [|s l IH]; intros Hl; [apply gives_ret|]. cbn [length gr_strings]. rewrite fmap_cons. cbn [concat].
  eapply gives_bind; [apply gives_string, Hl; by left|]. eapply gives_last; [apply IH; intros u Hu; apply Hl; by right|]. apply gives_ret.
Qed.

Lemma make_kv_ok kv : kv_key kv <> [] -> make_kv (kv_key kv) (kv_is_array kv) (kv_type kv) (kv_data kv) (kv_data_string kv) = Ok kv.
Proof. intros Hk. unfold make_kv. rewrite bool_decide_eq_false_2 by done. by destruct kv. Qed.

Lemma to_bools_ok kv : kv_ok kv -> to_bools (kv_type kv) (kv_data kv) = kv_data kv.
Proof.
  intros [_ _ Hv]. unfold to_bools. destruct (Z.eqb_spec (kv_type kv) GGUF_TYPE_BOOL) as [E|]; [|done]. destruct Hv as [[E' _]|(_ & _ & _ & Hb)]; [by rewrite E in E'|].
  specialize (Hb E). induction Hb as [|b l [->| ->] _ IH]; [done|by cbn; rewrite IH..].
Qed.

Lemma gives_values kv n : kv_ok kv -> kv_type kv <> GGUF_TYPE_STRING -> zlen (kv_data kv) <= M -> n = (if kv_is_array kv then kv_count kv else 1) ->
  gives (read_values (kv_key kv) (kv_type kv) (kv_is_array kv) n) (kv_data kv) kv.
Proof using HM.
  intros Hk Hns Hm ->. pose proof Hk as [Hkey Hc Hv]. destruct Hv as [[? _]|(Hs & Hd & Hstr & _)]; [done|].
  assert (Hmake : forall a, a = kv_is_array kv -> make_kv (kv_key kv) a (kv_type kv) (kv_data kv) [] = Ok kv).
  { intros a ->. rewrite <- Hstr. by apply make_kv_ok. }
  assert (Hlen : zlen (kv_data kv) = kv_count kv * gguf_type_size (kv_type kv)).
  { unfold kv_count. apply Z.eqb_neq in Hns. rewrite Hns. destruct Hd as [q ->]. by rewrite Z.div_mul by lia. }
  pose proof (zlen_nonneg (kv_data kv)) as Hn0. assert (0 <= kv_count kv) by nia.
  unfold read_values. destruct (kv_is_array kv) eqn:Ea.
  - eapply gives_last; [apply gives_catch; eapply gives_bind_nil; [apply gives_resize|by apply gives_bytes]|].
    + destruct (Z.eqb_spec (kv_type kv) GGUF_TYPE_BOOL) as [Et|]; [|lia]. rewrite Et in Hlen. change (gguf_type_size GGUF_TYPE_BOOL) with 1 in Hlen.
      split; [apply Z.div_pos; lia|]. apply Z.lt_succ_r, Z.div_lt_upper_bound; lia.
    + rewrite (to_bools_ok kv Hk). apply gives_lift. by apply Hmake.
  - destruct Hc as [?|Hc]; [done|]. rewrite Hc, Z.mul_1_l in Hlen.
    eapply gives_last; [by apply gives_bytes|]. rewrite (to_bools_ok kv Hk). apply gives_lift. by apply Hmake.
Qed.

Lemma gives_texts kv : kv_ok kv -> kv_type kv = GGUF_TYPE_STRING -> zlen (kv_values_bytes kv) <= M ->
  gives (read_texts (kv_key kv) (kv_is_array kv) (if kv_is_array kv then kv_count kv else 1)) (kv_values_bytes kv) kv.
Proof using HM HM64.
  intros Hk Et Hm. pose proof Hk as [Hkey Hc Hv]. destruct Hv as [[_ Hd]|(Hs & _)]; [|rewrite Et in Hs; vm_compute in Hs; done].
  unfold kv_values_bytes, kv_count in *. rewrite Et, Z.eqb_refl in *. destruct (zlen_texts (kv_data_string kv)) as [H8 Hs]. pose proof (zlen_nonneg (kv_data_string kv)).
  assert (Hmake : forall a, a = kv_is_array kv -> make_kv (kv_key kv) a GGUF_TYPE_STRING [] (kv_data_string kv) = Ok kv).
  { intros a ->. rewrite <- Hd, <- Et. by apply make_kv_ok. }
  unfold read_texts. destruct (kv_is_array kv) eqn:Ea.
  - eapply gives_last; [apply gives_catch; eapply gives_bind_nil; [apply gives_resize; lia|]|].
    + unfold zlen at 1. rewrite Nat2Z.id. apply gives_strings. intros s Hin. specialize (Hs s Hin). lia.
    + apply gives_lift. by apply Hmake.
  - destruct Hc as [?|Hc]; [done|]. destruct (kv_data_string kv) as [|s [|s2 l]] eqn:El; [done| |unfold zlen in Hc; cbn in Hc; lia].
    cbn [fmap list_fmap concat]. rewrite app_nil_r. eapply gives_last; [apply gives_string; specialize (Hs s ltac:(by left)); lia|].
    apply gives_lift. by apply Hmake.
Qed.

Lemma zlen_kv_bytes kv : zlen (kv_key kv) <= zlen (kv_bytes kv) /\ zlen (kv_values_bytes kv) <= zlen (kv_bytes kv).
Proof.
  unfold kv_bytes. rewrite !zlen_app, zlen_gw_string. pose proof (zlen_nonneg (kv_key kv)). pose proof (zlen_nonneg (kv_head kv)). pose proof (zlen_nonneg (kv_values_bytes kv)). lia.
Qed.

Lemma kv_count_range kv : kv_ok kv -> 0 <= kv_count kv <= zlen (kv_values_bytes kv).
Proof.
  intros [_ _ Hv]. unfold kv_count, kv_values_bytes. destruct Hv as [[E _]|(Hs & Hd & _ & _)].
  - rewrite E, Z.eqb_refl. destruct (zlen_texts (kv_data_string kv)) as [H8 _]. pose proof (zlen_nonneg (kv_data_string kv)). lia.
  - destruct (type_size_range (kv_type kv)) as [_ Hr]. destruct (Hr Hs) as (_ & Hns & _). apply Z.eqb_neq in Hns. rewrite Hns.
    pose proof (zlen_nonneg (kv_data kv)). split; [by apply Z.div_pos|]. apply Z.div_le_upper_bound; nia.
Qed.

Lemma gives_kv kvs kv : kv_ok kv -> kv_key kv ∉ (kv_key <$> kvs) -> zlen (kv_bytes kv) <= M -> gives (read_kv kvs) (kv_bytes kv) kv.
Proof using HM HM64.
  intros Hk Hnew Hm. destruct (zlen_kv_bytes kv) as [Hkey Hval]. pose proof (kv_count_range kv Hk) as Hcount. destruct (kv_type_range kv Hk) as [Hty Hna].
  unfold read_kv, kv_bytes. eapply gives_bind; [apply gives_catch, gives_string; lia|].
  eapply gives_bind_nil; [apply gives_guard|].
  { apply negb_true_iff, not_true_is_false. intros (k & Hin & E%bool_decide_eq_true)%existsb_exists. apply Hnew. rewrite E. apply list_elem_of_fmap.
    exists k. split; [done|by apply list_elem_of_In]. }
  assert (Hread : gives (gguf_read_emplace_helper (kv_key kv) (kv_type kv) (kv_is_array kv) (if kv_is_array kv then kv_count kv else 1)) (kv_values_bytes kv) kv).
  { unfold gguf_read_emplace_helper. destruct (Z.eqb_spec (kv_type kv) GGUF_TYPE_STRING) as [Et|Hns]; [apply gives_texts; [done|done|lia]|].
    assert (Ev : kv_values_bytes kv = kv_data kv) by (unfold kv_values_bytes; apply Z.eqb_neq in Hns; by rewrite Hns). rewrite Ev in *. apply gives_values; [done|done|lia|done]. }
  assert (Hknown : bool_decide (is_Some (zlookup GGUF_TYPE_SIZE (kv_type kv))) && negb (kv_type kv =? GGUF_TYPE_ARRAY) = true).
  { rewrite bool_decide_eq_true_2 by (apply zlookup_lt; done). by apply Z.eqb_neq in Hna as ->. }
  unfold kv_head. destruct (kv_is_array kv) eqn:Ea.
  - rewrite <- !app_assoc. eapply gives_bind; [apply gives_i32; unfold GGUF_TYPE_ARRAY; lia|]. rewrite Z.eqb_refl. rewrite app_assoc.
    eapply gives_bind; [eapply gives_bind; [apply gives_i32; lia|]; eapply gives_last; [apply gives_u64; lia|]; apply gives_ret|].
    cbv beta iota. rewrite Hknown. exact Hread.
  - eapply gives_bind; [apply gives_i32; lia|]. pose proof Hna as Hna'. apply Z.eqb_neq in Hna'. rewrite Hna'.
    eapply gives_bind_nil; [apply gives_ret|]. cbv beta iota. rewrite Hknown. exact Hread.
Qed.

Lemma gives_kvs kvs : forall acc, Forall kv_ok kvs -> NoDup (kv_key <$> acc ++ kvs) -> zlen (concat (kv_bytes <$> kvs)) <= M ->
  gives (read_kvs (length kvs) acc) (concat (kv_bytes <$> kvs)) (acc ++ kvs).
Proof using HM HM64.
  induction kvs as [|kv kvs IH]; intros acc Hok Hnd Hm; [rewrite app_nil_r; apply gives_ret|]. apply Forall_cons in Hok as [Hk Hok].
  cbn [length read_kvs]. rewrite fmap_cons in *. cbn [concat] in *. rewrite zlen_app in Hm. pose proof (zlen_nonneg (kv_bytes kv)). pose proof (zlen_nonneg (concat (kv_bytes <$> kvs))).
  eapply gives_bind; [apply gives_kv; [done| |lia]|].
  - rewrite fmap_app in Hnd. cbn in Hnd. apply NoDup_app in Hnd as (_ & Hd & _). intros Hin. apply (Hd _ Hin). by left.
  - replace (acc ++ kv :: kvs) with ((acc ++ [kv]) ++ kvs) in * by by rewrite <- app_assoc. apply IH; [done|done|lia].
Qed.

(** ** Tensors *)

(** The bytes of the description of a tensor. *)
Definition shape_bytes (t : ggml_tensor) : bytes :=
  le_bytes 4 (ggml_n_dims t) ++ concat ((fun j => le_bytes 8 (ne_at t j)) <$> zseq 0 (Z.to_nat (ggml_n_dims t))).

Definition ti_bytes (ti : gguf_tensor_info) : bytes :=
  gw_string (c_str (ti_name ti)) ++ shape_bytes (ti_t ti) ++ le_bytes 4 (t_type (ti_t ti)) ++ le_bytes 8 (ti_offset ti).

(** A tensor without gaps, of which no dimension is empty. *)
Record info_ok (ti : gguf_tensor_info) : Prop := {
  io_name : zlen (ti_name ti) < GGML_MAX_NAME /\ Forall (fun c => c <> 0) (ti_name ti);
  io_ne   : exists a b c d, t_ne (ti_t ti) = [a; b; c; d] /\ 1 <= a /\ 1 <= b /\ 1 <= c /\ 1 <= d /\ unrepresentable a b c d = Ok false;
  io_type : 0 <= t_type (ti_t ti) < GGML_TYPE_COUNT /\ 0 < ggml_blck_size (t_type (ti_t ti)) /\
              (ggml_blck_size (t_type (ti_t ti)) | ne_at (ti_t ti) 0);
  io_nb   : t_nb (ti_t ti) = dense_nb (ggml_type_size (t_type (ti_t ti))) (ggml_blck_size (t_type (ti_t ti))) (t_ne (ti_t ti))
}.

(** What is known of a tensor that was read. *)
Definition plain_info (ti : gguf_tensor_info) : gguf_tensor_info :=
  {| ti_t := described (ti_name ti) (t_type (ti_t ti)) (t_ne (ti_t ti)) (t_nb (ti_t ti)); ti_offset := ti_offset ti |}.

Lemma c_str_id s : Forall (fun c => c <> 0) s -> c_str s = s.
Proof. induction 1 as [|c s Hc _ IH]; [done|]. cbn. destruct (Z.eqb_spec c 0); [done|]. by rewrite IH. Qed.

Lemma gw_tensor_meta_ok infos buf : fold_left gw_tensor_meta infos buf = buf ++ concat (ti_bytes <$> infos).
Proof.
  revert buf. induction infos as [|ti infos IH]; intros buf; [cbn; by rewrite app_nil_r|]. cbn [fold_left]. rewrite IH, fmap_cons. cbn [concat].
  unfold gw_tensor_meta, ti_bytes, shape_bytes, ti_name. by rewrite <- !app_assoc.
Qed.

Lemma too_many_ok ne n : too_many ne n = Ok false -> 1 <= ne -> 1 <= n -> n * ne <= INT64_MAX /\ ne <= INT64_MAX.
Proof.
  unfold too_many. destruct (Z.eqb_spec ne 0); [done|]. intros [= H%Z.leb_gt] Hne Hn. pose proof (Z.mul_div_le INT64_MAX ne ltac:(lia)). nia.
Qed.

(** The number of elements is representable. *)
Lemma unrepresentable_ok a b c d : unrepresentable a b c d = Ok false -> 1 <= a -> 1 <= b -> 1 <= c -> 1 <= d -> a * b * c * d <= INT64_MAX.
Proof.
  intros H Ha Hb Hc Hd. unfold unrepresentable in H. destruct (too_many b a) as [[|]|] eqn:E1; cbn [mbind res_bind] in H; [done| |done].
  destruct (too_many c (a * b)) as [[|]|] eqn:E2; cbn [mbind res_bind] in H; [done| |done].
  assert (1 <= a * b) by nia. assert (1 <= a * b * c) by nia. by apply (too_many_ok d (a * b * c)).
Qed.

Lemma ne_bounds a b c d : a * b * c * d <= INT64_MAX -> 1 <= a -> 1 <= b -> 1 <= c -> 1 <= d ->
  a <= INT64_MAX /\ b <= INT64_MAX /\ c <= INT64_MAX /\ d <= INT64_MAX.
Proof.
  intros H Ha Hb Hc Hd. assert (1 <= a * b) by nia. assert (1 <= a * b * c) by nia.
  assert (a * b * c <= INT64_MAX) by nia. assert (a * b <= INT64_MAX) by nia. nia.
Qed.

Lemma gives_dim nd j x : 1 <= x <= INT64_MAX -> (nd <= j -> x = 1) -> gives (read_dim nd j) (if j <? nd then le_bytes 8 x else []) x.
Proof.
  intros Hx H1. unfold INT64_MAX in Hx. unfold read_dim. assert (Hg : gives (_ ← guard (0 <=? x); mret x) [] x).
  { eapply gives_bind_nil; [apply gives_guard, Z.leb_le; lia|apply gives_ret]. }
  destruct (Z.ltb_spec j nd).
  - eapply gives_last; [apply gives_i64; lia|exact Hg].
  - rewrite H1 in * by done. eapply gives_bind_nil; [apply gives_ret|exact Hg].
Qed.

Lemma n_dims_range t : 1 <= ggml_n_dims t <= 4.
Proof. unfold ggml_n_dims. repeat case_match; lia. Qed.

Lemma gives_shape t a b c d : t_ne t = [a; b; c; d] -> 1 <= a -> 1 <= b -> 1 <= c -> 1 <= d -> unrepresentable a b c d = Ok false ->
  gives read_shape (shape_bytes t) [a; b; c; d].
Proof.
  intros Et Ha Hb Hc Hd Hu. destruct (ne_bounds a b c d) as (Ma & Mb & Mc & Md); [by apply unrepresentable_ok|done..|].
  pose proof (n_dims_range t) as Hr. unfold read_shape, shape_bytes. eapply gives_bind; [apply gives_u32; lia|].
  eapply gives_bind_nil; [apply gives_guard, Z.leb_le; unfold GGML_MAX_DIMS; lia|].
  assert (Hdims : (ggml_n_dims t <= 1 -> b = 1) /\ (ggml_n_dims t <= 2 -> c = 1) /\ (ggml_n_dims t <= 3 -> d = 1)).
  { unfold ggml_n_dims, ne_at. rewrite Et. cbn [zlookup]. change (default 0 (zlookup [a; b; c; d] 3)) with d. change (default 0 (zlookup [a; b; c; d] 2)) with c.
    change (default 0 (zlookup [a; b; c; d] 1)) with b. destruct (Z.ltb_spec 1 d), (Z.ltb_spec 1 c), (Z.ltb_spec 1 b); lia. }
  destruct Hdims as (H1 & H2 & H3).
  assert (Eb : concat ((fun j => le_bytes 8 (ne_at t j)) <$> zseq 0 (Z.to_nat (ggml_n_dims t))) =
    (if 0 <? ggml_n_dims t then le_bytes 8 a else []) ++ (if 1 <? ggml_n_dims t then le_bytes 8 b else []) ++
    (if 2 <? ggml_n_dims t then le_bytes 8 c else []) ++ (if 3 <? ggml_n_dims t then le_bytes 8 d else []) ++ []).
  { unfold ne_at. rewrite Et. assert (Hn : ggml_n_dims t = 1 \/ ggml_n_dims t = 2 \/ ggml_n_dims t = 3 \/ ggml_n_dims t = 4) by lia.
    destruct Hn as [->|[->|[->| ->]]]; reflexivity. }
  rewrite Eb. eapply gives_bind; [apply gives_dim; lia|]. eapply gives_bind; [apply gives_dim; lia|]. eapply gives_bind; [apply gives_dim; lia|].
  eapply gives_bind; [apply gives_dim; lia|]. eapply gives_bind_nil; [by apply gives_lift|]. eapply gives_bind_nil; [by apply gives_guard|]. apply gives_ret.
Qed.

Lemma gives_info infos ti : info_ok ti -> 0 <= ti_offset ti < 2 ^ 64 -> ti_name ti ∉ (ti_name <$> infos) -> zlen (ti_bytes ti) <= M ->
  gives (read_info infos) (ti_bytes ti) (plain_info ti).
Proof using HM HM64.
  intros [[Hlen Hnul] (a & b & c & d & Ene & Ha & Hb & Hc & Hd & Hu) (Hty & Hblck & Hdiv) Hnb] Hoff Hnew Hm.
  assert (Hname : zlen (ti_name ti) <= M).
  { unfold ti_bytes in Hm. rewrite (c_str_id _ Hnul), zlen_app, zlen_gw_string in Hm. pose proof (zlen_nonneg (shape_bytes (ti_t ti) ++ le_bytes 4 (t_type (ti_t ti)) ++ le_bytes 8 (ti_offset ti))). lia. }
  unfold read_info, ti_bytes. rewrite (c_str_id _ Hnul). eapply gives_bind.
  { unfold read_name. eapply gives_last; [by apply gives_catch, gives_string|]. eapply gives_bind_nil; [by apply gives_guard, Z.ltb_lt|].
    cbv zeta. rewrite (c_str_id _ Hnul). eapply gives_bind_nil; [apply gives_guard|apply gives_ret].
    apply negb_true_iff, not_true_is_false. intros (k & Hin & E%bool_decide_eq_true)%existsb_exists. apply Hnew. rewrite E. apply list_elem_of_fmap.
    exists k. split; [done|by apply list_elem_of_In]. }
  eapply gives_bind; [by apply gives_shape|]. eapply gives_bind.
  { unfold read_type. unfold GGML_TYPE_COUNT in Hty. eapply gives_last; [apply gives_i32; lia|].
    eapply gives_bind_nil; [apply gives_guard, andb_true_iff; split; [apply Z.leb_le; lia|apply Z.ltb_lt; unfold GGML_TYPE_COUNT; lia]|]. cbv zeta.
    eapply gives_bind_nil; [apply gives_guard|apply gives_ret]. destruct (Z.eqb_spec (ggml_blck_size (t_type (ti_t ti))) 0); [lia|].
    unfold ne_at in Hdiv. rewrite Ene in Hdiv. change (default 0 (zlookup [a; b; c; d] 0)) with a in *. apply Z.rem_divide in Hdiv as ->; [done|lia]. }
  cbv beta iota. eapply gives_last; [by apply gives_u64|]. unfold plain_info. rewrite Hnb, Ene. apply gives_ret.
Qed.

Lemma gives_infos infos : forall acc, Forall info_ok infos -> Forall (fun ti => 0 <= ti_offset ti < 2 ^ 64) infos ->
  NoDup (ti_name <$> acc ++ infos) -> zlen (concat (ti_bytes <$> infos)) <= M ->
  gives (read_infos (length infos) acc) (concat (ti_bytes <$> infos)) (acc ++ (plain_info <$> infos)).
Proof using HM HM64.
  induction infos as [|ti infos IH]; intros acc Hok Hoff Hnd Hm; [rewrite app_nil_r; apply gives_ret|].
  apply Forall_cons in Hok as [Hk Hok]. apply Forall_cons in Hoff as [Ho Hoff].
  cbn [length read_infos]. rewrite !fmap_cons in *. cbn [concat] in *. rewrite zlen_app in Hm.
  pose proof (zlen_nonneg (ti_bytes ti)). pose proof (zlen_nonneg (concat (ti_bytes <$> infos))).
  eapply gives_bind; [apply gives_info; [done|done| |lia]|].
  - rewrite fmap_app in Hnd. cbn in Hnd. apply NoDup_app in Hnd as (_ & Hd & _). intros Hin. apply (Hd _ Hin). by left.
  - replace (acc ++ plain_info ti :: (plain_info <$> infos)) with ((acc ++ [plain_info ti]) ++ (plain_info <$> infos)) by by rewrite <- app_assoc.
    apply IH; [done|done| |lia]. rewrite !fmap_app in *. cbn in *. by rewrite <- app_assoc.
Qed.
End reading.

(** * Padding *)

Lemma zlen_replicate {A} n (x : A) : 0 <= n -> zlen (replicate (Z.to_nat n) x) = n.
Proof. intros. unfold zlen. rewrite length_replicate. lia. Qed.

Lemma pad_loop_ok fuel al buf : 0 < al -> (- zlen buf) mod al <= Z.of_nat fuel ->
  pad_loop fuel al buf = Ok (buf ++ replicate (Z.to_nat ((- zlen buf) mod al)) 0).
Proof.
  intros Hal. revert buf. induction fuel as [|fuel IH]; intros buf Hf; destruct (neg_mod_spec (zlen buf) al Hal) as [Hr Hd]; cbn [pad_loop].
  - assert (Em : (- zlen buf) mod al = 0) by lia. rewrite Em in *. rewrite Z.add_0_r in Hd. apply Z.mod_divide in Hd as ->; [|lia]. cbn. by rewrite app_nil_r.
  - destruct (Z.eqb_spec (zlen buf mod al) 0) as [E|Hne].
    + apply Z.mod_divide in E; [|lia]. rewrite (neg_mod_unique (zlen buf) 0 al) by (rewrite ?Z.add_0_r; done || lia). cbn. by rewrite app_nil_r.
    + assert (Hpos : (- zlen buf) mod al <> 0) by (intros E; rewrite E, Z.add_0_r in Hd; apply Hne, Z.mod_divide; [lia|done]).
      assert (Hnext : (- zlen (buf ++ [0])) mod al = (- zlen buf) mod al - 1).
      { apply neg_mod_unique; [lia|]. rewrite zlen_app. change (zlen [0]) with 1. by replace (zlen buf + 1 + ((- zlen buf) mod al - 1)) with (zlen buf + (- zlen buf) mod al) by lia. }
      rewrite IH by lia. rewrite Hnext, <- app_assoc. f_equal. f_equal.
      replace (Z.to_nat ((- zlen buf) mod al)) with (S (Z.to_nat ((- zlen buf) mod al - 1))) by lia. done.
Qed.

Lemma pad_buf_ok al buf : 0 < al -> pad_buf al buf = Ok (buf ++ replicate (Z.to_nat ((- zlen buf) mod al)) 0).
Proof.
  intros Hal. unfold pad_buf. destruct (Z.eqb_spec al 0); [lia|]. apply pad_loop_ok; [done|]. pose proof (Z.mod_pos_bound (- zlen buf) al Hal). lia.
Qed.

Lemma power_of_2_ok x : power_of_2 x = true -> 0 <= x -> x = 2 ^ Z.log2 x /\ 0 < x.
Proof.
  unfold power_of_2. rewrite andb_true_iff, negb_true_iff, Z.eqb_neq, Z.eqb_eq. intros [Hne Hl] Hx. split; [apply single_bit; lia|lia].
Qed.

(** * The data of the tensors *)

Lemma u64_idem x : u64 (u64 x) = u64 x.
Proof. apply u64_small, u64_range. Qed.

Lemma contiguous_dim_ok t nb i : nb_at t i = nb -> u64 nb = nb -> contiguous_dim t (Some nb) i = Some (u64 (nb * ne_at t i)).
Proof.
  intros E Hnb. unfold contiguous_dim. cbn [mbind option_bind]. rewrite E, Z.eqb_refl. destruct (Z.eqb_spec (ne_at t i) 1) as [->|]; [|done]. by rewrite Z.mul_1_r, Hnb.
Qed.

Lemma dense_contiguous t : t_nb t = dense_nb (ggml_type_size (t_type t)) (ggml_blck_size (t_type t)) (t_ne t) -> ggml_is_contiguous t = true.
Proof.
  intros Enb. unfold ggml_is_contiguous. assert (E0 : nb_at t 0 = ggml_type_size (t_type t)) by (unfold nb_at; by rewrite Enb).
  rewrite E0, Z.eqb_refl, andb_false_r. apply bool_decide_eq_true_2. cbn [fold_left].
  rewrite contiguous_dim_ok; [|unfold nb_at; by rewrite Enb|apply u64_idem]. rewrite contiguous_dim_ok; [|unfold nb_at; by rewrite Enb|apply u64_idem].
  rewrite contiguous_dim_ok; [by eexists|unfold nb_at; by rewrite Enb|apply u64_idem].
Qed.

(** The tensors follow each other from the offset [o] on, and the data section is not
    larger than the address space. *)
Fixpoint offsets_from (al o : Z) (infos : list gguf_tensor_info) : Prop :=
  match infos with
  | [] => o <= 2 ^ 62
  | ti :: infos => ti_offset ti = o /\ ggml_nbytes (ti_t ti) <= 2 ^ 62 /\ offsets_from al (o + GGML_PAD (ggml_nbytes (ti_t ti)) al) infos
  end.

Definition data_end (al : Z) (infos : list gguf_tensor_info) : Z := zsum ((fun ti => GGML_PAD (ggml_nbytes (ti_t ti)) al) <$> infos).

Section data.
Context (k : Z) (Hk : 0 <= k <= 62) (contents : ggml_tensor -> bytes).
Local Abbreviation al := (2 ^ k).

Lemma al_pos : 0 < al.
Proof using Hk. apply Z.pow_pos_nonneg; lia. Qed.

Lemma add_dim_range t nb i : 0 <= add_dim t nb i <= SIZE_MAX.
Proof. apply u64_range. Qed.

Lemma nbytes_nonneg t : 0 <= ggml_nbytes t.
Proof. unfold ggml_nbytes. destruct (_ =? 1); apply u64_range. Qed.

Lemma pad_nbytes t : ggml_nbytes t <= 2 ^ 62 -> GGML_PAD (ggml_nbytes t) al = ggml_nbytes t + (- ggml_nbytes t) mod al /\ 0 <= (- ggml_nbytes t) mod al /\ (al | GGML_PAD (ggml_nbytes t) al).
Proof using Hk.
  intros Ht. pose proof (nbytes_nonneg t). rewrite GGML_PAD_mod by lia. destruct (neg_mod_spec (ggml_nbytes t) al al_pos) as [H1 H2]. split; [done|]. split; [lia|done].
Qed.

Lemma offsets_bound infos o : offsets_from al o infos -> 0 <= data_end al infos /\ o + data_end al infos <= 2 ^ 62.
Proof using Hk.
  revert o. induction infos as [|ti infos IH]; intros o Hoff; [unfold data_end; cbn in *; lia|]. destruct Hoff as (_ & Hn & Hoff). destruct (IH _ Hoff) as [H1 H2].
  destruct (pad_nbytes (ti_t ti) Hn) as (E & Hp & _). pose proof (nbytes_nonneg (ti_t ti)). unfold data_end in *. rewrite fmap_cons, zsum_cons. lia.
Qed.

Lemma offsets_range infos o : 0 <= o -> offsets_from al o infos -> Forall (fun ti => 0 <= ti_offset ti < 2 ^ 64) infos.
Proof using Hk.
  revert o. induction infos as [|ti infos IH]; intros o Ho Hoff; constructor.
  - pose proof (offsets_bound _ _ Hoff). destruct Hoff as (-> & _). lia.
  - destruct Hoff as (_ & Hn & Hoff). destruct (pad_nbytes (ti_t ti) Hn) as (E & Hp & _). pose proof (nbytes_nonneg (ti_t ti)). eapply IH; [|exact Hoff]. lia.
Qed.

(** The size of the data section, for the tensors as they are read. *)
Lemma gives_data_size infos : forall o, 0 <= o -> offsets_from al o infos -> gives (data_size al o (plain_info <$> infos)) [] (o + data_end al infos).
Proof using Hk.
  induction infos as [|ti infos IH]; intros o Ho Hoff; [unfold data_end; cbn; rewrite Z.add_0_r; apply gives_ret|].
  pose proof (offsets_bound _ _ Hoff) as Hb. destruct Hoff as (Eo & Hn & Hoff). rewrite fmap_cons. cbn [data_size].
  destruct (pad_nbytes (ti_t ti) Hn) as (E & Hp & _). pose proof (nbytes_nonneg (ti_t ti)). pose proof (offsets_bound _ _ Hoff) as Hb'.
  eapply gives_bind_nil.
  { unfold add_size. eapply gives_bind_nil; [apply gives_guard, Z.eqb_eq; exact Eo|]. apply gives_ret. }
  change (ggml_nbytes (ti_t (plain_info ti))) with (ggml_nbytes (ti_t ti)). rewrite u64_small by (unfold SIZE_MAX; lia).
  unfold data_end. rewrite fmap_cons, zsum_cons, Z.add_assoc. apply IH; [lia|done].
Qed.

(** The bytes of the data section. *)
Definition tensor_data (ti : gguf_tensor_info) : bytes :=
  contents (ti_t ti) ++ replicate (Z.to_nat ((- ggml_nbytes (ti_t ti)) mod al)) 0.

(** A tensor that can be written. *)
Definition has_data (ti : gguf_tensor_info) : Prop :=
  (is_Some (t_buffer (ti_t ti)) \/ is_Some (t_data (ti_t ti))) /\ zlen (contents (ti_t ti)) = ggml_nbytes (ti_t ti).

Lemma write_data_ok infos : forall buf od, (al | od) -> offsets_from al (zlen buf - od) infos -> 0 <= zlen buf - od -> (al | zlen buf) ->
  Forall info_ok infos -> Forall has_data infos ->
  foldM (gw_tensor_data contents od al) buf infos = Ok (buf ++ concat (tensor_data <$> infos)).
Proof using Hk.
  induction infos as [|ti infos IH]; intros buf od Hod Hoff Hge Hal Hok Hdata; [cbn; by rewrite app_nil_r|].
  pose proof (offsets_bound _ _ Hoff) as Hb. destruct Hoff as (Eo & Hn & Hoff). apply Forall_cons in Hok as [Hi Hok]. apply Forall_cons in Hdata as [[Hd Hlen] Hdata].
  destruct (pad_nbytes (ti_t ti) Hn) as (E & Hp & Hpd). pose proof (nbytes_nonneg (ti_t ti)).
  assert (Hzeros : (- zlen (buf ++ contents (ti_t ti))) mod al = (- ggml_nbytes (ti_t ti)) mod al).
  { destruct (neg_mod_spec (ggml_nbytes (ti_t ti)) al al_pos) as [H1 H2]. apply neg_mod_unique; [done|]. rewrite zlen_app, Hlen, <- Z.add_assoc. by apply Z.divide_add_r. }
  assert (Hstep : gw_tensor_data contents od al buf ti = Ok (buf ++ tensor_data ti)).
  { unfold gw_tensor_data. rewrite u64_small by (unfold SIZE_MAX; lia). rewrite Eo, Z.eqb_refl, (dense_contiguous _ (io_nb _ Hi)).
    replace (bool_decide (is_Some (t_buffer (ti_t ti))) || bool_decide (is_Some (t_data (ti_t ti)))) with true.
    - cbn [ggml_assert mbind res_bind]. rewrite (pad_buf_ok _ _ al_pos), Hzeros, <- app_assoc. done.
    - symmetry. apply orb_true_iff. rewrite !bool_decide_eq_true. done. }
  cbn [foldM]. rewrite Hstep. cbn [mbind res_bind]. rewrite fmap_cons. cbn [concat].
  assert (El : zlen (buf ++ tensor_data ti) = zlen buf + GGML_PAD (ggml_nbytes (ti_t ti)) al).
  { unfold tensor_data. rewrite !zlen_app, Hlen, zlen_replicate by done. lia. }
  rewrite IH; [by rewrite <- app_assoc|done| |rewrite El; lia| |done|done].
  - rewrite El. by replace (zlen buf + GGML_PAD (ggml_nbytes (ti_t ti)) al - od) with (zlen buf - od + GGML_PAD (ggml_nbytes (ti_t ti)) al) by lia.
  - rewrite El. by apply Z.divide_add_r.
Qed.

Lemma zlen_data infos : forall o, offsets_from al o infos -> Forall has_data infos -> zlen (concat (tensor_data <$> infos)) = data_end al infos.
Proof using Hk.
  induction infos as [|ti infos IH]; intros o Hoff Hdata; [done|]. destruct Hoff as (_ & Hn & Hoff). apply Forall_cons in Hdata as [[_ Hlen] Hdata].
  destruct (pad_nbytes (ti_t ti) Hn) as (E & Hp & _). unfold data_end in *. rewrite !fmap_cons, zsum_cons. cbn [concat]. rewrite zlen_app, (IH _ Hoff Hdata).
  unfold tensor_data. rewrite zlen_app, Hlen, zlen_replicate by done. lia.
Qed.

(** The bytes of a tensor are at its offset. *)
Lemma data_at infos : forall o ti, offsets_from al o infos -> Forall has_data infos -> ti ∈ infos ->
  take (Z.to_nat (ggml_nbytes (ti_t ti))) (drop (Z.to_nat (ti_offset ti - o)) (concat (tensor_data <$> infos))) = contents (ti_t ti).
Proof using Hk.
  induction infos as [|u infos IH]; intros o ti Hoff Hdata Hin; [by apply elem_of_nil in Hin|]. pose proof Hoff as Hoff0. destruct Hoff as (Eo & Hn & Hoff).
  pose proof Hdata as Hdata0. apply Forall_cons in Hdata as [[_ Hlen] Hdata]. destruct (pad_nbytes (ti_t u) Hn) as (E & Hp & _). pose proof (nbytes_nonneg (ti_t u)).
  assert (El : zlen (tensor_data u) = GGML_PAD (ggml_nbytes (ti_t u)) al) by (unfold tensor_data; rewrite zlen_app, Hlen, zlen_replicate by done; lia).
  rewrite fmap_cons. cbn [concat]. apply elem_of_cons in Hin as [->|Hin].
  - rewrite Eo, Z.sub_diag. change (Z.to_nat 0) with 0%nat. rewrite drop_0. unfold tensor_data. rewrite <- app_assoc, take_app_le, <- Hlen by (unfold zlen in Hlen; lia).
    unfold zlen. rewrite Nat2Z.id. apply firstn_all.
  - assert (Hge : o + GGML_PAD (ggml_nbytes (ti_t u)) al <= ti_offset ti).
    { clear - Hin Hoff Hk. revert Hoff. generalize (o + GGML_PAD (ggml_nbytes (ti_t u)) al). induction infos as [|w infos IH]; intros p Hoff; [by apply elem_of_nil in Hin|].
      destruct Hoff as (Ew & Hnw & Hoff). apply elem_of_cons in Hin as [->|Hin]; [lia|]. specialize (IH Hin _ Hoff). destruct (pad_nbytes (ti_t w) Hnw) as (E & Hp & _).
      pose proof (nbytes_nonneg (ti_t w)). lia. }
    rewrite drop_app_ge by (unfold zlen in El; lia). rewrite <- (IH (o + GGML_PAD (ggml_nbytes (ti_t u)) al) ti Hoff Hdata Hin).
    f_equal. f_equal. unfold zlen in El. lia.
Qed.
End data.

(** * The whole file *)

(** The alignment that a reader finds in the pairs. *)
Definition stored_alignment (kvs : list gguf_kv) : res Z :=
  let ctx := with_kv gguf_init_empty kvs in
  let i := gguf_find_key ctx GGUF_KEY_GENERAL_ALIGNMENT in
  if i =? -1 then Ok GGUF_DEFAULT_ALIGNMENT else gguf_get_val_u32 ctx i.

(** A context that can be written and read back. *)
Record gguf_ok (ctx : gguf_context) : Prop := {
  go_version : 0 <= gc_version ctx <= GGUF_VERSION /\ gc_version ctx <> 1;
  go_kvs     : Forall kv_ok (gc_kv ctx);
  go_keys    : NoDup (kv_key <$> gc_kv ctx);
  go_infos   : Forall info_ok (gc_info ctx);
  go_names   : NoDup (ti_name <$> gc_info ctx);
  go_align   : stored_alignment (gc_kv ctx) = Ok (gc_alignment ctx) /\ power_of_2 (gc_alignment ctx) = true /\ 0 <= gc_alignment ctx < 2 ^ 32;
  go_offsets : offsets_from (gc_alignment ctx) 0 (gc_info ctx)
}.

Definition header_bytes (ctx : gguf_context) : bytes :=
  GGUF_MAGIC ++ le_bytes 4 (gc_version ctx) ++ le_bytes 8 (zlen (gc_info ctx)) ++ le_bytes 8 (zlen (gc_kv ctx)).

Definition meta_bytes (ctx : gguf_context) : bytes :=
  header_bytes ctx ++ concat (kv_bytes <$> gc_kv ctx) ++ concat (ti_bytes <$> gc_info ctx).

Definition padding (al n : Z) : bytes := replicate (Z.to_nat ((- n) mod al)) 0.

(** The file of a context. *)
Definition file_bytes (k : Z) (contents : ggml_tensor -> bytes) (ctx : gguf_context) : bytes :=
  (meta_bytes ctx ++ padding (2 ^ k) (zlen (meta_bytes ctx))) ++ concat (tensor_data k contents <$> gc_info ctx).

Lemma foldM_gw_kv kvs : forall buf, Forall kv_ok kvs -> foldM gw_kv buf kvs = Ok (buf ++ concat (kv_bytes <$> kvs)).
Proof.
  induction kvs as [|kv kvs IH]; intros buf Hok; [cbn; by rewrite app_nil_r|]. apply Forall_cons in Hok as [Hk Hok]. cbn [foldM].
  rewrite (gw_kv_ok buf kv Hk). cbn [mbind res_bind]. rewrite (IH _ Hok), fmap_cons. cbn [concat]. by rewrite <- app_assoc.
Qed.

Lemma write_ok k contents ctx : 0 <= k <= 62 -> gc_alignment ctx = 2 ^ k -> gguf_ok ctx -> Forall (has_data contents) (gc_info ctx) ->
  gguf_write_to_buf contents ctx [] false = Ok (file_bytes k contents ctx).
Proof.
  intros Hk Hal [_ Hkv _ Hinfo _ _ Hoff] Hdata. unfold gguf_write_to_buf. rewrite (foldM_gw_kv _ _ Hkv). cbn [mbind res_bind]. cbn [app].
  rewrite gw_tensor_meta_ok, Hal. assert (E : (GGUF_MAGIC ++ le_bytes 4 (gc_version ctx) ++ le_bytes 8 (zlen (gc_info ctx)) ++ le_bytes 8 (zlen (gc_kv ctx))) = header_bytes ctx) by done.
  rewrite E, <- app_assoc. fold (meta_bytes ctx). pose proof (al_pos k Hk) as Hp. rewrite (pad_buf_ok _ _ Hp). cbn [mbind res_bind]. fold (padding (2 ^ k) (zlen (meta_bytes ctx))).
  destruct (neg_mod_spec (zlen (meta_bytes ctx)) (2 ^ k) Hp) as [H1 H2].
  assert (Hd : (2 ^ k | zlen (meta_bytes ctx ++ padding (2 ^ k) (zlen (meta_bytes ctx))))) by (unfold padding; by rewrite zlen_app, zlen_replicate by lia).
  rewrite (write_data_ok k Hk contents); [done|done| |lia|done|done|done]. rewrite Z.sub_diag, <- Hal. done.
Qed.

Lemma zlen_concat_ge {A} (f : A -> bytes) l : (forall x, 1 <= zlen (f x)) -> zlen l <= zlen (concat (f <$> l)).
Proof.
  intros Hf. induction l as [|x l IH]; [done|]. rewrite fmap_cons. cbn [concat]. rewrite zlen_cons, zlen_app. specialize (Hf x). lia.
Qed.

Lemma parse_step {A B} (m : reading A) (k : A -> reading B) f a f' : m f = Ok (Some (a, f')) -> (m ≫= k) f = k a f'.
Proof. intros E. unfold mbind, parse_bind. by rewrite E. Qed.

Lemma parse_step_nil {A B} (m : reading A) (k : A -> reading B) f a : gives m [] a -> (m ≫= k) f = k a f.
Proof. intros Hm. apply parse_step. destruct f as [rest pos]. pose proof (Hm rest pos) as E. cbn [app] in E. by rewrite Z.add_0_r in E. Qed.

Section file.
Context {MM : Memory} (k : Z) (Hk : 0 <= k <= 31) (contents : ggml_tensor -> bytes) (ctx : gguf_context).
Context (Hal : gc_alignment ctx = 2 ^ k) (Hok : gguf_ok ctx) (Hdata : Forall (has_data contents) (gc_info ctx)).
Local Abbreviation M := (zlen (file_bytes k contents ctx)).
Context (HM50 : M < 2 ^ 50) (HM : forall n, 0 <= n <= 4 * M -> mem_fits n = true).

Lemma parts_le : zlen (meta_bytes ctx) <= M /\ zlen (concat (kv_bytes <$> gc_kv ctx)) <= M /\ zlen (concat (ti_bytes <$> gc_info ctx)) <= M.
Proof.
  unfold file_bytes, meta_bytes. rewrite !zlen_app. pose proof (zlen_nonneg (header_bytes ctx)).
  pose proof (zlen_nonneg (concat (kv_bytes <$> gc_kv ctx))). pose proof (zlen_nonneg (concat (ti_bytes <$> gc_info ctx))).
  match goal with |- context [zlen (padding ?a ?b)] => pose proof (zlen_nonneg (padding a b)) end.
  match goal with |- context [zlen (concat (tensor_data ?a ?b <$> ?c))] => pose proof (zlen_nonneg (concat (tensor_data a b <$> c))) end. lia.
Qed.

Lemma counts_le : zlen (gc_kv ctx) <= M /\ zlen (gc_info ctx) <= M.
Proof.
  destruct parts_le as (_ & H1 & H2). pose proof (zlen_concat_ge kv_bytes (gc_kv ctx)) as H3. pose proof (zlen_concat_ge ti_bytes (gc_info ctx)) as H4.
  split; [transitivity (zlen (concat (kv_bytes <$> gc_kv ctx)))|transitivity (zlen (concat (ti_bytes <$> gc_info ctx)))]; try done.
  - apply H3. intros kv. unfold kv_bytes. rewrite zlen_app, zlen_gw_string. pose proof (zlen_nonneg (kv_key kv)). pose proof (zlen_nonneg (kv_head kv ++ kv_values_bytes kv)). lia.
  - apply H4. intros ti. unfold ti_bytes. rewrite zlen_app, zlen_gw_string. pose proof (zlen_nonneg (c_str (ti_name ti))).
    pose proof (zlen_nonneg (shape_bytes (ti_t ti) ++ le_bytes 4 (t_type (ti_t ti)) ++ le_bytes 8 (ti_offset ti))). lia.
Qed.

Lemma gives_gguf_header : gives gguf_read_header (header_bytes ctx) (gc_version ctx, zlen (gc_info ctx), zlen (gc_kv ctx)).
Proof.
  destruct counts_le as [H1 H2]. destruct (go_version ctx Hok) as [Hv Hv1]. unfold GGUF_VERSION in Hv. pose proof (zlen_nonneg (gc_kv ctx)). pose proof (zlen_nonneg (gc_info ctx)).
  assert (Hn : (0 <=? zlen (gc_info ctx)) && (zlen (gc_info ctx) <=? SIZE_MAX / sizeof_gguf_tensor_info) = true).
  { apply andb_true_iff. split; apply Z.leb_le; [done|]. transitivity (2 ^ 50); [lia|vm_compute; discriminate]. }
  assert (Hm : (0 <=? zlen (gc_kv ctx)) && (zlen (gc_kv ctx) <=? SIZE_MAX / sizeof_gguf_kv) = true).
  { apply andb_true_iff. split; apply Z.leb_le; [done|]. transitivity (2 ^ 50); [lia|vm_compute; discriminate]. }
  unfold gguf_read_header, header_bytes. eapply gives_bind; [by apply gives_bytes|]. eapply gives_bind_nil; [by apply gives_guard, bool_decide_eq_true_2|].
  eapply gives_bind; [apply gives_u32; lia|]. eapply gives_bind_nil.
  { apply gives_guard, andb_true_iff. split; [by apply negb_true_iff, Z.eqb_neq|apply Z.leb_le; unfold GGUF_VERSION; lia]. }
  eapply gives_bind; [apply gives_i64; lia|]. eapply gives_bind_nil; [by apply gives_guard|].
  eapply gives_last; [apply gives_i64; lia|]. eapply gives_bind_nil; [by apply gives_guard|]. apply gives_ret.
Qed.

Lemma gives_alignment : gives (read_alignment (gc_kv ctx)) [] (2 ^ k).
Proof.
  destruct (go_align ctx Hok) as (H1 & H2 & _). rewrite Hal in *. unfold read_alignment. cbv zeta. unfold stored_alignment in H1. cbv zeta in H1.
  eapply gives_bind_nil; [by apply gives_lift|]. eapply gives_bind_nil; [by apply gives_guard|]. apply gives_ret.
Qed.

(** What the reader returns. *)
Definition read_back : gguf_context :=
  {| gc_version := gc_version ctx; gc_kv := gc_kv ctx; gc_info := plain_info <$> gc_info ctx; gc_alignment := gc_alignment ctx;
     gc_offset := zlen (meta_bytes ctx ++ padding (2 ^ k) (zlen (meta_bytes ctx))); gc_size := data_end (2 ^ k) (gc_info ctx);
     gc_data := Some (concat (tensor_data k contents <$> gc_info ctx)) |}.

(** The reader skips the padding. *)
Lemma seek_ok rest : seek_data (2 ^ k) {| fp_rest := padding (2 ^ k) (zlen (meta_bytes ctx)) ++ rest; fp_pos := zlen (meta_bytes ctx) |} =
  Ok (Some (zlen (meta_bytes ctx ++ padding (2 ^ k) (zlen (meta_bytes ctx))),
    {| fp_rest := rest; fp_pos := zlen (meta_bytes ctx ++ padding (2 ^ k) (zlen (meta_bytes ctx))) |})).
Proof.
  destruct parts_le as (Hmeta & _ & _). assert (Hk62 : 0 <= k <= 62) by lia. pose proof (zlen_nonneg (meta_bytes ctx)) as Hm0.
  destruct (neg_mod_spec (zlen (meta_bytes ctx)) (2 ^ k) (al_pos k Hk62)) as [Hz _].
  assert (Hz32 : (- zlen (meta_bytes ctx)) mod 2 ^ k < 2 ^ 31) by (eapply Z.lt_le_trans; [apply Hz|apply Z.pow_le_mono_r; lia]).
  unfold seek_data. cbn [fp_pos fp_rest]. rewrite GGML_PAD_mod by lia. unfold padding. rewrite zlen_app, zlen_replicate by lia.
  unfold wrap_s. rewrite Z.mod_small by lia. destruct (Z.ltb_spec (zlen (meta_bytes ctx) + (- zlen (meta_bytes ctx)) mod 2 ^ k + 2 ^ (64 - 1) - 2 ^ (64 - 1)) 0); [lia|].
  rewrite drop_app_length'; [done|]. rewrite length_replicate. f_equal. lia.
Qed.

Lemma read_ok : gguf_init_from_file_impl (file_bytes k contents ctx) true = Ok (Some read_back).
Proof.
  destruct parts_le as (Hmeta & Hkvs & Hinfos). pose proof (go_offsets ctx Hok) as Hoff. rewrite Hal in Hoff. assert (Hk62 : 0 <= k <= 62) by lia.
  destruct (offsets_bound k Hk62 _ _ Hoff) as [Hend0 Hend]. pose proof (zlen_nonneg (meta_bytes ctx)) as Hm0.
  assert (Hoffs : Forall (fun ti => 0 <= ti_offset ti < 2 ^ 64) (gc_info ctx)) by (by apply (offsets_range k Hk62 _ 0)).
  unfold gguf_init_from_file_impl, gguf_read, file_bytes. rewrite <- app_assoc. unfold meta_bytes at 1. rewrite <- !app_assoc.
  rewrite (parse_step _ _ _ _ _ (gives_gguf_header _ _)). cbv beta iota. rewrite Z.add_0_l.
  assert (El : Z.to_nat (zlen (gc_kv ctx)) = length (gc_kv ctx)) by (unfold zlen; lia). rewrite El.
  rewrite (parse_step _ _ _ _ _ (gives_kvs M HM ltac:(lia) (gc_kv ctx) [] (go_kvs ctx Hok) (go_keys ctx Hok) Hkvs _ _)). cbn [app].
  rewrite (parse_step_nil _ _ _ _ (gives_lift (ggml_assert (zlen (gc_kv ctx) =? zlen (gc_kv ctx))) tt ltac:(by rewrite Z.eqb_refl))).
  rewrite (parse_step_nil _ _ _ _ gives_alignment).
  assert (El2 : Z.to_nat (zlen (gc_info ctx)) = length (gc_info ctx)) by (unfold zlen; lia). rewrite El2.
  rewrite (parse_step _ _ _ _ _ (gives_infos M HM ltac:(lia) (gc_info ctx) [] (go_infos ctx Hok) Hoffs (go_names ctx Hok) Hinfos _ _)). cbn [app].
  assert (Ezl : zlen (plain_info <$> gc_info ctx) = zlen (gc_info ctx)) by (unfold zlen; by rewrite length_fmap).
  rewrite (parse_step_nil _ _ _ _ (gives_lift (ggml_assert (zlen (plain_info <$> gc_info ctx) =? zlen (gc_info ctx))) tt ltac:(by rewrite Ezl, Z.eqb_refl))).
  assert (Epos : zlen (header_bytes ctx) + zlen (concat (kv_bytes <$> gc_kv ctx)) + zlen (concat (ti_bytes <$> gc_info ctx)) = zlen (meta_bytes ctx)).
  { unfold meta_bytes. rewrite !zlen_app. lia. }
  rewrite Epos.
  rewrite (parse_step _ _ _ _ _ (seek_ok _)). rewrite (parse_step_nil _ _ _ _ (gives_data_size k Hk62 (gc_info ctx) 0 ltac:(lia) Hoff)). rewrite Z.add_0_l.
  assert (Eblob : zlen (concat (tensor_data k contents <$> gc_info ctx)) = data_end (2 ^ k) (gc_info ctx)) by (by apply (zlen_data k Hk62 contents _ 0)).
  pose proof (gives_bytes _ _ Eblob) as Hblob. assert (Hload : gives (data ← gr_bytes (data_end (2 ^ k) (gc_info ctx)); mret (Some data)) (concat (tensor_data k contents <$> gc_info ctx)) (Some (concat (tensor_data k contents <$> gc_info ctx)))).
  { eapply gives_last; [exact Hblob|apply gives_ret]. }
  pose proof (Hload [] (zlen (meta_bytes ctx ++ padding (2 ^ k) (zlen (meta_bytes ctx))))) as E. rewrite app_nil_r in E.
  rewrite (parse_step _ _ _ _ _ E). unfold mret, parse_ret, read_back. by rewrite Hal.
Qed.
End file.
