(* ===== verification/GgufRead.v ===== *)
(** Whatever the reader of GGUF files accepts is well formed: for every file it returns a
    context that satisfies its checks, or nothing, or stops with an exception, a failed
    assertion or a division by zero. *)
From S2P Require Import Prelude HashSet Alloc Pad Tensor Gguf GgufSpec.

(** * Outcomes of a reader *)

Definition file_ok (f : file_pos) : Prop := Forall byte_ok (fp_rest f) /\ 0 <= fp_pos f.

(** What [m] returns satisfies [P]. *)
Definition reads {A} (m : reading A) (P : A -> Prop) : Prop :=
  forall f, file_ok f -> post (m f) (fun r => match r with Some (a, f') => P a /\ file_ok f' | None => True end) (fun e => e <> Fuel).

Lemma reads_mono {A} (m : reading A) (P Q : A -> Prop) : reads m P -> (forall a, P a -> Q a) -> reads m Q.
Proof. intros Hm HPQ f Hf. eapply post_mono; [by apply Hm| |done]. intros [[a f']|]; [|done]. intros [? ?]. auto. Qed.

Lemma reads_bind {A B} (m : reading A) (k : A -> reading B) (P : A -> Prop) (Q : B -> Prop) : reads m P -> (forall a, P a -> reads (k a) Q) -> reads (m ≫= k) Q.
Proof.
  intros Hm Hk f Hf. specialize (Hm f Hf). unfold mbind, parse_bind. destruct (m f) as [[[a f']|]|e]; cbn [post] in *; [|done|done].
  destruct Hm as [Ha Hf']. by apply Hk.
Qed.

Lemma reads_ret {A} (a : A) (P : A -> Prop) : P a -> reads (mret a) P.
Proof. by intros Ha f Hf. Qed.

Lemma reads_guard b : reads (guard b) (fun _ => b = true).
Proof. intros f Hf. by destruct b. Qed.

Lemma reads_lift {A} (m : res A) (P : A -> Prop) : post m P (fun e => e <> Fuel) -> reads (lift m) P.
Proof. intros Hm f Hf. unfold lift. by destruct m. Qed.

Lemma reads_catch {A} (m : reading A) (P : A -> Prop) : reads m P -> reads (catch m) P.
Proof. intros Hm f Hf. specialize (Hm f Hf). unfold catch. by destruct (m f) as [|[]]. Qed.

Lemma reads_bytes n : 0 <= n -> reads (gr_bytes n) (fun b => zlen b = n /\ Forall byte_ok b).
Proof.
  intros Hn f [Hf Hp]. unfold gr_bytes. destruct (Z.leb_spec n (zlen (fp_rest f))) as [Hle|]; [|done]. cbn [post]. split; [split|split].
  - unfold zlen in *. rewrite length_take. lia.
  - by apply Forall_take.
  - cbn. by apply Forall_drop.
  - cbn. lia.
Qed.

Lemma le_value_range b : Forall byte_ok b -> 0 <= le_value b < 256 ^ zlen b.
Proof.
  induction 1 as [|c b Hc _ IH]; [done|]. cbn [le_value]. rewrite zlen_cons, Z.pow_add_r by (pose proof (zlen_nonneg b); lia). unfold byte_ok in Hc. lia.
Qed.

Lemma wrap_s_range w x : 0 < w -> - 2 ^ (w - 1) <= wrap_s w x < 2 ^ (w - 1).
Proof.
  intros Hw. unfold wrap_s. replace (2 ^ w) with (2 * 2 ^ (w - 1)) by (rewrite <- Z.pow_succ_r by lia; f_equal; lia).
  assert (0 < 2 ^ (w - 1)) by (apply Z.pow_pos_nonneg; lia). pose proof (Z.mod_pos_bound (x + 2 ^ (w - 1)) (2 * 2 ^ (w - 1)) ltac:(lia)). lia.
Qed.

Lemma reads_u32 : reads gr_u32 (fun x => 0 <= x < 2 ^ 32).
Proof. eapply reads_bind; [by apply reads_bytes|]. intros b [Hl Hb]. apply reads_ret. pose proof (le_value_range b Hb) as H. by rewrite Hl in H. Qed.

Lemma reads_u64 : reads gr_u64 (fun x => 0 <= x < 2 ^ 64).
Proof. eapply reads_bind; [by apply reads_bytes|]. intros b [Hl Hb]. apply reads_ret. pose proof (le_value_range b Hb) as H. by rewrite Hl in H. Qed.

Lemma reads_i32 : reads gr_i32 (fun x => - 2 ^ 31 <= x < 2 ^ 31).
Proof. eapply reads_bind; [by apply reads_bytes|]. intros b _. apply reads_ret. by apply (wrap_s_range 32). Qed.

Lemma reads_i64 : reads gr_i64 (fun x => - 2 ^ 63 <= x < 2 ^ 63).
Proof. eapply reads_bind; [by apply reads_bytes|]. intros b _. apply reads_ret. by apply (wrap_s_range 64). Qed.

(** Evaluating the steps of a reader in order. *)
Ltac read_step H := eapply reads_bind; [first [apply reads_u32|apply reads_u64|apply reads_i32|apply reads_i64|apply reads_guard|by apply reads_bytes]|intros ? H; cbv beta in H].

Section reading.
Context {MM : Memory}.

Lemma reads_resize n : reads (resize n) (fun _ => True).
Proof. unfold resize. destruct (mem_fits n); [by apply reads_ret|]. by apply reads_lift. Qed.

Lemma reads_string : reads gr_string (fun s => Forall byte_ok s).
Proof.
  unfold gr_string. read_step Hn. eapply reads_bind; [apply reads_resize|]. intros _ _. eapply reads_mono; [apply reads_bytes; lia|]. by intros s [_ ?].
Qed.

Lemma reads_strings n : reads (gr_strings n) (fun l => length l = n).
Proof.
  induction n as [|n IH]; [by apply reads_ret|]. cbn [gr_strings]. eapply reads_bind; [apply reads_string|]. intros s _.
  eapply reads_bind; [apply IH|]. intros l Hl. apply reads_ret. cbn. by rewrite Hl.
Qed.

(** * Pairs *)

(** A pair from a file. *)
Definition kv_read (kv : gguf_kv) : Prop := kv_ok kv /\ Forall byte_ok (kv_data kv).

Lemma make_kv_post key is_array type data strings (P : gguf_kv -> Prop) :
  (key <> [] -> P {| kv_key := key; kv_is_array := is_array; kv_type := type; kv_data := data; kv_data_string := strings |}) ->
  post (make_kv key is_array type data strings) P (fun e => e <> Fuel).
Proof. intros HP. unfold make_kv. destruct (bool_decide (key = [])) eqn:E; [done|]. cbn. apply HP. by apply bool_decide_eq_false in E. Qed.

Lemma to_bools_len type data : zlen (to_bools type data) = zlen data.
Proof. unfold to_bools. destruct (_ =? _); [|done]. unfold zlen. by rewrite length_fmap. Qed.

Lemma to_bools_01 type data : type = GGUF_TYPE_BOOL -> Forall (fun b => b = 0 \/ b = 1) (to_bools type data).
Proof. intros ->. unfold to_bools. rewrite Z.eqb_refl. apply Forall_fmap, Forall_true. intros b. cbn. destruct (b =? 0); auto. Qed.

Lemma to_bools_bytes type data : Forall byte_ok data -> Forall byte_ok (to_bools type data).
Proof. unfold to_bools. destruct (_ =? _); [|done]. intros _. apply Forall_fmap, Forall_true. intros b. cbn. unfold byte_ok. destruct (b =? 0); lia. Qed.

Lemma reads_values key type is_array n : 0 < gguf_type_size type -> 0 <= n -> reads (read_values key type is_array n) (fun kv => kv_read kv /\ kv_key kv = key).
Proof.
  intros Hs Hn. destruct (type_size_range type) as [_ Hr]. destruct (Hr Hs) as (_ & Hns & _). apply Z.eqb_neq in Hns.
  assert (Hok : forall a data ne, zlen data = ne * gguf_type_size type -> Forall byte_ok data -> a = true \/ ne = 1 -> key <> [] ->
    kv_read {| kv_key := key; kv_is_array := a; kv_type := type; kv_data := to_bools type data; kv_data_string := [] |}).
  { intros a data ne Hl Hbytes Ha Hk. split; [|by apply to_bools_bytes]. constructor; cbn; [done| |].
    - destruct Ha as [->| ->]; [by left|right]. unfold kv_count. cbn. rewrite Hns, to_bools_len, Hl, Z.mul_1_l. by apply Z.div_same; lia.
    - right. rewrite to_bools_len, Hl. split; [done|]. split; [by exists ne|]. split; [done|apply to_bools_01]. }
  unfold read_values. destruct is_array.
  - eapply reads_bind; [apply reads_catch; eapply reads_bind; [apply reads_resize|]; intros _ _; apply reads_bytes; nia|].
    intros data [Hl Hby]. apply reads_lift, make_kv_post. intros Hk. split; [|done]. apply (Hok true data n); auto.
  - eapply reads_bind; [apply reads_bytes; lia|]. intros data [Hl Hby]. apply reads_lift, make_kv_post. intros Hk. split; [|done].
    apply (Hok false data 1); [lia|done|by right|done].
Qed.

Lemma reads_texts key is_array n : reads (read_texts key is_array n) (fun kv => kv_read kv /\ kv_key kv = key).
Proof.
  unfold read_texts. destruct is_array.
  - eapply reads_bind; [apply reads_catch; eapply reads_bind; [apply reads_resize|]; intros _ _; apply reads_strings|].
    intros l _. apply reads_lift, make_kv_post. intros Hk. split; [|done]. split; [|constructor]. constructor; cbn; [done|by left|by left].
  - eapply reads_bind; [apply reads_string|]. intros s _. apply reads_lift, make_kv_post. intros Hk. split; [|done]. split; [|constructor]. constructor; cbn; [done|by right|by left].
Qed.

Lemma known_size type : is_Some (zlookup GGUF_TYPE_SIZE type) -> type <> GGUF_TYPE_ARRAY -> type <> GGUF_TYPE_STRING -> 0 < gguf_type_size type.
Proof.
  unfold GGUF_TYPE_ARRAY, GGUF_TYPE_STRING. intros [x Hx] Ha Hs. pose proof (zlookup_Some_lt _ _ _ Hx) as Hr. change (zlen GGUF_TYPE_SIZE) with 13 in Hr.
  assert (Hcase : type = 0 \/ type = 1 \/ type = 2 \/ type = 3 \/ type = 4 \/ type = 5 \/ type = 6 \/ type = 7 \/ type = 10 \/ type = 11 \/ type = 12) by lia.
  repeat (destruct Hcase as [->|Hcase]; [done|]). by subst type.
Qed.

Lemma reads_kv kvs : reads (read_kv kvs) (fun kv => kv_read kv /\ kv_key kv ∉ (kv_key <$> kvs)).
Proof.
  unfold read_kv. eapply reads_bind; [apply reads_catch, reads_string|]. intros key _. read_step Hnew. read_step Hty.
  assert (Hk : key ∉ (kv_key <$> kvs)).
  { intros (kv & -> & Hin)%list_elem_of_fmap. apply negb_true_iff in Hnew. rewrite (proj2 (existsb_exists _ _)) in Hnew; [done|].
    exists kv. split; [by apply list_elem_of_In|by apply bool_decide_eq_true]. }
  eapply (reads_bind _ _ (fun '(_, _, n) => 0 <= n)).
  { destruct (_ =? GGUF_TYPE_ARRAY); [|by apply reads_ret]. read_step Ht. read_step Hn. apply reads_ret. lia. }
  intros [[is_array type] n] Hn. destruct (bool_decide _ && _) eqn:Ev; [|by intros f Hf]. apply andb_true_iff in Ev as [Hs%bool_decide_eq_true Ha%negb_true_iff%Z.eqb_neq].
  unfold gguf_read_emplace_helper. destruct (Z.eqb_spec type GGUF_TYPE_STRING) as [->|Hne].
  - eapply reads_mono; [apply reads_texts|]. by intros kv [? ->].
  - eapply reads_mono; [apply reads_values; [by apply known_size|done]|]. by intros kv [? ->].
Qed.

Lemma reads_kvs n : forall kvs, Forall kv_read kvs -> NoDup (kv_key <$> kvs) ->
  reads (read_kvs n kvs) (fun kvs' => Forall kv_read kvs' /\ NoDup (kv_key <$> kvs') /\ length kvs' = (length kvs + n)%nat).
Proof.
  induction n as [|n IH]; intros kvs Hok Hnd; [apply reads_ret; splits; [done|done|lia]|]. cbn [read_kvs].
  eapply reads_bind; [apply reads_kv|]. intros kv [Hk Hnew]. eapply reads_mono; [apply IH|].
  - by apply Forall_app_2; [|constructor].
  - rewrite fmap_app. cbn. apply NoDup_app. splits; [done| |apply NoDup_singleton]. intros x Hx ->%list_elem_of_singleton. done.
  - intros kvs' (H1 & H2 & H3). splits; [done|done|]. rewrite H3, length_app. cbn. lia.
Qed.

(** * Tensors *)

(** What the reader checks of a tensor. The first dimension may be empty. *)
Record info_read (ti : gguf_tensor_info) : Prop := {
  ir_name : zlen (ti_name ti) < GGML_MAX_NAME /\ Forall (fun c => c <> 0) (ti_name ti);
  ir_ne   : exists a b c d, t_ne (ti_t ti) = [a; b; c; d] /\ 0 <= a /\ 1 <= b /\ 1 <= c /\ 1 <= d /\ a * b * c * d <= INT64_MAX;
  ir_type : 0 <= t_type (ti_t ti) < GGML_TYPE_COUNT /\ 0 < ggml_blck_size (t_type (ti_t ti)) /\
              (ggml_blck_size (t_type (ti_t ti)) | ne_at (ti_t ti) 0);
  ir_nb   : t_nb (ti_t ti) = dense_nb (ggml_type_size (t_type (ti_t ti))) (ggml_blck_size (t_type (ti_t ti))) (t_ne (ti_t ti));
  ir_off  : 0 <= ti_offset ti < 2 ^ 64
}.

Lemma c_str_spec s : Forall (fun c => c <> 0) (c_str s) /\ zlen (c_str s) <= zlen s.
Proof.
  induction s as [|c s [IH1 IH2]]; [by split|]. cbn [c_str]. destruct (Z.eqb_spec c 0) as [|Hc].
  - split; [constructor|]. rewrite zlen_cons. pose proof (zlen_nonneg s). change (zlen (@nil Z)) with 0. lia.
  - split; [by constructor|]. rewrite !zlen_cons. lia.
Qed.

Lemma reads_name infos : reads (read_name infos) (fun name => zlen name < GGML_MAX_NAME /\ Forall (fun c => c <> 0) name /\ name ∉ (ti_name <$> infos)).
Proof.
  unfold read_name. eapply reads_bind; [apply reads_catch, reads_string|]. intros name _. read_step Hlen. apply Z.ltb_lt in Hlen. cbv zeta. read_step Hnew.
  apply reads_ret. destruct (c_str_spec name) as [H1 H2]. split; [lia|]. split; [done|].
  intros (ti & Hti & Hin)%list_elem_of_fmap. apply negb_true_iff in Hnew. rewrite (proj2 (existsb_exists _ _)) in Hnew; [done|].
  exists ti. split; [by apply list_elem_of_In|by apply bool_decide_eq_true].
Qed.

Lemma reads_dim nd j : reads (read_dim nd j) (fun ne => 0 <= ne).
Proof.
  unfold read_dim. eapply (reads_bind _ _ (fun _ => True)); [destruct (j <? nd); [eapply reads_mono; [apply reads_i64|done]|by apply reads_ret]|].
  intros ne _. read_step Hg. apply reads_ret. by apply Z.leb_le.
Qed.

Lemma too_many_post ne n : 0 <= ne -> 0 <= n -> post (too_many ne n) (fun b => b = false -> 1 <= ne /\ n * ne <= INT64_MAX) (fun e => e <> Fuel).
Proof.
  intros Hne Hn. unfold too_many. destruct (Z.eqb_spec ne 0); [done|]. cbn. intros H%Z.leb_gt. pose proof (Z.mul_div_le INT64_MAX ne ltac:(lia)). split; [lia|nia].
Qed.

Lemma unrepresentable_post a b c d : 0 <= a -> 0 <= b -> 0 <= c -> 0 <= d ->
  post (unrepresentable a b c d) (fun bad => bad = false -> 1 <= b /\ 1 <= c /\ 1 <= d /\ a * b * c * d <= INT64_MAX) (fun e => e <> Fuel).
Proof.
  intros Ha Hb Hc Hd. unfold unrepresentable. eapply post_bind; [apply too_many_post; lia|]. intros [|] H1; [done|]. destruct (H1 eq_refl) as [Hb1 _].
  eapply post_bind; [apply too_many_post; nia|]. intros [|] H2; [done|]. destruct (H2 eq_refl) as [Hc1 _].
  eapply post_mono; [apply too_many_post; nia| |done]. intros bad H3 ->. destruct (H3 eq_refl) as [Hd1 Hall]. done.
Qed.

Definition shape_ok (ne : list Z) : Prop :=
  exists a b c d, ne = [a; b; c; d] /\ 0 <= a /\ 1 <= b /\ 1 <= c /\ 1 <= d /\ a * b * c * d <= INT64_MAX.

Lemma reads_shape : reads read_shape shape_ok.
Proof.
  unfold read_shape. read_step Hnd. read_step Hmax.
  eapply reads_bind; [apply reads_dim|]. intros ne0 H0. eapply reads_bind; [apply reads_dim|]. intros ne1 H1.
  eapply reads_bind; [apply reads_dim|]. intros ne2 H2. eapply reads_bind; [apply reads_dim|]. intros ne3 H3.
  eapply reads_bind; [apply reads_lift, (unrepresentable_post ne0 ne1 ne2 ne3); done|]. intros bad Hbad. read_step Hg. apply reads_ret.
  apply negb_true_iff in Hg. destruct (Hbad Hg) as (? & ? & ? & ?). by exists ne0, ne1, ne2, ne3.
Qed.

Lemma blck_size_nonneg type : 0 <= ggml_blck_size type.
Proof.
  unfold ggml_blck_size. destruct (zlookup type_traits type) as [[b s]|] eqn:E; [|done]. cbn. assert (Hin : (b, s) ∈ type_traits) by (apply elem_of_zlookup; exists type; split; [by apply zlookup_Some_lt in E|done]).
  revert b s Hin E. assert (Hall : Forall (fun p => 0 <= p.1) type_traits) by (apply (bool_decide_unpack _); vm_compute; exact I).
  rewrite Forall_forall in Hall. intros b s Hin _. apply (Hall _ Hin).
Qed.

Lemma reads_type ne : shape_ok ne -> reads (read_type ne) (fun '(type, nb) =>
  0 <= type < GGML_TYPE_COUNT /\ 0 < ggml_blck_size type /\ (ggml_blck_size type | default 0 (zlookup ne 0)) /\ nb = dense_nb (ggml_type_size type) (ggml_blck_size type) ne).
Proof.
  intros _. unfold read_type. eapply reads_bind; [apply reads_i32|]. intros type _. read_step Hty. apply andb_true_iff in Hty as [H1%Z.leb_le H2%Z.ltb_lt]. cbv zeta.
  read_step Hb. apply reads_ret. apply negb_true_iff, orb_false_iff in Hb as [Hb%Z.eqb_neq Hr%negb_false_iff%Z.eqb_eq].
  pose proof (blck_size_nonneg type). split; [done|]. split; [lia|]. split; [by apply Z.rem_divide|done].
Qed.

Lemma reads_info infos : reads (read_info infos) (fun ti => info_read ti /\ ti_name ti ∉ (ti_name <$> infos)).
Proof.
  unfold read_info. eapply reads_bind; [apply reads_name|]. intros name (Hl & Hnul & Hnew). eapply reads_bind; [apply reads_shape|]. intros ne Hne.
  eapply reads_bind; [by apply reads_type|]. intros [type nb] (H1 & H2 & H3 & H4). read_step Hoff. apply reads_ret. split; [|done]. by constructor.
Qed.

Lemma reads_infos n : forall infos, Forall info_read infos -> NoDup (ti_name <$> infos) ->
  reads (read_infos n infos) (fun infos' => Forall info_read infos' /\ NoDup (ti_name <$> infos') /\ length infos' = (length infos + n)%nat).
Proof.
  induction n as [|n IH]; intros infos Hok Hnd; [apply reads_ret; splits; [done|done|lia]|]. cbn [read_infos].
  eapply reads_bind; [apply reads_info|]. intros ti [Hi Hnew]. eapply reads_mono; [apply IH|].
  - by apply Forall_app_2; [|constructor].
  - rewrite fmap_app. cbn. apply NoDup_app. splits; [done| |apply NoDup_singleton]. intros x Hx ->%list_elem_of_singleton. done.
  - intros infos' (H1 & H2 & H3). splits; [done|done|]. rewrite H3, length_app. cbn. lia.
Qed.

(** * The file *)

(** The offsets are the sums of the padded sizes, as [size_t]. *)
Fixpoint chained (al o : Z) (infos : list gguf_tensor_info) : Prop :=
  match infos with
  | [] => True
  | ti :: infos => ti_offset ti = o /\ chained al (u64 (o + GGML_PAD (ggml_nbytes (ti_t ti)) al)) infos
  end.

Lemma reads_data_size k infos : 0 <= k <= 62 -> forall o, 0 <= o ->
  reads (data_size (2 ^ k) o infos) (fun size => 0 <= size /\ chained (2 ^ k) o infos /\ (offsets_from (2 ^ k) o infos -> size = o + data_end (2 ^ k) infos)).
Proof.
  intros Hk. induction infos as [|ti infos IH]; intros o Ho; cbn [data_size].
  - apply reads_ret. splits; [done|done|]. intros _. unfold data_end. cbn. lia.
  - unfold add_size. eapply (reads_bind _ _ (fun size => ti_offset ti = o /\ size = u64 (o + GGML_PAD (ggml_nbytes (ti_t ti)) (2 ^ k)))).
    { read_step He. apply reads_ret. by apply Z.eqb_eq in He. }
    intros size [He ->]. eapply reads_mono; [apply IH, u64_range|]. cbn [chained offsets_from]. intros size (H1 & H2 & H3). split; [done|]. split; [done|].
    intros (_ & Hn & Hoff). destruct (offsets_bound k Hk _ _ Hoff) as [Hb1 Hb2]. destruct (pad_nbytes k Hk (ti_t ti) Hn) as (E & Hp & _). pose proof (nbytes_nonneg (ti_t ti)).
    rewrite u64_small in H3 by (unfold SIZE_MAX; lia). unfold data_end in *. rewrite fmap_cons, zsum_cons. rewrite (H3 Hoff). lia.
Qed.

Lemma inside k infos : 0 <= k <= 62 -> forall o ti, offsets_from (2 ^ k) o infos -> ti ∈ infos -> ti_offset ti + ggml_nbytes (ti_t ti) <= o + data_end (2 ^ k) infos.
Proof.
  intros Hk. induction infos as [|u infos IH]; intros o ti Hoff Hin; [by apply elem_of_nil in Hin|]. pose proof (offsets_bound k Hk _ _ Hoff) as Hb. destruct Hoff as (Eo & Hn & Hoff).
  destruct (pad_nbytes k Hk (ti_t u) Hn) as (E & Hp & _). pose proof (nbytes_nonneg (ti_t u)). destruct (offsets_bound k Hk _ _ Hoff) as [Hb1 Hb2].
  unfold data_end in *. rewrite fmap_cons, zsum_cons. apply elem_of_cons in Hin as [->|Hin]; [lia|]. specialize (IH _ ti Hoff Hin). lia.
Qed.

(** What the reader guarantees. *)
Record gguf_valid (load : bool) (ctx : gguf_context) : Prop := {
  gv_version : 0 <= gc_version ctx <= GGUF_VERSION /\ gc_version ctx <> 1;
  gv_kvs     : Forall kv_ok (gc_kv ctx) /\ NoDup (kv_key <$> gc_kv ctx);
  gv_infos   : Forall info_read (gc_info ctx) /\ NoDup (ti_name <$> gc_info ctx);
  gv_align   : exists k, 0 <= k < 32 /\ gc_alignment ctx = 2 ^ k /\ stored_alignment (gc_kv ctx) = Ok (gc_alignment ctx);
  gv_offset  : (gc_alignment ctx | gc_offset ctx);
  gv_chain   : chained (gc_alignment ctx) 0 (gc_info ctx);
  gv_blob    : if load then exists blob, gc_data ctx = Some blob /\ zlen blob = gc_size ctx else gc_data ctx = None;
  gv_inside  : offsets_from (gc_alignment ctx) 0 (gc_info ctx) -> forall ti, ti ∈ gc_info ctx -> ti_offset ti + ggml_nbytes (ti_t ti) <= gc_size ctx
}.

Lemma reads_alignment kvs : Forall kv_read kvs -> reads (read_alignment kvs) (fun al => exists k, 0 <= k < 32 /\ al = 2 ^ k /\ stored_alignment kvs = Ok al).
Proof.
  intros Hkv. unfold read_alignment. cbv zeta.
  eapply (reads_bind _ _ (fun al => stored_alignment kvs = Ok al /\ 0 <= al < 2 ^ 32)).
  { apply reads_lift. unfold stored_alignment. cbv zeta. set (ctx := with_kv gguf_init_empty kvs). set (i := gguf_find_key ctx GGUF_KEY_GENERAL_ALIGNMENT).
    destruct (i =? -1); [done|]. unfold gguf_get_val_u32, get_scalar, kv_at. cbn [gc_kv ctx with_kv].
    destruct (ggml_assert ((0 <=? i) && (i <? zlen kvs))) as [[]|e] eqn:E1; [|unfold ggml_assert in E1; destruct (_ && _); [done|injection E1 as <-; done]].
    cbn [mbind res_bind]. destruct (vget kvs i) as [kv|e] eqn:Ev; [|unfold vget, or_ub in Ev; destruct (zlookup kvs i); [done|injection Ev as <-; done]].
    cbn [mbind res_bind]. apply vget_ok in Ev. assert (Hin : kv ∈ kvs) by (apply elem_of_zlookup; exists i; split; [by apply zlookup_Some_lt in Ev|done]). rewrite Forall_forall in Hkv. destruct (Hkv kv Hin) as [Hk Hby]. rewrite (get_ne_ok kv Hk). cbn [mbind res_bind].
    unfold ggml_assert. destruct (kv_count kv =? 1); [|done]. cbn [mbind res_bind]. unfold get_val. unfold ggml_assert.
    destruct (Z.eqb_spec GGUF_TYPE_UINT32 (kv_type kv)) as [Et|]; [|done]. cbn [mbind res_bind]. rewrite <- Et. change (gguf_type_size GGUF_TYPE_UINT32) with 4. cbn [Z.eqb].
    destruct (zlen (kv_data kv) mod 4 =? 0); [|done]. cbn [mbind res_bind]. destruct ((0 + 1) * 4 <=? zlen (kv_data kv)) eqn:El; [|done]. cbn [mbind res_bind post].
    split; [done|]. change (Z.to_nat (0 * 4)) with 0%nat. rewrite drop_0. assert (Hb4 : Forall byte_ok (take (Z.to_nat 4) (kv_data kv))) by by apply Forall_take.
    pose proof (le_value_range _ Hb4) as H. replace (zlen (take (Z.to_nat 4) (kv_data kv))) with 4 in H; [done|]. apply Z.leb_le in El. unfold zlen in *. rewrite length_take. lia. }
  intros al [Hs Hr]. read_step Hg. apply reads_ret. destruct (power_of_2_ok al Hg ltac:(lia)) as [E Hpos]. exists (Z.log2 al). split; [|done].
  split; [apply Z.log2_nonneg|]. apply Z.log2_lt_pow2; lia.
Qed.

Lemma reads_header : reads gguf_read_header (fun '(version, n_tensors, n_kv) => (0 <= version <= GGUF_VERSION /\ version <> 1) /\ 0 <= n_tensors /\ 0 <= n_kv).
Proof.
  unfold gguf_read_header. read_step Hm. read_step Hg. read_step Hv. read_step Hg1. apply andb_true_iff in Hg1 as [H1%negb_true_iff%Z.eqb_neq H2%Z.leb_le].
  read_step Ht. read_step Hg2. apply andb_true_iff in Hg2 as [H3%Z.leb_le _]. read_step Hk. read_step Hg3. apply andb_true_iff in Hg3 as [H4%Z.leb_le _].
  apply reads_ret. split; [split; [lia|done]|done].
Qed.

Lemma reads_seek k : 0 <= k <= 62 -> reads (seek_data (2 ^ k)) (fun pos => (2 ^ k | pos)).
Proof.
  intros Hk f [Hf Hp]. unfold seek_data. destruct (wrap_s 64 _ <? 0) eqn:E; [done|]. cbn [post]. split; [by apply GGML_PAD_divide|]. split; cbn; [by apply Forall_drop|].
  unfold GGML_PAD. apply Z.land_nonneg. left. apply u64_range.
Qed.

Lemma reads_gguf load : reads (gguf_read load) (gguf_valid load).
Proof.
  unfold gguf_read. eapply reads_bind; [apply reads_header|]. intros [[version n_tensors] n_kv] (Hv & Ht & Hn).
  eapply reads_bind; [by apply reads_kvs; [|constructor]|]. intros kvs (Hkv & Hkd & _). eapply (reads_bind _ _ (fun _ => True)); [by apply reads_lift; destruct (_ =? _)|]. intros _ _.
  eapply reads_bind; [by apply reads_alignment|]. intros al (k & Hk & -> & Hst).
  eapply reads_bind; [by apply reads_infos; [|constructor]|]. intros infos (Hi & Hid & _). eapply (reads_bind _ _ (fun _ => True)); [by apply reads_lift; destruct (_ =? _)|]. intros _ _.
  eapply reads_bind; [apply reads_seek; lia|]. intros pos Hpos. eapply reads_bind; [apply reads_data_size; lia|]. intros size (Hs & Hc & Hin).
  eapply (reads_bind _ _ (fun data => if load then exists blob, data = Some blob /\ zlen blob = size else data = None)).
  { destruct load; [|by apply reads_ret]. eapply reads_bind; [by apply reads_bytes|]. intros b [Hb _]. apply reads_ret. by exists b. }
  intros data Hd. apply reads_ret. constructor; cbn; [done| |done|by exists k|done|done|done|].
  - split; [|done]. eapply Forall_impl; [exact Hkv|]. by intros kv [? _].
  - intros Hoff ti Hti. rewrite (Hin Hoff). apply (inside k infos ltac:(lia) 0 ti Hoff Hti).
Qed.
End reading.
