(* ===== verification/GgufMap.v ===== *)
(** The key-value pairs of a GGUF context as a finite map: what the look-ups, the setters
    and [gguf_remove_key] of [ggml/src/gguf.cpp] do to it. *)
From S2P Require Import Prelude HashSet Alloc Tensor Gguf GgufSpec.

(** A string without a null, which is what a C string can name. *)
Definition c_string (s : bytes) : Prop := Forall (fun c => c <> 0) s.

Definition keys_ok (kvs : list gguf_kv) : Prop := NoDup (kv_key <$> kvs) /\ Forall (fun kv => c_string (kv_key kv)) kvs.

Definition kv_pair (kv : gguf_kv) : bytes * gguf_kv := (kv_key kv, kv).

Definition kv_map (kvs : list gguf_kv) : gmap bytes gguf_kv := list_to_map (kv_pair <$> kvs).

Lemma kv_pair_fst kvs : (kv_pair <$> kvs).*1 = kv_key <$> kvs.
Proof. by rewrite <- list_fmap_compose. Qed.

Lemma kv_map_lookup kvs key kv : NoDup (kv_key <$> kvs) -> kv_map kvs !! key = Some kv <-> kv ∈ kvs /\ kv_key kv = key.
Proof.
  intros Hnd. unfold kv_map. rewrite <- elem_of_list_to_map by (by rewrite kv_pair_fst). rewrite list_elem_of_fmap. split.
  - intros (kv' & [= -> ->] & Hin). done.
  - intros [Hin <-]. by exists kv.
Qed.

Lemma kv_map_none kvs key : kv_map kvs !! key = None <-> key ∉ (kv_key <$> kvs).
Proof. unfold kv_map. rewrite <- not_elem_of_list_to_map. by rewrite kv_pair_fst. Qed.

Lemma kv_map_snoc kvs kv : kv_key kv ∉ (kv_key <$> kvs) -> kv_map (kvs ++ [kv]) = <[kv_key kv := kv]> (kv_map kvs).
Proof. intros Hnew. unfold kv_map. rewrite fmap_app. apply list_to_map_snoc. by rewrite kv_pair_fst. Qed.

(** * Look-ups *)

Lemma find_from_spec name names : forall i, 0 <= i ->
  (find_from name i names = -1 /\ Forall (fun n => c_str n <> c_str name) names) \/
  (exists j n, names !! j = Some n /\ c_str n = c_str name /\ find_from name i names = i + Z.of_nat j).
Proof.
  induction names as [|n names IH]; intros i Hi; [by left|]. cbn [find_from]. destruct (decide (c_str name = c_str n)) as [E|Hne].
  - right. exists 0%nat, n. by rewrite Z.add_0_r.
  - destruct (IH (i + 1) ltac:(lia)) as [[H1 H2]|(j & n' & H1 & H2 & H3)]; [left; split; [done|by constructor; [congruence|]]|].
    right. exists (S j), n'. split; [done|]. split; [done|]. lia.
Qed.

(** For C strings: the only one of the name, or none. *)
Lemma find_from_strings name names : c_string name -> Forall c_string names ->
  (find_from name 0 names = -1 /\ name ∉ names) \/ (exists j, names !! j = Some name /\ find_from name 0 names = Z.of_nat j).
Proof.
  intros Hn Hns. destruct (find_from_spec name names 0 ltac:(lia)) as [[H1 H2]|(j & n & H1 & H2 & H3)].
  - left. split; [done|]. intros Hin. rewrite Forall_forall in H2. by apply (H2 name Hin).
  - right. exists j. split; [|lia]. rewrite Forall_forall in Hns. pose proof (Hns n (list_elem_of_lookup_2 _ _ _ H1)) as Hcn.
    rewrite !c_str_id in H2 by done. by subst n.
Qed.

Lemma find_key_spec ctx key : keys_ok (gc_kv ctx) -> c_string key ->
  match kv_map (gc_kv ctx) !! key with
  | None => gguf_find_key ctx key = -1
  | Some kv => exists j, gc_kv ctx !! j = Some kv /\ gguf_find_key ctx key = Z.of_nat j
  end.
Proof.
  intros [Hnd Hcs] Hkey. unfold gguf_find_key.
  destruct (find_from_strings key (kv_key <$> gc_kv ctx) Hkey ltac:(by apply Forall_fmap)) as [[H1 H2]|(j & H1 & H2)].
  - by apply kv_map_none in H2 as ->.
  - apply list_lookup_fmap_Some in H1 as (kv & -> & Hkv). assert (E : kv_map (gc_kv ctx) !! kv_key kv = Some kv) by (apply kv_map_lookup; [done|]; split; [by eapply list_elem_of_lookup_2|done]).
    rewrite E. by exists j.
Qed.

Lemma kv_at_ok ctx j kv : gc_kv ctx !! j = Some kv -> kv_at ctx (Z.of_nat j) = Ok kv.
Proof.
  intros Hj. pose proof (lookup_lt_Some _ _ _ Hj) as Hlt.
  assert (Hc : (0 <=? Z.of_nat j) && (Z.of_nat j <? zlen (gc_kv ctx)) = true) by (apply andb_true_iff; split; [apply Z.leb_le; lia|apply Z.ltb_lt; unfold zlen; lia]).
  unfold kv_at. rewrite Hc. cbn [ggml_assert mbind res_bind]. apply vget_ok. by rewrite zlookup_nat.
Qed.

(** * Removal and insertion *)

Lemma delete_nodup {A B} (f : A -> B) l j x : NoDup (f <$> l) -> l !! j = Some x -> f x ∉ (f <$> delete j l).
Proof.
  intros Hnd Hj Hin. rewrite list_elem_of_fmap in Hin. destruct Hin as (y & Ef & Hin). rewrite delete_take_drop in Hin.
  rewrite <- (take_drop_middle _ _ _ Hj), fmap_app, fmap_cons in Hnd. apply NoDup_app in Hnd as (_ & H1 & H2). apply NoDup_cons in H2 as [H2 _].
  apply elem_of_app in Hin as [Hin|Hin].
  - apply (H1 (f x)); [rewrite Ef; by apply list_elem_of_fmap_2|]. by left.
  - apply H2. rewrite Ef. by apply list_elem_of_fmap_2.
Qed.

Lemma delete_elem {A} (l : list A) j x y : l !! j = Some x -> y ∈ l <-> y = x \/ y ∈ delete j l.
Proof.
  intros Hj. rewrite delete_take_drop. rewrite <- (take_drop_middle _ _ _ Hj) at 1. rewrite !elem_of_app, elem_of_cons. tauto.
Qed.

Record removed (key : bytes) (kvs kvs' : list gguf_kv) : Prop := {
  rm_map  : kv_map kvs' = delete key (kv_map kvs);
  rm_keys : keys_ok kvs';
  rm_sub  : forall P : gguf_kv -> Prop, Forall P kvs -> Forall P kvs'
}.

Lemma remove_key_spec ctx key : keys_ok (gc_kv ctx) -> c_string key ->
  exists kvs', (gguf_remove_key ctx key).1 = with_kv ctx kvs' /\ removed key (gc_kv ctx) kvs'.
Proof.
  intros Hok Hkey. pose proof (find_key_spec ctx key Hok Hkey) as H. destruct Hok as [Hnd Hcs]. unfold gguf_remove_key. destruct (kv_map (gc_kv ctx) !! key) as [kv|] eqn:E.
  - destruct H as (j & Hj & ->). rewrite (proj2 (Z.leb_le _ _)) by lia. cbn [fst]. rewrite Nat2Z.id. exists (delete j (gc_kv ctx)). split; [done|].
    apply kv_map_lookup in E as [Hin Ek]; [|done]. pose proof (delete_nodup kv_key _ _ _ Hnd Hj) as Hnew. rewrite Ek in Hnew.
    assert (Hsub : forall P : gguf_kv -> Prop, Forall P (gc_kv ctx) -> Forall P (delete j (gc_kv ctx))).
    { intros P HP. rewrite Forall_forall in *. intros y Hy. apply HP, (delete_elem _ _ _ _ Hj). by right. }
    assert (Hnd' : NoDup (kv_key <$> delete j (gc_kv ctx))).
    { eapply sublist_NoDup; [exact Hnd|]. apply fmap_sublist, sublist_delete. }
    split; [|by split; [|apply Hsub]|done]. apply map_eq. intros key'. destruct (decide (key' = key)) as [->|Hne].
    + rewrite lookup_delete_eq. by apply kv_map_none.
    + rewrite lookup_delete_ne by done. apply option_eq. intros kv'. rewrite !kv_map_lookup by done. rewrite (delete_elem _ _ _ kv' Hj). split; [by intros [? ?]; auto|].
      intros [[->|Hin'] Ek']; [congruence|done].
  - rewrite H. cbn. exists (gc_kv ctx). split; [by destruct ctx|]. split; [by rewrite delete_id|done|done].
Qed.

(** A pair whose key is not in use. *)
Lemma keys_ok_snoc kvs kv : keys_ok kvs -> c_string (kv_key kv) -> kv_key kv ∉ (kv_key <$> kvs) -> keys_ok (kvs ++ [kv]).
Proof.
  intros [Hnd Hcs] Hc Hnew. split; [|by apply Forall_app_2; [|constructor]]. rewrite fmap_app. apply NoDup_app. split; [done|].
  split; [|apply NoDup_singleton]. intros x Hx ->%list_elem_of_singleton. done.
Qed.

Lemma emplace_spec ctx kv : keys_ok (gc_kv ctx) -> c_string (kv_key kv) ->
  exists kvs', emplace_kv ctx (kv_key kv) (Ok kv) = Ok (with_kv ctx kvs') /\ keys_ok kvs' /\ kv_map kvs' = <[kv_key kv := kv]> (kv_map (gc_kv ctx)) /\
    forall P : gguf_kv -> Prop, Forall P (gc_kv ctx) -> P kv -> Forall P kvs'.
Proof.
  intros Hok Hkey. destruct (remove_key_spec ctx (kv_key kv) Hok Hkey) as (kvs' & E & [Hm Hk Hs]). unfold emplace_kv. rewrite E. cbn [mbind res_bind gc_kv with_kv].
  assert (Hnew : kv_key kv ∉ (kv_key <$> kvs')) by (apply kv_map_none; by rewrite Hm, lookup_delete_eq).
  exists (kvs' ++ [kv]). split; [done|]. split; [by apply keys_ok_snoc|]. split; [by rewrite kv_map_snoc, Hm, insert_delete_eq|].
  intros P HP Hkv. apply Forall_app_2; [by apply Hs|by constructor].
Qed.

(** * The alignment *)

(** The value of a pair of the type [uint32_t]. *)
Definition u32_of (kv : gguf_kv) : res Z :=
  v ← (ne ← get_ne kv; _ ← ggml_assert (ne =? 1); get_val kv GGUF_TYPE_UINT32 0); Ok (le_value v).

Definition map_alignment (m : gmap bytes gguf_kv) : res Z :=
  match m !! GGUF_KEY_GENERAL_ALIGNMENT with None => Ok GGUF_DEFAULT_ALIGNMENT | Some kv => u32_of kv end.

Lemma alignment_c_string : c_string GGUF_KEY_GENERAL_ALIGNMENT.
Proof. apply (bool_decide_unpack (Forall (fun c => c <> 0) _)). vm_compute. done. Qed.

Lemma stored_alignment_map kvs : keys_ok kvs -> stored_alignment kvs = map_alignment (kv_map kvs).
Proof.
  intros Hok. unfold stored_alignment, map_alignment. cbv zeta. pose proof (find_key_spec (with_kv gguf_init_empty kvs) _ Hok alignment_c_string) as H. cbn [gc_kv with_kv] in H.
  destruct (kv_map kvs !! GGUF_KEY_GENERAL_ALIGNMENT) as [kv|]; [|by rewrite H]. destruct H as (j & Hj & ->). rewrite (proj2 (Z.eqb_neq _ _)) by lia.
  unfold gguf_get_val_u32, get_scalar. by rewrite (kv_at_ok (with_kv gguf_init_empty kvs) j kv Hj).
Qed.
