(* ===== verification/GgufEdit.v ===== *)
(** What the setters of [ggml/src/gguf.cpp] do to a GGUF context: the pairs are a finite map
    that they update, the tensors are a list without repetition whose offsets follow from
    the sizes, and the context stays one that can be written and read back. *)
From S2P Require Import Prelude HashSet Alloc Pad Tensor Gguf GgufSpec GgufMap.

(** * Tensors and their offsets *)

Definition tensors (ctx : gguf_context) : list ggml_tensor := ti_t <$> gc_info ctx.

(** What [info_ok] says of the tensor alone. *)
Definition tensor_ok (t : ggml_tensor) : Prop := info_ok {| ti_t := t; ti_offset := 0 |}.

Lemma info_ok_tensor ti : info_ok ti <-> tensor_ok (ti_t ti).
Proof. by split; intros [H1 H2 H3 H4]; constructor. Qed.

(** The data section of some tensors fits into the address space. *)
Definition sizes_fit (al : Z) (ts : list ggml_tensor) : Prop :=
  Forall (fun t => ggml_nbytes t <= 2 ^ 62) ts /\ zsum ((fun t => GGML_PAD (ggml_nbytes t) al) <$> ts) <= 2 ^ 62.

Lemma data_end_tensors al infos : data_end al infos = zsum ((fun t => GGML_PAD (ggml_nbytes t) al) <$> (ti_t <$> infos)).
Proof. unfold data_end. by rewrite <- list_fmap_compose. Qed.

Section offsets.
Context (k : Z) (Hk : 0 <= k <= 62).
Local Abbreviation al := (2 ^ k).

Lemma offsets_app l1 l2 : forall o, offsets_from al o (l1 ++ l2) <-> offsets_from al o l1 /\ offsets_from al (o + data_end al l1) l2.
Proof using Hk.
  induction l1 as [|ti l1 IH]; intros o; cbn [app offsets_from].
  - unfold data_end. cbn. rewrite Z.add_0_r. split; [|by intros [_ ?]]. intros H. split; [|done]. pose proof (offsets_bound k Hk _ _ H). lia.
  - rewrite IH. unfold data_end. rewrite fmap_cons, zsum_cons, Z.add_assoc. tauto.
Qed.

Lemma offsets_sizes infos : forall o, 0 <= o -> offsets_from al o infos -> Forall (fun t => ggml_nbytes t <= 2 ^ 62) (ti_t <$> infos).
Proof using Hk.
  induction infos as [|ti infos IH]; intros o Ho H; [constructor|]. destruct H as (_ & Hn & H). rewrite fmap_cons. constructor; [done|].
  destruct (pad_nbytes k Hk (ti_t ti) Hn) as (E & Hp & _). pose proof (nbytes_nonneg (ti_t ti)). refine (IH _ _ H). lia.
Qed.

Lemma pads_nonneg ts : Forall (fun t => ggml_nbytes t <= 2 ^ 62) ts -> 0 <= zsum ((fun t => GGML_PAD (ggml_nbytes t) al) <$> ts).
Proof using Hk.
  induction 1 as [|t ts Ht _ IH]; [done|]. rewrite fmap_cons, zsum_cons. cbv beta. destruct (pad_nbytes k Hk t Ht) as (E & Hp & _). pose proof (nbytes_nonneg t). lia.
Qed.

(** The loop that updates the offsets behind a tensor. *)
Lemma update_offsets_ok infos : forall prev, 0 <= ti_offset prev -> Forall (fun t => ggml_nbytes t <= 2 ^ 62) (ti_t <$> prev :: infos) ->
  ti_offset prev + zsum ((fun t => GGML_PAD (ggml_nbytes t) al) <$> (ti_t <$> prev :: infos)) <= 2 ^ 62 ->
  offsets_from al (ti_offset prev) (prev :: update_offsets al prev infos) /\ ti_t <$> update_offsets al prev infos = ti_t <$> infos.
Proof using Hk.
  induction infos as [|ti infos IH]; intros prev Ho Hn Hs.
  - rewrite !fmap_cons, zsum_cons in Hs. cbn in Hs. apply Forall_cons in Hn as [Hn _]. cbn. split; [|done]. split; [done|]. split; [done|]. lia.
  - rewrite fmap_cons in Hn. apply Forall_cons in Hn as [Hp Hn]. rewrite (fmap_cons ti_t prev), fmap_cons, zsum_cons in Hs. cbv beta in Hs. cbn [update_offsets].
    destruct (pad_nbytes k Hk (ti_t prev) Hp) as (E & Hpad & _). pose proof (nbytes_nonneg (ti_t prev)). pose proof (pads_nonneg _ Hn) as H0.
    assert (Enext : next_offset al prev = ti_offset prev + GGML_PAD (ggml_nbytes (ti_t prev)) al) by (unfold next_offset; apply u64_small; unfold SIZE_MAX; lia).
    set (ti' := {| ti_t := ti_t ti; ti_offset := next_offset al prev |}). destruct (IH ti') as [H1 H2].
    + cbn. rewrite Enext. lia.
    + exact Hn.
    + cbn [ti_offset ti']. rewrite Enext. change (ti_t <$> ti' :: infos) with (ti_t <$> ti :: infos). lia.
    + split; [|by rewrite fmap_cons, H2]. split; [done|]. split; [done|]. cbn [ti_offset ti'] in H1. by rewrite Enext in H1.
Qed.
End offsets.

(** * The specification of the edits *)

Inductive gguf_edit : Type :=
  | SetVal (key : bytes) (type val : Z)
  | SetStr (key val : bytes)
  | SetArrData (key : bytes) (type : Z) (data : bytes) (n : Z)
  | SetArrStr (key : bytes) (data : list bytes)
  | SetKv (src : gguf_context)
  | RemoveKey (key : bytes)
  | AddTensor (tensor : ggml_tensor)
  | SetTensorType (name : bytes) (type : Z)
  | SetTensorData (name : bytes) (data : option Z).

Definition run_edit (ctx : gguf_context) (e : gguf_edit) : res gguf_context :=
  match e with
  | SetVal key type val => set_scalar ctx key type val
  | SetStr key val => gguf_set_val_str ctx key val
  | SetArrData key type data n => gguf_set_arr_data ctx key type data n
  | SetArrStr key data => gguf_set_arr_str ctx key data
  | SetKv src => gguf_set_kv ctx src
  | RemoveKey key => Ok (gguf_remove_key ctx key).1
  | AddTensor tensor => gguf_add_tensor ctx tensor
  | SetTensorType name type => gguf_set_tensor_type ctx name type
  | SetTensorData name data => gguf_set_tensor_data ctx name data
  end.

(** The pairs that are stored. *)
Definition scalar_pair (key : bytes) (type val : Z) : gguf_kv :=
  {| kv_key := key; kv_is_array := false; kv_type := type; kv_data := le_bytes (Z.to_nat (gguf_type_size type)) val; kv_data_string := [] |}.

Definition text_pair (key val : bytes) : gguf_kv :=
  {| kv_key := key; kv_is_array := false; kv_type := GGUF_TYPE_STRING; kv_data := []; kv_data_string := [val] |}.

Definition array_pair (key : bytes) (type : Z) (data : bytes) : gguf_kv :=
  {| kv_key := key; kv_is_array := true; kv_type := type; kv_data := data; kv_data_string := [] |}.

Definition texts_pair (key : bytes) (data : list bytes) : gguf_kv :=
  {| kv_key := key; kv_is_array := true; kv_type := GGUF_TYPE_STRING; kv_data := []; kv_data_string := data |}.

(** A copy is cut at the first null of each string. *)
Definition copied (kv : gguf_kv) : gguf_kv :=
  {| kv_key := kv_key kv; kv_is_array := kv_is_array kv; kv_type := kv_type kv; kv_data := kv_data kv; kv_data_string := c_str <$> kv_data_string kv |}.

Definition edit_map (e : gguf_edit) (m : gmap bytes gguf_kv) : gmap bytes gguf_kv :=
  match e with
  | SetVal key type val => <[key := scalar_pair key type val]> m
  | SetStr key val => <[key := text_pair key val]> m
  | SetArrData key type data n => <[key := array_pair key type (take (Z.to_nat (n * gguf_type_size type)) data)]> m
  | SetArrStr key data => <[key := texts_pair key data]> m
  | SetKv src => (copied <$> kv_map (gc_kv src)) ∪ m
  | RemoveKey key => delete key m
  | _ => m
  end.

Definition edit_tensor (name : bytes) (f : ggml_tensor -> ggml_tensor) (t : ggml_tensor) : ggml_tensor :=
  if decide (t_name t = name) then f t else t.

Definition dense (type : Z) (t : ggml_tensor) : ggml_tensor :=
  with_type t type (dense_nb (ggml_type_size type) (ggml_blck_size type) (t_ne t)).

Definition edit_tensors (e : gguf_edit) (ts : list ggml_tensor) : list ggml_tensor :=
  match e with
  | AddTensor tensor => ts ++ [tensor]
  | SetTensorType name type => edit_tensor name (dense type) <$> ts
  | SetTensorData name data => edit_tensor name (fun t => with_data t data) <$> ts
  | _ => ts
  end.

(** A context that can be written, of which the keys are C strings. *)
Record gguf_built (ctx : gguf_context) : Prop := {
  gb_ok   : gguf_ok ctx;
  gb_keys : Forall (fun kv => c_string (kv_key kv)) (gc_kv ctx)
}.

(** The arguments of an edit. The alignment of the context is not changed by the setters,
    so a pair that names another one would contradict it. *)
Definition edit_fits (ctx : gguf_context) (e : gguf_edit) : Prop :=
  match e with
  | SetVal key type val => c_string key /\ 0 < gguf_type_size type /\ (type = GGUF_TYPE_BOOL -> val = 0 \/ val = 1) /\
      (key = GGUF_KEY_GENERAL_ALIGNMENT -> val = gc_alignment ctx)
  | SetStr key _ | SetArrStr key _ => c_string key
  | SetArrData key type data n => c_string key /\ 0 < gguf_type_size type /\ 0 <= n /\ n * gguf_type_size type < 2 ^ 64 /\
      n * gguf_type_size type <= zlen data /\ (type = GGUF_TYPE_BOOL -> Forall (fun b => b = 0 \/ b = 1) data)
  | SetKv src => gguf_built src /\ Forall (fun kv => Forall byte_ok (kv_data kv) /\ zlen (kv_data kv) < 2 ^ 64) (gc_kv src) /\
      kv_map (gc_kv src) !! GGUF_KEY_GENERAL_ALIGNMENT = None
  | RemoveKey key => c_string key /\ (key = GGUF_KEY_GENERAL_ALIGNMENT -> gc_alignment ctx = GGUF_DEFAULT_ALIGNMENT)
  | AddTensor tensor => tensor_ok tensor /\ sizes_fit (gc_alignment ctx) (edit_tensors e (tensors ctx))
  | SetTensorType name type => c_string name /\ 0 <= type < GGML_TYPE_COUNT /\ 0 < ggml_blck_size type /\
      sizes_fit (gc_alignment ctx) (edit_tensors e (tensors ctx))
  | SetTensorData name _ => c_string name
  end.

Definition aborts (e : fault) : Prop := e = Abort.

(** What an edit promises. *)
Record edited (ctx : gguf_context) (e : gguf_edit) (ctx' : gguf_context) : Prop := {
  ed_built   : gguf_built ctx';
  ed_map     : kv_map (gc_kv ctx') = edit_map e (kv_map (gc_kv ctx));
  ed_tensors : tensors ctx' = edit_tensors e (tensors ctx);
  ed_align   : gc_alignment ctx' = gc_alignment ctx
}.

(** * The pairs *)

Lemma built_keys ctx : gguf_built ctx -> keys_ok (gc_kv ctx).
Proof. intros [Hok Hk]. split; [apply Hok|done]. Qed.

(** A context whose pairs are replaced. *)
Lemma built_kvs ctx kvs : gguf_built ctx -> keys_ok kvs -> Forall kv_ok kvs -> map_alignment (kv_map kvs) = map_alignment (kv_map (gc_kv ctx)) ->
  gguf_built (with_kv ctx kvs).
Proof.
  intros Hb Hk Hkv Hal. pose proof (built_keys ctx Hb) as Hk0. destruct Hb as [[H1 H2 H3 H4 H5 H6 H7] _]. destruct Hk as [Hk1 Hk2].
  split; [|done]. constructor; cbn [gc_version gc_kv gc_info gc_alignment with_kv]; try done. rewrite (stored_alignment_map kvs) by done.
  rewrite Hal, <- stored_alignment_map by done. done.
Qed.

Lemma built_alignment ctx : gguf_built ctx -> map_alignment (kv_map (gc_kv ctx)) = Ok (gc_alignment ctx).
Proof. intros Hb. rewrite <- stored_alignment_map by by apply built_keys. apply Hb. Qed.

Lemma insert_alignment ctx kv : gguf_built ctx -> (kv_key kv = GGUF_KEY_GENERAL_ALIGNMENT -> u32_of kv = Ok (gc_alignment ctx)) ->
  map_alignment (<[kv_key kv := kv]> (kv_map (gc_kv ctx))) = map_alignment (kv_map (gc_kv ctx)).
Proof.
  intros Hb Hkv. unfold map_alignment at 1. destruct (decide (kv_key kv = GGUF_KEY_GENERAL_ALIGNMENT)) as [E|Hne].
  - rewrite E, lookup_insert_eq, (built_alignment ctx Hb). by apply Hkv.
  - by rewrite lookup_insert_ne.
Qed.

(** The step that all setters share. *)
Lemma emplace_edited ctx e kv : gguf_built ctx -> c_string (kv_key kv) -> kv_ok kv -> (kv_key kv = GGUF_KEY_GENERAL_ALIGNMENT -> u32_of kv = Ok (gc_alignment ctx)) ->
  edit_map e (kv_map (gc_kv ctx)) = <[kv_key kv := kv]> (kv_map (gc_kv ctx)) -> edit_tensors e (tensors ctx) = tensors ctx ->
  post (emplace_kv ctx (kv_key kv) (Ok kv)) (edited ctx e) aborts.
Proof.
  intros Hb Hc Hkv Hal Em Et. destruct (emplace_spec ctx kv (built_keys ctx Hb) Hc) as (kvs' & -> & Hk & Hm & Hall). cbn [post].
  split; [|by rewrite Em|by rewrite Et|done]. apply built_kvs; [done|done|apply Hall; [apply Hb|done]|]. rewrite Hm. by apply insert_alignment.
Qed.

Lemma make_kv_cases key is_array type data strings : 
  make_kv key is_array type data strings = Ok {| kv_key := key; kv_is_array := is_array; kv_type := type; kv_data := data; kv_data_string := strings |} /\ key <> [] \/
  make_kv key is_array type data strings = Err Abort.
Proof. unfold make_kv, ggml_assert. case_bool_decide; [by right|by left]. Qed.

Lemma emplace_abort ctx key P : post (emplace_kv ctx key (Err Abort)) P aborts.
Proof. done. Qed.

Lemma check_reserved key type val : gguf_check_reserved_keys key type val = Ok tt /\ (key = GGUF_KEY_GENERAL_ALIGNMENT -> type = Some GGUF_TYPE_UINT32) \/
  gguf_check_reserved_keys key type val = Err Abort.
Proof.
  unfold gguf_check_reserved_keys, ggml_assert. case_bool_decide; [|by left]. case_bool_decide; [|by right]. destruct (power_of_2 val); [by left|by right].
Qed.

Lemma scalar_pair_ok key type val : key <> [] -> 0 < gguf_type_size type -> (type = GGUF_TYPE_BOOL -> val = 0 \/ val = 1) -> kv_ok (scalar_pair key type val).
Proof.
  intros Hk Hs Hb. destruct (type_size_range type) as [_ Ht]. destruct (Ht Hs) as (_ & Hns & _).
  assert (El : zlen (le_bytes (Z.to_nat (gguf_type_size type)) val) = gguf_type_size type) by (rewrite zlen_le_bytes; lia). constructor; cbn; [done| |].
  - right. unfold kv_count. cbn. rewrite (proj2 (Z.eqb_neq _ _)) by done. rewrite El. by apply Z.div_same; lia.
  - right. rewrite El. split; [done|]. split; [apply Z.divide_refl|]. split; [done|]. intros ->. destruct (Hb eq_refl) as [->| ->]; (apply Forall_singleton; by auto).
Qed.

Lemma u32_scalar key val : 0 <= val < 2 ^ 32 -> u32_of (scalar_pair key GGUF_TYPE_UINT32 val) = Ok val.
Proof.
  intros Hv. unfold u32_of, get_ne, get_val. cbn [scalar_pair kv_type kv_data kv_is_array]. change (gguf_type_size GGUF_TYPE_UINT32) with 4. change (Z.to_nat 4) with 4%nat.
  pose proof (zlen_le_bytes 4 val) as El. change (Z.of_nat 4) with 4 in El. rewrite El.
  change (Ok (le_value (take 4 (drop 0 (le_bytes 4 val)))) = Ok val). rewrite drop_0, take_ge by (unfold zlen in El; lia).
  rewrite le_value_bytes. f_equal. by apply Z.mod_small.
Qed.

Lemma set_scalar_edited ctx key type val : gguf_built ctx -> edit_fits ctx (SetVal key type val) -> post (set_scalar ctx key type val) (edited ctx (SetVal key type val)) aborts.
Proof.
  intros Hb (Hc & Hs & Hbool & Hal). unfold set_scalar. destruct (check_reserved key (Some type) val) as [[-> Htype]| ->]; [|done]. cbn [mbind res_bind].
  unfold kv_value. destruct (make_kv_cases key false type (le_bytes (Z.to_nat (gguf_type_size type)) val) []) as [[-> Hk]| ->]; [|done].
  apply (emplace_edited ctx _ (scalar_pair key type val)); [done|done|by apply scalar_pair_ok| |done|done].
  cbn [scalar_pair kv_key]. intros E. specialize (Htype E). injection Htype as ->. rewrite (Hal E). apply u32_scalar. destruct Hb as [Hok _]. destruct (go_align ctx Hok) as (_ & _ & Hr). done.
Qed.

Lemma set_str_edited ctx key val : gguf_built ctx -> c_string key -> post (gguf_set_val_str ctx key val) (edited ctx (SetStr key val)) aborts.
Proof.
  intros Hb Hc. unfold gguf_set_val_str. destruct (check_reserved key (Some GGUF_TYPE_STRING) 0) as [[-> Htype]| ->]; [|done]. cbn [mbind res_bind].
  unfold kv_string. destruct (make_kv_cases key false GGUF_TYPE_STRING [] [val]) as [[-> Hk]| ->]; [|done].
  apply (emplace_edited ctx _ (text_pair key val)); [done|done| | |done|done].
  - constructor; cbn; [done|by right|by left].
  - cbn. intros E. by specialize (Htype E).
Qed.

Lemma set_arr_str_edited ctx key data : gguf_built ctx -> c_string key -> post (gguf_set_arr_str ctx key data) (edited ctx (SetArrStr key data)) aborts.
Proof.
  intros Hb Hc. unfold gguf_set_arr_str. destruct (check_reserved key None 0) as [[-> Htype]| ->]; [|done]. cbn [mbind res_bind].
  unfold kv_strings. destruct (make_kv_cases key true GGUF_TYPE_STRING [] data) as [[-> Hk]| ->]; [|done].
  apply (emplace_edited ctx _ (texts_pair key data)); [done|done| | |done|done].
  - constructor; cbn; [done|by left|by left].
  - cbn. intros E. by specialize (Htype E).
Qed.

Lemma zlen_take {A} (l : list A) n : 0 <= n <= zlen l -> zlen (take (Z.to_nat n) l) = n.
Proof. intros Hn. unfold zlen in *. rewrite length_take. lia. Qed.

Lemma array_pair_ok key type data n : key <> [] -> 0 < gguf_type_size type -> zlen data = n * gguf_type_size type ->
  (type = GGUF_TYPE_BOOL -> Forall (fun b => b = 0 \/ b = 1) data) -> kv_ok (array_pair key type data).
Proof. intros Hk Hs Hl Hb. constructor; cbn; [done|by left|]. right. split; [done|]. split; [by exists n|done]. Qed.

Lemma set_arr_data_edited ctx key type data n : gguf_built ctx -> edit_fits ctx (SetArrData key type data n) ->
  post (gguf_set_arr_data ctx key type data n) (edited ctx (SetArrData key type data n)) aborts.
Proof.
  intros Hb (Hc & Hs & Hn & Hsize & Hlen & Hbool). unfold gguf_set_arr_data. destruct (check_reserved key None 0) as [[-> Htype]| ->]; [|done]. cbn [mbind res_bind].
  assert (H0 : 0 <= n * gguf_type_size type) by nia. rewrite u64_small by (unfold SIZE_MAX; lia). rewrite (proj2 (Z.leb_le _ _)) by done.
  set (d := take (Z.to_nat (n * gguf_type_size type)) data). assert (El : zlen d = n * gguf_type_size type) by (by apply zlen_take).
  unfold kv_values. destruct (make_kv_cases key true GGUF_TYPE_INT8 d []) as [[-> Hk]| ->]; [|done]. cbn [mbind res_bind]. unfold cast. cbn [kv_data].
  rewrite (proj2 (Z.eqb_neq _ _)) by lia. rewrite El, Z.mod_mul by lia. cbn [Z.eqb ggml_assert mbind res_bind kv_key kv_is_array kv_data_string].
  apply (emplace_edited ctx _ (array_pair key type d)); [done|done| | |done|done].
  - apply (array_pair_ok _ _ _ n); [done|done|done|]. intros Et. by apply Forall_take, Hbool.
  - cbn. intros E. by specialize (Htype E).
Qed.

Lemma remove_key_edited ctx key : gguf_built ctx -> edit_fits ctx (RemoveKey key) -> post (Ok (gguf_remove_key ctx key).1) (edited ctx (RemoveKey key)) aborts.
Proof.
  intros Hb [Hc Hal]. destruct (remove_key_spec ctx key (built_keys ctx Hb) Hc) as (kvs' & E & [Hm Hk Hall]). rewrite E. cbn [post].
  split; [|done|done|done]. apply built_kvs; [done|done|apply Hall, Hb|]. rewrite (built_alignment ctx Hb), Hm. unfold map_alignment.
  destruct (decide (key = GGUF_KEY_GENERAL_ALIGNMENT)) as [Ek|Hne].
  - rewrite Ek, lookup_delete_eq. by rewrite Hal.
  - rewrite lookup_delete_ne by done. apply (built_alignment ctx Hb).
Qed.

(** ** Copying the pairs of another context *)

Lemma le_bytes_value b : Forall byte_ok b -> le_bytes (length b) (le_value b) = b.
Proof.
  induction 1 as [|c b Hc _ IH]; [done|]. unfold byte_ok in Hc. cbn [length le_bytes le_value]. rewrite <- (Z.mul_comm (le_value b) 256).
  change 255 with (Z.ones 8). rewrite Z.land_ones, Z.shiftr_div_pow2 by lia. change (2 ^ 8) with 256.
  rewrite Z.mod_add, Z.mod_small, Z.div_add, Z.div_small by lia. rewrite Z.add_0_l. by rewrite IH.
Qed.

(** What copying one pair does. *)
Record kv_copied (ctx : gguf_context) (kv : gguf_kv) (ctx' : gguf_context) : Prop := {
  cp_built   : gguf_built ctx';
  cp_map     : kv_map (gc_kv ctx') = <[kv_key kv := copied kv]> (kv_map (gc_kv ctx));
  cp_tensors : tensors ctx' = tensors ctx;
  cp_align   : gc_alignment ctx' = gc_alignment ctx
}.

Lemma edited_copied ctx e kv m : post m (edited ctx e) aborts -> edit_map e (kv_map (gc_kv ctx)) = <[kv_key kv := copied kv]> (kv_map (gc_kv ctx)) ->
  edit_tensors e (tensors ctx) = tensors ctx -> post m (kv_copied ctx kv) aborts.
Proof. intros Hm E1 E2. eapply post_mono; [exact Hm| |done]. intros ctx' [H1 H2 H3 H4]. by split; [|rewrite <- E1|rewrite <- E2|]. Qed.

Definition copyable (kv : gguf_kv) : Prop :=
  c_string (kv_key kv) /\ kv_ok kv /\ Forall byte_ok (kv_data kv) /\ zlen (kv_data kv) < 2 ^ 64 /\ kv_key kv <> GGUF_KEY_GENERAL_ALIGNMENT.

Lemma copy_texts ctx kv : gguf_built ctx -> copyable kv -> kv_type kv = GGUF_TYPE_STRING -> post (set_kv_from ctx kv) (kv_copied ctx kv) aborts.
Proof.
  intros Hb (Hc & Hok & Hby & Hlen & Hal) Et. pose proof (get_ne_ok kv Hok) as Ene. unfold set_kv_from. cbv zeta. rewrite (c_str_id (kv_key kv)) by done.
  destruct Hok as [Hk Hcount Hval]. destruct Hval as [[_ Ed]|(Hs & _)]; [|rewrite Et in Hs; done]. rewrite Et. destruct (kv_is_array kv) eqn:Ea; cbn [negb Z.eqb].
  - rewrite Ene. cbn [mbind res_bind]. change (GGUF_TYPE_STRING =? GGUF_TYPE_STRING) with true. cbn iota.
    eapply (edited_copied ctx (SetArrStr (kv_key kv) (c_str <$> kv_data_string kv))); [by apply set_arr_str_edited| |done].
    cbn [edit_map]. f_equal. unfold copied, texts_pair. by rewrite Ea, Et, Ed.
  - change (GGUF_TYPE_STRING =? GGUF_TYPE_STRING) with true. cbn iota. destruct Hcount as [?|H1]; [done|]. unfold kv_count in H1. rewrite Et in H1. change (GGUF_TYPE_STRING =? GGUF_TYPE_STRING) with true in H1. cbn iota in H1.
    destruct (kv_data_string kv) as [|s [|s' l]] eqn:Es; [done| |rewrite !zlen_cons in H1; pose proof (zlen_nonneg l); lia].
    change 0 with (Z.of_nat 0) at 1. rewrite (get_val_text kv 0 s Et) by by rewrite Es. cbn [mbind res_bind].
    eapply (edited_copied ctx (SetStr (kv_key kv) (c_str s))); [by apply set_str_edited| |done].
    cbn [edit_map]. f_equal. unfold copied, text_pair. by rewrite Ea, Et, Ed, Es.
Qed.

Lemma copy_values ctx kv : gguf_built ctx -> copyable kv -> kv_type kv <> GGUF_TYPE_STRING -> post (set_kv_from ctx kv) (kv_copied ctx kv) aborts.
Proof.
  intros Hb (Hc & Hok & Hby & Hlen & Hal) Et. pose proof (get_ne_ok kv Hok) as Ene. unfold set_kv_from. cbv zeta. rewrite (c_str_id (kv_key kv)) by done.
  destruct Hok as [Hk Hcount Hval]. destruct Hval as [[? _]|(Hs & Hd & Ed & Hbool)]; [done|]. apply Z.eqb_neq in Et. rewrite Et, (proj2 (Z.eqb_neq _ _)) by lia.
  unfold kv_count in *. rewrite Et in Hcount, Ene. destruct (kv_is_array kv) eqn:Ea; cbn [negb].
  - rewrite Ene. cbn [mbind res_bind]. pose proof Hd as [n En]. rewrite En, Z.div_mul by lia.
    eapply (edited_copied ctx (SetArrData (kv_key kv) (kv_type kv) (kv_data kv) n)); [apply set_arr_data_edited; [done|]| |done].
    + pose proof (zlen_nonneg (kv_data kv)). cbn. splits; try done; [nia|lia|lia].
    + cbn [edit_map]. f_equal. unfold copied, array_pair. rewrite Ea, Ed. f_equal. rewrite <- En. unfold zlen. by rewrite Nat2Z.id, firstn_all.
  - destruct Hcount as [?|H1]; [done|]. assert (El : zlen (kv_data kv) = gguf_type_size (kv_type kv)) by (destruct Hd as [n En]; rewrite En, Z.div_mul in H1 by lia; rewrite En, H1; lia).
    unfold get_val. rewrite Z.eqb_refl. cbn [ggml_assert mbind res_bind]. rewrite (proj2 (Z.eqb_neq _ _)) by lia. rewrite El, Z.mod_same by lia. cbn [Z.eqb ggml_assert mbind res_bind].
    rewrite (proj2 (Z.leb_le _ _)) by lia. cbn [ggml_assert mbind res_bind]. change (Z.to_nat (0 * _)) with 0%nat. rewrite drop_0, take_ge by (unfold zlen in El; lia).
    eapply (edited_copied ctx (SetVal (kv_key kv) (kv_type kv) (le_value (kv_data kv)))); [apply set_scalar_edited; [done|]| |done].
    + cbn. splits; try done. intros Hty. specialize (Hbool Hty). rewrite Hty in El. change (gguf_type_size GGUF_TYPE_BOOL) with 1 in El.
      destruct (kv_data kv) as [|b [|b' l]]; [done| |rewrite !zlen_cons in El; pose proof (zlen_nonneg l); lia]. apply Forall_singleton in Hbool as [-> | ->]; [by left|by right].
    + cbn [edit_map]. f_equal. unfold copied, scalar_pair. rewrite Ea, Ed. f_equal. rewrite <- El. unfold zlen. by rewrite Nat2Z.id, le_bytes_value.
Qed.

Lemma set_kv_edited ctx src : gguf_built ctx -> edit_fits ctx (SetKv src) -> post (gguf_set_kv ctx src) (edited ctx (SetKv src)) aborts.
Proof.
  intros Hb (Hsrc & Hdata & Hal). pose proof (built_keys src Hsrc) as [Hnd Hcs]. apply kv_map_none in Hal.
  assert (Hcopy : Forall copyable (gc_kv src)).
  { apply Forall_forall. intros kv Hin. rewrite Forall_forall in Hcs, Hdata. destruct (Hdata kv Hin). pose proof (go_kvs src (gb_ok src Hsrc)) as Hkv. rewrite Forall_forall in Hkv.
    unfold copyable. splits; [by apply Hcs|by apply Hkv|done|done|]. intros E. apply Hal. rewrite <- E. by apply list_elem_of_fmap_2. }
  set (I := fun (l : list gguf_kv) c => gguf_built c /\ kv_map (gc_kv c) = (copied <$> kv_map l) ∪ kv_map (gc_kv ctx) /\ tensors c = tensors ctx /\ gc_alignment c = gc_alignment ctx).
  assert (Hgo : forall l2 l1 c, gc_kv src = l1 ++ l2 -> I l1 c -> post (foldM set_kv_from c l2) (I (gc_kv src)) aborts).
  { induction l2 as [|kv l2 IH]; intros l1 c El Hc; [cbn [foldM post]; by rewrite El, app_nil_r|]. cbn [foldM]. destruct Hc as (H1 & H2 & H3 & H4).
    assert (Hkv : copyable kv) by (rewrite El in Hcopy; apply Forall_app in Hcopy as [_ Hcopy]; by apply Forall_cons in Hcopy as [? _]).
    assert (Hnew : kv_key kv ∉ (kv_key <$> l1)).
    { rewrite El, fmap_app, fmap_cons in Hnd. apply NoDup_app in Hnd as (_ & Hn & _). intros Hin. apply (Hn _ Hin). by left. }
    eapply (post_bind _ _ (kv_copied c kv)); [destruct (decide (kv_type kv = GGUF_TYPE_STRING)); [by apply copy_texts|by apply copy_values]|].
    intros c' [C1 C2 C3 C4]. apply (IH (l1 ++ [kv])); [by rewrite El, <- app_assoc|]. split; [done|]. split; [|split; congruence].
    rewrite C2, H2, kv_map_snoc, fmap_insert by done. by rewrite insert_union_l. }
  eapply post_mono; [apply (Hgo (gc_kv src) [] ctx); [done|]| |done].
  - split; [done|]. split; [|done]. unfold kv_map at 2. cbn. by rewrite fmap_empty, (left_id_L ∅ (∪)).
  - intros c (H1 & H2 & H3 & H4). by split.
Qed.

(** * The tensors *)

Lemma built_infos ctx infos : gguf_built ctx -> Forall tensor_ok (ti_t <$> infos) -> NoDup (t_name <$> (ti_t <$> infos)) ->
  offsets_from (gc_alignment ctx) 0 infos -> gguf_built (with_info ctx infos).
Proof.
  intros [[H1 H2 H3 H4 H5 H6 H7] Hk] Ht Hn Ho. split; [|done]. constructor; cbn [gc_version gc_kv gc_info gc_alignment with_info]; try done.
  - rewrite Forall_fmap in Ht. eapply Forall_impl; [exact Ht|]. intros ti Hti. by apply info_ok_tensor.
  - by rewrite <- list_fmap_compose in Hn.
Qed.

Lemma built_log ctx : gguf_built ctx -> exists k, 0 <= k <= 62 /\ gc_alignment ctx = 2 ^ k.
Proof.
  intros [Hok _]. destruct (go_align ctx Hok) as (_ & Hp & Hr). destruct (power_of_2_ok _ Hp ltac:(lia)) as [Hal Hpos]. exists (Z.log2 (gc_alignment ctx)).
  split; [|done]. split; [apply Z.log2_nonneg|]. apply Z.lt_succ_r, Z.log2_lt_pow2; lia.
Qed.

Lemma built_tensors_ok ctx : gguf_built ctx -> Forall tensor_ok (tensors ctx) /\ NoDup (t_name <$> tensors ctx).
Proof.
  intros [Hok _]. unfold tensors. split; [|rewrite <- list_fmap_compose; apply Hok].
  rewrite Forall_fmap. eapply Forall_impl; [apply Hok|]. intros ti. apply info_ok_tensor.
Qed.

Lemma find_tensor_spec ctx name : gguf_built ctx -> c_string name ->
  (gguf_find_tensor ctx name = -1 /\ name ∉ (t_name <$> tensors ctx)) \/
  (exists j ti, gc_info ctx !! j = Some ti /\ t_name (ti_t ti) = name /\ gguf_find_tensor ctx name = Z.of_nat j).
Proof.
  intros Hb Hn. destruct (built_tensors_ok ctx Hb) as [Ht _]. unfold gguf_find_tensor, tensors in *. rewrite <- list_fmap_compose.
  change (t_name ∘ ti_t) with ti_name. assert (Hcs : Forall c_string (ti_name <$> gc_info ctx)).
  { apply Forall_fmap. apply (Forall_fmap ti_t) in Ht. eapply Forall_impl; [exact Ht|]. intros ti [[_ Hcs] _ _ _]. exact Hcs. }
  destruct (find_from_strings name _ Hn Hcs) as [[E Hni]|(j & Hj & E)]; [by left|right].
  apply list_lookup_fmap_Some in Hj as (ti & Eti & Hti). exists j, ti. by rewrite E.
Qed.

Lemma edit_tensor_other name f (ts : list ggml_tensor) : name ∉ (t_name <$> ts) -> edit_tensor name f <$> ts = ts.
Proof.
  induction ts as [|t ts IH]; intros Hn; [done|]. rewrite fmap_cons. apply not_elem_of_cons in Hn as [Hne Hn]. rewrite IH by done.
  unfold edit_tensor. by rewrite decide_False.
Qed.

(** The tensor of a name is edited in its place. *)
Lemma edit_tensor_at f infos j ti : NoDup (t_name <$> (ti_t <$> infos)) -> infos !! j = Some ti ->
  edit_tensor (t_name (ti_t ti)) f <$> (ti_t <$> infos) = (ti_t <$> take j infos) ++ f (ti_t ti) :: (ti_t <$> drop (S j) infos).
Proof.
  intros Hnd Hj. rewrite <- (take_drop_middle _ _ _ Hj), !fmap_app, !fmap_cons in Hnd. apply NoDup_app in Hnd as (_ & H1 & H2). apply NoDup_cons in H2 as [H2 _].
  rewrite <- (take_drop_middle _ _ _ Hj) at 1. rewrite !fmap_app, !fmap_cons. f_equal; [|f_equal].
  - apply edit_tensor_other. intros Hin. apply (H1 _ Hin). by left.
  - unfold edit_tensor. by rewrite decide_True.
  - by apply edit_tensor_other.
Qed.

Lemma edit_names name f (ts : list ggml_tensor) : (forall t, t_name (f t) = t_name t) -> t_name <$> (edit_tensor name f <$> ts) = t_name <$> ts.
Proof.
  intros Hf. rewrite <- list_fmap_compose. apply list_fmap_ext. intros i t _. unfold compose, edit_tensor. destruct (decide _); [apply Hf|done].
Qed.

Lemma edit_all name f (ts : list ggml_tensor) (P : ggml_tensor -> Prop) : Forall P ts -> (forall t, t ∈ ts -> t_name t = name -> P t -> P (f t)) -> Forall P (edit_tensor name f <$> ts).
Proof.
  intros HP Hf. rewrite Forall_fmap. rewrite Forall_forall in *. intros t Hin. unfold compose, edit_tensor. destruct (decide _); auto.
Qed.

Lemma add_tensor_edited ctx tensor : gguf_built ctx -> edit_fits ctx (AddTensor tensor) -> post (gguf_add_tensor ctx tensor) (edited ctx (AddTensor tensor)) aborts.
Proof.
  intros Hb [Ht Hfit]. pose proof Ht as [[_ Hcs] _ _ _]. destruct (built_tensors_ok ctx Hb) as [Hts Hnd]. destruct (built_log ctx Hb) as (k & Hk & Hal).
  unfold gguf_add_tensor. destruct (find_tensor_spec ctx (t_name tensor) Hb Hcs) as [[-> Hnew]|(j & ti & Hj & En & ->)].
  2: { rewrite (proj2 (Z.eqb_neq _ _)) by lia. done. }
  cbn [Z.eqb Pos.eqb ggml_assert mbind res_bind post]. set (offset := match last (gc_info ctx) with None => 0 | Some ti => _ end).
  pose proof (go_offsets ctx (gb_ok ctx Hb)) as Hoff. rewrite Hal in Hoff. destruct Hfit as [Hn Hs]. cbn [edit_tensors] in Hn, Hs. rewrite Hal in Hs.
  rewrite fmap_app, zsum_app in Hs. cbn in Hs. apply Forall_app in Hn as [_ Hn]. apply Forall_cons in Hn as [Hn _]. destruct (pad_nbytes k Hk tensor Hn) as (E & Hp & _).
  pose proof (nbytes_nonneg tensor). unfold tensors in Hs. rewrite <- data_end_tensors in Hs.
  assert (Eo : offset = data_end (2 ^ k) (gc_info ctx)).
  { unfold offset. rewrite Hal. destruct (gc_info ctx) as [|ti infos _] eqn:Ei using rev_ind; [done|]. rewrite last_snoc.
    pose proof (offsets_bound k Hk _ _ Hoff) as Hbd. apply (offsets_app k Hk) in Hoff as [_ (Eti & _ & _)]. rewrite Z.add_0_l in Eti. unfold next_offset. rewrite Eti. unfold data_end in *. rewrite fmap_app, zsum_app in *. cbn in *. rewrite Z.add_0_r in *.
    apply u64_small. unfold SIZE_MAX. lia. }
  split; [|done| |done].
  - apply built_infos; [done| | |].
    + rewrite fmap_app. by apply Forall_app_2; [|constructor].
    + rewrite !fmap_app. apply NoDup_app. splits; [done| |apply NoDup_singleton]. intros x Hx ->%list_elem_of_singleton. done.
    + rewrite Hal. apply (offsets_app k Hk). split; [done|]. rewrite Z.add_0_l. cbn. split; [done|]. split; [done|]. lia.
  - unfold tensors. cbn. by rewrite fmap_app.
Qed.

(** A tensor of which the type is changed. *)
Lemma dense_ok type t : 0 <= type < GGML_TYPE_COUNT -> 0 < ggml_blck_size type -> Z.rem (ne_at t 0) (ggml_blck_size type) = 0 -> tensor_ok t -> tensor_ok (dense type t).
Proof.
  intros Ht Hb Hr [H1 H2 H3 H4]. constructor; cbn; [done|done| |done]. split; [done|]. split; [done|]. apply Z.rem_divide; [lia|exact Hr].
Qed.

Lemma nodup_inj {A B} (f : A -> B) l x y : NoDup (f <$> l) -> x ∈ l -> y ∈ l -> f x = f y -> x = y.
Proof.
  intros Hnd [i Hi]%list_elem_of_lookup [j Hj]%list_elem_of_lookup E. assert (i = j) as ->; [|congruence].
  apply (NoDup_lookup _ _ _ (f x) Hnd); rewrite list_lookup_fmap; [by rewrite Hi|rewrite Hj; cbn; by rewrite E].
Qed.

Lemma vget_lookup {A} (l : list A) j x : l !! j = Some x -> vget l (Z.of_nat j) = Ok x.
Proof. intros Hj. apply vget_ok. by rewrite zlookup_nat. Qed.

Lemma set_type_edited ctx name type : gguf_built ctx -> edit_fits ctx (SetTensorType name type) ->
  post (gguf_set_tensor_type ctx name type) (edited ctx (SetTensorType name type)) aborts.
Proof.
  intros Hb (Hcs & Htype & Hblck & Hfit). destruct (built_tensors_ok ctx Hb) as [Hts Hnd]. destruct (built_log ctx Hb) as (k & Hk & Hal).
  unfold gguf_set_tensor_type. cbv zeta. destruct (find_tensor_spec ctx name Hb Hcs) as [[-> _]|(j & ti & Hj & <- & ->)]; [done|].
  rewrite (proj2 (Z.ltb_ge _ _)) by lia. rewrite (vget_lookup _ _ _ Hj). cbn [mbind res_bind]. rewrite (proj2 (Z.eqb_neq _ _)) by lia. unfold ggml_assert.
  destruct (Z.eqb_spec (Z.rem (ne_at (ti_t ti) 0) (ggml_blck_size type)) 0) as [Hrem|]; [|done]. cbn [mbind res_bind post]. rewrite Nat2Z.id.
  fold (dense type (ti_t ti)). set (ti' := {| ti_t := dense type (ti_t ti); ti_offset := ti_offset ti |}).
  pose proof (edit_tensor_at (dense type) (gc_info ctx) j ti Hnd Hj) as Ets. destruct Hfit as [Hn Hs]. cbn [edit_tensors] in Hn, Hs. unfold tensors in Hn, Hs. rewrite Ets in Hn, Hs. rewrite Hal in *.
  pose proof (go_offsets ctx (gb_ok ctx Hb)) as Hoff. rewrite Hal in Hoff. rewrite <- (take_drop_middle _ _ _ Hj) in Hoff. apply (offsets_app k Hk) in Hoff as [Hpre (Eo & Hnb & Hpost)].
  rewrite fmap_app, zsum_app, <- data_end_tensors in Hs. apply Forall_app in Hn as [Hn1 Hn2]. pose proof (pads_nonneg k Hk _ Hn1) as H0. rewrite <- data_end_tensors in H0.
  destruct (update_offsets_ok k Hk (drop (S j) (gc_info ctx)) ti') as [Hnew Et]; [cbn; lia|exact Hn2|cbn [ti_offset ti']; rewrite Eo; exact Hs|].
  assert (Ets' : ti_t <$> (take j (gc_info ctx) ++ ti' :: update_offsets (2 ^ k) ti' (drop (S j) (gc_info ctx))) = edit_tensor (t_name (ti_t ti)) (dense type) <$> tensors ctx).
  { rewrite fmap_app, fmap_cons, Et. unfold tensors. by rewrite Ets. }
  split; [|done|exact Ets'|done]. apply built_infos; [done| | |].
  - rewrite Ets'. apply edit_all; [done|]. intros t Hin Ename Ht. apply dense_ok; [done|done| |done].
    rewrite (nodup_inj t_name (tensors ctx) t (ti_t ti)); [done|done|done| |done]. apply list_elem_of_fmap_2. by eapply list_elem_of_lookup_2.
  - rewrite Ets'. by rewrite edit_names.
  - rewrite Hal. apply (offsets_app k Hk). split; [done|]. rewrite <- Eo. exact Hnew.
Qed.

Lemma set_data_edited ctx name data : gguf_built ctx -> edit_fits ctx (SetTensorData name data) ->
  post (gguf_set_tensor_data ctx name data) (edited ctx (SetTensorData name data)) aborts.
Proof.
  intros Hb Hcs. destruct (built_tensors_ok ctx Hb) as [Hts Hnd]. destruct (built_log ctx Hb) as (k & Hk & Hal).
  unfold gguf_set_tensor_data. cbv zeta. destruct (find_tensor_spec ctx name Hb Hcs) as [[-> _]|(j & ti & Hj & <- & ->)]; [done|].
  rewrite (proj2 (Z.ltb_ge _ _)) by lia. rewrite (vget_lookup _ _ _ Hj). cbn [mbind res_bind]. pose proof (lookup_lt_Some _ _ _ Hj) as Hlt.
  rewrite vset_at by (unfold zlen; lia). cbn [mbind res_bind post]. rewrite Nat2Z.id, insert_take_drop by done.
  set (f := fun t => with_data t data). set (ti' := {| ti_t := with_data (ti_t ti) data; ti_offset := ti_offset ti |}).
  assert (Ets : ti_t <$> (take j (gc_info ctx) ++ ti' :: drop (S j) (gc_info ctx)) = edit_tensor (t_name (ti_t ti)) f <$> tensors ctx).
  { unfold tensors. rewrite (edit_tensor_at f (gc_info ctx) j ti Hnd Hj). by rewrite fmap_app, fmap_cons. }
  split; [|done|exact Ets|done]. apply built_infos; [done| | |].
  - rewrite Ets. apply edit_all; [done|]. intros t _ _ [H1 H2 H3 H4]. by constructor.
  - rewrite Ets. by rewrite edit_names.
  - pose proof (go_offsets ctx (gb_ok ctx Hb)) as Hoff. rewrite Hal in *. rewrite <- (take_drop_middle _ _ _ Hj) in Hoff. apply (offsets_app k Hk) in Hoff as [Hpre Hpost].
    apply (offsets_app k Hk). split; [done|]. exact Hpost.
Qed.

(** An edit keeps the context well formed and does what it says. *)
Lemma run_edit_edited ctx e : gguf_built ctx -> edit_fits ctx e -> post (run_edit ctx e) (edited ctx e) aborts.
Proof.
  intros Hb He. destruct e; cbn [run_edit]; [by apply set_scalar_edited|by apply set_str_edited|by apply set_arr_data_edited|by apply set_arr_str_edited|
    by apply set_kv_edited|by apply remove_key_edited|by apply add_tensor_edited|by apply set_type_edited|by apply set_data_edited].
Qed.

(** ** Sequences of edits *)

Fixpoint edits_fit (ctx : gguf_context) (es : list gguf_edit) : Prop :=
  match es with
  | [] => True
  | e :: es => edit_fits ctx e /\ match run_edit ctx e with Ok ctx' => edits_fit ctx' es | Err _ => True end
  end.

Lemma init_built : gguf_built gguf_init_empty.
Proof.
  split; [|constructor]. constructor; cbn; [done|constructor|constructor|constructor|constructor|done|done].
Qed.

Lemma edits_built es : forall ctx, gguf_built ctx -> edits_fit ctx es -> post (foldM run_edit ctx es) gguf_built aborts.
Proof.
  induction es as [|e es IH]; intros ctx Hb Hes; [done|]. destruct Hes as [He Hes]. cbn [foldM]. pose proof (run_edit_edited ctx e Hb He) as Hstep.
  destruct (run_edit ctx e) as [ctx'|err]; cbn [post mbind res_bind] in *; [|done]. apply IH; [apply Hstep|done].
Qed.

(** * Setting and getting *)

(** A value that is set is what a look-up of its key gives. *)
Definition set_gets {A} (key : bytes) (set : A -> res gguf_context) (get : gguf_context -> Z -> res A) (P : A -> Prop) : Prop :=
  forall v, P v -> exists ctx', set v = Ok ctx' /\ gguf_built ctx' /\ get ctx' (gguf_find_key ctx' key) = Ok v.

Section set_get.
Context (ctx : gguf_context) (key : bytes) (Hb : gguf_built ctx) (Hc : c_string key) (Hne : key <> []) (Hna : key <> GGUF_KEY_GENERAL_ALIGNMENT).

Lemma not_reserved type val : gguf_check_reserved_keys key type val = Ok tt.
Proof using Hna. unfold gguf_check_reserved_keys. by rewrite bool_decide_eq_false_2. Qed.

(** The pair of the key after it was set. *)
Lemma emplaced_at kv : kv_key kv = key -> kv_ok kv -> exists ctx' j, emplace_kv ctx key (Ok kv) = Ok ctx' /\ gguf_built ctx' /\ gguf_find_key ctx' key = Z.of_nat j /\ kv_at ctx' (Z.of_nat j) = Ok kv.
Proof using Hb Hc Hna.
  intros Ek Hkv. destruct (emplace_spec ctx kv (built_keys ctx Hb) ltac:(by rewrite Ek)) as (kvs' & E & Hk & Hm & Hall). rewrite Ek in E.
  assert (Hb' : gguf_built (with_kv ctx kvs')).
  { apply built_kvs; [done|done|apply Hall; [apply Hb|done]|]. rewrite Hm. apply insert_alignment; [done|]. by rewrite Ek. }
  pose proof (find_key_spec (with_kv ctx kvs') key Hk Hc) as H. cbn [gc_kv with_kv] in H. rewrite Hm, Ek, lookup_insert_eq in H. destruct H as (j & Hj & Ef).
  exists (with_kv ctx kvs'), j. split; [done|]. split; [done|]. split; [done|]. by apply kv_at_ok.
Qed.

Lemma scalar_set_get type val : 0 < gguf_type_size type -> (type = GGUF_TYPE_BOOL -> val = 0 \/ val = 1) ->
  exists ctx', set_scalar ctx key type val = Ok ctx' /\ gguf_built ctx' /\
    get_scalar ctx' (gguf_find_key ctx' key) type = Ok (le_bytes (Z.to_nat (gguf_type_size type)) val).
Proof using Hb Hc Hne Hna.
  intros Hs Hbool. set (kv := scalar_pair key type val). assert (Hkv : kv_ok kv) by by apply scalar_pair_ok. destruct (emplaced_at kv eq_refl Hkv) as (ctx' & j & E & Hb' & Ef & Eat).
  exists ctx'. split; [|split; [done|]].
  - unfold set_scalar. rewrite not_reserved. cbn [mbind res_bind]. unfold kv_value, make_kv. by rewrite bool_decide_eq_false_2.
  - unfold get_scalar. rewrite Ef, Eat. cbn [mbind res_bind]. rewrite (get_ne_ok kv Hkv). cbn [mbind res_bind].
    assert (El : zlen (kv_data kv) = gguf_type_size type) by (cbn [kv scalar_pair kv_data]; rewrite zlen_le_bytes; lia). destruct (type_size_range type) as [_ Ht]. destruct (Ht Hs) as (_ & Hns & _).
    assert (Ec : kv_count kv = 1). { unfold kv_count. change (kv_type kv) with type. rewrite (proj2 (Z.eqb_neq type _)) by done. rewrite El. apply Z.div_same. lia. }
    rewrite Ec. cbn [Z.eqb Pos.eqb ggml_assert mbind res_bind]. unfold get_val. change (kv_type kv) with type. rewrite Z.eqb_refl, El. cbn [ggml_assert mbind res_bind].
    rewrite (proj2 (Z.eqb_neq _ _)), Z.mod_same by lia. cbn [Z.eqb ggml_assert mbind res_bind]. rewrite (proj2 (Z.leb_le _ _)) by lia. cbn [ggml_assert mbind res_bind].
    change (Z.to_nat (0 * _)) with 0%nat. rewrite drop_0, take_ge by (unfold zlen in El; lia). done.
Qed.

Lemma set_gets_unsigned type (n : nat) : gguf_type_size type = Z.of_nat n -> (0 < n)%nat -> type <> GGUF_TYPE_BOOL ->
  set_gets key (set_scalar ctx key type) (fun c i => v ← get_scalar c i type; Ok (le_value v)) (fun v => 0 <= v < 256 ^ Z.of_nat n).
Proof using Hb Hc Hne Hna.
  intros Hs Hn Hnb v Hv. destruct (scalar_set_get type v ltac:(lia) ltac:(done)) as (ctx' & E & Hb' & Eg). exists ctx'. split; [done|]. split; [done|].
  rewrite Eg. cbn [mbind res_bind]. rewrite Hs, Nat2Z.id, le_value_bytes. f_equal. by apply Z.mod_small.
Qed.

Lemma set_gets_signed type (n : nat) w : gguf_type_size type = Z.of_nat n -> (0 < n)%nat -> type <> GGUF_TYPE_BOOL -> 256 ^ Z.of_nat n = 2 ^ w -> 0 < w ->
  set_gets key (set_scalar ctx key type) (fun c i => v ← get_scalar c i type; Ok (wrap_s w (le_value v))) (fun v => - 2 ^ (w - 1) <= v < 2 ^ (w - 1)).
Proof using Hb Hc Hne Hna.
  intros Hs Hn Hnb Hw Hw0 v Hv. destruct (scalar_set_get type v ltac:(lia) ltac:(done)) as (ctx' & E & Hb' & Eg). exists ctx'. split; [done|]. split; [done|].
  rewrite Eg. cbn [mbind res_bind]. rewrite Hs, Nat2Z.id, le_value_bytes, Hw. f_equal. by apply wrap_s_mod.
Qed.

Lemma set_gets_bool : set_gets key (gguf_set_val_bool ctx key) gguf_get_val_bool (fun _ => True).
Proof using Hb Hc Hne Hna.
  intros v _. destruct (scalar_set_get GGUF_TYPE_BOOL (Z.b2z v)) as (ctx' & E & Hb' & Eg); [done|by destruct v; auto|]. exists ctx'. split; [done|]. split; [done|].
  unfold gguf_get_val_bool. rewrite Eg. by destruct v.
Qed.

Lemma set_gets_str : set_gets key (gguf_set_val_str ctx key) gguf_get_val_str c_string.
Proof using Hb Hc Hne Hna.
  intros v Hv. set (kv := text_pair key v). assert (Hkv : kv_ok kv) by (constructor; cbn; [done|by right|by left]).
  destruct (emplaced_at kv eq_refl Hkv) as (ctx' & j & E & Hb' & Ef & Eat). exists ctx'. split; [|split; [done|]].
  - unfold gguf_set_val_str. rewrite not_reserved. cbn [mbind res_bind]. unfold kv_string, make_kv. by rewrite bool_decide_eq_false_2.
  - unfold gguf_get_val_str. rewrite Ef, Eat. change (Ok (c_str v) = Ok v). by rewrite c_str_id.
Qed.

Lemma set_gets_texts l i s : l !! i = Some s -> c_string s -> exists ctx', gguf_set_arr_str ctx key l = Ok ctx' /\ gguf_built ctx' /\
  gguf_get_arr_n ctx' (gguf_find_key ctx' key) = Ok (zlen l) /\ gguf_get_arr_str ctx' (gguf_find_key ctx' key) (Z.of_nat i) = Ok s.
Proof using Hb Hc Hne Hna.
  intros Hi Hs. set (kv := texts_pair key l). assert (Hkv : kv_ok kv) by (constructor; cbn; [done|by left|by left]).
  destruct (emplaced_at kv eq_refl Hkv) as (ctx' & j & E & Hb' & Ef & Eat). exists ctx'. split; [|split; [done|split]].
  - unfold gguf_set_arr_str. rewrite not_reserved. cbn [mbind res_bind]. unfold kv_strings, make_kv. by rewrite bool_decide_eq_false_2.
  - unfold gguf_get_arr_n. rewrite Ef, Eat. done.
  - unfold gguf_get_arr_str. rewrite Ef, Eat. cbn -[vget c_str]. rewrite (vget_lookup l i s Hi). cbn [mbind res_bind]. by rewrite c_str_id.
Qed.
End set_get.
