(* ===== verification/GgufCorrect.v ===== *)
(** What GGUF files promise: the theorems about the reader, the writer and the setters of
    [ggml/src/gguf.cpp], with a context as an example and the files that the reader does
    not treat as its messages say. *)
From S2P Require Import Prelude HashSet Alloc Pad Tensor Gguf GgufSpec GgufRead GgufMap GgufEdit.

(** * An example *)

(** Memory for a hundred thousand bytes. *)
Definition demo_memory : Memory := {| mem_fits := fun n => n <=? 100000 |}.

(** A matrix of floats, which are the type 0. *)
Definition demo_gguf_tensor (name : bytes) (ne0 ne1 data : Z) : ggml_tensor :=
  with_data (described name 0 [ne0; ne1; 1; 1] (dense_nb 4 1 [ne0; ne1; 1; 1])) (Some data).

Definition demo_edits : list gguf_edit := [
  SetStr (str "general.name") (str "demo");
  SetVal (str "demo.layers") GGUF_TYPE_UINT32 4;
  SetVal (str "demo.flag") GGUF_TYPE_BOOL 1;
  SetArrData (str "demo.bytes") GGUF_TYPE_UINT16 [1; 2; 3; 4; 5; 6] 3;
  SetArrStr (str "demo.tokens") [str "a"; str "bc"; []];
  SetVal (str "demo.layers") GGUF_TYPE_UINT32 5;
  AddTensor (demo_gguf_tensor (str "w") 3 2 0);
  AddTensor (demo_gguf_tensor (str "b") 3 1 100)].

Definition demo_gguf : gguf_context :=
  match foldM run_edit gguf_init_empty demo_edits with Ok ctx => ctx | Err _ => gguf_init_empty end.

Definition demo_contents (t : ggml_tensor) : bytes := replicate (Z.to_nat (ggml_nbytes t)) (if bool_decide (t_name t = str "w") then 1 else 2).

Definition demo_file : bytes := match gguf_write_to_buf demo_contents demo_gguf [] false with Ok buf => buf | Err _ => [] end.

Ltac decided := lazymatch goal with |- ?P => apply (bool_decide_unpack P); vm_compute; exact I end.

Lemma edits_fit_cons ctx e es ctx' : edit_fits ctx e -> run_edit ctx e = Ok ctx' -> edits_fit ctx' es -> edits_fit ctx (e :: es).
Proof. intros He E Hes. cbn [edits_fit]. by rewrite E. Qed.

Ltac edits := lazymatch goal with |- edits_fit _ (_ :: _) => eapply edits_fit_cons; [|vm_compute; reflexivity|edits] | |- edits_fit _ [] => exact I end.

Lemma demo_tensor_ok name ne0 ne1 data : zlen name < GGML_MAX_NAME -> c_string name -> 1 <= ne0 -> 1 <= ne1 -> unrepresentable ne0 ne1 1 1 = Ok false ->
  tensor_ok (demo_gguf_tensor name ne0 ne1 data).
Proof.
  intros Hl Hc H0 H1 Hr. constructor; [done| |split; [done|split; [done|]]|done].
  - by exists ne0, ne1, 1, 1.
  - exists ne0. change (ne0 = ne0 * 1). lia.
Qed.

Lemma demo_fit_val ctx key type val : c_string key -> 0 < gguf_type_size type -> type <> GGUF_TYPE_BOOL \/ val = 1 -> key <> GGUF_KEY_GENERAL_ALIGNMENT ->
  edit_fits ctx (SetVal key type val).
Proof. intros Hc Hs Hb Hk. split; [done|]. split; [done|]. split; [|done]. intros Ht. destruct Hb; [done|by right]. Qed.

Lemma demo_fit : edits_fit gguf_init_empty demo_edits.
Proof.
  unfold demo_edits. edits.
  - decided.
  - apply demo_fit_val; [decided|vm_compute; reflexivity|by left|decided].
  - apply demo_fit_val; [decided|vm_compute; reflexivity|by right|decided].
  - split; [decided|]. repeat (split; [vm_compute; (reflexivity || discriminate)|]). done.
  - decided.
  - apply demo_fit_val; [decided|vm_compute; reflexivity|by left|decided].
  - split; [apply demo_tensor_ok; [vm_compute; reflexivity|decided|lia|lia|vm_compute; reflexivity]|decided].
  - split; [apply demo_tensor_ok; [vm_compute; reflexivity|decided|lia|lia|vm_compute; reflexivity]|decided].
Qed.

Lemma demo_gguf_built : gguf_built demo_gguf.
Proof. 
  pose proof (edits_built demo_edits gguf_init_empty init_built demo_fit) as H. unfold demo_gguf. destruct (foldM run_edit gguf_init_empty demo_edits) eqn:E; [exact H|].
  vm_compute in E. discriminate.
Qed.

Lemma demo_has_data : Forall (has_data demo_contents) (gc_info demo_gguf).
Proof. unfold has_data. decided. Qed.

(** * The theorems *)

(** C7. GGUF files keep what is written. A well-formed context whose tensors have data is
    written without a failing assertion; and reading the file back, if it is smaller than
    [2 ^ 50] bytes and there is memory for four times its size, gives a context with the
    same version, key-value pairs, alignment and tensors (names, types, shapes, strides
    and offsets). The data section starts at a multiple of the alignment, it is the rest
    of the file, and the bytes of every tensor are found there at the offset of the
    tensor. *)
Theorem gguf_roundtrip {MM : Memory} contents ctx : gguf_ok ctx -> Forall (has_data contents) (gc_info ctx) ->
  exists buf, gguf_write_to_buf contents ctx [] false = Ok buf /\
    (zlen buf < 2 ^ 50 -> (forall n, 0 <= n <= 4 * zlen buf -> mem_fits n = true) ->
     exists ctx', gguf_init_from_file_impl buf true = Ok (Some ctx') /\
       gc_version ctx' = gc_version ctx /\ gc_kv ctx' = gc_kv ctx /\ gc_alignment ctx' = gc_alignment ctx /\
       gc_info ctx' = plain_info <$> gc_info ctx /\ (gc_alignment ctx' | gc_offset ctx') /\
       let blob := drop (Z.to_nat (gc_offset ctx')) buf in
       gc_data ctx' = Some blob /\ zlen blob = gc_size ctx' /\
       forall ti, ti ∈ gc_info ctx -> take (Z.to_nat (ggml_nbytes (ti_t ti))) (drop (Z.to_nat (ti_offset ti)) blob) = contents (ti_t ti)).
Proof.
  intros Hok Hdata. destruct (go_align ctx Hok) as (_ & Hp & Hr). destruct (power_of_2_ok _ Hp ltac:(lia)) as [Hal Hpos].
  set (k := Z.log2 (gc_alignment ctx)) in *. assert (Hk : 0 <= k <= 31) by (split; [apply Z.log2_nonneg|apply Z.lt_succ_r, Z.log2_lt_pow2; lia]).
  assert (Hk62 : 0 <= k <= 62) by lia. exists (file_bytes k contents ctx). split; [by apply write_ok|]. intros HM50 HM.
  exists (read_back k contents ctx). split; [by apply read_ok|]. cbn [read_back gc_version gc_kv gc_alignment gc_info gc_offset gc_data gc_size].
  assert (Eblob : drop (Z.to_nat (zlen (meta_bytes ctx ++ padding (2 ^ k) (zlen (meta_bytes ctx))))) (file_bytes k contents ctx) = concat (tensor_data k contents <$> gc_info ctx)).
  { unfold file_bytes, zlen at 1. rewrite Nat2Z.id. by rewrite drop_app_length. }
  rewrite Eblob. pose proof (go_offsets ctx Hok) as Hoff. rewrite Hal in Hoff. destruct (neg_mod_spec (zlen (meta_bytes ctx)) (2 ^ k) (al_pos k Hk62)) as [Hz Hzd].
  split; [done|]. split; [done|]. split; [done|]. split; [done|]. split; [|split; [done|split; [by apply (zlen_data k Hk62 contents _ 0)|]]].
  - rewrite Hal. unfold padding. by rewrite zlen_app, zlen_replicate by lia.
  - intros ti Hti. pose proof (data_at k Hk62 contents _ 0 ti Hoff Hdata Hti) as E. by rewrite Z.sub_0_r in E.
Qed.

Lemma gguf_roundtrip_witness : exists buf, gguf_write_to_buf demo_contents demo_gguf [] false = Ok buf /\ zlen buf = 352 /\
  exists ctx', @gguf_init_from_file_impl demo_memory buf true = Ok (Some ctx') /\ gc_kv ctx' = gc_kv demo_gguf /\ (ti_name <$> gc_info ctx') = [str "w"; str "b"].
Proof.
  destruct (@gguf_roundtrip demo_memory demo_contents demo_gguf (gb_ok _ demo_gguf_built) demo_has_data) as (buf & Ew & Hr). exists buf.
  assert (El : zlen buf = 352) by (vm_compute in Ew; injection Ew as <-; reflexivity). split; [exact Ew|]. split; [exact El|].
  destruct Hr as (ctx' & H1 & _ & H2 & _ & H3 & _); [rewrite El; reflexivity| |].
  - intros n Hn. rewrite El in Hn. cbn. apply Z.leb_le. lia.
  - exists ctx'. split; [exact H1|]. split; [exact H2|]. rewrite H3. vm_compute. reflexivity.
Defined.

(** C38. What the reader of GGUF files accepts is valid. For every sequence of bytes the
    reader returns nothing or a context in which the keys and the names are distinct, every
    pair has as many bytes as its type demands, every tensor has a name that fits, a known
    type, rows of whole blocks, a number of elements below [2 ^ 63] and the strides of a
    tensor without gaps, the data section is aligned and the offsets are the sums of the
    padded sizes; the blob has the size of the data section, and every tensor lies within
    it as long as the sizes do not overflow. Otherwise it stops with an exception, a failed
    assertion or a division by zero, never endlessly. *)
Theorem gguf_reads_valid {MM : Memory} file load : Forall byte_ok file ->
  post (gguf_init_from_file_impl file load) (fun r => match r with Some ctx => gguf_valid load ctx | None => True end) (fun e => e <> Fuel).
Proof.
  intros Hf. pose proof (reads_gguf load {| fp_rest := file; fp_pos := 0 |} ltac:(by split)) as H. unfold gguf_init_from_file_impl.
  destruct (gguf_read load _) as [[[ctx f]|]|e]; cbn [post] in *; [by destruct H|done|done].
Qed.

Lemma gguf_reads_valid_witness : exists ctx, @gguf_init_from_file_impl demo_memory demo_file true = Ok (Some ctx) /\ gguf_valid true ctx /\ zlen (gc_info ctx) = 2.
Proof.
  assert (Hb : Forall byte_ok demo_file) by (unfold byte_ok; decided). pose proof (@gguf_reads_valid demo_memory demo_file true Hb) as H.
  assert (E : exists ctx, @gguf_init_from_file_impl demo_memory demo_file true = Ok (Some ctx) /\ zlen (gc_info ctx) = 2) by (eexists; split; [vm_compute; reflexivity|reflexivity]).
  destruct E as (ctx & E & El). rewrite E in H. exists ctx. split; [exact E|]. split; [exact H|exact El].
Defined.



(** C40. What is set is found again. For every type of values, the setter of the type with a
    key that is not empty, not reserved and has no null succeeds on a well-formed context,
    and the getter of the type, at the index that the look-up of the key gives in the new
    context, returns the value: integers in their range, floats as their bits, booleans, and
    strings without a null; for an array of strings it is the number of them and each one. *)
Theorem gguf_set_get ctx key : gguf_built ctx -> c_string key -> key <> [] -> key <> GGUF_KEY_GENERAL_ALIGNMENT ->
  (set_gets key (gguf_set_val_u8 ctx key) gguf_get_val_u8 (fun v => 0 <= v < 2 ^ 8) /\
   set_gets key (gguf_set_val_u16 ctx key) gguf_get_val_u16 (fun v => 0 <= v < 2 ^ 16) /\
   set_gets key (gguf_set_val_u32 ctx key) gguf_get_val_u32 (fun v => 0 <= v < 2 ^ 32) /\
   set_gets key (gguf_set_val_u64 ctx key) gguf_get_val_u64 (fun v => 0 <= v < 2 ^ 64)) /\
  (set_gets key (gguf_set_val_i8 ctx key) gguf_get_val_i8 (fun v => - 2 ^ 7 <= v < 2 ^ 7) /\
   set_gets key (gguf_set_val_i16 ctx key) gguf_get_val_i16 (fun v => - 2 ^ 15 <= v < 2 ^ 15) /\
   set_gets key (gguf_set_val_i32 ctx key) gguf_get_val_i32 (fun v => - 2 ^ 31 <= v < 2 ^ 31) /\
   set_gets key (gguf_set_val_i64 ctx key) gguf_get_val_i64 (fun v => - 2 ^ 63 <= v < 2 ^ 63)) /\
  (set_gets key (gguf_set_val_f32 ctx key) gguf_get_val_f32 (fun v => 0 <= v < 2 ^ 32) /\
   set_gets key (gguf_set_val_f64 ctx key) gguf_get_val_f64 (fun v => 0 <= v < 2 ^ 64) /\
   set_gets key (gguf_set_val_bool ctx key) gguf_get_val_bool (fun _ => True) /\
   set_gets key (gguf_set_val_str ctx key) gguf_get_val_str c_string) /\
  (forall l i s, l !! i = Some s -> c_string s -> exists ctx', gguf_set_arr_str ctx key l = Ok ctx' /\ gguf_built ctx' /\
     gguf_get_arr_n ctx' (gguf_find_key ctx' key) = Ok (zlen l) /\ gguf_get_arr_str ctx' (gguf_find_key ctx' key) (Z.of_nat i) = Ok s).
Proof.
  intros Hb Hc Hne Hna. split; [|split; [|split]].
  - split; [|split; [|split]]; [apply (set_gets_unsigned ctx key Hb Hc Hne Hna GGUF_TYPE_UINT8 1)|apply (set_gets_unsigned ctx key Hb Hc Hne Hna GGUF_TYPE_UINT16 2)|
      apply (set_gets_unsigned ctx key Hb Hc Hne Hna GGUF_TYPE_UINT32 4)|apply (set_gets_unsigned ctx key Hb Hc Hne Hna GGUF_TYPE_UINT64 8)]; done || lia.
  - split; [|split; [|split]]; [apply (set_gets_signed ctx key Hb Hc Hne Hna GGUF_TYPE_INT8 1 8)|apply (set_gets_signed ctx key Hb Hc Hne Hna GGUF_TYPE_INT16 2 16)|
      apply (set_gets_signed ctx key Hb Hc Hne Hna GGUF_TYPE_INT32 4 32)|apply (set_gets_signed ctx key Hb Hc Hne Hna GGUF_TYPE_INT64 8 64)]; done || lia.
  - split; [|split; [|split]]; [apply (set_gets_unsigned ctx key Hb Hc Hne Hna GGUF_TYPE_FLOAT32 4)|apply (set_gets_unsigned ctx key Hb Hc Hne Hna GGUF_TYPE_FLOAT64 8)|
      by apply set_gets_bool|by apply set_gets_str]; done || lia.
  - intros l i s. by apply set_gets_texts.
Qed.

Lemma gguf_set_get_witness : exists ctx', gguf_set_val_i32 demo_gguf (str "demo.layers") (-7) = Ok ctx' /\ gguf_built ctx' /\
  gguf_get_val_i32 ctx' (gguf_find_key ctx' (str "demo.layers")) = Ok (-7).
Proof.
  destruct (gguf_set_get demo_gguf (str "demo.layers") demo_gguf_built) as (_ & (_ & _ & H & _) & _); [decided|decided|decided|]. apply H. lia.
Defined.

(** * Files that are not treated as the messages say *)

Definition file_head (n_tensors n_kv : Z) : bytes := GGUF_MAGIC ++ le_bytes 4 GGUF_VERSION ++ le_bytes 8 n_tensors ++ le_bytes 8 n_kv.

Definition file_tensor (name : bytes) (ne : list Z) (type offset : Z) : bytes :=
  gw_string name ++ le_bytes 4 (zlen ne) ++ concat (le_bytes 8 <$> ne) ++ le_bytes 4 type ++ le_bytes 8 offset.

(** A dimension of zero passes the check of the shape, and the next check divides by it. *)
Example zero_dimension_divides : @gguf_init_from_file_impl demo_memory (file_head 1 0 ++ file_tensor (str "w") [3; 0] 0 0) false = Err UB.
Proof. vm_compute. reflexivity. Qed.

(** An empty key stops the program. *)
Example empty_key_aborts : @gguf_init_from_file_impl demo_memory (file_head 0 1 ++ gw_string [] ++ le_bytes 4 GGUF_TYPE_UINT8 ++ [7]) false = Err Abort.
Proof. vm_compute. reflexivity. Qed.

(** So does an alignment of another type. *)
Example alignment_type_aborts :
  @gguf_init_from_file_impl demo_memory (file_head 0 1 ++ gw_string GGUF_KEY_GENERAL_ALIGNMENT ++ le_bytes 4 GGUF_TYPE_UINT64 ++ le_bytes 8 32) false = Err Abort.
Proof. vm_compute. reflexivity. Qed.

(** The exception for a string that is too long is caught for keys, names and arrays, but
    not for a single value. *)
Example long_value_throws :
  @gguf_init_from_file_impl demo_memory (file_head 0 1 ++ gw_string (str "a") ++ le_bytes 4 GGUF_TYPE_STRING ++ le_bytes 8 (2 ^ 62)) false = throw "length_error" /\
  @gguf_init_from_file_impl demo_memory (file_head 0 1 ++ le_bytes 8 (2 ^ 62)) false = Ok None.
Proof. split; vm_compute; reflexivity. Qed.

(** The number of elements is checked, but not the number of bytes, which wraps around. *)
Example size_wraps : exists ctx, @gguf_init_from_file_impl demo_memory (file_head 1 0 ++ file_tensor (str "w") [2 ^ 62] 0 0) true = Ok (Some ctx) /\
  gc_size ctx = 0 /\ gguf_get_tensor_size ctx 0 = Ok 0.
Proof. eexists. split; [vm_compute; reflexivity|]. split; vm_compute; reflexivity. Qed.

(** Setting the key of the alignment does not change the alignment of the context, so the
    tensors are placed and written for another one than the file says, and the file is
    rejected. *)
Definition realigned_edits : list gguf_edit := [
  SetVal GGUF_KEY_GENERAL_ALIGNMENT GGUF_TYPE_UINT32 64;
  AddTensor (demo_gguf_tensor (str "w") 3 2 0);
  AddTensor (demo_gguf_tensor (str "b") 3 1 100)].

Example set_alignment_unreadable : exists ctx buf, foldM run_edit gguf_init_empty realigned_edits = Ok ctx /\ gc_alignment ctx = 32 /\
  gguf_write_to_buf demo_contents ctx [] false = Ok buf /\ @gguf_init_from_file_impl demo_memory buf true = Ok None.
Proof. eexists _, _. split; [vm_compute; reflexivity|]. split; [reflexivity|]. split; [vm_compute; reflexivity|]. vm_compute. reflexivity. Qed.
